(* ===== verification/_CoqProject ===== *)
-Q . S2P
Prelude.v
Hoare.v
Types.v
Heap.v
Sealing.v
Blocks.v
VotingSnapshot.v
Clique.v
CliqueVoting.v
CliqueEngine.v
CliqueSnapshots.v
CliqueVerify.v
CliqueMining.v
Aura.v
AuraVerify.v
StateDB.v
StateRevert.v
Transition.v
TransitionEffect.v
StateTransfer.v
TxSigning.v
StateFinalise.v
Processor.v
TrieEncoding.v
Trie.v
TrieMemory.v
TrieMap.v
TrieRoot.v
Memorydb.v
TrieNode.v
TrieLoad.v
TrieCommit.v
TrieDB.v
TrieDBInv.v
TrieDBGC.v
TrieDBRefs.v
TrieDBFlush.v
TrieDBCap.v
TrieDBSpec.v
TrieStore.v
TxList.v
TxListRuns.v
TxPriced.v
Twin.v
Worker.v
WorkerSpec.v
WorkerBlock.v
ManagedState.v
TxPool.v
TxPoolInv.v
TxPoolOps.v
TxPoolPromote.v
TxPoolLimits.v
TxPoolAdd.v
TxPoolRuns.v
TxPoolReach.v
DiscTable.v
DiscSpec.v
DiscLookup.v
RawDB.v
RawDBSpec.v
HeaderChain.v
BlockChain.v
BlockWrite.v
ChainLookup.v
ChainReorg.v
ChainWrite.v
Sync.v
SyncSpec.v
Protocol.v
ProtocolSpec.v
Genesis.v
Instances.v
CliqueExamples.v
AuraExamples.v
StateExamples.v
TxPoolExamples.v
ChainExamples.v
TrieDBExamples.v
WorkerExamples.v
