(* ===== verification/Prelude.v ===== *)
(** * A verification library for the PoASim simulator

    PoASim runs Ethereum nodes that reach consensus by proof of authority
    (Clique or Aura) over a simulated network.  Paths below are relative to
    [src/network/eth] of the repository unless they start with [src/].

    ** The program and its parts

    A node's miner asks its consensus engine to [Prepare] a header, executes
    transactions on a world state, has the engine [Finalize] and [Seal] the
    block, and announces it.  A node that receives a block has the engine verify
    the header and the seal, processes the transactions on the parent's state,
    compares the outcome with the header and extends its chain.  The library
    follows that path:

    - headers, blocks, receipts, log blooms: [Types.v], [Blocks.v];
    - the seal and the recovery of the signer, common to both engines:
      [Sealing.v]; the voting snapshot, common to both: [VotingSnapshot.v];
    - Clique ([consensus/clique]): [Clique.v] is [Snapshot.apply], [CliqueEngine.v]
      the engine and its RPC interface;
    - Aura ([consensus/aura]): [Aura.v];
    - the world state ([core/state]): [StateDB.v];
    - transactions: signers in [TxSigning.v], execution ([core/state_transition.go],
      [core/vm/evm.go], [core/gaspool.go]) in [Transition.v];
    - block processing and validation ([core/state_processor.go],
      [core/block_validator.go]): [Processor.v];
    - the Merkle Patricia trie ([trie/]): key encodings in [TrieEncoding.v],
      lookup, insertion, deletion and hashing in [Trie.v], nodes
      on disk in [TrieNode.v], the trie database in [TrieDB.v], opening a trie
      by its root in [TrieStore.v];
    - the transaction pool ([core/tx_pool.go], [core/tx_list.go]): binary heaps in
      [Heap.v], the nonce-sorted lists in [TxList.v], the price heap in
      [TxPriced.v], the nonces handed out ([core/state/managed_state.go]) in
      [ManagedState.v], the pool in [TxPool.v];
    - the chain: keys and batches of the store ([ethdb/memorydb],
      [core/rawdb/schema.go]) in [Memorydb.v], the accessors ([core/rawdb]) in
      [RawDB.v], [core/headerchain.go] in [HeaderChain.v], [core/blockchain.go] in
      [BlockChain.v] (heads, lookups, rewinding) and [BlockWrite.v] (fork choice,
      reorganisation, writing, insertion, side chains, blocks of the future,
      receipts), the first block ([core/genesis.go]) in
      [Genesis.v];
    - mining ([miner/]): the order of transactions
      ([TransactionsByPriceAndNonce] of [core/types/transaction.go]), the worker
      and the miner in [Worker.v];
    - synchronisation: what a node serves of its chain, the downloader
      ([downloader/]) and the fetcher ([fetcher/]) in [Sync.v];
    - the Ethereum protocol ([peer.go], [protocol_manager.go], [sync.go]): peers,
      the set of them, broadcasts and the reactions to messages in [Protocol.v];
    - discovery ([src/src/network/discovery]): the table of known nodes, its
      database of pings and the packets it answers in [DiscTable.v], lookups in
      [DiscLookup.v].

    Definitions keep the names of the Go functions they translate.  Every other
    file holds theorems about these, and the [*Examples.v] files apply them
    at concrete inputs through the instances of [Instances.v].

    ** How Go is rendered

    A call returns a value, an error or panics ([Result]); calls that change
    state are functions of it ([GoM]), and keep the changes made before an error
    or a panic.  A [uint64] is a [Z] with wrap-around arithmetic ([%u64]); a
    [big.Int] is a [Z] and, where it may be nil, an option.  Byte arrays of fixed
    length are the numbers they spell.  Maps are [gmap]s; a pointer that is
    shared, as a state object is by its map and the journal, is an entry of the
    state the operations pass on.  Loops and recursion that are not structural
    take fuel: the loop of the worker a turn for every transaction it is offered,
    the walk over headers of [snapshot] as many turns as the number of
    the block plus one, the walks in a trie ([walk_fuel]) two turns per nibble of
    the key, the walks over branches of the chain as many as the height they
    start at, an answer to a request a turn for every header it may have, the
    download one for every missing block, a broadcast one for everything queued, the release of old tries the length of its queue;
    collecting and committing in the trie database go down one level for every
    node in memory, its flush list has as many entries as there are nodes.  Reloading the
    chain may reset it, and the reset reloads it: [loadLastState] allows that
    once, as a reset chain has its head.  The re-import of a side chain calls
    [insertChain] again: its depth is an argument.  The theorems prove the result is reached, so the fuel is enough.

    Code that is not in the repository is an interface with the laws the program
    relies on, each with an instance: hashes and signature recovery ([Crypto],
    [TxCrypto], injective hashing being the class [CollisionFree]), hashes of
    lists ([BlockDigests]), RLP and Keccak on nodes ([NodeDigest], [NodeDecode]),
    the cache of clean nodes ([BigCache]), JSON of
    snapshots ([SnapshotCodec]), LRU caches ([Cache]), the chain access given to
    engines ([ChainReader]), the key-value store ([KeyValueStore]).  Interfaces
    between parts of the program are classes too: [StateTrie] and [StateStore]
    are what the state asks of tries and the code store, [VMState] is what
    transaction execution asks of the state, stated with its laws, and
    [StateTransfer.v] proves that the world state implements it, [VMTwin] what it
    does to two states at once; [WorkerChain] is what the worker asks of the
    chain, the engine and the pool, with the laws [WorkerChainLaws], of which
    [clique_keeps_limits] and [aura_keeps_limits] prove the engines' share;
    [ServedChain] is what the protocol serves of a chain, and
    [chain_serves_canonical_blocks] proves it of [BlockChain.v];
    [LocalChain] and [NodeChain] are the local chain of the downloader and of
    the protocol, [SetPop] takes an element out of a set; [BlockEngine] and
    [BlockStore] are what block validation asks of the engine and the chain.
    The pool asks [PoolChain] for blocks, states and their events, [MapRange] is
    the order in which Go ranges over a map, [TxSize] and [BlockSize] are encoded
    sizes, [StateCopy] copies a state.  The chain asks [Rlp] to encode, [LRU] to
    cache, [ChainEngine] to verify headers, and [ChainState] to open, commit and
    keep states; [SignatureBounds] and [TxHashRange] say that hashes fit their
    32 bytes, [ConfigCodec] and [ContractAddresses] are the JSON of the
    configuration and the address of a new contract.  [StateDisk] is a state
    database opened anew over the store of another, which has the states that were
    committed down to the store.

    Theorems about stateful code are written with [wp] and [returns] of
    [Hoare.v], the weakest precondition of a [GoM] computation.

    ** What is proved

    - [CliqueVoting.v]: the snapshot invariant; a signer joins or leaves only by a
      majority; recent signers may not sign; exactly one signer is in turn.
      [CliqueSnapshots.v]: retrieving a snapshot through caches and checkpoints is
      replaying the chain.  [CliqueVerify.v]: header verification refines a
      specification without caches; the headers it accepts; where it differs
      from [apply].  [CliqueMining.v]: a mined block is accepted everywhere.
    - [Aura.v]: one authority per time, fairness, the panics.
      [AuraVerify.v]: accepted headers, mined blocks, snapshots.
    - [Blocks.v]: blooms have no false negatives.
    - [StateRevert.v]: reverting restores what could be observed.
      [StateFinalise.v]: after any history of a state, reversals included, the
      trie of the finalised state describes its accounts, but for those created
      again while live and not written since.
    - [TransitionEffect.v], [StateTransfer.v]: the exact effect of a message,
      errors in their order, conservation and solvency.  [Processor.v]: the
      same for a block; assembled blocks validate; gas limits.
      [TxSigning.v]: signing and recovering; no replay on another chain.
    - [TrieMemory.v], [TrieMap.v]: a trie is a finite map whose shape depends on
      the contents only.  [TrieRoot.v]: so does its root hash, whatever hashes
      are cached in its nodes.  [TrieNode.v]: nodes are decoded as they were
      encoded.  [TrieLoad.v]: a trie known in part by hash is the same map.
      [TrieCommit.v]: hashing and committing such a trie.
    - [TrieDBInv.v]: the invariant of the trie database, relative to what every
      hash is the hash of; [TrieDBGC.v], [TrieDBRefs.v], [TrieDBFlush.v],
      [TrieDBCap.v]: that its operations keep it.
      [TrieDBSpec.v]: over any run a client may make, what is held or committed
      can be read, after a restart too, and the memory stays within its limit.
      [TrieStore.v]: what a trie commits the database accepts, and the trie can
      be opened again by its root.
    - [TxList.v], [TxListRuns.v]: the nonce-sorted list refines a map, strict
      lists stay gapless.  [TxPriced.v]: the price heap.  [TxPoolInv.v] to
      [TxPoolReach.v]: no history of the pool crashes; what a new head, the
      limits, an addition and a reorganisation leave, and why an addition is
      refused.
    - [RawDBSpec.v]: keys do not clash, blocks and receipts are read as they were
      written.  [ChainLookup.v]: the invariant of the store; the caches are
      invisible.  [ChainReorg.v]: a reorganisation switches branches.
      [ChainWrite.v]: fork choice, what a written block leaves in the store, and
      the chain stays well formed over any history of writes.  [Genesis.v]: a new
      chain is well formed.
    - [Twin.v]: executions of a transaction in two states with the same accounts
      agree, and a transaction that fails and is reverted leaves no trace.
      [WorkerSpec.v]: what a mining cycle keeps is what any node computes; best
      price first; the loop ends.  [WorkerBlock.v]: the blocks that a cycle posts
      and the chain stores are valid; downloads suspend mining.
    - [DiscSpec.v]: the table of a node stays well formed over any history; it
      answers with the nearest live nodes, and only to nodes that answered a
      ping.  [DiscLookup.v]: a lookup ends, having asked every node of its
      result, which is full if anything it heard of is left out, and that is no
      nearer.
    - [SyncSpec.v]: a chain serves its canonical blocks, and above its head what a
      reorganisation left; the common ancestor that is found; which blocks a synchronisation hands to the chain, and when it
      cannot succeed.  [ProtocolSpec.v]: a mined block reaches every peer that
      lacks it in one message, transactions the peers that lack them; a node
      catches up with heavier peers only, if their chain is longer and at most 128
      blocks are missing.

    ** What is not modelled

    The network and its simulation (connections and dialling, messages on their
    way with their latencies, the messages of the handshake, the batches in which
    a new peer is sent the pending transactions, the delivery of discovery's
    packets and its timers), goroutines and timers (those that start a mining
    cycle, its recommit interval in floating point, feeds), the command
    line, metrics and export: they drive the operations above and have no
    contract of their own that Rocq could check without the simulation library.
    RLP and JSON codecs are interfaces.  Of the chain: the flags of Start and
    Stop, exporting, metrics and log lines; the state database is kept apart
    from the key-value store, behind [ChainState].

    The total difficulty of a peer is a value of its own here; in the source it is
    shared with the cache of the other node. *)
From stdpp Require Export base tactics numbers list gmap fin_maps fin_sets sorting strings.
From Stdlib Require Export ZArith Lia.

#[global] Open Scope Z_scope.

(** * Outcomes of Go code

    A Go call returns a value, returns an [error], or panics.  The three
    outcomes are kept apart: an [Err] is a value the caller inspects, a
    [Panic] unwinds the whole call. *)
Inductive go_panic :=
  | NilDereference
  | DivideByZero
  | IndexOutOfRange
  | ExplicitPanic (msg : string)
  | OutOfFuel. (** not of Go: the bound on the turns of a loop ran out *)

Inductive Result (E A : Type) : Type :=
  | Ok (a : A)
  | Err (e : E)
  | Panic (p : go_panic).
Arguments Ok {E A} _.
Arguments Err {E A} _.
Arguments Panic {E A} _.

#[global] Instance result_ret E : MRet (Result E) := λ A a, Ok a.
#[global] Instance result_bind E : MBind (Result E) := λ A B f m,
  match m with Ok a => f a | Err e => Err e | Panic p => Panic p end.

(** State-threading version: the state survives an error or a panic, as the
    heap does in Go. *)
Definition GoM (S E A : Type) : Type := S → Result E A * S.

#[global] Instance gom_ret S E : MRet (GoM S E) := λ A a s, (Ok a, s).
#[global] Instance gom_bind S E : MBind (GoM S E) := λ A B f m s,
  match m s with
  | (Ok a, s') => f a s'
  | (Err e, s') => (Err e, s')
  | (Panic p, s') => (Panic p, s')
  end.

(** Run a computation that does not touch the state. *)
Definition lift {S E A} (r : Result E A) : GoM S E A := λ s, (r, s).
Definition throw {S E A} (e : E) : GoM S E A := λ s, (Err e, s).
Definition panic {S E A} (p : go_panic) : GoM S E A := λ s, (Panic p, s).
Definition get_state {S E} : GoM S E S := λ s, (Ok s, s).
Definition put_state {S E} (s : S) : GoM S E unit := λ _, (Ok tt, s).
Definition modify {S E} (f : S → S) : GoM S E unit := λ s, (Ok tt, f s).

Section result_laws.
Context {E : Type}.
Lemma result_bind_ok {A B} (m : Result E A) (f : A → Result E B) b :
  m ≫= f = Ok b → ∃ a, m = Ok a ∧ f a = Ok b.
Proof. destruct m; cbn; naive_solver. Qed.

(** A guard lets a computation succeed when its condition is false. *)
Lemma guard_ok {A} (b : bool) e (r : Result E A) a :
  (if b then Err e else r) = Ok a ↔ b = false ∧ r = Ok a.
Proof. destruct b; naive_solver. Qed.
End result_laws.

Section gom_laws.
Context {S E : Type}.
Lemma gom_bind_ok {A B} (m : GoM S E A) (f : A → GoM S E B) s b s' :
  (m ≫= f) s = (Ok b, s') → ∃ a s1, m s = (Ok a, s1) ∧ f a s1 = (Ok b, s').
Proof. unfold mbind, gom_bind. destruct (m s) as [[a|e|p] s1]; naive_solver. Qed.
Lemma gom_bind_run {A B} (m : GoM S E A) (f : A → GoM S E B) s a s1 :
  m s = (Ok a, s1) → (m ≫= f) s = f a s1.
Proof. unfold mbind, gom_bind. by intros ->. Qed.
Lemma gom_bind_err {A B} (m : GoM S E A) (f : A → GoM S E B) s e s1 :
  m s = (Err e, s1) → (m ≫= f) s = (Err e, s1).
Proof. unfold mbind, gom_bind. by intros ->. Qed.
Lemma gom_bind_panic {A B} (m : GoM S E A) (f : A → GoM S E B) s p s1 :
  m s = (Panic p, s1) → (m ≫= f) s = (Panic p, s1).
Proof. unfold mbind, gom_bind. by intros ->. Qed.
End gom_laws.

(** Two computations that, from related states, have the same outcome and
    leave related states. *)
Section simulation.
Context {S1 S2 E : Type} (R : S1 → S2 → Prop).
Definition sim {A} (m1 : GoM S1 E A) (m2 : GoM S2 E A) : Prop :=
  ∀ s1 s2, R s1 s2 → (m1 s1).1 = (m2 s2).1 ∧ R (m1 s1).2 (m2 s2).2.

Lemma sim_ret {A} (a : A) : sim (mret a) (mret a).
Proof. done. Qed.
Lemma sim_lift {A} (r : Result E A) : sim (lift r) (lift r).
Proof. done. Qed.
Lemma sim_throw {A} e : sim (A := A) (throw e) (throw e).
Proof. done. Qed.
Lemma sim_panic {A} p : sim (A := A) (panic p) (panic p).
Proof. done. Qed.
Lemma sim_bind {A B} (m1 : GoM S1 E A) m2 (f1 : A → GoM S1 E B) f2 :
  sim m1 m2 → (∀ a, sim (f1 a) (f2 a)) → sim (m1 ≫= f1) (m2 ≫= f2).
Proof.
  intros Hm Hf s1 s2 Hs. destruct (Hm s1 s2 Hs) as [Ho Hs']. unfold mbind, gom_bind.
  destruct (m1 s1) as [[a|e|p] s1'], (m2 s2) as [[a2|e2|p2] s2']; cbn in *; simplify_eq; [|done..].
  by apply Hf.
Qed.
End simulation.
(** A computation whose outcome is the same from every good state, and which
    leaves the state good. *)
Section answers.
Context {S E : Type} (good : S → Prop).
Definition answers {A} (m : GoM S E A) (r : Result E A) : Prop :=
  ∀ s, good s → (m s).1 = r ∧ good (m s).2.

Lemma answers_ret {A} (a : A) : answers (mret a) (Ok a).
Proof. done. Qed.
Lemma answers_lift {A} (r : Result E A) : answers (lift r) r.
Proof. done. Qed.
Lemma answers_throw {A} e : answers (A := A) (throw e) (Err e).
Proof. done. Qed.
Lemma answers_panic {A} p : answers (A := A) (panic p) (Panic p).
Proof. done. Qed.
Lemma answers_bind {A B} (m : GoM S E A) r (f : A → GoM S E B) g :
  answers m r → (∀ a, r = Ok a → answers (f a) (g a)) → answers (m ≫= f) (r ≫= g).
Proof.
  intros Hm Hf s Hs. destruct (Hm s Hs) as [Ho Hs']. unfold mbind, gom_bind.
  destruct (m s) as [o s']. cbn in *. subst o. destruct r; [by apply Hf|done..].
Qed.
Lemma answers_ok_bind {A B} (a : A) (f : A → GoM S E B) r :
  answers (f a) r → answers (lift (Ok a) ≫= f) r.
Proof. done. Qed.
Lemma answers_run {A} (m : GoM S E A) r s :
  answers m r → good s → ∃ s', m s = (r, s') ∧ good s'.
Proof. intros Hm Hs. destruct (Hm s Hs) as [<- ?]. exists (m s).2. by destruct (m s). Qed.
End answers.
(** A computation that leaves a part of the state alone. *)
Section keeps.
Context {S E K : Type} (part : S → K).
Definition keeps {A} (m : GoM S E A) : Prop := ∀ s, part (m s).2 = part s.

Lemma keeps_ret {A} (a : A) : keeps (mret a).
Proof. done. Qed.
Lemma keeps_lift {A} (r : Result E A) : keeps (lift r).
Proof. done. Qed.
Lemma keeps_throw {A} e : keeps (A := A) (throw e).
Proof. done. Qed.
Lemma keeps_panic {A} p : keeps (A := A) (panic p).
Proof. done. Qed.
Lemma keeps_bind {A B} (m : GoM S E A) (f : A → GoM S E B) :
  keeps m → (∀ a, keeps (f a)) → keeps (m ≫= f).
Proof.
  intros Hm Hf s. specialize (Hm s). unfold mbind, gom_bind.
  destruct (m s) as [[a|e|p] s']; cbn in *; [|done..]. by rewrite Hf.
Qed.
End keeps.
Create HintDb sim.
#[export] Hint Resolve keeps_ret keeps_lift keeps_throw keeps_panic : sim.
#[export] Hint Resolve answers_ret answers_lift answers_throw answers_panic : sim.
#[export] Hint Resolve sim_ret sim_lift sim_throw sim_panic : sim.
Ltac sim_steps :=
  repeat first
    [ apply sim_bind; [|intros ?]
    | apply answers_bind; [|intros ? ?]
    | apply keeps_bind; [|intros ?]
    | match goal with |- context [if ?b then _ else _] => destruct b end
    | solve [auto with sim] ].

(** [go_inv H] takes a hypothesis saying that a monadic computation returned
    [Ok] apart, one bind or one guard at a time. *)
Ltac go_inv_step H :=
  lazymatch type of H with
  | (mbind _ _) _ = (Ok _, _) =>
      let a := fresh "a" in let st := fresh "st" in let Hm := fresh "Hm" in
      apply gom_bind_ok in H as (a & st & Hm & H)
  | mbind _ _ = Ok _ =>
      let a := fresh "a" in let Hm := fresh "Hm" in
      apply result_bind_ok in H as (a & Hm & H)
  | (if ?b then _ else _) _ = (Ok _, _) => destruct b eqn:?; try discriminate H
  | (if ?b then _ else _) = Ok _ => destruct b eqn:?; try discriminate H
  | lift _ _ = (Ok _, _) => unfold lift in H; injection H as H <-
  | mret _ _ = (Ok _, _) => injection H as <- <-
  | throw _ _ = (Ok _, _) => discriminate H
  | panic _ _ = (Ok _, _) => discriminate H
  | (Ok _, _) = (Ok _, _) => injection H as H ?; try subst
  | Ok _ = Ok _ => injection H as H; try subst
  end.
Ltac go_inv H := repeat go_inv_step H.

(** * Ranging over a map

    Go visits the entries of a map in an order of its own. *)
Class MapRange := {
  map_range {K A} `{Countable K} : gmap K A → list (K * A);
  map_range_perm {K A} `{Countable K} (m : gmap K A) : map_range m ≡ₚ map_to_list m
}.

(** * Machine integers

    A Go [uint64] is a [Z] in [0, 2^64); the operators below wrap around. *)
Definition u64_modulus : Z := 18446744073709551616.
Definition MaxUint64 : Z := 18446744073709551615.
Definition is_u64 (x : Z) : Prop := 0 ≤ x < u64_modulus.
Definition wrap64 (x : Z) : Z := x mod u64_modulus.
Definition u64_add (a b : Z) : Z := wrap64 (a + b).
Definition u64_sub (a b : Z) : Z := wrap64 (a - b).
Definition u64_mul (a b : Z) : Z := wrap64 (a * b).

Declare Scope u64_scope.
Delimit Scope u64_scope with u64.
Infix "+" := u64_add : u64_scope.
Infix "-" := u64_sub : u64_scope.
Infix "*" := u64_mul : u64_scope.

(** [a % b] and [a / b] on [uint64] panic on a zero divisor. *)
Definition u64_mod {E} (a b : Z) : Result E Z :=
  if b =? 0 then Panic DivideByZero else Ok (a mod b).
Definition u64_div {E} (a b : Z) : Result E Z :=
  if b =? 0 then Panic DivideByZero else Ok (a / b).

Create HintDb go.

Lemma wrap64_id x : is_u64 x → wrap64 x = x.
Proof. unfold wrap64, is_u64. intros. by apply Z.mod_small. Qed.
Lemma wrap64_range x : is_u64 (wrap64 x).
Proof. unfold wrap64, is_u64. apply Z.mod_pos_bound. unfold u64_modulus; lia. Qed.
Lemma u64_add_id a b : is_u64 (a + b) → (a + b)%u64 = a + b.
Proof. apply wrap64_id. Qed.
Lemma u64_sub_id a b : is_u64 (a - b) → (a - b)%u64 = a - b.
Proof. apply wrap64_id. Qed.
Lemma u64_mul_id a b : is_u64 (a * b) → (a * b)%u64 = a * b.
Proof. apply wrap64_id. Qed.
Lemma u64_add_range a b : is_u64 (a + b)%u64.
Proof. apply wrap64_range. Qed.
Lemma u64_sub_range a b : is_u64 (a - b)%u64.
Proof. apply wrap64_range. Qed.
Lemma u64_mul_range a b : is_u64 (a * b)%u64.
Proof. apply wrap64_range. Qed.
#[export] Hint Resolve wrap64_range u64_add_range u64_sub_range u64_mul_range : go.

(** [u64_lia] rewrites the wrapping operators whose result is in range, then
    closes the linear goal. *)
Ltac u64_unfold := unfold is_u64, u64_modulus, MaxUint64 in *.
Ltac u64_lia :=
  repeat first
    [ rewrite u64_add_id by (u64_unfold; lia)
    | rewrite u64_sub_id by (u64_unfold; lia)
    | rewrite u64_mul_id by (u64_unfold; lia)
    | rewrite wrap64_id by (u64_unfold; lia) ];
  u64_unfold; lia.

(** [go_inv_all] does so for every such hypothesis. *)
Ltac go_inv_all :=
  repeat match goal with
  | H : (_, _) = (_, _) |- _ => simplify_eq H
  | H : lift _ _ = (Ok _, _) |- _ => go_inv_step H
  | H : mret _ _ = (Ok _, _) |- _ => go_inv_step H
  | H : throw _ _ = (Ok _, _) |- _ => discriminate H
  | H : panic _ _ = (Ok _, _) |- _ => discriminate H
  | H : mbind _ _ _ = (Ok _, _) |- _ => go_inv_step H
  | H : mbind _ _ = Ok _ |- _ => go_inv_step H
  | H : (if _ then _ else _) _ = (Ok _, _) |- _ => go_inv_step H
  | H : (if _ then _ else _) = Ok _ |- _ => go_inv_step H
  end.

Lemma wrap64_add_l a b : wrap64 (wrap64 a + b) = wrap64 (a + b).
Proof. apply Zplus_mod_idemp_l. Qed.
Lemma wrap64_add_cong a a' b : wrap64 a = wrap64 a' → wrap64 (a + b) = wrap64 (a' + b).
Proof. intros Heq. by rewrite <- (wrap64_add_l a), Heq, wrap64_add_l. Qed.
