(* ===== verification/Hoare.v ===== *)
(** Reasoning about calls that change state: a weakest precondition for [GoM]
    that rules panics out, with a postcondition for results and one for errors,
    and the loops that are shared by the components. *)
From S2P Require Import Prelude.

Section wp.
Context {S E : Type}.

(** [m], started in [s], does not panic; it ends with a result and a state
    related by [Q], or with an error and a state related by [R]. *)
Definition wp {A} (m : GoM S E A) (Q : A → S → Prop) (R : E → S → Prop) (s : S) : Prop :=
  match m s with
  | (Ok a, s') => Q a s'
  | (Err e, s') => R e s'
  | (Panic _, _) => False
  end.
(** [m] ends with a result. *)
Definition returns {A} (m : GoM S E A) (Q : A → S → Prop) (s : S) : Prop := wp m Q (λ _ _, False) s.

Lemma wp_mono {A} (m : GoM S E A) (Q Q' : A → S → Prop) (R R' : E → S → Prop) s :
  wp m Q R s → (∀ a s', Q a s' → Q' a s') → (∀ e s', R e s' → R' e s') → wp m Q' R' s.
Proof. unfold wp. destruct (m s) as [[a|e|p] s']; naive_solver. Qed.
Lemma wp_bind {A B} (m : GoM S E A) (f : A → GoM S E B) Q R s :
  wp m (λ a, wp (f a) Q R) R s → wp (m ≫= f) Q R s.
Proof. unfold wp, mbind, gom_bind. by destruct (m s) as [[a|e|p] s']. Qed.
Lemma wp_ret {A} (a : A) (Q : A → S → Prop) R s : Q a s → wp (mret a) Q R s.
Proof. done. Qed.
Lemma wp_get (Q : S → S → Prop) R s : Q s s → wp get_state Q R s.
Proof. done. Qed.
Lemma wp_modify f (Q : unit → S → Prop) R s : Q tt (f s) → wp (modify f) Q R s.
Proof. done. Qed.
Lemma wp_throw {A} e (Q : A → S → Prop) (R : E → S → Prop) s : R e s → wp (throw e) Q R s.
Proof. done. Qed.
Lemma wp_lift {A} (r : Result E A) a (Q : A → S → Prop) R s : r = Ok a → Q a s → wp (lift r) Q R s.
Proof. by intros ->. Qed.

Lemma returns_mono {A} (m : GoM S E A) (Q Q' : A → S → Prop) s :
  returns m Q s → (∀ a s', Q a s' → Q' a s') → returns m Q' s.
Proof. intros Hm HQ. by eapply wp_mono. Qed.
Lemma returns_wp {A} (m : GoM S E A) (Q Q' : A → S → Prop) R s :
  returns m Q s → (∀ a s', Q a s' → Q' a s') → wp m Q' R s.
Proof. intros Hm HQ. by eapply wp_mono. Qed.
Lemma returns_bind {A B} (m : GoM S E A) (f : A → GoM S E B) Q s :
  returns m (λ a, returns (f a) Q) s → returns (m ≫= f) Q s.
Proof. apply wp_bind. Qed.
Lemma returns_run {A} (m : GoM S E A) (Q : A → S → Prop) s : returns m Q s ↔ ∃ a s', m s = (Ok a, s') ∧ Q a s'.
Proof. unfold returns, wp. destruct (m s) as [[a|e|p] s']; naive_solver. Qed.
Lemma returns_unit (m : GoM S E unit) (Q : S → Prop) s :
  returns m (λ _, Q) s ↔ ∃ s', m s = (Ok tt, s') ∧ Q s'.
Proof. rewrite returns_run. split; [intros ([] & s' & ?); by exists s'|intros (s' & ?); by exists tt, s']. Qed.
Lemma returns_and {A} (m : GoM S E A) (Q Q' : A → S → Prop) s :
  returns m Q s → returns m Q' s → returns m (λ a s', Q a s' ∧ Q' a s') s.
Proof. unfold returns, wp. by destruct (m s) as [[a|e|p] s']. Qed.
End wp.
#[global] Arguments wp : simpl never.
#[global] Arguments returns : simpl never.

(** * Calls whose errors the caller inspects or drops *)
Section loops.
Context {S E : Type}.

Definition attempt {E' A} (m : GoM S E A) : GoM S E' (E + A) := λ s,
  match m s with
  | (Ok a, s') => (Ok (inr a), s')
  | (Err e, s') => (Ok (inl e), s')
  | (Panic p, s') => (Panic p, s')
  end.

(** [for _, x := range l { body }] *)
Fixpoint for_each {A} (l : list A) (body : A → GoM S E unit) : GoM S E unit :=
  match l with
  | [] => mret tt
  | x :: l => body x;; for_each l body
  end.
(** The same, with a variable of the enclosing function. *)
Fixpoint for_acc {A B} (l : list A) (body : A → B → GoM S E B) (b : B) : GoM S E B :=
  match l with
  | [] => mret b
  | x :: l => b ← body x b; for_acc l body b
  end.

Lemma returns_attempt {E' A} (m : GoM S E A) (Q : E + A → S → Prop) s :
  wp m (λ a, Q (inr a)) (λ e, Q (inl e)) s → returns (E := E') (attempt m) Q s.
Proof. unfold returns, wp, attempt. by destruct (m s) as [[a|e|p] s']. Qed.

(** A loop with an invariant over the elements that are left. *)
Lemma returns_for_each {A} (I : list A → S → Prop) (body : A → GoM S E unit) l s :
  I l s → (∀ x l s, I (x :: l) s → returns (body x) (λ _, I l) s) → returns (for_each l body) (λ _, I []) s.
Proof.
  intros Hs Hbody. revert s Hs. induction l as [|x l IH]; intros s Hs; [done|].
  apply returns_bind. eapply returns_mono; [by apply Hbody|]. intros [] s' Hs'. by apply IH.
Qed.
Lemma returns_for_acc {A B} (I : list A → B → S → Prop) (body : A → B → GoM S E B) l b s :
  I l b s → (∀ x l b s, I (x :: l) b s → returns (body x b) (I l) s) → returns (for_acc l body b) (I []) s.
Proof.
  intros Hs Hbody. revert b s Hs. induction l as [|x l IH]; intros b s Hs; [done|].
  apply returns_bind. eapply returns_mono; [by apply Hbody|]. intros b' s' Hs'. by apply IH.
Qed.
End loops.

(** Running a call by its steps: the pure ones are discharged, a call that has a
    specification of its own is left to the proof. *)
Ltac wp_step :=
  lazymatch goal with
  | |- wp (mbind _ _) _ _ _ => apply wp_bind
  | |- returns (mbind _ _) _ _ => apply returns_bind
  | |- wp (mret _) _ _ _ => apply wp_ret
  | |- returns (mret _) _ _ => apply wp_ret
  | |- wp get_state _ _ _ => apply wp_get
  | |- returns get_state _ _ => apply wp_get
  | |- wp (modify _) _ _ _ => apply wp_modify
  | |- returns (modify _) _ _ => apply wp_modify
  | |- wp (throw _) _ _ _ => apply wp_throw
  | |- wp (lift (Ok _)) _ _ _ => eapply wp_lift; [reflexivity|]
  | |- returns (lift (Ok _)) _ _ => eapply wp_lift; [reflexivity|]
  | |- wp (match _ with _ => _ end) _ _ _ => progress cbv beta iota
  | |- returns (match _ with _ => _ end) _ _ => progress cbv beta iota
  end.
Ltac wp_steps := repeat wp_step.
