(* ===== verification/Types.v ===== *)
(** Data shared by the consensus, chain and state components: addresses,
    hashes, headers and blocks ([core/types/block.go], [common/types.go]), the
    engine configurations ([params/config.go]) and the chain access the
    engines are given ([consensus/consensus.go]). *)
From S2P Require Import Prelude.

(** ** Fixed-width byte arrays

    [Address] is a [20]byte and [Hash] a [32]byte array; both are the
    big-endian numbers they spell.  [array_bytes n] lists the [n] bytes of such
    a number and [bytes_array] reads them back. *)
Abbreviation byte := Z (only parsing).
Abbreviation Address := Z (only parsing).
Abbreviation Hash := Z (only parsing).
Abbreviation BlockNonce := Z (only parsing).

Definition AddressLength : nat := 20.
Definition HashLength : nat := 32.
Definition zero_address : Address := 0.
Definition zero_hash : Hash := 0.

Definition is_byte (b : byte) : Prop := 0 ≤ b < 256.
Definition is_address (a : Address) : Prop := 0 ≤ a < 256 ^ 20.

Fixpoint array_bytes (n : nat) (x : Z) : list byte :=
  match n with
  | O => []
  | S n' => array_bytes n' (x / 256) ++ [x mod 256]
  end.

Definition bytes_array (bs : list byte) : Z := foldl (λ acc b, acc * 256 + b) 0 bs.

Lemma array_bytes_length n x : length (array_bytes n x) = n.
Proof. revert x; induction n as [|n IH]; intros x; cbn; [done|]. rewrite length_app, IH; cbn; lia. Qed.

Lemma bytes_array_app l b : bytes_array (l ++ [b]) = bytes_array l * 256 + b.
Proof. unfold bytes_array. by rewrite foldl_app. Qed.

Lemma bytes_array_of_number n x :
  0 ≤ x < 256 ^ Z.of_nat n → bytes_array (array_bytes n x) = x.
Proof.
  revert x; induction n as [|n IH]; intros x Hx; cbn [array_bytes].
  - cbn in *. change (256 ^ Z.of_nat 0) with 1 in Hx. lia.
  - rewrite Nat2Z.inj_succ, Z.pow_succ_r in Hx by lia.
    rewrite bytes_array_app, IH; [pose proof (Z.div_mod x 256); lia|].
    split; [apply Z.div_pos; lia | apply Z.div_lt_upper_bound; lia].
Qed.

Lemma array_bytes_inj n x y :
  0 ≤ x < 256 ^ Z.of_nat n → 0 ≤ y < 256 ^ Z.of_nat n →
  array_bytes n x = array_bytes n y → x = y.
Proof.
  intros Hx Hy Heq.
  by rewrite <- (bytes_array_of_number n x Hx), <- (bytes_array_of_number n y Hy), Heq.
Qed.

(** ** Headers and blocks

    [Difficulty] and [Number] are [*big.Int] and may be nil.  [Bloom] is the
    2048-bit filter. *)
Record Header := mkHeader {
  ParentHash : Hash;
  UncleHash : Hash;
  Coinbase : Address;
  Root : Hash;
  TxHash : Hash;
  ReceiptHash : Hash;
  Bloom : Z;
  Difficulty : option Z;
  Number : option Z;
  GasLimit : Z;
  GasUsed : Z;
  Time : Z;
  Extra : list byte;
  MixDigest : Hash;
  Nonce : BlockNonce
}.

#[export] Instance header_eq_dec : EqDecision Header.
Proof. solve_decision. Defined.

Definition header_tuple (h : Header) :=
  ((ParentHash h, UncleHash h, Coinbase h, Root h, TxHash h, ReceiptHash h, Bloom h, Difficulty h),
   (Number h, GasLimit h, GasUsed h, Time h, Extra h, MixDigest h, Nonce h)).

Lemma header_tuple_inj h h' : header_tuple h = header_tuple h' → h = h'.
Proof. destruct h, h'; unfold header_tuple; cbn; intros; by simplify_eq. Qed.

(** [x.Uint64()] on a [*big.Int]: the low 64 bits; nil dereferences. *)
Definition Uint64 {E} (x : option Z) : Result E Z :=
  match x with Some n => Ok (wrap64 n) | None => Panic NilDereference end.

(** Functional updates, one per field the engines assign. *)
Definition with_Coinbase (h : Header) (c : Address) : Header :=
  mkHeader (ParentHash h) (UncleHash h) c (Root h) (TxHash h) (ReceiptHash h) (Bloom h)
    (Difficulty h) (Number h) (GasLimit h) (GasUsed h) (Time h) (Extra h) (MixDigest h) (Nonce h).
Definition with_Nonce (h : Header) (n : BlockNonce) : Header :=
  mkHeader (ParentHash h) (UncleHash h) (Coinbase h) (Root h) (TxHash h) (ReceiptHash h) (Bloom h)
    (Difficulty h) (Number h) (GasLimit h) (GasUsed h) (Time h) (Extra h) (MixDigest h) n.
Definition with_Difficulty (h : Header) (d : option Z) : Header :=
  mkHeader (ParentHash h) (UncleHash h) (Coinbase h) (Root h) (TxHash h) (ReceiptHash h) (Bloom h)
    d (Number h) (GasLimit h) (GasUsed h) (Time h) (Extra h) (MixDigest h) (Nonce h).
Definition with_Extra (h : Header) (e : list byte) : Header :=
  mkHeader (ParentHash h) (UncleHash h) (Coinbase h) (Root h) (TxHash h) (ReceiptHash h) (Bloom h)
    (Difficulty h) (Number h) (GasLimit h) (GasUsed h) (Time h) e (MixDigest h) (Nonce h).
Definition with_MixDigest (h : Header) (m : Hash) : Header :=
  mkHeader (ParentHash h) (UncleHash h) (Coinbase h) (Root h) (TxHash h) (ReceiptHash h) (Bloom h)
    (Difficulty h) (Number h) (GasLimit h) (GasUsed h) (Time h) (Extra h) m (Nonce h).
Definition with_Time (h : Header) (t : Z) : Header :=
  mkHeader (ParentHash h) (UncleHash h) (Coinbase h) (Root h) (TxHash h) (ReceiptHash h) (Bloom h)
    (Difficulty h) (Number h) (GasLimit h) (GasUsed h) t (Extra h) (MixDigest h) (Nonce h).
Definition with_UncleHash (h : Header) (u : Hash) : Header :=
  mkHeader (ParentHash h) u (Coinbase h) (Root h) (TxHash h) (ReceiptHash h) (Bloom h)
    (Difficulty h) (Number h) (GasLimit h) (GasUsed h) (Time h) (Extra h) (MixDigest h) (Nonce h).
Definition with_Root (h : Header) (r : Hash) : Header :=
  mkHeader (ParentHash h) (UncleHash h) (Coinbase h) r (TxHash h) (ReceiptHash h) (Bloom h)
    (Difficulty h) (Number h) (GasLimit h) (GasUsed h) (Time h) (Extra h) (MixDigest h) (Nonce h).

(** ** Engine configurations *)
Record CliqueConfig := mkCliqueConfig { cl_Period : Z; cl_Epoch : Z }.
Record AuraConfig := mkAuraConfig {
  au_Period : Z; au_Epoch : Z; au_Authorities : list Address; au_Difficulty : option Z }.

(** ** The chain as the engines see it

    [ChainReader] is the part of the Go interface the engines call. *)
Class ChainReader (C : Type) := {
  CurrentHeader : C → option Header;
  GetHeader : C → Hash → Z → option Header;
  GetHeaderByNumber : C → Z → option Header;
  GetHeaderByHash : C → Hash → option Header
}.

(** ** Caches

    The engines keep snapshots and recovered signers in [lru.ARCCache]s of
    [github.com/hashicorp/golang-lru].  A cache may drop entries at any time
    and reorders itself on a lookup, but it never invents an entry, and a key
    that is present has the value stored last: [cache_holds c k v] says that
    [c] may still answer [v] for [k]. *)
Class Cache (K V C : Type) := {
  cache_get : K → C → option V * C;
  cache_add : K → V → C → C;
  cache_holds : C → K → V → Prop
}.

Class CacheLaws (K V C : Type) `{Cache K V C} := {
  cache_get_sound k c v c' : cache_get k c = (Some v, c') → cache_holds c k v;
  cache_get_holds k c k' v' : cache_holds (cache_get k c).2 k' v' → cache_holds c k' v';
  cache_add_holds k v c k' v' :
    cache_holds (cache_add k v c) k' v' →
    (k' = k ∧ v' = v) ∨ (k' ≠ k ∧ cache_holds c k' v')
}.

(** An unbounded cache meets the laws. *)
#[export] Instance gmap_cache `{Countable K} V : Cache K V (gmap K V) := {
  cache_get k c := (c !! k, c);
  cache_add k v c := <[k := v]> c;
  cache_holds c k v := c !! k = Some v
}.
#[export] Instance gmap_cache_laws `{Countable K} V : CacheLaws K V (gmap K V).
Proof.
  split; cbn.
  - intros k c v c' Heq. by simplify_eq.
  - done.
  - intros k v c k' v' Hk. destruct (decide (k' = k)) as [->|]; simplify_map_eq; auto.
Qed.

(** So does one that has no room at all. *)
#[export] Instance unit_cache K V : Cache K V unit | 10 := {
  cache_get k c := (None, tt);
  cache_add k v c := tt;
  cache_holds c k v := False
}.
#[export] Instance unit_cache_laws K V : CacheLaws K V unit | 10.
Proof. by split. Qed.

(** ** Transactions and blocks *)
Record Transaction := mkTransaction {
  AccountNonce : Z;
  Price : Z;
  TxGasLimit : Z;
  Recipient : option Address;
  Amount : Z;
  Payload : list byte;
  SigV : Z; SigR : Z; SigS : Z
}.
#[export] Instance transaction_eq_dec : EqDecision Transaction.
Proof. solve_decision. Defined.

Record Block := mkBlock {
  block_header : Header;
  block_uncles : list Header;
  block_transactions : list Transaction
}.

(** [WithSeal]: the block with its header replaced. *)
Definition WithSeal (b : Block) (h : Header) : Block :=
  mkBlock h (block_uncles b) (block_transactions b).

(** ** Key-value stores

    The part of [ethdb.Database] the engines use.  A key is a name space and a
    hash, as in [append([]byte("clique-"), hash[:]...)]; [None] is an error of
    the store. *)
Class KeyValueStore (D : Type) := {
  kv_get : string * Hash → D → option (list byte);
  kv_put : string * Hash → list byte → D → option D
}.
Class KeyValueLaws (D : Type) `{KeyValueStore D} := {
  kv_put_some k v d : is_Some (kv_put k v d);
  kv_get_put k v d d' k' :
    kv_put k v d = Some d' → kv_get k' d' = if decide (k' = k) then Some v else kv_get k' d
}.

#[export] Instance gmap_store : KeyValueStore (gmap (string * Hash) (list byte)) := {
  kv_get k d := d !! k;
  kv_put k v d := Some (<[k := v]> d)
}.
#[export] Instance gmap_store_laws : KeyValueLaws (gmap (string * Hash) (list byte)).
Proof.
  split; cbn; [by eauto|]. intros k v d d' k' [= <-].
  case_decide as Hk; [by subst; rewrite lookup_insert_eq|by rewrite lookup_insert_ne].
Qed.

(** [CopyHeader]: nil big integers become zero. *)
Definition CopyHeader (h : Header) : Header :=
  mkHeader (ParentHash h) (UncleHash h) (Coinbase h) (Root h) (TxHash h) (ReceiptHash h) (Bloom h)
    (Some (default 0 (Difficulty h))) (Some (default 0 (Number h))) (GasLimit h) (GasUsed h)
    (Time h) (Extra h) (MixDigest h) (Nonce h).

(** ** Durations

    A [time.Duration] is an [int64] of nanoseconds. *)
Definition wrap_i64 (x : Z) : Z := (x + 9223372036854775808) mod u64_modulus - 9223372036854775808.
Definition second_ns : Z := 1000000000.
(** [ToDuration] ([util/utils.go]) on a whole number of seconds. *)
Definition ToDuration (seconds : Z) : Z := wrap_i64 (seconds * second_ns).
