(* ===== verification/Heap.v ===== *)
(** Go's [container/heap], on slices as lists: a binary heap ordered by a
    [Less] function.  The program keeps its nonce and price indexes in such
    heaps. *)
From S2P Require Import Prelude.

(** The parent of a position. *)
Definition parent (k : nat) : nat := ((k - 1) / 2)%nat.

Lemma parent_spec k : (0 < k)%nat → (k = 2 * parent k + 1 ∨ k = 2 * parent k + 2)%nat.
Proof. intros Hk. unfold parent. pose proof (Nat.div_mod_eq (k - 1) 2). pose proof (Nat.mod_upper_bound (k - 1) 2). lia. Qed.
Lemma parent_lt k : (0 < k)%nat → (parent k < k)%nat.
Proof. intros Hk. destruct (parent_spec k Hk); lia. Qed.
Lemma parent_child k i : (0 < k)%nat → parent k = i ↔ (k = 2 * i + 1 ∨ k = 2 * i + 2)%nat.
Proof. intros Hk. destruct (parent_spec k Hk); lia. Qed.

Section heap.
Context {A : Type} (less : A → A → bool).
Implicit Types l : list A.

(** [h.Less(i, j)] and [h.Swap(i, j)] *)
Definition Less l (i j : nat) : bool :=
  match l !! i, l !! j with Some x, Some y => less x y | _, _ => false end.
Definition Swap l (i j : nat) : list A :=
  match l !! i, l !! j with Some x, Some y => <[i := y]> (<[j := x]> l) | _, _ => l end.

Fixpoint up_loop (fuel : nat) l (j : nat) : list A :=
  match fuel with
  | O => l
  | S fuel =>
      let i := parent j in
      if bool_decide (i = j) || negb (Less l j i) then l else up_loop fuel (Swap l i j) i
  end.
(** The position halves at every turn. *)
Definition up l (j : nat) : list A := up_loop (S j) l j.

(** The slice and the position the element has sunk to. *)
Fixpoint down_loop (fuel : nat) l (i n : nat) : list A * nat :=
  match fuel with
  | O => (l, i)
  | S fuel =>
      let j1 := (2 * i + 1)%nat in
      if bool_decide (n ≤ j1)%nat then (l, i) else
      let j2 := (j1 + 1)%nat in
      let j := if bool_decide (j2 < n)%nat && Less l j2 j1 then j2 else j1 in
      if negb (Less l j i) then (l, i) else down_loop fuel (Swap l i j) j n
  end.
Definition down l (i0 n : nat) : list A * bool :=
  let '(l, i) := down_loop (S n) l i0 n in (l, bool_decide (i0 < i)%nat).

(** The loop from [n/2 - 1] down to zero. *)
Fixpoint init_loop (i : nat) l (n : nat) : list A :=
  match i with O => l | S i => init_loop i (down l i n).1 n end.
Definition Init l : list A := init_loop (length l / 2) l (length l).
Definition Push l (x : A) : list A := up (l ++ [x]) (length l).

(** [h.Pop] takes the last element. *)
Definition pop_last {E} l : Result E (A * list A) :=
  match last l with Some x => Ok (x, take (length l - 1) l) | None => Panic IndexOutOfRange end.
Definition Pop {E} l : Result E (A * list A) :=
  let n := (length l - 1)%nat in pop_last (down (Swap l 0 n) 0 n).1.
Definition Remove {E} l (i : nat) : Result E (A * list A) :=
  let n := (length l - 1)%nat in
  pop_last (if bool_decide (n = i) then l
            else let '(l, moved) := down (Swap l i n) i n in if moved : bool then l else up l i).
End heap.

(** ** What holds of any [less] *)
Lemma Swap_length {A} (l : list A) i j : length (Swap l i j) = length l.
Proof. unfold Swap. destruct (l !! i), (l !! j); by rewrite ?length_insert. Qed.
Lemma Swap_perm {A} (l : list A) i j : Swap l i j ≡ₚ l.
Proof.
  unfold Swap. destruct (l !! i) as [x|] eqn:Hx, (l !! j) as [y|] eqn:Hy; try done.
  by apply Permutation_insert_swap.
Qed.
(** Lookups after a swap. *)
Definition swapped (i j k : nat) : nat := if decide (k = i) then j else if decide (k = j) then i else k.
Lemma Swap_lookup {A} (l : list A) i j k : (i < length l)%nat → (j < length l)%nat → Swap l i j !! k = l !! swapped i j k.
Proof.
  intros Hi Hj. destruct (lookup_lt_is_Some_2 l i Hi) as [x Hx], (lookup_lt_is_Some_2 l j Hj) as [y Hy].
  unfold Swap, swapped. rewrite Hx, Hy. case_decide as Hki; [subst; by rewrite list_lookup_insert_eq by by rewrite length_insert|].
  rewrite list_lookup_insert_ne by done. case_decide as Hkj; [subst; by rewrite list_lookup_insert_eq|].
  by rewrite list_lookup_insert_ne.
Qed.
Lemma down_loop_perm {A} (less : A → A → bool) fuel (l : list A) i n : (n ≤ length l)%nat →
  (down_loop less fuel l i n).1 ≡ₚ l ∧ ∀ k, (n ≤ k)%nat → (down_loop less fuel l i n).1 !! k = l !! k.
Proof.
  revert l i. induction fuel as [|fuel IH]; intros l i Hn; [done|]. cbn [down_loop].
  case_bool_decide; [done|]. set (j := if _ && _ then _ else _).
  destruct (Less less l j i) eqn:Hl; cbn [negb]; [|done].
  assert (j < n)%nat as Hj by (unfold j; case_bool_decide; cbn [andb]; [destruct (Less less l _ _)|]; lia).
  assert (i < j)%nat by (unfold j; destruct (_ && _); lia).
  destruct (IH (Swap l i j) j) as [Hp Hrest]; [by rewrite Swap_length|]. split; [by rewrite Hp, Swap_perm|].
  intros k Hk. rewrite Hrest, Swap_lookup by lia. unfold swapped. repeat case_decide; try lia. done.
Qed.
(** An entry comes off the front of a non-empty slice. *)
Lemma Pop_perm {A E} (less : A → A → bool) (l : list A) x : head l = Some x →
  ∃ l', Pop less (E := E) l = Ok (x, l') ∧ l ≡ₚ x :: l'.
Proof.
  intros Hx. rewrite head_lookup in Hx. pose proof (lookup_lt_Some _ _ _ Hx) as Hlen. unfold Pop, down.
  set (n := (length l - 1)%nat). assert (n < length l)%nat by (unfold n; lia).
  destruct (down_loop_perm less (S n) (Swap l 0 n) 0 n) as [Hp Hrest]; [rewrite Swap_length; lia|].
  destruct (down_loop less (S n) (Swap l 0 n) 0 n) as [l1 i1]. cbn [fst] in *.
  assert (l1 ≡ₚ l) as Hp1 by by rewrite Hp, Swap_perm.
  assert (l1 !! n = Some x) as Hlast.
  { rewrite Hrest, Swap_lookup by lia. unfold swapped. repeat case_decide; congruence. }
  assert (length l1 = S n) as Hl1 by (rewrite (Permutation_length Hp1); unfold n; lia).
  exists (take n l1). unfold pop_last. rewrite last_lookup, Hl1. cbn [Nat.pred]. rewrite Hlast. replace (S n - 1)%nat with n by lia. split; [done|].
  rewrite <- Hp1. rewrite <- (take_drop n l1) at 1. rewrite (drop_S _ x), (drop_ge l1) by (done || lia). by rewrite Permutation_app_comm.
Qed.

Lemma up_loop_perm {A} (less : A → A → bool) fuel (l : list A) j : up_loop less fuel l j ≡ₚ l.
Proof.
  revert l j. induction fuel as [|fuel IH]; intros l j; [done|]. cbn [up_loop]. destruct (_ || _); [done|]. by rewrite IH, Swap_perm.
Qed.
Lemma Push_perm {A} (less : A → A → bool) (l : list A) x : Push less l x ≡ₚ x :: l.
Proof. unfold Push, up. rewrite up_loop_perm. symmetry. apply Permutation_cons_append. Qed.

(** ** Orders that agree on the elements of a heap *)
Section ext.
Context {A : Type} (less less' : A → A → bool).
Definition agree_on (l : list A) : Prop := ∀ x y, x ∈ l → y ∈ l → less x y = less' x y.
Lemma agree_on_perm l l' : l ≡ₚ l' → agree_on l → agree_on l'.
Proof. intros Hp Hl x y. rewrite <- !Hp. apply Hl. Qed.
Lemma agree_on_swap l i j : agree_on l → agree_on (Swap l i j).
Proof. apply agree_on_perm. symmetry. apply Swap_perm. Qed.
Lemma Less_ext l i j : agree_on l → Less less l i j = Less less' l i j.
Proof.
  intros Hl. unfold Less. destruct (l !! i) as [x|] eqn:Hx, (l !! j) as [y|] eqn:Hy; try done.
  apply Hl; by eapply list_elem_of_lookup_2.
Qed.
Lemma up_loop_ext fuel l j : agree_on l → up_loop less fuel l j = up_loop less' fuel l j.
Proof.
  revert l j. induction fuel as [|fuel IH]; intros l j Hl; [done|]. cbn [up_loop]. rewrite Less_ext by done.
  destruct (_ || _); [done|]. by apply IH, agree_on_swap.
Qed.
Lemma down_loop_ext fuel l i n : agree_on l → down_loop less fuel l i n = down_loop less' fuel l i n.
Proof.
  revert l i. induction fuel as [|fuel IH]; intros l i Hl; [done|]. cbn [down_loop]. rewrite !Less_ext by done.
  case_bool_decide; [done|]. destruct (negb _); [done|]. by apply IH, agree_on_swap.
Qed.
Lemma Push_ext l x : agree_on (x :: l) → Push less l x = Push less' l x.
Proof. intros Hl. apply up_loop_ext. eapply agree_on_perm; [|exact Hl]. apply Permutation_cons_append. Qed.
Lemma Pop_ext {E} l : agree_on l → Pop less (E := E) l = Pop less' l.
Proof. intros Hl. unfold Pop, down. by rewrite down_loop_ext by by apply agree_on_swap. Qed.
End ext.

(** * Correctness *)
Section heap_laws.
Context {A : Type} (less : A → A → bool).
(** [less] is a strict weak order. *)
Class WeakOrder := {
  less_asym x y : less x y = true → less y x = false;
  not_less_trans x y z : less y x = false → less z y = false → less z x = false
}.
Context `{WeakOrder}.
Implicit Types l : list A.

(** The element at [i] is not above the one at [j]. *)
Definition le_at l (i j : nat) : Prop := ∀ x y, l !! i = Some x → l !! j = Some y → less y x = false.
(** The heap order on the first [n] elements. *)
Definition ordered l (n : nat) : Prop := ∀ k, (0 < k < n)%nat → le_at l (parent k) k.
Definition heap l : Prop := ordered l (length l).

Lemma le_at_trans l i j k : (j < length l)%nat → le_at l i j → le_at l j k → le_at l i k.
Proof.
  intros Hj Hij Hjk x z Hx Hz. destruct (lookup_lt_is_Some_2 l j Hj) as [y Hy].
  by eapply (not_less_trans x y z); eauto.
Qed.
Lemma le_at_refl l i : le_at l i i.
Proof.
  intros x y Hx Hy. rewrite Hx in Hy. injection Hy as <-. destruct (less x x) eqn:Hl; [|done].
  by rewrite (less_asym x x) in Hl.
Qed.
Lemma Less_true l i j : Less less l i j = true → le_at l i j ∧ (i < length l)%nat ∧ (j < length l)%nat.
Proof.
  unfold Less. destruct (l !! i) as [x|] eqn:Hx, (l !! j) as [y|] eqn:Hy; try done. intros Hl.
  split_and!; [|by eapply lookup_lt_Some..]. intros x' y' Hx' Hy'. simplify_eq. by apply less_asym.
Qed.
Lemma Less_false l i j : Less less l i j = false → le_at l j i.
Proof. unfold Less. intros Hl y x Hy Hx. by rewrite Hx, Hy in Hl. Qed.

Lemma le_at_swap l i j a b : (i < length l)%nat → (j < length l)%nat →
  le_at (Swap l i j) a b ↔ le_at l (swapped i j a) (swapped i j b).
Proof. intros Hi Hj. unfold le_at. by rewrite !Swap_lookup. Qed.

(** ** Sinking

    The order holds except around [i]; what is below [i] is not above its
    parent.  [moved] says the order also holds between [i] and its parent. *)
Record sinking l (r n i : nat) (moved : Prop) : Prop := {
  sk_order k : (0 < k < n)%nat → (r ≤ parent k)%nat → parent k ≠ i → k ≠ i → le_at l (parent k) k;
  sk_bypass k : (0 < k < n)%nat → parent k = i → (0 < i)%nat → (r ≤ parent i)%nat → le_at l (parent i) k;
  sk_moved : moved → (0 < i)%nat → (r ≤ parent i)%nat → le_at l (parent i) i
}.

Lemma sink_step l r n i j (moved : Prop) : (n ≤ length l)%nat → (0 < j < n)%nat → parent j = i → (r ≤ i)%nat →
  (∀ k, (0 < k < n)%nat → parent k = i → le_at l j k) → le_at l j i →
  sinking l r n i moved → sinking (Swap l i j) r n j True.
Proof.
  intros Hn Hj Hp Hr Hsib Hji [Ho Hb Hm].
  assert (i < j)%nat as Hij by (rewrite <- Hp; apply parent_lt; lia).
  assert (swapped i j i = j) as Hsi by (unfold swapped; by case_decide).
  assert (swapped i j j = i) as Hsj by (unfold swapped; repeat case_decide; congruence || lia).
  assert (∀ k, k ≠ i → k ≠ j → swapped i j k = k) as Hsk by (intros k ??; unfold swapped; by repeat case_decide).
  split; setoid_rewrite le_at_swap; try lia.
  - intros k Hk Hrk Hpk Hkj. pose proof (parent_lt k ltac:(lia)). destruct (decide (k = i)) as [->|Hki].
    + rewrite Hsi, (Hsk (parent i)) by lia. apply Hb; [done..|lia|done].
    + rewrite (Hsk k) by done. destruct (decide (parent k = i)) as [Hpi|Hpi].
      * rewrite Hpi, Hsi. by apply Hsib.
      * rewrite Hsk by done. by apply Ho.
  - intros k Hk Hpk _ _. pose proof (parent_lt k ltac:(lia)). rewrite Hp, Hsi, Hsk by lia.
    rewrite <- Hpk. apply Ho; lia.
  - intros _ _ _. by rewrite Hp, Hsi, Hsj.
Qed.

Lemma down_loop_ok fuel l r n i (moved : Prop) : (n ≤ length l)%nat → (r ≤ i)%nat → (n < i + fuel)%nat →
  sinking l r n i moved → ∃ l' i', down_loop less fuel l i n = (l', i') ∧ l' ≡ₚ l ∧ (i ≤ i')%nat ∧ (i' = i → l' = l) ∧
    sinking l' r n i' (moved ∨ i ≠ i') ∧ (∀ k, (0 < k < n)%nat → parent k = i' → le_at l' i' k) ∧
    (∀ k, (n ≤ k)%nat → l' !! k = l !! k).
Proof.
  revert l i moved. induction fuel as [|fuel IH]; intros l i moved Hn Hr Hfuel Hs; cbn [down_loop].
  { exists l, i. split_and!; try done.
    - destruct Hs as [Ho Hb Hm]. split; [done..|]. intros [?|?]; [by apply Hm|done].
    - intros k Hk Hp. pose proof (parent_lt k). lia. }
  assert (sinking l r n i (moved ∨ i ≠ i)) as Hstop by (destruct Hs as [Ho Hb Hm]; split; [done..|intros [?|?]; [by apply Hm|done]]).
  case_bool_decide as Hleaf.
  { exists l, i. split_and!; try done. intros k Hk Hp. apply parent_child in Hp; lia. }
  set (j := if bool_decide (2 * i + 1 + 1 < n)%nat && Less less l (2 * i + 1 + 1) (2 * i + 1) then (2 * i + 1 + 1)%nat else (2 * i + 1)%nat).
  assert ((0 < j < n)%nat ∧ parent j = i ∧ ∀ k, (0 < k < n)%nat → parent k = i → le_at l j k) as (Hj & Hp & Hsib).
  { unfold j. case_bool_decide as H2; cbn [andb].
    - destruct (Less less l _ _) eqn:Hl; (split; [lia|]); (split; [apply parent_child; lia|]); intros k Hk [->| ->]%parent_child; try lia.
      + by apply Less_true in Hl as [? _].
      + replace (2 * i + 2)%nat with (2 * i + 1 + 1)%nat by lia. apply le_at_refl.
      + apply le_at_refl.
      + replace (2 * i + 2)%nat with (2 * i + 1 + 1)%nat by lia. by apply Less_false in Hl.
    - split; [lia|]. split; [apply parent_child; lia|]. intros k Hk [->| ->]%parent_child; try lia. apply le_at_refl. }
  assert (i < j)%nat by (rewrite <- Hp; apply parent_lt; lia).
  destruct (Less less l j i) eqn:Hl; cbn [negb].
  - apply Less_true in Hl as (Hji & _ & Hi).
    destruct (IH (Swap l i j) j True) as (l' & i' & Hrun & Hperm & Hle & _ & Hs' & Hch & Hrest); [by rewrite Swap_length|lia..| |].
    { by eapply sink_step. }
    exists l', i'. split_and!; [done|by rewrite Hperm, Swap_perm|lia|lia| |done|].
    + destruct Hs' as [Ho Hb Hm]. split; [done..|]. intros _. apply Hm. by left.
    + intros k Hk. rewrite Hrest, Swap_lookup by lia. unfold swapped. repeat case_decide; try lia. done.
  - exists l, i. split_and!; try done. intros k Hk Hpk. apply Less_false in Hl.
    apply (le_at_trans _ _ j); [lia|done|by apply Hsib].
Qed.

(** ** Rising *)
Record rising l (n j : nat) : Prop := {
  rs_order k : (0 < k < n)%nat → k ≠ j → le_at l (parent k) k;
  rs_bypass k : (0 < k < n)%nat → parent k = j → (0 < j)%nat → le_at l (parent j) k
}.
Lemma up_loop_ok fuel l n j : (n ≤ length l)%nat → (j < n)%nat → (j < fuel)%nat → rising l n j →
  up_loop less fuel l j ≡ₚ l ∧ ordered (up_loop less fuel l j) n ∧ ∀ k, (n ≤ k)%nat → up_loop less fuel l j !! k = l !! k.
Proof.
  revert l j. induction fuel as [|fuel IH]; intros l j Hn Hj Hfuel [Ho Hb]; [lia|]. cbn [up_loop].
  case_bool_decide as Htop; cbn [orb].
  { split_and!; [done| |done]. intros k Hk. apply Ho; [done|]. intros ->. pose proof (parent_lt j). lia. }
  assert (0 < j)%nat as Hj0 by (destruct j; [by destruct Htop|lia]). pose proof (parent_lt j Hj0) as Hpj.
  destruct (Less less l j (parent j)) eqn:Hl; cbn [negb].
  2: { split_and!; [done| |done]. intros k Hk. destruct (decide (k = j)) as [->|]; [by apply Less_false in Hl|by apply Ho]. }
  apply Less_true in Hl as (Hji & _).
  assert (∀ k, k ≠ parent j → k ≠ j → swapped (parent j) j k = k) as Hsk by (intros; unfold swapped; by repeat case_decide).
  assert (swapped (parent j) j (parent j) = j) as Hsi by (unfold swapped; by case_decide).
  assert (swapped (parent j) j j = parent j) as Hsj by (unfold swapped; repeat case_decide; congruence || lia).
  destruct (IH (Swap l (parent j) j) (parent j)) as (Hperm & Hord & Hrest); [by rewrite Swap_length|lia..| |].
  - split; setoid_rewrite le_at_swap; try lia.
    + intros k Hk Hkp. pose proof (parent_lt k ltac:(lia)). destruct (decide (k = j)) as [->|Hkj]; [by rewrite Hsi, Hsj|].
      rewrite (Hsk k) by done. destruct (decide (parent k = parent j)) as [Hpp|Hpp].
      * rewrite Hpp, Hsi. apply (le_at_trans _ _ (parent j)); [lia|done|]. rewrite <- Hpp. by apply Ho.
      * destruct (decide (parent k = j)) as [Hpk|Hpk]; [rewrite Hpk, Hsj; by apply Hb|]. rewrite Hsk by done. by apply Ho.
    + intros k Hk Hpk Hp0. pose proof (parent_lt (parent j) Hp0). rewrite (Hsk (parent (parent j))) by lia.
      assert (le_at l (parent (parent j)) (parent j)) as Hpp by (apply Ho; lia).
      destruct (decide (k = j)) as [->|Hkj]; [by rewrite Hsj|]. pose proof (parent_lt k ltac:(lia)). rewrite Hsk by lia.
      apply (le_at_trans _ _ (parent j)); [lia|done|]. rewrite <- Hpk. apply Ho; lia.
  - split_and!; [by rewrite Hperm, Swap_perm|done|]. intros k Hk. rewrite Hrest, Swap_lookup by lia.
    unfold swapped. repeat case_decide; try lia. done.
Qed.

(** ** The operations *)
Lemma ordered_lt l n m : ordered l n → (m ≤ n)%nat → ordered l m.
Proof. intros Hl Hm k Hk. apply Hl. lia. Qed.

(** The first element of a heap is the least. *)
Lemma ordered_head l n : ordered l n → (n ≤ length l)%nat → ∀ k, (k < n)%nat → le_at l 0 k.
Proof.
  intros Hl Hn k. induction k as [k IH] using lt_wf_ind. intros Hk.
  destruct k as [|k]; [apply le_at_refl|]. pose proof (parent_lt (S k) ltac:(lia)).
  apply (le_at_trans _ _ (parent (S k))); [lia|apply IH; lia|apply Hl; lia].
Qed.
Lemma heap_head l x : heap l → head l = Some x → ∀ y, y ∈ l → less y x = false.
Proof.
  intros Hl Hx y [k Hk]%list_elem_of_lookup.
  apply (ordered_head l _ Hl (le_n _) k (lookup_lt_Some _ _ _ Hk)); [by rewrite <- head_lookup|done].
Qed.

Lemma Push_ok l x : heap l → heap (Push less l x) ∧ Push less l x ≡ₚ x :: l.
Proof.
  intros Hl. unfold Push, up. destruct (up_loop_ok (S (length l)) (l ++ [x]) (length (l ++ [x])) (length l)) as (Hp & Ho & _).
  - done.
  - rewrite length_app. cbn. lia.
  - lia.
  - rewrite length_app. cbn [length]. split.
    + intros k Hk Hkl a b. assert (k < length l)%nat by lia. pose proof (parent_lt k ltac:(lia)).
      rewrite !lookup_app_l by lia. apply Hl. lia.
    + intros k Hk Hpk. pose proof (parent_lt k ltac:(lia)). lia.
  - split; [|rewrite Hp; by rewrite Permutation_app_comm]. unfold heap. by rewrite (Permutation_length Hp).
Qed.

Lemma pop_last_ok {E} l l0 x n : l ≡ₚ l0 → length l = S n → l !! n = Some x → ordered l n →
  ∃ l', pop_last (E := E) l = Ok (x, l') ∧ l0 ≡ₚ x :: l' ∧ heap l'.
Proof.
  intros Hp Hlen Hx Hord. exists (take n l). unfold pop_last. rewrite last_lookup, Hlen. cbn [Nat.pred]. rewrite Hx.
  replace (S n - 1)%nat with n by lia. split_and!; [done| |].
  - rewrite <- Hp. rewrite <- (take_drop n l) at 1. rewrite (drop_S _ x) by done.
    rewrite (drop_ge l) by lia. by rewrite Permutation_app_comm.
  - unfold heap. rewrite length_take. intros k Hk a b. pose proof (parent_lt k ltac:(lia)). rewrite !lookup_take_lt by lia. apply Hord. lia.
Qed.

Lemma Pop_ok {E} l x : heap l → head l = Some x →
  ∃ l', Pop less (E := E) l = Ok (x, l') ∧ l ≡ₚ x :: l' ∧ heap l'.
Proof.
  intros Hl Hx. rewrite head_lookup in Hx. pose proof (lookup_lt_Some _ _ _ Hx) as Hlen. set (n := (length l - 1)%nat).
  assert (n < length l)%nat as Hn by (unfold n; lia). unfold Pop. fold n.
  destruct (down_loop_ok (S n) (Swap l 0 n) 0 n 0 False) as (l' & i' & Hrun & Hp & _ & _ & Hs & Hch & Hrest);
    [rewrite Swap_length; lia|lia|lia| |].
  - split; [|lia|done]. intros k Hk _ Hpk Hk0. pose proof (parent_lt k ltac:(lia)). rewrite le_at_swap by lia.
    unfold swapped. repeat case_decide; try lia. apply Hl. lia.
  - unfold down. rewrite Hrun. cbn [fst]. apply (pop_last_ok l' l x n).
    + by rewrite Hp, Swap_perm.
    + rewrite (Permutation_length Hp), Swap_length. unfold n. lia.
    + rewrite Hrest, Swap_lookup by lia. unfold swapped. repeat case_decide; try done. congruence.
    + intros k Hk. pose proof (parent_lt k ltac:(lia)). destruct (decide (parent k = i')) as [Hpk|Hpk]; [subst i'; by apply Hch|].
      destruct (decide (k = i')) as [->|Hki]; [|apply (sk_order _ _ _ _ _ Hs); [lia..|done|done]].
      apply (sk_moved _ _ _ _ _ Hs); [right; lia|lia..].
Qed.

Lemma Remove_ok {E} l i x : heap l → l !! i = Some x →
  ∃ l', Remove less (E := E) l i = Ok (x, l') ∧ l ≡ₚ x :: l' ∧ heap l'.
Proof.
  intros Hl Hx. pose proof (lookup_lt_Some _ _ _ Hx) as Hi. set (n := (length l - 1)%nat).
  unfold Remove. fold n. case_bool_decide as Hni.
  { subst i. apply (pop_last_ok l l x n); [done|unfold n; lia|done|]. eapply ordered_lt; [exact Hl|unfold n; lia]. }
  assert (i < n)%nat as Hin by (unfold n in *; lia).
  destruct (down_loop_ok (S n) (Swap l i n) 0 n i False) as (l' & i' & Hrun & Hp & Hle & Hsame & Hs & Hch & Hrest);
    [rewrite Swap_length; lia|lia|lia| |].
  - split; [| |done].
    + intros k Hk _ Hpk Hki. pose proof (parent_lt k ltac:(lia)). rewrite le_at_swap by lia.
      unfold swapped. repeat case_decide; try lia. apply Hl. lia.
    + intros k Hk Hpk Hi0 _. pose proof (parent_lt k ltac:(lia)). pose proof (parent_lt i Hi0). rewrite le_at_swap by lia.
      unfold swapped. repeat case_decide; try lia. apply (le_at_trans _ _ i); [lia|apply Hl; lia|]. rewrite <- Hpk. apply Hl. lia.
  - assert (length l' = S n) as Hlen by (rewrite (Permutation_length Hp), Swap_length; unfold n; lia).
    assert (l' !! n = Some x) as Hlast.
    { rewrite Hrest, Swap_lookup by lia. unfold swapped. repeat case_decide; congruence. }
    unfold down. rewrite Hrun. case_bool_decide as Hmoved.
    + apply (pop_last_ok l' l x n); [by rewrite Hp, Swap_perm|done|done|].
      intros k Hk. destruct (decide (parent k = i')) as [Hpk|Hpk]; [subst i'; by apply Hch|].
      destruct (decide (k = i')) as [->|Hki]; [|apply (sk_order _ _ _ _ _ Hs); [lia..|done|done]].
      apply (sk_moved _ _ _ _ _ Hs); [right; lia|lia..].
    + assert (i' = i) as -> by lia. unfold up.
      destruct (up_loop_ok (S i) l' n i) as (Hp' & Hord & Hrest'); [lia|lia|lia| |].
      { split; [|intros k Hk Hpk Hi0; apply (sk_bypass _ _ _ _ _ Hs); [done|done|done|lia]].
        intros k Hk Hki. destruct (decide (parent k = i)) as [Hpk|Hpk]; [subst i; by apply Hch|].
        apply (sk_order _ _ _ _ _ Hs); [done|lia|done|done]. }
      apply (pop_last_ok _ l x n); [by rewrite Hp', Hp, Swap_perm|by rewrite (Permutation_length Hp')| |done].
      by rewrite Hrest'.
Qed.

(** Heapifying: the order holds from the position of the loop on. *)
Lemma init_loop_ok i l n : n = length l → (n < 2 * i + 2)%nat ∨ (∀ k, (0 < k < n)%nat → (i ≤ parent k)%nat → le_at l (parent k) k) →
  init_loop less i l n ≡ₚ l ∧ ordered (init_loop less i l n) n.
Proof.
  intros Hn Hpre. assert (∀ k, (0 < k < n)%nat → (i ≤ parent k)%nat → le_at l (parent k) k) as Hi.
  { destruct Hpre as [Hbig|?]; [|done]. intros k Hk Hik. destruct (parent_spec k); lia. }
  clear Hpre. revert l Hn Hi. induction i as [|i IH]; intros l Hn Hi; cbn [init_loop]; [split; [done|]; intros k Hk; apply Hi; lia|].
  destruct (down_loop_ok (S n) l i n i False) as (l' & i' & Hrun & Hp & _ & _ & Hs & Hch & _); [lia|lia|lia| |].
  { split; [|intros k Hk Hpk Hi0 Hr; pose proof (parent_lt i); lia|done]. intros k Hk Hr Hpk _. apply Hi; lia. }
  unfold down. rewrite Hrun. cbn [fst]. destruct (IH l') as (Hp' & Ho); [by rewrite (Permutation_length Hp)| |].
  - intros k Hk Hik. destruct (decide (parent k = i')) as [Hpk|Hpk]; [subst i'; by apply Hch|].
    destruct (decide (k = i')) as [->|Hki]; [|by apply (sk_order _ _ _ _ _ Hs)].
    apply (sk_moved _ _ _ _ _ Hs); [right; pose proof (parent_lt i'); lia|lia|done].
  - split; [by rewrite Hp', Hp|done].
Qed.
Lemma Init_ok l : heap (Init less l) ∧ Init less l ≡ₚ l.
Proof.
  unfold Init. destruct (init_loop_ok (length l / 2) l (length l)) as [Hp Ho]; [done| |].
  { left. pose proof (Nat.div_mod_eq (length l) 2). pose proof (Nat.mod_upper_bound (length l) 2). lia. }
  split; [|done]. unfold heap. by rewrite (Permutation_length Hp).
Qed.
End heap_laws.
