(* ===== verification/Sealing.v ===== *)
(** Block sealing shared by both proof-of-authority engines: the hash that is
    signed ([SealHash], [encodeSigHeader]) and the recovery of the signer
    through the signature cache ([ecrecover]), which [consensus/clique] and
    [consensus/aura] each declare with the same body. *)
From S2P Require Import Prelude Types.

(** Keccak256 over RLP ([golang.org/x/crypto/sha3], [go-ethereum/rlp]) and the
    public-key recovery of [go-ethereum/crypto] are not part of this program.
    [rlpHash] is the composition the program uses on headers; it is
    collision free, which is what makes hashes usable as keys. *)
Class Crypto := {
  rlpHash : Header → Hash;
  crypto_Ecrecover : Hash → list byte → option (list byte);
  crypto_Keccak256 : list byte → list byte
}.
Class CollisionFree `{Crypto} := rlpHash_inj :: Inj (=) (=) rlpHash.

Definition extraVanity : nat := 32.
Definition extraSeal : nat := 65.

(** [Header.Hash] *)
Definition Header_Hash `{Crypto} (h : Header) : Hash := rlpHash h.

(** What preparing a header for mining leaves alone or provides, whichever the
    engine: its number and gas fields stay, and it has a difficulty. *)
Record keeps_limits (h h' : Header) : Prop := {
  kl_number : Number h' = Number h;
  kl_limit : GasLimit h' = GasLimit h;
  kl_used : GasUsed h' = GasUsed h;
  kl_bloom : Bloom h' = Bloom h;
  kl_difficulty : is_Some (Difficulty h')
}.

(** [copy(signer[:], src)] into a fresh address. *)
Definition copy_address (src : list byte) : Address :=
  bytes_array (take AddressLength (src ++ replicate AddressLength 0)).

Section sealing.
Context `{Crypto} {E : Type}.

(** [encodeSigHeader] lists every field of the header in order, with the 65
    byte signature cut off the extra data: the RLP list is that of the
    header with the shortened [Extra]. *)
Definition encodeSigHeader (h : Header) : Result E Header :=
  if bool_decide (length (Extra h) < extraSeal)%nat then Panic IndexOutOfRange
  else Ok (with_Extra h (take (length (Extra h) - extraSeal) (Extra h))).

Definition SealHash (h : Header) : Result E Hash :=
  sig ← encodeSigHeader h; mret (rlpHash sig).

Context {C : Type} `{Cache Hash Address C}.
Context (errMissingSignature errCrypto : E).

Definition ecrecover (h : Header) : GoM C E Address :=
  c ← get_state;
  let hash := Header_Hash h in
  let '(cached, c') := cache_get hash c in
  put_state c' ≫= λ _,
  match cached with
  | Some address => mret address
  | None =>
      if bool_decide (length (Extra h) < extraSeal)%nat then throw errMissingSignature
      else
        let signature := drop (length (Extra h) - extraSeal) (Extra h) in
        seal ← lift (SealHash h);
        match crypto_Ecrecover seal signature with
        | None => throw errCrypto
        | Some [] => panic IndexOutOfRange
        | Some (_ :: pubkey) =>
            let signer := copy_address (drop 12 (crypto_Keccak256 pubkey)) in
            modify (cache_add hash signer) ≫= λ _, mret signer
        end
  end.
End sealing.

(** What [ecrecover] answers with no cache at all. *)
Definition author `{Crypto} {E} (errMissingSignature errCrypto : E) (h : Header) : Result E Address :=
  (ecrecover errMissingSignature errCrypto h tt).1.

Section coherence.
Context `{CollisionFree} {E C : Type} `{CacheLaws Hash Address C}.
Context (em ec : E).

(** Every entry of the signature cache is the signer of its header. *)
Definition sig_coherent (c : C) : Prop :=
  ∀ h a, cache_holds c (Header_Hash h) a → author em ec h = Ok a.

Lemma ecrecover_coherent c h :
  sig_coherent c →
  ∃ c', ecrecover em ec h c = (author em ec h, c') ∧ sig_coherent c'.
Proof.
  intros Hc. unfold author, ecrecover, mbind, gom_bind, get_state, put_state. cbn.
  destruct (cache_get (Header_Hash h) c) as [[a|] c'] eqn:Hget.
  - exists c'. split.
    + pose proof (Hc h a (cache_get_sound _ _ _ _ Hget)) as Ha. revert Ha.
      unfold author, ecrecover, mbind, gom_bind, get_state, put_state. cbn.
      by intros ->.
    + intros h' a' Hh. eapply Hc, cache_get_holds. by rewrite Hget.
  - assert (sig_coherent c') as Hc'.
    { intros h' a' Hh. eapply Hc, cache_get_holds. by rewrite Hget. }
    case_bool_decide as Hlen; [by exists c'|]. unfold lift.
    destruct (SealHash h) as [seal|e|p] eqn:Hseal; [|by exists c'|by exists c'].
    destruct (crypto_Ecrecover seal _) as [[|b pk]|] eqn:Hrec; [by exists c'| |by exists c'].
    eexists; split; [reflexivity|].
    intros h' a' Hh. apply cache_add_holds in Hh as [[Heq ->]|[Hne Hh]]; [|by eapply Hc'].
    apply (inj rlpHash) in Heq as ->.
    unfold author, ecrecover, mbind, gom_bind, get_state, put_state. cbn.
    by rewrite bool_decide_false, Hseal by done; cbn; rewrite Hrec.
Qed.
End coherence.

(** * The sealed header *)
Section sealing.
Context `{Crypto}.
Implicit Types (header : Header) (sighash : list byte).

(** The vanity prefix: padded with zeros, then cut, to 32 bytes. *)
Definition vanity (extra : list byte) : list byte :=
  take extraVanity (extra ++ replicate (extraVanity - length extra) 0).

(** [copy(header.Extra[len(header.Extra)-extraSeal:], sighash)] *)
Definition put_seal (header : Header) (sighash : list byte) : Header :=
  let keep := take (length (Extra header) - extraSeal) (Extra header) in
  let room := drop (length (Extra header) - extraSeal) (Extra header) in
  with_Extra header (keep ++ take extraSeal sighash ++ drop (length sighash) room).

Lemma vanity_length extra : length (vanity extra) = extraVanity.
Proof. unfold vanity. rewrite length_take, length_app, length_replicate. lia. Qed.

(** Writing a full signature replaces the last 65 bytes and nothing else. *)
Lemma put_seal_extra header sighash :
  (extraSeal ≤ length (Extra header))%nat → length sighash = extraSeal →
  Extra (put_seal header sighash) = take (length (Extra header) - extraSeal) (Extra header) ++ sighash.
Proof.
  intros Hlen Hsig. unfold put_seal. cbn [Extra with_Extra]. f_equal.
  rewrite take_ge, drop_ge, app_nil_r; [done|..]; rewrite ?length_drop; lia.
Qed.

Lemma encodeSigHeader_put_seal {E} header sighash :
  (extraSeal ≤ length (Extra header))%nat → length sighash = extraSeal →
  encodeSigHeader (E := E) (put_seal header sighash) = encodeSigHeader header.
Proof.
  intros Hlen Hsig. pose proof (put_seal_extra _ _ Hlen Hsig) as Hx. unfold encodeSigHeader. rewrite Hx.
  rewrite length_app, length_take, Hsig, !bool_decide_false by lia.
  replace (_ - extraSeal)%nat with (length (Extra header) - extraSeal)%nat at 1 by lia.
  rewrite take_app_le by (rewrite length_take; lia). by rewrite take_take, Nat.min_id.
Qed.

(** The key store answers with a signature that recovers to the account. *)
Definition honest_key (signFn : Address → Header → option (list byte)) (signer : Address) : Prop :=
  ∀ sig, ∃ sighash b pubkey,
    signFn signer sig = Some sighash ∧ length sighash = extraSeal ∧
    crypto_Ecrecover (rlpHash sig) sighash = Some (b :: pubkey) ∧
    copy_address (drop 12 (crypto_Keccak256 pubkey)) = signer.

Lemma author_put_seal {E} (em ec : E) header sighash sig b pubkey :
  encodeSigHeader (E := E) header = Ok sig → length sighash = extraSeal →
  crypto_Ecrecover (rlpHash sig) sighash = Some (b :: pubkey) →
  author em ec (put_seal header sighash) = Ok (copy_address (drop 12 (crypto_Keccak256 pubkey))).
Proof.
  intros Henc Hsig Hrec.
  assert (extraSeal ≤ length (Extra header))%nat as Hlen.
  { unfold encodeSigHeader in Henc. case_bool_decide; [done|lia]. }
  pose proof (put_seal_extra _ _ Hlen Hsig) as Hx.
  unfold author, ecrecover, SealHash, mbind, gom_bind, get_state, put_state.
  cbn -[extraSeal put_seal]. rewrite (encodeSigHeader_put_seal _ _ Hlen Hsig), Henc, Hx.
  rewrite length_app, length_take, Hsig, bool_decide_false by lia.
  cbn -[extraSeal]. rewrite drop_app_ge by (rewrite length_take; lia).
  replace (_ - _)%nat with O by (rewrite length_take; lia). by rewrite drop_0, Hrec.
Qed.
End sealing.
