(* ===== verification/Blocks.v ===== *)
(** Blocks, receipts and log blooms ([core/types/block.go], [receipt.go],
    [log.go], [bloom9.go]). *)
From S2P Require Import Prelude Types Sealing.

(** * Logs and receipts *)
Record Log := mkLog {
  lAddress : Address; lTopics : list Hash; lData : list byte;
  lBlockNumber : Z; lTxHash : Hash; lTxIndex : Z; lBlockHash : Hash; lIndex : Z; lRemoved : bool }.

Record Receipt := mkReceipt {
  rPostState : list byte; rStatus : Z; rCumulativeGasUsed : Z; rBloom : Z; rLogs : list Log;
  rTxHash : Hash; rContractAddress : Address; rGasUsed : Z;
  rBlockHash : Hash; rBlockNumber : option Z; rTransactionIndex : Z }.

Definition ReceiptStatusFailed : Z := 0.
Definition ReceiptStatusSuccessful : Z := 1.

(** * Blooms

    A [Bloom] is a 2048-bit big-endian array, kept as the number it spells. *)
Definition BloomBitLength : Z := 2048.

Section bloom.
Context `{Crypto}.

(** The three bit positions come from the first six bytes of the hash. *)
Definition bloom_bit (b : list byte) (i : nat) : Z :=
  Z.land (default 0 (b !! (i + 1)%nat) + Z.shiftl (default 0 (b !! i)) 8) 2047.
Definition bloom9 (data : list byte) : Z :=
  let b := crypto_Keccak256 data in
  foldl (λ r i, Z.lor r (Z.shiftl 1 (bloom_bit b i))) 0 [0; 2; 4]%nat.

Definition log_bloom (bin : Z) (l : Log) : Z :=
  foldl (λ bin topic, Z.lor bin (bloom9 (array_bytes HashLength topic)))
    (Z.lor bin (bloom9 (array_bytes AddressLength (lAddress l)))) (lTopics l).
Definition LogsBloom (logs : list Log) : Z := foldl log_bloom 0 logs.

(** [BytesToBloom] of the bytes of a number: [SetBytes] panics on more than
    256 bytes. *)
Definition BytesToBloom (bin : Z) : Result unit Z :=
  if 2 ^ BloomBitLength <=? bin then Panic (ExplicitPanic "bloom bytes too big") else Ok bin.

Definition CreateBloom (receipts : list Receipt) : Result unit Z :=
  BytesToBloom (foldl (λ bin r, Z.lor bin (LogsBloom (rLogs r))) 0 receipts).

(** [BloomLookup] of something with these bytes. *)
Definition BloomLookup (bin : Z) (topic : list byte) : bool :=
  Z.land bin (bloom9 topic) =? bloom9 topic.

(** [big.Int.SetBytes] then [Bytes]: the leading zero bytes are lost. *)
Fixpoint strip_zeros (b : list byte) : list byte :=
  match b with 0 :: b' => strip_zeros b' | _ => b end.
Definition Bloom_Add (bloom : Z) (d : list byte) : Result unit Z :=
  BytesToBloom (Z.lor bloom (bloom9 (strip_zeros d))).
Definition Bloom_TestBytes (bloom : Z) (test : list byte) : bool :=
  BloomLookup bloom (strip_zeros test).
End bloom.

(** * Blocks

    The hashes of the lists a block carries: [rlpHash] on headers, and
    [DeriveSha], the root of a Merkle trie over the RLP encodings. *)
Class BlockDigests := {
  rlpHash_headers : list Header → Hash;
  DeriveSha_Transactions : list Transaction → Hash;
  DeriveSha_Receipts : list Receipt → Hash
}.

Section blocks.
Context `{BlockDigests} `{Crypto}.

Definition EmptyRootHash : Hash := DeriveSha_Transactions [].
Definition EmptyUncleHash : Hash := rlpHash_headers [].
Definition CalcUncleHash (uncles : list Header) : Hash :=
  match uncles with [] => EmptyUncleHash | _ => rlpHash_headers uncles end.

Definition with_digests (h : Header) (tx uncle receipt : Hash) (bloom : Z) : Header :=
  mkHeader (ParentHash h) uncle (Coinbase h) (Root h) tx receipt bloom (Difficulty h) (Number h)
    (GasLimit h) (GasUsed h) (Time h) (Extra h) (MixDigest h) (Nonce h).

Definition NewBlock (header : Header) (txs : list Transaction) (uncles : list Header)
    (receipts : list Receipt) : Result unit Block :=
  let header := CopyHeader header in
  let txhash := match txs with [] => EmptyRootHash | _ => DeriveSha_Transactions txs end in
  bloom ← match receipts with [] => mret (Bloom header) | _ => CreateBloom receipts end;
  let receipthash := match receipts with [] => EmptyRootHash | _ => DeriveSha_Receipts receipts end in
  mret (mkBlock (with_digests header txhash (CalcUncleHash uncles) receipthash bloom)
          (CopyHeader <$> uncles) txs).

Definition NewBlockWithHeader (header : Header) : Block := mkBlock (CopyHeader header) [] [].
End blocks.

Section bloom_lemmas.
Context `{Crypto}.

(** All bits of [a] are in [b]. *)
Definition bits_in (a b : Z) : Prop := Z.land b a = a.

Lemma bits_in_refl a : bits_in a a.
Proof. apply Z.land_diag. Qed.
Lemma bits_in_lor_l a b c : bits_in a b → bits_in a (Z.lor b c).
Proof.
  unfold bits_in. intros Hab. apply Z.bits_inj'. intros n Hn. rewrite <- Hab at 2.
  rewrite !Z.land_spec, Z.lor_spec. apply (f_equal (λ x, Z.testbit x n)) in Hab.
  rewrite Z.land_spec in Hab. by destruct (Z.testbit a n), (Z.testbit b n), (Z.testbit c n).
Qed.
Lemma bits_in_lor_r a b c : bits_in a b → bits_in a (Z.lor c b).
Proof. rewrite Z.lor_comm. apply bits_in_lor_l. Qed.

(** A disjunction over a list keeps the bits it starts from and has those of
    every element. *)
Lemma foldl_lor_start {A} (f : A → Z) l a b :
  bits_in a b → bits_in a (foldl (λ bin x, Z.lor bin (f x)) b l).
Proof. revert b. induction l as [|x l IH]; cbn; auto using bits_in_lor_l. Qed.
Lemma foldl_lor_elem {A} (f : A → Z) l x a b :
  x ∈ l → bits_in a (f x) → bits_in a (foldl (λ bin y, Z.lor bin (f y)) b l).
Proof.
  revert b. induction l as [|y l IH]; intros b Hx Ha; [by apply elem_of_nil in Hx|].
  apply elem_of_cons in Hx as [<-|Hx]; cbn; [|by apply IH].
  by apply foldl_lor_start, bits_in_lor_r.
Qed.
Lemma lor_bound a b k : 0 ≤ k → 0 ≤ a < 2 ^ k → 0 ≤ b < 2 ^ k → 0 ≤ Z.lor a b < 2 ^ k.
Proof.
  intros Hk Ha Hb. assert (Z.lor a b = Z.lor a b mod 2 ^ k) as ->.
  { by rewrite <- Z.land_ones, Z.land_lor_distr_l, !Z.land_ones, !Z.mod_small. }
  apply Z.mod_pos_bound. lia.
Qed.
Lemma foldl_lor_bound {A} (f : A → Z) l b k :
  0 ≤ k → 0 ≤ b < 2 ^ k → (∀ x, 0 ≤ f x < 2 ^ k) → 0 ≤ foldl (λ bin x, Z.lor bin (f x)) b l < 2 ^ k.
Proof.
  intros Hk Hb Hf. revert b Hb. induction l as [|x l IH]; intros b Hb; cbn; [done|].
  by apply IH, lor_bound.
Qed.

Lemma bloom9_bound data : 0 ≤ bloom9 data < 2 ^ BloomBitLength.
Proof.
  unfold bloom9. apply foldl_lor_bound; [done|split; [done|reflexivity]|]. intros i.
  assert (0 ≤ bloom_bit (crypto_Keccak256 data) i < 2048) as Hb.
  { unfold bloom_bit. change 2047 with (Z.ones 11). rewrite Z.land_ones by done.
    by apply Z.mod_pos_bound. }
  rewrite Z.shiftl_1_l. split; [apply Z.pow_nonneg; lia|].
  apply Z.pow_lt_mono_r; unfold BloomBitLength; lia.
Qed.

Lemma foldl_log_bloom_bound logs b :
  0 ≤ b < 2 ^ BloomBitLength → 0 ≤ foldl log_bloom b logs < 2 ^ BloomBitLength.
Proof.
  revert b. induction logs as [|l logs IH]; intros b Hb; cbn; [done|].
  apply IH. unfold log_bloom. apply foldl_lor_bound; [done| |intros; apply bloom9_bound].
  by apply lor_bound, bloom9_bound.
Qed.
Lemma LogsBloom_bound logs : 0 ≤ LogsBloom logs < 2 ^ BloomBitLength.
Proof. by apply foldl_log_bloom_bound. Qed.

Lemma log_bloom_start l a b : bits_in a b → bits_in a (log_bloom b l).
Proof. intros Ha. unfold log_bloom. by apply foldl_lor_start, bits_in_lor_l. Qed.
Lemma foldl_log_bloom_start logs a b : bits_in a b → bits_in a (foldl log_bloom b logs).
Proof. revert b. induction logs as [|l logs IH]; cbn; auto using log_bloom_start. Qed.

Lemma LogsBloom_elem logs l a :
  l ∈ logs → (∀ b, bits_in a (log_bloom b l)) → bits_in a (LogsBloom logs).
Proof.
  intros Hl Ha. unfold LogsBloom. generalize 0 as b. induction Hl as [l logs|l x logs Hl IH]; intros b; cbn.
  - by apply foldl_log_bloom_start.
  - by apply IH.
Qed.

Definition receipts_bloom (receipts : list Receipt) : Z :=
  foldl (λ bin r, Z.lor bin (LogsBloom (rLogs r))) 0 receipts.

Lemma receipts_bloom_bound receipts : 0 ≤ receipts_bloom receipts < 2 ^ BloomBitLength.
Proof.
  assert (0 ≤ 0 < 2 ^ BloomBitLength) as Hz by (split; [done|reflexivity]).
  apply foldl_lor_bound; [done|done|intros; apply LogsBloom_bound].
Qed.

Lemma CreateBloom_run receipts : CreateBloom receipts = Ok (receipts_bloom receipts).
Proof.
  unfold CreateBloom, BytesToBloom. fold (receipts_bloom receipts).
  by rewrite (proj2 (Z.leb_gt _ _)) by apply receipts_bloom_bound.
Qed.

(** a block's bloom filter has no false negatives: building it never
    panics, and looking up the address or any topic of any log of any receipt
    answers true. *)
Theorem CreateBloom_no_false_negatives (receipts : list Receipt) :
  ∃ bloom, CreateBloom receipts = Ok bloom ∧ 0 ≤ bloom < 2 ^ BloomBitLength ∧
    ∀ r l, r ∈ receipts → l ∈ rLogs r →
      BloomLookup bloom (array_bytes AddressLength (lAddress l)) = true ∧
      ∀ topic, topic ∈ lTopics l → BloomLookup bloom (array_bytes HashLength topic) = true.
Proof.
  exists (receipts_bloom receipts). split; [apply CreateBloom_run|]. split; [apply receipts_bloom_bound|].
  intros r l Hr Hl. unfold BloomLookup.
  assert (∀ a, (∀ b, bits_in a (log_bloom b l)) → (Z.land (receipts_bloom receipts) a =? a) = true) as Hin.
  { intros a Ha. apply Z.eqb_eq. change (bits_in a (receipts_bloom receipts)). unfold receipts_bloom.
    apply (foldl_lor_elem (λ r, LogsBloom (rLogs r)) receipts r); [done|].
    by apply (LogsBloom_elem _ l). }
  split.
  - apply Hin. intros b. unfold log_bloom. apply foldl_lor_start, bits_in_lor_r, bits_in_refl.
  - intros topic Ht. apply Hin. intros b. unfold log_bloom.
    apply (foldl_lor_elem (λ t, bloom9 (array_bytes HashLength t)) _ topic); [done|apply bits_in_refl].
Qed.
End bloom_lemmas.
