(* ===== verification/VotingSnapshot.v ===== *)
(** The voting snapshot: the set of authorised signers, the recent signers,
    the pending votes and their tally, with the operations both engines apply
    to it.  [consensus/clique/snapshot.go] and [consensus/aura/snapshot.go]
    declare the type and these methods with the same text; the two [apply]
    methods differ and are in [Clique.v] and [Aura.v]. *)
From S2P Require Import Prelude Types.

Record Vote := mkVote {
  vSigner : Address; vBlock : Z; vAddress : Address; vAuthorize : bool }.

Record Tally := mkTally { tAuthorize : bool; tVotes : Z }.

(** The [config] and [sigcache] pointers of the Go struct are those of the
    engine, and are passed to the operations that use them.  [Signers] is a
    [map[Address]struct{}]. *)
Record Snapshot := mkSnapshot {
  sNumber : Z;
  sHash : Hash;
  sSigners : gset Address;
  sRecents : gmap Z Address;
  sVotes : list Vote;
  sTally : gmap Address Tally
}.

#[export] Instance vote_eq_dec : EqDecision Vote.
Proof. solve_decision. Defined.
#[export] Instance tally_eq_dec : EqDecision Tally.
Proof. solve_decision. Defined.
#[export] Instance snapshot_eq_dec : EqDecision Snapshot.
Proof. solve_decision. Defined.

Definition set_Signers (s : Snapshot) (x : gset Address) : Snapshot :=
  mkSnapshot (sNumber s) (sHash s) x (sRecents s) (sVotes s) (sTally s).
Definition set_Recents (s : Snapshot) (x : gmap Z Address) : Snapshot :=
  mkSnapshot (sNumber s) (sHash s) (sSigners s) x (sVotes s) (sTally s).
Definition set_Votes (s : Snapshot) (x : list Vote) : Snapshot :=
  mkSnapshot (sNumber s) (sHash s) (sSigners s) (sRecents s) x (sTally s).
Definition set_Tally (s : Snapshot) (x : gmap Address Tally) : Snapshot :=
  mkSnapshot (sNumber s) (sHash s) (sSigners s) (sRecents s) (sVotes s) x.
Definition set_Position (s : Snapshot) (n : Z) (h : Hash) : Snapshot :=
  mkSnapshot n h (sSigners s) (sRecents s) (sVotes s) (sTally s).

(** [newSnapshot]: one map store per listed signer. *)
Definition newSnapshot (number : Z) (hash : Hash) (signers : list Address) : Snapshot :=
  mkSnapshot number hash (foldl (λ acc signer, {[signer]} ∪ acc) ∅ signers) ∅ [] ∅.

Definition validVote (s : Snapshot) (address : Address) (authorize : bool) : bool :=
  let signer := bool_decide (address ∈ sSigners s) in
  (signer && negb authorize) || (negb signer && authorize).

Definition cast (s : Snapshot) (address : Address) (authorize : bool) : bool * Snapshot :=
  if negb (validVote s address authorize) then (false, s)
  else
    match sTally s !! address with
    | Some old =>
        (true, set_Tally s (<[address := mkTally (tAuthorize old) (tVotes old + 1)]> (sTally s)))
    | None => (true, set_Tally s (<[address := mkTally authorize 1]> (sTally s)))
    end.

Definition uncast (s : Snapshot) (address : Address) (authorize : bool) : bool * Snapshot :=
  match sTally s !! address with
  | None => (false, s)
  | Some tally =>
      if negb (Bool.eqb (tAuthorize tally) authorize) then (false, s)
      else if 1 <? tVotes tally
      then (true, set_Tally s (<[address := mkTally (tAuthorize tally) (tVotes tally - 1)]> (sTally s)))
      else (true, set_Tally s (delete address (sTally s)))
  end.

(** [uint64(len(snap.Signers)/2 + 1)] *)
Definition sign_limit (s : Snapshot) : Z := Z.of_nat (size (sSigners s)) / 2 + 1.

(** "Remove any votes on checkpoint blocks" *)
Definition reset_votes (checkpoint : bool) (snap : Snapshot) : Snapshot :=
  if checkpoint then set_Tally (set_Votes snap []) ∅ else snap.

(** "Delete the oldest signer from the recent list to allow it signing again" *)
Definition expire_recent (s : Snapshot) (number : Z) : Snapshot :=
  let limit := sign_limit s in
  if limit <=? number then set_Recents s (delete (number - limit)%u64 (sRecents s)) else s.

(** [for _, recent := range snap.Recents { if recent == signer ... }] *)
Definition signed_recently (s : Snapshot) (signer : Address) : bool :=
  bool_decide (map_Exists (λ _ recent, recent = signer) (sRecents s)).

(** "discard any previous votes from the signer": the first vote of this
    signer on this account is uncast and cut out of the list. *)
Fixpoint discard_vote_from (s : Snapshot) (seen rest : list Vote)
    (signer coinbase : Address) : Snapshot :=
  match rest with
  | [] => s
  | vote :: rest' =>
      if bool_decide (vSigner vote = signer) && bool_decide (vAddress vote = coinbase) then
        let '(_, s') := uncast s (vAddress vote) (vAuthorize vote) in
        set_Votes s' (seen ++ rest')
      else discard_vote_from s (seen ++ [vote]) rest' signer coinbase
  end.
Definition discard_vote (s : Snapshot) (signer coinbase : Address) : Snapshot :=
  discard_vote_from s [] (sVotes s) signer coinbase.

(** "Discard any previous votes the deauthorized signer cast": the loop with
    [i--] after each removal visits every vote once, in order. *)
Fixpoint discard_votes_by_from (s : Snapshot) (seen rest : list Vote) (a : Address) : Snapshot :=
  match rest with
  | [] => s
  | vote :: rest' =>
      if bool_decide (vSigner vote = a) then
        let '(_, s') := uncast s (vAddress vote) (vAuthorize vote) in
        discard_votes_by_from (set_Votes s' (seen ++ rest')) seen rest' a
      else discard_votes_by_from s (seen ++ [vote]) rest' a
  end.
Definition discard_votes_by (s : Snapshot) (a : Address) : Snapshot :=
  discard_votes_by_from s [] (sVotes s) a.

(** "Discard any previous votes around the just changed account" *)
Fixpoint discard_votes_about_from (seen rest : list Vote) (a : Address) : list Vote :=
  match rest with
  | [] => seen
  | vote :: rest' =>
      if bool_decide (vAddress vote = a) then discard_votes_about_from seen rest' a
      else discard_votes_about_from (seen ++ [vote]) rest' a
  end.
Definition discard_votes_about (s : Snapshot) (a : Address) : Snapshot :=
  set_Votes s (discard_votes_about_from [] (sVotes s) a).

(** "If the vote passed, update the list of signers".  A missing tally reads
    as the zero value. *)
Definition settle_vote (s : Snapshot) (number : Z) (coinbase : Address) : Snapshot :=
  let tally := default (mkTally false 0) (sTally s !! coinbase) in
  if Z.of_nat (size (sSigners s)) / 2 <? tVotes tally then
    let s1 :=
      if tAuthorize tally then set_Signers s ({[coinbase]} ∪ sSigners s)
      else discard_votes_by
             (expire_recent (set_Signers s (sSigners s ∖ {[coinbase]})) number) coinbase in
    let s2 := discard_votes_about s1 coinbase in
    set_Tally s2 (delete coinbase (sTally s2))
  else s.

(** [signers]: the keys of the map, sorted by [bytes.Compare].  Big-endian
    arrays of one length compare as the numbers they spell. *)
Definition signersAscending (a b : Address) : Prop := a ≤ b.
#[export] Instance signersAscending_dec : RelDecision signersAscending := Z.le_dec.
Definition signers (s : Snapshot) : list Address :=
  merge_sort signersAscending (elements (sSigners s)).

(** The offset of the signer in the sorted list, [len(signers)] if absent. *)
Fixpoint signer_offset (l : list Address) (signer : Address) : nat :=
  match l with
  | [] => O
  | a :: l' => if bool_decide (a = signer) then O else S (signer_offset l' signer)
  end.

Definition inturn {E} (s : Snapshot) (number : Z) (signer : Address) : Result E bool :=
  let l := signers s in
  slot ← u64_mod number (Z.of_nat (length l));
  mret (slot =? Z.of_nat (signer_offset l signer)).

(** * The voting invariant *)

Definition votes_about (a : Address) (votes : list Vote) : Z :=
  Z.of_nat (length (filter (λ v, vAddress v = a) votes)).

(** The tally caches the votes: an account has an entry exactly when there are
    votes on it, with their number and the change they ask for. *)
Definition tally_ok (change : Address → bool) (votes : list Vote) (T : gmap Address Tally) : Prop :=
  ∀ a, T !! a = if decide (votes_about a votes = 0) then None
                else Some (mkTally (change a) (votes_about a votes)).

Definition ballot (v : Vote) : Address * Address := (vSigner v, vAddress v).

(** Every pending vote was cast by a signer, asks for a change that makes
    sense, and no signer votes twice on one account. *)
Record votes_ok (change : Address → bool) (S : gset Address) (votes : list Vote) : Prop := {
  vok_change : ∀ v, v ∈ votes → vAuthorize v = change (vAddress v);
  vok_signer : ∀ v, v ∈ votes → vSigner v ∈ S;
  vok_once : NoDup (ballot <$> votes)
}.

(** The only meaningful vote on [a]: authorise a non-signer, drop a signer. *)
Definition meaningful (S : gset Address) (a : Address) : bool := bool_decide (a ∉ S).

Record voting_ok (S : gset Address) (votes : list Vote) (T : gmap Address Tally) : Prop := {
  voting_votes : votes_ok (meaningful S) S votes;
  voting_tally : tally_ok (meaningful S) votes T
}.

(** The recent signers are distinct and their blocks lie in a window. *)
Record recents_in (lo hi : Z) (R : gmap Z Address) : Prop := {
  rok_window : ∀ b a, R !! b = Some a → lo < b ≤ hi ∧ 0 ≤ b;
  rok_once : ∀ b b' a, R !! b = Some a → R !! b' = Some a → b = b'
}.

(** [n] is the number of the last block applied. *)
Record snapshot_inv (n : Z) (s : Snapshot) : Prop := {
  inv_voting : voting_ok (sSigners s) (sVotes s) (sTally s);
  inv_recents : recents_in (n - sign_limit s) n (sRecents s)
}.

Definition snapshot_ok (s : Snapshot) : Prop := is_u64 (sNumber s) ∧ snapshot_inv (sNumber s) s.

Section voting_lemmas.
Implicit Types (a : Address) (v : Vote) (votes : list Vote).

Lemma votes_about_nil a : votes_about a [] = 0.
Proof. done. Qed.
Lemma votes_about_app a l1 l2 : votes_about a (l1 ++ l2) = votes_about a l1 + votes_about a l2.
Proof. unfold votes_about. rewrite filter_app, length_app. lia. Qed.
Lemma votes_about_cons a v votes :
  votes_about a (v :: votes) = (if decide (vAddress v = a) then 1 else 0) + votes_about a votes.
Proof. unfold votes_about. rewrite filter_cons. destruct (decide _); cbn; lia. Qed.
Lemma votes_about_cons_eq v votes :
  votes_about (vAddress v) (v :: votes) = 1 + votes_about (vAddress v) votes.
Proof. by rewrite votes_about_cons, decide_True. Qed.
Lemma votes_about_cons_ne a v votes :
  a ≠ vAddress v → votes_about a (v :: votes) = votes_about a votes.
Proof. intros. by rewrite votes_about_cons, decide_False by congruence. Qed.
Lemma votes_about_nonneg a votes : 0 ≤ votes_about a votes.
Proof. unfold votes_about. lia. Qed.
Lemma votes_about_0 a votes : votes_about a votes = 0 ↔ ∀ v, v ∈ votes → vAddress v ≠ a.
Proof.
  induction votes as [|v votes IH]; [set_solver|].
  rewrite votes_about_cons. pose proof (votes_about_nonneg a votes).
  destruct (decide _) as [<-|]; split.
  - lia.
  - intros Hv. by destruct (Hv v); [left|].
  - intros Hv w [->|Hw]%elem_of_cons; [done|]. apply IH; [lia|done].
  - intros Hv. rewrite Z.add_0_l. apply IH. intros w Hw. apply Hv. by right.
Qed.

(** Removing one vote from the list and from the tally keeps them in step. *)
Lemma uncast_ok change s l1 v l2 :
  tally_ok change (l1 ++ v :: l2) (sTally s) →
  vAuthorize v = change (vAddress v) →
  ∃ s', uncast s (vAddress v) (vAuthorize v) = (true, s') ∧
    s' = set_Tally s (sTally s') ∧ tally_ok change (l1 ++ l2) (sTally s').
Proof.
  intros HT Hch. unfold uncast. rewrite (HT (vAddress v)).
  rewrite votes_about_app, votes_about_cons_eq.
  pose proof (votes_about_nonneg (vAddress v) l1).
  pose proof (votes_about_nonneg (vAddress v) l2).
  rewrite decide_False by lia. cbn. rewrite Hch, eqb_reflx. cbn.
  assert (∀ a, a ≠ vAddress v → votes_about a (l1 ++ l2) = votes_about a (l1 ++ v :: l2)) as Hother.
  { intros a Hne. by rewrite !votes_about_app, votes_about_cons_ne by done. }
  destruct (1 <? _) eqn:Hlt; eexists; (split; [reflexivity|]); (split; [done|]); cbn; intros a;
    (destruct (decide (a = vAddress v)) as [->|Hne];
     [|rewrite ?lookup_insert_ne, ?lookup_delete_ne, Hother by done; apply HT]);
    rewrite ?lookup_insert_eq, ?lookup_delete_eq, votes_about_app.
  - rewrite decide_False by lia. do 2 f_equal. lia.
  - by rewrite decide_True by lia.
Qed.

Lemma votes_ok_remove change S l1 v l2 :
  votes_ok change S (l1 ++ v :: l2) → votes_ok change S (l1 ++ l2).
Proof.
  intros [Hc Hs Hn].
  assert (∀ w, w ∈ l1 ++ l2 → w ∈ l1 ++ v :: l2) as Hsub.
  { intros w Hw. rewrite <- Permutation_middle. by right. }
  split; [naive_solver..|].
  rewrite <- Permutation_middle in Hn. by apply NoDup_cons in Hn as [_ ?].
Qed.

Lemma discard_votes_about_from_filter seen rest a :
  discard_votes_about_from seen rest a = seen ++ filter (λ v, vAddress v ≠ a) rest.
Proof.
  revert seen; induction rest as [|v rest IH]; intros seen; [by rewrite app_nil_r|].
  cbn [discard_votes_about_from].
  rewrite filter_cons. case_bool_decide as Ha.
  - by rewrite IH, decide_False by (by intros ?).
  - by rewrite IH, decide_True, <- app_assoc by done.
Qed.

Lemma discard_votes_by_from_ok change s seen rest a :
  tally_ok change (seen ++ rest) (sTally s) →
  (∀ v, v ∈ rest → vAuthorize v = change (vAddress v)) →
  sVotes s = seen ++ rest →
  ∃ T, discard_votes_by_from s seen rest a =
         set_Votes (set_Tally s T) (seen ++ filter (λ v, vSigner v ≠ a) rest) ∧
       tally_ok change (seen ++ filter (λ v, vSigner v ≠ a) rest) T.
Proof.
  revert s seen; induction rest as [|v rest IH]; intros s seen HT Hc Hv.
  - exists (sTally s). split; [|done]. destruct s; cbn in *; by subst.
  - cbn [discard_votes_by_from]. rewrite filter_cons. case_bool_decide as Ha.
    + destruct (uncast_ok change s seen v rest HT) as (s' & -> & Hs' & HT'); [apply Hc; by left|].
      rewrite decide_False by (by intros ?).
      destruct (IH (set_Votes s' (seen ++ rest)) seen) as (T & -> & ?); [done|..].
      { intros w Hw. apply Hc. by right. } { done. }
      exists T. split; [|done]. rewrite Hs'. by destruct s.
    + rewrite decide_True by done.
      destruct (IH s (seen ++ [v])) as (T & -> & HT').
      { by rewrite <- app_assoc. } { intros w Hw. apply Hc. by right. } { by rewrite <- app_assoc. }
      exists T. by rewrite <- app_assoc in HT' |- *.
Qed.

Lemma filter_ballot_absent g c votes :
  (g, c) ∉ ballot <$> votes → filter (λ v, ballot v ≠ (g, c)) votes = votes.
Proof.
  induction votes as [|v votes IH]; [done|]. rewrite fmap_cons, not_elem_of_cons. intros [? ?].
  rewrite filter_cons, decide_True by congruence. by rewrite IH.
Qed.

Lemma discard_vote_from_ok change s seen rest g c :
  tally_ok change (seen ++ rest) (sTally s) →
  (∀ v, v ∈ rest → vAuthorize v = change (vAddress v)) →
  NoDup (ballot <$> rest) →
  sVotes s = seen ++ rest →
  ∃ T, discard_vote_from s seen rest g c =
         set_Votes (set_Tally s T) (seen ++ filter (λ v, ballot v ≠ (g, c)) rest) ∧
       tally_ok change (seen ++ filter (λ v, ballot v ≠ (g, c)) rest) T.
Proof.
  revert s seen; induction rest as [|v rest IH]; intros s seen HT Hc Hn Hv.
  - exists (sTally s). split; [|done]. destruct s; cbn in *; by subst.
  - cbn [discard_vote_from]. rewrite fmap_cons in Hn. apply NoDup_cons in Hn as [Hnv Hn].
    rewrite filter_cons, <- bool_decide_and.
    case_bool_decide as Hb.
    + destruct Hb as [<- <-]. rewrite decide_False by (by intros []).
      destruct (uncast_ok change s seen v rest HT) as (s' & -> & Hs' & HT'); [apply Hc; by left|].
      exists (sTally s'). rewrite filter_ballot_absent by done. split; [|done]. by rewrite Hs'.
    + rewrite decide_True by (unfold ballot; naive_solver).
      destruct (IH s (seen ++ [v])) as (T & -> & HT'); try done.
      { by rewrite <- app_assoc. } { intros w Hw. apply Hc. by right. } { by rewrite <- app_assoc. }
      exists T. by rewrite <- app_assoc in HT' |- *.
Qed.

Lemma votes_ok_filter change S (P : Vote → Prop) `{∀ v, Decision (P v)} votes :
  votes_ok change S votes → votes_ok change S (filter P votes).
Proof.
  intros [Hc Hs Hn]. split.
  - intros v [_ ?]%list_elem_of_filter. by apply Hc.
  - intros v [_ ?]%list_elem_of_filter. by apply Hs.
  - eapply sublist_NoDup; [exact Hn|]. apply fmap_sublist, sublist_filter.
Qed.

Lemma validVote_meaningful s a auth :
  validVote s a auth = true ↔ auth = meaningful (sSigners s) a.
Proof.
  unfold validVote, meaningful. rewrite bool_decide_not.
  by destruct (bool_decide _), auth.
Qed.

Lemma cast_ok s g n c auth s' :
  voting_ok (sSigners s) (sVotes s) (sTally s) →
  g ∈ sSigners s → (g, c) ∉ ballot <$> sVotes s →
  cast s c auth = (true, s') →
  s' = set_Tally s (sTally s') ∧ auth = meaningful (sSigners s) c ∧
  voting_ok (sSigners s) (sVotes s ++ [mkVote g n c auth]) (sTally s').
Proof.
  intros [[Hc Hs Hn] HT] Hg Hnew. unfold cast.
  destruct (validVote s c auth) eqn:Hvalid; [cbn|done].
  apply validVote_meaningful in Hvalid.
  assert (votes_ok (meaningful (sSigners s)) (sSigners s) (sVotes s ++ [mkVote g n c auth])) as Hvok.
  { split.
    - intros v [?|Hv%list_elem_of_singleton]%elem_of_app; [by apply Hc|by subst].
    - intros v [?|Hv%list_elem_of_singleton]%elem_of_app; [by apply Hs|by subst].
    - rewrite fmap_app. apply NoDup_app. split; [done|]. split; [|apply NoDup_singleton].
      intros b Hb Hb'%list_elem_of_singleton. by subst. }
  pose proof (votes_about_nonneg c (sVotes s)) as Hpos.
  pose proof (HT c) as HTc. case_decide as H0; rewrite HTc; intros [= <-];
    (split; [done|]); (split; [done|]); (split; [done|]); cbn; intros a;
    rewrite votes_about_app, (votes_about_cons a), votes_about_nil; cbn;
    (destruct (decide (a = c)) as [->|Hne];
     [rewrite lookup_insert_eq, (decide_True (P := c = c)), decide_False by lia
     |rewrite lookup_insert_ne, (decide_False (P := c = a)), !Z.add_0_r by done; apply HT]).
  - by rewrite H0, Hvalid.
  - by rewrite Z.add_0_r.
Qed.

(** A vote that is refused leaves the snapshot as it was. *)
Lemma cast_refused s c auth s' :
  cast s c auth = (false, s') → s' = s ∧ auth ≠ meaningful (sSigners s) c.
Proof.
  unfold cast. destruct (validVote s c auth) eqn:Hvalid; cbn.
  - by destruct (sTally s !! c).
  - intros [= <-]. split; [done|]. rewrite <- validVote_meaningful. by rewrite Hvalid.
Qed.
End voting_lemmas.

Section recents_lemmas.
Implicit Types (R : gmap Z Address).

Lemma sign_limit_pos s : 1 ≤ sign_limit s.
Proof. unfold sign_limit. pose proof (Z.div_pos (Z.of_nat (size (sSigners s))) 2). lia. Qed.

Lemma recents_in_weaken lo lo' hi R : lo' ≤ lo → recents_in lo hi R → recents_in lo' hi R.
Proof. intros Hle [Hw Ho]. split; [|done]. intros b a Hb. specialize (Hw b a Hb). lia. Qed.

Lemma recents_in_delete lo hi b R : recents_in lo hi R → recents_in lo hi (delete b R).
Proof.
  intros [Hw Ho]. split.
  - intros b' a [_ ?]%lookup_delete_Some. by eapply Hw.
  - intros b1 b2 a [_ ?]%lookup_delete_Some [_ ?]%lookup_delete_Some. by eapply Ho.
Qed.

Lemma expire_recent_ok s n hi :
  is_u64 n → recents_in (n - sign_limit s - 1) hi (sRecents s) →
  recents_in (n - sign_limit s) hi (sRecents (expire_recent s n)).
Proof.
  intros Hn HR. unfold expire_recent. pose proof (sign_limit_pos s).
  destruct (sign_limit s <=? n) eqn:Hle; cbn.
  - rewrite u64_sub_id by u64_lia. split; [|eapply rok_once, recents_in_delete, HR].
    intros b a [Hne Hb]%lookup_delete_Some. destruct HR as [Hw _].
    specialize (Hw b a Hb). lia.
  - destruct HR as [Hw Ho]. split; [|done]. intros b a Hb. specialize (Hw b a Hb). lia.
Qed.

Lemma signed_recently_false s g :
  signed_recently s g = false → ∀ b, sRecents s !! b ≠ Some g.
Proof.
  unfold signed_recently. intros Hd%bool_decide_eq_false b Hb.
  apply Hd. rewrite map_Exists_lookup. eauto.
Qed.

Lemma recents_in_insert lo n g R :
  0 ≤ n → lo < n → recents_in lo (n - 1) R → (∀ b, R !! b ≠ Some g) →
  recents_in lo n (<[n := g]> R).
Proof.
  intros Hn Hlo [Hw Ho] Hg. split.
  - intros b a [[<- <-]|[? Hb]]%lookup_insert_Some; [lia|]. specialize (Hw b a Hb). lia.
  - intros b b' a [[<- <-]|[? Hb]]%lookup_insert_Some [[<- Heq]|[? Hb']]%lookup_insert_Some;
      subst; try done; [by destruct (Hg b')|by destruct (Hg b)|by eapply Ho].
Qed.
End recents_lemmas.

Section settle_lemmas.

(** Closing the vote on one account: its votes and its tally go, and what
    a vote on it asks for may then change. *)
Lemma close_account change change' S S' votes T c :
  votes_ok change S votes → tally_ok change votes T →
  (∀ a, a ≠ c → change a = change' a) →
  (∀ v, v ∈ votes → vSigner v ∈ S') →
  votes_ok change' S' (filter (λ v, vAddress v ≠ c) votes) ∧
  tally_ok change' (filter (λ v, vAddress v ≠ c) votes) (delete c T).
Proof.
  intros Hv HT Hch HS'.
  pose proof (votes_ok_filter _ _ (λ v, vAddress v ≠ c) _ Hv) as [Hc _ Hn].
  split; [split; [|intros v [_ ?]%list_elem_of_filter; by apply HS'|done]|].
  - intros v Hin. rewrite <- Hch; [by apply Hc|]. by apply list_elem_of_filter in Hin as [? _].
  - intros a. destruct (decide (a = c)) as [->|Hne].
    + rewrite lookup_delete_eq, decide_True; [done|].
      apply votes_about_0. by intros v [? _]%list_elem_of_filter.
    + rewrite lookup_delete_ne, HT, Hch by done.
      enough (votes_about a (filter (λ v, vAddress v ≠ c) votes) = votes_about a votes) as ->; [done|].
      clear -Hne. induction votes as [|v votes IH]; [done|].
      rewrite filter_cons, votes_about_cons.
      destruct (decide (vAddress v ≠ c)) as [|Heq%dec_stable];
        [by rewrite votes_about_cons, IH|].
      by rewrite decide_False, IH by congruence.
Qed.

Lemma meaningful_add S c a : a ≠ c → meaningful S a = meaningful ({[c]} ∪ S) a.
Proof. intros Hne. apply bool_decide_ext. rewrite elem_of_union, elem_of_singleton. tauto. Qed.
Lemma meaningful_drop S c a : a ≠ c → meaningful S a = meaningful (S ∖ {[c]}) a.
Proof.
  intros Hne. apply bool_decide_ext. rewrite elem_of_difference, elem_of_singleton. tauto.
Qed.

Lemma size_drop (S : gset Address) c :
  c ∈ S → Z.of_nat (size (S ∖ {[c]})) = Z.of_nat (size S) - 1.
Proof.
  intros Hc. rewrite size_difference by set_solver. rewrite size_singleton.
  enough (size S ≠ 0)%nat by lia. rewrite size_non_empty_iff. set_solver.
Qed.

(** The tally that passes a vote counts distinct signers. *)
Lemma passed_majority s c :
  voting_ok (sSigners s) (sVotes s) (sTally s) →
  Z.of_nat (size (sSigners s)) / 2 < tVotes (default (mkTally false 0) (sTally s !! c)) →
  sTally s !! c = Some (mkTally (meaningful (sSigners s) c) (votes_about c (sVotes s))) ∧
  Z.of_nat (size (sSigners s)) / 2 < votes_about c (sVotes s).
Proof.
  intros [_ HT]. rewrite (HT c). case_decide; cbn; [|done].
  pose proof (Z.div_pos (Z.of_nat (size (sSigners s))) 2). lia.
Qed.

Lemma settle_vote_ok s n c :
  is_u64 n → snapshot_inv n s → snapshot_inv n (settle_vote s n c).
Proof.
  intros Hn [Hvote HR]. unfold settle_vote.
  destruct (_ <? _) eqn:Hlt; [|by split]. apply Z.ltb_lt in Hlt.
  destruct (passed_majority s c Hvote Hlt) as [HTc Hmaj]. rewrite HTc; cbn.
  destruct Hvote as [Hv HT]. destruct (meaningful (sSigners s) c) eqn:Hc.
  - unfold discard_votes_about; cbn. rewrite discard_votes_about_from_filter; cbn.
    split; cbn.
    + destruct (close_account _ (meaningful ({[c]} ∪ sSigners s)) _ ({[c]} ∪ sSigners s) _ _ c Hv HT).
      { apply meaningful_add. } { intros v Hin. apply (vok_signer _ _ _ Hv) in Hin. set_solver. }
      by split.
    + eapply recents_in_weaken, HR. unfold sign_limit; cbn.
      assert (size (sSigners s) ≤ size ({[c]} ∪ sSigners s))%nat by (apply subseteq_size; set_solver).
      assert (Z.of_nat (size (sSigners s)) / 2 ≤ Z.of_nat (size ({[c]} ∪ sSigners s)) / 2)
        by (apply Z.div_le_mono; lia). lia.
  - set (s1 := expire_recent _ n).
    assert (s1 = set_Recents (set_Signers s (sSigners s ∖ {[c]})) (sRecents s1)) as Hs1.
    { unfold s1, expire_recent. by case_match. }
    destruct (discard_votes_by_from_ok (meaningful (sSigners s)) s1 [] (sVotes s1) c) as (T & Heq & HT1);
      [by rewrite Hs1|rewrite Hs1; apply Hv|done|].
    unfold discard_votes_by. rewrite Heq. unfold discard_votes_about; cbn.
    rewrite discard_votes_about_from_filter; cbn in *.
    assert (c ∈ sSigners s) as Hin by (by apply bool_decide_eq_false, dec_stable in Hc).
    rewrite Hs1 in HT1 |- *; cbn in *. split; cbn.
    + destruct (close_account (meaningful (sSigners s)) (meaningful (sSigners s ∖ {[c]})) (sSigners s)
        (sSigners s ∖ {[c]}) (filter (λ v, vSigner v ≠ c) (sVotes s)) T c); try done.
      { by apply votes_ok_filter. } { apply meaningful_drop. }
      { intros v [? Hv']%list_elem_of_filter. apply (vok_signer _ _ _ Hv) in Hv'. set_solver. }
    + assert (sign_limit s - 1 ≤ sign_limit (set_Signers s (sSigners s ∖ {[c]})) ≤ sign_limit s) as Hlim.
      { unfold sign_limit; cbn. rewrite size_drop by done.
        pose proof (Z.div_mod (Z.of_nat (size (sSigners s))) 2).
        pose proof (Z.div_mod (Z.of_nat (size (sSigners s)) - 1) 2).
        pose proof (Z.mod_pos_bound (Z.of_nat (size (sSigners s))) 2).
        pose proof (Z.mod_pos_bound (Z.of_nat (size (sSigners s)) - 1) 2). lia. }
      change (recents_in (n - sign_limit (set_Signers s (sSigners s ∖ {[c]}))) n (sRecents s1)).
      apply expire_recent_ok; [done|].
      eapply recents_in_weaken, HR. lia.
Qed.
End settle_lemmas.

(** * Turns *)
Section turn_lemmas.
Lemma signers_Permutation s : signers s ≡ₚ elements (sSigners s).
Proof. apply merge_sort_Permutation. Qed.

Lemma signers_length s : length (signers s) = size (sSigners s).
Proof. by rewrite signers_Permutation. Qed.

Lemma elem_of_signers s a : a ∈ signers s ↔ a ∈ sSigners s.
Proof. by rewrite signers_Permutation, elem_of_elements. Qed.

Lemma signers_NoDup s : NoDup (signers s).
Proof. rewrite signers_Permutation. apply NoDup_elements. Qed.

Lemma signers_StronglySorted s : StronglySorted signersAscending (signers s).
Proof.
  apply StronglySorted_merge_sort.
  - intros x y z; unfold signersAscending; lia.
  - intros x y; unfold signersAscending; lia.
Qed.

Lemma signer_offset_lookup l a : a ∈ l → l !! signer_offset l a = Some a.
Proof.
  induction l as [|b l IH]; [by intros ?%elem_of_nil|]. cbn. case_bool_decide; [by subst|].
  intros [->|?]%elem_of_cons; [done|]. by apply IH.
Qed.
Lemma signer_offset_absent l a : a ∉ l → signer_offset l a = length l.
Proof.
  induction l as [|b l IH]; [done|]. cbn. rewrite not_elem_of_cons. intros [? ?].
  rewrite bool_decide_false by congruence. by rewrite IH.
Qed.

(** In a sorted duplicate-free list the [k]-th element has [k] predecessors. *)
Lemma sorted_rank l k a :
  StronglySorted signersAscending l → NoDup l → l !! k = Some a →
  length (filter (λ b, b < a) l) = k.
Proof.
  revert k; induction l as [|b l IH]; intros k Hs Hn Hk; [done|].
  apply StronglySorted_inv in Hs as [Hs Hb]. apply NoDup_cons in Hn as [Hb' Hn].
  rewrite Forall_forall in Hb. unfold signersAscending in Hb. rewrite filter_cons.
  destruct k as [|k]; cbn in Hk.
  - injection Hk as ->. rewrite decide_False by lia.
    destruct (filter _ l) as [|x xs] eqn:Hf; [done|].
    assert (x ∈ filter (λ b, b < a) l) as [Hlt Hin]%list_elem_of_filter by (rewrite Hf; by left).
    apply Hb in Hin. lia.
  - apply list_elem_of_lookup_2 in Hk as Hin.
    assert (b ≠ a) by congruence. apply Hb in Hin.
    rewrite decide_True by lia. cbn. f_equal. by apply IH.
Qed.

Lemma inturn_run {E} s n g :
  sSigners s ≠ ∅ →
  inturn (E := E) s n g =
    Ok (n mod Z.of_nat (size (sSigners s)) =? Z.of_nat (signer_offset (signers s) g)).
Proof.
  intros Hne. unfold inturn, u64_mod. rewrite signers_length.
  assert (size (sSigners s) ≠ 0)%nat by (rewrite size_non_empty_iff; by intros ?%leibniz_equiv).
  by rewrite (proj2 (Z.eqb_neq _ _)) by lia.
Qed.
End turn_lemmas.

(** * Frames

    Counting and discarding votes leaves the signers and the recent signers
    alone. *)
Definition same_signers (s s' : Snapshot) : Prop :=
  sSigners s' = sSigners s ∧ sRecents s' = sRecents s.

Section frame_lemmas.
Implicit Types (a g : Address).

Lemma uncast_frame s a auth : same_signers s (uncast s a auth).2.
Proof. unfold uncast. by repeat case_match. Qed.
Lemma cast_frame s a auth : same_signers s (cast s a auth).2.
Proof. unfold cast. by repeat case_match. Qed.
Lemma discard_vote_from_frame s seen rest g a :
  same_signers s (discard_vote_from s seen rest g a).
Proof.
  revert seen; induction rest as [|v rest IH]; intros seen; [done|]. cbn.
  case_match; [|apply IH]. pose proof (uncast_frame s (vAddress v) (vAuthorize v)).
  by destruct (uncast _ _ _).
Qed.
Lemma discard_votes_by_from_frame s seen rest a :
  same_signers s (discard_votes_by_from s seen rest a).
Proof.
  revert s seen; induction rest as [|v rest IH]; intros s seen; [done|]. cbn.
  case_match; [|apply IH]. destruct (uncast_frame s (vAddress v) (vAuthorize v)) as [Hs Hr].
  destruct (uncast _ _ _) as [? s']. cbn in *.
  destruct (IH (set_Votes s' (seen ++ rest)) seen) as [Hs' Hr'].
  split; [by rewrite Hs'|by rewrite Hr'].
Qed.
Lemma expire_recent_signers s n : sSigners (expire_recent s n) = sSigners s.
Proof. unfold expire_recent. by case_match. Qed.
End frame_lemmas.

(** * Position

    No operation reads or writes the number and hash of the snapshot. *)
Section position_lemmas.
Context (n : Z) (h : Hash).

Lemma set_Position_id s : set_Position s (sNumber s) (sHash s) = s.
Proof. by destruct s. Qed.
Lemma expire_recent_position s number :
  expire_recent (set_Position s n h) number = set_Position (expire_recent s number) n h.
Proof. unfold expire_recent, sign_limit; cbn. by case_match. Qed.
Lemma uncast_position s a auth :
  uncast (set_Position s n h) a auth = let '(b, s') := uncast s a auth in (b, set_Position s' n h).
Proof. unfold uncast; cbn. by repeat case_match. Qed.
Lemma cast_position s a auth :
  cast (set_Position s n h) a auth = let '(b, s') := cast s a auth in (b, set_Position s' n h).
Proof. unfold cast, validVote; cbn. by repeat case_match. Qed.
Lemma discard_vote_from_position s seen rest g a :
  discard_vote_from (set_Position s n h) seen rest g a =
  set_Position (discard_vote_from s seen rest g a) n h.
Proof.
  revert s seen; induction rest as [|v rest IH]; intros s seen; [done|]. cbn.
  rewrite uncast_position. destruct (uncast s _ _). by case_match.
Qed.
Lemma discard_votes_by_from_position s seen rest a :
  discard_votes_by_from (set_Position s n h) seen rest a =
  set_Position (discard_votes_by_from s seen rest a) n h.
Proof.
  revert s seen; induction rest as [|v rest IH]; intros s seen; [done|]. cbn.
  rewrite uncast_position. destruct (uncast s _ _) as [b s']. case_match; [|apply IH].
  by rewrite <- IH.
Qed.
Lemma settle_vote_position s number a :
  settle_vote (set_Position s n h) number a = set_Position (settle_vote s number a) n h.
Proof.
  unfold settle_vote; cbn. case_match; [|done]. case_match; [done|].
  change (set_Signers (set_Position s n h) ?x) with (set_Position (set_Signers s x) n h).
  rewrite expire_recent_position. unfold discard_votes_by. cbn.
  by rewrite discard_votes_by_from_position.
Qed.
End position_lemmas.
