(* ===== verification/Clique.v ===== *)
(** The Clique engine ([consensus/clique/clique.go], [snapshot.go]): applying
    sealed headers to a voting snapshot. *)
From S2P Require Import Prelude Types Sealing VotingSnapshot.

(** The errors the package returns: its own, those of [consensus/errors.go],
    and the ones it passes on from the crypto library and the database. *)
Inductive clique_error :=
  | errUnknownBlock | errInvalidCheckpointBeneficiary | errInvalidVote
  | errInvalidCheckpointVote | errMissingVanity | errMissingSignature
  | errExtraSigners | errInvalidCheckpointSigners | errMismatchingCheckpointSigners
  | errInvalidMixDigest | errInvalidUncleHash | errInvalidDifficulty
  | errWrongDifficulty | ErrInvalidTimestamp | errInvalidVotingChain
  | errUnauthorizedSigner | errRecentlySigned
  | errUnclesNotAllowed
  | ErrUnknownAncestor | ErrFutureBlock
  | errCrypto | errDatabase | errSigning.

Definition nonceAuthVote : BlockNonce := MaxUint64.
Definition nonceDropVote : BlockNonce := 0.
Definition diffInTurn : Z := 2.
Definition diffNoTurn : Z := 1.

Section apply.
Context `{Crypto} {C : Type} `{Cache Hash Address C}.
Context (config : CliqueConfig).
Implicit Types (header : Header) (headers : list Header) (s snap : Snapshot).

Definition clique_ecrecover header : GoM C clique_error Address :=
  ecrecover errMissingSignature errCrypto header.

(** The vote the nonce asks for. *)
Definition nonce_vote header : Result clique_error bool :=
  if Nonce header =? nonceAuthVote then Ok true
  else if Nonce header =? nonceDropVote then Ok false
  else Err errInvalidVote.

(** "Tally up the new vote from the signer" *)
Definition tally_vote snap signer number coinbase authorize : Snapshot :=
  let '(counted, snap') := cast snap coinbase authorize in
  if counted : bool
  then set_Votes snap' (sVotes snap' ++ [mkVote signer number coinbase authorize])
  else snap'.

(** One turn of the loop of [apply]. *)
Definition apply_header snap header : GoM C clique_error Snapshot :=
  number ← lift (Uint64 (Number header));
  r ← lift (u64_mod number (cl_Epoch config));
  let snap := expire_recent (reset_votes (r =? 0) snap) number in
  signer ← clique_ecrecover header;
  if bool_decide (signer ∉ sSigners snap) then throw errUnauthorizedSigner else
  if signed_recently snap signer then throw errRecentlySigned else
  let snap := set_Recents snap (<[number := signer]> (sRecents snap)) in
  let snap := discard_vote snap signer (Coinbase header) in
  authorize ← lift (nonce_vote header);
  let snap := tally_vote snap signer number (Coinbase header) authorize in
  mret (settle_vote snap number (Coinbase header)).

Fixpoint apply_headers snap headers : GoM C clique_error Snapshot :=
  match headers with
  | [] => mret snap
  | header :: rest => snap' ← apply_header snap header; apply_headers snap' rest
  end.

(** "Sanity check that the headers can be applied": successive numbers. *)
Fixpoint check_contiguous header headers : Result clique_error unit :=
  match headers with
  | [] => Ok tt
  | next :: rest =>
      n1 ← Uint64 (Number next);
      n0 ← Uint64 (Number header);
      if negb (n1 =? (n0 + 1)%u64) then Err errInvalidVotingChain
      else check_contiguous next rest
  end.

Definition apply s headers : GoM C clique_error Snapshot :=
  match headers with
  | [] => mret s
  | first :: rest =>
      lift (check_contiguous first rest) ≫= λ _,
      n0 ← lift (Uint64 (Number first));
      if negb (n0 =? (sNumber s + 1)%u64) then throw errInvalidVotingChain else
      snap ← apply_headers s headers;
      mret (set_Position snap (sNumber snap + Z.of_nat (length headers))%u64
              (Header_Hash (List.last headers first)))
  end.
End apply.

Section apply_lemmas.
Context `{Crypto} {C : Type} `{Cache Hash Address C}.
Context (config : CliqueConfig).
Implicit Types (header : Header) (headers : list Header) (s snap : Snapshot) (c : C) (a : Address).

(** The snapshot the header is checked against. *)
Definition checked_snapshot (number : Z) snap : Snapshot :=
  expire_recent (reset_votes (number mod cl_Epoch config =? 0) snap) number.

(** What a successful step does. *)
Lemma apply_header_ok snap header c snap' c' :
  apply_header config snap header c = (Ok snap', c') →
  ∃ number signer authorize,
    Number header = Some number ∧
    clique_ecrecover header c = (Ok signer, c') ∧
    let checked := checked_snapshot (wrap64 number) snap in
    signer ∈ sSigners checked ∧ signed_recently checked signer = false ∧
    nonce_vote header = Ok authorize ∧
    snap' = settle_vote
      (tally_vote (discard_vote (set_Recents checked (<[wrap64 number := signer]> (sRecents checked)))
                     signer (Coinbase header))
         signer (wrap64 number) (Coinbase header) authorize)
      (wrap64 number) (Coinbase header).
Proof.
  unfold apply_header. intros Hrun. go_inv_all.
  destruct (Number header) as [number|]; [|done]. cbn in *. simplify_eq.
  unfold u64_mod in *. destruct (_ =? 0) eqn:He in *; [done|]. simplify_eq.
  exists number. do 2 eexists. split; [done|]. split; [eassumption|].
  match goal with Hb : bool_decide _ = false |- _ => apply bool_decide_eq_false, dec_stable in Hb end.
  done.
Qed.

Lemma checked_signers number snap : sSigners (checked_snapshot number snap) = sSigners snap.
Proof. unfold checked_snapshot, expire_recent, reset_votes. by repeat case_match. Qed.

Lemma voting_ok_reset S : voting_ok S [] ∅.
Proof.
  split; [split; [set_solver..|constructor]|]. intros a. by rewrite lookup_empty.
Qed.

Lemma checked_voting number snap :
  voting_ok (sSigners snap) (sVotes snap) (sTally snap) →
  let checked := checked_snapshot number snap in
  voting_ok (sSigners checked) (sVotes checked) (sTally checked).
Proof.
  intros Hv. unfold checked_snapshot, expire_recent, reset_votes.
  repeat case_match; cbn; try done; apply voting_ok_reset.
Qed.

Lemma checked_recents number snap :
  is_u64 number → snapshot_inv (number - 1) snap →
  let checked := checked_snapshot number snap in
  recents_in (number - sign_limit checked) (number - 1) (sRecents checked).
Proof.
  intros Hn [_ HR]. cbn. unfold sign_limit at 1. rewrite checked_signers.
  unfold checked_snapshot. set (s0 := reset_votes _ snap).
  assert (sSigners s0 = sSigners snap ∧ sRecents s0 = sRecents snap) as [HS HRec]
    by (unfold s0, reset_votes; by case_match).
  change (_ / 2 + 1) with (sign_limit snap).
  replace (sign_limit snap) with (sign_limit s0) by (unfold sign_limit; by rewrite HS).
  apply expire_recent_ok; [done|]. rewrite HRec. eapply recents_in_weaken, HR.
  unfold sign_limit. rewrite HS. lia.
Qed.

(** Discarding the signer's previous vote and counting the new one. *)
Lemma tally_vote_ok s g n a authorize :
  voting_ok (sSigners s) (sVotes s) (sTally s) → g ∈ sSigners s →
  let s' := tally_vote (discard_vote s g a) g n a authorize in
  sSigners s' = sSigners s ∧ sRecents s' = sRecents s ∧
  voting_ok (sSigners s') (sVotes s') (sTally s') ∧
  (∀ v, v ∈ sVotes s' → v ∈ sVotes s ∨ v = mkVote g n a (meaningful (sSigners s) a)).
Proof.
  intros [Hv HT] Hg. cbn.
  destruct (discard_vote_from_ok (meaningful (sSigners s)) s [] (sVotes s) g a)
    as (T & Heq & HT'); [done|apply Hv|apply Hv|done|].
  unfold discard_vote. rewrite Heq. cbn [app].
  set (votes := filter _ _) in *.
  set (s1 := set_Votes _ votes).
  assert (voting_ok (sSigners s1) (sVotes s1) (sTally s1)) as Hok
    by (split; [by apply votes_ok_filter|done]).
  assert ((g, a) ∉ ballot <$> sVotes s1) as Hnew.
  { intros (v & Hb & [Hne _]%list_elem_of_filter)%list_elem_of_fmap. by rewrite Hb in Hne. }
  unfold tally_vote. destruct (cast s1 a authorize) as [[] s2] eqn:Hcast.
  - apply (cast_ok s1 g n a authorize) in Hcast as (-> & -> & Hok'); [|done..]. cbn.
    split; [done|]. split; [done|]. split; [done|].
    intros v [[_ ?]%list_elem_of_filter|Hl%list_elem_of_singleton]%elem_of_app; [by left|by right].
  - apply cast_refused in Hcast as [-> _]. split; [done|]. split; [done|]. split; [done|].
    intros v [_ ?]%list_elem_of_filter. by left.
Qed.

Lemma tally_vote_frame s g n a authorize :
  same_signers s (tally_vote (discard_vote s g a) g n a authorize).
Proof.
  unfold tally_vote. destruct (discard_vote_from_frame s [] (sVotes s) g a) as [HS HR].
  fold (discard_vote s g a) in *.
  destruct (cast_frame (discard_vote s g a) a authorize) as [HS' HR'].
  destruct (cast _ _ _) as [[] s']; cbn in *; split; cbn; congruence.
Qed.

Lemma apply_header_preserves snap header c snap' c' number :
  Number header = Some number → snapshot_inv (wrap64 number - 1) snap →
  apply_header config snap header c = (Ok snap', c') →
  snapshot_inv (wrap64 number) snap'.
Proof.
  intros Hnum Hinv Hrun.
  apply apply_header_ok in Hrun as (n & signer & authorize & Hn & _ & Hin & Hrec & _ & ->).
  simplify_eq. set (num := wrap64 number) in *.
  assert (is_u64 num) as Hu by apply wrap64_range.
  pose proof (checked_voting num snap (inv_voting _ _ Hinv)) as Hv.
  pose proof (checked_recents num snap Hu Hinv) as HR. cbv zeta in *.
  set (chk := checked_snapshot num snap) in *.
  destruct (tally_vote_ok (set_Recents chk (<[num:=signer]> (sRecents chk))) signer num
    (Coinbase header) authorize) as (HS & HR' & Hv' & _); [done..|].
  apply settle_vote_ok; [done|]. split; [done|].
  unfold sign_limit. rewrite HS, HR'. cbn.
  change (Z.of_nat (size (sSigners chk)) / 2 + 1) with (sign_limit chk).
  pose proof (sign_limit_pos chk). apply recents_in_insert; [apply Hu|lia|done|].
  by apply signed_recently_false.
Qed.

(** The number and hash of the snapshot are carried along untouched. *)
Definition reposition n h (r : Result clique_error Snapshot * C) : Result clique_error Snapshot * C :=
  (match r.1 with
   | Ok s => Ok (set_Position s n h) | Err e => Err e | Panic p => Panic p end, r.2).

Lemma apply_header_position snap header c n h :
  apply_header config (set_Position snap n h) header c =
  reposition n h (apply_header config snap header c).
Proof.
  unfold apply_header, mbind, gom_bind, lift.
  destruct (Uint64 (Number header)) as [num|e|p]; [|done..].
  destruct (u64_mod num (cl_Epoch config)) as [r|e|p]; [|done..].
  assert (reset_votes (r =? 0) (set_Position snap n h) =
          set_Position (reset_votes (r =? 0) snap) n h) as -> by (unfold reset_votes; by case_match).
  rewrite expire_recent_position. set (s0 := expire_recent _ num).
  destruct (clique_ecrecover header c) as [[g|e|p] c1]; [|done..]. cbn.
  case_match; [done|]. unfold signed_recently; cbn. case_match; [done|].
  destruct (nonce_vote header) as [auth|e|p]; [|done..].
  change (set_Recents (set_Position s0 n h) ?x) with (set_Position (set_Recents s0 x) n h).
  unfold discard_vote; cbn. rewrite discard_vote_from_position.
  unfold tally_vote. rewrite cast_position. destruct (cast _ _ auth) as [[] s1].
  - change (set_Votes (set_Position s1 n h) ?x) with (set_Position (set_Votes s1 x) n h).
    unfold mret, gom_ret, reposition; cbn. by rewrite settle_vote_position.
  - unfold mret, gom_ret, reposition; cbn. by rewrite settle_vote_position.
Qed.

Lemma apply_headers_position snap headers c n h :
  apply_headers config (set_Position snap n h) headers c =
  reposition n h (apply_headers config snap headers c).
Proof.
  revert snap c; induction headers as [|header rest IH]; intros snap c; [done|]. cbn.
  unfold mbind, gom_bind. rewrite apply_header_position. unfold reposition at 1.
  destruct (apply_header config snap header c) as [[s|e|p] c1]; cbn; [apply IH|done..].
Qed.

Lemma apply_headers_keeps_position snap headers c snap' c' :
  apply_headers config snap headers c = (Ok snap', c') →
  sNumber snap' = sNumber snap ∧ sHash snap' = sHash snap.
Proof.
  intros Hrun. pose proof (apply_headers_position snap headers c (sNumber snap) (sHash snap)) as Hpos.
  rewrite set_Position_id, Hrun in Hpos. unfold reposition in Hpos; cbn in Hpos.
  injection Hpos as Hpos. by rewrite Hpos.
Qed.
End apply_lemmas.

(** * Sequences of headers *)
Section sequences.
Context `{Crypto} {C : Type} `{Cache Hash Address C}.
Context (config : CliqueConfig).
Implicit Types (header : Header) (headers : list Header) (s snap : Snapshot) (c : C).

(** The headers carry the numbers [n], [n+1], ... (as [uint64]). *)
Fixpoint numbered (n : Z) headers : Prop :=
  match headers with
  | [] => True
  | header :: rest =>
      (∃ m, Number header = Some m ∧ wrap64 m = wrap64 n) ∧ numbered (n + 1) rest
  end.

Lemma numbered_cong n n' headers :
  wrap64 n = wrap64 n' → numbered n headers → numbered n' headers.
Proof.
  revert n n'; induction headers as [|h rest IH]; intros n n' Heq; [done|]. cbn.
  intros [(m & ? & ?) Hrest]. split; [by exists m; rewrite <- Heq|].
  eapply IH, Hrest. by apply wrap64_add_cong.
Qed.

Lemma numbered_app n h1 h2 :
  numbered n (h1 ++ h2) ↔ numbered n h1 ∧ numbered (n + Z.of_nat (length h1)) h2.
Proof.
  revert n; induction h1 as [|h h1 IH]; intros n; cbn.
  - rewrite Z.add_0_r. tauto.
  - rewrite IH. replace (n + 1 + Z.of_nat (length h1)) with (n + Z.of_nat (S (length h1))) by lia. tauto.
Qed.

Lemma check_contiguous_numbered first rest m n :
  Number first = Some m → wrap64 m = wrap64 n →
  check_contiguous first rest = Ok tt ↔ numbered (n + 1) rest.
Proof.
  revert first m n; induction rest as [|next rest IH]; intros first m n Hm Hn; [done|].
  cbn. rewrite Hm. cbn. destruct (Number next) as [m'|] eqn:Hm'; cbn; [|naive_solver].
  replace (wrap64 m + 1)%u64 with (wrap64 (n + 1))
    by (unfold u64_add; rewrite wrap64_add_l; by apply wrap64_add_cong).
  destruct (wrap64 m' =? wrap64 (n + 1)) eqn:Heq; cbn.
  - apply Z.eqb_eq in Heq. rewrite (IH next m' (n + 1)) by done.
    split; [|by intros [_ ?]]. intros ?. split; [by exists m'|done].
  - apply Z.eqb_neq in Heq. split; [done|]. intros [(? & [= <-] & ?) _]. done.
Qed.

Lemma apply_cons s first rest c :
  apply config s (first :: rest) c =
  match check_contiguous first rest, Uint64 (Number first) with
  | Ok _, Ok n0 =>
      if negb (n0 =? (sNumber s + 1)%u64) then (Err errInvalidVotingChain, c) else
      match apply_headers config s (first :: rest) c with
      | (Ok snap, c') =>
          (Ok (set_Position snap (sNumber snap + Z.of_nat (length (first :: rest)))%u64
                 (Header_Hash (List.last (first :: rest) first))), c')
      | (Err e, c') => (Err e, c')
      | (Panic p, c') => (Panic p, c')
      end
  | Ok _, Err e => (Err e, c)
  | Ok _, Panic p => (Panic p, c)
  | Err e, _ => (Err e, c)
  | Panic p, _ => (Panic p, c)
  end.
Proof.
  unfold apply, mbind, gom_bind, lift. destruct (check_contiguous first rest); [|done..].
  destruct (Uint64 (Number first)); [|done..]. by case_match.
Qed.

Lemma numbered_cons_iff n first rest m :
  Number first = Some m →
  numbered n (first :: rest) ↔ wrap64 m = wrap64 n ∧ check_contiguous first rest = Ok tt.
Proof.
  intros Hm. cbn. split.
  - intros [(? & ? & Heq) Hrest]. simplify_eq. split; [done|].
    by eapply check_contiguous_numbered.
  - intros [Heq Hok]. split; [by exists m|]. by eapply check_contiguous_numbered in Hok.
Qed.

(** The outcome of [apply] on at least one header. *)
Lemma apply_ok_iff s first rest c s' c' :
  let headers := first :: rest in
  apply config s headers c = (Ok s', c') ↔
  numbered (sNumber s + 1) headers ∧
  ∃ snap, apply_headers config s headers c = (Ok snap, c') ∧
    s' = set_Position snap (sNumber s + Z.of_nat (length headers))%u64
           (Header_Hash (List.last headers first)).
Proof.
  cbv zeta. rewrite apply_cons. destruct (Number first) as [m|] eqn:Hm.
  2:{ cbn. rewrite Hm. split; [|intros [[(m & Hm' & _) _] _]; congruence].
      by destruct (check_contiguous first rest) as [[]|?|?]. }
  rewrite (numbered_cons_iff _ _ _ m Hm). cbn [Uint64].
  destruct (check_contiguous first rest) as [[]|?|?]; [|by split; [|intros [[_ ?] _]]..].
  unfold u64_add at 1. destruct (wrap64 m =? wrap64 (sNumber s + 1)) eqn:Heq; cbn [negb].
  - apply Z.eqb_eq in Heq.
    destruct (apply_headers config s (first :: rest) c) as [[snap|?|?] c1] eqn:Hrun;
      [|by split; [|intros [_ (? & ? & _)]]..].
    apply apply_headers_keeps_position in Hrun as [-> _]. naive_solver.
  - apply Z.eqb_neq in Heq. by split; [|intros [[? _] _]].
Qed.
End sequences.
