(* ===== verification/CliqueVoting.v ===== *)
(** What Clique's voting guarantees: theorems about [Clique.apply] and the
    snapshots reached from a genesis or checkpoint block. *)
From S2P Require Import Prelude Types Sealing VotingSnapshot Clique.

Section invariants.
Context `{Crypto} {C : Type} `{Cache Hash Address C}.
Context (config : CliqueConfig).
Implicit Types (header : Header) (headers : list Header) (s snap : Snapshot) (c : C).

Lemma apply_headers_preserves n snap headers c snap' c' :
  numbered (n + 1) headers → snapshot_inv n snap →
  0 ≤ n → n + Z.of_nat (length headers) < u64_modulus →
  apply_headers config snap headers c = (Ok snap', c') →
  snapshot_inv (n + Z.of_nat (length headers)) snap'.
Proof.
  revert n snap c; induction headers as [|h rest IH]; intros n snap c Hnum Hinv Hn Hlen Hrun; cbn in *.
  - go_inv_all. by rewrite Z.add_0_r.
  - destruct Hnum as [(m & Hm & Heq) Hrest].
    apply gom_bind_ok in Hrun as (snap1 & c1 & Hstep & Hrun).
    rewrite (wrap64_id (n + 1)) in Heq by u64_lia.
    eapply (apply_header_preserves config snap h c snap1 c1 m) in Hstep;
      [|done|by rewrite Heq, Z.add_simpl_r].
    rewrite Heq in Hstep.
    replace (n + Z.of_nat (S (length rest))) with (n + 1 + Z.of_nat (length rest)) by lia.
    eapply IH; [done|done|lia|lia|done].
Qed.

Lemma apply_keeps_invariant s headers c s' c' :
  snapshot_ok s → sNumber s + Z.of_nat (length headers) < u64_modulus →
  apply config s headers c = (Ok s', c') →
  snapshot_ok s' ∧ sNumber s' = sNumber s + Z.of_nat (length headers).
Proof.
  intros [Hu Hinv] Hlen. destruct headers as [|first rest].
  { cbn. intros. go_inv_all. split; [done|]. cbn. lia. }
  intros (Hnum & snap & Hrun & ->)%apply_ok_iff.
  apply apply_headers_preserves with (n := sNumber s) in Hrun as Hinv'; [|done|done|apply Hu|done].
  cbn [sNumber set_Position]. rewrite u64_add_id by (cbn [length] in *; u64_lia).
  split; [|done]. split; [cbn [length sNumber set_Position] in *; u64_lia|]. destruct Hinv' as [Hv HR]. by split.
Qed.

(** C32: applying headers preserves the snapshot invariant: the tally caches
    exactly the pending votes, every pending vote was cast once by a current
    signer for a change that makes sense, and the recent signers are distinct
    and lie in the signing window.  The number advances by the headers
    applied. *)
Theorem apply_preserves_snapshot_ok s headers c s' c' :
  snapshot_ok s → sNumber s + Z.of_nat (length headers) < u64_modulus →
  apply config s headers c = (Ok s', c') →
  snapshot_ok s' ∧ sNumber s' = sNumber s + Z.of_nat (length headers).
Proof. apply apply_keeps_invariant. Qed.

Lemma apply_headers_app snap h1 h2 c :
  apply_headers config snap (h1 ++ h2) c =
  (snap1 ← apply_headers config snap h1; apply_headers config snap1 h2) c.
Proof.
  revert snap c; induction h1 as [|h l IH]; intros snap c; [done|]. cbn.
  unfold mbind, gom_bind in *.
  destruct (apply_header config snap h c) as [[] ?]; [apply IH|done..].
Qed.

Lemma apply_headers_from_position snap n h headers c s' c' :
  apply_headers config (set_Position snap n h) headers c = (Ok s', c') ↔
  ∃ snap', apply_headers config snap headers c = (Ok snap', c') ∧ s' = set_Position snap' n h.
Proof.
  rewrite apply_headers_position. unfold reposition.
  destruct (apply_headers config snap headers c) as [[a|e|p] c1]; cbn;
    [|by split; [|intros (? & ? & _)]..].
  split; [intros [= <- <-]; eauto|by intros (? & [= -> ->] & ->)].
Qed.

(** A batch of headers is accepted exactly when its two halves are
    accepted one after the other, with the same final snapshot: where the
    chain is cut into batches (or resumed from a stored snapshot) does not
    matter. *)
Theorem apply_app s h1 h2 c s' c' :
  apply config s (h1 ++ h2) c = (Ok s', c') ↔
  ∃ s1 c1, apply config s h1 c = (Ok s1, c1) ∧ apply config s1 h2 c1 = (Ok s', c').
Proof.
  destruct h1 as [|f1 r1].
  { split; [intros; by exists s, c|by intros (? & ? & [= <- <-] & ?)]. }
  destruct h2 as [|f2 r2].
  { rewrite app_nil_r. split; [intros; by exists s', c'|by intros (? & ? & ? & [= <- <-])]. }
  assert (numbered (sNumber s + 1) ((f1 :: r1) ++ f2 :: r2) ↔
    numbered (sNumber s + 1) (f1 :: r1) ∧
    numbered ((sNumber s + Z.of_nat (length (f1 :: r1)))%u64 + 1) (f2 :: r2)) as Hnum.
  { rewrite numbered_app. apply and_iff_compat_l.
    split; apply numbered_cong; unfold u64_add; rewrite wrap64_add_l; f_equal; lia. }
  assert (∀ n, ((sNumber s + Z.of_nat (length (f1 :: r1)))%u64 + Z.of_nat n)%u64 =
    (sNumber s + Z.of_nat (length (f1 :: r1) + n))%u64) as Hlen.
  { intros n. unfold u64_add. rewrite wrap64_add_l. f_equal. lia. }
  assert (List.last ((f1 :: r1) ++ f2 :: r2) f1 = List.last (f2 :: r2) f2) as Hlast.
  { generalize (f1 :: r1) as l. induction l as [|x l IH]; [|rewrite <- IH; by destruct l].
    cbn. clear. destruct r2 as [|x r2]; [done|]. revert x. induction r2; intros x; cbn in *; auto. }
  rewrite <- app_comm_cons, apply_ok_iff. setoid_rewrite apply_ok_iff. rewrite app_comm_cons, Hnum.
  split.
  - intros ([Hn1 Hn2] & snap & Hrun & ->). rewrite apply_headers_app in Hrun.
    apply gom_bind_ok in Hrun as (snap1 & c1 & Hrun1 & Hrun2).
    do 2 eexists. split; [split; [done|]; by eexists|]. cbn [sNumber set_Position]. split; [done|].
    setoid_rewrite apply_headers_from_position. eexists. split; [by eexists|].
    rewrite Hlen, <- length_app, Hlast. by destruct snap.
  - intros (? & c1 & (Hn1 & snap1 & Hrun1 & ->) & Hn2 & snap2 & Hrun2 & ->).
    split; [done|]. apply apply_headers_from_position in Hrun2 as (snap & Hrun2 & ->).
    exists snap. split; [rewrite apply_headers_app; unfold mbind, gom_bind; by rewrite Hrun1|].
    cbn [sNumber set_Position]. rewrite Hlen, <- length_app, Hlast. by destruct snap.
Qed.
End invariants.

(** * Who can change the set of signers *)
Section majority.
Context `{Crypto} {C : Type} `{Cache Hash Address C}.
Context (config : CliqueConfig).
Implicit Types (header : Header) (s snap : Snapshot) (c : C).

(** The votes on one account come from as many distinct signers. *)
Lemma distinct_voters S votes T a :
  voting_ok S votes T →
  let voters := list_to_set (C := gset Address) (vSigner <$> filter (λ v, vAddress v = a) votes) in
  voters ⊆ S ∧ Z.of_nat (size voters) = votes_about a votes.
Proof.
  intros [[_ Hs Hn] _]. cbv zeta. split.
  - intros g (v & -> & [_ Hv]%list_elem_of_filter)%elem_of_list_to_set%list_elem_of_fmap.
    by apply Hs.
  - unfold votes_about. rewrite size_list_to_set; [by rewrite length_fmap|].
    assert (NoDup (ballot <$> filter (λ v, vAddress v = a) votes)) as Hb.
    { eapply sublist_NoDup; [exact Hn|]. apply fmap_sublist, sublist_filter. }
    clear -Hb. induction votes as [|v votes IH]; [constructor|].
    rewrite filter_cons in *. case_decide as Ha; [|by apply IH].
    rewrite fmap_cons in *. apply NoDup_cons in Hb as [Hv Hb].
    apply NoDup_cons. split; [|by apply IH].
    intros (w & Heq & Hw)%list_elem_of_fmap. apply Hv, list_elem_of_fmap.
    exists w. split; [|done]. apply list_elem_of_filter in Hw as [Hwa _].
    unfold ballot. by rewrite Heq, Ha, Hwa.
Qed.

(** [settle_vote] changes the membership of the account it settles only, and
    only with a majority. *)
Lemma settle_vote_signers s n a :
  voting_ok (sSigners s) (sVotes s) (sTally s) →
  sSigners (settle_vote s n a) = sSigners s ∨
  Z.of_nat (size (sSigners s)) / 2 < votes_about a (sVotes s) ∧
  ∀ b, b ≠ a → b ∈ sSigners (settle_vote s n a) ↔ b ∈ sSigners s.
Proof.
  intros Hv. unfold settle_vote. destruct (_ <? _) eqn:Hlt; [|by left]. right.
  apply Z.ltb_lt in Hlt. destruct (passed_majority s a Hv Hlt) as [HT Hmaj].
  split; [done|]. intros b Hb. rewrite HT. cbn. destruct (meaningful _ a); cbn.
  - rewrite elem_of_union, elem_of_singleton. naive_solver.
  - set (s1 := expire_recent _ n).
    destruct (discard_votes_by_from_frame s1 [] (sVotes s1) a) as [HS _].
    unfold discard_votes_by. rewrite HS.
    assert (sSigners s1 = sSigners s ∖ {[a]}) as -> by apply expire_recent_signers.
    rewrite elem_of_difference, elem_of_singleton. naive_solver.
Qed.

(** C4: a header changes the membership of an account only when it is the
    account the header votes on and a strict majority of distinct current
    signers asks for the change: the sealer of this header and signers
    whose votes are pending in the snapshot. *)
Theorem membership_change_needs_majority n snap header c snap' c' a :
  snapshot_inv n snap →
  apply_header config snap header c = (Ok snap', c') →
  ¬ (a ∈ sSigners snap ↔ a ∈ sSigners snap') →
  a = Coinbase header ∧
  ∃ voters : gset Address,
    voters ⊆ sSigners snap ∧
    Z.of_nat (size (sSigners snap)) < 2 * Z.of_nat (size voters) ∧
    ∀ g, g ∈ voters →
      (clique_ecrecover header c).1 = Ok g ∨
      ∃ v, v ∈ sVotes snap ∧ vSigner v = g ∧ vAddress v = a ∧
           vAuthorize v = bool_decide (a ∉ sSigners snap).
Proof.
  intros Hinv Hrun Hchange.
  apply apply_header_ok in Hrun as (m & g & auth & _ & Hg & Hin & _ & _ & ->).
  set (num := wrap64 m) in *.
  pose proof (checked_voting config num snap (inv_voting _ _ Hinv)) as Hv. cbv zeta in *.
  pose proof (checked_signers config num snap) as HS.
  assert (∀ v, v ∈ sVotes (checked_snapshot config num snap) → v ∈ sVotes snap) as Hold.
  { intros v. unfold checked_snapshot, expire_recent, reset_votes. repeat case_match; cbn; first [done|by intros ?%elem_of_nil]. }
  set (chk := checked_snapshot config num snap) in *.
  set (s1 := set_Recents chk _) in *.
  destruct (tally_vote_ok s1 g num (Coinbase header) auth Hv Hin) as (HS' & _ & Hv' & Hvotes).
  set (s2 := tally_vote _ g num (Coinbase header) auth) in *.
  change (sSigners s1) with (sSigners chk) in *. rewrite HS in *.
  destruct (settle_vote_signers s2 num (Coinbase header) Hv') as [Heq|[Hmaj Hothers]].
  { exfalso. apply Hchange. by rewrite Heq, HS'. }
  assert (a = Coinbase header) as ->.
  { destruct (decide (a = Coinbase header)) as [|Hne]; [done|]. exfalso. apply Hchange.
    by rewrite Hothers, HS' by done. }
  split; [done|].
  destruct (distinct_voters _ _ _ (Coinbase header) Hv') as [Hsub Hsize]. rewrite HS' in *.
  eexists. split; [exact Hsub|]. split.
  { rewrite Hsize. pose proof (Z.div_mod (Z.of_nat (size (sSigners snap))) 2).
    pose proof (Z.mod_pos_bound (Z.of_nat (size (sSigners snap))) 2). lia. }
  intros g' (v & -> & [Ha Hin']%list_elem_of_filter)%elem_of_list_to_set%list_elem_of_fmap.
  pose proof (vok_change _ _ _ (voting_votes _ _ _ Hv') v Hin') as Hch. rewrite Ha in Hch.
  destruct (Hvotes v Hin') as [Hin2|Heq].
  - right. exists v. split; [by apply Hold|]. by rewrite Hch.
  - left. rewrite Heq. cbn. by rewrite Hg.
Qed.
End majority.

(** * How often a signer may sign *)
Section spacing.
Context `{Crypto} {C : Type} `{Cache Hash Address C}.
Context (config : CliqueConfig).
Implicit Types (header : Header) (headers : list Header) (snap : Snapshot) (c : C).

(** A successful run over the headers with the signers recovered on the way,
    in which at least [N] signers are authorised throughout. *)
Fixpoint signing_run (N : Z) snap c headers (gs : list Address) : Prop :=
  match headers, gs with
  | [], [] => True
  | header :: rest, g :: gs' =>
      ∃ snap' c',
        clique_ecrecover header c = (Ok g, c') ∧
        apply_header config snap header c = (Ok snap', c') ∧
        N ≤ Z.of_nat (size (sSigners snap)) ∧ N ≤ Z.of_nat (size (sSigners snap')) ∧
        signing_run N snap' c' rest gs'
  | _, _ => False
  end.

Lemma expire_recent_keeps s number b g :
  is_u64 number → number - sign_limit s < b → sRecents s !! b = Some g →
  sRecents (expire_recent s number) !! b = Some g.
Proof.
  intros Hu Hb Hg. unfold expire_recent. destruct (sign_limit s <=? number) eqn:Hle; [|done].
  pose proof (sign_limit_pos s). cbn. rewrite u64_sub_id by u64_lia.
  by rewrite lookup_delete_ne by lia.
Qed.

Lemma settle_vote_keeps s number a b g :
  is_u64 number → number - sign_limit (settle_vote s number a) < b →
  sRecents s !! b = Some g → sRecents (settle_vote s number a) !! b = Some g.
Proof.
  intros Hu. unfold settle_vote. case_match; [|done]. case_match; [done|]. cbn.
  set (s1 := expire_recent _ number). intros Hb Hg.
  destruct (discard_votes_by_from_frame s1 [] (sVotes s1) a) as [HS HR].
  unfold discard_votes_by, sign_limit in *; cbn in *. rewrite HS in Hb. rewrite HR.
  unfold s1 in *. rewrite expire_recent_signers in Hb. by apply expire_recent_keeps.
Qed.
(** One step records its signer, keeps the entries of the window that the
    [N] signers impose, and refuses the signers of that window. *)
Lemma apply_header_window N snap header c snap' c' m g :
  Number header = Some m →
  clique_ecrecover header c = (Ok g, c') →
  apply_header config snap header c = (Ok snap', c') →
  0 ≤ N ≤ Z.of_nat (size (sSigners snap)) → N ≤ Z.of_nat (size (sSigners snap')) →
  sRecents snap' !! wrap64 m = Some g ∧
  ∀ b x, wrap64 m - N / 2 ≤ b < wrap64 m → sRecents snap !! b = Some x →
    x ≠ g ∧ sRecents snap' !! b = Some x.
Proof.
  intros Hm Hg Hrun HN HN'.
  apply apply_header_ok in Hrun as (m' & g' & auth & Hm' & Hg' & Hin & Hrec & _ & ->).
  assert (m' = m) as -> by congruence. assert (g' = g) as -> by congruence. set (num := wrap64 m) in *.
  assert (is_u64 num) as Hu by apply wrap64_range.
  assert (N / 2 ≤ Z.of_nat (size (sSigners snap)) / 2) as Hhalf by (apply Z.div_le_mono; lia).
  set (chk := checked_snapshot config num snap) in *.
  set (s1 := set_Recents chk _) in *.
  assert (sRecents (tally_vote (discard_vote s1 g (Coinbase header)) g num (Coinbase header) auth)
    = sRecents s1) as HR by apply tally_vote_frame.
  set (s2 := tally_vote _ g num (Coinbase header) auth) in *.
  assert (N / 2 + 1 ≤ sign_limit (settle_vote s2 num (Coinbase header))) as Hlim.
  { unfold sign_limit. enough (N / 2 ≤ Z.of_nat (size (sSigners (settle_vote s2 num (Coinbase header)))) / 2) by lia.
    apply Z.div_le_mono; lia. }
  assert (0 ≤ N / 2) by (apply Z.div_pos; lia).
  split.
  - apply settle_vote_keeps; [done|lia|]. rewrite HR. cbn. by rewrite lookup_insert_eq.
  - intros b x Hb Hx.
    assert (sRecents chk !! b = Some x) as Hchk.
    { unfold chk, checked_snapshot. apply expire_recent_keeps; [done| |unfold reset_votes; by case_match].
      unfold sign_limit. enough (sSigners (reset_votes (num mod cl_Epoch config =? 0) snap) = sSigners snap) as -> by lia.
      unfold reset_votes; by case_match. }
    split; [intros ->; by eapply signed_recently_false in Hrec|].
    apply settle_vote_keeps; [done|lia|]. rewrite HR. cbn. by rewrite lookup_insert_ne by lia.
Qed.

(** While an entry is in the window its signer does not sign again. *)
Lemma recent_not_signing N n snap c headers gs b x k :
  numbered (n + 1) headers → 0 ≤ n → n + Z.of_nat (length headers) < u64_modulus →
  0 ≤ N → signing_run N snap c headers gs →
  b ≤ n → sRecents snap !! b = Some x →
  n + 1 + Z.of_nat k - N / 2 ≤ b → gs !! k ≠ Some x.
Proof.
  revert n snap c gs k; induction headers as [|h rest IH]; intros n snap c gs k Hnum Hn Hlen HN Hrun Hb Hx Hk;
    destruct gs as [|g gs]; try done.
  cbn in Hrun, Hnum, Hlen. destruct Hnum as [(m & Hm & Heq) Hnum].
  destruct Hrun as (snap' & c' & Hg & Hstep & HN1 & HN2 & Hrun).
  rewrite (wrap64_id (n + 1)) in Heq by u64_lia.
  destruct (apply_header_window N snap h c snap' c' m g Hm Hg Hstep (conj HN HN1) HN2) as [_ Hwin].
  rewrite Heq in Hwin. destruct (Hwin b x) as [Hne Hx']; [lia|done|].
  destruct k as [|k]; cbn; [congruence|].
  eapply (IH (n + 1)); [done|lia|lia|done|done|lia|done|lia].
Qed.

(** C11: while at least [N] signers are authorised, any [N/2+1] consecutive
    blocks are sealed by different signers. *)
Theorem consecutive_signers_distinct N n snap c headers gs i j g :
  numbered (n + 1) headers → 0 ≤ n → n + Z.of_nat (length headers) < u64_modulus →
  0 ≤ N → signing_run N snap c headers gs →
  (i < j)%nat → Z.of_nat j - Z.of_nat i ≤ N / 2 →
  gs !! i = Some g → gs !! j ≠ Some g.
Proof.
  revert n snap c gs i j; induction headers as [|h rest IH];
    intros n snap c gs i j Hnum Hn Hlen HN Hrun Hij Hd Hi; destruct gs as [|g0 gs]; try done.
  cbn in Hrun, Hnum, Hlen. destruct Hnum as [(m & Hm & Heq) Hnum].
  destruct Hrun as (snap' & c' & Hg & Hstep & HN1 & HN2 & Hrun).
  rewrite (wrap64_id (n + 1)) in Heq by u64_lia.
  destruct (apply_header_window N snap h c snap' c' m g0 Hm Hg Hstep (conj HN HN1) HN2) as [Hrec _].
  rewrite Heq in Hrec. destruct j as [|j]; [lia|]. cbn. destruct i as [|i]; cbn in Hi.
  - simplify_eq. by apply (recent_not_signing N (n + 1) snap' c' rest gs (n + 1) g j); auto; lia.
  - apply (IH (n + 1) snap' c' gs i j); auto; lia.
Qed.
End spacing.

(** * Snapshots reached from a genesis or checkpoint block *)
Section reachable.
Context `{Crypto} {C : Type} `{Cache Hash Address C}.
Context (config : CliqueConfig).

Lemma newSnapshot_ok number hash authorities :
  is_u64 number → snapshot_ok (newSnapshot number hash authorities).
Proof.
  intros Hu. split; [done|]. split; cbn; [apply voting_ok_reset|].
  split; [intros b a|intros b b' a]; by rewrite lookup_empty.
Qed.

Lemma tally_bound s a t :
  voting_ok (sSigners s) (sVotes s) (sTally s) → sTally s !! a = Some t →
  1 ≤ tVotes t ≤ Z.of_nat (size (sSigners s)).
Proof.
  intros Hv Ht. destruct (distinct_voters _ _ _ a Hv) as [Hsub Hsize].
  rewrite (voting_tally _ _ _ Hv a) in Ht. case_decide as Hz; [done|]. simplify_eq. cbn.
  pose proof (votes_about_nonneg a (sVotes s)). split; [lia|].
  rewrite <- Hsize. apply Nat2Z.inj_le. by apply subseteq_size.
Qed.

Lemma recents_bound lo hi (R : gmap Z Address) :
  lo ≤ hi → recents_in lo hi R → Z.of_nat (size R) ≤ hi - lo.
Proof.
  intros Hle [Hw _]. rewrite <- size_dom.
  assert (dom R ⊆ list_to_set (C := gset Z) (seqZ (lo + 1) (hi - lo))) as Hsub.
  { intros b [a Hb]%elem_of_dom. apply elem_of_list_to_set, elem_of_seqZ.
    specialize (Hw b a Hb). lia. }
  apply subseteq_size in Hsub. rewrite size_list_to_set in Hsub by apply NoDup_seqZ.
  rewrite length_seqZ in Hsub. lia.
Qed.

(** In every snapshot reached from a genesis or checkpoint block, a
    tally counts at least one and at most as many votes as there are
    signers (so the [int] counter cannot overflow), and no more recent
    signers are kept than the signing window has blocks. *)
Theorem reachable_snapshot_bounds number hash authorities headers c s c' :
  is_u64 number → number + Z.of_nat (length headers) < u64_modulus →
  apply config (newSnapshot number hash authorities) headers c = (Ok s, c') →
  (∀ a t, sTally s !! a = Some t → 1 ≤ tVotes t ≤ Z.of_nat (size (sSigners s))) ∧
  Z.of_nat (size (sRecents s)) ≤ Z.of_nat (size (sSigners s)) / 2 + 1.
Proof.
  intros Hu Hlen Hrun.
  apply apply_keeps_invariant in Hrun as [[_ [Hv HR]] _]; [|by apply newSnapshot_ok|done].
  split; [intros a t; by apply tally_bound|].
  fold (sign_limit s). pose proof (sign_limit_pos s).
  apply recents_bound in HR; lia.
Qed.

Lemma size_filter_signers s g :
  length (filter (λ b, b < g) (signers s)) = size (filter (λ b, b < g) (sSigners s)).
Proof.
  assert (filter (λ b, b < g) (sSigners s) =
    list_to_set (C := gset Address) (filter (λ b, b < g) (signers s))) as ->.
  { apply set_eq. intros b.
    by rewrite elem_of_filter, elem_of_list_to_set, list_elem_of_filter, elem_of_signers. }
  rewrite size_list_to_set; [done|]. apply NoDup_filter, signers_NoDup.
Qed.

(** for every block number exactly one address is in turn, and it is the
    authorised signer with [number mod len(signers)] smaller signers; with no
    signer at all the turn computation divides by zero. *)
Theorem exactly_one_in_turn s number :
  (sSigners s ≠ ∅ →
   ∃ g, g ∈ sSigners s ∧
     Z.of_nat (size (filter (λ b, b < g) (sSigners s))) =
       number mod Z.of_nat (size (sSigners s)) ∧
     ∀ g', inturn (E := clique_error) s number g' = Ok (bool_decide (g' = g))) ∧
  (sSigners s = ∅ → ∀ g, inturn (E := clique_error) s number g = Panic DivideByZero).
Proof.
  split.
  - intros Hne. set (k := number mod Z.of_nat (size (sSigners s))).
    assert (size (sSigners s) ≠ 0)%nat by (rewrite size_non_empty_iff; by intros ?%leibniz_equiv).
    assert (0 ≤ k < Z.of_nat (size (sSigners s))) as Hk by (apply Z.mod_pos_bound; lia).
    destruct (lookup_lt_is_Some_2 (signers s) (Z.to_nat k)) as [g Hg]; [rewrite signers_length; lia|].
    exists g. assert (g ∈ signers s) as Hin by (by eapply list_elem_of_lookup_2).
    split; [by apply elem_of_signers|]. split.
    + pose proof (sorted_rank (signers s) (Z.to_nat k) g (signers_StronglySorted s) (signers_NoDup s) Hg) as Hrank.
      rewrite <- size_filter_signers. lia.
    + intros g'. rewrite inturn_run by done. f_equal. fold k.
      destruct (decide (g' = g)) as [->|Hne'].
      * rewrite bool_decide_true by done. apply Z.eqb_eq.
        pose proof (signer_offset_lookup (signers s) g Hin) as Hoff.
        pose proof (NoDup_lookup _ _ _ _ (signers_NoDup s) Hg Hoff). lia.
      * rewrite bool_decide_false by done. apply Z.eqb_neq. intros Heq.
        destruct (decide (g' ∈ signers s)) as [Hin'|Hout].
        { apply signer_offset_lookup in Hin'. rewrite <- (Nat2Z.id (signer_offset _ _)), <- Heq, Hg in Hin'. congruence. }
        { apply signer_offset_absent in Hout. rewrite signers_length in Hout. lia. }
  - intros He g. unfold inturn, u64_mod. rewrite signers_length, He, size_empty. done.
Qed.
End reachable.
