(* ===== verification/CliqueEngine.v ===== *)
(** The Clique engine ([consensus/clique/clique.go], [api.go]): retrieval of
    voting snapshots through the caches, header verification, preparation and
    sealing of blocks, and the proposals of the RPC interface. *)
From S2P Require Import Prelude Types Sealing Blocks VotingSnapshot Clique.

Definition checkpointInterval : Z := 1024.

(** [json.Marshal] and [json.Unmarshal] on the exported fields of [Snapshot]
    (Go's [encoding/json]): encoding does not fail on these field types, and
    decoding what was encoded gives it back. *)
Class SnapshotCodec := {
  json_Marshal : Snapshot → option (list byte);
  json_Unmarshal : list byte → option Snapshot;
  json_Marshal_some s : is_Some (json_Marshal s);
  json_roundtrip s b : json_Marshal s = Some b → json_Unmarshal b = Some s
}.

(** The mutable part of the Go struct [Clique]. *)
Record Engine (RC SC D : Type) := mkEngine {
  eRecents : RC; eSignatures : SC; eDb : D;
  eProposals : gmap Address bool; eSigner : Address }.
Arguments mkEngine {RC SC D} _ _ _ _ _.
Arguments eRecents {RC SC D} _.
Arguments eSignatures {RC SC D} _.
Arguments eDb {RC SC D} _.
Arguments eProposals {RC SC D} _.
Arguments eSigner {RC SC D} _.

Section engine.
Context `{Crypto} `{SnapshotCodec}.
Context {RC SC D : Type} `{Cache Hash Snapshot RC} `{Cache Hash Address SC} `{KeyValueStore D}.
Context {CH : Type} `{ChainReader CH} (chain : CH).
Context `{BlockDigests} (config : CliqueConfig).
Implicit Types (header : Header) (parents headers : list Header) (snap : Snapshot).

Abbreviation M := (GoM (Engine RC SC D) clique_error).

Definition set_recents (e : Engine RC SC D) (x : RC) : Engine RC SC D :=
  mkEngine x (eSignatures e) (eDb e) (eProposals e) (eSigner e).
Definition set_signatures (e : Engine RC SC D) (x : SC) : Engine RC SC D :=
  mkEngine (eRecents e) x (eDb e) (eProposals e) (eSigner e).
Definition set_db (e : Engine RC SC D) (x : D) : Engine RC SC D :=
  mkEngine (eRecents e) (eSignatures e) x (eProposals e) (eSigner e).

(** Run a computation on the signature cache. *)
Definition with_signatures {A} (m : GoM SC clique_error A) : M A := λ e,
  let '(r, sc) := m (eSignatures e) in (r, set_signatures e sc).

(** [c.recents.Get(hash)] *)
Definition recents_Get (hash : Hash) : M (option Snapshot) := λ e,
  let '(o, rc) := cache_get hash (eRecents e) in (Ok o, set_recents e rc).

(** "Always Keccak256(RLP([])) as uncles are meaningless outside of PoW." *)
Definition uncleHash : Hash := CalcUncleHash [].

Definition snapshot_key (hash : Hash) : string * Hash := ("clique-"%string, hash).

(** A failure of any kind is answered the same way by the only caller. *)
Definition loadSnapshot (hash : Hash) : M (option Snapshot) := λ e,
  (Ok (blob ← kv_get (snapshot_key hash) (eDb e); json_Unmarshal blob), e).

Definition store snap : M unit := λ e,
  match json_Marshal snap with
  | None => (Err errDatabase, e)
  | Some blob =>
      match kv_put (snapshot_key (sHash snap)) blob (eDb e) with
      | None => (Err errDatabase, e)
      | Some db => (Ok tt, set_db e db)
      end
  end.

(** [make([]common.Address, n)] panics on a negative length; [int] division
    truncates towards zero. *)
Definition checkpoint_signers (checkpoint : Header) : Result clique_error (list Address) :=
  let n := Z.quot (Z.of_nat (length (Extra checkpoint)) - Z.of_nat extraVanity - Z.of_nat extraSeal)
             (Z.of_nat AddressLength) in
  if n <? 0 then Panic (ExplicitPanic "makeslice: len out of range")
  else Ok ((λ i : nat, copy_address (take AddressLength (drop (extraVanity + i * AddressLength) (Extra checkpoint))))
             <$> seq 0 (Z.to_nat n)).

(** "If we're at an checkpoint block, make a snapshot if it's known":
    the condition, with Go's short-circuit evaluation. *)
Definition at_checkpoint (number : Z) : Result clique_error bool :=
  if number =? 0 then Ok true else
  r ← u64_mod number (cl_Epoch config);
  mret ((r =? 0) && bool_decide (GetHeaderByNumber chain (number - 1)%u64 = None)).

Definition checkpoint_snapshot (number : Z) : M (option Snapshot) :=
  known ← lift (at_checkpoint number);
  if known : bool then
    match GetHeaderByNumber chain number with
    | None => mret None
    | Some checkpoint =>
        signers ← lift (checkpoint_signers checkpoint);
        let snap := newSnapshot number (Header_Hash checkpoint) signers in
        store snap ≫= λ _, mret (Some snap)
    end
  else mret None.

(** The header that continues the walk: the last explicit parent, which must
    be the one asked for, or else the database. *)
Definition next_header (number : Z) (hash : Hash) parents : Result clique_error (Header * list Header) :=
  match last parents with
  | Some header =>
      if negb (Header_Hash header =? hash) then Err ErrUnknownAncestor else
      n ← Uint64 (Number header);
      if negb (n =? number) then Err ErrUnknownAncestor
      else Ok (header, take (length parents - 1) parents)
  | None =>
      match GetHeader chain hash number with
      | None => Err ErrUnknownAncestor
      | Some header => Ok (header, [])
      end
  end.

(** The loop [for snap == nil] walks towards the genesis block; [headers] are
    the headers gathered so far, in the order they were met. *)
Fixpoint find_snapshot (fuel : nat) (number : Z) (hash : Hash) parents headers :
    M (Snapshot * list Header) :=
  match fuel with
  | O => panic OutOfFuel
  | S fuel' =>
      cached ← recents_Get hash;
      match cached with
      | Some s => mret (s, headers)
      | None =>
          stored ← (if number mod checkpointInterval =? 0 then loadSnapshot hash else mret None);
          match stored with
          | Some s => mret (s, headers)
          | None =>
              made ← checkpoint_snapshot number;
              match made with
              | Some s => mret (s, headers)
              | None =>
                  next ← lift (next_header number hash parents);
                  let '(header, parents') := next : Header * list Header in
                  find_snapshot fuel' (number - 1)%u64 (ParentHash header) parents' (headers ++ [header])
              end
          end
      end
  end.

(** [snapshot]; the swap loop over [headers] reverses them. *)
Definition snapshot (fuel : nat) (number : Z) (hash : Hash) parents : M Snapshot :=
  found ← find_snapshot fuel number hash parents [];
  let '(s, headers) := found : Snapshot * list Header in
  snap ← with_signatures (apply config s (reverse headers));
  modify (λ e, set_recents e (cache_add (sHash snap) snap (eRecents e))) ≫= λ _,
  (if (sNumber snap mod checkpointInterval =? 0) && bool_decide (headers ≠ []) then store snap else mret tt)
    ≫= λ _, mret snap.

(** ** Verification

    [now] is [SecondsNow()], the clock of the simulation. *)

(** The checks of [verifyHeader] that need only the header. *)
Definition check_header_fields (now : Z) header : Result clique_error unit :=
  match Number header with
  | None => Err errUnknownBlock
  | Some n =>
      let number := wrap64 n in
      if now <? Time header then Err ErrFutureBlock else
      r ← u64_mod number (cl_Epoch config);
      let checkpoint := r =? 0 in
      if checkpoint && negb (Coinbase header =? zero_address)
      then Err errInvalidCheckpointBeneficiary else
      if negb (Nonce header =? nonceAuthVote) && negb (Nonce header =? nonceDropVote)
      then Err errInvalidVote else
      if checkpoint && negb (Nonce header =? nonceDropVote)
      then Err errInvalidCheckpointVote else
      if bool_decide (length (Extra header) < extraVanity)%nat then Err errMissingVanity else
      if bool_decide (length (Extra header) < extraVanity + extraSeal)%nat
      then Err errMissingSignature else
      let signersBytes := Z.of_nat (length (Extra header) - extraVanity - extraSeal) in
      if negb checkpoint && negb (signersBytes =? 0) then Err errExtraSigners else
      if checkpoint && negb (signersBytes mod Z.of_nat AddressLength =? 0)
      then Err errInvalidCheckpointSigners else
      if negb (MixDigest header =? zero_hash) then Err errInvalidMixDigest else
      if negb (UncleHash header =? uncleHash) then Err errInvalidUncleHash else
      if (0 <? number) &&
         match Difficulty header with
         | None => true
         | Some d => negb (d =? diffInTurn) && negb (d =? diffNoTurn)
         end
      then Err errInvalidDifficulty
      else Ok tt
  end.

(** The signer list a checkpoint block must carry. *)
Definition signers_bytes snap : list byte :=
  mjoin (array_bytes AddressLength <$> signers snap).

(** [verifySeal]'s test of the recent signers.  [number-limit] wraps around
    below the limit. *)
Definition recently_signed_at snap (number : Z) (signer : Address) : bool :=
  bool_decide (map_Exists
    (λ seen recent, recent = signer ∧ (number - sign_limit snap)%u64 < seen) (sRecents snap)).

Definition verifySeal (fuel : nat) (fakeDiff : bool) header parents : M unit :=
  number ← lift (Uint64 (Number header));
  if number =? 0 then throw errUnknownBlock else
  snap ← snapshot fuel (number - 1)%u64 (ParentHash header) parents;
  signer ← with_signatures (clique_ecrecover header);
  if bool_decide (signer ∉ sSigners snap) then throw errUnauthorizedSigner else
  if recently_signed_at snap number signer then throw errRecentlySigned else
  if fakeDiff then mret tt else
  turn ← lift (inturn snap number signer);
  match Difficulty header with
  | None => panic NilDereference
  | Some d =>
      if turn && negb (d =? diffInTurn) then throw errWrongDifficulty else
      if negb turn && negb (d =? diffNoTurn) then throw errWrongDifficulty
      else mret tt
  end.

Definition parent_of header (number : Z) parents : option Header :=
  match last parents with
  | Some p => Some p
  | None => GetHeader chain (ParentHash header) (number - 1)%u64
  end.

Definition verifyCascadingFields (fuel : nat) (fakeDiff : bool) header parents : M unit :=
  number ← lift (Uint64 (Number header));
  if number =? 0 then mret tt else
  match parent_of header number parents with
  | None => throw ErrUnknownAncestor
  | Some parent =>
      pnumber ← lift (Uint64 (Number parent));
      if negb (pnumber =? (number - 1)%u64) || negb (Header_Hash parent =? ParentHash header)
      then throw ErrUnknownAncestor else
      if Time header <? (Time parent + cl_Period config)%u64 then throw ErrInvalidTimestamp else
      snap ← snapshot fuel (number - 1)%u64 (ParentHash header) parents;
      r ← lift (u64_mod number (cl_Epoch config));
      if (r =? 0) &&
         negb (bool_decide
           (take (length (Extra header) - extraSeal - extraVanity) (drop extraVanity (Extra header))
            = signers_bytes snap))
      then throw errMismatchingCheckpointSigners
      else verifySeal fuel fakeDiff header parents
  end.

Definition verifyHeader (fuel : nat) (fakeDiff : bool) (now : Z) header parents : M unit :=
  lift (check_header_fields now header) ≫= λ _,
  verifyCascadingFields fuel fakeDiff header parents.

(** [VerifyHeaders]: every header is verified with the preceding ones as
    parents; the outcomes go to the results channel in order. *)
Fixpoint verify_batch (fuel : nat) (fakeDiff : bool) (now : Z) (done rest : list Header)
    (results : list (option clique_error)) : M (list (option clique_error)) :=
  match rest with
  | [] => mret results
  | header :: rest' => λ e,
      match verifyHeader fuel fakeDiff now header done e with
      | (Ok _, e') => verify_batch fuel fakeDiff now (done ++ [header]) rest' (results ++ [None]) e'
      | (Err err, e') => verify_batch fuel fakeDiff now (done ++ [header]) rest' (results ++ [Some err]) e'
      | (Panic p, e') => (Panic p, e')
      end
  end.
Definition VerifyHeaders (fuel : nat) (fakeDiff : bool) (now : Z) headers :=
  verify_batch fuel fakeDiff now [] headers [].

Definition VerifyUncles (block : Block) : Result clique_error unit :=
  if bool_decide (block_uncles block ≠ []) then Err errUnclesNotAllowed else Ok tt.

(** ** Mining *)

(** The function [CalcDifficulty]. *)
Definition calc_difficulty snap (signer : Address) : Result clique_error Z :=
  turn ← inturn snap (sNumber snap + 1)%u64 signer;
  mret (if turn : bool then diffInTurn else diffNoTurn).

(** "cast a random vote": [pick] is the random draw; the order of the
    candidates is that of a map iteration. *)
Definition choose_vote (pick : nat) snap (proposals : gmap Address bool) header : Header :=
  let addresses : list (Address * bool) :=
    filter (λ p : Address * bool, validVote snap p.1 p.2 = true) (map_to_list proposals) in
  match addresses !! (Nat.modulo pick (length addresses)) with
  | None => header
  | Some (address, authorize) =>
      with_Nonce (with_Coinbase header address)
        (if authorize : bool then nonceAuthVote else nonceDropVote)
  end.

(** [Prepare] fills in the header it is given, here returned. *)
Definition Prepare (fuel : nat) (now : Z) (pick : nat) header : M Header :=
  let header := with_Nonce (with_Coinbase header zero_address) 0 in
  number ← lift (Uint64 (Number header));
  snap ← snapshot fuel (number - 1)%u64 (ParentHash header) [];
  e ← get_state;
  r ← lift (u64_mod number (cl_Epoch config));
  let header := if negb (r =? 0) then choose_vote pick snap (eProposals e) header else header in
  difficulty ← lift (calc_difficulty snap (eSigner e));
  let header := with_Difficulty header (Some difficulty) in
  let extra := vanity (Extra header) ++ (if r =? 0 then signers_bytes snap else []) in
  let header := with_Extra header (extra ++ replicate extraSeal 0) in
  let header := with_MixDigest header zero_hash in
  match GetHeader chain (ParentHash header) (number - 1)%u64 with
  | None => throw ErrUnknownAncestor
  | Some parent =>
      let time := (Time parent + cl_Period config)%u64 in
      mret (with_Time header (if time <? now then now else time))
  end.

(** [Finalize] drops the uncles; [root] is what [state.IntermediateRoot]
    answers. *)
Definition Finalize (root : Hash) header (txs : list Transaction) (receipts : list Receipt) :
    Result unit Block :=
  NewBlock (with_UncleHash (with_Root header root) uncleHash) txs [] receipts.

(** [Seal]'s test of the recent signers. *)
Definition must_wait snap (number : Z) (signer : Address) : bool :=
  bool_decide (map_Exists
    (λ seen recent, recent = signer ∧
       (number < sign_limit snap ∨ (number - sign_limit snap)%u64 < seen)) (sRecents snap)).

Definition wiggleTime : Z := 500000000.

(** [Seal] calls [results] with the sealed block after the delay, or returns
    without a result.  [signFn] is the callback into the key store: it signs
    the hash of the header given in the form [CliqueRLP] encodes; [draw] is
    the random number before the reduction by [Int63n]. *)
Definition Seal (fuel : nat) (now draw : Z) (signFn : Address → Header → option (list byte))
    (block : Block) : M (option (Block * Z)) :=
  let header := CopyHeader (block_header block) in
  number ← lift (Uint64 (Number header));
  if number =? 0 then throw errUnknownBlock else
  if (cl_Period config =? 0) && bool_decide (block_transactions block = []) then mret None else
  e ← get_state;
  let signer := eSigner e in
  snap ← snapshot fuel (number - 1)%u64 (ParentHash header) [];
  if bool_decide (signer ∉ sSigners snap) then throw errUnauthorizedSigner else
  if must_wait snap number signer then mret None else
  let delay := wrap_i64 (ToDuration (Time header) - ToDuration now) in
  let wiggle := wrap_i64 (sign_limit snap * wiggleTime) in
  let delay :=
    if bool_decide (Difficulty header = Some diffNoTurn)
    then wrap_i64 (delay + draw mod wiggle) else delay in
  sig ← lift (encodeSigHeader header);
  match signFn signer sig with
  | None => throw errSigning
  | Some sighash => mret (Some (WithSeal block (put_seal header sighash), Z.max 0 delay))
  end.

(** ** The RPC interface ([api.go]) and the setters *)
Definition Authorize (signer : Address) : M unit :=
  modify (λ e, mkEngine (eRecents e) (eSignatures e) (eDb e) (eProposals e) signer).
Definition Propose (address : Address) (auth : bool) : M unit :=
  modify (λ e, mkEngine (eRecents e) (eSignatures e) (eDb e) (<[address := auth]> (eProposals e)) (eSigner e)).
Definition Discard (address : Address) : M unit :=
  modify (λ e, mkEngine (eRecents e) (eSignatures e) (eDb e) (delete address (eProposals e)) (eSigner e)).

(** The number of an RPC request: none (or "latest") means the head. *)
Definition requested_header (number : option Z) : option Header :=
  match number with
  | None => CurrentHeader chain
  | Some n => GetHeaderByNumber chain (wrap64 n)
  end.
Definition snapshot_of (fuel : nat) (o : option Header) : M Snapshot :=
  match o with
  | None => throw errUnknownBlock
  | Some header =>
      n ← lift (Uint64 (Number header));
      snapshot fuel n (Header_Hash header) []
  end.
Definition GetSnapshot (fuel : nat) (number : option Z) : M Snapshot :=
  snapshot_of fuel (requested_header number).
Definition GetSnapshotAtHash (fuel : nat) (hash : Hash) : M Snapshot :=
  snapshot_of fuel (GetHeaderByHash chain hash).
Definition GetSigners (fuel : nat) (number : option Z) : M (list Address) :=
  snap ← GetSnapshot fuel number; mret (signers snap).
Definition GetSignersAtHash (fuel : nat) (hash : Hash) : M (list Address) :=
  snap ← GetSnapshotAtHash fuel hash; mret (signers snap).
End engine.

(** [New]: the epoch length defaults to 30000 blocks. *)
Definition epochLength : Z := 30000.
Definition New_config (config : CliqueConfig) : CliqueConfig :=
  if cl_Epoch config =? 0 then mkCliqueConfig (cl_Period config) epochLength else config.
Definition New {RC SC D} (recents : RC) (signatures : SC) (db : D) (config : CliqueConfig) :
    CliqueConfig * Engine RC SC D :=
  (New_config config, mkEngine recents signatures db ∅ zero_address).
