(* ===== verification/CliqueSnapshots.v ===== *)
(** Snapshot retrieval in the Clique engine: whatever the caches and the
    database hold, [snapshot] answers what replaying the headers from the
    genesis block answers. *)
From S2P Require Import Prelude Types Sealing VotingSnapshot Clique CliqueVoting CliqueEngine.

(** * Replaying headers without caches *)
Section replay.
Context `{Crypto} (config : CliqueConfig).
Implicit Types (header : Header) (headers : list Header) (s snap : Snapshot).

(** [headers] lead from the genesis block to the block with this hash. *)
Inductive ancestry (genesis : Header) : Hash → list Header → Prop :=
  | ancestry_genesis : ancestry genesis (Header_Hash genesis) []
  | ancestry_snoc header headers m :
      ancestry genesis (ParentHash header) headers →
      Number header = Some m → wrap64 m = Z.of_nat (length headers) + 1 →
      ancestry genesis (Header_Hash header) (headers ++ [header]).

(** The outcome of applying the headers with no cache. *)
Definition replay s headers : Result clique_error Snapshot := (apply config s headers tt).1.

Lemma ancestry_numbered genesis hash headers :
  ancestry genesis hash headers → numbered 1 headers.
Proof.
  induction 1 as [|header headers m _ IH Hm Hn]; [done|].
  apply numbered_app. split; [done|]. cbn. split; [|done]. exists m. split; [done|].
  pose proof (wrap64_range m). rewrite Hn in *. rewrite wrap64_id by u64_lia. lia.
Qed.

Lemma ancestry_length genesis hash headers :
  ancestry genesis hash headers → Z.of_nat (length headers) < u64_modulus.
Proof.
  destruct 1 as [|header headers m _ _ Hn]; [done|].
  rewrite length_app. cbn. pose proof (wrap64_range m). u64_lia.
Qed.

Lemma ancestry_snoc_inv genesis hash headers header :
  CollisionFree → ancestry genesis hash (headers ++ [header]) →
  hash = Header_Hash header ∧ ancestry genesis (ParentHash header) headers ∧
  ∃ m, Number header = Some m ∧ wrap64 m = Z.of_nat (length headers) + 1.
Proof.
  intros Hcf Ha. inversion Ha as [Hh Hnil|h hs m ? ? ? Hh Heq]; [by destruct headers|].
  apply app_inj_tail in Heq as [-> ->]. eauto.
Qed.

Lemma ancestry_det genesis hash h1 h2 :
  CollisionFree → Number genesis = Some 0 →
  ancestry genesis hash h1 → ancestry genesis hash h2 → h1 = h2.
Proof.
  intros Hcf Hg H1. revert h2. induction H1 as [|header headers m Ha IH Hm Hn]; intros h2 H2.
  - inversion H2 as [|h hs m ? Hm Hn Heq]; [done|]. apply (inj rlpHash) in Heq as ->.
    rewrite Hg in Hm. simplify_eq. unfold wrap64 in Hn. rewrite Z.mod_0_l in Hn by done. lia.
  - inversion H2 as [Heq|h hs m' Ha' ? ? Heq]; apply (inj rlpHash) in Heq; subst.
    + rewrite Hg in Hm. simplify_eq. unfold wrap64 in Hn. rewrite Z.mod_0_l in Hn by done. lia.
    + f_equal. by apply IH.
Qed.

(** On properly numbered headers [apply] is the loop. *)
Lemma replay_numbered s first rest :
  numbered (sNumber s + 1) (first :: rest) →
  replay s (first :: rest) =
    (reposition (sNumber s + Z.of_nat (length (first :: rest)))%u64
      (Header_Hash (List.last (first :: rest) first))
      (apply_headers config s (first :: rest) tt)).1.
Proof.
  intros Hnum. unfold replay. rewrite apply_cons.
  assert (∃ m, Number first = Some m) as [m Hm] by (destruct Hnum as [(m & ? & _) _]; eauto).
  destruct (proj1 (numbered_cons_iff _ _ _ m Hm) Hnum) as [Hw Hok]. rewrite Hok, Hm. cbn [Uint64].
  unfold u64_add at 1. rewrite Hw, Z.eqb_refl. cbn [negb]. unfold reposition.
  destruct (apply_headers config s (first :: rest) tt) as [[snap|e|p] c] eqn:Hrun; cbn; [|done..].
  by apply apply_headers_keeps_position in Hrun as [-> _].
Qed.

Lemma replay_position s headers s' :
  replay s headers = Ok s' → headers ≠ [] →
  sNumber s' = (sNumber s + Z.of_nat (length headers))%u64 ∧
  ∃ h, last headers = Some h ∧ sHash s' = Header_Hash h.
Proof.
  intros Hrun Hne. destruct headers as [|first rest]; [done|].
  unfold replay in Hrun. destruct (apply config s (first :: rest) tt) as [r []] eqn:Hap. cbn in Hrun. subst.
  apply apply_ok_iff in Hap as (_ & snap & _ & ->). split; [done|].
  exists (List.last (first :: rest) first). split; [|done]. clear. revert first.
  assert (∀ l (d : Header), l ≠ [] → last l = Some (List.last l d)) as Hlast; [|by intros; apply Hlast].
  intros l d. induction l as [|x l IH]; [done|]. intros _. destruct l as [|y l]; [done|].
  change (last (x :: y :: l)) with (last (y :: l)). rewrite IH; done.
Qed.

Lemma replay_app s h1 h2 s1 :
  numbered (sNumber s + 1) (h1 ++ h2) → replay s h1 = Ok s1 →
  replay s (h1 ++ h2) = replay s1 h2.
Proof.
  intros Hnum H1.
  destruct h1 as [|f1 r1]; [unfold replay, apply in H1; cbn in H1; by injection H1 as ->|].
  destruct h2 as [|f2 r2]; [by rewrite app_nil_r|].
  destruct (proj1 (numbered_app _ _ _) Hnum) as [Hn1 Hn2].
  pose proof (replay_position s (f1 :: r1) s1 H1) as [Hpos _]; [done|].
  rewrite replay_numbered in H1 by done. rewrite <- app_comm_cons, replay_numbered by done.
  rewrite (replay_numbered s1).
  2:{ rewrite Hpos. eapply numbered_cong, Hn2. unfold u64_add. rewrite wrap64_add_l. f_equal; lia. }
  rewrite app_comm_cons, apply_headers_app. unfold mbind, gom_bind.
  destruct (apply_headers config s (f1 :: r1) tt) as [[snap1|?|?] []]; cbn [reposition fst] in H1; [|done..].
  injection H1 as <-. rewrite apply_headers_position. unfold reposition; cbn [fst snd sNumber set_Position].
  assert (List.last ((f1 :: r1) ++ f2 :: r2) f1 = List.last (f2 :: r2) f2) as ->.
  { generalize (f1 :: r1) as l. induction l as [|x l IH]; [|rewrite <- IH; by destruct l].
    cbn. clear. destruct r2 as [|x r2]; [done|]. revert x. induction r2; intros x; cbn in *; auto. }
  unfold u64_add. rewrite wrap64_add_l, length_app, Nat2Z.inj_add, Z.add_assoc.
  by destruct (apply_headers config snap1 (f2 :: r2) tt) as [[|?|?] []].
Qed.
End replay.

(** * The signature cache is transparent *)
Section transparent.
Context `{CollisionFree} (config : CliqueConfig) {SC : Type} `{CacheLaws Hash Address SC}.
Implicit Types (header : Header) (headers : list Header) (s snap : Snapshot).

Abbreviation coherent := (sig_coherent errMissingSignature errCrypto).
Definition coherent_cache (c : SC) (_ : unit) : Prop := coherent c.

Lemma clique_ecrecover_sim header :
  sim coherent_cache (clique_ecrecover header) (clique_ecrecover header).
Proof.
  intros c [] Hc. destruct (ecrecover_coherent _ _ c header Hc) as (c' & Hr & Hc').
  unfold clique_ecrecover, coherent_cache. by rewrite Hr.
Qed.
Hint Resolve clique_ecrecover_sim : sim.

Lemma apply_headers_sim snap headers :
  sim coherent_cache (apply_headers config snap headers) (apply_headers config snap headers).
Proof.
  revert snap. induction headers as [|header headers IH]; intros snap; cbn; [by auto with sim|].
  apply sim_bind; [|done]. unfold apply_header. cbv zeta. sim_steps.
Qed.
Hint Resolve apply_headers_sim : sim.

Lemma apply_sim s headers :
  sim coherent_cache (apply config s headers) (apply config s headers).
Proof. destruct headers as [|first rest]; unfold apply; sim_steps. Qed.

Lemma apply_replay s headers (c : SC) :
  coherent c → (apply config s headers c).1 = replay config s headers ∧
               coherent (apply config s headers c).2.
Proof. intros Hc. by apply (apply_sim s headers c tt). Qed.
End transparent.

(** * Snapshot retrieval *)
Section retrieval.
Context `{CollisionFree} `{SnapshotCodec}.
Context {RC SC D : Type} `{CacheLaws Hash Snapshot RC} `{CacheLaws Hash Address SC}
  `{KeyValueLaws D}.
Context {CH : Type} `{ChainReader CH} (chain : CH).
Context (config : CliqueConfig) (genesis : Header) (authorities : list Address).
Implicit Types (header : Header) (headers parents : list Header) (s snap : Snapshot)
  (e : Engine RC SC D).

(** The chain starts at the genesis block, which lists the first
    authorities, and its canonical numbering has no gaps. *)
Record chain_ok : Prop := {
  chain_genesis : GetHeaderByNumber chain 0 = Some genesis;
  chain_genesis_number : Number genesis = Some 0;
  chain_authorities : checkpoint_signers genesis = Ok authorities;
  chain_epoch : cl_Epoch config ≠ 0;
  chain_no_gap n :
    0 < n → GetHeaderByNumber chain (n - 1) = None → GetHeaderByNumber chain n = None
}.

Definition genesis_snapshot : Snapshot := newSnapshot 0 (Header_Hash genesis) authorities.

(** The snapshot of a block: its ancestry replayed from the genesis block. *)
Definition snapshot_at (hash : Hash) s : Prop :=
  ∃ headers, ancestry genesis hash headers ∧ replay config genesis_snapshot headers = Ok s.

Record engine_ok e : Prop := {
  eok_signatures : sig_coherent errMissingSignature errCrypto (eSignatures e);
  eok_recents hash s : cache_holds (eRecents e) hash s → snapshot_at hash s;
  eok_db hash blob s :
    kv_get (snapshot_key hash) (eDb e) = Some blob → json_Unmarshal blob = Some s →
    snapshot_at hash s
}.

(** Every header of the list is in the chain's database. *)
Definition in_database headers : Prop :=
  ∀ i header, headers !! i = Some header →
    GetHeader chain (Header_Hash header) (Z.of_nat i + 1) = Some header.

Lemma snapshot_key_inj : Inj (=) (=) snapshot_key.
Proof. by intros h1 h2 [= ->]. Qed.

Lemma store_ok s e :
  engine_ok e → snapshot_at (sHash s) s → ∃ e', store s e = (Ok tt, e') ∧ engine_ok e'.
Proof.
  intros [Hsig Hrec Hdb] Hs. unfold store.
  destruct (json_Marshal_some s) as [blob Hblob]. rewrite Hblob.
  destruct (kv_put_some (snapshot_key (sHash s)) blob (eDb e)) as [db Hput]. rewrite Hput.
  eexists; split; [done|]. split; cbn; [done..|]. intros hash blob' s'.
  rewrite (kv_get_put _ _ _ _ _ Hput). case_decide as Hk; [|by apply Hdb].
  apply (inj snapshot_key) in Hk as ->. intros [= <-]. rewrite (json_roundtrip _ _ Hblob).
  by intros [= <-].
Qed.

Lemma recents_Get_ok hash e :
  engine_ok e → ∃ o e', recents_Get hash e = (Ok o, e') ∧ engine_ok e' ∧
                        ∀ s, o = Some s → snapshot_at hash s.
Proof.
  intros [Hsig Hrec Hdb]. unfold recents_Get.
  destruct (cache_get hash (eRecents e)) as [o rc] eqn:Hget. do 2 eexists. split; [done|]. split.
  - split; cbn; [done| |done]. intros h s Hs. apply Hrec. apply (cache_get_holds hash).
    by rewrite Hget.
  - intros s ->. eapply Hrec, cache_get_sound, Hget.
Qed.

Lemma stored_ok (number : Z) hash e :
  engine_ok e →
  ∃ o, (if number mod checkpointInterval =? 0 then loadSnapshot hash else mret None) e = (Ok o, e) ∧
       ∀ s, o = Some s → snapshot_at hash s.
Proof.
  intros [_ _ Hdb]. destruct (_ =? 0); [|by exists None]. eexists; split; [done|]. intros s Hs.
  apply bind_Some in Hs as (blob & Hblob & Hun). by eapply Hdb.
Qed.

Lemma genesis_snapshot_at : snapshot_at (Header_Hash genesis) genesis_snapshot.
Proof. exists []. split; [constructor|done]. Qed.

(** Below the genesis block a checkpoint is never made up. *)
Lemma checkpoint_snapshot_ok (number : Z) e :
  chain_ok → engine_ok e → is_u64 number →
  ∃ e', engine_ok e' ∧
    checkpoint_snapshot chain config number e =
      (Ok (if number =? 0 then Some genesis_snapshot else None), e').
Proof.
  intros [Hg Hgn Hauth Hep Hgap] He Hn. unfold checkpoint_snapshot, at_checkpoint.
  destruct (number =? 0) eqn:Hz.
  - apply Z.eqb_eq in Hz as ->. cbn. rewrite Hg. unfold mbind, gom_bind, lift. rewrite Hauth.
    destruct (store_ok genesis_snapshot e) as (e' & Hst & He'); [done|apply genesis_snapshot_at|].
    exists e'. split; [done|]. fold genesis_snapshot. by rewrite Hst.
  - exists e. split; [done|]. unfold u64_mod. rewrite (proj2 (Z.eqb_neq _ _) Hep).
    cbn. unfold mbind, gom_bind, lift. apply Z.eqb_neq in Hz.
    destruct (number mod cl_Epoch config =? 0); [|done]. cbn.
    case_bool_decide as Hnone; [|done].
    unfold u64_sub in Hnone. rewrite wrap64_id in Hnone by u64_lia.
    rewrite Hgap; [done| |done]. u64_lia.
Qed.
(** One step towards the genesis block. *)
Lemma next_header_ok db parents hash :
  Number genesis = Some 0 →
  ancestry genesis hash (db ++ parents) → in_database db → db ++ parents ≠ [] →
  ∃ header db' parents',
    db ++ parents = (db' ++ parents') ++ [header] ∧ in_database db' ∧
    ancestry genesis (ParentHash header) (db' ++ parents') ∧
    next_header chain (Z.of_nat (length (db ++ parents))) hash parents = Ok (header, parents').
Proof.
  intros Hg Ha Hdb Hne. unfold next_header.
  destruct parents as [|header parents' _] using rev_ind.
  - rewrite app_nil_r in *. destruct db as [|header db' _] using rev_ind; [done|].
    apply ancestry_snoc_inv in Ha as (-> & Ha & m & Hm & Hw); [|done].
    exists header, db', []. rewrite app_nil_r. split; [done|]. split; [|split; [done|]].
    { intros i h Hi. apply Hdb. by apply lookup_app_l_Some. }
    cbn. rewrite length_app, Nat2Z.inj_add. change (Z.of_nat (length [header])) with 1.
    rewrite (Hdb (length db') header); [done|].
    by rewrite lookup_app_r, Nat.sub_diag by lia.
  - rewrite app_assoc in Ha. pose proof Ha as Ha'.
    apply ancestry_snoc_inv in Ha' as (-> & Ha' & m & Hm & Hw); [|done].
    exists header, db, parents'. rewrite app_assoc. do 3 (split; [done|]).
    rewrite last_snoc, Z.eqb_refl, Hm. cbn. rewrite Hw.
    assert (Z.of_nat (length ((db ++ parents') ++ [header])) = Z.of_nat (length (db ++ parents')) + 1) as ->
      by (rewrite (length_app (db ++ parents')); cbn; lia).
    rewrite Z.eqb_refl. cbn. f_equal. f_equal. rewrite length_app. cbn.
    by rewrite Nat.add_sub, take_app_length.
Qed.

Lemma find_snapshot_ok fuel db parents hash headers e :
  chain_ok → engine_ok e → ancestry genesis hash (db ++ parents) → in_database db →
  (length (db ++ parents) < fuel)%nat →
  ∃ pre post s e',
    db ++ parents = pre ++ post ∧ replay config genesis_snapshot pre = Ok s ∧ engine_ok e' ∧
    find_snapshot chain config fuel (Z.of_nat (length (db ++ parents))) hash parents headers e =
      (Ok (s, headers ++ reverse post), e').
Proof.
  intros Hchain. pose proof (chain_genesis_number Hchain) as Hg.
  revert db parents hash headers e. induction fuel as [|fuel IH];
    intros db parents hash headers e He Ha Hdb Hfuel; [lia|]. cbn [find_snapshot].
  assert (∀ s, snapshot_at hash s → replay config genesis_snapshot (db ++ parents) = Ok s) as Hat.
  { intros s (hs & Hhs & Hr). by rewrite (ancestry_det _ _ _ _ _ Hg Ha Hhs). }
  destruct (recents_Get_ok hash e He) as (o & e1 & Hget & He1 & Ho). rewrite (gom_bind_run _ _ _ _ _ Hget).
  destruct o as [s|].
  { exists (db ++ parents), [], s, e1. rewrite reverse_nil, !app_nil_r. auto 6. }
  destruct (stored_ok (Z.of_nat (length (db ++ parents))) hash e1 He1) as (o & Hst & Ho').
  rewrite (gom_bind_run _ _ _ _ _ Hst). destruct o as [s|].
  { exists (db ++ parents), [], s, e1. rewrite reverse_nil, !app_nil_r. auto 6. }
  destruct (checkpoint_snapshot_ok (Z.of_nat (length (db ++ parents))) e1 Hchain He1) as (e2 & He2 & Hcp).
  { apply ancestry_length in Ha. split; [lia|done]. }
  rewrite (gom_bind_run _ _ _ _ _ Hcp). clear Hst Hcp.
  destruct (Z.of_nat (length (db ++ parents)) =? 0) eqn:Hz.
  { apply Z.eqb_eq in Hz. apply (Nat2Z.inj _ 0), nil_length_inv in Hz.
    exists [], [], genesis_snapshot, e2. by rewrite reverse_nil, !app_nil_r. }
  apply Z.eqb_neq in Hz.
  destruct (next_header_ok db parents hash Hg Ha Hdb) as (header & db' & ps' & Heq & Hdb' & Ha' & Hnext);
    [by intros Hnil; rewrite Hnil in Hz|].
  unfold mbind at 1, gom_bind at 1, lift. rewrite Hnext.
  pose proof (ancestry_length _ _ _ Ha) as Hlen. rewrite Heq in Hfuel, Hlen |- *.
  rewrite length_app in Hfuel, Hlen |- *. cbn in Hfuel, Hlen |- *.
  replace (Z.of_nat _ - 1)%u64 with (Z.of_nat (length (db' ++ ps')))
    by (unfold u64_sub; rewrite wrap64_id; u64_lia).
  destruct (IH db' ps' (ParentHash header) (headers ++ [header]) e2) as (pre & post & s & e3 & Hpp & Hr & He3 & Hf);
    [done..|lia|].
  exists pre, (post ++ [header]), s, e3. rewrite Hpp, app_assoc. do 3 (split; [done|]).
  rewrite reverse_app, <- app_assoc in *. by rewrite <- Hpp.
Qed.

(** What a replayed snapshot is a snapshot of. *)
Lemma replay_snapshot_at hash headers s :
  ancestry genesis hash headers → replay config genesis_snapshot headers = Ok s →
  sHash s = hash ∧ sNumber s = Z.of_nat (length headers).
Proof.
  intros Ha Hr. destruct headers as [|h hs _] using rev_ind.
  - injection Hr as <-. inversion Ha as [Hh Hnil|h hs m Ha' Hm Hw Hh Heq]; [done|by destruct hs].
  - pose proof (ancestry_length _ _ _ Ha) as Hl.
    apply ancestry_snoc_inv in Ha as (-> & _ & _); [|done].
    apply replay_position in Hr as (Hn & h' & Hlast & Hh); [|by destruct hs].
    rewrite last_snoc in Hlast. injection Hlast as <-. split; [done|]. rewrite Hn.
    unfold u64_add. cbn [sNumber genesis_snapshot newSnapshot]. rewrite wrap64_id; [done|]. split; [lia|done].
Qed.

(** [snapshot] answers what replaying the whole ancestry answers, whatever
    the caches and the database remember, and leaves them truthful. *)
Lemma snapshot_ok_run fuel db parents hash e :
  chain_ok → engine_ok e → ancestry genesis hash (db ++ parents) → in_database db →
  (length (db ++ parents) < fuel)%nat →
  ∃ e', snapshot chain config fuel (Z.of_nat (length (db ++ parents))) hash parents e =
          (replay config genesis_snapshot (db ++ parents), e') ∧ engine_ok e'.
Proof.
  intros Hchain He Ha Hdb Hfuel. unfold snapshot.
  destruct (find_snapshot_ok fuel db parents hash [] e Hchain He Ha Hdb Hfuel)
    as (pre & post & s & e1 & Heq & Hpre & He1 & Hfind).
  rewrite (gom_bind_run _ _ _ _ _ Hfind). cbn [app]. rewrite reverse_involutive.
  pose proof (ancestry_numbered _ _ _ Ha) as Hnum. rewrite Heq in Hnum.
  rewrite Heq, (replay_app config genesis_snapshot pre post s Hnum Hpre).
  destruct (apply_replay config s post (eSignatures e1)) as [Hap Hsig]; [apply He1|].
  unfold mbind at 1, gom_bind at 1. unfold with_signatures.
  destruct (apply config s post (eSignatures e1)) as [r sc]. cbn in Hap, Hsig. subst r.
  set (e2 := set_signatures e1 sc).
  assert (engine_ok e2) as He2 by (by destruct He1; split).
  destruct (replay config s post) as [snap|err|p] eqn:Hr; [|by exists e2..].
  assert (replay config genesis_snapshot (pre ++ post) = Ok snap) as Hall
    by (by rewrite (replay_app config genesis_snapshot pre post s Hnum Hpre)).
  rewrite Heq in Ha. destruct (replay_snapshot_at _ _ _ Ha Hall) as [Hh _].
  assert (snapshot_at (sHash snap) snap) as Hat by (exists (pre ++ post); by rewrite Hh).
  set (e3 := set_recents e2 (cache_add (sHash snap) snap (eRecents e2))).
  assert (engine_ok e3) as He3.
  { destruct He2 as [Hs Hrec Hd]. split; [done| |done]. cbn. intros h s' Hs'.
    apply cache_add_holds in Hs' as [[-> ->]|[_ Hs']]; [done|by apply Hrec]. }
  unfold mbind at 1, gom_bind at 1, modify. fold e3.
  destruct (_ && _); [|by exists e3].
  destruct (store_ok snap e3 He3 Hat) as (e4 & Hst & He4). exists e4.
  by rewrite (gom_bind_run _ _ _ _ _ Hst).
Qed.
End retrieval.

Section retrieval_property.
Context `{CollisionFree} `{SnapshotCodec}.
Context {RC SC D : Type} `{CacheLaws Hash Snapshot RC} `{CacheLaws Hash Address SC}
  `{KeyValueLaws D}.
Context {CH : Type} `{ChainReader CH} (chain : CH).
Context (config : CliqueConfig) (genesis : Header) (authorities : list Address).

(** C3: [snapshot] terminates and answers what replaying the block's whole
    ancestry from the genesis block answers, whatever its caches and the
    database remember, and however the ancestors are split between the
    database and the headers handed in; what it stores stays truthful. *)
Theorem snapshot_is_replay fuel db parents hash (e : Engine RC SC D) :
  chain_ok chain config genesis authorities →
  engine_ok config genesis authorities e →
  ancestry genesis hash (db ++ parents) → in_database chain db →
  (length (db ++ parents) < fuel)%nat →
  ∃ e', snapshot chain config fuel (Z.of_nat (length (db ++ parents))) hash parents e =
          (replay config (genesis_snapshot genesis authorities) (db ++ parents), e') ∧
        engine_ok config genesis authorities e'.
Proof. apply snapshot_ok_run. Qed.
End retrieval_property.
