(* ===== verification/CliqueVerify.v ===== *)
(** Header verification in the Clique engine: which headers [verifyHeader]
    accepts, and how its test of the recent signers relates to those of
    [apply] and [Seal]. *)
From S2P Require Import Prelude Types Sealing Blocks VotingSnapshot Clique CliqueVoting CliqueEngine CliqueSnapshots.

Section recents.
Implicit Types (snap : Snapshot) (signer : Address).

(** Once the oldest recent signer is dropped, the recent signers are those
    of the last [limit - 1] blocks. *)
Lemma signed_recently_expired snap number signer :
  is_u64 number → recents_in (number - 1 - sign_limit snap) (number - 1) (sRecents snap) →
  signed_recently (expire_recent snap number) signer = true ↔
  ∃ seen, sRecents snap !! seen = Some signer ∧ number - sign_limit snap < seen.
Proof.
  intros Hn [Hwin _]. unfold signed_recently, expire_recent. rewrite bool_decide_eq_true.
  pose proof (sign_limit_pos snap) as Hpos. destruct (sign_limit snap <=? number) eqn:Hlim.
  - apply Z.leb_le in Hlim. cbn. unfold u64_sub. rewrite wrap64_id by u64_lia. split.
    + intros (b & a & Hb & ->). apply lookup_delete_Some in Hb as [Hne Hb]. exists b. split; [done|].
      destruct (Hwin _ _ Hb). lia.
    + intros (b & Hb & Hlt). exists b, signer. split; [|done]. apply lookup_delete_Some. split; [lia|done].
  - apply Z.leb_gt in Hlim. split.
    + intros (b & a & Hb & ->). exists b. split; [done|]. destruct (Hwin _ _ Hb). lia.
    + intros (b & Hb & _). by exists b, signer.
Qed.

(** [Seal] declines exactly the blocks [apply] would reject. *)
Lemma must_wait_expired snap number signer :
  is_u64 number → recents_in (number - 1 - sign_limit snap) (number - 1) (sRecents snap) →
  must_wait snap number signer = signed_recently (expire_recent snap number) signer.
Proof.
  intros Hn Hrec. apply eq_bool_prop_intro. rewrite !Is_true_true.
  rewrite signed_recently_expired by done. unfold must_wait. rewrite bool_decide_eq_true.
  destruct Hrec as [Hwin _]. split.
  - intros (b & a & Hb & -> & Hor). exists b. split; [done|].
    destruct (Hwin _ _ Hb). destruct (decide (number < sign_limit snap)); [lia|].
    destruct Hor as [|Hlt]; [lia|]. unfold u64_sub in Hlt. pose proof (sign_limit_pos snap).
    rewrite wrap64_id in Hlt by u64_lia. lia.
  - intros (b & Hb & Hlt). exists b, signer. split; [done|]. split; [done|].
    destruct (decide (number < sign_limit snap)); [by left|right].
    unfold u64_sub. pose proof (sign_limit_pos snap). rewrite wrap64_id by u64_lia. lia.
Qed.

(** [verifySeal] agrees with them from height [limit] on, ... *)
Lemma recently_signed_at_expired snap number signer :
  is_u64 number → recents_in (number - 1 - sign_limit snap) (number - 1) (sRecents snap) →
  sign_limit snap ≤ number →
  recently_signed_at snap number signer = signed_recently (expire_recent snap number) signer.
Proof.
  intros Hn Hrec Hlim. apply eq_bool_prop_intro. rewrite !Is_true_true.
  rewrite signed_recently_expired by done. unfold recently_signed_at. rewrite bool_decide_eq_true.
  unfold u64_sub. pose proof (sign_limit_pos snap). rewrite wrap64_id by u64_lia.
  split; [intros (b & a & Hb & -> & ?)|intros (b & Hb & ?)]; eauto.
  exists b, signer. auto.
Qed.

(** ... and below it finds no recent signer at all: the unsigned difference
    wraps around. *)
Lemma recently_signed_at_low snap number signer :
  0 ≤ number < sign_limit snap → sign_limit snap ≤ u64_modulus - number →
  recents_in (number - 1 - sign_limit snap) (number - 1) (sRecents snap) →
  recently_signed_at snap number signer = false.
Proof.
  intros [Hn Hlim] Hbig [Hwin _]. unfold recently_signed_at. apply bool_decide_eq_false.
  intros (b & a & Hb & -> & Hlt). destruct (Hwin _ _ Hb) as [[_ Hhi] _].
  unfold u64_sub, wrap64 in Hlt.
  replace ((number - sign_limit snap) mod u64_modulus) with (number - sign_limit snap + u64_modulus) in Hlt;
    [u64_lia|].
  symmetry. rewrite <- (Z.mod_add _ 1) by done. rewrite Z.mul_1_l. apply Z.mod_small. u64_lia.
Qed.
End recents.

(** * The checks that need only the header *)
Section fields.
Context `{BlockDigests} (config : CliqueConfig).
Implicit Types (header : Header).

Record well_formed (now : Z) header : Prop := {
  wf_number : is_Some (Number header);
  wf_time : Time header ≤ now;
  wf_nonce : Nonce header = nonceAuthVote ∨ Nonce header = nonceDropVote;
  wf_checkpoint :
    wrap64 (default 0 (Number header)) mod cl_Epoch config = 0 →
    Coinbase header = zero_address ∧ Nonce header = nonceDropVote ∧
    Z.of_nat (length (Extra header) - extraVanity - extraSeal) mod Z.of_nat AddressLength = 0;
  wf_plain :
    wrap64 (default 0 (Number header)) mod cl_Epoch config ≠ 0 →
    length (Extra header) = (extraVanity + extraSeal)%nat;
  wf_extra : (extraVanity + extraSeal ≤ length (Extra header))%nat;
  wf_mix : MixDigest header = zero_hash;
  wf_uncles : UncleHash header = uncleHash;
  wf_difficulty :
    0 < wrap64 (default 0 (Number header)) →
    Difficulty header = Some diffInTurn ∨ Difficulty header = Some diffNoTurn
}.

Lemma check_header_fields_iff now header :
  cl_Epoch config ≠ 0 →
  check_header_fields config now header = Ok tt ↔ well_formed now header.
Proof.
  intros Hep. unfold check_header_fields. destruct (Number header) as [m|] eqn:Hm.
  2:{ split; [done|]. intros [[? ?] _]. congruence. }
  unfold u64_mod. rewrite (proj2 (Z.eqb_neq _ _) Hep). cbn [mbind result_bind]. cbv zeta.
  rewrite !guard_ok, !andb_false_iff, !negb_false_iff, !Z.eqb_eq, !Z.eqb_neq, Z.ltb_ge, !bool_decide_eq_false.
  assert (∀ d, match d with
               | None => true
               | Some x => negb (x =? diffInTurn) && negb (x =? diffNoTurn)
               end = false ↔ d = Some diffInTurn ∨ d = Some diffNoTurn) as Hd.
  { intros [x|]; [|by split; [|intros [|]]].
    rewrite andb_false_iff, !negb_false_iff, !Z.eqb_eq. split; intros [|]; simplify_eq; auto. }
  rewrite Hd. clear Hd. unfold extraVanity, extraSeal. split.
  - intros (Ht & Hcb & Hn & Hcn & Hv & Hs & Hpl & Hcs & Hmix & Hunc & Hdiff & _).
    split; rewrite ?Hm; cbn [default id]; try done.
    + intros Hcp. split_and!; [by destruct Hcb|by destruct Hcn|by destruct Hcs].
    + intros Hcp. destruct Hpl; [done|]. unfold extraVanity, extraSeal. lia.
    + unfold extraVanity, extraSeal. lia.
    + intros Hpos. by destruct Hdiff as [Hlt%Z.ltb_ge|]; [lia|].
  - intros [_ Ht Hn Hcp Hpl Hx Hmix Hunc Hdiff]. rewrite Hm in *. cbn [default id] in *.
    unfold extraVanity, extraSeal in *.
    destruct (decide (wrap64 m mod cl_Epoch config = 0)) as [Hz|Hz].
    + destruct (Hcp Hz) as (? & ? & ?). split_and!; auto with lia.
      destruct (0 <? wrap64 m) eqn:Hpos; [|by left]. right. apply Hdiff. lia.
    + specialize (Hpl Hz). split_and!; auto with lia.
      destruct (0 <? wrap64 m) eqn:Hpos; [|by left]. right. apply Hdiff. lia.
Qed.
End fields.

(** * Verification of a header against its ancestry *)
Section verify.
Context `{CollisionFree} `{SnapshotCodec} `{BlockDigests}.
Context {RC SC D : Type} `{CacheLaws Hash Snapshot RC} `{CacheLaws Hash Address SC}
  `{KeyValueLaws D}.
Context {CH : Type} `{ChainReader CH} (chain : CH).
Context (config : CliqueConfig) (genesis : Header) (authorities : list Address).
Implicit Types (header : Header) (headers parents : list Header) (s snap : Snapshot)
  (e : Engine RC SC D).

Abbreviation engine_good := (engine_ok (RC := RC) (SC := SC) (D := D) config genesis authorities).
Abbreviation replayed := (replay config (genesis_snapshot genesis authorities)).
Abbreviation author_of := (author errMissingSignature errCrypto).

(** The same checks with no cache and no database: [headers] are the
    ancestors of the header, the genesis block apart. *)
Definition seal_spec (fakeDiff : bool) snap (number : Z) header : Result clique_error unit :=
  signer ← author_of header;
  if bool_decide (signer ∉ sSigners snap) then Err errUnauthorizedSigner else
  if recently_signed_at snap number signer then Err errRecentlySigned else
  if fakeDiff then Ok tt else
  turn ← inturn snap number signer;
  match Difficulty header with
  | None => Panic NilDereference
  | Some d =>
      if turn && negb (d =? diffInTurn) then Err errWrongDifficulty else
      if negb turn && negb (d =? diffNoTurn) then Err errWrongDifficulty else Ok tt
  end.

Definition parent_header headers : Header := default genesis (last headers).

Definition verify_spec (fakeDiff : bool) (now : Z) headers header : Result clique_error unit :=
  _ ← check_header_fields config now header;
  number ← Uint64 (Number header);
  if number =? 0 then Ok tt else
  if negb (number =? Z.of_nat (length headers) + 1) then Err ErrUnknownAncestor else
  if Time header <? (Time (parent_header headers) + cl_Period config)%u64 then Err ErrInvalidTimestamp else
  snap ← replayed headers;
  r ← u64_mod number (cl_Epoch config);
  if (r =? 0) &&
     negb (bool_decide
       (take (length (Extra header) - extraSeal - extraVanity) (drop extraVanity (Extra header))
        = signers_bytes snap))
  then Err errMismatchingCheckpointSigners
  else seal_spec fakeDiff snap number header.

(** What is known about the chain when the header is verified. *)
Record ancestors_known (fuel : nat) db parents (hash : Hash) : Prop := {
  known_chain : chain_ok chain config genesis authorities;
  known_numbers h n p : GetHeader chain h n = Some p → is_Some (Number p);
  known_genesis : GetHeader chain (Header_Hash genesis) 0 = Some genesis;
  known_ancestry : ancestry genesis hash (db ++ parents);
  known_database : in_database chain db;
  known_fuel : (length (db ++ parents) < fuel)%nat
}.

Lemma parent_header_hash headers hash :
  ancestry genesis hash headers → Header_Hash (parent_header headers) = hash.
Proof.
  destruct 1; unfold parent_header; [done|]. by rewrite last_snoc.
Qed.

Lemma parent_header_number headers hash :
  Number genesis = Some 0 → ancestry genesis hash headers →
  Uint64 (E := clique_error) (Number (parent_header headers)) = Ok (Z.of_nat (length headers)).
Proof.
  intros Hg Ha. pose proof (ancestry_length _ _ _ Ha). destruct Ha as [|header headers m Ha Hm Hw];
    unfold parent_header; [by cbn; rewrite Hg|].
  rewrite last_snoc; cbn. rewrite Hm. cbn. rewrite Hw, length_app. cbn. f_equal. lia.
Qed.

Lemma parent_of_known fuel db parents header :
  ancestors_known fuel db parents (ParentHash header) →
  parent_of chain header (Z.of_nat (length (db ++ parents)) + 1) parents =
    Some (parent_header (db ++ parents)).
Proof.
  intros [Hchain _ Hgen Ha Hdb _]. unfold parent_of, parent_header.
  pose proof (ancestry_length _ _ _ Ha) as Hlen.
  destruct parents as [|p ps _] using rev_ind; [|by rewrite app_assoc, !last_snoc].
  cbn [last]. rewrite app_nil_r in *.
  replace (_ + 1 - 1)%u64 with (Z.of_nat (length db)) by (unfold u64_sub; rewrite wrap64_id; u64_lia).
  destruct db as [|h db _] using rev_ind.
  - inversion Ha as [Hh Hnil|]; [|by destruct headers]. exact Hgen.
  - rewrite last_snoc. cbn. apply ancestry_snoc_inv in Ha as (-> & _ & _); [|done].
    rewrite length_app. cbn [length]. rewrite Nat2Z.inj_add. apply (Hdb (length db)).
    by rewrite lookup_app_r, Nat.sub_diag by lia.
Qed.
Lemma snapshot_answers fuel db parents hash :
  ancestors_known fuel db parents hash →
  answers engine_good
    (snapshot chain config fuel (Z.of_nat (length (db ++ parents))) hash parents)
    (replayed (db ++ parents)).
Proof.
  intros [Hchain _ _ Ha Hdb Hfuel] e He.
  destruct (snapshot_ok_run chain config genesis authorities fuel db parents hash e) as (e' & -> & He');
    [done..|]. by split.
Qed.

Lemma signer_answers header :
  answers engine_good (with_signatures (clique_ecrecover header)) (author_of header).
Proof.
  intros e [Hsig Hrec Hdb]. unfold with_signatures.
  destruct (ecrecover_coherent _ _ (eSignatures e) header Hsig) as (c' & Hr & Hc').
  unfold clique_ecrecover. rewrite Hr. by split; [|split].
Qed.

Lemma verifySeal_answers fuel fakeDiff db parents header number :
  ancestors_known fuel db parents (ParentHash header) →
  Uint64 (E := clique_error) (Number header) = Ok number →
  number = Z.of_nat (length (db ++ parents)) + 1 →
  answers engine_good (verifySeal chain config fuel fakeDiff header parents)
    (snap ← replayed (db ++ parents); seal_spec fakeDiff snap number header).
Proof.
  intros Hk Hn Hlen. unfold verifySeal. rewrite Hn.
  pose proof (ancestry_length _ _ _ (known_ancestry _ _ _ _ Hk)) as Hbound.
  pose proof (snapshot_answers _ _ _ _ Hk) as Hsnap.
  replace (Z.of_nat (length (db ++ parents))) with ((number - 1)%u64) in Hsnap
    by (unfold u64_sub; rewrite wrap64_id; [lia|split; [lia|u64_lia]]).
  apply answers_ok_bind. rewrite (proj2 (Z.eqb_neq _ _)) by lia.
  apply answers_bind; [done|]. intros snap _. unfold seal_spec.
  apply answers_bind; [apply signer_answers|]. intros signer _.
  do 3 (case_match; [by auto with sim|]).
  apply answers_bind; [by auto with sim|]. intros turn _.
  repeat case_match; by auto with sim.
Qed.
(** A number that does not follow the parent's is refused. *)
Lemma parent_mismatch fuel db parents header number :
  ancestors_known fuel db parents (ParentHash header) → is_u64 number → number ≠ 0 →
  number ≠ Z.of_nat (length (db ++ parents)) + 1 →
  match parent_of chain header number parents with
  | None => True
  | Some parent =>
      ∃ n, Uint64 (E := clique_error) (Number parent) = Ok n ∧
           negb (n =? (number - 1)%u64) || negb (Header_Hash parent =? ParentHash header) = true
  end.
Proof.
  intros [Hchain Hnums _ Ha _ _] Hn Hnz Hne.
  destruct (parent_of _ _ _ _) as [parent|] eqn:Hp; [|done].
  destruct (Header_Hash parent =? ParentHash header) eqn:Hhash; cbn [negb].
  - apply Z.eqb_eq in Hhash.
    rewrite <- (parent_header_hash _ _ Ha) in Hhash. apply (inj rlpHash) in Hhash as ->.
    exists (Z.of_nat (length (db ++ parents))). split.
    + eapply parent_header_number; [apply Hchain|done].
    + rewrite orb_false_r. apply negb_true_iff, Z.eqb_neq. unfold u64_sub. rewrite wrap64_id; [lia|]. u64_lia.
  - unfold parent_of in Hp. destruct parents as [|p ps _] using rev_ind.
    + destruct (Hnums _ _ _ Hp) as [n ->]. exists (wrap64 n). by rewrite orb_true_r.
    + rewrite last_snoc in Hp. injection Hp as ->. rewrite app_assoc in Ha.
      apply ancestry_snoc_inv in Ha as (Heq & _ & _); [|done]. rewrite <- Heq, Z.eqb_refl in Hhash. done.
Qed.

Lemma verifyHeader_answers fuel fakeDiff now db parents header :
  ancestors_known fuel db parents (ParentHash header) →
  answers engine_good (verifyHeader chain config fuel fakeDiff now header parents)
    (verify_spec fakeDiff now (db ++ parents) header).
Proof.
  intros Hk. unfold verifyHeader, verify_spec, verifyCascadingFields.
  apply answers_bind; [by auto with sim|]. intros [] _.
  apply answers_bind; [by auto with sim|]. intros number Hn.
  destruct (number =? 0) eqn:Hz; [by auto with sim|]. apply Z.eqb_neq in Hz.
  assert (is_u64 number) as Hnum.
  { destruct (Number header); [|done]. injection Hn as <-. apply wrap64_range. }
  pose proof (ancestry_length _ _ _ (known_ancestry _ _ _ _ Hk)) as Hbound.
  destruct (number =? Z.of_nat (length (db ++ parents)) + 1) eqn:Hfollows; cbn [negb].
  2:{ apply Z.eqb_neq in Hfollows.
      pose proof (parent_mismatch _ _ _ _ _ Hk Hnum Hz Hfollows) as Hm.
      destruct (parent_of _ _ _ _) as [parent|]; [|by auto with sim].
      destruct Hm as (n & -> & Hm). apply answers_ok_bind. rewrite Hm. by auto with sim. }
  apply Z.eqb_eq in Hfollows.
  rewrite Hfollows at 1. rewrite (parent_of_known _ _ _ _ Hk).
  rewrite (parent_header_number _ (ParentHash header)) by apply Hk.
  apply answers_ok_bind.
  assert ((number - 1)%u64 = Z.of_nat (length (db ++ parents))) as Hpred
    by (unfold u64_sub; rewrite wrap64_id; [lia|split; [lia|u64_lia]]).
  rewrite Hpred, Z.eqb_refl, (parent_header_hash _ _ (known_ancestry _ _ _ _ Hk)), Z.eqb_refl.
  cbn [negb orb]. case_match; [by auto with sim|].
  apply answers_bind; [by apply snapshot_answers|]. intros snap Hsnap.
  apply answers_bind; [by auto with sim|]. intros r _. case_match; [by auto with sim|].
  replace (seal_spec fakeDiff snap number header)
    with (snap ← replayed (db ++ parents); seal_spec fakeDiff snap number header) by (by rewrite Hsnap).
  by apply verifySeal_answers.
Qed.

(** C2: whatever the caches and the database hold, and however the ancestors
    are split between the database and the batch being verified,
    [verifyHeader] answers what the cache-free specification answers, error by
    error, and leaves the engine's caches truthful. *)
Theorem verifyHeader_refines_spec fuel fakeDiff now db parents header :
  ancestors_known fuel db parents (ParentHash header) →
  answers engine_good (verifyHeader chain config fuel fakeDiff now header parents)
    (verify_spec fakeDiff now (db ++ parents) header).
Proof. apply verifyHeader_answers. Qed.

(** What applying one authorised header to a snapshot answers. *)
Lemma replay_one snap header m signer authorize :
  cl_Epoch config ≠ 0 → Number header = Some m → wrap64 m = (sNumber snap + 1)%u64 →
  author_of header = Ok signer → signer ∈ sSigners snap → nonce_vote header = Ok authorize →
  ∃ snap', replay config snap [header] =
    if signed_recently (expire_recent snap (wrap64 m)) signer then Err errRecentlySigned else Ok snap'.
Proof.
  intros Hep Hm Hpos Hauth Hin Hvote. unfold replay, apply. cbn [check_contiguous].
  unfold mbind at 1, gom_bind at 1, lift at 1. unfold mbind at 1, gom_bind at 1, lift at 1.
  rewrite Hm. cbn [Uint64]. rewrite Hpos, Z.eqb_refl. cbn [negb]. cbn [apply_headers].
  unfold apply_header. rewrite Hm. cbn [Uint64]. unfold u64_mod.
  rewrite (proj2 (Z.eqb_neq _ _) Hep).
  assert (clique_ecrecover header tt = (Ok signer, tt)) as Hrec.
  { unfold author in Hauth. unfold clique_ecrecover.
    destruct (ecrecover _ _ header tt) as [r []]. cbn in Hauth. by subst. }
  rewrite <- Hpos. set (n := wrap64 m). set (chk := checked_snapshot config n snap).
  assert (signed_recently chk signer = signed_recently (expire_recent snap n) signer) as Hsame.
  { unfold chk, checked_snapshot, expire_recent, reset_votes. destruct (_ mod _ =? 0); [|done].
    change (sign_limit (set_Tally _ _)) with (sign_limit snap). by destruct (_ <=? _). }
  pose proof (checked_signers config n snap) as HS. fold chk in HS.
  eexists. unfold mbind, gom_bind, lift, mret, gom_ret. cbn -[chk]. fold n.
  fold (checked_snapshot config n snap). fold chk.
  rewrite Hrec, HS, bool_decide_false by (intros Hno; by apply Hno). rewrite Hsame.
  destruct (signed_recently (expire_recent snap n) signer); [done|]. by rewrite Hvote.
Qed.

(** An acceptable successor of the last of [headers]. *)
Record acceptable (fakeDiff : bool) (now : Z) headers header snap (signer : Address) (number : Z) : Prop := {
  acc_fields : well_formed config now header;
  acc_follows : number = Z.of_nat (length headers) + 1;
  acc_time : (Time (parent_header headers) + cl_Period config)%u64 ≤ Time header;
  acc_snapshot : replayed headers = Ok snap;
  acc_checkpoint : number mod cl_Epoch config = 0 →
    take (length (Extra header) - extraSeal - extraVanity) (drop extraVanity (Extra header))
    = signers_bytes snap;
  acc_author : author_of header = Ok signer;
  acc_signer : signer ∈ sSigners snap;
  acc_recent : recently_signed_at snap number signer = false;
  acc_turn : fakeDiff = false →
    Difficulty header = Some (if number mod Z.of_nat (size (sSigners snap)) =?
      Z.of_nat (signer_offset (VotingSnapshot.signers snap) signer) then diffInTurn else diffNoTurn)
}.

Lemma turn_check (d : option Z) (turn : bool) :
  match d with
  | None => Panic NilDereference
  | Some d =>
      if turn && negb (d =? diffInTurn) then Err errWrongDifficulty else
      if negb turn && negb (d =? diffNoTurn) then Err errWrongDifficulty else Ok tt
  end = Ok tt ↔ d = Some (if turn then diffInTurn else diffNoTurn).
Proof.
  destruct d as [d|]; [|done]. rewrite !guard_ok, !andb_false_iff, !negb_false_iff, !Z.eqb_eq.
  destruct turn; split; intros; simplify_eq; naive_solver.
Qed.

Lemma seal_spec_iff fakeDiff snap number header :
  seal_spec fakeDiff snap number header = Ok tt ↔
  ∃ signer, author_of header = Ok signer ∧ signer ∈ sSigners snap ∧
    recently_signed_at snap number signer = false ∧
    (fakeDiff = false →
     Difficulty header = Some (if number mod Z.of_nat (size (sSigners snap)) =?
       Z.of_nat (signer_offset (VotingSnapshot.signers snap) signer) then diffInTurn else diffNoTurn)).
Proof.
  unfold seal_spec. destruct (author_of header) as [signer|err|p]; cbn [mbind result_bind];
    [|split; [done|by intros (? & ? & _)]..].
  rewrite !guard_ok, bool_decide_eq_false. split.
  - intros (Hin%dec_stable & Hrec & Hturn). exists signer. do 3 (split; [done|]). intros ->.
    rewrite inturn_run in Hturn by (intros Hnil; rewrite Hnil in Hin; set_solver).
    by apply turn_check in Hturn.
  - intros (signer' & [= <-] & Hin & Hrec & Hturn). split; [by intros Hno|]. split; [done|].
    destruct fakeDiff; [done|]. rewrite inturn_run by (intros Hnil; rewrite Hnil in Hin; set_solver).
    by apply turn_check, Hturn.
Qed.

Lemma verify_spec_iff fakeDiff now headers header m :
  cl_Epoch config ≠ 0 → Number header = Some m → wrap64 m ≠ 0 →
  verify_spec fakeDiff now headers header = Ok tt ↔
  ∃ snap signer, acceptable fakeDiff now headers header snap signer (wrap64 m).
Proof.
  intros Hep Hm Hnz. unfold verify_spec. rewrite Hm. cbn [Uint64].
  transitivity (check_header_fields config now header = Ok tt ∧
    wrap64 m = Z.of_nat (length headers) + 1 ∧
    (Time (parent_header headers) + cl_Period config)%u64 ≤ Time header ∧
    ∃ snap, replayed headers = Ok snap ∧
      (wrap64 m mod cl_Epoch config = 0 →
       take (length (Extra header) - extraSeal - extraVanity) (drop extraVanity (Extra header))
       = signers_bytes snap) ∧ seal_spec fakeDiff snap (wrap64 m) header = Ok tt).
  - destruct (check_header_fields config now header) as [[]|err|p]; cbn [mbind result_bind];
      [|split; [done|by intros []]..].
    rewrite (proj2 (Z.eqb_neq _ _) Hnz), !guard_ok, negb_false_iff, Z.eqb_eq, Z.ltb_ge.
    split; [intros (Hn & Ht & Hrest)|intros (_ & Hn & Ht & snap & -> & Hcp & Hseal)].
    + apply result_bind_ok in Hrest as (snap & Hsnap & Hrest). do 3 (split; [done|]). exists snap.
      split; [done|]. unfold u64_mod in Hrest. rewrite (proj2 (Z.eqb_neq _ _) Hep) in Hrest.
      cbn [mbind result_bind] in Hrest.
      rewrite guard_ok, andb_false_iff, Z.eqb_neq, negb_false_iff, bool_decide_eq_true in Hrest.
      destruct Hrest as [[Hno|Hcp] Hseal]; split; auto; by intros.
    + do 2 (split; [done|]). unfold u64_mod. rewrite (proj2 (Z.eqb_neq _ _) Hep).
      cbn [mbind result_bind].
      rewrite guard_ok, andb_false_iff, Z.eqb_neq, negb_false_iff, bool_decide_eq_true.
      split; [|done]. destruct (decide (wrap64 m mod cl_Epoch config = 0)); auto.
  - rewrite check_header_fields_iff by done. split.
    + intros (Hf & Hn & Ht & snap & Hsnap & Hcp & (signer & ? & ? & ? & ?)%seal_spec_iff).
      by exists snap, signer.
    + intros (snap & signer & []). do 3 (split; [done|]). exists snap. do 2 (split; [done|]).
      apply seal_spec_iff. by exists signer.
Qed.

(** the specification accepts a block above the genesis block exactly
    when its fields are well formed, it follows its parent in number and
    time, a checkpoint lists the signers of the parent's snapshot, and it was
    sealed by an authorised signer that did not sign recently and set the
    difficulty its turn demands. *)
Theorem verify_spec_accepts_iff fakeDiff now headers header m :
  cl_Epoch config ≠ 0 → Number header = Some m → wrap64 m ≠ 0 →
  verify_spec fakeDiff now headers header = Ok tt ↔
  ∃ snap signer, acceptable fakeDiff now headers header snap signer (wrap64 m).
Proof. apply verify_spec_iff. Qed.

(** The snapshot of a block satisfies the invariant. *)
Lemma replayed_ok headers hash snap :
  ancestry genesis hash headers → replayed headers = Ok snap →
  snapshot_ok snap ∧ sNumber snap = Z.of_nat (length headers).
Proof.
  intros Ha Hr. pose proof (ancestry_length _ _ _ Ha).
  unfold replay in Hr. destruct (apply config _ headers tt) as [r c] eqn:Hap. cbn in Hr. subst r.
  apply apply_keeps_invariant in Hap as [Hok Hn]; [|by apply newSnapshot_ok|done].
  by split.
Qed.

(** every block the verification accepts at a height of at least the
    signing limit of its parent's snapshot can be applied to that snapshot:
    the chain can be continued from it. *)
Theorem accepted_block_applies fakeDiff now headers header m snap :
  cl_Epoch config ≠ 0 → Number header = Some m → wrap64 m ≠ 0 →
  ancestry genesis (ParentHash header) headers →
  verify_spec fakeDiff now headers header = Ok tt → replayed headers = Ok snap →
  sign_limit snap ≤ wrap64 m →
  ∃ snap', replayed (headers ++ [header]) = Ok snap' ∧ sHash snap' = Header_Hash header ∧
    snapshot_ok snap'.
Proof.
  intros Hep Hm Hnz Ha Hv Hsnap Hlim. apply verify_spec_iff with (m := m) in Hv; [|done..].
  destruct Hv as (snap0 & signer & [Hf Hn _ Hs0 _ Hauth Hin Hrec _]).
  rewrite Hsnap in Hs0. injection Hs0 as <-.
  destruct (replayed_ok _ _ _ Ha Hsnap) as [[Hu [_ HR]] Hpos].
  pose proof (wrap64_range m) as Hrange.
  assert (ancestry genesis (Header_Hash header) (headers ++ [header])) as Ha' by (by econstructor).
  assert (∃ authorize, nonce_vote header = Ok authorize) as [authorize Hvote].
  { unfold nonce_vote. destruct (wf_nonce _ _ _ Hf) as [->| ->]; eauto. }
  destruct (replay_one snap header m signer authorize) as [snap' Hone]; [done|done| |done|done|done|].
  { unfold u64_add. rewrite Hpos, <- Hn. by rewrite (wrap64_id (wrap64 m)). }
  rewrite <- recently_signed_at_expired, Hrec in Hone; [|done| |done].
  2:{ replace (wrap64 m - 1) with (sNumber snap) by lia.
done. }
  exists snap'. rewrite (replay_app config _ headers [header] snap), Hone;
    [|by apply (ancestry_numbered _ _ _ Ha')|done].
  split; [done|]. assert (replayed (headers ++ [header]) = Ok snap') as Hall.
  { by rewrite (replay_app config _ headers [header] snap), Hone;
    [|by apply (ancestry_numbered _ _ _ Ha')|]. }
  split; [by apply (replay_snapshot_at _ _ _ _ _ _ Ha' Hall)|by apply (replayed_ok _ _ _ Ha' Hall)].
Qed.

(** below that height the verification and the snapshot disagree.  A block
    whose signer signed recently passes the seal check (in the simulator's
    [fakeDiff] mode, or with the right difficulty), although no snapshot can be
    built on it and an honest [Seal] declines to make it. *)
Theorem low_height_divergence snap header m signer authorize :
  cl_Epoch config ≠ 0 → snapshot_ok snap → Number header = Some m → wrap64 m = sNumber snap + 1 →
  wrap64 m < sign_limit snap → sign_limit snap ≤ u64_modulus - wrap64 m →
  author_of header = Ok signer → signer ∈ sSigners snap → nonce_vote header = Ok authorize →
  signed_recently snap signer = true →
  seal_spec true snap (wrap64 m) header = Ok tt ∧
  replay config snap [header] = Err errRecentlySigned ∧
  must_wait snap (wrap64 m) signer = true.
Proof.
  intros Hep [Hu [_ HR]] Hm Hpos Hlow Hbig Hauth Hin Hvote Hrec.
  pose proof (wrap64_range m) as Hrange.
  replace (sNumber snap) with (wrap64 m - 1) in HR by lia.
  assert (signed_recently (expire_recent snap (wrap64 m)) signer = true) as Hexp.
  { unfold expire_recent. by rewrite (proj2 (Z.leb_gt _ _)). }
  split_and!.
  - apply seal_spec_iff. exists signer. do 2 (split; [done|]). split; [|done].
    apply recently_signed_at_low; [u64_lia|lia|done].
  - destruct (replay_one snap header m signer authorize) as [snap' ->]; try done; [|by rewrite Hexp].
    unfold u64_add. rewrite <- Hpos. by rewrite (wrap64_id (wrap64 m)).
  - by rewrite must_wait_expired.
Qed.
End verify.
