(* ===== verification/CliqueMining.v ===== *)
(** Mining with the Clique engine: the block [Prepare], [Finalize] and [Seal]
    produce is accepted by [verifyHeader] and extends the chain. *)
From S2P Require Import Prelude Types Sealing Blocks VotingSnapshot Clique CliqueVoting CliqueEngine CliqueSnapshots CliqueVerify.

(** * Retrieving a snapshot leaves the key and the proposals alone *)
Section frame.
Context `{Crypto} `{SnapshotCodec} {RC SC D : Type} `{Cache Hash Snapshot RC} `{Cache Hash Address SC}
  `{KeyValueStore D} {CH : Type} `{ChainReader CH} (chain : CH) (config : CliqueConfig).

Definition miner (e : Engine RC SC D) : gmap Address bool * Address := (eProposals e, eSigner e).

Lemma recents_Get_keeps hash : keeps miner (recents_Get hash).
Proof. intros e. unfold recents_Get. by destruct (cache_get _ _). Qed.
Lemma loadSnapshot_keeps hash : keeps miner (loadSnapshot hash).
Proof. done. Qed.
Lemma store_keeps s : keeps miner (store s).
Proof. intros e. unfold store. by repeat case_match. Qed.
Lemma with_signatures_keeps {A} (m : GoM SC clique_error A) : keeps miner (with_signatures m).
Proof. intros e. unfold with_signatures. by destruct (m _). Qed.
Lemma set_recents_keeps (f : Engine RC SC D → RC) :
  keeps miner (modify (E := clique_error) (λ e, set_recents e (f e))).
Proof. done. Qed.
Hint Resolve recents_Get_keeps loadSnapshot_keeps store_keeps with_signatures_keeps set_recents_keeps : sim.

Lemma checkpoint_snapshot_keeps number : keeps miner (checkpoint_snapshot chain config number).
Proof.
  unfold checkpoint_snapshot. sim_steps. destruct (GetHeaderByNumber chain number); sim_steps.
Qed.
Hint Resolve checkpoint_snapshot_keeps : sim.

Lemma find_snapshot_keeps fuel number hash parents headers :
  keeps miner (find_snapshot chain config fuel number hash parents headers).
Proof.
  revert number hash parents headers. induction fuel as [|fuel IH]; intros number hash parents headers;
    cbn [find_snapshot]; [by auto with sim|].
  apply keeps_bind; [by auto with sim|]. intros [s|]; [by auto with sim|].
  apply keeps_bind; [by destruct (_ =? 0); auto with sim|]. intros [s|]; [by auto with sim|].
  apply keeps_bind; [by auto with sim|]. intros [s|]; [by auto with sim|].
  apply keeps_bind; [by auto with sim|]. by intros [header parents'].
Qed.
Hint Resolve find_snapshot_keeps : sim.

Lemma snapshot_keeps fuel number hash parents :
  keeps miner (snapshot chain config fuel number hash parents).
Proof.
  unfold snapshot. apply keeps_bind; [by auto with sim|]. intros [s headers]. sim_steps.
Qed.
End frame.

(** * An honest miner *)
Section mining.
Context `{CollisionFree} `{SnapshotCodec} `{BlockDigests}.
Context {RC SC D : Type} `{CacheLaws Hash Snapshot RC} `{CacheLaws Hash Address SC}
  `{KeyValueLaws D}.
Context {CH : Type} `{ChainReader CH} (chain : CH).
Context (config : CliqueConfig) (genesis : Header) (authorities : list Address).
Implicit Types (header h : Header) (headers : list Header) (snap : Snapshot)
  (e : Engine RC SC D).

Abbreviation engine_good := (engine_ok (RC := RC) (SC := SC) (D := D) config genesis authorities).
Abbreviation replayed := (replay config (genesis_snapshot genesis authorities)).
Abbreviation known := (ancestors_known chain config genesis authorities).

Definition turn_difficulty snap (number : Z) (signer : Address) : Z :=
  if number mod Z.of_nat (size (sSigners snap)) =? Z.of_nat (signer_offset (VotingSnapshot.signers snap) signer)
  then diffInTurn else diffNoTurn.

(** What the extra data lists between the vanity and the seal. *)
Definition checkpoint_list snap (number : Z) : list byte :=
  if number mod cl_Epoch config =? 0 then signers_bytes snap else [].

(** A header whose consensus fields are filled in on top of [snap]. *)
Record prepared (parent : Header) snap (signer : Address) (number : Z) (hash : Hash) h : Prop := {
  prep_parent : ParentHash h = hash;
  prep_number : ∃ m, Number h = Some m ∧ wrap64 m = number;
  prep_difficulty : Difficulty h = Some (turn_difficulty snap number signer);
  prep_nonce : Nonce h = nonceAuthVote ∨ Nonce h = nonceDropVote;
  prep_checkpoint :
    number mod cl_Epoch config = 0 → Coinbase h = zero_address ∧ Nonce h = nonceDropVote;
  prep_extra : ∃ prefix seal, length prefix = extraVanity ∧ length seal = extraSeal ∧
    Extra h = prefix ++ checkpoint_list snap number ++ seal;
  prep_mix : MixDigest h = zero_hash;
  prep_time : (Time parent + cl_Period config)%u64 ≤ Time h
}.

Lemma choose_vote_frame pick snap proposals h :
  let h' := choose_vote pick snap proposals h in
  ParentHash h' = ParentHash h ∧ Number h' = Number h ∧ Extra h' = Extra h ∧
  (Nonce h = nonceDropVote → Nonce h' = nonceAuthVote ∨ Nonce h' = nonceDropVote).
Proof.
  unfold choose_vote. destruct (_ !! _) as [[address [|]]|]; cbn; auto.
Qed.

(** The vote is drawn on a header with no vote yet. *)
Lemma draft_ok (checkpoint : bool) pick snap proposals header m :
  Number header = Some m →
  let blank := with_Nonce (with_Coinbase header zero_address) 0 in
  let draft := if negb checkpoint then choose_vote pick snap proposals blank else blank in
  ParentHash draft = ParentHash header ∧ Number draft = Some m ∧ Extra draft = Extra header ∧
  (Nonce draft = nonceAuthVote ∨ Nonce draft = nonceDropVote) ∧
  (checkpoint = true → Coinbase draft = zero_address ∧ Nonce draft = nonceDropVote).
Proof.
  intros Hm blank draft. destruct (choose_vote_frame pick snap proposals blank) as (Hp & Hn & Hx & Hv).
  unfold draft. destruct checkpoint; cbn [negb].
  - by split_and!; [..|right|].
  - rewrite Hp, Hn, Hx. split_and!; [done..|by apply Hv|done].
Qed.

(** The snapshot both [Prepare] and [Seal] work from. *)
Lemma parent_snapshot fuel headers hash e (number : Z) snap :
  known fuel headers [] hash → engine_good e →
  number = Z.of_nat (length headers) + 1 → number < u64_modulus → replayed headers = Ok snap →
  ∃ e', snapshot chain config fuel (number - 1)%u64 hash [] e = (Ok snap, e') ∧
    engine_good e' ∧ miner e' = miner e.
Proof.
  intros Hk He Hlen Hbound Hsnap.
  destruct (answers_run _ _ _ _ (snapshot_answers chain config genesis authorities fuel headers [] _ Hk) He)
    as (e' & Hrun & He').
  pose proof (snapshot_keeps chain config fuel (Z.of_nat (length (headers ++ []))) hash [] e) as Hframe.
  rewrite app_nil_r in *.
  replace (number - 1)%u64 with (Z.of_nat (length headers)) by (unfold u64_sub; rewrite wrap64_id; u64_lia).
  rewrite Hrun in Hframe |- *. rewrite Hsnap. by exists e'.
Qed.

Lemma mining_parent fuel headers header (number : Z) :
  known fuel headers [] (ParentHash header) → number = Z.of_nat (length headers) + 1 →
  GetHeader chain (ParentHash header) (number - 1)%u64 = Some (parent_header genesis headers).
Proof.
  intros Hk ->. pose proof (parent_of_known chain config genesis authorities fuel headers [] header Hk) as Hp.
  by rewrite app_nil_r in Hp.
Qed.

Lemma clique_keeps_limits fuel now pick header e h e' :
  Prepare chain config fuel now pick header e = (Ok h, e') → keeps_limits header h.
Proof.
  unfold Prepare. cbv zeta. intros Hrun. do 5 (apply gom_bind_ok in Hrun as (? & ? & _ & Hrun)).
  destruct (GetHeader _ _ _); [|done]. injection Hrun as <- _. destruct (negb _); [|by split; [..|eexists]].
  unfold choose_vote. destruct (_ !! _) as [[address [|]]|]; by split; [..|eexists].
Qed.

Lemma Prepare_ok fuel now pick headers header e m snap :
  known fuel headers [] (ParentHash header) → engine_good e →
  Number header = Some m → wrap64 m = Z.of_nat (length headers) + 1 →
  replayed headers = Ok snap → sSigners snap ≠ ∅ →
  ∃ h e', Prepare chain config fuel now pick header e = (Ok h, e') ∧ engine_good e' ∧
    miner e' = miner e ∧
    prepared (parent_header genesis headers) snap (eSigner e) (wrap64 m) (ParentHash header) h.
Proof.
  intros Hk He Hm Hlen Hsnap Hne.
  assert (ancestry genesis (ParentHash header) headers) as Ha
    by (rewrite <- (app_nil_r headers); apply Hk).
  destruct (parent_snapshot fuel headers _ e (wrap64 m) snap Hk He Hlen) as (e' & Hrun & He' & Hframe);
    [apply wrap64_range|done|].
  destruct (replayed_ok config genesis authorities headers _ snap Ha Hsnap) as [_ Hpos].
  unfold Prepare. cbn [Number ParentHash Extra with_Nonce with_Coinbase]. rewrite Hm. cbn [Uint64].
  unfold mbind at 1, gom_bind at 1, lift at 1.
  rewrite (gom_bind_run _ _ _ _ _ Hrun). unfold mbind at 1, gom_bind at 1, get_state at 1. unfold u64_mod.
  rewrite (proj2 (Z.eqb_neq _ _) (chain_epoch _ _ _ _ (known_chain _ _ _ _ _ _ _ _ Hk))).
  unfold mbind at 1, gom_bind at 1, lift at 1.
  unfold calc_difficulty. rewrite inturn_run by done. cbv zeta. unfold mbind at 1, gom_bind at 1, lift at 1.
  cbn [mbind result_bind mret result_ret].
  replace (sNumber snap + 1)%u64 with (wrap64 m)
    by (rewrite Hpos; unfold u64_add; rewrite <- Hlen; symmetry; apply wrap64_id, wrap64_range).
  destruct (draft_ok (wrap64 m mod cl_Epoch config =? 0) pick snap (eProposals e') header m Hm)
    as (Hdp & Hdn & Hdx & Hdv & Hdc).
  set (draft := if _ : bool then choose_vote _ _ _ _ else _) in *. cbn. rewrite Hdp.
  rewrite (mining_parent fuel headers header) by done.
  do 2 eexists; split; [done|]. split; [done|]. split; [done|].
  injection Hframe as _ Hsigner. split; cbn; rewrite ?Hsigner; try done.
  - by exists m.
  - by intros Hcp%Z.eqb_eq%Hdc.
  - exists (vanity (Extra header)), (replicate extraSeal 0).
    rewrite Hdx, vanity_length, length_replicate, app_assoc. by do 2 (split; [done|]).
  - destruct (_ <? now) eqn:Hnow; [apply Z.ltb_lt in Hnow; lia|lia].
Qed.

Lemma Finalize_ok root txs receipts parent snap signer number hash h :
  prepared parent snap signer number hash h →
  ∃ block, Finalize root h txs receipts = Ok block ∧
    prepared parent snap signer number hash (block_header block) ∧
    UncleHash (block_header block) = uncleHash ∧ block_transactions block = txs ∧
    Root (block_header block) = root.
Proof.
  intros [Hp (m & Hm & Hn) Hd Hv Hc Hx Hmix Ht]. unfold Finalize, NewBlock.
  assert (∃ bloom, match receipts with [] => mret (Bloom (CopyHeader
    (with_UncleHash (with_Root h root) uncleHash))) | _ => CreateBloom receipts end = Ok bloom) as [bloom ->].
  { destruct receipts; [by eexists|]. by rewrite CreateBloom_run; eexists. }
  eexists; split; [done|]. split; [|done]. split; cbn; try done.
  - rewrite Hm. by exists m.
  - by rewrite Hd.
Qed.

Lemma copy_prepared parent snap signer number hash h :
  prepared parent snap signer number hash h → CopyHeader h = h.
Proof.
  intros [_ (m & Hm & _) Hd _ _ _ _ _]. destruct h. cbn in *. by subst.
Qed.

Lemma prepared_extra_length parent snap signer number hash h :
  prepared parent snap signer number hash h →
  length (Extra h) = (extraVanity + length (checkpoint_list snap number) + extraSeal)%nat.
Proof. intros [_ _ _ _ _ (p & s & Hp & Hs & ->) _ _]. rewrite !length_app. lia. Qed.

Lemma signers_bytes_length snap :
  length (signers_bytes snap) = (AddressLength * length (signers snap))%nat.
Proof.
  unfold signers_bytes. induction (signers snap) as [|a l IH]; [by rewrite Nat.mul_0_r|].
  change (mjoin _) with (array_bytes AddressLength a ++ mjoin (array_bytes AddressLength <$> l)).
  rewrite length_app, IH, array_bytes_length. cbn [length]. lia.
Qed.

(** The sealed header meets every condition of acceptance. *)
Lemma sealed_acceptable now headers h snap signer number sighash sig b pubkey :
  prepared (parent_header genesis headers) snap signer number (ParentHash h) h →
  UncleHash h = uncleHash → Time h ≤ now → number = Z.of_nat (length headers) + 1 →
  replayed headers = Ok snap → signer ∈ sSigners snap → must_wait snap number signer = false →
  encodeSigHeader (E := clique_error) h = Ok sig → length sighash = extraSeal →
  crypto_Ecrecover (rlpHash sig) sighash = Some (b :: pubkey) →
  copy_address (drop 12 (crypto_Keccak256 pubkey)) = signer →
  acceptable config genesis authorities false now headers (put_seal h sighash) snap signer number.
Proof.
  intros Hprep Hunc Htime Hlen Hsnap Hin Hwait Henc Hsig Hrec Haddr.
  pose proof (prepared_extra_length _ _ _ _ _ _ Hprep) as Hxl.
  destruct Hprep as [_ (m & Hm & Hn) Hd Hv Hc (pre & seal & Hpre & Hseal & Hx) Hmix Ht].
  assert (extraSeal ≤ length (Extra h))%nat as Hge by lia.
  assert (Extra (put_seal h sighash) = pre ++ checkpoint_list snap number ++ sighash) as Hsx.
  { rewrite put_seal_extra, Hx, !length_app by done. rewrite app_assoc.
    by rewrite take_app_le, take_ge, app_assoc by (rewrite ?length_app; lia). }
  assert (length (Extra (put_seal h sighash)) = length (Extra h)) as Hsl
    by (rewrite Hsx, Hx, !length_app; lia).
  pose proof (signers_bytes_length snap) as Hsb.
  split; [|done|by cbn|done| | |done| |].
  - split; cbn [Number Time Nonce Coinbase MixDigest UncleHash Difficulty put_seal with_Extra]; rewrite ?Hsl, ?Hm;
      cbn [default id]; rewrite ?Hn; try done.
    + intros Hcp. split_and!; [by apply Hc..|]. rewrite Hxl. unfold checkpoint_list.
      rewrite Hcp, Z.eqb_refl, Hsb.
      replace (_ - _ - _)%nat with (AddressLength * length (signers snap))%nat by lia.
      by rewrite Nat2Z.inj_mul, Z.mul_comm, Z.mod_mul.
    + intros Hcp. rewrite Hxl. unfold checkpoint_list. rewrite (proj2 (Z.eqb_neq _ _) Hcp). cbn [length]. lia.
    + lia.
    + intros _. rewrite Hd. unfold turn_difficulty. case_match; auto.
  - intros Hcp. rewrite Hsl, Hxl, Hsx, drop_app_ge, Hpre, Nat.sub_diag, drop_0 by lia.
    rewrite take_app_le, take_ge by lia. unfold checkpoint_list. by rewrite Hcp.
  - by rewrite (author_put_seal _ _ _ _ _ _ _ Henc Hsig Hrec), Haddr.
  - unfold must_wait in Hwait. apply bool_decide_eq_false in Hwait. apply bool_decide_eq_false.
    intros (seen & recent & Hs & Heq & Hlt). apply Hwait. by exists seen, recent; auto.
  - by intros _.
Qed.

Lemma Seal_ok fuel now draw signFn headers block e snap (number : Z) :
  known fuel headers [] (ParentHash (block_header block)) → engine_good e →
  prepared (parent_header genesis headers) snap (eSigner e) number (ParentHash (block_header block))
    (block_header block) →
  number = Z.of_nat (length headers) + 1 → replayed headers = Ok snap →
  eSigner e ∈ sSigners snap → must_wait snap number (eSigner e) = false →
  cl_Period config ≠ 0 ∨ block_transactions block ≠ [] → honest_key signFn (eSigner e) →
  ∃ sighash sig b pubkey delay e',
    Seal chain config fuel now draw signFn block e =
      (Ok (Some (WithSeal block (put_seal (block_header block) sighash), delay)), e') ∧
    0 ≤ delay ∧ engine_good e' ∧
    encodeSigHeader (E := clique_error) (block_header block) = Ok sig ∧ length sighash = extraSeal ∧
    crypto_Ecrecover (rlpHash sig) sighash = Some (b :: pubkey) ∧
    copy_address (drop 12 (crypto_Keccak256 pubkey)) = eSigner e.
Proof.
  intros Hk He Hprep Hlen Hsnap Hin Hwait Hwork Hkey.
  pose proof (prepared_extra_length _ _ _ _ _ _ Hprep) as Hxl.
  pose proof (prep_number _ _ _ _ _ _ Hprep) as (m & Hm & Hn). pose proof (wrap64_range m) as Hrange.
  destruct (parent_snapshot fuel headers _ e number snap Hk He Hlen) as (e' & Hrun & He' & Hframe);
    [u64_lia|done|].
  assert (∃ sig, encodeSigHeader (E := clique_error) (block_header block) = Ok sig) as [sig Henc].
  { unfold encodeSigHeader. rewrite bool_decide_false by lia. by eexists. }
  destruct (Hkey sig) as (sighash & b & pubkey & Hsign & Hsl & Hrec & Haddr).
  exists sighash, sig, b, pubkey. unfold Seal. rewrite (copy_prepared _ _ _ _ _ _ Hprep), Hm. cbn [Uint64].
  unfold mbind at 1, gom_bind at 1, lift at 1. rewrite Hn, (proj2 (Z.eqb_neq _ _)) by lia.
  assert ((cl_Period config =? 0) && bool_decide (block_transactions block = []) = false) as ->.
  { apply andb_false_iff. rewrite Z.eqb_neq, bool_decide_eq_false. tauto. }
  unfold mbind at 1, gom_bind at 1, get_state at 1. cbv zeta. rewrite (gom_bind_run _ _ _ _ _ Hrun).
  rewrite bool_decide_false by (by intros Hno). rewrite Hwait.
  unfold mbind, gom_bind, lift. rewrite Henc, Hsign.
  do 2 eexists. split; [done|]. split; [lia|]. done.
Qed.

(** C1: what an authorised miner that need not wait produces is valid: from
    a header on top of the chain, [Prepare], [Finalize] and [Seal] all succeed
    and the sealed block passes [verifyHeader] (from the time it carries on)
    in the engine of any node, with the miner as its signer. *)
Theorem honest_block_accepted fuel now now' pick draw signFn root txs receipts headers header e m snap :
  known fuel headers [] (ParentHash header) → engine_good e →
  Number header = Some m → wrap64 m = Z.of_nat (length headers) + 1 →
  replayed headers = Ok snap → eSigner e ∈ sSigners snap →
  must_wait snap (wrap64 m) (eSigner e) = false →
  cl_Period config ≠ 0 ∨ txs ≠ [] → honest_key signFn (eSigner e) →
  ∃ prepared_header e1 block sealed delay e2,
    Prepare chain config fuel now pick header e = (Ok prepared_header, e1) ∧
    Finalize root prepared_header txs receipts = Ok block ∧
    Seal chain config fuel now' draw signFn block e1 = (Ok (Some (sealed, delay)), e2) ∧
    engine_good e2 ∧ block_transactions sealed = txs ∧ Root (block_header sealed) = root ∧
    author errMissingSignature errCrypto (block_header sealed) = Ok (eSigner e) ∧
    ∀ later, Time (block_header sealed) ≤ later →
      verify_spec config genesis authorities false later headers (block_header sealed) = Ok tt ∧
      answers engine_good (verifyHeader chain config fuel false later (block_header sealed) []) (Ok tt).
Proof.
  intros Hk He Hm Hlen Hsnap Hin Hwait Hwork Hkey.
  destruct (Prepare_ok fuel now pick headers header e m snap) as (h & e1 & Hrun1 & He1 & Hframe & Hprep);
    [done..|set_solver|].
  assert (eSigner e1 = eSigner e) as Hsigner by (by injection Hframe).
  destruct (Finalize_ok root txs receipts _ _ _ _ _ _ Hprep) as (block & Hfin & Hprep' & Hunc & Htxs & Hroot).
  pose proof (prep_parent _ _ _ _ _ _ Hprep') as Hph.
  rewrite <- Hph in Hprep', Hk. rewrite <- Hsigner in *.
  destruct (Seal_ok fuel now' draw signFn headers block e1 snap (wrap64 m))
    as (sighash & sig & b & pubkey & delay & e2 & Hseal & _ & He2 & Henc & Hsl & Hrec & Haddr);
    [done..|by rewrite Htxs|done|].
  exists h, e1, block, (WithSeal block (put_seal (block_header block) sighash)), delay, e2.
  do 4 (split; [done|]). split; [done|]. cbn [WithSeal block_header].
  split; [exact Hroot|].
  assert (∀ later, Time (put_seal (block_header block) sighash) ≤ later →
    verify_spec config genesis authorities false later headers (put_seal (block_header block) sighash) = Ok tt)
    as Hspec.
  { intros later Hlater. destruct (prep_number _ _ _ _ _ _ Hprep') as (m' & Hm' & Hw).
    apply (verify_spec_iff config genesis authorities) with (m := m').
    - apply (known_chain _ _ _ _ _ _ _ _ Hk).
    - done.
    - lia.
    - exists snap, (eSigner e1). rewrite Hw. by eapply sealed_acceptable. }
  split; [by rewrite (author_put_seal _ _ _ _ _ _ _ Henc Hsl Hrec), Haddr|].
  intros later Hlater. split; [by apply Hspec|]. rewrite <- (Hspec later Hlater).
  pose proof (verifyHeader_answers chain config genesis authorities fuel false later headers []
    (put_seal (block_header block) sighash) Hk) as Hv.
  by rewrite app_nil_r in Hv.
Qed.
End mining.
