(* ===== verification/Aura.v ===== *)
(** The Aura engine ([consensus/aura/aura.go], [snapshot.go], [api.go]):
    authorities of a fixed list take turns by the clock.  The voting snapshot
    machinery was carried over from Clique; its vote casting is commented
    out.

    The rotation of the Aura authorities: who may sign when. *)
From S2P Require Import Prelude Types Sealing Blocks VotingSnapshot.

(** The errors the package returns: its own, those of [consensus/errors.go],
    and the ones passed on from the crypto library. *)
Inductive aura_error :=
  | errUnknownBlock | errMissingSignature | errInvalidExtraData | errInvalidMixDigest
  | errInvalidUncleHash | errInvalidDifficulty | ErrInvalidTimestamp | errInvalidVotingChain
  | errUnauthorized | errWaitTransactions | errUnclesNotAllowed
  | ErrUnknownAncestor | ErrFutureBlock | errCrypto | errSigning.

(** The mutable part of the Go struct [Aura]. *)
Record Engine (RC SC : Type) := mkEngine {
  eRecents : RC; eSignatures : SC; eProposals : gmap Address bool; eSigner : Address }.
Arguments mkEngine {RC SC} _ _ _ _.
Arguments eRecents {RC SC} _.
Arguments eSignatures {RC SC} _.
Arguments eProposals {RC SC} _.
Arguments eSigner {RC SC} _.

Definition epochLength : Z := 30000.
Definition New_config (config : AuraConfig) : AuraConfig :=
  if au_Epoch config =? 0
  then mkAuraConfig (au_Period config) epochLength (au_Authorities config) (au_Difficulty config)
  else config.
Definition New {RC SC} (recents : RC) (signatures : SC) (config : AuraConfig) : AuraConfig * Engine RC SC :=
  (New_config config, mkEngine recents signatures ∅ zero_address).

(** [uint64] division. *)
Definition turn_at (config : AuraConfig) (time : Z) : Result aura_error Z :=
  step ← u64_div time (au_Period config);
  let authNum := Z.of_nat (length (au_Authorities config)) in
  turn ← u64_mod step authNum;
  late ← u64_mod time (au_Period config);
  mret (if late =? 0 then ((if turn =? 0 then authNum else turn) - 1)%u64 else turn).

Definition inTurn (config : AuraConfig) (signer : Address) (time : Z) : Result aura_error bool :=
  turn ← turn_at config time;
  match au_Authorities config !! Z.to_nat turn with
  | None => Panic IndexOutOfRange
  | Some authority => mret (signer =? authority)
  end.

(** * Snapshots *)
Section apply.
Context `{Crypto} {C : Type} `{Cache Hash Address C}.
Context (config : AuraConfig).
Implicit Types (header : Header) (headers : list Header) (s snap : Snapshot).

Definition aura_ecrecover header : GoM C aura_error Address :=
  ecrecover errMissingSignature errCrypto header.

(** One turn of the loop of [apply]: no vote is cast. *)
Definition apply_header snap header : GoM C aura_error Snapshot :=
  number ← lift (Uint64 (Number header));
  r ← lift (u64_mod number (au_Epoch config));
  let snap := expire_recent (reset_votes (r =? 0) snap) number in
  signer ← aura_ecrecover header;
  if bool_decide (signer ∉ sSigners snap) then throw errUnauthorized else
  if signed_recently snap signer then throw errUnauthorized else
  let snap := set_Recents snap (<[number := signer]> (sRecents snap)) in
  let snap := discard_vote snap signer (Coinbase header) in
  mret (settle_vote snap number (Coinbase header)).

Fixpoint apply_headers snap headers : GoM C aura_error Snapshot :=
  match headers with
  | [] => mret snap
  | header :: rest => snap' ← apply_header snap header; apply_headers snap' rest
  end.

Fixpoint check_contiguous header headers : Result aura_error unit :=
  match headers with
  | [] => Ok tt
  | next :: rest =>
      n1 ← Uint64 (Number next);
      n0 ← Uint64 (Number header);
      if negb (n1 =? (n0 + 1)%u64) then Err errInvalidVotingChain
      else check_contiguous next rest
  end.

Definition apply s headers : GoM C aura_error Snapshot :=
  match headers with
  | [] => mret s
  | first :: rest =>
      lift (check_contiguous first rest) ≫= λ _,
      n0 ← lift (Uint64 (Number first));
      if negb (n0 =? (sNumber s + 1)%u64) then throw errInvalidVotingChain else
      snap ← apply_headers s headers;
      mret (set_Position snap (sNumber snap + Z.of_nat (length headers))%u64
              (Header_Hash (List.last headers first)))
  end.
End apply.

(** * The engine *)
Section engine.
Context `{Crypto} `{BlockDigests}.
Context {RC SC : Type} `{Cache Hash Snapshot RC} `{Cache Hash Address SC}.
Context {CH : Type} `{ChainReader CH} (chain : CH).
(** [config] is [a.config], [chain_config] is [chain.Config().Aura]. *)
Context (config chain_config : AuraConfig).
Implicit Types (header : Header) (parents headers : list Header) (snap : Snapshot).

Abbreviation M := (GoM (Engine RC SC) aura_error).

Definition set_recents (e : Engine RC SC) (x : RC) : Engine RC SC :=
  mkEngine x (eSignatures e) (eProposals e) (eSigner e).
Definition set_signatures (e : Engine RC SC) (x : SC) : Engine RC SC :=
  mkEngine (eRecents e) x (eProposals e) (eSigner e).
Definition with_signatures {A} (m : GoM SC aura_error A) : M A := λ e,
  let '(r, sc) := m (eSignatures e) in (r, set_signatures e sc).
Definition recents_Get (hash : Hash) : M (option Snapshot) := λ e,
  let '(o, rc) := cache_get hash (eRecents e) in (Ok o, set_recents e rc).

(** ** Verification *)
Definition check_header_fields (now : Z) header : Result aura_error unit :=
  match Number header with
  | None => Err errUnknownBlock
  | Some n =>
      let number := wrap64 n in
      if now <? Time header then Err ErrFutureBlock else
      if negb (bool_decide (length (Extra header) = extraVanity + extraSeal)%nat) then Err errInvalidExtraData else
      if negb (MixDigest header =? zero_hash) then Err errInvalidMixDigest else
      if negb (UncleHash header =? CalcUncleHash []) then Err errInvalidUncleHash else
      if 0 <? number then
        match Difficulty header, au_Difficulty chain_config with
        | None, _ => Err errInvalidDifficulty
        | Some _, None => Panic NilDereference
        | Some d, Some d' => if negb (d =? d') then Err errInvalidDifficulty else Ok tt
        end
      else Ok tt
  end.

Definition verifySeal header : M unit :=
  number ← lift (Uint64 (Number header));
  if number =? 0 then throw errUnknownBlock else
  signer ← with_signatures (aura_ecrecover header);
  turn ← lift (inTurn config signer (Time header));
  if negb turn then throw errUnauthorized else mret tt.

Definition parent_of header (number : Z) parents : option Header :=
  match last parents with
  | Some p => Some p
  | None => GetHeader chain (ParentHash header) (number - 1)%u64
  end.

Definition verifyCascadingFields header parents : M unit :=
  number ← lift (Uint64 (Number header));
  if number =? 0 then mret tt else
  match parent_of header number parents with
  | None => throw ErrUnknownAncestor
  | Some parent =>
      pnumber ← lift (Uint64 (Number parent));
      if negb (pnumber =? (number - 1)%u64) || negb (Header_Hash parent =? ParentHash header)
      then throw ErrUnknownAncestor else
      if Time header <? (Time parent + au_Period config)%u64 then throw ErrInvalidTimestamp
      else verifySeal header
  end.

Definition verifyHeader (now : Z) header parents : M unit :=
  lift (check_header_fields now header) ≫= λ _, verifyCascadingFields header parents.

Fixpoint verify_batch (now : Z) (done rest : list Header) (results : list (option aura_error)) :
    M (list (option aura_error)) :=
  match rest with
  | [] => mret results
  | header :: rest' => λ e,
      match verifyHeader now header done e with
      | (Ok _, e') => verify_batch now (done ++ [header]) rest' (results ++ [None]) e'
      | (Err err, e') => verify_batch now (done ++ [header]) rest' (results ++ [Some err]) e'
      | (Panic p, e') => (Panic p, e')
      end
  end.
Definition VerifyHeaders (now : Z) headers := verify_batch now [] headers [].

Definition VerifyUncles (block : Block) : Result aura_error unit :=
  if bool_decide (block_uncles block ≠ []) then Err errUnclesNotAllowed else Ok tt.

(** ** Mining *)
(** The vanity is cut and padded twice. *)
Definition Prepare (now : Z) header : Result aura_error Header :=
  let header := with_Nonce (with_Coinbase header zero_address) 0 in
  let header := with_Difficulty header (au_Difficulty chain_config) in
  let header := with_Extra header (vanity (Extra header)) in
  number ← Uint64 (Number header);
  let header := with_Extra header (vanity (Extra header) ++ replicate extraSeal 0) in
  let header := with_MixDigest header zero_hash in
  match GetHeader chain (ParentHash header) (number - 1)%u64 with
  | None => Err ErrUnknownAncestor
  | Some parent =>
      let time := (Time parent + au_Period config)%u64 in
      mret (with_Time header (if time <? now then now else time))
  end.

Definition Finalize (root : Hash) header (txs : list Transaction) (receipts : list Receipt) :
    Result unit Block :=
  NewBlock (with_UncleHash (with_Root header root) (CalcUncleHash [])) txs [] receipts.

Definition Seal (now : Z) (signFn : Address → Header → option (list byte)) (block : Block) : M (Block * Z) :=
  let header := CopyHeader (block_header block) in
  number ← lift (Uint64 (Number header));
  if number =? 0 then throw errUnknownBlock else
  if (au_Period config =? 0) && bool_decide (block_transactions block = []) then throw errWaitTransactions else
  e ← get_state;
  let signer := eSigner e in
  turn ← lift (inTurn config signer (Time header));
  if negb turn then throw errUnauthorized else
  let delay := wrap_i64 (ToDuration (Time header) - ToDuration now) in
  sig ← lift (encodeSigHeader header);
  match signFn signer sig with
  | None => throw errSigning
  | Some sighash => mret (WithSeal block (put_seal header sighash), Z.max 0 delay)
  end.

(** ** Snapshots and the RPC interface *)
Definition next_header (number : Z) (hash : Hash) parents : Result aura_error (Header * list Header) :=
  match last parents with
  | Some header =>
      if negb (Header_Hash header =? hash) then Err ErrUnknownAncestor else
      n ← Uint64 (Number header);
      if negb (n =? number) then Err ErrUnknownAncestor
      else Ok (header, take (length parents - 1) parents)
  | None =>
      match GetHeader chain hash number with
      | None => Err ErrUnknownAncestor
      | Some header => Ok (header, [])
      end
  end.

Fixpoint find_snapshot (fuel : nat) (number : Z) (hash : Hash) parents headers : M (Snapshot * list Header) :=
  match fuel with
  | O => panic OutOfFuel
  | S fuel' =>
      cached ← recents_Get hash;
      match cached with
      | Some s => mret (s, headers)
      | None =>
          next ← lift (next_header number hash parents);
          let '(header, parents') := next : Header * list Header in
          find_snapshot fuel' (number - 1)%u64 (ParentHash header) parents' (headers ++ [header])
      end
  end.

Definition snapshot (fuel : nat) (number : Z) (hash : Hash) parents : M Snapshot :=
  found ← find_snapshot fuel number hash parents [];
  let '(s, headers) := found : Snapshot * list Header in
  snap ← with_signatures (apply config s (reverse headers));
  modify (λ e, set_recents e (cache_add (sHash snap) snap (eRecents e))) ≫= λ _, mret snap.

Definition Authorize (signer : Address) : M unit :=
  modify (λ e, mkEngine (eRecents e) (eSignatures e) (eProposals e) signer).
Definition Propose (address : Address) (auth : bool) : M unit :=
  modify (λ e, mkEngine (eRecents e) (eSignatures e) (<[address := auth]> (eProposals e)) (eSigner e)).
Definition Discard (address : Address) : M unit :=
  modify (λ e, mkEngine (eRecents e) (eSignatures e) (delete address (eProposals e)) (eSigner e)).

Definition requested_header (number : option Z) : option Header :=
  match number with
  | None => CurrentHeader chain
  | Some n => GetHeaderByNumber chain (wrap64 n)
  end.
Definition snapshot_of (fuel : nat) (o : option Header) : M Snapshot :=
  match o with
  | None => throw errUnknownBlock
  | Some header =>
      n ← lift (Uint64 (Number header));
      snapshot fuel n (Header_Hash header) []
  end.
Definition GetSnapshot (fuel : nat) (number : option Z) : M Snapshot :=
  snapshot_of fuel (requested_header number).
Definition GetSnapshotAtHash (fuel : nat) (hash : Hash) : M Snapshot :=
  snapshot_of fuel (GetHeaderByHash chain hash).
Definition GetSigners (fuel : nat) (number : option Z) : M (list Address) :=
  snap ← GetSnapshot fuel number; mret (signers snap).
Definition GetSignersAtHash (fuel : nat) (hash : Hash) : M (list Address) :=
  snap ← GetSnapshotAtHash fuel hash; mret (signers snap).
End engine.

Record rotation_ok (config : AuraConfig) : Prop := {
  rot_period : 0 < au_Period config < u64_modulus;
  rot_some : au_Authorities config ≠ [];
  rot_length : Z.of_nat (length (au_Authorities config)) < u64_modulus
}.

(** The time line is cut into slots of one period; slot [k] holds the times
    after [k * Period] up to and including [(k + 1) * Period]. *)
Definition slot (config : AuraConfig) (time : Z) : Z := (time - 1) / au_Period config.
Definition authority_of_slot (config : AuraConfig) (k : Z) : option Address :=
  au_Authorities config !! Z.to_nat (k mod Z.of_nat (length (au_Authorities config))).

Section rotation.
Context (config : AuraConfig).
Implicit Types (signer : Address) (time : Z).

Abbreviation authNum := (Z.of_nat (length (au_Authorities config))).

Lemma authNum_pos : rotation_ok config → 0 < authNum.
Proof. intros [_ Hne _]. destruct (au_Authorities config); [done|cbn; lia]. Qed.

(** The predecessor of a turn, around the list. *)
Lemma previous_turn k n : 0 < n → (if k mod n =? 0 then n else k mod n) - 1 = (k - 1) mod n.
Proof.
  intros Hn. pose proof (Z.mod_pos_bound k n Hn) as Hb. destruct (k mod n =? 0) eqn:Hz.
  - apply Z.eqb_eq in Hz. apply Z.mod_unique with (q := k / n - 1); [lia|].
    pose proof (Z.div_mod k n). nia.
  - apply Z.eqb_neq in Hz. apply Z.mod_unique with (q := k / n); [lia|].
    pose proof (Z.div_mod k n). lia.
Qed.

Lemma slot_boundary time p :
  0 < p → (time - 1) / p = if time mod p =? 0 then time / p - 1 else time / p.
Proof.
  intros Hp. pose proof (Z.div_mod time p) as Hd. pose proof (Z.mod_pos_bound time p Hp) as Hb.
  destruct (time mod p =? 0) eqn:Hz; [apply Z.eqb_eq in Hz|apply Z.eqb_neq in Hz].
  - symmetry. apply Z.div_unique with (r := p - 1); [lia|]. nia.
  - symmetry. apply Z.div_unique with (r := time mod p - 1); [lia|]. lia.
Qed.

Lemma turn_at_run time :
  rotation_ok config → is_u64 time → turn_at config time = Ok (slot config time mod authNum).
Proof.
  intros Hok Ht. pose proof (authNum_pos Hok) as Hn. destruct Hok as [Hp _ Hlen].
  unfold turn_at, u64_div, u64_mod. rewrite !(proj2 (Z.eqb_neq _ _)) by lia.
  cbn [mbind result_bind mret result_ret]. f_equal. unfold slot.
  rewrite slot_boundary by lia. pose proof (Z.mod_pos_bound (time / au_Period config) authNum Hn) as Hb.
  destruct (time mod au_Period config =? 0); [|done].
  rewrite <- previous_turn by done. unfold u64_sub. apply wrap64_id. case_match; u64_lia.
Qed.

Lemma inTurn_run signer time :
  rotation_ok config → is_u64 time →
  ∃ authority, authority_of_slot config (slot config time) = Some authority ∧
    inTurn config signer time = Ok (signer =? authority).
Proof.
  intros Hok Ht. unfold inTurn. rewrite turn_at_run by done. cbn [mbind result_bind]. unfold authority_of_slot.
  pose proof (authNum_pos Hok) as Hn.
  pose proof (Z.mod_pos_bound (slot config time) authNum Hn) as Hb.
  destruct (lookup_lt_is_Some_2 (au_Authorities config) (Z.to_nat (slot config time mod authNum))) as [a Ha]; [lia|].
  rewrite Ha. by exists a.
Qed.

(** at every time exactly one authority may sign, the one whose turn the
    slot of the period is, and the check cannot panic. *)
Theorem inTurn_unique_authority time :
  rotation_ok config → is_u64 time →
  ∃ authority, authority ∈ au_Authorities config ∧
    authority_of_slot config (slot config time) = Some authority ∧
    ∀ signer, inTurn config signer time = Ok (bool_decide (signer = authority)).
Proof.
  intros Hok Ht. destruct (inTurn_run zero_address time Hok Ht) as (a & Ha & _).
  exists a. split; [by eapply list_elem_of_lookup_2|]. split; [done|]. intros signer.
  destruct (inTurn_run signer time Hok Ht) as (a' & Ha' & ->). simplify_eq.
  f_equal. apply eq_bool_prop_intro. by rewrite Is_true_true, Z.eqb_eq, bool_decide_spec.
Qed.

(** the check panics on a configuration with period 0 or no authority, at
    any time: the engine cannot verify or seal anything then. *)
Theorem inTurn_panics signer time :
  au_Period config = 0 ∨ (0 < au_Period config ∧ au_Authorities config = []) →
  inTurn config signer time = Panic DivideByZero.
Proof.
  unfold inTurn, turn_at, u64_div, u64_mod. intros [->|[Hp ->]]; [done|].
  by rewrite (proj2 (Z.eqb_neq _ _)) by lia.
Qed.

(** C33: no authority waits for more than one round: within any [n] periods
    every authority has a time at which it may sign. *)
Theorem rotation_is_fair start i signer :
  rotation_ok config → au_Authorities config !! i = Some signer → 0 ≤ start →
  start + authNum * au_Period config < u64_modulus →
  ∃ time, start < time ≤ start + authNum * au_Period config ∧ inTurn config signer time = Ok true.
Proof.
  intros Hok Hi Hstart Hmax. pose proof (authNum_pos Hok) as Hn. pose proof (rot_period _ Hok) as Hp.
  assert (0 ≤ Z.of_nat i < authNum) as Hib by (apply lookup_lt_Some in Hi; lia).
  set (k := start / au_Period config). set (wait := (Z.of_nat i - k) mod authNum).
  pose proof (Z.mod_pos_bound (Z.of_nat i - k) authNum Hn) as Hwait. fold wait in Hwait.
  exists (start + 1 + wait * au_Period config). split; [nia|].
  destruct (inTurn_run signer (start + 1 + wait * au_Period config) Hok) as (a & Ha & ->).
  { split; [nia|]. unfold u64_modulus in *. nia. }
  unfold slot, authority_of_slot in Ha.
  replace (start + 1 + wait * au_Period config - 1) with (start + wait * au_Period config) in Ha by lia.
  rewrite Z.div_add in Ha by lia. fold k in Ha. unfold wait in Ha.
  rewrite Zplus_mod_idemp_r in Ha. replace (k + (Z.of_nat i - k)) with (Z.of_nat i) in Ha by lia.
  rewrite Z.mod_small, Nat2Z.id, Hi in Ha by lia. injection Ha as <-. by rewrite Z.eqb_refl.
Qed.
End rotation.
