(* ===== verification/AuraVerify.v ===== *)
(** Verification, mining and snapshots in the Aura engine. *)
From S2P Require Import Prelude Types Sealing Blocks VotingSnapshot Aura.

Section verify.
Context `{CollisionFree} `{BlockDigests}.
Context {RC SC : Type} `{CacheLaws Hash Snapshot RC} `{CacheLaws Hash Address SC}.
Context {CH : Type} `{ChainReader CH} (chain : CH).
Context (config chain_config : AuraConfig).
Implicit Types (header parent : Header) (parents : list Header) (e : Engine RC SC).

Abbreviation author_of := (author errMissingSignature errCrypto).

(** Every cached signer is the signer of its header. *)
Definition signatures_ok e : Prop := sig_coherent errMissingSignature errCrypto (eSignatures e).

(** The fields [Prepare] fills in. *)
Record fields_ok (now : Z) header : Prop := {
  fok_time : Time header ≤ now;
  fok_extra : length (Extra header) = (extraVanity + extraSeal)%nat;
  fok_mix : MixDigest header = zero_hash;
  fok_uncles : UncleHash header = CalcUncleHash [];
  fok_difficulty : ∃ d, Difficulty header = Some d ∧ au_Difficulty chain_config = Some d
}.

Record follows parent header (number : Z) : Prop := {
  fol_number : ∃ n, Number parent = Some n ∧ wrap64 n = (number - 1)%u64;
  fol_hash : Header_Hash parent = ParentHash header;
  fol_time : (Time parent + au_Period config)%u64 ≤ Time header
}.

Lemma aura_check_header_fields_iff now header m :
  Number header = Some m → wrap64 m ≠ 0 →
  check_header_fields chain_config now header = Ok tt ↔ fields_ok now header.
Proof.
  intros Hm Hnz. unfold check_header_fields. rewrite Hm. cbv zeta.
  pose proof (wrap64_range m). rewrite (proj2 (Z.ltb_lt 0 (wrap64 m))) by u64_lia.
  rewrite !guard_ok, !negb_false_iff, !Z.eqb_eq, Z.ltb_ge, bool_decide_eq_true.
  assert (match Difficulty header, au_Difficulty chain_config with
          | None, _ => Err errInvalidDifficulty
          | Some _, None => Panic NilDereference
          | Some d, Some d' => if negb (d =? d') then Err errInvalidDifficulty else Ok tt
          end = Ok tt ↔ ∃ d, Difficulty header = Some d ∧ au_Difficulty chain_config = Some d) as ->.
  { destruct (Difficulty header) as [d|]; [|split; [done|by intros (? & ? & _)]].
    destruct (au_Difficulty chain_config) as [d'|]; [|split; [done|by intros (? & _ & ?)]].
    rewrite guard_ok, negb_false_iff, Z.eqb_eq. split; [intros [-> _]; eauto|].
    by intros (? & [= <-] & [= <-]). }
  split; [intros (? & ? & ? & ? & ?); by split|intros []; by split_and!].
Qed.

Lemma aura_signer_answers header :
  answers signatures_ok (with_signatures (RC := RC) (aura_ecrecover header)) (author_of header).
Proof.
  intros e Hsig. unfold with_signatures.
  destruct (ecrecover_coherent _ _ (eSignatures e) header Hsig) as (c' & Hr & Hc').
  unfold aura_ecrecover. rewrite Hr. by split.
Qed.

(** [verifySeal] without the signature cache. *)
Definition seal_spec header : Result aura_error unit :=
  signer ← author_of header;
  turn ← inTurn config signer (Time header);
  if negb turn then Err errUnauthorized else Ok tt.

Lemma aura_verifySeal_answers header m :
  Number header = Some m → wrap64 m ≠ 0 →
  answers signatures_ok (verifySeal (RC := RC) config header) (seal_spec header).
Proof.
  intros Hm Hnz. unfold verifySeal, seal_spec. rewrite Hm. apply answers_ok_bind.
  rewrite (proj2 (Z.eqb_neq _ _) Hnz). apply answers_bind; [apply aura_signer_answers|]. intros signer _.
  apply answers_bind; [by auto with sim|]. intros turn _. case_match; by auto with sim.
Qed.

(** [verifyHeader] without the signature cache. *)
Definition verify_spec (now : Z) header parents : Result aura_error unit :=
  _ ← check_header_fields chain_config now header;
  number ← Uint64 (Number header);
  if number =? 0 then Ok tt else
  match parent_of chain header number parents with
  | None => Err ErrUnknownAncestor
  | Some parent =>
      pnumber ← Uint64 (Number parent);
      if negb (pnumber =? (number - 1)%u64) || negb (Header_Hash parent =? ParentHash header)
      then Err ErrUnknownAncestor else
      if Time header <? (Time parent + au_Period config)%u64 then Err ErrInvalidTimestamp else
      seal_spec header
  end.

Lemma aura_verifyHeader_answers now header parents :
  answers signatures_ok (verifyHeader (RC := RC) chain config chain_config now header parents)
    (verify_spec now header parents).
Proof.
  unfold verifyHeader, verify_spec, verifyCascadingFields.
  apply answers_bind; [by auto with sim|]. intros [] _.
  apply answers_bind; [by auto with sim|]. intros number Hn.
  destruct (number =? 0) eqn:Hz; [by auto with sim|].
  destruct (parent_of _ _ _ _) as [parent|]; [|by auto with sim].
  apply answers_bind; [by auto with sim|]. intros pnumber _.
  do 2 (case_match; [by auto with sim|]).
  destruct (Number header) as [m|] eqn:Hm; [|done]. injection Hn as <-.
  apply (aura_verifySeal_answers _ m); [done|by apply Z.eqb_neq].
Qed.

Lemma aura_seal_spec_iff header :
  rotation_ok config → is_u64 (Time header) →
  seal_spec header = Ok tt ↔
  ∃ signer, author_of header = Ok signer ∧
    authority_of_slot config (slot config (Time header)) = Some signer.
Proof.
  intros Hok Ht. unfold seal_spec. destruct (author_of header) as [signer|err|p]; cbn [mbind result_bind];
    [|split; [done|by intros (? & ? & _)]..].
  destruct (inTurn_run config signer (Time header) Hok Ht) as (a & Ha & ->). cbn [mbind result_bind].
  rewrite guard_ok, negb_false_iff, Z.eqb_eq, Ha. split; [intros [-> _]; eauto|].
  by intros (? & [= <-] & [= ->]).
Qed.

Lemma aura_verify_spec_iff now header parents m :
  rotation_ok config → is_u64 (Time header) → Number header = Some m → wrap64 m ≠ 0 →
  verify_spec now header parents = Ok tt ↔
  fields_ok now header ∧
  (∃ parent, parent_of chain header (wrap64 m) parents = Some parent ∧ follows parent header (wrap64 m)) ∧
  ∃ signer, author_of header = Ok signer ∧
    authority_of_slot config (slot config (Time header)) = Some signer.
Proof.
  intros Hok Ht Hm Hnz. rewrite <- aura_seal_spec_iff, <- (aura_check_header_fields_iff _ _ m) by done.
  unfold verify_spec. destruct (check_header_fields _ now header) as [[]|err|p]; cbn [mbind result_bind];
    [|split; [done|by intros [? _]]..].
  rewrite Hm. cbn [Uint64 mbind result_bind]. rewrite (proj2 (Z.eqb_neq _ _) Hnz).
  destruct (parent_of _ _ _ _) as [parent|]; [|split; [done|by intros (_ & (? & ? & _) & _)]].
  destruct (Number parent) as [n|] eqn:Hp; cbn [Uint64 mbind result_bind].
  - rewrite !guard_ok, orb_false_iff, !negb_false_iff, !Z.eqb_eq, Z.ltb_ge. split.
    + intros ([Hn Hh] & Hti & Hs). split_and!; try done. exists parent. split; [done|]. split; eauto.
    + intros (_ & (? & [= <-] & [(n' & Hn' & Hw) Hh Hti]) & Hs). rewrite Hp in Hn'. by simplify_eq.
  - split; [done|]. intros (_ & (? & [= <-] & [(n' & Hn' & Hw) _ _]) & _). congruence.
Qed.

(** an Aura node, whatever its signature cache holds, accepts a block above
    the genesis block exactly when the fields are as [Prepare] fills them, it
    follows its parent by at least one period, and it carries the signature of
    the one authority whose slot its timestamp falls in. *)
Theorem verifyHeader_accepts_iff now header parents m e :
  signatures_ok e → rotation_ok config → is_u64 (Time header) → Number header = Some m → wrap64 m ≠ 0 →
  (verifyHeader chain config chain_config now header parents e).1 = Ok tt ↔
  fields_ok now header ∧
  (∃ parent, parent_of chain header (wrap64 m) parents = Some parent ∧ follows parent header (wrap64 m)) ∧
  ∃ signer, author_of header = Ok signer ∧
    authority_of_slot config (slot config (Time header)) = Some signer.
Proof.
  intros He Hok Ht Hm Hnz. destruct (aura_verifyHeader_answers now header parents e He) as [-> _].
  by apply aura_verify_spec_iff.
Qed.
End verify.

(** * Mining *)
Section mining.
Context `{CollisionFree} `{BlockDigests}.
Context {RC SC : Type} `{CacheLaws Hash Snapshot RC} `{CacheLaws Hash Address SC}.
Context {CH : Type} `{ChainReader CH} (chain : CH).
Context (config chain_config : AuraConfig).
Implicit Types (header parent h : Header) (parents : list Header) (e : Engine RC SC).

(** The time [Prepare] gives a block. *)
Definition block_time (now : Z) parent : Z :=
  let time := (Time parent + au_Period config)%u64 in if time <? now then now else time.

(** A header whose consensus fields are filled in. *)
Record prepared (now : Z) parent header h : Prop := {
  prep_parent : ParentHash h = ParentHash header;
  prep_number : Number h = Number header;
  prep_difficulty : Difficulty h = au_Difficulty chain_config;
  prep_extra : length (Extra h) = (extraVanity + extraSeal)%nat;
  prep_mix : MixDigest h = zero_hash;
  prep_time : Time h = block_time now parent
}.

Lemma aura_keeps_limits now header h :
  is_Some (au_Difficulty chain_config) → Prepare chain config chain_config now header = Ok h → keeps_limits header h.
Proof.
  intros Hd. unfold Prepare. cbv zeta. destruct (Uint64 _) as [number| |]; [|done..]. cbn [mbind result_bind].
  destruct (GetHeader _ _ _); [|done]. intros [= <-]. by split.
Qed.

Lemma aura_Prepare_ok now header parent m :
  Number header = Some m → GetHeader chain (ParentHash header) (wrap64 m - 1)%u64 = Some parent →
  ∃ h, Prepare chain config chain_config now header = Ok h ∧ prepared now parent header h.
Proof.
  intros Hm Hp. unfold Prepare. cbn [Number ParentHash with_Extra with_Difficulty with_Nonce with_Coinbase].
  rewrite Hm. cbn [Uint64 mbind result_bind ParentHash with_MixDigest with_Extra with_Difficulty with_Nonce with_Coinbase].
  rewrite Hp. eexists; split; [done|]. split; try done. cbn [Extra with_Time with_MixDigest with_Extra].
  by rewrite length_app, vanity_length, length_replicate.
Qed.

Lemma aura_Finalize_ok root txs receipts now parent header h m d :
  prepared now parent header h → Number header = Some m → au_Difficulty chain_config = Some d →
  ∃ block, Finalize root h txs receipts = Ok block ∧
    prepared now parent header (block_header block) ∧ CopyHeader (block_header block) = block_header block ∧
    UncleHash (block_header block) = CalcUncleHash [] ∧ block_transactions block = txs ∧
    Root (block_header block) = root.
Proof.
  intros [Hp Hn Hd Hx Hmix Ht] Hm Hdiff. unfold Finalize, NewBlock.
  assert (∃ bloom, match receipts with [] => mret (Bloom (CopyHeader
    (with_UncleHash (with_Root h root) (CalcUncleHash [])))) | _ => CreateBloom receipts end = Ok bloom) as [bloom ->].
  { destruct receipts; [by eexists|]. by rewrite CreateBloom_run; eexists. }
  eexists; split; [done|]. split; [|done]. split; cbn; try done.
  - by rewrite Hn, Hm.
  - by rewrite Hd, Hdiff.
Qed.

(** What [Seal] answers, by the authority of the block's slot. *)
Lemma aura_Seal_run now signFn block e m :
  rotation_ok config → is_u64 (Time (block_header block)) → CopyHeader (block_header block) = block_header block →
  Number (block_header block) = Some m → wrap64 m ≠ 0 →
  Seal config now signFn block e =
    if bool_decide (authority_of_slot config (slot config (Time (block_header block))) = Some (eSigner e))
    then (sig ← lift (encodeSigHeader (block_header block));
          match signFn (eSigner e) sig with
          | None => throw errSigning
          | Some sighash =>
              mret (WithSeal block (put_seal (block_header block) sighash),
                    Z.max 0 (wrap_i64 (ToDuration (Time (block_header block)) - ToDuration now)))
          end) e
    else (Err errUnauthorized, e).
Proof.
  intros Hok Ht Hcopy Hm Hnz. unfold Seal. rewrite Hcopy, Hm.
  unfold mbind at 1, gom_bind at 1, lift at 1. cbn [Uint64]. rewrite (proj2 (Z.eqb_neq _ _) Hnz).
  assert ((au_Period config =? 0) = false) as -> by (apply Z.eqb_neq; pose proof (rot_period _ Hok); lia).
  cbn [andb]. unfold mbind at 1, gom_bind at 1, get_state at 1. cbv zeta.
  unfold mbind at 1, gom_bind at 1, lift at 1.
  destruct (inTurn_run config (eSigner e) _ Hok Ht) as (a & -> & ->).
  destruct (eSigner e =? a) eqn:Heq; cbn [negb].
  - apply Z.eqb_eq in Heq as ->. by rewrite bool_decide_true.
  - apply Z.eqb_neq in Heq. rewrite bool_decide_false by congruence. done.
Qed.

(** C24: on top of a known parent [Prepare] and [Finalize] succeed; [Seal] then
    produces a block if the miner is the authority of the block's slot, and
    declines otherwise; the sealed block is accepted by every node whose clock
    has reached its timestamp, with the miner as its author. *)
Theorem aura_honest_block_accepted now now' signFn root txs receipts header parent m n d e :
  signatures_ok e → rotation_ok config → Number header = Some m → wrap64 m ≠ 0 →
  GetHeader chain (ParentHash header) (wrap64 m - 1)%u64 = Some parent →
  Header_Hash parent = ParentHash header → Number parent = Some n → wrap64 n = (wrap64 m - 1)%u64 →
  au_Difficulty chain_config = Some d → is_u64 now → honest_key signFn (eSigner e) →
  ∃ h block,
    Prepare chain config chain_config now header = Ok h ∧ Time h = block_time now parent ∧
    Finalize root h txs receipts = Ok block ∧
    if bool_decide (authority_of_slot config (slot config (block_time now parent)) = Some (eSigner e)) then
      ∃ sealed delay, Seal config now' signFn block e = (Ok (sealed, delay), e) ∧
        0 ≤ delay ∧ block_transactions sealed = txs ∧ Root (block_header sealed) = root ∧
        author errMissingSignature errCrypto (block_header sealed) = Ok (eSigner e) ∧
        ∀ later (other : Engine RC SC), block_time now parent ≤ later → signatures_ok other →
          (verifyHeader chain config chain_config later (block_header sealed) [] other).1 = Ok tt
    else Seal config now' signFn block e = (Err errUnauthorized, e).
Proof.
  intros He Hok Hm Hnz Hget Hhash Hn Hnw Hd Hnow Hkey.
  destruct (aura_Prepare_ok now header parent m Hm Hget) as (h & Hrun & Hprep).
  destruct (aura_Finalize_ok root txs receipts _ _ _ _ m d Hprep Hm Hd) as (block & Hfin & Hprep' & Hcopy & Hunc & Htxs & Hroot).
  exists h, block. split; [done|]. split; [apply Hprep|]. split; [done|].
  destruct Hprep' as [Hp' Hn' Hd' Hx' Hmix' Ht']. rewrite <- Ht'.
  assert (is_u64 (Time (block_header block))) as Htu.
  { rewrite Ht'. unfold block_time. case_match; [done|apply wrap64_range]. }
  rewrite (aura_Seal_run now' signFn block e m) by (try done; congruence).
  case_bool_decide as Hslot; [|done].
  assert (∃ sig, encodeSigHeader (E := aura_error) (block_header block) = Ok sig) as [sig Henc].
  { unfold encodeSigHeader. rewrite bool_decide_false by lia. by eexists. }
  destruct (Hkey sig) as (sighash & b & pubkey & Hsign & Hsl & Hrec & Haddr).
  unfold mbind, gom_bind, lift. rewrite Henc, Hsign.
  assert (author errMissingSignature errCrypto (put_seal (block_header block) sighash) = Ok (eSigner e)) as Hauth
    by (by rewrite (author_put_seal _ _ _ _ _ _ _ Henc Hsl Hrec), Haddr).
  do 2 eexists; split; [done|]. split; [lia|]. split; [exact Htxs|]. split; [exact Hroot|]. split; [exact Hauth|].
  intros later other Hlater Hother.
  destruct (aura_verifyHeader_answers chain config chain_config later
    (block_header (WithSeal block (put_seal (block_header block) sighash))) [] other Hother) as [-> _].
  apply (aura_verify_spec_iff chain config chain_config _ _ _ m); [done|done|by cbn; congruence|done|].
  split; [|split].
  - split; cbn [WithSeal block_header]; [done| |done|done|].
    + rewrite put_seal_extra, length_app, length_take by lia. lia.
    + exists d. cbn. by rewrite Hd', Hd.
  - exists parent. split; [cbn; by rewrite Hp'|]. split; [by exists n|cbn; congruence|].
    cbn. rewrite Ht'. unfold block_time. destruct (_ <? now) eqn:Hlt; [apply Z.ltb_lt in Hlt; lia|lia].
  - by exists (eSigner e).
Qed.
End mining.

(** * Snapshots *)
Section snapshots.
Context `{CollisionFree}.
Context {RC SC : Type} `{CacheLaws Hash Snapshot RC} `{CacheLaws Hash Address SC}.
Context {CH : Type} `{ChainReader CH} (chain : CH).
Context (config : AuraConfig).
Implicit Types (header : Header) (headers parents : list Header) (s snap : Snapshot) (e : Engine RC SC) (c : SC).

Lemma settle_vote_no_tally s number a : sTally s = ∅ → settle_vote s number a = s.
Proof.
  intros Ht. unfold settle_vote. rewrite Ht, lookup_empty. cbn [default tVotes].
  by rewrite (proj2 (Z.ltb_ge _ _)) by (apply Z.div_pos; lia).
Qed.

(** A snapshot no vote was counted in. *)
Definition quiet s : Prop := sVotes s = [] ∧ sTally s = ∅.

Lemma apply_header_quiet snap header c snap' c' :
  quiet snap → apply_header config snap header c = (Ok snap', c') →
  quiet snap' ∧ sSigners snap' = sSigners snap.
Proof.
  intros [Hv Ht] Hrun. unfold apply_header in Hrun. go_inv_all. unfold lift in *.
  match goal with |- context [expire_recent (reset_votes ?b snap) ?n] =>
    assert (quiet (expire_recent (reset_votes b snap) n) ∧
            sSigners (expire_recent (reset_votes b snap) n) = sSigners snap) as [[Hv' Ht'] HS]
      by (unfold expire_recent, reset_votes; by repeat case_match);
    set (chk := expire_recent (reset_votes b snap) n) in *
  end.
  rewrite settle_vote_no_tally; unfold discard_vote; cbn [sVotes set_Recents]; rewrite Hv'; [|done].
  by split.
Qed.

Lemma apply_headers_quiet snap headers c snap' c' :
  quiet snap → apply_headers config snap headers c = (Ok snap', c') →
  quiet snap' ∧ sSigners snap' = sSigners snap.
Proof.
  revert snap c. induction headers as [|header headers IH]; intros snap c Hq Hrun; cbn in Hrun.
  - go_inv_all. done.
  - apply gom_bind_ok in Hrun as (snap1 & c1 & Hstep & Hrun).
    apply apply_header_quiet in Hstep as [Hq1 HS1]; [|done].
    apply IH in Hrun as [Hq' HS']; [|done]. by rewrite HS', HS1.
Qed.

(** With the vote casting commented out, no sequence of headers ever
    changes the signers of a snapshot in which no vote was counted. *)
Theorem apply_keeps_signers s headers c s' c' :
  quiet s → apply config s headers c = (Ok s', c') → quiet s' ∧ sSigners s' = sSigners s.
Proof.
  intros Hq. unfold apply. destruct headers as [|first rest]; intros Hrun; [by go_inv_all|].
  apply gom_bind_ok in Hrun as ([] & c0 & _ & Hrun). apply gom_bind_ok in Hrun as (n0 & c1 & _ & Hrun).
  destruct (negb _); [done|]. apply gom_bind_ok in Hrun as (snap & c2 & Hrun & Hend).
  apply apply_headers_quiet in Hrun as [Hq' HS']; [|done]. by injection Hend as <- <-.
Qed.

(** The snapshot cache as [New] makes it. *)
Definition no_snapshots e : Prop := ∀ hash s, ¬ cache_holds (eRecents e) hash s.

(** Walking back from this block leaves the chain after [k] headers. *)
Inductive leaves_chain : Z → Hash → nat → Prop :=
  | leaves_now number hash : GetHeader chain hash number = None → leaves_chain number hash 0
  | leaves_later number hash header k :
      GetHeader chain hash number = Some header →
      leaves_chain (number - 1)%u64 (ParentHash header) k → leaves_chain number hash (S k).

Lemma recents_Get_none hash e :
  no_snapshots e → ∃ e', recents_Get hash e = (Ok None, e') ∧ no_snapshots e'.
Proof.
  intros He. unfold recents_Get. destruct (cache_get hash (eRecents e)) as [[s|] rc] eqn:Hget.
  - by apply cache_get_sound in Hget as Hs%He.
  - eexists; split; [done|]. intros h s Hs. apply (He h s), (cache_get_holds hash). by rewrite Hget.
Qed.

Lemma find_snapshot_none fuel number hash parents headers e :
  no_snapshots e →
  ∃ r e', find_snapshot chain fuel number hash parents headers e = (r, e') ∧ no_snapshots e' ∧
    (∀ found, r ≠ Ok found) ∧
    ∀ k, parents = [] → leaves_chain number hash k → (k < fuel)%nat → r = Err ErrUnknownAncestor.
Proof.
  revert number hash parents headers e. induction fuel as [|fuel IH]; intros number hash parents headers e He.
  { exists (Panic OutOfFuel), e. split_and!; [done..|]. intros; lia. }
  cbn [find_snapshot]. destruct (recents_Get_none hash e He) as (e1 & Hget & He1).
  rewrite (gom_bind_run _ _ _ _ _ Hget). unfold mbind at 1, gom_bind at 1, lift at 1.
  destruct (next_header chain number hash parents) as [[header parents']|err|p] eqn:Hnext.
  - destruct (IH (number - 1)%u64 (ParentHash header) parents' (headers ++ [header]) e1 He1)
      as (r & e' & Hrun & He' & Hno & Hlost).
    exists r, e'. split_and!; [done..|]. intros k -> Hk Hfuel. unfold next_header in Hnext. cbn [last] in Hnext.
    destruct Hk as [number hash Hnone|number hash h k Hsome Hk].
    + by rewrite Hnone in Hnext.
    + rewrite Hsome in Hnext. injection Hnext as -> <-. apply (Hlost k); [done|done|lia].
  - exists (Err err), e1. split_and!; [done..|]. intros k -> Hk Hfuel. unfold next_header in Hnext. cbn [last] in Hnext.
    destruct (GetHeader chain hash number); [done|]. by injection Hnext as ->.
  - exists (Panic p), e1. split_and!; [done..|]. intros k -> Hk Hfuel. unfold next_header in Hnext. cbn [last] in Hnext.
    by destruct (GetHeader chain hash number).
Qed.

(** an Aura engine never builds a snapshot: from the cache [New] makes, no
    call of [snapshot] succeeds and none fills the cache, and on a chain it can
    walk to the end it answers "unknown ancestor".  So the snapshot and signer
    queries of the RPC interface always fail. *)
Theorem snapshot_never_available fuel number hash parents e :
  no_snapshots e →
  ∃ r e', snapshot chain config fuel number hash parents e = (r, e') ∧ no_snapshots e' ∧
    (∀ snap, r ≠ Ok snap) ∧
    ∀ k, parents = [] → leaves_chain number hash k → (k < fuel)%nat → r = Err ErrUnknownAncestor.
Proof.
  intros He. unfold snapshot.
  destruct (find_snapshot_none fuel number hash parents [] e He) as (r & e' & Hrun & He' & Hno & Hlost).
  unfold mbind at 1, gom_bind at 1. rewrite Hrun. destruct r as [found|err|p]; [by destruct (Hno found)| |].
  - exists (Err err), e'. split_and!; [done..|]. intros k Hp Hk Hfuel. by injection (Hlost k Hp Hk Hfuel) as ->.
  - exists (Panic p), e'. split_and!; [done..|]. intros k Hp Hk Hfuel. by specialize (Hlost k Hp Hk Hfuel).
Qed.
End snapshots.
