(* ===== verification/StateDB.v ===== *)
(** The world state ([core/state/statedb.go], [state_object.go], [journal.go]):
    accounts loaded on demand from the account trie, modified through state
    objects, with a journal from which a revision can be restored.  The
    theorems are in [StateRevert.v] and [StateFinalise.v]. *)
From S2P Require Import Prelude Types Sealing Blocks.

(** ** The tries and the code store

    The account trie maps addresses to RLP-encoded accounts; [storage_read] is
    a lookup in the storage trie with the given root, zero when absent, and
    [storage_write] the root after writing the given slots.  The simulator's
    tries are complete in memory, so reads do not fail. *)
Record Account := mkAccount { aNonce : Z; aBalance : Z; aRoot : Hash; aCodeHash : Hash }.
#[export] Instance account_eq_dec : EqDecision Account.
Proof. solve_decision. Defined.

Class StateTrie (T : Type) := {
  TryGet : Address → T → option Account;
  TryUpdate : Address → Account → T → T;
  TryDelete : Address → T → T;
  trie_hash : T → Hash
}.
Class StateTrieLaws (T : Type) `{StateTrie T} := {
  TryGet_update a d t b : TryGet b (TryUpdate a d t) = if decide (b = a) then Some d else TryGet b t;
  TryGet_delete a t b : TryGet b (TryDelete a t) = if decide (b = a) then None else TryGet b t
}.
Class StateStore := {
  storage_read : Hash → Hash → Hash;
  storage_write : Hash → gmap Hash Hash → Hash;
  ContractCode : Hash → option (list byte);
  code_hash : list byte → Hash
}.
(** Reading back what was written. *)
Class StateStoreLaws `{StateStore} :=
  storage_read_write r m k : storage_read (storage_write r m) k = default (storage_read r k) (m !! k).
#[export] Instance gmap_trie : StateTrie (gmap Address Account) := {
  TryGet a t := t !! a;
  TryUpdate a d t := <[a := d]> t;
  TryDelete a t := delete a t;
  trie_hash t := Z.of_nat (size t)
}.
#[export] Instance gmap_trie_laws : StateTrieLaws (gmap Address Account).
Proof.
  split; cbn; intros; case_decide as Hb; subst;
    by rewrite ?lookup_insert_eq, ?lookup_insert_ne, ?lookup_delete_eq, ?lookup_delete_ne by done.
Qed.

(** ** State objects *)
Record stateObject := mkObject {
  oData : Account;
  oCode : option (list byte);
  oOrigin : gmap Hash Hash;
  oDirty : gmap Hash Hash;
  oDirtyCode : bool;
  oSuicided : bool;
  oDeleted : bool
}.

Inductive journalEntry :=
  | createObjectChange (account : Address)
  | resetObjectChange (account : Address) (prev : stateObject)
  | suicideChange (account : Address) (prev : bool) (prevbalance : Z)
  | balanceChange (account : Address) (prev : Z)
  | nonceChange (account : Address) (prev : Z)
  | storageChange (account : Address) (key prevalue : Hash)
  | codeChange (account : Address) (prevcode : option (list byte)) (prevhash : Hash)
  | refundChange (prev : Z)
  | addLogChange (txhash : Hash)
  | addPreimageChange (hash : Hash)
  | touchChange (account : Address).

(** [dirtied]; the object of a [resetObjectChange] carries its address in Go. *)
Definition dirtied (e : journalEntry) : option Address :=
  match e with
  | createObjectChange a | suicideChange a _ _ | balanceChange a _ | nonceChange a _
  | storageChange a _ _ | codeChange a _ _ | touchChange a => Some a
  | resetObjectChange _ _ | refundChange _ | addLogChange _ | addPreimageChange _ => None
  end.

Record StateDB (T : Type) := mkState {
  trie : T;
  stateObjects : gmap Address stateObject;
  stateObjectsDirty : gset Address;
  refund : Z;
  thash : Hash;
  bhash : Hash;
  txIndex : Z;
  logs : gmap Hash (list Log);
  logSize : Z;
  preimages : gmap Hash (list byte);
  entries : list journalEntry;
  dirties : gmap Address Z;
  validRevisions : list (Z * nat);
  nextRevisionId : Z
}.
Arguments mkState {T} _ _ _ _ _ _ _ _ _ _ _ _ _ _.
Arguments trie {T} _.
Arguments stateObjects {T} _.
Arguments stateObjectsDirty {T} _.
Arguments refund {T} _.
Arguments thash {T} _.
Arguments bhash {T} _.
Arguments txIndex {T} _.
Arguments logs {T} _.
Arguments logSize {T} _.
Arguments preimages {T} _.
Arguments entries {T} _.
Arguments dirties {T} _.
Arguments validRevisions {T} _.
Arguments nextRevisionId {T} _.

Definition ripemd : Address := 3.

Section statedb.
Context {T : Type} `{StateTrie T} `{StateStore}.
Implicit Types (s : StateDB T) (o : stateObject) (a : Address).

(** Field updates. *)
Definition set_trie s x : StateDB T := mkState x (stateObjects s) (stateObjectsDirty s) (refund s) (thash s) (bhash s) (txIndex s)
  (logs s) (logSize s) (preimages s) (entries s) (dirties s) (validRevisions s) (nextRevisionId s).
Definition set_stateObjects s x : StateDB T := mkState (trie s) x (stateObjectsDirty s) (refund s) (thash s) (bhash s) (txIndex s)
  (logs s) (logSize s) (preimages s) (entries s) (dirties s) (validRevisions s) (nextRevisionId s).
Definition set_stateObjectsDirty s x : StateDB T := mkState (trie s) (stateObjects s) x (refund s) (thash s) (bhash s) (txIndex s)
  (logs s) (logSize s) (preimages s) (entries s) (dirties s) (validRevisions s) (nextRevisionId s).
Definition set_refund s x : StateDB T := mkState (trie s) (stateObjects s) (stateObjectsDirty s) x (thash s) (bhash s) (txIndex s)
  (logs s) (logSize s) (preimages s) (entries s) (dirties s) (validRevisions s) (nextRevisionId s).
Definition set_tx s t b i : StateDB T := mkState (trie s) (stateObjects s) (stateObjectsDirty s) (refund s) t b i
  (logs s) (logSize s) (preimages s) (entries s) (dirties s) (validRevisions s) (nextRevisionId s).
Definition set_logs s l n : StateDB T := mkState (trie s) (stateObjects s) (stateObjectsDirty s) (refund s) (thash s) (bhash s)
  (txIndex s) l n (preimages s) (entries s) (dirties s) (validRevisions s) (nextRevisionId s).
Definition set_preimages s x : StateDB T := mkState (trie s) (stateObjects s) (stateObjectsDirty s) (refund s) (thash s) (bhash s)
  (txIndex s) (logs s) (logSize s) x (entries s) (dirties s) (validRevisions s) (nextRevisionId s).
Definition set_journal s x d : StateDB T := mkState (trie s) (stateObjects s) (stateObjectsDirty s) (refund s) (thash s) (bhash s)
  (txIndex s) (logs s) (logSize s) (preimages s) x d (validRevisions s) (nextRevisionId s).
Definition set_revisions s x n : StateDB T := mkState (trie s) (stateObjects s) (stateObjectsDirty s) (refund s) (thash s) (bhash s)
  (txIndex s) (logs s) (logSize s) (preimages s) (entries s) (dirties s) x n.

Definition set_oData o x : stateObject := mkObject x (oCode o) (oOrigin o) (oDirty o) (oDirtyCode o) (oSuicided o) (oDeleted o).
Definition set_oStorage o x y : stateObject := mkObject (oData o) (oCode o) x y (oDirtyCode o) (oSuicided o) (oDeleted o).
Definition set_oCode o c : stateObject := mkObject (oData o) c (oOrigin o) (oDirty o) (oDirtyCode o) (oSuicided o) (oDeleted o).
Definition set_oSuicided o b : stateObject := mkObject (oData o) (oCode o) (oOrigin o) (oDirty o) (oDirtyCode o) b (oDeleted o).
Definition set_oDeleted o b : stateObject := mkObject (oData o) (oCode o) (oOrigin o) (oDirty o) (oDirtyCode o) (oSuicided o) b.

(** ** Objects *)
Definition emptyCodeHash : Hash := code_hash [].
Definition newObject (data : Account) : stateObject := mkObject data None ∅ ∅ false false false.
(** [newObject(self, addr, Account{})]: nil balance and code hash are filled in. *)
Definition blank_object : stateObject := newObject (mkAccount 0 0 zero_hash emptyCodeHash).

Definition empty_object o : bool :=
  (aNonce (oData o) =? 0) && (aBalance (oData o) =? 0) && (aCodeHash (oData o) =? emptyCodeHash).

Definition setBalance o (x : Z) : stateObject :=
  set_oData o (mkAccount (aNonce (oData o)) x (aRoot (oData o)) (aCodeHash (oData o))).
Definition setNonce o (n : Z) : stateObject :=
  set_oData o (mkAccount n (aBalance (oData o)) (aRoot (oData o)) (aCodeHash (oData o))).
Definition setCode o (h : Hash) (code : option (list byte)) : stateObject :=
  mkObject (mkAccount (aNonce (oData o)) (aBalance (oData o)) (aRoot (oData o)) h) code (oOrigin o) (oDirty o)
    true (oSuicided o) (oDeleted o).
Definition setState o (key value : Hash) : stateObject := set_oStorage o (oOrigin o) (<[key := value]> (oDirty o)).

(** [GetCommittedState] caches what it reads. *)
Definition object_GetCommittedState o (key : Hash) : Hash * stateObject :=
  match oOrigin o !! key with
  | Some value => (value, o)
  | None =>
      let value := storage_read (aRoot (oData o)) key in
      (value, set_oStorage o (<[key := value]> (oOrigin o)) (oDirty o))
  end.
Definition object_GetState o (key : Hash) : Hash * stateObject :=
  match oDirty o !! key with
  | Some value => (value, o)
  | None => object_GetCommittedState o key
  end.
(** [Code] loads the code. *)
Definition object_Code o : option (list byte) * stateObject :=
  match oCode o with
  | Some c => (Some c, o)
  | None =>
      if aCodeHash (oData o) =? emptyCodeHash then (None, o)
      else let code := ContractCode (aCodeHash (oData o)) in (code, set_oCode o code)
  end.

(** ** The live set *)
Definition setStateObject a o s : StateDB T := set_stateObjects s (<[a := o]> (stateObjects s)).

(** [getStateObject] moves the account it loads into the live set. *)
Definition getStateObject a s : option stateObject * StateDB T :=
  match stateObjects s !! a with
  | Some o => if oDeleted o then (None, s) else (Some o, s)
  | None =>
      match TryGet a (trie s) with
      | None => (None, s)
      | Some data => let o := newObject data in (Some o, setStateObject a o s)
      end
  end.

Definition journal_append (e : journalEntry) s : StateDB T :=
  set_journal s (entries s ++ [e])
    (match dirtied e with
     | Some a => <[a := default 0 (dirties s !! a) + 1]> (dirties s)
     | None => dirties s
     end).
Definition journal_dirty a s : StateDB T :=
  set_journal s (entries s) (<[a := default 0 (dirties s !! a) + 1]> (dirties s)).

Definition createObject a s : stateObject * option stateObject * StateDB T :=
  let '(prev, s1) := getStateObject a s in
  let s2 := journal_append (match prev with
              | None => createObjectChange a
              | Some p => resetObjectChange a p
              end) s1 in
  (blank_object, prev, setStateObject a blank_object s2).

Definition GetOrNewStateObject a s : stateObject * StateDB T :=
  let '(o, s1) := getStateObject a s in
  match o with
  | Some o => (o, s1)
  | None => let '(o, _, s2) := createObject a s1 in (o, s2)
  end.

Definition CreateAccount a s : StateDB T :=
  let '(newObj, prev, s1) := createObject a s in
  match prev with
  | Some p => setStateObject a (setBalance newObj (aBalance (oData p))) s1
  | None => s1
  end.

(** ** Getters *)
Definition Exist a s : bool * StateDB T :=
  let '(o, s') := getStateObject a s in (bool_decide (is_Some o), s').
Definition Empty a s : bool * StateDB T :=
  let '(o, s') := getStateObject a s in (match o with None => true | Some o => empty_object o end, s').
Definition GetBalance a s : Z * StateDB T :=
  let '(o, s') := getStateObject a s in (match o with None => 0 | Some o => aBalance (oData o) end, s').
Definition GetNonce a s : Z * StateDB T :=
  let '(o, s') := getStateObject a s in (match o with None => 0 | Some o => aNonce (oData o) end, s').
Definition GetCodeHash a s : Hash * StateDB T :=
  let '(o, s') := getStateObject a s in (match o with None => zero_hash | Some o => aCodeHash (oData o) end, s').
Definition GetCode a s : option (list byte) * StateDB T :=
  let '(o, s') := getStateObject a s in
  match o with
  | None => (None, s')
  | Some o => let '(c, o') := object_Code o in (c, setStateObject a o' s')
  end.
Definition GetState a (key : Hash) s : Hash * StateDB T :=
  let '(o, s') := getStateObject a s in
  match o with
  | None => (zero_hash, s')
  | Some o => let '(v, o') := object_GetState o key in (v, setStateObject a o' s')
  end.
Definition GetCommittedState a (key : Hash) s : Hash * StateDB T :=
  let '(o, s') := getStateObject a s in
  match o with
  | None => (zero_hash, s')
  | Some o => let '(v, o') := object_GetCommittedState o key in (v, setStateObject a o' s')
  end.
Definition HasSuicided a s : bool * StateDB T :=
  let '(o, s') := getStateObject a s in (match o with None => false | Some o => oSuicided o end, s').
Definition GetRefund s : Z := refund s.
Definition GetLogs (h : Hash) s : list Log := default [] (logs s !! h).

(** ** Setters *)
Definition object_SetBalance a o (x : Z) s : StateDB T :=
  setStateObject a (setBalance o x) (journal_append (balanceChange a (aBalance (oData o))) s).
Definition touch a s : StateDB T :=
  let s1 := journal_append (touchChange a) s in
  if bool_decide (a = ripemd) then journal_dirty a s1 else s1.

Definition AddBalance a (amount : Z) s : StateDB T :=
  let '(o, s1) := GetOrNewStateObject a s in
  if amount =? 0 then (if empty_object o then touch a s1 else s1)
  else object_SetBalance a o (aBalance (oData o) + amount) s1.
Definition SubBalance a (amount : Z) s : StateDB T :=
  let '(o, s1) := GetOrNewStateObject a s in
  if amount =? 0 then s1 else object_SetBalance a o (aBalance (oData o) - amount) s1.
Definition SetBalance a (amount : Z) s : StateDB T :=
  let '(o, s1) := GetOrNewStateObject a s in object_SetBalance a o amount s1.
Definition SetNonce a (nonce : Z) s : StateDB T :=
  let '(o, s1) := GetOrNewStateObject a s in
  setStateObject a (setNonce o nonce) (journal_append (nonceChange a (aNonce (oData o))) s1).
Definition SetCode a (code : list byte) s : StateDB T :=
  let '(o, s1) := GetOrNewStateObject a s in
  let '(prevcode, o1) := object_Code o in
  setStateObject a (setCode o1 (code_hash code) (Some code))
    (journal_append (codeChange a prevcode (aCodeHash (oData o1))) s1).
Definition SetState a (key value : Hash) s : StateDB T :=
  let '(o, s1) := GetOrNewStateObject a s in
  let '(prev, o1) := object_GetState o key in
  if prev =? value then setStateObject a o1 s1
  else setStateObject a (setState o1 key value) (journal_append (storageChange a key prev) s1).
Definition Suicide a s : bool * StateDB T :=
  let '(o, s1) := getStateObject a s in
  match o with
  | None => (false, s1)
  | Some o =>
      (true, setStateObject a (setBalance (set_oSuicided o true) 0)
               (journal_append (suicideChange a (oSuicided o) (aBalance (oData o))) s1))
  end.

Definition AddRefund (gas : Z) s : StateDB T :=
  let s1 := journal_append (refundChange (refund s)) s in set_refund s1 (refund s1 + gas)%u64.
Definition SubRefund (gas : Z) s : Result unit (StateDB T) :=
  let s1 := journal_append (refundChange (refund s)) s in
  if refund s1 <? gas then Panic (ExplicitPanic "Refund counter below zero")
  else Ok (set_refund s1 (refund s1 - gas)%u64).

Definition stamp_log s (l : Log) : Log :=
  mkLog (lAddress l) (lTopics l) (lData l) (lBlockNumber l) (thash s) (txIndex s) (bhash s) (logSize s) (lRemoved l).
Definition AddLog (l : Log) s : StateDB T :=
  let s1 := journal_append (addLogChange (thash s)) s in
  set_logs s1 (<[thash s := default [] (logs s1 !! thash s) ++ [stamp_log s1 l]]> (logs s1)) (logSize s1 + 1).
Definition AddPreimage (h : Hash) (preimage : list byte) s : StateDB T :=
  match preimages s !! h with
  | Some _ => s
  | None => let s1 := journal_append (addPreimageChange h) s in
            set_preimages s1 (<[h := preimage]> (preimages s1))
  end.
Definition Prepare (th bh : Hash) (ti : Z) s : StateDB T := set_tx s th bh ti.

(** ** Reverting *)

(** Apply a change to a live object; a nil object panics. *)
Definition on_object a (f : stateObject → stateObject) s : Result unit (StateDB T) :=
  match getStateObject a s with
  | (Some o, s') => Ok (setStateObject a (f o) s')
  | (None, _) => Panic NilDereference
  end.

Definition entry_revert (e : journalEntry) s : Result unit (StateDB T) :=
  match e with
  | createObjectChange a =>
      Ok (set_stateObjectsDirty (set_stateObjects s (delete a (stateObjects s))) (stateObjectsDirty s ∖ {[a]}))
  | resetObjectChange a prev => Ok (setStateObject a prev s)
  | suicideChange a prev prevbalance =>
      match getStateObject a s with
      | (Some o, s') => Ok (setStateObject a (setBalance (set_oSuicided o prev) prevbalance) s')
      | (None, s') => Ok s'
      end
  | touchChange _ => Ok s
  | balanceChange a prev => on_object a (λ o, setBalance o prev) s
  | nonceChange a prev => on_object a (λ o, setNonce o prev) s
  | codeChange a prevcode prevhash => on_object a (λ o, setCode o prevhash prevcode) s
  | storageChange a key prevalue => on_object a (λ o, setState o key prevalue) s
  | refundChange prev => Ok (set_refund s prev)
  | addLogChange h =>
      let l := default [] (logs s !! h) in
      if bool_decide (length l = 1)%nat then Ok (set_logs s (delete h (logs s)) (logSize s - 1))
      else if bool_decide (length l = 0)%nat then Panic IndexOutOfRange
      else Ok (set_logs s (<[h := take (length l - 1) l]> (logs s)) (logSize s - 1))
  | addPreimageChange h => Ok (set_preimages s (delete h (preimages s)))
  end.

(** "Drop any dirty tracking induced by the change" *)
Definition undirty (e : journalEntry) (d : gmap Address Z) : gmap Address Z :=
  match dirtied e with
  | None => d
  | Some a => let n := default 0 (d !! a) - 1 in if n =? 0 then delete a d else <[a := n]> d
  end.

(** The loop of [journal.revert], over the entries to undo, last first. *)
Fixpoint undo (es : list journalEntry) s : Result unit (StateDB T) :=
  match es with
  | [] => Ok s
  | e :: es' =>
      s1 ← entry_revert e s;
      undo es' (set_journal s1 (entries s1) (undirty e (dirties s1)))
  end.
Definition journal_revert (snapshot : nat) s : Result unit (StateDB T) :=
  s1 ← undo (reverse (drop snapshot (entries s))) s;
  mret (set_journal s1 (take snapshot (entries s1)) (dirties s1)).

Definition Snapshot s : Z * StateDB T :=
  let id := nextRevisionId s in
  (id, set_revisions s (validRevisions s ++ [(id, length (entries s))]) (id + 1)).

(** [sort.Search]: the first index at which the id is large enough. *)
Fixpoint search_revision (revs : list (Z * nat)) (revid : Z) : nat :=
  match revs with
  | [] => O
  | (id, _) :: revs' => if revid <=? id then O else S (search_revision revs' revid)
  end.
Definition RevertToSnapshot (revid : Z) s : Result unit (StateDB T) :=
  let idx := search_revision (validRevisions s) revid in
  match validRevisions s !! idx with
  | None => Panic (ExplicitPanic "revision id cannot be reverted")
  | Some (id, snapshot) =>
      if negb (id =? revid) then Panic (ExplicitPanic "revision id cannot be reverted") else
      s1 ← journal_revert snapshot s;
      mret (set_revisions s1 (take idx (validRevisions s1)) (nextRevisionId s1))
  end.

(** ** Finalising *)

(** [updateTrie] then [updateRoot]: the dirty slots go to the storage trie. *)
Definition updateRoot o : stateObject :=
  let data := oData o in
  let changed := filter (λ kv : Hash * Hash, default zero_hash (oOrigin o !! kv.1) ≠ kv.2) (oDirty o) in
  mkObject (mkAccount (aNonce data) (aBalance data) (storage_write (aRoot data) changed) (aCodeHash data))
    (oCode o) (changed ∪ oOrigin o) ∅ (oDirtyCode o) (oSuicided o) (oDeleted o).
Definition updateStateObject a o s : StateDB T := set_trie s (TryUpdate a (oData o) (trie s)).
Definition deleteStateObject a o s : StateDB T :=
  setStateObject a (set_oDeleted o true) (set_trie s (TryDelete a (trie s))).

Definition finalise_one (deleteEmptyObjects : bool) s a : StateDB T :=
  match stateObjects s !! a with
  | None => s
  | Some o =>
      let s1 := if oSuicided o || (deleteEmptyObjects && empty_object o) then deleteStateObject a o s
                else let o' := updateRoot o in updateStateObject a o' (setStateObject a o' s) in
      set_stateObjectsDirty s1 ({[a]} ∪ stateObjectsDirty s1)
  end.
Definition clearJournalAndRefund s : StateDB T :=
  set_refund (set_revisions (set_journal s [] ∅) [] (nextRevisionId s)) 0.
Definition Finalise (deleteEmptyObjects : bool) s : StateDB T :=
  clearJournalAndRefund (foldl (finalise_one deleteEmptyObjects) s (elements (dom (dirties s)))).
Definition IntermediateRoot (deleteEmptyObjects : bool) s : Hash * StateDB T :=
  let s1 := Finalise deleteEmptyObjects s in (trie_hash (trie s1), s1).

(** ** Copies *)
Definition GetCodeSize a s : Z * StateDB T :=
  let '(o, s') := getStateObject a s in
  (match o with
   | None => 0
   | Some o => match oCode o with
               | Some c => Z.of_nat (length c)
               | None => Z.of_nat (length (default [] (ContractCode (aCodeHash (oData o)))))
               end
   end, s').

(** [Reset] to an opened trie. *)
Definition Reset (t : T) s : StateDB T :=
  clearJournalAndRefund (mkState t ∅ ∅ (refund s) zero_hash zero_hash 0 ∅ 0 ∅ (entries s) (dirties s)
    (validRevisions s) (nextRevisionId s)).

(** [Copy] takes the objects that were changed since the trie was opened; an
    address marked dirty without an object is a nil dereference. *)
Definition copy_journaled s : gmap Address stateObject :=
  filter (λ ao : Address * stateObject, is_Some (dirties s !! ao.1)) (stateObjects s).
Definition Copy s : Result unit (StateDB T) :=
  if decide (stateObjectsDirty s ⊆ dom (stateObjects s)) then
    let objects := copy_journaled s ∪ filter (λ ao : Address * stateObject, ao.1 ∈ stateObjectsDirty s) (stateObjects s) in
    Ok (mkState (trie s) objects (dom (copy_journaled s) ∪ stateObjectsDirty s) (refund s) zero_hash zero_hash 0
          (logs s) (logSize s) (preimages s) [] ∅ [] 0)
  else Panic NilDereference.
End statedb.

Definition New {T} (t : T) : StateDB T := mkState t ∅ ∅ 0 zero_hash zero_hash 0 ∅ 0 ∅ [] ∅ [] 0.
