(* ===== verification/StateRevert.v ===== *)
(** Reverting the world state: after any operations [RevertToSnapshot]
    restores what could be observed when the snapshot was taken. *)
From S2P Require Import Prelude Types Sealing Blocks StateDB.

(** * What can be observed of a state *)
Section observation.
Context {T : Type} `{StateTrie T} `{StateStore}.
Implicit Types (s t : StateDB T) (o p : stateObject) (a : Address).

Definition code_of o : option (list byte) := (object_Code o).1.
Definition committed_of o (key : Hash) : Hash := (object_GetCommittedState o key).1.
Definition storage_of o (key : Hash) : Hash := (object_GetState o key).1.

(** Two objects that no getter tells apart. *)
Record object_equiv o p : Prop := {
  oeq_data : oData o = oData p;
  oeq_code : code_of o = code_of p;
  oeq_committed key : committed_of o key = committed_of p key;
  oeq_storage key : storage_of o key = storage_of p key;
  oeq_suicided : oSuicided o = oSuicided p;
  oeq_deleted : oDeleted o = oDeleted p
}.
#[export] Instance object_equiv_equivalence : Equivalence object_equiv.
Proof.
  split; [by split|by intros o p []; split|].
  intros o p q [] []; split; intros; etransitivity; eauto.
Qed.

(** The object [getStateObject] answers. *)
Definition live a s : option stateObject := (getStateObject a s).1.

(** States that differ in caches and in the journal only. *)
Record state_equiv s t : Prop := {
  seq_live a : option_Forall2 object_equiv (live a s) (live a t);
  seq_trie : trie s = trie t;
  seq_refund : refund s = refund t;
  seq_tx : (thash s, bhash s, txIndex s) = (thash t, bhash t, txIndex t);
  seq_logs h : GetLogs h s = GetLogs h t;
  seq_logSize : logSize s = logSize t;
  seq_preimages : preimages s = preimages t
}.
#[export] Instance state_equiv_equivalence : Equivalence state_equiv.
Proof.
  split.
  - intros s. split; [|done..]. intros a. reflexivity.
  - intros s t []; split; [|done..]. intros a. by symmetry.
  - intros s t u [] []; split; intros; etransitivity; eauto.
Qed.

Lemma live_unfold a s :
  live a s = match stateObjects s !! a with
             | Some o => if oDeleted o then None else Some o
             | None => newObject <$> TryGet a (trie s)
             end.
Proof.
  unfold live, getStateObject. destruct (stateObjects s !! a) as [o|]; [by destruct (oDeleted o)|].
  by destruct (TryGet a (trie s)).
Qed.
Lemma live_set a b o s :
  live b (setStateObject a o s) = if decide (b = a) then (if oDeleted o then None else Some o) else live b s.
Proof.
  rewrite !live_unfold. cbn. case_decide as Hb; [subst; by rewrite lookup_insert_eq|].
  by rewrite lookup_insert_ne.
Qed.
Lemma live_not_deleted a s o : live a s = Some o → oDeleted o = false.
Proof.
  rewrite live_unfold. destruct (stateObjects s !! a) as [o'|].
  - destruct (oDeleted o') eqn:Hd; [done|]. by intros [= <-].
  - destruct (TryGet a (trie s)); [|done]. by intros [= <-].
Qed.

(** Replacing an object by an equivalent one, or by the one it had. *)
Lemma set_equiv a o s t :
  oDeleted o = false → option_Forall2 object_equiv (Some o) (live a t) → state_equiv s t →
  state_equiv (setStateObject a o s) t.
Proof.
  intros Hd Ho [Hl]. split; [|done..]. intros b. rewrite live_set. case_decide as Hb; [|apply Hl].
  subst. by rewrite Hd.
Qed.
Lemma set_proper a o p s t :
  object_equiv o p → state_equiv s t → state_equiv (setStateObject a o s) (setStateObject a p t).
Proof.
  intros Ho [Hl]. split; [|done..]. intros b. rewrite !live_set. case_decide; [|apply Hl].
  rewrite (oeq_deleted _ _ Ho). destruct (oDeleted p); by constructor.
Qed.
Lemma set_journal_equiv s es d : state_equiv (set_journal s es d) s.
Proof. by split; [intros a; rewrite !live_unfold; reflexivity|..]. Qed.
Lemma set_revisions_equiv s r n : state_equiv (set_revisions s r n) s.
Proof. by split; [intros a; rewrite !live_unfold; reflexivity|..]. Qed.

(** Loading an object changes nothing that can be observed. *)
Lemma getStateObject_run a s : ∃ s', getStateObject a s = (live a s, s') ∧ state_equiv s' s ∧
  entries s' = entries s ∧ dirties s' = dirties s ∧ validRevisions s' = validRevisions s ∧
  nextRevisionId s' = nextRevisionId s ∧ trie s' = trie s ∧
  (s' = s ∨ ∃ o, live a s = Some o ∧ s' = setStateObject a o s).
Proof.
  exists (getStateObject a s).2. unfold live. rewrite <- surjective_pairing. split; [done|].
  unfold getStateObject. destruct (stateObjects s !! a) as [o|] eqn:Ho.
  - destruct (oDeleted o); cbn; split_and!; try done; by left.
  - destruct (TryGet a (trie s)) as [data|] eqn:Hd; cbn; [|split_and!; [reflexivity|done..|by left]].
    split_and!; try done; [|right; by exists (newObject data)].
    apply set_equiv; [done| |reflexivity]. rewrite live_unfold, Ho, Hd. cbn. by constructor.
Qed.

(** ** Object updates respect equivalence *)
Definition object_proper (f : stateObject → stateObject) : Prop :=
  (∀ o p, object_equiv o p → object_equiv (f o) (f p)) ∧ ∀ o, oDeleted (f o) = oDeleted o.

Lemma committed_set_data o data key :
  aRoot data = aRoot (oData o) → committed_of (set_oData o data) key = committed_of o key.
Proof. intros Hr. unfold committed_of, object_GetCommittedState. cbn. by rewrite Hr; destruct (oOrigin o !! key). Qed.
Lemma storage_set_data o data key :
  aRoot data = aRoot (oData o) → storage_of (set_oData o data) key = storage_of o key.
Proof.
  intros Hr. unfold storage_of, object_GetState. cbn. destruct (oDirty o !! key); [done|].
  by apply committed_set_data.
Qed.
Lemma code_set_data o data :
  aCodeHash data = aCodeHash (oData o) → code_of (set_oData o data) = code_of o.
Proof. intros Hc. unfold code_of, object_Code. cbn. rewrite Hc. by destruct (oCode o); [|destruct (_ =? _)]. Qed.

Lemma setBalance_proper x : object_proper (λ o, setBalance o x).
Proof.
  split; [|done]. intros o p [Hd Hc Hcm Hst Hs Hdl]. unfold setBalance. split; cbn.
  - by rewrite Hd.
  - by rewrite !code_set_data.
  - intros key. by rewrite !committed_set_data.
  - intros key. by rewrite !storage_set_data.
  - done.
  - done.
Qed.
Lemma setNonce_proper x : object_proper (λ o, setNonce o x).
Proof.
  split; [|done]. intros o p [Hd Hc Hcm Hst Hs Hdl]. unfold setNonce. split; cbn.
  - by rewrite Hd.
  - by rewrite !code_set_data.
  - intros key. by rewrite !committed_set_data.
  - intros key. by rewrite !storage_set_data.
  - done.
  - done.
Qed.
Lemma code_suicided o b : code_of (set_oSuicided o b) = code_of o.
Proof. unfold code_of, object_Code. cbn. by destruct (oCode o); [|destruct (_ =? _)]. Qed.
Lemma committed_suicided o b key : committed_of (set_oSuicided o b) key = committed_of o key.
Proof. unfold committed_of, object_GetCommittedState. cbn. by destruct (oOrigin o !! key). Qed.
Lemma storage_suicided o b key : storage_of (set_oSuicided o b) key = storage_of o key.
Proof. unfold storage_of, object_GetState. cbn. destruct (oDirty o !! key); [done|]. apply committed_suicided. Qed.
Lemma setSuicided_proper b x : object_proper (λ o, setBalance (set_oSuicided o b) x).
Proof.
  destruct (setBalance_proper x) as [Hb Hd]. split; [|done]. intros o p Ho. apply Hb.
  destruct Ho as [Hd' Hc Hcm Hst Hs Hdl]. split; [exact Hd'| | | |done|exact Hdl].
  - by rewrite !code_suicided.
  - intros key. by rewrite !committed_suicided.
  - intros key. by rewrite !storage_suicided.
Qed.

Lemma storage_setState o key value k :
  storage_of (setState o key value) k = if decide (k = key) then value else storage_of o k.
Proof.
  unfold storage_of, object_GetState, setState, set_oStorage. cbn. case_decide as Hk.
  - subst. by rewrite lookup_insert_eq.
  - rewrite lookup_insert_ne by done. destruct (oDirty o !! k); [done|].
    unfold object_GetCommittedState. cbn. by destruct (oOrigin o !! k).
Qed.
Lemma committed_setState o key value k : committed_of (setState o key value) k = committed_of o k.
Proof. unfold committed_of, object_GetCommittedState, setState, set_oStorage. cbn. by destruct (oOrigin o !! k). Qed.
Lemma code_setState o key value : code_of (setState o key value) = code_of o.
Proof. unfold code_of, object_Code, setState, set_oStorage. cbn. by destruct (oCode o); [|destruct (_ =? _)]. Qed.

Lemma setState_proper key value : object_proper (λ o, setState o key value).
Proof.
  split; [|done]. intros o p [Hd Hc Hcm Hst Hs Hdl]. split; [exact Hd| | | |exact Hs|exact Hdl].
  - by rewrite !code_setState.
  - intros k. by rewrite !committed_setState.
  - intros k. by rewrite !storage_setState, Hst.
Qed.

Lemma code_setCode o h c :
  code_of (setCode o h c) = match c with Some _ => c | None => if h =? emptyCodeHash then None else ContractCode h end.
Proof. unfold code_of, object_Code, setCode. cbn. destruct c; [done|]. by destruct (_ =? _). Qed.
Lemma committed_setCode o h c key : committed_of (setCode o h c) key = committed_of o key.
Proof. unfold committed_of, object_GetCommittedState, setCode. cbn. by destruct (oOrigin o !! key). Qed.
Lemma storage_setCode o h c key : storage_of (setCode o h c) key = storage_of o key.
Proof.
  unfold storage_of, object_GetState. cbn. destruct (oDirty o !! key); [done|]. apply committed_setCode.
Qed.
Lemma setCode_proper h c : object_proper (λ o, setCode o h c).
Proof.
  split; [|done]. intros o p [Hd Hc Hcm Hst Hs Hdl]. split; [cbn; by rewrite Hd| | | |exact Hs|exact Hdl].
  - by rewrite !code_setCode.
  - intros k. by rewrite !committed_setCode.
  - intros k. by rewrite !storage_setCode.
Qed.
End observation.

(** * Undoing entries respects equivalence *)
Section undoing.
Context {T : Type} `{StateTrie T} `{StateStore}.
Implicit Types (s t : StateDB T) (o p : stateObject) (a : Address) (e : journalEntry).

Definition result_equiv (r1 r2 : Result unit (StateDB T)) : Prop :=
  match r1, r2 with
  | Ok s, Ok t => state_equiv s t
  | Err _, Err _ => True
  | Panic p, Panic q => p = q
  | _, _ => False
  end.

Lemma on_object_proper a f s t :
  object_proper f → state_equiv s t → result_equiv (on_object a f s) (on_object a f t).
Proof.
  intros [Hf Hfd] Hst. unfold on_object.
  destruct (getStateObject_run a s) as (s' & -> & Hs & _), (getStateObject_run a t) as (t' & -> & Ht & _).
  destruct (seq_live _ _ Hst a) as [o p Ho|]; [|done].
  cbn. apply set_proper; [by apply Hf|]. by rewrite Hs, Ht.
Qed.

(** Dropping an object leaves what the trie holds. *)
Definition drop_object a s : StateDB T :=
  set_stateObjectsDirty (set_stateObjects s (delete a (stateObjects s))) (stateObjectsDirty s ∖ {[a]}).
Lemma live_drop a b s :
  live b (drop_object a s) = if decide (b = a) then newObject <$> TryGet a (trie s) else live b s.
Proof.
  rewrite !live_unfold. cbn. case_decide as Hb; [subst; by rewrite lookup_delete_eq|].
  by rewrite lookup_delete_ne.
Qed.

Lemma entry_revert_proper e s t :
  state_equiv s t → result_equiv (entry_revert e s) (entry_revert e t).
Proof.
  intros Hst. destruct e as [a|a prev|a prev bal|a prev|a prev|a key prev|a prevcode prevhash|prev|h|h|a]; cbn [entry_revert].
  - fold (drop_object a s) (drop_object a t). split; try apply Hst. intros b. rewrite !live_drop.
    rewrite (seq_trie _ _ Hst). case_decide; [reflexivity|apply Hst].
  - by apply set_proper.
  - destruct (getStateObject_run a s) as (s' & -> & Hs & _), (getStateObject_run a t) as (t' & -> & Ht & _).
    destruct (seq_live _ _ Hst a) as [o p Ho|]; cbn; [|by rewrite Hs, Ht].
    apply set_proper; [by apply setSuicided_proper|]. by rewrite Hs, Ht.
  - apply on_object_proper; [apply setBalance_proper|done].
  - apply on_object_proper; [apply setNonce_proper|done].
  - apply on_object_proper; [apply setState_proper|done].
  - apply on_object_proper; [apply setCode_proper|done].
  - split; try apply Hst; [|done]. intros b. rewrite !live_unfold. cbn. rewrite <- !live_unfold. apply Hst.
  - pose proof (seq_logs _ _ Hst h) as Hl. unfold GetLogs in Hl. rewrite Hl, (seq_logSize _ _ Hst).
    assert (∀ m m' n, (∀ k, default [] (m !! k) = default [] (m' !! k)) →
      state_equiv (set_logs s m n) (set_logs t m' n)) as Hset.
    { intros m m' n Hm. split; try apply Hst; [|exact Hm|done].
      intros b. rewrite !live_unfold. cbn. rewrite <- !live_unfold. apply Hst. }
    case_bool_decide; [|case_bool_decide; [done|]]; apply Hset; intros k.
    + destruct (decide (k = h)) as [->|]; [by rewrite !lookup_delete_eq|].
      rewrite !lookup_delete_ne by done. apply (seq_logs _ _ Hst).
    + destruct (decide (k = h)) as [->|]; [by rewrite !lookup_insert_eq|].
      rewrite !lookup_insert_ne by done. apply (seq_logs _ _ Hst).
  - split; try apply Hst; [|by rewrite (seq_preimages _ _ Hst)].
    intros b. rewrite !live_unfold. cbn. rewrite <- !live_unfold. apply Hst.
  - done.
Qed.

Lemma undo_proper es s t : state_equiv s t → result_equiv (undo es s) (undo es t).
Proof.
  revert s t. induction es as [|e es IH]; intros s t Hst; cbn [undo]; [done|].
  pose proof (entry_revert_proper e s t Hst) as He.
  destruct (entry_revert e s) as [s1|?|?], (entry_revert e t) as [t1|?|?]; try done.
  cbn [mbind result_bind]. apply IH. by rewrite !set_journal_equiv.
Qed.

Lemma undo_app es1 es2 s : undo (es1 ++ es2) s = (s1 ← undo es1 s; undo es2 s1).
Proof.
  revert s. induction es1 as [|e es1 IH]; intros s; [done|]. cbn [undo app].
  destruct (entry_revert e s); [|done..]. cbn [mbind result_bind]. apply IH.
Qed.

(** Reverting entries leaves the revisions and the list of entries alone. *)
Lemma entry_revert_frame e s s' :
  entry_revert e s = Ok s' →
  entries s' = entries s ∧ dirties s' = dirties s ∧ validRevisions s' = validRevisions s ∧
  nextRevisionId s' = nextRevisionId s ∧ trie s' = trie s.
Proof.
  assert (∀ a f, on_object a f s = Ok s' → entries s' = entries s ∧ dirties s' = dirties s ∧
    validRevisions s' = validRevisions s ∧ nextRevisionId s' = nextRevisionId s ∧ trie s' = trie s) as Hon.
  { intros a f. unfold on_object. destruct (getStateObject_run a s) as (s1 & -> & _ & ? & ? & ? & ? & ? & _).
    destruct (live a s); [|done]. intros [= <-]. done. }
  destruct e; cbn [entry_revert]; try apply Hon; intros Hr; try (by injection Hr as <-).
  - destruct (getStateObject_run account s) as (s1 & Hs1 & _ & ? & ? & ? & ? & ? & _). rewrite Hs1 in Hr.
    destruct (live account s); by injection Hr as <-.
  - case_bool_decide; [by injection Hr as <-|]. case_bool_decide; [done|by injection Hr as <-].
Qed.
End undoing.

(** * Every operation journals its own undoing *)
Section journaling.
Context {T : Type} `{StateTrieLaws T} `{StateStore}.
Implicit Types (s t : StateDB T) (o p : stateObject) (a : Address) (e : journalEntry) (es : list journalEntry).

Definition changes_of a es : Z := Z.of_nat (length (filter (λ e, dirtied e = Some a) es)).
Definition entry_ok e : Prop := match e with resetObjectChange _ p => oDeleted p = false | _ => True end.

Definition deleted_gone s : Prop :=
  ∀ a o, stateObjects s !! a = Some o → oDeleted o = true → TryGet a (trie s) = None.

(** A deleted object is gone from the trie, and the dirty counts are those of
    the journal (but for the account touched on purpose). *)
Record state_inv s : Prop := {
  inv_deleted : deleted_gone s;
  inv_entries : Forall entry_ok (entries s);
  inv_dirties a : a ≠ ripemd →
    dirties s !! a = if decide (changes_of a (entries s) = 0) then None else Some (changes_of a (entries s))
}.

Definition same_revisions s s' : Prop :=
  validRevisions s' = validRevisions s ∧ nextRevisionId s' = nextRevisionId s.

(** The journal grew by entries whose undoing leads back. *)
Definition journaled s s' : Prop :=
  state_inv s →
  state_inv s' ∧ same_revisions s s' ∧
  ∃ es, entries s' = entries s ++ es ∧ ∃ s0, undo (reverse es) s' = Ok s0 ∧ state_equiv s0 s.

Lemma journaled_refl s : journaled s s.
Proof. intros Hi. split; [done|]. split; [done|]. exists []. rewrite app_nil_r. by split; [|exists s]. Qed.

Lemma journaled_trans s1 s2 s3 : journaled s1 s2 → journaled s2 s3 → journaled s1 s3.
Proof.
  intros H12 H23 Hi. destruct (H12 Hi) as (Hi2 & [Hv1 Hn1] & es1 & He1 & u1 & Hu1 & Hq1).
  destruct (H23 Hi2) as (Hi3 & [Hv2 Hn2] & es2 & He2 & u2 & Hu2 & Hq2).
  split; [done|]. split; [by split; congruence|]. exists (es1 ++ es2). split; [by rewrite He2, He1, app_assoc|].
  rewrite reverse_app, undo_app, Hu2. cbn [mbind result_bind].
  pose proof (undo_proper (reverse es1) u2 s2 Hq2) as Hp. rewrite Hu1 in Hp.
  destruct (undo (reverse es1) u2) as [u| |]; [|done..]. exists u. split; [done|]. by etransitivity.
Qed.

Lemma changes_of_snoc a es e : changes_of a (es ++ [e]) = changes_of a es + (if decide (dirtied e = Some a) then 1 else 0).
Proof.
  unfold changes_of. rewrite filter_app, length_app, filter_cons, filter_nil. case_decide; cbn; lia.
Qed.
Lemma changes_of_nonneg a es : 0 ≤ changes_of a es.
Proof. unfold changes_of. lia. Qed.

(** The dirty counts after an entry is appended. *)
Lemma inv_dirties_append s e a :
  state_inv s → a ≠ ripemd →
  dirties (journal_append e s) !! a =
    if decide (changes_of a (entries s ++ [e]) = 0) then None else Some (changes_of a (entries s ++ [e])).
Proof.
  intros [_ _ Hd] Ha. rewrite changes_of_snoc. pose proof (changes_of_nonneg a (entries s)) as Hnn.
  cbn. destruct (dirtied e) as [b|].
  - destruct (decide (b = a)) as [->|Hb].
    + rewrite lookup_insert_eq, (Hd a Ha). rewrite (decide_True (P := Some a = Some a)) by done.
      rewrite (decide_False (P := _ + 1 = 0)) by lia. case_decide; cbn; f_equal; lia.
    + rewrite lookup_insert_ne, (Hd a Ha) by done. rewrite (decide_False (P := Some b = Some a)) by congruence.
      by rewrite Z.add_0_r.
  - rewrite (Hd a Ha). rewrite (decide_False (P := None = Some a)) by done. by rewrite Z.add_0_r.
Qed.

(** One entry, and a state in which undoing it leads back. *)
Lemma journaled_entry s s' e u :
  entries s' = entries s ++ [e] → dirties s' = dirties (journal_append e s) → same_revisions s s' →
  (deleted_gone s → deleted_gone s') →
  entry_ok e → (state_inv s → entry_revert e s' = Ok u ∧ state_equiv u s) → journaled s s'.
Proof.
  intros He Hd Hr Hdel Hok Hu Hi. destruct (Hu Hi) as [Hrun Hq]. split; [|split; [done|]].
  - split; [apply Hdel, Hi|rewrite He; apply Forall_app_2; [apply Hi|by constructor]|].
    intros a Ha. rewrite Hd, He. by apply inv_dirties_append.
  - exists [e]. split; [done|]. cbn [reverse rev_append undo]. unfold reverse. cbn [rev_append undo].
    rewrite Hrun. cbn [mbind result_bind]. eexists; split; [done|]. by rewrite set_journal_equiv.
Qed.

Lemma deleted_gone_set s a o : deleted_gone s → oDeleted o = false → deleted_gone (setStateObject a o s).
Proof.
  intros Hi Ho b p Hb Hp. cbn in Hb. destruct (decide (b = a)) as [->|Hne].
  - rewrite lookup_insert_eq in Hb. injection Hb as <-. congruence.
  - rewrite lookup_insert_ne in Hb by done. by eapply Hi.
Qed.

Lemma journaled_load a s : journaled s (getStateObject a s).2.
Proof.
  intros Hi. destruct (getStateObject_run a s) as (s' & Hrun & Hq & He & Hd & Hv & Hn & Ht & Hor).
  rewrite Hrun. cbn. split; [|split; [done|]].
  - destruct Hor as [->|(o & Hl & ->)]; [done|]. split; [|apply Hi|apply Hi].
    apply deleted_gone_set; [apply Hi|by eapply live_not_deleted].
  - exists []. rewrite app_nil_r. by split; [|exists s'].
Qed.

(** Putting an object back. *)
Lemma set_restore a o o' p s s1 s2 :
  live a s = Some o → object_equiv p o → state_equiv s1 s → state_equiv s2 (setStateObject a o' s1) →
  state_equiv (setStateObject a p s2) s.
Proof.
  intros Hl Hp Hs1 [Hl2 Ht Hrf Htx Hlg Hls Hpi]. pose proof (live_not_deleted _ _ _ Hl) as Hd. split; try (etransitivity; [eassumption|apply Hs1]).
  - intros b. rewrite live_set. case_decide as Hb.
    + subst. rewrite (oeq_deleted _ _ Hp), Hd, Hl. by constructor.
    + rewrite (Hl2 b), live_set, decide_False by done. apply Hs1.
  - intros h. etransitivity; [apply Hlg|apply Hs1].
Qed.

(** Updating the object of one account, with an entry that updates it back. *)
Lemma journaled_update a o o' e f s :
  live a s = Some o → oDeleted o' = false → object_proper f → object_equiv (f o') o →
  dirtied e = Some a → (∀ t : StateDB T, entry_revert e t = on_object a f t) →
  journaled s (setStateObject a o' (journal_append e s)).
Proof.
  intros Hl Ho' [Hf Hfd] Hback Hdirty Hrev.
  set (s' := setStateObject a o' (journal_append e s)).
  destruct (getStateObject_run a s') as (s2 & Hrun & Hq & _).
  assert (live a s' = Some o') as Hl'.
  { unfold s'. rewrite live_set, decide_True, Ho' by done. done. }
  apply journaled_entry with (e := e) (u := setStateObject a (f o') s2); try done.
  - intros Hi. by apply deleted_gone_set.
  - by destruct e.
  - intros _. rewrite Hrev. unfold on_object. rewrite Hrun, Hl'. split; [done|].
    eapply set_restore; [exact Hl|exact Hback|apply set_journal_equiv|exact Hq].
Qed.

Lemma live_load a b s : option_Forall2 object_equiv (live b (getStateObject a s).2) (live b s).
Proof. destruct (getStateObject_run a s) as (s' & -> & [Hl] & _). apply Hl. Qed.

Lemma live_after_load a s : live a (getStateObject a s).2 = live a s.
Proof.
  destruct (getStateObject_run a s) as (s' & -> & _ & _ & _ & _ & _ & _ & [->|(o & Ho & ->)]); [done|].
  cbn. by rewrite live_set, decide_True, (live_not_deleted _ _ _ Ho) by done.
Qed.

Lemma absent_from_trie a s : state_inv s → live a s = None → TryGet a (trie s) = None.
Proof.
  intros Hi. rewrite live_unfold. destruct (stateObjects s !! a) as [o|] eqn:Ho.
  - destruct (oDeleted o) eqn:Hd; [|done]. intros _. by eapply (inv_deleted _ Hi).
  - by destruct (TryGet a (trie s)).
Qed.

(** Creating an object, once the previous one is loaded. *)
Lemma journaled_create a s prev o :
  live a s = prev → oDeleted o = false →
  journaled s (setStateObject a o
    (journal_append (match prev with None => createObjectChange a | Some p => resetObjectChange a p end) s)).
Proof.
  intros Hl Ho. destruct prev as [p|].
  - pose proof (live_not_deleted _ _ _ Hl) as Hp.
    eapply journaled_entry; try done; [by intros Hi; apply deleted_gone_set|]. intros _. split; [done|].
    apply (set_restore a p o p s (journal_append (resetObjectChange a p) s)); [done|reflexivity|apply set_journal_equiv|reflexivity].
  - eapply journaled_entry; try done; [by intros Hi; apply deleted_gone_set|]. intros Hi. split; [done|].
    match goal with |- state_equiv ?u _ => change u with (drop_object a (setStateObject a o
      (journal_append (createObjectChange a) s))) end.
    split; try done. intros b. rewrite live_drop, live_set. cbn.
    case_decide as Hb; [|by rewrite !live_unfold].
    subst. by rewrite (absent_from_trie a s Hi Hl), Hl.
Qed.

Lemma journaled_getOrNew a s :
  let '(o, s1) := GetOrNewStateObject a s in
  journaled s s1 ∧ live a s1 = Some o ∧ oDeleted o = false ∧
  o = default blank_object (live a s).
Proof.
  unfold GetOrNewStateObject. pose proof (journaled_load a s) as Hload. pose proof (live_after_load a s) as Hla.
  destruct (getStateObject_run a s) as (s1 & Hrun & _ & _). rewrite Hrun in *. cbn [snd] in *.
  destruct (live a s) as [o|] eqn:Hl.
  - split_and!; [done|done|by eapply live_not_deleted|done].
  - unfold createObject. pose proof (journaled_load a s1) as Hload1. pose proof (live_after_load a s1) as Hla1.
    destruct (getStateObject_run a s1) as (s2 & Hrun1 & _ & _). rewrite Hrun1, Hla in *. cbn [snd] in *.
    split_and!; [|by rewrite live_set, decide_True by done|done|done].
    eapply journaled_trans; [exact Hload|]. eapply journaled_trans; [exact Hload1|].
    by apply (journaled_create a s2 None).
Qed.

Lemma set_data_back o d :
  aRoot d = aRoot (oData o) → aCodeHash d = aCodeHash (oData o) →
  object_equiv (set_oData (set_oData o d) (oData o)) o.
Proof.
  intros Hr Hc. split; try done.
  - by rewrite !code_set_data.
  - intros key. by rewrite !committed_set_data.
  - intros key. by rewrite !storage_set_data.
Qed.
Lemma setBalance_back o x : object_equiv (setBalance (setBalance o x) (aBalance (oData o))) o.
Proof.
  replace (setBalance (setBalance o x) (aBalance (oData o))) with (set_oData (setBalance o x) (oData o))
    by (unfold setBalance; cbn; by destruct (oData o)).
  by apply set_data_back.
Qed.
Lemma setNonce_back o x : object_equiv (setNonce (setNonce o x) (aNonce (oData o))) o.
Proof.
  replace (setNonce (setNonce o x) (aNonce (oData o))) with (set_oData (setNonce o x) (oData o))
    by (unfold setNonce; cbn; by destruct (oData o)).
  by apply set_data_back.
Qed.
Lemma suicide_back o :
  object_equiv (setBalance (set_oSuicided (setBalance (set_oSuicided o true) 0) (oSuicided o)) (aBalance (oData o))) o.
Proof.
  assert (setBalance (set_oSuicided (setBalance (set_oSuicided o true) 0) (oSuicided o)) (aBalance (oData o)) = o)
    as -> by (destruct o as [[] ]; reflexivity).
  reflexivity.
Qed.
Lemma setState_back o key value : object_equiv (setState (setState o key value) key (storage_of o key)) o.
Proof.
  split; try done.
  - by rewrite !code_setState.
  - intros k. by rewrite !committed_setState.
  - intros k. rewrite !storage_setState. by case_decide; subst.
Qed.
Lemma setCode_back o h c : object_equiv (setCode (setCode o h c) (aCodeHash (oData o)) (code_of o)) o.
Proof.
  split; try done.
  - unfold setCode. cbn. by destruct (oData o).
  - rewrite code_setCode. unfold code_of, object_Code. destruct (oCode o); [done|].
    destruct (_ =? _); [done|]. cbn. by destruct (ContractCode _).
  - intros k. by rewrite !committed_setCode.
  - intros k. by rewrite !storage_setCode.
Qed.
End journaling.

(** * The operations *)
Section operations.
Context {T : Type} `{StateTrieLaws T} `{StateStore}.
Implicit Types (s t : StateDB T) (o p : stateObject) (a : Address).

(** Caching what was read into an object. *)
Lemma journaled_cache a o o' s :
  live a s = Some o → object_equiv o' o → journaled s (setStateObject a o' s).
Proof.
  intros Hl Ho Hi. pose proof (live_not_deleted _ _ _ Hl) as Hd. rewrite <- (oeq_deleted _ _ Ho) in Hd.
  split; [|split; [done|]].
  - split; [apply deleted_gone_set; [apply Hi|done]|apply Hi|apply Hi].
  - exists []. rewrite app_nil_r. split; [done|]. eexists; split; [done|].
    apply set_equiv; [done| |reflexivity]. rewrite Hl. by constructor.
Qed.

Lemma object_GetCommittedState_equiv o key : object_equiv (object_GetCommittedState o key).2 o.
Proof.
  unfold object_GetCommittedState. destruct (oOrigin o !! key) as [v|] eqn:Hv; [reflexivity|].
  assert (∀ k, committed_of (set_oStorage o (<[key:=storage_read (aRoot (oData o)) key]> (oOrigin o)) (oDirty o)) k =
               committed_of o k) as Hc.
  { intros k. unfold committed_of, object_GetCommittedState. cbn.
    destruct (decide (k = key)) as [->|]; [by rewrite lookup_insert_eq, Hv|]. rewrite lookup_insert_ne by done.
    by destruct (oOrigin o !! k). }
  split; try done.
  - unfold code_of, object_Code. cbn. by destruct (oCode o); [|destruct (_ =? _)].
  - intros k. specialize (Hc k). unfold storage_of, object_GetState. cbn in *. by destruct (oDirty o !! k).
Qed.
Lemma object_GetState_equiv o key : object_equiv (object_GetState o key).2 o.
Proof.
  unfold object_GetState. destruct (oDirty o !! key); [reflexivity|]. apply object_GetCommittedState_equiv.
Qed.
Lemma object_Code_equiv o : object_equiv (object_Code o).2 o.
Proof.
  unfold object_Code. destruct (oCode o) as [c|] eqn:Hc; [reflexivity|].
  destruct (aCodeHash (oData o) =? emptyCodeHash) eqn:He; [reflexivity|].
  split; try done.
  - unfold code_of, object_Code. cbn. rewrite Hc, He. cbn.
    destruct (ContractCode _) eqn:Hcc; cbn; by rewrite ?He, ?Hcc.
  - intros k. unfold committed_of, object_GetCommittedState. cbn. by destruct (oOrigin o !! k).
  - intros k. unfold storage_of, object_GetState, object_GetCommittedState. cbn.
    by destruct (oDirty o !! k), (oOrigin o !! k).
Qed.

Lemma journaled_SetBalance_object a o x s :
  live a s = Some o → journaled s (object_SetBalance a o x s).
Proof.
  intros Hl. eapply journaled_update; [exact Hl|exact (live_not_deleted _ _ _ Hl)|apply setBalance_proper| |done|done].
  apply setBalance_back.
Qed.

Lemma journaled_touch a s : journaled s (touch a s).
Proof.
  assert (journaled s (journal_append (touchChange a) s)) as Ht.
  { eapply journaled_entry; try done. intros _. split; [done|apply set_journal_equiv]. }
  unfold touch. case_bool_decide as Hr; [|done]. eapply journaled_trans; [exact Ht|].
  intros Hi. split; [|split; [done|]].
  - split; [apply Hi|apply Hi|]. intros b Hb. cbn. rewrite lookup_insert_ne by congruence. by apply Hi.
  - exists []. rewrite app_nil_r. split; [done|]. eexists; split; [done|]. apply set_journal_equiv.
Qed.

(** Solve a goal about an operation that works on the object of an account. *)
Ltac get_or_new a s :=
  pose proof (journaled_getOrNew a s) as Hget;
  destruct (GetOrNewStateObject a s) as [o s1]; destruct Hget as (Hget & Hl & Hdel & _);
  eapply journaled_trans; [exact Hget|].

Lemma journaled_AddBalance a x s : journaled s (AddBalance a x s).
Proof.
  unfold AddBalance. get_or_new a s. destruct (x =? 0); [|by apply journaled_SetBalance_object].
  destruct (empty_object o); [apply journaled_touch|apply journaled_refl].
Qed.
Lemma journaled_SubBalance a x s : journaled s (SubBalance a x s).
Proof.
  unfold SubBalance. get_or_new a s. destruct (x =? 0); [apply journaled_refl|by apply journaled_SetBalance_object].
Qed.
Lemma journaled_SetBalance a x s : journaled s (SetBalance a x s).
Proof. unfold SetBalance. get_or_new a s. by apply journaled_SetBalance_object. Qed.
Lemma journaled_SetNonce a x s : journaled s (SetNonce a x s).
Proof.
  unfold SetNonce. get_or_new a s.
  eapply journaled_update; [exact Hl|exact Hdel|apply setNonce_proper|apply setNonce_back|done|done].
Qed.
Lemma journaled_SetCode a code s : journaled s (SetCode a code s).
Proof.
  unfold SetCode. get_or_new a s. pose proof (object_Code_equiv o) as Hq.
  assert ((object_Code o).1 = code_of o) as Hc by done.
  destruct (object_Code o) as [prevcode o1]. cbn [fst snd] in *. subst prevcode.
  eapply journaled_update; [exact Hl| |apply setCode_proper| |done|done].
  - change (oDeleted (setCode o1 (code_hash code) (Some code))) with (oDeleted o1).
    by rewrite (oeq_deleted _ _ Hq).
  - rewrite <- (oeq_code _ _ Hq). etransitivity; [apply setCode_back|done].
Qed.
Lemma journaled_SetState a key value s : journaled s (SetState a key value s).
Proof.
  unfold SetState. get_or_new a s. pose proof (object_GetState_equiv o key) as Hq.
  assert ((object_GetState o key).1 = storage_of o key) as Hc by done.
  destruct (object_GetState o key) as [prev o1]. cbn [fst snd] in *. subst prev.
  destruct (_ =? value); [by apply (journaled_cache a o)|].
  eapply journaled_update; [exact Hl| |apply setState_proper| |done|done].
  - change (oDeleted (setState o1 key value)) with (oDeleted o1). by rewrite (oeq_deleted _ _ Hq).
  - rewrite <- (oeq_storage _ _ Hq). etransitivity; [apply setState_back|done].
Qed.
Lemma journaled_CreateAccount a s : journaled s (CreateAccount a s).
Proof.
  unfold CreateAccount, createObject. pose proof (journaled_load a s) as Hload. pose proof (live_after_load a s) as Hla.
  destruct (getStateObject_run a s) as (s1 & Hrun & _ & _). rewrite Hrun in *. cbn [snd] in *.
  eapply journaled_trans; [exact Hload|]. destruct (live a s) as [p|] eqn:Hl.
  - unfold setStateObject at 1. cbn. rewrite insert_insert_eq.
    change (journaled s1 (setStateObject a (setBalance blank_object (aBalance (oData p)))
      (journal_append (resetObjectChange a p) s1))).
    by apply (journaled_create a s1 (Some p)).
  - by apply (journaled_create a s1 None).
Qed.
Lemma journaled_Suicide a s : journaled s (Suicide a s).2.
Proof.
  unfold Suicide. pose proof (journaled_load a s) as Hload. pose proof (live_after_load a s) as Hla.
  destruct (getStateObject_run a s) as (s1 & Hrun & _ & _). rewrite Hrun in *. cbn [snd] in *.
  destruct (live a s) as [o|] eqn:Hl; cbn [snd]; [|exact Hload].
  eapply journaled_trans; [exact Hload|].
  pose proof (live_not_deleted _ _ _ Hl) as Hd.
  set (s2 := setStateObject a _ _).
  destruct (getStateObject_run a s2) as (s3 & Hrun2 & Hq2 & _).
  assert (live a s2 = Some (setBalance (set_oSuicided o true) 0)) as Hl2
    by (unfold s2; rewrite live_set, decide_True by done; cbn; by rewrite Hd).
  eapply journaled_entry with (e := suicideChange a (oSuicided o) (aBalance (oData o))); try done.
  - intros Hi. by apply deleted_gone_set.
  - intros _. cbn [entry_revert]. rewrite Hrun2, Hl2. split; [done|].
    eapply set_restore; [exact Hla|apply suicide_back|apply set_journal_equiv|exact Hq2].
Qed.
End operations.

(** * Sessions between a snapshot and its reversal *)
Inductive operation :=
  | OpExist (a : Address) | OpEmpty (a : Address) | OpGetBalance (a : Address) | OpGetNonce (a : Address)
  | OpGetCodeHash (a : Address) | OpHasSuicided (a : Address) | OpGetCode (a : Address)
  | OpGetState (a : Address) (key : Hash) | OpGetCommittedState (a : Address) (key : Hash)
  | OpCreateAccount (a : Address) | OpAddBalance (a : Address) (x : Z) | OpSubBalance (a : Address) (x : Z)
  | OpSetBalance (a : Address) (x : Z) | OpSetNonce (a : Address) (n : Z) | OpSetCode (a : Address) (code : list byte)
  | OpSetState (a : Address) (key value : Hash) | OpSuicide (a : Address)
  | OpAddRefund (gas : Z) | OpSubRefund (gas : Z) | OpAddLog (l : Log) | OpAddPreimage (h : Hash) (pre : list byte)
  | OpSnapshot | OpRevertToSnapshot (revid : Z).

Section sessions.
Context {T : Type} `{StateTrieLaws T} `{StateStore}.
Implicit Types (s t : StateDB T) (a : Address) (op : operation) (ops : list operation).

Definition run_op op s : Result unit (StateDB T) :=
  match op with
  | OpExist a => Ok (Exist a s).2
  | OpEmpty a => Ok (Empty a s).2
  | OpGetBalance a => Ok (GetBalance a s).2
  | OpGetNonce a => Ok (GetNonce a s).2
  | OpGetCodeHash a => Ok (GetCodeHash a s).2
  | OpHasSuicided a => Ok (HasSuicided a s).2
  | OpGetCode a => Ok (GetCode a s).2
  | OpGetState a key => Ok (GetState a key s).2
  | OpGetCommittedState a key => Ok (GetCommittedState a key s).2
  | OpCreateAccount a => Ok (CreateAccount a s)
  | OpAddBalance a x => Ok (AddBalance a x s)
  | OpSubBalance a x => Ok (SubBalance a x s)
  | OpSetBalance a x => Ok (SetBalance a x s)
  | OpSetNonce a n => Ok (SetNonce a n s)
  | OpSetCode a code => Ok (SetCode a code s)
  | OpSetState a key value => Ok (SetState a key value s)
  | OpSuicide a => Ok (Suicide a s).2
  | OpAddRefund gas => Ok (AddRefund gas s)
  | OpSubRefund gas => SubRefund gas s
  | OpAddLog l => Ok (AddLog l s)
  | OpAddPreimage h pre => Ok (AddPreimage h pre s)
  | OpSnapshot => Ok (Snapshot s).2
  | OpRevertToSnapshot revid => RevertToSnapshot revid s
  end.
Fixpoint run_ops ops s : Result unit (StateDB T) :=
  match ops with
  | [] => Ok s
  | op :: ops' => s1 ← run_op op s; run_ops ops' s1
  end.

(** Neither a snapshot nor a reversal. *)
Definition plain op : Prop := match op with OpSnapshot | OpRevertToSnapshot _ => False | _ => True end.

Lemma journaled_refund_entry x s :
  journaled s (set_refund (journal_append (refundChange (refund s)) s) x).
Proof.
  eapply journaled_entry with (e := refundChange (refund s)); try done. intros _. split; [done|].
  split; try done. intros b. by rewrite !live_unfold.
Qed.

Lemma journaled_AddLog l s : journaled s (AddLog l s).
Proof.
  unfold AddLog. cbv zeta. set (s1 := journal_append _ s).
  set (l' := stamp_log s1 l). set (old := default [] (logs s1 !! thash s)).
  set (s' := set_logs _ _ _).
  assert (∃ u, entry_revert (addLogChange (thash s)) s' = Ok u ∧ state_equiv u s) as (u & Hu & Hq).
  { cbn [entry_revert]. unfold s'. cbn [logs set_logs]. rewrite lookup_insert_eq. cbn [default id].
    rewrite length_app. cbn [length]. destruct old as [|x xs] eqn:Hold.
    - rewrite bool_decide_true by done. eexists; split; [done|]. split; try done; [|intros h|cbn; lia].
      + intros b. by rewrite !live_unfold.
      + unfold GetLogs. cbn. rewrite delete_insert_eq. destruct (decide (h = thash s)) as [->|].
        * rewrite lookup_delete_eq. symmetry. exact Hold.
        * by rewrite lookup_delete_ne.
    - rewrite bool_decide_false by (cbn; lia). rewrite bool_decide_false by (cbn; lia).
      eexists; split; [done|]. split; try done; [|intros h|cbn; lia].
      + intros b. by rewrite !live_unfold.
      + unfold GetLogs. cbn. rewrite insert_insert_eq. destruct (decide (h = thash s)) as [->|].
        * rewrite lookup_insert_eq. cbn [default id].
          replace (length xs + 1 - 0)%nat with (length (x :: xs)) by (cbn; lia).
          rewrite app_comm_cons, take_app_length. symmetry. exact Hold.
        * by rewrite lookup_insert_ne. }
  eapply journaled_entry with (e := addLogChange (thash s)) (u := u); try done.
Qed.

Lemma journaled_AddPreimage h pre s : journaled s (AddPreimage h pre s).
Proof.
  unfold AddPreimage. destruct (preimages s !! h) eqn:Hh; [apply journaled_refl|].
  eapply journaled_entry with (e := addPreimageChange h); try done. intros _. split; [done|].
  split; try done.
  - intros b. by rewrite !live_unfold.
  - cbn. rewrite delete_insert_eq. by apply delete_id.
Qed.

(** The getters load an object and may cache what they read in it. *)
Lemma journaled_getter {A} a (f : stateObject → A * stateObject) (none : A) s :
  (∀ o, object_equiv (f o).2 o) →
  journaled s (let '(o, s') := getStateObject a s in
               match o with
               | None => (none, s')
               | Some o => let '(v, o') := f o in (v, setStateObject a o' s')
               end).2.
Proof.
  intros Hf. pose proof (journaled_load a s) as Hload. pose proof (live_after_load a s) as Hla.
  destruct (getStateObject_run a s) as (s1 & Hrun & _ & _). rewrite Hrun in *. cbn [snd] in *.
  destruct (live a s) as [o|]; [|exact Hload]. eapply journaled_trans; [exact Hload|].
  specialize (Hf o). destruct (f o) as [v o']. by eapply journaled_cache.
Qed.

Lemma journaled_query {A} a (f : option stateObject → A) s :
  journaled s (let '(o, s') := getStateObject a s in (f o, s')).2.
Proof. pose proof (journaled_load a s) as Hload. by destruct (getStateObject a s). Qed.

Lemma journaled_plain op s s' : plain op → run_op op s = Ok s' → journaled s s'.
Proof.
  destruct op; intros Hp Hrun; cbn [run_op] in Hrun; try done; try injection Hrun as <-.
  all: try apply journaled_query.
  - apply journaled_getter, object_Code_equiv.
  - apply journaled_getter. intros o. apply object_GetState_equiv.
  - apply journaled_getter. intros o. apply object_GetCommittedState_equiv.
  - apply journaled_CreateAccount.
  - apply journaled_AddBalance.
  - apply journaled_SubBalance.
  - apply journaled_SetBalance.
  - apply journaled_SetNonce.
  - apply journaled_SetCode.
  - apply journaled_SetState.
  - apply journaled_Suicide.
  - apply journaled_refund_entry.
  - unfold SubRefund in Hrun. destruct (_ <? gas); [done|]. injection Hrun as <-. apply journaled_refund_entry.
  - apply journaled_AddLog.
  - apply journaled_AddPreimage.
Qed.

(** ** Reverting keeps the invariant *)
Definition dirties_match (d : gmap Address Z) es : Prop :=
  ∀ a, a ≠ ripemd → d !! a = if decide (changes_of a es = 0) then None else Some (changes_of a es).

Lemma undirty_match d es e : dirties_match d (es ++ [e]) → dirties_match (undirty e d) es.
Proof.
  intros Hd a Ha. specialize (Hd a Ha). rewrite changes_of_snoc in Hd. pose proof (changes_of_nonneg a es).
  unfold undirty. destruct (dirtied e) as [b|].
  - destruct (decide (b = a)) as [->|Hb].
    + rewrite (decide_True (P := Some a = Some a)) in Hd by done.
      rewrite (decide_False (P := _ + 1 = 0)) in Hd by lia. rewrite Hd. cbn [default id].
      replace (changes_of a es + 1 - 1) with (changes_of a es) by lia.
      destruct (changes_of a es =? 0) eqn:Hz; [apply Z.eqb_eq in Hz|apply Z.eqb_neq in Hz].
      * by rewrite lookup_delete_eq, decide_True.
      * by rewrite lookup_insert_eq, decide_False.
    + rewrite (decide_False (P := Some b = Some a)), Z.add_0_r in Hd by congruence.
      destruct (_ =? 0); [rewrite lookup_delete_ne by done|rewrite lookup_insert_ne by done]; done.
  - by rewrite (decide_False (P := None = Some a)), Z.add_0_r in Hd by done.
Qed.

Lemma on_object_gone a f s s' :
  object_proper f → deleted_gone s → on_object a f s = Ok s' → deleted_gone s'.
Proof.
  intros [_ Hf] Hg. unfold on_object.
  destruct (getStateObject_run a s) as (s1 & -> & _ & _ & _ & _ & _ & _ & Hor).
  destruct (live a s) as [o|] eqn:Hl; [|done]. intros [= <-].
  pose proof (live_not_deleted _ _ _ Hl) as Hd. apply deleted_gone_set; [|by rewrite Hf].
  destruct Hor as [->|(o' & [= <-] & ->)]; [done|by apply deleted_gone_set].
Qed.

Lemma entry_revert_gone e s s' :
  deleted_gone s → entry_ok e → entry_revert e s = Ok s' → deleted_gone s'.
Proof.
  intros Hg Hok. destruct e; cbn [entry_revert].
  - intros [= <-] b o. cbn. destruct (decide (b = account)) as [->|]; [by rewrite lookup_delete_eq|].
    rewrite lookup_delete_ne by done. apply Hg.
  - intros [= <-]. by apply deleted_gone_set.
  - destruct (getStateObject_run account s) as (s1 & -> & _ & _ & _ & _ & _ & _ & Hor).
    destruct (live account s) as [o|] eqn:Hl; intros [= <-].
    + pose proof (live_not_deleted _ _ _ Hl) as Hd. apply deleted_gone_set; [|done].
      destruct Hor as [->|(o' & [= <-] & ->)]; [done|by apply deleted_gone_set].
    + by destruct Hor as [->|(o' & ? & _)].
  - apply on_object_gone; [apply setBalance_proper|done].
  - apply on_object_gone; [apply setNonce_proper|done].
  - apply on_object_gone; [apply setState_proper|done].
  - apply on_object_gone; [apply setCode_proper|done].
  - by intros [= <-].
  - case_bool_decide; [by intros [= <-]|]. case_bool_decide; [done|by intros [= <-]].
  - by intros [= <-].
  - by intros [= <-].
Qed.

Lemma undo_inv es pre s s' :
  deleted_gone s → Forall entry_ok es → dirties_match (dirties s) (pre ++ reverse es) →
  undo es s = Ok s' →
  deleted_gone s' ∧ dirties_match (dirties s') pre ∧ entries s' = entries s ∧ same_revisions s s'.
Proof.
  revert s. induction es as [|e es IH]; intros s Hg Hok Hd Hrun; cbn [undo] in Hrun.
  - injection Hrun as <-. rewrite app_nil_r in Hd. done.
  - apply result_bind_ok in Hrun as (s1 & Hstep & Hrun). apply Forall_cons in Hok as [He Hok].
    destruct (entry_revert_frame _ _ _ Hstep) as (Hes & Hds & Hv & Hn & _).
    apply IH in Hrun as (Hg' & Hd' & Hes' & [Hv' Hn']); [|exact (entry_revert_gone e s s1 Hg He Hstep)|done|].
    + split_and!; [done|done|by rewrite Hes'|split; cbn in *; congruence].
    + cbn. apply undirty_match. rewrite Hds. by rewrite reverse_cons, app_assoc in Hd.
Qed.

Lemma journal_revert_inv n s s' :
  state_inv s → journal_revert n s = Ok s' →
  state_inv s' ∧ entries s' = take n (entries s) ∧ same_revisions s s'.
Proof.
  intros [Hg Hok Hd] Hrun. unfold journal_revert in Hrun. apply result_bind_ok in Hrun as (s1 & Hundo & Hend).
  injection Hend as <-. apply (undo_inv _ (take n (entries s))) in Hundo as (Hg' & Hd' & Hes & Hr); [|done| |].
  - rewrite <- Hes. split; [|by split]. split; [done| |].
    + cbn. rewrite Hes. by apply Forall_take.
    + intros a Ha. cbn. rewrite Hes. by apply Hd'.
  - apply Forall_reverse. by apply Forall_drop.
  - by rewrite reverse_involutive, take_drop.
Qed.

(** Revisions are numbered in order. *)
Record revisions_ok s : Prop := {
  rev_sorted : StronglySorted Z.lt (fst <$> validRevisions s);
  rev_next : Forall (λ r : Z * nat, r.1 < nextRevisionId s) (validRevisions s)
}.

Lemma search_revision_app l1 id n l2 :
  Forall (λ r : Z * nat, r.1 < id) l1 → search_revision (l1 ++ (id, n) :: l2) id = length l1.
Proof.
  induction 1 as [|[i m] l1 Hlt _ IH]; cbn.
  - by rewrite Z.leb_refl.
  - cbn in Hlt. rewrite (proj2 (Z.leb_gt _ _)) by lia. by rewrite IH.
Qed.

(** A session that began with snapshot [id] of [s0]. *)
Record session s0 (id : Z) s : Prop := {
  ses_inv : state_inv s;
  ses_revs : revisions_ok s;
  ses_stack : ∃ later, validRevisions s = validRevisions s0 ++ (id, length (entries s0)) :: later ∧
    Forall (λ r : Z * nat, id < r.1 ∧ (length (entries s0) ≤ r.2)%nat) later;
  ses_undo : ∃ es, entries s = entries s0 ++ es ∧ ∃ u, undo (reverse es) s = Ok u ∧ state_equiv u s0
}.

Lemma snapshot_session s0 :
  state_inv s0 → revisions_ok s0 → session s0 (nextRevisionId s0) (Snapshot s0).2.
Proof.
  intros [Hg He Hd] [Hs Hn]. split; [by split| | |].
  - split; cbn.
    + rewrite fmap_app. cbn. induction Hn as [|[i m] l Hlt Hn IH]; cbn in *; [by repeat constructor|].
      apply StronglySorted_inv in Hs as [Hs Hall]. constructor; [by apply IH|].
      apply Forall_app_2; [done|]. constructor; [done|constructor].
    + apply Forall_app_2; [|constructor; [cbn; lia|constructor]].
      eapply Forall_impl; [exact Hn|]. cbn. intros; lia.
  - by exists [].
  - exists []. rewrite app_nil_r. split; [done|]. eexists; split; [done|]. apply set_revisions_equiv.
Qed.

Lemma session_journaled s0 id s s' : session s0 id s → journaled s s' → session s0 id s'.
Proof.
  intros [Hi [Hs Hn] Hst (es & Hes & u & Hu & Hq)] Hj.
  destruct (Hj Hi) as (Hi' & [Hv Hnx] & es' & Hes' & u' & Hu' & Hq'). split; [done| | |].
  - split; [by rewrite Hv|by rewrite Hv, Hnx].
  - by rewrite Hv.
  - exists (es ++ es'). split; [by rewrite Hes', Hes, app_assoc|].
    rewrite reverse_app, undo_app, Hu'. cbn [mbind result_bind].
    pose proof (undo_proper (reverse es) u' s Hq') as Hp. rewrite Hu in Hp.
    destruct (undo (reverse es) u') as [v| |]; [|done..]. exists v. split; [done|]. by etransitivity.
Qed.

Lemma sorted_below l1 id n l2 :
  StronglySorted Z.lt (fst <$> (l1 ++ (id, n) :: l2)) → Forall (λ r : Z * nat, r.1 < id) l1.
Proof.
  induction l1 as [|[i m] l1 IH]; cbn; [constructor|]. intros [Hs Hall]%StronglySorted_inv.
  constructor; [|by apply IH]. cbn. eapply Forall_forall; [exact Hall|].
  apply list_elem_of_fmap. exists (id, n). split; [done|]. apply elem_of_app. right. by left.
Qed.

Lemma sorted_prefix (l1 l2 : list (Z * nat)) :
  StronglySorted Z.lt (fst <$> (l1 ++ l2)) → StronglySorted Z.lt (fst <$> l1).
Proof.
  induction l1 as [|r l1 IH]; cbn; [constructor|]. intros [Hs Hall]%StronglySorted_inv.
  constructor; [by apply IH|]. rewrite fmap_app in Hall. by apply Forall_app in Hall as [? _].
Qed.

(** Going back to a revision of the session. *)
Lemma RevertToSnapshot_run s l1 id n l2 :
  revisions_ok s → validRevisions s = l1 ++ (id, n) :: l2 →
  RevertToSnapshot id s = (s1 ← journal_revert n s; mret (set_revisions s1 (take (length l1) (validRevisions s1)) (nextRevisionId s1))).
Proof.
  intros [Hs _] Hl. unfold RevertToSnapshot. rewrite Hl in *.
  rewrite search_revision_app by (by eapply sorted_below).
  rewrite lookup_app_r, Nat.sub_diag by done. cbn. by rewrite Z.eqb_refl.
Qed.

Lemma session_nested s0 id s s' revid :
  session s0 id s → id < revid → RevertToSnapshot revid s = Ok s' → session s0 id s'.
Proof.
  intros [Hi Hr (later & Hl & Hlater) (es & Hes & u & Hu & Hq)] Hlt Hrun.
  assert (∃ l1 n l2, later = l1 ++ (revid, n) :: l2) as (l1 & n & l2 & ->).
  { unfold RevertToSnapshot in Hrun.
    destruct (validRevisions s !! search_revision (validRevisions s) revid) as [[i n]|] eqn:Hlook; [|done].
    destruct (negb (i =? revid)) eqn:Hne; [done|]. apply negb_false_iff, Z.eqb_eq in Hne as ->.
    rewrite Hl in Hlook. apply list_elem_of_lookup_2 in Hlook. apply elem_of_app in Hlook as [Hin|Hin].
    - pose proof (rev_sorted _ Hr) as Hs. rewrite Hl in Hs. apply sorted_below in Hs.
      pose proof (proj1 (Forall_forall _ _) Hs _ Hin) as Hbelow. cbn in Hbelow. lia.
    - apply elem_of_cons in Hin as [[= -> _]|Hin]; [lia|].
      apply list_elem_of_split in Hin as (l1 & l2 & ->). eauto. }
  assert (length (entries s0) ≤ n)%nat as Hn.
  { apply Forall_app in Hlater as [_ Hlater]. by apply Forall_cons in Hlater as [[_ Hle] _]. }
  assert (validRevisions s = (validRevisions s0 ++ (id, length (entries s0)) :: l1) ++ (revid, n) :: l2) as Hl'
    by (by rewrite Hl, <- app_assoc).
  rewrite (RevertToSnapshot_run s _ _ _ _ Hr Hl') in Hrun.
  apply result_bind_ok in Hrun as (s1 & Hback & Hend). injection Hend as <-.
  destruct (journal_revert_inv _ _ _ Hi Hback) as (Hi1 & He1 & Hv1 & Hn1). destruct Hr as [Hs Hnx].
  rewrite Hv1, Hl', take_app_length. split.
  - destruct Hi1. by split.
  - split; cbn.
    + rewrite Hl' in Hs. by eapply sorted_prefix.
    + rewrite Hn1. rewrite Hl' in Hnx. by apply Forall_app in Hnx as [? _].
  - exists l1. split; [done|]. by apply Forall_app in Hlater as [? _].
  - exists (take (n - length (entries s0)) es). split.
    { cbn. rewrite He1, Hes, take_app. f_equal. by apply take_ge. }
    unfold journal_revert in Hback. apply result_bind_ok in Hback as (s2 & Hundo & Hend). injection Hend as <-.
    assert (drop n (entries s) = drop (n - length (entries s0)) es) as Hdrop.
    { rewrite Hes, drop_app. rewrite (drop_ge (entries s0)) by done. done. }
    rewrite Hdrop in Hundo.
    rewrite <- (take_drop (n - length (entries s0)) es) in Hu.
    rewrite reverse_app, undo_app, Hundo in Hu. cbn [mbind result_bind] in Hu.
    pose proof (undo_proper (reverse (take (n - length (entries s0)) es)) s2
      (set_revisions (set_journal s2 (take n (entries s2)) (dirties s2))
        (validRevisions s0 ++ (id, length (entries s0)) :: l1) (nextRevisionId s2))) as Hp.
    rewrite Hu in Hp. cbn in Hp. specialize (Hp ltac:(by rewrite set_revisions_equiv, set_journal_equiv)).
    cbn in Hn1. cbn. destruct (undo _ (set_revisions _ _ _)) as [v| |]; [|done..].
    exists v. split; [done|]. by rewrite <- Hp.
Qed.

(** Reversals within a session stop above its own snapshot. *)
Definition within (id : Z) op : Prop := match op with OpRevertToSnapshot revid => id < revid | _ => True end.

Lemma session_Snapshot s0 id s : session s0 id s → session s0 id (Snapshot s).2.
Proof.
  intros Hses. pose proof (ses_inv _ _ _ Hses) as Hi. pose proof (ses_revs _ _ _ Hses) as Hr.
  destruct (snapshot_session s Hi Hr) as [Hi' Hr' _ _].
  destruct Hses as [_ [_ Hnx] (later & Hl & Hlater) (es & Hes & u & Hu & Hq)].
  split; [done|done| |].
  - cbn. rewrite Hl. eexists; split; [by rewrite <- app_assoc|].
    apply Forall_app_2; [done|]. constructor; [|constructor]. cbn. split; [|rewrite Hes, length_app; lia].
    rewrite Hl in Hnx. apply Forall_app in Hnx as [_ Hnx]. by apply Forall_cons in Hnx as [? _].
  - exists es. split; [done|].
    pose proof (undo_proper (reverse es) (Snapshot s).2 s (set_revisions_equiv _ _ _)) as Hp. rewrite Hu in Hp.
    destruct (undo (reverse es) (Snapshot s).2) as [v| |]; [|done..]. exists v. split; [done|]. by etransitivity.
Qed.

Lemma session_run s0 id ops s s' :
  session s0 id s → Forall (within id) ops → run_ops ops s = Ok s' → session s0 id s'.
Proof.
  revert s. induction ops as [|op ops IH]; intros s Hses Hw Hrun; cbn in Hrun; [by injection Hrun as <-|].
  apply Forall_cons in Hw as [Hop Hw]. apply result_bind_ok in Hrun as (s1 & Hstep & Hrun).
  apply (IH s1); [|done|done]. assert (plain op → session s0 id s1) as Hplain.
  { intros Hp. eapply session_journaled; [exact Hses|]. by eapply journaled_plain. }
  destruct op; try by apply Hplain.
  - injection Hstep as <-. by apply session_Snapshot.
  - by eapply session_nested.
Qed.

(** C12: [RevertToSnapshot] undoes everything done since the snapshot.  After any
    sequence of reads, writes, nested snapshots and nested reversals it
    succeeds, and leaves a state no getter can tell from the one the snapshot
    was taken of, with the same journal, revisions and dirty accounts (the
    RIPEMD account excepted, which the code keeps dirty on purpose). *)
Theorem revert_restores s0 id s1 ops s2 :
  state_inv s0 → revisions_ok s0 → Snapshot s0 = (id, s1) → Forall (within id) ops →
  run_ops ops s1 = Ok s2 →
  ∃ s3, RevertToSnapshot id s2 = Ok s3 ∧ state_equiv s3 s0 ∧
    entries s3 = entries s0 ∧ validRevisions s3 = validRevisions s0 ∧
    (∀ a, a ≠ ripemd → dirties s3 !! a = dirties s0 !! a) ∧ state_inv s3.
Proof.
  intros Hi Hr Hsnap Hw Hrun. injection Hsnap as <- <-.
  pose proof (session_run _ _ _ _ _ (snapshot_session s0 Hi Hr) Hw Hrun) as
    [Hi2 Hr2 (later & Hl & _) (es & Hes & u & Hu & Hq)].
  rewrite (RevertToSnapshot_run s2 _ _ _ _ Hr2 Hl).
  assert (∃ s3, journal_revert (length (entries s0)) s2 = Ok s3 ∧ state_equiv s3 s0) as (s3 & Hback & Hq3).
  { unfold journal_revert. rewrite Hes, drop_app_length, Hu. cbn. eexists; split; [done|].
    by rewrite set_journal_equiv. }
  destruct (journal_revert_inv _ _ _ Hi2 Hback) as (Hi3 & He3 & Hv3 & Hn3).
  rewrite Hback. cbn [mbind result_bind]. eexists; split; [done|].
  assert (entries s3 = entries s0) as He by (by rewrite He3, Hes, take_app_length).
  split_and!; [by rewrite set_revisions_equiv|done|by cbn; rewrite Hv3, Hl, take_app_length| |].
  - intros a Ha. cbn. rewrite (inv_dirties _ Hi3 a Ha), (inv_dirties _ Hi a Ha). by rewrite He.
  - destruct Hi3. by split.
Qed.

(** The state [New] makes satisfies the invariants, and every operation keeps
    them. *)
Lemma New_inv (t0 : T) : state_inv (New t0) ∧ revisions_ok (New t0).
Proof.
  split; split; try by constructor.
  intros a o Ho. cbn in Ho. by rewrite lookup_empty in Ho.
Qed.
End sessions.
