(* ===== verification/Transition.v ===== *)
(** Transaction execution ([core/state_transition.go], [core/gaspool.go],
    [core/evm.go], [core/vm/evm.go]): gas purchase, intrinsic gas, the call that
    transfers the value, and the refund.  The state is reached through the
    interface [VMState], the part of [vm.StateDB] these files call. *)
From S2P Require Import Prelude Types.

(** * Errors *)
Inductive vm_error := ErrOutOfGas | ErrDepth | ErrInsufficientBalance.
Inductive core_error :=
  | ErrNonceTooHigh | ErrNonceTooLow | errInsufficientBalanceForGas | ErrGasLimitReached
  | vmError (e : vm_error).
#[export] Instance vm_error_eq_dec : EqDecision vm_error.
Proof. solve_decision. Defined.
#[export] Instance core_error_eq_dec : EqDecision core_error.
Proof. solve_decision. Defined.

(** * The state interface *)
Class VMState (S : Type) := {
  vm_GetBalance : Address → S → Z * S;
  vm_SubBalance : Address → Z → S → S;
  vm_AddBalance : Address → Z → S → S;
  vm_GetNonce : Address → S → Z * S;
  vm_SetNonce : Address → Z → S → S;
  vm_Exist : Address → S → bool * S;
  vm_CreateAccount : Address → S → S;
  vm_GetRefund : S → Z
}.

(** ** The abstract world

    What the interface promises: the nonce and the balance of every account
    that exists, and the refund counter. *)
Record World := mkWorld { w_accounts : Address → option (Z * Z); w_refund : Z }.
Definition w_nonce (w : World) (a : Address) : Z := default 0 (fst <$> w_accounts w a).
Definition w_balance (w : World) (a : Address) : Z := default 0 (snd <$> w_accounts w a).
Definition w_set (a : Address) (n b : Z) (w : World) : World :=
  mkWorld (λ c, if decide (c = a) then Some (n, b) else w_accounts w c) (w_refund w).
#[export] Instance world_vm : VMState World := {
  vm_GetBalance a w := (w_balance w a, w);
  vm_SubBalance a x w := w_set a (w_nonce w a) (w_balance w a - x) w;
  vm_AddBalance a x w := w_set a (w_nonce w a) (w_balance w a + x) w;
  vm_GetNonce a w := (w_nonce w a, w);
  vm_SetNonce a n w := w_set a n (w_balance w a) w;
  vm_Exist a w := (bool_decide (is_Some (w_accounts w a)), w);
  vm_CreateAccount a w := w_set a 0 (w_balance w a) w;
  vm_GetRefund := w_refund
}.

(** An implementation keeps representing the world the operations make. *)
Class VMStateLaws (S : Type) `{VMState S} := {
  represents : S → World → Prop;
  rep_GetBalance a s w : represents s w →
    (vm_GetBalance a s).1 = w_balance w a ∧ represents (vm_GetBalance a s).2 w;
  rep_SubBalance a x s w : represents s w → represents (vm_SubBalance a x s) (vm_SubBalance a x w);
  rep_AddBalance a x s w : represents s w → represents (vm_AddBalance a x s) (vm_AddBalance a x w);
  rep_GetNonce a s w : represents s w →
    (vm_GetNonce a s).1 = w_nonce w a ∧ represents (vm_GetNonce a s).2 w;
  rep_SetNonce a n s w : represents s w → represents (vm_SetNonce a n s) (vm_SetNonce a n w);
  rep_Exist a s w : represents s w →
    (vm_Exist a s).1 = (vm_Exist a w).1 ∧ represents (vm_Exist a s).2 w;
  (** only asked of accounts that do not exist, as [Call] does *)
  rep_CreateAccount a s w : represents s w → w_accounts w a = None →
    represents (vm_CreateAccount a s) (vm_CreateAccount a w);
  rep_GetRefund s w : represents s w → vm_GetRefund s = w_refund w
}.

(** * Messages *)
Record Message := mkMessage {
  msgTo : option Address;
  msgFrom : Address;
  msgNonce : Z;
  msgAmount : Z;
  msgGasLimit : Z;
  msgGasPrice : Z;
  msgData : list byte;
  msgCheckNonce : bool
}.

(** * Gas *)
Definition TxGas : Z := 21000.
Definition TxGasContractCreation : Z := 53000.
Definition TxDataZeroGas : Z := 4.
Definition TxDataNonZeroGas : Z := 68.
Definition CallCreateDepth : Z := 1024.

Definition AddGas {E} (gp amount : Z) : Result E Z :=
  if (MaxUint64 - amount)%u64 <? gp then Panic (ExplicitPanic "gas pool pushed above uint64")
  else Ok (gp + amount)%u64.
Definition SubGas (gp amount : Z) : Result core_error Z :=
  if gp <? amount then Err ErrGasLimitReached else Ok (gp - amount)%u64.

Definition nonzero_bytes (data : list byte) : Z :=
  foldl (λ nz byt, if byt =? 0 then nz else (nz + 1)%u64) 0 data.
Definition IntrinsicGas (data : list byte) (contractCreation : bool) : Result vm_error Z :=
  let gas := if contractCreation then TxGasContractCreation else TxGas in
  match data with
  | [] => Ok gas
  | _ =>
      let nz := nonzero_bytes data in
      if ((MaxUint64 - gas)%u64 / TxDataNonZeroGas) <? nz then Err ErrOutOfGas else
      let gas := (gas + (nz * TxDataNonZeroGas)%u64)%u64 in
      let z := (wrap64 (Z.of_nat (length data)) - nz)%u64 in
      if ((MaxUint64 - gas)%u64 / TxDataZeroGas) <? z then Err ErrOutOfGas else
      Ok (gas + (z * TxDataZeroGas)%u64)%u64
  end.

(** * The machine

    [Call] runs no code: it moves the value.  An EVM error is a value the
    caller inspects. *)
Record EVM := mkEVM { Coinbase : Address; depth : Z }.

Section evm.
Context {S : Type} `{VMState S}.
Implicit Types (s : S).

Definition CanTransfer (addr : Address) (amount : Z) s : bool * S :=
  let '(balance, s) := vm_GetBalance addr s in (amount <=? balance, s).
Definition Transfer (sender recipient : Address) (amount : Z) s : S :=
  vm_AddBalance recipient amount (vm_SubBalance sender amount s).

Definition Call (evm : EVM) (caller addr : Address) (input : list byte) (gas value : Z) s :
    (list byte * Z * option vm_error) * S :=
  if CallCreateDepth <? depth evm then (([], gas, Some ErrDepth), s) else
  let '(enough, s) := CanTransfer caller value s in
  if negb enough then (([], gas, Some ErrInsufficientBalance), s) else
  let '(exists_, s) := vm_Exist addr s in
  if negb exists_ && (value =? 0) then (([], gas, None), s) else
  let s := if exists_ then s else vm_CreateAccount addr s in
  (([], gas, None), Transfer caller addr value s).
End evm.

(** * State transitions *)
Record StateTransition (S : Type) := mkST {
  st_gp : Z; (** the gas pool of the block, shared with the caller *)
  st_gas : Z;
  st_initialGas : Z;
  st_state : S
}.
Arguments mkST {S} _ _ _ _.
Arguments st_gp {S} _.
Arguments st_gas {S} _.
Arguments st_initialGas {S} _.
Arguments st_state {S} _.

Section transition.
Context {S : Type} `{VMState S} (evm : EVM) (msg : Message).
Abbreviation M := (GoM (StateTransition S) core_error).

Definition with_gp (x : Z) : M unit := modify (λ st, mkST x (st_gas st) (st_initialGas st) (st_state st)).
Definition with_gas (x : Z) : M unit := modify (λ st, mkST (st_gp st) x (st_initialGas st) (st_state st)).
Definition with_initialGas (x : Z) : M unit := modify (λ st, mkST (st_gp st) (st_gas st) x (st_state st)).
(** A query of the state, which may load what it reads, and an update. *)
Definition query {A} (f : S → A * S) : M A := λ st,
  let '(a, s) := f (st_state st) in (Ok a, mkST (st_gp st) (st_gas st) (st_initialGas st) s).
Definition update (f : S → S) : M unit :=
  modify (λ st, mkST (st_gp st) (st_gas st) (st_initialGas st) (f (st_state st))).

Definition to : Address := default zero_address (msgTo msg).
Definition gasUsed (st : StateTransition S) : Z := (st_initialGas st - st_gas st)%u64.

Definition useGas (amount : Z) : M unit :=
  st ← get_state;
  if st_gas st <? amount then throw (vmError ErrOutOfGas) else with_gas (st_gas st - amount)%u64.

Definition buyGas : M unit :=
  let mgval := msgGasLimit msg * msgGasPrice msg in
  balance ← query (vm_GetBalance (msgFrom msg));
  if balance <? mgval then throw errInsufficientBalanceForGas else
  st ← get_state;
  gp ← lift (SubGas (st_gp st) (msgGasLimit msg));
  with_gp gp;;
  with_gas (st_gas st + msgGasLimit msg)%u64;;
  with_initialGas (msgGasLimit msg);;
  update (vm_SubBalance (msgFrom msg) mgval).

Definition preCheck : M unit :=
  if msgCheckNonce msg then
    nonce ← query (vm_GetNonce (msgFrom msg));
    if nonce <? msgNonce msg then throw ErrNonceTooHigh
    else if msgNonce msg <? nonce then throw ErrNonceTooLow
    else buyGas
  else buyGas.

Definition refundGas : M unit :=
  st ← get_state;
  let half := gasUsed st / 2 in
  let refund := if vm_GetRefund (st_state st) <? half then vm_GetRefund (st_state st) else half in
  let gas := (st_gas st + refund)%u64 in
  with_gas gas;;
  update (vm_AddBalance (msgFrom msg) (gas * msgGasPrice msg));;
  gp ← lift (AddGas (st_gp st) gas);
  with_gp gp.

(** The returned bytes, the gas used and whether the machine reported an
    error.  [IntrinsicGas] is always asked about a plain transaction. *)
Definition TransitionDb : M (list byte * Z * bool) :=
  preCheck;;
  gas ← lift (match IntrinsicGas (msgData msg) false with
              | Ok gas => Ok gas | Err e => Err (vmError e) | Panic p => Panic p end);
  useGas gas;;
  nonce ← query (vm_GetNonce (msgFrom msg));
  update (vm_SetNonce (msgFrom msg) (nonce + 1)%u64);;
  st ← get_state;
  called ← query (Call evm (msgFrom msg) to (msgData msg) (st_gas st) (msgAmount msg));
  let '(ret, left_over, vmerr) := called in
  with_gas left_over;;
  if decide (vmerr = Some ErrInsufficientBalance) then throw (vmError ErrInsufficientBalance) else
  refundGas;;
  st ← get_state;
  update (vm_AddBalance (Coinbase evm) (gasUsed st * msgGasPrice msg));;
  mret (ret, gasUsed st, bool_decide (is_Some vmerr)).

(** [ApplyMessage] starts from no gas; the pool and the state outlive it. *)
Definition ApplyMessage (gp : Z) (s : S) : Result core_error (list byte * Z * bool) * (Z * S) :=
  let '(r, st) := TransitionDb (mkST gp 0 0 s) in (r, (st_gp st, st_state st)).
End transition.
