(* ===== verification/TransitionEffect.v ===== *)
(** What executing a transaction does: the intrinsic gas in closed form, the
    checks in order, and the effect on every account.  The theorems are proved
    on the abstract world and hold of every implementation of the state
    interface. *)
From S2P Require Import Prelude Types Transition.

(** * Intrinsic gas *)
Definition count_nonzero (data : list byte) : Z := Z.of_nat (length (filter (λ b, b ≠ 0) data)).

Lemma count_nonzero_le data : 0 ≤ count_nonzero data ≤ Z.of_nat (length data).
Proof. unfold count_nonzero. pose proof (length_filter (λ b : Z, b ≠ 0) data). lia. Qed.

Lemma nonzero_bytes_count data :
  Z.of_nat (length data) ≤ MaxUint64 → nonzero_bytes data = count_nonzero data.
Proof.
  intros Hlen. unfold nonzero_bytes.
  assert (∀ l acc, 0 ≤ acc → acc + Z.of_nat (length l) ≤ MaxUint64 →
    foldl (λ nz byt, if byt =? 0 then nz else (nz + 1)%u64) acc l = acc + count_nonzero l) as Hacc.
  { induction l as [|b l IH]; intros acc Hp Hb; cbn [foldl]; [unfold count_nonzero; cbn; lia|].
    cbn [length] in Hb. unfold count_nonzero in *. rewrite filter_cons.
    destruct (b =? 0) eqn:Hz; [apply Z.eqb_eq in Hz|apply Z.eqb_neq in Hz].
    - rewrite (decide_False (P := b ≠ 0)) by tauto. apply IH; lia.
    - rewrite (decide_True (P := b ≠ 0)) by done. cbn [length].
      rewrite u64_add_id by (u64_unfold; lia). rewrite IH by lia. lia. }
  rewrite Hacc by lia. lia.
Qed.

Definition intrinsic_cost (base : Z) (data : list byte) : Z :=
  base + TxDataNonZeroGas * count_nonzero data + TxDataZeroGas * (Z.of_nat (length data) - count_nonzero data).

(** The guard against overflow is exact. *)
Lemma overflow_guard k gas n :
  0 < k → 0 ≤ gas ≤ MaxUint64 → ((MaxUint64 - gas)%u64 / k <? n) = (MaxUint64 <? gas + k * n).
Proof.
  intros Hk Hg. rewrite u64_sub_id by (u64_unfold; lia). apply eq_true_iff_eq. rewrite !Z.ltb_lt. split; intros Hlt.
  - assert (MaxUint64 - gas < k * n); [|lia]. pose proof (Z.mul_succ_div_gt (MaxUint64 - gas) k Hk).
    nia.
  - apply Z.div_lt_upper_bound; lia.
Qed.

Lemma IntrinsicGas_run data contractCreation :
  Z.of_nat (length data) ≤ MaxUint64 →
  IntrinsicGas data contractCreation =
    let cost := intrinsic_cost (if contractCreation then TxGasContractCreation else TxGas) data in
    if MaxUint64 <? cost then Err ErrOutOfGas else Ok cost.
Proof.
  intros Hlen. unfold IntrinsicGas. set (base := if contractCreation then _ else _). cbv zeta.
  assert (0 ≤ base ≤ 53000) as Hbase by (unfold base, TxGas, TxGasContractCreation; destruct contractCreation; lia).
  destruct data as [|b data'] eqn:Hdata.
  - unfold intrinsic_cost, count_nonzero. cbn. rewrite (proj2 (Z.ltb_ge _ _)) by (u64_unfold; lia). f_equal. lia.
  - rewrite <- Hdata in *. clear Hdata. rewrite nonzero_bytes_count by done.
    pose proof (count_nonzero_le data) as Hc. unfold intrinsic_cost, TxDataNonZeroGas, TxDataZeroGas.
    set (nz := count_nonzero data) in *. set (len := Z.of_nat (length data)) in *.
    rewrite (overflow_guard 68) by (u64_unfold; lia).
    destruct (MaxUint64 <? base + 68 * nz) eqn:H1.
    { apply Z.ltb_lt in H1. by rewrite (proj2 (Z.ltb_lt _ _)) by lia. }
    apply Z.ltb_ge in H1.
    assert ((base + (nz * 68)%u64)%u64 = base + 68 * nz) as -> by (rewrite u64_mul_id; u64_lia).
    assert ((wrap64 len - nz)%u64 = len - nz) as -> by (rewrite wrap64_id; u64_lia).
    rewrite (overflow_guard 4) by (u64_unfold; lia).
    destruct (MaxUint64 <? base + 68 * nz + 4 * (len - nz)) eqn:H2; [done|].
    apply Z.ltb_ge in H2. f_equal. rewrite u64_mul_id by (u64_unfold; lia). u64_lia.
Qed.

(** [IntrinsicGas] charges the base price, 68 for every non-zero byte and 4
    for every zero byte, and reports out of gas exactly when that sum exceeds
    a [uint64]: no wrapped-around price is ever returned. *)
Theorem IntrinsicGas_exact data contractCreation :
  Z.of_nat (length data) ≤ MaxUint64 →
  IntrinsicGas data contractCreation =
    let cost := intrinsic_cost (if contractCreation then TxGasContractCreation else TxGas) data in
    if MaxUint64 <? cost then Err ErrOutOfGas else Ok cost.
Proof. apply IntrinsicGas_run. Qed.

(** * The gas pool *)
Lemma SubGas_AddGas gp amount back :
  is_u64 gp → 0 ≤ back ≤ amount → amount ≤ gp →
  SubGas gp amount = Ok (gp - amount) ∧
  AddGas (E := core_error) (gp - amount) back = Ok (gp - amount + back).
Proof.
  intros Hgp Hb Ha. unfold SubGas, AddGas. rewrite (proj2 (Z.ltb_ge gp amount)) by lia.
  rewrite (proj2 (Z.ltb_ge _ (gp - amount))) by u64_lia.
  split; f_equal; u64_lia.
Qed.

(** * Every implementation behaves as the abstract world *)
Section simulation.
Context {S : Type} `{VMStateLaws S} (evm : EVM) (msg : Message).

Definition st_represents (st : StateTransition S) (wt : StateTransition World) : Prop :=
  st_gp st = st_gp wt ∧ st_gas st = st_gas wt ∧ st_initialGas st = st_initialGas wt ∧
  represents (st_state st) (st_state wt).

Lemma sim_get_bind {B} (f : StateTransition S → GoM (StateTransition S) core_error B) g :
  (∀ st wt, st_represents st wt → (f st st).1 = (g wt wt).1 ∧ st_represents (f st st).2 (g wt wt).2) →
  sim st_represents (get_state ≫= f) (get_state ≫= g).
Proof. intros Hf st wt Hst. by apply Hf. Qed.

Lemma sim_at {B} (m : GoM (StateTransition S) core_error B) (m' : GoM (StateTransition World) core_error B) st wt :
  sim st_represents m m' → st_represents st wt →
  (m st).1 = (m' wt).1 ∧ st_represents (m st).2 (m' wt).2.
Proof. intros Hs. apply Hs. Qed.

Lemma sim_query {A} (f : S → A * S) (g : World → A * World) :
  (∀ s w, represents s w → (f s).1 = (g w).1 ∧ represents (f s).2 (g w).2) →
  sim st_represents (query f) (query g).
Proof.
  intros Hf st wt (Hgp & Hg & Hi & Hr). destruct (Hf _ _ Hr) as [Ha Hr']. unfold query.
  destruct (f (st_state st)), (g (st_state wt)). cbn in *. subst. by split.
Qed.
Lemma sim_update (f : S → S) (g : World → World) :
  (∀ s w, represents s w → represents (f s) (g w)) → sim st_represents (update f) (update g).
Proof. intros Hf st wt (Hgp & Hg & Hi & Hr). split; [done|]. split_and!; try done. by apply Hf. Qed.
Lemma sim_with_gp x : sim st_represents (with_gp x) (with_gp x).
Proof. intros st wt (Hgp & Hg & Hi & Hr). by split. Qed.
Lemma sim_with_gas x : sim st_represents (with_gas x) (with_gas x).
Proof. intros st wt (Hgp & Hg & Hi & Hr). by split. Qed.
Lemma sim_with_initialGas x : sim st_represents (with_initialGas x) (with_initialGas x).
Proof. intros st wt (Hgp & Hg & Hi & Hr). by split. Qed.
Hint Resolve sim_with_gp sim_with_gas sim_with_initialGas : sim.
Hint Extern 1 (sim _ (query _) (query _)) =>
  apply sim_query; intros; first [by apply rep_GetBalance|by apply rep_GetNonce] : sim.
Hint Extern 1 (sim _ (update _) (update _)) =>
  apply sim_update; intros; first [by apply rep_SubBalance|by apply rep_AddBalance|by apply rep_SetNonce] : sim.

(** As [sim_steps], keeping the parts already known to be related whole. *)
Ltac sim_run := repeat first [solve [auto with sim] | sim_steps_one]
with sim_steps_one := first
  [ apply sim_bind; [|intros ?]
  | match goal with |- context [if ?b then _ else _] => destruct b end ].

(** Run the two sides from related states, after [get_state]. *)
Ltac sim_from :=
  let Hst := fresh in let Hgp := fresh in let Hgas := fresh in let Hini := fresh in let Hrep := fresh in
  apply sim_get_bind; intros ? ? Hst; pose proof Hst as (Hgp & Hgas & Hini & Hrep);
  unfold gasUsed; rewrite ?Hgp, ?Hgas, ?Hini, ?(rep_GetRefund _ _ Hrep); revert Hst; apply sim_at.

Lemma useGas_sim amount : sim st_represents (useGas amount) (useGas amount).
Proof. unfold useGas. sim_from. sim_run. Qed.
Lemma buyGas_sim : sim st_represents (buyGas msg) (buyGas msg).
Proof. unfold buyGas. sim_run. sim_from. sim_run. Qed.
Hint Resolve useGas_sim buyGas_sim : sim.
Lemma preCheck_sim : sim st_represents (preCheck msg) (preCheck msg).
Proof. unfold preCheck. sim_run. Qed.
Lemma refundGas_sim : sim st_represents (refundGas msg) (refundGas msg).
Proof. unfold refundGas. sim_from. cbn [vm_GetRefund world_vm]. sim_run. Qed.

Hint Resolve preCheck_sim refundGas_sim : sim.

Lemma Call_sim input gas s w :
  represents s w →
  (Call evm (msgFrom msg) (to msg) input gas (msgAmount msg) s).1 =
    (Call evm (msgFrom msg) (to msg) input gas (msgAmount msg) w).1 ∧
  represents (Call evm (msgFrom msg) (to msg) input gas (msgAmount msg) s).2
    (Call evm (msgFrom msg) (to msg) input gas (msgAmount msg) w).2.
Proof.
  intros Hr. unfold Call, CanTransfer. destruct (_ <? depth evm); [done|].
  destruct (rep_GetBalance (msgFrom msg) s w Hr) as [Hb Hr1].
  destruct (vm_GetBalance (msgFrom msg) s) as [b s1]. cbn in Hb, Hr1. subst b.
  cbn [vm_GetBalance world_vm]. destruct (negb _); [done|].
  destruct (rep_Exist (to msg) s1 w Hr1) as [He Hr2].
  destruct (vm_Exist (to msg) s1) as [e s2], (vm_Exist (to msg) w) as [e' w'] eqn:Hw. cbn in He, Hr2. subst e'.
  injection Hw as Hw <-. destruct (_ && _); [done|]. split; [done|]. cbn [fst snd].
  unfold Transfer. apply rep_AddBalance, rep_SubBalance. destruct e; [done|]. apply rep_CreateAccount; [done|].
  apply bool_decide_eq_false in Hw. by apply eq_None_not_Some.
Qed.
Lemma sim_Call input gas :
  sim st_represents (query (Call evm (msgFrom msg) (to msg) input gas (msgAmount msg)))
    (query (Call evm (msgFrom msg) (to msg) input gas (msgAmount msg))).
Proof. apply sim_query. intros s w. apply Call_sim. Qed.

Hint Resolve sim_Call : sim.

Lemma TransitionDb_sim : sim st_represents (TransitionDb evm msg) (TransitionDb evm msg).
Proof.
  unfold TransitionDb. sim_run. sim_from. sim_run. destruct a4 as [[ret left_over] vmerr].
  sim_run. sim_from. sim_run.
Qed.
End simulation.

(** * The abstract world *)

(** The first check that fails, and the intrinsic gas. *)
Definition enough_depth (evm : EVM) : bool := negb (CallCreateDepth <? depth evm).
Definition fee (msg : Message) : Z := msgGasLimit msg * msgGasPrice msg.
Definition cost_of (msg : Message) : Z := intrinsic_cost TxGas (msgData msg).

Definition transition_check (evm : EVM) (msg : Message) (gp : Z) (w : World) : option core_error :=
  let from := msgFrom msg in
  if msgCheckNonce msg && (w_nonce w from <? msgNonce msg) then Some ErrNonceTooHigh
  else if msgCheckNonce msg && (msgNonce msg <? w_nonce w from) then Some ErrNonceTooLow
  else if w_balance w from <? fee msg then Some errInsufficientBalanceForGas
  else if gp <? msgGasLimit msg then Some ErrGasLimitReached
  else if msgGasLimit msg <? cost_of msg then Some (vmError ErrOutOfGas)
  else if enough_depth evm && (w_balance w from - fee msg <? msgAmount msg) then Some (vmError ErrInsufficientBalance)
  else None.

(** Gas has been bought when these errors are raised. *)
Definition after_purchase (e : core_error) : bool := match e with vmError _ => true | _ => false end.

(** Half of the gas used at most is refunded. *)
Definition gas_charged (msg : Message) (refund : Z) : Z := cost_of msg - Z.min (cost_of msg / 2) refund.

(** What a transaction does to the accounts: the sender pays the gas used and
    the value, the recipient receives the value, the coinbase the fee. *)
Definition moved (evm : EVM) (msg : Message) : Z := if enough_depth evm then msgAmount msg else 0.
Definition transfer_of (evm : EVM) (msg : Message) (used : Z) (a : Address) : Z :=
  (if decide (a = msgFrom msg) then - (used * msgGasPrice msg) - moved evm msg else 0) +
  (if decide (a = to msg) then moved evm msg else 0) +
  (if decide (a = Coinbase evm) then used * msgGasPrice msg else 0).
Definition settled (evm : EVM) (msg : Message) (used : Z) (w w' : World) : Prop :=
  w_refund w' = w_refund w ∧ ∀ a,
  w_balance w' a = w_balance w a + transfer_of evm msg used a ∧
  w_nonce w' a = (if decide (a = msgFrom msg) then (w_nonce w a + 1)%u64 else w_nonce w a) ∧
  (is_Some (w_accounts w' a) ↔ is_Some (w_accounts w a) ∨ a = msgFrom msg ∨ a = Coinbase evm ∨
    (a = to msg ∧ enough_depth evm = true ∧ msgAmount msg ≠ 0)).

Record message_ok (msg : Message) : Prop := {
  mok_gas : is_u64 (msgGasLimit msg);
  mok_data : Z.of_nat (length (msgData msg)) ≤ MaxUint64
}.

Lemma w_balance_set a n b w c : w_balance (w_set a n b w) c = if decide (c = a) then b else w_balance w c.
Proof. unfold w_balance. cbn. by case_decide. Qed.
Lemma w_nonce_set a n b w c : w_nonce (w_set a n b w) c = if decide (c = a) then n else w_nonce w c.
Proof. unfold w_nonce. cbn. by case_decide. Qed.
Lemma w_exists_set a n b w c : is_Some (w_accounts (w_set a n b w) c) ↔ c = a ∨ is_Some (w_accounts w c).
Proof. cbn. case_decide; naive_solver. Qed.

Section world.
Context (evm : EVM) (msg : Message).
Abbreviation ST := (StateTransition World).

Lemma query_bind {A B} (f : World → A * World) (k : A → GoM ST core_error B) gp gas initial w :
  (query f ≫= k) (mkST gp gas initial w) = k (f w).1 (mkST gp gas initial (f w).2).
Proof. unfold mbind, gom_bind, query. cbn. by destruct (f w). Qed.
Lemma update_bind {B} (f : World → World) (k : unit → GoM ST core_error B) gp gas initial w :
  (update f ≫= k) (mkST gp gas initial w) = k tt (mkST gp gas initial (f w)).
Proof. done. Qed.
Lemma get_state_bind {B} (k : ST → GoM ST core_error B) st : (get_state ≫= k) st = k st st.
Proof. done. Qed.
Lemma with_gas_bind {B} x (k : unit → GoM ST core_error B) gp gas initial w :
  (with_gas x ≫= k) (mkST gp gas initial w) = k tt (mkST gp x initial w).
Proof. done. Qed.

Lemma preCheck_world gp w :
  is_u64 gp → message_ok msg →
  preCheck msg (mkST gp 0 0 w) =
    if msgCheckNonce msg && (w_nonce w (msgFrom msg) <? msgNonce msg) then (Err ErrNonceTooHigh, mkST gp 0 0 w)
    else if msgCheckNonce msg && (msgNonce msg <? w_nonce w (msgFrom msg)) then (Err ErrNonceTooLow, mkST gp 0 0 w)
    else if w_balance w (msgFrom msg) <? fee msg then (Err errInsufficientBalanceForGas, mkST gp 0 0 w)
    else if gp <? msgGasLimit msg then (Err ErrGasLimitReached, mkST gp 0 0 w)
    else (Ok tt, mkST (gp - msgGasLimit msg) (msgGasLimit msg) (msgGasLimit msg)
           (vm_SubBalance (msgFrom msg) (fee msg) w)).
Proof.
  intros Hgp [Hg _].
  assert (buyGas msg (mkST gp 0 0 w) =
    if w_balance w (msgFrom msg) <? fee msg then (Err errInsufficientBalanceForGas, mkST gp 0 0 w)
    else if gp <? msgGasLimit msg then (Err ErrGasLimitReached, mkST gp 0 0 w)
    else (Ok tt, mkST (gp - msgGasLimit msg) (msgGasLimit msg) (msgGasLimit msg)
           (vm_SubBalance (msgFrom msg) (fee msg) w))) as Hbuy.
  { unfold buyGas, mbind, gom_bind, query, lift, SubGas, with_gp, with_gas, with_initialGas, update, modify, throw, get_state.
    cbn -[Z.ltb Z.mul u64_add u64_sub vm_SubBalance]. fold (fee msg). destruct (_ <? fee msg); [done|].
    cbn -[Z.ltb Z.mul u64_add u64_sub vm_SubBalance].
    destruct (gp <? msgGasLimit msg) eqn:Hlt; [done|]. apply Z.ltb_ge in Hlt.
    cbn -[Z.ltb Z.mul u64_add u64_sub vm_SubBalance].
    rewrite u64_sub_id, u64_add_id by (u64_unfold; lia). done. }
  unfold preCheck, mbind, gom_bind, query, throw.
  destruct (msgCheckNonce msg); cbn -[Z.ltb buyGas vm_SubBalance]; [|by rewrite Hbuy].
  destruct (_ <? msgNonce msg); [done|]. destruct (msgNonce msg <? _); [done|]. by rewrite Hbuy.
Qed.

Lemma gas_charged_bounds refund :
  0 ≤ refund → 21000 ≤ cost_of msg → 0 ≤ gas_charged msg refund ≤ cost_of msg.
Proof.
  intros Hr Hc. unfold gas_charged. pose proof (Z.div_pos (cost_of msg) 2).
  pose proof (Z.div_le_upper_bound (cost_of msg) 2 (cost_of msg)). lia.
Qed.
Lemma cost_of_bound : 21000 ≤ cost_of msg.
Proof.
  unfold cost_of, intrinsic_cost, TxGas, TxDataNonZeroGas, TxDataZeroGas.
  pose proof (count_nonzero_le (msgData msg)). lia.
Qed.

(** The refund of the gas left after the call. *)
Lemma refundGas_world gp w :
  is_u64 (gp + msgGasLimit msg) → is_u64 gp → message_ok msg → is_u64 (w_refund w) → cost_of msg ≤ msgGasLimit msg →
  let used := gas_charged msg (w_refund w) in
  refundGas msg (mkST gp (msgGasLimit msg - cost_of msg) (msgGasLimit msg) w) =
    (Ok tt, mkST (gp + msgGasLimit msg - used) (msgGasLimit msg - used) (msgGasLimit msg)
       (vm_AddBalance (msgFrom msg) ((msgGasLimit msg - used) * msgGasPrice msg) w)).
Proof.
  intros Hsum Hgp [Hg _] Hr Hcost used. pose proof cost_of_bound as Hlow.
  pose proof (gas_charged_bounds (w_refund w) ltac:(apply Hr) Hlow) as Hused. fold used in Hused.
  unfold refundGas, mbind, gom_bind, get_state, with_gas, with_gp, update, modify, lift, AddGas, gasUsed.
  cbn -[Z.ltb Z.mul u64_add u64_sub vm_AddBalance Z.div].
  assert ((msgGasLimit msg - (msgGasLimit msg - cost_of msg))%u64 = cost_of msg) as -> by (rewrite u64_sub_id; u64_lia).
  set (refund := if w_refund w <? _ then _ else _).
  assert ((msgGasLimit msg - cost_of msg + refund)%u64 = msgGasLimit msg - used) as ->.
  { assert (refund = Z.min (cost_of msg / 2) (w_refund w)) as ->
      by (unfold refund; destruct (_ <? _) eqn:Hlt; [apply Z.ltb_lt in Hlt|apply Z.ltb_ge in Hlt]; lia).
    unfold used, gas_charged in *. rewrite u64_add_id by (u64_unfold; lia). lia. }
  rewrite (proj2 (Z.ltb_ge _ gp)) by u64_lia. cbn -[vm_AddBalance Z.mul u64_add].
  rewrite u64_add_id by (u64_unfold; lia). by replace (gp + (msgGasLimit msg - used)) with (gp + msgGasLimit msg - used) by lia.
Qed.

(** Paying the intrinsic gas. *)
Lemma IntrinsicGas_message :
  Z.of_nat (length (msgData msg)) ≤ MaxUint64 →
  IntrinsicGas (msgData msg) false = if MaxUint64 <? cost_of msg then Err ErrOutOfGas else Ok (cost_of msg).
Proof. apply (IntrinsicGas_run (msgData msg) false). Qed.

Lemma useGas_run gp gas initial amount (w : World) :
  0 ≤ amount → is_u64 gas →
  useGas amount (mkST gp gas initial w) =
    if gas <? amount then (Err (vmError ErrOutOfGas), mkST gp gas initial w)
    else (Ok tt, mkST gp (gas - amount) initial w).
Proof.
  intros Ha Hg. unfold useGas, mbind, gom_bind, get_state, throw, with_gas, modify. cbn -[Z.ltb u64_sub].
  destruct (gas <? amount) eqn:Hlt; [done|]. apply Z.ltb_ge in Hlt. by rewrite u64_sub_id by (u64_unfold; lia).
Qed.

(** The call on the abstract world. *)
Lemma Call_world input gas (w : World) :
  Call evm (msgFrom msg) (to msg) input gas (msgAmount msg) w =
    if negb (enough_depth evm) then (([], gas, Some ErrDepth), w)
    else if w_balance w (msgFrom msg) <? msgAmount msg then (([], gas, Some ErrInsufficientBalance), w)
    else (([], gas, None),
      if bool_decide (is_Some (w_accounts w (to msg))) then Transfer (msgFrom msg) (to msg) (msgAmount msg) w
      else if msgAmount msg =? 0 then w
      else Transfer (msgFrom msg) (to msg) (msgAmount msg) (vm_CreateAccount (to msg) w)).
Proof.
  unfold Call, CanTransfer, enough_depth. rewrite negb_involutive. destruct (_ <? depth evm); [done|].
  cbn [vm_GetBalance vm_Exist world_vm]. rewrite Z.leb_antisym, negb_involutive.
  destruct (_ <? msgAmount msg); [done|].
  destruct (bool_decide (is_Some (w_accounts w (to msg)))); [done|]. cbn [negb andb].
  by destruct (msgAmount msg =? 0).
Qed.

(** The world after the nonce is raised and the call made. *)
Definition called_world (w : World) : World :=
  let w1 := vm_SubBalance (msgFrom msg) (fee msg) w in
  let w2 := vm_SetNonce (msgFrom msg) (w_nonce w (msgFrom msg) + 1)%u64 w1 in
  if enough_depth evm then
    if bool_decide (is_Some (w_accounts w2 (to msg))) then Transfer (msgFrom msg) (to msg) (msgAmount msg) w2
    else if msgAmount msg =? 0 then w2
    else Transfer (msgFrom msg) (to msg) (msgAmount msg) (vm_CreateAccount (to msg) w2)
  else w2.
Definition settled_world (used : Z) (w : World) : World :=
  vm_AddBalance (Coinbase evm) (used * msgGasPrice msg)
    (vm_AddBalance (msgFrom msg) ((msgGasLimit msg - used) * msgGasPrice msg) (called_world w)).

Lemma called_world_refund w : w_refund (called_world w) = w_refund w.
Proof.
  unfold called_world. destruct (enough_depth evm); [|done]. by destruct (bool_decide _); [|destruct (_ =? 0)].
Qed.

(** From the moment the gas is bought. *)
Lemma TransitionDb_purchased gp w :
  is_u64 gp → message_ok msg → is_u64 (w_refund w) →
  preCheck msg (mkST gp 0 0 w) =
    (Ok tt, mkST (gp - msgGasLimit msg) (msgGasLimit msg) (msgGasLimit msg)
       (vm_SubBalance (msgFrom msg) (fee msg) w)) →
  msgGasLimit msg ≤ gp → cost_of msg ≤ msgGasLimit msg →
  let used := gas_charged msg (w_refund w) in
  ∃ st, TransitionDb evm msg (mkST gp 0 0 w) =
      (if enough_depth evm && (w_balance w (msgFrom msg) - fee msg <? msgAmount msg)
       then Err (vmError ErrInsufficientBalance) else Ok ([], used, negb (enough_depth evm)), st) ∧
    if enough_depth evm && (w_balance w (msgFrom msg) - fee msg <? msgAmount msg)
    then st_gp st = gp - msgGasLimit msg
    else st_gp st = gp - used ∧ st_state st = settled_world used w.
Proof.
  intros Hgp [Hg Hdata] Hrefund Hpre Hlimit Hcost used. pose proof cost_of_bound as Hlow.
  pose proof (gas_charged_bounds (w_refund w) ltac:(apply Hrefund) Hlow) as Hused. fold used in Hused.
  unfold TransitionDb. rewrite (gom_bind_run _ _ _ _ _ Hpre), (IntrinsicGas_message Hdata).
  rewrite (proj2 (Z.ltb_ge MaxUint64 _)) by (u64_unfold; lia). set (w1 := vm_SubBalance (msgFrom msg) (fee msg) w).
  pose proof (useGas_run (gp - msgGasLimit msg) (msgGasLimit msg) (msgGasLimit msg) (cost_of msg) w1
    ltac:(lia) Hg) as Huse. rewrite (proj2 (Z.ltb_ge _ _)) in Huse by done.
  rewrite (gom_bind_run (lift _) _ _ _ _ eq_refl), (gom_bind_run _ _ _ _ _ Huse).
  rewrite query_bind, update_bind, get_state_bind, query_bind. cbn [st_state st_gas st_gp st_initialGas].
  change ((vm_GetNonce (msgFrom msg) w1).1) with (w_nonce w1 (msgFrom msg)).
  change ((vm_GetNonce (msgFrom msg) w1).2) with w1.
  assert (w_nonce w1 (msgFrom msg) = w_nonce w (msgFrom msg)) as ->
    by (unfold w1; cbn [vm_SubBalance world_vm]; by rewrite w_nonce_set, decide_True by done).
  set (w2 := vm_SetNonce (msgFrom msg) (w_nonce w (msgFrom msg) + 1)%u64 w1).
  assert (w_balance w2 (msgFrom msg) = w_balance w (msgFrom msg) - fee msg) as Hbal
    by (unfold w2, w1; cbn [vm_SubBalance vm_SetNonce world_vm]; by rewrite !w_balance_set, !decide_True by done).
  rewrite Call_world, Hbal.
  destruct (enough_depth evm && (w_balance w (msgFrom msg) - fee msg <? msgAmount msg)) eqn:Hfunds.
  { apply andb_true_iff in Hfunds as [-> ->]. cbn [negb fst snd]. rewrite with_gas_bind.
    rewrite decide_True by done. by eexists. }
  set (res := if negb (enough_depth evm) then _ else _).
  assert (res = (([], msgGasLimit msg - cost_of msg, if enough_depth evm then None else Some ErrDepth), called_world w)) as ->.
  { unfold res, called_world. fold w1 w2. destruct (enough_depth evm); [|done]. cbn [andb] in Hfunds. by rewrite Hfunds. }
  cbn [fst snd]. rewrite with_gas_bind, decide_False by (by destruct (enough_depth evm)).
  pose proof (refundGas_world (gp - msgGasLimit msg) (called_world w)) as Hback. rewrite called_world_refund in Hback.
  rewrite (gom_bind_run _ _ _ _ _ (Hback ltac:(u64_unfold; lia) ltac:(u64_unfold; lia) ltac:(by split) Hrefund Hcost)).
  fold used. rewrite get_state_bind, update_bind. unfold gasUsed. cbn [st_initialGas st_gas].
  rewrite u64_sub_id by (u64_unfold; lia). replace (msgGasLimit msg - (msgGasLimit msg - used)) with used by lia.
  eexists. split; [by destruct (enough_depth evm)|]. cbn [st_gp st_state]. split; [lia|done].
Qed.

Lemma TransitionDb_world gp w :
  is_u64 gp → message_ok msg → is_u64 (w_refund w) →
  match transition_check evm msg gp w with
  | Some e => ∃ st, TransitionDb evm msg (mkST gp 0 0 w) = (Err e, st) ∧
      st_gp st = (if after_purchase e then gp - msgGasLimit msg else gp) ∧
      (after_purchase e = false → st_state st = w)
  | None =>
      let used := gas_charged msg (w_refund w) in
      ∃ st, TransitionDb evm msg (mkST gp 0 0 w) = (Ok ([], used, negb (enough_depth evm)), st) ∧
        st_gp st = gp - used ∧ st_state st = settled_world used w
  end.
Proof.
  intros Hgp Hmsg Hrefund. pose proof cost_of_bound as Hlow. unfold transition_check.
  pose proof (preCheck_world gp w Hgp Hmsg) as Hpre.
  destruct (msgCheckNonce msg && (w_nonce w (msgFrom msg) <? msgNonce msg));
    [unfold TransitionDb; rewrite (gom_bind_err _ _ _ _ _ Hpre); by eexists|].
  destruct (msgCheckNonce msg && (msgNonce msg <? w_nonce w (msgFrom msg)));
    [unfold TransitionDb; rewrite (gom_bind_err _ _ _ _ _ Hpre); by eexists|].
  destruct (w_balance w (msgFrom msg) <? fee msg);
    [unfold TransitionDb; rewrite (gom_bind_err _ _ _ _ _ Hpre); by eexists|].
  destruct (gp <? msgGasLimit msg) eqn:Hlimit;
    [unfold TransitionDb; rewrite (gom_bind_err _ _ _ _ _ Hpre); by eexists|].
  apply Z.ltb_ge in Hlimit. destruct (msgGasLimit msg <? cost_of msg) eqn:Hcost.
  - pose proof (mok_gas _ Hmsg) as Hg. set (w1 := vm_SubBalance (msgFrom msg) (fee msg) w) in *.
    pose proof (useGas_run (gp - msgGasLimit msg) (msgGasLimit msg) (msgGasLimit msg) (cost_of msg) w1
      ltac:(lia) Hg) as Huse. rewrite Hcost in Huse.
    unfold TransitionDb. rewrite (gom_bind_run _ _ _ _ _ Hpre), (IntrinsicGas_message (mok_data _ Hmsg)).
    destruct (MaxUint64 <? cost_of msg); [by eexists|].
    rewrite (gom_bind_run (lift _) _ _ _ _ eq_refl), (gom_bind_err _ _ _ _ _ Huse). by eexists.
  - apply Z.ltb_ge in Hcost.
    destruct (TransitionDb_purchased gp w Hgp Hmsg Hrefund Hpre Hlimit Hcost) as (st & Hrun & Hend).
    destruct (enough_depth evm && _); by exists st.
Qed.

(** What a message that passes the checks can pay. *)
Lemma transition_check_funds gp w :
  transition_check evm msg gp w = None →
  cost_of msg ≤ msgGasLimit msg ∧ fee msg + moved evm msg ≤ w_balance w (msgFrom msg).
Proof.
  unfold transition_check. repeat match goal with |- context [if ?b then Some _ else _] => destruct b eqn:?; [done|] end.
  intros _. repeat match goal with Hb : (_ <? _) = false |- _ => apply Z.ltb_ge in Hb end.
  split; [done|]. unfold moved. destruct (enough_depth evm); cbn [andb] in *; [|lia].
  repeat match goal with Hb : (_ <? _) = false |- _ => apply Z.ltb_ge in Hb end. lia.
Qed.

Lemma transition_check_room gp w : transition_check evm msg gp w = None → msgGasLimit msg ≤ gp.
Proof.
  unfold transition_check. repeat match goal with |- context [if ?b then Some _ else _] => destruct b eqn:?; [done|] end.
  intros _. by apply Z.ltb_ge.
Qed.

(** The accounts after a transfer, with the recipient created or not. *)
Lemma Transfer_balance sender recipient x w a :
  w_balance (Transfer sender recipient x w) a =
    w_balance w a - (if decide (a = sender) then x else 0) + (if decide (a = recipient) then x else 0).
Proof.
  unfold Transfer. cbn [vm_AddBalance vm_SubBalance world_vm]. rewrite !w_balance_set.
  repeat case_decide; subst; try done; lia.
Qed.
Lemma Transfer_nonce sender recipient x w a : w_nonce (Transfer sender recipient x w) a = w_nonce w a.
Proof.
  unfold Transfer. cbn [vm_AddBalance vm_SubBalance world_vm]. rewrite !w_nonce_set.
  repeat case_decide; subst; done.
Qed.
Lemma Transfer_exists sender recipient x w a :
  is_Some (w_accounts (Transfer sender recipient x w) a) ↔
    is_Some (w_accounts w a) ∨ a = sender ∨ a = recipient.
Proof.
  unfold Transfer. cbn [vm_AddBalance vm_SubBalance world_vm]. rewrite !w_exists_set. tauto.
Qed.
Lemma create_absent w c a :
  ¬ is_Some (w_accounts w c) →
  w_balance (vm_CreateAccount c w) a = w_balance w a ∧ w_nonce (vm_CreateAccount c w) a = w_nonce w a ∧
  (is_Some (w_accounts (vm_CreateAccount c w) a) ↔ a = c ∨ is_Some (w_accounts w a)).
Proof.
  intros Hc. cbn [vm_CreateAccount world_vm]. rewrite w_balance_set, w_nonce_set, w_exists_set.
  split; [by case_decide; subst|]. split; [|done]. case_decide; [|done]. subst.
  unfold w_nonce. by apply eq_None_not_Some in Hc as ->.
Qed.

(** The accounts after the call. *)
Lemma called_world_accounts w a :
  w_balance (called_world w) a = w_balance w a - (if decide (a = msgFrom msg) then fee msg + moved evm msg else 0) +
    (if decide (a = to msg) then moved evm msg else 0) ∧
  w_nonce (called_world w) a = (if decide (a = msgFrom msg) then (w_nonce w a + 1)%u64 else w_nonce w a) ∧
  (is_Some (w_accounts (called_world w) a) ↔ is_Some (w_accounts w a) ∨ a = msgFrom msg ∨
    (a = to msg ∧ enough_depth evm = true ∧ msgAmount msg ≠ 0)).
Proof.
  unfold called_world. set (w1 := vm_SubBalance _ _ w). set (w2 := vm_SetNonce _ _ w1).
  assert (∀ c, w_balance w2 c = w_balance w c - (if decide (c = msgFrom msg) then fee msg else 0)) as Hbal.
  { intros c. unfold w2, w1. cbn [vm_SetNonce vm_SubBalance world_vm]. rewrite !w_balance_set.
    repeat case_decide; subst; try done; lia. }
  assert (∀ c, w_nonce w2 c = if decide (c = msgFrom msg) then (w_nonce w c + 1)%u64 else w_nonce w c) as Hnon.
  { intros c. unfold w2, w1. cbn [vm_SetNonce vm_SubBalance world_vm]. rewrite !w_nonce_set.
    repeat case_decide; by subst. }
  assert (∀ c, is_Some (w_accounts w2 c) ↔ is_Some (w_accounts w c) ∨ c = msgFrom msg) as Hex.
  { intros c. unfold w2, w1. cbn [vm_SetNonce vm_SubBalance world_vm]. rewrite !w_exists_set. tauto. }
  unfold moved. destruct (enough_depth evm); [|rewrite Hbal, Hnon, Hex; split_and!;
    [repeat case_decide; lia|done|naive_solver]].
  case_bool_decide as Hto.
  - rewrite Transfer_balance, Transfer_nonce, Transfer_exists, Hbal, Hnon, Hex.
    split_and!; [repeat case_decide; lia|done|]. apply Hex in Hto.
    destruct (decide (msgAmount msg = 0)); naive_solver.
  - destruct (msgAmount msg =? 0) eqn:Hz; [apply Z.eqb_eq in Hz; rewrite Hz|apply Z.eqb_neq in Hz].
    + rewrite Hbal, Hnon, Hex. split_and!; [repeat case_decide; lia|done|naive_solver].
    + destruct (create_absent w2 (to msg) a Hto) as (Hb & Hn & He).
      rewrite Transfer_balance, Transfer_nonce, Transfer_exists, Hb, Hn, He, Hbal, Hnon, Hex.
      split_and!; [repeat case_decide; lia|done|naive_solver].
Qed.

(** The accounts afterwards. *)
Lemma settled_world_settled used w : settled evm msg used w (settled_world used w).
Proof.
  split; [apply called_world_refund|]. intros a. destruct (called_world_accounts w a) as (Hb & Hn & He).
  unfold settled_world, transfer_of. set (back := (_ - used) * _). set (w1 := called_world w) in *.
  assert (∀ c, w_balance (vm_AddBalance (Coinbase evm) (used * msgGasPrice msg) (vm_AddBalance (msgFrom msg) back w1)) c =
    w_balance w1 c + (if decide (c = msgFrom msg) then back else 0) +
    (if decide (c = Coinbase evm) then used * msgGasPrice msg else 0)) as Hadd.
  { intros c. cbn [vm_AddBalance world_vm]. rewrite !w_balance_set.
    destruct (decide (c = Coinbase evm)) as [->|Hc]; [destruct (decide (Coinbase evm = msgFrom msg)) as [->|]|];
      repeat case_decide; subst; try done; lia. }
  rewrite Hadd. cbn [vm_AddBalance world_vm]. rewrite !w_nonce_set, !w_exists_set, He, Hb. unfold fee, back.
  split_and!; [repeat case_decide; lia| |naive_solver].
  repeat case_decide; subst; try done; congruence.
Qed.
End world.
