(* ===== verification/StateTransfer.v ===== *)
(** The state database implements the interface transactions are executed
    on, so their effect is the one proved of the abstract world.

    What executing a message does to the state database: the exact effect on
    every account, the errors in order, conservation of the total balance and
    solvency. *)
From S2P Require Import Prelude Types Sealing Blocks StateDB StateRevert Transition TransitionEffect.

Section implementation.
Context {T : Type} `{StateTrie T} `{StateStore}.
Implicit Types (s : StateDB T) (a b : Address) (o : stateObject).

#[export] Instance statedb_vm : VMState (StateDB T) := {
  vm_GetBalance := GetBalance;
  vm_SubBalance := SubBalance;
  vm_AddBalance := AddBalance;
  vm_GetNonce := GetNonce;
  vm_SetNonce := SetNonce;
  vm_Exist := Exist;
  vm_CreateAccount := CreateAccount;
  vm_GetRefund := GetRefund
}.

(** ** Nonces and balances *)
Definition summary o : Z * Z := (aNonce (oData o), aBalance (oData o)).
Definition account_view s a : option (Z * Z) := summary <$> live a s.

Lemma live_load_same a b s : live b (getStateObject a s).2 = live b s.
Proof.
  destruct (getStateObject_run a s) as (s' & -> & _ & _ & _ & _ & _ & _ & [->|(o & Ho & ->)]); [done|].
  cbn. rewrite live_set. case_decide; [|done]. subst. by rewrite (live_not_deleted _ _ _ Ho).
Qed.
Lemma live_journal b e s : live b (journal_append e s) = live b s.
Proof. by rewrite !live_unfold. Qed.

(** What is kept by loading: everything that can be observed here. *)
Definition same_accounts s s' : Prop := (∀ b, live b s' = live b s) ∧ refund s' = refund s.
Lemma load_run a s : ∃ s', getStateObject a s = (live a s, s') ∧ same_accounts s s'.
Proof.
  pose proof (live_load_same a) as Hl. destruct (getStateObject_run a s) as (s' & Hrun & Hq & _).
  exists s'. split; [done|]. split; [|apply Hq]. intros b. specialize (Hl b s). by rewrite Hrun in Hl.
Qed.

Lemma getOrNew_run a s :
  ∃ s', GetOrNewStateObject a s = (default blank_object (live a s), s') ∧ refund s' = refund s ∧
    ∀ b, live b s' = if decide (b = a) then Some (default blank_object (live a s)) else live b s.
Proof.
  unfold GetOrNewStateObject. destruct (load_run a s) as (s1 & -> & Hl1 & Hr1).
  destruct (live a s) as [o|] eqn:Hl.
  - exists s1. split_and!; [done|done|]. intros b. rewrite Hl1. case_decide as Hb; [by rewrite Hb, Hl|done].
  - unfold createObject. destruct (load_run a s1) as (s2 & -> & Hl2 & Hr2). rewrite Hl1, Hl.
    eexists. split; [done|]. split; [cbn; congruence|]. intros b. rewrite live_set, live_journal, Hl2, Hl1.
    by case_decide.
Qed.

Definition stands_for s (w : World) : Prop :=
  (∀ a, account_view s a = w_accounts w a) ∧ refund s = w_refund w.

Lemma stands_for_balance s w a :
  stands_for s w → w_balance w a = match live a s with Some o => aBalance (oData o) | None => 0 end.
Proof. intros [Ha _]. unfold w_balance. rewrite <- Ha. unfold account_view. by destruct (live a s). Qed.
Lemma stands_for_nonce s w a :
  stands_for s w → w_nonce w a = match live a s with Some o => aNonce (oData o) | None => 0 end.
Proof. intros [Ha _]. unfold w_nonce. rewrite <- Ha. unfold account_view. by destruct (live a s). Qed.
Lemma stands_for_load s s' w : stands_for s w → same_accounts s s' → stands_for s' w.
Proof. intros [Ha Hr] [Hl Hr']. split; [|congruence]. intros a. unfold account_view. rewrite Hl. apply Ha. Qed.

(** An update through [GetOrNewStateObject]. *)
Lemma stands_for_update a n b s w (f : stateObject → StateDB T → StateDB T) :
  stands_for s w →
  (∀ o s', live a s' = Some o → o = default blank_object (live a s) → refund s' = refund s →
     refund (f o s') = refund s' ∧
     ∀ c, account_view (f o s') c = if decide (c = a) then Some (n, b) else account_view s' c) →
  stands_for (let '(o, s') := GetOrNewStateObject a s in f o s') (w_set a n b w).
Proof.
  intros [Ha Hr] Hf. destruct (getOrNew_run a s) as (s' & -> & Hr' & Hl).
  destruct (Hf (default blank_object (live a s)) s') as [Hrf Hv]; [|done|done|].
  - by rewrite Hl, decide_True.
  - split; [|cbn; congruence]. intros c. rewrite Hv. cbn. case_decide; [done|].
    unfold account_view. rewrite Hl, decide_False by done. apply Ha.
Qed.

Lemma view_set a o e s c :
  oDeleted o = false →
  account_view (setStateObject a o (journal_append e s)) c =
    if decide (c = a) then Some (summary o) else account_view s c.
Proof. intros Hd. unfold account_view. rewrite live_set, live_journal, Hd. by case_decide. Qed.
Lemma view_touch a s c : account_view (touch a s) c = account_view s c.
Proof. unfold touch, account_view. case_bool_decide; by rewrite !live_unfold. Qed.

(** The object found is the one of the world. *)
Lemma blank_summary s w a o :
  stands_for s w → o = default blank_object (live a s) → summary o = (w_nonce w a, w_balance w a).
Proof.
  intros Hs ->. rewrite (stands_for_nonce s w a Hs), (stands_for_balance s w a Hs).
  by destruct (live a s).
Qed.

Lemma stands_for_AddBalance a x s w : stands_for s w → stands_for (AddBalance a x s) (vm_AddBalance a x w).
Proof.
  intros Hs. cbn [vm_AddBalance world_vm]. unfold AddBalance. apply stands_for_update; [done|].
  intros o s' Hl Ho Hr. pose proof (blank_summary s w a o Hs Ho) as Hsum. injection Hsum as Hn Hb.
  destruct (Z.eqb_spec x 0) as [->|Hx].
  - split; [destruct (empty_object o); [unfold touch; by case_bool_decide|done]|]. intros c.
    assert (account_view (if empty_object o then touch a s' else s') c = account_view s' c) as ->
      by (destruct (empty_object o); [apply view_touch|done]).
    case_decide as Hc; [|done]. rewrite Hc. unfold account_view, summary. rewrite Hl. cbn. rewrite Hn, Hb. do 2 f_equal. lia.
  - split; [done|]. intros c. unfold object_SetBalance.
    rewrite view_set by exact (live_not_deleted a s' o Hl). case_decide; [|done]. unfold summary. cbn. by rewrite Hn, Hb.
Qed.
Lemma stands_for_SubBalance a x s w : stands_for s w → stands_for (SubBalance a x s) (vm_SubBalance a x w).
Proof.
  intros Hs. cbn [vm_SubBalance world_vm]. unfold SubBalance. apply stands_for_update; [done|].
  intros o s' Hl Ho Hr. pose proof (blank_summary s w a o Hs Ho) as Hsum. injection Hsum as Hn Hb.
  destruct (Z.eqb_spec x 0) as [->|Hx]; (split; [done|]); intros c.
  - case_decide as Hc; [|done]. rewrite Hc. unfold account_view, summary. rewrite Hl. cbn. rewrite Hn, Hb. do 2 f_equal. lia.
  - unfold object_SetBalance.
    rewrite view_set by exact (live_not_deleted a s' o Hl). case_decide; [|done]. unfold summary. cbn. by rewrite Hn, Hb.
Qed.
Lemma stands_for_SetNonce a n s w : stands_for s w → stands_for (SetNonce a n s) (vm_SetNonce a n w).
Proof.
  intros Hs. cbn [vm_SetNonce world_vm]. unfold SetNonce. apply stands_for_update; [done|].
  intros o s' Hl Ho Hr. pose proof (blank_summary s w a o Hs Ho) as Hsum. injection Hsum as Hn Hb.
  split; [done|]. intros c.
  rewrite view_set by exact (live_not_deleted a s' o Hl). case_decide; [|done]. unfold summary. cbn. by rewrite Hb.
Qed.
Lemma stands_for_CreateAccount a s w : stands_for s w → stands_for (CreateAccount a s) (vm_CreateAccount a w).
Proof.
  intros Hs. cbn [vm_CreateAccount world_vm]. rewrite (stands_for_balance s w a Hs). destruct Hs as [Ha Hr].
  unfold CreateAccount, createObject. destruct (load_run a s) as (s1 & -> & Hl1 & Hr1).
  assert (∀ o c (t : StateDB T), (∀ c, c ≠ a → live c t = live c s1) → oDeleted o = false →
    account_view (setStateObject a o t) c = if decide (c = a) then Some (summary o) else account_view s c) as Hset.
  { intros o c t Ht Hd. unfold account_view. rewrite live_set, Hd. case_decide; [done|]. by rewrite Ht, Hl1. }
  destruct (live a s) as [p|]; (split; [|cbn; congruence]); intros c.
  - rewrite (Hset _ c); [|intros d Hd; by rewrite live_set, live_journal, decide_False|done].
    cbn. case_decide; [done|apply Ha].
  - rewrite (Hset _ c); [|intros d Hd; by rewrite live_journal|done].
    cbn. case_decide; [done|apply Ha].
Qed.

#[export] Instance statedb_vm_laws : VMStateLaws (StateDB T).
Proof.
  apply (Build_VMStateLaws (StateDB T) _ stands_for).
  - intros a s w Hs. cbn. unfold GetBalance. rewrite (stands_for_balance s w a Hs).
    destruct (load_run a s) as (s' & -> & Hk). split; [done|]. by eapply stands_for_load.
  - intros a x s w. apply stands_for_SubBalance.
  - intros a x s w. apply stands_for_AddBalance.
  - intros a s w Hs. cbn. unfold GetNonce. rewrite (stands_for_nonce s w a Hs).
    destruct (load_run a s) as (s' & -> & Hk). split; [done|]. by eapply stands_for_load.
  - intros a n s w. apply stands_for_SetNonce.
  - intros a s w Hs. cbn. unfold Exist. destruct (load_run a s) as (s' & -> & Hk). cbn.
    split; [|by eapply stands_for_load]. destruct Hs as [<- _]. unfold account_view. by destruct (live a s).
  - intros a s w Hs _. by apply stands_for_CreateAccount.
  - intros s w Hs. apply Hs.
Defined.
End implementation.

(** * Sums of balances *)
Fixpoint total (f : Address → Z) (l : list Address) : Z :=
  match l with [] => 0 | a :: l' => f a + total f l' end.

Lemma total_add f g l : total (λ a, f a + g a) l = total f l + total g l.
Proof. induction l as [|a l IH]; cbn; [done|]. rewrite IH. lia. Qed.
Lemma total_ext f g l : (∀ a, f a = g a) → total f l = total g l.
Proof. intros Hfg. induction l as [|a l IH]; cbn; [done|]. by rewrite Hfg, IH. Qed.
Lemma total_zero f l : (∀ a, a ∈ l → f a = 0) → total f l = 0.
Proof.
  induction l as [|a l IH]; intros Hz; cbn; [done|]. rewrite IH by (intros; apply Hz; by right).
  rewrite Hz by by left. done.
Qed.
Lemma total_single x k l : NoDup l → x ∈ l → total (λ a, if decide (a = x) then k else 0) l = k.
Proof.
  induction l as [|a l IH]; intros Hnd Hx; [by apply elem_of_nil in Hx|]. cbn.
  apply NoDup_cons in Hnd as [Ha Hnd]. case_decide as Hax.
  - subst. rewrite total_zero; [lia|]. intros b Hb. case_decide; [by subst|done].
  - apply elem_of_cons in Hx as [?|Hx]; [congruence|]. rewrite IH by done. lia.
Qed.

Lemma total_transfer evm msg used l :
  NoDup l → msgFrom msg ∈ l → to msg ∈ l → Coinbase evm ∈ l → total (transfer_of evm msg used) l = 0.
Proof.
  intros Hnd Hf Ht Hc. unfold transfer_of. rewrite total_add, total_add, !total_single by done. lia.
Qed.

Section effect.
Context {T : Type} `{StateTrie T} `{StateStore}.
Implicit Types (s : StateDB T) (a : Address).

Definition world_of s : World := mkWorld (account_view s) (refund s).
Lemma world_of_stands s : stands_for s (world_of s).
Proof. by split. Qed.

Lemma GetBalance_world s w a : stands_for s w → (GetBalance a s).1 = w_balance w a.
Proof. intros Hs. unfold GetBalance. rewrite (stands_for_balance s w a Hs). by destruct (load_run a s) as (s' & -> & _). Qed.
Lemma GetNonce_world s w a : stands_for s w → (GetNonce a s).1 = w_nonce w a.
Proof. intros Hs. unfold GetNonce. rewrite (stands_for_nonce s w a Hs). by destruct (load_run a s) as (s' & -> & _). Qed.
Lemma Exist_world s w a : stands_for s w → (Exist a s).1 = bool_decide (is_Some (w_accounts w a)).
Proof.
  intros [Ha _]. unfold Exist. destruct (load_run a s) as (s' & -> & _). rewrite <- Ha. unfold account_view.
  cbn. by destruct (live a s).
Qed.

(** The run on the abstract world, carried over. *)
Lemma ApplyMessage_world evm msg gp s w st :
  stands_for s w → TransitionDb evm msg (mkST gp 0 0 w) = st →
  ∃ s', ApplyMessage evm msg gp s = (st.1, (st_gp st.2, s')) ∧ stands_for s' (st_state st.2).
Proof.
  intros Hs <-. destruct (TransitionDb_sim (S := StateDB T) evm msg (mkST gp 0 0 s) (mkST gp 0 0 w)) as [Ho (Hgp & _ & _ & Hr)];
    [split; [done|]; split; [done|]; split; [done|exact Hs]|].
  unfold ApplyMessage. destruct (TransitionDb evm msg (mkST gp 0 0 s)) as [r st]. cbn [fst snd] in *. subst r.
  exists (st_state st). by rewrite Hgp.
Qed.

Lemma ApplyMessage_run evm msg gp s :
  is_u64 gp → message_ok msg → is_u64 (refund s) →
  match transition_check evm msg gp (world_of s) with
  | Some e => ∃ gp' s', ApplyMessage evm msg gp s = (Err e, (gp', s')) ∧
      gp' = (if after_purchase e then gp - msgGasLimit msg else gp) ∧
      (after_purchase e = false → stands_for s' (world_of s))
  | None =>
      let used := gas_charged msg (refund s) in
      ∃ s' w', ApplyMessage evm msg gp s = (Ok ([], used, negb (enough_depth evm)), (gp - used, s')) ∧
        stands_for s' w' ∧ settled evm msg used (world_of s) w'
  end.
Proof.
  intros Hgp Hmsg Hr. pose proof (TransitionDb_world evm msg gp (world_of s) Hgp Hmsg Hr) as Hrun.
  destruct (transition_check evm msg gp (world_of s)) as [e|].
  - destruct Hrun as (st & Hrun & Hpool & Hkeep).
    destruct (ApplyMessage_world evm msg gp s _ _ (world_of_stands s) Hrun) as (s' & Happ & Hs').
    exists (st_gp st), s'. split_and!; [done|done|]. intros He. by rewrite <- (Hkeep He).
  - destruct Hrun as (st & Hrun & Hpool & Hst).
    destruct (ApplyMessage_world evm msg gp s _ _ (world_of_stands s) Hrun) as (s' & Happ & Hs').
    exists s', (st_state st). cbn [fst snd] in Happ. rewrite Hpool in Happ. split_and!; [done|done|].
    rewrite Hst. apply settled_world_settled.
Qed.

(** C30: a message that passes the checks is executed: the sender's nonce goes up
    by one, the sender pays the value and the gas used, the recipient receives
    the value, the coinbase the fee, and no other account changes, whichever of
    the three coincide.  The gas used is the intrinsic gas less the refund, at
    most the limit of the message, and is what the block's pool loses. *)
Theorem ApplyMessage_settles evm msg gp s :
  is_u64 gp → message_ok msg → is_u64 (refund s) → transition_check evm msg gp (world_of s) = None →
  let used := gas_charged msg (refund s) in
  0 ≤ used ≤ msgGasLimit msg ∧
  ∃ s', ApplyMessage evm msg gp s = (Ok ([], used, negb (enough_depth evm)), (gp - used, s')) ∧ ∀ a,
    (GetBalance a s').1 = (GetBalance a s).1 + transfer_of evm msg used a ∧
    (GetNonce a s').1 = (if decide (a = msgFrom msg) then ((GetNonce a s).1 + 1)%u64 else (GetNonce a s).1) ∧
    ((Exist a s').1 = true ↔ (Exist a s).1 = true ∨ a = msgFrom msg ∨ a = Coinbase evm ∨
      (a = to msg ∧ enough_depth evm = true ∧ msgAmount msg ≠ 0)).
Proof.
  intros Hgp Hmsg Hr Hcheck used. pose proof (ApplyMessage_run evm msg gp s Hgp Hmsg Hr) as Hrun.
  rewrite Hcheck in Hrun. destruct Hrun as (s' & w' & Happ & Hs' & _ & Hset). split.
  - pose proof (gas_charged_bounds msg (refund s) ltac:(apply Hr) (cost_of_bound msg)) as Hb. fold used in Hb.
    pose proof (transition_check_funds _ _ _ _ Hcheck) as [Hcost _]. lia.
  - exists s'. split; [done|]. intros a. destruct (Hset a) as (Hb & Hn & He).
    rewrite !(GetBalance_world s' w'), !(GetNonce_world s' w'), !(Exist_world s' w') by done.
    rewrite !(GetBalance_world s _ _ (world_of_stands s)), !(GetNonce_world s _ _ (world_of_stands s)),
      !(Exist_world s _ _ (world_of_stands s)), !bool_decide_eq_true. done.
Qed.

(** a message that fails a check is refused with the error of the first
    check it fails, in the order nonce, funds for the gas, gas left in the
    block, intrinsic gas, funds for the value.  The first four leave every
    account and the gas pool as they were; the last two come after the gas was
    bought and leave the pool without it, for the caller to revert. *)
Theorem ApplyMessage_refuses evm msg gp s e :
  is_u64 gp → message_ok msg → is_u64 (refund s) → transition_check evm msg gp (world_of s) = Some e →
  ∃ gp' s', ApplyMessage evm msg gp s = (Err e, (gp', s')) ∧
    gp' = (if after_purchase e then gp - msgGasLimit msg else gp) ∧
    (after_purchase e = false → ∀ a,
      (GetBalance a s').1 = (GetBalance a s).1 ∧ (GetNonce a s').1 = (GetNonce a s).1 ∧
      (Exist a s').1 = (Exist a s).1).
Proof.
  intros Hgp Hmsg Hr Hcheck. pose proof (ApplyMessage_run evm msg gp s Hgp Hmsg Hr) as Hrun.
  rewrite Hcheck in Hrun. destruct Hrun as (gp' & s' & Happ & Hpool & Hkeep).
  exists gp', s'. split_and!; [done|done|]. intros He a. specialize (Hkeep He). pose proof (world_of_stands s) as Hs.
  by rewrite !(GetBalance_world s' _ a Hkeep), !(GetNonce_world s' _ a Hkeep), !(Exist_world s' _ a Hkeep),
    !(GetBalance_world s _ a Hs), !(GetNonce_world s _ a Hs), !(Exist_world s _ a Hs).
Qed.

(** executing a message creates and destroys no money: over any accounts
    that include the sender, the recipient and the coinbase the balances sum to
    what they did before. *)
Theorem ApplyMessage_conserves evm msg gp s r gp' s' l :
  is_u64 gp → message_ok msg → is_u64 (refund s) → ApplyMessage evm msg gp s = (Ok r, (gp', s')) →
  NoDup l → msgFrom msg ∈ l → to msg ∈ l → Coinbase evm ∈ l →
  total (λ a, (GetBalance a s').1) l = total (λ a, (GetBalance a s).1) l.
Proof.
  intros Hgp Hmsg Hr Happ Hnd Hf Ht Hc. pose proof (ApplyMessage_run evm msg gp s Hgp Hmsg Hr) as Hrun.
  destruct (transition_check evm msg gp (world_of s)) as [e|].
  { destruct Hrun as (g & t & Hrun & _). congruence. }
  destruct Hrun as (t & w' & Hrun & Hs' & _ & Hset). rewrite Happ in Hrun. injection Hrun as _ _ ->.
  rewrite (total_ext _ (λ a, (GetBalance a s).1 + transfer_of evm msg (gas_charged msg (refund s)) a)).
  - rewrite total_add, total_transfer by done. lia.
  - intros a. rewrite (GetBalance_world t w' a Hs'), (GetBalance_world s _ a (world_of_stands s)). apply Hset.
Qed.

(** No account is overdrawn: from balances, a price and a value that are not
    negative, execution leaves no negative balance. *)
Theorem ApplyMessage_solvent evm msg gp s r gp' s' :
  is_u64 gp → message_ok msg → is_u64 (refund s) → 0 ≤ msgGasPrice msg → 0 ≤ msgAmount msg →
  (∀ a, 0 ≤ (GetBalance a s).1) → ApplyMessage evm msg gp s = (Ok r, (gp', s')) →
  ∀ a, 0 ≤ (GetBalance a s').1.
Proof.
  intros Hgp Hmsg Hr Hprice Hvalue Hpos Happ a. pose proof (ApplyMessage_run evm msg gp s Hgp Hmsg Hr) as Hrun.
  destruct (transition_check evm msg gp (world_of s)) as [e|] eqn:Hcheck.
  { destruct Hrun as (g & t & Hrun & _). congruence. }
  destruct Hrun as (t & w' & Hrun & Hs' & _ & Hset). rewrite Happ in Hrun. injection Hrun as _ _ ->.
  rewrite (GetBalance_world t w' a Hs'). destruct (Hset a) as [-> _].
  specialize (Hpos a). rewrite (GetBalance_world s _ a (world_of_stands s)) in Hpos.
  pose proof (gas_charged_bounds msg (refund s) ltac:(apply Hr) (cost_of_bound msg)) as Hused.
  destruct (transition_check_funds _ _ _ _ Hcheck) as [Hcost Hfunds].
  unfold transfer_of. set (used := gas_charged msg (refund s)) in *.
  assert (0 ≤ used * msgGasPrice msg ≤ fee msg) as Hfee.
  { unfold fee. split; [apply Z.mul_nonneg_nonneg; lia|]. apply Z.mul_le_mono_nonneg_r; lia. }
  assert (0 ≤ moved evm msg) as Hmoved by (unfold moved; destruct (enough_depth evm); lia).
  repeat case_decide; subst; lia.
Qed.
End effect.
