(* ===== verification/TxSigning.v ===== *)
(** Transaction signatures ([core/types/transaction_signing.go], and the parts of
    [core/types/transaction.go] that carry them): the signers, recovering the
    sender, and the sender cache of a transaction. *)
From S2P Require Import Prelude Types Sealing.

(** * Big integers as bytes *)

(** [big.Int.BitLen], [big.Int.Uint64] and [big.Int.Bytes] look at the absolute
    value. *)
Definition BitLen (x : Z) : Z := if x =? 0 then 0 else Z.log2 (Z.abs x) + 1.
Definition Uint64 (x : Z) : Z := wrap64 (Z.abs x).
Definition big_Bytes (x : Z) : list byte := array_bytes (Z.to_nat ((BitLen x + 7) / 8)) (Z.abs x).
(** [copy(sig[n-len(b):n], b)] into [n] zero bytes; a longer [b] is a slice
    bound out of range. *)
Definition pad_left {E} (n : nat) (b : list byte) : Result E (list byte) :=
  if bool_decide (n < length b)%nat then Panic IndexOutOfRange
  else Ok (replicate (n - length b) 0 ++ b).

Inductive tx_error := ErrInvalidSig | ErrInvalidChainId | errInvalidPublicKey | errTxCrypto.

(** * What is signed

    The fields listed to [rlpHash]; the chain id is followed by two zeros. *)
Definition UnsignedTx : Type := Z * Z * Z * option Address * Z * list byte * option Z.
Definition unsigned (tx : Transaction) (chainId : option Z) : UnsignedTx :=
  (AccountNonce tx, Price tx, TxGasLimit tx, Recipient tx, Amount tx, Payload tx, chainId).

(** [rlpHash] on lists of fields and on transactions, and the validation of
    signature values of [go-ethereum/crypto]. *)
Class TxCrypto := {
  rlpHash_unsigned : UnsignedTx → Hash;
  rlpHash_tx : Transaction → Hash;
  crypto_ValidateSignatureValues : Z → Z → Z → bool → bool
}.

(** * Signers *)
Inductive Signer := EIP155Signer (chainId : Z) | HomesteadSigner | FrontierSigner.
#[export] Instance signer_eq_dec : EqDecision Signer.
Proof. solve_decision. Defined.
Definition Signer_Equal (s s2 : Signer) : bool := bool_decide (s = s2).
Definition NewEIP155Signer (chainId : option Z) : Signer := EIP155Signer (default 0 chainId).
Definition MakeSigner (chainId : option Z) : Signer := NewEIP155Signer chainId.

Definition isProtectedV (V : Z) : bool :=
  if BitLen V <=? 8 then negb (Uint64 V =? 27) && negb (Uint64 V =? 28) else true.
Definition deriveChainId (v : Z) : Z :=
  if BitLen v <=? 64 then
    let v := Uint64 v in
    if (v =? 27) || (v =? 28) then 0 else (v - 35)%u64 / 2
  else (v - 35) / 2.
Definition Protected (tx : Transaction) : bool := isProtectedV (SigV tx).
Definition ChainId (tx : Transaction) : Z := deriveChainId (SigV tx).

Section signing.
Context `{Crypto} `{TxCrypto}.

Definition Signer_Hash (s : Signer) (tx : Transaction) : Hash :=
  match s with
  | EIP155Signer chainId => rlpHash_unsigned (unsigned tx (Some chainId))
  | HomesteadSigner | FrontierSigner => rlpHash_unsigned (unsigned tx None)
  end.

Definition recoverPlain (sighash : Hash) (R S Vb : Z) (homestead : bool) : Result tx_error Address :=
  if 8 <? BitLen Vb then Err ErrInvalidSig else
  let V := (Uint64 Vb - 27)%u64 mod 256 in
  if negb (crypto_ValidateSignatureValues V R S homestead) then Err ErrInvalidSig else
  r ← pad_left 32 (big_Bytes R);
  s ← pad_left 32 (big_Bytes S);
  match crypto_Ecrecover sighash (r ++ s ++ [V]) with
  | None => Err errTxCrypto
  | Some (4 :: pub) => Ok (copy_address (drop 12 (crypto_Keccak256 pub)))
  | Some _ => Err errInvalidPublicKey
  end.

Definition Signer_Sender (s : Signer) (tx : Transaction) : Result tx_error Address :=
  match s with
  | EIP155Signer chainId =>
      if negb (Protected tx) then
        recoverPlain (Signer_Hash HomesteadSigner tx) (SigR tx) (SigS tx) (SigV tx) true
      else if negb (ChainId tx =? chainId) then Err ErrInvalidChainId
      else recoverPlain (Signer_Hash s tx) (SigR tx) (SigS tx) (SigV tx - chainId * 2 - 8) true
  | HomesteadSigner => recoverPlain (Signer_Hash s tx) (SigR tx) (SigS tx) (SigV tx) true
  | FrontierSigner => recoverPlain (Signer_Hash s tx) (SigR tx) (SigS tx) (SigV tx) false
  end.

(** The signature is [R || S || V]; a wrong size panics. *)
Definition SignatureValues (s : Signer) (sig : list byte) : Result tx_error (Z * Z * Z) :=
  if negb (bool_decide (length sig = 65%nat)) then Panic (ExplicitPanic "wrong size for signature") else
  let r := bytes_array (take 32 sig) in
  let v := default 0 (sig !! 64%nat) in
  let sv := bytes_array (take 32 (drop 32 sig)) in
  match s with
  | EIP155Signer chainId =>
      if chainId =? 0 then Ok (r, sv, (v + 27) mod 256)
      else Ok (r, sv, (v + 35) mod 256 + chainId * 2)
  | HomesteadSigner | FrontierSigner => Ok (r, sv, (v + 27) mod 256)
  end.

Definition WithSignature (tx : Transaction) (s : Signer) (sig : list byte) : Result tx_error Transaction :=
  '(r, sv, v) ← SignatureValues s sig;
  mret (mkTransaction (AccountNonce tx) (Price tx) (TxGasLimit tx) (Recipient tx) (Amount tx) (Payload tx) v r sv).

(** [crypto.Sign] with a private key is the argument [sign]. *)
Definition SignTx (tx : Transaction) (s : Signer) (sign : Hash → option (list byte)) : Result tx_error Transaction :=
  match sign (Signer_Hash s tx) with
  | None => Err errTxCrypto
  | Some sig => WithSignature tx s sig
  end.

(** ** The sender cache of a transaction *)
Definition Sender (s : Signer) (tx : Transaction) : GoM (option (Signer * Address)) tx_error Address :=
  cached ← get_state;
  match cached with
  | Some (signer, from) =>
      if Signer_Equal signer s then mret from else
      addr ← lift (Signer_Sender s tx);
      put_state (Some (s, addr));;
      mret addr
  | None =>
      addr ← lift (Signer_Sender s tx);
      put_state (Some (s, addr));;
      mret addr
  end.

(** A cache holds what the signer it names recovers. *)
Definition sender_coherent (tx : Transaction) (c : option (Signer * Address)) : Prop :=
  ∀ s a, c = Some (s, a) → Signer_Sender s tx = Ok a.

Lemma Sender_coherent s tx c :
  sender_coherent tx c →
  ∃ c', Sender s tx c = (Signer_Sender s tx, c') ∧ sender_coherent tx c'.
Proof.
  intros Hc. unfold Sender, mbind, gom_bind, get_state, put_state, lift.
  assert (∃ c', match Signer_Sender s tx with
    | Ok a => (Ok a, Some (s, a)) | Err e => (Err e, c) | Panic p => (Panic p, c) end = (Signer_Sender s tx, c') ∧
    sender_coherent tx c') as (c' & Hrun & Hc').
  { destruct (Signer_Sender s tx) as [a|e|p] eqn:Hs; eexists; (split; [done|]); [|done..].
    by intros s' a' [= <- <-]. }
  destruct c as [[signer from]|].
  - unfold Signer_Equal. case_bool_decide as Heq.
    + subst. exists (Some (s, from)). split; [|done]. by rewrite (Hc s from eq_refl).
    + exists c'. split; [|done]. by destruct (Signer_Sender s tx).
  - exists c'. split; [|done]. by destruct (Signer_Sender s tx).
Qed.
End signing.

(** * Signature bytes *)
Lemma bytes_array_nonneg l : Forall is_byte l → 0 ≤ bytes_array l < 256 ^ Z.of_nat (length l).
Proof.
  intros Hl. induction l as [|b l IH] using rev_ind; [cbn; lia|].
  apply Forall_app in Hl as [Hl Hb]. apply Forall_cons in Hb as [Hb _]. unfold is_byte in Hb.
  specialize (IH Hl). rewrite bytes_array_app, length_app. cbn [length].
  rewrite Nat2Z.inj_add, Z.pow_add_r by lia. change (256 ^ Z.of_nat 1) with 256. set (p := 256 ^ Z.of_nat (length l)) in *. lia.
Qed.

Lemma array_bytes_of_list l : Forall is_byte l → array_bytes (length l) (bytes_array l) = l.
Proof.
  intros Hl. induction l as [|b l IH] using rev_ind; [done|].
  apply Forall_app in Hl as [Hl Hb]. apply Forall_cons in Hb as [Hb _]. unfold is_byte in Hb.
  rewrite length_app, Nat.add_comm, bytes_array_app. cbn [length plus array_bytes].
  rewrite (Z.add_comm _ b), Z.div_add, Z.mod_add by done. rewrite Z.div_small, Z.mod_small by lia.
  by rewrite Z.add_0_l, IH.
Qed.

(** The number spelled, padded back, is the bytes. *)
Lemma array_bytes_pad n k x :
  0 ≤ x < 256 ^ Z.of_nat k → (k ≤ n)%nat → replicate (n - k) 0 ++ array_bytes k x = array_bytes n x.
Proof.
  revert n x. induction k as [|k IH]; intros n x Hx Hle.
  - cbn in *. assert (x = 0) as -> by (change (256 ^ Z.of_nat 0) with 1 in Hx; lia).
    rewrite app_nil_r, Nat.sub_0_r. clear. induction n as [|n IH]; [done|].
    cbn [array_bytes]. change (0 / 256) with 0. rewrite <- IH. change (0 mod 256) with 0.
    by rewrite replicate_S_end.
  - destruct n as [|n]; [lia|]. cbn [array_bytes]. rewrite Nat2Z.inj_succ, Z.pow_succ_r in Hx by lia.
    rewrite app_assoc. f_equal. apply IH; [|lia]. split; [apply Z.div_pos; lia|apply Z.div_lt_upper_bound; lia].
Qed.

Lemma big_Bytes_length x n :
  0 ≤ x < 256 ^ Z.of_nat n → (length (big_Bytes x) ≤ n)%nat ∧ x < 256 ^ Z.of_nat (length (big_Bytes x)).
Proof.
  intros Hx. unfold big_Bytes, BitLen. rewrite array_bytes_length, Z.abs_eq by lia.
  destruct (Z.eqb_spec x 0) as [->|Hne].
  { change (Z.to_nat ((0 + 7) / 8)) with 0%nat. cbn. lia. }
  assert (0 < x) as Hpos by lia. pose proof (Z.log2_nonneg x) as Hl0.
  assert (Z.log2 x < 8 * Z.of_nat n) as Hlt.
  { apply Z.log2_lt_pow2; [done|]. rewrite Z.pow_mul_r by lia. apply Hx. }
  pose proof (Z.div_mod (Z.log2 x + 1 + 7) 8 ltac:(done)) as Hdm.
  pose proof (Z.mod_pos_bound (Z.log2 x + 1 + 7) 8 ltac:(done)) as Hmb.
  split; [lia|]. rewrite Z2Nat.id by lia. change 256 with (2 ^ 8). rewrite <- Z.pow_mul_r by lia.
  eapply Z.lt_le_trans; [apply (Z.log2_spec x Hpos)|]. apply Z.pow_le_mono_r; lia.
Qed.

Lemma pad_big_Bytes {E} l :
  Forall is_byte l → pad_left (E := E) (length l) (big_Bytes (bytes_array l)) = Ok l.
Proof.
  intros Hl. pose proof (bytes_array_nonneg l Hl) as Hx. destruct (big_Bytes_length _ _ Hx) as [Hle Hlt].
  unfold pad_left. rewrite bool_decide_false by lia. f_equal.
  transitivity (array_bytes (length l) (bytes_array l)); [|by apply array_bytes_of_list].
  rewrite <- (array_bytes_pad (length l) (length (big_Bytes (bytes_array l)))) by (lia || done).
  f_equal. unfold big_Bytes. by rewrite array_bytes_length, !Z.abs_eq by lia.
Qed.

(** * Signing and recovering *)
Section roundtrip.
Context `{Crypto} `{TxCrypto} (key : Address) (sign : Hash → option (list byte)).

(** [crypto.Sign] with the private key of [key]: a canonical 65-byte signature
    with recovery id 0 or 1, from which [Ecrecover] gives the public key. *)
Definition honest_tx_key : Prop :=
  ∀ h, ∃ rs v pub, sign h = Some (rs ++ [v]) ∧ length rs = 64%nat ∧ Forall is_byte rs ∧ (v = 0 ∨ v = 1) ∧
    crypto_ValidateSignatureValues v (bytes_array (take 32 rs)) (bytes_array (drop 32 rs)) true = true ∧
    crypto_Ecrecover h (rs ++ [v]) = Some (4 :: pub) ∧
    copy_address (drop 12 (crypto_Keccak256 pub)) = key.

(** A transaction with the signature values of a signature of [h]. *)
Definition carries (h : Hash) (v : Z) (tx' : Transaction) : Prop :=
  ∀ vb, Uint64 vb = v + 27 → BitLen vb ≤ 8 → recoverPlain h (SigR tx') (SigS tx') vb true = Ok key.

Definition same_payload (tx tx' : Transaction) : Prop := ∀ c, unsigned tx' c = unsigned tx c.

Definition recovery_of (s : Signer) (v : Z) : Z :=
  match s with
  | EIP155Signer chainId => if chainId =? 0 then v + 27 else v + 35 + chainId * 2
  | _ => v + 27
  end.

Lemma SignTx_run s tx :
  honest_tx_key →
  ∃ tx' v, SignTx tx s sign = Ok tx' ∧ same_payload tx tx' ∧ (v = 0 ∨ v = 1) ∧
    SigV tx' = recovery_of s v ∧ carries (Signer_Hash s tx) v tx'.
Proof.
  intros Hkey. destruct (Hkey (Signer_Hash s tx)) as (rs & v & pub & Hsign & Hlen & Hbytes & Hv & Hval & Hrec & Hpub).
  unfold SignTx. rewrite Hsign. unfold WithSignature, SignatureValues.
  rewrite length_app, Hlen. cbn [length]. rewrite bool_decide_true by done. cbn [negb].
  assert ((rs ++ [v]) !! 64%nat = Some v) as -> by (by rewrite lookup_app_r, Hlen by lia).
  assert (take 32 (rs ++ [v]) = take 32 rs) as -> by (by rewrite take_app_le by lia).
  assert (take 32 (drop 32 (rs ++ [v])) = drop 32 rs) as ->.
  { rewrite drop_app_le by lia. rewrite take_app_le by (rewrite length_drop; lia).
    apply take_ge. rewrite length_drop. lia. }
  cbn [default from_option id].
  assert ((v + 27) mod 256 = v + 27 ∧ (v + 35) mod 256 = v + 35) as [-> ->] by (by destruct Hv as [-> | ->]).
  set (r := bytes_array (take 32 rs)) in *. set (sv := bytes_array (drop 32 rs)) in *.
  assert (∀ tx', SigR tx' = r → SigS tx' = sv → carries (Signer_Hash s tx) v tx') as Hcarry.
  { intros tx' HR HS vb Hvb Hbits. unfold recoverPlain. rewrite (proj2 (Z.ltb_ge _ _)) by done.
    assert ((Uint64 vb - 27)%u64 mod 256 = v) as -> by (rewrite Hvb; by destruct Hv as [-> | ->]).
    rewrite HR, HS, Hval. cbn [negb].
    assert (∀ l : list byte, length l = 32%nat → Forall is_byte l →
      pad_left (E := tx_error) 32 (big_Bytes (bytes_array l)) = Ok l) as Hpad
      by (intros l Hl32 Hb; rewrite <- Hl32; by apply pad_big_Bytes).
    unfold r, sv. rewrite !Hpad by first [by apply Forall_take|by apply Forall_drop|rewrite ?length_take, ?length_drop; lia].
    cbn [mbind result_bind]. rewrite app_assoc, take_drop, Hrec. by rewrite Hpub. }
  destruct s as [chainId| |]; [destruct (chainId =? 0) eqn:Hz|..]; cbn [mbind result_bind]; eexists _, v;
    (split; [reflexivity|]); (split; [done|]); (split; [done|]); (split; [cbn; by rewrite ?Hz|]); by apply Hcarry.
Qed.

(** ** The chain id in a signature *)
Lemma BitLen_bound x k : 0 ≤ x → 0 ≤ k → BitLen x ≤ k → x < 2 ^ k.
Proof.
  unfold BitLen. intros Hx Hk. destruct (Z.eqb_spec x 0) as [->|Hne]; [intros _; apply Z.pow_pos_nonneg; lia|].
  rewrite Z.abs_eq by done. intros Hl. apply Z.log2_lt_pow2; lia.
Qed.
Lemma Uint64_id x : is_u64 x → Uint64 x = x.
Proof. intros Hx. unfold Uint64. rewrite Z.abs_eq by (u64_unfold; lia). by apply wrap64_id. Qed.

Lemma protected_chain v c : v = 0 ∨ v = 1 → 1 ≤ c → isProtectedV (v + 35 + c * 2) = true.
Proof.
  intros Hv Hc. unfold isProtectedV. destruct (Z.leb_spec (BitLen (v + 35 + c * 2)) 8) as [Hb|]; [|done].
  apply BitLen_bound in Hb; [|lia..]. rewrite Uint64_id by (u64_unfold; lia).
  apply andb_true_iff. rewrite !negb_true_iff, !Z.eqb_neq. lia.
Qed.
Lemma derive_chain v c : v = 0 ∨ v = 1 → 1 ≤ c → deriveChainId (v + 35 + c * 2) = c.
Proof.
  intros Hv Hc.
  assert ((v + 35 + c * 2 - 35) / 2 = c) as Hdiv.
  { replace (v + 35 + c * 2 - 35) with (v + c * 2) by lia. rewrite Z.div_add by done.
    destruct Hv as [-> | ->]; [change (0 / 2) with 0|change (1 / 2) with 0]; lia. }
  unfold deriveChainId. destruct (Z.leb_spec (BitLen (v + 35 + c * 2)) 64) as [Hb|]; [|done].
  apply BitLen_bound in Hb; [|lia..]. change (2 ^ 64) with u64_modulus in Hb.
  rewrite Uint64_id by (u64_unfold; lia). cbv zeta.
  rewrite (proj2 (Z.eqb_neq _ 27)), (proj2 (Z.eqb_neq _ 28)) by lia. cbn [orb].
  by rewrite u64_sub_id by (u64_unfold; lia).
Qed.

Definition replay_protected (s : Signer) : Prop := match s with EIP155Signer c => 1 ≤ c | _ => False end.

Lemma recovered_27 tx' h v : v = 0 ∨ v = 1 → carries h v tx' → recoverPlain h (SigR tx') (SigS tx') (v + 27) true = Ok key.
Proof. intros Hv Hc. apply Hc; by destruct Hv as [-> | ->]. Qed.

Lemma homestead_recovers tx c :
  honest_tx_key →
  ∃ tx', SignTx tx HomesteadSigner sign = Ok tx' ∧ same_payload tx tx' ∧
    Signer_Sender HomesteadSigner tx' = Ok key ∧ Signer_Sender (EIP155Signer c) tx' = Ok key.
Proof.
  intros Hkey. destruct (SignTx_run HomesteadSigner tx Hkey) as (tx' & v & Hrun & Hsame & Hv & HV & Hcarry).
  assert (Signer_Hash HomesteadSigner tx' = Signer_Hash HomesteadSigner tx) as Hhash
    by (cbn; by rewrite Hsame).
  exists tx'. split; [done|]. split; [done|]. unfold Signer_Sender, Protected. rewrite Hhash, HV.
  cbn [recovery_of]. rewrite (recovered_27 _ _ _ Hv Hcarry). split; [done|].
  by destruct Hv as [-> | ->].
Qed.

Lemma eip155_recovers tx c c' :
  honest_tx_key → 1 ≤ c →
  ∃ tx', SignTx tx (EIP155Signer c) sign = Ok tx' ∧ same_payload tx tx' ∧
    Signer_Sender (EIP155Signer c') tx' = if c =? c' then Ok key else Err ErrInvalidChainId.
Proof.
  intros Hkey Hc. destruct (SignTx_run (EIP155Signer c) tx Hkey) as (tx' & v & Hrun & Hsame & Hv & HV & Hcarry).
  exists tx'. split; [done|]. split; [done|]. cbn [recovery_of] in HV. rewrite (proj2 (Z.eqb_neq c 0)) in HV by lia.
  unfold Signer_Sender, Protected, ChainId. rewrite HV, protected_chain, derive_chain by done. cbn [negb].
  destruct (Z.eqb_spec c c') as [<-|Hne]; cbn [negb]; [|done].
  assert (Signer_Hash (EIP155Signer c) tx' = Signer_Hash (EIP155Signer c) tx) as -> by (cbn; by rewrite Hsame).
  replace (v + 35 + c * 2 - c * 2 - 8) with (v + 27) by lia. by apply recovered_27.
Qed.
End roundtrip.

Section senders.
Context `{Crypto} `{TxCrypto}.

(** C39: what [SignTx] signs, [Sender] gives back.  A transaction signed for a
    chain id of at least 1, or with the Homestead rules, keeps its payload, and
    the sender recovered from it, through the transaction's own sender cache or
    without it, is the owner of the key. *)
Theorem Sender_SignTx key sign tx s :
  honest_tx_key key sign → s = HomesteadSigner ∨ replay_protected s →
  ∃ tx', SignTx tx s sign = Ok tx' ∧ same_payload tx tx' ∧
    ∀ c, sender_coherent tx' c → (Sender s tx' c).1 = Ok key.
Proof.
  intros Hkey Hs.
  assert (∃ tx', SignTx tx s sign = Ok tx' ∧ same_payload tx tx' ∧ Signer_Sender s tx' = Ok key)
    as (tx' & Hrun & Hsame & Hsender).
  { destruct Hs as [->|Hs].
    - destruct (homestead_recovers key sign tx 0 Hkey) as (tx' & ? & ? & ? & _). by exists tx'.
    - destruct s as [c| |]; [|done..]. destruct (eip155_recovers key sign tx c c Hkey Hs) as (tx' & ? & ? & Hr).
      rewrite Z.eqb_refl in Hr. by exists tx'. }
  exists tx'. split; [done|]. split; [done|]. intros c Hc.
  destruct (Sender_coherent s tx' c Hc) as (c' & -> & _). done.
Qed.

(** signatures are bound to a chain only when they say so.  A transaction
    signed for chain [c] is refused on every other chain, while one signed with
    the Homestead rules, as the transaction generator does, is accepted by the
    signer of every chain. *)
Theorem replay_protection key sign tx c c' :
  honest_tx_key key sign → 1 ≤ c → c ≠ c' →
  (∃ tx', SignTx tx (EIP155Signer c) sign = Ok tx' ∧
    ∀ cache, sender_coherent tx' cache → (Sender (EIP155Signer c') tx' cache).1 = Err ErrInvalidChainId) ∧
  (∃ tx', SignTx tx HomesteadSigner sign = Ok tx' ∧
    ∀ cache, sender_coherent tx' cache → (Sender (EIP155Signer c') tx' cache).1 = Ok key).
Proof.
  intros Hkey Hc Hne. split.
  - destruct (eip155_recovers key sign tx c c' Hkey Hc) as (tx' & Hrun & _ & Hr).
    rewrite (proj2 (Z.eqb_neq c c') Hne) in Hr. exists tx'. split; [done|]. intros cache Hcache.
    destruct (Sender_coherent (EIP155Signer c') tx' cache Hcache) as (? & -> & _). done.
  - destruct (homestead_recovers key sign tx c' Hkey) as (tx' & Hrun & _ & _ & Hr).
    exists tx'. split; [done|]. intros cache Hcache.
    destruct (Sender_coherent (EIP155Signer c') tx' cache Hcache) as (? & -> & _). done.
Qed.
End senders.
