(* ===== verification/StateFinalise.v ===== *)
(** Finalising the world state: what [Finalise] writes to the account trie is
    what the getters answer, so the state can be reopened from the trie. *)
From S2P Require Import Prelude Types Sealing Blocks StateDB StateRevert StateTransfer.

Section persistence.
Context {T : Type} `{StateTrieLaws T} `{StateStoreLaws}.
Implicit Types (s : StateDB T) (o : stateObject) (a : Address).

(** * Objects and the tries *)

(** The slots read are cached as the storage trie has them, and a slot is
    written after it was read. *)
Record object_ok o : Prop := {
  ook_origin k v : oOrigin o !! k = Some v → v = storage_read (aRoot (oData o)) k;
  ook_dirty k : is_Some (oDirty o !! k) → is_Some (oOrigin o !! k)
}.
(** Nothing is left to be written. *)
Definition settled_object o : Prop := ∀ k v, oDirty o !! k = Some v → v = storage_read (aRoot (oData o)) k.

(** An account that is not in the journal is in the trie as it is in memory. *)
Record tidy s : Prop := {
  tidy_objects a o : stateObjects s !! a = Some o → oDeleted o = false → object_ok o;
  tidy_deleted : deleted_gone s;
  tidy_clean a o : stateObjects s !! a = Some o → dirties s !! a = None → oDeleted o = false →
    TryGet a (trie s) = Some (oData o) ∧ settled_object o;
  tidy_dirty a o : stateObjects s !! a = Some o → is_Some (dirties s !! a) → oDeleted o = false
}.

Lemma New_tidy (t0 : T) : tidy (New t0).
Proof. split; cbn; intros a o; rewrite ?lookup_empty; intros Ho; by rewrite ?lookup_empty in Ho. Qed.

Lemma newObject_ok data : object_ok (newObject data).
Proof. split; cbn; intros k; rewrite ?lookup_empty; [done|by intros []]. Qed.

(** ** The object updates *)
Lemma set_data_ok o d : aRoot d = aRoot (oData o) → object_ok o → object_ok (set_oData o d).
Proof. intros Hr [Ho Hd]. split; cbn; [rewrite Hr|]; auto. Qed.
Lemma setBalance_ok o x : object_ok o → object_ok (setBalance o x).
Proof. by apply set_data_ok. Qed.
Lemma setNonce_ok o n : object_ok o → object_ok (setNonce o n).
Proof. by apply set_data_ok. Qed.
Lemma setCode_ok o h c : object_ok o → object_ok (setCode o h c).
Proof. intros [Ho Hd]. by split. Qed.
Lemma suicided_ok o b : object_ok o → object_ok (set_oSuicided o b).
Proof. intros [Ho Hd]. by split. Qed.
Lemma object_Code_ok o : object_ok o → object_ok (object_Code o).2.
Proof. intros [Ho Hd]. unfold object_Code. destruct (oCode o); [by split|]. by destruct (_ =? _). Qed.
Lemma GetCommittedState_ok o key : object_ok o →
  object_ok (object_GetCommittedState o key).2 ∧ is_Some (oOrigin (object_GetCommittedState o key).2 !! key).
Proof.
  intros [Ho Hd]. unfold object_GetCommittedState. destruct (oOrigin o !! key) as [v|] eqn:Hv; [by eauto|].
  split; [|cbn; by rewrite lookup_insert_eq]. split; cbn.
  - intros k v. destruct (decide (k = key)) as [->|Hk]; [rewrite lookup_insert_eq; by intros [= <-]|].
    rewrite lookup_insert_ne by done. apply Ho.
  - intros k Hk. destruct (decide (k = key)) as [->|Hne]; [by rewrite lookup_insert_eq|].
    rewrite lookup_insert_ne by done. by apply Hd.
Qed.
Lemma GetState_ok o key : object_ok o →
  object_ok (object_GetState o key).2 ∧ is_Some (oOrigin (object_GetState o key).2 !! key).
Proof.
  intros Hok. unfold object_GetState. destruct (oDirty o !! key) eqn:Hv; [|by apply GetCommittedState_ok].
  split; [done|]. apply (ook_dirty _ Hok). by rewrite Hv.
Qed.
Lemma setState_ok o key value : object_ok o → is_Some (oOrigin o !! key) → object_ok (setState o key value).
Proof.
  intros [Ho Hd] Hk. split; cbn; [done|]. intros k Hdk.
  destruct (decide (k = key)) as [->|Hne]; [done|]. rewrite lookup_insert_ne in Hdk by done. by apply Hd.
Qed.

(** ** The steps an operation is made of *)

(** [o'] has more of its slots cached. *)
Record caches o o' : Prop := {
  cac_data : oData o' = oData o;
  cac_dirty : oDirty o' = oDirty o;
  cac_suicided : oSuicided o' = oSuicided o;
  cac_deleted : oDeleted o' = oDeleted o;
  cac_origin k : oOrigin o' !! k = oOrigin o !! k ∨
    oOrigin o !! k = None ∧ oOrigin o' !! k = Some (storage_read (aRoot (oData o)) k)
}.
(** A change of the object, with the entry that is journaled for it. *)
Inductive change a o : journalEntry → stateObject → Prop :=
  | change_balance x : change a o (balanceChange a (aBalance (oData o))) (setBalance o x)
  | change_nonce n : change a o (nonceChange a (aNonce (oData o))) (setNonce o n)
  | change_code p h c : change a o (codeChange a p (aCodeHash (oData o))) (setCode o h c)
  | change_storage k v : is_Some (oDirty o !! k) ∨ is_Some (oOrigin o !! k) →
      change a o (storageChange a k (storage_of o k)) (setState o k v)
  | change_suicide : change a o (suicideChange a (oSuicided o) (aBalance (oData o))) (setBalance (set_oSuicided o true) 0).
Definition side_entry e : Prop := match e with refundChange _ | addLogChange _ | addPreimageChange _ => True | _ => False end.

(** With [anew], a live account may be created again. *)
Inductive raw_step (anew : bool) s : StateDB T → Prop :=
  | raw_load a : raw_step anew s (getStateObject a s).2
  | raw_cache a o o' : stateObjects s !! a = Some o → oDeleted o = false → caches o o' → raw_step anew s (setStateObject a o' s)
  | raw_change a o e o' : stateObjects s !! a = Some o → oDeleted o = false → change a o e o' →
      raw_step anew s (setStateObject a o' (journal_append e s))
  | raw_create a : live a s = None → raw_step anew s (setStateObject a blank_object (journal_append (createObjectChange a) s))
  | raw_reset a o : anew = true → stateObjects s !! a = Some o → oDeleted o = false →
      raw_step anew s (setStateObject a (setBalance blank_object (aBalance (oData o))) (journal_append (resetObjectChange a o) s))
  | raw_touch a o : stateObjects s !! a = Some o → oDeleted o = false → raw_step anew s (touch a s)
  | raw_side e s' : side_entry e → stateObjects s' = stateObjects s → trie s' = trie s → dirties s' = dirties s →
      entries s' = entries s ++ [e] → raw_step anew s s'.
Notation raw_steps anew := (rtc (raw_step anew)).

Lemma getStateObject_found a s o s' : getStateObject a s = (Some o, s') → stateObjects s' !! a = Some o ∧ oDeleted o = false.
Proof.
  unfold getStateObject. destruct (stateObjects s !! a) as [p|] eqn:Hp.
  - destruct (oDeleted p) eqn:Hd; [done|]. by intros [= <- <-].
  - destruct (TryGet a (trie s)); [|done]. intros [= <- <-]. cbn. by rewrite lookup_insert_eq.
Qed.
Lemma raw_getOrNew anew a s o s' : GetOrNewStateObject a s = (o, s') →
  raw_steps anew s s' ∧ stateObjects s' !! a = Some o ∧ oDeleted o = false.
Proof.
  unfold GetOrNewStateObject. pose proof (raw_load anew s a) as Hload. pose proof (getStateObject_found a s) as Hf.
  destruct (load_run a s) as (s1 & Hrun & Hl & _). rewrite Hrun in *. cbn [snd] in Hload. specialize (Hl a).
  destruct (live a s) as [p|]; [intros [= <- <-]; split; [by apply rtc_once|by apply Hf]|].
  unfold createObject. pose proof (raw_load anew s1 a) as Hload1. destruct (load_run a s1) as (s2 & Hrun1 & Hl1 & _).
  rewrite Hrun1, Hl in *. cbn [snd] in Hload1. intros [= <- <-]. split; [|by cbn; rewrite lookup_insert_eq].
  eapply rtc_l; [exact Hload|]. eapply rtc_l; [exact Hload1|]. apply rtc_once, raw_create. by rewrite Hl1.
Qed.

Ltac get_or_new anew a s :=
  let Hget := fresh in pose proof (raw_getOrNew anew a s) as Hget; destruct (GetOrNewStateObject a s) as [o s1];
  destruct (Hget o s1 eq_refl) as (Hsteps & Ho & Hdel); clear Hget.
Ltac then_step c := eapply rtc_r; [eassumption|]; by eapply c; [eassumption|eassumption|..]; try constructor.

Lemma raw_AddBalance anew a x s : raw_steps anew s (AddBalance a x s).
Proof.
  unfold AddBalance. get_or_new anew a s. destruct (x =? 0); [|then_step raw_change].
  destruct (empty_object o); [by eapply rtc_r, raw_touch|done].
Qed.
Lemma raw_SubBalance anew a x s : raw_steps anew s (SubBalance a x s).
Proof. unfold SubBalance. get_or_new anew a s. destruct (x =? 0); [done|then_step raw_change]. Qed.
Lemma raw_SetBalance anew a x s : raw_steps anew s (SetBalance a x s).
Proof. unfold SetBalance. get_or_new anew a s. then_step raw_change. Qed.
Lemma raw_SetNonce anew a n s : raw_steps anew s (SetNonce a n s).
Proof. unfold SetNonce. get_or_new anew a s. then_step raw_change. Qed.

Lemma caches_Code o : caches o (object_Code o).2.
Proof. unfold object_Code. destruct (oCode o); [|destruct (_ =? _)]; split; auto. Qed.
Lemma caches_GetCommittedState o key : caches o (object_GetCommittedState o key).2.
Proof.
  unfold object_GetCommittedState. destruct (oOrigin o !! key) eqn:Hk; [by split; auto|]. split; try done. intros k. cbn.
  destruct (decide (k = key)) as [->|Hne]; [right; by rewrite lookup_insert_eq|left; by rewrite lookup_insert_ne].
Qed.
Lemma caches_GetState o key : caches o (object_GetState o key).2 ∧
  (is_Some (oDirty (object_GetState o key).2 !! key) ∨ is_Some (oOrigin (object_GetState o key).2 !! key)) ∧
  storage_of (object_GetState o key).2 key = storage_of o key.
Proof.
  split; [|split; [|apply object_GetState_equiv]]; unfold object_GetState; destruct (oDirty o !! key) eqn:Hd; cbn [snd].
  - split; auto.
  - apply caches_GetCommittedState.
  - left. by eexists.
  - right. unfold object_GetCommittedState. destruct (oOrigin o !! key) eqn:Hk; [by eexists|]. cbn. by rewrite lookup_insert_eq.
Qed.
(** Caching, then changing. *)
Lemma raw_cache_change anew a o o1 e o' s s1 : raw_steps anew s s1 → stateObjects s1 !! a = Some o → oDeleted o = false → caches o o1 →
  change a o1 e o' → raw_steps anew s (setStateObject a o' (journal_append e s1)).
Proof.
  intros Hsteps Ho Hd Hc He. eapply rtc_r; [eapply rtc_r; [exact Hsteps|by eapply raw_cache]|].
  assert (setStateObject a o' (journal_append e s1) = setStateObject a o' (journal_append e (setStateObject a o1 s1))) as ->
    by (unfold setStateObject, set_stateObjects; cbn; by rewrite insert_insert_eq).
  eapply raw_change; [by cbn; rewrite lookup_insert_eq|by rewrite (cac_deleted _ _ Hc)|done].
Qed.
Lemma raw_SetCode anew a code s : raw_steps anew s (SetCode a code s).
Proof.
  unfold SetCode. get_or_new anew a s. pose proof (caches_Code o) as Hc. destruct (object_Code o) as [p o1]. cbn [snd] in Hc.
  eapply raw_cache_change; [done..|constructor].
Qed.
Lemma raw_SetState anew a key value s : raw_steps anew s (SetState a key value s).
Proof.
  unfold SetState. get_or_new anew a s. destruct (caches_GetState o key) as (Hc & Hin & Hv).
  rewrite (surjective_pairing (object_GetState o key)). fold (storage_of o key). destruct (_ =? value).
  - eapply rtc_r; [exact Hsteps|by eapply raw_cache].
  - rewrite <- Hv. eapply raw_cache_change; [done..|by constructor].
Qed.
Lemma raw_Suicide anew a s : raw_steps anew s (Suicide a s).2.
Proof.
  unfold Suicide. pose proof (raw_load anew s a) as Hload. pose proof (getStateObject_found a s) as Hf.
  destruct (getStateObject a s) as [[o|] s1]; cbn [snd] in *; [|by apply rtc_once]. destruct (Hf o s1 eq_refl) as [Ho Hd].
  eapply rtc_l; [exact Hload|]. apply rtc_once. eapply raw_change; [done..|constructor].
Qed.
Lemma raw_CreateAccount anew a s : anew = true ∨ live a s = None → raw_steps anew s (CreateAccount a s).
Proof.
  intros Hor. unfold CreateAccount, createObject. pose proof (raw_load anew s a) as Hload. pose proof (getStateObject_found a s) as Hf.
  destruct (load_run a s) as (s1 & Hrun & Hl & _). rewrite Hrun in *. cbn [snd] in Hload. eapply rtc_l; [exact Hload|]. apply rtc_once.
  destruct (live a s) as [o|] eqn:Hlive; [|apply raw_create; by rewrite Hl]. destruct (Hf o s1 eq_refl) as [Ho Hd].
  assert (∀ p q t, setStateObject a q (setStateObject a p t) = setStateObject a q t) as ->
    by (intros; unfold setStateObject, set_stateObjects; cbn; by rewrite insert_insert_eq).
  apply raw_reset; [|done|done]. by destruct Hor.
Qed.
Lemma raw_query {A} anew a (f : option stateObject → A) s : raw_steps anew s (let '(o, s') := getStateObject a s in (f o, s')).2.
Proof. apply rtc_once. pose proof (raw_load anew s a) as Hload. by destruct (getStateObject a s). Qed.
Lemma raw_getter {A} anew a (f : stateObject → A * stateObject) (none : A) s : (∀ o, caches o (f o).2) →
  raw_steps anew s (let '(o, s') := getStateObject a s in
        match o with
        | None => (none, s')
        | Some o => let '(v, o') := f o in (v, setStateObject a o' s')
        end).2.
Proof.
  intros Hc. pose proof (raw_load anew s a) as Hload. pose proof (getStateObject_found a s) as Hf.
  destruct (getStateObject a s) as [[o|] s1]; cbn [snd] in *; [|by apply rtc_once]. destruct (Hf o s1 eq_refl) as [Ho Hd].
  specialize (Hc o). destruct (f o) as [v o']. eapply rtc_l; [exact Hload|]. by eapply rtc_once, raw_cache.
Qed.

(** Every operation but a snapshot and a reversal is a sequence of such steps. *)
Lemma raw_plain op s s' : plain op → run_op op s = Ok s' → raw_steps true s s'.
Proof.
  destruct op; intros Hp Hrun; cbn [run_op] in Hrun; try done; try injection Hrun as <-.
  all: try apply raw_query.
  - apply raw_getter, caches_Code.
  - apply raw_getter. intros o. apply caches_GetState.
  - apply raw_getter. intros o. apply caches_GetCommittedState.
  - apply raw_CreateAccount. by left.
  - apply raw_AddBalance.
  - apply raw_SubBalance.
  - apply raw_SetBalance.
  - apply raw_SetNonce.
  - apply raw_SetCode.
  - apply raw_SetState.
  - apply raw_Suicide.
  - apply rtc_once. by eapply (raw_side _ _ (refundChange (refund s))).
  - unfold SubRefund in Hrun. destruct (_ <? gas); [done|]. injection Hrun as <-. apply rtc_once. by eapply (raw_side _ _ (refundChange (refund s))).
  - apply rtc_once. by eapply (raw_side _ _ (addLogChange (thash s))).
  - unfold AddPreimage. destruct (preimages s !! h); [done|]. apply rtc_once. by eapply (raw_side _ _ (addPreimageChange h)).
Qed.
Lemma raw_steps_trie anew s s' : raw_steps anew s s' → trie s' = trie s.
Proof.
  induction 1 as [|s s1 s2 Hstep _ IH]; [done|]. rewrite IH. destruct Hstep; try done.
  - by destruct (getStateObject_run a s) as (s1 & -> & _ & _ & _ & _ & _ & ? & _).
  - unfold touch. by case_bool_decide.
Qed.

(** ** Tidy states stay tidy *)
Lemma tidy_load a s : tidy s → tidy (getStateObject a s).2 ∧ ∀ o, live a s = Some o → object_ok o.
Proof.
  intros Hs. pose proof (live_unfold a s) as Hl. unfold getStateObject. destruct (stateObjects s !! a) as [o|] eqn:Ho.
  - destruct (oDeleted o) eqn:Hd; cbn [snd]; (split; [done|]); intros o'; rewrite Hl; [done|].
    intros [= <-]. by eapply tidy_objects.
  - destruct (TryGet a (trie s)) as [data|] eqn:Hget; cbn [snd]; (split; [|intros o'; rewrite Hl; cbn; intros [= <-] || done]).
    2: by apply newObject_ok. 2: done.
    destruct Hs as [Hobj Hdel Hclean Hdirty].
    split; intros b o; cbn; (destruct (decide (b = a)) as [->|Hb]; [rewrite lookup_insert_eq; intros [= <-]|rewrite lookup_insert_ne by done; eauto]).
    + intros _. apply newObject_ok.
    + done.
    + intros _ _. split; [done|]. intros k v. cbn. by rewrite lookup_empty.
    + done.
Qed.

(** Putting an object in place, its account being in the journal. *)
Lemma tidy_put a o s d :
  tidy s → object_ok o → oDeleted o = false →
  (∀ b, b ≠ a → dirties d !! b = dirties s !! b) → is_Some (dirties d !! a) →
  stateObjects d = stateObjects s → trie d = trie s → tidy (setStateObject a o d).
Proof.
  intros [Hobj Hdel Hclean Hdirty] Hok Hnd Hd Ha Hos Ht.
  split; intros b p; cbn; rewrite ?Hos, ?Ht; (destruct (decide (b = a)) as [->|Hb];
    [rewrite lookup_insert_eq; intros [= <-]|rewrite lookup_insert_ne by done; rewrite ?Hd by done; eauto]).
  - done.
  - congruence.
  - intros Hn. rewrite Hn in Ha. by destruct Ha.
  - done.
Qed.
Lemma dirties_append a e s :
  dirtied e = Some a →
  is_Some (dirties (journal_append e s) !! a) ∧ ∀ b, b ≠ a → dirties (journal_append e s) !! b = dirties s !! b.
Proof.
  intros He. cbn. rewrite He. split; [by rewrite lookup_insert_eq|]. intros b Hb. by rewrite lookup_insert_ne.
Qed.
Lemma tidy_update a o e s :
  tidy s → object_ok o → oDeleted o = false → dirtied e = Some a →
  tidy (setStateObject a o (journal_append e s)).
Proof. intros Hs Hok Hd He. destruct (dirties_append a e s He) as [Ha Hb]. by apply (tidy_put a o s). Qed.

(** Updating what an object has cached. *)
Lemma tidy_cache a o o' s :
  tidy s → stateObjects s !! a = Some o → oDeleted o = false → object_ok o' → oData o' = oData o → oDirty o' = oDirty o →
  oDeleted o' = false → tidy (setStateObject a o' s).
Proof.
  intros [Hobj Hdel Hclean Hdirty] Ho Ho' Hok Hdata Hdirt Hd.
  split; intros b p; cbn; (destruct (decide (b = a)) as [->|Hb];
    [rewrite lookup_insert_eq; intros [= <-]|rewrite lookup_insert_ne by done; eauto]); try done.
  - congruence.
  - intros Hn _. rewrite Hdata. destruct (Hclean a o Ho Hn Ho') as [Hget Hset].
    split; [done|]. unfold settled_object. by rewrite Hdata, Hdirt.
Qed.

Lemma tidy_frame s s' :
  tidy s → stateObjects s' = stateObjects s → trie s' = trie s → dirties s' = dirties s → tidy s'.
Proof.
  intros [Hobj Hdel Hclean Hdirty] Ho Ht Hd. split; try (intros a o; rewrite Ho, ?Ht, ?Hd; eauto).
Qed.
Lemma tidy_dirtied a s s' :
  tidy s → (∀ o, stateObjects s !! a = Some o → oDeleted o = false) →
  stateObjects s' = stateObjects s → trie s' = trie s →
  (∀ b, b ≠ a → dirties s' !! b = dirties s !! b) → is_Some (dirties s' !! a) → tidy s'.
Proof.
  intros [Hobj Hdel Hclean Hdirty] Ha Ho Ht Hd Hda. split; intros b o; rewrite Ho, ?Ht; eauto.
  - intros Hb Hn. destruct (decide (b = a)) as [->|Hne]; [rewrite Hn in Hda; by destruct Hda|].
    rewrite Hd in Hn by done. by apply Hclean.
  - intros Hb Hn. destruct (decide (b = a)) as [->|Hne]; [by apply Ha|]. rewrite Hd in Hn by done. by eapply Hdirty.
Qed.
Lemma tidy_touch a o s :
  tidy s → stateObjects s !! a = Some o → oDeleted o = false → tidy (touch a s).
Proof.
  intros Hs Ho Hd. unfold touch.
  assert (tidy (journal_append (touchChange a) s)) as Ht.
  { destruct (dirties_append a (touchChange a) s eq_refl) as [Hda Hdb].
    eapply (tidy_dirtied a s); try done. intros p Hp. congruence. }
  case_bool_decide as Ha; [|done]. eapply (tidy_dirtied a); [exact Ht| |done|done| |].
  - intros p Hp. cbn in Hp. congruence.
  - intros b Hb. cbn. by rewrite lookup_insert_ne.
  - cbn. by rewrite lookup_insert_eq.
Qed.

Lemma caches_ok o o' : caches o o' → object_ok o → object_ok o'.
Proof.
  intros [Hdata Hdirty _ _ Hor] [Ho Hd]. split; [intros k v|intros k]; rewrite ?Hdata, ?Hdirty.
  - destruct (Hor k) as [->|[_ ->]]; [apply Ho|by intros [= <-]].
  - intros Hk. destruct (Hor k) as [->|[_ ->]]; [by apply Hd|by eexists].
Qed.
Lemma change_ok a o e o' : change a o e o' → object_ok o → object_ok o'.
Proof.
  intros He Hok. destruct He as [x|n|p h c|k v Hk|]; [by apply setBalance_ok|by apply setNonce_ok|by apply setCode_ok| |by apply setBalance_ok, suicided_ok].
  apply setState_ok; [done|]. destruct Hk; [by apply (ook_dirty _ Hok)|done].
Qed.
Lemma change_about a o e o' : change a o e o' → dirtied e = Some a ∧ oDeleted o' = oDeleted o.
Proof. by destruct 1. Qed.
Lemma tidy_raw s s' : tidy s → raw_step false s s' → tidy s'.
Proof.
  intros Hs. destruct 1 as [a|a o o' Ho Hd Hc|a o e o' Ho Hd He|a Hl|a o Heq|a o Ho Hd|e s' He Hso Htr Hdi _].
  - by apply tidy_load.
  - apply (tidy_cache a o); [done..| |apply Hc|apply Hc|by rewrite (cac_deleted _ _ Hc)]. eapply caches_ok; [exact Hc|by eapply tidy_objects].
  - destruct (change_about _ _ _ _ He) as [Hda Hdel]. apply tidy_update; [done| |by rewrite Hdel|done]. eapply change_ok; [exact He|by eapply tidy_objects].
  - apply tidy_update; [done|apply newObject_ok|done|done].
  - done.
  - by eapply tidy_touch.
  - by apply (tidy_frame s).
Qed.
Lemma tidy_raw_steps s s' : raw_steps false s s' → tidy s → tidy s'.
Proof. induction 1 as [|s1 s2 s3 Hstep _ IH]; [done|]. intros Hs. by eapply IH, tidy_raw. Qed.
Lemma tidy_AddBalance a x s : tidy s → tidy (AddBalance a x s).
Proof. by apply tidy_raw_steps, raw_AddBalance. Qed.
Lemma tidy_SubBalance a x s : tidy s → tidy (SubBalance a x s).
Proof. by apply tidy_raw_steps, raw_SubBalance. Qed.
Lemma tidy_SetNonce a n s : tidy s → tidy (SetNonce a n s).
Proof. by apply tidy_raw_steps, raw_SetNonce. Qed.
Lemma tidy_CreateAccount a s : tidy s → live a s = None → tidy (CreateAccount a s).
Proof. intros Hs Hl. eapply tidy_raw_steps; [apply raw_CreateAccount; by right|done]. Qed.
Lemma tidy_query {A} a (f : option stateObject → A) s :
  tidy s → tidy (let '(o, s') := getStateObject a s in (f o, s')).2.
Proof. by apply tidy_raw_steps, raw_query. Qed.

Lemma storage_ok o k :
  object_ok o → storage_of o k = match oDirty o !! k with Some v => v | None => storage_read (aRoot (oData o)) k end.
Proof.
  intros [Ho _]. unfold storage_of, object_GetState, object_GetCommittedState. destruct (oDirty o !! k); [done|].
  destruct (oOrigin o !! k) eqn:Hk; [by apply Ho|done].
Qed.
(** ** What undoing the journal leads back to *)

(** The object, when there is one, is what the trie has. *)
Definition clean_object (d : option Account) (x : option stateObject) : Prop :=
  match x with
  | None => True
  | Some o => if oDeleted o then d = None else d = Some (oData o) ∧ settled_object o
  end.
Definition fine_object (x : option stateObject) : Prop := ∀ o, x = Some o → oDeleted o = false → object_ok o.

(** The account an entry is about, and its object once the entry is undone. *)
Definition about (e : journalEntry) : option Address :=
  match e with resetObjectChange a _ => Some a | _ => dirtied e end.
Definition undone e o : option stateObject :=
  match e with
  | createObjectChange _ => None
  | resetObjectChange _ prev => Some prev
  | suicideChange _ prev prevbalance => Some (setBalance (set_oSuicided o prev) prevbalance)
  | balanceChange _ prev => Some (setBalance o prev)
  | nonceChange _ prev => Some (setNonce o prev)
  | codeChange _ prevcode prevhash => Some (setCode o prevhash prevcode)
  | storageChange _ key prevalue => Some (setState o key prevalue)
  | _ => Some o
  end.

(** Undoing the entries [es], the last one first, leads the object [x] of [a]
    back to what the trie has. *)
Fixpoint unwinds (d : option Account) a (es : list journalEntry) (x : option stateObject) : Prop :=
  fine_object x ∧
  match es with
  | [] => clean_object d x
  | e :: es' =>
      if decide (about e = Some a) then
        ∃ o, x = Some o ∧ oDeleted o = false ∧ (∀ p, undone e o = Some p → oDeleted p = false) ∧ unwinds d a es' (undone e o)
      else unwinds d a es' x
  end.
Record unwound es s : Prop := {
  uw_account a : unwinds (TryGet a (trie s)) a es (stateObjects s !! a);
  uw_count a : changes_of a es ≤ default 0 (dirties s !! a);
  uw_dirty a o : stateObjects s !! a = Some o → is_Some (dirties s !! a) → oDeleted o = false
}.
(** A state whose journal leads back to its trie. *)
Definition undoable s : Prop := unwound (reverse (entries s)) s.

Lemma unwinds_fine d a es x : unwinds d a es x → fine_object x.
Proof. destruct es; by intros []. Qed.
Lemma unwinds_quiet d a es x : Forall (λ e, about e ≠ Some a) es → unwinds d a es x → clean_object d x.
Proof.
  induction es as [|e es IH]; intros Hq; [by intros []|]. apply Forall_cons in Hq as [He Hq].
  cbn. rewrite decide_False by done. intros [_ Hx]. by apply IH.
Qed.
Lemma unwinds_idle d a es x y : fine_object y → (∀ o, x = Some o → oDeleted o = true) →
  (clean_object d x → clean_object d y) → unwinds d a es x → unwinds d a es y.
Proof.
  intros Hy Hx Hc. induction es as [|e es IH]; cbn; intros [_ Hrest]; (split; [done|]); [by apply Hc|].
  case_decide; [|by apply IH]. destruct Hrest as (o & -> & Hd & _). by rewrite Hx in Hd.
Qed.

(** *** An object with more cached unwinds as well *)
Record refines o o' : Prop := {
  rf_data : oData o' = oData o;
  rf_deleted : oDeleted o' = oDeleted o;
  rf_storage k : storage_of o' k = storage_of o k;
  rf_origin k : is_Some (oOrigin o !! k) → is_Some (oOrigin o' !! k);
  rf_ok : object_ok o'
}.
Lemma refines_refl o : object_ok o → refines o o.
Proof. by split. Qed.
Lemma settled_refines o o' : object_ok o → refines o o' → settled_object o → settled_object o'.
Proof.
  intros Hok [Hdata _ Hst _ Hok'] Hset k v Hv. rewrite Hdata. pose proof (Hst k) as Hk. rewrite !storage_ok, Hv in Hk by done.
  rewrite Hk. destruct (oDirty o !! k) eqn:Hd; [by apply Hset|done].
Qed.
Lemma set_data_refines o o' d d' : refines o o' → aRoot d = aRoot (oData o) → d = d' → refines (set_oData o d) (set_oData o' d').
Proof.
  intros [Hdata Hdel Hst Hor Hok] Hr <-. split; [done|done| |done|by apply set_data_ok; [rewrite Hdata|]].
  intros k. specialize (Hst k). unfold storage_of, object_GetState, object_GetCommittedState in *. cbn. rewrite Hr. rewrite Hdata in Hst.
  by destruct (oDirty o !! k), (oDirty o' !! k), (oOrigin o !! k), (oOrigin o' !! k).
Qed.
Lemma setState_refines o o' k v : refines o o' → object_ok (setState o k v) → refines (setState o k v) (setState o' k v).
Proof.
  intros [Hdata Hdel Hst Hor Hok] Hok'. split; [done|done| |done|].
  - intros k'. rewrite !storage_setState. by rewrite Hst.
  - apply setState_ok; [done|]. apply Hor. apply (ook_dirty _ Hok' k). cbn. by rewrite lookup_insert_eq.
Qed.
Lemma undone_refines e o o' : (∀ a p, e ≠ resetObjectChange a p) → refines o o' → fine_object (undone e o) → oDeleted o = false →
  option_Forall2 refines (undone e o) (undone e o').
Proof.
  intros Hne Hr Hf Hd. pose proof Hr as [Hdata Hdel Hst Hor Hok].
  destruct e as [a|a p|a p x|a x|a n|a k v|a c h|x|h|h|a]; cbn in *; try constructor; try done.
  - by destruct (Hne a p).
  - apply set_data_refines; [|done|by cbn; rewrite Hdata].
    split; [done|done| |done|by apply suicided_ok]. intros k. rewrite !storage_suicided. apply Hst.
  - apply set_data_refines; [done|done|by rewrite Hdata].
  - apply set_data_refines; [done|done|by rewrite Hdata].
  - apply setState_refines; [done|]. by apply Hf.
  - split; [cbn; by rewrite Hdata|done| |done|by apply setCode_ok]. intros k. rewrite !storage_setCode. apply Hst.
Qed.
Lemma unwinds_refines d a es o o' : unwinds d a es (Some o) → refines o o' → unwinds d a es (Some o').
Proof.
  revert o o'. induction es as [|e es IH]; cbn; intros o o' [Hf Hx] Hr;
    (assert (fine_object (Some o')) as Hf' by (intros p [= <-] _; apply Hr)); (split; [done|]).
  - rewrite (rf_deleted _ _ Hr), (rf_data _ _ Hr). destruct (oDeleted o) eqn:Hd; [done|]. destruct Hx as [-> Hset]. split; [done|].
    eapply settled_refines; [by apply Hf|exact Hr|done].
  - case_decide; [|by eapply IH]. destruct Hx as (? & [= <-] & Hd & Hp & Hx). exists o'. split; [done|]. split; [by rewrite (rf_deleted _ _ Hr)|].
    assert ((∃ b p, e = resetObjectChange b p) ∨ ∀ b p, e ≠ resetObjectChange b p) as [(b & p & ->)|Hne]
      by (destruct e; (by right) || left; by do 2 eexists); [done|].
    pose proof (undone_refines e o o' Hne Hr (unwinds_fine _ _ _ _ Hx) Hd) as Hu.
    destruct Hu as [p p' Hpp|]; [|by split]. split; [|by eapply IH]. intros q [= <-]. rewrite (rf_deleted _ _ Hpp). by apply Hp.
Qed.
(** *** Operations keep a state undoable *)
Lemma changes_of_cons a e es : changes_of a (e :: es) = changes_of a es + (if decide (dirtied e = Some a) then 1 else 0).
Proof. unfold changes_of. rewrite filter_cons. case_decide; cbn; lia. Qed.
Lemma about_dirtied e a : dirtied e = Some a → about e = Some a.
Proof. by destruct e. Qed.
Lemma unwound_entry es s s' a e : unwound es s → about e = Some a → trie s' = trie s →
  (∀ b, b ≠ a → stateObjects s' !! b = stateObjects s !! b ∧ dirties s' !! b = dirties s !! b) →
  (∃ o, stateObjects s' !! a = Some o ∧ oDeleted o = false ∧ object_ok o ∧
    (∀ p, undone e o = Some p → oDeleted p = false) ∧ unwinds (TryGet a (trie s)) a es (undone e o)) →
  changes_of a (e :: es) ≤ default 0 (dirties s' !! a) → unwound (e :: es) s'.
Proof.
  intros [Hacc Hcount Hdirty] Ha Htr Hb (o & Ho & Hd & Hok & Hp & Hx) Hn. split.
  - intros b. rewrite Htr. destruct (decide (b = a)) as [->|Hne]; cbn [unwinds].
    + rewrite Ho, decide_True by done. split; [by intros q [= <-] _|]. exists o. by split_and!.
    + destruct (Hb b Hne) as [-> _]. rewrite decide_False by congruence. split; [by eapply unwinds_fine|done].
  - intros b. destruct (decide (b = a)) as [->|Hne]; [done|]. destruct (Hb b Hne) as [_ ->]. rewrite changes_of_cons, decide_False; [|by intros ?%about_dirtied; congruence].
    rewrite Z.add_0_r. apply Hcount.
  - intros b p. destruct (decide (b = a)) as [->|Hne]; [by rewrite Ho; intros [= <-]|]. destruct (Hb b Hne) as [-> ->]. apply Hdirty.
Qed.
Lemma unwound_frame es s s' : unwound es s → trie s' = trie s → stateObjects s' = stateObjects s → dirties s' = dirties s → unwound es s'.
Proof. intros [Hacc Hcount Hdirty] Htr Ho Hd. split; intros a; [rewrite Htr, Ho; apply Hacc|rewrite Hd; apply Hcount|intros o; rewrite Ho, Hd; apply Hdirty]. Qed.
Lemma unwound_side es s e : unwound es s → side_entry e → unwound (e :: es) s.
Proof.
  intros [Hacc Hcount Hdirty] He. assert (dirtied e = None ∧ about e = None) as [Hd Ha] by by destruct e. split; [| |done].
  - intros a. cbn. rewrite Ha, decide_False by done. split; [by eapply unwinds_fine|done].
  - intros a. rewrite changes_of_cons, Hd, decide_False by done. rewrite Z.add_0_r. apply Hcount.
Qed.
Lemma unwound_object es s a o : unwound es s → stateObjects s !! a = Some o → oDeleted o = false → object_ok o.
Proof. intros Hs Ho. eapply unwinds_fine; [apply (uw_account _ _ Hs a)|done]. Qed.
Lemma caches_refines o o' : object_ok o → caches o o' → refines o o'.
Proof.
  intros Hok Hc. pose proof (caches_ok _ _ Hc Hok) as Hok'. destruct Hc as [Hdata Hdirty _ Hdel Hor]. split; [done|done| |intros k|done].
  - intros k. by rewrite !storage_ok, Hdirty, Hdata.
  - by destruct (Hor k) as [->|[-> _]]; [|intros []].
Qed.
Lemma change_undone a o e o' : change a o e o' → object_ok o → ∃ p, undone e o' = Some p ∧ refines o p.
Proof.
  intros He Hok. destruct He as [x|n|p h c|k v Hk|]; eexists; (split; [done|]).
  - replace (setBalance (setBalance o x) _) with o by by destruct o as [[]]. by apply refines_refl.
  - replace (setNonce (setNonce o n) _) with o by by destruct o as [[]]. by apply refines_refl.
  - split; [by destruct o as [[]]|done| |done|by apply setCode_ok, setCode_ok]. intros k. by rewrite !storage_setCode.
  - assert (is_Some (oOrigin o !! k)) as Hor by (destruct Hk; [by apply (ook_dirty _ Hok)|done]).
    split; [done|done| |done|by apply setState_ok; [apply setState_ok|]]. intros k'. rewrite !storage_setState. by case_decide; subst.
  - replace (setBalance (set_oSuicided (setBalance (set_oSuicided o true) 0) _) _) with o by by destruct o as [[]]. by apply refines_refl.
Qed.
Lemma append_count a e es s : dirtied e = Some a → changes_of a es ≤ default 0 (dirties s !! a) →
  changes_of a (e :: es) ≤ default 0 (dirties (journal_append e s) !! a).
Proof. intros He Hn. rewrite changes_of_cons, decide_True by done. cbn. rewrite He, lookup_insert_eq. cbn. lia. Qed.
Lemma append_others a o e s b : dirtied e = Some a ∨ dirtied e = None → b ≠ a →
  stateObjects (setStateObject a o (journal_append e s)) !! b = stateObjects s !! b ∧
  dirties (setStateObject a o (journal_append e s)) !! b = dirties s !! b.
Proof. intros He Hb. cbn. rewrite lookup_insert_ne by done. split; [done|]. destruct He as [-> | ->]; [|done]. by rewrite lookup_insert_ne. Qed.

Lemma unwound_load es s a : unwound es s → unwound es (getStateObject a s).2.
Proof.
  intros Hs. unfold getStateObject. destruct (stateObjects s !! a) as [o|] eqn:Ho; [by destruct (oDeleted o)|].
  destruct (TryGet a (trie s)) as [data|] eqn:Hd; [|done]. pose proof (newObject_ok data) as Hok. destruct Hs as [Hacc Hcount Hdirty]. split; cbn.
  - intros b. destruct (decide (b = a)) as [->|Hb]; [rewrite lookup_insert_eq|by rewrite lookup_insert_ne].
    apply (unwinds_idle _ _ _ None); [by intros p [= <-] _|done| |by rewrite <- Ho]. intros _. split; [done|]. intros k v. cbn. by rewrite lookup_empty.
  - done.
  - intros b p. destruct (decide (b = a)) as [->|Hb]; [rewrite lookup_insert_eq; by intros [= <-]|rewrite lookup_insert_ne by done; apply Hdirty].
Qed.
Lemma unwound_cache es s a o o' : unwound es s → stateObjects s !! a = Some o → oDeleted o = false → caches o o' → unwound es (setStateObject a o' s).
Proof.
  intros Hs Ho Hd Hc. pose proof (caches_refines _ _ (unwound_object _ _ _ _ Hs Ho Hd) Hc) as Hr. destruct Hs as [Hacc Hcount Hdirty]. split; cbn.
  - intros b. destruct (decide (b = a)) as [->|Hb]; [rewrite lookup_insert_eq|by rewrite lookup_insert_ne].
    eapply unwinds_refines; [rewrite <- Ho; apply Hacc|done].
  - done.
  - intros b p. destruct (decide (b = a)) as [->|Hb]; [rewrite lookup_insert_eq|rewrite lookup_insert_ne by done; apply Hdirty].
    intros [= <-] _. by rewrite (rf_deleted _ _ Hr).
Qed.
Lemma unwound_touch es s a o : unwound es s → stateObjects s !! a = Some o → oDeleted o = false → unwound (touchChange a :: es) (touch a s).
Proof.
  intros Hs Ho Hd. pose proof (unwound_object _ _ _ _ Hs Ho Hd) as Hok. apply (unwound_entry es s _ a); [done|done| | | |].
  - unfold touch. by case_bool_decide.
  - intros b Hb. unfold touch. case_bool_decide; cbn; by rewrite !lookup_insert_ne by done.
  - exists o. split; [unfold touch; by case_bool_decide|]. split_and!; [done|done|by intros p [= <-]|]. cbn. rewrite <- Ho. apply Hs.
  - pose proof (append_count a (touchChange a) es s eq_refl (uw_count _ _ Hs a)) as Hn. unfold touch. case_bool_decide; [|done].
    cbn in *. rewrite lookup_insert_eq in Hn. rewrite !lookup_insert_eq. cbn in *. lia.
Qed.
Lemma entries_put a o e s : entries (setStateObject a o (journal_append e s)) = entries s ++ [e].
Proof. done. Qed.
Lemma undoable_raw s s' : undoable s → raw_step true s s' → undoable s'.
Proof.
  unfold undoable. intros Hs. destruct 1 as [a|a o o' Ho Hd Hc|a o e o' Ho Hd He|a Hl|a o _ Ho Hd|a o Ho Hd|e s' He Hso Htr Hdi Hen].
  - assert (entries (getStateObject a s).2 = entries s) as -> by (destruct (getStateObject_run a s) as (s1 & -> & _ & ? & _); done). by apply unwound_load.
  - by eapply unwound_cache.
  - destruct (change_about _ _ _ _ He) as [Hda Hdel]. pose proof (unwound_object _ _ _ _ Hs Ho Hd) as Hok.
    destruct (change_undone _ _ _ _ He Hok) as (p & Hp & Hr). rewrite entries_put, reverse_snoc. apply (unwound_entry _ s _ a); [done|by apply about_dirtied|done| | |].
    + intros b Hb. apply append_others; [by left|done].
    + exists o'. cbn. rewrite lookup_insert_eq, Hp. split_and!; [done|by rewrite Hdel|by eapply change_ok|intros q [= <-]; by rewrite (rf_deleted _ _ Hr)|].
      eapply unwinds_refines; [rewrite <- Ho; apply Hs|done].
    + by apply append_count, Hs.
  - rewrite entries_put, reverse_snoc. apply (unwound_entry _ s _ a); [done|done|done| | |].
    + intros b Hb. apply append_others; [by left|done].
    + exists blank_object. cbn. rewrite lookup_insert_eq. split_and!; [done|done|apply newObject_ok|done|].
      apply (unwinds_idle _ _ _ (stateObjects s !! a)); [done| |done|apply Hs]. intros o Ho. rewrite live_unfold, Ho in Hl. by destruct (oDeleted o).
    + by apply append_count, Hs.
  - rewrite entries_put, reverse_snoc. apply (unwound_entry _ s _ a); [done|done|done| | |].
    + intros b Hb. apply append_others; [by right|done].
    + eexists. cbn. rewrite lookup_insert_eq. split_and!; [done|done|by apply setBalance_ok, newObject_ok|by intros p [= <-]|]. rewrite <- Ho. apply Hs.
    + rewrite changes_of_cons. cbn. rewrite Z.add_0_r. apply Hs.
  - assert (entries (touch a s) = entries s ++ [touchChange a]) as -> by (unfold touch; by case_bool_decide). rewrite reverse_snoc. by eapply unwound_touch.
  - rewrite Hen, reverse_snoc. apply unwound_side; [|done]. by eapply unwound_frame.
Qed.
Lemma undoable_raw_steps s s' : raw_steps true s s' → undoable s → undoable s'.
Proof. induction 1 as [|s1 s2 s3 Hstep _ IH]; [done|]. intros Hs. by eapply IH, undoable_raw. Qed.

(** *** Reversals keep a state undoable *)
Lemma revert_objects e s s' a o : about e = Some a → stateObjects s !! a = Some o → oDeleted o = false → entry_revert e s = Ok s' →
  ∀ b, stateObjects s' !! b = if decide (b = a) then undone e o else stateObjects s !! b.
Proof.
  intros Ha Ho Hd Hrun b. assert (getStateObject a s = (Some o, s)) as Hget by (unfold getStateObject; by rewrite Ho, Hd).
  destruct e; cbn in Ha; try done; injection Ha as ->; cbn [entry_revert] in Hrun; unfold on_object in Hrun; rewrite ?Hget in Hrun; injection Hrun as <-; cbn;
    case_decide as Hb; subst; rewrite ?lookup_insert_eq, ?lookup_delete_eq, ?lookup_insert_ne, ?lookup_delete_ne by done; done.
Qed.
Lemma revert_elsewhere e s s' : about e = None → entry_revert e s = Ok s' → stateObjects s' = stateObjects s.
Proof. destruct e; cbn; try done; [by intros _ [= <-]|intros _|by intros _ [= <-]]. case_bool_decide; [by intros [= <-]|]. case_bool_decide; [done|]. by intros [= <-]. Qed.
Lemma undirty_count e es d a : (∀ b, changes_of b (e :: es) ≤ default 0 (d !! b)) →
  changes_of a es ≤ default 0 (undirty e d !! a) ∧ (is_Some (undirty e d !! a) → is_Some (d !! a)).
Proof.
  intros Hn. pose proof (Hn a) as Ha. rewrite changes_of_cons in Ha. unfold undirty. destruct (dirtied e) as [b|] eqn:He; [|by rewrite decide_False, Z.add_0_r in Ha].
  pose proof (changes_of_nonneg a es). destruct (decide (b = a)) as [->|Hb].
  - rewrite decide_True in Ha by done. destruct (d !! a) as [m|]; cbn in *; [|lia]. split; [|by eexists].
    destruct (m - 1 =? 0) eqn:Hz; [apply Z.eqb_eq in Hz; rewrite lookup_delete_eq|rewrite lookup_insert_eq]; cbn; lia.
  - rewrite decide_False, Z.add_0_r in Ha by congruence. destruct (_ =? 0); [by rewrite lookup_delete_ne|by rewrite lookup_insert_ne].
Qed.
Lemma unwound_revert e es s s1 : unwound (e :: es) s → entry_revert e s = Ok s1 →
  unwound es (set_journal s1 (entries s1) (undirty e (dirties s1))).
Proof.
  intros [Hacc Hcount Hdirty] Hrun. destruct (entry_revert_frame _ _ _ Hrun) as (_ & Hd1 & _ & _ & Htr).
  assert (∀ b, unwinds (TryGet b (trie s)) b es (stateObjects s1 !! b) ∧ ∀ o, stateObjects s1 !! b = Some o → oDeleted o = false ∨ stateObjects s !! b = Some o) as Hb.
  { intros b. destruct (about e) as [a|] eqn:Ha.
    - pose proof (Hacc a) as Hx. cbn in Hx. rewrite decide_True in Hx by done. destruct Hx as (_ & o & Ho & Hd & Hp & Hx).
      rewrite (revert_objects e s s1 a o Ha Ho Hd Hrun b). case_decide as Hba; [subst; split; [done|left; by apply Hp]|]. split; [|by right].
      pose proof (Hacc b) as Hy. cbn in Hy. rewrite decide_False in Hy by congruence. apply Hy.
    - rewrite (revert_elsewhere e s s1 Ha Hrun). split; [|by right]. pose proof (Hacc b) as Hy. cbn in Hy. rewrite Ha, decide_False in Hy by done. apply Hy. }
  split; cbn; rewrite ?Htr, ?Hd1.
  - intros b. apply Hb.
  - intros b. by apply undirty_count.
  - intros b o Ho Hda. destruct (Hb b) as [_ Hor]. destruct (Hor o Ho) as [?|Ho']; [done|]. apply (Hdirty b o Ho'). by apply (undirty_count e es).
Qed.
Lemma unwound_undo es rest s s' : unwound (es ++ rest) s → undo es s = Ok s' → unwound rest s' ∧ entries s' = entries s ∧ trie s' = trie s.
Proof.
  revert s. induction es as [|e es IH]; intros s Hs Hrun; cbn [undo] in Hrun; [by injection Hrun as <-|].
  apply result_bind_ok in Hrun as (s1 & Hstep & Hrun). destruct (entry_revert_frame _ _ _ Hstep) as (He1 & _ & _ & _ & Htr).
  apply IH in Hrun as (Hs' & He & Ht); [|by eapply unwound_revert]. cbn in *. split; [done|]. split; congruence.
Qed.
Lemma undoable_revert revid s s' : undoable s → RevertToSnapshot revid s = Ok s' → undoable s' ∧ trie s' = trie s.
Proof.
  intros Hs Hrun. unfold RevertToSnapshot in Hrun. destruct (validRevisions s !! _) as [[id n]|]; [|done]. destruct (negb (id =? revid)); [done|].
  apply result_bind_ok in Hrun as (s1 & Hback & [= <-]). unfold journal_revert in Hback. apply result_bind_ok in Hback as (s2 & Hundo & [= <-]).
  apply (unwound_undo _ (reverse (take n (entries s)))) in Hundo as (Hs2 & He & Ht); [|rewrite <- reverse_app, take_drop; apply Hs].
  split; [|done]. unfold undoable. cbn. rewrite He. by eapply unwound_frame.
Qed.

(** Any operation, snapshots and reversals included. *)
Definition state_step s s' : Prop := ∃ op, run_op op s = Ok s'.
Lemma run_ops_steps ops s s' : run_ops ops s = Ok s' → rtc state_step s s'.
Proof.
  revert s. induction ops as [|op ops IH]; intros s Hrun; cbn in Hrun; [by injection Hrun as <-|].
  apply result_bind_ok in Hrun as (s1 & Hop & Hrun). eapply rtc_l; [by exists op|by apply IH].
Qed.
Lemma undoable_step s s' : undoable s → state_step s s' → undoable s' ∧ trie s' = trie s.
Proof.
  intros Hs (op & Hrun). assert (plain op → undoable s' ∧ trie s' = trie s) as Hplain.
  { intros Hp. pose proof (raw_plain _ _ _ Hp Hrun) as Hsteps. split; [by eapply undoable_raw_steps|by eapply raw_steps_trie]. }
  destruct op; try by apply Hplain.
  - injection Hrun as <-. split; [|done]. unfold undoable. by eapply unwound_frame.
  - by eapply undoable_revert.
Qed.
Lemma undoable_steps s s' : rtc state_step s s' → undoable s → undoable s' ∧ trie s' = trie s.
Proof.
  induction 1 as [|s1 s2 s3 Hstep _ IH]; [done|]. intros Hs. destruct (undoable_step _ _ Hs Hstep) as [Hs2 Ht].
  destruct (IH Hs2) as [Hs3 Ht']. split; [done|]. congruence.
Qed.

(** * Finalising *)
Definition gone (b : bool) o : bool := oSuicided o || (b && empty_object o).

(** One account: its object and what the trie holds for it. *)
Definition finalise_point (b : bool) (x : option stateObject * option Account) : option stateObject * option Account :=
  match x.1 with
  | None => x
  | Some o => if gone b o then (Some (set_oDeleted o true), None)
              else (Some (updateRoot o), Some (oData (updateRoot o)))
  end.
Definition point s a : option stateObject * option Account := (stateObjects s !! a, TryGet a (trie s)).

Lemma finalise_one_point b s a c :
  point (finalise_one b s a) c = if decide (c = a) then finalise_point b (point s a) else point s c.
Proof.
  unfold finalise_one, finalise_point, point. cbn [fst]. destruct (stateObjects s !! a) as [o|] eqn:Ho.
  - fold (gone b o). destruct (gone b o); cbn; rewrite ?TryGet_update, ?TryGet_delete; case_decide as Hc; subst;
      by rewrite ?lookup_insert_eq, ?lookup_insert_ne by done.
  - case_decide as Hc; [|done]. subst. by rewrite Ho.
Qed.
Lemma finalise_fold_point b l s c :
  NoDup l →
  point (foldl (finalise_one b) s l) c = if decide (c ∈ l) then finalise_point b (point s c) else point s c.
Proof.
  revert s. induction l as [|a l IH]; intros s Hnd; cbn [foldl].
  - by rewrite decide_False by apply not_elem_of_nil.
  - apply NoDup_cons in Hnd as [Ha Hnd]. rewrite (IH _ Hnd). destruct (decide (c = a)) as [->|Hca].
    + rewrite (decide_False (P := a ∈ l)), (decide_True (P := a ∈ a :: l)) by (done || by left).
      by rewrite finalise_one_point, decide_True.
    + rewrite finalise_one_point, (decide_False (P := c = a)) by done.
      destruct (decide (c ∈ l)); [rewrite decide_True by (by right)|rewrite decide_False by (by intros [?|?]%elem_of_cons)]; done.
Qed.
Lemma Finalise_point b s c :
  point (Finalise b s) c =
    match dirties s !! c with Some _ => finalise_point b (point s c) | None => point s c end.
Proof.
  change (point (Finalise b s) c) with (point (foldl (finalise_one b) s (elements (dom (dirties s)))) c).
  rewrite finalise_fold_point by apply NoDup_elements.
  destruct (dirties s !! c) eqn:Hc; [rewrite decide_True|rewrite decide_False]; rewrite ?elem_of_elements, ?elem_of_dom, ?Hc; naive_solver.
Qed.

(** ** The storage of an object *)
Lemma updateRoot_origin o k :
  object_ok o → oOrigin (updateRoot o) !! k =
    match oDirty o !! k with Some v => Some v | None => oOrigin o !! k end.
Proof.
  intros [Ho Hd]. unfold updateRoot. cbn. set (changed := filter _ (oDirty o)).
  rewrite lookup_union. destruct (oDirty o !! k) as [v|] eqn:Hv.
  - destruct (Hd k ltac:(by rewrite Hv)) as [w Hw]. rewrite Hw.
    destruct (decide (w = v)) as [->|Hne].
    + assert (changed !! k = None) as ->; [|done]. apply map_lookup_filter_None. right. intros x Hx. cbn. rewrite Hw. naive_solver.
    + assert (changed !! k = Some v) as ->; [|done]. apply map_lookup_filter_Some. split; [done|]. cbn. by rewrite Hw.
  - assert (changed !! k = None) as -> by (apply map_lookup_filter_None; by left). by destruct (oOrigin o !! k).
Qed.
Lemma updateRoot_read o k :
  object_ok o → storage_read (aRoot (oData (updateRoot o))) k =
    match oDirty o !! k with Some v => v | None => storage_read (aRoot (oData o)) k end.
Proof.
  intros [Ho Hd]. unfold updateRoot. cbn. set (changed := filter _ (oDirty o)). rewrite storage_read_write.
  destruct (oDirty o !! k) as [v|] eqn:Hv.
  - destruct (Hd k ltac:(by rewrite Hv)) as [w Hw]. destruct (decide (w = v)) as [->|Hne].
    + assert (changed !! k = None) as ->; [|symmetry; by apply Ho]. apply map_lookup_filter_None. right. intros x Hx. cbn. rewrite Hw. naive_solver.
    + assert (changed !! k = Some v) as ->; [|done]. apply map_lookup_filter_Some. split; [done|]. cbn. by rewrite Hw.
  - assert (changed !! k = None) as -> by (apply map_lookup_filter_None; by left). done.
Qed.
Lemma updateRoot_ok o : object_ok o → object_ok (updateRoot o) ∧ settled_object (updateRoot o).
Proof.
  intros Hok. split; [split|].
  - intros k v. rewrite updateRoot_origin, updateRoot_read by done.
    destruct (oDirty o !! k); [by intros [= ->]|]. apply Hok.
  - intros k [v Hv]. cbn in Hv. by rewrite lookup_empty in Hv.
  - intros k v Hv. cbn in Hv. by rewrite lookup_empty in Hv.
Qed.
Lemma updateRoot_storage o k : object_ok o → storage_of (updateRoot o) k = storage_of o k.
Proof.
  intros Hok. rewrite !storage_ok by (done || by apply updateRoot_ok). change (oDirty (updateRoot o)) with (∅ : gmap Hash Hash).
  rewrite lookup_empty. by apply updateRoot_read.
Qed.

(** ** The finalised state *)
Definition written s a : bool := bool_decide (is_Some (dirties s !! a)) && bool_decide (is_Some (stateObjects s !! a)).

Lemma live_point a s :
  live a s = match point s a with
             | (Some o, _) => if oDeleted o then None else Some o
             | (None, d) => newObject <$> d
             end.
Proof. rewrite live_unfold. unfold point. by destruct (stateObjects s !! a). Qed.

Lemma Finalise_live_at b s a : (∀ o, stateObjects s !! a = Some o → is_Some (dirties s !! a) → oDeleted o = false) →
  live a (Finalise b s) =
    if written s a then o ← live a s; if gone b o then None else Some (updateRoot o) else live a s.
Proof.
  intros Hs. rewrite !live_point, Finalise_point. unfold written.
  destruct (dirties s !! a) eqn:Hd; [|by rewrite bool_decide_false by (by intros [])].
  rewrite bool_decide_true by done. unfold finalise_point, point. cbn [fst andb].
  destruct (stateObjects s !! a) as [o|] eqn:Ho; [|by rewrite bool_decide_false by (by intros [])].
  rewrite bool_decide_true by done. pose proof (Hs o eq_refl ltac:(done)) as Hnd. rewrite Hnd.
  cbn [mbind option_bind]. destruct (gone b o); cbn; by rewrite ?Hnd.
Qed.
Lemma Finalise_live b s a :
  tidy s →
  live a (Finalise b s) =
    if written s a then o ← live a s; if gone b o then None else Some (updateRoot o) else live a s.
Proof. intros Hs. apply Finalise_live_at. apply (tidy_dirty _ Hs). Qed.

(** An account that is journaled, or was as the trie has it, is as the trie has
    it once finalised. *)
Definition clean_at s a : Prop := fine_object (stateObjects s !! a) ∧ clean_object (TryGet a (trie s)) (stateObjects s !! a).
Lemma Finalise_clean_at b s a : (∀ o, stateObjects s !! a = Some o → is_Some (dirties s !! a) → oDeleted o = false) →
  fine_object (stateObjects s !! a) → (dirties s !! a = None → clean_object (TryGet a (trie s)) (stateObjects s !! a)) → clean_at (Finalise b s) a.
Proof.
  intros Hs Hf Hc. pose proof (Finalise_point b s a) as Hp. unfold finalise_point, point in Hp. unfold clean_at. cbn [fst] in Hp.
  revert Hp. generalize (stateObjects (Finalise b s) !! a) (TryGet a (trie (Finalise b s))). intros x d Hp.
  destruct (dirties s !! a) eqn:Hd; [|injection Hp as -> ->; by auto].
  destruct (stateObjects s !! a) as [o|] eqn:Ho; [|injection Hp as -> ->; by split].
  pose proof (Hs o eq_refl ltac:(done)) as Hnd. destruct (gone b o); injection Hp as -> ->; [by split; [intros p [= <-]|]|].
  destruct (updateRoot_ok o (Hf o eq_refl Hnd)) as [Hok Hset]. split; [by intros p [= <-]|]. cbn. by rewrite Hnd.
Qed.
Lemma tidy_fine s a : tidy s → fine_object (stateObjects s !! a).
Proof. intros Hs o. apply (tidy_objects _ Hs). Qed.
Lemma tidy_clean_at s a : tidy s → dirties s !! a = None → clean_object (TryGet a (trie s)) (stateObjects s !! a).
Proof.
  intros Hs Hn. destruct (stateObjects s !! a) as [o|] eqn:Ho; [|done]. cbn. destruct (oDeleted o) eqn:Hd; [by eapply tidy_deleted|].
  by eapply tidy_clean.
Qed.
Lemma clean_tidy s : (∀ a, clean_at s a) → dirties s = ∅ → tidy s.
Proof.
  intros Hc Hd. split; intros a o Ho; destruct (Hc a) as [Hf Hco]; rewrite Ho in *; cbn in Hco.
  - by apply Hf.
  - intros Hdel. by rewrite Hdel in Hco.
  - intros _ Hdel. by rewrite Hdel in Hco.
  - rewrite Hd, lookup_empty. by intros [].
Qed.
Lemma Finalise_tidy b s : tidy s → tidy (Finalise b s).
Proof.
  intros Hs. apply clean_tidy; [|done]. intros a. apply Finalise_clean_at; [apply (tidy_dirty _ Hs)|by apply tidy_fine|by apply tidy_clean_at].
Qed.

(** Two objects with the same nonce, balance, code hash and storage. *)
Definition same_account o p : Prop :=
  summary o = summary p ∧ aCodeHash (oData o) = aCodeHash (oData p) ∧ ∀ key, storage_of o key = storage_of p key.

Lemma reopened_at s a : clean_at s a → option_Forall2 same_account (live a s) (live a (New (trie s))).
Proof.
  intros [Hf Hc]. rewrite (live_unfold a (New _)). cbn. rewrite lookup_empty, live_unfold.
  destruct (stateObjects s !! a) as [o|] eqn:Ho; cbn in Hc.
  - destruct (oDeleted o) eqn:Hdel; [rewrite Hc; constructor|].
    destruct Hc as [-> Hset]. constructor. split_and!; [done|done|]. intros key.
    rewrite !storage_ok by (apply newObject_ok || by apply Hf). cbn. rewrite lookup_empty.
    destruct (oDirty o !! key) eqn:Hk; [by apply Hset|done].
  - destruct (TryGet a (trie s)); constructor. by split_and!.
Qed.
Lemma tidy_reopened s a :
  tidy s → dirties s !! a = None → option_Forall2 same_account (live a s) (live a (New (trie s))).
Proof. intros Hs Hd. apply reopened_at. split; [by apply tidy_fine|by apply tidy_clean_at]. Qed.

(** An account that was created again while it was live, and not written
    since: the entry of its creation does not count it as dirty. *)
Definition lost s a : Prop := dirties s !! a = None ∧ ∃ prev, resetObjectChange a prev ∈ entries s.
Lemma undoable_clean_at s a : undoable s → ¬ lost s a → dirties s !! a = None → clean_object (TryGet a (trie s)) (stateObjects s !! a).
Proof.
  intros Hs Hlost Hd. eapply unwinds_quiet; [|apply (uw_account _ _ Hs a)]. apply Forall_reverse, Forall_forall. intros e He Ha.
  assert (dirtied e = Some a ∨ ∃ p, e = resetObjectChange a p) as [Hda|[p ->]]; [|pose proof (uw_count _ _ Hs a) as Hn|apply Hlost; split; [done|by exists p]].
  { destruct e; cbn in *; simplify_eq; eauto. }
  rewrite Hd in Hn. unfold changes_of in Hn. cbn in Hn.
  assert (e ∈ filter (λ e, dirtied e = Some a) (reverse (entries s))) as Hin by (apply list_elem_of_filter; by rewrite elem_of_reverse).
  destruct (filter _ _); [by apply not_elem_of_nil in Hin|cbn in Hn; lia].
Qed.
Lemma undoable_written s a o : undoable s → stateObjects s !! a = Some o → is_Some (dirties s !! a) → oDeleted o = false.
Proof. intros Hs. apply Hs. Qed.
Lemma clean_undoable s : (∀ a, clean_at s a) → dirties s = ∅ → entries s = [] → undoable s.
Proof.
  intros Hc Hd He. unfold undoable. rewrite He. split; [intros a; apply Hc|intros a; by rewrite Hd, lookup_empty|].
  intros a o _. rewrite Hd, lookup_empty. by intros [].
Qed.
Lemma New_undoable (t0 : T) : undoable (New t0).
Proof. apply clean_undoable; [|done|done]. intros a. split; [intros o|]; cbn; by rewrite lookup_empty. Qed.

Lemma undoable_live s a o : undoable s → live a s = Some o → object_ok o.
Proof.
  intros Hs. rewrite live_unfold. destruct (stateObjects s !! a) as [p|] eqn:Hp.
  - destruct (oDeleted p) eqn:Hd; [done|]. intros [= <-]. by eapply unwound_object.
  - destruct (TryGet a (trie s)); [|done]. intros [= <-]. apply newObject_ok.
Qed.

(** C26: [Finalise] makes the account trie say what the getters say.  After any
    operations of a state whose journal leads back to its trie, snapshots,
    reversals and the creation of existing accounts included, finalising keeps
    the nonce, balance, code hash and storage of every account but those
    journaled that are suicided or (on request) empty, which are gone; and a
    state reopened from the trie alone has exactly the accounts of the finalised
    one, with their storage.  The exception are the accounts created again while
    they were live and not written since: the getters answer the new object and
    the trie keeps the old account.  When there is none, the finalised state is
    ready for the next transaction. *)
Theorem Finalise_persists b s0 s :
  undoable s0 → rtc state_step s0 s →
  (∀ a, match live a s with
        | None => live a (Finalise b s) = None
        | Some o => if written s a && gone b o then live a (Finalise b s) = None
                    else ∃ p, live a (Finalise b s) = Some p ∧ same_account o p
        end) ∧
  (∀ a, ¬ lost s a → option_Forall2 same_account (live a (Finalise b s)) (live a (New (trie (Finalise b s))))) ∧
  (∀ a, lost s a → live a (Finalise b s) = live a s ∧ TryGet a (trie (Finalise b s)) = TryGet a (trie s0)) ∧
  ((∀ a, ¬ lost s a) → undoable (Finalise b s)).
Proof.
  intros Hs0 Hsteps. destruct (undoable_steps _ _ Hsteps Hs0) as [Hs Ht].
  assert (∀ a, ¬ lost s a → clean_at (Finalise b s) a) as Hclean.
  { intros a Hl. apply Finalise_clean_at; [intros o; by apply undoable_written|eapply unwinds_fine, Hs|by apply undoable_clean_at]. }
  assert (∀ a, live a (Finalise b s) = if written s a then o ← live a s; if gone b o then None else Some (updateRoot o) else live a s) as Hlive
    by (intros a; apply Finalise_live_at; intros o; by apply undoable_written).
  split_and!.
  - intros a. rewrite Hlive. destruct (live a s) as [o|] eqn:Ho; [|by destruct (written s a)].
    destruct (written s a); cbn [mbind option_bind andb]; [|exists o; by split_and!].
    destruct (gone b o); [done|]. exists (updateRoot o). split; [done|]. split_and!; [done|done|].
    intros key. symmetry. apply updateRoot_storage. by eapply undoable_live.
  - intros a Hl. by apply reopened_at, Hclean.
  - intros a [Hd _]. rewrite Hlive. unfold written. rewrite Hd, <- Ht. split; [done|].
    pose proof (Finalise_point b s a) as Hp. rewrite Hd in Hp. by injection Hp.
  - intros Hl. apply clean_undoable; [|done|done]. intros a. by apply Hclean.
Qed.

(** * Copies *)
Lemma Copy_objects s c a :
  Copy s = Ok c →
  stateObjects c !! a =
    if decide (is_Some (dirties s !! a) ∨ a ∈ stateObjectsDirty s) then stateObjects s !! a else None.
Proof.
  unfold Copy. case_decide; [|done]. intros [= <-]. cbn. unfold copy_journaled. rewrite lookup_union.
  destruct (stateObjects s !! a) as [o|] eqn:Ho.
  - assert (∀ (P : Address * stateObject → Prop) `{!∀ x, Decision (P x)},
      filter P (stateObjects s) !! a = if decide (P (a, o)) then Some o else None) as Hf.
    { intros P ?. case_decide; [by apply map_lookup_filter_Some|]. apply map_lookup_filter_None. right. intros p Hp. by simplify_eq. }
    rewrite !Hf. cbn. repeat case_decide; cbn; naive_solver.
  - assert (∀ (P : Address * stateObject → Prop) `{!∀ x, Decision (P x)}, filter P (stateObjects s) !! a = None) as Hf
      by (intros P ?; apply map_lookup_filter_None; by left).
    rewrite !Hf. by case_decide.
Qed.

(** [Copy] is an independent state with the same accounts: whenever the
    objects marked dirty exist it succeeds, with an empty journal, and every
    account has the nonce, balance, code hash and storage of the original,
    although unchanged accounts are left to be loaded again from the trie. *)
Theorem Copy_same_accounts s :
  tidy s → stateObjectsDirty s ⊆ dom (stateObjects s) →
  ∃ c, Copy s = Ok c ∧ entries c = [] ∧ validRevisions c = [] ∧ refund c = refund s ∧
    ∀ a, option_Forall2 same_account (live a s) (live a c).
Proof.
  intros Hs Hdom.
  assert (∃ c, Copy s = Ok c) as [c Hc] by (unfold Copy; rewrite decide_True by done; by eexists).
  exists c. split; [done|]. pose proof (Copy_objects s c) as Hobj.
  assert (entries c = [] ∧ validRevisions c = [] ∧ refund c = refund s ∧ trie c = trie s) as (He & Hv & Hr & Ht)
    by (unfold Copy in Hc; rewrite decide_True in Hc by done; by injection Hc as <-).
  split_and!; [done..|]. intros a. rewrite (live_unfold a c), (Hobj a Hc), Ht.
  assert (∀ o, same_account o o) as Hrefl by (intros o; by split_and!).
  destruct (decide (is_Some (dirties s !! a) ∨ a ∈ stateObjectsDirty s)) as [Hd|Hd].
  - rewrite live_unfold. destruct (stateObjects s !! a) as [o|]; [destruct (oDeleted o)|destruct (TryGet a (trie s))];
      constructor; apply Hrefl.
  - pose proof (tidy_reopened s a Hs) as Hopen. rewrite (live_unfold a (New _)) in Hopen. cbn in Hopen.
    rewrite lookup_empty in Hopen. apply Hopen. destruct (dirties s !! a); [|done]. exfalso. apply Hd. by left.
Qed.
End persistence.
