(* ===== verification/Processor.v ===== *)
(** Block processing ([core/state_processor.go], [core/block_validator.go]): every
    transaction of a block applied to the world state in turn, with its
    receipt, and the checks of a block's body and of its resulting state.

    What processing a block does: gas accounting, conservation of money over a
    whole block, the state root, validation of assembled blocks, and the gas
    limit of the next block. *)
From S2P Require Import Prelude Types Sealing Blocks StateDB StateRevert Transition TransitionEffect StateTransfer TxSigning StateFinalise.

Inductive process_error :=
  | txError (e : tx_error)
  | coreError (e : core_error).

(** [NewReceipt] *)
Definition NewReceipt (root : list byte) (failed : bool) (cumulativeGasUsed : Z) : Receipt :=
  mkReceipt root (if failed then ReceiptStatusFailed else ReceiptStatusSuccessful) cumulativeGasUsed 0 []
    zero_hash zero_address 0 zero_hash None 0.

(** [AsMessage], once the sender is recovered ([Sender_coherent] of
    [TxSigning.v]: the sender cache of the transaction changes nothing). *)
Definition AsMessage `{Crypto} `{TxCrypto} (s : Signer) (tx : Transaction) : Result tx_error Message :=
  from ← Signer_Sender s tx;
  mret (mkMessage (Recipient tx) from (AccountNonce tx) (Amount tx) (TxGasLimit tx) (Price tx) (Payload tx) true).

(** The engine of the chain, as far as the processor calls it: the author of a
    header (the zero address on an error, which the caller ignores). *)
Class BlockEngine := engine_Author : Header → Address.
(** The effect of [Finalize] on the state, the same for both engines: the root
    of the header is computed. *)
Definition engine_Finalize {T} `{StateTrie T} `{StateStore} (s : StateDB T) : StateDB T := (IntermediateRoot true s).2.

(** What the transactions of a block share: the gas pool, the state and the
    counter of the gas used. *)
Record BlockRun (T : Type) := mkRun { run_gp : Z; run_state : StateDB T; run_usedGas : Z }.
Arguments mkRun {T} _ _ _.
Arguments run_gp {T} _.
Arguments run_state {T} _.
Arguments run_usedGas {T} _.

Section processing.
Context {T : Type} `{StateTrie T} `{StateStore} `{Crypto} `{TxCrypto} `{BlockDigests} `{BlockEngine}.
Context (ChainID : option Z).

(** [NewEVMContext] and [NewEVM]: the coinbase, after dereferencing the
    header's number and difficulty. *)
Definition NewEVMContext (header : Header) (author : option Address) : Result process_error EVM :=
  match Number header, Difficulty header with
  | Some _, Some _ => Ok (mkEVM (match author with Some a => a | None => engine_Author header end) 0)
  | _, _ => Panic NilDereference
  end.

Definition ApplyTransaction (author : option Address) (header : Header) (tx : Transaction) :
    GoM (BlockRun T) process_error (Receipt * Z) := λ r,
  match AsMessage (MakeSigner ChainID) tx with
  | Err e => (Err (txError e), r)
  | Panic p => (Panic p, r)
  | Ok msg =>
  match NewEVMContext header author with
  | Err e => (Err e, r)
  | Panic p => (Panic p, r)
  | Ok evm =>
  match ApplyMessage evm msg (run_gp r) (run_state r) with
  | (Err e, (gp, s)) => (Err (coreError e), mkRun gp s (run_usedGas r))
  | (Panic p, (gp, s)) => (Panic p, mkRun gp s (run_usedGas r))
  | (Ok (_, gas, failed), (gp, s)) =>
      let s := Finalise true s in
      let usedGas := (run_usedGas r + gas)%u64 in
      let receipt := NewReceipt [] failed usedGas in
      let receipt := mkReceipt (rPostState receipt) (rStatus receipt) (rCumulativeGasUsed receipt) (rBloom receipt)
        (GetLogs (rlpHash_tx tx) s) (rlpHash_tx tx) (rContractAddress receipt) gas
        (rBlockHash receipt) (rBlockNumber receipt) (rTransactionIndex receipt) in
      match CreateBloom [receipt] with
      | Ok bloom =>
          (Ok (mkReceipt (rPostState receipt) (rStatus receipt) (rCumulativeGasUsed receipt) bloom
                (rLogs receipt) (rTxHash receipt) (rContractAddress receipt) (rGasUsed receipt)
                (bhash s) (Number header) (txIndex s), gas),
           mkRun gp s usedGas)
      | Err _ => (Panic (ExplicitPanic "unreachable"), mkRun gp s usedGas)
      | Panic p => (Panic p, mkRun gp s usedGas)
      end
  end end end.

(** The loop of [Process], from transaction [i]. *)
Fixpoint process_txs (header : Header) (blockHash : Hash) (i : Z) (txs : list Transaction) :
    GoM (BlockRun T) process_error (list Receipt) :=
  match txs with
  | [] => mret []
  | tx :: txs' =>
      modify (λ r, mkRun (run_gp r) (Prepare (rlpHash_tx tx) blockHash i (run_state r)) (run_usedGas r));;
      '(receipt, _) ← ApplyTransaction None header tx;
      receipts ← process_txs header blockHash (i + 1) txs';
      mret (receipt :: receipts)
  end.

(** [Process]: the receipts, the logs and the gas used; the state is the one
    passed in, changed. *)
Definition Process (block : Block) (s : StateDB T) :
    Result process_error (list Receipt * list Log * Z) * StateDB T :=
  let header := CopyHeader (block_header block) in
  match AddGas 0 (GasLimit (block_header block)) with
  | Err e => (Err e, s)
  | Panic p => (Panic p, s)
  | Ok gp =>
      match process_txs header (Header_Hash (block_header block)) 0 (block_transactions block) (mkRun gp s 0) with
      | (Err e, r) => (Err e, run_state r)
      | (Panic p, r) => (Panic p, run_state r)
      | (Ok receipts, r) =>
          (Ok (receipts, mjoin (rLogs <$> receipts), run_usedGas r),
           engine_Finalize (run_state r))
      end
  end.
End processing.

(** * Validation *)
Inductive validation_error :=
  | ErrKnownBlock | errUncles | errUncleHash | errTxHash | ErrUnknownAncestor | ErrPrunedAncestor
  | errGasUsed | errBloom | errReceiptHash | errStateRoot.
#[export] Instance validation_error_eq_dec : EqDecision validation_error.
Proof. solve_decision. Defined.

(** The chain as the validator sees it. *)
Class BlockStore (C : Type) := {
  HasBlock : C → Hash → Z → bool;
  HasBlockAndState : C → Hash → Z → bool;
  engine_VerifyUncles : C → Block → bool
}.

Section validation.
Context {C : Type} `{BlockStore C} `{Crypto} `{BlockDigests}.

Definition ValidateBody (chain : C) (block : Block) : Result validation_error unit :=
  let header := CopyHeader (block_header block) in
  match Number (block_header block) with
  | None => Panic NilDereference
  | Some n =>
  let number := wrap64 n in
  if HasBlockAndState chain (Header_Hash (block_header block)) number then Err ErrKnownBlock else
  if negb (engine_VerifyUncles chain block) then Err errUncles else
  if negb (CalcUncleHash (block_uncles block) =? UncleHash header) then Err errUncleHash else
  if negb (DeriveSha_Transactions (block_transactions block) =? TxHash header) then Err errTxHash else
  if negb (HasBlockAndState chain (ParentHash (block_header block)) (number - 1)%u64) then
    if negb (HasBlock chain (ParentHash (block_header block)) (number - 1)%u64) then Err ErrUnknownAncestor
    else Err ErrPrunedAncestor
  else Ok tt
  end.

Context {T : Type} `{StateTrie T} `{StateStore}.

(** [ValidateState] leaves the state finalised when it gets that far. *)
Definition ValidateState (block : Block) (s : StateDB T) (receipts : list Receipt) (usedGas : Z) :
    Result validation_error unit * StateDB T :=
  let header := CopyHeader (block_header block) in
  if negb (GasUsed (block_header block) =? usedGas) then (Err errGasUsed, s) else
  match CreateBloom receipts with
  | Err _ => (Panic (ExplicitPanic "unreachable"), s)
  | Panic p => (Panic p, s)
  | Ok rbloom =>
      if negb (rbloom =? Bloom header) then (Err errBloom, s) else
      if negb (DeriveSha_Receipts receipts =? ReceiptHash header) then (Err errReceiptHash, s) else
      let '(root, s) := IntermediateRoot true s in
      if negb (Root header =? root) then (Err errStateRoot, s) else (Ok tt, s)
  end.
End validation.

(** * The gas limit of the next block *)
Definition GasLimitBoundDivisor : Z := 1024.
Definition MinGasLimit : Z := 5000.
Definition CalcGasLimit (parent : Header) (gasFloor gasCeil : Z) : Z :=
  let contrib := (GasUsed parent + GasUsed parent / 2)%u64 / GasLimitBoundDivisor in
  let decay := (GasLimit parent / GasLimitBoundDivisor - 1)%u64 in
  let limit := ((GasLimit parent - decay)%u64 + contrib)%u64 in
  let limit := if limit <? MinGasLimit then MinGasLimit else limit in
  if limit <? gasFloor then
    let limit := (GasLimit parent + decay)%u64 in
    if gasFloor <? limit then gasFloor else limit
  else if gasCeil <? limit then
    let limit := (GasLimit parent - decay)%u64 in
    if limit <? gasCeil then gasCeil else limit
  else limit.

(** * Tidy states under execution *)
Section tidy_execution.
Context {T : Type} `{StateTrieLaws T} `{StateStoreLaws}.
Implicit Types (s : StateDB T) (a : Address) (o : stateObject).

Definition no_suicide s : Prop := ∀ a o, live a s = Some o → oSuicided o = false.

Lemma no_suicide_put a o s s' :
  no_suicide s → oSuicided o = false → (∀ b, b ≠ a → live b s' = live b s) → no_suicide (setStateObject a o s').
Proof.
  intros Hs Ho Hl b p. rewrite live_set. case_decide as Hb; [destruct (oDeleted o); naive_solver|].
  rewrite Hl by done. apply Hs.
Qed.
Lemma no_suicide_same s s' : (∀ b, live b s' = live b s) → no_suicide s → no_suicide s'.
Proof. intros Hl Hs a o. rewrite Hl. apply Hs. Qed.
Lemma no_suicide_getOrNew a s :
  no_suicide s → no_suicide (GetOrNewStateObject a s).2 ∧ oSuicided (GetOrNewStateObject a s).1 = false.
Proof.
  intros Hs. destruct (getOrNew_run a s) as (s' & -> & _ & Hl). cbn.
  assert (oSuicided (default blank_object (live a s)) = false) as Hd.
  { destruct (live a s) as [o|] eqn:Ho; [by apply (Hs a)|done]. }
  split; [|done]. intros b o. rewrite Hl. case_decide; [by intros [= <-]|apply Hs].
Qed.

(** The state stands for the world, and is ready to be finalised. *)
Definition stands_tidy s (w : World) : Prop := stands_for s w ∧ tidy s ∧ no_suicide s.

Lemma stands_tidy_load s s' w :
  stands_tidy s w → same_accounts s s' → tidy s' → stands_tidy s' w.
Proof.
  intros (Hw & Ht & Hn) Hsame Ht'. split; [by eapply stands_for_load|]. split; [done|].
  eapply no_suicide_same; [apply Hsame|done].
Qed.

Ltac put_back := match goal with Hget : no_suicide _ ∧ oSuicided _ = false |- _ =>
  eapply no_suicide_put; [exact (proj1 Hget)|exact (proj2 Hget)|intros; apply live_journal] end.

Lemma no_suicide_AddBalance a x s : no_suicide s → no_suicide (AddBalance a x s).
Proof.
  intros Hs. pose proof (no_suicide_getOrNew a s Hs) as Hget. unfold AddBalance.
  destruct (GetOrNewStateObject a s) as [o s1]. cbn [fst snd] in Hget. destruct (x =? 0); [|by put_back].
  destruct (empty_object o); [|by destruct Hget]. destruct Hget as [Hn _].
  eapply no_suicide_same; [|exact Hn]. intros b. unfold touch. case_bool_decide; by rewrite !live_unfold.
Qed.
Lemma no_suicide_SubBalance a x s : no_suicide s → no_suicide (SubBalance a x s).
Proof.
  intros Hs. pose proof (no_suicide_getOrNew a s Hs) as Hget. unfold SubBalance.
  destruct (GetOrNewStateObject a s) as [o s1]. cbn [fst snd] in Hget. destruct (x =? 0); [by destruct Hget|by put_back].
Qed.
Lemma no_suicide_SetNonce a n s : no_suicide s → no_suicide (SetNonce a n s).
Proof.
  intros Hs. pose proof (no_suicide_getOrNew a s Hs) as Hget. unfold SetNonce.
  destruct (GetOrNewStateObject a s) as [o s1]. cbn [fst snd] in Hget. by put_back.
Qed.
Lemma no_suicide_CreateAccount a s : no_suicide s → live a s = None → no_suicide (CreateAccount a s).
Proof.
  intros Hs Hl. unfold CreateAccount, createObject. destruct (load_run a s) as (s1 & Hrun & Hl1 & _). rewrite Hrun, Hl.
  eapply no_suicide_put; [exact Hs|done|]. intros b Hb. rewrite live_journal. apply Hl1.
Qed.

Lemma absent_live s w a : stands_for s w → w_accounts w a = None → live a s = None.
Proof. intros [Ha _]. rewrite <- Ha. unfold account_view. by destruct (live a s). Qed.

Definition statedb_tidy_laws : VMStateLaws (StateDB T).
Proof.
  apply (Build_VMStateLaws (StateDB T) _ stands_tidy).
  - intros a s w Hs. split; [by apply GetBalance_world, Hs|].
    pose proof (tidy_query a (λ x, match x with None => 0 | Some o => aBalance (oData o) end) s (proj1 (proj2 Hs))) as Ht.
    cbn. unfold GetBalance in *. destruct (load_run a s) as (s' & Hrun & Hk). rewrite Hrun in *. by eapply stands_tidy_load.
  - intros a x s w (Hw & Ht & Hn). split; [by apply stands_for_SubBalance|]. split; [by apply tidy_SubBalance|by apply no_suicide_SubBalance].
  - intros a x s w (Hw & Ht & Hn). split; [by apply stands_for_AddBalance|]. split; [by apply tidy_AddBalance|by apply no_suicide_AddBalance].
  - intros a s w Hs. split; [by apply GetNonce_world, Hs|].
    pose proof (tidy_query a (λ x, match x with None => 0 | Some o => aNonce (oData o) end) s (proj1 (proj2 Hs))) as Ht.
    cbn. unfold GetNonce in *. destruct (load_run a s) as (s' & Hrun & Hk). rewrite Hrun in *. by eapply stands_tidy_load.
  - intros a n s w (Hw & Ht & Hn). split; [by apply stands_for_SetNonce|]. split; [by apply tidy_SetNonce|by apply no_suicide_SetNonce].
  - intros a s w Hs. split; [by apply Exist_world, Hs|].
    pose proof (tidy_query a (λ x, bool_decide (is_Some x)) s (proj1 (proj2 Hs))) as Ht.
    cbn. unfold Exist in *. destruct (load_run a s) as (s' & Hrun & Hk). rewrite Hrun in *. by eapply stands_tidy_load.
  - intros a s w (Hw & Ht & Hn) Ha. pose proof (absent_live s w a Hw Ha) as Hl.
    split; [by apply stands_for_CreateAccount|]. split; [by apply tidy_CreateAccount|by apply no_suicide_CreateAccount].
  - intros s w [Hw _]. apply Hw.
Defined.

(** Executing a message keeps the state tidy, whatever the outcome. *)
Lemma ApplyMessage_tidy evm msg gp s :
  tidy s → no_suicide s → let s' := (ApplyMessage evm msg gp s).2.2 in tidy s' ∧ no_suicide s'.
Proof.
  intros Ht Hn.
  destruct (@TransitionDb_sim (StateDB T) _ statedb_tidy_laws evm msg (mkST gp 0 0 s) (mkST gp 0 0 (world_of s)))
    as [_ (_ & _ & _ & _ & Ht' & Hn')].
  - split; [done|]. split; [done|]. split; [done|]. split; [apply world_of_stands|done].
  - unfold ApplyMessage. by destruct (TransitionDb evm msg (mkST gp 0 0 s)) as [r st].
Qed.

(** Finalising leaves the balances and the nonces as they are. *)
Lemma Finalise_accounts b s a :
  tidy s → no_suicide s →
  (GetBalance a (Finalise b s)).1 = (GetBalance a s).1 ∧ (GetNonce a (Finalise b s)).1 = (GetNonce a s).1 ∧
  ∀ o, live a (Finalise b s) = Some o → oSuicided o = false.
Proof.
  intros Ht Hn. unfold GetBalance, GetNonce. destruct (load_run a (Finalise b s)) as (s1 & -> & _).
  destruct (load_run a s) as (s2 & -> & _). rewrite Finalise_live by done.
  destruct (live a s) as [o|] eqn:Ho; [|by destruct (written s a)]. pose proof (Hn a o Ho) as Hsu. cbn.
  destruct (written s a); [|by split_and!; [..|intros p [= <-]]]. cbn [mbind option_bind].
  destruct (gone b o) eqn:Hg; [|by split_and!; [..|intros p [= <-]]].
  unfold gone in Hg. rewrite Hsu in Hg. cbn [orb] in Hg. apply andb_true_iff in Hg as [_ Hempty].
  unfold empty_object in Hempty. rewrite !andb_true_iff, !Z.eqb_eq in Hempty. by destruct Hempty as [[-> ->] _].
Qed.
End tidy_execution.

(** * Transactions *)
Section block.
Context {T : Type} `{StateTrieLaws T} `{StateStoreLaws} `{Crypto} `{TxCrypto} `{BlockDigests} `{BlockEngine}.
Context (ChainID : option Z).
Implicit Types (s : StateDB T) (r : BlockRun T) (a : Address).

(** Between two transactions: nothing is in the journal, and the pool has what
    the transactions so far have not used. *)
Record ready (limit : Z) r : Prop := {
  rd_limit : is_u64 limit;
  rd_pool : run_gp r + run_usedGas r = limit;
  rd_gp : 0 ≤ run_gp r;
  rd_used : 0 ≤ run_usedGas r;
  rd_refund : refund (run_state r) = 0;
  rd_tidy : tidy (run_state r);
  rd_suicides : no_suicide (run_state r)
}.
Record tx_ok (tx : Transaction) : Prop := {
  tok_gas : is_u64 (TxGasLimit tx);
  tok_payload : Z.of_nat (length (Payload tx)) ≤ MaxUint64
}.

(** The accounts a transaction can change. *)
Definition sender_of (tx : Transaction) : Result tx_error Address := Signer_Sender (MakeSigner ChainID) tx.
Definition covers (l : list Address) (coinbase : Address) (txs : list Transaction) : Prop :=
  NoDup l ∧ coinbase ∈ l ∧
  Forall (λ tx, default zero_address (Recipient tx) ∈ l ∧ ∀ from, sender_of tx = Ok from → from ∈ l) txs.

Definition beneficiary (header : Header) (author : option Address) : Address :=
  match author with Some a => a | None => engine_Author header end.
Definition balances s (l : list Address) : Z := total (λ a, (GetBalance a s).1) l.

Lemma balances_Finalise b s l : tidy s → no_suicide s → balances (Finalise b s) l = balances s l.
Proof. intros Ht Hn. apply total_ext. intros a. by destruct (Finalise_accounts b s a Ht Hn). Qed.

(** A transaction that is applied. *)
Lemma ApplyTransaction_ok limit author header tx r receipt gas r' :
  ready limit r → tx_ok tx → ApplyTransaction ChainID author header tx r = (Ok (receipt, gas), r') →
  ready limit r' ∧ 0 ≤ gas ≤ TxGasLimit tx ∧ run_usedGas r' = run_usedGas r + gas ∧
  rGasUsed receipt = gas ∧ rCumulativeGasUsed receipt = run_usedGas r' ∧
  ∀ l, covers l (beneficiary header author) [tx] → balances (run_state r') l = balances (run_state r) l.
Proof.
  intros [Hlim Hpool Hgp Hused Href Htidy Hsui] [Hgas Hdata] Hrun. unfold ApplyTransaction in Hrun.
  unfold AsMessage in Hrun. destruct (Signer_Sender (MakeSigner ChainID) tx) as [from|?|?] eqn:Hfrom; [|done..].
  cbn [mbind result_bind mret result_ret] in Hrun.
  assert (∃ evm, NewEVMContext header author = Ok evm ∧ Coinbase evm = beneficiary header author) as (evm & Hevm & Hcb).
  { revert Hrun. unfold NewEVMContext. destruct (Number header), (Difficulty header); [|done..]. by eexists. }
  rewrite Hevm in Hrun. set (msg := mkMessage _ _ _ _ _ _ _ _) in *.
  assert (message_ok msg) as Hmsg by by split. assert (is_u64 (refund (run_state r))) as Hru by (rewrite Href; done).
  assert (is_u64 (run_gp r)) as Hgpu by (u64_unfold; lia).
  destruct (ApplyMessage_tidy evm msg (run_gp r) (run_state r) Htidy Hsui) as [Htidy1 Hsui1].
  pose proof (ApplyMessage_run evm msg (run_gp r) (run_state r) Hgpu Hmsg Hru) as Hres.
  destruct (transition_check evm msg (run_gp r) (world_of (run_state r))) as [e|] eqn:Hcheck.
  { destruct Hres as (g & s1 & Happ & _). rewrite Happ in Hrun. done. }
  destruct Hres as (s1 & w1 & Happ & Hw1 & Href1 & Hset). rewrite Happ in *. cbn [fst snd] in Htidy1, Hsui1.
  rewrite CreateBloom_run in Hrun. set (used := gas_charged msg _) in *.
  pose proof (gas_charged_bounds msg (refund (run_state r)) ltac:(apply Hru) (cost_of_bound msg)) as Hb. fold used in Hb.
  destruct (transition_check_funds _ _ _ _ Hcheck) as [Hcost _].
  assert (msgGasLimit msg ≤ run_gp r) as Hroom by by eapply transition_check_room.
  change (msgGasLimit msg) with (TxGasLimit tx) in *. injection Hrun as <- <- <-. cbn.
  rewrite u64_add_id by (u64_unfold; lia). split_and!; try done; try lia.
  - split; cbn; try done; try lia; [by apply Finalise_tidy|]. intros a o. by apply Finalise_accounts.
  - intros l (Hnd & Hc & Hl). apply Forall_cons in Hl as [[Hto Hsnd] _]. rewrite balances_Finalise by done.
    unfold balances. rewrite (total_ext _ (λ a, (GetBalance a (run_state r)).1 + transfer_of evm msg used a)).
    + rewrite total_add, total_transfer; [lia|done| |done|by rewrite Hcb]. by apply Hsnd.
    + intros a. rewrite (GetBalance_world s1 w1 a Hw1), (GetBalance_world _ _ a (world_of_stands _)). apply Hset.
Qed.

(** ** A whole block *)
Fixpoint gas_accounted (before : Z) (receipts : list Receipt) (after : Z) : Prop :=
  match receipts with
  | [] => after = before
  | receipt :: receipts' =>
      0 ≤ rGasUsed receipt ∧ rCumulativeGasUsed receipt = before + rGasUsed receipt ∧
      gas_accounted (before + rGasUsed receipt) receipts' after
  end.

Lemma Prepare_ready limit r th bh i :
  ready limit r → ready limit (mkRun (run_gp r) (Prepare th bh i (run_state r)) (run_usedGas r)).
Proof.
  intros []. split; cbn [run_gp run_usedGas run_state]; try assumption; [by eapply tidy_frame|].
  apply (no_suicide_same (run_state r)); [|done]. intros b. by rewrite !live_unfold.
Qed.
Lemma balances_same s s' l : (∀ a, live a s' = live a s) → balances s' l = balances s l.
Proof.
  intros Hl. apply total_ext. intros a. unfold GetBalance.
  destruct (load_run a s) as (s1 & -> & _), (load_run a s') as (s2 & -> & _). by rewrite Hl.
Qed.

Lemma process_txs_ok limit header blockHash i txs r receipts r' :
  ready limit r → Forall tx_ok txs →
  process_txs ChainID header blockHash i txs r = (Ok receipts, r') →
  ready limit r' ∧ length receipts = length txs ∧ gas_accounted (run_usedGas r) receipts (run_usedGas r') ∧
  ∀ l, covers l (engine_Author header) txs → balances (run_state r') l = balances (run_state r) l.
Proof.
  revert i r receipts. induction txs as [|tx txs IH]; intros i r receipts Hr Htxs Hrun; cbn [process_txs] in Hrun.
  - go_inv Hrun. done.
  - apply Forall_cons in Htxs as [Htx Htxs]. go_inv_step Hrun. injection Hm as <- <-.
    apply gom_bind_ok in Hrun as ([receipt gas] & r2 & Happ & Hrun). go_inv_step Hrun. go_inv_step Hrun.
    pose proof (Prepare_ready limit r (rlpHash_tx tx) blockHash i Hr) as Hr1.
    destruct (ApplyTransaction_ok _ _ _ _ _ _ _ _ Hr1 Htx Happ) as (Hr2 & Hgas & Hused & Hrg & Hcum & Hbal).
    destruct (IH _ _ _ Hr2 Htxs Hm) as (Hr3 & Hlen & Hacc & Hbal3).
    split; [done|]. split; [by cbn; rewrite Hlen|]. split.
    + cbn in Hused |- *. rewrite Hrg, Hcum. rewrite Hused in *. split_and!; [lia|done|done].
    + intros l (Hnd & Hc & Hl). apply Forall_cons in Hl as [Hl1 Hl].
      rewrite Hbal3 by done. rewrite Hbal by (split_and!; [done|done|by constructor]).
      apply balances_same. intros b. by rewrite !live_unfold.
Qed.

Lemma gas_accounted_le before receipts after : gas_accounted before receipts after → before ≤ after.
Proof.
  revert before. induction receipts as [|r rs IH]; intros before; cbn; [lia|]. intros (? & _ & Hrs%IH). lia.
Qed.

(** C29: a block that [Process] accepts is accounted for.  There is a receipt per
    transaction, their cumulative gas counts up the gas used one by one, the
    total is the gas used reported and at most the gas limit of the block; no
    money is created or destroyed over the accounts involved; and the account
    trie of the resulting state holds exactly the accounts the state has. *)
Theorem Process_accounts block s receipts logs used s' :
  tidy s → no_suicide s → refund s = 0 → is_u64 (GasLimit (block_header block)) →
  Forall tx_ok (block_transactions block) →
  Process ChainID block s = (Ok (receipts, logs, used), s') →
  length receipts = length (block_transactions block) ∧
  gas_accounted 0 receipts used ∧ used ≤ GasLimit (block_header block) ∧
  (∀ l, covers l (engine_Author (CopyHeader (block_header block))) (block_transactions block) →
    balances s' l = balances s l) ∧
  tidy s' ∧ ∀ a, option_Forall2 same_account (live a s') (live a (New (trie s'))).
Proof.
  intros Ht Hn Hr Hlim Htxs Hrun. unfold Process, AddGas in Hrun.
  rewrite (proj2 (Z.ltb_ge _ 0)) in Hrun by u64_lia. rewrite u64_add_id in Hrun by (u64_unfold; lia).
  destruct (process_txs _ _ _ _ _ _) as [[rs|?|?] r'] eqn:Hp; [|done..]. injection Hrun as <- <- <- <-.
  assert (ready (GasLimit (block_header block)) (mkRun (0 + GasLimit (block_header block)) s 0)) as Hready
    by (destruct Hlim; by split; cbn; try lia).
  destruct (process_txs_ok (GasLimit (block_header block)) _ _ _ _ _ _ _ Hready Htxs Hp)
    as ([_ Hpool Hgp _ _ Ht' Hn'] & Hlen & Hacc & Hbal).
  unfold engine_Finalize, IntermediateRoot. cbn [snd]. split_and!; [done|done|lia| |by apply Finalise_tidy|].
  - intros l Hl. rewrite balances_Finalise by done. by apply Hbal.
  - intros a. apply tidy_reopened; [by apply Finalise_tidy|]. cbn. apply lookup_empty.
Qed.
End block.

(** * Assembled blocks are valid *)
Section assembled.
Context {C : Type} `{BlockStore C} `{Crypto} `{BlockDigests} {T : Type} `{StateTrie T} `{StateStore}.

(** The root of a trie without entries does not depend on what it would list. *)
Definition digests_agree : Prop := DeriveSha_Receipts [] = DeriveSha_Transactions [].

Lemma tx_digest txs :
  (match txs with [] => EmptyRootHash | _ => DeriveSha_Transactions txs end) = DeriveSha_Transactions txs.
Proof. by destruct txs. Qed.
Lemma receipt_digest receipts :
  digests_agree →
  (match receipts with [] => EmptyRootHash | _ => DeriveSha_Receipts receipts end) = DeriveSha_Receipts receipts.
Proof. intros Hd. by destruct receipts. Qed.

Lemma NewBlock_run header txs receipts :
  digests_agree → Bloom header = 0 →
  NewBlock header txs [] receipts =
    Ok (mkBlock (with_digests (CopyHeader header) (DeriveSha_Transactions txs) EmptyUncleHash
          (DeriveSha_Receipts receipts) (receipts_bloom receipts)) [] txs).
Proof.
  intros Hd Hbloom. unfold NewBlock. rewrite tx_digest, (receipt_digest receipts Hd). cbn [CalcUncleHash].
  destruct receipts as [|x l] eqn:Hr; [cbn; by rewrite Hbloom|]. rewrite <- Hr. by rewrite CreateBloom_run.
Qed.

(** what a miner assembles, a validator accepts.  The block [NewBlock] makes
    of a header carrying the gas used and the root of the finalised state, its
    transactions and its receipts passes [ValidateState] against that state,
    and [ValidateBody] once its parent's state is known, whatever is written
    into the extra data by sealing. *)
Theorem assembled_block_validates header txs receipts (s : StateDB T) extra block :
  digests_agree → Bloom header = 0 →
  NewBlock (with_Root header (IntermediateRoot true s).1) txs [] receipts = Ok block →
  let sealed := WithSeal block (with_Extra (block_header block) extra) in
  (ValidateState sealed s receipts (GasUsed header)).1 = Ok tt ∧
  ∀ (chain : C) n, Number header = Some n →
    HasBlockAndState chain (Header_Hash (block_header sealed)) (wrap64 n) = false →
    engine_VerifyUncles chain sealed = true →
    HasBlockAndState chain (ParentHash header) (wrap64 n - 1)%u64 = true →
    ValidateBody chain sealed = Ok tt.
Proof.
  intros Hd Hbloom Hnew. rewrite NewBlock_run in Hnew by done. injection Hnew as <-. split.
  - unfold ValidateState. cbn [block_header WithSeal with_Extra with_digests CopyHeader with_Root GasUsed].
    rewrite Z.eqb_refl, CreateBloom_run. cbn. by rewrite !Z.eqb_refl.
  - intros chain n Hn Hnew Huncles Hparent. unfold ValidateBody. cbn in *. rewrite Hn in *. cbn in *.
    by rewrite Hnew, Huncles, Hparent, !Z.eqb_refl.
Qed.
End assembled.

(** * The gas limit of the next block *)

(** the gas limit a miner chooses moves by less than a 1024th of its parent's
    and towards the range asked for: it stays inside the range when the parent
    is inside, rises from below it and falls from above it. *)
Theorem CalcGasLimit_bounded parent gasFloor gasCeil :
  5120 ≤ GasLimit parent ≤ 2 ^ 62 → 0 ≤ GasUsed parent ≤ GasLimit parent → gasFloor ≤ gasCeil →
  let limit := CalcGasLimit parent gasFloor gasCeil in
  Z.abs (limit - GasLimit parent) < GasLimit parent / 1024 ∧ MinGasLimit ≤ limit ∧
  (gasFloor ≤ GasLimit parent ≤ gasCeil → gasFloor ≤ limit ≤ gasCeil) ∧
  (GasLimit parent < gasFloor → GasLimit parent < limit) ∧
  (gasCeil < GasLimit parent → limit < GasLimit parent).
Proof.
  intros Hg Hu Hr. unfold CalcGasLimit, GasLimitBoundDivisor, MinGasLimit.
  set (g := GasLimit parent) in *. set (u := GasUsed parent) in *. change (2 ^ 62) with 4611686018427387904 in Hg.
  pose proof (Z.div_mod g 1024 ltac:(done)). pose proof (Z.mod_pos_bound g 1024 ltac:(done)).
  pose proof (Z.div_mod u 2 ltac:(done)). pose proof (Z.mod_pos_bound u 2 ltac:(done)).
  rewrite (u64_add_id u) by (u64_unfold; lia).
  pose proof (Z.div_mod (u + u / 2) 1024 ltac:(done)). pose proof (Z.mod_pos_bound (u + u / 2) 1024 ltac:(done)).
  rewrite (u64_sub_id (g / 1024)) by (u64_unfold; lia). set (q := g / 1024) in *. set (c := (u + u / 2) / 1024) in *.
  rewrite (u64_sub_id g), (u64_add_id (g - (q - 1))), (u64_add_id g) by (u64_unfold; lia).
  cbv zeta. assert (5000 ≤ g - (q - 1)) as Hmin by lia. assert (0 ≤ c ≤ 2 * (q - 1)) as Hc by lia.
  rewrite (proj2 (Z.ltb_ge _ 5000)) by lia.
  repeat match goal with |- context [if ?a <? ?b then _ else _] => destruct (Z.ltb_spec a b) end; lia.
Qed.
