(* ===== verification/TrieEncoding.v ===== *)
(** The key encodings of the trie ([trie/encoding.go]): key bytes, nibbles with
    a terminator, and the compact form stored on disk. *)
From S2P Require Import Prelude Types.

Definition terminator : byte := 16.

(** [hasTerm] *)
Definition hasTerm (s : list byte) : bool := bool_decide (last s = Some terminator).

Fixpoint keybytesToHex (str : list byte) : list byte :=
  match str with
  | [] => [terminator]
  | b :: str' => b / 16 :: b mod 16 :: keybytesToHex str'
  end.

(** [decodeNibbles] packs pairs; an odd nibble is read past the end. *)
Fixpoint decodeNibbles {E} (nibbles : list byte) : Result E (list byte) :=
  match nibbles with
  | [] => Ok []
  | [_] => Panic IndexOutOfRange
  | a :: b :: rest => bytes ← decodeNibbles rest; mret (Z.lor (Z.shiftl a 4 mod 256) b :: bytes)
  end.

Definition without_term (hex : list byte) : list byte := if hasTerm hex then take (length hex - 1) hex else hex.

Definition hexToKeybytes {E} (hex : list byte) : Result E (list byte) :=
  let hex := without_term hex in
  if Nat.odd (length hex) then Panic (ExplicitPanic "can't convert hex key of odd length")
  else decodeNibbles hex.

(** The flag byte: the terminator in bit 5, oddness in bit 4, and the first
    nibble of an odd key in the low half. *)
Definition hexToCompact {E} (hex : list byte) : Result E (list byte) :=
  let flag := Z.shiftl (if hasTerm hex then 1 else 0) 5 in
  let hex := without_term hex in
  match hex with
  | first :: hex' =>
      if Nat.odd (length hex)
      then bytes ← decodeNibbles hex'; mret (Z.lor (Z.lor flag (Z.shiftl 1 4)) first :: bytes)
      else bytes ← decodeNibbles hex; mret (flag :: bytes)
  | [] => mret [flag]
  end.

Definition compactToHex (compact : list byte) : list byte :=
  match compact with
  | [] => compact
  | _ =>
      let base := keybytesToHex compact in
      let base := if default 0 (head base) <? 2 then take (length base - 1) base else base in
      drop (2 - Z.to_nat (Z.land (default 0 (head base)) 1)) base
  end.

(** [prefixLen] *)
Fixpoint prefixLen (a b : list byte) : nat :=
  match a, b with
  | x :: a', y :: b' => if x =? y then S (prefixLen a' b') else O
  | _, _ => O
  end.

(** * Lemmas *)
Definition is_nibble (x : byte) : Prop := 0 ≤ x < 16.
(** A key in memory: nibbles, with or without the terminator. *)
Definition is_hex (hex : list byte) : Prop := Forall is_nibble (without_term hex).

Lemma hasTerm_snoc l : hasTerm (l ++ [terminator]) = true.
Proof. unfold hasTerm. by rewrite last_snoc, bool_decide_true. Qed.
Lemma hasTerm_nibbles l : Forall is_nibble l → hasTerm l = false.
Proof.
  intros Hl. unfold hasTerm. apply bool_decide_eq_false. intros Hlast.
  apply last_Some in Hlast as [l' ->]. apply Forall_app in Hl as [_ Hl]. apply Forall_cons in Hl as [Hl _].
  unfold is_nibble, terminator in Hl. lia.
Qed.
Lemma without_term_snoc l : without_term (l ++ [terminator]) = l.
Proof.
  unfold without_term. rewrite hasTerm_snoc, length_app. cbn [length].
  rewrite Nat.add_sub, take_app_length. done.
Qed.
Lemma without_term_nibbles l : Forall is_nibble l → without_term l = l.
Proof. intros Hl. unfold without_term. by rewrite hasTerm_nibbles. Qed.
(** The two shapes of a key. *)
Lemma is_hex_cases hex :
  is_hex hex → Forall is_nibble hex ∨ ∃ l, Forall is_nibble l ∧ hex = l ++ [terminator].
Proof.
  unfold is_hex, without_term. destruct (hasTerm hex) eqn:Ht; [|by left]. intros Hl. right.
  apply bool_decide_eq_true in Ht. apply last_Some in Ht as [l ->].
  rewrite length_app in Hl. cbn [length] in Hl. rewrite Nat.add_sub, take_app_length in Hl. by exists l.
Qed.

Lemma keybytesToHex_snoc str : ∃ l, keybytesToHex str = l ++ [terminator] ∧ length l = (2 * length str)%nat ∧
  (Forall is_byte str → Forall is_nibble l).
Proof.
  induction str as [|b str (l & Hl & Hlen & Hn)]; [by exists []|]. exists (b / 16 :: b mod 16 :: l). cbn. rewrite Hl.
  split; [done|]. split; [lia|]. intros Hb. apply Forall_cons in Hb as [Hb Hs]. unfold is_byte in Hb.
  constructor; [|constructor; [|by apply Hn]].
  - split; [apply Z.div_pos; lia|apply Z.div_lt_upper_bound; lia].
  - apply Z.mod_pos_bound. lia.
Qed.

(** A high and a low nibble do not overlap. *)
Lemma lor_nibbles a b : is_nibble b → Z.lor (a * 16) b = a * 16 + b.
Proof.
  unfold is_nibble. intros Hb.
  assert (Z.land (a * 16) b = 0) as Hdisj.
  { apply Z.bits_inj'. intros n Hn. rewrite Z.land_spec, Z.bits_0. change 16 with (2 ^ 4).
    destruct (Z.ltb_spec n 4); [by rewrite Z.mul_pow2_bits_low by lia|].
    rewrite <- (Z.mod_small b (2 ^ 4)) by (change (2 ^ 4) with 16; lia).
    rewrite (Z.mod_pow2_bits_high b 4) by lia. by rewrite andb_false_r. }
  by rewrite <- Z.lxor_lor, <- Z.add_nocarry_lxor.
Qed.
Lemma pack_nibbles a b : is_nibble a → is_nibble b →
  let x := Z.lor (Z.shiftl a 4 mod 256) b in is_byte x ∧ x / 16 = a ∧ x mod 16 = b.
Proof.
  intros Ha Hb. pose proof (lor_nibbles a b Hb) as Hlor. unfold is_nibble, is_byte in *.
  rewrite Z.shiftl_mul_pow2 by done. change (2 ^ 4) with 16. rewrite Z.mod_small by lia. rewrite Hlor.
  split; [lia|]. split; [rewrite Z.add_comm, Z.div_add, Z.div_small; lia|rewrite Z.add_comm, Z.mod_add, Z.mod_small; lia].
Qed.
Lemma byte_nibbles b : is_byte b → is_nibble (b / 16) ∧ is_nibble (b mod 16).
Proof.
  unfold is_byte, is_nibble. intros Hb. split; [|apply Z.mod_pos_bound; lia].
  split; [apply Z.div_pos; lia|apply Z.div_lt_upper_bound; lia].
Qed.
Lemma nibble_pair b : is_byte b → Z.lor (Z.shiftl (b / 16) 4 mod 256) (b mod 16) = b.
Proof.
  intros Hb. destruct (byte_nibbles b Hb) as [Hh Hl]. pose proof (lor_nibbles (b / 16) (b mod 16) Hl) as Hlor.
  unfold is_nibble in Hh. rewrite Z.shiftl_mul_pow2 by done. change (2 ^ 4) with 16. rewrite Z.mod_small by lia.
  rewrite Hlor. pose proof (Z.div_mod b 16). lia.
Qed.
Lemma decodeNibbles_keybytes {E} str l :
  Forall is_byte str → keybytesToHex str = l ++ [terminator] → decodeNibbles (E := E) l = Ok str.
Proof.
  revert l. induction str as [|b str IH]; intros l Hb Hl; cbn in Hl.
  - destruct l as [|x [|y l]]; [done|discriminate..].
  - apply Forall_cons in Hb as [Hb Hs]. destruct l as [|x [|y l]]; [discriminate| |].
    + injection Hl as _ Hl. destruct str; discriminate.
    + injection Hl as <- <- Hl. cbn [decodeNibbles]. rewrite (IH l Hs Hl). cbn. by rewrite nibble_pair.
Qed.

(** Packing nibbles and listing them again. *)
Lemma decodeNibbles_ok {E} l :
  Forall is_nibble l → Nat.even (length l) = true →
  ∃ bytes, decodeNibbles (E := E) l = Ok bytes ∧ Forall is_byte bytes ∧ keybytesToHex bytes = l ++ [terminator].
Proof.
  induction l as [l IH] using (induction_ltof1 _ (@length byte)). intros Hl He.
  destruct l as [|a [|b l]]; [by exists []|discriminate|].
  apply Forall_cons in Hl as [Ha Hl]. apply Forall_cons in Hl as [Hb Hl].
  destruct (IH l) as (bytes & Hd & Hby & Hk); [unfold ltof; cbn; lia|done|done|].
  destruct (pack_nibbles a b Ha Hb) as (Hx & Hdiv & Hmod).
  eexists. cbn [decodeNibbles]. rewrite Hd. split; [done|]. split; [by constructor|].
  cbn [keybytesToHex]. by rewrite Hdiv, Hmod, Hk.
Qed.

Lemma hexToKeybytes_keybytes {E} key : Forall is_byte key → hexToKeybytes (E := E) (keybytesToHex key) = Ok key.
Proof.
  intros Hk. destruct (keybytesToHex_snoc key) as (l & Hl & Hlen & _). unfold hexToKeybytes.
  rewrite Hl, without_term_snoc, Hlen, Nat.odd_mul. cbn. by apply decodeNibbles_keybytes.
Qed.
Lemma keybytesToHex_inj a b : Forall is_byte a → Forall is_byte b → keybytesToHex a = keybytesToHex b → a = b.
Proof.
  intros Ha Hb Heq. pose proof (hexToKeybytes_keybytes (E := unit) a Ha) as H1.
  pose proof (hexToKeybytes_keybytes (E := unit) b Hb) as H2. rewrite Heq in H1. congruence.
Qed.

(** The compact form of a key of nibbles, by parity. *)
Lemma compact_shape hex term :
  Forall is_nibble hex →
  let flag := if term : bool then 2 else 0 in
  ∃ compact, hexToCompact (E := unit) (hex ++ if term then [terminator] else []) = Ok compact ∧ Forall is_byte compact ∧
    ∃ first, keybytesToHex compact =
      (if Nat.odd (length hex) then (flag + 1) :: hex else flag :: first :: hex) ++ [terminator].
Proof.
  intros Hh flag. unfold hexToCompact.
  assert (hasTerm (hex ++ if term then [terminator] else []) = term ∧
    without_term (hex ++ if term then [terminator] else []) = hex) as [-> ->].
  { destruct term; rewrite ?app_nil_r; [by rewrite hasTerm_snoc, without_term_snoc|].
    by rewrite hasTerm_nibbles, without_term_nibbles. }
  assert (Z.shiftl (if term then 1 else 0) 5 = flag * 16) as -> by (unfold flag; by destruct term).
  assert (0 ≤ flag ≤ 2) as Hflag by (unfold flag; destruct term; lia).
  destruct hex as [|first hex'] eqn:Hhex.
  - exists [flag * 16]. split; [done|]. split; [constructor; [unfold is_byte; lia|constructor]|].
    exists 0. cbn. by rewrite Z.div_mul, Z.mod_mul by done.
  - rewrite <- Hhex in *. destruct (Nat.odd (length hex)) eqn:Hodd.
    + rewrite Hhex in Hh. apply Forall_cons in Hh as [Hf Hh'].
      destruct (decodeNibbles_ok (E := unit) hex' Hh') as (bytes & -> & Hby & Hk);
        [by rewrite Hhex in Hodd; cbn in Hodd; rewrite Nat.odd_succ in Hodd|].
      assert (Z.lor (Z.lor (flag * 16) (Z.shiftl 1 4)) first = (flag + 1) * 16 + first) as ->.
      { replace (Z.lor (flag * 16) (Z.shiftl 1 4)) with ((flag + 1) * 16) by (unfold flag; by destruct term).
        by apply lor_nibbles. }
      unfold is_nibble in Hf. eexists. split; [done|]. split; [constructor; [unfold is_byte; lia|done]|].
      exists 0. cbn [keybytesToHex]. rewrite Hk, Hhex. cbn. do 2 f_equal.
      * rewrite Z.add_comm, Z.div_add, Z.div_small; lia.
      * f_equal. rewrite Z.add_comm, Z.mod_add, Z.mod_small; lia.
    + destruct (decodeNibbles_ok (E := unit) hex Hh) as (bytes & -> & Hby & Hk);
        [by rewrite <- Nat.negb_odd, Hodd|].
      eexists. split; [done|]. split; [constructor; [unfold is_byte; lia|done]|].
      exists 0. cbn [keybytesToHex]. rewrite Hk, Z.div_mul, Z.mod_mul by done. done.
Qed.

Lemma take_but_last {A} (l : list A) x : take (length (l ++ [x]) - 1) (l ++ [x]) = l.
Proof. rewrite length_app. cbn [length]. by rewrite Nat.add_sub, take_app_length. Qed.

Lemma drop_flag b0 bs :
  (let base := (b0 :: bs) ++ [terminator] in
   let base := if default 0 (head base) <? 2 then take (length base - 1) base else base in
   drop (2 - Z.to_nat (Z.land (default 0 (head base)) 1)) base) =
  drop (2 - Z.to_nat (Z.land b0 1)) (b0 :: bs ++ if b0 <? 2 then [] else [terminator]).
Proof.
  cbv zeta. cbn [head app default from_option id]. destruct (b0 <? 2) eqn:Hb; [|done].
  rewrite app_comm_cons, take_but_last. by rewrite app_nil_r.
Qed.

Lemma compact_hex l (term : bool) : Forall is_nibble l → let hex := l ++ (if term then [terminator] else []) in
  ∃ compact, hexToCompact (E := unit) hex = Ok compact ∧ Forall is_byte compact ∧ compactToHex compact = hex.
Proof.
  intros Hl hex. destruct (compact_shape l term Hl) as (compact & Hc & Hby & first & Hk).
  exists compact. split; [done|]. split; [done|]. unfold compactToHex. destruct compact as [|c compact'] eqn:Heq.
  { apply (f_equal length) in Hk. rewrite length_app in Hk. destruct (Nat.odd (length l)); cbn in Hk; lia. }
  rewrite Hk. clear Hk. subst hex.
  destruct (Nat.odd (length l)), term; cbn [Z.add Pos.add Pos.succ]; rewrite drop_flag; cbn; by rewrite ?app_nil_r.
Qed.

(** the encodings of keys lose nothing.  Key bytes come back from their
    nibbles, and a key in memory, with or without the terminator and of either
    parity, comes back from its compact form, whose elements are bytes. *)
Theorem key_encodings_roundtrip :
  (∀ key, Forall is_byte key → hexToKeybytes (E := unit) (keybytesToHex key) = Ok key) ∧
  (∀ hex, is_hex hex → ∃ compact, hexToCompact (E := unit) hex = Ok compact ∧
    Forall is_byte compact ∧ compactToHex compact = hex).
Proof.
  split; [intros; by apply hexToKeybytes_keybytes|]. intros hex Hhex.
  assert (∃ l (term : bool), Forall is_nibble l ∧ hex = l ++ if term then [terminator] else []) as (l & term & Hl & ->).
  { destruct (is_hex_cases hex Hhex) as [Hn|(l & Hn & ->)]; [exists hex, false|exists l, true]; by rewrite ?app_nil_r. }
  by apply compact_hex.
Qed.
