(* ===== verification/Trie.v ===== *)
(** The Merkle Patricia trie ([trie/trie.go], [trie/node.go], [trie/errors.go]):
    nodes in memory, some of them known by hash only and loaded from the
    database on demand; lookup, insertion and deletion.

    Root hashes of tries ([trie/hasher.go], and [Hash], [Commit] and [hashRoot]
    of [trie/trie.go]): every node is encoded with its large children replaced
    by their hashes; hashes are cached in the flags and, on a commit, the nodes
    are handed to the database. *)
From S2P Require Import Prelude Types TrieEncoding.

(** * Nodes

    A nil node is a constructor; the flags cache a node's hash and say whether
    it has to be written to the database. *)
Record nodeFlag := mkFlag { fHash : option Hash; fDirty : bool }.
#[export] Instance nodeFlag_eq_dec : EqDecision nodeFlag.
Proof. solve_decision. Defined.

Inductive node :=
  | nilNode
  | hashNode (h : Hash)
  | valueNode (v : list byte)
  | shortNode (key : list byte) (val : node) (flags : nodeFlag)
  | fullNode (children : list node) (flags : nodeFlag).

Definition is_nil (n : node) : bool := match n with nilNode => true | _ => false end.
Definition newFlag : nodeFlag := mkFlag None true.
Definition empty_children : list node := replicate 17 nilNode.

Inductive trie_error := MissingNodeError (NodeHash : Hash) (Path : list byte).

(** An index into the 17 children. *)
Definition get_child {E} (children : list node) (i : byte) : Result E node :=
  if (i <? 0) || (17 <=? i) then Panic IndexOutOfRange
  else match children !! Z.to_nat i with Some c => Ok c | None => Panic IndexOutOfRange end.
Definition set_child (children : list node) (i : byte) (c : node) : list node := <[Z.to_nat i := c]> children.

Section trie.
(** [t.db.node]: the decoded node with a hash. *)
Context (db : Hash → option node).

Definition resolveHash (h : Hash) (prefix : list byte) : Result trie_error node :=
  match db h with Some n => Ok n | None => Err (MissingNodeError h prefix) end.
Definition resolve (n : node) (prefix : list byte) : Result trie_error node :=
  match n with hashNode h => resolveHash h prefix | _ => Ok n end.

(** [tryGet]: the key is split at [pos] into the part walked and the rest. *)
Fixpoint tryGet (fuel : nat) (origNode : node) (prefix key : list byte) :
    Result trie_error (option (list byte) * node * bool) :=
  match fuel with
  | O => Panic OutOfFuel
  | S fuel =>
      match origNode with
      | nilNode => Ok (None, nilNode, false)
      | valueNode v => Ok (Some v, origNode, false)
      | shortNode k val flags =>
          if negb (bool_decide (take (length k) key = k)) then Ok (None, origNode, false) else
          '(value, newnode, didResolve) ← tryGet fuel val (prefix ++ k) (drop (length k) key);
          mret (value, if didResolve : bool then shortNode k newnode flags else origNode, didResolve)
      | fullNode children flags =>
          match key with
          | [] => Panic IndexOutOfRange
          | i :: key' =>
              child ← get_child children i;
              '(value, newnode, didResolve) ← tryGet fuel child (prefix ++ [i]) key';
              mret (value, if didResolve : bool then fullNode (set_child children i newnode) flags else origNode, didResolve)
          end
      | hashNode h =>
          child ← resolveHash h prefix;
          '(value, newnode, _) ← tryGet fuel child prefix key;
          mret (value, newnode, true)
      end
  end.

Fixpoint insert (fuel : nat) (n : node) (prefix key : list byte) (value : node) : Result trie_error (bool * node) :=
  match fuel with
  | O => Panic OutOfFuel
  | S fuel =>
      match key with
      | [] =>
          match n, value with
          | valueNode v, valueNode w => Ok (negb (bool_decide (v = w)), value)
          | valueNode _, _ => Panic (ExplicitPanic "interface conversion")
          | _, _ => Ok (true, value)
          end
      | i :: key' =>
          match n with
          | shortNode k val flags =>
              let matchlen := prefixLen key k in
              if bool_decide (matchlen = length k) then
                '(dirty, nn) ← insert fuel val (prefix ++ take matchlen key) (drop matchlen key) value;
                if negb dirty then Ok (false, n) else Ok (true, shortNode k nn newFlag)
              else
                match k !! matchlen, key !! matchlen with
                | Some kb, Some keyb =>
                    '(_, old) ← insert fuel nilNode (prefix ++ take (matchlen + 1) k) (drop (matchlen + 1) k) val;
                    _ ← get_child (E := trie_error) empty_children kb;
                    let branch := set_child empty_children kb old in
                    '(_, new) ← insert fuel nilNode (prefix ++ take (matchlen + 1) key) (drop (matchlen + 1) key) value;
                    _ ← get_child (E := trie_error) branch keyb;
                    let branch := fullNode (set_child branch keyb new) newFlag in
                    if bool_decide (matchlen = O) then Ok (true, branch)
                    else Ok (true, shortNode (take matchlen key) branch newFlag)
                | _, _ => Panic IndexOutOfRange
                end
          | fullNode children flags =>
              child ← get_child children i;
              '(dirty, nn) ← insert fuel child (prefix ++ [i]) key' value;
              if negb dirty then Ok (false, n) else Ok (true, fullNode (set_child children i nn) newFlag)
          | nilNode => Ok (true, shortNode key value newFlag)
          | hashNode h =>
              rn ← resolveHash h prefix;
              '(dirty, nn) ← insert fuel rn prefix key value;
              if negb dirty then Ok (false, rn) else Ok (true, nn)
          | valueNode _ => Panic (ExplicitPanic "invalid node")
          end
      end
  end.

(** The loop over the children: the index of the only one that is left, [-1]
    when there is none, [-2] when there are more. *)
Fixpoint scan_children (i pos : Z) (children : list node) : Z :=
  match children with
  | [] => pos
  | cld :: rest =>
      if is_nil cld then scan_children (i + 1) pos rest
      else if pos =? -1 then scan_children (i + 1) i rest else -2
  end.
Definition left_over (children : list node) : Z := scan_children 0 (-1) children.

Fixpoint delete (fuel : nat) (n : node) (prefix key : list byte) : Result trie_error (bool * node) :=
  match fuel with
  | O => Panic OutOfFuel
  | S fuel =>
      match n with
      | shortNode k val flags =>
          let matchlen := prefixLen key k in
          if bool_decide (matchlen < length k)%nat then Ok (false, n) else
          if bool_decide (matchlen = length key) then Ok (true, nilNode) else
          '(dirty, child) ← delete fuel val (prefix ++ take (length k) key) (drop (length k) key);
          if negb dirty then Ok (false, n) else
          match child with
          | shortNode k' val' _ => Ok (true, shortNode (k ++ k') val' newFlag)
          | _ => Ok (true, shortNode k child newFlag)
          end
      | fullNode children flags =>
          match key with
          | [] => Panic IndexOutOfRange
          | i :: key' =>
              child ← get_child children i;
              '(dirty, nn) ← delete fuel child (prefix ++ [i]) key';
              if negb dirty then Ok (false, n) else
              let children := set_child children i nn in
              let pos := left_over children in
              if 0 <=? pos then
                last_child ← get_child children pos;
                if negb (pos =? 16) then
                  cnode ← resolve last_child prefix;
                  match cnode with
                  | shortNode k val _ => Ok (true, shortNode (pos :: k) val newFlag)
                  | _ => Ok (true, shortNode [pos] last_child newFlag)
                  end
                else Ok (true, shortNode [pos] last_child newFlag)
              else Ok (true, fullNode children newFlag)
          end
      | valueNode _ => Ok (true, nilNode)
      | nilNode => Ok (false, nilNode)
      | hashNode h =>
          rn ← resolveHash h prefix;
          '(dirty, nn) ← delete fuel rn prefix key;
          if negb dirty then Ok (false, rn) else Ok (true, nn)
      end
  end.

(** ** The trie over its root

    The walks follow the key; at every nibble they may load one node. *)
Definition walk_fuel (key : list byte) : nat := (2 * length key + 4)%nat.

Definition TryGet (root : node) (key : list byte) : Result trie_error (option (list byte)) * node :=
  let k := keybytesToHex key in
  match tryGet (walk_fuel k) root [] k with
  | Ok (value, newroot, didResolve) => (Ok value, if didResolve : bool then newroot else root)
  | Err e => (Err e, root)
  | Panic p => (Panic p, root)
  end.
Definition TryDelete (root : node) (key : list byte) : Result trie_error unit * node :=
  let k := keybytesToHex key in
  match delete (walk_fuel k) root [] k with
  | Ok (_, n) => (Ok tt, n)
  | Err e => (Err e, root)
  | Panic p => (Panic p, root)
  end.
Definition TryUpdate (root : node) (key value : list byte) : Result trie_error unit * node :=
  let k := keybytesToHex key in
  if bool_decide (value ≠ []) then
    match insert (walk_fuel k) root [] k (valueNode value) with
    | Ok (_, n) => (Ok tt, n)
    | Err e => (Err e, root)
    | Panic p => (Panic p, root)
    end
  else TryDelete root key.
End trie.

(** [emptyRoot] *)
Definition emptyRoot : Hash := 0x56e81f171bcc55a6ff8345e692c0f86e5b48e01b996cadc001622fb5e363b421.

(** * What the encoder is given

    [rlp.Encode] walks the node by reflection: a byte slice is a string, a
    structure the list of its exported fields, a nil interface the empty list. *)
Inductive rlp_item :=
  | rStr (s : list byte)
  | rList (items : list rlp_item).

(** The items of a collapsed node; [fullNode.EncodeRLP] puts an empty value in
    place of a missing child. *)
Fixpoint EncodeRLP (n : node) : rlp_item :=
  match n with
  | nilNode => rList []
  | hashNode h => rStr (array_bytes HashLength h)
  | valueNode v => rStr v
  | shortNode k val _ => rList [rStr k; EncodeRLP val]
  | fullNode children _ =>
      rList (map (λ child, if is_nil child then rStr [] else EncodeRLP child) children)
  end.

(** The encoding and the hash are libraries'. *)
Class NodeDigest := {
  rlp_Encode : rlp_item → list byte;
  keccak256 : list byte → Hash
}.

(** [node.cache] *)
Definition cache (n : node) : option Hash * bool :=
  match n with
  | shortNode _ _ flags | fullNode _ flags => (fHash flags, fDirty flags)
  | _ => (None, true)
  end.
Definition with_flags (f : nodeFlag → nodeFlag) (n : node) : node :=
  match n with
  | shortNode k val flags => shortNode k val (f flags)
  | fullNode children flags => fullNode children (f flags)
  | _ => n
  end.

(** What a hasher that stores does besides: it hands a node to the database, or
    a value to the callback. *)
Inductive store_call :=
  | DbInsert (hash : Hash) (blob : list byte) (n : node)
  | OnLeaf (leaf : list byte) (parent : Hash).
Definition HashM (A : Type) : Type := GoM (list store_call) unit A.

Section hasher.
Context `{NodeDigest}.
(** Whether there is a database to store to, and whether there is a callback. *)
Context (storing onleaf : bool).

Definition leaf_calls (n : node) (hash : Hash) : list store_call :=
  match n with
  | shortNode _ (valueNode child) _ => [OnLeaf child hash]
  | fullNode children _ => omap (λ c, match c with valueNode child => Some (OnLeaf child hash) | _ => None end) (take 16 children)
  | _ => []
  end.
(** [store] *)
Definition store (n : node) (force : bool) : HashM node :=
  match n with
  | nilNode | hashNode _ => mret n
  | _ =>
      let tmp := rlp_Encode (EncodeRLP n) in
      if (Z.of_nat (length tmp) <? 32) && negb force then mret n else
      let hash := default (keccak256 tmp) (cache n).1 in
      _ ← (if storing
           then modify (λ calls, calls ++ DbInsert hash tmp n :: if onleaf then leaf_calls n hash else [])
           else mret tt);
      mret (hashNode hash)
  end.

(** The loop over the first 16 children of a full node. *)
Fixpoint hash_loop (hash : node → HashM (node * node)) (i : nat) (children : list node) : HashM (list node * list node) :=
  match children with
  | [] => mret ([], [])
  | c :: rest =>
      '(collapsed, cached) ← (if bool_decide (i < 16)%nat && negb (is_nil c) then hash c else mret (c, c));
      '(collapsed_rest, cached_rest) ← hash_loop hash (S i) rest;
      mret (collapsed :: collapsed_rest, cached :: cached_rest)
  end.
(** [hashChildren] *)
Definition hashChildren (hash : node → HashM (node * node)) (original : node) : HashM (node * node) :=
  match original with
  | shortNode k val flags =>
      compact ← lift (hexToCompact k);
      '(collapsed, cached) ← (match val with valueNode _ => mret (val, val) | _ => hash val end);
      mret (shortNode compact collapsed flags, shortNode k cached flags)
  | fullNode children flags =>
      '(collapsed, cached) ← hash_loop hash 0 children;
      mret (fullNode collapsed flags, fullNode cached flags)
  | _ => mret (original, original)
  end.

(** [hash] *)
Fixpoint hash (n : node) (force : bool) {struct n} : HashM (node * node) :=
  let walk : HashM (node * node) :=
    '(collapsed, cached) ← hashChildren (λ c, hash c false) n;
    hashed ← store collapsed force;
    let cachedHash := match hashed with hashNode h => Some h | _ => None end in
    mret (hashed, with_flags (λ flags, mkFlag cachedHash (if storing then false else fDirty flags)) cached) in
  match n with
  | nilNode => panic NilDereference
  | _ =>
      match cache n with
      | (Some h, dirty) =>
          if negb storing then mret (hashNode h, n)
          else if negb dirty then mret (hashNode h, hashNode h) else walk
      | (None, _) => walk
      end
  end.

(** [hashRoot], and [Hash] or [Commit] over it: the root hash and the root that
    replaces the old one. *)
Definition hashRoot (root : node) : HashM (node * node) :=
  match root with nilNode => mret (hashNode emptyRoot, nilNode) | _ => hash root true end.
Definition RootHash (root : node) : HashM (Hash * node) :=
  '(hashed, cached) ← hashRoot root;
  match hashed with
  | hashNode h => mret (h, cached)
  | _ => panic (ExplicitPanic "interface conversion")
  end.
End hasher.
(** [Trie.Hash] writes nothing; [Trie.Commit] also lists what it stores. *)
Definition Trie_Hash `{NodeDigest} (root : node) : Result unit (Hash * node) := (RootHash false false root []).1.
Definition Trie_Commit `{NodeDigest} (onleaf : bool) (root : node) : Result unit (Hash * node) * list store_call :=
  RootHash true onleaf root [].
