(* ===== verification/TrieMemory.v ===== *)
(** Tries that are complete in memory: the invariant of their shape, the map a
    trie stands for, and what lookup, insertion and deletion do to both. *)
From S2P Require Import Prelude Types TrieEncoding Trie.

(** * The map a trie stands for *)
Fixpoint find (n : node) (key : list byte) {struct n} : option (list byte) :=
  match n with
  | nilNode | hashNode _ => None
  | valueNode v => match key with [] => Some v | _ => None end
  | shortNode k val _ => if bool_decide (take (length k) key = k) then find val (drop (length k) key) else None
  | fullNode children _ =>
      match key with
      | [] => None
      | i :: key' =>
          (fix go (cs : list node) (j : nat) : option (list byte) :=
             match cs, j with
             | [], _ => None
             | c :: _, O => find c key'
             | _ :: cs', S j' => go cs' j'
             end) children (Z.to_nat i)
      end
  end.

Lemma find_full cs fl i key : find (fullNode cs fl) (i :: key) = c ← cs !! Z.to_nat i; find c key.
Proof.
  cbn [find]. generalize (Z.to_nat i) as j. induction cs as [|c cs IH]; intros [|j]; cbn; try done.
Qed.
Lemma find_short k val fl key :
  find (shortNode k val fl) key = if bool_decide (take (length k) key = k) then find val (drop (length k) key) else None.
Proof. done. Qed.
Lemma find_short_app k val fl key : find (shortNode k val fl) (k ++ key) = find val key.
Proof. rewrite find_short, take_app_length, bool_decide_true, drop_app_length by done. done. Qed.
Lemma find_short_Some k val fl key v :
  find (shortNode k val fl) key = Some v ↔ ∃ key', key = k ++ key' ∧ find val key' = Some v.
Proof.
  rewrite find_short. case_bool_decide as Hk.
  - split; [|by intros (key' & -> & Hf); rewrite drop_app_length]. intros Hf.
    exists (drop (length k) key). split; [|done]. by rewrite <- Hk at 1; rewrite take_drop.
  - split; [done|]. intros (key' & -> & _). by rewrite take_app_length in Hk.
Qed.

(** * Shape *)

(** Keys: nibbles and the terminator. *)
Definition tkey (k : list byte) : Prop := ∃ l, Forall is_nibble l ∧ k = l ++ [terminator].

Lemma tkey_cons i k : tkey (i :: k) ↔ (i = terminator ∧ k = []) ∨ (is_nibble i ∧ tkey k).
Proof.
  split.
  - intros (l & Hl & Heq). destruct l as [|x l]; cbn in Heq; injection Heq as -> Hk; [by left|].
    apply Forall_cons in Hl as [Hx Hl]. right. split; [done|]. by exists l.
  - intros [[-> ->]|[Hi (l & Hl & ->)]]; [by exists []|]. exists (i :: l). by split; [constructor|].
Qed.
Lemma tkey_nonempty k : tkey k → k ≠ [].
Proof. intros (l & _ & ->) Hl. by destruct l. Qed.
Lemma tkey_app p k : Forall is_nibble p → tkey (p ++ k) ↔ tkey k.
Proof.
  intros Hp. induction Hp as [|x p Hx _ IH]; [done|]. cbn. rewrite tkey_cons, IH. split; [|by right].
  intros [[-> _]|[_ ?]]; [|done]. unfold is_nibble, terminator in Hx. lia.
Qed.
Lemma tkey_terminator_last k1 k2 : tkey k1 → tkey (k1 ++ k2) → k2 = [].
Proof.
  intros (l & Hl & ->). rewrite <- app_assoc, (tkey_app l) by done. cbn. rewrite tkey_cons.
  intros [[_ ?]|[Hn _]]; [done|]. unfold is_nibble, terminator in Hn. lia.
Qed.
Lemma keybytesToHex_tkey str : Forall is_byte str → tkey (keybytesToHex str).
Proof. intros Hs. destruct (keybytesToHex_snoc str) as (l & Hl & _ & Hn). exists l. by split; [apply Hn|]. Qed.

Definition is_full (n : node) : Prop := match n with fullNode _ _ => True | _ => False end.
Definition is_value (n : node) : Prop := match n with valueNode _ => True | _ => False end.
Definition occupied (cs : list node) : nat := length (filter (λ c, is_nil c = false) cs).

(** A trie without hash nodes, in minimal form: a leaf, an extension of a full
    node, or a full node with at least two children. *)
Inductive wf : node → Prop :=
  | wf_leaf k v fl : tkey k → wf (shortNode k (valueNode v) fl)
  | wf_extension k n fl : Forall is_nibble k → k ≠ [] → is_full n → wf n → wf (shortNode k n fl)
  | wf_full cs fl :
      length cs = 17%nat →
      (∀ i c, (i < 16)%nat → cs !! i = Some c → c ≠ nilNode → wf c) →
      (∀ c, cs !! 16%nat = Some c → c ≠ nilNode → is_value c) →
      (2 ≤ occupied cs)%nat → wf (fullNode cs fl).
Definition wf_trie (n : node) : Prop := n = nilNode ∨ wf n.

Lemma wf_short_val k val fl : wf (shortNode k val fl) →
  (tkey k ∧ is_value val) ∨ (Forall is_nibble k ∧ k ≠ [] ∧ is_full val ∧ wf val).
Proof. inversion 1; subst; [by left|by right]. Qed.

(** The child at the head of a key. *)
Lemma nibble_index i : is_nibble i ∨ i = terminator → (0 ≤ i < 17) ∧ (Z.to_nat i < 17)%nat.
Proof. unfold is_nibble, terminator. intros [?| ->]; lia. Qed.
Lemma get_child_ok {E} cs i :
  length cs = 17%nat → is_nibble i ∨ i = terminator →
  ∃ c, get_child (E := E) cs i = Ok c ∧ cs !! Z.to_nat i = Some c.
Proof.
  intros Hlen Hi. destruct (nibble_index i Hi) as [Hr Hn].
  destruct (lookup_lt_is_Some_2 cs (Z.to_nat i)) as [c Hc]; [lia|]. exists c. split; [|done].
  unfold get_child. rewrite Hc. by rewrite (proj2 (Z.ltb_ge i 0)), (proj2 (Z.leb_gt 17 i)) by lia.
Qed.
Lemma tkey_head i k : tkey (i :: k) → is_nibble i ∨ i = terminator.
Proof. rewrite tkey_cons. intros [[-> _]|[? _]]; auto. Qed.

(** ** Children *)
Lemma occupied_app cs1 cs2 : occupied (cs1 ++ cs2) = (occupied cs1 + occupied cs2)%nat.
Proof. unfold occupied. by rewrite filter_app, length_app. Qed.
Lemma occupied_cons c cs : occupied (c :: cs) = ((if is_nil c then 0 else 1) + occupied cs)%nat.
Proof. unfold occupied. rewrite filter_cons. destruct (is_nil c); cbn; by case_decide. Qed.
Lemma occupied_split cs i c : cs !! i = Some c →
  occupied cs = ((if is_nil c then 0 else 1) + (occupied (take i cs) + occupied (drop (S i) cs)))%nat.
Proof.
  intros Hc. rewrite <- (take_drop_middle cs i c Hc) at 1. rewrite occupied_app, occupied_cons. lia.
Qed.
Lemma occupied_set cs i c : (i < length cs)%nat →
  occupied (<[i := c]> cs) = ((if is_nil c then 0 else 1) + (occupied (take i cs) + occupied (drop (S i) cs)))%nat.
Proof.
  intros Hi. rewrite insert_take_drop by done. rewrite occupied_app, occupied_cons. lia.
Qed.
Lemma occupied_pos cs i c : cs !! i = Some c → is_nil c = false → (1 ≤ occupied cs)%nat.
Proof. intros Hc Hn. rewrite (occupied_split cs i c Hc), Hn. lia. Qed.
Lemma occupied_two cs i j c d :
  cs !! i = Some c → cs !! j = Some d → i ≠ j → is_nil c = false → is_nil d = false → (2 ≤ occupied cs)%nat.
Proof.
  intros Hc Hd Hij Hnc Hnd. assert (∀ a b x y, (a < b)%nat → cs !! a = Some x → cs !! b = Some y →
    is_nil x = false → is_nil y = false → (2 ≤ occupied cs)%nat) as Hlt.
  { intros a b x y Hab Ha Hb Hx Hy. rewrite (occupied_split cs b y Hb), Hy.
    assert (1 ≤ occupied (take b cs))%nat; [|lia]. apply (occupied_pos _ a x); [|done]. by rewrite lookup_take_lt. }
  destruct (Nat.lt_trichotomy i j) as [?|[?|?]]; [by eapply (Hlt i j)|done|by eapply (Hlt j i)].
Qed.
(** Conversely, two children are there to be found. *)
Lemma occupied_one cs : (1 ≤ occupied cs)%nat → ∃ i c, cs !! i = Some c ∧ is_nil c = false.
Proof.
  induction cs as [|c cs IH]; [cbn; lia|]. rewrite occupied_cons. destruct (is_nil c) eqn:Hc; [|by exists 0%nat, c].
  intros Ho. destruct IH as (i & d & Hi & Hd); [lia|]. by exists (S i), d.
Qed.
Lemma occupied_distinct cs : (2 ≤ occupied cs)%nat →
  ∃ i j c d, i ≠ j ∧ cs !! i = Some c ∧ cs !! j = Some d ∧ is_nil c = false ∧ is_nil d = false.
Proof.
  induction cs as [|c cs IH]; [cbn; lia|]. rewrite occupied_cons. destruct (is_nil c) eqn:Hc.
  - intros Ho. destruct IH as (i & j & d & e & Hij & Hi & Hj & Hd & He); [lia|].
    exists (S i), (S j), d, e. split_and!; [lia|done..].
  - intros Ho. destruct (occupied_one cs) as (j & d & Hj & Hd); [lia|]. exists 0%nat, (S j), c, d. by split_and!.
Qed.

Lemma find_set cs fl i j c key :
  length cs = 17%nat → is_nibble i ∨ i = terminator → is_nibble j ∨ j = terminator →
  find (fullNode (set_child cs i c) fl) (j :: key) = if decide (j = i) then find c key else find (fullNode cs fl) (j :: key).
Proof.
  intros Hlen Hi Hj. destruct (nibble_index i Hi) as [Hir Hin], (nibble_index j Hj) as [Hjr Hjn].
  rewrite !find_full. unfold set_child. case_decide as Hji.
  - subst. by rewrite list_lookup_insert_eq by lia.
  - by rewrite list_lookup_insert_ne by lia.
Qed.
Lemma set_child_length cs i c : length (set_child cs i c) = length cs.
Proof. apply length_insert. Qed.

(** ** Common prefixes *)
Lemma prefixLen_split a b : ∃ p a' b', a = p ++ a' ∧ b = p ++ b' ∧ prefixLen a b = length p ∧
  match a', b' with x :: _, y :: _ => x ≠ y | _, _ => True end.
Proof.
  revert b. induction a as [|x a IH]; intros b; [by exists [], [], b|].
  destruct b as [|y b]; [by exists [], (x :: a), []|]. cbn [prefixLen]. destruct (Z.eqb_spec x y) as [->|Hxy].
  - destruct (IH b) as (p & a' & b' & -> & -> & Hlen & Hd). exists (y :: p), a', b'. cbn. by rewrite Hlen.
  - by exists [], (x :: a), (y :: b).
Qed.
Lemma tkey_before p x r : tkey (p ++ x :: r) → Forall is_nibble p ∧ tkey (x :: r).
Proof.
  induction p as [|y p IH]; [done|]. cbn. rewrite tkey_cons. intros [[_ ?]|[Hy Hk]]; [by destruct p|].
  destruct (IH Hk). split; [by constructor|done].
Qed.

(** * Lookup *)
Section operations.
Context (db : Hash → option node).

(** A child of a full node on the way of a key: nothing, a subtree below a
    nibble, or a value below the terminator. *)
Definition child_ok (i : byte) (key : list byte) (c : node) : Prop :=
  (is_nibble i ∧ tkey key ∧ wf_trie c) ∨ (i = terminator ∧ key = [] ∧ (c = nilNode ∨ is_value c)).
Lemma wf_child cs fl i key c :
  wf (fullNode cs fl) → tkey (i :: key) → cs !! Z.to_nat i = Some c → child_ok i key c.
Proof.
  inversion 1 as [| |cs' fl' Hlen Hsub Hval Hocc]; subst. rewrite tkey_cons. intros [[-> ->]|[Hi Hk]] Hc.
  - right. split; [done|]. split; [done|]. destruct (is_nil c) eqn:Hn; [left; by destruct c|right].
    apply (Hval c Hc). by destruct c.
  - left. split; [done|]. split; [done|]. destruct (is_nil c) eqn:Hn; [left; by destruct c|right].
    apply (Hsub (Z.to_nat i) c); [unfold is_nibble in Hi; lia|done|by destruct c].
Qed.

Lemma tryGet_value fuel v prefix : (0 < fuel)%nat → tryGet db fuel (valueNode v) prefix [] = Ok (Some v, valueNode v, false).
Proof. by destruct fuel; [lia|]. Qed.
Lemma tryGet_nil fuel prefix key : (0 < fuel)%nat → tryGet db fuel nilNode prefix key = Ok (None, nilNode, false).
Proof. by destruct fuel; [lia|]. Qed.

Lemma tryGet_ok n key fuel prefix :
  wf_trie n → tkey key → (length key < fuel)%nat → tryGet db fuel n prefix key = Ok (find n key, n, false).
Proof.
  revert n key prefix. induction fuel as [|fuel IH]; intros n key prefix [->|Hn] Hkey Hfuel; [lia..|done|].
  destruct n as [|h|v|k val fl|cs fl]; [inversion Hn..| |].
  - cbn [tryGet]. rewrite find_short. case_bool_decide as Hk; cbn [negb]; [|done].
    assert (key = k ++ drop (length k) key) as Hsplit by (by rewrite <- Hk at 1; rewrite take_drop).
    destruct (wf_short_val _ _ _ Hn) as [[Htk Hv]|(Hnib & Hne & _ & Hwf)].
    + assert (drop (length k) key = []) as Hd by (apply (tkey_terminator_last k); [done|by rewrite <- Hsplit]).
      rewrite Hd. destruct val; try done. rewrite tryGet_value; [done|]. pose proof (tkey_nonempty _ Hkey).
      destruct key; [done|cbn in Hfuel; lia].
    + rewrite Hsplit in Hkey, Hfuel. rewrite tkey_app in Hkey by done. rewrite length_app in Hfuel.
      assert (0 < length k)%nat by (destruct k; [done|cbn; lia]).
      rewrite IH; [done|by right|done|lia].
  - destruct key as [|i key]; [by apply tkey_nonempty in Hkey|]. cbn [tryGet]. rewrite find_full.
    assert (length cs = 17%nat) as Hlen by by inversion Hn.
    destruct (get_child_ok (E := trie_error) cs i Hlen (tkey_head _ _ Hkey)) as (c & -> & Hc). rewrite Hc. cbn [mbind result_bind option_bind].
    cbn [length] in Hfuel.
    destruct (wf_child _ _ _ _ _ Hn Hkey Hc) as [(_ & Hk & Hw)|(_ & -> & [->|Hv])].
    + rewrite IH by (done || lia). done.
    + by rewrite tryGet_nil by lia.
    + destruct c; try done. by rewrite tryGet_value by lia.
Qed.
End operations.

(** * Building nodes *)

(** What may stand below an index: a subtree below a nibble, a value below the
    terminator. *)
Definition sub_ok (x : byte) (c : node) : Prop := (is_nibble x ∧ wf c) ∨ (x = terminator ∧ is_value c).

Lemma sub_ok_index x c : sub_ok x c → is_nibble x ∨ x = terminator.
Proof. intros [[? _]|[? _]]; auto. Qed.
Lemma sub_ok_not_nil x c : sub_ok x c → is_nil c = false.
Proof. intros [[_ Hw]|[_ Hv]]; [by destruct Hw|by destruct c]. Qed.

Lemma wf_set cs fl fl' i c : wf (fullNode cs fl) → sub_ok i c → wf (fullNode (set_child cs i c) fl').
Proof.
  inversion 1 as [| |cs' fl0 Hlen Hsub Hval Hocc]; subst. intros Hc.
  pose proof (sub_ok_not_nil _ _ Hc) as Hn. destruct (nibble_index i (sub_ok_index _ _ Hc)) as [Hr Hi].
  apply wf_full.
  - by rewrite set_child_length.
  - intros j d Hj Hd Hnil. unfold set_child in Hd. destruct (decide (Z.to_nat i = j)) as [<-|Hne].
    + rewrite list_lookup_insert_eq in Hd by lia. injection Hd as <-.
      destruct Hc as [[_ ?]|[-> _]]; [done|unfold terminator in Hj; lia].
    + rewrite list_lookup_insert_ne in Hd by done. by eapply Hsub.
  - intros d Hd Hnil. unfold set_child in Hd. destruct (decide (Z.to_nat i = 16%nat)) as [He|Hne].
    + rewrite He, list_lookup_insert_eq in Hd by lia. injection Hd as <-.
      destruct Hc as [[Hnib _]|[_ ?]]; [unfold is_nibble in Hnib; lia|done].
    + rewrite list_lookup_insert_ne in Hd by done. by eapply Hval.
  - unfold set_child. rewrite occupied_set, Hn by lia.
    destruct (lookup_lt_is_Some_2 cs (Z.to_nat i)) as [d Hd]; [lia|].
    rewrite (occupied_split cs _ d Hd) in Hocc. destruct (is_nil d); lia.
Qed.

(** A branch with two children. *)
Definition branch_of (y : byte) (old : node) (x : byte) (new : node) : list node :=
  set_child (set_child empty_children y old) x new.
Lemma branch_wf y old x new fl : sub_ok y old → sub_ok x new → x ≠ y → wf (fullNode (branch_of y old x new) fl).
Proof.
  intros Hold Hnew Hxy. pose proof (sub_ok_not_nil _ _ Hold) as Hon. pose proof (sub_ok_not_nil _ _ Hnew) as Hnn.
  destruct (nibble_index y (sub_ok_index _ _ Hold)) as [Hyr Hyi], (nibble_index x (sub_ok_index _ _ Hnew)) as [Hxr Hxi].
  assert (length empty_children = 17%nat) as Hlen by done. unfold branch_of.
  assert (∀ j d, set_child (set_child empty_children y old) x new !! j = Some d →
    (j = Z.to_nat x ∧ d = new) ∨ (j = Z.to_nat y ∧ d = old) ∨ d = nilNode) as Hcases.
  { intros j d. unfold set_child. destruct (decide (Z.to_nat x = j)) as [<-|Hxj].
    - rewrite list_lookup_insert_eq by (rewrite length_insert; lia). intros [= <-]. by left.
    - rewrite list_lookup_insert_ne by done. destruct (decide (Z.to_nat y = j)) as [<-|Hyj].
      + rewrite list_lookup_insert_eq by lia. intros [= <-]. right. by left.
      + rewrite list_lookup_insert_ne by done. unfold empty_children. intros [-> _]%lookup_replicate. right. by right. }
  apply wf_full.
  - by rewrite !set_child_length.
  - intros j d Hj Hd Hnil. destruct (Hcases j d Hd) as [[-> ->]|[[-> ->]|?]]; [| |done].
    + destruct Hnew as [[_ ?]|[-> _]]; [done|unfold terminator in Hj; lia].
    + destruct Hold as [[_ ?]|[-> _]]; [done|unfold terminator in Hj; lia].
  - intros d Hd Hnil. destruct (Hcases _ d Hd) as [[Hj ->]|[[Hj ->]|?]]; [| |done].
    + destruct Hnew as [[Hx _]|[_ ?]]; [unfold is_nibble in Hx; lia|done].
    + destruct Hold as [[Hy _]|[_ ?]]; [unfold is_nibble in Hy; lia|done].
  - apply (occupied_two _ (Z.to_nat x) (Z.to_nat y) new old); [| |lia|done|done]; unfold set_child.
    + rewrite list_lookup_insert_eq; [done|rewrite length_insert; lia].
    + rewrite list_lookup_insert_ne by lia. rewrite list_lookup_insert_eq; [done|lia].
Qed.
Lemma branch_find y old x new fl j key :
  is_nibble y ∨ y = terminator → is_nibble x ∨ x = terminator → is_nibble j ∨ j = terminator →
  find (fullNode (branch_of y old x new) fl) (j :: key) =
    if decide (j = x) then find new key else if decide (j = y) then find old key else None.
Proof.
  intros Hy Hx Hj. unfold branch_of. rewrite find_set by (done || by rewrite set_child_length).
  case_decide; [done|]. rewrite (find_set empty_children) by done. case_decide; [done|].
  rewrite find_full. destruct (nibble_index j Hj). unfold empty_children. rewrite lookup_replicate_2 by lia. done.
Qed.

(** What insertion puts below an index for the rest of a key. *)
Definition below (rest : list byte) (val : node) : node :=
  match rest with [] => val | _ => shortNode rest val newFlag end.
Lemma below_find rest val key : find (below rest val) key = find (shortNode rest val newFlag) key.
Proof. destruct rest as [|x rest]; [|done]. rewrite find_short. cbn. by rewrite drop_0. Qed.
Lemma below_leaf x rest val : tkey (x :: rest) → is_value val → sub_ok x (below rest val).
Proof.
  rewrite tkey_cons. intros [[-> ->]|[Hx Hr]] Hv; [by right|left]. split; [done|].
  pose proof (tkey_nonempty _ Hr). destruct val; try done. destruct rest; [done|]. by apply wf_leaf.
Qed.
Lemma below_extension x rest val : Forall is_nibble (x :: rest) → is_full val → wf val → sub_ok x (below rest val).
Proof.
  intros Hk Hf Hw. apply Forall_cons in Hk as [Hx Hr]. left. split; [done|]. destruct rest; [done|].
  by apply wf_extension.
Qed.

(** ** Short nodes and keys *)
Lemma find_short_prefix p q r val fl fl' :
  find (shortNode (p ++ q) val fl) (p ++ r) = find (shortNode q val fl') r.
Proof.
  rewrite !find_short, length_app, take_app_add, drop_app_add.
  rewrite (bool_decide_ext _ (take (length q) r = q)); [done|]. split; [by intros ?%app_inv_head|by intros ->].
Qed.
Lemma find_short_apart k val fl key p x a y b :
  k = p ++ y :: b → key = p ++ x :: a → x ≠ y → find (shortNode k val fl) key = None.
Proof.
  intros -> -> Hxy. rewrite (find_short_prefix p _ _ _ fl fl), find_short. cbn. rewrite bool_decide_false; [done|].
  intros [= ? _]. done.
Qed.
Lemma find_leaf a v fl key : tkey a → tkey key → find (shortNode a (valueNode v) fl) key = if decide (key = a) then Some v else None.
Proof.
  intros Ha Hkey. rewrite find_short. case_bool_decide as Hp.
  - assert (key = a ++ drop (length a) key) as Hs by (by rewrite <- Hp at 1; rewrite take_drop).
    rewrite Hs in Hkey. apply tkey_terminator_last in Hkey as Hd; [|done]. rewrite Hd in *. rewrite app_nil_r in Hs.
    by rewrite decide_True.
  - rewrite decide_False; [done|]. intros ->. by rewrite firstn_all in Hp.
Qed.
Lemma prefixLen_app p x a y b : x ≠ y → prefixLen (p ++ x :: a) (p ++ y :: b) = length p.
Proof.
  intros Hxy. induction p as [|z p IH]; cbn; [by rewrite (proj2 (Z.eqb_neq x y))|]. by rewrite Z.eqb_refl, IH.
Qed.
Lemma middle_lookup {A} (p : list A) x a : (p ++ x :: a) !! length p = Some x.
Proof. by rewrite lookup_app_r, Nat.sub_diag by done. Qed.
Lemma middle_drop {A} (p : list A) x a : drop (length p + 1) (p ++ x :: a) = a.
Proof. by rewrite drop_app_add. Qed.

(** * Insertion *)
Section insertion.
Context (db : Hash → option node).

Lemma insert_nil fuel prefix rest val :
  (0 < fuel)%nat → insert db fuel nilNode prefix rest val = Ok (true, below rest val).
Proof. intros Hf. destruct fuel; [lia|]. by destruct rest. Qed.

Record inserted (n : node) (key v : list byte) (d : bool) (n' : node) : Prop := {
  ins_wf : wf n';
  ins_full : is_full n → is_full n';
  ins_find k : tkey k → find n' k = if decide (k = key) then Some v else find n k;
  ins_same : d = false → n' = n
}.
(** The same below an index. *)
Lemma child_inserted fuel i key c prefix v :
  (∀ c, wf_trie c → tkey key → ∃ d n', insert db fuel c prefix key (valueNode v) = Ok (d, n') ∧ inserted c key v d n') →
  (0 < fuel)%nat → child_ok i key c →
  ∃ d c', insert db fuel c prefix key (valueNode v) = Ok (d, c') ∧ sub_ok i c' ∧ (d = false → c' = c) ∧
    ∀ k, tkey (i :: k) → find c' k = if decide (k = key) then Some v else find c k.
Proof.
  intros IH Hfuel [(Hi & Hk & Hc)|(-> & -> & Hc)].
  - destruct (IH c Hc Hk) as (d & c' & Hrun & [Hwf _ Hfind Hsame]). exists d, c'. split_and!; [done|by left|done|].
    intros k Htk. apply Hfind. apply tkey_cons in Htk as [[-> _]|[_ ?]]; [unfold is_nibble, terminator in Hi; lia|done].
  - destruct fuel as [|fuel]; [lia|].
    assert (∀ k, tkey (terminator :: k) → k = []) as Hnil.
    { intros k [[_ ?]|[Hn _]]%tkey_cons; [done|unfold is_nibble, terminator in Hn; lia]. }
    destruct Hc as [->|Hv].
    + exists true, (valueNode v). split_and!; [done|by right|done|]. intros k ->%Hnil. by rewrite decide_True.
    + destruct c as [| |w| |]; try done. cbn [insert]. eexists _, (valueNode v). split_and!; [done|by right| |].
      * intros Hd. apply negb_false_iff, bool_decide_eq_true in Hd. by subst.
      * intros k ->%Hnil. by rewrite decide_True.
Qed.

(** Keys below a branch. *)
Lemma find_branched p x a y b val v fl k :
  tkey (x :: a) → is_nibble y ∨ y = terminator → Forall is_nibble p → x ≠ y → tkey k →
  find (shortNode p (fullNode (branch_of y (below b val) x (below a (valueNode v))) newFlag) newFlag) k =
    if decide (k = p ++ x :: a) then Some v else find (shortNode (p ++ y :: b) val fl) k.
Proof.
  intros Hxa Hy Hp Hxy Hk. rewrite find_short. case_bool_decide as Hpre.
  - assert (k = p ++ drop (length p) k) as Hs by (by rewrite <- Hpre at 1; rewrite take_drop).
    revert Hs Hpre. generalize (drop (length p) k) as r. intros r -> _. apply tkey_app in Hk; [|done].
    destruct r as [|j r]; [by apply tkey_nonempty in Hk|]. rewrite (find_short_prefix p _ _ _ fl fl).
    rewrite branch_find by (done || by eapply tkey_head). rewrite !below_find.
    assert (p ++ j :: r = p ++ x :: a ↔ j :: r = x :: a) as Heq by (split; [by intros ?%app_inv_head|by intros ->]).
    rewrite (decide_ext _ _ _ _ Heq). destruct (decide (j = x)) as [->|Hjx].
    + rewrite <- (find_short_prefix [x] a r _ newFlag). cbn [app]. rewrite find_leaf by done.
      case_decide; [done|]. by rewrite (find_short_apart _ _ _ _ [] x r y b).
    + rewrite (decide_False (P := j :: r = x :: a)) by congruence. destruct (decide (j = y)) as [->|Hjy].
      * by rewrite <- (find_short_prefix [y] b r _ fl).
      * by rewrite (find_short_apart _ _ _ _ [] j r y b).
  - rewrite decide_False by (intros ->; by rewrite take_app_length in Hpre).
    rewrite find_short, bool_decide_false; [done|]. intros Hq. apply Hpre. rewrite length_app in Hq.
    assert (take (length p) (take (length p + length (y :: b)) k) = p) as Hp' by (rewrite Hq; apply take_app_length).
    rewrite take_take in Hp'. by replace (length p `min` (length p + length (y :: b)))%nat with (length p) in Hp' by lia.
Qed.

(** Branching out of a short node at the first difference. *)
Lemma branch_out fuel p a b x y val fl prefix v :
  wf (shortNode (p ++ y :: b) val fl) → tkey (p ++ x :: a) → x ≠ y → (1 < fuel)%nat →
  ∃ n', insert db fuel (shortNode (p ++ y :: b) val fl) prefix (p ++ x :: a) (valueNode v) = Ok (true, n') ∧
    inserted (shortNode (p ++ y :: b) val fl) (p ++ x :: a) v true n'.
Proof.
  intros Hn Hkey Hxy Hfuel. destruct (tkey_before p x a Hkey) as [Hp Hxa].
  assert (sub_ok y (below b val)) as Hold.
  { destruct (wf_short_val _ _ _ Hn) as [[Hk Hv]|(Hk & _ & Hf & Hw)].
    - apply tkey_app in Hk; [|done]. by apply below_leaf.
    - apply Forall_app in Hk as [_ Hk]. by apply below_extension. }
  assert (sub_ok x (below a (valueNode v))) as Hnew by by apply below_leaf.
  set (branch := fullNode (branch_of y (below b val) x (below a (valueNode v))) newFlag).
  assert (wf branch) as Hbranch by by apply branch_wf.
  set (n' := if bool_decide (length p = 0%nat) then branch else shortNode p branch newFlag).
  assert (∀ k, find n' k = find (shortNode p branch newFlag) k) as Hshort.
  { intros k. unfold n'. case_bool_decide as Hl; [|done]. destruct p; [|done]. rewrite find_short. cbn. by rewrite drop_0. }
  exists n'. split.
  - destruct fuel as [|fuel]; [lia|]. cbn [insert]. destruct (p ++ x :: a) eqn:Hk; [by destruct p|]. rewrite <- Hk.
    rewrite prefixLen_app, (bool_decide_false (length p = _)) by (done || rewrite length_app; cbn; lia).
    rewrite !middle_lookup, !middle_drop, !insert_nil by lia. cbn [mbind result_bind].
    destruct (get_child_ok (E := trie_error) empty_children y) as (? & -> & _); [done|by eapply sub_ok_index|].
    cbn [mbind result_bind].
    destruct (get_child_ok (E := trie_error) (set_child empty_children y (below b val)) x) as (? & -> & _);
      [by rewrite set_child_length|by eapply sub_ok_index|].
    cbn [mbind result_bind]. rewrite take_app_length. unfold n'. by case_bool_decide.
  - split; [|done| |done].
    + unfold n'. case_bool_decide as Hl; [done|]. apply wf_extension; [done|by intros ->|done|done].
    + intros k Hk. rewrite Hshort. apply find_branched; try done. by eapply sub_ok_index.
Qed.

(** Following a short node whose key is a prefix. *)
Lemma insert_through fuel p a val fl prefix v :
  (∀ n key prefix, wf_trie n → tkey key → (length key + 1 < fuel)%nat →
    ∃ d n', insert db fuel n prefix key (valueNode v) = Ok (d, n') ∧ inserted n key v d n') →
  wf (shortNode p val fl) → tkey (p ++ a) → (length (p ++ a) + 1 < S fuel)%nat →
  ∃ d nn, insert db fuel val (prefix ++ p) a (valueNode v) = Ok (d, nn) ∧ (d = false → nn = val) ∧
    wf (shortNode p nn newFlag) ∧ ∀ k, tkey k → find (shortNode p nn newFlag) k =
      if decide (k = p ++ a) then Some v else find (shortNode p val fl) k.
Proof.
  intros IH Hn Hkey Hfuel. rewrite length_app in Hfuel.
  destruct (wf_short_val _ _ _ Hn) as [[Hp Hv]|(Hp & Hne & Hf & Hw)].
  - assert (a = []) as -> by by eapply tkey_terminator_last. destruct val as [| |w| |]; try done.
    destruct fuel as [|fuel]; [destruct p; [by apply tkey_nonempty in Hp|cbn in Hfuel; lia]|]. cbn [insert].
    eexists _, (valueNode v). split; [done|]. split.
    { intros Hd. apply negb_false_iff, bool_decide_eq_true in Hd. by subst. }
    split; [by apply wf_leaf|]. intros k Hk. rewrite app_nil_r, !find_leaf by done. by case_decide.
  - apply tkey_app in Hkey; [|done]. assert (0 < length p)%nat by (destruct p; [done|cbn; lia]).
    destruct (IH val a (prefix ++ p)) as (d & nn & Hrun & [Hwf Hfull Hfind Hsame]); [by right|done|lia|].
    exists d, nn. split_and!; [done|done|by apply wf_extension; [..|apply Hfull|]|].
    intros k Hk. rewrite !find_short. case_bool_decide as Hpre.
    + assert (k = p ++ drop (length p) k) as Hs by (by rewrite <- Hpre at 1; rewrite take_drop).
      rewrite Hs in Hk. apply tkey_app in Hk; [|done]. rewrite Hfind by done.
      apply decide_ext. rewrite Hs at 2. split; [by intros ->|by intros ?%app_inv_head].
    + rewrite decide_False; [done|]. intros ->. by rewrite take_app_length in Hpre.
Qed.

Lemma insert_ok n key fuel prefix v :
  wf_trie n → tkey key → (length key + 1 < fuel)%nat →
  ∃ d n', insert db fuel n prefix key (valueNode v) = Ok (d, n') ∧ inserted n key v d n'.
Proof.
  revert n key prefix. induction fuel as [|fuel IH]; intros n key prefix [->|Hn] Hkey Hfuel; [lia..| |].
  - exists true, (shortNode key (valueNode v) newFlag). split; [destruct key; [by apply tkey_nonempty in Hkey|done]|].
    split; [by apply wf_leaf|done|intros k Hk; by apply find_leaf|done].
  - destruct n as [|h|w|k val fl|cs fl]; [inversion Hn..| |].
    + destruct (prefixLen_split key k) as (p & a & b & -> & -> & Hlen & Hd). destruct b as [|y b].
      * rewrite app_nil_r in Hn.
        assert (∃ d nn, insert db fuel val (prefix ++ p) a (valueNode v) = Ok (d, nn) ∧ (d = false → nn = val) ∧
          wf (shortNode p nn newFlag) ∧ ∀ k, tkey k → find (shortNode p nn newFlag) k =
            if decide (k = p ++ a) then Some v else find (shortNode p val fl) k) as (d & nn & Hrun & Hsame & Hwf & Hfind)
          by by eapply insert_through.
        exists d, (if d then shortNode p nn newFlag else shortNode p val fl). split.
        { rewrite app_nil_r in Hlen |- *. cbn [insert].
          destruct (p ++ a) eqn:Hk; [by apply tkey_nonempty in Hkey|]. rewrite <- Hk in Hlen |- *.
          rewrite Hlen, bool_decide_true, take_app_length, drop_app_length, Hrun by done. by destruct d. }
        rewrite app_nil_r. destruct d; [by split|]. split; try done. intros k Hk. rewrite Hsame in Hfind by done.
        by apply Hfind.
      * destruct a as [|x a].
        { rewrite app_nil_r in Hkey. destruct (wf_short_val _ _ _ Hn) as [[Hk _]|(Hk & _)].
          - by apply tkey_terminator_last in Hk.
          - apply Forall_app in Hk as [Hk _]. destruct Hkey as (l & _ & ->). apply Forall_app in Hk as [_ Hk].
            apply Forall_cons in Hk as [Hk _]. unfold is_nibble, terminator in Hk. lia. }
        destruct (branch_out (S fuel) p a b x y val fl prefix v) as (n' & Hrun & Hins); try done; [lia|].
        by exists true, n'.
    + destruct key as [|i key]; [by apply tkey_nonempty in Hkey|]. cbn [length] in Hfuel.
      assert (length cs = 17%nat) as Hlen by by inversion Hn.
      destruct (get_child_ok (E := trie_error) cs i Hlen (tkey_head _ _ Hkey)) as (c & Hget & Hc).
      destruct (child_inserted fuel i key c (prefix ++ [i]) v) as (d & c' & Hrun & Hsub & Hsame & Hfind);
        [intros; apply IH; done || lia|lia|by eapply wf_child|].
      exists d, (if d then fullNode (set_child cs i c') newFlag else fullNode cs fl). split.
      { cbn [insert]. rewrite Hget. cbn [mbind result_bind]. rewrite Hrun. by destruct d. }
      assert (∀ k, tkey k → find (fullNode (set_child cs i c') newFlag) k =
        if decide (k = i :: key) then Some v else find (fullNode cs fl) k) as Hall.
      { intros [|j k] Hk; [by apply tkey_nonempty in Hk|].
        rewrite find_set by (done || by eapply tkey_head). destruct (decide (j = i)) as [->|Hji].
        - rewrite Hfind, find_full, Hc by done. cbn [mbind option_bind]. repeat case_decide; congruence.
        - rewrite decide_False by congruence. by rewrite !find_full. }
      destruct d; [split; [by eapply wf_set|done|exact Hall|done]|]. split; try done.
      rewrite (Hsame eq_refl) in Hall. intros k Hk. rewrite <- Hall by done.
      destruct k as [|j k]; [by apply tkey_nonempty in Hk|]. rewrite find_set by (done || by eapply tkey_head).
      case_decide; [subst|by rewrite !find_full]. by rewrite find_full, Hc.
Qed.
End insertion.

(** * Deletion *)
Lemma occupied_zero cs j c : occupied cs = 0%nat → cs !! j = Some c → c = nilNode.
Proof. intros Ho Hc. rewrite (occupied_split cs j c Hc) in Ho. by destruct c. Qed.

Lemma scan_found i pos cs : 0 ≤ pos → scan_children i pos cs = if bool_decide (occupied cs = 0%nat) then pos else -2.
Proof.
  intros Hp. revert i. induction cs as [|c cs IH]; intros i; [done|]. cbn [scan_children]. rewrite occupied_cons.
  destruct (is_nil c); [apply IH|]. by rewrite (proj2 (Z.eqb_neq pos (-1))) by lia.
Qed.
(** The children left in a full node. *)
Lemma left_over_spec cs :
  (1 ≤ occupied cs)%nat →
  (occupied cs = 1%nat ∧ ∃ j c, cs !! j = Some c ∧ is_nil c = false ∧ left_over cs = Z.of_nat j ∧
     ∀ i d, cs !! i = Some d → i ≠ j → d = nilNode) ∨
  ((2 ≤ occupied cs)%nat ∧ left_over cs = -2).
Proof.
  unfold left_over. intros Ho.
  assert (∀ i, 0 ≤ i → (1 ≤ occupied cs)%nat →
    (occupied cs = 1%nat ∧ ∃ j c, cs !! j = Some c ∧ is_nil c = false ∧ scan_children i (-1) cs = i + Z.of_nat j ∧
       ∀ i d, cs !! i = Some d → i ≠ j → d = nilNode) ∨
    ((2 ≤ occupied cs)%nat ∧ scan_children i (-1) cs = -2)) as Hscan; [|by destruct (Hscan 0 ltac:(done) Ho); [left|right]].
  clear Ho. induction cs as [|c cs IH]; intros i Hi; [cbn; lia|]. cbn [scan_children]. rewrite occupied_cons.
  destruct (is_nil c) eqn:Hc; cbn [Nat.add].
  - intros Ho. destruct (IH (i + 1) ltac:(lia) Ho) as [(H1 & j & d & Hj & Hd & Hs & Hrest)|[H2 Hs]]; [left|by right].
    split; [done|]. exists (S j), d. split_and!; [done|done|rewrite Hs; lia|].
    intros [|k] e He Hk; [injection He as <-; by destruct c|]. eapply Hrest; [done|congruence].
  - intros _. rewrite Z.eqb_refl, scan_found by done. case_bool_decide as H0.
    + left. split; [lia|]. exists 0%nat, c. split_and!; [done|done|lia|]. intros [|k] d Hd Hk; [done|].
      by eapply occupied_zero.
    + right. split; [lia|done].
Qed.

Definition is_short (n : node) : Prop := match n with shortNode _ _ _ => True | _ => False end.

Record deleted (n : node) (key : list byte) (d : bool) (n' : node) : Prop := {
  del_wf : wf_trie n';
  del_full : is_full n → is_full n' ∨ is_short n';
  del_find k : tkey k → find n' k = if decide (k = key) then None else find n k;
  del_same : d = false → n' = n ∧ find n key = None
}.

(** A full node with one child replaced, that has two children left. *)
Lemma wf_replace cs fl fl' i c :
  wf (fullNode cs fl) → is_nibble i ∨ i = terminator → (c = nilNode ∨ sub_ok i c) →
  (2 ≤ occupied (set_child cs i c))%nat → wf (fullNode (set_child cs i c) fl').
Proof.
  intros Hn Hi [->|Hc] Hocc; [|by eapply wf_set]. inversion Hn as [| |cs' fl0 Hlen Hsub Hval Hold]; subst.
  destruct (nibble_index i Hi) as [Hr Hix]. unfold set_child in *. apply wf_full; [by rewrite length_insert|..|done].
  - intros j d Hj Hd Hnil. destruct (decide (Z.to_nat i = j)) as [<-|Hne].
    + rewrite list_lookup_insert_eq in Hd by lia. congruence.
    + rewrite list_lookup_insert_ne in Hd by done. by eapply Hsub.
  - intros d Hd Hnil. destruct (decide (Z.to_nat i = 16%nat)) as [He|Hne].
    + rewrite He, list_lookup_insert_eq in Hd by lia. congruence.
    + rewrite list_lookup_insert_ne in Hd by done. by eapply Hval.
Qed.

(** The short node that replaces a full node with one child left. *)
Definition collapse (pos : byte) (c : node) : node :=
  match c with
  | shortNode k val _ => if pos =? 16 then shortNode [pos] c newFlag else shortNode (pos :: k) val newFlag
  | _ => shortNode [pos] c newFlag
  end.
Lemma collapse_wf pos c : sub_ok pos c → wf (collapse pos c).
Proof.
  intros [[Hp Hw]|[-> Hv]].
  - inversion Hw as [k v fl Hk|k n fl Hk Hne Hf Hn|cs fl]; subst; cbn;
      rewrite ?(proj2 (Z.eqb_neq pos 16)) by (unfold is_nibble in Hp; lia).
    + apply wf_leaf, tkey_cons. by right.
    + apply wf_extension; [by constructor|done|done|done].
    + apply wf_extension; [by constructor; [|constructor]|done|done|done].
  - destruct c; try done. apply wf_leaf, tkey_cons. by left.
Qed.
Lemma collapse_find cs fl j c k :
  length cs = 17%nat → (j < 17)%nat → cs !! j = Some c → (∀ i d, cs !! i = Some d → i ≠ j → d = nilNode) →
  tkey k → find (collapse (Z.of_nat j) c) k = find (fullNode cs fl) k.
Proof.
  intros Hlen Hj Hc Hrest Hk. destruct k as [|i k]; [by apply tkey_nonempty in Hk|].
  destruct (nibble_index i (tkey_head _ _ Hk)) as [Hir Hin].
  assert (find (collapse (Z.of_nat j) c) (i :: k) = find (shortNode [Z.of_nat j] c newFlag) (i :: k)) as ->.
  { unfold collapse. destruct c as [| | |k' val fl'|]; try done. destruct (Z.of_nat j =? 16); [done|].
    rewrite find_short, (find_short [_]). cbn [length take drop]. rewrite take_0, drop_0. destruct (decide (i = Z.of_nat j)) as [->|Hne].
    - rewrite (bool_decide_true ([_] = [_])) by done. rewrite find_short.
      rewrite (bool_decide_ext _ (take (length k') k = k')); [done|]. split; [by intros [= ?]|by intros ->].
    - rewrite !bool_decide_false by congruence. done. }
  rewrite find_full, find_short. cbn [length take drop]. rewrite take_0, drop_0. case_bool_decide as Hi.
  - injection Hi as ->. by rewrite Nat2Z.id, Hc.
  - destruct (cs !! Z.to_nat i) as [d|] eqn:Hd; [|done]. rewrite (Hrest (Z.to_nat i) d Hd); [done|].
    intros He. apply Hi. f_equal. lia.
Qed.

Section deletion.
Context (db : Hash → option node).

(** The same below an index. *)
Lemma child_deleted fuel i key c prefix :
  (∀ c, wf_trie c → tkey key → ∃ d n', delete db fuel c prefix key = Ok (d, n') ∧ deleted c key d n') →
  (0 < fuel)%nat → child_ok i key c →
  ∃ d c', delete db fuel c prefix key = Ok (d, c') ∧ (c' = nilNode ∨ sub_ok i c') ∧
    (d = false → c' = c ∧ find c key = None) ∧ (d = true → is_nil c = false) ∧
    ∀ k, tkey (i :: k) → find c' k = if decide (k = key) then None else find c k.
Proof.
  intros IH Hfuel [(Hi & Hk & Hc)|(-> & -> & Hc)].
  - destruct (IH c Hc Hk) as (d & c' & Hrun & [Hwf _ Hfind Hsame]). exists d, c'. split_and!; [done| |done| |].
    + destruct Hwf as [->|Hw]; [by left|right; by left].
    + intros ->. destruct c; try done. destruct fuel; [lia|]. done.
    + intros k Htk. apply Hfind. apply tkey_cons in Htk as [[-> _]|[_ ?]]; [unfold is_nibble, terminator in Hi; lia|done].
  - destruct fuel as [|fuel]; [lia|].
    assert (∀ k, tkey (terminator :: k) → k = []) as Hnil.
    { intros k [[_ ?]|[Hn _]]%tkey_cons; [done|unfold is_nibble, terminator in Hn; lia]. }
    destruct Hc as [->|Hv].
    + exists false, nilNode. split_and!; [done|by left|done|done|]. intros k ->%Hnil. by rewrite decide_True.
    + destruct c as [| |w| |]; try done. exists true, nilNode. split_and!; [done|by left|done|done|].
      intros k ->%Hnil. by rewrite decide_True.
Qed.

(** Deleting below a full node. *)
Lemma delete_full fuel cs fl prefix i key d c' c :
  wf (fullNode cs fl) → tkey (i :: key) → cs !! Z.to_nat i = Some c →
  delete db fuel c (prefix ++ [i]) key = Ok (d, c') → (c' = nilNode ∨ sub_ok i c') →
  (d = false → c' = c ∧ find c key = None) → (d = true → is_nil c = false) →
  (∀ k, tkey (i :: k) → find c' k = if decide (k = key) then None else find c k) →
  ∃ n', delete db (S fuel) (fullNode cs fl) prefix (i :: key) = Ok (d, n') ∧ deleted (fullNode cs fl) (i :: key) d n'.
Proof.
  intros Hn Hkey Hc Hrun Hsub Hsame Hnonnil Hfind. assert (length cs = 17%nat) as Hlen by by inversion Hn.
  pose proof (tkey_head _ _ Hkey) as Hi. destruct (nibble_index i Hi) as [Hir Hix].
  destruct (get_child_ok (E := trie_error) cs i Hlen Hi) as (c0 & Hget & Hc0). rewrite Hc in Hc0. injection Hc0 as <-.
  cbn [delete]. rewrite Hget. cbn [mbind result_bind]. rewrite Hrun. cbn [mbind result_bind]. destruct d; cbn [negb].
  2: { exists (fullNode cs fl). split; [done|]. destruct (Hsame eq_refl) as [-> Hnone].
       assert (find (fullNode cs fl) (i :: key) = None) as Hnf by (by rewrite find_full, Hc).
       split; [by right|by left| |done]. intros k Hk. case_decide; by subst. }
  set (cs' := set_child cs i c'). assert (length cs' = 17%nat) as Hlen' by by rewrite <- Hlen; apply set_child_length.
  assert (∀ k fl', tkey k → find (fullNode cs' fl') k = if decide (k = i :: key) then None else find (fullNode cs fl) k) as Hall.
  { intros [|j k] fl' Hk; [by apply tkey_nonempty in Hk|]. unfold cs'. rewrite find_set by (done || by eapply tkey_head).
    destruct (decide (j = i)) as [->|Hji].
    - rewrite Hfind, find_full, Hc by done. cbn [mbind option_bind]. repeat case_decide; congruence.
    - rewrite decide_False by congruence. by rewrite !find_full. }
  assert (1 ≤ occupied cs')%nat as Hocc.
  { unfold cs', set_child. rewrite occupied_set by lia. inversion Hn as [| |x y _ _ _ Hold]; subst.
    rewrite (occupied_split cs _ c Hc), (Hnonnil eq_refl) in Hold. lia. }
  assert (∀ j e, cs' !! j = Some e → is_nil e = false → sub_ok (Z.of_nat j) e) as Hslot.
  { intros j e He Hne. assert (j < 17)%nat as Hj by (rewrite <- Hlen'; by eapply lookup_lt_Some).
    unfold cs', set_child in He. destruct (decide (Z.to_nat i = j)) as [<-|Hji].
    - rewrite list_lookup_insert_eq in He by lia. injection He as <-. rewrite Z2Nat.id by lia.
      destruct Hsub as [->|?]; [done|done].
    - rewrite list_lookup_insert_ne in He by done. inversion Hn as [| |x y _ Hs Hv _]; subst.
      destruct (decide (j = 16%nat)) as [->|]; [right; split; [done|apply (Hv e He); by intros ->]|].
      left. split; [unfold is_nibble; lia|]. apply (Hs j e); [lia|done|by intros ->]. }
  destruct (left_over_spec cs' Hocc) as [(H1 & j & e & Hj & Hne & Hleft & Hrest)|[H2 Hleft]].
  - assert (j < 17)%nat as Hj17 by (rewrite <- Hlen'; by eapply lookup_lt_Some).
    exists (collapse (Z.of_nat j) e). fold cs'. rewrite Hleft, (proj2 (Z.leb_le 0 _)) by lia. split.
    + unfold get_child. rewrite (proj2 (Z.ltb_ge (Z.of_nat j) 0)), (proj2 (Z.leb_gt 17 _)) by lia. cbn [orb].
      rewrite Nat2Z.id, Hj. cbn [mbind result_bind]. pose proof (Hslot j e Hj Hne) as Hso. unfold collapse.
      destruct (Z.eqb_spec (Z.of_nat j) 16) as [->|H16]; cbn [negb]; [by destruct e|].
      destruct Hso as [[_ Hw]|[? _]]; [|unfold terminator in *; lia]. by inversion Hw.
    + split; [right; by apply collapse_wf, Hslot| |intros k Hk; by rewrite (collapse_find cs' newFlag), Hall|done].
      intros _. right. unfold collapse. destruct e; try done. by destruct (_ =? 16).
  - exists (fullNode cs' newFlag). fold cs'. rewrite Hleft. cbn. split; [done|].
    split; [right; by eapply wf_replace|by left|intros k Hk; by apply Hall|done].
Qed.

(** Putting the key of a short node back in front of what is left below it. *)
Lemma delete_merge p a val fl d c :
  wf (shortNode p val fl) → Forall is_nibble p → p ≠ [] → is_full val → tkey a →
  wf_trie c → is_full c ∨ is_short c →
  (∀ k, tkey k → find c k = if decide (k = a) then None else find val k) →
  (d = false → c = val ∧ find val a = None) →
  ∃ d' n', (if negb d then Ok (false, shortNode p val fl) else
      match c with
      | shortNode k' val' _ => Ok (true, shortNode (p ++ k') val' newFlag)
      | _ => Ok (true, shortNode p c newFlag)
      end) = Ok (E := trie_error) (d', n') ∧ deleted (shortNode p val fl) (p ++ a) d' n'.
Proof.
  intros Hn Hp Hne Hf Ha Hcwf Hshape Hfind Hsame. destruct d; cbn [negb].
  2: { exists false, (shortNode p val fl). split; [done|]. destruct (Hsame eq_refl) as [-> Hnone].
       assert (find (shortNode p val fl) (p ++ a) = None) as Hnf by (by rewrite find_short_app).
       split; [by right|done| |done]. intros k Hk. case_decide; by subst. }
  assert (∀ k, tkey k → find (shortNode p c newFlag) k = if decide (k = p ++ a) then None else find (shortNode p val fl) k) as Hall.
  { intros k Hk. rewrite !find_short. case_bool_decide as Hpre.
    - assert (k = p ++ drop (length p) k) as Hs by (by rewrite <- Hpre at 1; rewrite take_drop).
      rewrite Hs in Hk. apply tkey_app in Hk; [|done]. rewrite Hfind by done.
      apply decide_ext. rewrite Hs at 2. split; [by intros ->|by intros ?%app_inv_head].
    - by case_decide. }
  destruct Hcwf as [->|Hcw]; [by destruct Hshape|].
  destruct c as [| | |k' val' fl'|cs fl']; try (by destruct Hshape); exists true; eexists; (split; [done|]).
  - split; [right|done| |done].
    + destruct (wf_short_val _ _ _ Hcw) as [[Hk Hv]|(Hk & _ & Hf' & Hw)].
      * destruct val'; try done. apply wf_leaf. by apply tkey_app.
      * apply wf_extension; [by apply Forall_app|by destruct p|done|done].
    + intros k Hk. rewrite <- Hall by done. rewrite (find_short p (shortNode k' val' fl')). case_bool_decide as Hpre.
      * assert (k = p ++ drop (length p) k) as -> by (by rewrite <- Hpre at 1; rewrite take_drop).
        by rewrite drop_app_length, (find_short_prefix p _ _ _ newFlag fl').
      * rewrite find_short, bool_decide_false; [done|]. intros Hq. apply Hpre. rewrite length_app in Hq.
        assert (take (length p) (take (length p + length k') k) = p) as Hp' by (rewrite Hq; apply take_app_length).
        rewrite take_take in Hp'. by replace (length p `min` (length p + length k'))%nat with (length p) in Hp' by lia.
  - split; [right; by apply wf_extension|done|exact Hall|done].
Qed.

Lemma delete_ok n key fuel prefix :
  wf_trie n → tkey key → (length key + 1 < fuel)%nat →
  ∃ d n', delete db fuel n prefix key = Ok (d, n') ∧ deleted n key d n'.
Proof.
  revert n key prefix. induction fuel as [|fuel IH]; intros n key prefix [->|Hn] Hkey Hfuel; [lia..| |].
  - exists false, nilNode. split; [done|]. split; [by left|done|intros k _; by case_decide|done].
  - destruct n as [|h|w|k val fl|cs fl]; [inversion Hn..| |].
    + destruct (prefixLen_split key k) as (p & a & b & -> & -> & Hlen & Hd). cbn [delete]. rewrite Hlen. destruct b as [|y b].
      * rewrite app_nil_r in *. rewrite bool_decide_false by lia. destruct a as [|x a].
        { rewrite app_nil_r in *. rewrite bool_decide_true by done. exists true, nilNode. split; [done|].
          destruct (wf_short_val _ _ _ Hn) as [[_ Hv]|(Hp & Hne & _)].
          - split; [by left|done| |done]. intros k Hk. destruct val as [| |w| |]; try done.
            rewrite find_leaf by done. by repeat case_decide.
          - destruct Hkey as (l & _ & ->). apply Forall_app in Hp as [_ Hp]. apply Forall_cons in Hp as [Hp _].
            unfold is_nibble, terminator in Hp. lia. }
        rewrite bool_decide_false by (rewrite length_app; cbn; lia).
        destruct (wf_short_val _ _ _ Hn) as [[Hp _]|(Hp & Hne & Hf & Hw)]; [by apply tkey_terminator_last in Hkey|].
        apply tkey_app in Hkey; [|done]. rewrite length_app in Hfuel. assert (0 < length p)%nat by (destruct p; [done|cbn; lia]).
        rewrite take_app_length, drop_app_length.
        destruct (IH val (x :: a) (prefix ++ p)) as (d & c & Hrun & [Hcwf Hcfull Hcfind Hcsame]); [by right|done|lia|].
        rewrite Hrun. cbn [mbind result_bind]. apply (delete_merge p (x :: a) val fl d c); try done. by apply Hcfull.
      * rewrite bool_decide_true by (rewrite length_app; cbn; lia). exists false, (shortNode (p ++ y :: b) val fl). split; [done|].
        assert (find (shortNode (p ++ y :: b) val fl) (p ++ a) = None) as Hnone.
        { destruct a as [|x a]; [|by eapply find_short_apart]. rewrite (find_short_prefix p _ _ _ fl fl), find_short.
          by rewrite bool_decide_false. }
        split; [by right|done| |done]. intros k Hk. case_decide; by subst.
    + destruct key as [|i key]; [by apply tkey_nonempty in Hkey|]. cbn [length] in Hfuel.
      assert (length cs = 17%nat) as Hlen by by inversion Hn.
      destruct (get_child_ok (E := trie_error) cs i Hlen (tkey_head _ _ Hkey)) as (c & _ & Hc).
      destruct (child_deleted fuel i key c (prefix ++ [i])) as (d & c' & Hrun & Hsub & Hsame & Hnonnil & Hfind);
        [intros; apply IH; done || lia|lia|by eapply wf_child|].
      destruct (delete_full fuel cs fl prefix i key d c' c) as (n' & Hdel & Hpost); try done. by exists d, n'.
Qed.
End deletion.
