(* ===== verification/TrieMap.v ===== *)
(** A trie in memory is a finite map: runs of lookups, updates and deletions
    ([TryGet], [TryUpdate] and [TryDelete] of [trie/trie.go]) compared with the
    same runs on a [gmap] from keys to values.

    Tries are canonical: two well-formed tries with the same contents are the
    same tree, up to the flags that cache hashes.  The shape of a trie, and so
    its root hash, does not depend on the operations that built it. *)
From S2P Require Import Prelude Types TrieEncoding Trie TrieMemory.

(** A trie stands for a map when it is well formed and holds, under the
    nibbles of the map's keys and nowhere else, the map's values. *)
Record represents (n : node) (m : gmap (list byte) (list byte)) : Prop := {
  rep_wf : wf_trie n;
  rep_find hk v : tkey hk → find n hk = Some v ↔ ∃ k, hk = keybytesToHex k ∧ m !! k = Some v;
  rep_bytes k v : m !! k = Some v → Forall is_byte k
}.

Lemma represents_empty : represents nilNode ∅.
Proof. split; [by left| |done]. intros hk v _. cbn. split; [done|]. by intros (k & _ & Hk). Qed.

Lemma rep_get n m k : represents n m → Forall is_byte k → find n (keybytesToHex k) = m !! k.
Proof.
  intros Hr Hk. apply option_eq. intros v. rewrite (rep_find _ _ Hr) by by apply keybytesToHex_tkey. split; [|by exists k].
  intros (k' & Heq & Hv). apply keybytesToHex_inj in Heq as ->; [done|done|by eapply rep_bytes].
Qed.
Lemma walk_fuel_enough k : (length k + 1 < walk_fuel k)%nat.
Proof. unfold walk_fuel. lia. Qed.

(** A node whose lookups are those of [n] except at [k]. *)
Lemma represents_alter n n' m k (ov : option (list byte)) :
  represents n m → Forall is_byte k → wf_trie n' →
  (∀ hk, tkey hk → find n' hk = if decide (hk = keybytesToHex k) then ov else find n hk) →
  represents n' (partial_alter (λ _, ov) k m).
Proof.
  intros Hr Hk Hwf Hfind. split; [done| |].
  - intros hk v Hhk. rewrite Hfind by done. case_decide as Heq.
    + subst hk. split.
      * intros ->. exists k. by rewrite lookup_partial_alter_eq.
      * intros (k' & Hkk & Hv). destruct (decide (k' = k)) as [->|Hne]; [by rewrite lookup_partial_alter_eq in Hv|].
        rewrite lookup_partial_alter_ne in Hv by done. apply keybytesToHex_inj in Hkk; [done|done|by eapply rep_bytes].
    + rewrite (rep_find _ _ Hr) by done. split; intros (k' & -> & Hv); exists k'; (split; [done|]).
      * rewrite lookup_partial_alter_ne; [done|]. by intros ->.
      * rewrite lookup_partial_alter_ne in Hv; [done|]. by intros ->.
  - intros k' v Hv. destruct (decide (k' = k)) as [->|Hne]; [done|].
    rewrite lookup_partial_alter_ne in Hv by done. by eapply rep_bytes.
Qed.

Section map.
Context (db : Hash → option node).

Lemma TryGet_represents n m k : represents n m → Forall is_byte k → TryGet db n k = (Ok (m !! k), n).
Proof.
  intros Hr Hk. unfold TryGet. rewrite tryGet_ok by (by apply (rep_wf _ _ Hr) || by apply keybytesToHex_tkey || (pose proof (walk_fuel_enough (keybytesToHex k)); lia)).
  by rewrite (rep_get n m).
Qed.
Lemma TryDelete_represents n m k : represents n m → Forall is_byte k →
  ∃ n', TryDelete db n k = (Ok tt, n') ∧ represents n' (base.delete k m).
Proof.
  intros Hr Hk. unfold TryDelete.
  destruct (delete_ok db n (keybytesToHex k) (walk_fuel (keybytesToHex k)) []) as (d & n' & -> & [Hwf _ Hfind _]);
    [by apply (rep_wf _ _ Hr)|by apply keybytesToHex_tkey|apply walk_fuel_enough|].
  exists n'. split; [done|]. by eapply represents_alter.
Qed.
Lemma TryUpdate_represents n m k v : represents n m → Forall is_byte k →
  ∃ n', TryUpdate db n k v = (Ok tt, n') ∧ represents n' (if decide (v = []) then base.delete k m else <[k := v]> m).
Proof.
  intros Hr Hk. unfold TryUpdate. case_decide as Hv.
  - rewrite bool_decide_false by by intros ?. by apply TryDelete_represents.
  - rewrite bool_decide_true by done.
    destruct (insert_ok db n (keybytesToHex k) (walk_fuel (keybytesToHex k)) [] v) as (d & n' & -> & [Hwf _ Hfind _]);
      [by apply (rep_wf _ _ Hr)|by apply keybytesToHex_tkey|apply walk_fuel_enough|].
    exists n'. split; [done|]. by eapply represents_alter; [..|by right|].
Qed.

(** ** Runs *)
Inductive trie_op :=
  | OpGet (key : list byte)
  | OpUpdate (key value : list byte)
  | OpDelete (key : list byte).
Definition op_key (o : trie_op) : list byte := match o with OpGet k | OpUpdate k _ | OpDelete k => k end.

(** What an operation answers: a lookup its value, the others nothing. *)
Definition run_op (root : node) (o : trie_op) : Result trie_error (option (list byte)) * node :=
  match o with
  | OpGet k => TryGet db root k
  | OpUpdate k v => let '(r, root) := TryUpdate db root k v in (r ≫= λ _, Ok None, root)
  | OpDelete k => let '(r, root) := TryDelete db root k in (r ≫= λ _, Ok None, root)
  end.
Fixpoint run_ops (root : node) (ops : list trie_op) : list (Result trie_error (option (list byte))) * node :=
  match ops with
  | [] => ([], root)
  | o :: ops => let '(r, root) := run_op root o in let '(rs, root) := run_ops root ops in (r :: rs, root)
  end.

(** The same operations on a map. *)
Definition map_op (m : gmap (list byte) (list byte)) (o : trie_op) : option (list byte) * gmap (list byte) (list byte) :=
  match o with
  | OpGet k => (m !! k, m)
  | OpUpdate k v => (None, if decide (v = []) then base.delete k m else <[k := v]> m)
  | OpDelete k => (None, base.delete k m)
  end.
Fixpoint map_ops (m : gmap (list byte) (list byte)) (ops : list trie_op) :
    list (option (list byte)) * gmap (list byte) (list byte) :=
  match ops with
  | [] => ([], m)
  | o :: ops => let '(r, m) := map_op m o in let '(rs, m) := map_ops m ops in (r :: rs, m)
  end.

Lemma run_op_represents n m o : represents n m → Forall is_byte (op_key o) →
  ∃ n', run_op n o = (Ok (map_op m o).1, n') ∧ represents n' (map_op m o).2.
Proof.
  intros Hr Hk. destruct o as [k|k v|k]; cbn in Hk |- *.
  - rewrite (TryGet_represents n m) by done. by exists n.
  - destruct (TryUpdate_represents n m k v Hr Hk) as (n' & -> & Hr'). by exists n'.
  - destruct (TryDelete_represents n m k Hr Hk) as (n' & -> & Hr'). by exists n'.
Qed.
Lemma run_ops_represents n m ops : represents n m → Forall (λ o, Forall is_byte (op_key o)) ops →
  ∃ n', run_ops n ops = (Ok <$> (map_ops m ops).1, n') ∧ represents n' (map_ops m ops).2.
Proof.
  intros Hr Hops. revert n m Hr. induction Hops as [|o ops Ho _ IH]; intros n m Hr; [by exists n|]. cbn.
  destruct (run_op_represents n m o Hr Ho) as (n1 & -> & Hr1). destruct (map_op m o) as [r m1]. cbn in *.
  destruct (IH n1 m1 Hr1) as (n2 & -> & Hr2). destruct (map_ops m1 ops) as [rs m2]. by exists n2.
Qed.

(** starting from the empty trie, any run of lookups, updates and deletions
    under byte-string keys succeeds and answers exactly as the same run on a
    finite map, where an update with the empty value deletes. *)
Theorem trie_is_a_map ops :
  Forall (λ o, Forall is_byte (op_key o)) ops →
  (run_ops nilNode ops).1 = Ok <$> (map_ops ∅ ops).1.
Proof.
  intros Hops. by destruct (run_ops_represents nilNode ∅ ops represents_empty Hops) as (n & -> & _).
Qed.
End map.

(** A trie without its flags. *)
Fixpoint strip (n : node) : node :=
  match n with
  | shortNode k val _ => shortNode k (strip val) newFlag
  | fullNode cs _ => fullNode (map strip cs) newFlag
  | _ => n
  end.
Definition same_find (n1 n2 : node) : Prop := ∀ k, tkey k → find n1 k = find n2 k.

(** * Keys of a trie *)
Lemma full_slot cs fl j c :
  wf (fullNode cs fl) → cs !! j = Some c → is_nil c = false → (j < 17)%nat ∧ sub_ok (Z.of_nat j) c.
Proof.
  inversion 1 as [| |x y Hlen Hs Hv _]; subst. intros Hc Hne.
  assert (j < 17)%nat as Hj by (rewrite <- Hlen; by eapply lookup_lt_Some). split; [done|].
  destruct (decide (j = 16%nat)) as [->|]; [right; split; [done|apply (Hv c Hc); by intros ->]|].
  left. split; [unfold is_nibble; lia|]. apply (Hs j c); [lia|done|by intros ->].
Qed.
Lemma find_slot cs fl j c k : cs !! j = Some c → find (fullNode cs fl) (Z.of_nat j :: k) = find c k.
Proof. intros Hc. by rewrite find_full, Nat2Z.id, Hc. Qed.

(** Below every index that is taken there is a key. *)
Lemma slot_inhabited cs fl j c :
  wf (fullNode cs fl) → cs !! j = Some c → is_nil c = false →
  (wf c → ∃ k v, tkey k ∧ find c k = Some v) →
  ∃ k v, tkey (Z.of_nat j :: k) ∧ find (fullNode cs fl) (Z.of_nat j :: k) = Some v.
Proof.
  intros Hn Hc Hne Hsub. destruct (full_slot _ _ _ _ Hn Hc Hne) as [Hj [[Hnib Hw]|[Ht Hv]]].
  - destruct (Hsub Hw) as (k & v & Hk & Hf). exists k, v. rewrite (find_slot _ _ _ _ _ Hc). split; [|done].
    apply tkey_cons. by right.
  - destruct c as [| |v| |]; try done. exists [], v. rewrite (find_slot _ _ _ _ _ Hc). split; [|done].
    apply tkey_cons. by left.
Qed.
Lemma wf_inhabited n : wf n → ∃ k v, tkey k ∧ find n k = Some v.
Proof.
  induction 1 as [k v fl Hk|k n fl Hk Hne Hf Hw (k' & v & Hk' & Hv)|cs fl Hlen Hs IH Hv Hocc].
  - exists k, v. split; [done|]. by rewrite find_leaf, decide_True.
  - exists (k ++ k'), v. split; [by apply tkey_app|]. by rewrite find_short_app.
  - destruct (occupied_distinct cs Hocc) as (i & _ & c & _ & _ & Hc & _ & Hnc & _).
    assert (wf (fullNode cs fl)) as Hn by by constructor.
    destruct (slot_inhabited cs fl i c Hn Hc Hnc) as (k & v & Hk & Hf); [|by eauto].
    intros Hw. destruct (full_slot _ _ _ _ Hn Hc Hnc) as [Hi [[Hnib _]|[_ Hval]]].
    + apply (IH i c); [unfold is_nibble in Hnib; lia|done|by intros ->].
    + destruct c; try done. by inversion Hw.
Qed.
(** A full node forks. *)
Lemma full_fork n : wf n → is_full n →
  ∃ i j k1 k2 v1 v2, i ≠ j ∧ tkey (i :: k1) ∧ tkey (j :: k2) ∧ find n (i :: k1) = Some v1 ∧ find n (j :: k2) = Some v2.
Proof.
  intros Hn Hf. destruct n as [| | | |cs fl]; try done. inversion Hn as [| |x y _ _ _ Hocc]; subst.
  destruct (occupied_distinct cs Hocc) as (i & j & c & d & Hij & Hc & Hd & Hnc & Hnd).
  destruct (slot_inhabited cs fl i c Hn Hc Hnc (wf_inhabited c)) as (k1 & v1 & Hk1 & Hf1).
  destruct (slot_inhabited cs fl j d Hn Hd Hnd (wf_inhabited d)) as (k2 & v2 & Hk2 & Hf2).
  exists (Z.of_nat i), (Z.of_nat j), k1, k2, v1, v2. split_and!; [lia|done..].
Qed.

(** * Stems

    The part of the keys that all keys of a trie share, and what is below. *)
Definition stem (n : node) : list byte := match n with shortNode k _ _ => k | _ => [] end.
Definition trunk (n : node) : node := match n with shortNode _ val _ => val | _ => n end.

Lemma wf_cases n : wf n → (∃ k v fl, n = shortNode k (valueNode v) fl ∧ tkey k) ∨
  (Forall is_nibble (stem n) ∧ wf (trunk n) ∧ is_full (trunk n)).
Proof.
  intros Hn. destruct Hn as [k v fl Hk|k n fl Hk Hne Hf Hw|cs fl]; [left; by eauto|by right|right; cbn].
  split_and!; [constructor|by constructor|done].
Qed.
Lemma find_stem n k : wf n → find n (stem n ++ k) = find (trunk n) k.
Proof. destruct 1; [apply find_short_app..|done]. Qed.
Lemma find_stem_Some n k v : wf n → find n k = Some v → ∃ k', k = stem n ++ k' ∧ find (trunk n) k' = Some v.
Proof. destruct 1; [by intros ?%find_short_Some..|by exists k]. Qed.

Lemma prefix_fork {A} (p q : list A) i j k1 k2 a b :
  p ++ i :: k1 = q ++ a → p ++ j :: k2 = q ++ b → i ≠ j → ∃ r, p = q ++ r.
Proof.
  intros H1 H2 Hij. revert q H1 H2. induction p as [|x p IH]; intros [|y q] H1 H2; cbn in *.
  - by exists [].
  - congruence.
  - by exists (x :: p).
  - injection H1 as -> H1. injection H2 as H2. destruct (IH q H1 H2) as [r ->]. by exists r.
Qed.
(** The stem of a trie that forks is the longest one. *)
Lemma stem_longest n1 n2 : wf n1 → wf n2 → is_full (trunk n1) → wf (trunk n1) → Forall is_nibble (stem n1) →
  same_find n1 n2 → ∃ r, stem n1 = stem n2 ++ r.
Proof.
  intros H1 H2 Hf Hw Hs Heq. destruct (full_fork _ Hw Hf) as (i & j & k1 & k2 & v1 & v2 & Hij & Ht1 & Ht2 & Hf1 & Hf2).
  rewrite <- find_stem, Heq in Hf1, Hf2 by (done || by apply tkey_app).
  apply find_stem_Some in Hf1 as (a & Ha & _); [|done]. apply find_stem_Some in Hf2 as (b & Hb & _); [|done].
  exact (prefix_fork _ _ _ _ _ _ _ _ Ha Hb Hij).
Qed.
Lemma fork_not_leaf n k v fl : wf n → tkey k → is_full (trunk n) → wf (trunk n) → Forall is_nibble (stem n) →
  same_find n (shortNode k (valueNode v) fl) → False.
Proof.
  intros Hn Hk Hf Hw Hs Heq. destruct (full_fork _ Hw Hf) as (i & j & k1 & k2 & v1 & v2 & Hij & Ht1 & Ht2 & Hf1 & Hf2).
  rewrite <- find_stem, Heq in Hf1, Hf2 by (done || by apply tkey_app).
  rewrite find_leaf in Hf1, Hf2 by (done || by apply tkey_app). repeat case_decide; try done.
  assert (i :: k1 = j :: k2) as [=]; [|done]. apply (app_inv_head (stem n)). congruence.
Qed.
Lemma same_trunk n1 n2 : wf n1 → wf n2 → stem n1 = stem n2 → Forall is_nibble (stem n1) →
  same_find n1 n2 → same_find (trunk n1) (trunk n2).
Proof.
  intros H1 H2 Hs Hnib Heq k Hk. rewrite <- !find_stem by done. rewrite <- Hs. apply Heq. by apply tkey_app.
Qed.
Lemma same_find_sym n1 n2 : same_find n1 n2 → same_find n2 n1.
Proof. intros Heq k Hk. by rewrite Heq. Qed.

(** * Canonicity *)
Lemma nil_not_same n : wf n → ¬ same_find nilNode n.
Proof. intros Hn Heq. destruct (wf_inhabited n Hn) as (k & v & Hk & Hv). rewrite <- Heq in Hv by done. done. Qed.

(** Two full nodes agree child by child. *)
Lemma same_slot cs1 cs2 fl1 fl2 j c1 c2 :
  wf (fullNode cs1 fl1) → wf (fullNode cs2 fl2) → same_find (fullNode cs1 fl1) (fullNode cs2 fl2) →
  cs1 !! j = Some c1 → cs2 !! j = Some c2 →
  (is_nil c1 = false → is_nibble (Z.of_nat j) → ∀ n2, wf n2 → same_find c1 n2 → strip c1 = strip n2) →
  strip c1 = strip c2.
Proof.
  intros H1 H2 Heq Hc1 Hc2 IH.
  assert (∀ k, tkey (Z.of_nat j :: k) → find c1 k = find c2 k) as Hsub.
  { intros k Hk. specialize (Heq _ Hk). by rewrite (find_slot _ _ _ _ _ Hc1), (find_slot _ _ _ _ _ Hc2) in Heq. }
  assert (∀ cs fl c, wf (fullNode cs fl) → cs !! j = Some c → is_nil c = false →
    ∃ k v, tkey (Z.of_nat j :: k) ∧ find c k = Some v) as Hin.
  { intros cs fl c Hw Hc Hn. destruct (slot_inhabited _ _ _ _ Hw Hc Hn (wf_inhabited c)) as (k & v & Hk & Hv).
    rewrite (find_slot _ _ _ _ _ Hc) in Hv. by eauto. }
  destruct (is_nil c1) eqn:Hn1, (is_nil c2) eqn:Hn2.
  - by destruct c1, c2.
  - destruct (Hin _ _ _ H2 Hc2 Hn2) as (k & v & Hk & Hv). rewrite <- Hsub in Hv by done. by destruct c1.
  - destruct (Hin _ _ _ H1 Hc1 Hn1) as (k & v & Hk & Hv). rewrite Hsub in Hv by done. by destruct c2.
  - destruct (full_slot _ _ _ _ H1 Hc1 Hn1) as [Hj [[Hnib _]|[Ht Hv1]]], (full_slot _ _ _ _ H2 Hc2 Hn2) as [_ [[Hnib2 Hw2]|[Ht2 Hv2]]].
    + apply IH; [done|done|done|]. intros k Hk. apply Hsub. apply tkey_cons. by right.
    + rewrite Ht2 in Hnib. unfold is_nibble, terminator in Hnib. lia.
    + rewrite Ht in Hnib2. unfold is_nibble, terminator in Hnib2. lia.
    + assert (find c1 [] = find c2 []) as Hv by (apply Hsub, tkey_cons; by left). destruct c1; try done; destruct c2; try done; cbn in *; congruence.
Qed.

Lemma wf_canonical n1 : wf n1 → ∀ n2, wf n2 → same_find n1 n2 → strip n1 = strip n2.
Proof.
  intros Hn1. pose proof Hn1 as Hwf1. induction Hn1 as [k v fl Hk|k n fl Hk Hne Hf Hw IH|cs fl Hlen Hs IH Hv Hocc];
    intros n2 Hwf2 Heq; destruct (wf_cases n2 Hwf2) as [(k2 & v2 & fl2 & -> & Hk2)|(Hnib & Hw2 & Hf2)].
  - specialize (Heq _ Hk). rewrite !find_leaf, decide_True in Heq by done. case_decide; [|done]. cbn. congruence.
  - destruct (fork_not_leaf n2 k v fl); try done. by apply same_find_sym.
  - by destruct (fork_not_leaf _ k2 v2 fl2 Hwf1).
  - assert (stem n2 = k) as Hst.
    { destruct (stem_longest _ n2 Hwf1 Hwf2 Hf Hw Hk Heq) as [r Hr].
      destruct (stem_longest n2 _ Hwf2 Hwf1 Hf2 Hw2 Hnib (same_find_sym _ _ Heq)) as [r' Hr']. cbn [stem] in *.
      rewrite Hr' in Hr. rewrite <- app_assoc in Hr. apply (f_equal length) in Hr. rewrite !length_app in Hr.
      rewrite Hr'. destruct r'; [by rewrite app_nil_r|cbn in Hr; lia]. }
    assert (same_find n (trunk n2)) as Htr by by apply (same_trunk _ n2 Hwf1).
    destruct n2 as [| | |k2 val2 fl2|cs2 fl2]; cbn in Hst, Htr, Hw2, Hf2 |- *; try done.
    subst k2. by rewrite (IH Hw val2).
  - by destruct (fork_not_leaf _ k2 v2 fl2 Hwf1).
  - assert (stem n2 = []) as Hst.
    { destruct (stem_longest _ n2 Hwf1 Hwf2 ltac:(done) Hwf1 ltac:(constructor) Heq) as [r Hr]. by destruct (stem n2). }
    assert (is_full n2) as Hfull by (inversion Hwf2 as [k v fl2 Hk|k n fl2 Hk Hk0| ]; subst; cbn in Hst; try done; subst;
      by apply tkey_nonempty in Hk).
    destruct n2 as [| | | |cs2 fl2]; try done. inversion Hwf2 as [| |x y Hlen2 _ _ _]; subst. cbn. f_equal.
    apply list_eq_same_length with 17%nat; [by rewrite length_map..|].
    intros j d1 d2 Hj. rewrite !list_lookup_fmap, !fmap_Some. intros (c1 & Hc1 & ->) (c2 & Hc2 & ->).
    apply (same_slot cs cs2 fl fl2 j); try done. intros Hn1 Hj16 n2 Hw Hsub.
    assert (j < 16)%nat by (unfold is_nibble in Hj16; lia). assert (c1 ≠ nilNode) by by intros ->.
    by apply (IH j c1); [..|eapply Hs| |].
Qed.

(** The flags are all that a well-formed trie is free in. *)
Lemma wf_trie_canonical n1 n2 : wf_trie n1 → wf_trie n2 → same_find n1 n2 → strip n1 = strip n2.
Proof.
  intros [->|H1] [->|H2] Heq; [done|by destruct (nil_not_same n2)| |by apply wf_canonical].
  destruct (nil_not_same n1); [done|]. by apply same_find_sym.
Qed.
Lemma represents_canonical n1 n2 m : represents n1 m → represents n2 m → strip n1 = strip n2.
Proof.
  intros H1 H2. apply wf_trie_canonical; [by eapply rep_wf..|]. intros k Hk. apply option_eq. intros v.
  by rewrite (rep_find _ _ H1), (rep_find _ _ H2).
Qed.

(** two runs of operations that leave the same contents leave the same trie,
    up to cached hashes, whatever order they inserted and deleted in. *)
Theorem trie_history_independent db ops1 ops2 :
  Forall (λ o, Forall is_byte (op_key o)) ops1 → Forall (λ o, Forall is_byte (op_key o)) ops2 →
  (map_ops ∅ ops1).2 = (map_ops ∅ ops2).2 →
  strip (run_ops db nilNode ops1).2 = strip (run_ops db nilNode ops2).2.
Proof.
  intros H1 H2 Heq.
  destruct (run_ops_represents db nilNode ∅ ops1 represents_empty H1) as (n1 & -> & Hr1).
  destruct (run_ops_represents db nilNode ∅ ops2 represents_empty H2) as (n2 & -> & Hr2).
  rewrite <- Heq in Hr2. by eapply represents_canonical.
Qed.
