(* ===== verification/TrieRoot.v ===== *)
(** The root hash of a trie in memory: the hasher computes the hash that the
    shape of the trie defines, hashes cached in flags included, so that the root
    hash is a function of the contents. *)
From S2P Require Import Prelude Types TrieEncoding Trie TrieMemory TrieMap.

(** * Merkle hashes by definition *)
Definition compact_key (k : list byte) : list byte := match hexToCompact (E := unit) k with Ok c => c | _ => [] end.
Definition is_branch (n : node) : bool := match n with shortNode _ _ _ | fullNode _ _ => true | _ => false end.

Section merkle.
Context `{NodeDigest}.
Definition large (i : rlp_item) : bool := (32 <=? length (rlp_Encode i))%nat.
Definition digest (i : rlp_item) : Hash := keccak256 (rlp_Encode i).
(** A large node is referred to by its hash, a small one is spelled out. *)
Definition reference (n : node) (i : rlp_item) : rlp_item :=
  if is_branch n && large i then rStr (array_bytes HashLength (digest i)) else i.
Fixpoint merkle (n : node) : rlp_item :=
  match n with
  | nilNode => rStr []
  | hashNode h => rStr (array_bytes HashLength h)
  | valueNode v => rStr v
  | shortNode k val _ => rList [rStr (compact_key k); reference val (merkle val)]
  | fullNode cs _ => rList (map (λ c, reference c (merkle c)) cs)
  end.
Definition root_hash (n : node) : Hash := match n with nilNode => emptyRoot | _ => digest (merkle n) end.

Lemma is_branch_strip n : is_branch (strip n) = is_branch n.
Proof. by destruct n. Qed.
End merkle.

Section node_induction.
Context (P : node → Prop) (Hnil : P nilNode) (Hhash : ∀ h, P (hashNode h)) (Hvalue : ∀ v, P (valueNode v))
  (Hshort : ∀ k val fl, P val → P (shortNode k val fl)) (Hfull : ∀ cs fl, Forall P cs → P (fullNode cs fl)).
(** Induction over nodes and their children. *)
Fixpoint node_nested_ind (n : node) : P n :=
  match n with
  | nilNode => Hnil
  | hashNode h => Hhash h
  | valueNode v => Hvalue v
  | shortNode k val fl => Hshort k val fl (node_nested_ind val)
  | fullNode cs fl => Hfull cs fl
      ((fix go cs : Forall P cs := match cs with [] => Forall_nil_2 P | c :: cs => Forall_cons_2 P c cs (node_nested_ind c) (go cs) end) cs)
  end.
End node_induction.

(** Flags do not matter to hashes, lookups and shapes. *)
Lemma merkle_strip `{NodeDigest} n : merkle (strip n) = merkle n.
Proof.
  induction n as [| | |k val fl IH|cs fl IH] using node_nested_ind; [done..| |]; cbn.
  - unfold reference. by rewrite IH, is_branch_strip.
  - f_equal. rewrite map_map. apply map_ext_Forall. eapply Forall_impl; [exact IH|]. intros c Hc. cbn.
    unfold reference. by rewrite Hc, is_branch_strip.
Qed.
Lemma merkle_same `{NodeDigest} n1 n2 : strip n1 = strip n2 → merkle n1 = merkle n2.
Proof. intros Heq. by rewrite <- merkle_strip, Heq, merkle_strip. Qed.
Lemma find_strip n k : find (strip n) k = find n k.
Proof.
  revert k. induction n as [| | |key val fl IH|cs fl IH] using node_nested_ind; intros k; [done..| |]; cbn [strip].
  - rewrite !find_short. by case_bool_decide.
  - destruct k as [|i k]; [done|]. rewrite !find_full, list_lookup_fmap. destruct (cs !! Z.to_nat i) as [c|] eqn:Hc; [|done].
    cbn. rewrite Forall_lookup in IH. by eapply IH.
Qed.
Lemma is_nil_strip n : is_nil (strip n) = is_nil n.
Proof. by destruct n. Qed.
Lemma occupied_strip cs : occupied (map strip cs) = occupied cs.
Proof. induction cs as [|c cs IH]; [done|]. cbn [map]. by rewrite !occupied_cons, is_nil_strip, IH. Qed.
Lemma strip_lookup cs1 cs2 i c2 : map strip cs1 = map strip cs2 → cs2 !! i = Some c2 → ∃ c1, cs1 !! i = Some c1 ∧ strip c1 = strip c2.
Proof.
  intros Heq Hc. assert (map strip cs1 !! i = Some (strip c2)) as Hl by by rewrite Heq, list_lookup_fmap, Hc.
  rewrite list_lookup_fmap in Hl. destruct (cs1 !! i) as [c1|]; [|done]. injection Hl as Hl. by exists c1.
Qed.
Lemma wf_same n1 : wf n1 → ∀ n2, strip n1 = strip n2 → wf n2.
Proof.
  induction 1 as [k v fl Hk|k n fl Hk Hne Hf Hw IH|cs fl Hlen Hs IH Hv Hocc]; intros n2 Heq.
  - destruct n2 as [| | |k2 [] fl2|]; try done. injection Heq as <- <-. by apply wf_leaf.
  - destruct n2 as [| | |k2 val fl2|]; try done. injection Heq as <- Heq. apply wf_extension; [done|done| |by apply IH].
    by destruct n, val.
  - destruct n2 as [| | | |cs2 fl2]; try done. injection Heq as Heq. apply wf_full.
    + apply (f_equal length) in Heq. rewrite !length_map in Heq. congruence.
    + intros i c Hi Hc Hn. destruct (strip_lookup _ _ _ _ Heq Hc) as (c1 & Hc1 & Hst). apply (IH i c1); [done|done| |done].
      intros ->. by destruct c.
    + intros c Hc Hn. destruct (strip_lookup _ _ _ _ Heq Hc) as (c1 & Hc1 & Hst).
      assert (is_value c1) by (apply (Hv c1 Hc1); intros ->; by destruct c). by destruct c1, c.
    + by rewrite <- occupied_strip, <- Heq, occupied_strip.
Qed.
Lemma represents_same n1 n2 m : represents n1 m → strip n1 = strip n2 → represents n2 m.
Proof.
  intros [Hwf Hf Hb] Heq. split; [|intros hk v Hk|done].
  - destruct Hwf as [->|Hw]; [left; by destruct n2|right; by eapply wf_same].
  - by rewrite <- find_strip, <- Heq, find_strip, Hf.
Qed.

(** * Flags that can be trusted

    A cached hash is the node's.  Below the root it is also the reference the
    parent uses: a node that is spelled out in its parent has no cached hash.
    The root may, because the root is hashed whatever its size. *)
Section flags.
Context `{NodeDigest}.
Definition flag_ok (root : bool) (n : node) : Prop :=
  ∀ h, (cache n).1 = Some h → h = digest (merkle n) ∧ (root = false → large (merkle n) = true).
Inductive flags_ok : bool → node → Prop :=
  | flags_nil b : flags_ok b nilNode
  | flags_hash b h : flags_ok b (hashNode h)
  | flags_value b v : flags_ok b (valueNode v)
  | flags_short b k val fl : flag_ok b (shortNode k val fl) → flags_ok false val → flags_ok b (shortNode k val fl)
  | flags_full b cs fl : flag_ok b (fullNode cs fl) → (∀ i c, cs !! i = Some c → flags_ok false c) → flags_ok b (fullNode cs fl).

Lemma flags_root n : flags_ok false n → flags_ok true n.
Proof. destruct 1 as [| | |b k val fl Hf|b cs fl Hf]; constructor; try done; intros h Hh; by destruct (Hf h Hh). Qed.
Lemma flags_weaken b n : flags_ok false n → flags_ok b n.
Proof. destruct b; [apply flags_root|done]. Qed.
Lemma flag_ok_new b k val : flag_ok b (shortNode k val newFlag).
Proof. by intros h. Qed.
Lemma flag_ok_new_full b cs : flag_ok b (fullNode cs newFlag).
Proof. by intros h. Qed.
Lemma flags_short_new b k val : flags_ok false val → flags_ok b (shortNode k val newFlag).
Proof. constructor; [apply flag_ok_new|done]. Qed.
Lemma flags_full_new b cs : (∀ i c, cs !! i = Some c → flags_ok false c) → flags_ok b (fullNode cs newFlag).
Proof. constructor; [apply flag_ok_new_full|done]. Qed.
Lemma flags_short_val b k val fl : flags_ok b (shortNode k val fl) → flags_ok false val.
Proof. by inversion 1. Qed.
Lemma flags_child b cs fl i c : flags_ok b (fullNode cs fl) → cs !! i = Some c → flags_ok false c.
Proof. inversion 1; subst. eauto. Qed.
Lemma flags_set cs j c :
  (∀ i d, cs !! i = Some d → flags_ok false d) → flags_ok false c → ∀ i d, set_child cs j c !! i = Some d → flags_ok false d.
Proof.
  intros Hcs Hc i d. unfold set_child. intros Hd. apply list_lookup_insert_Some in Hd as [(_ & <- & _)|[_ Hd]]; [done|by eapply Hcs].
Qed.
Lemma flags_empty i d : empty_children !! i = Some d → flags_ok false d.
Proof. intros [-> _]%lookup_replicate. constructor. Qed.
Lemma get_child_Ok {E} cs i c : get_child (E := E) cs i = Ok c → cs !! Z.to_nat i = Some c.
Proof. unfold get_child. destruct ((i <? 0) || (17 <=? i)); [done|]. destruct (cs !! Z.to_nat i); [congruence|done]. Qed.
End flags.

(** Operations keep the flags right: what they build has no cached hash, and a
    node is only moved from below the root to below the root. *)
Section operations.
Context `{NodeDigest} (db : Hash → option node) (Hdb : ∀ h n, db h = Some n → flags_ok false n).

Lemma resolveHash_flags h prefix n : resolveHash db h prefix = Ok n → flags_ok false n.
Proof. unfold resolveHash. destruct (db h) eqn:Hh; [|done]. intros [= <-]. by eapply Hdb. Qed.

Lemma insert_flags fuel b n prefix key v d n' :
  insert db fuel n prefix key v = Ok (d, n') → flags_ok b n → flags_ok false v → flags_ok b n'.
Proof.
  revert b n prefix key v d n'. induction fuel as [|fuel IH]; intros b n prefix key v d n'; [done|]. cbn [insert].
  destruct key as [|i key].
  { intros Hrun _ Hv. apply flags_weaken. destruct n, v; congruence. }
  destruct n as [|h|w|k val fl|cs fl]; [|intros Hrun Hn Hv; go_inv Hrun| |intros Hrun Hn Hv..].
  - intros [= <- <-] _ Hv. by apply flags_short_new.
  - destruct a0 as [d0 nn]. apply resolveHash_flags in Hm. apply (flags_weaken b) in Hm.
    apply (IH b) in Hm0; [|done|done]. destruct d0; simplify_eq Hrun; by intros <- <-.
  - done.
  - case_bool_decide as Hk.
    + go_inv Hrun. destruct a as [d0 nn]. apply (IH false) in Hm; [|by eapply flags_short_val|done].
      destruct d0; simplify_eq Hrun; intros <- <-; [by apply flags_short_new|done].
    + destruct (k !! _) as [kb|]; [|done]. destruct (_ !! _) as [keyb|]; [|done]. apply flags_short_val in Hn.
      apply result_bind_ok in Hrun as ([d1 old] & Hold & Hrun). apply result_bind_ok in Hrun as (? & _ & Hrun).
      apply result_bind_ok in Hrun as ([d2 new] & Hnew & Hrun). apply result_bind_ok in Hrun as (? & _ & Hrun).
      apply (IH false) in Hold; [|constructor|done]. apply (IH false) in Hnew; [|constructor|done].
      assert (∀ b, flags_ok b (fullNode (set_child (set_child empty_children kb old) keyb new) newFlag)) as Hfull.
      { intros b'. apply flags_full_new, flags_set; [|done]. apply flags_set; [apply flags_empty|done]. }
      revert Hrun. case_bool_decide; intros [= <- <-]; [apply Hfull|]. by apply flags_short_new.
  - go_inv Hrun. destruct a0 as [d0 nn]. apply get_child_Ok in Hm.
    apply (IH false) in Hm0; [|by eapply flags_child|done].
    destruct d0; simplify_eq Hrun; intros <- <-; [|done]. apply flags_full_new, flags_set; [|done].
    intros j c Hc. by eapply flags_child.
Qed.

Lemma delete_flags fuel b n prefix key d n' :
  delete db fuel n prefix key = Ok (d, n') → flags_ok b n → flags_ok b n'.
Proof.
  revert b n prefix key d n'. induction fuel as [|fuel IH]; intros b n prefix key d n'; [done|]. cbn [delete].
  destruct n as [|h|w|k val fl|cs fl]; intros Hrun Hn.
  - by injection Hrun as <- <-.
  - go_inv Hrun. destruct a0 as [d0 nn]. apply resolveHash_flags in Hm. apply (flags_weaken b) in Hm.
    apply (IH b) in Hm0; [|done]. destruct d0; simplify_eq Hrun; by intros <- <-.
  - injection Hrun as <- <-. constructor.
  - revert Hrun. case_bool_decide; [by intros [= <- <-]|]. case_bool_decide; [intros [= <- <-]; constructor|]. intros Hrun.
    go_inv Hrun. destruct a as [d0 child]. apply (IH false) in Hm; [|by eapply flags_short_val].
    destruct d0; cbn [negb] in Hrun; [|by injection Hrun as <- <-].
    destruct child; injection Hrun as <- <-; apply flags_short_new; try done. by eapply flags_short_val.
  - destruct key as [|i key]; [done|]. go_inv Hrun. destruct a0 as [d0 nn]. apply get_child_Ok in Hm.
    apply (IH false) in Hm0; [|by eapply flags_child].
    destruct d0; cbn [negb] in Hrun; [|by injection Hrun as <- <-].
    assert (∀ j c, set_child cs i nn !! j = Some c → flags_ok false c) as Hset.
    { apply flags_set; [|done]. intros j c Hc. by eapply flags_child. }
    destruct (0 <=? _); [|injection Hrun as <- <-; by apply flags_full_new].
    apply result_bind_ok in Hrun as (last_child & Hm1 & Hrun). apply get_child_Ok, Hset in Hm1.
    destruct (negb _); [|injection Hrun as <- <-; by apply flags_short_new].
    apply result_bind_ok in Hrun as (cnode & Hm2 & Hrun). assert (flags_ok false cnode) as Hc.
    { destruct last_child; cbn in Hm2; try (injection Hm2 as <-; done). by eapply resolveHash_flags. }
    destruct cnode; injection Hrun as <- <-; apply flags_short_new; try done. by eapply flags_short_val.
Qed.
End operations.

(** * The hasher *)
Section hashing.
Context `{NodeDigest} (storing onleaf : bool).

(** What the encoder is given for a node. *)
Definition collapses (n collapsed : node) : Prop :=
  EncodeRLP collapsed = merkle n ∧ cache collapsed = cache n ∧ is_branch collapsed = true.
(** The result for a node: its hash, or the collapsed node if it is small. *)
Definition hashed_as (root : bool) (n hashed : node) : Prop :=
  if root || large (merkle n) then hashed = hashNode (digest (merkle n))
  else is_branch hashed = true ∧ EncodeRLP hashed = merkle n.
Definition child_item (c : node) : rlp_item := if is_nil c then rStr [] else EncodeRLP c.
Definition children_ok (n : node) : Prop :=
  match n with
  | shortNode _ val _ => flags_ok false val
  | fullNode cs _ => ∀ i c, cs !! i = Some c → flags_ok false c
  | _ => True
  end.
Definition hash_good (b : bool) (n : node) : Prop := ∀ calls, ∃ hashed cached calls',
  hash storing onleaf n b calls = (Ok (hashed, cached), calls') ∧ hashed_as b n hashed ∧
  (storing = false → strip cached = strip n ∧ flags_ok b cached ∧ calls' = calls).

Lemma large_length i : large i = negb (Z.of_nat (length (rlp_Encode i)) <? 32).
Proof. unfold large. destruct (Nat.leb_spec 32 (length (rlp_Encode i))), (Z.ltb_spec (Z.of_nat (length (rlp_Encode i))) 32); cbn; lia. Qed.
Lemma hasher_store_ok b n c calls : collapses n c → flag_ok b n →
  ∃ hashed calls', store storing onleaf c b calls = (Ok hashed, calls') ∧ hashed_as b n hashed ∧ (storing = false → calls' = calls).
Proof.
  intros (Hitem & Hcache & Hbranch) Hflag.
  assert (store storing onleaf c b calls = (if negb (large (merkle n)) && negb b then mret c else
    _ ← (if storing then modify (λ calls, calls ++ DbInsert (digest (merkle n)) (rlp_Encode (merkle n)) c ::
           if onleaf then leaf_calls c (digest (merkle n)) else []) else mret tt);
    mret (hashNode (digest (merkle n)))) calls) as ->.
  { rewrite large_length, negb_involutive. unfold store, digest. rewrite Hcache, Hitem.
    destruct (cache n).1 as [h|] eqn:Hh; [destruct (Hflag h Hh) as [-> _]|]; by destruct c. }
  unfold hashed_as. destruct (large (merkle n)), b; cbn [negb andb orb]; destruct storing; eexists _, _; (split; [done|by split]).
Qed.

Lemma hash_eq n b : is_branch n = true → hash storing onleaf n b =
  let walk :=
    '(collapsed, cached) ← hashChildren (λ c, hash storing onleaf c false) n;
    hashed ← store storing onleaf collapsed b;
    mret (hashed, with_flags (λ flags, mkFlag (match hashed with hashNode h => Some h | _ => None end) (if storing then false else fDirty flags)) cached) in
  match cache n with
  | (Some h, dirty) =>
      if negb storing then mret (hashNode h, n)
      else if negb dirty then mret (hashNode h, hashNode h) else walk
  | (None, _) => walk
  end.
Proof. by destruct n. Qed.

(** The flags set on the way back are right. *)
Lemma flags_after b n hashed cached dirty :
  hashed_as b n hashed → strip cached = strip n → children_ok cached → is_branch n = true →
  flags_ok b (with_flags (λ flags, mkFlag (match hashed with hashNode h => Some h | _ => None end) (dirty flags)) cached).
Proof.
  intros Hh Hs Hc Hb. apply merkle_same in Hs as Hm.
  assert (∀ n', merkle n' = merkle n → (cache n').1 = match hashed with hashNode h => Some h | _ => None end →
    flag_ok b n') as Hflag.
  { intros n' Hn' Hcn h Hch. rewrite Hcn in Hch. rewrite Hn'. unfold hashed_as in Hh.
    destruct b, (large (merkle n)); cbn [orb] in Hh; subst; try (injection Hch as <-; by split).
    destruct Hh as [Hh _]. by destruct hashed. }
  destruct cached as [| | |k val fl|cs fl]; try (by destruct n); cbn [with_flags].
  - constructor; [|done]. by apply Hflag.
  - constructor; [|done]. by apply Hflag.
Qed.

Lemma hash_step b n : is_branch n = true → flags_ok b n →
  (∀ calls, ∃ collapsed cached calls', hashChildren (λ c, hash storing onleaf c false) n calls = (Ok (collapsed, cached), calls') ∧
    collapses n collapsed ∧ (storing = false → strip cached = strip n ∧ children_ok cached ∧ calls' = calls)) →
  hash_good b n.
Proof.
  intros Hb Hn Hwalk calls. assert (flag_ok b n) as Hflag by by destruct Hn. rewrite hash_eq by done.
  assert (∀ P : node → node → list store_call → Prop,
    (∀ hashed cached calls', hashed_as b n hashed → (storing = false → strip cached = strip n ∧ flags_ok b cached ∧ calls' = calls) →
      P hashed cached calls') →
    ∃ hashed cached calls', ('(collapsed, cached) ← hashChildren (λ c, hash storing onleaf c false) n;
      hashed ← store storing onleaf collapsed b;
      mret (hashed, with_flags (λ flags, mkFlag (match hashed with hashNode h => Some h | _ => None end)
        (if storing then false else fDirty flags)) cached)) calls = (Ok (hashed, cached), calls') ∧ P hashed cached calls') as Hw.
  { intros P HP. destruct (Hwalk calls) as (c & ca & calls1 & Hrun & Hcol & Hca). rewrite (gom_bind_run _ _ _ _ _ Hrun).
    destruct (hasher_store_ok b n c calls1 Hcol Hflag) as (hashed & calls2 & Hst & Hh & Hcalls). rewrite (gom_bind_run _ _ _ _ _ Hst).
    eexists hashed, _, calls2. split; [done|]. apply HP; [done|]. intros Hns. destruct (Hca Hns) as (Hs & Hok & ->).
    rewrite Hcalls by done. split; [by rewrite <- Hs; destruct ca|]. split; [|done]. by apply (flags_after b n). }
  assert (∀ h, (cache n).1 = Some h → hashed_as b n (hashNode h)) as Hcached.
  { intros h Hh. destruct (Hflag h Hh) as [-> Hl]. unfold hashed_as. destruct b; [done|]. by rewrite Hl. }
  cbv zeta. destruct (cache n) as [[h|] dirty] eqn:Hca.
  - destruct storing eqn:Hst; cbn [negb].
    + destruct dirty; cbn [negb]; [apply (Hw (λ hashed cached calls', _)); by split|].
      exists (hashNode h), (hashNode h), calls. split; [done|]. split; [by apply Hcached|done].
    + exists (hashNode h), n, calls. split; [done|]. split; [by apply Hcached|done].
  - apply (Hw (λ hashed cached calls', _)). by split.
Qed.

(** The references in an encoded parent. *)
Lemma hashed_item n hashed : is_branch n = true → hashed_as false n hashed → child_item hashed = reference n (merkle n).
Proof.
  unfold hashed_as, reference. intros ->. cbn [orb andb]. destruct (large (merkle n)); [by intros ->|].
  intros [Hb <-]. by destruct hashed.
Qed.
Lemma hashed_item_plain n hashed : is_branch n = true → hashed_as false n hashed → EncodeRLP hashed = reference n (merkle n).
Proof.
  intros Hb Hh. rewrite <- (hashed_item n hashed) by done. unfold hashed_as in Hh.
  destruct (large (merkle n)); cbn [orb] in Hh; [by subst|]. destruct Hh as [Hh _]. by destruct hashed.
Qed.
Lemma wf_is_branch n : wf n → is_branch n = true.
Proof. by destruct 1. Qed.

Lemma hash_loop_ok i cs calls :
  (∀ j c, cs !! j = Some c →
    (c = nilNode ∨ is_value c ∧ (16 ≤ i + j)%nat) ∨ (i + j < 16)%nat ∧ is_branch c = true ∧ hash_good false c) →
  ∃ collapsed cached calls', hash_loop (λ c, hash storing onleaf c false) i cs calls = (Ok (collapsed, cached), calls') ∧
    map child_item collapsed = map (λ c, reference c (merkle c)) cs ∧
    (storing = false → map strip cached = map strip cs ∧ (∀ j c, cached !! j = Some c → flags_ok false c) ∧ calls' = calls).
Proof.
  revert i calls. induction cs as [|c cs IH]; intros i calls Hcs; [by exists [], [], calls|]. cbn [hash_loop].
  assert (∃ hc hca calls1,
    (if bool_decide (i < 16)%nat && negb (is_nil c) then hash storing onleaf c false else mret (c, c)) calls = (Ok (hc, hca), calls1) ∧ child_item hc = reference c (merkle c) ∧
    (storing = false → strip hca = strip c ∧ flags_ok false hca ∧ calls1 = calls)) as (hc & hca & calls1 & Hhd & Hitem & Hone).
  { destruct (Hcs O c eq_refl) as [[->|[Hv Hi]]|(Hi & Hb & Hg)].
    - rewrite andb_false_r. exists nilNode, nilNode, calls. split_and!; [done..|]. intros _. split_and!; [done|constructor|done].
    - rewrite bool_decide_false by lia. exists c, c, calls. destruct c; try done. split_and!; [done..|].
      intros _. split_and!; [done|constructor|done].
    - rewrite bool_decide_true by lia. destruct (Hg calls) as (hashed & cached & calls' & Hrun & Hh & Hca).
      exists hashed, cached, calls'. split; [by destruct c|]. split; [by apply hashed_item|done]. }
  destruct (IH (S i) calls1) as (cl & ca & calls2 & Hrun & Hitems & Hrest).
  { intros j d Hd. specialize (Hcs (S j) d Hd). by replace (S i + j)%nat with (i + S j)%nat by lia. }
  exists (hc :: cl), (hca :: ca), calls2. split.
  { rewrite (gom_bind_run _ _ _ _ _ Hhd). by rewrite (gom_bind_run _ _ _ _ _ Hrun). }
  split; [by cbn; rewrite Hitem, Hitems|]. intros Hns. destruct (Hone Hns) as (Hs1 & Hf1 & ->), (Hrest Hns) as (Hs2 & Hf2 & ->).
  split_and!; [by cbn; rewrite Hs1, Hs2| |done]. intros [|j] d Hd; [by injection Hd as <-|by eapply Hf2].
Qed.

Lemma compact_key_ok k : Forall is_nibble k ∨ tkey k → hexToCompact (E := unit) k = Ok (compact_key k).
Proof.
  intros Hk. unfold compact_key. assert (∃ c, hexToCompact (E := unit) k = Ok c) as [c Hc]; [|by rewrite Hc].
  destruct Hk as [Hk|(l & Hl & ->)].
  - destruct (compact_shape k false Hk) as (c & Hc & _). rewrite app_nil_r in Hc. by exists c.
  - destruct (compact_shape l true Hl) as (c & Hc & _). by exists c.
Qed.

Lemma hash_ok n : wf n → ∀ b, flags_ok b n → hash_good b n.
Proof.
  induction 1 as [k v fl Hk|k n fl Hk Hne Hf Hw IH|cs fl Hlen Hs IH Hv Hocc]; intros b Hn; (apply hash_step; [done|done|]);
    intros calls; cbn [hashChildren].
  - rewrite compact_key_ok by by right. eexists _, _, calls. split; [done|]. split; [by split|]. intros _.
    split_and!; [done|constructor|done].
  - destruct (IH false (flags_short_val _ _ _ _ Hn) calls) as (hc & hca & calls1 & Hrun & Hh & Hca).
    rewrite compact_key_ok by by left. exists (shortNode (compact_key k) hc fl), (shortNode k hca fl), calls1. split.
    { destruct n; try done. unfold mbind, gom_bind, lift. by rewrite Hrun. }
    split.
    { split; [|done]. cbn. by rewrite (hashed_item_plain n hc) by (done || by apply wf_is_branch). }
    intros Hns. destruct (Hca Hns) as (Hst & Hok & ->). split_and!; [cbn; by rewrite Hst|done|done].
  - assert (wf (fullNode cs fl)) as Hwf by by constructor.
    destruct (hash_loop_ok 0 cs calls) as (cl & ca & calls1 & Hrun & Hitems & Hca).
    { intros j c Hc. destruct (is_nil c) eqn:Hnil; [left; left; by destruct c|].
      destruct (full_slot _ _ _ _ Hwf Hc Hnil) as [Hj [[Hnib Hw]|[Ht Hval]]].
      - right. unfold is_nibble in Hnib. split; [lia|]. split; [by apply wf_is_branch|].
        apply (IH j c); [lia|done|by intros ->|by eapply flags_child].
      - left. right. split; [done|]. unfold terminator in Ht. lia. }
    exists (fullNode cl fl), (fullNode ca fl), calls1. split; [by rewrite (gom_bind_run _ _ _ _ _ Hrun)|].
    split; [split; [cbn; f_equal; exact Hitems|done]|]. intros Hns. destruct (Hca Hns) as (Hst & Hok & ->).
    split_and!; [cbn; by rewrite Hst|done|done].
Qed.

(** [Hash] and [Commit] return the root hash that the shape defines. *)
Lemma RootHash_ok n calls : wf_trie n → flags_ok true n → ∃ root calls',
  RootHash storing onleaf n calls = (Ok (root_hash n, root), calls') ∧
  (storing = false → strip root = strip n ∧ flags_ok true root ∧ calls' = calls).
Proof.
  intros [->|Hn] Hf; [by exists nilNode, calls|].
  destruct (hash_ok n Hn true Hf calls) as (hashed & cached & calls' & Hrun & Hh & Hca). cbn in Hh. subst hashed.
  exists cached, calls'. split; [|done]. unfold RootHash, hashRoot.
  assert (root_hash n = digest (merkle n)) as -> by by destruct Hn.
  assert ((match n with nilNode => mret (hashNode emptyRoot, nilNode) | _ => hash storing onleaf n true end) calls =
    (Ok (hashNode (digest (merkle n)), cached), calls')) as Hroot by by destruct Hn.
  by rewrite (gom_bind_run _ _ _ _ _ Hroot).
Qed.
End hashing.

(** * Runs with hashing in between *)
Inductive hash_op := Edit (o : trie_op) | AskHash.
Definition hash_op_ok (o : hash_op) : Prop := match o with Edit o => Forall is_byte (op_key o) | AskHash => True end.

Section runs.
Context `{NodeDigest} (db : Hash → option node).

Definition run_hash_op (root : node) (o : hash_op) : node :=
  match o with
  | Edit o => (run_op db root o).2
  | AskHash => match Trie_Hash root with Ok (_, root) => root | _ => root end
  end.
Definition run_hash_ops (root : node) (ops : list hash_op) : node := foldl run_hash_op root ops.
(** What the run leaves in the trie: hashing changes nothing. *)
Definition final_map (m : gmap (list byte) (list byte)) (ops : list hash_op) : gmap (list byte) (list byte) :=
  foldl (λ m o, match o with Edit o => (map_op m o).2 | AskHash => m end) m ops.

Context (Hdb : ∀ h n, db h = Some n → flags_ok false n).

Lemma run_op_flags n m o : represents n m → Forall is_byte (op_key o) → flags_ok true n → flags_ok true (run_op db n o).2.
Proof.
  intros Hr Hk Hn. destruct o as [k|k v|k]; cbn [run_op].
  - by rewrite (TryGet_represents db n m).
  - unfold TryUpdate. case_bool_decide.
    + destruct (insert _ _ _ _ _ _) as [[d n']|e|p] eqn:Hrun; [|done..]. eapply insert_flags in Hrun; [done|done|done|constructor].
    + unfold TryDelete. destruct (delete _ _ _ _ _) as [[d n']|e|p] eqn:Hrun; [|done..]. by eapply delete_flags in Hrun.
  - unfold TryDelete. destruct (delete _ _ _ _ _) as [[d n']|e|p] eqn:Hrun; [|done..]. by eapply delete_flags in Hrun.
Qed.
Lemma run_hash_ops_ok n m ops : represents n m → flags_ok true n → Forall hash_op_ok ops →
  represents (run_hash_ops n ops) (final_map m ops) ∧ flags_ok true (run_hash_ops n ops).
Proof.
  intros Hr Hf Hops. revert n m Hr Hf. induction Hops as [|o ops Ho _ IH]; intros n m Hr Hf; [done|].
  apply IH; destruct o as [o|]; cbn [run_hash_op].
  - by destruct (run_op_represents db n m o Hr Ho) as (n' & -> & Hr').
  - unfold Trie_Hash. destruct (RootHash_ok false false n [] (rep_wf _ _ Hr) Hf) as (root & calls & -> & Hsame).
    destruct (Hsame eq_refl) as (Hs & _). by eapply represents_same.
  - by eapply run_op_flags.
  - unfold Trie_Hash. destruct (RootHash_ok false false n [] (rep_wf _ _ Hr) Hf) as (root & calls & -> & Hsame).
    by destruct (Hsame eq_refl) as (_ & Hroot & _).
Qed.

(** C31: the root hash depends on nothing but the contents.  After any two runs of
    updates, deletions, lookups and hash computations that leave the same map,
    [Hash] succeeds on both tries with the hash that the map's trie defines, and
    a [Commit] of either returns it too. *)
Theorem root_hash_of_contents ops1 ops2 onleaf :
  Forall hash_op_ok ops1 → Forall hash_op_ok ops2 → final_map ∅ ops1 = final_map ∅ ops2 →
  ∃ h root1 root2 committed,
    Trie_Hash (run_hash_ops nilNode ops1) = Ok (h, root1) ∧ Trie_Hash (run_hash_ops nilNode ops2) = Ok (h, root2) ∧
    (Trie_Commit onleaf (run_hash_ops nilNode ops2)).1 = Ok (h, committed) ∧
    represents root1 (final_map ∅ ops1) ∧ represents root2 (final_map ∅ ops1).
Proof.
  intros H1 H2 Heq.
  destruct (run_hash_ops_ok nilNode ∅ ops1 represents_empty ltac:(constructor) H1) as [Hr1 Hf1].
  destruct (run_hash_ops_ok nilNode ∅ ops2 represents_empty ltac:(constructor) H2) as [Hr2 Hf2].
  rewrite <- Heq in Hr2. revert Hr1 Hf1 Hr2 Hf2. generalize (run_hash_ops nilNode ops1) as n1.
  generalize (run_hash_ops nilNode ops2) as n2. intros n2 n1 Hr1 Hf1 Hr2 Hf2.
  pose proof (represents_canonical n1 n2 _ Hr1 Hr2) as Hs.
  assert (root_hash n1 = root_hash n2) as Hroot.
  { unfold root_hash. rewrite (merkle_same n1 n2) by done. by destruct n1, n2. }
  unfold Trie_Hash, Trie_Commit.
  destruct (RootHash_ok false false n1 [] (rep_wf _ _ Hr1) Hf1) as (r1 & c1 & -> & Hs1).
  destruct (RootHash_ok false false n2 [] (rep_wf _ _ Hr2) Hf2) as (r2 & c2 & -> & Hs2).
  destruct (RootHash_ok true onleaf n2 [] (rep_wf _ _ Hr2) Hf2) as (r3 & c3 & -> & _).
  exists (root_hash n1), r1, r2, r3. cbn. rewrite Hroot. destruct (Hs1 eq_refl) as (? & _), (Hs2 eq_refl) as (? & _).
  split_and!; [done..|by apply (represents_same n1)|by apply (represents_same n2)].
Qed.
End runs.
