(* ===== verification/Memorydb.v ===== *)
(** The in-memory database of a node ([ethdb/memorydb]) and the layout of the
    chain in it ([core/rawdb/schema.go]): keys, and that no two entries share
    one.  The store is never closed while the node runs. *)
From S2P Require Import Prelude Types.

(** * The store

    A batch is the writes it will perform. *)
Abbreviation Database := (gmap (list byte) (list byte)).
Inductive keyvalue := PutKey (key value : list byte) | DeleteKey (key : list byte).
Definition Has (db : Database) (key : list byte) : bool := bool_decide (is_Some (db !! key)).
Definition db_Get (db : Database) (key : list byte) : option (list byte) := db !! key.
Definition db_write (db : Database) (kv : keyvalue) : Database :=
  match kv with PutKey k v => <[k := v]> db | DeleteKey k => delete k db end.
(** [batch.Write]; a writer that is the database itself is written at once. *)
Definition batch_Write (b : list keyvalue) (db : Database) : Database := foldl db_write db b.
Definition write_size (kv : keyvalue) : Z := match kv with PutKey _ v => Z.of_nat (length v) | DeleteKey _ => 1 end.
Definition ValueSize (b : list keyvalue) : Z := foldr Z.add 0 (write_size <$> b).
(** [ethdb/batch.go] *)
Definition IdealBatchSize : Z := 100 * 1024.

Lemma batch_Write_app b b' db : batch_Write (b ++ b') db = batch_Write b' (batch_Write b db).
Proof. apply foldl_app. Qed.

(** * Bytes of hashes and numbers *)
Definition is_hash (h : Hash) : Prop := 0 ≤ h < 256 ^ 32.
Definition Hash_Bytes (h : Hash) : list byte := array_bytes HashLength h.
Definition BytesToHash (b : list byte) : Hash := bytes_array (drop (length b - HashLength) b).
Definition str_bytes (s : string) : list byte := (λ c, Z.of_N (Ascii.N_of_ascii c)) <$> String.list_ascii_of_string s.

Lemma BytesToHash_Bytes h : is_hash h → BytesToHash (Hash_Bytes h) = h.
Proof.
  intros Hh. unfold BytesToHash, Hash_Bytes. rewrite array_bytes_length, Nat.sub_diag. by apply bytes_array_of_number.
Qed.
Lemma Hash_Bytes_length h : length (Hash_Bytes h) = 32%nat.
Proof. apply array_bytes_length. Qed.

(** * Keys *)
Definition headHeaderKey : list byte := str_bytes "LastHeader".
Definition headBlockKey : list byte := str_bytes "LastBlock".
Definition headFastBlockKey : list byte := str_bytes "LastFast".
Definition headerPrefix : list byte := str_bytes "h".
Definition headerTDSuffix : list byte := str_bytes "t".
Definition headerHashSuffix : list byte := str_bytes "n".
Definition headerNumberPrefix : list byte := str_bytes "H".
Definition blockBodyPrefix : list byte := str_bytes "b".
Definition blockReceiptsPrefix : list byte := str_bytes "r".
Definition txLookupPrefix : list byte := str_bytes "l".
Definition preimagePrefix : list byte := str_bytes "secure-key-".
Definition configPrefix : list byte := str_bytes "ethereum-config-".
Definition encodeBlockNumber (number : Z) : list byte := array_bytes 8 number.
Definition headerKey (number : Z) (hash : Hash) : list byte := headerPrefix ++ encodeBlockNumber number ++ Hash_Bytes hash.
Definition headerTDKey (number : Z) (hash : Hash) : list byte := headerKey number hash ++ headerTDSuffix.
Definition headerHashKey (number : Z) : list byte := headerPrefix ++ encodeBlockNumber number ++ headerHashSuffix.
Definition headerNumberKey (hash : Hash) : list byte := headerNumberPrefix ++ Hash_Bytes hash.
Definition blockBodyKey (number : Z) (hash : Hash) : list byte := blockBodyPrefix ++ encodeBlockNumber number ++ Hash_Bytes hash.
Definition blockReceiptsKey (number : Z) (hash : Hash) : list byte := blockReceiptsPrefix ++ encodeBlockNumber number ++ Hash_Bytes hash.
Definition txLookupKey (hash : Hash) : list byte := txLookupPrefix ++ Hash_Bytes hash.
Definition preimageKey (hash : Hash) : list byte := preimagePrefix ++ Hash_Bytes hash.
Definition configKey (hash : Hash) : list byte := configPrefix ++ Hash_Bytes hash.

(** ** The entries of the chain, by what they are *)
Inductive entry :=
  | HeadHeader | HeadBlock | HeadFast
  | CanonicalEntry (number : Z) | NumberEntry (hash : Hash)
  | HeaderEntry (number : Z) (hash : Hash) | TdEntry (number : Z) (hash : Hash)
  | BodyEntry (number : Z) (hash : Hash) | ReceiptsEntry (number : Z) (hash : Hash)
  | LookupEntry (hash : Hash) | PreimageEntry (hash : Hash) | ConfigEntry (hash : Hash).
#[export] Instance entry_eq_dec : EqDecision entry.
Proof. solve_decision. Defined.
Definition entry_key (e : entry) : list byte :=
  match e with
  | HeadHeader => headHeaderKey | HeadBlock => headBlockKey | HeadFast => headFastBlockKey
  | CanonicalEntry n => headerHashKey n | NumberEntry h => headerNumberKey h
  | HeaderEntry n h => headerKey n h | TdEntry n h => headerTDKey n h
  | BodyEntry n h => blockBodyKey n h | ReceiptsEntry n h => blockReceiptsKey n h
  | LookupEntry h => txLookupKey h | PreimageEntry h => preimageKey h
  | ConfigEntry h => configKey h
  end.
Definition entry_ok (e : entry) : Prop :=
  match e with
  | HeadHeader | HeadBlock | HeadFast => True
  | CanonicalEntry n => is_u64 n
  | NumberEntry h | LookupEntry h | PreimageEntry h | ConfigEntry h => is_hash h
  | HeaderEntry n h | TdEntry n h | BodyEntry n h | ReceiptsEntry n h => is_u64 n ∧ is_hash h
  end.

(** What tells the keys apart: their length and their first byte. *)
Definition shape (k : list byte) : nat * Z := (length k, nth 0 k 0).
Definition entry_shape (e : entry) : nat * Z :=
  match e with
  | HeadHeader => (10%nat, 76) | HeadBlock => (9%nat, 76) | HeadFast => (8%nat, 76)
  | CanonicalEntry _ => (10%nat, 104) | NumberEntry _ => (33%nat, 72)
  | HeaderEntry _ _ => (41%nat, 104) | TdEntry _ _ => (42%nat, 104)
  | BodyEntry _ _ => (41%nat, 98) | ReceiptsEntry _ _ => (41%nat, 114)
  | LookupEntry _ => (33%nat, 108) | PreimageEntry _ => (43%nat, 115) | ConfigEntry _ => (48%nat, 101)
  end.
Lemma entry_key_shape e : shape (entry_key e) = entry_shape e.
Proof.
  destruct e; unfold shape; cbn [entry_key entry_shape]; try reflexivity;
    unfold headerKey, headerTDKey, headerHashKey, headerNumberKey, blockBodyKey, blockReceiptsKey, txLookupKey, preimageKey, configKey, headerKey, encodeBlockNumber;
    rewrite ?length_app, ?Hash_Bytes_length, ?array_bytes_length; reflexivity.
Qed.
Lemma encodeBlockNumber_inj n n' : is_u64 n → is_u64 n' → encodeBlockNumber n = encodeBlockNumber n' → n = n'.
Proof. apply (array_bytes_inj 8). Qed.
Lemma Hash_Bytes_inj h h' : is_hash h → is_hash h' → Hash_Bytes h = Hash_Bytes h' → h = h'.
Proof. apply (array_bytes_inj 32). Qed.
Lemma number_hash_inj p n n' h h' : is_u64 n → is_u64 n' → is_hash h → is_hash h' →
  p ++ encodeBlockNumber n ++ Hash_Bytes h = p ++ encodeBlockNumber n' ++ Hash_Bytes h' → n = n' ∧ h = h'.
Proof.
  intros Hn Hn' Hh Hh' Heq%(inj (app p)). apply app_inj_1 in Heq as [? ?]; [|by unfold encodeBlockNumber; rewrite !array_bytes_length].
  split; [by apply encodeBlockNumber_inj|by apply Hash_Bytes_inj].
Qed.

(** No two entries of the chain share a key. *)
Lemma entry_key_inj e e' : entry_ok e → entry_ok e' → entry_key e = entry_key e' → e = e'.
Proof.
  intros He He' Heq. pose proof (f_equal shape Heq) as Hs. rewrite !entry_key_shape in Hs.
  destruct e, e'; try discriminate Hs; try reflexivity; cbn [entry_key entry_ok] in *.
  - unfold headerHashKey in Heq. apply (inj (app _)), app_inj_1 in Heq as [Heq _]; [|by unfold encodeBlockNumber; rewrite !array_bytes_length].
    f_equal. by apply encodeBlockNumber_inj.
  - f_equal. by apply (inj (app _)), Hash_Bytes_inj in Heq.
  - destruct He, He'. unfold headerKey in Heq. by apply number_hash_inj in Heq as [-> ->].
  - destruct He, He'. unfold headerTDKey in Heq. apply (inj (λ k, k ++ headerTDSuffix)) in Heq. unfold headerKey in Heq. by apply number_hash_inj in Heq as [-> ->].
  - destruct He, He'. unfold blockBodyKey in Heq. by apply number_hash_inj in Heq as [-> ->].
  - destruct He, He'. unfold blockReceiptsKey in Heq. by apply number_hash_inj in Heq as [-> ->].
  - f_equal. by apply (inj (app _)), Hash_Bytes_inj in Heq.
  - f_equal. by apply (inj (app _)), Hash_Bytes_inj in Heq.
  - f_equal. by apply (inj (app _)), Hash_Bytes_inj in Heq.
Qed.
Lemma get_put e e' v db : entry_ok e → entry_ok e' →
  db_Get (db_write db (PutKey (entry_key e) v)) (entry_key e') = if decide (e = e') then Some v else db_Get db (entry_key e').
Proof.
  intros He He'. unfold db_Get. cbn [db_write]. case_decide as Heq; [subst; by rewrite lookup_insert_eq|].
  rewrite lookup_insert_ne; [done|]. by intros ?%entry_key_inj.
Qed.
Lemma get_delete e e' db : entry_ok e → entry_ok e' →
  db_Get (db_write db (DeleteKey (entry_key e))) (entry_key e') = if decide (e = e') then None else db_Get db (entry_key e').
Proof.
  intros He He'. unfold db_Get. cbn [db_write]. case_decide as Heq; [subst; by rewrite lookup_delete_eq|].
  rewrite lookup_delete_ne; [done|]. by intros ?%entry_key_inj.
Qed.
