(* ===== verification/TrieNode.v ===== *)
(** Trie nodes on disk ([decodeNode] and its helpers in [trie/node.go]) and in
    the trie database, without their caches ([rawNode], [rawFullNode],
    [rawShortNode] of [trie/database.go]).

    What is encoded can be decoded: a collapsed node comes back from the disk as
    it comes back from the memory of the trie database. *)
From S2P Require Import Prelude Types TrieEncoding Trie TrieMemory TrieRoot Memorydb.

(** * Decoding

    [rlp.Split] and its relatives take an item off an encoding. *)
Class NodeDecode := rlp_Split : list byte → option rlp_item.
Class NodeCodecLaws `{NodeDigest} `{NodeDecode} : Prop := {
  rlp_Split_Encode i : rlp_Split (rlp_Encode i) = Some i;
  rlp_Encode_nonempty i : rlp_Encode i ≠ []
}.

Section decoding.
Context `{NodeDigest} `{NodeDecode}.

Definition SplitString (i : rlp_item) : option (list byte) := match i with rStr s => Some s | rList _ => None end.
(** The first 16 children of a full node. *)
Definition decode_children (decodeRef : rlp_item → option node) : list rlp_item → option (list node) :=
  fix go elems := match elems with
    | [] => Some []
    | e :: elems => c ← decodeRef e; cs ← go elems; Some (c :: cs)
    end.
(** An item that is a list of 2 or 17 items.  The text of the errors, and the
    path they carry, is dropped. *)
Fixpoint decodeItem (hash : option Hash) (i : rlp_item) {struct i} : option node :=
  let decodeRef (r : rlp_item) : option node :=
    match r with
    | rList _ => if (HashLength <? length (rlp_Encode r))%nat then None else decodeItem None r
    | rStr [] => Some nilNode
    | rStr val => if (length val =? 32)%nat then Some (hashNode (bytes_array val)) else None
    end in
  match i with
  | rStr _ => None
  | rList [k; r] =>
      kbuf ← SplitString k;
      let key := compactToHex kbuf in
      if hasTerm key then val ← SplitString r; Some (shortNode key (valueNode val) (mkFlag hash false))
      else child ← decodeRef r; Some (shortNode key child (mkFlag hash false))
  | rList [r0; r1; r2; r3; r4; r5; r6; r7; r8; r9; r10; r11; r12; r13; r14; r15; v] =>
      cs ← decode_children decodeRef [r0; r1; r2; r3; r4; r5; r6; r7; r8; r9; r10; r11; r12; r13; r14; r15];
      val ← SplitString v;
      Some (fullNode (cs ++ [match val with [] => nilNode | _ => valueNode val end]) (mkFlag hash false))
  | rList _ => None
  end.
Definition decodeRef (r : rlp_item) : option node :=
  match r with
  | rList _ => if (HashLength <? length (rlp_Encode r))%nat then None else decodeItem None r
  | rStr [] => Some nilNode
  | rStr val => if (length val =? 32)%nat then Some (hashNode (bytes_array val)) else None
  end.
Definition decodeNode (hash : option Hash) (buf : list byte) : option node :=
  match buf with [] => None | _ => i ← rlp_Split buf; decodeItem hash i end.
Definition mustDecodeNode {E} (hash : Hash) (buf : list byte) : Result E node :=
  match decodeNode (Some hash) buf with Some n => Ok n | None => Panic (ExplicitPanic "node") end.
End decoding.

(** * Nodes without caches

    What the trie database keeps: an encoded blob, or a collapsed node. *)
Inductive raw_node :=
  | rawNode (blob : list byte)
  | rawNil
  | rawHash (h : Hash)
  | rawValue (v : list byte)
  | rawShortNode (key : list byte) (val : raw_node)
  | rawFullNode (children : list raw_node).

Section raw.
Context `{NodeDigest} `{NodeDecode} {E : Type}.

Definition unknown_node {A} : Result E A := Panic (ExplicitPanic "unknown node type").
Definition map_result {A B} (f : A → Result E B) : list A → Result E (list B) :=
  fix go l := match l with [] => Ok [] | x :: l => y ← f x; ys ← go l; Ok (y :: ys) end.

Fixpoint simplifyNode (n : node) : Result E raw_node :=
  match n with
  | shortNode k val _ => v ← simplifyNode val; Ok (rawShortNode k v)
  | fullNode children _ =>
      cs ← map_result (λ c, match c with nilNode => Ok rawNil | _ => simplifyNode c end) children;
      Ok (rawFullNode cs)
  | valueNode v => Ok (rawValue v)
  | hashNode h => Ok (rawHash h)
  | nilNode => unknown_node
  end.
Fixpoint expandNode (hash : option Hash) (r : raw_node) : Result E node :=
  match r with
  | rawShortNode k val => v ← expandNode None val; Ok (shortNode (compactToHex k) v (mkFlag hash false))
  | rawFullNode children =>
      cs ← map_result (λ c, match c with rawNil => Ok nilNode | _ => expandNode None c end) children;
      Ok (fullNode cs (mkFlag hash false))
  | rawValue v => Ok (valueNode v)
  | rawHash h => Ok (hashNode h)
  | rawNil | rawNode _ => unknown_node
  end.
(** The value of a full node is not looked at. *)
Fixpoint gatherChildren (r : raw_node) : Result E (list Hash) :=
  match r with
  | rawShortNode _ val => gatherChildren val
  | rawFullNode children =>
      (fix go (i : nat) (cs : list raw_node) : Result E (list Hash) :=
         match i, cs with
         | S i, c :: cs => l ← gatherChildren c; l' ← go i cs; Ok (l ++ l')
         | _, _ => Ok []
         end) 16%nat children
  | rawHash h => Ok [h]
  | rawValue _ | rawNil => Ok []
  | rawNode _ => unknown_node
  end.

(** The items of a raw node for the encoder, as [EncodeRLP] for nodes. *)
Fixpoint raw_item (r : raw_node) : rlp_item :=
  match r with
  | rawNil => rList []
  | rawHash h => rStr (array_bytes HashLength h)
  | rawValue v | rawNode v => rStr v
  | rawShortNode k val => rList [rStr k; raw_item val]
  | rawFullNode children => rList (map (λ c, match c with rawNil => rStr [] | _ => raw_item c end) children)
  end.
(** [cachedNode.rlp] and [cachedNode.obj] *)
Definition raw_rlp (r : raw_node) : list byte :=
  match r with rawNode blob => blob | _ => rlp_Encode (raw_item r) end.
Definition raw_obj (hash : Hash) (r : raw_node) : Result E node :=
  match r with rawNode blob => mustDecodeNode hash blob | _ => expandNode (Some hash) r end.
End raw.

(** A collapsed node as the database hands it out: hex keys, the hash it is
    stored under in its flag, clean. *)
Fixpoint expanded (hash : option Hash) (c : node) : node :=
  match c with
  | shortNode k v _ => shortNode (compactToHex k) (expanded None v) (mkFlag hash false)
  | fullNode cs _ => fullNode (map (expanded None) cs) (mkFlag hash false)
  | _ => c
  end.
Lemma expanded_hash hash c : is_branch c = false → expanded hash c = c.
Proof. by destruct c. Qed.
Lemma expanded_branch hash c : is_branch (expanded hash c) = is_branch c.
Proof. by destruct c. Qed.
Lemma compact_key_hex k : Forall is_nibble k ∨ tkey k → hexToCompact (E := unit) k = Ok (compact_key k) ∧ compactToHex (compact_key k) = k ∧ Forall is_byte (compact_key k).
Proof.
  intros Hk. pose proof (compact_key_ok k Hk) as Hc. split; [done|].
  assert (∃ l (term : bool), Forall is_nibble l ∧ k = l ++ if term then [terminator] else []) as (l & term & Hl & ->).
  { destruct Hk as [Hk|(l & Hl & ->)]; [exists k, false; by rewrite app_nil_r|by exists l, true]. }
  destruct (compact_hex l term Hl) as (c & Hc' & Hb & Hx). rewrite Hc in Hc'. by injection Hc' as <-.
Qed.

Section codec.
Context `{NodeCodecLaws}.

(** * Collapsed nodes

    The children are missing, known by hash, or small enough to be spelled out;
    the value of a full node is not empty. *)
Definition small (c : node) : Prop := (length (rlp_Encode (EncodeRLP c)) < 32)%nat.
Inductive collapsed_ok : node → Prop :=
  | col_leaf k v fl : tkey k → collapsed_ok (shortNode (compact_key k) (valueNode v) fl)
  | col_extension k c fl : Forall is_nibble k → child_collapsed c → collapsed_ok (shortNode (compact_key k) c fl)
  | col_full cs v fl : length cs = 16%nat → Forall (λ c, c = nilNode ∨ child_collapsed c) cs → v = nilNode ∨ (∃ w, v = valueNode w ∧ w ≠ []) →
      collapsed_ok (fullNode (cs ++ [v]) fl)
with child_collapsed : node → Prop :=
  | child_hash h : is_hash h → child_collapsed (hashNode h)
  | child_small c : collapsed_ok c → small c → child_collapsed c.

Lemma collapsed_branch c : collapsed_ok c → is_branch c = true.
Proof. by destruct 1. Qed.
Lemma child_not_nil c : child_collapsed c → is_nil c = false ∧ ¬ is_value c.
Proof. by destruct 1 as [h _|c Hc _]; [|destruct Hc]; (split; [|intros []]). Qed.
Lemma tkey_hasTerm k : tkey k → hasTerm k = true.
Proof. intros (l & _ & ->). apply hasTerm_snoc. Qed.

(** * Decoding *)
Lemma decodeItem_short hash k r : decodeItem hash (rList [rStr k; r]) =
  (let key := compactToHex k in
   if hasTerm key then val ← SplitString r; Some (shortNode key (valueNode val) (mkFlag hash false))
   else child ← decodeRef r; Some (shortNode key child (mkFlag hash false))).
Proof. done. Qed.
Lemma decodeItem_full hash items v : length items = 16%nat → decodeItem hash (rList (items ++ [v])) =
  (cs ← decode_children decodeRef items; val ← SplitString v;
   Some (fullNode (cs ++ [match val with [] => nilNode | _ => valueNode val end]) (mkFlag hash false))).
Proof. intros Hl. do 16 (destruct items as [|? items]; [done|]). by destruct items. Qed.
Lemma encoded_list c : collapsed_ok c → ∃ l, EncodeRLP c = rList l.
Proof. destruct 1; by eexists. Qed.
Lemma decodeRef_child c : child_collapsed c → (∀ hash, collapsed_ok c → decodeItem hash (EncodeRLP c) = Some (expanded hash c)) →
  decodeRef (EncodeRLP c) = Some (expanded None c).
Proof.
  intros [h Hh|c' Hc Hs] IH.
  - cbn [EncodeRLP expanded]. unfold decodeRef. pose proof (array_bytes_length HashLength h) as Hl. destruct (array_bytes HashLength h) as [|b l] eqn:Hb; [done|].
    rewrite Hl. change (HashLength =? 32)%nat with true. cbn iota. rewrite <- Hb. by rewrite (bytes_array_of_number HashLength h).
  - specialize (IH None Hc). destruct (encoded_list _ Hc) as [l Hl]. unfold small in Hs. rewrite Hl in *. unfold decodeRef. rewrite (proj2 (Nat.ltb_ge _ _)); [done|].
    change HashLength with 32%nat. lia.
Qed.
Lemma decodeItem_ok c : ∀ hash, collapsed_ok c → decodeItem hash (EncodeRLP c) = Some (expanded hash c).
Proof.
  induction c as [|h|v|k n fl IH|ns fl IH] using node_nested_ind; intros hash Hc; try by inversion Hc.
  - cbn [EncodeRLP expanded]. rewrite decodeItem_short. cbv zeta. inversion Hc as [k' v' fl' Hk|k' c fl' Hk Hch|]; subst.
    + destruct (compact_key_hex k') as (_ & -> & _); [by right|]. by rewrite tkey_hasTerm.
    + destruct (compact_key_hex k') as (_ & -> & _); [by left|]. rewrite hasTerm_nibbles by done. by rewrite decodeRef_child.
  - inversion Hc as [| |cs v fl' Hlen Hcs Hv]; subst. cbn [EncodeRLP expanded]. rewrite !map_app. cbn [map]. rewrite decodeItem_full by by rewrite length_map.
    apply Forall_app in IH as [IH _].
    assert (decode_children decodeRef (map (λ child, if is_nil child then rStr [] else EncodeRLP child) cs) = Some (map (expanded None) cs)) as ->.
    { clear -IH Hcs. induction IH as [|c cs Hc _ IH]; [done|]. apply Forall_cons in Hcs as [Hch Hcs]. cbn [map decode_children].
      destruct Hch as [->|Hch]; cbn [is_nil]; [by rewrite (IH Hcs)|]. destruct (child_not_nil _ Hch) as [-> _]. rewrite decodeRef_child by done. cbn [mbind option_bind]. by rewrite (IH Hcs). }
    destruct Hv as [->|(w & -> & Hw)]; [done|]. cbn. by destruct w.
Qed.
Lemma decodeNode_ok hash c : collapsed_ok c → decodeNode hash (rlp_Encode (EncodeRLP c)) = Some (expanded hash c).
Proof.
  intros Hc. unfold decodeNode. pose proof (rlp_Encode_nonempty (EncodeRLP c)) as Hne. pose proof (rlp_Split_Encode (EncodeRLP c)) as Hsp.
  destruct (rlp_Encode (EncodeRLP c)) as [|b l]; [done|]. rewrite Hsp. by apply decodeItem_ok.
Qed.

(** Whatever decodes is a collapsed node in its expanded form. *)
Lemma decodeItem_cases hash l y : decodeItem hash (rList l) = Some y → (∃ k r, l = [k; r]) ∨ (∃ items v, length items = 16%nat ∧ l = items ++ [v]).
Proof.
  intros Hd. destruct (decide (length l = 17%nat)) as [Hl|Hl].
  - right. destruct l as [|v items _] using rev_ind; [done|]. exists items, v. split; [|done]. rewrite length_app in Hl. cbn in Hl. lia.
  - left. destruct l as [|k [|r [|x l]]]; [done|done|by exists k, r|]. exfalso. do 14 (destruct l as [|? l]; [done|]). by destruct l.
Qed.
Lemma decode_children_expanded items cs : Forall (λ i, ∀ y, decodeRef i = Some y → ∃ c, y = expanded None c) items →
  decode_children decodeRef items = Some cs → ∃ cs0, cs = map (expanded None) cs0.
Proof.
  intros Hall. revert cs. induction Hall as [|i items Hi _ IH]; intros cs; cbn [decode_children]; [intros [= <-]; by exists []|].
  destruct (decodeRef i) as [c|] eqn:Hc; [|done]. cbn [mbind option_bind]. destruct (decode_children decodeRef items) as [cs1|]; [|done].
  intros [= <-]. destruct (Hi c eq_refl) as [c0 ->], (IH cs1 eq_refl) as [cs0 ->]. by exists (c0 :: cs0).
Qed.
Lemma decodeRef_expanded i y : (∀ hash y, decodeItem hash i = Some y → ∃ c, y = expanded hash c) → decodeRef i = Some y → ∃ c, y = expanded None c.
Proof.
  intros Hi. unfold decodeRef. destruct i as [[|b s]|l]; [intros [= <-]; by exists nilNode| |].
  - destruct (length (b :: s) =? 32)%nat; [|done]. intros [= <-]. by eexists (hashNode _).
  - destruct (_ <? _)%nat; [done|]. apply Hi.
Qed.
Fixpoint item_depth (i : rlp_item) : nat := match i with rStr _ => O | rList l => S (foldr (λ i n, Nat.max (item_depth i) n) O l) end.
Lemma item_depth_child l i : i ∈ l → (item_depth i < item_depth (rList l))%nat.
Proof.
  intros Hi. cbn [item_depth]. induction l as [|j l IH]; [by apply not_elem_of_nil in Hi|]. cbn [foldr]. apply elem_of_cons in Hi as [->|Hi]; [lia|]. specialize (IH Hi). lia.
Qed.
Lemma decodeItem_expanded d : ∀ i, (item_depth i < d)%nat → ∀ hash y, decodeItem hash i = Some y → ∃ c, y = expanded hash c.
Proof.
  induction d as [|d IH]; intros i Hd hash y Hy; [lia|]. destruct i as [s|l]; [done|].
  assert (∀ j, j ∈ l → ∀ y, decodeRef j = Some y → ∃ c, y = expanded None c) as Href.
  { intros j Hj y'. apply decodeRef_expanded. apply IH. pose proof (item_depth_child l j Hj). lia. }
  destruct (decodeItem_cases _ _ _ Hy) as [(k & r & ->)|(items & v & Hl & ->)].
  - destruct k as [k|]; [|done]. rewrite decodeItem_short in Hy. cbv zeta in Hy. destruct (hasTerm (compactToHex k)).
    + destruct (SplitString r) as [val|]; [|done]. injection Hy as <-. by exists (shortNode k (valueNode val) newFlag).
    + destruct (decodeRef r) as [c|] eqn:Hc; [|done]. injection Hy as <-. destruct (Href r ltac:(set_solver) c Hc) as [c0 ->]. by exists (shortNode k c0 newFlag).
  - rewrite decodeItem_full in Hy by done. destruct (decode_children decodeRef items) as [cs|] eqn:Hcs; [|done]. cbn [mbind option_bind] in Hy.
    destruct (SplitString v) as [val|]; [|done]. injection Hy as <-. destruct (decode_children_expanded items cs) as [cs0 ->]; [|done|].
    { apply Forall_forall. intros j Hj. apply Href. set_solver. }
    exists (fullNode (cs0 ++ [match val with [] => nilNode | _ => valueNode val end]) newFlag). cbn [expanded]. rewrite map_app. by destruct val.
Qed.
Lemma decodeNode_expanded hash buf y : decodeNode hash buf = Some y → ∃ c, y = expanded hash c.
Proof. unfold decodeNode. destruct buf as [|b l]; [done|]. destruct (rlp_Split (b :: l)) as [i|]; [|done]. apply (decodeItem_expanded (S (item_depth i))). lia. Qed.

(** * Without caches and back *)
Fixpoint raw_of (c : node) : raw_node :=
  match c with
  | nilNode => rawNil
  | hashNode h => rawHash h
  | valueNode v => rawValue v
  | shortNode k v _ => rawShortNode k (raw_of v)
  | fullNode cs _ => rawFullNode (map raw_of cs)
  end.
Lemma raw_ok {E} c : collapsed_ok c ∨ is_branch c = false ∧ c ≠ nilNode → ∀ hash,
  simplifyNode (E := E) c = Ok (raw_of c) ∧ expandNode (E := E) hash (raw_of c) = Ok (expanded hash c) ∧ raw_item (raw_of c) = EncodeRLP c.
Proof.
  assert (∀ c, child_collapsed c → collapsed_ok c ∨ is_branch c = false ∧ c ≠ nilNode) as Hchild by by destruct 1; auto.
  induction c as [|h|v|k n fl IH|ns fl IH] using node_nested_ind; intros Hc hash; try done.
  - by destruct Hc as [Hc|[_ Hc]]; [inversion Hc|].
  - destruct Hc as [Hc|[Hb _]]; [|done]. assert (collapsed_ok n ∨ is_branch n = false ∧ n ≠ nilNode) as Hn by (inversion Hc; subst; [by right|auto]).
    destruct (IH Hn None) as (Hs & He & Hi). cbn [simplifyNode raw_of expandNode raw_item EncodeRLP expanded]. by rewrite Hs, He, Hi.
  - destruct Hc as [Hc|[Hb _]]; [|done]. assert (Forall (λ c, c = nilNode ∨ collapsed_ok c ∨ is_branch c = false ∧ c ≠ nilNode) ns) as Hn.
    { inversion Hc as [| |cs v fl' Hlen Hcs Hv]; subst. apply Forall_app. split; [eapply Forall_impl; [exact Hcs|]; intros; naive_solver|].
      constructor; [|constructor]. destruct Hv as [->|(w & -> & _)]; [by left|right; by right]. }
    clear Hc. cbn [simplifyNode raw_of expandNode raw_item EncodeRLP expanded].
    assert (map_result (λ c, match c with nilNode => Ok rawNil | _ => simplifyNode (E := E) c end) ns = Ok (map raw_of ns) ∧
      map_result (λ c, match c with rawNil => Ok nilNode | _ => expandNode (E := E) None c end) (map raw_of ns) = Ok (map (expanded None) ns) ∧
      map (λ c, match c with rawNil => rStr [] | _ => raw_item c end) (map raw_of ns) = map (λ child, if is_nil child then rStr [] else EncodeRLP child) ns) as (-> & -> & ->);
      [|done].
    induction IH as [|c cs Hc _ IH]; [done|]. apply Forall_cons in Hn as [Hn1 Hn2]. destruct (IH Hn2) as (IH1 & IH2 & IH3). cbn [map map_result].
    rewrite IH1, IH2, IH3. destruct Hn1 as [->|Hn1]; [done|]. destruct (Hc Hn1 None) as (Hs & He & Hi).
    destruct c; try (by destruct Hn1 as [Hx|[_ Hx]]; [inversion Hx|]); cbn [raw_of] in *; by rewrite Hs, He, Hi.
Qed.

(** The blob of a collapsed node decodes to the node in its expanded form, hex keys and all; so does the stripped form the trie database keeps in memory, and that form has the same blob. *)
Theorem node_codec_roundtrip {E} h c : collapsed_ok c → let blob := rlp_Encode (EncodeRLP c) in
  mustDecodeNode (E := E) h blob = Ok (expanded (Some h) c) ∧
  ∃ r, simplifyNode (E := E) c = Ok r ∧ raw_rlp r = blob ∧ raw_obj (E := E) h r = Ok (expanded (Some h) c).
Proof.
  intros Hc. cbv zeta. unfold mustDecodeNode. rewrite decodeNode_ok by done. split; [done|]. destruct (raw_ok (E := E) c (or_introl Hc) (Some h)) as (Hs & He & Hi).
  exists (raw_of c). split; [done|]. rewrite <- Hi. by destruct Hc.
Qed.
End codec.
