(* ===== verification/TrieLoad.v ===== *)
(** Tries that are in memory in part: nodes known by hash only are loaded from
    the database when an operation meets them, and every operation answers as
    on the whole trie. *)
From S2P Require Import Prelude Types TrieEncoding Trie TrieMemory TrieMap TrieRoot.

Definition is_hash_node (n : node) : bool := match n with hashNode _ => true | _ => false end.

Section stands.
Context `{NodeDigest} (db : Hash → option node).

(** * Standing for a trie in memory

    [stands b x n]: [x] is the trie [n] with some of its nodes known by hash
    only.  Below the root ([b] is false) only large nodes are.  The flag of a
    node satisfies [good]. *)
Context (good : bool → nodeFlag → node → Prop) (good_new : ∀ b n, good b newFlag n).
Inductive stands : bool → node → node → Prop :=
  | stands_nil b : stands b nilNode nilNode
  | stands_value b v : stands b (valueNode v) (valueNode v)
  | stands_short b k x n fl fl' : stands false x n → good b fl (shortNode k n fl') → stands b (shortNode k x fl) (shortNode k n fl')
  | stands_full b xs ns fl fl' : Forall2 (stands false) xs ns → good b fl (fullNode ns fl') → stands b (fullNode xs fl) (fullNode ns fl')
  | stands_hash b h x n : db h = Some x → is_branch x = true → stands b x n → h = digest (merkle n) → (b = false → large (merkle n) = true) →
      stands b (hashNode h) n.

Lemma stands_branch b x n : stands b x n → is_branch x = true → is_branch n = true.
Proof. by destruct 1. Qed.
Lemma stands_loaded b h n : stands b (hashNode h) n → ∃ x, db h = Some x ∧ is_hash_node x = false ∧ is_branch x = true ∧ is_branch n = true ∧ stands b x n.
Proof.
  inversion 1 as [| | | |? ? x ? Hh Hb Hs]; subst. exists x. assert (is_hash_node x = false) by by destruct x. split_and!; [done..|by eapply stands_branch|done].
Qed.
Lemma stands_is_nil b x n : stands b x n → is_nil x = is_nil n.
Proof. intros Hs. destruct x; try (by inversion Hs). apply stands_loaded in Hs as (x & _ & _ & _ & Hn & _). by destruct n. Qed.
Lemma stands_not_value b x n : stands b x n → is_value x ↔ is_value n.
Proof. intros Hs. destruct x; try (by inversion Hs). apply stands_loaded in Hs as (x & _ & _ & _ & Hn & _). by destruct n. Qed.
Lemma stands_value_inv b x v : stands b x (valueNode v) → x = valueNode v.
Proof. intros Hs. destruct x; try (by inversion Hs). by apply stands_loaded in Hs as (x & _ & _ & _ & Hn & _). Qed.
Lemma stands_nil_inv b x : stands b x nilNode → x = nilNode.
Proof. intros Hs%stands_is_nil. by destruct x. Qed.

Lemma stands_target b x h : ¬ stands b x (hashNode h).
Proof. intros Hs. destruct x; try (by inversion Hs). by apply stands_loaded in Hs as (x & _ & _ & _ & Hn & _). Qed.

Lemma stands_short_new b k x n : stands false x n → stands b (shortNode k x newFlag) (shortNode k n newFlag).
Proof. intros. constructor; [done|apply good_new]. Qed.
Lemma stands_full_new b xs ns : Forall2 (stands false) xs ns → stands b (fullNode xs newFlag) (fullNode ns newFlag).
Proof. intros. constructor; [done|apply good_new]. Qed.
Lemma stands_empty : Forall2 (stands false) empty_children empty_children.
Proof. apply Forall2_replicate. constructor. Qed.
Lemma stands_get xs ns i n : Forall2 (stands false) xs ns → get_child (E := trie_error) ns i = Ok n →
  ∃ x, get_child (E := trie_error) xs i = Ok x ∧ stands false x n.
Proof.
  intros Hs. unfold get_child. destruct ((i <? 0) || (17 <=? i)); [done|]. destruct (ns !! Z.to_nat i) as [n'|] eqn:Hn; [|done]. intros [= <-].
  destruct (Forall2_lookup_r _ _ _ _ _ Hs Hn) as (x & -> & Hx). by exists x.
Qed.
Lemma stands_set xs ns i x n : Forall2 (stands false) xs ns → stands false x n → Forall2 (stands false) (set_child xs i x) (set_child ns i n).
Proof. apply Forall2_insert. Qed.
Lemma stands_left_over xs ns : Forall2 (stands false) xs ns → left_over xs = left_over ns.
Proof.
  intros Hs. unfold left_over. assert (∀ i pos, scan_children i pos xs = scan_children i pos ns) as Hall; [|apply Hall].
  induction Hs as [|x n xs ns Hx Hs IH]; intros i pos; [done|]. cbn. rewrite (stands_is_nil _ _ _ Hx), !IH. done.
Qed.

(** * Lookup *)
Lemma stands_tryGet fuel : ∀ b x n prefix key f v n' d, stands b x n → tryGet db fuel n prefix key = Ok (v, n', d) → (2 * fuel ≤ f)%nat →
  ∃ x' d', tryGet db f x prefix key = Ok (v, x', d') ∧ stands b x' n ∧ (is_hash_node x = false → is_hash_node x' = false).
Proof.
  induction fuel as [|fuel IH]; intros b x n prefix key f v n' d Hs Hrun Hf; [done|].
  assert (∀ x f, is_hash_node x = false → stands b x n → (2 * fuel + 1 ≤ f)%nat →
    ∃ x' d', tryGet db f x prefix key = Ok (v, x', d') ∧ stands b x' n ∧ is_hash_node x' = false) as Hplain.
  { clear x f Hs Hf. intros x [|f] Hx Hs Hf; [lia|]. inversion Hs as [|? w|? k y m fl fl' Hy Hc|? xs ns fl fl' Hxs Hc|]; subst; try done; cbn [tryGet] in Hrun |- *.
    - injection Hrun as <- <- <-. by exists nilNode, false.
    - injection Hrun as <- <- <-. by exists (valueNode w), false.
    - destruct (negb _); [injection Hrun as <- <- <-; by eexists _, _|]. go_inv Hrun. destruct a as [[v1 n1] d1]. injection Hrun as <- <- <-.
      destruct (IH false y m _ _ f _ _ _ Hy Hm ltac:(lia)) as (x1 & d2 & -> & Hx1 & _). eexists _, _. split; [done|]. destruct d2; [|done]. split; [by constructor|done].
    - destruct key as [|i key]; [done|]. go_inv Hrun. destruct a0 as [[v1 n1] d1]. injection Hrun as <- <- <-. destruct (stands_get _ _ _ _ Hxs Hm) as (y & -> & Hy).
      destruct (IH false y a _ _ f _ _ _ Hy Hm0 ltac:(lia)) as (x1 & d2 & Hrun1 & Hx1 & _). cbn [mbind result_bind]. rewrite Hrun1. eexists _, _. split; [done|]. destruct d2; [|done].
      split; [|done]. constructor; [|done]. rewrite <- (list_insert_id ns (Z.to_nat i) a) by by apply get_child_Ok in Hm. by apply stands_set. }
  destruct (is_hash_node x) eqn:Hx; [|destruct (Hplain x f Hx Hs ltac:(lia)) as (x' & d' & ? & ? & ?); eexists _, _; by split_and!]. destruct x as [|h| | |]; try done. destruct f as [|f]; [lia|].
  destruct (stands_loaded _ _ _ Hs) as (y & Hh & Hy & _ & _ & Hsy). cbn [tryGet]. unfold resolveHash. rewrite Hh. cbn [mbind result_bind].
  destruct (Hplain y f Hy Hsy ltac:(lia)) as (x' & d' & -> & Hs' & Hx'). by eexists _, _.
Qed.

(** * Insertion *)
Lemma stands_insert fuel : ∀ b x n prefix key vx vn f d n', stands b x n → stands false vx vn → b = false ∨ key ≠ [] → insert db fuel n prefix key vn = Ok (d, n') → (2 * fuel ≤ f)%nat →
  ∃ x', insert db f x prefix key vx = Ok (d, x') ∧ stands b x' n' ∧ (d = false → n' = n).
Proof.
  induction fuel as [|fuel IH]; intros b x n prefix key vx vn f d n' Hs Hv Hb Hrun Hf; [done|].
  assert (∀ x f, is_hash_node x = false → stands b x n → (2 * fuel + 1 ≤ f)%nat →
    ∃ x', insert db f x prefix key vx = Ok (d, x') ∧ stands b x' n' ∧ (d = false → n' = n)) as Hplain.
  2: { destruct (is_hash_node x) eqn:Hx; [|apply Hplain; [done|done|lia]]. destruct x as [|h| | |]; try done. destruct f as [|f]; [lia|].
       destruct (stands_loaded _ _ _ Hs) as (y & Hh & Hy & Hyb & Hn & Hsy). cbn [insert].
       destruct key as [|i key]; [exists vx; cbn [insert] in Hrun; destruct n; try done; injection Hrun as <- <-; (split_and!; [done|by destruct Hb as [->|?]|done])|].
       unfold resolveHash. rewrite Hh. cbn [mbind result_bind]. destruct (Hplain y f Hy Hsy ltac:(lia)) as (x' & -> & Hx' & Hd).
       destruct d; cbn [mbind result_bind negb]; [by exists x'|]. exists y. rewrite Hd by done. split_and!; [done|done|done]. }
  clear x f Hs Hf. intros x [|f] Hx Hs Hf; [lia|].
  cbn [insert] in Hrun |- *. destruct key as [|i key].
  { inversion Hs as [|? w|? k y m fl fl' Hy Hc|? xs ns fl fl' Hxs Hc|]; subst; try done; try (injection Hrun as <- <-; exists vx; (split_and!; [done|by destruct Hb as [->|?]|done])).
    destruct vn as [| |u| |]; try done. apply stands_value_inv in Hv as Hvx. subst vx. injection Hrun as <- <-. exists (valueNode u). split_and!; [done|by destruct Hb as [->|?]|].
    intros Heq%negb_false_iff%bool_decide_eq_true. by subst. }
  inversion Hs as [|? w|? k y m fl fl' Hy Hc|? xs ns fl fl' Hxs Hc|]; subst; try done.
  - injection Hrun as <- <-. exists (shortNode (i :: key) vx newFlag). split_and!; [done|by apply stands_short_new|done].
  - case_bool_decide as Hlen.
    + go_inv Hrun. destruct a as [d1 n1]. destruct (IH false y m _ _ vx vn f _ _ Hy Hv (or_introl eq_refl) Hm ltac:(lia)) as (x1 & -> & Hx1 & Hd1). cbn [mbind result_bind].
      destruct d1; injection Hrun as <- <-; eexists; (split_and!; [done| |done]); [by apply stands_short_new|by constructor].
    + destruct (k !! _) as [kb|]; [|done]. destruct (_ !! _) as [keyb|]; [|done].
      apply result_bind_ok in Hrun as ([d1 old] & Hold & Hrun). apply result_bind_ok in Hrun as (? & Hg1 & Hrun).
      apply result_bind_ok in Hrun as ([d2 new] & Hnew & Hrun). apply result_bind_ok in Hrun as (? & Hg2 & Hrun).
      destruct (IH false nilNode nilNode _ _ y m f _ _ (stands_nil _) Hy (or_introl eq_refl) Hold ltac:(lia)) as (xold & -> & Hxold & _).
      destruct (IH false nilNode nilNode _ _ vx vn f _ _ (stands_nil _) Hv (or_introl eq_refl) Hnew ltac:(lia)) as (xnew & -> & Hxnew & _).
      cbn [mbind result_bind]. rewrite Hg1. cbn [mbind result_bind]. pose proof (stands_set _ _ kb _ _ stands_empty Hxold) as Hset.
      destruct (stands_get _ _ keyb _ Hset Hg2) as (? & -> & _). cbn [mbind result_bind]. pose proof (stands_set _ _ keyb _ _ Hset Hxnew) as Hset2.
      revert Hrun. case_bool_decide; intros [= <- <-]; eexists; (split_and!; [done| |done]); [by apply stands_full_new|by apply stands_short_new, stands_full_new].
  - go_inv Hrun. destruct a0 as [d1 n1]. destruct (stands_get _ _ _ _ Hxs Hm) as (y & -> & Hy). cbn [mbind result_bind].
    destruct (IH false y a _ _ vx vn f _ _ Hy Hv (or_introl eq_refl) Hm0 ltac:(lia)) as (x1 & -> & Hx1 & Hd1). cbn [mbind result_bind].
    destruct d1; injection Hrun as <- <-; eexists; (split_and!; [done| |done]); [by apply stands_full_new, stands_set|by constructor].
Qed.

(** * Deletion *)
Lemma stands_delete fuel : ∀ b x n prefix key f d n', stands b x n → delete db fuel n prefix key = Ok (d, n') → (2 * fuel ≤ f)%nat →
  ∃ x', delete db f x prefix key = Ok (d, x') ∧ stands b x' n' ∧ (d = true → is_hash_node x' = false) ∧ (d = false → n' = n).
Proof.
  induction fuel as [|fuel IH]; intros b x n prefix key f d n' Hs Hrun Hf; [done|].
  assert (∀ x f, is_hash_node x = false → stands b x n → (2 * fuel + 1 ≤ f)%nat →
    ∃ x', delete db f x prefix key = Ok (d, x') ∧ stands b x' n' ∧ (d = true → is_hash_node x' = false) ∧ (d = false → n' = n)) as Hplain.
  2: { destruct (is_hash_node x) eqn:Hx; [|apply Hplain; [done|done|lia]]. destruct x as [|h| | |]; try done. destruct f as [|f]; [lia|].
       destruct (stands_loaded _ _ _ Hs) as (y & Hh & Hy & Hyb & Hn & Hsy). cbn [delete]. unfold resolveHash. rewrite Hh. cbn [mbind result_bind].
       destruct (Hplain y f Hy Hsy ltac:(lia)) as (x' & -> & Hx' & Hnh & Hd).
       destruct d; cbn [mbind result_bind negb]; [exists x'; by split_and!|]. exists y. rewrite Hd by done. split_and!; [done..]. }
  clear x f Hs Hf. intros x [|f] Hx Hs Hf; [lia|].
  inversion Hs as [|? w|? k y m fl fl' Hy Hc|? xs ns fl fl' Hxs Hc|]; subst; try done; cbn [delete] in Hrun |- *.
  - injection Hrun as <- <-. by exists nilNode.
  - injection Hrun as <- <-. exists nilNode. split_and!; [done|constructor|done|done].
  - case_bool_decide; [injection Hrun as <- <-; by eexists|]. case_bool_decide; [injection Hrun as <- <-; exists nilNode; split_and!; [done|constructor|done|done]|].
    go_inv Hrun. destruct a as [d1 n1]. destruct (IH false y m _ _ f _ _ Hy Hm ltac:(lia)) as (x1 & -> & Hx1 & Hnh & Hd1). cbn [mbind result_bind].
    destruct d1; cbn [negb] in Hrun |- *; [|injection Hrun as <- <-; by eexists]. specialize (Hnh eq_refl).
    destruct n1 as [|h1|v1|k1 m1 fl1|ns1 fl1]; [|by apply stands_target in Hx1|..]; inversion Hx1; subst; try done; injection Hrun as <- <-; eexists; (split_and!; [reflexivity| |done|done]); by apply stands_short_new.
  - destruct key as [|i key]; [done|]. go_inv Hrun. destruct a0 as [d1 n1]. destruct (stands_get _ _ _ _ Hxs Hm) as (y & -> & Hy). cbn [mbind result_bind].
    destruct (IH false y a _ _ f _ _ Hy Hm0 ltac:(lia)) as (x1 & -> & Hx1 & _ & Hd1). cbn [mbind result_bind].
    destruct d1; cbn [negb] in Hrun |- *; [|injection Hrun as <- <-; by eexists]. pose proof (stands_set _ _ i _ _ Hxs Hx1) as Hset.
    rewrite (stands_left_over _ _ Hset). destruct (0 <=? left_over (set_child ns i n1)); [|injection Hrun as <- <-; eexists; split_and!; [done|by apply stands_full_new|done|done]].
    apply result_bind_ok in Hrun as (last_n & Hlast & Hrun). destruct (stands_get _ _ _ _ Hset Hlast) as (last_x & -> & Hsl). cbn [mbind result_bind].
    destruct (negb _); [|injection Hrun as <- <-; eexists; split_and!; [done|by apply stands_short_new|done|done]].
    apply result_bind_ok in Hrun as (cn & Hcn & Hrun).
    assert (cn = last_n) as -> by (destruct last_n; try (by injection Hcn); by apply stands_target in Hsl).
    assert (∃ cx, resolve db last_x prefix = Ok cx ∧ stands false cx last_n ∧ is_hash_node cx = false) as (cx & -> & Hcx & Hnh).
    { destruct (is_hash_node last_x) eqn:Hh; [|exists last_x; split_and!; [by destruct last_x|done|done]]. destruct last_x as [|h| | |]; try done.
      destruct (stands_loaded _ _ _ Hsl) as (z & Hz & Hzh & _ & _ & Hsz). exists z. split_and!; [cbn; unfold resolveHash; by rewrite Hz|done|done]. }
    cbn [mbind result_bind]. destruct last_n as [|h1|v1|k1 m1 fl1|ns1 fl1]; [|by apply stands_target in Hcx|..]; inversion Hcx; subst; try done; injection Hrun as <- <-; eexists; (split_and!; [reflexivity| |done|done]); by apply stands_short_new.
Qed.
End stands.

(** * A trie over a database is a finite map *)
Section map.
Context `{NodeDigest} (db : Hash → option node) (good : bool → nodeFlag → node → Prop) (good_new : ∀ b n, good b newFlag n).
Definition holds (x : node) (m : gmap (list byte) (list byte)) : Prop := ∃ n, stands db good true x n ∧ represents n m.
Lemma holds_empty : holds nilNode ∅.
Proof. exists nilNode. split; [constructor|apply represents_empty]. Qed.
Lemma short_walk k : (length k + 1 < length k + 2)%nat ∧ (2 * (length k + 2) ≤ walk_fuel k)%nat.
Proof. unfold walk_fuel. lia. Qed.

Lemma TryGet_holds x m k : holds x m → Forall is_byte k → ∃ x', TryGet db x k = (Ok (m !! k), x') ∧ holds x' m.
Proof.
  intros (n & Hs & Hr) Hk. unfold TryGet. set (hk := keybytesToHex k). destruct (short_walk hk) as [Hw1 Hw2].
  assert (tryGet db (length hk + 2) n [] hk = Ok (m !! k, n, false)) as Hrun.
  { rewrite tryGet_ok by (by apply (rep_wf _ _ Hr) || by apply keybytesToHex_tkey || lia). unfold hk. by rewrite (rep_get n m). }
  destruct (stands_tryGet db good _ true x n [] hk _ _ _ _ Hs Hrun Hw2) as (x' & d & -> & Hs' & _). eexists. split; [done|]. destruct d; by exists n.
Qed.
Lemma TryDelete_holds x m k : holds x m → Forall is_byte k → ∃ x', TryDelete db x k = (Ok tt, x') ∧ holds x' (base.delete k m).
Proof.
  intros (n & Hs & Hr) Hk. unfold TryDelete. set (hk := keybytesToHex k). destruct (short_walk hk) as [Hw1 Hw2].
  destruct (delete_ok db n hk (length hk + 2) []) as (d & n' & Hrun & [Hwf _ Hfind _]); [by apply (rep_wf _ _ Hr)|by apply keybytesToHex_tkey|done|].
  destruct (stands_delete db good good_new _ true x n [] hk _ _ _ Hs Hrun Hw2) as (x' & -> & Hs' & _). exists x'. split; [done|]. exists n'. split; [done|].
  by eapply represents_alter.
Qed.
Lemma TryUpdate_holds x m k v : holds x m → Forall is_byte k →
  ∃ x', TryUpdate db x k v = (Ok tt, x') ∧ holds x' (if decide (v = []) then base.delete k m else <[k := v]> m).
Proof.
  intros Hx Hk. unfold TryUpdate. case_decide as Hv; [rewrite bool_decide_false by (by intros ?); by apply TryDelete_holds|]. rewrite bool_decide_true by done.
  destruct Hx as (n & Hs & Hr). set (hk := keybytesToHex k). destruct (short_walk hk) as [Hw1 Hw2].
  destruct (insert_ok db n hk (length hk + 2) [] v) as (d & n' & Hrun & [Hwf _ Hfind _]); [by apply (rep_wf _ _ Hr)|by apply keybytesToHex_tkey|done|].
  destruct (stands_insert db good good_new _ true x n [] hk (valueNode v) (valueNode v) _ _ _ Hs (stands_value _ _ _ _) (or_intror (tkey_nonempty _ (keybytesToHex_tkey _ Hk))) Hrun Hw2) as (x' & -> & Hs' & _).
  exists x'. split; [done|]. exists n'. split; [done|]. by eapply represents_alter; [..|by right|].
Qed.
Lemma run_op_holds x m o : holds x m → Forall is_byte (op_key o) → ∃ x', run_op db x o = (Ok (map_op m o).1, x') ∧ holds x' (map_op m o).2.
Proof.
  intros Hx Hk. destruct o as [k|k v|k]; cbn in Hk |- *.
  - by apply TryGet_holds.
  - destruct (TryUpdate_holds x m k v Hx Hk) as (x' & -> & Hx'). by exists x'.
  - destruct (TryDelete_holds x m k Hx Hk) as (x' & -> & Hx'). by exists x'.
Qed.
Lemma run_ops_holds x m ops : holds x m → Forall (λ o, Forall is_byte (op_key o)) ops →
  ∃ x', run_ops db x ops = (Ok <$> (map_ops m ops).1, x') ∧ holds x' (map_ops m ops).2.
Proof.
  intros Hx Hops. revert x m Hx. induction Hops as [|o ops Ho _ IH]; intros x m Hx; [by exists x|]. cbn.
  destruct (run_op_holds x m o Hx Ho) as (x1 & -> & Hx1). destruct (map_op m o) as [r m1]. cbn in *.
  destruct (IH x1 m1 Hx1) as (x2 & -> & Hx2). destruct (map_ops m1 ops) as [rs m2]. by exists x2.
Qed.
End map.
