(* ===== verification/TrieCommit.v ===== *)
(** Hashing and committing tries that are in memory in part: the root hash is
    that of the whole trie, and a database that holds what a commit wrote can
    load the trie again. *)
From S2P Require Import Prelude Types TrieEncoding Trie TrieMemory TrieMap TrieRoot Memorydb TrieNode TrieLoad.

(** ** Values are not empty *)
Fixpoint valued (n : node) : Prop :=
  match n with
  | valueNode v => v ≠ []
  | shortNode _ c _ => valued c
  | fullNode cs _ => foldr (λ c P, valued c ∧ P) True cs
  | _ => True
  end.
Lemma valued_children cs : foldr (λ c P, valued c ∧ P) True cs ↔ Forall valued cs.
Proof. induction cs as [|c cs IH]; cbn; [done|]. by rewrite IH, Forall_cons. Qed.
Lemma valued_find n : wf n → (∀ k v, tkey k → find n k = Some v → v ≠ []) → valued n.
Proof.
  induction 1 as [k v fl Hk|k n fl Hk Hne Hf Hw IH|ns fl Hlen Hsub IH Hv Hocc]; intros Hfind; cbn [valued].
  - apply (Hfind k v Hk). replace k with (k ++ []) at 2 by apply app_nil_r. by rewrite find_short_app.
  - apply IH. intros k' v Hk' Hv. apply (Hfind (k ++ k') v); [by apply tkey_app|]. by rewrite find_short_app.
  - assert (wf (fullNode ns fl)) as Hwf by by constructor. apply valued_children, Forall_lookup. intros j c Hc.
    destruct (is_nil c) eqn:Hnil; [by destruct c|]. assert (∀ k v, tkey (Z.of_nat j :: k) → find c k = Some v → v ≠ []) as Hslot.
    { intros k v Hk Hfc. apply (Hfind _ v Hk). by rewrite (find_slot ns fl j c k Hc). }
    destruct (full_slot _ _ _ _ Hwf Hc Hnil) as [Hj [[Hnib Hw]|[Ht Hval]]].
    + unfold is_nibble in Hnib. apply (IH j c); [lia|done|by intros ->|]. intros k v Hk Hv'. apply (Hslot k v); [|done]. apply tkey_cons. right. split; [done|done].
    + destruct c as [| |v| |]; try done. apply (Hslot [] v); [|done]. apply tkey_cons. by left.
Qed.

(** The hashes a node is known to refer to. *)
Fixpoint node_hashes (n : node) : list Hash :=
  match n with
  | hashNode h => [h]
  | shortNode _ c _ => node_hashes c
  | fullNode cs _ => concat (map node_hashes cs)
  | _ => []
  end.
Lemma node_hashes_expanded c : ∀ hash, node_hashes (expanded hash c) = node_hashes c.
Proof.
  induction c as [|h|v|k n fl IH|ns fl IH] using node_nested_ind; intros hash; cbn [expanded node_hashes]; [done..|by rewrite IH|].
  f_equal. rewrite map_map. induction IH as [|c cs Hc _ IH]; [done|]. cbn. by rewrite Hc, IH.
Qed.

(** The hash is 32 bytes long. *)
Class DigestRange `{NodeDigest} := digest_range bs : is_hash (keccak256 bs).

Section commits.
Context `{NodeDigest}.
Implicit Types db : Hash → option node.

(** * What is in the database, and flags that tell the truth

    A clean node is in the database; a clean node without a hash is spelled out
    in a parent that is. *)
Definition fresh db : Prop := ∀ h y, db h = Some y → ∃ c, y = expanded (Some h) c.
Definition kept (b : bool) (fl : nodeFlag) (n : node) : Prop := fl = mkFlag None false → b = false ∧ large (merkle n) = false.
Definition stored db (h : Hash) (n : node) : Prop := ∃ y, db h = Some y ∧ is_branch y = true ∧ stands db kept true y n.
Definition good db (b : bool) (fl : nodeFlag) (n : node) : Prop :=
  kept b fl n ∧ ∀ h d, fl = mkFlag (Some h) d → h = digest (merkle n) ∧ (b = false → large (merkle n) = true) ∧ (d = false → stored db h n).
Lemma good_new db b n : good db b newFlag n.
Proof. split; [by intros [=]|by intros h d [=]]. Qed.

Definition extends db db' : Prop := ∀ h y, db h = Some y → db' h = Some y.
(** More is known, and less is asked of the flags. *)
Lemma stands_mono db db' G G' : extends db db' → (∀ b fl n, G b fl n → G' b fl n) → ∀ n b x, stands db G b x n → stands db' G' b x n.
Proof.
  intros Hdb HG. assert (∀ n b, (∀ x, is_hash_node x = false → stands db G b x n → stands db' G' b x n) → ∀ x, stands db G b x n → stands db' G' b x n) as Hlift.
  { intros n b Hplain x Hs. destruct (is_hash_node x) eqn:Hx; [|by apply Hplain]. inversion Hs as [| | | |? h0 y m Hh Hb Hsy Hd Hl]; subst; try done.
    apply stands_hash with y; [by apply Hdb|done|apply Hplain; [by destruct y|done]|done|done]. }
  induction n as [|h|v|k n fl IH|ns fl IH] using node_nested_ind; intros b; apply Hlift; intros x Hx Hs.
  - apply stands_nil_inv in Hs. subst. constructor.
  - by apply stands_target in Hs.
  - apply stands_value_inv in Hs. subst. constructor.
  - inversion Hs; subst; [|done]. constructor; [by apply IH|by apply HG].
  - inversion Hs as [| | |? xs ? fl1 ? Hxs Hg|]; subst; [|done]. constructor; [|by apply HG]. clear -IH Hxs.
    revert xs Hxs. induction IH as [|n ns Hn _ IH]; intros xs Hxs; inversion Hxs; subst; constructor; auto.
Qed.
(** What stands for a trie reads only what it refers to. *)
Lemma stands_restrict db db' (P : Hash → Prop) G : (∀ h y, P h → db h = Some y → db' h = Some y ∧ ∀ h', h' ∈ node_hashes y → P h') →
  ∀ n b x, (∀ h, h ∈ node_hashes x → P h) → stands db G b x n → stands db' G b x n.
Proof.
  intros HP. assert (∀ n b, (∀ x, is_hash_node x = false → (∀ h, h ∈ node_hashes x → P h) → stands db G b x n → stands db' G b x n) →
      ∀ x, (∀ h, h ∈ node_hashes x → P h) → stands db G b x n → stands db' G b x n) as Hlift.
  { intros n b Hplain x Hx Hs. destruct (is_hash_node x) eqn:Hh; [|by apply Hplain]. inversion Hs as [| | | |? h0 y m Hy Hb Hsy Hd Hl]; subst; try done.
    destruct (HP _ y (Hx _ ltac:(by left)) Hy) as [Hy' Hsub]. apply stands_hash with y; [done|done|apply Hplain; [by destruct y|done|done]|done|done]. }
  induction n as [|h|v|k n fl IH|ns fl IH] using node_nested_ind; intros b; apply Hlift; intros x Hx Hsub Hs.
  - apply stands_nil_inv in Hs. subst. constructor.
  - by apply stands_target in Hs.
  - apply stands_value_inv in Hs. subst. constructor.
  - inversion Hs; subst; [|done]. constructor; [by apply IH|done].
  - inversion Hs as [| | |? xs ? fl1 ? Hxs Hg|]; subst; [|done]. constructor; [|done]. cbn [node_hashes] in Hsub. clear -IH Hxs Hsub.
    revert xs Hxs Hsub. induction IH as [|n ns Hn _ IH]; intros xs Hxs Hsub; inversion Hxs; subst; constructor.
    + apply Hn; [|done]. intros h Hh. apply Hsub, elem_of_app. by left.
    + apply IH; [done|]. intros h Hh. apply Hsub, elem_of_app. by right.
Qed.
Lemma stored_mono db db' h n : extends db db' → stored db h n → stored db' h n.
Proof. intros Hdb (y & Hy & Hb & Hs). exists y. split_and!; [by apply Hdb|done|]. by eapply stands_mono. Qed.
Lemma good_mono db db' b fl n : extends db db' → good db b fl n → good db' b fl n.
Proof. intros Hdb [Hk Hf]. split; [done|]. intros h d Heq. destruct (Hf h d Heq) as (? & ? & Hd). split_and!; [done|done|]. intros. by eapply stored_mono; [|apply Hd]. Qed.

(** A loaded node at another level. *)
Lemma loaded_level db h c b b' n : is_hash_node c = false → stands db kept b (expanded (Some h) c) n → stands db kept b' (expanded (Some h) c) n.
Proof. intros Hc. destruct c as [| | |k v fl|cs fl]; cbn [expanded]; inversion 1; subst; try done; constructor; try done; by intros [=]. Qed.
Lemma stored_loaded db h n b : fresh db → stored db h n → h = digest (merkle n) → (b = false → large (merkle n) = true) → stands db kept b (hashNode h) n.
Proof.
  intros Hf (y & Hy & Hb & Hs) Hd Hl. apply stands_hash with y; [done|done| |done|done]. destruct (Hf h y Hy) as [c ->].
  apply (loaded_level _ _ _ true); [|done]. rewrite expanded_branch in Hb. by destruct c.
Qed.
(** What is loaded has truthful flags. *)
Lemma revive_ok db : fresh db → ∀ n b hash c, stands db kept b (expanded hash c) n → is_hash_node c = false →
  match hash with Some h => h = digest (merkle n) ∧ (b = false → large (merkle n) = true) ∧ stored db h n | None => b = false end →
  stands db (good db) b (expanded hash c) n.
Proof.
  intros Hf n.
  assert (∀ n, (∀ b hash c, stands db kept b (expanded hash c) n → is_hash_node c = false →
      match hash with Some h => h = digest (merkle n) ∧ (b = false → large (merkle n) = true) ∧ stored db h n | None => b = false end →
      stands db (good db) b (expanded hash c) n) → ∀ c, stands db kept false (expanded None c) n → stands db (good db) false (expanded None c) n) as Hchild.
  { clear n. intros n Hplain c Hs. destruct (is_hash_node c) eqn:Hc; [|by apply Hplain]. destruct c as [|h| | |]; try done. cbn [expanded] in *.
    inversion Hs as [| | | |? ? y ? Hh Hb Hsy Hd Hl]; subst. destruct (Hf _ y Hh) as [c ->]. rewrite expanded_branch in Hb. assert (is_hash_node c = false) as Hch by by destruct c.
    apply stands_hash with (expanded (Some (digest (merkle n))) c); [done|by rewrite expanded_branch| |done|done].
    apply Hplain; [done|done|]. split_and!; [done|done|]. exists (expanded (Some (digest (merkle n))) c). split_and!; [done|by rewrite expanded_branch|].
    by apply (loaded_level _ _ _ false). }
  induction n as [|h|v|k n fl IH|ns fl IH] using node_nested_ind; intros b hash c Hs Hc Hh.
  - apply stands_nil_inv in Hs. rewrite Hs. constructor.
  - by apply stands_target in Hs.
  - apply stands_value_inv in Hs. rewrite Hs. constructor.
  - destruct c as [| | |k' v fl0|]; try done; cbn [expanded] in *; inversion Hs as [| |? ? ? ? ? ? Hsv Hk| |]; subst. constructor; [by apply (Hchild n)|].
    split; [done|]. intros h d [= -> <-]. tauto.
  - destruct c as [| | | |cs fl0]; try done; cbn [expanded] in *; inversion Hs as [| | |? ? ? ? ? Hcs Hk|]; subst. constructor.
    + clear -IH Hcs Hchild. revert cs Hcs. induction IH as [|n ns Hn _ IH]; intros [|c cs] Hcs; inversion Hcs; subst; constructor; [by apply (Hchild n)|by apply IH].
    + split; [done|]. intros h d [= -> <-]. tauto.
Qed.
Lemma revive_hash db h n b : fresh db → stored db h n → h = digest (merkle n) → (b = false → large (merkle n) = true) → stands db (good db) b (hashNode h) n.
Proof.
  intros Hf Hst Hd Hl. pose proof Hst as (y & Hy & Hb & Hs). apply stands_hash with y; [done|done| |done|done]. destruct (Hf h y Hy) as [c ->].
  rewrite expanded_branch in Hb. assert (is_hash_node c = false) as Hc by by destruct c. apply revive_ok; [done| |done|done]. by apply (loaded_level _ _ _ true).
Qed.

(** * The hasher on a trie in memory in part *)
(** The flags of a branch. *)
Definition flags_of (n : node) : nodeFlag := match n with shortNode _ _ fl | fullNode _ fl => fl | _ => newFlag end.
Lemma cache_flags n : is_branch n = true → cache n = (fHash (flags_of n), fDirty (flags_of n)).
Proof. by destruct n. Qed.
Lemma with_flags_const f n : with_flags f n = with_flags (λ _, f (flags_of n)) n.
Proof. by destruct n. Qed.
Definition inserts (calls : list store_call) (h : Hash) (blob : list byte) (c : node) : Prop := DbInsert h blob c ∈ calls.
(** A later database: it holds what was there and what was stored since. *)
Record later db db' (calls : list store_call) : Prop := {
  lt_extends : extends db db';
  lt_fresh : fresh db';
  lt_stored h blob c : inserts calls h blob c → db' h = Some (expanded (Some h) c)
}.
Lemma later_l db db' l1 l2 : later db db' (l1 ++ l2) → later db db' l1.
Proof. intros [? ? Hs]. split; [done..|]. intros h blob c Hc. eapply Hs. apply elem_of_app. by left. Qed.
Lemma later_r db db' l1 l2 : later db db' (l1 ++ l2) → later db db' l2.
Proof. intros [? ? Hs]. split; [done..|]. intros h blob c Hc. eapply Hs. apply elem_of_app. by right. Qed.
Lemma stands_hashes db G b x n : stands db G b x n → ∀ h, h ∈ node_hashes x → is_Some (db h).
Proof.
  revert b n. induction x as [|h|v|k x fl IH|xs fl IH] using node_nested_ind; intros b n Hs h'; cbn [node_hashes]; try by intros ?%not_elem_of_nil.
  - intros ->%list_elem_of_singleton. inversion Hs; subst. by eexists.
  - inversion Hs; subst. by eapply IH.
  - inversion Hs as [| | |? ? ns ? fl' Hxs Hgd|]; subst. clear Hs Hgd. revert ns Hxs. induction IH as [|y ys Hy _ IH]; intros ns Hxs; [by intros ?%not_elem_of_nil|].
    inversion Hxs; subst. cbn [map concat]. intros [Hin|Hin]%elem_of_app; [by eapply Hy|by eapply IH].
Qed.

(** ** What a hasher hands over

    Collapsed nodes with their hashes, after the nodes they refer to. *)
Definition true_insert (call : store_call) : Prop :=
  match call with DbInsert h blob c => blob = rlp_Encode (EncodeRLP c) ∧ h = keccak256 blob ∧ collapsed_ok c | OnLeaf _ _ => True end.
Definition ordered db (calls : list store_call) : Prop := ∀ pre h blob c post, calls = pre ++ DbInsert h blob c :: post →
  ∀ db', later db db' pre → ∀ h', h' ∈ node_hashes c → is_Some (db' h').
Lemma ordered_app db l1 l2 : ordered db l1 → ordered db l2 → ordered db (l1 ++ l2).
Proof.
  intros H1 H2 pre h blob c post Heq db' Hl. apply app_eq_inv in Heq as [(k & -> & Heq)|(k & -> & Heq)].
  - destruct k as [|call k].
    + cbn in Heq. apply (H2 [] h blob c post); [done|]. apply (later_r _ _ pre). by rewrite app_nil_r.
    + injection Heq as <- ->. by apply (H1 pre h blob c k).
  - apply (H2 k h blob c post Heq). by eapply later_r.
Qed.
Lemma ordered_no_insert db l : (∀ h blob c, ¬ inserts l h blob c) → ordered db l.
Proof. intros Hno pre h blob c post ->. exfalso. apply (Hno h blob c), elem_of_app. right. by constructor. Qed.
Lemma ordered_insert db l h blob c : ordered db l → (∀ db', later db db' l → ∀ h', h' ∈ node_hashes c → is_Some (db' h')) → ordered db (l ++ [DbInsert h blob c]).
Proof.
  intros Hl Hc pre h1 blob1 c1 post Heq db' Hlater.
  destruct post as [|call post _] using rev_ind; [by apply app_inj_tail in Heq as [-> [= -> -> ->]]; apply Hc|].
  rewrite app_comm_cons, app_assoc in Heq. apply app_inj_tail in Heq as [-> _]. by apply (Hl pre h1 blob1 c1 post).
Qed.
Record new_ok (storing : bool) db (new : list store_call) : Prop := {
  nk_none : storing = false → new = [];
  nk_true : Forall true_insert new;
  nk_ordered : ordered db new
}.
Lemma new_ok_nil storing db : new_ok storing db [].
Proof. split; [done|constructor|]. apply ordered_no_insert. by intros h blob c ?%not_elem_of_nil. Qed.
Lemma new_ok_app storing db l1 l2 : new_ok storing db l1 → new_ok storing db l2 → new_ok storing db (l1 ++ l2).
Proof. intros [N1 T1 O1] [N2 T2 O2]. split; [intros Hf; by rewrite N1, N2|by apply Forall_app|by apply ordered_app]. Qed.

Section hashing.
Context `{!DigestRange} (storing onleaf : bool) (db : Hash → option node) (Hfresh : fresh db).

Record walked (b : bool) (x n collapsed cached : node) (new : list store_call) : Prop := {
  wk_item : EncodeRLP collapsed = merkle n;
  wk_cache : cache collapsed = cache x;
  wk_ok : collapsed_ok collapsed;
  wk_flags : flags_of cached = flags_of x;
  wk_new : new_ok storing db new;
  wk_cached db' fl : later db db' new → good db' b fl n → stands db' (good db') b (with_flags (λ _, fl) cached) n;
  wk_stored db' hash : later db db' new → storing = true → kept b (mkFlag hash false) n → stands db' kept b (expanded hash collapsed) n
}.
Record hashed_well (b : bool) (n hashed cached : node) (new : list store_call) : Prop := {
  hw_item : hashed_as b n hashed;
  hw_new : new_ok storing db new;
  hw_ok : b = false → child_collapsed hashed;
  hw_cached db' : later db db' new → stands db' (good db') b cached n;
  hw_small db' : later db db' new → storing = true → b = false → stands db' kept false (expanded None hashed) n;
  hw_stored db' : later db db' new → storing = true → b || large (merkle n) = true → stored db' (digest (merkle n)) n
}.
Definition hashes_well (b : bool) (x n : node) : Prop := ∀ calls, ∃ hashed cached new,
  hash storing onleaf x b calls = (Ok (hashed, cached), calls ++ new) ∧ hashed_well b n hashed cached new.

Lemma store_step b n c calls : EncodeRLP c = merkle n → is_branch c = true → (∀ h, (cache c).1 = Some h → h = digest (merkle n)) →
  store storing onleaf c b calls = if negb (large (merkle n)) && negb b then (Ok c, calls)
    else (Ok (hashNode (digest (merkle n))), calls ++ if storing then DbInsert (digest (merkle n)) (rlp_Encode (merkle n)) c ::
      (if onleaf then leaf_calls c (digest (merkle n)) else []) else []).
Proof.
  intros Hitem Hb Hflag. rewrite large_length, negb_involutive. unfold store. rewrite Hitem.
  assert (default (keccak256 (rlp_Encode (merkle n))) (cache c).1 = digest (merkle n)) as ->.
  { destruct (cache c).1 as [h|] eqn:Hh; cbn; [by apply Hflag|done]. }
  destruct c; try done; destruct (_ && _); try done; destruct storing; unfold mbind, gom_bind, modify, mret, gom_ret; cbn; by rewrite ?app_nil_r.
Qed.
Lemma leaf_calls_true c h : Forall true_insert (leaf_calls c h).
Proof.
  destruct c as [| | |k v fl|cs fl]; cbn; [constructor..| |]; [destruct v; by repeat constructor|]. apply Forall_forall. intros call Hc.
  apply list_elem_of_omap in Hc as (d & _ & Hd). destruct d; try done. by injection Hd as <-.
Qed.
Lemma leaf_calls_none c h h' blob c' : ¬ inserts (leaf_calls c h) h' blob c'.
Proof.
  unfold inserts. destruct c as [| | |k v fl|cs fl]; cbn; try by intros ?%not_elem_of_nil.
  - destruct v; try by intros ?%not_elem_of_nil. by intros ?%list_elem_of_singleton.
  - intros Hc. apply list_elem_of_omap in Hc as (d & _ & Hd). by destruct d.
Qed.

Lemma leaf_calls_ok c h : new_ok true db (leaf_calls c h).
Proof. split; [done|apply leaf_calls_true|apply ordered_no_insert; intros ? ? ?; apply leaf_calls_none]. Qed.
(** A hash node is its own hash. *)
Lemma hash_known b h n : stands db (good db) b (hashNode h) n → hashes_well b (hashNode h) n.
Proof.
  intros Hs calls. exists (hashNode h), (hashNode h), []. rewrite app_nil_r. split; [done|].
  inversion Hs as [| | | |? ? y ? Hh Hb Hsy Hd Hl]; subst. assert (stored db (digest (merkle n)) n) as Hst.
  { exists y. split_and!; [done|done|]. destruct (Hfresh _ y Hh) as [c ->]. rewrite expanded_branch in Hb. apply (loaded_level _ _ _ b); [by destruct c|].
    eapply stands_mono; [by intros ? ? ?| |exact Hsy]. by intros ? ? ? [? _]. }
  split.
  - unfold hashed_as. destruct b; [done|]. by rewrite Hl.
  - apply new_ok_nil.
  - intros _. constructor. apply digest_range.
  - intros db' [Hx _ _]. eapply stands_mono; [exact Hx| |exact Hs]. intros b0 fl m. by apply good_mono.
  - intros db' [Hx Hf _] _ ->. apply stored_loaded; [done|by eapply stored_mono|done|done].
  - intros db' [Hx _ _] _ _. by eapply stored_mono.
Qed.
Lemma hash_walk b x n : is_branch x = true → stands db (good db) b x n →
  (∀ calls, ∃ collapsed cached new, hashChildren (λ c, hash storing onleaf c false) x calls = (Ok (collapsed, cached), calls ++ new) ∧ walked b x n collapsed cached new) →
  hashes_well b x n.
Proof.
  intros Hb Hs Hwalk calls. rewrite hash_eq by done. rewrite cache_flags by done.
  assert (good db b (flags_of x) n) as Hgood by (by inversion Hs; subst).
  assert (∀ h, fHash (flags_of x) = Some h → h = digest (merkle n) ∧ (b = false → large (merkle n) = true) ∧ (fDirty (flags_of x) = false → stored db h n)) as Hflag.
  { intros h Hh. apply (proj2 Hgood). by destruct (flags_of x); cbn in *; subst. }
  assert (fDirty (flags_of x) = true ∨ fHash (flags_of x) = None → ∃ hashed cached new, ('(collapsed, cached) ← hashChildren (λ c, hash storing onleaf c false) x;
      hashed ← store storing onleaf collapsed b;
      mret (hashed, with_flags (λ flags, mkFlag (match hashed with hashNode h => Some h | _ => None end)
        (if storing then false else fDirty flags)) cached)) calls = (Ok (hashed, cached), calls ++ new) ∧ hashed_well b n hashed cached new) as Hw.
  { intros Hd. destruct (Hwalk calls) as (c & ca & new & Hrun & [Wi Wc Wk Wf Wn Wca Wst]). pose proof (collapsed_branch c Wk) as Wb. rewrite (gom_bind_run _ _ _ _ _ Hrun).
    pose proof (store_step b n c (calls ++ new) Wi Wb) as Hst. rewrite Wc, cache_flags in Hst by done. specialize (Hst (λ h Hh, proj1 (Hflag h Hh))).
    destruct (negb (large (merkle n)) && negb b) eqn:Hsmall; rewrite (gom_bind_run _ _ _ _ _ Hst); rewrite with_flags_const, Wf.
    - apply andb_true_iff in Hsmall as [Hl%negb_true_iff Hb0%negb_true_iff]. subst b.
      assert ((match c with hashNode h => Some h | _ => None end) = None) as -> by by destruct c. eexists c, _, new. split; [done|]. split.
      + unfold hashed_as. by rewrite Hl.
      + done.
      + intros _. apply child_small; [done|]. rewrite large_length, <- Wi in Hl. apply negb_false_iff, Z.ltb_lt in Hl. unfold small. lia.
      + intros db' Hlater. apply Wca; [done|]. split; [by intros _|by intros h d [=]].
      + intros db' Hlater Hsto _. by apply Wst.
      + intros db' _ _. by rewrite Hl.
    - match type of Hst with _ = (_, _ ++ ?l) => set (new' := l) in * end. eexists _, _, (new ++ new'). rewrite <- app_assoc. split; [done|].
      assert (b = false → large (merkle n) = true) as Hl.
      { intros ->. rewrite andb_true_r in Hsmall. by apply negb_false_iff in Hsmall. }
      assert (∀ db', later db db' (new ++ new') → storing = true → stored db' (digest (merkle n)) n) as Hstored.
      { intros db' Hlater Hsto. exists (expanded (Some (digest (merkle n))) c). split_and!; [|by rewrite expanded_branch|].
        - apply (lt_stored _ _ _ Hlater _ (rlp_Encode (merkle n))), elem_of_app. right. subst new'. rewrite Hsto. by constructor.
        - apply (loaded_level _ _ _ b); [by destruct c|]. apply Wst; [by eapply later_l|done|by intros [=]]. }
      split.
      + unfold hashed_as. destruct b; [done|]. by rewrite Hl.
      + subst new'. destruct storing eqn:Hsto; [|rewrite app_nil_r; exact Wn]. rewrite cons_middle, app_assoc. apply new_ok_app; [|destruct onleaf; [apply leaf_calls_ok|apply new_ok_nil]].
        destruct Wn as [_ Wt Wo]. split; [done|apply Forall_app; split; [done|constructor; [cbn; by rewrite Wi|constructor]]|]. apply ordered_insert; [done|].
        intros db' Hlater h'. rewrite <- (node_hashes_expanded c (Some 0)). apply (stands_hashes db' kept b _ n). apply Wst; [done|done|by intros [=]].
      + intros _. constructor. apply digest_range.
      + intros db' Hlater. apply Wca; [by eapply later_l|]. split; [by intros [=]|]. intros h d [= <- Hdd]. split_and!; [done|done|]. intros ->.
        destruct storing eqn:Hsto; [by apply Hstored|]. destruct Hd as [Hd|Hd]; [congruence|]. exfalso.
        destruct (proj1 Hgood) as [-> Hlf]; [destruct (flags_of x); cbn in *; congruence|]. by rewrite Hl in Hlf.
      + intros db' Hlater Hsto ->. apply stored_loaded; [apply Hlater|by apply Hstored|done|done].
      + intros db' Hlater Hsto _. by apply Hstored. }
  cbv zeta. destruct (fHash (flags_of x)) as [h|] eqn:Hh; [|apply Hw; by right]. destruct (Hflag h eq_refl) as (-> & Hl & Hst).
  assert (∀ db', later db db' [] → stands db' (good db') b x n) as Hmono.
  { intros db' [Hx _ _]. eapply stands_mono; [exact Hx| |exact Hs]. intros b0 fl0 m. by apply good_mono. }
  assert (hashed_as b n (hashNode (digest (merkle n)))) as Hha by (unfold hashed_as; destruct b; [done|]; by rewrite Hl).
  destruct storing eqn:Hsto; cbn [negb]; [destruct (fDirty (flags_of x)) eqn:Hdirty; cbn [negb]; [apply Hw; by left|]|]; eexists _, _, []; rewrite app_nil_r; (split; [done|]);
    (split; [done|apply new_ok_nil|intros _; constructor; apply digest_range| | |]); intros db' Hlater; pose proof Hlater as [Hx Hf _].
  - apply revive_hash; [done|by eapply stored_mono; [|apply Hst]|done|done].
  - intros _ ->. apply stored_loaded; [done|by eapply stored_mono; [|apply Hst]|done|done].
  - intros _ _. by eapply stored_mono; [|apply Hst].
  - by apply Hmono.
  - intros ?. congruence.
  - intros ?. congruence.
Qed.
(** The children of a collapsed full node, from the [i]-th on. *)
Definition slot_ok (i : nat) (c : node) : Prop := c = nilNode ∨ (i < 16)%nat ∧ child_collapsed c ∨ (16 ≤ i)%nat ∧ ∃ w, c = valueNode w ∧ w ≠ [].
Definition slots_ok (i : nat) (cs : list node) : Prop := ∀ j c, cs !! j = Some c → slot_ok (i + j) c.
Lemma slots_ok_cons i c cs : slot_ok i c → slots_ok (S i) cs → slots_ok i (c :: cs).
Proof. intros Hc Hcs [|j] d; cbn; [intros [= <-]; by rewrite Nat.add_0_r|]. intros Hd. specialize (Hcs j d Hd). by replace (i + S j)%nat with (S i + j)%nat by lia. Qed.
Lemma full_collapsed cs fl : length cs = 17%nat → slots_ok 0 cs → collapsed_ok (fullNode cs fl).
Proof.
  intros Hlen Hs. destruct cs as [|v cs' _] using rev_ind; [done|]. rewrite length_app in Hlen. cbn in Hlen. assert (length cs' = 16%nat) as Hl by lia. constructor; [done| |].
  - apply Forall_lookup. intros j c Hc. destruct (Hs j c) as [?|[[_ ?]|[Hj _]]]; [by apply lookup_app_l_Some|by left|by right|]. apply lookup_lt_Some in Hc. lia.
  - destruct (Hs 16%nat v) as [?|[[Hj _]|[_ ?]]]; [rewrite lookup_app_r by lia; by rewrite Hl|by left|lia|by right].
Qed.
Lemma hash_children_ok xs ns i calls : Forall2 (stands db (good db) false) xs ns →
  (∀ j c, ns !! j = Some c → (c = nilNode ∨ (is_value c ∧ valued c) ∧ (16 ≤ i + j)%nat) ∨
    (i + j < 16)%nat ∧ is_branch c = true ∧ ∀ x, stands db (good db) false x c → hashes_well false x c) →
  ∃ collapsed cached new, hash_loop (λ c, hash storing onleaf c false) i xs calls = (Ok (collapsed, cached), calls ++ new) ∧
    map child_item collapsed = map (λ c, reference c (merkle c)) ns ∧ new_ok storing db new ∧ slots_ok i collapsed ∧ length collapsed = length xs ∧
    (∀ db', later db db' new → Forall2 (stands db' (good db') false) cached ns) ∧
    (∀ db', later db db' new → storing = true → Forall2 (stands db' kept false) (map (expanded None) collapsed) ns).
Proof.
  intros Hs. revert i calls. induction Hs as [|x n xs ns Hx Hs IH]; intros i calls Hns; [exists [], [], []; rewrite app_nil_r; split_and!; try done; try (by constructor); apply new_ok_nil|].
  cbn [hash_loop].
  assert (∃ hc hca new, (if bool_decide (i < 16)%nat && negb (is_nil x) then hash storing onleaf x false else mret (x, x)) calls = (Ok (hc, hca), calls ++ new) ∧
    child_item hc = reference n (merkle n) ∧ new_ok storing db new ∧ slot_ok i hc ∧
    (∀ db', later db db' new → stands db' (good db') false hca n) ∧ (∀ db', later db db' new → storing = true → stands db' kept false (expanded None hc) n)) as
    (hc & hca & new & Hhd & Hitem & Hn1 & Hslot & Hca & Hst).
  { destruct (Hns O n eq_refl) as [[->|[[Hv Hne] Hi]]|(Hi & Hb & Hg)].
    - apply stands_nil_inv in Hx. subst x. rewrite andb_false_r. exists nilNode, nilNode, []. rewrite app_nil_r.
      split_and!; try done; [apply new_ok_nil|by left|intros; constructor..].
    - destruct n as [| |v| |]; try done. apply stands_value_inv in Hx. subst x. rewrite bool_decide_false by lia. exists (valueNode v), (valueNode v), [].
      rewrite app_nil_r. split_and!; try done; [apply new_ok_nil|right; right; split; [lia|by exists v]|intros; constructor..].
    - rewrite bool_decide_true by lia. destruct (Hg x Hx calls) as (hc & hca & new & Hrun & [Ww Wn Wk Wc Ws _]). exists hc, hca, new.
      assert (is_nil x = false) as -> by (rewrite (stands_is_nil _ _ _ _ _ Hx); by destruct n). split_and!; [done|by apply hashed_item|done|right; left; split; [lia|by apply Wk]|done|].
      intros db' Hl Hsto. by apply Ws. }
  destruct (IH (S i) (calls ++ new)) as (cl & ca & new2 & Hrun & Hitems & Hn2 & Hsl2 & Hlen2 & Hca2 & Hst2).
  { intros j c Hc. specialize (Hns (S j) c Hc). by replace (S i + j)%nat with (i + S j)%nat by lia. }
  exists (hc :: cl), (hca :: ca), (new ++ new2). split.
  { rewrite (gom_bind_run _ _ _ _ _ Hhd), (gom_bind_run _ _ _ _ _ Hrun), app_assoc. done. }
  split_and!; [by cbn; rewrite Hitem, Hitems|by apply new_ok_app|by apply slots_ok_cons|by cbn; rewrite Hlen2| |].
  - intros db' Hl. constructor; [apply Hca; by eapply later_l|apply Hca2; by eapply later_r].
  - intros db' Hl Hsto. constructor; [apply Hst; [by eapply later_l|done]|apply Hst2; [by eapply later_r|done]].
Qed.
Lemma hash_stands n : wf n → valued n → ∀ b x, stands db (good db) b x n → hashes_well b x n.
Proof.
  induction 1 as [k v fl Hk|k n fl Hk Hne Hf Hw IH|ns fl Hlen Hsub IH Hv Hocc]; intros Hvd b x Hs;
    (destruct (is_branch x) eqn:Hb; [apply hash_walk; [done|done|]|destruct x; try (by inversion Hs); try done; by apply hash_known]); intros calls;
    inversion Hs as [| |? ? y ? fl0 ? Hy Hg|? xs ? fl0 ? Hxs Hg|]; subst; try done; cbn [hashChildren].
  - apply stands_value_inv in Hy. subst y. destruct (compact_key_hex k) as (Hc & Hx & _); [by right|]. rewrite Hc. eexists _, _, []. rewrite app_nil_r. split; [done|].
    split; try done; [by constructor|apply new_ok_nil| |].
    + intros db' fl1 _ Hg1. constructor; [constructor|done].
    + intros db' hash _ _ Hk1. cbn [expanded]. rewrite Hx. constructor; [constructor|done].
  - destruct (IH Hvd false y Hy calls) as (hc & hca & new & Hrun & [Ww Wn Wk Wc Ws _]). destruct (compact_key_hex k) as (Hc & Hx & _); [by left|]. rewrite Hc.
    exists (shortNode (compact_key k) hc fl0), (shortNode k hca fl0), new. split.
    { destruct y as [| |w| |]; [| |by inversion Hy; subst|..]; unfold mbind, gom_bind, lift; by rewrite Hrun. }
    split; try done; [|constructor; [done|by apply Wk]| |].
    + cbn. by rewrite (hashed_item_plain n hc) by (done || by apply wf_is_branch).
    + intros db' fl1 Hl Hg1. constructor; [by apply Wc|done].
    + intros db' hash Hl Hsto Hk1. cbn [expanded]. rewrite Hx. constructor; [by apply Ws|done].
  - assert (wf (fullNode ns fl)) as Hwf by by constructor.
    destruct (hash_children_ok xs ns 0 calls Hxs) as (cl & ca & new & Hrun & Hitems & Hn & Hsl & Hlc & Hca & Hst).
    { intros j c Hc. assert (valued c) as Hvc by (apply valued_children in Hvd; by eapply Forall_lookup_1 in Hvd). destruct (is_nil c) eqn:Hnil; [left; left; by destruct c|]. destruct (full_slot _ _ _ _ Hwf Hc Hnil) as [Hj [[Hnib Hw]|[Ht Hval]]].
      - right. unfold is_nibble in Hnib. split; [lia|]. split; [by apply wf_is_branch|]. intros y Hy. apply (IH j c); [lia|done|by intros ->|done|done].
      - left. right. split; [done|]. unfold terminator in Ht. lia. }
    exists (fullNode cl fl0), (fullNode ca fl0), new. split; [by rewrite (gom_bind_run _ _ _ _ _ Hrun)|].
    split; try done; [|apply full_collapsed; [by rewrite Hlc, (Forall2_length _ _ _ Hxs)|done]| |].
    + cbn. f_equal. exact Hitems.
    + intros db' fl1 Hl Hg1. constructor; [by apply Hca|done].
    + intros db' hash Hl Hsto Hk1. constructor; [by apply Hst|done].
Qed.

(** * [Hash] and [Commit] *)
Lemma RootHash_stands x n calls : wf_trie n → valued n → stands db (good db) true x n → ∃ root new,
  RootHash storing onleaf x calls = (Ok (root_hash n, root), calls ++ new) ∧ new_ok storing db new ∧
  ∀ db', later db db' new → stands db' (good db') true root n ∧ (storing = true → n ≠ nilNode → stored db' (root_hash n) n).
Proof.
  intros [->|Hn] Hval Hs.
  - apply stands_nil_inv in Hs. subst x. exists nilNode, []. rewrite app_nil_r. split_and!; [done|apply new_ok_nil|]. intros db' _. split; [constructor|done].
  - destruct (hash_stands n Hn Hval true x Hs calls) as (hashed & cached & new & Hrun & [Ww Wn _ Wc _ Ws]). cbn in Ww. subst hashed.
    assert (root_hash n = digest (merkle n)) as Hroot by by destruct Hn. rewrite Hroot. exists cached, new. split_and!; [|done|].
    + unfold RootHash, hashRoot. assert ((match x with nilNode => mret (hashNode emptyRoot, nilNode) | _ => hash storing onleaf x true end) calls =
        (Ok (hashNode (digest (merkle n)), cached), calls ++ new)) as Hr.
      { destruct x; try done; by inversion Hs; subst; inversion Hn. }
      by rewrite (gom_bind_run _ _ _ _ _ Hr).
    + intros db' Hl. split; [by apply Wc|]. intros Hsto _. by apply Ws.
Qed.
End hashing.
End commits.
