(* ===== verification/TrieDB.v ===== *)
(** The trie database ([trie/database.go]): trie nodes and blobs in memory,
    counted references between them, the list in which they are flushed, and
    their way to the key-value store. *)
From S2P Require Import Prelude Hoare Types TrieEncoding Trie Memorydb TrieNode.

(** * State *)
Record cachedNode := mkCached {
  cn_node : raw_node;
  cn_size : Z;
  cn_parents : Z;
  cn_children : option (gmap Hash Z);
  cn_flushPrev : Hash;
  cn_flushNext : Hash
}.
(** [reflect.TypeOf(cachedNode{}).Size()] on a 64-bit machine, and the size of
    an empty map. *)
Definition cachedNodeSize : Z := 96.
Definition cachedNodeChildrenSize : Z := 48.
Definition uint16 (x : Z) : Z := x mod 2 ^ 16.
Definition uint32 (x : Z) : Z := x mod 2 ^ 32.

Definition set_parents (f : Z → Z) (n : cachedNode) : cachedNode :=
  mkCached (cn_node n) (cn_size n) (f (cn_parents n)) (cn_children n) (cn_flushPrev n) (cn_flushNext n).
Definition set_children (c : option (gmap Hash Z)) (n : cachedNode) : cachedNode :=
  mkCached (cn_node n) (cn_size n) (cn_parents n) c (cn_flushPrev n) (cn_flushNext n).
Definition set_prev (h : Hash) (n : cachedNode) : cachedNode :=
  mkCached (cn_node n) (cn_size n) (cn_parents n) (cn_children n) h (cn_flushNext n).
Definition set_next (h : Hash) (n : cachedNode) : cachedNode :=
  mkCached (cn_node n) (cn_size n) (cn_parents n) (cn_children n) (cn_flushPrev n) h.

(** The cache of clean nodes ([bigcache]) may forget anything. *)
Class BigCache (K : Type) := {
  bc_New : Z → K;
  bc_Get : list byte → K → option (list byte);
  bc_Set : list byte → list byte → K → K
}.
Class BigCacheLaws (K : Type) `{BigCache K} : Prop := {
  bc_Get_New size key : bc_Get key (bc_New size) = None;
  bc_Get_Set key key' v w c : bc_Get key (bc_Set key' v c) = Some w → (key' = key ∧ v = w) ∨ bc_Get key c = Some w
}.

(** Sizes are floats that hold integers.  Of the statistics the counts are
    kept, the times are not. *)
Record TrieDatabase (K : Type) := mkTrieDatabase {
  td_diskdb : Database;
  td_cleans : option K;
  td_dirties : gmap Hash cachedNode;
  td_oldest : Hash;
  td_newest : Hash;
  td_preimages : gmap Hash (list byte);
  td_gc : Z * Z;
  td_flush : Z * Z;
  td_dirtiesSize : Z;
  td_childrenSize : Z;
  td_preimagesSize : Z
}.
Arguments mkTrieDatabase {K} _ _ _ _ _ _ _ _ _ _ _.
Arguments td_diskdb {K} _.
Arguments td_cleans {K} _.
Arguments td_dirties {K} _.
Arguments td_oldest {K} _.
Arguments td_newest {K} _.
Arguments td_preimages {K} _.
Arguments td_gc {K} _.
Arguments td_flush {K} _.
Arguments td_dirtiesSize {K} _.
Arguments td_childrenSize {K} _.
Arguments td_preimagesSize {K} _.

Section setters.
Context {K : Type}.
Implicit Types db : TrieDatabase K.
Definition set_store (disk : Database) (cleans : option K) db : TrieDatabase K :=
  mkTrieDatabase disk cleans (td_dirties db) (td_oldest db) (td_newest db) (td_preimages db) (td_gc db) (td_flush db)
    (td_dirtiesSize db) (td_childrenSize db) (td_preimagesSize db).
Definition set_dirties (dirties : gmap Hash cachedNode) db : TrieDatabase K :=
  mkTrieDatabase (td_diskdb db) (td_cleans db) dirties (td_oldest db) (td_newest db) (td_preimages db) (td_gc db) (td_flush db)
    (td_dirtiesSize db) (td_childrenSize db) (td_preimagesSize db).
Definition set_ends (oldest newest : Hash) db : TrieDatabase K :=
  mkTrieDatabase (td_diskdb db) (td_cleans db) (td_dirties db) oldest newest (td_preimages db) (td_gc db) (td_flush db)
    (td_dirtiesSize db) (td_childrenSize db) (td_preimagesSize db).
Definition set_preimages (preimages : gmap Hash (list byte)) (size : Z) db : TrieDatabase K :=
  mkTrieDatabase (td_diskdb db) (td_cleans db) (td_dirties db) (td_oldest db) (td_newest db) preimages (td_gc db) (td_flush db)
    (td_dirtiesSize db) (td_childrenSize db) size.
Definition set_stats (gc flush : Z * Z) db : TrieDatabase K :=
  mkTrieDatabase (td_diskdb db) (td_cleans db) (td_dirties db) (td_oldest db) (td_newest db) (td_preimages db) gc flush
    (td_dirtiesSize db) (td_childrenSize db) (td_preimagesSize db).
Definition add_sizes (dirties children : Z) db : TrieDatabase K :=
  mkTrieDatabase (td_diskdb db) (td_cleans db) (td_dirties db) (td_oldest db) (td_newest db) (td_preimages db) (td_gc db) (td_flush db)
    (td_dirtiesSize db + dirties) (td_childrenSize db + children) (td_preimagesSize db).
End setters.

(** [errors.New("not found")] of [Node], and of the store. *)
Inductive trie_db_error := errNotFound.

Section database.
Context `{NodeDigest} `{NodeDecode} `{MapRange} {K : Type} `{BigCache K}.
Implicit Types db : TrieDatabase K.
Abbreviation M := (GoM (TrieDatabase K) trie_db_error).

(** [NewDatabaseWithCache]; the metaroot is the entry of the zero hash. *)
Definition metaroot : cachedNode := mkCached rawNil 0 0 (Some ∅) zero_hash zero_hash.
Definition NewDatabaseWithCache (diskdb : Database) (cache : Z) : TrieDatabase K :=
  mkTrieDatabase diskdb (if 0 <? cache then Some (bc_New cache) else None) {[ zero_hash := metaroot ]} zero_hash zero_hash ∅ (0, 0) (0, 0) 0 0 0.
Definition NewDatabase (diskdb : Database) : TrieDatabase K := NewDatabaseWithCache diskdb 0.

(** * Nodes and references *)

(** [db.dirties[hash].field = v] *)
Definition on_entry (hash : Hash) (f : cachedNode → cachedNode) : M unit :=
  db ← get_state;
  match td_dirties db !! hash with
  | Some n => put_state (set_dirties (<[hash := f n]> (td_dirties db)) db)
  | None => panic NilDereference
  end.
(** [childs]: the references from outside first. *)
Definition external (n : cachedNode) : list Hash := (map_range (default ∅ (cn_children n))).*1.
Definition childs (n : cachedNode) : M (list Hash) :=
  inner ← lift (match cn_node n with rawNode _ => Ok [] | r => gatherChildren r end);
  mret (external n ++ inner).

Definition add_parent (child : Hash) : M unit :=
  db ← get_state;
  match td_dirties db !! child with
  | Some _ => on_entry child (set_parents (λ p, uint32 (p + 1)))
  | None => mret tt
  end.
Definition cached_form (n : raw_node + node) : Result trie_db_error raw_node := match n with inl r => Ok r | inr n => simplifyNode n end.
(** [insert], given a raw blob or a node; the size is added up in 16 bits. *)
Definition db_insert (hash : Hash) (blob : list byte) (n : raw_node + node) : M unit :=
  db ← get_state;
  match td_dirties db !! hash with
  | Some _ => mret tt
  | None =>
      r ← lift (cached_form n);
      let entry := mkCached r (uint16 (Z.of_nat (length blob))) 0 None (td_newest db) zero_hash in
      children ← childs entry;
      for_each children add_parent;;
      modify (λ db, set_dirties (<[hash := entry]> (td_dirties db)) db);;
      db ← get_state;
      (if td_oldest db =? zero_hash then modify (set_ends hash hash)
       else on_entry (td_newest db) (set_next hash);; modify (λ db, set_ends (td_oldest db) hash db));;
      modify (add_sizes (uint16 (Z.of_nat HashLength + cn_size entry)) 0)
  end.
Definition InsertBlob (hash : Hash) (blob : list byte) : M unit := db_insert hash blob (inl (rawNode blob)).
Definition insertPreimage (hash : Hash) (preimage : list byte) : M unit :=
  db ← get_state;
  match td_preimages db !! hash with
  | Some _ => mret tt
  | None => put_state (set_preimages (<[hash := preimage]> (td_preimages db)) (td_preimagesSize db + Z.of_nat (HashLength + length preimage)) db)
  end.

(** [reference] *)
Definition Reference (child parent : Hash) : M unit :=
  db ← get_state;
  match td_dirties db !! child with
  | None => mret tt
  | Some _ =>
      match td_dirties db !! parent with
      | None => panic NilDereference
      | Some p =>
          let count := default ∅ (cn_children p) !! child in
          let known := bool_decide (is_Some (cn_children p)) in
          if known && bool_decide (is_Some count) && negb (parent =? zero_hash) then mret tt else
          (if known then mret tt else modify (add_sizes 0 cachedNodeChildrenSize));;
          on_entry child (set_parents (λ n, uint32 (n + 1)));;
          let count := uint16 (default 0 count + 1) in
          on_entry parent (λ p, set_children (Some (<[child := count]> (default ∅ (cn_children p)))) p);;
          if count =? 1 then modify (add_sizes 0 (Z.of_nat HashLength + 2)) else mret tt
      end
  end.

(** A node leaves the flush list. *)
Definition unlink (hash : Hash) (node : cachedNode) : M unit :=
  db ← get_state;
  if hash =? td_oldest db then
    put_state (set_ends (cn_flushNext node) (td_newest db) db);;
    on_entry (cn_flushNext node) (set_prev zero_hash)
  else if hash =? td_newest db then
    put_state (set_ends (td_oldest db) (cn_flushPrev node) db);;
    on_entry (cn_flushPrev node) (set_next zero_hash)
  else
    on_entry (cn_flushPrev node) (set_next (cn_flushNext node));;
    on_entry (cn_flushNext node) (set_prev (cn_flushPrev node)).
(** The parent forgets a reference from outside. *)
Definition drop_reference (child parent : Hash) : M unit :=
  db ← get_state;
  match td_dirties db !! parent with
  | None => panic NilDereference
  | Some p =>
      match cn_children p with
      | None => mret tt
      | Some c =>
          let count := default 0 (c !! child) in
          if 0 <? count then
            if count - 1 =? 0 then
              on_entry parent (set_children (Some (base.delete child c)));;
              modify (add_sizes 0 (- (Z.of_nat HashLength + 2)))
            else on_entry parent (set_children (Some (<[child := count - 1]> c)))
          else mret tt
      end
  end.
(** What [dereference] does once the parent has forgotten the child. *)
Definition release (dereference : Hash → Hash → M unit) (child : Hash) : M unit :=
  db ← get_state;
  match td_dirties db !! child with
  | None => mret tt
  | Some node =>
      let parents := if 0 <? cn_parents node then cn_parents node - 1 else cn_parents node in
      on_entry child (set_parents (λ _, parents));;
      if negb (parents =? 0) then mret tt else
      unlink child node;;
      hashes ← childs node;
      for_each hashes (λ hash, dereference hash child);;
      db ← get_state;
      let node' := default node (td_dirties db !! child) in
      modify (λ db, set_dirties (base.delete child (td_dirties db)) db);;
      modify (add_sizes (- (Z.of_nat HashLength + cn_size node))
        (if bool_decide (is_Some (cn_children node')) then - cachedNodeChildrenSize else 0))
  end.
(** One turn of fuel for every level below [child]. *)
Fixpoint dereference (fuel : nat) (child parent : Hash) : M unit :=
  match fuel with
  | O => panic OutOfFuel
  | S fuel => drop_reference child parent;; release (dereference fuel) child
  end.
Definition Dereference (root : Hash) : M unit :=
  if root =? zero_hash then mret tt else
  db ← get_state;
  let nodes := Z.of_nat (size (td_dirties db)) in
  let storage := td_dirtiesSize db in
  dereference (S (size (td_dirties db))) root zero_hash;;
  modify (λ db, set_stats (((td_gc db).1 + (nodes - Z.of_nat (size (td_dirties db))))%u64, (td_gc db).2 + (storage - td_dirtiesSize db)) (td_flush db) db).

(** * Reading *)
Definition clean_Get (hash : Hash) db : option (list byte) := cleans ← td_cleans db; bc_Get (Hash_Bytes hash) cleans.
Definition clean_Set (hash : Hash) (enc : list byte) : M unit :=
  modify (λ db, set_store (td_diskdb db) (bc_Set (Hash_Bytes hash) enc <$> td_cleans db) db).
Definition db_node (hash : Hash) : M (option node) :=
  db ← get_state;
  match clean_Get hash db with
  | Some enc => n ← lift (mustDecodeNode hash enc); mret (Some n)
  | None =>
      match td_dirties db !! hash with
      | Some dirty => n ← lift (raw_obj hash (cn_node dirty)); mret (Some n)
      | None =>
          match db_Get (td_diskdb db) (Hash_Bytes hash) with
          | None => mret None
          | Some enc => clean_Set hash enc;; n ← lift (mustDecodeNode hash enc); mret (Some n)
          end
      end
  end.
Definition Node (hash : Hash) : M (list byte) :=
  if hash =? zero_hash then throw errNotFound else
  db ← get_state;
  match clean_Get hash db with
  | Some enc => mret enc
  | None =>
      match td_dirties db !! hash with
      | Some dirty => mret (raw_rlp (cn_node dirty))
      | None =>
          match db_Get (td_diskdb db) (Hash_Bytes hash) with
          | None => throw errNotFound
          | Some enc => clean_Set hash enc;; mret enc
          end
      end
  end.
Definition secureKey (key : list byte) : list byte := preimagePrefix ++ key.
Definition db_preimage (hash : Hash) : M (list byte) :=
  db ← get_state;
  match td_preimages db !! hash with
  | Some preimage => mret preimage
  | None =>
      match db_Get (td_diskdb db) (secureKey (Hash_Bytes hash)) with
      | None => throw errNotFound
      | Some preimage => mret preimage
      end
  end.
Definition Nodes db : list Hash := filter (λ hash, hash ≠ zero_hash) (map_range (td_dirties db)).*1.

(** * Flushing *)
Definition disk_Write (batch : list keyvalue) : M unit :=
  modify (λ db, set_store (batch_Write batch (td_diskdb db)) (td_cleans db) db).
(** The writes that precede a full batch are performed. *)
Fixpoint put_preimages (l : list (Hash * list byte)) (batch : list keyvalue) : M (list keyvalue) :=
  match l with
  | [] => mret batch
  | (hash, preimage) :: l =>
      let batch := batch ++ [PutKey (secureKey (Hash_Bytes hash)) preimage] in
      if IdealBatchSize <? ValueSize batch then disk_Write batch;; put_preimages l []
      else put_preimages l batch
  end.
Definition metaroot_children db : gmap Hash Z := default ∅ (td_dirties db !! zero_hash ≫= cn_children).
(** [Size] *)
Definition nodes_size db : Z :=
  td_dirtiesSize db + td_childrenSize db + (Z.of_nat (size (td_dirties db)) - 1) * cachedNodeSize
  - Z.of_nat (size (metaroot_children db)) * (Z.of_nat HashLength + 2).
Definition Size db : Z * Z := (nodes_size db, td_preimagesSize db).
Definition children_size (n : cachedNode) : Z :=
  match cn_children n with Some c => cachedNodeChildrenSize + Z.of_nat (size c) * (Z.of_nat HashLength + 2) | None => 0 end.

(** The loop of [Cap] over the flush list: what is left to flush, and the batch. *)
Fixpoint flush_list (fuel : nat) (limit total : Z) (oldest : Hash) (batch : list keyvalue) : M (Hash * list keyvalue) :=
  if negb (limit <? total) || (oldest =? zero_hash) then mret (oldest, batch) else
  match fuel with
  | O => panic OutOfFuel
  | S fuel =>
      db ← get_state;
      match td_dirties db !! oldest with
      | None => panic NilDereference
      | Some node =>
          let batch := batch ++ [PutKey (Hash_Bytes oldest) (raw_rlp (cn_node node))] in
          let total := total - (Z.of_nat HashLength + cn_size node + cachedNodeSize) - children_size node in
          if IdealBatchSize <=? ValueSize batch then disk_Write batch;; flush_list fuel limit total (cn_flushNext node) []
          else flush_list fuel limit total (cn_flushNext node) batch
      end
  end.
(** The flushed nodes leave the memory. *)
Fixpoint drop_flushed (fuel : nat) (oldest : Hash) : M unit :=
  db ← get_state;
  if td_oldest db =? oldest then mret tt else
  match fuel with
  | O => panic OutOfFuel
  | S fuel =>
      match td_dirties db !! td_oldest db with
      | None => panic NilDereference
      | Some node =>
          put_state (set_ends (cn_flushNext node) (td_newest db) (set_dirties (base.delete (td_oldest db) (td_dirties db)) db));;
          modify (add_sizes (- (Z.of_nat HashLength + cn_size node)) (- children_size node));;
          drop_flushed fuel oldest
      end
  end.
Definition Cap (limit : Z) : M unit :=
  db0 ← get_state;
  let flushPreimages := 4 * 1024 * 1024 <? td_preimagesSize db0 in
  batch ← (if flushPreimages then put_preimages (map_range (td_preimages db0)) [] else mret []);
  '(oldest, batch) ← flush_list (size (td_dirties db0)) limit (nodes_size db0) (td_oldest db0) batch;
  disk_Write batch;;
  (if flushPreimages then modify (set_preimages ∅ 0) else mret tt);;
  drop_flushed (size (td_dirties db0)) oldest;;
  db ← get_state;
  (if td_oldest db =? zero_hash then mret tt else on_entry (td_oldest db) (set_prev zero_hash));;
  modify (λ db, set_stats (td_gc db)
    (((td_flush db).1 + (Z.of_nat (size (td_dirties db0)) - Z.of_nat (size (td_dirties db))))%u64, (td_flush db).2 + (td_dirtiesSize db0 - td_dirtiesSize db)) db).

(** [cleaner.Put] and [cleaner.Delete] over the writes of a batch. *)
Definition uncache (key rlp : list byte) : M unit :=
  let hash := BytesToHash key in
  db ← get_state;
  match td_dirties db !! hash with
  | None => mret tt
  | Some node =>
      unlink hash node;;
      modify (λ db, set_dirties (base.delete hash (td_dirties db)) db);;
      modify (add_sizes (- (Z.of_nat HashLength + cn_size node) - children_size node) 0);;
      clean_Set hash rlp
  end.
Definition Replay (batch : list keyvalue) : M unit :=
  for_each batch (λ kv, match kv with PutKey key value => uncache key value | DeleteKey _ => panic (ExplicitPanic "Not implemented") end).
(** [commit], over a batch *)
Fixpoint commit (fuel : nat) (hash : Hash) (batch : list keyvalue) : M (list keyvalue) :=
  match fuel with
  | O => panic OutOfFuel
  | S fuel =>
      db ← get_state;
      match td_dirties db !! hash with
      | None => mret batch
      | Some node =>
          children ← childs node;
          batch ← for_acc children (commit fuel) batch;
          let batch := batch ++ [PutKey (Hash_Bytes hash) (raw_rlp (cn_node node))] in
          if IdealBatchSize <=? ValueSize batch then disk_Write batch;; Replay batch;; mret [] else mret batch
      end
  end.
Definition db_Commit (node : Hash) : M unit :=
  db0 ← get_state;
  batch ← put_preimages (map_range (td_preimages db0)) [];
  disk_Write batch;;
  batch ← commit (S (size (td_dirties db0))) node [];
  disk_Write batch;;
  Replay batch;;
  modify (set_preimages ∅ 0);;
  modify (set_stats (0, 0) (0, 0)).
End database.
