(* ===== verification/TrieDBInv.v ===== *)
(** The invariant of the trie database: which nodes are known, the flush list,
    the counted references and the sizes. *)
From S2P Require Import Prelude Hoare Types TrieEncoding Trie Memorydb TrieNode TrieDB.

(** * Sums over maps and occurrences in lists *)
Definition msum {A} (f : Z → A → Z) (m : gmap Z A) : Z := map_fold (λ k x acc, f k x + acc) 0 m.

Section sums.
Context {A : Type} (f : Z → A → Z).
Implicit Types m : gmap Z A.
Lemma msum_insert m k x : m !! k = None → msum f (<[k := x]> m) = f k x + msum f m.
Proof. intros Hk. unfold msum. rewrite map_fold_insert_L; [done| |done]. intros. lia. Qed.
Lemma msum_delete m k x : m !! k = Some x → msum f m = f k x + msum f (base.delete k m).
Proof. intros Hk. rewrite <- msum_insert by apply lookup_delete_eq. by rewrite insert_delete_id. Qed.
Lemma msum_update m k x y : m !! k = Some x → msum f (<[k := y]> m) = msum f m - f k x + f k y.
Proof. intros Hk. rewrite (msum_delete m k x) by done. rewrite <- insert_delete_eq, msum_insert by apply lookup_delete_eq. lia. Qed.
Lemma msum_nonneg m : (∀ k x, m !! k = Some x → 0 ≤ f k x) → 0 ≤ msum f m.
Proof.
  induction m as [|k x m Hk IH] using map_ind; [done|]. intros Hf. rewrite msum_insert by done.
  pose proof (Hf k x (lookup_insert_eq _ _ _)). assert (0 ≤ msum f m); [|lia]. apply IH. intros k' x' Hk'.
  apply Hf. rewrite lookup_insert_ne; [done|]. congruence.
Qed.
Lemma msum_zero m : (∀ k x, m !! k = Some x → f k x = 0) → msum f m = 0.
Proof.
  induction m as [|k x m Hk IH] using map_ind; [done|]. intros Hf. rewrite msum_insert, Hf by (done || apply lookup_insert_eq).
  rewrite IH; [done|]. intros k' x' Hk'. apply Hf. rewrite lookup_insert_ne; [done|]. congruence.
Qed.
Lemma msum_ge m k x : (∀ k x, m !! k = Some x → 0 ≤ f k x) → m !! k = Some x → f k x ≤ msum f m.
Proof.
  intros Hf Hk. rewrite (msum_delete m k x) by done. assert (0 ≤ msum f (base.delete k m)); [|lia].
  apply msum_nonneg. intros k' x' [_ Hk']%lookup_delete_Some. by eapply Hf.
Qed.
End sums.

Definition occ (h : Hash) (l : list Hash) : Z := Z.of_nat (length (filter (λ x, x = h) l)).
Lemma occ_nil h : occ h [] = 0.
Proof. done. Qed.
Lemma occ_cons h x l : occ h (x :: l) = (if decide (x = h) then 1 else 0) + occ h l.
Proof. unfold occ. rewrite filter_cons. case_decide; cbn [length]; lia. Qed.
Lemma occ_app h l l' : occ h (l ++ l') = occ h l + occ h l'.
Proof. unfold occ. rewrite filter_app, length_app. lia. Qed.
Lemma occ_nonneg h l : 0 ≤ occ h l.
Proof. unfold occ. lia. Qed.
Lemma occ_pos h l : h ∈ l → 1 ≤ occ h l.
Proof.
  induction l as [|x l IH]; [by intros ?%not_elem_of_nil|]. rewrite elem_of_cons, occ_cons. pose proof (occ_nonneg h l).
  intros [->|Hl]; [rewrite decide_True by done; lia|]. apply IH in Hl. case_decide; lia.
Qed.
Lemma occ_le h l : occ h l ≤ Z.of_nat (length l).
Proof. unfold occ. pose proof (length_filter (λ x, x = h) l). lia. Qed.
Lemma occ_perm h l l' : l ≡ₚ l' → occ h l = occ h l'.
Proof. unfold occ. by intros ->. Qed.
Lemma occ_none h l : h ∉ l → occ h l = 0.
Proof.
  induction l as [|x l IH]; [done|]. rewrite not_elem_of_cons, occ_cons. intros [? ?]. rewrite decide_False by done. by rewrite IH.
Qed.

Fixpoint before (c h : Hash) (l : list Hash) : Prop :=
  match l with [] => False | x :: l => (x = c ∧ h ∈ l) ∨ before c h l end.
Lemma before_elem c h l : before c h l → c ∈ l ∧ h ∈ l.
Proof. induction l as [|x l IH]; [done|]. rewrite !elem_of_cons. intros [[-> ?]|?]; naive_solver. Qed.
Lemma before_app c h l l' : before c h l → before c h (l ++ l').
Proof. induction l as [|x l IH]; [done|]. intros [[-> ?]|?]; [left|right; by apply IH]. rewrite elem_of_app. naive_solver. Qed.
Lemma before_last c h l : c ∈ l → before c h (l ++ [h]).
Proof. induction l as [|x l IH]; [by intros ?%not_elem_of_nil|]. intros [->|?]%elem_of_cons; [left; split; [done|]; set_solver|right; by apply IH]. Qed.
Lemma before_mid c y l1 h l2 : before c y (l1 ++ h :: l2) → c ≠ h → y ≠ h → before c y (l1 ++ l2).
Proof.
  intros Hb Hc Hy. induction l1 as [|x l1 IH]; cbn in *; [destruct Hb as [[-> _]|?]; done|].
  destruct Hb as [[-> Hb]|Hb]; [left; split; [done|]; set_solver|right; by apply IH].
Qed.

(** * The flush list

    The entries of [l] are chained; [prev] is what precedes the first, [next]
    what follows the last. *)
Definition head_or (d : Hash) (l : list Hash) : Hash := default d (head l).
Fixpoint seg (m : gmap Hash cachedNode) (prev : option Hash) (l : list Hash) (next : Hash) : Prop :=
  match l with
  | [] => True
  | h :: l => ∃ e, m !! h = Some e ∧ (∀ p, prev = Some p → cn_flushPrev e = p) ∧ cn_flushNext e = head_or next l ∧ seg m (Some h) l next
  end.
Definition last_or (d : option Hash) (l : list Hash) : option Hash := match last l with Some h => Some h | None => d end.

Lemma seg_app m prev l1 l2 next : seg m prev (l1 ++ l2) next ↔ seg m prev l1 (head_or next l2) ∧ seg m (last_or prev l1) l2 next.
Proof.
  revert prev. induction l1 as [|h l1 IH]; intros prev; cbn; [naive_solver|].
  assert (head_or next (l1 ++ l2) = head_or (head_or next l2) l1) as Hh by by destruct l1.
  assert (last_or prev (h :: l1) = last_or (Some h) l1) as Hl by (unfold last_or; destruct l1; [done|]; cbn; by destruct (last (_ :: l1)) eqn:He; [|by apply last_None in He]).
  setoid_rewrite IH. rewrite Hh, Hl. naive_solver.
Qed.
Lemma seg_frame m m' prev l next : (∀ h, h ∈ l → m' !! h = m !! h) → seg m prev l next → seg m' prev l next.
Proof.
  revert prev. induction l as [|h l IH]; intros prev Heq; [done|]. intros (e & He & Hp & Hn & Hs). exists e.
  split_and!; [by rewrite Heq by constructor|done|done|]. apply IH; [|done]. intros. apply Heq. by constructor.
Qed.
Lemma seg_lookup m prev l next h : seg m prev l next → h ∈ l → is_Some (m !! h).
Proof.
  revert prev. induction l as [|x l IH]; intros prev; [by intros _ ?%not_elem_of_nil|]. intros (e & He & _ & _ & Hs).
  rewrite elem_of_cons. intros [->|Hh]; [by eexists|by eapply IH].
Qed.
(** The end of a segment is redirected by its last entry, the start by its first. *)
Lemma seg_forget_prev m p l next : seg m p l next → seg m None l next.
Proof. destruct l; [done|]. intros (e & He & _ & Hn & Hs). by exists e. Qed.
Lemma seg_set_prev m p p' h l next : NoDup (h :: l) → seg m p (h :: l) next →
  ∃ e, m !! h = Some e ∧ seg (<[h := set_prev p' e]> m) (Some p') (h :: l) next.
Proof.
  intros [Hni _]%NoDup_cons (e & He & _ & Hn & Hs). exists e. split; [done|]. exists (set_prev p' e).
  split_and!; [apply lookup_insert_eq|by intros ? [= <-]|done|].
  eapply seg_frame; [|exact Hs]. intros x Hx. apply lookup_insert_ne. by intros ->.
Qed.
Lemma seg_set_next m p l h next next' : NoDup (l ++ [h]) → seg m p (l ++ [h]) next →
  ∃ e, m !! h = Some e ∧ seg (<[h := set_next next' e]> m) p (l ++ [h]) next'.
Proof.
  intros Hnd [Hl Hh]%seg_app. destruct Hh as (e & He & Hp & _ & _). exists e. split; [done|]. apply seg_app. split.
  - eapply seg_frame; [|exact Hl]. intros x Hx. apply lookup_insert_ne. intros ->. apply NoDup_app in Hnd as (_ & Hnd & _). by apply (Hnd x Hx), list_elem_of_singleton.
  - exists (set_next next' e). split_and!; [apply lookup_insert_eq|done|done|done].
Qed.

Lemma seg_same_links m prev l next h e e' : m !! h = Some e → cn_flushPrev e' = cn_flushPrev e → cn_flushNext e' = cn_flushNext e →
  seg m prev l next → seg (<[h := e']> m) prev l next.
Proof.
  intros He Hp Hn. revert prev. induction l as [|x l IH]; intros p; [done|]. intros (ex & Hex & Hpx & Hnx & Hs).
  destruct (decide (x = h)) as [->|Hne].
  - rewrite He in Hex. injection Hex as <-. exists e'. split_and!; [apply lookup_insert_eq|by rewrite Hp|by rewrite Hn|by apply IH].
  - exists ex. split_and!; [by rewrite lookup_insert_ne|done|done|by apply IH].
Qed.

(** * Entries without their links *)
Definition bare (e : cachedNode) : cachedNode := set_next zero_hash (set_prev zero_hash e).
Lemma bare_prev h e : bare (set_prev h e) = bare e.
Proof. done. Qed.
Lemma bare_next h e : bare (set_next h e) = bare e.
Proof. done. Qed.
Lemma bare_insert (m : gmap Hash cachedNode) h e e' : m !! h = Some e → bare e' = bare e → bare <$> <[h := e']> m = bare <$> m.
Proof. intros He Heq. rewrite fmap_insert, Heq. apply insert_id. by rewrite lookup_fmap, He. Qed.

Record list_ok (m : gmap Hash cachedNode) (oldest newest : Hash) (l : list Hash) : Prop := {
  lo_nodup : NoDup l;
  lo_zero : zero_hash ∉ l;
  lo_seg : seg m None l zero_hash;
  lo_oldest : oldest = head_or zero_hash l;
  lo_newest : l ≠ [] → last l = Some newest
}.

Section unlinking.
Context `{NodeDigest} `{NodeDecode} `{MapRange} {K : Type} `{BigCache K}.
Implicit Types db : TrieDatabase K.

Lemma on_entry_ok h f e db (Q : unit → TrieDatabase K → Prop) : td_dirties db !! h = Some e →
  Q tt (set_dirties (<[h := f e]> (td_dirties db)) db) → returns (on_entry h f) Q db.
Proof. intros He HQ. unfold on_entry. apply returns_bind, wp_get. by rewrite He. Qed.

Lemma head_or_cases l : head_or zero_hash l = zero_hash ∧ l = [] ∨ ∃ h l', l = h :: l' ∧ head_or zero_hash l = h.
Proof. destruct l as [|h l']; [by left|]. right. by exists h, l'. Qed.

Lemma unlink_ok db l1 child l2 node root : list_ok (td_dirties db) (td_oldest db) (td_newest db) (l1 ++ child :: l2) →
  td_dirties db !! child = Some node → td_dirties db !! zero_hash = Some root →
  returns (unlink child node) (λ _ db', ∃ m' o n, db' = set_dirties m' (set_ends o n db) ∧
    bare <$> m' = bare <$> td_dirties db ∧ list_ok m' o n (l1 ++ l2)) db.
Proof.
  intros [Hnd Hz Hseg Ho Hn] He Hroot. unfold unlink. apply returns_bind, wp_get.
  assert (NoDup (l1 ++ l2)) as Hnd' by (apply NoDup_app in Hnd as (? & Hd & [_ ?]%NoDup_cons); apply NoDup_app; set_solver).
  assert (zero_hash ∉ l1 ++ l2) as Hz' by set_solver.
  apply seg_app in Hseg as [Hs1 (e & He' & Hp & Hx & Hs2)]. rewrite He in He'. injection He' as <-. cbn [head_or] in Hs1.
  destruct (child =? td_oldest db) eqn:Hco.
  - apply Z.eqb_eq in Hco. assert (l1 = []) as ->.
    { destruct l1 as [|x l1]; [done|]. cbn in Ho. subst. apply NoDup_cons in Hnd as [Hni _]. set_solver. }
    cbn [app] in *. apply returns_bind. unfold returns, wp, put_state. rewrite Hx.
    destruct (head_or_cases l2) as [[-> ->]|(h & l' & -> & ->)].
    + eapply on_entry_ok; [exact Hroot|]. eexists _, _, _. split; [reflexivity|]. split; [by eapply bare_insert|]. by split.
    + destruct (seg_set_prev _ _ zero_hash h l' zero_hash Hnd' Hs2) as (eh & Heh & Hseg).
      eapply on_entry_ok; [exact Heh|]. eexists _, _, _. split; [reflexivity|]. split; [by eapply bare_insert|].
      split; [done|done|by eapply seg_forget_prev|done|]. intros _. by rewrite <- (Hn (ltac:(done))).
  - apply Z.eqb_neq in Hco. assert (∃ l1' a, l1 = l1' ++ [a]) as (l1' & a & ->).
    { destruct l1 as [|x l1 _] using rev_ind; [by cbn in Ho|]. by exists l1, x. }
    assert (cn_flushPrev node = a) as Hpa by (apply Hp; unfold last_or; by rewrite last_snoc).
    assert (NoDup (l1' ++ [a])) as Hnda by by apply NoDup_app in Hnd as (? & _).
    destruct (child =? td_newest db) eqn:Hcn.
    + apply Z.eqb_eq in Hcn. assert (l2 = []) as ->.
      { destruct l2 as [|x l2 _] using rev_ind; [done|]. assert (last ((l1' ++ [a]) ++ child :: l2 ++ [x]) = Some (td_newest db)) as Hl by (apply Hn; by destruct l1').
        rewrite app_comm_cons, app_assoc, last_snoc in Hl. injection Hl as ->. subst child. apply NoDup_app in Hnd as (_ & _ & [Hni _]%NoDup_cons). set_solver. }
      rewrite app_nil_r in *. apply returns_bind. unfold returns, wp, put_state. rewrite Hpa.
      destruct (seg_set_next _ _ _ _ _ zero_hash Hnda Hs1) as (ea & Hea & Hseg).
      eapply on_entry_ok; [exact Hea|]. eexists _, _, _. split; [reflexivity|]. split; [by eapply bare_insert|].
      split; [done|done|exact Hseg| |by rewrite last_snoc]. cbn. rewrite Ho. by destruct l1'.
    + apply Z.eqb_neq in Hcn. destruct l2 as [|b l2].
      { exfalso. apply Hcn. assert (last ((l1' ++ [a]) ++ [child]) = Some (td_newest db)) as Hl by (apply Hn; by destruct l1'). rewrite last_snoc in Hl. by injection Hl. }
      cbn [head_or default head] in Hx. rewrite Hpa, Hx. apply returns_bind.
      destruct (seg_set_next _ _ _ _ _ b Hnda Hs1) as (ea & Hea & Hseg1). eapply on_entry_ok; [exact Hea|].
      assert (seg (<[a := set_next b ea]> (td_dirties db)) (Some child) (b :: l2) zero_hash) as Hs2'.
      { eapply seg_frame; [|exact Hs2]. intros h Hh. apply lookup_insert_ne. intros ->.
        rewrite <- app_assoc in Hnd'. apply NoDup_app in Hnd' as (_ & _ & [Hni _]%NoDup_cons). by apply Hni. }
      assert (NoDup (b :: l2)) as Hndb by by apply NoDup_app in Hnd' as (_ & _ & ?).
      destruct (seg_set_prev _ _ a b l2 zero_hash Hndb Hs2') as (eb & Heb & Hseg2).
      eapply on_entry_ok; [exact Heb|]. eexists _, (td_oldest db), (td_newest db). split; [by destruct db|]. split.
      { cbn. erewrite bare_insert; [|exact Heb|done]. by eapply bare_insert. }
      split; [done|done| | |].
      * apply seg_app. split; [|unfold last_or; by rewrite last_snoc]. cbn [head_or default head].
        eapply seg_frame; [|exact Hseg1]. intros h Hh. apply lookup_insert_ne. intros <-. apply NoDup_app in Hnd' as (_ & Hd & _). apply (Hd b Hh). by constructor.
      * rewrite Ho. by destruct l1'.
      * intros _. rewrite <- Hn by by destruct l1'. by rewrite !last_app_cons, !last_cons_cons.
Qed.
End unlinking.

(** * What is stored under the hashes

    [content] is what each hash is the hash of, among everything the node ever
    hands to the database, and [ext] the references from outside that come with
    a node: the storage trie and the code of the accounts it holds. *)
Definition inner (r : raw_node) : list Hash :=
  match r with rawNode _ => [] | _ => match gatherChildren (E := trie_db_error) r with Ok l => l | _ => [] end end.

Section content.
Context `{NodeDigest} `{NodeDecode} `{MapRange} {K : Type} `{BigCache K}.
Context (content : Hash → option raw_node) (ext : Hash → list Hash).
Implicit Types db : TrieDatabase K.

Record content_ok : Prop := {
  co_hash h r : content h = Some r → is_hash h ∧ h ≠ zero_hash;
  co_gather h r : content h = Some r → match r with rawNode _ => True | _ => gatherChildren (E := trie_db_error) r = Ok (inner r) end;
  co_few h r : content h = Some r → Z.of_nat (length (inner r)) < 2 ^ 16
}.
Definition kids (h : Hash) : list Hash := from_option inner [] (content h).
Definition links (h : Hash) : list Hash := kids h ++ ext h.
Definition on_disk (disk : Database) (h : Hash) : Prop := is_Some (content h) ∧ is_Some (disk !! Hash_Bytes h).

(** What is on disk, or remembered of it, is right, and complete downwards. *)
Record disk_ok (disk : Database) (cleans : option K) : Prop := {
  do_true h r b : content h = Some r → disk !! Hash_Bytes h = Some b → b = raw_rlp r;
  do_clean h r c b : cleans = Some c → content h = Some r → bc_Get (Hash_Bytes h) c = Some b → disk !! Hash_Bytes h = Some b;
  do_closed h c : on_disk disk h → c ∈ links h → on_disk disk c
}.

Definition cites (e : cachedNode) (h : Hash) : Z := occ h (inner (cn_node e)) + default 0 (default ∅ (cn_children e) !! h).
Definition cited (L : gmap Hash cachedNode) (h : Hash) : Z := msum (λ _ e, cites e h) L.

(** The entries [L] that count, in the order [l] of their insertion: whatever a
    node refers to is on disk or older; a node that is not on disk has at least
    as many parents as there are references to it, among them those in [pend]. *)
Record mem_ok (disk : Database) (L : gmap Hash cachedNode) (pend l : list Hash) : Prop := {
  mo_root : ∃ m c, L !! zero_hash = Some m ∧ cn_node m = rawNil ∧ cn_children m = Some c ∧
    ∀ x k, c !! x = Some k → 0 < k < 2 ^ 16 ∧ (x ∈ l ∨ on_disk disk x);
  mo_dom h : h ∈ l ↔ h ≠ zero_hash ∧ is_Some (L !! h);
  mo_entry h e : L !! h = Some e → h ≠ zero_hash → content h = Some (cn_node e) ∧ 0 ≤ cn_parents e < 2 ^ 32 ∧
    ∀ c k, default ∅ (cn_children e) !! c = Some k → c ∈ ext h ∧ k = 1;
  mo_before h c : h ∈ l → c ∈ links h → on_disk disk c ∨ before c h l;
  mo_ext h e c : L !! h = Some e → h ≠ zero_hash → c ∈ ext h → on_disk disk c ∨ is_Some (default ∅ (cn_children e) !! c);
  mo_count h e : L !! h = Some e → h ≠ zero_hash → ¬ on_disk disk h → cited L h + occ h pend ≤ cn_parents e
}.
Definition rank_ok (disk : Database) (B : gmap Hash cachedNode) (rank : Hash → nat) : Prop :=
  ∀ h c, (h ≠ zero_hash ∧ is_Some (B !! h)) ∨ on_disk disk h → c ∈ links h → (rank c < rank h)%nat.
Definition entry_size (h : Hash) (e : cachedNode) : Z :=
  if decide (h = zero_hash) then Z.of_nat (base.size (default ∅ (cn_children e))) * 34
  else 32 + cn_size e + children_size e.

Record db_ok db (L : gmap Hash cachedNode) (pend l : list Hash) (rank : Hash → nat) : Prop := {
  ok_list : list_ok (td_dirties db) (td_oldest db) (td_newest db) l;
  ok_disk : disk_ok (td_diskdb db) (td_cleans db);
  ok_mem : mem_ok (td_diskdb db) L pend l;
  ok_rank : rank_ok (td_diskdb db) (bare <$> td_dirties db) rank;
  ok_sub : L ⊆ bare <$> td_dirties db;
  ok_size : td_dirtiesSize db + td_childrenSize db = msum entry_size (bare <$> td_dirties db)
}.
(** Between operations nothing is pending and every entry counts. *)
Definition trie_db_ok db : Prop := ∃ l rank, db_ok db (bare <$> td_dirties db) [] l rank.

(** ** Consequences *)
Lemma cites_nonneg e h : (∀ c k, default ∅ (cn_children e) !! c = Some k → 0 ≤ k) → 0 ≤ cites e h.
Proof. intros Hk. unfold cites. pose proof (occ_nonneg h (inner (cn_node e))). destruct (default ∅ _ !! h) as [k|] eqn:Hc; cbn; [apply Hk in Hc|]; lia. Qed.
Lemma cited_ge disk L pend l h e x : mem_ok disk L pend l → L !! h = Some e → cites e x ≤ cited L x.
Proof.
  intros Hm He. apply (msum_ge (λ _ e, cites e x) L h e); [|done]. intros k e' He'. apply cites_nonneg. intros c n Hc.
  destruct (decide (k = zero_hash)) as [->|Hk].
  - destruct (mo_root _ _ _ _ Hm) as (m & c' & Hm' & _ & Hc' & Hall). rewrite Hm' in He'. injection He' as <-. rewrite Hc' in Hc. apply Hall in Hc. lia.
  - destruct (mo_entry _ _ _ _ Hm k e' He' Hk) as (_ & _ & Hx). apply Hx in Hc. lia.
Qed.
Lemma cited_nonneg disk L pend l x : mem_ok disk L pend l → 0 ≤ cited L x.
Proof.
  intros Hm. destruct (mo_root _ _ _ _ Hm) as (m & c & Hr & _ & Hc & Hall). pose proof (cited_ge _ _ _ _ _ _ x Hm Hr) as Hge.
  assert (0 ≤ cites m x); [|lia]. apply cites_nonneg. rewrite Hc. intros y k Hy. apply Hall in Hy. lia.
Qed.
Lemma root_cited disk L pend l m c x k : mem_ok disk L pend l → L !! zero_hash = Some m → cn_children m = Some c → c !! x = Some k → k ≤ cited L x.
Proof.
  intros Hm Hr Hc Hk. pose proof (cited_ge _ _ _ _ _ _ x Hm Hr) as Hge. unfold cites in Hge. rewrite Hc in Hge.
  change (default ∅ (Some c)) with c in Hge. rewrite Hk in Hge. change (default 0 (Some k)) with k in Hge. pose proof (occ_nonneg x (inner (cn_node m))). lia.
Qed.
(** A node that is not on disk and is referred to by a counted entry is cited. *)
Lemma linked_cited disk L pend l h e c : mem_ok disk L pend l → L !! h = Some e → h ≠ zero_hash → c ∈ links h → ¬ on_disk disk c → 1 ≤ cited L c.
Proof.
  intros Hm He Hz Hl Hd. pose proof (cited_ge _ _ _ _ _ _ c Hm He) as Hge. assert (1 ≤ cites e c); [|lia].
  destruct (mo_entry _ _ _ _ Hm h e He Hz) as (Hc & _ & Hx). unfold cites. pose proof (occ_nonneg c (inner (cn_node e))).
  apply elem_of_app in Hl as [Hl|Hl].
  - unfold kids in Hl. rewrite Hc in Hl. cbn in Hl. apply occ_pos in Hl. destruct (default ∅ _ !! c) as [k|] eqn:Hk; cbn; [apply Hx in Hk|]; lia.
  - destruct (mo_ext _ _ _ _ Hm h e c He Hz Hl) as [?|[k Hk]]; [done|]. rewrite Hk. apply Hx in Hk. cbn. lia.
Qed.
End content.
