(* ===== verification/TrieDBGC.v ===== *)
(** Garbage collection in the trie database: taking back a reference removes
    only what nothing refers to any more. *)
From S2P Require Import Prelude Hoare Types TrieEncoding Trie Memorydb TrieNode TrieDB TrieDBInv.

Section gc.
Context `{NodeDigest} `{NodeDecode} `{MapRange} {K : Type} `{BigCache K}.
Context (content : Hash → option raw_node) (ext : Hash → list Hash) (Hcontent : content_ok content).
Implicit Types db : TrieDatabase K.
Abbreviation db_ok := (db_ok content ext).
Abbreviation mem_ok := (mem_ok content ext).
Abbreviation on_disk := (on_disk content).
Abbreviation links := (links content ext).

(** * Changes of the counted entries *)
Lemma mem_ok_pend disk L pend pend' l :
  (∀ h, h ∈ l → ¬ on_disk disk h → occ h pend' ≤ occ h pend) → mem_ok disk L pend l → mem_ok disk L pend' l.
Proof.
  intros Hle [M1 M2 M3 M4 M5 M6]. split; try done. intros h e He Hz Hd. specialize (M6 h e He Hz Hd).
  assert (h ∈ l) as Hin by (apply M2; split; [done|by eexists]). specialize (Hle h Hin Hd). lia.
Qed.
Lemma cited_parents L h e v x : L !! h = Some e → cited (<[h := set_parents (λ _, v) e]> L) x = cited L x.
Proof. intros He. unfold cited. rewrite (msum_update _ _ _ e) by done. unfold cites. cbn. lia. Qed.
Lemma mem_ok_parents disk L pend pend' l h e v : mem_ok disk L pend l → L !! h = Some e → h ≠ zero_hash → 0 ≤ v < 2 ^ 32 →
  (¬ on_disk disk h → cited L h + occ h pend' ≤ v) → (∀ x, x ≠ h → occ x pend' ≤ occ x pend) →
  mem_ok disk (<[h := set_parents (λ _, v) e]> L) pend' l.
Proof.
  intros [M1 M2 M3 M4 M5 M6] He Hz Hv Hh Hx. split.
  - destruct M1 as (m & c & Hm & Hrest). exists m, c. split; [|done]. by rewrite lookup_insert_ne.
  - intros x. rewrite M2. destruct (decide (x = h)) as [->|Hne]; [rewrite lookup_insert_eq, He; naive_solver|]. by rewrite lookup_insert_ne.
  - intros x ex. destruct (decide (x = h)) as [->|Hne].
    + rewrite lookup_insert_eq. intros [= <-] _. destruct (M3 h e He Hz) as (? & _ & ?). done.
    + rewrite lookup_insert_ne by done. apply M3.
  - done.
  - intros x ex c. destruct (decide (x = h)) as [->|Hne]; [rewrite lookup_insert_eq; intros [= <-]; by apply (M5 h e)|].
    rewrite lookup_insert_ne by done. apply M5.
  - intros x ex. rewrite (cited_parents L h e) by done. destruct (decide (x = h)) as [->|Hne].
    + rewrite lookup_insert_eq. intros [= <-] _ Hd. by apply Hh.
    + rewrite lookup_insert_ne by done. intros Hex Hxz Hd. specialize (M6 x ex Hex Hxz Hd). specialize (Hx x Hne). lia.
Qed.
(** An entry may go when it is on disk or nothing cites it. *)
Lemma mem_ok_remove disk L pend pend' l1 h l2 e : mem_ok disk L pend (l1 ++ h :: l2) → NoDup (l1 ++ h :: l2) → L !! h = Some e → h ≠ zero_hash →
  (on_disk disk h ∨ cited L h ≤ 0) → (∀ x, x ≠ h → occ x pend' ≤ occ x pend + cites e x) →
  mem_ok disk (base.delete h L) pend' (l1 ++ l2).
Proof.
  intros Hm Hnd He Hz Hgo Hx. pose proof Hm as [M1 M2 M3 M4 M5 M6].
  assert (h ∉ l1 ++ l2) as Hni by (apply NoDup_app in Hnd as (? & Hd & [Hn _]%NoDup_cons); set_solver).
  assert (∀ y c, y ∈ l1 ++ l2 → c ∈ links y → c = h → on_disk disk h) as Hnolink.
  { intros y c Hy Hc ->. destruct Hgo as [?|Hgo]; [done|]. destruct (proj1 (M2 y)) as [Hyz [ey Hey]]; [set_solver|].
    destruct (decide (on_disk disk h)) as [|Hd]; [done|]. pose proof (linked_cited _ _ _ _ _ _ _ _ h Hm Hey Hyz Hc Hd). lia. }
  split.
  - destruct M1 as (m & c & Hm0 & Hn & Hc & Hall). exists m, c. rewrite lookup_delete_ne by done. split_and!; [done..|].
    intros x k Hk. destruct (Hall x k Hk) as [Hr Hor]. split; [done|]. destruct Hor as [Hl|?]; [|by right].
    destruct (decide (x = h)) as [->|Hne]; [|left; set_solver]. destruct Hgo as [?|Hgo]; [by right|]. exfalso.
    pose proof (root_cited _ _ _ _ _ _ _ _ _ _ Hm Hm0 Hc Hk). lia.
  - intros x. destruct (decide (x = h)) as [->|Hne].
    + rewrite lookup_delete_eq. split; [done|]. by intros [_ [??]].
    + rewrite lookup_delete_ne by done. rewrite <- M2. set_solver.
  - intros x ex [_ Hex]%lookup_delete_Some. by apply M3.
  - intros y c Hy Hc. destruct (M4 y c) as [?|Hb]; [set_solver|done|by left|].
    destruct (decide (c = h)) as [->|Hne]; [left; by eapply Hnolink|]. right. apply (before_mid _ _ _ h); [done|done|]. by intros ->.
  - intros x ex c [_ Hex]%lookup_delete_Some. by apply (M5 x ex c).
  - intros x ex [Hne Hex]%lookup_delete_Some Hxz Hd. specialize (M6 x ex Hex Hxz Hd). specialize (Hx x (not_eq_sym Hne)).
    unfold cited in *. rewrite (msum_delete _ L h e) in M6 by done. lia.
Qed.

(** * Changes of the database that leave the counted entries alone *)
Definition same_store db db' : Prop := td_diskdb db' = td_diskdb db ∧ td_cleans db' = td_cleans db.
Lemma rank_ok_sub disk B B' rank : (∀ h, h ≠ zero_hash → is_Some (B' !! h) → is_Some (B !! h)) →
  rank_ok content ext disk B rank → rank_ok content ext disk B' rank.
Proof. intros Hsub Hr h c [[Hz Hh]|Hd]; apply Hr; [|by right]. left. split; [done|by apply Hsub]. Qed.
Lemma bare_lookup (m : gmap Hash cachedNode) h e : m !! h = Some e → (bare <$> m) !! h = Some (bare e).
Proof. intros He. by rewrite lookup_fmap, He. Qed.
Lemma bare_lookup_inv (m : gmap Hash cachedNode) h b : (bare <$> m) !! h = Some b → ∃ e, m !! h = Some e ∧ b = bare e.
Proof. rewrite lookup_fmap. destruct (m !! h) as [e|]; [|done]. intros [= <-]. by exists e. Qed.
Lemma list_ok_frame m m' o n l : (∀ h, h ∈ l → m' !! h = m !! h) → list_ok m o n l → list_ok m' o n l.
Proof. intros Heq [? ? Hs ? ?]. split; try done. by eapply seg_frame. Qed.

Lemma not_listed db L pend l rank d : db_ok db L pend l rank → L !! d = None → d ∉ l.
Proof. intros Hok Hd Hl. apply (mo_dom _ _ _ _ _ _ (ok_mem _ _ _ _ _ _ _ Hok)) in Hl as [_ [? ?]]. congruence. Qed.
(** An entry that no longer counts changes. *)
Lemma db_ok_dying db L pend l rank d e e' ds cs : db_ok db L pend l rank → td_dirties db !! d = Some e → L !! d = None → d ≠ zero_hash →
  ds + cs = entry_size d (bare e') - entry_size d (bare e) →
  db_ok (add_sizes ds cs (set_dirties (<[d := e']> (td_dirties db)) db)) L pend l rank.
Proof.
  intros Hok He Hd Hz Hsize. pose proof (not_listed _ _ _ _ _ _ Hok Hd) as Hni. destruct Hok as [Ol Od Om Or Os Oz]. split; cbn; try done.
  - eapply list_ok_frame; [|exact Ol]. intros h Hh. apply lookup_insert_ne. by intros ->.
  - eapply rank_ok_sub; [|exact Or]. intros h _. rewrite !lookup_fmap. destruct (decide (h = d)) as [->|]; [by rewrite He|by rewrite lookup_insert_ne].
  - rewrite fmap_insert. etrans; [|apply insert_subseteq_r; [exact Hd|exact Os]]. done.
  - rewrite fmap_insert, (msum_update _ _ _ (bare e)) by by apply bare_lookup. lia.
Qed.
(** It is deleted. *)
Lemma db_ok_bury db L pend l rank d e ds cs : db_ok db L pend l rank → td_dirties db !! d = Some e → L !! d = None →
  ds + cs = - entry_size d (bare e) →
  db_ok (add_sizes ds cs (set_dirties (base.delete d (td_dirties db)) db)) L pend l rank.
Proof.
  intros Hok He Hd Hsize. pose proof (not_listed _ _ _ _ _ _ Hok Hd) as Hni. destruct Hok as [Ol Od Om Or Os Oz]. split; cbn; try done.
  - eapply list_ok_frame; [|exact Ol]. intros h Hh. apply lookup_delete_ne. by intros ->.
  - eapply rank_ok_sub; [|exact Or]. intros h _. rewrite !lookup_fmap. destruct (decide (h = d)) as [->|]; [by rewrite He|by rewrite lookup_delete_ne].
  - rewrite fmap_delete. apply map_subseteq_spec. intros h x Hx. rewrite lookup_delete_ne by (intros ->; congruence). by eapply lookup_weaken.
  - rewrite fmap_delete. rewrite (msum_delete _ _ d (bare e)) in Oz by by apply bare_lookup. lia.
Qed.

(** ** Lists of references *)
Lemma external_occ n x : occ x (external n) = if decide (is_Some (default ∅ (cn_children n) !! x)) then 1 else 0.
Proof.
  unfold external. set (c := default ∅ (cn_children n)). rewrite (occ_perm _ _ (map_to_list c).*1) by by rewrite map_range_perm.
  assert (NoDup (map_to_list c).*1) as Hnd by apply NoDup_fst_map_to_list.
  assert (x ∈ (map_to_list c).*1 ↔ is_Some (c !! x)) as Hin.
  { rewrite list_elem_of_fmap. split; [intros ([k v] & -> & Hk%elem_of_map_to_list); by eexists|]. intros [v Hv]. exists (x, v). by rewrite elem_of_map_to_list. }
  revert Hnd Hin. generalize (map_to_list c).*1 as l. intros l Hnd Hin. case_decide as Hs.
  - apply Hin in Hs. clear Hin. induction Hnd as [|y l Hy Hnd IH]; [by apply not_elem_of_nil in Hs|]. rewrite occ_cons. apply elem_of_cons in Hs as [->|Hs].
    + rewrite decide_True by done. rewrite occ_none by done. lia.
    + rewrite decide_False by (intros ->; done). rewrite IH by done. lia.
  - apply occ_none. by rewrite Hin.
Qed.
Lemma external_elem n x : x ∈ external n ↔ is_Some (default ∅ (cn_children n) !! x).
Proof.
  split; intros Hx.
  - apply occ_pos in Hx. rewrite external_occ in Hx. by case_decide; [|lia].
  - destruct (decide (x ∈ external n)) as [|Hn]; [done|]. apply occ_none in Hn. rewrite external_occ, decide_True in Hn by done. lia.
Qed.
Lemma childs_ok n h db (Q : list Hash → TrieDatabase K → Prop) : content h = Some (cn_node n) → Q (external n ++ inner (cn_node n)) db → returns (childs n) Q db.
Proof.
  intros Hc HQ. pose proof (co_gather _ Hcontent _ _ Hc) as Hg. unfold childs. apply returns_bind.
  destruct (cn_node n) as [b| | | | |] eqn:Hn; rewrite ?Hg; (eapply wp_lift; [reflexivity|]); apply wp_ret; exact HQ.
Qed.
Lemma childs_cites n x : (∀ c k, default ∅ (cn_children n) !! c = Some k → k = 1) → occ x (external n ++ inner (cn_node n)) = cites n x.
Proof.
  intros Hk. unfold cites. rewrite occ_app, external_occ. case_decide as Hs.
  - destruct Hs as [k Hx]. rewrite Hx. change (default 0 (Some k)) with k. rewrite (Hk _ _ Hx). lia.
  - destruct (default ∅ _ !! x) as [k|] eqn:Hx; [destruct Hs; by eexists|]. change (default 0 None) with 0. lia.
Qed.

(** * Taking back a reference *)
Lemma drop_reference_dying db L pend l rank child parent pe (Q : unit → TrieDatabase K → Prop) :
  db_ok db L pend l rank → td_dirties db !! parent = Some pe → L !! parent = None → parent ≠ zero_hash →
  (∀ k, default ∅ (cn_children pe) !! child = Some k → k = 1) →
  (∀ db', db_ok db' L pend l rank → same_store db db' →
     td_dirties db' = <[parent := set_children (base.delete child <$> cn_children pe) pe]> (td_dirties db) → Q tt db') →
  returns (drop_reference child parent) Q db.
Proof.
  intros Hok He Hd Hz Hk HQ. unfold drop_reference. apply returns_bind, wp_get. rewrite He.
  assert (∀ c, base.delete child <$> cn_children pe = c → (c = cn_children pe) → Q tt db) as Hsame.
  { intros c Hc Heq. apply HQ; [done|done|]. rewrite Hc, Heq. symmetry. apply insert_id. rewrite He. by destruct pe. }
  destruct (cn_children pe) as [c|] eqn:Hc; [|apply wp_ret; by eapply Hsame].
  destruct (c !! child) as [k|] eqn:Hkc; cbn [default from_option].
  - assert (k = 1) as -> by by apply Hk. change (0 <? id 1) with true. cbn beta iota. change (id 1 - 1 =? 0) with true. cbn beta iota.
    apply returns_bind. eapply on_entry_ok; [exact He|]. apply wp_modify.
    apply HQ; [|done|done]. apply db_ok_dying with pe; [done..|]. unfold entry_size. rewrite decide_False by done. unfold children_size. cbn. rewrite Hc.
    change (Z.of_nat HashLength) with 32. rewrite decide_False by done. rewrite <- (insert_delete_id c child 1) at 2 by done.
    rewrite map_size_insert_None by apply lookup_delete_eq. lia.
  - apply wp_ret. eapply Hsame; [reflexivity|]. cbn. f_equal. by apply delete_id.
Qed.

Definition below (L : gmap Hash cachedNode) (rank : Hash → nat) (r : nat) : nat := base.size (filter (λ h, (rank h ≤ r)%nat) (dom L)).
Lemma below_sub L L' rank r r' : (∀ h, is_Some (L' !! h) → is_Some (L !! h)) → (r' ≤ r)%nat → (below L' rank r' ≤ below L rank r)%nat.
Proof.
  intros Hsub Hr. unfold below. apply subseteq_size. intros h [Hh Hd]%elem_of_filter. apply elem_of_filter. split; [lia|].
  apply elem_of_dom, Hsub, elem_of_dom. done.
Qed.
Lemma below_delete L rank h r : is_Some (L !! h) → (r < rank h)%nat → (below (base.delete h L) rank r < below L rank (rank h))%nat.
Proof.
  intros Hh Hr. unfold below. apply subset_size. split.
  - intros x [Hx Hd]%elem_of_filter. apply elem_of_filter. rewrite dom_delete in Hd. split; [lia|set_solver].
  - intros Hsub. assert (h ∈ filter (λ x, (rank x ≤ r)%nat) (dom (base.delete h L))) as [Hle _]%elem_of_filter; [|lia].
    apply Hsub, elem_of_filter. split; [done|]. by apply elem_of_dom.
Qed.

(** What a collection leaves: counted entries are only lost, the others are as
    they were in [B]. *)
Record collected (B L : gmap Hash cachedNode) (pend : list Hash) (rank : Hash → nat) db db' L' l' : Prop := {
  cl_ok : db_ok db' L' pend l' rank;
  cl_store : same_store db db';
  cl_root : L' !! zero_hash = L !! zero_hash;
  cl_dom h : is_Some (L' !! h) → is_Some (L !! h);
  cl_dying h : L !! h = None → (bare <$> td_dirties db') !! h = B !! h;
  cl_none h : is_Some (td_dirties db' !! h) → L' !! h = None → L !! h = None
}.
Definition deref_spec (n : nat) (deref : Hash → Hash → GoM (TrieDatabase K) trie_db_error unit) : Prop :=
  ∀ db L pend l rank child parent pe, db_ok db L (child :: pend) l rank → td_dirties db !! parent = Some pe → L !! parent = None →
  parent ≠ zero_hash → child ≠ zero_hash → (∀ c k, default ∅ (cn_children pe) !! c = Some k → k = 1) →
  (∀ d, is_Some (td_dirties db !! d) → L !! d = None → (rank child < rank d)%nat) → (below L rank (rank child) < n)%nat →
  returns (deref child parent) (λ _ db', ∃ L' l',
    collected (<[parent := bare (set_children (base.delete child <$> cn_children pe) pe)]> (bare <$> td_dirties db)) L pend rank db db' L' l') db.

(** A counted entry loses a parent; the last one takes it off the list. *)
Lemma live_of db L pend l rank h n : db_ok db L pend l rank → td_dirties db !! h = Some n → L !! h ≠ None → L !! h = Some (bare n).
Proof. intros Hok Hn Hl. destruct (L !! h) as [e|] eqn:He; [|done]. pose proof (lookup_weaken _ _ _ _ He (ok_sub _ _ _ _ _ _ _ Hok)) as Hb. apply bare_lookup_inv in Hb as (n' & Hn' & ->). congruence. Qed.
Lemma db_ok_parents db L pend pend' l rank h n v : db_ok db L pend l rank → td_dirties db !! h = Some n → L !! h = Some (bare n) → h ≠ zero_hash →
  0 ≤ v < 2 ^ 32 → (¬ on_disk (td_diskdb db) h → cited L h + occ h pend' ≤ v) → (∀ x, x ≠ h → occ x pend' ≤ occ x pend) →
  db_ok (set_dirties (<[h := set_parents (λ _, v) n]> (td_dirties db)) db) (<[h := set_parents (λ _, v) (bare n)]> L) pend' l rank.
Proof.
  intros [[Ln Lz Ls Lo Le] Od Om Or Os Oz] Hn Hl Hz Hv Hd Hx. split; cbn.
  - split; [done|done|by eapply seg_same_links|done|done].
  - done.
  - by apply mem_ok_parents with pend.
  - eapply rank_ok_sub; [|exact Or]. intros x _. rewrite !lookup_fmap. destruct (decide (x = h)) as [->|]; [by rewrite Hn|by rewrite lookup_insert_ne].
  - rewrite fmap_insert. by apply insert_mono.
  - rewrite fmap_insert, (msum_update _ _ _ (bare n)) by by apply bare_lookup. change (entry_size h (bare (set_parents (λ _, v) n))) with (entry_size h (bare n)). lia.
Qed.
Lemma link_nonzero db L pend l rank h c : db_ok db L pend l rank → h ∈ l → c ∈ links h → c ≠ zero_hash ∧ (rank c < rank h)%nat.
Proof.
  intros Hok Hh Hc. apply (mo_dom _ _ _ _ _ _ (ok_mem _ _ _ _ _ _ _ Hok)) in Hh as Hd. destruct Hd as [Hz [e He]]. split.
  - destruct (mo_before _ _ _ _ _ _ (ok_mem _ _ _ _ _ _ _ Hok) h c Hh Hc) as [[[r Hr] _]|[Hb _]%before_elem].
    + by apply (co_hash _ Hcontent) in Hr as [_ ?].
    + by apply (mo_dom _ _ _ _ _ _ (ok_mem _ _ _ _ _ _ _ Hok)) in Hb as [? _].
  - apply (ok_rank _ _ _ _ _ _ _ Hok); [|done]. left. split; [done|]. eexists. by apply (lookup_weaken _ _ _ _ He (ok_sub _ _ _ _ _ _ _ Hok)).
Qed.
Lemma retire_ok db L pend pend' l rank h n : db_ok db L pend l rank → td_dirties db !! h = Some n → L !! h = Some (bare n) → h ≠ zero_hash →
  (on_disk (td_diskdb db) h ∨ cited L h ≤ 0) → (∀ x, x ≠ h → occ x pend' ≤ occ x pend + cites n x) →
  returns (unlink h n) (λ _ db', ∃ l', db_ok db' (base.delete h L) pend' l' rank ∧ same_store db db' ∧ bare <$> td_dirties db' = bare <$> td_dirties db) db.
Proof.
  intros [Ol Od Om Or Os Oz] Hn Hl Hz Hgo Hx. assert (h ∈ l) as Hin by (apply (mo_dom _ _ _ _ _ _ Om); split; [done|by eexists]).
  apply list_elem_of_split in Hin as (l1 & l2 & ->). destruct (mo_root _ _ _ _ _ _ Om) as (m & c & Hm & _).
  pose proof (lookup_weaken _ _ _ _ Hm Os) as Hroot. apply bare_lookup_inv in Hroot as (root & Hroot & _).
  eapply returns_mono; [by apply unlink_ok with root|]. cbn beta. intros _ db' (m' & o & nw & -> & Hbare & Hlist). exists (l1 ++ l2).
  split; [|done]. split; cbn; rewrite ?Hbare; try done.
  - eapply mem_ok_remove; [exact Om|by apply (lo_nodup _ _ _ _ Ol)|exact Hl|done|done|exact Hx].
  - etrans; [apply delete_subseteq|done].
Qed.

Lemma returns_bind_inv {S E A B} (m : GoM S E A) (f : A → GoM S E B) Q s :
  returns (m ≫= f) Q s → returns m (λ a, returns (f a) Q) s.
Proof. unfold returns, wp, mbind, gom_bind. by destruct (m s) as [[a|e|p] s']. Qed.

(** The children of an entry that goes, and its end. *)
Definition bury (deref : Hash → Hash → GoM (TrieDatabase K) trie_db_error unit) (hashes : list Hash) (child : Hash) (node : cachedNode) :
    GoM (TrieDatabase K) trie_db_error unit :=
  for_each hashes (λ hash, deref hash child);;
  db ← get_state;
  let node' := default node (td_dirties db !! child) in
  modify (λ db, set_dirties (base.delete child (td_dirties db)) db);;
  modify (add_sizes (- (Z.of_nat HashLength + cn_size node)) (if bool_decide (is_Some (cn_children node')) then - cachedNodeChildrenSize else 0)).
Record buried (child : Hash) (L : gmap Hash cachedNode) (pend : list Hash) (rank : Hash → nat) db db' L' l' : Prop := {
  bu_ok : db_ok db' L' pend l' rank;
  bu_store : same_store db db';
  bu_root : L' !! zero_hash = L !! zero_hash;
  bu_dom h : is_Some (L' !! h) → is_Some (L !! h);
  bu_dying h : L !! h = None → h ≠ child → (bare <$> td_dirties db') !! h = (bare <$> td_dirties db) !! h;
  bu_gone : td_dirties db' !! child = None;
  bu_none h : is_Some (td_dirties db' !! h) → L' !! h = None → L !! h = None
}.
Lemma bury_ok deref n rest db L pend l rank child node e : deref_spec n deref → db_ok db L (rest ++ pend) l rank →
  td_dirties db !! child = Some e → L !! child = None → child ≠ zero_hash → cn_size e = cn_size node →
  (∀ c k, default ∅ (cn_children e) !! c = Some k → c ∈ rest ∧ k = 1) →
  (∀ x, x ∈ rest → x ≠ zero_hash ∧ (rank x < rank child)%nat ∧ (below L rank (rank x) < n)%nat) →
  (∀ d, is_Some (td_dirties db !! d) → L !! d = None → d = child ∨ (rank child < rank d)%nat) →
  returns (bury deref rest child node) (λ _ db', ∃ L' l', buried child L pend rank db db' L' l') db.
Proof.
  intros Hspec. revert db L l e. induction rest as [|x rest IH]; intros db L l e Hok He Hd Hz Hsize Hch Hrest Hrank; unfold bury; cbn [for_each].
  - apply returns_bind, wp_ret. apply returns_bind, wp_get. rewrite He. cbn [default from_option id]. apply returns_bind, wp_modify, wp_modify.
    assert (default ∅ (cn_children e) = ∅) as Hempty. { apply map_eq. intros c. rewrite lookup_empty. destruct (_ !! c) as [k|] eqn:Hk; [|done]. by apply Hch in Hk as [?%not_elem_of_nil _]. }
    exists L, l. split; cbn; try done.
    + apply (db_ok_bury db L pend l rank child e); [done..|]. unfold entry_size, children_size. rewrite decide_False by done. cbn. rewrite Hsize.
      change (Z.of_nat HashLength) with 32. destruct (cn_children e) as [c|]; [change (c = ∅) in Hempty; subst c; rewrite map_size_empty|]; cbn; lia.
    + intros h _ Hne. by rewrite !lookup_fmap, lookup_delete_ne.
    + apply lookup_delete_eq.
  - apply returns_bind, returns_bind. destruct (Hrest x) as (Hxz & Hxr & Hxb); [by constructor|].
    eapply returns_mono.
    { eapply (Hspec db L (rest ++ pend) l rank x child e); try done; [intros c k Hk; by destruct (Hch c k Hk)|].
      intros d Hd1 Hd2. destruct (Hrank d Hd1 Hd2) as [->|]; lia. }
    cbn beta. intros [] db1 (L1 & l1 & [Cok Cst Crt Cdom Cdy Cno]).
    assert (∃ e1, td_dirties db1 !! child = Some e1 ∧ bare e1 = bare (set_children (base.delete x <$> cn_children e) e)) as (e1 & He1 & Hb1).
    { specialize (Cdy child Hd). rewrite lookup_insert_eq in Cdy. apply bare_lookup_inv in Cdy as (e1 & ? & ?). exists e1. split; congruence. }
    assert (cn_size e1 = cn_size e ∧ cn_children e1 = base.delete x <$> cn_children e) as [Hs1 Hc1] by (split; [apply (f_equal cn_size) in Hb1|apply (f_equal cn_children) in Hb1]; done).
    assert (L1 !! child = None) as Hd1. { destruct (L1 !! child) eqn:Hl1; [|done]. destruct (Cdom child) as [? ?]; [by eexists|congruence]. }
    assert (∀ h, (below L1 rank h ≤ below L rank h)%nat) as Hbel by (intros h; by apply below_sub).
    apply returns_bind_inv. eapply returns_mono.
    { apply (IH db1 L1 l1 e1); try done; [congruence| | |].
      - intros c k. rewrite Hc1. destruct (cn_children e) as [ch|]; cbn; [|by rewrite lookup_empty]. intros [Hne Hk]%lookup_delete_Some.
        destruct (Hch c k Hk) as [[->|?]%elem_of_cons ?]; done.
      - intros y Hy. destruct (Hrest y) as (? & ? & Hyb); [by constructor|]. split_and!; [done..|]. specialize (Hbel (rank y)). lia.
      - intros d Hd2 Hd3. pose proof (Cno d Hd2 Hd3) as Hld. destruct (decide (d = child)) as [->|Hne]; [by left|]. apply (Hrank d); [|done].
        specialize (Cdy d Hld). rewrite lookup_insert_ne in Cdy by done. rewrite !lookup_fmap in Cdy. destruct Hd2 as [? Hd2]. rewrite Hd2 in Cdy. by destruct (td_dirties db !! d). }
    cbn beta. intros [] db2 (L2 & l2 & [Bok Bst Brt Bdom Bdy Bgo Bno]). exists L2, l2. split; try done.
    + destruct Cst, Bst. split; congruence.
    + by rewrite Brt.
    + intros h Hh. by apply Cdom, Bdom.
    + intros h Hh Hne. assert (L1 !! h = None). { destruct (L1 !! h) eqn:Hl1; [|done]. destruct (Cdom h) as [? ?]; [by eexists|congruence]. }
      rewrite Bdy by done. rewrite (Cdy h Hh). by rewrite lookup_insert_ne.
    + intros h Hh1 Hh2. pose proof (Bno h Hh1 Hh2) as Hl1. destruct (decide (h = child)) as [->|Hne]; [done|]. apply Cno; [|done].
      specialize (Bdy h Hl1 Hne). rewrite !lookup_fmap in Bdy. destruct Hh1 as [? Hh1]. rewrite Hh1 in Bdy. by destruct (td_dirties db1 !! h).
Qed.

Lemma live_none db L pend l rank h e : db_ok db L pend l rank → L !! h = Some e → is_Some (td_dirties db !! h).
Proof. intros Hok He. pose proof (lookup_weaken _ _ _ _ He (ok_sub _ _ _ _ _ _ _ Hok)) as Hb. apply bare_lookup_inv in Hb as (n & Hn & _). by exists n. Qed.
Lemma release_ok deref fuel db L pend l rank child : deref_spec fuel deref → db_ok db L (child :: pend) l rank → child ≠ zero_hash →
  (∀ d, is_Some (td_dirties db !! d) → L !! d = None → (rank child < rank d)%nat) → (below L rank (rank child) ≤ fuel)%nat →
  returns (release deref child) (λ _ db', ∃ L' l', collected (bare <$> td_dirties db) L pend rank db db' L' l') db.
Proof.
  intros Hspec Hok Hz Hrank Hfuel. unfold release. apply returns_bind, wp_get.
  destruct (td_dirties db !! child) as [node|] eqn:Hn.
  2: { apply wp_ret. exists L, l. split; try done. destruct Hok as [Ol Od Om Or Os Oz]. split; try done.
       eapply mem_ok_pend; [|exact Om]. intros h Hh _. rewrite occ_cons. case_decide; [subst h|lia]. apply (mo_dom _ _ _ _ _ _ Om) in Hh as [_ [e He]].
       pose proof (lookup_weaken _ _ _ _ He Os) as Hb. apply bare_lookup_inv in Hb as (e' & He' & _). congruence. }
  assert (L !! child = Some (bare node)) as Hl.
  { eapply live_of; [exact Hok|exact Hn|]. intros Hd. specialize (Hrank child ltac:(by eexists) Hd). lia. }
  destruct (mo_entry _ _ _ _ _ _ (ok_mem _ _ _ _ _ _ _ Hok) child _ Hl Hz) as (Hc & Hp & Hext). cbn in Hc, Hp, Hext.
  pose proof (λ Hd, mo_count _ _ _ _ _ _ (ok_mem _ _ _ _ _ _ _ Hok) child _ Hl Hz Hd) as Hcnt. cbn in Hcnt. rewrite occ_cons, decide_True in Hcnt by done.
  pose proof (cited_nonneg _ _ _ _ _ _ child (ok_mem _ _ _ _ _ _ _ Hok)) as Hnn. pose proof (occ_nonneg child pend) as Hnp.
  set (p := if 0 <? cn_parents node then cn_parents node - 1 else cn_parents node).
  assert (0 ≤ p < 2 ^ 32 ∧ (¬ on_disk (td_diskdb db) child → cited L child + occ child pend ≤ p)) as [Hp' Hcnt'].
  { subst p. destruct (Z.ltb_spec 0 (cn_parents node)); (split; [lia|]); intros Hd; specialize (Hcnt Hd); lia. }
  apply returns_bind. eapply on_entry_ok; [exact Hn|].
  assert (db_ok (set_dirties (<[child := set_parents (λ _, p) node]> (td_dirties db)) db) (<[child := set_parents (λ _, p) (bare node)]> L) pend l rank) as Hok1.
  { eapply db_ok_parents; [exact Hok|done..|]. intros x Hx. rewrite occ_cons, decide_False by done. lia. }
  revert Hok1. set (node1 := set_parents _ node). set (db1 := set_dirties _ db). set (L1 := <[child := _]> L). intros Hok1.
  assert (td_dirties db1 !! child = Some node1) as Hn1 by apply lookup_insert_eq.
  assert (L1 !! child = Some (bare node1)) as Hl1 by apply lookup_insert_eq.
  assert (∀ x, L1 !! x = None → L !! x = None) as Hnone by (intros x [? ?]%lookup_insert_None; done).
  assert (∀ x, is_Some (L1 !! x) → is_Some (L !! x)) as Hsome.
  { intros x. subst L1. destruct (decide (x = child)) as [->|]; [by rewrite Hl|by rewrite lookup_insert_ne]. }
  assert (∀ x, L !! x = None → (bare <$> td_dirties db1) !! x = (bare <$> td_dirties db) !! x) as Hsame.
  { intros x Hx. rewrite !lookup_fmap. cbn. rewrite lookup_insert_ne; [done|]. intros <-. congruence. }
  destruct (negb (p =? 0)) eqn:Hp0; [apply wp_ret; exists L1, l; split; try done; [by apply lookup_insert_ne|]; intros x _ ?; by apply Hnone|].
  apply negb_false_iff, Z.eqb_eq in Hp0.
  assert (∀ x, cited L1 x = cited L x) as Hcited by (intros x; by apply cited_parents).
  assert (child ∈ l) as Hcl by (apply (mo_dom _ _ _ _ _ _ (ok_mem _ _ _ _ _ _ _ Hok1)); split; [done|by eexists]).
  assert (∀ x, x ∈ external node1 ++ inner (cn_node node1) → x ≠ zero_hash ∧ (rank x < rank child)%nat) as Hlinks.
  { intros x Hx. apply (link_nonzero db1 L1 pend l rank child x Hok1 Hcl). apply elem_of_app in Hx as [Hx|Hx]; apply elem_of_app; [right|left].
    - apply external_elem in Hx as [k Hk]. by apply Hext in Hk as [? _].
    - unfold kids. by rewrite Hc. }
  apply returns_bind. change (unlink child node) with (unlink (K := K) child node1). eapply returns_mono.
  { eapply (retire_ok db1 L1 pend ((external node1 ++ inner (cn_node node1)) ++ pend) l rank child node1 Hok1 Hn1 Hl1 Hz).
    - destruct (decide (on_disk (td_diskdb db) child)) as [Hd|Hd]; [by left|right]. specialize (Hcnt' Hd). rewrite Hcited. lia.
    - intros x Hx. rewrite occ_app, childs_cites; [lia|]. intros c k Hk. by apply Hext in Hk as [_ ?]. }
  cbn beta. intros [] db2 (l2 & Hok2 & Hst2 & Hb2). apply returns_bind. eapply (childs_ok node1 child); [done|].
  change (returns (bury deref (external node1 ++ inner (cn_node node1)) child node) (λ _ db', ∃ L' l', collected (bare <$> td_dirties db) L pend rank db db' L' l') db2).
  assert (∃ e2, td_dirties db2 !! child = Some e2 ∧ bare e2 = bare node1) as (e2 & He2 & Hbe2).
  { assert ((bare <$> td_dirties db2) !! child = Some (bare node1)) as Hx by (rewrite Hb2; by apply bare_lookup). apply bare_lookup_inv in Hx as (e2 & ? & ?). by exists e2. }
  assert (cn_children e2 = cn_children node ∧ cn_size e2 = cn_size node) as [Hch2 Hsz2] by (split; [apply (f_equal cn_children) in Hbe2|apply (f_equal cn_size) in Hbe2]; done).
  assert (∀ x, (bare <$> td_dirties db2) !! x = None ↔ (bare <$> td_dirties db) !! x = None) as Hdom2.
  { intros x. rewrite Hb2, !lookup_fmap. cbn. destruct (decide (x = child)) as [->|]; [by rewrite lookup_insert_eq, Hn|by rewrite lookup_insert_ne]. }
  eapply returns_mono.
  { eapply (bury_ok deref fuel _ db2 (base.delete child L1) pend l2 rank child node e2 Hspec Hok2 He2); [apply lookup_delete_eq|done|done| | |].
    - intros c k Hk. rewrite Hch2 in Hk. apply Hext in Hk as Hk'. destruct Hk' as [_ ->]. split; [|done]. apply elem_of_app. left. apply external_elem. by exists 1.
    - intros x Hx. destruct (Hlinks x Hx) as [? Hr]. split_and!; [done..|]. pose proof (below_delete L1 rank child (rank x) ltac:(by eexists) Hr).
      pose proof (below_sub L L1 rank (rank child) (rank child) Hsome ltac:(done)). lia.
    - intros d Hd1 [Hd2|Hd2]%lookup_delete_None; [by left|right]. apply Hrank; [|by apply Hnone]. destruct (td_dirties db !! d) eqn:Hdd; [by eexists|].
      exfalso. assert ((bare <$> td_dirties db2) !! d = None) as Hx by (apply Hdom2; by rewrite lookup_fmap, Hdd). rewrite lookup_fmap in Hx. destruct Hd1 as [? Hd1]. by rewrite Hd1 in Hx. }
  cbn beta. intros [] db3 (L3 & l3 & [Bok Bst Brt Bdom Bdy Bgo Bno]). exists L3, l3. split; try done.
  - destruct Hst2, Bst. split; cbn in *; congruence.
  - rewrite Brt, lookup_delete_ne by done. by apply lookup_insert_ne.
  - intros h Hh. apply Hsome. apply Bdom in Hh as [? Hh]. apply lookup_delete_Some in Hh as [_ Hh]. by eexists.
  - intros h Hh. assert (h ≠ child) by (intros ->; congruence). rewrite Bdy; [|apply lookup_delete_None; right; by apply lookup_insert_None|done].
    rewrite Hb2. by apply Hsame.
  - intros h Hh1 Hh2. destruct (decide (h = child)) as [->|Hne]; [by rewrite Bgo in Hh1; destruct Hh1|].
    specialize (Bno h Hh1 Hh2). apply Hnone. by rewrite lookup_delete_ne in Bno.
Qed.
Lemma dereference_ok fuel : deref_spec fuel (dereference fuel).
Proof.
  induction fuel as [|fuel IH]; intros db L pend l rank child parent pe Hok He Hd Hz Hcz Hk Hrank Hfuel; [lia|]. cbn [dereference].
  apply returns_bind. eapply drop_reference_dying; [exact Hok|done..|naive_solver|]. intros db1 Hok1 Hst1 Hd1.
  assert (∀ d, is_Some (td_dirties db1 !! d) ↔ is_Some (td_dirties db !! d)) as Hdom.
  { intros d. rewrite Hd1. destruct (decide (d = parent)) as [->|]; [by rewrite lookup_insert_eq, He|by rewrite lookup_insert_ne]. }
  eapply returns_mono; [eapply (release_ok _ fuel); [exact IH|exact Hok1|done| |lia]|].
  - intros d Hd2. apply Hrank. by apply Hdom.
  - cbn beta. intros [] db2 (L2 & l2 & [C1 C2 C6 C3 C4 C5]). exists L2, l2. rewrite Hd1, fmap_insert in C4. split; try done.
    destruct Hst1, C2. split; congruence.
Qed.
End gc.
