(* ===== verification/TrieDBRefs.v ===== *)
(** New nodes and references in the trie database.

    Storing a node with its references, and the operations of the trie database
    as a client may use them. *)
From S2P Require Import Prelude Hoare Types TrieEncoding Trie Memorydb TrieNode TrieDB TrieDBInv TrieDBGC.

Section refs.
Context `{NodeDigest} `{NodeDecode} `{MapRange} {K : Type} `{BigCache K}.
Context (content : Hash → option raw_node) (Hcontent : content_ok content).
Implicit Types (db : TrieDatabase K) (ext : Hash → list Hash).
Abbreviation on_disk := (on_disk content).

(** * Reference lists that grow *)
Definition ext_add ext (parent c : Hash) : Hash → list Hash := λ h, if decide (h = parent) then c :: ext h else ext h.
Lemma db_ok_ext ext ext' db L pend l rank : (∀ h c, c ∈ ext h ↔ c ∈ ext' h) → db_ok content ext db L pend l rank → db_ok content ext' db L pend l rank.
Proof.
  intros Heq [Ol [Dt Dc Dl] [M1 M2 M3 M4 M5 M6] Or Os Oz].
  assert (∀ h c, c ∈ links content ext' h → c ∈ links content ext h) as Hl by (intros h c; unfold links; rewrite !elem_of_app, Heq; done).
  split; try done.
  - split; [done|done|]. intros h c Hd Hc. eapply Dl; [done|by apply Hl].
  - split; try done.
    + intros h e He Hz. destruct (M3 h e He Hz) as (? & ? & Hx). do 2 (split; [done|]). intros c k Hk. rewrite <- Heq. by apply Hx.
    + intros h c Hh Hc. apply M4; [done|by apply Hl].
    + intros h e c He Hz Hc. apply (M5 h e c He Hz). by apply Heq.
  - intros h c Hh Hc. apply Or; [done|by apply Hl].
Qed.

(** * One more reference from outside *)
Lemma cited_children L h e c c' y : L !! h = Some e → cn_children e = c → cited (<[h := set_children c' e]> L) y =
  cited L y - default 0 (default ∅ c !! y) + default 0 (default ∅ c' !! y).
Proof. intros He Hc. unfold cited. rewrite (msum_update _ _ _ e) by done. unfold cites. cbn. rewrite Hc. lia. Qed.
Lemma mem_ok_root ext disk L pend pend' l m c c' : mem_ok content ext disk L pend l → L !! zero_hash = Some m → cn_children m = Some c →
  (∀ x k, c' !! x = Some k → 0 < k < 2 ^ 16 ∧ (x ∈ l ∨ on_disk disk x)) →
  (∀ h, default 0 (c' !! h) + occ h pend' ≤ default 0 (c !! h) + occ h pend) →
  mem_ok content ext disk (<[zero_hash := set_children (Some c') m]> L) pend' l.
Proof.
  intros [M1 M2 M3 M4 M5 M6] Hm Hc Hall Hcount. destruct M1 as (m' & c1 & Hm' & Hn & _). rewrite Hm in Hm'. injection Hm' as <-. split.
  - exists (set_children (Some c') m), c'. split_and!; [apply lookup_insert_eq|done..].
  - intros x. rewrite M2. destruct (decide (x = zero_hash)) as [->|]; [naive_solver|by rewrite lookup_insert_ne].
  - intros x ex Hx Hz. rewrite lookup_insert_ne in Hx by done. by apply M3.
  - done.
  - intros x ex y Hx Hz. rewrite lookup_insert_ne in Hx by done. by apply M5.
  - intros x ex Hx Hz Hd. rewrite lookup_insert_ne in Hx by done. specialize (M6 x ex Hx Hz Hd). specialize (Hcount x).
    rewrite (cited_children L _ m (Some c)) by done. change (default ∅ (Some c)) with c. change (default ∅ (Some c')) with c'. lia.
Qed.
Lemma mem_ok_outside ext disk L pend l parent e child : mem_ok content ext disk L (child :: pend) l → L !! parent = Some e → parent ≠ zero_hash →
  default ∅ (cn_children e) !! child = None →
  (on_disk disk child ∨ before child parent l) →
  mem_ok content (ext_add ext parent child) disk (<[parent := set_children (Some (<[child := 1]> (default ∅ (cn_children e)))) e]> L) pend l.
Proof.
  intros [M1 M2 M3 M4 M5 M6] He Hz Hno Hb. split.
  - destruct M1 as (m & c & Hm & Hrest). exists m, c. split; [|done]. by rewrite lookup_insert_ne.
  - intros x. rewrite M2. destruct (decide (x = parent)) as [->|]; [rewrite lookup_insert_eq, He; naive_solver|by rewrite lookup_insert_ne].
  - intros x ex Hx Hxz. unfold ext_add. destruct (decide (x = parent)) as [->|].
    + rewrite lookup_insert_eq in Hx. injection Hx as <-. destruct (M3 parent e He Hz) as (? & ? & Hc). do 2 (split; [done|]).
      cbn. intros c k [[<- <-]|[_ Hk]]%lookup_insert_Some; [by split; [left|]|]. apply Hc in Hk as [? ?]. by split; [right|].
    + rewrite lookup_insert_ne in Hx by done. by apply M3.
  - intros x c Hx. unfold links, ext_add. rewrite elem_of_app. intros [Hc|Hc]; [apply M4; [done|]; apply elem_of_app; by left|].
    destruct (decide (x = parent)) as [->|]; [apply elem_of_cons in Hc as [->|Hc]; [done|]|]; (apply M4; [done|]; apply elem_of_app; by right).
  - intros x ex c Hx Hxz. unfold ext_add. destruct (decide (x = parent)) as [->|].
    + rewrite lookup_insert_eq in Hx. injection Hx as <-. cbn. intros [->|Hc]%elem_of_cons; [right; rewrite lookup_insert_eq; by eexists|].
      destruct (M5 parent e c He Hz Hc) as [?|Hs]; [by left|right]. destruct (decide (c = child)) as [->|]; [rewrite lookup_insert_eq; by eexists|by rewrite lookup_insert_ne].
    + rewrite lookup_insert_ne in Hx by done. by apply M5.
  - intros x ex Hx Hxz Hd. rewrite (cited_children L _ e (cn_children e)) by done. change (default ∅ (Some ?c)) with c.
    assert (∃ ex', L !! x = Some ex' ∧ cn_parents ex' = cn_parents ex) as (ex' & Hex & Hpx).
    { destruct (decide (x = parent)) as [->|]; [rewrite lookup_insert_eq in Hx; injection Hx as <-; by exists e|]. rewrite lookup_insert_ne in Hx by done. by exists ex. }
    specialize (M6 x ex' Hex Hxz Hd). rewrite occ_cons in M6. destruct (decide (child = x)) as [->|].
    + rewrite Hno, lookup_insert_eq. cbn. lia.
    + rewrite lookup_insert_ne by done. lia.
Qed.
Lemma mem_ok_declare ext disk L l parent child : mem_ok content ext disk L [] l → (on_disk disk child ∨ before child parent l) →
  (∀ e, L !! parent = Some e → on_disk disk child ∨ is_Some (default ∅ (cn_children e) !! child)) → mem_ok content (ext_add ext parent child) disk L [] l.
Proof.
  intros [M1 M2 M3 M4 M5 M6] Hb Hh. split; try done.
  - intros x ex Hx Hxz. destruct (M3 x ex Hx Hxz) as (? & ? & Hc). do 2 (split; [done|]). intros c k Hk. apply Hc in Hk as [? ?].
    split; [|done]. unfold ext_add. by case_decide; [right|].
  - intros x c Hx. unfold links, ext_add. rewrite elem_of_app. intros [Hc|Hc]; [apply M4; [done|]; apply elem_of_app; by left|].
    destruct (decide (x = parent)) as [->|]; [apply elem_of_cons in Hc as [->|Hc]; [done|]|]; (apply M4; [done|]; apply elem_of_app; by right).
  - intros x ex c Hx Hxz. unfold ext_add. destruct (decide (x = parent)) as [->|]; [|by apply M5].
    intros [->|Hc]%elem_of_cons; [by apply Hh|by apply (M5 parent ex)].
Qed.
Lemma disk_ok_add ext disk (cleans : option K) parent child : disk_ok content ext disk cleans → (on_disk disk parent → on_disk disk child) →
  disk_ok content (ext_add ext parent child) disk cleans.
Proof.
  intros [Dt Dc Dl] Hpc. split; [done|done|]. intros h c Hh. unfold links, ext_add. rewrite elem_of_app. intros [Hc|Hc]; [apply (Dl h c Hh), elem_of_app; by left|].
  case_decide; [subst; apply elem_of_cons in Hc as [->|Hc]; [by apply Hpc|]|]; (eapply Dl; [exact Hh|]; apply elem_of_app; by right).
Qed.
Lemma rank_ok_add ext disk B rank parent child : rank_ok content ext disk B rank → (rank child < rank parent)%nat →
  rank_ok content (ext_add ext parent child) disk B rank.
Proof.
  intros Hr Hlt h c Hh. unfold links, ext_add. rewrite elem_of_app. intros [Hc|Hc]; [apply (Hr h c Hh), elem_of_app; by left|].
  case_decide; [subst; apply elem_of_cons in Hc as [->|Hc]; [done|]|]; (apply Hr; [done|]; apply elem_of_app; by right).
Qed.

(** A live entry changes, its links excepted. *)
Lemma db_ok_entry ext ext' db L pend pend' l rank h e e' ds cs : db_ok content ext db L pend l rank → td_dirties db !! h = Some e → h ∈ l ∨ h = zero_hash →
  cn_flushPrev e' = cn_flushPrev e → cn_flushNext e' = cn_flushNext e → mem_ok content ext' (td_diskdb db) (<[h := bare e']> L) pend' l →
  disk_ok content ext' (td_diskdb db) (td_cleans db) → rank_ok content ext' (td_diskdb db) (bare <$> td_dirties db) rank →
  ds + cs = entry_size h (bare e') - entry_size h (bare e) →
  db_ok content ext' (add_sizes ds cs (set_dirties (<[h := e']> (td_dirties db)) db)) (<[h := bare e']> L) pend' l rank.
Proof.
  intros [[Ln Lz Ls Lo Le] Od Om Or Os Oz] He Hh Hp Hn Hm Hd Hr Hsz. split; cbn; try done.
  - split; [done|done|by eapply seg_same_links|done|done].
  - eapply rank_ok_sub; [|exact Hr]. intros x _. rewrite !lookup_fmap. destruct (decide (x = h)) as [->|]; [by rewrite He|by rewrite lookup_insert_ne].
  - rewrite fmap_insert. by apply insert_mono.
  - rewrite fmap_insert, (msum_update _ _ _ (bare e)) by by apply bare_lookup. lia.
Qed.

(** What an operation may do to an entry besides the links. *)
Definition grows (db db' : TrieDatabase K) (up : Hash → Z) : Prop :=
  ∀ h e', td_dirties db' !! h = Some e' → ∃ e, td_dirties db !! h = Some e ∧ cn_parents e' ≤ cn_parents e + up h.
Lemma uint32_id x : 0 ≤ x < 2 ^ 32 → uint32 x = x.
Proof. apply Z.mod_small. Qed.
Lemma uint16_id x : 0 ≤ x < 2 ^ 16 → uint16 x = x.
Proof. apply Z.mod_small. Qed.

Definition whole_ok ext db l rank : Prop := db_ok content ext db (bare <$> td_dirties db) [] l rank.
Lemma whole_dirty ext db l rank h : whole_ok ext db l rank → h ∈ l ↔ h ≠ zero_hash ∧ is_Some (td_dirties db !! h).
Proof. intros Hok. by rewrite (mo_dom _ _ _ _ _ _ (ok_mem _ _ _ _ _ _ _ Hok)), lookup_fmap, fmap_is_Some. Qed.
Lemma whole_entry ext db l rank h e : whole_ok ext db l rank → td_dirties db !! h = Some e → h ≠ zero_hash →
  content h = Some (cn_node e) ∧ 0 ≤ cn_parents e < 2 ^ 32 ∧ ∀ c k, default ∅ (cn_children e) !! c = Some k → c ∈ ext h ∧ k = 1.
Proof. intros Hok He Hz. by apply (mo_entry _ _ _ _ _ _ (ok_mem _ _ _ _ _ _ _ Hok) h (bare e) (bare_lookup _ _ _ He)). Qed.
Lemma whole_root ext db l rank : whole_ok ext db l rank → ∃ m c, td_dirties db !! zero_hash = Some m ∧ cn_node m = rawNil ∧ cn_children m = Some c ∧
  ∀ x k, c !! x = Some k → 0 < k < 2 ^ 16 ∧ (x ∈ l ∨ on_disk (td_diskdb db) x).
Proof.
  intros Hok. destruct (mo_root _ _ _ _ _ _ (ok_mem _ _ _ _ _ _ _ Hok)) as (b & c & Hb & Hn & Hc & Hall).
  apply bare_lookup_inv in Hb as (m & Hm & ->). by exists m, c.
Qed.

Lemma add_sizes_add db m a b c d : add_sizes c d (set_dirties m (add_sizes a b db)) = add_sizes (a + c) (b + d) (set_dirties m db).
Proof. unfold add_sizes, set_dirties. cbn. f_equal; lia. Qed.
Lemma add_sizes_zero db : add_sizes 0 0 db = db.
Proof. destruct db. unfold add_sizes. cbn. f_equal; lia. Qed.
Lemma db_ok_credit ext db L pend l rank child n : db_ok content ext db L pend l rank → td_dirties db !! child = Some n → L !! child = Some (bare n) →
  child ≠ zero_hash → cn_parents n + 1 < 2 ^ 32 →
  let n' := set_parents (λ p, uint32 (p + 1)) n in
  db_ok content ext (set_dirties (<[child := n']> (td_dirties db)) db) (<[child := bare n']> L) (child :: pend) l rank.
Proof.
  intros Hok Hn Hl Hz Hp n'. destruct (mo_entry _ _ _ _ _ _ (ok_mem _ _ _ _ _ _ _ Hok) child _ Hl Hz) as (_ & Hr & _). cbn in Hr.
  pose proof (λ Hd, mo_count _ _ _ _ _ _ (ok_mem _ _ _ _ _ _ _ Hok) child _ Hl Hz Hd) as Hcnt. cbn in Hcnt.
  apply (db_ok_parents content ext db L pend (child :: pend) l rank child n (uint32 (cn_parents n + 1)) Hok Hn Hl Hz).
  - rewrite uint32_id; lia.
  - intros Hd. specialize (Hcnt Hd). rewrite occ_cons, decide_True by done. rewrite uint32_id; lia.
  - intros x Hx. rewrite occ_cons, decide_False by done. lia.
Qed.

(** [Reference] between nodes. *)
Lemma Reference_outside ext db l rank parent child : whole_ok ext db l rank → parent ∈ l → (on_disk (td_diskdb db) child ∨ before child parent l) →
  (on_disk (td_diskdb db) parent → on_disk (td_diskdb db) child) → (rank child < rank parent)%nat →
  (∀ e, td_dirties db !! child = Some e → cn_parents e + 1 < 2 ^ 32) → child ≠ zero_hash →
  returns (Reference child parent) (λ _ db', whole_ok (ext_add ext parent child) db' l rank ∧ same_store db db' ∧
    td_dirties db' !! zero_hash = td_dirties db !! zero_hash ∧ grows db db' (λ h, if decide (h = child) then 1 else 0)) db.
Proof.
  intros Hok Hpl Hb Hpc Hlt Hroom Hcz. assert (∀ db', db' = db → same_store db db' ∧ td_dirties db' !! zero_hash = td_dirties db !! zero_hash ∧ grows db db' (λ h, if decide (h = child) then 1 else 0)) as Hsame.
  { intros ? ->. split_and!; [done|done|]. intros h e He. exists e. split; [done|]. case_decide; lia. }
  apply (whole_dirty _ _ _ _ _ Hok) in Hpl as Hp. destruct Hp as [Hpz [pe Hpe]].
  pose proof (disk_ok_add _ _ _ _ _ (ok_disk _ _ _ _ _ _ _ Hok) Hpc) as Hdisk. pose proof (rank_ok_add _ _ _ _ _ _ (ok_rank _ _ _ _ _ _ _ Hok) Hlt) as Hrank.
  assert ((on_disk (td_diskdb db) child ∨ is_Some (default ∅ (cn_children pe) !! child)) → whole_ok (ext_add ext parent child) db l rank) as Hunch.
  { intros Hor. destruct Hok as [Ol Od Om Or Os Oz]. split; try done. apply mem_ok_declare; [done|done|]. intros e He.
    apply bare_lookup_inv in He as (pe' & Hpe' & ->). rewrite Hpe in Hpe'. by injection Hpe' as <-. }
  unfold Reference. apply returns_bind, wp_get. destruct (td_dirties db !! child) as [ce|] eqn:Hce.
  2: { apply wp_ret. split; [|by apply Hsame]. apply Hunch. destruct Hb as [?|[Hb _]%before_elem]; [by left|].
       apply (whole_dirty _ _ _ _ _ Hok) in Hb as [_ [? ?]]. congruence. }
  rewrite Hpe. destruct (whole_entry _ _ _ _ _ _ Hok Hpe Hpz) as (_ & _ & Hall).
  assert (parent =? zero_hash = false) as -> by by apply Z.eqb_neq. rewrite andb_true_r.
  destruct (default ∅ (cn_children pe) !! child) as [k|] eqn:Hk.
  { rewrite (bool_decide_true (is_Some (Some k))) by by eexists. rewrite andb_true_r, bool_decide_true; [apply wp_ret; split; [|by apply Hsame]; apply Hunch; right; by eexists|].
    destruct (cn_children pe); [by eexists|]. cbn in Hk. by rewrite lookup_empty in Hk. }
  rewrite (bool_decide_false (is_Some None)) by by intros [? ?]. rewrite andb_false_r. change (default 0 None + 1) with 1. change (uint16 1) with 1. change (1 =? 1) with true.
  assert (child ≠ parent) as Hne by (intros ->; lia).
  set (ce' := set_parents (λ p, uint32 (p + 1)) ce). set (pe' := set_children (Some (<[child := 1]> (default ∅ (cn_children pe)))) pe).
  set (fee := if bool_decide (is_Some (cn_children pe)) then 0 else cachedNodeChildrenSize).
  set (db' := add_sizes 0 (fee + 34) (set_dirties (<[parent := pe']> (<[child := ce']> (td_dirties db))) db)).
  assert (whole_ok (ext_add ext parent child) db' l rank) as Hok'.
  { pose proof (db_ok_credit ext db _ [] l rank child ce Hok Hce (bare_lookup _ _ _ Hce) Hcz (Hroom _ eq_refl)) as Hok1.
    assert (td_dirties (set_dirties (<[child := ce']> (td_dirties db)) db) !! parent = Some pe) as Hpe1 by (cbn; by rewrite lookup_insert_ne).
    unfold whole_ok, db'. cbn [td_dirties add_sizes set_dirties]. rewrite !fmap_insert.
    apply (db_ok_entry ext (ext_add ext parent child) _ _ _ [] l rank parent pe pe' 0 (fee + 34) Hok1 Hpe1); [by left|done|done| |done| |].
    - apply (mem_ok_outside ext _ _ [] l parent (bare pe) child (ok_mem _ _ _ _ _ _ _ Hok1)); [|done|done|done].
      rewrite lookup_insert_ne by done. by apply bare_lookup.
    - cbn. eapply rank_ok_sub; [|exact Hrank]. intros x _. rewrite !lookup_fmap. destruct (decide (x = child)) as [->|]; [by rewrite Hce|by rewrite lookup_insert_ne].
    - unfold entry_size, children_size. rewrite !decide_False by done. subst fee. cbn. change (Z.of_nat HashLength) with 32. destruct (cn_children pe) as [c|]; cbn in Hk |- *.
      + rewrite map_size_insert_None by done. lia.
      + rewrite map_size_insert_None by done. rewrite map_size_empty. unfold cachedNodeChildrenSize. lia. }
  assert (returns (on_entry child (set_parents (λ n, uint32 (n + 1)));; on_entry parent (λ p, set_children (Some (<[child := 1]> (default ∅ (cn_children p)))) p);;
    modify (add_sizes 0 (Z.of_nat HashLength + 2))) (λ _ d, d = db') (add_sizes 0 fee db)) as Hrun.
  { apply returns_bind. eapply on_entry_ok; [exact Hce|]. apply returns_bind. eapply on_entry_ok; [by cbn; rewrite lookup_insert_ne|].
    apply wp_modify. unfold db'. change (Z.of_nat HashLength + 2) with 34. rewrite <- (add_sizes_add db _ 0 fee 0 34). done. }
  assert (same_store db db' ∧ td_dirties db' !! zero_hash = td_dirties db !! zero_hash ∧ grows db db' (λ h, if decide (h = child) then 1 else 0)) as Hrest.
  { split; [done|]. split; [cbn; by rewrite !lookup_insert_ne|]. intros h e. cbn. intros [[<- <-]|[Hnp He]]%lookup_insert_Some.
    - exists pe. split; [done|]. rewrite decide_False by done. cbn. lia.
    - apply lookup_insert_Some in He as [[<- <-]|[Hnc He]]; [exists ce|exists e]; (split; [done|]).
      + rewrite decide_True by done. cbn. specialize (Hroom _ eq_refl). destruct (whole_entry _ _ _ _ _ _ Hok Hce Hcz) as (_ & ? & _). rewrite uint32_id; lia.
      + rewrite decide_False by done. lia. }
  assert (returns (E := trie_db_error) (A := unit) (if bool_decide (is_Some (cn_children pe)) then mret tt else modify (add_sizes 0 cachedNodeChildrenSize)) (λ _ d, d = add_sizes 0 fee db) db) as Hfee.
  { subst fee. case_bool_decide; [apply wp_ret; by rewrite add_sizes_zero|by apply wp_modify]. }
  apply returns_bind. eapply returns_mono; [exact Hfee|]. intros [] ? ->. eapply returns_mono; [exact Hrun|]. by intros [] ? ->.
Qed.

Lemma entry_size_root m c : cn_children m = Some c → entry_size zero_hash m = Z.of_nat (base.size c) * 34.
Proof. intros Hc. unfold entry_size. by rewrite decide_True, Hc. Qed.
(** [Reference] from the metaroot: a root is held once more. *)
Lemma roots_of db m c : td_dirties db !! zero_hash = Some m → cn_children m = Some c → metaroot_children db = c.
Proof. intros Hm Hc. unfold metaroot_children. by rewrite Hm; cbn; rewrite Hc. Qed.
Lemma Reference_root ext db l rank root : whole_ok ext db l rank → root ≠ zero_hash →
  (∀ e, td_dirties db !! root = Some e → cn_parents e + 1 < 2 ^ 32) → default 0 (metaroot_children db !! root) + 1 < 2 ^ 16 →
  returns (Reference root zero_hash) (λ _ db', whole_ok ext db' l rank ∧ same_store db db' ∧
    metaroot_children db' = (if td_dirties db !! root then <[root := default 0 (metaroot_children db !! root) + 1]> (metaroot_children db) else metaroot_children db) ∧
    (∀ h, is_Some (td_dirties db' !! h) ↔ is_Some (td_dirties db !! h))) db.
Proof.
  intros Hok Hz Hroom Hcount. destruct (whole_root _ _ _ _ Hok) as (m & c & Hm & Hn & Hc & Hall). rewrite (roots_of _ _ _ Hm Hc) in *.
  unfold Reference. apply returns_bind, wp_get. destruct (td_dirties db !! root) as [e|] eqn:He; [|apply wp_ret; split_and!; [done|done|by apply roots_of with m|done]].
  rewrite Hm, Hc. rewrite bool_decide_true by by eexists. rewrite andb_false_r. change (default ∅ (Some c)) with c. set (k := default 0 (c !! root)) in *.
  assert (0 ≤ k) by (subst k; destruct (c !! root) as [k|] eqn:Hk; cbn; [apply Hall in Hk|]; lia). rewrite (uint16_id (k + 1)) by lia.
  set (e' := set_parents (λ n, uint32 (n + 1)) e). set (m' := set_children (Some (<[root := k + 1]> c)) m). set (fee := if k + 1 =? 1 then 34 else 0).
  set (db' := add_sizes 0 fee (set_dirties (<[zero_hash := m']> (<[root := e']> (td_dirties db))) db)).
  assert (whole_ok ext db' l rank) as Hok'.
  { pose proof (db_ok_credit ext db _ [] l rank root e Hok He (bare_lookup _ _ _ He) Hz (Hroom _ eq_refl)) as Hok1.
    assert (td_dirties (set_dirties (<[root := e']> (td_dirties db)) db) !! zero_hash = Some m) as Hm1 by (cbn; by rewrite lookup_insert_ne).
    unfold whole_ok, db'. cbn [td_dirties add_sizes set_dirties]. rewrite !fmap_insert.
    apply (db_ok_entry ext ext _ _ _ [] l rank zero_hash m m' 0 fee Hok1 Hm1); [by right|done|done| |by apply Hok1|by apply Hok1|].
    - apply (mem_ok_root ext _ _ [root] [] l (bare m) c _ (ok_mem _ _ _ _ _ _ _ Hok1)); [by apply bare_lookup in Hm1; rewrite <- Hm1; cbn; rewrite fmap_insert|done| |].
      + intros x n [[<- <-]|[_ Hx]]%lookup_insert_Some; [|by apply Hall]. split; [lia|]. left. apply (whole_dirty _ _ _ _ _ Hok). by split; [|eexists].
      + intros h. rewrite occ_nil, occ_cons, occ_nil. destruct (decide (root = h)) as [->|]; [rewrite lookup_insert_eq; subst k; cbn; lia|rewrite lookup_insert_ne by done; lia].
    - rewrite (entry_size_root _ (<[root := k + 1]> c)), (entry_size_root _ c) by done. subst fee k. destruct (c !! root) as [n|] eqn:Hk; cbn [default from_option id].
      + apply Hall in Hk as Hn0. rewrite map_size_insert_Some by by eexists. destruct (Z.eqb_spec (n + 1) 1); lia.
      + rewrite map_size_insert_None by done. change (0 + 1 =? 1) with true. lia. }
  apply returns_bind, wp_ret. apply returns_bind. eapply on_entry_ok; [exact He|]. apply returns_bind. eapply on_entry_ok; [by cbn; rewrite lookup_insert_ne|].
  rewrite Hc. change (default ∅ (Some c)) with c.
  assert (∀ d, d = db' → whole_ok ext d l rank ∧ same_store db d ∧ metaroot_children d = <[root := k + 1]> c ∧ (∀ h, is_Some (td_dirties d !! h) ↔ is_Some (td_dirties db !! h))) as Hend.
  { intros ? ->. split_and!; [done|done|by apply roots_of with m'; [apply lookup_insert_eq|]|]. intros h. cbn.
    destruct (decide (h = zero_hash)) as [->|]; [rewrite lookup_insert_eq, Hm; naive_solver|rewrite lookup_insert_ne by done].
    destruct (decide (h = root)) as [->|]; [rewrite lookup_insert_eq, He; naive_solver|by rewrite lookup_insert_ne]. }
  subst fee. destruct (k + 1 =? 1); [apply wp_modify|apply wp_ret]; apply Hend; unfold db'; [done|by rewrite add_sizes_zero].
Qed.

(** [Dereference] of a root that is held, or on disk, or already gone. *)
Definition held db (root : Hash) : Prop := is_Some (metaroot_children db !! root).
Definition drop_root (root : Hash) (c : gmap Hash Z) : gmap Hash Z :=
  match c !! root with Some k => if k =? 1 then base.delete root c else <[root := k - 1]> c | None => c end.
Lemma drop_reference_root ext db l rank root : whole_ok ext db l rank → root ≠ zero_hash → held db root ∨ on_disk (td_diskdb db) root ∨ td_dirties db !! root = None →
  returns (drop_reference root zero_hash) (λ _ db', db_ok content ext db' (bare <$> td_dirties db') [root] l rank ∧ same_store db db' ∧
    metaroot_children db' = drop_root root (metaroot_children db) ∧ (∀ h, is_Some (td_dirties db' !! h) ↔ is_Some (td_dirties db !! h))) db.
Proof.
  intros Hok Hz Hor. destruct (whole_root _ _ _ _ Hok) as (m & c & Hm & Hn & Hc & Hall). unfold held in Hor. rewrite (roots_of _ _ _ Hm Hc) in *.
  unfold drop_reference. apply returns_bind, wp_get. rewrite Hm, Hc. unfold drop_root. destruct (c !! root) as [k|] eqn:Hk; cbn [default from_option id].
  2: { apply wp_ret. split_and!; [|done|by apply roots_of with m|done]. destruct Hok as [Ol Od Om Or Os Oz]. split; try done. eapply mem_ok_pend; [|exact Om].
       intros h Hh Hd. rewrite occ_cons, occ_nil. case_decide as Heq; [subst h|lia]. exfalso. destruct Hor as [[? ?]|[?|Hno]]; [done|done|].
       apply (mo_dom _ _ _ _ _ _ Om) in Hh as [_ [? Hh]]. rewrite lookup_fmap, Hno in Hh. done. }
  destruct (Hall root k Hk) as [Hk0 Hin]. assert (0 <? k = true) as -> by lia. replace (k - 1 =? 0) with (k =? 1) by lia.
  set (c' := if k =? 1 then base.delete root c else <[root := k - 1]> c). set (fee := if k =? 1 then - (34) else 0).
  set (db' := add_sizes 0 fee (set_dirties (<[zero_hash := set_children (Some c') m]> (td_dirties db)) db)).
  assert (db_ok content ext db' (bare <$> td_dirties db') [root] l rank) as Hok'.
  { unfold db'. cbn [td_dirties add_sizes set_dirties]. rewrite fmap_insert.
    apply (db_ok_entry ext ext db _ [] [root] l rank zero_hash m (set_children (Some c') m) 0 fee Hok Hm); [by right|done|done| |by apply Hok|by apply Hok|].
    - apply (mem_ok_root ext _ _ [] [root] l (bare m) c _ (ok_mem _ _ _ _ _ _ _ Hok)); [by apply bare_lookup|done| |].
      + intros x n. subst c'. destruct (Z.eqb_spec k 1).
        * intros [_ Hx]%lookup_delete_Some. by apply Hall.
        * intros [[<- <-]|[_ Hx]]%lookup_insert_Some; [split; [lia|done]|by apply Hall].
      + intros h. rewrite occ_nil, occ_cons, occ_nil. subst c'. destruct (decide (root = h)) as [<-|]; destruct (Z.eqb_spec k 1).
        * rewrite lookup_delete_eq, Hk. cbn. lia.
        * rewrite lookup_insert_eq, Hk. cbn. lia.
        * rewrite lookup_delete_ne by done. lia.
        * rewrite lookup_insert_ne by done. lia.
    - rewrite (entry_size_root _ c'), (entry_size_root _ c) by done. subst fee c'. destruct (Z.eqb_spec k 1).
      + rewrite <- (insert_delete_id c root k) at 2 by done. rewrite map_size_insert_None by apply lookup_delete_eq. lia.
      + rewrite map_size_insert_Some by by eexists. lia. }
  assert (∀ d, d = db' → db_ok content ext d (bare <$> td_dirties d) [root] l rank ∧ same_store db d ∧ metaroot_children d = c' ∧ (∀ h, is_Some (td_dirties d !! h) ↔ is_Some (td_dirties db !! h))) as Hend.
  { intros ? ->. split_and!; [done|done|by apply roots_of with (set_children (Some c') m); [apply lookup_insert_eq|]|]. intros h. cbn.
    destruct (decide (h = zero_hash)) as [->|]; [rewrite lookup_insert_eq, Hm; naive_solver|by rewrite lookup_insert_ne]. }
  subst fee c'. destruct (k =? 1).
  - apply returns_bind. eapply on_entry_ok; [exact Hm|]. apply wp_modify. by apply Hend.
  - eapply on_entry_ok; [exact Hm|]. apply Hend. unfold db'. by rewrite add_sizes_zero.
Qed.
Lemma Dereference_ok ext db l rank root : whole_ok ext db l rank → root ≠ zero_hash → held db root ∨ on_disk (td_diskdb db) root ∨ td_dirties db !! root = None →
  returns (Dereference root) (λ _ db', (∃ l', whole_ok ext db' l' rank) ∧ same_store db db' ∧ metaroot_children db' = drop_root root (metaroot_children db) ∧
    (∀ h, is_Some (td_dirties db' !! h) → is_Some (td_dirties db !! h))) db.
Proof.
  intros Hok Hz Hor. unfold Dereference. assert (root =? zero_hash = false) as -> by by apply Z.eqb_neq. apply returns_bind, wp_get. apply returns_bind. cbn [dereference].
  apply returns_bind. eapply returns_mono; [by apply (drop_reference_root ext db l rank root)|]. cbn beta. intros [] db1 (Hok1 & Hst1 & Hr1 & Hd1).
  eapply returns_mono; [eapply (release_ok content ext Hcontent _ (base.size (td_dirties db)) db1 _ [] l rank root (dereference_ok content ext Hcontent _) Hok1 Hz)|].
  - intros d [e He]. by rewrite (bare_lookup _ _ _ He).
  - unfold below. rewrite <- size_dom. apply subseteq_size. intros h [_ Hh]%elem_of_filter. rewrite dom_fmap in Hh.
    apply elem_of_dom, Hd1. by apply elem_of_dom.
  - cbn beta. intros [] db2 (L' & l' & [C1 C2 C6 C3 C4 C5]). apply wp_modify.
    assert (L' = bare <$> td_dirties db2) as HL.
    { apply map_eq. intros h. destruct (L' !! h) as [e|] eqn:He; [symmetry; by apply (lookup_weaken _ _ _ _ He (ok_sub _ _ _ _ _ _ _ C1))|]. rewrite lookup_fmap.
      destruct (td_dirties db2 !! h) as [e|] eqn:Hd; [|done]. specialize (C5 h ltac:(by eexists) He). specialize (C4 h C5). rewrite C5, lookup_fmap, Hd in C4. done. }
    assert (∃ m c, td_dirties db1 !! zero_hash = Some m ∧ cn_children m = Some c) as (m & c & Hm & Hc).
    { destruct (mo_root _ _ _ _ _ _ (ok_mem _ _ _ _ _ _ _ Hok1)) as (b & c & Hb & _ & Hc & _). apply bare_lookup_inv in Hb as (m & Hm & ->). by exists m, c. }
    split_and!.
    + exists l'. unfold whole_ok. cbn. rewrite <- HL. destruct C1 as [Ol Od Om Or Os Oz]. by split.
    + destruct Hst1, C2. split; cbn; congruence.
    + rewrite <- Hr1, (roots_of db1 m c Hm Hc). rewrite HL, !lookup_fmap, Hm in C6. cbn in C6.
      destruct (td_dirties db2 !! zero_hash) as [m2|] eqn:Hm2; [|done]. cbn in C6. injection C6 as Hn' Hs' Hp' Hc' . unfold metaroot_children. cbn. rewrite Hm2. cbn. by rewrite Hc', Hc.
    + intros h [e He]. cbn in He. apply Hd1. specialize (C3 h). rewrite HL, !lookup_fmap, He in C3. destruct C3 as [? C3]; [by eexists|]. by destruct (td_dirties db1 !! h).
Qed.

(** * A new node *)
Definition ext_without ext (hash : Hash) : Hash → list Hash := λ h, if decide (h = hash) then [] else ext h.
Lemma without_links ext hash h c : c ∈ links content (ext_without ext hash) h → c ∈ links content ext h.
Proof. unfold links, ext_without. rewrite !elem_of_app. case_decide; [|done]. intros [?|?%not_elem_of_nil]; [by left|done]. Qed.
Lemma db_ok_without ext db L pend l rank hash : db_ok content ext db L pend l rank → hash ∉ l → db_ok content (ext_without ext hash) db L pend l rank.
Proof.
  intros [Ol [Dt Dc Dl] [M1 M2 M3 M4 M5 M6] Or Os Oz] Hni. pose proof (without_links ext hash) as Hw. split; try done.
  - split; [done|done|]. intros h c Hd Hc. eapply Dl; [done|by apply Hw].
  - split; try done.
    + intros h e He Hz. assert (h ≠ hash) by (intros ->; apply Hni, M2; split; [done|by eexists]). unfold ext_without. rewrite decide_False by done. by apply M3.
    + intros h c Hh Hc. apply M4; [done|by apply Hw].
    + intros h e c He Hz Hc. apply (M5 h e c He Hz). unfold ext_without in Hc. by case_decide; [apply not_elem_of_nil in Hc|].
  - intros h c Hh Hc. apply Or; [done|by apply Hw].
Qed.
Lemma uncited ext disk L pend l h : mem_ok content ext disk L pend l → h ∉ l → h ≠ zero_hash → ¬ on_disk disk h → cited L h = 0.
Proof.
  intros Hm Hni Hz Hd. pose proof Hm as [(m & c & Hr & Hn & Hc & Hall) M2 M3 M4 M5 M6]. apply msum_zero. intros k e He. unfold cites.
  destruct (decide (k = zero_hash)) as [->|Hkz].
  - rewrite Hr in He. injection He as <-. rewrite Hn, Hc. cbn. destruct (c !! h) as [x|] eqn:Hx; [|done]. exfalso. apply Hall in Hx as [_ [?|?]]; done.
  - destruct (M3 k e He Hkz) as (Hk & _ & Hch). assert (k ∈ l) as Hkl by (apply M2; split; [done|by eexists]).
    assert (h ∉ links content ext k) as Hnl. { intros Hl. destruct (M4 k h Hkl Hl) as [?|[? _]%before_elem]; done. }
    unfold links, kids in Hnl. rewrite Hk in Hnl. cbn in Hnl. apply not_elem_of_app in Hnl as [Hin Hex]. rewrite occ_none by done.
    destruct (default ∅ (cn_children e) !! h) as [x|] eqn:Hx; [|done]. by apply Hch in Hx as [? _].
Qed.
Lemma mem_ok_fresh ext disk L pend l hash e : mem_ok content ext disk L pend l → hash ∉ l → hash ≠ zero_hash → content hash = Some (cn_node e) →
  ext hash = [] → cn_children e = None → cn_parents e = 0 → (∀ c, c ∈ kids content hash → on_disk disk c ∨ c ∈ l) →
  (∀ x, occ x pend = occ x (inner (cn_node e))) → mem_ok content ext disk (<[hash := e]> L) [] (l ++ [hash]).
Proof.
  intros Hm Hni Hz Hc Hext Hch Hp Hkids Hocc. pose proof Hm as [M1 M2 M3 M4 M5 M6].
  assert (L !! hash = None) as Hnone. { destruct (L !! hash) eqn:Hl; [|done]. destruct Hni. apply M2. split; [done|by eexists]. }
  assert (∀ x, cited (<[hash := e]> L) x = occ x (inner (cn_node e)) + cited L x) as Hcit.
  { intros x. unfold cited. rewrite msum_insert by done. unfold cites. rewrite Hch. cbn. rewrite lookup_empty. cbn. lia. }
  assert (∀ h c, h ∈ l ++ [hash] → c ∈ links content ext h → on_disk disk c ∨ before c h (l ++ [hash])) as Hbefore.
  { intros h c [Hh|Hh%list_elem_of_singleton]%elem_of_app Hl.
    - destruct (M4 h c Hh Hl); [by left|right; by apply before_app].
    - subst h. unfold links in Hl. rewrite Hext, app_nil_r in Hl. destruct (Hkids c Hl); [by left|right; by apply before_last]. }
  split.
  - destruct M1 as (m & c & Hr & Hn & Hcm & Hall). exists m, c. rewrite lookup_insert_ne by done. split_and!; [done..|]. intros x k Hk.
    destruct (Hall x k Hk) as [? [?|?]]; (split; [done|]); [left; set_solver|by right].
  - intros x. rewrite elem_of_app, list_elem_of_singleton, M2. destruct (decide (x = hash)) as [->|]; [rewrite lookup_insert_eq; naive_solver|rewrite lookup_insert_ne by done; naive_solver].
  - intros x ex Hx Hxz. apply lookup_insert_Some in Hx as [[<- <-]|[_ Hx]]; [|by apply M3]. split; [done|]. split; [lia|]. rewrite Hch. intros c k. cbn. by rewrite lookup_empty.
  - exact Hbefore.
  - intros x ex c Hx Hxz Hcx. apply lookup_insert_Some in Hx as [[<- <-]|[_ Hx]]; [by rewrite Hext in Hcx; apply not_elem_of_nil in Hcx|by apply (M5 x ex)].
  - intros x ex Hx Hxz Hd. rewrite Hcit, occ_nil. apply lookup_insert_Some in Hx as [[<- <-]|[_ Hx]].
    + rewrite (uncited ext disk L pend l hash Hm Hni Hz Hd), occ_none; [lia|]. intros Hin. destruct (Hkids hash) as [?|?]; [|done..]. unfold kids. by rewrite Hc.
    + specialize (M6 x ex Hx Hxz Hd). rewrite Hocc in M6. lia.
Qed.

(** The parents of the children are counted. *)
Lemma add_parents_ok ext db l rank hs : whole_ok ext db l rank → (∀ h, h ∈ hs → h ≠ zero_hash) →
  (∀ h e, td_dirties db !! h = Some e → cn_parents e + Z.of_nat (length hs) < 2 ^ 32) →
  returns (for_each hs add_parent) (λ _ db', ∃ pend, pend ≡ₚ hs ∧ db_ok content ext db' (bare <$> td_dirties db') pend l rank ∧ same_store db db' ∧
    td_oldest db' = td_oldest db ∧ td_newest db' = td_newest db ∧ td_dirties db' !! zero_hash = td_dirties db !! zero_hash ∧
    (∀ h, is_Some (td_dirties db' !! h) ↔ is_Some (td_dirties db !! h)) ∧ grows db db' (λ _, Z.of_nat (length hs))) db.
Proof.
  intros Hok Hnz Hroom.
  assert (∀ rest pend0 db0, db_ok content ext db0 (bare <$> td_dirties db0) pend0 l rank → (∀ h, h ∈ rest → h ≠ zero_hash) →
    (∀ h e, td_dirties db0 !! h = Some e → cn_parents e + Z.of_nat (length rest) < 2 ^ 32) →
    returns (for_each rest add_parent) (λ _ db', ∃ pend, pend ≡ₚ rest ++ pend0 ∧ db_ok content ext db' (bare <$> td_dirties db') pend l rank ∧ same_store db0 db' ∧
    td_oldest db' = td_oldest db0 ∧ td_newest db' = td_newest db0 ∧ td_dirties db' !! zero_hash = td_dirties db0 !! zero_hash ∧
    (∀ h, is_Some (td_dirties db' !! h) ↔ is_Some (td_dirties db0 !! h)) ∧ grows db0 db' (λ _, Z.of_nat (length rest))) db0) as Hloop.
  2: { eapply returns_mono; [by apply (Hloop hs [])|]. cbn beta. intros [] db' (pend & Hp & Hrest). exists pend. by rewrite app_nil_r in Hp. }
  clear Hok Hnz Hroom. induction rest as [|x rest IH]; intros pend0 db0 Hok Hnz Hroom; cbn [for_each].
  { apply wp_ret. exists pend0. split_and!; [done..|]. intros h e He. exists e. split; [done|]. cbn. lia. }
  apply returns_bind. unfold add_parent. apply returns_bind, wp_get. destruct (td_dirties db0 !! x) as [e|] eqn:He.
  - specialize (Hnz x ltac:(by constructor)) as Hxz. pose proof (Hroom x e He) as Hxr. cbn [length] in Hxr.
    pose proof (db_ok_credit ext db0 _ pend0 l rank x e Hok He (bare_lookup _ _ _ He) Hxz ltac:(lia)) as Hok1. cbv zeta in Hok1.
    eapply on_entry_ok; [exact He|]. set (e' := set_parents _ e) in *.
    assert (cn_parents e' = cn_parents e + 1) as Hpe'.
    { cbn. destruct (mo_entry _ _ _ _ _ _ (ok_mem _ _ _ _ _ _ _ Hok) x _ (bare_lookup _ _ _ He) Hxz) as (_ & Hr & _). cbn in Hr. rewrite uint32_id; lia. }
    eapply returns_mono.
    { apply (IH (x :: pend0)); [cbn; by rewrite fmap_insert|intros h Hh; apply Hnz; by right|].
      intros h eh. cbn. intros [[<- <-]|[_ Hh]]%lookup_insert_Some; [lia|]. specialize (Hroom h eh Hh). cbn [length] in Hroom. lia. }
    cbn beta. intros [] db' (pend & Hp & Hok' & Hst & Ho & Hn & Hz & Hd & Hg). exists pend. split; [|split; [done|split; [done|split; [done|split; [done|]]]]].
    { rewrite Hp. cbn [app]. by rewrite Permutation_middle. }
    split_and!; [by rewrite Hz; cbn; rewrite lookup_insert_ne| |].
    + intros h. rewrite Hd. cbn. destruct (decide (h = x)) as [->|]; [rewrite lookup_insert_eq, He; split; intros _; by eexists|by rewrite lookup_insert_ne].
    + intros h eh Heh. destruct (Hg h eh Heh) as (e1 & He1 & Hle). cbn in He1. cbn [length]. apply lookup_insert_Some in He1 as [[<- <-]|[_ He1]]; [exists e|exists e1]; (split; [done|]); lia.
  - apply wp_ret. assert (db_ok content ext db0 (bare <$> td_dirties db0) (x :: pend0) l rank) as Hok1.
    { destruct Hok as [Ol Od Om Or Os Oz]. split; try done. eapply mem_ok_pend; [|exact Om]. intros h Hh _. rewrite occ_cons. case_decide; [subst h|lia].
      apply (mo_dom _ _ _ _ _ _ Om) in Hh as [_ [? Hh]]. by rewrite lookup_fmap, He in Hh. }
    eapply returns_mono.
    { apply (IH (x :: pend0)); [done|intros h Hh; apply Hnz; by right|]. intros h eh Heh. specialize (Hroom h eh Heh). cbn [length] in Hroom. lia. }
    cbn beta. intros [] db' (pend & Hp & Hok' & Hst & Ho & Hn & Hz & Hd & Hg). exists pend. split_and!; try done; [rewrite Hp; cbn [app]; by rewrite Permutation_middle|].
    intros h eh Heh. destruct (Hg h eh Heh) as (e1 & He1 & Hle). exists e1. split; [done|]. cbn [length]. lia.
Qed.
End refs.

Section store.
Context `{NodeDigest} `{NodeDecode} `{MapRange} {K : Type} `{BigCache K}.
Context (content : Hash → option raw_node) (Hcontent : content_ok content).
Implicit Types (db : TrieDatabase K) (ext : Hash → list Hash).
Abbreviation on_disk := (on_disk content).
Abbreviation whole_ok := (whole_ok content).

(** A rank for a new node. *)
Definition rank_above (rank : Hash → nat) (hs : list Hash) (hash : Hash) : Hash → nat :=
  λ h, if decide (h = hash) then S (foldr (λ c n, Nat.max (rank c) n) O hs) else rank h.
Lemma rank_above_max (rank : Hash → nat) (hs : list Hash) c : c ∈ hs → (rank c ≤ foldr (λ c n, Nat.max (rank c) n) O hs)%nat.
Proof. induction hs as [|x hs IH]; [by intros ?%not_elem_of_nil|]. cbn. intros [->|Hc]%elem_of_cons; [lia|]. specialize (IH Hc). lia. Qed.
Lemma new_rank ext db l rank hash : whole_ok ext db l rank → hash ∉ l → hash ≠ zero_hash → is_Some (content hash) →
  (∀ c, c ∈ links content ext hash → on_disk (td_diskdb db) c ∨ c ∈ l) →
  ∃ rank', (∀ h c, (h ≠ zero_hash ∧ (h = hash ∨ is_Some (td_dirties db !! h))) ∨ on_disk (td_diskdb db) h → c ∈ links content ext h → (rank' c < rank' h)%nat).
Proof.
  intros Hok Hni Hz Hc Hl. pose proof (ok_rank _ _ _ _ _ _ _ Hok) as Hr. destruct (decide (on_disk (td_diskdb db) hash)) as [Hd|Hd].
  { exists rank. intros h c Hh. apply Hr. destruct Hh as [[Hhz [->|Hh]]|?]; [by right| |by right]. left. split; [done|]. by rewrite lookup_fmap, fmap_is_Some. }
  exists (rank_above rank (links content ext hash) hash). intros h c Hh Hcl. unfold rank_above.
  assert (∀ x, x ∈ l ∨ on_disk (td_diskdb db) x → x ≠ hash) as Hother by (intros x [?|?] ->; done).
  assert (c ∈ l ∨ on_disk (td_diskdb db) c) as Hck.
  { destruct (decide (h = hash)) as [->|Hne]; [destruct (Hl c Hcl); tauto|]. destruct Hh as [[Hhz [?|Hh]]|Hh]; [done| |].
    - assert (h ∈ l) as Hhl by (by apply (whole_dirty _ _ _ _ _ _ Hok)). destruct (mo_before _ _ _ _ _ _ (ok_mem _ _ _ _ _ _ _ Hok) h c Hhl Hcl) as [?|[? _]%before_elem]; tauto.
    - right. by apply (do_closed _ _ _ _ (ok_disk _ _ _ _ _ _ _ Hok) h). }
  rewrite (decide_False (P := c = hash)) by by apply Hother. case_decide as Heq; [subst h; pose proof (rank_above_max rank _ _ Hcl); lia|].
  apply Hr; [|done]. destruct Hh as [[Hhz [?|Hh]]|?]; [done| |by right]. left. split; [done|]. by rewrite lookup_fmap, fmap_is_Some.
Qed.

(** A blob whose size, with the hash, can be counted in 16 bits. *)
Definition blob_fits (blob : list byte) : Prop := uint16 (Z.of_nat (length blob)) + 32 < 2 ^ 16.
Lemma blob_size blob : blob_fits blob → uint16 (Z.of_nat HashLength + uint16 (Z.of_nat (length blob))) = Z.of_nat HashLength + uint16 (Z.of_nat (length blob)).
Proof.
  unfold blob_fits. change (Z.of_nat HashLength) with 32. intros Hb. apply uint16_id. unfold uint16 in *. pose proof (Z.mod_pos_bound (Z.of_nat (length blob)) (2 ^ 16) ltac:(done)). lia.
Qed.
Lemma insert_fresh ext db l rank hash blob n r : whole_ok ext db l rank → td_dirties db !! hash = None → hash ≠ zero_hash → content hash = Some r →
  cached_form n = Ok r → (∀ c, c ∈ links content ext hash → on_disk (td_diskdb db) c ∨ c ∈ l) →
  (∀ h e, td_dirties db !! h = Some e → cn_parents e + Z.of_nat (length (inner r)) < 2 ^ 32) → blob_fits blob →
  returns (db_insert hash blob n) (λ _ db', ∃ rank', whole_ok (ext_without ext hash) db' (l ++ [hash]) rank' ∧
    (∀ c, c ∈ links content ext hash → (rank' c < rank' hash)%nat) ∧ same_store db db' ∧ td_dirties db' !! zero_hash = td_dirties db !! zero_hash ∧
    (∀ h e', td_dirties db' !! h = Some e' → h = hash ∧ cn_parents e' = 0 ∨ ∃ e, td_dirties db !! h = Some e ∧ cn_parents e' ≤ cn_parents e + Z.of_nat (length (inner r)))) db.
Proof.
  intros Hok Hnone Hz Hc Hform Hlinks Hroom Hblob. assert (hash ∉ l) as Hni by (intros Hin%(whole_dirty _ _ _ _ _ _ Hok); destruct Hin as [_ [? ?]]; congruence).
  destruct (new_rank ext db l rank hash Hok Hni Hz ltac:(by eexists) Hlinks) as (rank' & Hrank').
  assert (whole_ok (ext_without ext hash) db l rank') as Hok0.
  { unfold whole_ok. apply db_ok_without; [|done]. destruct Hok as [Ol Od Om Or Os Oz]. split; try done. intros h c Hh Hcl. apply Hrank'; [|done].
    destruct Hh as [[? Hh]|?]; [left|by right]. rewrite lookup_fmap, fmap_is_Some in Hh. tauto. }
  unfold db_insert. apply returns_bind, wp_get. rewrite Hnone, Hform. apply returns_bind. eapply wp_lift; [reflexivity|].
  set (entry := mkCached r _ 0 None (td_newest db) zero_hash). cbv zeta. change (cn_size entry) with (uint16 (Z.of_nat (length blob))).
  rewrite (blob_size blob Hblob). change (uint16 (Z.of_nat (length blob))) with (cn_size entry). apply returns_bind. eapply (childs_ok content Hcontent entry hash); [done|].
  assert (external entry = []) as -> by by (destruct (external entry) as [|x ?] eqn:Hx; [|assert (x ∈ external entry) as Hin by (rewrite Hx; by constructor); apply external_elem in Hin; destruct Hin as [? Hin]; cbn in Hin; by rewrite lookup_empty in Hin]).
  cbn [app cn_node entry]. assert (∀ c, c ∈ inner r → c ∈ links content ext hash) as Hin.
  { intros c Hcin. apply elem_of_app. left. unfold kids. by rewrite Hc. }
  apply returns_bind. eapply returns_mono.
  { apply (add_parents_ok content (ext_without ext hash) db l rank' (inner r) Hok0); [|done]. intros c Hci. destruct (Hlinks c (Hin c Hci)) as [[[x Hx] _]|Hl].
    - by apply (co_hash _ Hcontent) in Hx as [_ ?].
    - by apply (whole_dirty _ _ _ _ _ _ Hok) in Hl as [? _]. }
  cbn beta. intros [] db1 (pend & Hp & Hok1 & Hst & Ho & Hn & Hroot & Hdom & Hg).
  assert (td_dirties db1 !! hash = None) as Hnone1. { destruct (td_dirties db1 !! hash) eqn:Hd; [|done]. destruct (proj1 (Hdom hash)) as [? ?]; [by eexists|congruence]. }
  destruct Hok1 as [[Ln Lz Ls Lo Le] Od Om Or Os Oz].
  assert (mem_ok content (ext_without ext hash) (td_diskdb db1) (<[hash := bare entry]> (bare <$> td_dirties db1)) [] (l ++ [hash])) as Hmem.
  { destruct Hst as [Hst _]. eapply (mem_ok_fresh content Hcontent); [exact Om|done|done|done|by unfold ext_without; rewrite decide_True|done|done| |by intros x; apply occ_perm].
    intros c Hck. rewrite Hst. apply Hlinks, elem_of_app. by left. }
  apply returns_bind, wp_modify. apply returns_bind, wp_get.
  set (db2 := set_dirties _ db1). assert (list_ok (td_dirties db2) (td_oldest db1) (td_newest db1) l) as Hlist2.
  { split; try done. eapply seg_frame; [|exact Ls]. intros h Hh. cbn. apply lookup_insert_ne. by intros ->. }
  assert (∀ d m o nw, bare <$> m = <[hash := bare entry]> (bare <$> td_dirties db1) → list_ok m o nw (l ++ [hash]) → m !! zero_hash = td_dirties db1 !! zero_hash →
    d = add_sizes (Z.of_nat HashLength + cn_size entry) 0 (set_ends o nw (set_dirties m db1)) →
    ∃ rank', whole_ok (ext_without ext hash) d (l ++ [hash]) rank' ∧
    (∀ c, c ∈ links content ext hash → (rank' c < rank' hash)%nat) ∧ same_store db d ∧ td_dirties d !! zero_hash = td_dirties db !! zero_hash ∧
    (∀ h e', td_dirties d !! h = Some e' → h = hash ∧ cn_parents e' = 0 ∨ ∃ e, td_dirties db !! h = Some e ∧ cn_parents e' ≤ cn_parents e + Z.of_nat (length (inner r)))) as Hend.
  { intros d m o nw Hm Hlm Hmz ->. exists rank'. split_and!; [|intros c Hcl; apply Hrank'; [left; tauto|done]|done|by cbn; rewrite Hmz|].
    - split; cbn; rewrite ?Hm; try done; [|rewrite msum_insert, <- Oz by (by rewrite lookup_fmap, Hnone1); unfold entry_size, children_size; rewrite decide_False by done; cbn; change (Z.of_nat HashLength) with 32; lia].
      intros h c Hh Hcl. apply Hrank'; [|by apply without_links in Hcl]. destruct Hh as [[Hhz Hh]|Hh]; [left|right; by destruct Hst as [<- _]]. split; [done|].
      destruct (decide (h = hash)) as [->|Hne]; [by left|right]. rewrite lookup_insert_ne, lookup_fmap, fmap_is_Some in Hh by done. by apply Hdom.
    - intros h e' He'. cbn in He'. apply bare_lookup in He' as Hb. rewrite Hm in Hb. apply lookup_insert_Some in Hb as [[<- Hb]|[Hne Hb]].
      + left. split; [done|]. apply (f_equal cn_parents) in Hb. cbn in Hb. congruence.
      + right. apply bare_lookup_inv in Hb as (e1 & He1 & Hb). destruct (Hg h e1 He1) as (e & He & Hle). exists e. split; [done|]. apply (f_equal cn_parents) in Hb. cbn in Hb. lia. }
  cbn [td_oldest db2 set_dirties]. destruct (td_oldest db1 =? zero_hash) eqn:Hoz.
  - apply Z.eqb_eq in Hoz. assert (l = []) as ->. { destruct l as [|x l]; [done|]. cbn in Lo. rewrite Hoz in Lo. subst x. set_solver. }
    apply returns_bind, wp_modify, wp_modify. eapply (Hend _ (<[hash := entry]> (td_dirties db1)) hash hash); [by rewrite fmap_insert| |by rewrite lookup_insert_ne|done].
    split; [by apply NoDup_singleton|set_solver| |done|done]. exists entry. split_and!; [apply lookup_insert_eq|done|done|done].
  - apply Z.eqb_neq in Hoz. assert (∃ l' nw, l = l' ++ [nw]) as (l' & nw & ->). { destruct l as [|x l _] using rev_ind; [done|]. by exists l, x. }
    assert (td_newest db1 = nw) as Hnw. { specialize (Le ltac:(by destruct l')). rewrite last_snoc in Le. by injection Le. }
    assert (nw ≠ hash) by set_solver.
    destruct (seg_set_next _ _ _ _ _ hash Ln (lo_seg _ _ _ _ Hlist2)) as (en & Hen & Hseg).
    apply returns_bind. apply returns_bind. cbn [td_newest db2 set_dirties]. rewrite Hnw. eapply on_entry_ok; [exact Hen|]. apply wp_modify, wp_modify.
    eapply (Hend _ (<[nw := set_next hash en]> (<[hash := entry]> (td_dirties db1))) (td_oldest db1) hash); [| | |done].
    + erewrite bare_insert by (exact Hen || done). by rewrite fmap_insert.
    + split.
      * apply NoDup_app. split; [done|]. split; [set_solver|apply NoDup_singleton].
      * set_solver.
      * apply seg_app. split; [exact Hseg|]. exists entry. split_and!; [by rewrite lookup_insert_ne, lookup_insert_eq| |done|done].
        unfold last_or. rewrite last_snoc. intros p [= <-]. cbn. congruence.
      * rewrite Lo. by destruct l'.
      * intros _. by rewrite last_snoc.
    + rewrite lookup_insert_ne by (intros ->; apply Lz; set_solver). by rewrite lookup_insert_ne.
Qed.

(** What the hasher does with a node when it commits a trie ([store] of
    [trie/hasher.go]): insert it, then have the callback of [StateDB.Commit]
    reference the storage tries and codes of the accounts in it. *)
Definition store_node (hash : Hash) (blob : list byte) (n : raw_node + node) (exts : list Hash) : GoM (TrieDatabase K) trie_db_error unit :=
  db_insert hash blob n;; for_each exts (λ c, Reference c hash).

Lemma references_ok ext (hash : Hash) (exts : list Hash) db l rank : (∀ c, c ∈ exts → c ∈ ext hash) →
  ∀ (rest : list Hash) extc db1, (∀ c, c ∈ rest → c ∈ exts) →
  whole_ok extc db1 l rank → hash ∈ l → td_diskdb db1 = td_diskdb db → td_cleans db1 = td_cleans db → td_dirties db1 !! zero_hash = td_dirties db !! zero_hash →
  (∀ h c, h ≠ hash → c ∈ extc h ↔ c ∈ ext h) → (∀ c, c ∈ extc hash → c ∈ ext hash) → (∀ c, c ∈ ext hash → c ∈ extc hash ∨ c ∈ rest) →
  (∀ c, c ∈ exts → (on_disk (td_diskdb db) c ∨ before c hash l) ∧ (on_disk (td_diskdb db) hash → on_disk (td_diskdb db) c) ∧ (rank c < rank hash)%nat ∧ c ≠ zero_hash) →
  (∀ h e, td_dirties db1 !! h = Some e → cn_parents e + Z.of_nat (length rest) < 2 ^ 32) →
  returns (for_each rest (λ c, Reference c hash)) (λ _ db', whole_ok ext db' l rank ∧ same_store db db' ∧ td_dirties db' !! zero_hash = td_dirties db !! zero_hash) db1.
Proof.
  intros Hexts. induction rest as [|x rest IH]; intros extc db1 Hrest Hok Hhl Hdk Hcl Hroot Hother Hsub Hcov Hgood Hroom; cbn [for_each].
  - apply wp_ret. split_and!; [|done|done]. eapply db_ok_ext; [|exact Hok]. intros h c. destruct (decide (h = hash)) as [->|Hne]; [|by apply Hother].
    split; [by apply Hsub|]. intros Hc. destruct (Hcov c Hc) as [?|?%not_elem_of_nil]; done.
  - assert (x ∈ exts) as Hx by (apply Hrest; by constructor). destruct (Hgood x Hx) as (Hb & Hd & Hr & Hz).
    apply returns_bind. eapply returns_mono.
    { apply (Reference_outside content extc db1 l rank hash x Hok Hhl); rewrite ?Hdk; try done. intros e He. specialize (Hroom x e He). cbn [length] in Hroom. lia. }
    cbn beta. intros [] db2 (Hok2 & [Hd2 Hc2] & Hz2 & Hg2). apply (IH (ext_add extc hash x)); try done; try congruence.
    + intros c Hc. apply Hrest. by right.
    + intros h c Hne. unfold ext_add. rewrite decide_False by done. by apply Hother.
    + intros c. unfold ext_add. rewrite decide_True by done. intros [->|Hc]%elem_of_cons; [by apply Hexts|by apply Hsub].
    + intros c Hc. unfold ext_add. rewrite decide_True, elem_of_cons by done. destruct (Hcov c Hc) as [?|[->|?]%elem_of_cons]; tauto.
    + intros h e He. destruct (Hg2 h e He) as (e1 & He1 & Hle). specialize (Hroom h e1 He1). cbn [length] in Hroom. case_decide; lia.
Qed.
Lemma store_node_ok ext db l rank hash blob n exts r : whole_ok ext db l rank → hash ≠ zero_hash → content hash = Some r → cached_form n = Ok r →
  (∀ c, c ∈ exts ↔ c ∈ ext hash) → (∀ c, c ∈ links content ext hash → on_disk (td_diskdb db) c ∨ c ∈ l) →
  (∀ h e, td_dirties db !! h = Some e → cn_parents e + Z.of_nat (length (inner r) + length exts) < 2 ^ 32) →
  Z.of_nat (length exts) < 2 ^ 32 → blob_fits blob →
  returns (store_node hash blob n exts) (λ _ db', (∃ l' rank', whole_ok ext db' l' rank') ∧ same_store db db' ∧ td_dirties db' !! zero_hash = td_dirties db !! zero_hash ∧
    is_Some (td_dirties db' !! hash)) db.
Proof.
  intros Hok Hz Hc Hform Hexts Hlinks Hroom Hfew Hblob. unfold store_node. apply returns_bind.
  assert (∀ c, c ∈ exts → c ∈ links content ext hash) as Hel by (intros c Hce; apply elem_of_app; right; by apply Hexts).
  assert (∀ c, c ∈ links content ext hash → c ≠ zero_hash) as Hnz.
  { intros c Hcl. destruct (Hlinks c Hcl) as [[[x Hx] _]|Hl]; [by apply (co_hash _ Hcontent) in Hx as [_ ?]|]. by apply (whole_dirty _ _ _ _ _ _ Hok) in Hl as [? _]. }
  assert (∀ c, c ∈ exts → on_disk (td_diskdb db) hash → on_disk (td_diskdb db) c) as Hdd.
  { intros c Hce Hd. apply (do_closed _ _ _ _ (ok_disk _ _ _ _ _ _ _ Hok) hash c Hd). by apply Hel. }
  assert (∀ l' rank' d, whole_ok ext d l' rank' ∧ same_store db d ∧ td_dirties d !! zero_hash = td_dirties db !! zero_hash → hash ∈ l' →
    (∃ l' rank', whole_ok ext d l' rank') ∧ same_store db d ∧ td_dirties d !! zero_hash = td_dirties db !! zero_hash ∧ is_Some (td_dirties d !! hash)) as Hend.
  { intros l' rank' d (Hd & Hs & Hr) Hin. split_and!; [by exists l', rank'|done|done|]. by apply (whole_dirty _ _ _ _ _ _ Hd) in Hin as [_ ?]. }
  destruct (td_dirties db !! hash) as [e|] eqn:He.
  - assert (hash ∈ l) as Hhl by (apply (whole_dirty _ _ _ _ _ _ Hok); split; [done|by eexists]).
    unfold db_insert. apply returns_bind, wp_get. rewrite He. apply wp_ret. eapply returns_mono.
    { apply (references_ok ext hash exts db l rank) with ext; try done; [intros c; apply Hexts|tauto| |].
      - intros c Hce. destruct (mo_before _ _ _ _ _ _ (ok_mem _ _ _ _ _ _ _ Hok) hash c Hhl (Hel c Hce)) as [?|?];
          (split_and!; [tauto|by apply Hdd| |by apply Hnz, Hel]); (apply (ok_rank _ _ _ _ _ _ _ Hok); [left; split; [done|]; by rewrite lookup_fmap, He|by apply Hel]).
      - intros h eh Hh. specialize (Hroom h eh Hh). lia. }
    intros [] d Hd. by apply (Hend l rank d).
  - assert (hash ∉ l) as Hni by (intros Hin%(whole_dirty _ _ _ _ _ _ Hok); destruct Hin as [_ [? ?]]; congruence).
    eapply returns_mono.
    { apply (insert_fresh ext db l rank hash blob n r); try done. intros h eh Hh. specialize (Hroom h eh Hh). lia. }
    cbn beta. intros [] db1 (rank' & Hok1 & Hrank & [Hd1 Hc1] & Hz1 & Hg1). eapply returns_mono.
    { apply (references_ok ext hash exts db (l ++ [hash]) rank') with (ext_without ext hash); try done.
      - intros c; apply Hexts.
      - set_solver.
      - intros h c Hne. unfold ext_without. by rewrite decide_False.
      - intros c. unfold ext_without. rewrite decide_True by done. by intros ?%not_elem_of_nil.
      - intros c Hce. right. by apply Hexts.
      - intros c Hce. split_and!; [|by apply Hdd|by apply Hrank, Hel|by apply Hnz, Hel]. destruct (Hlinks c (Hel c Hce)); [by left|right; by apply before_last].
      - intros h eh Hh. destruct (Hg1 h eh Hh) as [[-> ->]|(e & He' & Hle)]; [lia|]. specialize (Hroom h e He'). lia. }
    intros [] d Hd. apply (Hend (l ++ [hash]) rank' d Hd). set_solver.
Qed.
End store.
