(* ===== verification/TrieDBFlush.v ===== *)
(** From the trie database to the disk: what is written is complete downwards,
    and only what is on disk leaves the memory.

    Committing a trie to disk: [commit] and [Commit] of [trie/database.go]
    write a node after everything it refers to, and forget what they wrote. *)
From S2P Require Import Prelude Hoare Types TrieEncoding Trie Memorydb TrieNode TrieDB TrieDBInv TrieDBGC TrieDBRefs.

Section flush.
Context `{NodeDigest} `{NodeDecode} `{MapRange} {K : Type} `{BigCacheLaws K}.
Context (content : Hash → option raw_node) (ext : Hash → list Hash) (Hcontent : content_ok content).
Implicit Types db : TrieDatabase K.
Abbreviation on_disk := (on_disk content).
Abbreviation links := (links content ext).
Abbreviation whole_ok := (whole_ok content ext).
Abbreviation db_ok := (db_ok content ext).

(** * Writes *)
Definition node_put (disk : Database) (D : gmap Hash cachedNode) (kv : keyvalue) (h : Hash) : Prop :=
  ∃ r, content h = Some r ∧ kv = PutKey (Hash_Bytes h) (raw_rlp r) ∧ (is_Some (D !! h) ∨ on_disk disk h) ∧ ∀ c, c ∈ links h → on_disk disk c.
Definition preimage_put (kv : keyvalue) : Prop := ∃ h v, kv = PutKey (secureKey (Hash_Bytes h)) v.
Fixpoint writes_ok (disk : Database) (D : gmap Hash cachedNode) (batch : list keyvalue) : Prop :=
  match batch with
  | [] => True
  | kv :: batch => (preimage_put kv ∨ ∃ h, node_put disk D kv h) ∧ writes_ok (db_write disk kv) D batch
  end.
Lemma writes_ok_app disk D b b' : writes_ok disk D (b ++ b') ↔ writes_ok disk D b ∧ writes_ok (batch_Write b disk) D b'.
Proof. revert disk. induction b as [|kv b IH]; intros disk; cbn; [tauto|]. rewrite IH. tauto. Qed.
Lemma secure_key_other h h' : secureKey (Hash_Bytes h) ≠ Hash_Bytes h'.
Proof. intros Heq%(f_equal length). unfold secureKey in Heq. by rewrite length_app, !Hash_Bytes_length in Heq. Qed.
Lemma hash_key_inj h h' : is_Some (content h) → is_Some (content h') → Hash_Bytes h = Hash_Bytes h' → h = h'.
Proof. intros [r Hr] [r' Hr']. apply (co_hash _ Hcontent) in Hr as [? _], Hr' as [? _]. by apply Hash_Bytes_inj. Qed.

Lemma put_lookup kv disk D h : (preimage_put kv ∨ ∃ x, node_put disk D kv x) → is_Some (content h) →
  (db_write disk kv) !! Hash_Bytes h = disk !! Hash_Bytes h ∨ node_put disk D kv h ∧ (db_write disk kv) !! Hash_Bytes h = raw_rlp <$> content h.
Proof.
  intros Hkv Hh. destruct Hkv as [(x & v & ->)|(x & r & Hr & -> & Hx & Hl)]; cbn.
  - left. rewrite lookup_insert_ne; [done|]. apply secure_key_other.
  - destruct (decide (x = h)) as [->|Hne].
    + right. rewrite lookup_insert_eq, Hr. split; [by exists r|done].
    + left. rewrite lookup_insert_ne; [done|]. intros Heq. by apply Hne, hash_key_inj.
Qed.
Lemma put_mono kv disk D h : (preimage_put kv ∨ ∃ x, node_put disk D kv x) → on_disk disk h → on_disk (db_write disk kv) h.
Proof.
  intros Hkv [Hc Hd]. split; [done|]. destruct (put_lookup kv disk D h Hkv Hc) as [->|[_ ->]]; [done|]. destruct Hc as [r ->]. by eexists.
Qed.
Lemma put_new kv disk D h : (preimage_put kv ∨ ∃ x, node_put disk D kv x) → on_disk (db_write disk kv) h → on_disk disk h ∨ node_put disk D kv h.
Proof. intros Hkv [Hc Hd]. destruct (put_lookup kv disk D h Hkv Hc) as [Heq|[Hp _]]; [left|by right]. split; [done|]. by rewrite <- Heq. Qed.
Lemma disk_ok_put kv disk D cl : (preimage_put kv ∨ ∃ x, node_put disk D kv x) → disk_ok content ext disk cl → disk_ok content ext (db_write disk kv) cl.
Proof.
  intros Hkv [Dt Dc Dl]. split.
  - intros h r b Hr Hb. destruct (put_lookup kv disk D h Hkv ltac:(by eexists)) as [Heq|[_ Heq]]; rewrite Heq in Hb; [by eapply Dt|].
    rewrite Hr in Hb. by injection Hb.
  - intros h r c b Hc Hr Hb. pose proof (Dc h r c b Hc Hr Hb) as Hd. destruct (put_lookup kv disk D h Hkv ltac:(by eexists)) as [->|[_ ->]]; [done|].
    rewrite Hr. cbn. by rewrite (Dt h r b).
  - intros h c Hh Hc. apply (put_mono kv disk D); [done|]. destruct (put_new kv disk D h Hkv Hh) as [?|(r & _ & _ & _ & Hl)]; [by eapply Dl|by apply Hl].
Qed.
Lemma mem_ok_disk disk disk' L pend l : (∀ h, on_disk disk h → on_disk disk' h) → mem_ok content ext disk L pend l → mem_ok content ext disk' L pend l.
Proof.
  intros Hd [(m & c & Hm & Hn & Hc & Hall) M2 M3 M4 M5 M6]. split; try done.
  - exists m, c. split_and!; [done..|]. intros x k Hk. destruct (Hall x k Hk) as [? [?|?]]; (split; [done|]); [by left|right; by apply Hd].
  - intros h x Hh Hx. destruct (M4 h x Hh Hx); [left; by apply Hd|by right].
  - intros h e x He Hz Hx. destruct (M5 h e x He Hz Hx); [left; by apply Hd|by right].
  - intros h e He Hz Hnd. apply (M6 h e He Hz). intros ?. by apply Hnd, Hd.
Qed.
Lemma db_ok_put db L pend l rank kv : db_ok db L pend l rank → (preimage_put kv ∨ ∃ x, node_put (td_diskdb db) (td_dirties db) kv x) →
  db_ok (set_store (db_write (td_diskdb db) kv) (td_cleans db) db) L pend l rank.
Proof.
  intros [Ol Od Om Or Os Oz] Hkv. split; cbn; try done.
  - by eapply disk_ok_put.
  - eapply mem_ok_disk; [|exact Om]. intros h. by eapply put_mono.
  - intros h c [Hh|Hh] Hc; [apply Or; [by left|done]|]. apply Or; [|done]. destruct (put_new kv _ _ h Hkv Hh) as [?|(r & Hr & _ & Hx & _)]; [by right|].
    destruct Hx as [Hx|?]; [left|by right]. split; [by apply (co_hash _ Hcontent) in Hr as [_ ?]|by rewrite lookup_fmap, fmap_is_Some].
Qed.
(** A batch is written. *)
Lemma writes_mono batch disk D h : writes_ok disk D batch → on_disk disk h → on_disk (batch_Write batch disk) h.
Proof. revert disk. induction batch as [|kv batch IH]; intros disk; [done|]. intros [Hkv Hb] Hd. apply (IH _ Hb). by eapply put_mono. Qed.
Lemma writes_saved batch disk D h r : writes_ok disk D batch → content h = Some r → PutKey (Hash_Bytes h) (raw_rlp r) ∈ batch → on_disk (batch_Write batch disk) h.
Proof.
  revert disk. induction batch as [|kv batch IH]; intros disk; [by intros _ _ ?%not_elem_of_nil|]. intros [Hkv Hb] Hr [<-|Hin]%elem_of_cons; [|by apply IH].
  apply (writes_mono batch _ D); [done|]. split; [by eexists|]. cbn. rewrite lookup_insert_eq. by eexists.
Qed.
Lemma db_ok_writes db L pend l rank batch : db_ok db L pend l rank → writes_ok (td_diskdb db) (td_dirties db) batch →
  db_ok (set_store (batch_Write batch (td_diskdb db)) (td_cleans db) db) L pend l rank.
Proof.
  revert db. induction batch as [|kv batch IH]; intros db Hok; [intros _; by destruct db|]. intros [Hkv Hb]. pose proof (db_ok_put _ _ _ _ _ _ Hok Hkv) as Hok1.
  by apply (IH _ Hok1).
Qed.

(** * Leaving the memory

    What a flush does to the entries: the metaroot and those that stay are the
    same but for their links, and what goes is on disk. *)
Record flushed db db' : Prop := {
  fl_sub : bare <$> td_dirties db' ⊆ bare <$> td_dirties db;
  fl_root : (bare <$> td_dirties db') !! zero_hash = (bare <$> td_dirties db) !! zero_hash;
  fl_kept h : is_Some (td_dirties db !! h) → is_Some (td_dirties db' !! h) ∨ on_disk (td_diskdb db') h;
  fl_disk h : on_disk (td_diskdb db) h → on_disk (td_diskdb db') h;
  fl_aside k : length k ≠ HashLength → td_diskdb db' !! k = td_diskdb db !! k
}.
#[local] Instance flushed_refl : Reflexive flushed.
Proof. intros db. split; try done. by left. Qed.
#[local] Instance flushed_trans : Transitive flushed.
Proof.
  intros db1 db2 db3 [S1 R1 K1 D1 A1] [S2 R2 K2 D2 A2]. split.
  - by etrans.
  - by rewrite R2.
  - intros h Hh. destruct (K1 h Hh) as [?|?]; [by apply K2|right; by apply D2].
  - intros h Hh. by apply D2, D1.
  - intros k Hk. by rewrite A2, A1.
Qed.
Lemma flushed_dom db db' h : flushed db db' → is_Some (td_dirties db' !! h) → is_Some (td_dirties db !! h).
Proof.
  intros Hf [e He]. pose proof (lookup_weaken _ _ _ _ (bare_lookup _ _ _ He) (fl_sub _ _ Hf)) as Hb. apply bare_lookup_inv in Hb as (e' & He' & _). by exists e'.
Qed.

Lemma put_key k k' v v' : PutKey k v = PutKey k' v' → k = k'.
Proof. congruence. Qed.
Definition saves (kv : keyvalue) (h : Hash) : Prop := ∃ r, content h = Some r ∧ kv = PutKey (Hash_Bytes h) (raw_rlp r).
Lemma saves_aside batch disk k : (∀ kv, kv ∈ batch → ∃ h, saves kv h) → length k ≠ HashLength → batch_Write batch disk !! k = disk !! k.
Proof.
  revert disk. induction batch as [|kv batch IH]; intros disk Hb Hk; [done|]. destruct (Hb kv) as (h & r & _ & ->); [by constructor|].
  etrans; [apply IH; [intros kv' ?; apply Hb; by right|done]|]. apply lookup_insert_ne. intros <-. by rewrite Hash_Bytes_length in Hk.
Qed.
Lemma uncache_ok db l rank h r : whole_ok db l rank → content h = Some r → on_disk (td_diskdb db) h →
  returns (uncache (Hash_Bytes h) (raw_rlp r)) (λ _ db', (∃ l', whole_ok db' l' rank) ∧ td_diskdb db' = td_diskdb db ∧ flushed db db' ∧ td_dirties db' !! h = None) db.
Proof.
  intros Hok Hr Hd. destruct (co_hash _ Hcontent _ _ Hr) as [Hh Hz]. unfold uncache. rewrite BytesToHash_Bytes by done. apply returns_bind, wp_get.
  destruct (td_dirties db !! h) as [n|] eqn:Hn; [|apply wp_ret; split_and!; [by exists l|done|done|done]].
  apply returns_bind. eapply returns_mono.
  { eapply (retire_ok content ext Hcontent db _ [] [] l rank h n Hok Hn (bare_lookup _ _ _ Hn) Hz); [by left|]. intros x _. rewrite occ_nil.
    destruct (whole_entry _ _ _ _ _ _ _ Hok Hn Hz) as (_ & _ & Hall). apply Z.add_nonneg_nonneg; [done|]. apply cites_nonneg. intros c k Hk. apply Hall in Hk. lia. }
  cbn beta. intros [] db1 (l1 & Hok1 & [Hdk Hcl] & Hbare). apply returns_bind, wp_modify, returns_bind, wp_modify, wp_modify.
  assert ((bare <$> td_dirties db1) !! h = Some (bare n)) as Hn1 by (rewrite Hbare; by apply bare_lookup). apply bare_lookup_inv in Hn1 as (n1 & Hn1 & Heq).
  assert (cn_size n1 = cn_size n ∧ cn_children n1 = cn_children n) as [Hs Hc] by (split; [apply (f_equal cn_size) in Heq|apply (f_equal cn_children) in Heq]; done).
  pose proof (db_ok_bury content ext db1 _ [] l1 rank h n1 (- (Z.of_nat HashLength + cn_size n) - children_size n) 0 Hok1 Hn1 (lookup_delete_eq _ _)) as Hok2.
  assert (bare <$> base.delete h (td_dirties db1) = base.delete h (bare <$> td_dirties db)) as Hdel by by rewrite fmap_delete, Hbare.
  assert (td_diskdb db1 !! Hash_Bytes h = Some (raw_rlp r)) as Hg.
  { rewrite Hdk. destruct Hd as [_ [b Hb]]. rewrite Hb. f_equal. by apply (do_true _ _ _ _ (ok_disk _ _ _ _ _ _ _ Hok) h r). }
  split_and!.
  - exists l1. unfold whole_ok. cbn. rewrite Hdel. destruct Hok2 as [Ol Od Om Or Os Oz].
    { unfold entry_size, children_size. rewrite decide_False by done. cbn. rewrite Hs, Hc. change (Z.of_nat HashLength) with 32. lia. }
    split; try done. cbn in *. destruct Od as [Dt Dc Dl]. split; [done| |done]. intros x rx c b Hc0 Hrx Hb.
    destruct (td_cleans db1) as [c0|]; [|done]. injection Hc0 as <-. apply bc_Get_Set in Hb as [[Hk <-]|Hb]; [|by eapply Dc].
    rewrite <- Hk. exact Hg.
  - done.
  - cbn. split; cbn; rewrite ?Hdel, ?Hdk.
    + apply delete_subseteq.
    + by apply lookup_delete_ne.
    + intros x [e Hx]. destruct (decide (x = h)) as [->|Hne]; [by right|left]. rewrite lookup_delete_ne by done.
      assert ((bare <$> td_dirties db1) !! x = Some (bare e)) as Hx1 by (rewrite Hbare; by apply bare_lookup). apply bare_lookup_inv in Hx1 as (? & ? & _). by eexists.
    + done.
    + done.
  - cbn. apply lookup_delete_eq.
Qed.
Lemma Replay_ok batch db l rank : whole_ok db l rank → (∀ kv, kv ∈ batch → ∃ h, saves kv h ∧ on_disk (td_diskdb db) h) →
  returns (Replay batch) (λ _ db', (∃ l', whole_ok db' l' rank) ∧ td_diskdb db' = td_diskdb db ∧ flushed db db' ∧
    ∀ kv h, kv ∈ batch → saves kv h → td_dirties db' !! h = None) db.
Proof.
  revert db l. induction batch as [|kv batch IH]; intros db l Hok Hb; unfold Replay; cbn [for_each].
  - apply wp_ret. split_and!; [by exists l|done|done|]. by intros ? ? ?%not_elem_of_nil.
  - destruct (Hb kv) as (h & (r & Hr & ->) & Hd); [by constructor|]. apply returns_bind. eapply returns_mono; [by apply (uncache_ok db l rank h r)|].
    cbn beta. intros [] db1 ((l1 & Hok1) & Hdk & Hfl & Hgone). eapply returns_mono; [apply (IH db1 l1 Hok1)|].
    + intros kv Hkv. rewrite Hdk. apply Hb. by right.
    + cbn beta. intros [] db2 (Hok2 & Hdk2 & Hfl2 & Hgone2). split_and!; [done|congruence|by etrans|]. intros kv x [->|Hin]%elem_of_cons Hs; [|by eapply Hgone2].
      assert (h = x) as <- by (destruct Hs as (r' & Hr' & Heq); apply (hash_key_inj h x); [by eexists..|]; by apply put_key in Heq).
      destruct (td_dirties db2 !! h) eqn:Hx; [|done]. destruct (flushed_dom _ _ h Hfl2) as [? ?]; [by eexists|congruence].
Qed.
End flush.

Section commit.
Context `{NodeDigest} `{NodeDecode} `{MapRange} {K : Type} `{BigCacheLaws K}.
Context (content : Hash → option raw_node) (ext : Hash → list Hash) (Hcontent : content_ok content).
Implicit Types db : TrieDatabase K.
Abbreviation on_disk := (on_disk content).
Abbreviation links := (links content ext).
Abbreviation whole_ok := (whole_ok content ext).
Abbreviation flushed := (flushed content).
Abbreviation saves := (saves content).
#[local] Existing Instances flushed_refl flushed_trans.

(** * Batches of nodes *)
Record batch_ok db (batch : list keyvalue) : Prop := {
  ba_writes : writes_ok content ext (td_diskdb db) (td_dirties db) batch;
  ba_nodes kv : kv ∈ batch → ∃ h, saves kv h
}.
Definition stored db (batch : list keyvalue) (h : Hash) : Prop := on_disk (batch_Write batch (td_diskdb db)) h.
Lemma batch_ok_nil db : batch_ok db [].
Proof. split; [done|]. by intros kv ?%not_elem_of_nil. Qed.
Lemma stored_disk db batch h : batch_ok db batch → on_disk (td_diskdb db) h → stored db batch h.
Proof. intros [Hw _]. by apply (writes_mono content ext Hcontent batch _ (td_dirties db)). Qed.

Lemma flush_batch_ok {A} (k : GoM (TrieDatabase K) trie_db_error A) (Q : A → TrieDatabase K → Prop) db l rank batch : whole_ok db l rank → batch_ok db batch →
  (∀ db' l', whole_ok db' l' rank → flushed db db' → td_diskdb db' = batch_Write batch (td_diskdb db) →
     (∀ kv h, kv ∈ batch → saves kv h → td_dirties db' !! h = None) → returns k Q db') →
  returns (disk_Write batch;; Replay batch;; k) Q db.
Proof.
  intros Hok Hb HQ. pose proof Hb as [Hw Hn]. apply returns_bind, wp_modify, returns_bind.
  pose proof (db_ok_writes content ext Hcontent db _ [] l rank batch Hok Hw) as Hok1. set (db1 := set_store _ _ db) in *.
  assert (flushed db db1) as Hf1.
  { split; cbn; [done|done|by left|intros h; by apply stored_disk|]. intros k' Hk. by apply (saves_aside content). }
  eapply returns_mono; [apply (Replay_ok content ext Hcontent batch db1 l rank Hok1)|].
  - intros kv Hkv. destruct (Hn kv Hkv) as (h & r & Hr & ->). exists h. split; [by exists r|]. by apply (writes_saved content ext Hcontent batch _ (td_dirties db) h r).
  - cbn beta. intros [] db2 ([l2 Hok2] & Hdk & Hf2 & Hgone). apply (HQ db2 l2); [done|by etrans|by rewrite Hdk|done].
Qed.

(** * Levels *)
Lemma below_lt L rank h r : is_Some (L !! h) → (r < rank h)%nat → (below L rank r < below L rank (rank h))%nat.
Proof. intros Hh Hr. pose proof (below_sub L L rank r r ltac:(done) ltac:(done)). unfold below. apply subset_size. split.
  - intros x [Hx Hd]%elem_of_filter. apply elem_of_filter. split; [lia|done].
  - intros Hsub. assert (h ∈ filter (λ x, (rank x ≤ r)%nat) (dom L)) as [Hle _]%elem_of_filter; [|lia]. apply Hsub, elem_of_filter. split; [done|]. by apply elem_of_dom.
Qed.
Lemma below_size (L : gmap Hash cachedNode) rank r : (below L rank r ≤ base.size L)%nat.
Proof. unfold below. rewrite <- size_dom. apply subseteq_size. by intros h [_ ?]%elem_of_filter. Qed.

(** Everything a dirty node refers to is among its children, or on disk. *)
Lemma links_children db l rank h n c : whole_ok db l rank → td_dirties db !! h = Some n → h ≠ zero_hash → c ∈ links h →
  c ∈ external n ++ inner (cn_node n) ∨ on_disk (td_diskdb db) c.
Proof.
  intros Hok Hn Hz Hc. destruct (whole_entry _ _ _ _ _ _ _ Hok Hn Hz) as (Hr & _). apply elem_of_app in Hc as [Hc|Hc].
  - left. apply elem_of_app. right. unfold kids in Hc. by rewrite Hr in Hc.
  - destruct (mo_ext _ _ _ _ _ _ (ok_mem _ _ _ _ _ _ _ Hok) h _ c (bare_lookup _ _ _ Hn) Hz Hc) as [?|Hx]; [by right|left].
    apply elem_of_app. left. by apply external_elem.
Qed.
Lemma child_known db l rank h n c : whole_ok db l rank → td_dirties db !! h = Some n → h ≠ zero_hash → c ∈ external n ++ inner (cn_node n) →
  c ≠ zero_hash ∧ (rank c < rank h)%nat ∧ (is_Some (td_dirties db !! c) ∨ on_disk (td_diskdb db) c).
Proof.
  intros Hok Hn Hz Hc. destruct (whole_entry _ _ _ _ _ _ _ Hok Hn Hz) as (Hr & _ & Hx).
  assert (h ∈ l) as Hl by (apply (whole_dirty _ _ _ _ _ _ Hok); split; [done|by eexists]).
  assert (c ∈ links h) as Hcl.
  { apply elem_of_app in Hc as [Hc|Hc]; apply elem_of_app; [right|left; unfold kids; by rewrite Hr]. apply external_elem in Hc as [k Hk]. by apply Hx in Hk as [? _]. }
  destruct (link_nonzero content ext Hcontent _ _ _ _ _ _ _ Hok Hl Hcl) as [? ?]. split_and!; [done..|].
  destruct (mo_before _ _ _ _ _ _ (ok_mem _ _ _ _ _ _ _ Hok) h c Hl Hcl) as [?|[Hb _]%before_elem]; [by right|left]. by apply (whole_dirty _ _ _ _ _ _ Hok) in Hb as [_ ?].
Qed.

(** * [commit] *)
Record committed (rank : Hash → nat) db batch db' batch' : Prop := {
  cm_ok : ∃ l, whole_ok db' l rank;
  cm_flushed : flushed db db';
  cm_batch : batch_ok db' batch';
  cm_stored x : stored db batch x → stored db' batch' x
}.
Lemma committed_refl rank db l batch : whole_ok db l rank → batch_ok db batch → committed rank db batch db batch.
Proof. intros Hok Hb. split; [by exists l|done|done|done]. Qed.
Lemma committed_trans rank db1 b1 db2 b2 db3 b3 : committed rank db1 b1 db2 b2 → committed rank db2 b2 db3 b3 → committed rank db1 b1 db3 b3.
Proof. intros [O1 F1 B1 S1] [O2 F2 B2 S2]. split; [done|by etrans|done|]. intros x Hx. by apply S2, S1. Qed.

Lemma commit_node_ok db l rank batch h r : whole_ok db l rank → batch_ok db batch → content h = Some r →
  is_Some (td_dirties db !! h) ∨ on_disk (td_diskdb db) h → (∀ c, c ∈ links h → stored db batch c) →
  let batch1 := batch ++ [PutKey (Hash_Bytes h) (raw_rlp r)] in
  returns (if IdealBatchSize <=? ValueSize batch1 then disk_Write batch1;; Replay batch1;; mret [] else mret batch1)
    (λ batch' db', committed rank db batch db' batch' ∧ stored db' batch' h) db.
Proof.
  intros Hok Hb Hr Hh Hl batch1. pose proof Hb as [Hw Hn].
  assert (∀ x, stored db batch x → stored db batch1 x) as Hmono.
  { intros x. unfold stored, batch1. rewrite batch_Write_app. apply (put_mono content ext Hcontent _ _ (td_dirties db)). right. exists h, r. split_and!; [done|done| |done].
    destruct Hh; [by left|right]. by apply stored_disk. }
  assert (batch_ok db batch1) as Hb1.
  { split.
    - apply writes_ok_app. split; [done|]. cbn. split; [right|done]. exists h, r. split_and!; [done|done| |done]. destruct Hh; [by left|right]. by apply stored_disk.
    - intros kv [Hkv|Hkv%list_elem_of_singleton]%elem_of_app; [by apply Hn|]. subst kv. by exists h, r. }
  assert (stored db batch1 h) as Hs.
  { apply (writes_saved content ext Hcontent batch1 _ (td_dirties db) h r); [apply Hb1|done|]. apply elem_of_app. right. by apply list_elem_of_singleton. }
  destruct (IdealBatchSize <=? ValueSize batch1).
  - eapply flush_batch_ok; [exact Hok|exact Hb1|]. intros db' l' Hok' Hf Hdk _. apply wp_ret. split.
    + split; [by exists l'|done|apply batch_ok_nil|]. intros x Hx. unfold stored. cbn. rewrite Hdk. by apply Hmono.
    + unfold stored. cbn. by rewrite Hdk.
  - apply wp_ret. split; [|done]. split; [by exists l|done|done|done].
Qed.
Lemma commit_walk_ok fuel : ∀ db l rank batch h, whole_ok db l rank → batch_ok db batch → h ≠ zero_hash →
  is_Some (td_dirties db !! h) ∨ stored db batch h → (below (bare <$> td_dirties db) rank (rank h) < fuel)%nat →
  returns (commit fuel h batch) (λ batch' db', committed rank db batch db' batch' ∧ stored db' batch' h) db.
Proof.
  induction fuel as [|fuel IH]; intros db l rank batch h Hok Hb Hz Hk Hfuel; [lia|]. cbn [commit]. apply returns_bind, wp_get.
  destruct (td_dirties db !! h) as [n|] eqn:Hn.
  2: { apply wp_ret. split; [by eapply committed_refl|]. destruct Hk as [[? ?]|?]; done. }
  destruct (whole_entry _ _ _ _ _ _ _ Hok Hn Hz) as (Hr & _). apply returns_bind. eapply (childs_ok content Hcontent n h); [done|]. apply returns_bind.
  set (cs := external n ++ inner (cn_node n)). eapply returns_mono.
  - apply (returns_for_acc (λ rest batch' db', committed rank db batch db' batch' ∧ (∀ c, c ∈ rest → c ∈ cs) ∧ ∀ c, c ∈ cs → c ∈ rest ∨ stored db' batch' c)).
    + split_and!; [by eapply committed_refl|done|by left].
    + intros x rest batch1 db1 (Hc & Hrest & Hdone). pose proof Hc as [[l1 Hok1] Hf1 Hb1 Hs1].
      destruct (child_known db l rank h n x Hok Hn Hz) as (Hxz & Hxr & Hxk); [apply Hrest; by constructor|].
      eapply returns_mono; [apply (IH db1 l1 rank batch1 x Hok1 Hb1 Hxz)|].
      * destruct Hxk as [Hxk|Hxk]; [destruct (fl_kept _ _ _ Hf1 x Hxk); [by left|right; by apply stored_disk]|]. right. apply stored_disk; [done|]. by apply (fl_disk _ _ _ Hf1).
      * pose proof (below_lt (bare <$> td_dirties db) rank h (rank x) ltac:(by rewrite lookup_fmap, Hn) Hxr).
        assert (below (bare <$> td_dirties db1) rank (rank x) ≤ below (bare <$> td_dirties db) rank (rank x))%nat; [|lia].
        apply below_sub; [|done]. intros y. rewrite !lookup_fmap, !fmap_is_Some. by apply (flushed_dom content).
      * cbn beta. intros batch2 db2 (Hc2 & Hs2). split_and!; [by eapply committed_trans|intros c Hcr; apply Hrest; by right|].
        intros c Hcs. destruct (Hdone c Hcs) as [[->|?]%elem_of_cons|?]; [by right|by left|right; by apply (cm_stored _ _ _ _ _ Hc2)].
  - cbn beta. intros batch1 db1 (Hc & _ & Hdone). pose proof Hc as [[l1 Hok1] Hf1 Hb1 Hs1].
    eapply returns_mono; [apply (commit_node_ok db1 l1 rank batch1 h (cn_node n) Hok1 Hb1 Hr)|].
    + apply (fl_kept _ _ _ Hf1). by eexists.
    + intros c Hcl. destruct (links_children db l rank h n c Hok Hn Hz Hcl) as [Hcs|Hd]; [by destruct (Hdone c Hcs) as [?%not_elem_of_nil|?]|].
      apply stored_disk; [done|]. by apply (fl_disk _ _ _ Hf1).
    + cbn beta. intros batch2 db2 (Hc2 & Hs2). split; [by eapply committed_trans|done].
Qed.

(** * [Commit] *)
Definition preimage_puts (l : list (Hash * list byte)) : list keyvalue := (λ hp, PutKey (secureKey (Hash_Bytes hp.1)) hp.2) <$> l.
Lemma preimages_writes disk D batch : (∀ kv, kv ∈ batch → preimage_put kv) → writes_ok content ext disk D batch.
Proof.
  revert disk. induction batch as [|kv batch IH]; intros disk Hb; [done|]. split; [left; apply Hb; by constructor|]. apply IH. intros kv' ?. apply Hb. by right.
Qed.
Lemma preimage_puts_ok l kv : kv ∈ preimage_puts l → preimage_put kv.
Proof. intros ([h v] & -> & _)%list_elem_of_fmap. by exists h, v. Qed.
Lemma preimages_mono disk batch h : (∀ kv, kv ∈ batch → preimage_put kv) → on_disk disk h → on_disk (batch_Write batch disk) h.
Proof. intros Hb. apply (writes_mono content ext Hcontent batch disk ∅). by apply preimages_writes. Qed.
Lemma whole_ok_preimages db l rank batch : whole_ok db l rank → (∀ kv, kv ∈ batch → preimage_put kv) →
  whole_ok (set_store (batch_Write batch (td_diskdb db)) (td_cleans db) db) l rank.
Proof. intros Hok Hb. apply (db_ok_writes content ext Hcontent db _ [] l rank batch Hok). by apply preimages_writes. Qed.

(** Batches apart, the preimages are written in their order. *)
Lemma put_preimages_ok (pre : list (Hash * list byte)) batch db l rank (Q : list keyvalue → TrieDatabase K → Prop) : whole_ok db l rank → (∀ kv, kv ∈ batch → preimage_put kv) →
  (∀ batch' disk', whole_ok (set_store disk' (td_cleans db) db) l rank → (∀ kv, kv ∈ batch' → preimage_put kv) →
    batch_Write batch' disk' = batch_Write (batch ++ preimage_puts pre) (td_diskdb db) → (∀ h, on_disk (td_diskdb db) h → on_disk disk' h) →
    Q batch' (set_store disk' (td_cleans db) db)) →
  returns (put_preimages pre batch) Q db.
Proof.
  revert batch db. induction pre as [|[h v] pre IH]; intros batch db Hok Hb HQ; cbn [put_preimages].
  - apply wp_ret. specialize (HQ batch (td_diskdb db)). destruct db. apply HQ; [done|done| |done]. by rewrite app_nil_r.
  - assert (∀ kv, kv ∈ batch ++ [PutKey (secureKey (Hash_Bytes h)) v] → preimage_put kv) as Hb1.
    { intros kv [?|Hkv%list_elem_of_singleton]%elem_of_app; [by apply Hb|]. subst kv. by exists h, v. }
    assert (batch ++ preimage_puts ((h, v) :: pre) = (batch ++ [PutKey (secureKey (Hash_Bytes h)) v]) ++ preimage_puts pre) as Heq by by rewrite <- app_assoc.
    rewrite Heq in HQ. set (batch1 := batch ++ [_]) in *. destruct (IdealBatchSize <? ValueSize batch1).
    + apply returns_bind, wp_modify. apply IH; [by apply whole_ok_preimages|by intros kv ?%not_elem_of_nil|].
      intros batch' disk' Hok' Hb' Heq' Hd'. cbn [set_store td_cleans td_diskdb] in *. apply (HQ batch' disk'); [done|done| |].
      * cbn [app] in Heq'. by rewrite Heq', (batch_Write_app batch1).
      * intros x Hx. apply Hd'. by apply preimages_mono.
    + by apply IH.
Qed.

(** Preimages, in memory or on disk. *)
Definition preimage_of db (h : Hash) : option (list byte) :=
  match td_preimages db !! h with Some p => Some p | None => td_diskdb db !! secureKey (Hash_Bytes h) end.
Definition preimages_ok db : Prop := ∀ h, is_Some (td_preimages db !! h) → is_hash h.
Lemma secure_key_inj h h' : is_hash h → is_hash h' → secureKey (Hash_Bytes h) = secureKey (Hash_Bytes h') → h = h'.
Proof. intros Hh Hh' Heq%(inj (app _)). by apply Hash_Bytes_inj. Qed.
Lemma puts_lookup (l : list (Hash * list byte)) disk h : NoDup l.*1 → (∀ x, x ∈ l.*1 → is_hash x) → is_hash h →
  batch_Write (preimage_puts l) disk !! secureKey (Hash_Bytes h) =
  match (list_to_map l : gmap Hash (list byte)) !! h with Some p => Some p | None => disk !! secureKey (Hash_Bytes h) end.
Proof.
  revert disk. induction l as [|[x v] l IH]; intros disk Hnd Hl Hh; [done|]. apply NoDup_cons in Hnd as [Hni Hnd].
  etrans; [apply IH; [done|intros y Hy; apply Hl; by right|done]|]. cbn. destruct (decide (x = h)) as [->|Hne].
  - rewrite not_elem_of_list_to_map_1 by done. by rewrite !lookup_insert_eq.
  - rewrite (lookup_insert_ne (list_to_map l)) by done. destruct (_ !! h); [done|]. apply lookup_insert_ne. intros Heq. apply Hne, secure_key_inj; [|done|done]. apply Hl. by constructor.
Qed.
Lemma preimages_written db h : preimages_ok db → is_hash h →
  batch_Write (preimage_puts (map_range (td_preimages db))) (td_diskdb db) !! secureKey (Hash_Bytes h) = preimage_of db h.
Proof.
  intros Hp Hh. pose proof (map_range_perm (td_preimages db)) as Hperm.
  assert (NoDup (map_range (td_preimages db)).*1) as Hnd by (rewrite Hperm; apply NoDup_fst_map_to_list).
  rewrite puts_lookup; [|done| |done].
  - unfold preimage_of. by rewrite (list_to_map_proper _ _ Hnd Hperm), list_to_map_to_list.
  - intros x Hx. apply Hp. apply list_elem_of_fmap in Hx as ([y v] & -> & Hx). rewrite Hperm in Hx. apply elem_of_map_to_list in Hx. by eexists.
Qed.

(** What [Commit] and [Cap] do to a database: nothing is lost. *)
Record settled db db' : Prop := {
  se_sub : bare <$> td_dirties db' ⊆ bare <$> td_dirties db;
  se_root : (bare <$> td_dirties db') !! zero_hash = (bare <$> td_dirties db) !! zero_hash;
  se_kept h : is_Some (td_dirties db !! h) → is_Some (td_dirties db' !! h) ∨ on_disk (td_diskdb db') h;
  se_disk h : on_disk (td_diskdb db) h → on_disk (td_diskdb db') h;
  se_preimage h : is_hash h → preimage_of db' h = preimage_of db h;
  se_preimages : preimages_ok db'
}.
Lemma secure_key_length h : length (secureKey (Hash_Bytes h)) ≠ HashLength.
Proof. unfold secureKey. by rewrite length_app, Hash_Bytes_length. Qed.
Lemma db_Commit_ok db l rank root : whole_ok db l rank → preimages_ok db → root ≠ zero_hash → is_Some (td_dirties db !! root) ∨ on_disk (td_diskdb db) root →
  returns (db_Commit root) (λ _ db', (∃ l', whole_ok db' l' rank) ∧ on_disk (td_diskdb db') root ∧ settled db db' ∧ td_preimages db' = ∅) db.
Proof.
  intros Hok Hp Hz Hroot. unfold db_Commit. apply returns_bind, wp_get, returns_bind.
  eapply put_preimages_ok; [exact Hok|by intros kv ?%not_elem_of_nil|]. intros batch0 disk0 Hok0 Hb0 Heq0 Hd0. cbn [app] in Heq0.
  apply returns_bind, wp_modify. pose proof (whole_ok_preimages _ l rank batch0 Hok0 Hb0) as Hok1. cbn [set_store td_diskdb td_cleans] in *.
  rewrite Heq0 in *. set (db1 := set_store (batch_Write (preimage_puts _) _) _ _) in *.
  assert (∀ h, on_disk (td_diskdb db) h → on_disk (td_diskdb db1) h) as Hd1.
  { intros h Hh. cbn. apply preimages_mono; [|done]. intros kv. apply preimage_puts_ok. }
  apply returns_bind. eapply returns_mono.
  { apply (commit_walk_ok (S (base.size (td_dirties db))) db1 l rank [] root Hok1 (batch_ok_nil _) Hz).
    - destruct Hroot as [?|?]; [by left|right]. apply stored_disk; [apply batch_ok_nil|]. by apply Hd1.
    - pose proof (below_size (bare <$> td_dirties db1) rank (rank root)). rewrite map_size_fmap in *. cbn in *. lia. }
  cbn beta. intros batch2 db2 ([[l2 Hok2] Hf2 Hb2 _] & Hs2). eapply flush_batch_ok; [exact Hok2|exact Hb2|].
  intros db3 l3 Hok3 Hf3 Hdk3 _. apply returns_bind, wp_modify, wp_modify.
  assert (flushed db1 db3) as Hf by by etrans. split_and!.
  - exists l3. destruct Hok3 as [Ol Od Om Or Os Oz]. by split.
  - cbn. by rewrite Hdk3.
  - split.
    + apply (fl_sub _ _ _ Hf).
    + apply (fl_root _ _ _ Hf).
    + apply (fl_kept _ _ _ Hf).
    + intros h Hh. apply (fl_disk _ _ _ Hf). by apply Hd1.
    + intros h Hh. unfold preimage_of at 1. cbn. rewrite lookup_empty, (fl_aside _ _ _ Hf) by apply secure_key_length. by apply preimages_written.
    + intros h. cbn. rewrite lookup_empty. by intros [? ?].
  - done.
Qed.
End commit.
