(* ===== verification/TrieDBCap.v ===== *)
(** Keeping the memory below a limit: [Cap] of [trie/database.go] writes the
    oldest nodes, which refer to nothing younger, and forgets them. *)
From S2P Require Import Prelude Hoare Types TrieEncoding Trie Memorydb TrieNode TrieDB TrieDBInv TrieDBGC TrieDBRefs TrieDBFlush.

Section cap.
Context `{NodeDigest} `{NodeDecode} `{MapRange} {K : Type} `{BigCacheLaws K}.
Context (content : Hash → option raw_node) (ext : Hash → list Hash) (Hcontent : content_ok content).
Implicit Types db : TrieDatabase K.
Abbreviation on_disk := (on_disk content).
Abbreviation links := (links content ext).
Abbreviation whole_ok := (whole_ok content ext).

(** * The oldest nodes are written *)
Definition node_weight (e : cachedNode) : Z := Z.of_nat HashLength + cn_size e + cachedNodeSize + children_size e.
Definition list_weight (m : gmap Hash cachedNode) (l : list Hash) : Z := foldr (λ h acc, from_option node_weight 0 (m !! h) + acc) 0 l.
Lemma list_weight_app m l l' : list_weight m (l ++ l') = list_weight m l + list_weight m l'.
Proof. unfold list_weight. induction l as [|x l IH]; cbn; [lia|]. rewrite IH. lia. Qed.

Lemma oldest_links db l1 h l2 rank disk c : whole_ok db (l1 ++ h :: l2) rank → c ∈ links h →
  (∀ x, on_disk (td_diskdb db) x → on_disk disk x) → (∀ x, x ∈ l1 → on_disk disk x) → on_disk disk c.
Proof.
  intros Hok Hc Hd Hl. destruct (mo_before _ _ _ _ _ _ (ok_mem _ _ _ _ _ _ _ Hok) h c ltac:(set_solver) Hc) as [?|Hb]; [by apply Hd|].
  apply Hl. pose proof (lo_nodup _ _ _ _ (ok_list _ _ _ _ _ _ _ Hok)) as Hnd. clear -Hb Hnd. induction l1 as [|x l1 IH]; cbn in *.
  - apply NoDup_cons in Hnd as [Hni _]. destruct Hb as [[_ ?]|[_ ?]%before_elem]; done.
  - apply NoDup_cons in Hnd as [_ Hnd]. destruct Hb as [[-> _]|Hb]; [by constructor|right; by apply IH].
Qed.
Lemma flush_list_ok fuel limit : ∀ db l1 l2 rank batch total (Q : Hash * list keyvalue → TrieDatabase K → Prop),
  whole_ok db (l1 ++ l2) rank → writes_ok content ext (td_diskdb db) (td_dirties db) batch → (∀ x, x ∈ l1 → stored content db batch x) → (length l2 ≤ fuel)%nat →
  (∀ l1' l2' batch' disk', l1 ++ l2 = l1' ++ l2' → whole_ok (set_store disk' (td_cleans db) db) (l1 ++ l2) rank → writes_ok content ext disk' (td_dirties db) batch' →
     (∀ x, x ∈ l1' → on_disk (batch_Write batch' disk') x) → (∀ x, stored content db batch x → on_disk (batch_Write batch' disk') x) →
     (∀ k, length k ≠ HashLength → batch_Write batch' disk' !! k = batch_Write batch (td_diskdb db) !! k) →
     total + list_weight (td_dirties db) l1 - list_weight (td_dirties db) l1' ≤ limit ∨ l2' = [] →
     Q (head_or zero_hash l2', batch') (set_store disk' (td_cleans db) db)) →
  returns (flush_list fuel limit total (head_or zero_hash l2) batch) Q db.
Proof.
  induction fuel as [|fuel IH]; intros db l1 l2 rank batch total Q Hok Hw Hl1 Hfuel HQ.
  all: assert (∀ l1' l2', l1 ++ l2 = l1' ++ l2' → (∀ x, x ∈ l1' → stored content db batch x) → total + list_weight (td_dirties db) l1 - list_weight (td_dirties db) l1' ≤ limit ∨ l2' = [] →
    Q (head_or zero_hash l2', batch) db) as Hstop by
    (intros l1' l2' Heq Hst Hlim; specialize (HQ l1' l2' batch (td_diskdb db) Heq); destruct db; by apply HQ).
  { destruct l2; [|cbn in Hfuel; lia]. cbn [flush_list head_or head default]. rewrite Z.eqb_refl, orb_true_r. apply wp_ret. apply (Hstop l1 []); [done|done|by right]. }
  cbn [flush_list]. destruct (head_or_cases l2) as [[Hz ->]|(h & l2' & -> & Hh)].
  { rewrite Hz, Z.eqb_refl, orb_true_r. apply wp_ret. rewrite <- Hz. apply (Hstop l1 []); [done|done|by right]. }
  destruct (Z.ltb_spec limit total) as [Hlt|Hle]; [|apply wp_ret; apply (Hstop l1 (h :: l2')); [done|done|left; lia]].
  assert (h ≠ zero_hash ∧ is_Some (td_dirties db !! h)) as [Hhz [n Hn]] by (apply (whole_dirty _ _ _ _ _ _ Hok); set_solver).
  rewrite Hh. assert (h =? zero_hash = false) as -> by by apply Z.eqb_neq. cbn [negb orb]. apply returns_bind, wp_get. rewrite Hn.
  destruct (whole_entry _ _ _ _ _ _ _ Hok Hn Hhz) as (Hr & _).
  assert (cn_flushNext n = head_or zero_hash l2') as Hnext.
  { pose proof (lo_seg _ _ _ _ (ok_list _ _ _ _ _ _ _ Hok)) as [_ (n' & Hn' & _ & Hx & _)]%seg_app. congruence. }
  set (batch1 := batch ++ _). rewrite Hnext.
  assert (node_put content ext (batch_Write batch (td_diskdb db)) (td_dirties db) (PutKey (Hash_Bytes h) (raw_rlp (cn_node n))) h) as Hput.
  { exists (cn_node n). split_and!; [done|done|left; by eexists|]. intros c Hc. eapply oldest_links; [exact Hok|exact Hc| |exact Hl1].
    intros x. by apply (writes_mono content ext Hcontent batch _ (td_dirties db)). }
  assert (writes_ok content ext (td_diskdb db) (td_dirties db) batch1) as Hw1.
  { apply writes_ok_app. split; [done|]. cbn. split; [right; by exists h|done]. }
  assert (∀ x, stored content db batch x → stored content db batch1 x) as Hmono.
  { intros x. unfold stored, batch1. rewrite batch_Write_app. apply (put_mono content ext Hcontent _ _ (td_dirties db)). right. by exists h. }
  assert (∀ x, x ∈ l1 ++ [h] → stored content db batch1 x) as Hl1'.
  { intros x [Hx|Hx%list_elem_of_singleton]%elem_of_app; [by apply Hmono, Hl1|subst x].
    apply (writes_saved content ext Hcontent batch1 _ (td_dirties db) h (cn_node n)); [done|done|]. apply elem_of_app. right. by apply list_elem_of_singleton. }
  assert (∀ k, length k ≠ HashLength → batch_Write batch1 (td_diskdb db) !! k = batch_Write batch (td_diskdb db) !! k) as Haside.
  { intros k Hk. unfold batch1. rewrite batch_Write_app. apply lookup_insert_ne. intros <-. by rewrite Hash_Bytes_length in Hk. }
  assert (list_weight (td_dirties db) (l1 ++ [h]) = list_weight (td_dirties db) l1 + node_weight n) as Hwt.
  { rewrite list_weight_app. cbn. rewrite Hn. cbn. lia. }
  assert (l1 ++ h :: l2' = (l1 ++ [h]) ++ l2') as Heq by by rewrite <- app_assoc. rewrite Heq in Hok.
  destruct (IdealBatchSize <=? ValueSize batch1).
  - apply returns_bind, wp_modify. apply (IH _ (l1 ++ [h]) l2' rank []); [|done|exact Hl1'|cbn in Hfuel; lia|].
    { by apply (db_ok_writes content ext Hcontent db _ [] _ rank batch1). }
    intros l1' l3 batch' disk' Heq' Hok' Hw' Hst Hx Ha Hlim. cbn [set_store td_diskdb td_cleans td_dirties] in *. rewrite <- Heq in Hok', Heq'. apply (HQ l1' l3 batch' disk'); try done.
    + intros x Hxs. apply Hx. by apply Hmono.
    + intros k Hk. rewrite Ha by done. by apply Haside.
    + destruct Hlim as [Hlim|?]; [left|by right]. rewrite Hwt in Hlim. unfold node_weight in Hlim. lia.
  - apply (IH db (l1 ++ [h]) l2' rank batch1); [done|done|done|cbn in Hfuel; lia|].
    intros l1' l3 batch' disk' Heq' Hok' Hw' Hst Hx Ha Hlim. rewrite <- Heq in Hok', Heq'. apply (HQ l1' l3 batch' disk'); try done.
    + intros x Hxs. apply Hx. by apply Hmono.
    + intros k Hk. rewrite Ha by done. by apply Haside.
    + destruct Hlim as [Hlim|?]; [left|by right]. rewrite Hwt in Hlim. unfold node_weight in Hlim. lia.
Qed.

(** * They leave the memory *)
Lemma metaroot_bare db : metaroot_children db = default ∅ ((bare <$> td_dirties db) !! zero_hash ≫= cn_children).
Proof. unfold metaroot_children. rewrite lookup_fmap. by destruct (td_dirties db !! zero_hash). Qed.
Lemma nodes_size_drop db m o n ds cs k : metaroot_children (set_dirties m db) = metaroot_children db → Z.of_nat (base.size m) + k = Z.of_nat (base.size (td_dirties db)) →
  nodes_size (add_sizes ds cs (set_ends o n (set_dirties m db))) = nodes_size db + ds + cs - k * cachedNodeSize.
Proof. unfold nodes_size, metaroot_children. cbn. intros -> Hsz. lia. Qed.

Record dropped db db' : Prop := {
  dr_flushed : flushed content db db';
  dr_store : same_store db db';
  dr_preimages : td_preimages db' = td_preimages db
}.
#[local] Existing Instances flushed_refl flushed_trans.
#[local] Instance dropped_refl : Reflexive dropped.
Proof. by split. Qed.
#[local] Instance dropped_trans : Transitive dropped.
Proof. intros x y z [F1 [D1 C1] P1] [F2 [D2 C2] P2]. split; [by etrans| |congruence]. split; congruence. Qed.

Lemma drop_oldest db h l rank n : whole_ok db (h :: l) rank → on_disk (td_diskdb db) h → td_dirties db !! h = Some n →
  let db' := add_sizes (- (Z.of_nat HashLength + cn_size n)) (- children_size n)
    (set_ends (cn_flushNext n) (td_newest db) (set_dirties (base.delete h (td_dirties db)) db)) in
  whole_ok db' l rank ∧ dropped db db' ∧ nodes_size db' = nodes_size db - node_weight n ∧ (∀ x, x ≠ h → td_dirties db' !! x = td_dirties db !! x).
Proof.
  intros Hok Hd Hn db'. assert (h ≠ zero_hash) as Hz by (apply (whole_dirty _ _ _ _ _ h Hok); by constructor).
  pose proof Hok as [[Ln Lz Ls Lo Le] Od Om Or Os Oz]. pose proof Ls as (n' & Hn' & _ & Hx & Hs). assert (n' = n) as -> by congruence.
  pose proof (bare_lookup _ _ _ Hn) as Hb.
  assert (db_ok content ext (set_ends (cn_flushNext n) (td_newest db) db) (base.delete h (bare <$> td_dirties db)) [] l rank) as Hok1.
  { split; cbn; try done.
    - apply NoDup_cons in Ln as [_ Ln]. split; [done|set_solver|by eapply seg_forget_prev|done|]. intros Hne. rewrite <- Le by done. by destruct l.
    - eapply (mem_ok_remove content ext Hcontent _ _ [] [] [] h l (bare n)); try done; [by left|]. intros x _. rewrite occ_nil.
      destruct (whole_entry _ _ _ _ _ _ _ Hok Hn Hz) as (_ & _ & Hall). apply Z.add_nonneg_nonneg; [done|]. apply cites_nonneg. intros c k Hk. apply Hall in Hk. lia.
    - apply delete_subseteq. }
  split_and!.
  - pose proof (db_ok_bury content ext _ _ [] l rank h n (- (Z.of_nat HashLength + cn_size n)) (- children_size n) Hok1 Hn (lookup_delete_eq _ _)) as Hok2.
    unfold whole_ok. subst db'. cbn. rewrite fmap_delete. apply Hok2. unfold entry_size. rewrite decide_False by done.
    change (children_size (bare n)) with (children_size n). change (cn_size (bare n)) with (cn_size n). change (Z.of_nat HashLength) with 32. lia.
  - split; [|done|done]. split; cbn; rewrite ?fmap_delete; [apply delete_subseteq|by apply lookup_delete_ne| |done|done].
    intros x Hx1. destruct (decide (x = h)) as [->|Hne]; [by right|left]. by rewrite lookup_delete_ne.
  - subst db'. rewrite (nodes_size_drop _ _ _ _ _ _ 1); [unfold node_weight; lia| |].
    + rewrite !metaroot_bare. cbn. by rewrite fmap_delete, lookup_delete_ne.
    + rewrite map_size_delete, Hn. assert (base.size (td_dirties db) ≠ 0%nat); [|lia]. intros Hs0. apply map_size_empty_inv in Hs0. by rewrite Hs0, lookup_empty in Hn.
  - intros x Hne. cbn. by apply lookup_delete_ne.
Qed.
Lemma drop_flushed_ok fuel : ∀ db l1 l2 rank, whole_ok db (l1 ++ l2) rank → (∀ x, x ∈ l1 → on_disk (td_diskdb db) x) → (length l1 ≤ fuel)%nat →
  returns (drop_flushed fuel (head_or zero_hash l2)) (λ _ db', whole_ok db' l2 rank ∧ dropped db db' ∧ nodes_size db' = nodes_size db - list_weight (td_dirties db) l1) db.
Proof.
  induction fuel as [|fuel IH]; intros db l1 l2 rank Hok Hd Hfuel; cbn [drop_flushed]; apply returns_bind, wp_get;
    pose proof (ok_list _ _ _ _ _ _ _ Hok) as [Ln Lz Ls Lo Le]; rewrite Lo.
  - destruct l1; [|cbn in Hfuel; lia]. rewrite Z.eqb_refl. apply wp_ret. split_and!; [done|done|]. cbn. lia.
  - destruct l1 as [|h l1]; [rewrite Z.eqb_refl; apply wp_ret; split_and!; [done|done|]; cbn; lia|]. cbn [app] in *. change (head_or zero_hash (h :: l1 ++ l2)) with h in *.
    assert (h =? head_or zero_hash l2 = false) as ->.
    { apply Z.eqb_neq. intros Heq. apply NoDup_cons in Ln as [Hni _]. destruct (head_or_cases l2) as [[Hz _]|(y & l2' & -> & Hy)]; [rewrite Hz in Heq; apply Lz, elem_of_cons; by left|].
      rewrite Hy in Heq. subst h. apply Hni. set_solver. }
    destruct (seg_lookup _ _ _ _ h Ls ltac:(by constructor)) as [n Hn]. rewrite Hn.
    destruct (drop_oldest db h (l1 ++ l2) rank n Hok) as (Hok1 & Hdr & Hsz & Hsame); [apply Hd; by constructor|done|].
    apply returns_bind. unfold returns at 1, wp, put_state. apply returns_bind, wp_modify. eapply returns_mono.
    { apply (IH _ l1 l2 rank Hok1); [|cbn in Hfuel; lia]. intros x Hx. apply Hd. by right. }
    cbn beta. intros [] db2 (Hok2 & Hdr2 & Hsz2). split_and!; [done|by etrans|]. rewrite Hsz2, Hsz.
    assert (list_weight (base.delete h (td_dirties db)) l1 = list_weight (td_dirties db) l1) as Hl.
    { apply NoDup_cons in Ln as [Hni _]. clear -Hni. unfold list_weight. induction l1 as [|x l1 IH]; [done|]. cbn. rewrite lookup_delete_ne, IH; [done|set_solver|set_solver]. }
    change (list_weight (td_dirties db) (h :: l1)) with (from_option node_weight 0 (td_dirties db !! h) + list_weight (td_dirties db) l1). rewrite Hn.
    cbn [from_option]. cbn [add_sizes set_ends set_dirties td_dirties]. lia.
Qed.
Lemma whole_ok_bare db m o n l rank : whole_ok db l rank → bare <$> m = bare <$> td_dirties db → list_ok m o n l →
  whole_ok (set_dirties m (set_ends o n db)) l rank.
Proof. intros [Ol Od Om Or Os Oz] Hm Hl. unfold whole_ok. cbn. rewrite Hm. split; cbn; by rewrite ?Hm. Qed.
Lemma mark_oldest db l rank : whole_ok db l rank →
  returns (if td_oldest db =? zero_hash then mret tt else on_entry (td_oldest db) (set_prev zero_hash))
    (λ _ db', whole_ok db' l rank ∧ dropped db db' ∧ nodes_size db' = nodes_size db ∧ base.size (td_dirties db') = base.size (td_dirties db)) db.
Proof.
  intros Hok. pose proof (ok_list _ _ _ _ _ _ _ Hok) as [Ln Lz Ls Lo Le]. rewrite Lo. destruct (head_or_cases l) as [[Hz ->]|(h & l' & -> & Hh)].
  - rewrite Hz. by apply wp_ret.
  - rewrite Hh. assert (h =? zero_hash = false) as -> by (apply Z.eqb_neq; intros ->; apply Lz, elem_of_cons; by left).
    destruct (seg_set_prev _ _ zero_hash h l' zero_hash Ln Ls) as (e & He & Hseg). eapply on_entry_ok; [exact He|].
    assert (bare <$> <[h := set_prev zero_hash e]> (td_dirties db) = bare <$> td_dirties db) as Hb by by eapply bare_insert.
    assert (base.size (<[h := set_prev zero_hash e]> (td_dirties db)) = base.size (td_dirties db)) as Hs by (apply map_size_insert_Some; by eexists).
    assert (∀ db', db' = set_dirties (<[h := set_prev zero_hash e]> (td_dirties db)) db → whole_ok db' (h :: l') rank → dropped db db' ∧ nodes_size db' = nodes_size db ∧ base.size (td_dirties db') = base.size (td_dirties db)) as Hrest.
    { intros ? -> _. split_and!; [| |done].
      - split; [|done|done]. split; cbn; rewrite ?Hb; try done. intros x [ex Hx]. left. destruct (decide (x = h)) as [->|]; [rewrite lookup_insert_eq; by eexists|rewrite lookup_insert_ne by done; by eexists].
      - unfold nodes_size. rewrite !metaroot_bare. cbn. by rewrite Hb, Hs. }
    assert (whole_ok (set_dirties (<[h := set_prev zero_hash e]> (td_dirties db)) db) (h :: l') rank) as Hok'.
    { assert (db = set_ends (td_oldest db) (td_newest db) db) as Hdb by by destruct db. rewrite Hdb at 2. apply whole_ok_bare; [done|done|].
      split; [done|done|by eapply seg_forget_prev|done|done]. }
    split; [done|]. by apply Hrest.
Qed.

(** * [Cap] *)
Abbreviation settled := (settled content).
Lemma length_dirties db l rank : whole_ok db l rank → (length l ≤ base.size (td_dirties db))%nat.
Proof.
  intros Hok. rewrite <- size_dom. rewrite <- (size_list_to_set (C := gset Hash) l); [|apply (lo_nodup _ _ _ _ (ok_list _ _ _ _ _ _ _ Hok))].
  apply subseteq_size. intros h Hh%elem_of_list_to_set. apply elem_of_dom. by apply (whole_dirty _ _ _ _ _ _ Hok) in Hh as [_ ?].
Qed.
Lemma nothing_dirty db rank : whole_ok db [] rank → base.size (td_dirties db) = 1%nat.
Proof.
  intros Hok. destruct (whole_root _ _ _ _ _ Hok) as (m & _ & Hm & _). rewrite <- size_dom.
  assert (dom (td_dirties db) = {[ zero_hash ]}) as ->; [|apply size_singleton]. apply set_eq. intros h. rewrite elem_of_dom, elem_of_singleton.
  split; [|intros ->; by eexists]. intros Hh. destruct (decide (h = zero_hash)) as [|Hz]; [done|].
  by destruct (not_elem_of_nil h (proj2 (whole_dirty _ _ _ _ _ h Hok) (conj Hz Hh))).
Qed.
Lemma flush_Cap_ok db l rank limit : whole_ok db l rank → preimages_ok db →
  returns (Cap limit) (λ _ db', (∃ l', whole_ok db' l' rank) ∧ settled db db' ∧ (nodes_size db' ≤ limit ∨ base.size (td_dirties db') = 1%nat)) db.
Proof.
  intros Hok Hp. unfold Cap. apply returns_bind, wp_get. set (pre := 4 * 1024 * 1024 <? td_preimagesSize db).
  (* the preimages, if there are many *)
  apply returns_bind. set (pres := if pre then map_range (td_preimages db) else []).
  assert ((if pre then put_preimages (map_range (td_preimages db)) [] else mret []) = put_preimages (K := K) pres []) as -> by (subst pres; by destruct pre).
  eapply put_preimages_ok; [exact Hcontent|exact Hok|by intros kv ?%not_elem_of_nil|]. intros batch0 disk0 Hok0 Hb0 Heq0 Hd0. cbn [app] in Heq0.
  (* the nodes *)
  set (db0 := set_store disk0 (td_cleans db) db) in *. assert (td_oldest db = head_or zero_hash l) as Ho by apply (lo_oldest _ _ _ _ (ok_list _ _ _ _ _ _ _ Hok)).
  rewrite Ho. apply returns_bind. eapply (flush_list_ok _ limit db0 [] l rank batch0); [exact Hok0| |by intros x ?%not_elem_of_nil|by eapply length_dirties|].
  { by apply preimages_writes. }
  intros l1 l2 batch1 disk1 Heq1 Hok1 Hw1 Hst1 Hx1 Ha1 Hlim. cbn [app] in Heq1, Hok1.
  apply returns_bind, wp_modify. cbn [set_store td_diskdb td_cleans db0] in *.
  pose proof (db_ok_writes content ext Hcontent _ _ [] l rank batch1 Hok1 Hw1) as Hok2. cbn [set_store td_diskdb td_cleans] in Hok2.
  set (db2 := set_store (batch_Write batch1 disk1) (td_cleans db) _) in *. apply returns_bind.
  set (db3 := if pre then set_preimages ∅ 0 db2 else db2).
  assert (returns (E := trie_db_error) (if pre then modify (set_preimages ∅ 0) else mret tt) (λ _ db', db' = db3) db2) as Hpre by (subst db3; destruct pre; [by apply wp_modify|by apply wp_ret]).
  eapply returns_mono; [exact Hpre|]. cbn beta. intros [] ? ->. clear Hpre.
  assert (whole_ok db3 (l1 ++ l2) rank) as Hok3.
  { rewrite <- Heq1. subst db3. destruct pre; [|done]. destruct Hok2 as [Ol Od Om Or Os Oz]. by split. }
  assert (td_diskdb db3 = batch_Write batch1 disk1 ∧ td_dirties db3 = td_dirties db ∧ nodes_size db3 = nodes_size db) as (Hdk3 & Hdi3 & Hsz3) by (subst db3; by destruct pre).
  (* they go *)
  apply returns_bind. eapply returns_mono.
  { apply (drop_flushed_ok _ db3 l1 l2 rank Hok3); [by rewrite Hdk3|]. transitivity (length l); [rewrite Heq1, length_app; lia|by eapply length_dirties]. }
  cbn beta. intros [] db4 (Hok4 & Hdr4 & Hsz4). apply returns_bind, wp_get, returns_bind. eapply returns_mono; [by apply (mark_oldest db4 l2 rank)|].
  cbn beta. intros [] db5 (Hok5 & Hdr5 & Hsz5 & Hcard). apply wp_modify.
  assert (dropped db3 db5) as [[S R Kp D A] [Hdk5 _] Hpr5] by by etrans. rewrite Hdi3 in *. split_and!.
  - exists l2. destruct Hok5 as [Ol Od Om Or Os Oz]. by split.
  - split; cbn; try done.
    + intros h Hh. apply D. rewrite Hdk3. apply Hx1. unfold stored. cbn [set_store td_diskdb]. apply (preimages_mono content ext Hcontent); [done|]. by apply Hd0.
    + intros h Hh. unfold preimage_of at 1. cbn [set_stats td_preimages td_diskdb]. rewrite Hpr5, A by apply secure_key_length. rewrite Hdk3, (Ha1 _ (secure_key_length h)), Heq0.
      subst db3 pres. destruct pre; cbn [set_preimages td_preimages set_store preimage_puts]; [rewrite lookup_empty; by apply preimages_written|done].
    + intros h. cbn. rewrite Hpr5. subst db3. destruct pre; cbn; [rewrite lookup_empty; by intros [? ?]|apply Hp].
  - change (nodes_size (set_stats _ _ db5)) with (nodes_size db5). change (td_dirties (set_stats _ _ db5)) with (td_dirties db5). rewrite Hsz5, Hsz4, Hsz3.
    destruct Hlim as [Hlim| ->]; [left|right; by eapply nothing_dirty]. cbn in Hlim. lia.
Qed.
End cap.
