(* ===== verification/TrieDBSpec.v ===== *)
(** What the trie database promises to the chain that uses it: over any run of
    its operations nothing that is held, or was committed, is lost. *)
From S2P Require Import Prelude Hoare Types TrieEncoding Trie Memorydb TrieNode TrieDB TrieDBInv TrieDBGC TrieDBRefs TrieDBFlush TrieDBCap.

(** * Parts of the state that a call leaves alone *)
Section frames.
Context {S E B : Type} (π : S → B).
Definition frame {A} (m : GoM S E A) (s : S) : Prop := π (m s).2 = π s.
Lemma frame_ret {A} (a : A) s : frame (mret a) s.
Proof. done. Qed.
Lemma frame_panic {A} p s : frame (panic (A := A) p) s.
Proof. done. Qed.
Lemma frame_get s : frame get_state s.
Proof. done. Qed.
Lemma frame_lift {A} (r : Result E A) s : frame (lift r) s.
Proof. by destruct r. Qed.
Lemma frame_modify f s : π (f s) = π s → frame (modify f) s.
Proof. done. Qed.
Lemma frame_put x s : π x = π s → frame (put_state x) s.
Proof. done. Qed.
Lemma frame_bind {A C} (m : GoM S E A) (f : A → GoM S E C) s : frame m s → (∀ a s', m s = (Ok a, s') → π s' = π s → frame (f a) s') → frame (m ≫= f) s.
Proof.
  unfold frame, mbind, gom_bind. destruct (m s) as [[a|e|p] s'] eqn:Hm; cbn; intros Hs Hf; [|done|done]. by rewrite (Hf a s').
Qed.
Lemma frame_get_bind {A} (f : S → GoM S E A) s : frame (f s) s → frame (get_state ≫= f) s.
Proof. done. Qed.
Lemma frame_for_each {A} (l : list A) body s : (∀ x s, frame (body x) s) → frame (for_each l body) s.
Proof. intros Hb. revert s. induction l as [|x l IH]; intros s; [done|]. apply frame_bind; [apply Hb|]. intros _ s' _ _. apply IH. Qed.
Lemma returns_frame {A} (m : GoM S E A) Q s : returns m Q s → frame m s → returns m (λ a s', Q a s' ∧ π s' = π s) s.
Proof. unfold returns, wp, frame. by destruct (m s) as [[a|e|p] s']. Qed.
End frames.
Ltac frame_step :=
  lazymatch goal with
  | |- frame _ (get_state ≫= _) _ => apply frame_get_bind; cbv beta
  | |- frame _ (_ ≫= _) _ => apply frame_bind; [|intros ? ? _ _]
  | |- frame _ (mret _) _ => apply frame_ret
  | |- frame _ (panic _) _ => apply frame_panic
  | |- frame _ (lift _) _ => apply frame_lift
  | |- frame _ (modify _) _ => by apply frame_modify
  | |- frame _ (put_state _) _ => by apply frame_put
  | |- frame _ (for_each _ _) _ => apply frame_for_each; intros ? ?
  | |- frame _ (match ?x with _ => _ end) _ => destruct x
  end.
Ltac frames := repeat (cbv zeta; frame_step); eauto with frames.
Create HintDb frames.

Section preimages.
Context `{NodeDigest} `{NodeDecode} `{MapRange} {K : Type} `{BigCacheLaws K}.
Implicit Types db : TrieDatabase K.
Abbreviation steady := (frame (td_preimages (K := K))).

Lemma on_entry_steady h f db : steady (on_entry h f) db.
Proof. unfold on_entry. frames. Qed.
#[local] Hint Resolve on_entry_steady : frames.
Lemma unlink_steady h n db : steady (unlink h n) db.
Proof. unfold unlink. frames. Qed.
#[local] Hint Resolve unlink_steady : frames.
Lemma Reference_steady c p db : steady (Reference c p) db.
Proof. unfold Reference. frames. Qed.
Lemma childs_steady n db : steady (childs n) db.
Proof. unfold childs. frames. Qed.
#[local] Hint Resolve childs_steady Reference_steady : frames.
Lemma add_parent_steady c db : steady (add_parent c) db.
Proof. unfold add_parent. frames. Qed.
#[local] Hint Resolve add_parent_steady : frames.
Lemma store_node_steady hash blob n exts db : steady (store_node hash blob n exts) db.
Proof. unfold store_node, db_insert. frames. Qed.
Lemma drop_reference_steady c p db : steady (drop_reference c p) db.
Proof. unfold drop_reference. frames. Qed.
#[local] Hint Resolve drop_reference_steady : frames.
Lemma dereference_steady fuel : ∀ c p db, steady (dereference fuel c p) db.
Proof. induction fuel as [|fuel IH]; intros c p db; cbn [dereference]; unfold release; frames. Qed.
#[local] Hint Resolve dereference_steady : frames.
Lemma Dereference_steady root db : steady (Dereference root) db.
Proof. unfold Dereference. frames. Qed.
End preimages.

(** * The operations of a client *)
Inductive db_op :=
  | OpStore (hash : Hash) (blob : list byte) (n : raw_node + node) (exts : list Hash)
  | OpPreimage (hash : Hash) (preimage : list byte)
  | OpHold (root : Hash)
  | OpRelease (root : Hash)
  | OpCap (limit : Z)
  | OpCommit (root : Hash)
  | OpRead (hash : Hash).

Section spec.
Context `{NodeDigest} `{NodeDecode} `{MapRange} {K : Type} `{BigCacheLaws K}.
Context (content : Hash → option raw_node) (ext : Hash → list Hash).
Implicit Types (db : TrieDatabase K) (hs : Hash → nat).
Abbreviation on_disk := (on_disk content).
Abbreviation links := (links content ext).
Abbreviation whole_ok := (whole_ok content ext).
Abbreviation settled := (settled content).

Definition run_op (op : db_op) : GoM (TrieDatabase K) trie_db_error unit :=
  match op with
  | OpStore hash blob n exts => store_node hash blob n exts
  | OpPreimage hash preimage => insertPreimage hash preimage
  | OpHold root => Reference root zero_hash
  | OpRelease root => Dereference root
  | OpCap limit => Cap limit
  | OpCommit root => db_Commit root
  | OpRead hash => attempt (Node hash);; mret tt
  end.
Definition run_ops (ops : list db_op) : GoM (TrieDatabase K) trie_db_error unit := for_each ops run_op.
(** How often each root is held. *)
Definition step_holds (op : db_op) hs : Hash → nat :=
  match op with
  | OpHold root => λ h, if decide (h = root) then S (hs h) else hs h
  | OpRelease root => λ h, if decide (h = root) then pred (hs h) else hs h
  | _ => hs
  end.
(** A node is known when it is in memory or on disk. *)
Definition known db (h : Hash) : Prop := is_Some (td_dirties db !! h) ∨ on_disk (td_diskdb db) h.
(** What a client respects: it stores what the hash is the hash of, after what
    it refers to, and the one preimage of a hash; holds and commits what is known; releases what it holds; and
    the counters have room, the 16 bits in which the size of an insertion is
    added up among them. *)
Definition allowed (op : db_op) db hs : Prop :=
  match op with
  | OpStore hash blob n exts => blob_fits blob ∧ ∃ r, content hash = Some r ∧ cached_form n = Ok r ∧ (∀ c, c ∈ exts ↔ c ∈ ext hash) ∧ (∀ c, c ∈ links hash → c ≠ zero_hash ∧ known db c) ∧
      Z.of_nat (length exts) < 2 ^ 32 ∧ ∀ h e, td_dirties db !! h = Some e → cn_parents e + Z.of_nat (length (inner r) + length exts) < 2 ^ 32
  | OpPreimage hash preimage => is_hash hash ∧ ∀ p, preimage_of db hash = Some p → p = preimage
  | OpRead hash => is_hash hash
  | OpHold root => root ≠ zero_hash ∧ known db root ∧ (∀ e, td_dirties db !! root = Some e → cn_parents e + 1 < 2 ^ 32) ∧
      default 0 (metaroot_children db !! root) + 1 < 2 ^ 16
  | OpRelease root => root ≠ zero_hash ∧ (0 < hs root)%nat
  | OpCap _ => True
  | OpCommit root => root ≠ zero_hash ∧ known db root
  end.
Fixpoint allowed_run (ops : list db_op) db hs : Prop :=
  match ops with
  | [] => True
  | op :: ops => allowed op db hs ∧ ∀ db', run_op op db = (Ok tt, db') → allowed_run ops db' (step_holds op hs)
  end.
Definition holds_after (ops : list db_op) hs : Hash → nat := foldl (λ hs op, step_holds op hs) hs ops.

(** The invariant of a run. *)
Record serves db hs : Prop := {
  sv_ok : ∃ l rank, whole_ok db l rank;
  sv_preimages : preimages_ok db;
  sv_held h : (0 < hs h)%nat → Z.of_nat (hs h) ≤ default 0 (metaroot_children db !! h) ∨ on_disk (td_diskdb db) h
}.
Inductive reach : Hash → Hash → Prop :=
  | reach_refl h : reach h h
  | reach_step h c c' : c ∈ links h → reach c c' → reach h c'.

(** ** Every operation keeps the invariant *)
Record moved db db' : Prop := {
  mv_disk h : on_disk (td_diskdb db) h → on_disk (td_diskdb db') h;
  mv_preimage h p : is_hash h → preimage_of db h = Some p → preimage_of db' h = Some p
}.
#[local] Instance moved_refl : Reflexive moved.
Proof. by split. Qed.
#[local] Instance moved_trans : Transitive moved.
Proof. intros x y z [D1 P1] [D2 P2]. split; [auto|]. intros h p Hh Hp. by apply P2, P1. Qed.
Lemma same_moved db db' : same_store db db' → td_preimages db' = td_preimages db → moved db db'.
Proof. intros [Hd _] Hp. split; [by rewrite Hd|]. intros h p _. unfold preimage_of. by rewrite Hd, Hp. Qed.
Lemma settled_moved db db' : settled db db' → moved db db'.
Proof. intros Hs. split; [apply (se_disk _ _ _ Hs)|]. intros h p Hh. by rewrite (se_preimage _ _ _ Hs). Qed.
Lemma serves_roots db db' hs : (∃ l rank, whole_ok db' l rank) → preimages_ok db' → metaroot_children db' = metaroot_children db → moved db db' →
  serves db hs → serves db' hs.
Proof. intros Hok Hp Hr Hm [_ _ Hh]. split; [done|done|]. intros h Hpos. rewrite Hr. destruct (Hh h Hpos); [by left|right]. by apply (mv_disk _ _ Hm). Qed.
Lemma preimages_same db db' : preimages_ok db → td_preimages db' = td_preimages db → preimages_ok db'.
Proof. unfold preimages_ok. by intros ? ->. Qed.
Lemma metaroot_same db db' : td_dirties db' !! zero_hash = td_dirties db !! zero_hash → metaroot_children db' = metaroot_children db.
Proof. unfold metaroot_children. by intros ->. Qed.
Lemma metaroot_settled db db' : (bare <$> td_dirties db') !! zero_hash = (bare <$> td_dirties db) !! zero_hash → metaroot_children db' = metaroot_children db.
Proof. rewrite !metaroot_bare. by intros ->. Qed.
Lemma known_listed db l rank h : whole_ok db l rank → h ≠ zero_hash → known db h → on_disk (td_diskdb db) h ∨ h ∈ l.
Proof. intros Hok Hz [Hd|?]; [right|by left]. by apply (whole_dirty _ _ _ _ _ _ Hok). Qed.

Context (Hcontent : content_ok content).
Lemma content_hash h : is_Some (content h) → is_hash h ∧ h ≠ zero_hash.
Proof. intros [r Hr]. by apply (co_hash _ Hcontent h r). Qed.

Lemma store_serves db hs hash blob n exts : serves db hs → allowed (OpStore hash blob n exts) db hs →
  returns (store_node hash blob n exts) (λ _ db', serves db' hs ∧ moved db db') db.
Proof.
  intros Hs (Hblob & r & Hr & Hf & Hx & Hl & Hfew & Hroom). pose proof Hs as [(l & rank & Hok) Hp _].
  eapply returns_mono; [apply (returns_frame td_preimages)|].
  - apply (store_node_ok content Hcontent ext db l rank hash blob n exts r Hok); try done; [by apply content_hash; eexists|].
    intros c Hc. destruct (Hl c Hc) as [Hz Hk]. by eapply known_listed.
  - apply store_node_steady.
  - cbn beta. intros [] db' ((Hok' & Hst & Hroot & _) & Hpre). pose proof (same_moved _ _ Hst Hpre) as Hm. split; [|done].
    destruct Hok' as (l' & rank' & Hok'). apply (serves_roots db); [by exists l', rank'|by eapply preimages_same|by apply metaroot_same|done|done].
Qed.
Lemma preimage_serves db hs hash preimage : serves db hs → allowed (OpPreimage hash preimage) db hs →
  returns (insertPreimage hash preimage) (λ _ db', serves db' hs ∧ moved db db') db.
Proof.
  intros Hs [Hh Hsame]. unfold insertPreimage. apply returns_bind, wp_get. destruct (td_preimages db !! hash) eqn:Hp; [by apply wp_ret|].
  unfold returns, wp, put_state. set (db' := set_preimages _ _ db).
  assert (moved db db') as Hm.
  { split; [done|]. intros h p Hhh. destruct (decide (h = hash)) as [->|Hne]; [|unfold preimage_of; cbn [db' set_preimages td_preimages td_diskdb]; by rewrite lookup_insert_ne].
    intros Hpre. rewrite (Hsame p Hpre). unfold preimage_of. cbn [db' set_preimages td_preimages td_diskdb]. by rewrite lookup_insert_eq. }
  split; [|done]. apply (serves_roots db); [| |done|done|done].
  - destruct Hs as [(l & rank & [Ol Od Om Or Os Oz]) _ _]. exists l, rank. by split.
  - intros h [p Hx]. cbn in Hx. apply lookup_insert_Some in Hx as [[<- _]|[_ Hx]]; [done|]. apply (sv_preimages _ _ Hs). by eexists.
Qed.
Lemma hold_serves db hs root : serves db hs → allowed (OpHold root) db hs →
  returns (Reference root zero_hash) (λ _ db', serves db' (step_holds (OpHold root) hs) ∧ moved db db') db.
Proof.
  intros Hs (Hz & Hk & Hroom & Hcount). pose proof Hs as [(l & rank & Hok) Hp Hh].
  eapply returns_mono; [apply (returns_frame td_preimages); [by apply (Reference_root content ext db l rank root Hok Hz)|apply Reference_steady]|].
  cbn beta. intros [] db' ((Hok' & Hst & Hr & _) & Hpre). pose proof (same_moved _ _ Hst Hpre) as Hm. split; [|done].
  split; [by exists l, rank|by eapply preimages_same|]. intros h. cbn. rewrite Hr. destruct (decide (h = root)) as [->|Hne].
  - intros _. destruct (td_dirties db !! root) as [e|] eqn:He.
    + destruct (decide (on_disk (td_diskdb db) root)) as [Hd|Hd]; [right; by apply (mv_disk _ _ Hm)|left]. rewrite lookup_insert_eq. cbn.
      destruct (hs root) eqn:Hn; [|destruct (Hh root); [lia| |done]; lia].
      destruct (metaroot_children db !! root) as [k|] eqn:Hkr; cbn; [|lia].
      destruct (whole_root _ _ _ _ _ Hok) as (m & c & Hm0 & _ & Hc & Hall). rewrite (roots_of _ _ _ Hm0 Hc) in Hkr. apply Hall in Hkr. lia.
    + right. apply (mv_disk _ _ Hm). destruct Hk as [[? Hk]|?]; [congruence|done].
  - intros Hpos. destruct (Hh h Hpos) as [?|?]; [left|right; by apply (mv_disk _ _ Hm)]. destruct (td_dirties db !! root); [by rewrite lookup_insert_ne|done].
Qed.
Lemma release_serves db hs root : serves db hs → allowed (OpRelease root) db hs →
  returns (Dereference root) (λ _ db', serves db' (step_holds (OpRelease root) hs) ∧ moved db db') db.
Proof.
  intros Hs [Hz Hpos]. pose proof Hs as [(l & rank & Hok) Hp Hh].
  eapply returns_mono; [apply (returns_frame td_preimages); [apply (Dereference_ok content Hcontent ext db l rank root Hok Hz)|apply Dereference_steady]|].
  - destruct (Hh root Hpos) as [Hr|?]; [left|by right; left]. unfold held. destruct (metaroot_children db !! root); [by eexists|]. cbn in Hr. lia.
  - cbn beta. intros [] db' (([l' Hok'] & Hst & Hr & _) & Hpre). pose proof (same_moved _ _ Hst Hpre) as Hm. split; [|done].
    split; [by exists l', rank|by eapply preimages_same|]. intros h. cbn. rewrite Hr. unfold drop_root. destruct (decide (h = root)) as [->|Hne].
    + intros Hpos'. destruct (Hh root Hpos) as [Hk|?]; [left|right; by apply (mv_disk _ _ Hm)].
      destruct (metaroot_children db !! root) as [k|] eqn:Hkr; cbn in Hk; [|lia]. destruct (Z.eqb_spec k 1); [lia|]. rewrite lookup_insert_eq. cbn. lia.
    + intros Hpos'. destruct (Hh h Hpos') as [?|?]; [left|right; by apply (mv_disk _ _ Hm)].
      destruct (metaroot_children db !! root) as [k|]; [|done]. destruct (k =? 1); [by rewrite lookup_delete_ne|by rewrite lookup_insert_ne].
Qed.
Lemma settled_serves db db' hs : serves db hs → (∃ l rank, whole_ok db' l rank) → settled db db' → serves db' hs ∧ moved db db'.
Proof.
  intros Hs Hok Hset. pose proof (settled_moved _ _ Hset) as Hm. split; [|done].
  apply (serves_roots db); [done|apply (se_preimages _ _ _ Hset)|by apply metaroot_settled, (se_root _ _ _ Hset)|done|done].
Qed.
Lemma cap_serves db hs limit : serves db hs → returns (Cap limit) (λ _ db', (serves db' hs ∧ moved db db') ∧ (nodes_size db' ≤ limit ∨ base.size (td_dirties db') = 1%nat)) db.
Proof.
  intros Hs. pose proof Hs as [(l & rank & Hok) Hp Hh]. eapply returns_mono; [by apply (flush_Cap_ok content ext Hcontent db l rank limit Hok)|].
  cbn beta. intros [] db' ([l' Hok'] & Hset & Hlim). split; [|done]. apply settled_serves; [done|by exists l', rank|done].
Qed.
Lemma commit_serves db hs root : serves db hs → allowed (OpCommit root) db hs →
  returns (db_Commit root) (λ _ db', (serves db' hs ∧ moved db db') ∧ on_disk (td_diskdb db') root ∧ td_preimages db' = ∅) db.
Proof.
  intros Hs [Hz Hk]. pose proof Hs as [(l & rank & Hok) Hp Hh]. eapply returns_mono; [by apply (db_Commit_ok content ext Hcontent db l rank root Hok)|].
  cbn beta. intros [] db' ([l' Hok'] & Hd & Hset & Hpre). split; [|done]. apply settled_serves; [done|by exists l', rank|done].
Qed.

(** Reading fills the cache of clean nodes. *)
Lemma clean_set_ok db l rank h enc : whole_ok db l rank → td_diskdb db !! Hash_Bytes h = Some enc →
  whole_ok (set_store (td_diskdb db) (bc_Set (Hash_Bytes h) enc <$> td_cleans db) db) l rank.
Proof.
  intros [Ol [Dt Dc Dl] Om Or Os Oz] Henc. split; cbn; try done. split; [done| |done]. intros x rx c b Hc Hrx Hb.
  destruct (td_cleans db) as [c0|]; [|done]. injection Hc as <-. apply bc_Get_Set in Hb as [[<- <-]|Hb]; [done|by eapply Dc].
Qed.
Lemma read_serves db hs h : serves db hs → is_hash h →
  wp (Node h) (λ enc db', (serves db' hs ∧ moved db db') ∧ ∀ r, content h = Some r → enc = raw_rlp r) (λ _ db', db' = db ∧ (h = zero_hash ∨ ¬ known db h)) db.
Proof.
  intros Hs Hh. pose proof Hs as [(l & rank & Hok) Hp Hheld]. pose proof (ok_disk _ _ _ _ _ _ _ Hok) as [Dt Dc Dl].
  unfold Node. destruct (Z.eqb_spec h zero_hash) as [->|Hz]; [apply wp_throw; split; [done|by left]|]. apply wp_bind, wp_get.
  destruct (clean_Get h db) as [enc|] eqn:Hc.
  { apply wp_ret. split; [done|]. intros r Hr. unfold clean_Get in Hc. destruct (td_cleans db) as [c|] eqn:Hcl; [|done]. cbn in Hc. apply (Dt h r enc Hr). by eapply Dc. }
  destruct (td_dirties db !! h) as [e|] eqn:He.
  { apply wp_ret. split; [done|]. intros r Hr. destruct (whole_entry _ _ _ _ _ _ _ Hok He Hz) as (Hr' & _). congruence. }
  unfold db_Get. destruct (td_diskdb db !! Hash_Bytes h) as [enc|] eqn:Hd.
  - apply wp_bind, wp_modify, wp_ret. split; [|intros r Hr; by eapply Dt]. assert (moved db (set_store (td_diskdb db) (bc_Set (Hash_Bytes h) enc <$> td_cleans db) db)) as Hm by done.
    split; [|done]. apply (serves_roots db); [exists l, rank; by apply clean_set_ok|done|done|done|done].
  - apply wp_throw. split; [done|right]. intros [[? ?]|[_ [? ?]]]; congruence.
Qed.

Lemma db_op_ok op db hs : serves db hs → allowed op db hs → returns (run_op op) (λ _ db', serves db' (step_holds op hs) ∧ moved db db') db.
Proof.
  intros Hs Ha. destruct op; cbn [run_op step_holds].
  - by apply store_serves.
  - by apply preimage_serves.
  - by apply hold_serves.
  - by apply release_serves.
  - eapply returns_mono; [by apply cap_serves|]. by intros [] db' [? _].
  - eapply returns_mono; [by apply commit_serves|]. by intros [] db' [? _].
  - apply returns_bind, returns_attempt. eapply wp_mono; [by apply (read_serves db hs)|intros enc db' [? _]; by apply wp_ret|]. intros e db' [-> _]. by apply wp_ret.
Qed.
Lemma db_run_ok ops db hs : serves db hs → allowed_run ops db hs → returns (run_ops ops) (λ _ db', serves db' (holds_after ops hs) ∧ moved db db') db.
Proof.
  revert db hs. induction ops as [|op ops IH]; intros db hs Hs Ha; [by apply wp_ret|]. destruct Ha as [Ha Hrest]. apply returns_bind.
  pose proof (db_op_ok op db hs Hs Ha) as (u & db1 & Hrun & Hs1 & Hm1)%returns_run. destruct u. apply returns_run. exists tt, db1. split; [done|].
  eapply returns_mono; [by apply (IH db1 (step_holds op hs)); [|apply Hrest]|]. cbn beta. intros [] db2 [Hs2 Hm2]. split; [done|by etrans].
Qed.

(** ** What is known *)
Lemma known_below db l rank h c : whole_ok db l rank → h ≠ zero_hash → known db h → c ∈ links h → c ≠ zero_hash ∧ known db c.
Proof.
  intros Hok Hz Hk Hc. destruct (known_listed db l rank h Hok Hz Hk) as [Hd|Hl].
  - pose proof (do_closed _ _ _ _ (ok_disk _ _ _ _ _ _ _ Hok) h c Hd Hc) as Hdc. split; [by apply content_hash; destruct Hdc|by right].
  - destruct (link_nonzero content ext Hcontent db _ [] l rank h c Hok Hl Hc) as [? _]. split; [done|].
    destruct (mo_before _ _ _ _ _ _ (ok_mem _ _ _ _ _ _ _ Hok) h c Hl Hc) as [?|[Hb _]%before_elem]; [by right|left]. by apply (whole_dirty _ _ _ _ _ _ Hok) in Hb as [_ ?].
Qed.
Lemma known_reach db l rank h c : whole_ok db l rank → reach h c → h ≠ zero_hash → known db h → c ≠ zero_hash ∧ known db c.
Proof. intros Hok Hr. induction Hr as [h|h c c' Hc _ IH]; intros Hz Hk; [done|]. destruct (known_below db l rank h c Hok Hz Hk Hc). by apply IH. Qed.
Lemma disk_reach db l rank h c : whole_ok db l rank → reach h c → on_disk (td_diskdb db) h → on_disk (td_diskdb db) c.
Proof. intros Hok Hr. induction Hr as [h|h c c' Hc _ IH]; intros Hd; [done|]. apply IH. by apply (do_closed _ _ _ _ (ok_disk _ _ _ _ _ _ _ Hok) h). Qed.
Lemma held_known db hs h : serves db hs → h ≠ zero_hash → (0 < hs h)%nat → known db h.
Proof.
  intros [(l & rank & Hok) _ Hh] Hz Hpos. destruct (Hh h Hpos) as [Hk|?]; [|by right].
  destruct (metaroot_children db !! h) as [k|] eqn:Hm; cbn in Hk; [|lia]. destruct (whole_root _ _ _ _ _ Hok) as (m & c & Hm0 & _ & Hc & Hall).
  rewrite (roots_of _ _ _ Hm0 Hc) in Hm. apply Hall in Hm as [_ [Hl|?]]; [left|by right]. by apply (whole_dirty _ _ _ _ _ _ Hok) in Hl as [_ ?].
Qed.
(** Reading what is known. *)
Definition readable db (h : Hash) : Prop := ∃ r db', content h = Some r ∧ Node h db = (Ok (raw_rlp r), db').
Lemma known_readable db hs h : serves db hs → h ≠ zero_hash → known db h → readable db h.
Proof.
  intros Hs Hz Hk. pose proof Hs as [(l & rank & Hok) _ _]. assert (is_Some (content h)) as [r Hr].
  { destruct Hk as [[e He]|[? _]]; [|done]. destruct (whole_entry _ _ _ _ _ _ _ Hok He Hz) as (? & _). by eexists. }
  assert (is_hash h) as Hh by (by apply content_hash; eexists). pose proof (read_serves db hs h Hs Hh) as Hread. unfold wp in Hread.
  destruct (Node h db) as [[enc|e|p] db'] eqn:Hn; [|by destruct Hread as [_ [?|?]]|done]. destruct Hread as [_ Henc]. exists r, db'. by rewrite Hn, (Henc r Hr).
Qed.

(** ** Runs from the start *)
Record disk_good (disk : Database) : Prop := {
  dg_ok : disk_ok content ext disk (None : option K);
  dg_rank : ∃ rank : Hash → nat, ∀ h c, on_disk disk h → c ∈ links h → (rank c < rank h)%nat
}.
Lemma new_serves disk cache : disk_good disk → serves (NewDatabaseWithCache disk cache) (λ _, 0%nat).
Proof.
  intros [[Dt Dc Dl] [rank Hrank]]. assert (∀ h e, ({[ zero_hash := metaroot ]} : gmap Hash cachedNode) !! h = Some e → h = zero_hash ∧ e = metaroot) as Honly.
  { intros h e Hh. apply lookup_singleton_Some in Hh as [<- <-]. done. }
  assert (bare <$> ({[ zero_hash := metaroot ]} : gmap Hash cachedNode) = {[ zero_hash := metaroot ]}) as Hb by apply map_fmap_singleton.
  split; [|intros h [? Hh]; cbn in Hh; by rewrite lookup_empty in Hh|lia]. exists [], rank. unfold whole_ok.
  change (td_dirties (NewDatabaseWithCache disk cache)) with ({[ zero_hash := metaroot ]} : gmap Hash cachedNode). rewrite Hb.
  split; cbn [NewDatabaseWithCache td_dirties td_oldest td_newest td_diskdb td_cleans td_dirtiesSize td_childrenSize]; rewrite ?Hb; try done.
  - split; try done; [constructor|by intros ?%not_elem_of_nil].
  - split; [done| |done]. intros h r c b Hc Hr. destruct (0 <? cache); [|done]. injection Hc as <-. by rewrite bc_Get_New.
  - split.
    + exists metaroot, ∅. split_and!; [apply lookup_singleton_eq|done..|]. intros x k. by rewrite lookup_empty.
    + intros h. split; [by intros ?%not_elem_of_nil|]. intros [Hz [e He]]. by apply Honly in He as [? _].
    + intros h e He. by apply Honly in He as [? _].
    + by intros h c ?%not_elem_of_nil.
    + intros h e c He. by apply Honly in He as [? _].
    + intros h e He. by apply Honly in He as [? _].
  - intros h c [[Hz [e He]]|Hd]; [by apply Honly in He as [? _]|by apply Hrank].
Qed.
Lemma serves_disk_good db hs : serves db hs → disk_good (td_diskdb db).
Proof.
  intros [(l & rank & [Ol [Dt Dc Dl] Om Or Os Oz]) _ _]. split; [by split|]. exists rank. intros h c Hd. apply Or. by right.
Qed.
Lemma run_commits ops db hs root : serves db hs → allowed_run ops db hs → OpCommit root ∈ ops →
  returns (run_ops ops) (λ _ db', on_disk (td_diskdb db') root ∧ root ≠ zero_hash) db.
Proof.
  revert db hs. induction ops as [|op ops IH]; intros db hs Hs Ha Hin; [by apply not_elem_of_nil in Hin|]. destruct Ha as [Ha Hrest]. apply returns_bind.
  pose proof (db_op_ok op db hs Hs Ha) as (u & db1 & Hrun & Hs1 & Hm1)%returns_run. destruct u. specialize (Hrest db1 Hrun).
  apply returns_run. exists tt, db1. split; [done|]. apply elem_of_cons in Hin as [<-|Hin]; [|by apply (IH db1 (step_holds op hs))].
  pose proof (commit_serves db hs root Hs Ha) as ([] & db1' & Hrun' & _ & Hd & _)%returns_run. change (run_op (OpCommit root)) with (db_Commit (K := K) root) in Hrun.
  assert (db1' = db1) as -> by congruence. destruct Ha as [Hz _]. eapply returns_mono; [by apply (db_run_ok ops db1 _ Hs1 Hrest)|].
  cbn beta. intros _ db2 [_ Hm2]. split; [by apply (mv_disk _ _ Hm2)|done].
Qed.
Lemma run_preimages ops db hs h p : serves db hs → allowed_run ops db hs → OpPreimage h p ∈ ops →
  returns (run_ops ops) (λ _ db', preimage_of db' h = Some p ∧ is_hash h) db.
Proof.
  revert db hs. induction ops as [|op ops IH]; intros db hs Hs Ha Hin; [by apply not_elem_of_nil in Hin|]. destruct Ha as [Ha Hrest]. apply returns_bind.
  pose proof (db_op_ok op db hs Hs Ha) as (u & db1 & Hrun & Hs1 & Hm1)%returns_run. destruct u. specialize (Hrest db1 Hrun).
  apply returns_run. exists tt, db1. split; [done|]. apply elem_of_cons in Hin as [<-|Hin]; [|by apply (IH db1 (step_holds op hs))].
  destruct Ha as [Hh Hsame]. assert (preimage_of db1 h = Some p) as Hp.
  { cbn [run_op] in Hrun. unfold insertPreimage, mbind, gom_bind, get_state in Hrun. destruct (td_preimages db !! h) as [q|] eqn:Hq.
    - injection Hrun as <-. unfold preimage_of. rewrite Hq. f_equal. apply Hsame. unfold preimage_of. by rewrite Hq.
    - injection Hrun as <-. unfold preimage_of. cbn [set_preimages td_preimages]. by rewrite lookup_insert_eq. }
  eapply returns_mono; [by apply (db_run_ok ops db1 _ Hs1 Hrest)|]. cbn beta. intros _ db2 [_ Hm2]. split; [by apply (mv_preimage _ _ Hm2)|done].
Qed.
(** One more operation. *)
Lemma allowed_run_snoc ops op db hs : allowed_run (ops ++ [op]) db hs ↔
  allowed_run ops db hs ∧ (∀ db', run_ops ops db = (Ok tt, db') → allowed op db' (holds_after ops hs)).
Proof.
  revert db hs. induction ops as [|o ops IH]; intros db hs; cbn [app allowed_run].
  - split; [intros [Ha _]; split; [done|]; by intros db' [= <-]|intros [_ Ha]; split; [by apply Ha|done]].
  - setoid_rewrite IH. unfold run_ops. cbn [for_each]. unfold mbind, gom_bind. split.
    + intros [Ha Hrest]. split; [split; [done|intros db' Hr; by apply Hrest]|]. intros db'. destruct (run_op o db) as [[[]|e|p] db1] eqn:Hr; [|done|done]. intros Hr'.
      by apply (Hrest db1 eq_refl).
    + intros [[Ha Hrest] Hlast]. split; [done|]. intros db1 Hr. split; [by apply Hrest|]. intros db' Hr'. apply Hlast. by rewrite Hr.
Qed.
Lemma run_ops_snoc ops op db db' : run_ops ops db = (Ok tt, db') → run_ops (ops ++ [op]) db = run_op op db'.
Proof.
  revert db. induction ops as [|o ops IH]; intros db; cbn [app].
  - intros [= ->]. unfold run_ops. cbn [for_each]. unfold mbind, gom_bind. by destruct (run_op op db') as [[[]|e|p] db1].
  - unfold run_ops. cbn [for_each]. unfold mbind, gom_bind. destruct (run_op o db) as [[[]|e|p] db1]; [|done|done]. apply IH.
Qed.

(** ** The size reported *)
Definition memory db : Z := msum (λ h e, if decide (h = zero_hash) then 0 else node_weight e) (td_dirties db).
Lemma msum_fmap {A B} (f : Z → B → Z) (g : A → B) (m : gmap Z A) : msum f (g <$> m) = msum (λ k x, f k (g x)) m.
Proof.
  induction m as [|k x m Hk IH] using map_ind; [done|]. rewrite fmap_insert, !msum_insert, IH; [done|done|by rewrite lookup_fmap, Hk].
Qed.
Lemma msum_plus {A} (f g : Z → A → Z) (m : gmap Z A) : msum (λ k x, f k x + g k x) m = msum f m + msum g m.
Proof. induction m as [|k x m Hk IH] using map_ind; [done|]. rewrite !msum_insert by done. lia. Qed.
Lemma msum_const {A} (c : Z) (m : gmap Z A) : msum (λ _ _, c) m = Z.of_nat (base.size m) * c.
Proof. induction m as [|k x m Hk IH] using map_ind; [done|]. rewrite msum_insert, map_size_insert_None by done. lia. Qed.
Lemma msum_ext {A} (f g : Z → A → Z) (m : gmap Z A) : (∀ k x, m !! k = Some x → f k x = g k x) → msum f m = msum g m.
Proof.
  induction m as [|k x m Hk IH] using map_ind; [done|]. intros Heq. rewrite !msum_insert by done. f_equal; [apply Heq, lookup_insert_eq|].
  apply IH. intros k' x' Hk'. apply Heq. rewrite lookup_insert_ne; [done|]. congruence.
Qed.
Lemma size_exact db hs : serves db hs → nodes_size db = memory db.
Proof.
  intros [(l & rank & Hok) _ _]. destruct (whole_root _ _ _ _ _ Hok) as (m & c & Hm & _ & Hc & _). pose proof (ok_size _ _ _ _ _ _ _ Hok) as Hs.
  rewrite msum_fmap in Hs. unfold nodes_size, memory. rewrite Hs, (roots_of _ _ _ Hm Hc).
  rewrite (msum_delete _ (td_dirties db) zero_hash m Hm). rewrite (msum_delete (λ h e, if decide _ then _ else _) (td_dirties db) zero_hash m Hm). rewrite decide_True by done.
  rewrite (entry_size_root (bare m) c Hc). set (d := base.delete zero_hash (td_dirties db)).
  assert (Z.of_nat (base.size (td_dirties db)) - 1 = Z.of_nat (base.size d)) as ->.
  { rewrite <- (insert_delete_id (td_dirties db) zero_hash m) by done. fold d. rewrite map_size_insert_None by apply lookup_delete_eq. lia. }
  rewrite <- (msum_const cachedNodeSize d). assert (msum (λ k x, entry_size k (bare x)) d + msum (λ _ _, cachedNodeSize) d = msum (λ h e, if decide (h = zero_hash) then 0 else node_weight e) d) as Heq.
  { rewrite <- msum_plus. apply msum_ext. intros k x [Hk _]%lookup_delete_Some. unfold entry_size. rewrite !decide_False by done.
    unfold node_weight. change (Z.of_nat HashLength) with 32. change (children_size (bare x)) with (children_size x). change (cn_size (bare x)) with (cn_size x). lia. }
  change (Z.of_nat HashLength + 2) with 34. lia.
Qed.

(** * The contract *)
(** Over any run of stores, references, releases, caps, commits and reads a client may make, the trie database never panics, and every node of every trie that is still held, or was ever committed, reads back as what its hash is the hash of. *)
Theorem trie_database_keeps_what_is_held disk cache ops : disk_good disk → allowed_run ops (NewDatabaseWithCache disk cache) (λ _, 0%nat) →
  ∃ db', run_ops ops (NewDatabaseWithCache disk cache) = (Ok tt, db') ∧
    ∀ root h, root ≠ zero_hash → (0 < holds_after ops (λ _, O) root)%nat ∨ OpCommit root ∈ ops → reach root h → readable db' h.
Proof.
  intros Hd Ha. pose proof (new_serves disk cache Hd) as Hs0. pose proof (db_run_ok ops _ _ Hs0 Ha) as ([] & db' & Hrun & Hs & _)%returns_run.
  exists db'. split; [done|]. intros root h Hz Hor Hr. assert (known db' root) as Hk.
  { destruct Hor as [Hpos|Hin]; [by apply (held_known db' _ root Hs)|]. pose proof (run_commits ops _ _ root Hs0 Ha Hin) as ([] & db1 & Hrun1 & Hd1 & _)%returns_run.
    right. congruence. }
  pose proof Hs as [(l & rank & Hok) _ _]. destruct (known_reach db' l rank root h Hok Hr Hz Hk) as [Hhz Hhk]. by apply (known_readable db' _ h Hs).
Qed.
(** Once a trie is committed the node may stop: a database opened over the same store reads every node of that trie, and every preimage that was recorded. *)
Theorem committed_tries_survive_restart disk cache cache' ops root : disk_good disk → allowed_run (ops ++ [OpCommit root]) (NewDatabaseWithCache disk cache) (λ _, 0%nat) →
  ∃ db', run_ops (ops ++ [OpCommit root]) (NewDatabaseWithCache disk cache) = (Ok tt, db') ∧
    let reopened := NewDatabaseWithCache (td_diskdb db') cache' in
    (∀ h, reach root h → readable reopened h) ∧
    ∀ h p, OpPreimage h p ∈ ops → db_preimage h reopened = (Ok p, reopened).
Proof.
  intros Hd Ha. pose proof (new_serves disk cache Hd) as Hs0. pose proof Ha as [Ha1 Ha2]%allowed_run_snoc.
  pose proof (db_run_ok _ _ _ Hs0 Ha1) as ([] & db1 & Hrun & Hs & _)%returns_run. specialize (Ha2 db1 Hrun).
  pose proof (commit_serves db1 _ root Hs Ha2) as ([] & db' & Hrun' & [Hs' Hm'] & Hdk & Hpre)%returns_run. exists db'. rewrite (run_ops_snoc _ _ _ _ Hrun). split; [done|].
  pose proof (new_serves (td_diskdb db') cache' (serves_disk_good _ _ Hs')) as Hs2. destruct Ha2 as [Hz _]. split.
  - intros h Hr. pose proof Hs2 as [(l & rank & Hok) _ _]. destruct (known_reach _ l rank root h Hok Hr Hz) as [Hhz Hhk]; [by right|]. by eapply known_readable.
  - intros h p Hin. pose proof (run_preimages ops _ _ h p Hs0 Ha1 Hin) as ([] & db2 & Hrun2 & Hp2 & Hh)%returns_run. assert (db2 = db1) as -> by congruence.
    apply (mv_preimage _ _ Hm' h p Hh) in Hp2. unfold preimage_of in Hp2. rewrite Hpre, lookup_empty in Hp2.
    unfold db_preimage, mbind, gom_bind, get_state, db_Get. cbn [NewDatabaseWithCache td_preimages td_diskdb]. by rewrite lookup_empty, Hp2.
Qed.
(** The size the database reports is the memory its nodes take, and capping it to a limit leaves no more than the limit in memory, unless no node at all is left there. *)
Theorem cap_meets_its_limit disk cache ops limit : disk_good disk → allowed_run ops (NewDatabaseWithCache disk cache) (λ _, 0%nat) →
  ∃ db db', run_ops ops (NewDatabaseWithCache disk cache) = (Ok tt, db) ∧ Cap limit db = (Ok tt, db') ∧
    (Size db).1 = memory db ∧ (Size db').1 = memory db' ∧ (memory db' ≤ limit ∨ base.size (td_dirties db') = 1%nat).
Proof.
  intros Hd Ha. pose proof (new_serves disk cache Hd) as Hs0. pose proof (db_run_ok ops _ _ Hs0 Ha) as ([] & db & Hrun & Hs & _)%returns_run.
  pose proof (cap_serves db _ limit Hs) as ([] & db' & Hcap & [Hs' _] & Hlim)%returns_run. exists db, db'. cbn [Size fst].
  pose proof (size_exact _ _ Hs) as Hz. pose proof (size_exact _ _ Hs') as Hz'. split_and!; [done..|]. by rewrite <- Hz'.
Qed.
End spec.
