(* ===== verification/TrieStore.v ===== *)
(** Tries over the trie database: what a commit of a trie hands over is what the
    database accepts, and a trie that was committed can be opened again. *)
From S2P Require Import Prelude Hoare Types TrieEncoding Trie TrieMemory TrieMap TrieRoot Memorydb TrieNode TrieLoad TrieCommit.
From S2P Require Import TrieDB TrieDBInv TrieDBGC TrieDBRefs TrieDBSpec.

(** * Opening a trie

    The database a trie reads from ([t.db.node]); [New] of [trie/trie.go]. *)
Definition node_of `{NodeDigest} `{NodeDecode} {K} `{BigCache K} (db : TrieDatabase K) (h : Hash) : option node :=
  match (db_node h db).1 with Ok y => y | _ => None end.
Definition trie_New (db : Hash → option node) (root : Hash) : Result trie_error node :=
  if (root =? zero_hash) || (root =? emptyRoot) then Ok nilNode else resolveHash db root [].

(** * What collapsed nodes refer to *)
Section refers.
Context `{NodeDigest}.
Fixpoint gather_loop (i : nat) (cs : list raw_node) : Result trie_db_error (list Hash) :=
  match i, cs with S i, c :: cs => l ← gatherChildren c; l' ← gather_loop i cs; Ok (l ++ l') | _, _ => Ok [] end.
Lemma gather_full cs : gatherChildren (rawFullNode cs) = gather_loop 16 cs.
Proof. done. Qed.
Lemma gather_hashes c : collapsed_ok c ∨ is_branch c = false → gatherChildren (E := trie_db_error) (raw_of c) = Ok (node_hashes c).
Proof.
  assert (∀ c, child_collapsed c → collapsed_ok c ∨ is_branch c = false) as Hchild by by destruct 1; auto.
  induction c as [|h|v|k n fl IH|ns fl IH] using node_nested_ind; intros Hc; try done; (destruct Hc as [Hc|]; [|done]).
  - apply IH. inversion Hc; subst; [by right|auto].
  - inversion Hc as [| |cs v fl' Hlen Hcs Hv]; subst. apply Forall_app in IH as [IH _]. cbn [raw_of node_hashes]. rewrite gather_full, !map_app, concat_app.
    assert (concat (map node_hashes [v]) = []) as -> by (destruct Hv as [->|(w & -> & _)]; done). rewrite app_nil_r.
    rewrite <- Hlen. clear Hv Hc Hlen. generalize (map raw_of [v]). intros rest. induction IH as [|c cs Hi _ IH]; [done|]. apply Forall_cons in Hcs as [Hc Hcs].
    cbn [length map app concat gather_loop]. rewrite (IH Hcs), Hi; [done|]. destruct Hc as [->|Hc]; [by right|auto].
Qed.
Lemma inner_raw_of c : collapsed_ok c → inner (raw_of c) = node_hashes c.
Proof. intros Hc. unfold inner. rewrite gather_hashes by by left. by destruct Hc. Qed.
End refers.

Section store.
Context `{NodeCodecLaws} `{!DigestRange} `{MapRange} {K : Type} `{BigCacheLaws K}.
Context (content : Hash → option raw_node) (ext : Hash → list Hash).
Implicit Types (db : TrieDatabase K) (hs : Hash → nat).
Abbreviation links := (links content ext).
Abbreviation known := (known content).
Abbreviation serves := (serves content ext).
Abbreviation allowed := (allowed content ext).

(** What the node hands to the database are collapsed nodes, which refer to
    others, and blobs that are no nodes. *)
Record content_nodes : Prop := {
  ct_node h r : content h = Some r → (∃ c, collapsed_ok c ∧ r = raw_of c) ∨ (∃ blob, r = rawNode blob ∧ decodeNode (Some h) blob = None);
  ct_closed h r c : content h = Some r → c ∈ inner r → is_Some (content c);
  ct_empty : content emptyRoot = None
}.
Context (Hcontent : content_ok content) (Hnodes : content_nodes).

(** * Reading nodes *)
Lemma node_of_eq db h : node_of db h =
  match clean_Get h db with
  | Some enc => decodeNode (Some h) enc
  | None =>
      match td_dirties db !! h with
      | Some e => match raw_obj (E := trie_db_error) h (cn_node e) with Ok y => Some y | _ => None end
      | None => enc ← td_diskdb db !! Hash_Bytes h; decodeNode (Some h) enc
      end
  end.
Proof.
  unfold node_of, db_node, mbind, gom_bind, get_state, lift, clean_Set, modify, db_Get, mustDecodeNode, mret, gom_ret. destruct (clean_Get h db) as [enc|]; [by destruct (decodeNode (Some h) enc)|].
  destruct (td_dirties db !! h) as [e|]; [by destruct (raw_obj h (cn_node e))|]. destruct (td_diskdb db !! Hash_Bytes h) as [enc|]; [|done]. cbn. by destruct (decodeNode (Some h) enc).
Qed.
Lemma raw_rlp_of c : collapsed_ok c → raw_rlp (raw_of c) = rlp_Encode (EncodeRLP c).
Proof. intros Hc. destruct (raw_ok (E := unit) c (or_introl Hc) None) as (_ & _ & <-). by destruct Hc. Qed.
Lemma raw_obj_of h c : collapsed_ok c → raw_obj (E := trie_db_error) h (raw_of c) = Ok (expanded (Some h) c).
Proof. intros Hc. destruct (raw_ok (E := trie_db_error) c (or_introl Hc) (Some h)) as (_ & <- & _). by destruct Hc. Qed.
Lemma obj_rlp h r : content h = Some r → match raw_obj (E := trie_db_error) h r with Ok y => Some y | _ => None end = decodeNode (Some h) (raw_rlp r).
Proof.
  intros Hr. destruct (ct_node Hnodes h r Hr) as [(c & Hc & ->)|(blob & -> & Hd)].
  - by rewrite raw_obj_of, raw_rlp_of, decodeNode_ok by done.
  - cbn. unfold mustDecodeNode. by rewrite Hd.
Qed.
Lemma tracked_node h r y : content h = Some r → decodeNode (Some h) (raw_rlp r) = Some y → ∃ c, collapsed_ok c ∧ r = raw_of c ∧ y = expanded (Some h) c.
Proof.
  intros Hr Hd. destruct (ct_node Hnodes h r Hr) as [(c & Hc & ->)|(blob & -> & Hn)]; [|cbn in Hd; congruence].
  exists c. rewrite raw_rlp_of, decodeNode_ok in Hd by done. split_and!; [done|done|congruence].
Qed.
Lemma serves_clean db hs h r enc : serves db hs → content h = Some r → clean_Get h db = Some enc → enc = raw_rlp r ∧ td_diskdb db !! Hash_Bytes h = Some enc.
Proof.
  intros [(l & rank & Hok) _ _] Hr Hc. pose proof (ok_disk _ _ _ _ _ _ _ Hok) as [Dt Dc _]. unfold clean_Get in Hc. destruct (td_cleans db) as [k|] eqn:Hk; [|done]. cbn in Hc.
  pose proof (Dc h r k enc eq_refl Hr Hc) as Hd. split; [by eapply Dt|done].
Qed.
(** What is known reads as what it is; nothing else that is named reads at all. *)
Lemma node_of_known db hs h r : serves db hs → content h = Some r → known db h → node_of db h = decodeNode (Some h) (raw_rlp r).
Proof.
  intros Hs Hr Hk. assert (h ≠ zero_hash) as Hz by by apply (co_hash _ Hcontent h r). rewrite node_of_eq. destruct (clean_Get h db) as [enc|] eqn:Hc.
  { by destruct (serves_clean db hs h r enc Hs Hr Hc) as [-> _]. }
  pose proof Hs as [(l & rank & Hok) _ _]. destruct (td_dirties db !! h) as [e|] eqn:He.
  - destruct (whole_entry _ _ _ _ _ _ _ Hok He Hz) as (Hr' & _). assert (r = cn_node e) as -> by congruence. by apply obj_rlp.
  - destruct Hk as [[? ?]|[_ [b Hb]]]; [congruence|]. rewrite Hb. cbn. f_equal. by apply (do_true _ _ _ _ (ok_disk _ _ _ _ _ _ _ Hok) h r).
Qed.
Lemma node_of_is_known db hs h y : serves db hs → is_Some (content h) → node_of db h = Some y → known db h.
Proof.
  intros Hs [r Hr]. rewrite node_of_eq. destruct (clean_Get h db) as [enc|] eqn:Hc.
  { destruct (serves_clean db hs h r enc Hs Hr Hc) as [_ Hd]. intros _. right. split; by eexists. }
  destruct (td_dirties db !! h) as [e|] eqn:He; [intros _; left; by eexists|]. destruct (td_diskdb db !! Hash_Bytes h) as [enc|] eqn:Hd; [|done].
  intros _. right. split; by eexists.
Qed.
Lemma node_of_fresh db hs : serves db hs → fresh (node_of db).
Proof.
  intros Hs h y. rewrite node_of_eq. destruct (clean_Get h db) as [enc|]; [apply decodeNode_expanded|]. destruct (td_dirties db !! h) as [e|] eqn:He.
  - pose proof Hs as [(l & rank & Hok) _ _]. destruct (decide (h = zero_hash)) as [->|Hz].
    + destruct (whole_root _ _ _ _ _ Hok) as (m & c & Hm & Hn & _). assert (e = m) as -> by congruence. by rewrite Hn.
    + destruct (whole_entry _ _ _ _ _ _ _ Hok He Hz) as (Hr & _). rewrite obj_rlp by done. apply decodeNode_expanded.
  - destruct (td_diskdb db !! Hash_Bytes h) as [enc|]; [apply decodeNode_expanded|done].
Qed.

(** * Storing what a commit hands over

    Without references from outside; the parent counters have room for all the
    references that are added. *)
Definition plain (calls : list store_call) : Prop := ∀ h blob c, inserts calls h blob c → content h = Some (raw_of c) ∧ ext h = [] ∧ blob_fits blob.
Definition stores (calls : list store_call) : list db_op := omap (λ call, match call with DbInsert h blob c => Some (OpStore h blob (inr c) []) | OnLeaf _ _ => None end) calls.
Definition refs (calls : list store_call) : nat := sum_list_with (λ call, match call with DbInsert _ _ c => length (node_hashes c) | OnLeaf _ _ => O end) calls.
Definition room db (n : nat) : Prop := Z.of_nat n < 2 ^ 32 ∧ ∀ h e, td_dirties db !! h = Some e → cn_parents e + Z.of_nat n < 2 ^ 32.
Lemma room_less db n n' : room db n → (n' ≤ n)%nat → room db n'.
Proof. intros [Hn Hr] Hle. split; [lia|]. intros h e He. specialize (Hr h e He). lia. Qed.

Lemma later_trans v0 v1 v2 l1 l2 : later v0 v1 l1 → later v1 v2 l2 → later v0 v2 (l1 ++ l2).
Proof.
  intros [E1 F1 S1] [E2 F2 S2]. split; [by intros h y Hy; apply E2, E1|done|]. intros h blob c [Hc|Hc]%elem_of_app; [by eapply E2, S1|by eapply S2].
Qed.
Lemma later_refl v : fresh v → later v v [].
Proof. intros Hf. split; [by intros ? ?|done|]. by intros h blob c ?%not_elem_of_nil. Qed.

Lemma store_allowed db hs h blob c : serves db hs → content h = Some (raw_of c) → collapsed_ok c → ext h = [] → blob_fits blob →
  (∀ h', h' ∈ node_hashes c → is_Some (node_of db h')) → room db (length (node_hashes c)) → allowed (OpStore h blob (inr c) []) db hs.
Proof.
  intros Hs Hr Hc Hx Hblob Hh [Hn Hroom]. split; [done|]. exists (raw_of c). split_and!; [done|by apply (raw_ok c (or_introl Hc) None)| | |done|].
  - by rewrite Hx.
  - intros x. unfold TrieDBInv.links, kids. rewrite Hr, Hx, app_nil_r. cbn [from_option]. intros Hxc. destruct (ct_closed Hnodes h _ x Hr Hxc) as [rx Hrx].
    split; [by apply (co_hash _ Hcontent x rx)|]. rewrite inner_raw_of in Hxc by done. destruct (Hh x Hxc) as [y Hy]. by apply (node_of_is_known db hs x y).
  - intros x e He. rewrite inner_raw_of by done. cbn [length]. rewrite Nat.add_0_r. by apply (Hroom x).
Qed.
(** What changes in the memory. *)
Lemma store_facts db hs h blob c : serves db hs → allowed (OpStore h blob (inr c) []) db hs → content h = Some (raw_of c) → collapsed_ok c →
  returns (store_node h blob (inr c) []) (λ _ db', same_store db db' ∧ td_dirties db' !! zero_hash = td_dirties db !! zero_hash ∧
    (∀ x, x ≠ zero_hash → is_Some (td_dirties db' !! x) ↔ x = h ∨ is_Some (td_dirties db !! x)) ∧
    ∀ x e', td_dirties db' !! x = Some e' → cn_parents e' = 0 ∨ ∃ e, td_dirties db !! x = Some e ∧ cn_parents e' ≤ cn_parents e + Z.of_nat (length (node_hashes c))) db.
Proof.
  intros [(l & rank & Hok) _ _] (Hblob & r & Hr & Hf & Hx & Hl & _ & Hroom) Hrc Hc. assert (r = raw_of c) as -> by congruence. assert (h ≠ zero_hash) as Hz by by apply (co_hash _ Hcontent h (raw_of c)).
  unfold store_node. apply returns_bind. cbn [for_each]. destruct (td_dirties db !! h) as [e|] eqn:He.
  - unfold db_insert. apply returns_bind, wp_get. rewrite He. apply wp_ret, wp_ret. split_and!; [done|done| |].
    + intros x _. split; [by right|]. intros [->|?]; [by eexists|done].
    + intros x e' He'. right. exists e'. split; [done|lia].
  - eapply returns_mono; [apply (insert_fresh content Hcontent ext db l rank h blob (inr c) (raw_of c)); try done|].
    + intros x Hxl. destruct (Hl x Hxl) as [Hxz Hk]. by eapply known_listed.
    + intros x e' He'. specialize (Hroom x e' He'). cbn [length] in Hroom. lia.
    + cbn beta. intros [] db' (rank' & Hok' & _ & Hst & Hroot & Hg). apply wp_ret. split_and!; [done|done| |].
      * intros x Hxz. pose proof (whole_dirty _ _ _ _ _ x Hok) as Hd1. pose proof (whole_dirty _ _ _ _ _ x Hok') as Hd2. rewrite elem_of_app, list_elem_of_singleton in Hd2. tauto.
      * intros x e' He'. rewrite <- (inner_raw_of c Hc). destruct (Hg x e' He') as [[_ ?]|?]; [by left|by right].
Qed.
Lemma same_node_of db db' hs hs' h y : serves db hs → serves db' hs' → same_store db db' → td_dirties db' !! zero_hash = td_dirties db !! zero_hash →
  (∀ x, known db x → known db' x) → node_of db h = Some y → node_of db' h = Some y.
Proof.
  intros Hs Hs' [Hdk Hcl] Hroot Hmono Hy. destruct (content h) as [r|] eqn:Hr.
  - assert (known db h) as Hk by (by eapply node_of_is_known; [exact Hs| |exact Hy]; eexists). rewrite (node_of_known db hs h r Hs Hr Hk) in Hy.
    by rewrite (node_of_known db' hs' h r Hs' Hr (Hmono h Hk)).
  - rewrite <- Hy, !node_of_eq. assert (clean_Get h db' = clean_Get h db) as -> by (unfold clean_Get; by rewrite Hcl). rewrite Hdk.
    destruct (decide (h = zero_hash)) as [->|Hz]; [by rewrite Hroot|]. assert (∀ d hsd, serves d hsd → td_dirties d !! h = None) as Hnone.
    { intros d hsd [(l & rank & Hok) _ _]. destruct (td_dirties d !! h) as [e|] eqn:He; [|done]. destruct (whole_entry _ _ _ _ _ _ _ Hok He Hz) as (? & _). congruence. }
    by rewrite (Hnone db hs), (Hnone db' hs').
Qed.
Lemma store_later db hs h blob c n : serves db hs → true_insert (DbInsert h blob c) → content h = Some (raw_of c) → ext h = [] → blob_fits blob →
  (∀ h', h' ∈ node_hashes c → is_Some (node_of db h')) → room db (length (node_hashes c) + n) →
  allowed (OpStore h blob (inr c) []) db hs ∧
  ∃ db', run_op (OpStore h blob (inr c) []) db = (Ok tt, db') ∧ serves db' hs ∧ later (node_of db) (node_of db') [DbInsert h blob c] ∧ room db' n.
Proof.
  intros Hs (_ & _ & Hc) Hr Hx Hblob Hh Hroom. assert (allowed (OpStore h blob (inr c) []) db hs) as Ha by (apply store_allowed; try done; eapply room_less; [done|lia]).
  split; [done|]. pose proof (store_serves content ext Hcontent db hs h blob (inr c) [] Hs Ha) as ([] & db' & Hrun & Hs' & _)%returns_run.
  pose proof (store_facts db hs h blob c Hs Ha Hr Hc) as ([] & db1 & Hrun1 & Hst & Hroot & Hdom & Hg)%returns_run. assert (db1 = db') as -> by congruence.
  assert (h ≠ zero_hash) as Hz by by apply (co_hash _ Hcontent h (raw_of c)).
  assert (∀ x, known db x → known db' x) as Hmono.
  { intros x [Hd|Hd]; [left|right; by destruct Hst as [-> _]]. destruct (decide (x = zero_hash)) as [->|Hxz]; [by rewrite Hroot|]. apply Hdom; [done|by right]. }
  exists db'. split_and!; [done|done| |].
  - split; [by intros x y; eapply same_node_of|by eapply node_of_fresh|]. intros h1 blob1 c1 [= -> -> ->]%list_elem_of_singleton.
    rewrite (node_of_known db' hs h (raw_of c) Hs' Hr) by (left; by apply Hdom; [|left]). by rewrite raw_rlp_of, decodeNode_ok by done.
  - destruct Hroom as [Hn Hroom]. split; [lia|]. intros x e' He'. destruct (Hg x e' He') as [->|(e & He & Hle)]; [lia|]. specialize (Hroom x e He). lia.
Qed.
Lemma stores_holds calls hs : holds_after (stores calls) hs = hs.
Proof. revert hs. induction calls as [|[h blob c|v p] calls IH]; intros hs; [done|apply IH|apply IH]. Qed.
Lemma stores_snoc calls call : stores (calls ++ [call]) = stores calls ++ stores [call].
Proof. apply omap_app. Qed.
Lemma stores_later calls : ∀ db hs n, serves db hs → Forall true_insert calls → plain calls → ordered (node_of db) calls → room db (refs calls + n) →
  allowed_run content ext (stores calls) db hs ∧
  ∃ db', run_ops (stores calls) db = (Ok tt, db') ∧ serves db' hs ∧ later (node_of db) (node_of db') calls ∧ room db' n.
Proof.
  induction calls as [|call calls IH] using rev_ind; intros db hs n Hs Ht Hp Ho Hroom.
  { split; [done|]. exists db. split_and!; [done|done|by eapply later_refl, node_of_fresh|done]. }
  apply Forall_app in Ht as [Ht [Htc _]%Forall_cons]. unfold refs in Hroom. rewrite sum_list_with_app in Hroom. cbn [sum_list_with] in Hroom.
  destruct (IH db hs (match call with DbInsert _ _ c => length (node_hashes c) | OnLeaf _ _ => O end + n)%nat) as (Ha & db1 & Hrun & Hs1 & Hl1 & Hr1); [done|done| | |eapply room_less; [done|unfold refs; lia]|].
  { intros h blob c Hc. apply (Hp h blob c), elem_of_app. by left. }
  { intros pre h blob c post ->. by apply (Ho pre h blob c (post ++ [call])); rewrite <- app_assoc. }
  rewrite stores_snoc. destruct call as [h blob c|v p].
  - destruct (Hp h blob c) as (Hr & Hx & Hb); [apply elem_of_app; right; by constructor|].
    destruct (store_later db1 hs h blob c n) as (Ha1 & db2 & Hrun2 & Hs2 & Hl2 & Hr2); try done.
    { intros h' Hh'. by apply (Ho calls h blob c [] eq_refl). }
    split; [apply allowed_run_snoc; split; [done|]; intros d Hd; rewrite stores_holds; congruence|]. exists db2. split_and!; [|done|by eapply later_trans|done].
    cbn [stores omap list_omap]. by rewrite (run_ops_snoc _ _ _ _ Hrun).
  - cbn [stores omap list_omap]. rewrite app_nil_r. split; [done|]. exists db1. split_and!; [done|done|eapply later_trans; [done|]|done].
    pose proof (later_refl (node_of db1) (node_of_fresh _ _ Hs1)) as [? ? _]. split; [done|done|]. intros ? ? ? ?%list_elem_of_singleton. done.
Qed.

(** * Open tries

    [x] reads from [db] and stands for the map [m]. *)
Definition no_empty (m : gmap (list byte) (list byte)) : Prop := ∀ k v, m !! k = Some v → v ≠ [].
Lemma no_empty_ops m ops : no_empty m → no_empty (map_ops m ops).2.
Proof.
  revert m. induction ops as [|o ops IH]; intros m Hm; [done|]. cbn. assert (no_empty (map_op m o).2) as H1'.
  { destruct o as [k|k v|k]; cbn; [done| |].
    - case_decide as Hv; intros k' v'; [intros [_ Hl]%lookup_delete_Some; by eapply Hm|]. intros [[<- <-]|[_ Hl]]%lookup_insert_Some; [done|by eapply Hm].
    - intros k' v' [_ Hl]%lookup_delete_Some. by eapply Hm. }
  destruct (map_op m o) as [r m1]. specialize (IH m1 H1'). by destruct (map_ops m1 ops).
Qed.
Definition opened db (x : node) (m : gmap (list byte) (list byte)) : Prop := holds (node_of db) (good (node_of db)) x m ∧ no_empty m.
Lemma opened_empty db : opened db nilNode ∅.
Proof. split; [apply holds_empty|]. intros k v. by rewrite lookup_empty. Qed.
Lemma run_ops_opened db x m ops : opened db x m → Forall (λ o, Forall is_byte (op_key o)) ops →
  ∃ x', TrieMap.run_ops (node_of db) x ops = (Ok <$> (map_ops m ops).1, x') ∧ opened db x' (map_ops m ops).2.
Proof.
  intros [Hx Hm] Hops. destruct (run_ops_holds (node_of db) (good (node_of db)) (good_new (node_of db)) x m ops Hx Hops) as (x' & Hrun & Hx').
  exists x'. split; [done|]. split; [done|by apply no_empty_ops].
Qed.
Lemma represents_valued n m : wf n → represents n m → no_empty m → valued n.
Proof.
  intros Hw Hr Hm. apply valued_find; [done|]. intros k v Hk Hf. apply (rep_find _ _ Hr) in Hf as (key & _ & Hv); [|done]. by apply (Hm key v).
Qed.
Lemma commit_opened db hs x m : serves db hs → opened db x m → plain (Trie_Commit false x).2 → room db (refs (Trie_Commit false x).2) →
  ∃ root x' db1 n, (Trie_Commit false x).1 = Ok (root, x') ∧ allowed_run content ext (stores (Trie_Commit false x).2) db hs ∧
    run_ops (stores (Trie_Commit false x).2) db = (Ok tt, db1) ∧ serves db1 hs ∧ opened db1 x' m ∧
    represents n m ∧ root = root_hash n ∧ (n ≠ nilNode → stored (node_of db1) root n).
Proof.
  intros Hs [(n & Hst & Hr) Hm] Hp Hroom. assert (valued n) as Hv by (destruct (rep_wf _ _ Hr) as [->|Hw]; [done|by apply (represents_valued n m)]).
  destruct (RootHash_stands true false (node_of db) (node_of_fresh db hs Hs) x n [] (rep_wf _ _ Hr) Hv Hst) as (x' & calls & Hrun & [_ Ht Ho] & Hlater).
  unfold Trie_Commit in *. rewrite Hrun in Hp, Hroom |- *. cbn [fst snd app] in *.
  destruct (stores_later calls db hs 0 Hs Ht Hp Ho) as (Ha & db1 & Hrun1 & Hs1 & Hl1 & _); [by rewrite Nat.add_0_r|]. destruct (Hlater _ Hl1) as [Hst1 Hroot].
  exists (root_hash n), x', db1, n. split_and!; [done|done|done|done| |done|done|by apply Hroot]. split; [by exists n|done].
Qed.

(** ** Opening by the root *)
Lemma reach_snoc h c c' : reach content ext h c → c' ∈ links c → reach content ext h c'.
Proof. induction 1 as [h|h c c1 Hc _ IH]; intros Hl; [eapply reach_step; [done|constructor]|]. eapply reach_step; [done|by apply IH]. Qed.
Lemma known_content db hs h : serves db hs → h ≠ zero_hash → known db h → is_Some (content h).
Proof. intros [(l & rank & Hok) _ _] Hz [[e He]|[? _]]; [|done]. destruct (whole_entry _ _ _ _ _ _ _ Hok He Hz) as (? & _). by eexists. Qed.
Lemma reopen_stored db1 hs1 db2 hs2 root n m : serves db1 hs1 → serves db2 hs2 → represents n m → no_empty m → root = root_hash n →
  (n ≠ nilNode → stored (node_of db1) root n) → root ≠ zero_hash → known db2 root → ∃ t, trie_New (node_of db2) root = Ok t ∧ opened db2 t m.
Proof.
  intros Hs1 Hs2 Hr Hm Hroot Hst Hz Hk. destruct (rep_wf _ _ Hr) as [->|Hw].
  { exists nilNode. split; [by rewrite Hroot|]. split; [|done]. exists nilNode. split; [constructor|done]. }
  assert (n ≠ nilNode) as Hnn by (intros ->; inversion Hw). destruct (Hst Hnn) as (y & Hy & Hb & Hsy).
  assert (∀ h y, reach content ext root h → node_of db1 h = Some y → node_of db2 h = Some y ∧ ∀ h', h' ∈ node_hashes y → reach content ext root h') as HP.
  { intros h y0 Hreach Hy0. pose proof Hs2 as [(l & rank & Hok2) _ _]. destruct (known_reach content ext Hcontent db2 l rank root h Hok2 Hreach Hz Hk) as [Hhz Hhk].
    destruct (known_content db2 hs2 h Hs2 Hhz Hhk) as [r Hc]. assert (known db1 h) as Hk1 by (by eapply node_of_is_known; [exact Hs1| |exact Hy0]; eexists).
    rewrite (node_of_known db1 hs1 h r Hs1 Hc Hk1) in Hy0. rewrite (node_of_known db2 hs2 h r Hs2 Hc Hhk). split; [done|].
    destruct (tracked_node h r y0 Hc Hy0) as (c & Hcc & -> & ->). intros h'. rewrite node_hashes_expanded. intros Hh'. apply (reach_snoc root h); [done|].
    apply elem_of_app. left. unfold kids. rewrite Hc. cbn [from_option]. by rewrite inner_raw_of. }
  destruct (HP root y (reach_refl _ _ root) Hy) as [Hy2 Hsub].
  assert (stands (node_of db2) kept true y n) as Hs by by eapply stands_restrict.
  assert (root = digest (merkle n)) as Hd by by destruct n.
  destruct (known_content db2 hs2 root Hs2 Hz Hk) as [r Hc]. assert (root ≠ emptyRoot) as He. { intros He. pose proof (ct_empty Hnodes) as Hce. rewrite <- He in Hce. congruence. }
  exists y. split.
  - unfold trie_New, resolveHash. rewrite (proj2 (Z.eqb_neq root zero_hash) Hz), (proj2 (Z.eqb_neq root emptyRoot) He). cbn [orb]. by rewrite Hy2.
  - split; [|done]. exists n. split; [|done]. destruct (node_of_fresh db2 hs2 Hs2 root y Hy2) as [c ->]. rewrite expanded_branch in Hb.
    apply revive_ok; [by eapply node_of_fresh|done|by destruct c|]. split_and!; [done|done|]. exists (expanded (Some root) c). split_and!; [done|by rewrite expanded_branch|done].
Qed.

(** * Theorems *)
(** Any run of lookups, updates and deletions on a trie that is known in part only, some of its nodes by hash alone, loads what it needs from the database and answers exactly as the same run on the finite map the trie stands for; afterwards the trie stands for the map the run leaves. *)
Theorem loaded_trie_is_a_map db x m ops : opened db x m → Forall (λ o, Forall is_byte (op_key o)) ops →
  let run := TrieMap.run_ops (node_of db) x ops in run.1 = Ok <$> (map_ops m ops).1 ∧ opened db run.2 (map_ops m ops).2.
Proof. intros Hx Hops. by destruct (run_ops_opened db x m ops Hx Hops) as (x' & -> & Hx'). Qed.
(** A commit hands the nodes of a trie to the trie database in an order the database accepts, and the trie goes on standing for its map. From then on, for as long as the root is held, or once it was committed, opening the root gives a trie that stands for the same map, whatever else was stored, released, capped or flushed in between; once it was committed, also in a database opened over the same disk after a restart. *)
Theorem committed_trie_reopens disk cache before db x m : let hs := holds_after before (λ _, O) in let calls := (Trie_Commit false x).2 in
  disk_good (K := K) content ext disk → allowed_run content ext before (NewDatabaseWithCache disk cache) (λ _, O) →
  run_ops before (NewDatabaseWithCache disk cache) = (Ok tt, db) → opened db x m → plain calls → room db (refs calls) →
  ∃ root x' db1, (Trie_Commit false x).1 = Ok (root, x') ∧ allowed_run content ext (stores calls) db hs ∧ run_ops (stores calls) db = (Ok tt, db1) ∧ opened db1 x' m ∧
    ∀ rest, allowed_run content ext rest db1 hs → root ≠ zero_hash → (0 < holds_after rest hs root)%nat ∨ OpCommit root ∈ rest →
      ∃ db2, run_ops rest db1 = (Ok tt, db2) ∧ (∃ t, trie_New (node_of db2) root = Ok t ∧ opened db2 t m) ∧
        ∀ cache', OpCommit root ∈ rest → let again := NewDatabaseWithCache (td_diskdb db2) cache' in ∃ t, trie_New (node_of again) root = Ok t ∧ opened again t m.
Proof.
  intros hs calls Hd Ha0 Hrun0 Hx Hp Hroom. pose proof (new_serves content ext disk cache Hd) as Hs0.
  pose proof (db_run_ok content ext Hcontent before _ _ Hs0 Ha0) as ([] & db' & Hrun0' & Hs & _)%returns_run. assert (db' = db) as -> by congruence.
  destruct (commit_opened db hs x m Hs Hx Hp Hroom) as (root & x' & db1 & n & Hc & Ha & Hrun & Hs1 & Hx1 & Hr & Hroot & Hst). exists root, x', db1. split_and!; [done..|].
  intros rest Hrest Hz Hor. pose proof (db_run_ok content ext Hcontent rest _ _ Hs1 Hrest) as ([] & db2 & Hrun2 & Hs2 & _)%returns_run.
  assert (OpCommit root ∈ rest → on_disk content (td_diskdb db2) root) as Hdisk.
  { intros Hin. pose proof (run_commits content ext Hcontent rest db1 hs root Hs1 Hrest Hin) as ([] & db3 & Hrun3 & Hd3 & _)%returns_run. congruence. }
  exists db2. split; [done|]. destruct Hx as [_ Hm]. split.
  - eapply reopen_stored; [exact Hs1|exact Hs2|done..|]. destruct Hor as [Hpos|Hin]; [by eapply held_known|right; by apply Hdisk].
  - intros cache' Hin again. eapply reopen_stored; [exact Hs1|by apply new_serves; eapply serves_disk_good|done..|]. right. by apply Hdisk.
Qed.
End store.
