(* ===== verification/TxList.v ===== *)
(** Transaction lists ([core/tx_list.go]): the transactions of an account by
    nonce, with a heap of the nonces and a cache of the sorted list, and the
    list of an account with its caps.

    Transaction lists implement maps from nonces: the heap, the cache and the
    caps of [TxList.v] always agree with the transactions stored, so every
    operation answers what the map alone determines. *)
From S2P Require Import Prelude Types Heap.

(** * Transactions and iteration *)

(** [Transaction.Cost] *)
Definition Cost (tx : Transaction) : Z := Price tx * TxGasLimit tx + Amount tx.

(** [nonceHeap.Less] and [TxByNonce.Less]; sorting leaves no element below its
    predecessor. *)
Definition nonce_less (a b : Z) : bool := a <? b.
Definition sort_nonces (l : list Z) : list Z := merge_sort Z.le l.
Definition by_nonce (a b : Transaction) : Prop := AccountNonce a ≤ AccountNonce b.
#[export] Instance by_nonce_dec a b : Decision (by_nonce a b).
Proof. unfold by_nonce. apply _. Defined.
Definition TxByNonce (l : list Transaction) : list Transaction := merge_sort by_nonce l.

(** * The nonce-sorted map *)
Record txSortedMap := mkSorted {
  smItems : gmap Z Transaction;
  smIndex : list Z;
  smCache : option (list Transaction)
}.
Definition newTxSortedMap : txSortedMap := mkSorted ∅ [] None.

Section sorted_map.
Context `{MapRange} {E : Type}.
Implicit Types m : txSortedMap.

Definition Get m (nonce : Z) : option Transaction := smItems m !! nonce.
Definition Put m (tx : Transaction) : txSortedMap :=
  let nonce := AccountNonce tx in
  mkSorted (<[nonce := tx]> (smItems m))
    (if smItems m !! nonce is Some _ then smIndex m else Push nonce_less (smIndex m) nonce) None.

(** [m.items[nonce]] for a nonce of the index: a nil would be dereferenced by
    every user of the transactions returned. *)
Definition indexed (items : gmap Z Transaction) (nonce : Z) : Result E Transaction :=
  match items !! nonce with Some tx => Ok tx | None => Panic NilDereference end.

Fixpoint forward_loop (fuel : nat) (threshold : Z) (items : gmap Z Transaction) (index : list Z) (removed : list Transaction) :
    Result E (gmap Z Transaction * list Z * list Transaction) :=
  match fuel, index with
  | S fuel, first :: _ =>
      if negb (first <? threshold) then Ok (items, index, removed) else
      '(nonce, index) ← Pop nonce_less index;
      tx ← indexed items nonce;
      forward_loop fuel threshold (delete nonce items) index (removed ++ [tx])
  | O, _ :: _ => Panic OutOfFuel
  | _, [] => Ok (items, index, removed)
  end.
Definition Forward m (threshold : Z) : Result E (list Transaction * txSortedMap) :=
  '(items, index, removed) ← forward_loop (S (length (smIndex m))) threshold (smItems m) (smIndex m) [];
  match smCache m with
  | None => Ok (removed, mkSorted items index None)
  | Some c =>
      if bool_decide (length c < length removed)%nat then Panic IndexOutOfRange
      else Ok (removed, mkSorted items index (Some (drop (length removed) c)))
  end.

Definition Filter m (f : Transaction → bool) : list Transaction * txSortedMap :=
  let removed := filter (λ tx, f tx = true) (snd <$> map_range (smItems m)) in
  let items := filter (λ kv, f kv.2 = false) (smItems m) in
  match removed with
  | [] => ([], mkSorted items (smIndex m) (smCache m))
  | _ => (removed, mkSorted items (Init nonce_less (fst <$> map_range items)) None)
  end.

Fixpoint cap_loop (sz : nat) (threshold : Z) (index : list Z) (items : gmap Z Transaction) (drops : list Transaction) :
    Result E (gmap Z Transaction * list Transaction) :=
  if Z.of_nat sz <=? threshold then Ok (items, drops) else
  match sz with
  | O => Panic IndexOutOfRange
  | S sz =>
      match index !! sz with
      | None => Panic IndexOutOfRange
      | Some nonce => tx ← indexed items nonce; cap_loop sz threshold index (delete nonce items) (drops ++ [tx])
      end
  end.
Definition Cap m (threshold : Z) : Result E (list Transaction * txSortedMap) :=
  if Z.of_nat (size (smItems m)) <=? threshold then Ok ([], m) else
  let sorted := sort_nonces (smIndex m) in
  '(items, drops) ← cap_loop (size (smItems m)) threshold sorted (smItems m) [];
  let index := Init nonce_less (take (Z.to_nat threshold) sorted) in
  match smCache m with
  | None => Ok (drops, mkSorted items index None)
  | Some c =>
      if bool_decide (length c < length drops)%nat then Panic IndexOutOfRange
      else Ok (drops, mkSorted items index (Some (take (length c - length drops) c)))
  end.

(** The position of the first occurrence of a nonce, if any. *)
Definition index_of (nonce : Z) (index : list Z) : option nat := fst <$> list_find (λ n, n = nonce) index.
Definition sm_Remove m (nonce : Z) : Result E (bool * txSortedMap) :=
  match smItems m !! nonce with
  | None => Ok (false, m)
  | Some _ =>
      index ← match index_of nonce (smIndex m) with
              | Some i => '(_, index) ← Remove nonce_less (smIndex m) i; Ok index
              | None => Ok (smIndex m)
              end;
      Ok (true, mkSorted (delete nonce (smItems m)) index None)
  end.

Fixpoint ready_loop (fuel : nat) (next : Z) (items : gmap Z Transaction) (index : list Z) (ready : list Transaction) :
    Result E (gmap Z Transaction * list Z * list Transaction) :=
  match fuel, index with
  | S fuel, first :: _ =>
      if negb (first =? next) then Ok (items, index, ready) else
      tx ← indexed items next;
      '(_, index) ← Pop nonce_less index;
      ready_loop fuel (next + 1)%u64 (delete next items) index (ready ++ [tx])
  | O, _ :: _ => Panic OutOfFuel
  | _, [] => Ok (items, index, ready)
  end.
Definition Ready m (start : Z) : Result E (list Transaction * txSortedMap) :=
  match smIndex m with
  | [] => Ok ([], m)
  | first :: _ =>
      if start <? first then Ok ([], m) else
      '(items, index, ready) ← ready_loop (S (length (smIndex m))) first (smItems m) (smIndex m) [];
      Ok (ready, mkSorted items index None)
  end.

Definition Len m : Z := Z.of_nat (size (smItems m)).
Definition Flatten m : list Transaction * txSortedMap :=
  let cache := match smCache m with
    | Some c => c
    | None => TxByNonce (snd <$> map_range (smItems m))
    end in
  (cache, mkSorted (smItems m) (smIndex m) (Some cache)).
End sorted_map.

(** * The list of an account *)
Record txList := mkList { strict : bool; txs : txSortedMap; costcap : Z; gascap : Z }.
Definition newTxList (strict : bool) : txList := mkList strict newTxSortedMap 0 0.

(** A conversion to [int64] keeps the low bits. *)
Definition int64 (x : Z) : Z := (x + 9223372036854775808) mod u64_modulus - 9223372036854775808.

Section tx_list.
Context `{MapRange} {E : Type}.
Implicit Types l : txList.
Definition set_txs l (m : txSortedMap) : txList := mkList (strict l) m (costcap l) (gascap l).

Definition Overlaps l (tx : Transaction) : bool := bool_decide (is_Some (Get (txs l) (AccountNonce tx))).
(** The price a replacement has to reach. *)
Definition price_threshold (old : Transaction) (priceBump : Z) : Z := Price old * int64 (100 + int64 priceBump) / 100.
Definition Add l (tx : Transaction) (priceBump : Z) : bool * option Transaction * txList :=
  let old := Get (txs l) (AccountNonce tx) in
  let better := match old with
    | Some old => negb ((Price tx <=? Price old) || (Price tx <? price_threshold old priceBump))
    | None => true
    end in
  if better then
    (true, old, mkList (strict l) (Put (txs l) tx)
      (if costcap l <? Cost tx then Cost tx else costcap l)
      (if gascap l <? TxGasLimit tx then TxGasLimit tx else gascap l))
  else (false, None, l).

Definition list_Forward l (threshold : Z) : Result E (list Transaction * txList) :=
  '(removed, m) ← Forward (txs l) threshold; Ok (removed, set_txs l m).
Definition lowest_nonce (removed : list Transaction) : Z :=
  foldl (λ lowest tx, if AccountNonce tx <? lowest then AccountNonce tx else lowest) MaxUint64 removed.
Definition list_Filter l (costLimit gasLimit : Z) : list Transaction * list Transaction * txList :=
  if (costcap l <=? costLimit) && (gascap l <=? gasLimit) then ([], [], l) else
  let '(removed, m) := Filter (txs l) (λ tx, (costLimit <? Cost tx) || (gasLimit <? TxGasLimit tx)) in
  let '(invalids, m) :=
    if strict l && negb (bool_decide (removed = []))
    then Filter m (λ tx, lowest_nonce removed <? AccountNonce tx) else ([], m) in
  (removed, invalids, mkList (strict l) m costLimit gasLimit).
Definition list_Cap l (threshold : Z) : Result E (list Transaction * txList) :=
  '(drops, m) ← Cap (txs l) threshold; Ok (drops, set_txs l m).
Definition list_Remove l (tx : Transaction) : Result E (bool * list Transaction * txList) :=
  let nonce := AccountNonce tx in
  '(removed, m) ← sm_Remove (txs l) nonce;
  if negb removed then Ok (false, [], set_txs l m) else
  if strict l then let '(invalids, m) := Filter m (λ tx, nonce <? AccountNonce tx) in Ok (true, invalids, set_txs l m)
  else Ok (true, [], set_txs l m).
Definition list_Ready l (start : Z) : Result E (list Transaction * txList) :=
  '(ready, m) ← Ready (txs l) start; Ok (ready, set_txs l m).
Definition list_Len l : Z := Len (txs l).
Definition list_Empty l : bool := list_Len l =? 0.
Definition list_Flatten l : list Transaction * txList :=
  let '(flat, m) := Flatten (txs l) in (flat, set_txs l m).
End tx_list.

#[export] Instance nonce_less_order : WeakOrder nonce_less.
Proof. split; unfold nonce_less; intros; lia. Qed.

(** * Nonces in ascending order *)
Definition asc (items : gmap Z Transaction) (ks : list Z) : Prop :=
  StronglySorted Z.lt ks ∧ ∀ k, k ∈ ks ↔ is_Some (items !! k).
Definition sorted_keys (items : gmap Z Transaction) : list Z := merge_sort Z.le (map_to_list items).*1.
(** The transactions at some nonces. *)
Definition pick (items : gmap Z Transaction) (ks : list Z) : list Transaction := omap (λ k, items !! k) ks.
Definition sorted_txs (items : gmap Z Transaction) : list Transaction := pick items (sorted_keys items).

Lemma sorted_lt_NoDup ks : StronglySorted Z.lt ks → NoDup ks.
Proof.
  induction 1 as [|k ks Hs IH Hk]; constructor; [|done]. intros Hin. rewrite Forall_forall in Hk. specialize (Hk k Hin). lia.
Qed.
Lemma elem_of_keys (items : gmap Z Transaction) k : k ∈ (map_to_list items).*1 ↔ is_Some (items !! k).
Proof.
  rewrite list_elem_of_fmap. split.
  - intros ([k' tx] & -> & Hin). apply elem_of_map_to_list in Hin. by eexists.
  - intros [tx Htx]. exists (k, tx). split; [done|]. by apply elem_of_map_to_list.
Qed.
Lemma le_lt_sorted ks : NoDup ks → StronglySorted Z.le ks → StronglySorted Z.lt ks.
Proof.
  intros Hnd. induction 1 as [|k ks Hs IH Hk]; constructor; apply NoDup_cons in Hnd as [Hn Hnd]; [by apply IH|].
  rewrite Forall_forall in *. intros x Hx. specialize (Hk x Hx). assert (k ≠ x) by (by intros ->). lia.
Qed.
Lemma lt_le_sorted ks : StronglySorted Z.lt ks → StronglySorted Z.le ks.
Proof. induction 1; constructor; [done|]. eapply Forall_impl; [done|]. cbn. lia. Qed.
#[local] Instance Zle_total : Total Z.le.
Proof. intros x y. lia. Qed.
#[local] Instance Zle_trans : Transitive Z.le.
Proof. intros x y z. lia. Qed.
#[local] Instance Zle_antisymm : AntiSymm (=) Z.le.
Proof. intros x y. lia. Qed.
Lemma sorted_keys_asc items : asc items (sorted_keys items).
Proof.
  unfold sorted_keys. split.
  - apply le_lt_sorted; [|by apply StronglySorted_merge_sort; apply _]. rewrite merge_sort_Permutation. apply NoDup_fst_map_to_list.
  - intros k. by rewrite merge_sort_Permutation, elem_of_keys.
Qed.
Lemma asc_perm items ks : asc items ks → ks ≡ₚ (map_to_list items).*1.
Proof.
  intros [Hs Hin]. apply NoDup_Permutation; [by apply sorted_lt_NoDup|apply NoDup_fst_map_to_list|].
  intros k. by rewrite Hin, elem_of_keys.
Qed.
Lemma asc_unique items ks1 ks2 : asc items ks1 → asc items ks2 → ks1 = ks2.
Proof.
  intros H1 H2. apply (StronglySorted_unique Z.le); [apply lt_le_sorted, H1|apply lt_le_sorted, H2|].
  by rewrite (asc_perm _ _ H1), (asc_perm _ _ H2).
Qed.
Lemma asc_sorted_keys items ks : asc items ks → sorted_keys items = ks.
Proof. intros Hk. by apply (asc_unique items); [apply sorted_keys_asc|]. Qed.
Lemma asc_size items ks : asc items ks → length ks = size items.
Proof. intros Hk. rewrite (Permutation_length (asc_perm _ _ Hk)), length_fmap. by rewrite length_map_to_list. Qed.

Lemma asc_delete items k ks : asc items (k :: ks) → asc (delete k items) ks.
Proof.
  intros [Hs Hin]. apply StronglySorted_inv in Hs as [Hs Hk]. split; [done|]. intros j. split.
  - intros Hj. rewrite lookup_delete_ne; [by apply Hin; right|]. intros ->. rewrite Forall_forall in Hk. specialize (Hk _ Hj). lia.
  - intros Hj. destruct (decide (j = k)) as [->|Hne]; [by rewrite lookup_delete_eq in Hj; destruct Hj|].
    rewrite lookup_delete_ne in Hj by done. apply Hin in Hj. by apply elem_of_cons in Hj as [?|?].
Qed.
Lemma asc_sub items items' ks ks' : asc items ks → sublist ks' ks → (∀ k, k ∈ ks' ↔ is_Some (items' !! k)) → asc items' ks'.
Proof.
  intros [Hs _] Hsub Hin. split; [|done]. clear Hin. induction Hsub as [|k ks' ks Hsub IH|k ks' ks Hsub IH]; [done|..];
    apply StronglySorted_inv in Hs as [Hs Hk]; [|by apply IH]. constructor; [by apply IH|].
  rewrite Forall_forall in *. intros x Hx. apply Hk. by eapply elem_of_submseteq, sublist_submseteq.
Qed.
Lemma asc_head items k ks tx : asc items (k :: ks) → items !! k = Some tx ∨ items !! k = None → items !! k = Some tx.
Proof. intros [_ Hin] [?|Hn]; [done|]. destruct (proj1 (Hin k)) as [? ?]; [by left|congruence]. Qed.

(** The order of the entries of a map. *)
Lemma pick_keys items (l : list (Z * Transaction)) : (∀ k tx, (k, tx) ∈ l → items !! k = Some tx) → pick items l.*1 = l.*2.
Proof.
  induction l as [|[k tx] l IH]; intros Hl; [done|]. cbn. rewrite (Hl k tx) by by left. cbn. f_equal. apply IH.
  intros; apply Hl. by right.
Qed.
Lemma pick_perm items ks ks' : ks ≡ₚ ks' → pick items ks ≡ₚ pick items ks'.
Proof. unfold pick. by intros ->. Qed.
Lemma pick_app items ks ks' : pick items (ks ++ ks') = pick items ks ++ pick items ks'.
Proof. apply omap_app. Qed.
Lemma pick_length items ks : (∀ k, k ∈ ks → is_Some (items !! k)) → length (pick items ks) = length ks.
Proof.
  unfold pick. induction ks as [|k ks IH]; intros Hk; [done|]. cbn. destruct (Hk k) as [tx ->]; [by left|]. cbn.
  rewrite IH; [done|]. intros; apply Hk. by right.
Qed.
Lemma pick_ext items items' ks : (∀ k, k ∈ ks → items !! k = items' !! k) → pick items ks = pick items' ks.
Proof.
  unfold pick. induction ks as [|k ks IH]; intros Hk; [done|]. cbn. rewrite (Hk k) by by left.
  rewrite IH; [done|]. intros; apply Hk. by right.
Qed.
Lemma elem_of_pick items ks tx : tx ∈ pick items ks ↔ ∃ k, k ∈ ks ∧ items !! k = Some tx.
Proof. apply list_elem_of_omap. Qed.

(** * The invariant *)
Definition keyed (items : gmap Z Transaction) : Prop := ∀ n tx, items !! n = Some tx → AccountNonce tx = n ∧ is_u64 n.
Record sm_ok (m : txSortedMap) : Prop := {
  so_heap : heap nonce_less (smIndex m);
  so_index : smIndex m ≡ₚ sorted_keys (smItems m);
  so_keyed : keyed (smItems m);
  so_cache c : smCache m = Some c → c = sorted_txs (smItems m)
}.

Lemma keyed_sub items items' : keyed items → items' ⊆ items → keyed items'.
Proof. intros Hk Hsub n tx Hn. apply Hk. by eapply lookup_weaken. Qed.

Lemma sorted_txs_perm items : sorted_txs items ≡ₚ (map_to_list items).*2.
Proof.
  unfold sorted_txs. rewrite (pick_perm _ _ _ (asc_perm _ _ (sorted_keys_asc items))), pick_keys; [done|].
  intros k tx Hin. by apply elem_of_map_to_list.
Qed.
#[local] Instance by_nonce_total : Total by_nonce.
Proof. intros x y. unfold by_nonce. lia. Qed.
#[local] Instance by_nonce_trans : Transitive by_nonce.
Proof. intros x y z. unfold by_nonce. lia. Qed.
Lemma sorted_txs_sorted items : keyed items → StronglySorted by_nonce (sorted_txs items).
Proof.
  intros Hk. unfold sorted_txs. destruct (sorted_keys_asc items) as [Hs _].
  induction Hs as [|k ks Hs IH Hlt]; [constructor|]. cbn. destruct (items !! k) as [tx|] eqn:Htx; [|done]. constructor; [done|].
  apply Forall_forall. intros tx' (k' & Hin & Htx')%elem_of_pick. rewrite Forall_forall in Hlt. specialize (Hlt _ Hin).
  destruct (Hk _ _ Htx), (Hk _ _ Htx'). unfold by_nonce. lia.
Qed.
Lemma TxByNonce_sorted items l : keyed items → l ≡ₚ (map_to_list items).*2 → TxByNonce l = sorted_txs items.
Proof.
  intros Hk Hl. assert (l ≡ₚ sorted_txs items) as Hp by by rewrite sorted_txs_perm.
  apply (StronglySorted_unique_strong by_nonce).
  - intros x1 x2 H1 H2. unfold by_nonce. intros H12 H21. unfold TxByNonce in H1. rewrite merge_sort_Permutation, Hp in H1.
    apply elem_of_pick in H1 as (k1 & _ & H1), H2 as (k2 & _ & H2).
    destruct (Hk _ _ H1), (Hk _ _ H2). assert (k1 = k2) as -> by lia. congruence.
  - apply StronglySorted_merge_sort; apply _.
  - by apply sorted_txs_sorted.
  - unfold TxByNonce. by rewrite merge_sort_Permutation.
Qed.

Lemma pop_sorted {E} index k ks : heap nonce_less index → index ≡ₚ k :: ks → StronglySorted Z.lt (k :: ks) →
  head index = Some k ∧ ∃ index', Pop nonce_less (E := E) index = Ok (k, index') ∧ heap nonce_less index' ∧ index' ≡ₚ ks.
Proof.
  intros Hh Hp Hs. destruct index as [|x index]; [by apply Permutation_nil_l in Hp|].
  assert (x = k) as ->.
  { apply StronglySorted_inv in Hs as [_ Hs]. rewrite Forall_forall in Hs.
    assert (nonce_less k x = false) as Hk by (apply (heap_head nonce_less _ x Hh); [done|rewrite Hp; by left]).
    assert (x ∈ k :: ks) as [->|Hx]%elem_of_cons by (rewrite <- Hp; by left); [done|].
    specialize (Hs x Hx). unfold nonce_less in Hk. lia. }
  split; [done|]. destruct (Pop_ok nonce_less (E := E) (k :: index) k Hh eq_refl) as (index' & Hrun & Hp' & Hh').
  exists index'. split_and!; [done|done|]. apply (Permutation_cons_inv (a := k)). by rewrite <- Hp', Hp.
Qed.

(** * Operations *)
Section operations.
Context `{MapRange} {E : Type}.
Implicit Types m : txSortedMap.

Lemma sm_ok_empty : sm_ok newTxSortedMap.
Proof.
  split; cbn; [by intros k Hk; cbn in Hk; lia| |by intros n tx; rewrite lookup_empty|done].
  unfold sorted_keys. by rewrite map_to_list_empty.
Qed.
Lemma sorted_keys_perm items l : l ≡ₚ (map_to_list items).*1 → l ≡ₚ sorted_keys items.
Proof. intros ->. symmetry. apply asc_perm, sorted_keys_asc. Qed.

Lemma Put_ok m tx : sm_ok m → is_u64 (AccountNonce tx) →
  sm_ok (Put m tx) ∧ smItems (Put m tx) = <[AccountNonce tx := tx]> (smItems m).
Proof.
  intros [Hh Hi Hk Hc] Hu. split; [|done]. split; cbn.
  - destruct (smItems m !! _); [done|]. apply (Push_ok nonce_less _ _ Hh).
  - apply sorted_keys_perm. destruct (smItems m !! AccountNonce tx) as [old|] eqn:Hold.
    + rewrite Hi, (asc_perm _ _ (sorted_keys_asc (smItems m))). apply NoDup_Permutation; [apply NoDup_fst_map_to_list..|].
      intros k. rewrite !elem_of_keys. destruct (decide (k = AccountNonce tx)) as [->|Hne]; [by rewrite lookup_insert_eq, Hold|].
      by rewrite lookup_insert_ne.
    + destruct (Push_ok nonce_less (smIndex m) (AccountNonce tx) Hh) as [_ ->].
      by rewrite map_to_list_insert, Hi, (asc_perm _ _ (sorted_keys_asc (smItems m))).
  - intros n tx'. destruct (decide (n = AccountNonce tx)) as [->|Hne]; [rewrite lookup_insert_eq; by intros [= <-]|].
    rewrite lookup_insert_ne by done. apply Hk.
  - done.
Qed.

Lemma indexed_ok items ks k : asc items ks → k ∈ ks → ∃ tx, indexed (E := E) items k = Ok tx ∧ items !! k = Some tx.
Proof. intros [_ Hin] Hk. destruct (proj1 (Hin k) Hk) as [tx Htx]. exists tx. unfold indexed. by rewrite Htx. Qed.

(** What [Forward] keeps. *)
Definition from (threshold : Z) (items : gmap Z Transaction) : gmap Z Transaction := filter (λ kv, threshold ≤ kv.1) items.
Lemma asc_from threshold items ks : asc items ks → asc (from threshold items) (filter (λ k, threshold ≤ k) ks).
Proof.
  intros Hk. apply (asc_sub items _ ks); [done|apply sublist_filter|]. intros k. unfold from. rewrite list_elem_of_filter, (proj2 Hk). split.
  - intros [Ht [tx Htx]]. exists tx. by apply map_lookup_filter_Some.
  - intros [tx Htx]. apply map_lookup_filter_Some in Htx as [Htx Ht]. by split; [|eexists].
Qed.
Lemma filter_sorted_none (threshold : Z) ks : Forall (λ k, threshold ≤ k) ks →
  filter (λ k, k < threshold) ks = [] ∧ filter (λ k, threshold ≤ k) ks = ks.
Proof. induction 1 as [|k ks Hk _ [IH1 IH2]]; [done|]. rewrite !filter_cons, decide_False, decide_True by lia. by rewrite IH1, IH2. Qed.

Lemma forward_loop_ok fuel threshold ks items index removed :
  heap nonce_less index → index ≡ₚ ks → asc items ks → (length ks < fuel)%nat →
  ∃ index', forward_loop (E := E) fuel threshold items index removed =
    Ok (from threshold items, index', removed ++ pick items (filter (λ k, k < threshold) ks)) ∧
    heap nonce_less index' ∧ index' ≡ₚ filter (λ k, threshold ≤ k) ks.
Proof.
  revert fuel items index removed. induction ks as [|k ks IH]; intros fuel items index removed Hh Hp Hks Hfuel.
  { apply Permutation_nil_r in Hp as ->. exists []. destruct fuel; [lia|]. cbn. rewrite app_nil_r. split_and!; [|done|done].
    assert (from threshold items = items) as ->; [|done]. apply map_filter_id. intros j tx Hj.
    assert (j ∈ []) as Hin by (apply (proj2 Hks); by eexists). by inversion Hin. }
  destruct fuel as [|fuel]; [cbn in Hfuel; lia|].
  destruct (pop_sorted (E := E) index k ks Hh Hp (proj1 Hks)) as (Hhd & index1 & Hpop & Hh1 & Hp1).
  destruct index as [|first index]; [done|]. cbn in Hhd. injection Hhd as ->. cbn [forward_loop].
  destruct (Z.ltb_spec k threshold) as [Hlt|Hge]; cbn [negb].
  - rewrite Hpop. cbn [mbind result_bind]. destruct (indexed_ok items (k :: ks) k Hks) as (tx & -> & Htx); [by left|].
    cbn [mbind result_bind].
    destruct (IH fuel (delete k items) index1 (removed ++ [tx])) as (index' & -> & Hh' & Hp');
      [done|done|by apply asc_delete|cbn in Hfuel; lia|].
    rewrite !filter_cons, decide_True, decide_False by lia.
    exists index'. split_and!; [|done|done].
    assert (from threshold (delete k items) = from threshold items) as ->.
    { unfold from. rewrite map_filter_delete_not; [done|]. intros tx' _. cbn. lia. }
    assert ((removed ++ [tx]) ++ pick (delete k items) (filter (λ k, k < threshold) ks) =
      removed ++ pick items (k :: filter (λ k, k < threshold) ks)) as ->; [|done].
    rewrite <- app_assoc. f_equal. cbn. rewrite Htx. cbn. f_equal. apply pick_ext. intros j [_ Hj]%list_elem_of_filter.
    rewrite lookup_delete_ne; [done|]. intros ->. destruct Hks as [Hs _]. apply sorted_lt_NoDup, NoDup_cons in Hs as [Hs _]. done.
  - assert (Forall (λ k, threshold ≤ k) (k :: ks)) as Hall.
    { constructor; [done|]. destruct Hks as [Hs _]. apply StronglySorted_inv in Hs as [_ Hs].
      eapply Forall_impl; [exact Hs|]. cbn. lia. }
    destruct (filter_sorted_none threshold (k :: ks) Hall) as [-> ->]. exists (k :: index). rewrite app_nil_r.
    assert (from threshold items = items) as ->; [|done]. apply map_filter_id. intros j tx Hj.
    rewrite Forall_forall in Hall. apply Hall. apply (proj2 Hks). by eexists.
Qed.

(** A prefix of the sorted transactions goes, the rest stays sorted. *)
Lemma filter_split (threshold : Z) ks : StronglySorted Z.lt ks →
  ks = filter (λ k, k < threshold) ks ++ filter (λ k, threshold ≤ k) ks.
Proof.
  induction 1 as [|k ks Hs IH Hk]; [done|]. rewrite !filter_cons. destruct (decide (k < threshold)) as [Hlt|Hge].
  - rewrite decide_False by lia. cbn. by f_equal.
  - rewrite decide_True by lia. destruct (filter_sorted_none threshold ks) as [-> ->]; [|done].
    eapply Forall_impl; [exact Hk|]. cbn. lia.
Qed.
Lemma from_sub threshold items : from threshold items ⊆ items.
Proof. apply map_filter_subseteq. Qed.

Lemma Forward_ok m threshold : sm_ok m →
  ∃ m', Forward (E := E) m threshold = Ok (pick (smItems m) (filter (λ k, k < threshold) (sorted_keys (smItems m))), m') ∧
    sm_ok m' ∧ smItems m' = from threshold (smItems m).
Proof.
  intros [Hh Hi Hk Hc]. unfold Forward. pose proof (sorted_keys_asc (smItems m)) as Hks.
  destruct (forward_loop_ok (S (length (smIndex m))) threshold _ _ _ [] Hh Hi Hks) as (index' & -> & Hh' & Hp');
    [rewrite (Permutation_length Hi); lia|]. cbn [mbind result_bind app].
  pose proof (asc_sorted_keys _ _ (asc_from threshold _ _ Hks)) as Hks'.
  assert (sm_ok (mkSorted (from threshold (smItems m)) index' None)) as Hok.
  { split; cbn; [done|by rewrite Hks'|by eapply keyed_sub, from_sub|done]. }
  destruct (smCache m) as [c|] eqn:Hcache; [|by eexists].
  set (lo := pick (smItems m) (filter (λ k, k < threshold) (sorted_keys (smItems m)))) in *.
  set (hi := pick (smItems m) (filter (λ k, threshold ≤ k) (sorted_keys (smItems m)))).
  assert (c = lo ++ hi) as ->.
  { rewrite (Hc c eq_refl). unfold sorted_txs. rewrite (filter_split threshold _ (proj1 Hks)) at 1. apply pick_app. }
  rewrite bool_decide_false by (rewrite length_app; lia). eexists. split; [done|]. split; [|done].
  destruct Hok as [Ha Hb Hd _]. split; cbn in *; [done..|]. intros c [= <-]. unfold sorted_txs.
  rewrite drop_app_length, Hks'. apply pick_ext.
  intros j [Hj _]%list_elem_of_filter. unfold from. destruct (smItems m !! j) as [tx|] eqn:Htx.
  - symmetry. by apply map_lookup_filter_Some.
  - symmetry. apply map_lookup_filter_None. by left.
Qed.

(** What is left without some nonces. *)
Definition without (ks : list Z) (items : gmap Z Transaction) : gmap Z Transaction := filter (λ kv, kv.1 ∉ ks) items.
Lemma without_lookup ks items k : without ks items !! k = if decide (k ∈ ks) then None else items !! k.
Proof.
  unfold without. case_decide as Hk.
  - apply map_lookup_filter_None. right. intros tx _. by intros [].
  - destruct (items !! k) as [tx|] eqn:Htx; [by apply map_lookup_filter_Some|]. apply map_lookup_filter_None. by left.
Qed.
Lemma without_nil items : without [] items = items.
Proof. apply map_eq. intros k. rewrite without_lookup. case_decide as Hk; [by inversion Hk|done]. Qed.
Lemma without_delete k ks items : without ks (delete k items) = without (k :: ks) items.
Proof.
  apply map_eq. intros j. rewrite !without_lookup. destruct (decide (j = k)) as [->|Hne].
  - rewrite lookup_delete_eq. case_decide; (rewrite decide_True; [done|by left]).
  - rewrite lookup_delete_ne by done.
    assert (j ∈ k :: ks ↔ j ∈ ks) as Hiff by (rewrite elem_of_cons; naive_solver). by rewrite (decide_ext _ _ _ _ Hiff).
Qed.
Lemma asc_without items ks gone rest : asc items ks → sublist rest ks → (∀ k, k ∈ ks → k ∈ rest ↔ k ∉ gone) →
  asc (without gone items) rest.
Proof.
  intros Hks Hsub Hiff. apply (asc_sub items _ ks); [done|done|]. intros k. rewrite without_lookup. split.
  - intros Hk. assert (k ∈ ks) as Hin by by eapply elem_of_submseteq, sublist_submseteq.
    rewrite decide_False by by apply Hiff. by apply (proj2 Hks).
  - case_decide as Hg; [by intros []|]. intros Hin%(proj2 Hks). by apply Hiff.
Qed.
Lemma pick_without items gone ks : (∀ k, k ∈ ks → k ∉ gone) → pick (without gone items) ks = pick items ks.
Proof. intros Hk. apply pick_ext. intros k Hin. rewrite without_lookup, decide_False; [done|by apply Hk]. Qed.
Lemma without_sub gone items : without gone items ⊆ items.
Proof. apply map_filter_subseteq. Qed.

(** The nonces that follow each other from [next]. *)
Fixpoint run_of (next : Z) (ks : list Z) : list Z :=
  match ks with
  | k :: ks => if k =? next then k :: run_of (next + 1)%u64 ks else []
  | [] => []
  end.
Lemma run_of_prefix next ks : run_of next ks ++ drop (length (run_of next ks)) ks = ks.
Proof. revert next. induction ks as [|k ks IH]; intros next; [done|]. cbn. destruct (k =? next); cbn; [by rewrite IH|done]. Qed.

Lemma ready_loop_ok fuel next ks items index ready :
  heap nonce_less index → index ≡ₚ ks → asc items ks → (length ks < fuel)%nat →
  ∃ index', ready_loop (E := E) fuel next items index ready =
    Ok (without (run_of next ks) items, index', ready ++ pick items (run_of next ks)) ∧
    heap nonce_less index' ∧ index' ≡ₚ drop (length (run_of next ks)) ks.
Proof.
  revert fuel next items index ready. induction ks as [|k ks IH]; intros fuel next items index ready Hh Hp Hks Hfuel.
  { apply Permutation_nil_r in Hp as ->. exists []. destruct fuel; [lia|]. cbn. by rewrite without_nil, app_nil_r. }
  destruct fuel as [|fuel]; [cbn in Hfuel; lia|].
  destruct (pop_sorted (E := E) index k ks Hh Hp (proj1 Hks)) as (Hhd & index1 & Hpop & Hh1 & Hp1).
  destruct index as [|first index]; [done|]. cbn in Hhd. injection Hhd as ->. cbn [ready_loop run_of].
  destruct (Z.eqb_spec k next) as [->|Hne]; cbn [negb].
  - destruct (indexed_ok items (next :: ks) next Hks) as (tx & -> & Htx); [by left|].
    cbn [mbind result_bind]. rewrite Hpop. cbn [mbind result_bind].
    destruct (IH fuel (next + 1)%u64 (delete next items) index1 (ready ++ [tx])) as (index' & -> & Hh' & Hp');
      [done|done|by apply asc_delete|cbn in Hfuel; lia|].
    exists index'. split_and!; [|done|done]. rewrite without_delete.
    assert ((ready ++ [tx]) ++ pick (delete next items) (run_of (next + 1)%u64 ks) =
      ready ++ pick items (next :: run_of (next + 1)%u64 ks)) as ->; [|done].
    rewrite <- app_assoc. f_equal. cbn. rewrite Htx. cbn. f_equal. apply pick_ext. intros j Hj.
    rewrite lookup_delete_ne; [done|]. intros ->. destruct Hks as [Hs _]. apply sorted_lt_NoDup, NoDup_cons in Hs as [Hs _].
    apply Hs. rewrite <- (run_of_prefix (j + 1)%u64 ks). apply elem_of_app. by left.
  - exists (k :: index). by rewrite without_nil, app_nil_r.
Qed.

(** A prefix and the rest of the nonces are disjoint. *)
Lemma sorted_app_disjoint ks1 ks2 : StronglySorted Z.lt (ks1 ++ ks2) → ∀ k, k ∈ ks1 → k ∉ ks2.
Proof. intros Hs%sorted_lt_NoDup%NoDup_app k. apply Hs. Qed.

Lemma Ready_ok m start : sm_ok m →
  let ks := sorted_keys (smItems m) in
  let run := if head ks is Some first then if start <? first then [] else run_of first ks else [] in
  ∃ m', Ready (E := E) m start = Ok (pick (smItems m) run, m') ∧ sm_ok m' ∧ smItems m' = without run (smItems m).
Proof.
  intros [Hh Hi Hk Hc] ks. pose proof (sorted_keys_asc (smItems m)) as Hks. fold ks in Hks, Hi. unfold Ready.
  destruct ks as [|k ks'] eqn:Heq.
  { apply Permutation_nil_r in Hi as Hnil. rewrite Hnil. cbn. exists m. rewrite without_nil. split_and!; [done| |done].
    split; [done|by rewrite Hnil; fold ks; rewrite Heq|done|done]. }
  destruct (pop_sorted (E := E) _ k ks' Hh Hi (proj1 Hks)) as (Hhd & _).
  destruct (smIndex m) as [|first index] eqn:Hindex; [done|]. cbn in Hhd. injection Hhd as ->. cbn [head].
  assert (sm_ok m) as Hok by (split; rewrite ?Hindex; [done|by fold ks; rewrite Heq|done|done]).
  destruct (start <? k); [exists m; by rewrite without_nil|].
  destruct (ready_loop_ok (S (length (k :: index))) k (k :: ks') (smItems m) (k :: index) []) as (index' & -> & Hh' & Hp');
    [done|done|done|rewrite (Permutation_length Hi); lia|].
  cbn [mbind result_bind app]. eexists. split; [done|]. split; [|done]. split; cbn [smItems smIndex smCache]; [done| |by eapply keyed_sub, without_sub|done].
  rewrite Hp'. rewrite (asc_sorted_keys _ (drop (length (run_of k (k :: ks'))) (k :: ks'))); [done|].
  apply (asc_without _ (k :: ks')); [done|apply sublist_drop|]. intros j Hj.
  rewrite <- (run_of_prefix k (k :: ks')) in Hj. pose proof (proj1 Hks) as Hs. rewrite <- (run_of_prefix k (k :: ks')) in Hs.
  split; [intros H1 H2; by eapply sorted_app_disjoint|]. intros Hn. by apply elem_of_app in Hj as [?|?].
Qed.

Lemma Flatten_ok m : sm_ok m →
  (Flatten m).1 = sorted_txs (smItems m) ∧ sm_ok (Flatten m).2 ∧ smItems (Flatten m).2 = smItems m.
Proof.
  intros [Hh Hi Hk Hc]. unfold Flatten. cbn [fst snd].
  assert ((match smCache m with Some c => c | None => TxByNonce (snd <$> map_range (smItems m)) end) = sorted_txs (smItems m)) as Heq.
  { destruct (smCache m) as [c|]; [by apply Hc|]. apply TxByNonce_sorted; [done|]. by rewrite map_range_perm. }
  split; [done|]. split; [|done]. split; cbn; [done..|]. by intros c [= <-].
Qed.

Lemma Filter_ok m f : sm_ok m →
  (Filter m f).1 ≡ₚ filter (λ tx, f tx = true) (sorted_txs (smItems m)) ∧ sm_ok (Filter m f).2 ∧
  smItems (Filter m f).2 = filter (λ kv, f kv.2 = false) (smItems m).
Proof.
  intros [Hh Hi Hk Hc]. unfold Filter.
  assert (filter (λ tx, f tx = true) (snd <$> map_range (smItems m)) ≡ₚ filter (λ tx, f tx = true) (sorted_txs (smItems m))) as Hp
    by by rewrite map_range_perm, sorted_txs_perm.
  destruct (filter _ (snd <$> map_range (smItems m))) as [|tx removed] eqn:Hremoved; cbn [fst snd].
  - split; [done|]. assert (filter (λ kv : Z * Transaction, f kv.2 = false) (smItems m) = smItems m) as Hsame.
    { apply map_filter_id. intros k tx Htx. cbn. destruct (f tx) eqn:Hf; [|done].
      assert (tx ∈ filter (λ tx, f tx = true) (sorted_txs (smItems m))) as Hin; [|rewrite <- Hp in Hin; by inversion Hin].
      apply list_elem_of_filter. split; [done|]. rewrite sorted_txs_perm. apply list_elem_of_fmap. exists (k, tx). split; [done|].
      by apply elem_of_map_to_list. }
    rewrite Hsame. by split.
  - split; [done|]. split; [|done]. destruct (Init_ok nonce_less (fst <$> map_range (filter (λ kv, f kv.2 = false) (smItems m)))) as [Hh' Hp'].
    split; cbn [smItems smIndex smCache]; [done| |eapply keyed_sub; [done|apply map_filter_subseteq]|done].
    rewrite Hp', map_range_perm. by apply sorted_keys_perm.
Qed.

(** A sorted list of nonces is its own sorted form. *)
Lemma sort_nonces_sorted index ks : index ≡ₚ ks → StronglySorted Z.lt ks → sort_nonces index = ks.
Proof.
  intros Hp Hs. unfold sort_nonces. apply (StronglySorted_unique Z.le); [|by apply lt_le_sorted|by rewrite merge_sort_Permutation].
  apply StronglySorted_merge_sort; apply _.
Qed.

Lemma cap_loop_ok (t sz : nat) ks items0 drops : asc items0 ks → (t ≤ sz ≤ length ks)%nat →
  cap_loop (E := E) sz (Z.of_nat t) ks (without (drop sz ks) items0) drops =
    Ok (without (drop t ks) items0, drops ++ pick items0 (reverse (drop t (take sz ks)))).
Proof.
  intros Hks. revert drops. induction sz as [|sz IH]; intros drops Hsz; cbn [cap_loop].
  - replace t with O by lia. cbn. by rewrite app_nil_r.
  - destruct (Z.leb_spec (Z.of_nat (S sz)) (Z.of_nat t)) as [Hle|Hgt].
    + replace t with (S sz) by lia. 
      assert (drop (S sz) (take (S sz) ks) = []) as -> by (apply drop_ge; rewrite length_take; lia). cbn. by rewrite app_nil_r.
    + destruct (lookup_lt_is_Some_2 ks sz) as [k Hk]; [lia|]. rewrite Hk.
      assert (k ∈ ks) as Hin by by eapply list_elem_of_lookup_2.
      pose proof (sorted_lt_NoDup _ (proj1 Hks)) as Hnd.
      rewrite <- (take_drop_middle ks sz k Hk) in Hnd.
      assert (k ∉ drop (S sz) ks) as Hnotin.
      { apply NoDup_app in Hnd as (_ & _ & Hnd). by apply NoDup_cons in Hnd as [? _]. }
      destruct (indexed_ok items0 ks k Hks Hin) as (tx & _ & Htx).
      unfold indexed. rewrite without_lookup, decide_False, Htx by done. cbn [mbind result_bind].
      assert (delete k (without (drop (S sz) ks) items0) = without (drop sz ks) items0) as ->.
      { apply map_eq. intros j. rewrite (drop_S ks k sz Hk), <- without_delete, without_lookup.
        destruct (decide (j = k)) as [->|Hne]; [rewrite !lookup_delete_eq; by case_decide|].
        rewrite !lookup_delete_ne by done. by rewrite without_lookup. }
      rewrite IH by lia. do 2 f_equal. rewrite <- app_assoc. f_equal.
      rewrite (take_S_r ks sz k Hk), drop_app_le by (rewrite length_take; lia). rewrite reverse_app. cbn. by rewrite Htx.
Qed.

Lemma Cap_ok m (threshold : Z) : sm_ok m → 0 ≤ threshold →
  let ks := sorted_keys (smItems m) in let gone := drop (Z.to_nat threshold) ks in
  ∃ m', Cap (E := E) m threshold = Ok (pick (smItems m) (reverse gone), m') ∧ sm_ok m' ∧ smItems m' = without gone (smItems m).
Proof.
  intros [Hh Hi Hk Hc] Ht ks gone. pose proof (sorted_keys_asc (smItems m)) as Hks. fold ks in Hks, Hi.
  assert (length ks = size (smItems m)) as Hlen by by apply asc_size.
  unfold Cap. destruct (Z.leb_spec (Z.of_nat (size (smItems m))) threshold) as [Hle|Hgt].
  { assert (gone = []) as -> by (unfold gone; apply drop_ge; lia). exists m. rewrite without_nil. by split_and!. }
  rewrite (sort_nonces_sorted _ ks Hi (proj1 Hks)), <- Hlen.
  assert (cap_loop (E := E) (length ks) threshold ks (smItems m) [] =
    Ok (without gone (smItems m), pick (smItems m) (reverse gone))) as ->.
  { pose proof (cap_loop_ok (Z.to_nat threshold) (length ks) ks (smItems m) [] Hks ltac:(lia)) as Hrun.
    rewrite drop_all, without_nil, firstn_all, Z2Nat.id in Hrun by done. exact Hrun. }
  cbn [mbind result_bind].
  assert (asc (without gone (smItems m)) (take (Z.to_nat threshold) ks)) as Hks'.
  { pose proof (proj1 Hks) as Hs. rewrite <- (take_drop (Z.to_nat threshold) ks) in Hs.
    apply (asc_without _ ks); [done|apply sublist_take|]. intros k Hin. split.
    - intros H1 H2. by eapply sorted_app_disjoint.
    - intros Hn. rewrite <- (take_drop (Z.to_nat threshold) ks) in Hin. by apply elem_of_app in Hin as [?|?]. }
  destruct (Init_ok nonce_less (take (Z.to_nat threshold) ks)) as [Hh' Hp'].
  assert (sm_ok (mkSorted (without gone (smItems m)) (Init nonce_less (take (Z.to_nat threshold) ks)) None)) as Hok.
  { split; cbn; [done|by rewrite Hp', (asc_sorted_keys _ _ Hks')|by eapply keyed_sub, without_sub|done]. }
  destruct (smCache m) as [c|] eqn:Hcache; [|by eexists]. rewrite (Hc c eq_refl).
  assert (∀ k, k ∈ gone → is_Some (smItems m !! k)) as Hgone.
  { intros k Hin. apply (proj2 Hks). eapply elem_of_submseteq; [exact Hin|]. apply sublist_submseteq, sublist_drop. }
  assert (length (pick (smItems m) (reverse gone)) = length gone) as Hgl.
  { rewrite pick_length, length_reverse; [done|]. intros k Hin. apply Hgone. by apply elem_of_reverse. }
  assert (sorted_txs (smItems m) = pick (smItems m) (take (Z.to_nat threshold) ks) ++ pick (smItems m) gone) as Hsplit.
  { unfold sorted_txs. fold ks. unfold gone. rewrite <- pick_app. by rewrite take_drop. }
  assert (length (pick (smItems m) gone) = length gone) as Hgl'.
  { by apply pick_length. }
  rewrite bool_decide_false by (rewrite Hgl, Hsplit, length_app; lia). eexists. split; [done|]. split; [|done].
  destruct Hok as [Ha Hb Hd _]. split; cbn in *; [done..|]. intros c' [= <-].
  rewrite Hsplit, Hgl, length_app, Hgl', Nat.add_sub, take_app_length. unfold sorted_txs. rewrite (asc_sorted_keys _ _ Hks').
  symmetry. apply pick_without. intros k H1. pose proof (proj1 Hks) as Hs. rewrite <- (take_drop (Z.to_nat threshold) ks) in Hs.
  by eapply sorted_app_disjoint.
Qed.

Lemma sm_Remove_ok m nonce : sm_ok m →
  ∃ m', sm_Remove (E := E) m nonce = Ok (bool_decide (is_Some (smItems m !! nonce)), m') ∧ sm_ok m' ∧
    smItems m' = delete nonce (smItems m).
Proof.
  intros Hok. pose proof Hok as [Hh Hi Hk Hc]. unfold sm_Remove. destruct (smItems m !! nonce) as [tx|] eqn:Htx.
  2: { exists m. rewrite bool_decide_false by by intros []. split_and!; [done|done|]. by rewrite delete_id. }
  rewrite bool_decide_true by by eexists. pose proof (sorted_keys_asc (smItems m)) as Hks.
  assert (nonce ∈ smIndex m) as Hin by (rewrite Hi; apply (proj2 Hks); by eexists).
  assert (∃ i, index_of nonce (smIndex m) = Some i ∧ smIndex m !! i = Some nonce) as (i & Hfind & Hat).
  { unfold index_of. destruct (list_find (λ n, n = nonce) (smIndex m)) as [[i n]|] eqn:Hf.
    - apply list_find_Some in Hf as (Hat & -> & _). by exists i.
    - apply list_find_None in Hf. rewrite Forall_forall in Hf. by destruct (Hf nonce Hin). }
  rewrite Hfind. destruct (Remove_ok nonce_less (E := E) _ i nonce Hh Hat) as (index' & -> & Hp & Hh').
  cbn [mbind result_bind]. eexists. split; [done|]. split; [|done]. split; cbn; [done| |eapply keyed_sub; [done|apply delete_subseteq]|done].
  apply sorted_keys_perm. apply (Permutation_cons_inv (a := nonce)). rewrite <- Hp, Hi, (asc_perm _ _ Hks).
  rewrite <- (insert_delete_id (smItems m) nonce tx Htx) at 1. rewrite map_to_list_insert by apply lookup_delete_eq. done.
Qed.
End operations.
