(* ===== verification/TxListRuns.v ===== *)
(** What transaction lists promise: runs of operations on the nonce-sorted map
    compared with a plain map, filtering in spite of the cached caps, and
    gapless lists of executable transactions. *)
From S2P Require Import Prelude Types Heap TxList.

Section runs.
Context `{MapRange} {E : Type}.

(** * The nonce-sorted map against a plain map *)
Inductive sm_op :=
  | OpGet (nonce : Z) | OpPut (tx : Transaction) | OpForward (threshold : Z) | OpFilter (f : Transaction → bool)
  | OpCap (threshold : Z) | OpRemove (nonce : Z) | OpReady (start : Z) | OpLen | OpFlatten.
Inductive sm_answer := ATx (tx : option Transaction) | ATxs (l : list Transaction) | AFound (b : bool) | ALen (n : Z) | ADone.
Definition op_ok (o : sm_op) : Prop :=
  match o with OpPut tx => is_u64 (AccountNonce tx) | OpCap t => 0 ≤ t | _ => True end.

Definition sm_step (m : txSortedMap) (o : sm_op) : Result E (sm_answer * txSortedMap) :=
  match o with
  | OpGet n => Ok (ATx (Get m n), m)
  | OpPut tx => Ok (ADone, Put m tx)
  | OpForward t => '(l, m) ← Forward m t; Ok (ATxs l, m)
  | OpFilter f => let '(l, m) := Filter m f in Ok (ATxs l, m)
  | OpCap t => '(l, m) ← Cap m t; Ok (ATxs l, m)
  | OpRemove n => '(b, m) ← sm_Remove m n; Ok (AFound b, m)
  | OpReady s => '(l, m) ← Ready m s; Ok (ATxs l, m)
  | OpLen => Ok (ALen (Len m), m)
  | OpFlatten => let '(l, m) := Flatten m in Ok (ATxs l, m)
  end.
(** The same on a map, in nonce order: below the threshold, satisfying the
    filter, above the limit (the highest first), the run from the first nonce. *)
Definition spec_step (items : gmap Z Transaction) (o : sm_op) : sm_answer * gmap Z Transaction :=
  let ks := sorted_keys items in
  match o with
  | OpGet n => (ATx (items !! n), items)
  | OpPut tx => (ADone, <[AccountNonce tx := tx]> items)
  | OpForward t => (ATxs (pick items (filter (λ k, k < t) ks)), filter (λ kv, t ≤ kv.1) items)
  | OpFilter f => (ATxs (filter (λ tx, f tx = true) (sorted_txs items)), filter (λ kv, f kv.2 = false) items)
  | OpCap t => let gone := drop (Z.to_nat t) ks in (ATxs (pick items (reverse gone)), without gone items)
  | OpRemove n => (AFound (bool_decide (is_Some (items !! n))), delete n items)
  | OpReady s =>
      let run := if head ks is Some first then if s <? first then [] else run_of first ks else [] in
      (ATxs (pick items run), without run items)
  | OpLen => (ALen (Z.of_nat (size items)), items)
  | OpFlatten => (ATxs (sorted_txs items), items)
  end.
(** What a filter returns comes in the order of the map. *)
Definition agree (o : sm_op) (a b : sm_answer) : Prop :=
  match o, a, b with OpFilter _, ATxs l, ATxs l' => l ≡ₚ l' | OpFilter _, _, _ => False | _, _, _ => a = b end.

Fixpoint sm_run (m : txSortedMap) (ops : list sm_op) : Result E (list sm_answer * txSortedMap) :=
  match ops with
  | [] => Ok ([], m)
  | o :: ops => '(a, m) ← sm_step m o; '(l, m) ← sm_run m ops; Ok (a :: l, m)
  end.
Fixpoint spec_run (items : gmap Z Transaction) (ops : list sm_op) : list sm_answer * gmap Z Transaction :=
  match ops with
  | [] => ([], items)
  | o :: ops => let '(a, items) := spec_step items o in let '(l, items) := spec_run items ops in (a :: l, items)
  end.
Fixpoint all_agree (ops : list sm_op) (l l' : list sm_answer) : Prop :=
  match ops, l, l' with
  | [], [], [] => True
  | o :: ops, a :: l, b :: l' => agree o a b ∧ all_agree ops l l'
  | _, _, _ => False
  end.

Lemma sm_step_ok m o : sm_ok m → op_ok o →
  ∃ a m', sm_step m o = Ok (a, m') ∧ agree o a (spec_step (smItems m) o).1 ∧ sm_ok m' ∧ smItems m' = (spec_step (smItems m) o).2.
Proof.
  intros Hok Ho. destruct o as [n|tx|t|f|t|n|s| |]; cbn [sm_step spec_step].
  - by exists (ATx (Get m n)), m.
  - destruct (Put_ok m tx Hok Ho). by exists ADone, (Put m tx).
  - destruct (Forward_ok (E := E) m t Hok) as (m' & -> & Hm & Hi). by eexists _, m'.
  - destruct (Filter_ok m f Hok) as (Hl & Hm & Hi). destruct (Filter m f) as [l m']. by eexists _, m'.
  - destruct (Cap_ok (E := E) m t Hok Ho) as (m' & -> & Hm & Hi). by eexists _, m'.
  - destruct (sm_Remove_ok (E := E) m n Hok) as (m' & -> & Hm & Hi). by eexists _, m'.
  - destruct (Ready_ok (E := E) m s Hok) as (m' & -> & Hm & Hi). by eexists _, m'.
  - by exists (ALen (Len m)), m.
  - destruct (Flatten_ok m Hok) as (Hl & Hm & Hi). destruct (Flatten m) as [l m']. cbn in *. subst l. by eexists _, m'.
Qed.
Lemma sm_run_ok m ops : sm_ok m → Forall op_ok ops →
  ∃ l m', sm_run m ops = Ok (l, m') ∧ all_agree ops l (spec_run (smItems m) ops).1 ∧ sm_ok m' ∧ smItems m' = (spec_run (smItems m) ops).2.
Proof.
  intros Hok Hops. revert m Hok. induction Hops as [|o ops Ho _ IH]; intros m Hok; [by exists [], m|]. cbn [sm_run spec_run].
  destruct (sm_step_ok m o Hok Ho) as (a & m1 & -> & Ha & Hm1 & Hi1). cbn [mbind result_bind].
  destruct (IH m1 Hm1) as (l & m2 & -> & Hl & Hm2 & Hi2). rewrite Hi1 in Hl, Hi2. cbn [mbind result_bind].
  destruct (spec_step (smItems m) o) as [b items1]. cbn [fst snd] in *. destruct (spec_run items1 ops) as [l' items2].
  cbn [fst snd] in *. by exists (a :: l), m2.
Qed.

(** the nonce-sorted map of the transaction pool refines a plain map from
    nonces.  From the empty map, any run of its operations succeeds (no index
    of the heap, the cache or the map is ever out of range, and every loop
    terminates) and answers what the map alone determines: everything below a
    threshold, everything over a limit from the highest nonce down, the
    consecutive transactions from the lowest nonce, the sorted list. *)
Theorem sorted_map_refines ops :
  Forall op_ok ops →
  ∃ l m, sm_run newTxSortedMap ops = Ok (l, m) ∧ all_agree ops l (spec_run ∅ ops).1 ∧ smItems m = (spec_run ∅ ops).2.
Proof.
  intros Hops. destruct (sm_run_ok newTxSortedMap ops sm_ok_empty Hops) as (l & m & Hrun & Hl & _ & Hi). by exists l, m.
Qed.

(** * The list of an account *)
Definition affordable (costLimit gasLimit : Z) (tx : Transaction) : Prop := Cost tx ≤ costLimit ∧ TxGasLimit tx ≤ gasLimit.
Record list_ok (l : txList) : Prop := {
  lo_txs : sm_ok (txs l);
  lo_caps n tx : smItems (txs l) !! n = Some tx → affordable (costcap l) (gascap l) tx
}.
Lemma list_ok_new b : list_ok (newTxList b).
Proof. split; [apply sm_ok_empty|]. cbn. intros n tx. by rewrite lookup_empty. Qed.
Lemma list_ok_sub l m : list_ok l → sm_ok m → smItems m ⊆ smItems (txs l) → list_ok (set_txs l m).
Proof. intros [_ Hc] Hm Hsub. split; [done|]. cbn. intros n tx Hn. eapply Hc, lookup_weaken; eauto. Qed.
Lemma Add_ok l tx bump ok old l' : list_ok l → is_u64 (AccountNonce tx) → Add l tx bump = (ok, old, l') →
  list_ok l' ∧ (ok = true → old = smItems (txs l) !! AccountNonce tx ∧ smItems (txs l') = <[AccountNonce tx := tx]> (smItems (txs l))) ∧
  (ok = false → l' = l).
Proof.
  intros [Hm Hc] Hu. unfold Add. cbv zeta. match goal with |- context [if ?b then _ else _] => destruct b end; intros [= <- <- <-].
  2: { split_and!; [by split|done|done]. }
  destruct (Put_ok (txs l) tx Hm Hu) as [Hm' Hi]. split_and!; [|done|done]. split; [done|]. cbn [txs costcap gascap].
  intros n tx'. rewrite Hi. destruct (decide (n = AccountNonce tx)) as [->|Hne].
  - rewrite lookup_insert_eq. intros [= ->]. unfold affordable. destruct (Z.ltb_spec (costcap l) (Cost tx')), (Z.ltb_spec (gascap l) (TxGasLimit tx')); lia.
  - rewrite lookup_insert_ne by done. intros [? ?]%Hc. unfold affordable.
    destruct (Z.ltb_spec (costcap l) (Cost tx)), (Z.ltb_spec (gascap l) (TxGasLimit tx)); lia.
Qed.

Lemma lowest_nonce_le removed n : n ≤ lowest_nonce removed ↔ n ≤ MaxUint64 ∧ Forall (λ tx, n ≤ AccountNonce tx) removed.
Proof.
  unfold lowest_nonce. generalize MaxUint64 as start. induction removed as [|tx removed IH]; intros start; cbn; [rewrite Forall_nil; tauto|].
  rewrite IH, Forall_cons. destruct (Z.ltb_spec (AccountNonce tx) start); split; intros; naive_solver lia.
Qed.

Lemma map_to_list_filter (P : Z * Transaction → Prop) `{∀ x, Decision (P x)} (items : gmap Z Transaction) :
  map_to_list (filter P items) ≡ₚ filter P (map_to_list items).
Proof.
  rewrite map_filter_alt, map_to_list_to_map; [done|]. pose proof (NoDup_fst_map_to_list items) as Hnd.
  induction (map_to_list items) as [|[k tx] l IH]; [done|]. cbn in Hnd. apply NoDup_cons in Hnd as [Hk Hnd].
  rewrite filter_cons. case_decide; [|by apply IH]. cbn. apply NoDup_cons. split; [|by apply IH].
  intros (kv & Heq & Hin)%list_elem_of_fmap. apply list_elem_of_filter in Hin as [_ Hin]. apply Hk. rewrite Heq.
  by apply list_elem_of_fmap_2.
Qed.

(** Filtering splits the transactions in two. *)
Lemma Filter_partition m f : sm_ok m → (Filter m f).1 ++ sorted_txs (smItems (Filter m f).2) ≡ₚ sorted_txs (smItems m).
Proof.
  intros Hok. destruct (Filter_ok m f Hok) as (Hl & _ & Hi). rewrite Hl, Hi, !sorted_txs_perm.
  rewrite (map_to_list_filter (λ kv : Z * Transaction, f kv.2 = false)). clear.
  induction (map_to_list (smItems m)) as [|[k tx] l IH]; [done|]. cbn [fmap list_fmap snd]. rewrite !filter_cons. cbn [snd].
  destruct (f tx) eqn:Hf.
  - rewrite decide_True, decide_False by done. cbn. by rewrite IH.
  - rewrite decide_False, decide_True by done. cbn. by rewrite <- Permutation_middle, IH.
Qed.
Lemma Filter_lookup m f n tx : sm_ok m → smItems (Filter m f).2 !! n = Some tx ↔ smItems m !! n = Some tx ∧ f tx = false.
Proof. intros Hok. destruct (Filter_ok m f Hok) as (_ & _ & ->). apply map_lookup_filter_Some. Qed.
Lemma Filter_removed m f tx : sm_ok m → tx ∈ (Filter m f).1 ↔ f tx = true ∧ ∃ n, smItems m !! n = Some tx.
Proof.
  intros Hok. destruct (Filter_ok m f Hok) as (-> & _ & _). rewrite list_elem_of_filter. apply and_iff_compat_l. unfold sorted_txs. rewrite elem_of_pick. split.
  - intros (k & _ & Hk). by exists k.
  - intros [k Hk]. exists k. split; [|done]. apply (proj2 (sorted_keys_asc _)). by eexists.
Qed.
Lemma Filter_sub m f : sm_ok m → smItems (Filter m f).2 ⊆ smItems m.
Proof. intros Hok. destruct (Filter_ok m f Hok) as (_ & _ & ->). apply map_filter_subseteq. Qed.

(** The transactions a strict list keeps: below every one removed. *)
Definition kept (l : txList) (costLimit gasLimit n : Z) (tx : Transaction) : Prop :=
  affordable costLimit gasLimit tx ∧
  (strict l = true → ∀ n' tx', smItems (txs l) !! n' = Some tx' → ¬ affordable costLimit gasLimit tx' → n < n').

Lemma unaffordable_iff costLimit gasLimit tx :
  (costLimit <? Cost tx) || (gasLimit <? TxGasLimit tx) = false ↔ affordable costLimit gasLimit tx.
Proof. unfold affordable. rewrite orb_false_iff, !Z.ltb_ge. done. Qed.
Lemma unaffordable_iff' costLimit gasLimit tx :
  (costLimit <? Cost tx) || (gasLimit <? TxGasLimit tx) = true ↔ ¬ affordable costLimit gasLimit tx.
Proof. rewrite <- unaffordable_iff. by destruct (_ || _). Qed.

Lemma list_Filter_ok l costLimit gasLimit removed invalids l' :
  list_ok l → list_Filter l costLimit gasLimit = (removed, invalids, l') →
  list_ok l' ∧ strict l' = strict l ∧ removed ++ invalids ++ sorted_txs (smItems (txs l')) ≡ₚ sorted_txs (smItems (txs l)) ∧
  (∀ tx, tx ∈ removed ↔ (∃ n, smItems (txs l) !! n = Some tx) ∧ ¬ affordable costLimit gasLimit tx) ∧
  (∀ n tx, smItems (txs l') !! n = Some tx ↔ smItems (txs l) !! n = Some tx ∧ kept l costLimit gasLimit n tx).
Proof.
  intros Hl. pose proof Hl as [Hm Hcaps]. unfold list_Filter. destruct ((costcap l <=? costLimit) && (gascap l <=? gasLimit)) eqn:Hshort.
  { intros [= <- <- <-]. assert (∀ n tx, smItems (txs l) !! n = Some tx → affordable costLimit gasLimit tx) as Hall.
    { intros n tx Htx. destruct (Hcaps n tx Htx). unfold affordable. lia. }
    split_and!; [done..| |].
    - intros tx. split; [by intros Hin; inversion Hin|]. intros [(n & Hn) Ha]. destruct Ha. by eapply Hall.
    - intros n tx. split; [|by intros []]. intros Hn. split; [done|]. split; [by eapply Hall|]. intros _ n' tx' Hn' Ha. destruct Ha. by eapply Hall. }
  set (dear := λ tx, (costLimit <? Cost tx) || (gasLimit <? TxGasLimit tx)).
  pose proof (Filter_partition (txs l) dear Hm) as Hp. pose proof (λ n tx, Filter_lookup (txs l) dear n tx Hm) as Hlook.
  pose proof (λ tx, Filter_removed (txs l) dear tx Hm) as Hrem. pose proof (proj1 (proj2 (Filter_ok (txs l) dear Hm))) as Hm1.
  pose proof (Filter_sub (txs l) dear Hm) as Hsub1.
  destruct (Filter (txs l) dear) as [rem m1]. cbn [fst snd] in *.
  assert (∀ tx, tx ∈ rem ↔ (∃ n, smItems (txs l) !! n = Some tx) ∧ ¬ affordable costLimit gasLimit tx) as Hrem'.
  { intros tx. rewrite Hrem. unfold dear. rewrite unaffordable_iff'. tauto. }
  assert (∀ m, sm_ok m → smItems m ⊆ smItems m1 → list_ok (mkList (strict l) m costLimit gasLimit)) as Hok'.
  { intros m Hm' Hs. split; [done|]. cbn. intros n tx Hn. eapply lookup_weaken in Hs; [|exact Hn].
    apply Hlook in Hs as [_ Hd]. by apply unaffordable_iff. }
  destruct (strict l && negb (bool_decide (rem = []))) eqn:Hstrict.
  - apply andb_true_iff in Hstrict as [Hst Hne]. apply negb_true_iff, bool_decide_eq_false in Hne.
    set (above := λ tx, lowest_nonce rem <? AccountNonce tx).
    pose proof (Filter_partition m1 above Hm1) as Hp2. pose proof (λ n tx, Filter_lookup m1 above n tx Hm1) as Hlook2.
    pose proof (proj1 (proj2 (Filter_ok m1 above Hm1))) as Hm2. pose proof (Filter_sub m1 above Hm1) as Hsub2.
    destruct (Filter m1 above) as [inv m2]. cbn [fst snd] in *. intros [= <- <- <-]. cbn [txs strict].
    split_and!; [by apply Hok'|done|by rewrite Hp2|done|]. intros n tx. rewrite Hlook2, Hlook. unfold kept, above, dear.
    rewrite unaffordable_iff, Z.ltb_ge. split.
    + intros [[Hn Ha] Hlow]. split_and!; [done..|]. intros _ n' tx' Hn' Ha'.
      apply lowest_nonce_le in Hlow as [_ Hlow]. rewrite Forall_forall in Hlow.
      assert (tx' ∈ rem) as Hin by (apply Hrem'; split; [by eexists|done]). specialize (Hlow _ Hin).
      destruct (so_keyed _ Hm _ _ Hn) as [<- _], (so_keyed _ Hm _ _ Hn') as [<- _].
      assert (AccountNonce tx ≠ AccountNonce tx'); [|lia]. intros Heq. rewrite Heq in Hn. congruence.
    + intros (Hn & Ha & Hbelow). split_and!; [done..|]. destruct (so_keyed _ Hm _ _ Hn) as [Hkey [Hu Hu']].
      apply lowest_nonce_le. split; [unfold MaxUint64, u64_modulus in *; lia|]. apply Forall_forall. intros tx' Hin.
      apply Hrem' in Hin as [(n' & Hn') Ha']. specialize (Hbelow Hst n' tx' Hn' Ha'). destruct (so_keyed _ Hm _ _ Hn') as [? _]. lia.
  - intros [= <- <- <-]. cbn [txs strict]. split_and!; [by apply Hok'|done|done|done|].
    intros n tx. rewrite Hlook. unfold kept, dear. rewrite unaffordable_iff. split; [|tauto]. intros [Hn Ha]. split_and!; [done..|].
    intros Hst n' tx' Hn' Ha'. rewrite Hst in Hstrict. cbn in Hstrict. apply negb_false_iff, bool_decide_eq_true in Hstrict.
    assert (tx' ∈ rem) as Hin by (apply Hrem'; split; [by eexists|done]). rewrite Hstrict in Hin. by inversion Hin.
Qed.

(** * Gapless lists *)
Definition gapless (items : gmap Z Transaction) : Prop := ∃ lo hi, ∀ n, is_Some (items !! n) ↔ lo ≤ n < hi.
Lemma gapless_sub items items' (cut : Z → Prop) : gapless items →
  (∀ n, is_Some (items' !! n) ↔ is_Some (items !! n) ∧ cut n) →
  (∃ x, ∀ n, is_Some (items !! n) → cut n ↔ n < x) ∨ (∃ x, ∀ n, is_Some (items !! n) → cut n ↔ x ≤ n) → gapless items'.
Proof.
  intros (lo & hi & Hg) Hsub [[x Hx]|[x Hx]].
  - exists lo, (Z.min hi x). intros n. rewrite Hsub. split.
    + intros [Hn Hc]. apply (Hx n Hn) in Hc. apply Hg in Hn. lia.
    + intros Hn. assert (is_Some (items !! n)) as Hs by (apply Hg; lia). split; [done|]. apply (Hx n Hs). lia.
  - exists (Z.max lo x), hi. intros n. rewrite Hsub. split.
    + intros [Hn Hc]. apply (Hx n Hn) in Hc. apply Hg in Hn. lia.
    + intros Hn. assert (is_Some (items !! n)) as Hs by (apply Hg; lia). split; [done|]. apply (Hx n Hs). lia.
Qed.

(** ** The other operations of a list *)
Implicit Types l : txList.
#[local] Abbreviation items_of l := (smItems (txs l)).
Lemma list_Forward_ok l t : list_ok l →
  ∃ l', list_Forward (E := E) l t = Ok (pick (items_of l) (filter (λ k, k < t) (sorted_keys (items_of l))), l') ∧
    list_ok l' ∧ strict l' = strict l ∧ items_of l' = from t (items_of l).
Proof.
  intros Hl. destruct (Forward_ok (E := E) (txs l) t (lo_txs _ Hl)) as (m' & Hrun & Hm & Hi). unfold list_Forward. rewrite Hrun.
  exists (set_txs l m'). split_and!; [done| |done|done]. apply list_ok_sub; [done..|]. rewrite Hi. apply from_sub.
Qed.
Lemma list_Cap_ok l t : list_ok l → 0 ≤ t →
  let gone := drop (Z.to_nat t) (sorted_keys (items_of l)) in
  ∃ l', list_Cap (E := E) l t = Ok (pick (items_of l) (reverse gone), l') ∧
    list_ok l' ∧ strict l' = strict l ∧ items_of l' = without gone (items_of l).
Proof.
  intros Hl Ht gone. destruct (Cap_ok (E := E) (txs l) t (lo_txs _ Hl) Ht) as (m' & Hrun & Hm & Hi). unfold list_Cap. rewrite Hrun.
  exists (set_txs l m'). split_and!; [done| |done|done]. apply list_ok_sub; [done..|]. rewrite Hi. apply without_sub.
Qed.
Lemma list_Ready_ok l start : list_ok l →
  let ks := sorted_keys (items_of l) in
  let run := if head ks is Some first then if start <? first then [] else run_of first ks else [] in
  ∃ l', list_Ready (E := E) l start = Ok (pick (items_of l) run, l') ∧
    list_ok l' ∧ strict l' = strict l ∧ items_of l' = without run (items_of l).
Proof.
  intros Hl ks run. destruct (Ready_ok (E := E) (txs l) start (lo_txs _ Hl)) as (m' & Hrun & Hm & Hi). unfold list_Ready. rewrite Hrun.
  exists (set_txs l m'). split_and!; [done| |done|done]. apply list_ok_sub; [done..|]. rewrite Hi. apply without_sub.
Qed.
Lemma list_Flatten_ok l : list_ok l →
  (list_Flatten l).1 = sorted_txs (items_of l) ∧ list_ok (list_Flatten l).2 ∧ strict (list_Flatten l).2 = strict l ∧
  items_of (list_Flatten l).2 = items_of l.
Proof.
  intros Hl. destruct (Flatten_ok (txs l) (lo_txs _ Hl)) as (Ha & Hm & Hi). unfold list_Flatten.
  destruct (Flatten (txs l)) as [flat m']. cbn in *. subst flat. split_and!; [done| |done|done].
  apply list_ok_sub; [done..|]. by rewrite Hi.
Qed.
Lemma list_Remove_ok l tx : list_ok l → let nonce := AccountNonce tx in
  ∃ invalids l', list_Remove (E := E) l tx = Ok (bool_decide (is_Some (items_of l !! nonce)), invalids, l') ∧
    list_ok l' ∧ strict l' = strict l ∧
    (∀ n tx', items_of l' !! n = Some tx' ↔ items_of l !! n = Some tx' ∧ n ≠ nonce ∧
      (strict l = true → is_Some (items_of l !! nonce) → n < nonce)) ∧
    (∀ tx', tx' ∈ invalids ↔ strict l = true ∧ is_Some (items_of l !! nonce) ∧
      ∃ n, items_of l !! n = Some tx' ∧ nonce < n) ∧ NoDup invalids.
Proof.
  intros Hl nonce. destruct (sm_Remove_ok (E := E) (txs l) nonce (lo_txs _ Hl)) as (m1 & Hrun & Hm1 & Hi1).
  unfold list_Remove. fold nonce. rewrite Hrun. cbn [mbind result_bind].
  assert (list_ok (set_txs l m1)) as Hl1 by (apply list_ok_sub; [done..|]; rewrite Hi1; apply delete_subseteq).
  assert (∀ n tx', items_of (set_txs l m1) !! n = Some tx' ↔ items_of l !! n = Some tx' ∧ n ≠ nonce) as Hd.
  { intros n tx'. cbn. rewrite Hi1, lookup_delete_Some. naive_solver. }
  case_bool_decide as Hfound; cbn [negb].
  2: { exists [], (set_txs l m1). split_and!; [done..| | |constructor].
       - intros n tx'. rewrite Hd. split; [intros [Hn Hne]; split_and!; done|tauto].
       - intros tx'. split; [by intros Hin; inversion Hin|]. by intros (_ & ? & _). }
  destruct (strict l) eqn:Hst.
  2: { exists [], (set_txs l m1). split_and!; [done..| | |constructor].
       - intros n tx'. rewrite Hd. split; [intros [Hn Hne]; split_and!; done|tauto].
       - intros tx'. split; [by intros Hin; inversion Hin|]. by intros (? & _). }
  pose proof (λ n tx', Filter_lookup m1 (λ tx, nonce <? AccountNonce tx) n tx' Hm1) as Hlook.
  pose proof (λ tx', Filter_removed m1 (λ tx, nonce <? AccountNonce tx) tx' Hm1) as Hrem.
  pose proof (Filter_sub m1 (λ tx, nonce <? AccountNonce tx) Hm1) as Hsub.
  pose proof (Filter_ok m1 (λ tx, nonce <? AccountNonce tx) Hm1) as (Hperm & Hm2 & _).
  destruct (Filter m1 _) as [inv m2]. cbn [fst snd] in *. exists inv, (set_txs l m2).
  assert (keyed (items_of l)) as Hk by apply Hl. split_and!; [done| |done| | |].
  - apply list_ok_sub; [done..|]. etrans; [exact Hsub|]. rewrite Hi1. apply delete_subseteq.
  - intros n tx'. cbn. rewrite Hlook, Hi1, lookup_delete_Some, Z.ltb_ge. split.
    + intros [[Hne Hn] Hle]. destruct (Hk _ _ Hn) as [<- _]. split_and!; [done|done|lia].
    + intros (Hn & Hne & Hlt). destruct (Hk _ _ Hn) as [<- _]. specialize (Hlt eq_refl Hfound). split_and!; [done|done|lia].
  - intros tx'. rewrite Hrem, Hi1, Z.ltb_lt. split.
    + intros [Hlt [n [Hne Hn]%lookup_delete_Some]]. destruct (Hk _ _ Hn) as [<- _]. split_and!; [done..|]. by eexists.
    + intros (_ & _ & n & Hn & Hlt). destruct (Hk _ _ Hn) as [Hkey _]. rewrite Hkey. split; [done|]. exists n.
      apply lookup_delete_Some. split; [lia|done].
  - rewrite Hperm. apply NoDup_filter. rewrite sorted_txs_perm. apply (NoDup_fmap_1 AccountNonce).
    rewrite <- list_fmap_compose. replace (AccountNonce ∘ snd <$> map_to_list (smItems m1)) with (map_to_list (smItems m1)).*1;
      [apply NoDup_fst_map_to_list|].
    apply list_fmap_ext. intros i [k x] Hin%list_elem_of_lookup_2%elem_of_map_to_list. cbn.
    by destruct (so_keyed _ Hm1 _ _ Hin) as [-> _].
Qed.

Lemma sorted_drop_ge items (t : nat) : (∃ x, ∀ n, is_Some (items !! n) → n ∉ drop t (sorted_keys items) ↔ n < x).
Proof.
  destruct (sorted_keys_asc items) as [Hs Hin]. destruct (drop t (sorted_keys items)) as [|x rest] eqn:Hdrop.
  { destruct (decide (items = ∅)) as [->|Hne]; [exists 0; intros n; by rewrite lookup_empty; intros []|].
    exists (foldr Z.max 0 (sorted_keys items) + 1). intros n Hn%Hin. split; [|intros _ He; by inversion He]. intros _.
    clear -Hn. induction (sorted_keys items) as [|k ks IH]; [by inversion Hn|]. cbn. apply elem_of_cons in Hn as [->|Hn]; [lia|].
    specialize (IH Hn). lia. }
  exists x. intros n Hn%Hin. rewrite <- (take_drop t (sorted_keys items)), Hdrop in Hn, Hs.
  apply StronglySorted_app in Hs as (Hall & _ & Hs). apply StronglySorted_inv in Hs as [_ Hs]. rewrite Forall_forall in Hs.
  split.
  - intros Hnot. apply elem_of_app in Hn as [Hn|Hn]; [|done]. apply (Hall n x); [done|by left].
  - intros Hlt [->|Hr]%elem_of_cons; [lia|]. specialize (Hs n Hr). lia.
Qed.

Lemma gapless_below l items' x : list_ok l → gapless (items_of l) →
  (∀ n, is_Some (items' !! n) ↔ is_Some (items_of l !! n) ∧ n < x) → gapless items'.
Proof. intros _ Hg Hsub. apply (gapless_sub (items_of l) items' (λ n, n < x)); [done..|]. left. by exists x. Qed.
Lemma gapless_insert items n tx : gapless items →
  is_Some (items !! n) ∨ is_Some (items !! (n - 1)) ∨ items = ∅ → gapless (<[n := tx]> items).
Proof.
  intros (lo & hi & Hg) Hn. destruct (decide (items = ∅)) as [->|Hne].
  { exists n, (n + 1). intros k. destruct (decide (k = n)) as [->|Hk]; [rewrite lookup_insert_eq; split; [lia|by eexists]|].
    rewrite lookup_insert_ne, lookup_empty by done. split; [by intros []|lia]. }
  exists lo, (Z.max hi (n + 1)). intros k. destruct (decide (k = n)) as [->|Hk].
  - rewrite lookup_insert_eq. split; [|by eexists]. intros _. split; [|lia].
    destruct Hn as [Hn|[Hn|?]]; [apply Hg in Hn; lia|apply Hg in Hn; lia|done].
  - rewrite lookup_insert_ne, Hg by done. split; [lia|]. intros [? ?].
    destruct Hn as [Hn|[Hn|?]]; [apply Hg in Hn; lia|apply Hg in Hn; lia|done].
Qed.

(** The lowest nonce is that of a transaction. *)
Lemma lowest_nonce_in removed : removed ≠ [] → (∀ tx, tx ∈ removed → AccountNonce tx ≤ MaxUint64) →
  ∃ tx0, tx0 ∈ removed ∧ AccountNonce tx0 = lowest_nonce removed.
Proof.
  intros Hne Hmax.
  unfold lowest_nonce. revert Hmax. generalize MaxUint64 as start. destruct removed as [|tx removed]; [done|clear Hne].
  intros start Hmax. cbn [foldl]. assert (AccountNonce tx ≤ start) as Hstart by (apply Hmax; by left).
  assert ((if AccountNonce tx <? start then AccountNonce tx else start) = AccountNonce tx) as -> by (destruct (Z.ltb_spec (AccountNonce tx) start); lia).
  clear Hstart start Hmax. revert tx. induction removed as [|tx' removed IH]; intros tx; [exists tx; split; [by left|done]|].
  cbn [foldl]. destruct (Z.ltb_spec (AccountNonce tx') (AccountNonce tx)).
  - destruct (IH tx') as (tx0 & Hin & <-). exists tx0. split; [by right|done].
  - destruct (IH tx) as (tx0 & Hin & <-). exists tx0. split; [|done]. apply elem_of_cons in Hin as [->|Hin]; [by left|by do 2 right].
Qed.
Lemma list_Remove_gapless l tx : list_ok l → strict l = true → gapless (items_of l) →
  ∃ found invalids l', list_Remove (E := E) l tx = Ok (found, invalids, l') ∧ gapless (items_of l').
Proof.
  intros Hl Hst Hg.   destruct (list_Remove_ok l tx Hl) as (invalids & l' & Hrun & _ & _ & Hlook & _). do 3 eexists. split; [exact Hrun|].
  destruct (decide (is_Some (items_of l !! AccountNonce tx))) as [Hs|Hn].
  + apply (gapless_below l _ (AccountNonce tx)); [done..|]. intros n. split.
    * intros [tx' (Hn & _ & Hlt)%Hlook]. split; [by eexists|by apply Hlt].
    * intros [[tx' Hn] Hlt]. exists tx'. apply Hlook. split_and!; [done|lia|done].
  + apply (gapless_sub (items_of l) _ (λ _, True)); [done| |].
    * intros n. split; [intros [tx' (Hn' & _)%Hlook]; split; [by eexists|done]|].
      intros [[tx' Hn'] _]. exists tx'. apply Hlook. split_and!; [done| |done]. intros ->. by destruct Hn; eexists.
    * destruct Hg as (lo & hi & Hg). left. exists hi. intros n Hn'%Hg. split; [lia|done].
Qed.
Lemma list_Filter_gapless l c g : list_ok l → strict l = true → gapless (items_of l) → gapless (items_of (list_Filter l c g).2).
Proof.
  intros Hl Hst Hg.   destruct (list_Filter l c g) as [[removed invalids] l'] eqn:Hrun.
  destruct (list_Filter_ok l c g removed invalids l' Hl Hrun) as (_ & _ & _ & Hrem & Hlook). cbn [snd].
  destruct (decide (removed = [])) as [->|Hne].
  + destruct Hg as (lo & hi & Hg). apply (gapless_below l _ hi); [done|by exists lo, hi|]. intros n. split.
    * intros [tx [Hn _]%Hlook]. split; [by eexists|]. apply Hg. by eexists.
    * intros [[tx Hn] _]. exists tx. apply Hlook. split; [done|].
      assert (∀ n' tx', items_of l !! n' = Some tx' → affordable c g tx') as Hall.
      { intros n' tx' Hn'. destruct (decide (affordable c g tx')) as [?|Ha]; [done|].
        assert (tx' ∈ []) as Hin by (apply Hrem; split; [by eexists|done]). by inversion Hin. }
      split; [by eapply Hall|]. intros _ n' tx' Hn' Ha. destruct Ha. by eapply Hall.
  + assert (keyed (items_of l)) as Hk by apply Hl.
    apply (gapless_below l _ (lowest_nonce removed)); [done..|]. intros n.
    assert (∀ tx, items_of l !! n = Some tx → n ≤ lowest_nonce removed ↔ Forall (λ tx, n ≤ AccountNonce tx) removed) as Hlow.
    { intros tx Hn. rewrite lowest_nonce_le. split; [tauto|]. intros HF. split; [|done].
      destruct (Hk _ _ Hn) as [_ Hu]. unfold is_u64, u64_modulus, MaxUint64 in *. lia. }
    assert (∃ tx0, tx0 ∈ removed ∧ AccountNonce tx0 = lowest_nonce removed) as (tx0 & Hin0 & Hn0).
    { assert (∀ tx, tx ∈ removed → AccountNonce tx ≤ MaxUint64) as Hmax.
      { intros tx [(n' & Hn') _]%Hrem. destruct (Hk _ _ Hn') as [<- Hu]. unfold is_u64, u64_modulus, MaxUint64 in *. lia. }
      by apply lowest_nonce_in. }
    assert (items_of l !! lowest_nonce removed = Some tx0 ∧ ¬ affordable c g tx0) as [Hat Hdear].
    { apply Hrem in Hin0 as [(k & Hk0) Ha]. destruct (Hk _ _ Hk0) as [Hkey _]. split; [|done]. by rewrite <- Hn0, Hkey. }
    split.
    * intros [tx [Hn [_ Hbelow]]%Hlook]. split; [by eexists|]. by eapply Hbelow.
    * intros [[tx Hn] Hlt]. exists tx. apply Hlook. split; [done|].
      assert (Forall (λ tx, n ≤ AccountNonce tx) removed) as HF by (apply (Hlow tx Hn); lia). rewrite Forall_forall in HF.
      assert (∀ tx', tx' ∈ removed → n < AccountNonce tx') as Hlt'.
      { intros tx' Hin'. assert (lowest_nonce removed ≤ AccountNonce tx'); [|lia].
        assert (lowest_nonce removed ≤ lowest_nonce removed) as Hself by lia. apply lowest_nonce_le in Hself as [_ Hself].
        rewrite Forall_forall in Hself. by apply Hself. }
      split.
      { destruct (decide (affordable c g tx)) as [?|Ha]; [done|]. assert (tx ∈ removed) as Hin by (apply Hrem; split; [by eexists|done]).
        specialize (Hlt' tx Hin). destruct (Hk _ _ Hn). lia. }
      intros _ n' tx' Hn' Ha. assert (tx' ∈ removed) as Hin by (apply Hrem; split; [by eexists|done]).
      destruct (Hk _ _ Hn') as [<- _]. by apply Hlt'.
Qed.

(** the executable transactions of an account never have a gap.  On a strict
    list whose nonces are consecutive, removing a transaction, dropping the
    unaffordable ones, the ones below a nonce or the ones over a limit, and
    adding a replacement or the next transaction all succeed and leave
    consecutive nonces. *)
Theorem strict_lists_stay_gapless l :
  list_ok l → strict l = true → gapless (items_of l) →
  (∀ tx, ∃ found invalids l', list_Remove (E := E) l tx = Ok (found, invalids, l') ∧ gapless (items_of l')) ∧
  (∀ costLimit gasLimit, gapless (items_of (list_Filter l costLimit gasLimit).2)) ∧
  (∀ t, ∃ removed l', list_Forward (E := E) l t = Ok (removed, l') ∧ gapless (items_of l')) ∧
  (∀ t, 0 ≤ t → ∃ drops l', list_Cap (E := E) l t = Ok (drops, l') ∧ gapless (items_of l')) ∧
  (∀ tx bump, is_u64 (AccountNonce tx) → Overlaps l tx = true ∨ is_Some (items_of l !! (AccountNonce tx - 1)) ∨ items_of l = ∅ →
    gapless (items_of (Add l tx bump).2)).
Proof.
  intros Hl Hst Hg. split_and!.
  - intros tx. by apply list_Remove_gapless.
  - intros c g. by apply list_Filter_gapless.
  - intros t. destruct (list_Forward_ok l t Hl) as (l' & -> & _ & _ & Hi). do 2 eexists. split; [done|]. rewrite Hi.
    apply (gapless_sub (items_of l) _ (λ n, t ≤ n)); [done| |right; by exists t]. intros n. unfold from. split.
    + intros [tx [Hn Ht]%map_lookup_filter_Some]. split; [by eexists|done].
    + intros [[tx Hn] Ht]. exists tx. by apply map_lookup_filter_Some.
  - intros t Ht. destruct (list_Cap_ok l t Hl Ht) as (l' & -> & _ & _ & Hi). do 2 eexists. split; [done|]. rewrite Hi.
    destruct (sorted_drop_ge (items_of l) (Z.to_nat t)) as [x Hx]. apply (gapless_below l _ x); [done..|]. intros n.
    rewrite without_lookup. case_decide as Hd.
    + split; [by intros []|]. intros [Hn Hlt]. by apply (Hx n Hn) in Hlt.
    + split; [intros Hn; split; [done|by apply (Hx n Hn)]|tauto].
  - intros tx bump Hu Hn. destruct (Add l tx bump) as [[ok old] l'] eqn:Hadd.
    destruct (Add_ok l tx bump ok old l' Hl Hu Hadd) as (_ & Hyes & Hno). cbn [snd]. destruct ok; [|by rewrite Hno].
    destruct (Hyes eq_refl) as [_ ->]. apply gapless_insert; [done|]. destruct Hn as [Ho|Hn]; [left|by right].
    unfold Overlaps in Ho. by apply bool_decide_eq_true in Ho.
Qed.
End runs.
