(* ===== verification/TxPriced.v ===== *)
(** The price heap of the transaction pool ([txPricedList] of [core/tx_list.go]),
    with the lookup of all transactions and the set of local accounts it reads
    ([txLookup] and [accountSet] of [core/tx_pool.go]).

    The price heap answers price questions about the pool in spite of the stale
    entries it keeps: which transactions are the cheapest, which are below a
    price, whether a new one is too cheap. *)
From S2P Require Import Prelude Types Heap Sealing TxSigning TxList.

(** [priceHeap.Less]: the cheaper first, then the higher nonce. *)
Definition price_less (a b : Transaction) : bool :=
  match Price a ?= Price b with
  | Lt => true
  | Gt => false
  | Eq => AccountNonce b <? AccountNonce a
  end.

(** [accountSet]: the addresses and the signer that derives senders. *)
Record accountSet := mkAccountSet { asAccounts : gset Address; asSigner : Signer }.
Definition newAccountSet (signer : Signer) : accountSet := mkAccountSet ∅ signer.
Definition contains (s : accountSet) (addr : Address) : bool := bool_decide (addr ∈ asAccounts s).
Definition as_add (s : accountSet) (addr : Address) : accountSet := mkAccountSet ({[addr]} ∪ asAccounts s) (asSigner s).

(** [txLookup] *)
Abbreviation txLookup := (gmap Hash Transaction) (only parsing).

Record txPricedList := mkPriced { pItems : list Transaction; pStales : Z }.
Definition newTxPricedList : txPricedList := mkPriced [] 0.

Section priced.
Context `{Crypto} `{TxCrypto} `{MapRange} {E : Type}.
Implicit Types (all : gmap Hash Transaction) (l : txPricedList).

Definition containsTx (s : accountSet) (tx : Transaction) : Result E bool :=
  match Signer_Sender (asSigner s) tx with
  | Ok addr => Ok (contains s addr)
  | Err _ => Ok false
  | Panic p => Panic p
  end.
Definition lookup_Get all (hash : Hash) : option Transaction := all !! hash.
Definition lookup_Add all (tx : Transaction) : gmap Hash Transaction := <[rlpHash_tx tx := tx]> all.
Definition live all (tx : Transaction) : bool := bool_decide (is_Some (lookup_Get all (rlpHash_tx tx))).

Definition priced_Put l (tx : Transaction) : txPricedList := mkPriced (Push price_less (pItems l) tx) (pStales l).
Definition Removed all l : txPricedList :=
  let stales := pStales l + 1 in
  if stales <=? Z.of_nat (length (pItems l) / 4) then mkPriced (pItems l) stales
  else mkPriced (Init price_less (snd <$> map_range all)) 0.
Definition put_back l (save : list Transaction) : txPricedList := foldl priced_Put l save.

Fixpoint price_cap_loop (fuel : nat) all (threshold : Z) (local : accountSet) l (drop save : list Transaction) :
    Result E (txPricedList * list Transaction * list Transaction) :=
  match fuel, pItems l with
  | _, [] => Ok (l, drop, save)
  | O, _ => Panic OutOfFuel
  | S fuel, _ =>
      '(tx, items) ← Pop price_less (pItems l);
      if negb (live all tx) then price_cap_loop fuel all threshold local (mkPriced items (pStales l - 1)) drop save else
      if threshold <=? Price tx then Ok (mkPriced items (pStales l), drop, save ++ [tx]) else
      b ← containsTx local tx;
      if b : bool then price_cap_loop fuel all threshold local (mkPriced items (pStales l)) drop (save ++ [tx])
      else price_cap_loop fuel all threshold local (mkPriced items (pStales l)) (drop ++ [tx]) save
  end.
Definition priced_Cap all (threshold : Z) (local : accountSet) l : Result E (list Transaction * txPricedList) :=
  '(l, drop, save) ← price_cap_loop (length (pItems l)) all threshold local l [] [];
  Ok (drop, put_back l save).

(** The loop that discards stale entries at the head. *)
Fixpoint discard_stale (fuel : nat) all l : Result E txPricedList :=
  match fuel, pItems l with
  | _, [] => Ok l
  | O, _ => Panic OutOfFuel
  | S fuel, first :: _ =>
      if live all first then Ok l else
      '(_, items) ← Pop price_less (pItems l);
      discard_stale fuel all (mkPriced items (pStales l - 1))
  end.
Definition Underpriced all (tx : Transaction) (local : accountSet) l : Result E (bool * txPricedList) :=
  b ← containsTx local tx;
  if b : bool then Ok (false, l) else
  l ← discard_stale (S (length (pItems l))) all l;
  match pItems l with
  | [] => Ok (false, l)
  | cheapest :: _ => Ok (Price tx <=? Price cheapest, l)
  end.

Fixpoint discard_loop (fuel : nat) all (count : Z) (local : accountSet) l (drop save : list Transaction) :
    Result E (txPricedList * list Transaction * list Transaction) :=
  match fuel, pItems l with
  | _, [] => Ok (l, drop, save)
  | O, _ => if 0 <? count then Panic OutOfFuel else Ok (l, drop, save)
  | S fuel, _ =>
      if count <=? 0 then Ok (l, drop, save) else
      '(tx, items) ← Pop price_less (pItems l);
      if negb (live all tx) then discard_loop fuel all count local (mkPriced items (pStales l - 1)) drop save else
      b ← containsTx local tx;
      if b : bool then discard_loop fuel all count local (mkPriced items (pStales l)) drop (save ++ [tx])
      else discard_loop fuel all (count - 1) local (mkPriced items (pStales l)) (drop ++ [tx]) save
  end.
Definition Discard all (count : Z) (local : accountSet) l : Result E (list Transaction * txPricedList) :=
  if count <? 0 then Panic (ExplicitPanic "makeslice: cap out of range") else
  '(l, drop, save) ← discard_loop (length (pItems l)) all count local l [] [];
  Ok (drop, put_back l save).
End priced.

#[export] Instance price_less_order : WeakOrder price_less.
Proof.
  split; unfold price_less.
  - intros x y. rewrite (Z.compare_antisym (Price x)). destruct (Z.compare_spec (Price x) (Price y)); cbn; lia || done.
  - intros x y z. destruct (Z.compare_spec (Price y) (Price x)), (Z.compare_spec (Price z) (Price y)),
      (Z.compare_spec (Price z) (Price x)); try done; lia.
Qed.
Lemma price_less_ge x y : price_less y x = false → Price x ≤ Price y.
Proof. unfold price_less. destruct (Z.compare_spec (Price y) (Price x)); done || lia. Qed.

Section priced.
Context `{Crypto} `{TxCrypto} `{!Inj (=) (=) rlpHash_tx} `{MapRange} {E : Type}.
Implicit Types (all : gmap Hash Transaction) (l : txPricedList).

(** Every transaction of the pool is in the heap; the heap may hold others. *)
Record priced_ok all l : Prop := {
  po_heap : heap price_less (pItems l);
  po_all h tx : all !! h = Some tx → h = rlpHash_tx tx ∧ tx ∈ pItems l
}.

Lemma priced_ok_new : priced_ok ∅ newTxPricedList.
Proof. split; [by intros k Hk; cbn in Hk; lia|]. intros h tx. by rewrite lookup_empty. Qed.
Lemma priced_ok_sub all all' l : priced_ok all l → all' ⊆ all → priced_ok all' l.
Proof. intros [Hh Ha] Hsub. split; [done|]. intros h tx Htx. eapply Ha, lookup_weaken; eauto. Qed.
Lemma priced_Put_ok all l tx : priced_ok all l → priced_ok (lookup_Add all tx) (priced_Put l tx).
Proof.
  intros [Hh Ha]. destruct (Push_ok price_less (pItems l) tx Hh) as [Hh' Hp]. split; [done|]. cbn. intros h tx'.
  unfold lookup_Add. rewrite Hp. destruct (decide (h = rlpHash_tx tx)) as [->|Hne].
  - rewrite lookup_insert_eq. intros [= <-]. split; [done|by left].
  - rewrite lookup_insert_ne by done. intros [-> Hin]%Ha. split; [done|by right].
Qed.
Lemma Removed_ok all l : priced_ok all l → priced_ok all (Removed all l).
Proof.
  intros [Hh Ha]. unfold Removed. destruct (_ <=? _); [by split|].
  destruct (Init_ok price_less (snd <$> map_range all)) as [Hh' Hp]. split; [done|]. cbn. intros h tx Htx.
  destruct (Ha h tx Htx) as [-> _]. split; [done|]. rewrite Hp, map_range_perm. apply list_elem_of_fmap. exists (rlpHash_tx tx, tx).
  split; [done|]. by apply elem_of_map_to_list.
Qed.

Lemma live_keyed all tx : (∀ h x, all !! h = Some x → h = rlpHash_tx x) → live all tx = true ↔ all !! rlpHash_tx tx = Some tx.
Proof.
  intros Ha. unfold live, lookup_Get. rewrite bool_decide_eq_true. split; [|by eexists].
  intros [tx' Htx]. pose proof (Ha _ _ Htx) as Heq. apply (inj rlpHash_tx) in Heq. by subst.
Qed.
Lemma live_true all l tx : priced_ok all l → live all tx = true ↔ all !! rlpHash_tx tx = Some tx.
Proof. intros [_ Ha]. apply live_keyed. intros h x Hx. by apply Ha. Qed.
Lemma Pop_entry items : heap price_less items → items ≠ [] →
  ∃ tx rest, Pop price_less (E := E) items = Ok (tx, rest) ∧ head items = Some tx ∧ items ≡ₚ tx :: rest ∧ heap price_less rest ∧
    (∀ x, x ∈ items → price_less x tx = false) ∧ length items = S (length rest).
Proof.
  intros Hh Hne. destruct items as [|tx items]; [done|].
  destruct (Pop_ok price_less (E := E) (tx :: items) tx Hh eq_refl) as (rest & Hrun & Hp & Hr).
  exists tx, rest. split_and!; [done..| |by rewrite (Permutation_length Hp)]. by apply (heap_head price_less _ tx Hh).
Qed.
(** Dropping a stale entry. *)
Lemma priced_ok_pop all l tx rest stales : priced_ok all l → pItems l ≡ₚ tx :: rest → heap price_less rest → live all tx = false →
  priced_ok all (mkPriced rest stales).
Proof.
  intros Hok Hp Hr Hl. split; [done|]. intros h x Hx. destruct (po_all _ _ Hok h x Hx) as [-> Hin]. split; [done|]. cbn.
  rewrite Hp in Hin. apply elem_of_cons in Hin as [->|Hin]; [|done]. apply (live_true all l tx Hok) in Hx. congruence.
Qed.

Lemma discard_stale_ok fuel all l : priced_ok all l → (length (pItems l) < fuel)%nat →
  ∃ l', discard_stale (E := E) fuel all l = Ok l' ∧ priced_ok all l' ∧ (∀ tx, head (pItems l') = Some tx → live all tx = true).
Proof.
  revert l. induction fuel as [|fuel IH]; intros l Hok Hfuel; [lia|]. cbn [discard_stale].
  destruct (pItems l) as [|first items] eqn:Hitems; [exists l; rewrite Hitems; by split_and!|].
  destruct (live all first) eqn:Hl; [exists l; rewrite Hitems; split_and!; [done..|]; by intros tx [= <-]|].
  pose proof (po_heap _ _ Hok) as Hh. rewrite Hitems in Hh.
  destruct (Pop_entry _ Hh ltac:(done)) as (tx & rest & -> & [= <-] & Hp & Hr & _ & Hlen). cbn [mbind result_bind].
  apply IH; [|cbn; lia]. eapply priced_ok_pop; [done|by rewrite Hitems|done|done].
Qed.

(** Whether a sender is local, when it can be derived. *)
Definition is_local (local : accountSet) (tx : Transaction) : Prop :=
  ∃ a, Signer_Sender (asSigner local) tx = Ok a ∧ a ∈ asAccounts local.
Definition derivable (local : accountSet) (tx : Transaction) : Prop := ∀ p, Signer_Sender (asSigner local) tx ≠ Panic p.
Lemma containsTx_ok local tx : derivable local tx → ∃ b, containsTx (E := E) local tx = Ok b ∧ (b = true ↔ is_local local tx).
Proof.
  unfold derivable, containsTx, is_local, contains. intros Hd. destruct (Signer_Sender (asSigner local) tx) as [a|e|p] eqn:Hs; [|..].
  - exists (bool_decide (a ∈ asAccounts local)). split; [done|]. rewrite bool_decide_eq_true. split; [by exists a|]. by intros (a' & [= <-] & Ha).
  - exists false. split; [done|]. split; [done|]. by intros (a & ? & _).
  - by destruct (Hd p).
Qed.

(** The pool's price test is exact.  Whatever stale entries the heap holds,
    [Underpriced] terminates without a panic and answers true exactly for a
    transaction of a remote account that offers no more than any transaction of
    a non-empty pool; the heap still holds the whole pool. *)
Lemma Underpriced_exact all l tx local :
  priced_ok all l → derivable local tx →
  ∃ b l', Underpriced (E := E) all tx local l = Ok (b, l') ∧ priced_ok all l' ∧
    (b = true ↔ ¬ is_local local tx ∧ all ≠ ∅ ∧ ∀ h tx', all !! h = Some tx' → Price tx ≤ Price tx').
Proof.
  intros Hok Hd. unfold Underpriced. destruct (containsTx_ok local tx Hd) as (b & -> & Hb). cbn [mbind result_bind]. destruct b.
  { exists false, l. split_and!; [done..|]. split; [done|]. intros [Hn _]. destruct Hn. by apply Hb. }
  assert (¬ is_local local tx) as Hremote by (intros Hn; by apply Hb in Hn).
  destruct (discard_stale_ok (S (length (pItems l))) all l Hok ltac:(lia)) as (l' & -> & Hok' & Hhead). cbn [mbind result_bind].
  destruct (pItems l') as [|cheapest items] eqn:Hitems.
  - exists false, l'. split_and!; [done..|]. split; [done|]. intros (_ & Hne & _). destruct Hne. apply map_empty. intros h.
    destruct (all !! h) as [x|] eqn:Hx; [|done]. destruct (po_all _ _ Hok' h x Hx) as [_ Hin]. rewrite Hitems in Hin. by inversion Hin.
  - exists (Price tx <=? Price cheapest), l'. split_and!; [done..|]. rewrite Z.leb_le.
    assert (all !! rlpHash_tx cheapest = Some cheapest) as Hc by (apply (live_true all l' cheapest Hok'), Hhead; done).
    split; [|intros (_ & _ & Hall); by eapply Hall]. intros Hle. split_and!; [done|by intros ->|].
    intros h x Hx. destruct (po_all _ _ Hok' h x Hx) as [_ Hin]. etrans; [exact Hle|]. apply price_less_ge.
    apply (heap_head price_less (pItems l')); [apply Hok'|by rewrite Hitems|done].
Qed.

(** * Dropping the cheapest *)
Lemma put_back_ok l save : heap price_less (pItems l) →
  heap price_less (pItems (put_back l save)) ∧ pItems (put_back l save) ≡ₚ save ++ pItems l.
Proof.
  unfold put_back. revert l. induction save as [|tx save IH]; intros l Hh; [done|]. cbn [foldl].
  destruct (Push_ok price_less (pItems l) tx Hh) as [Hh' Hp]. destruct (IH (priced_Put l tx) Hh') as [Hr Hq]. split; [done|].
  rewrite Hq. cbn [priced_Put pItems]. rewrite Hp. cbn. by rewrite Permutation_middle.
Qed.

(** While entries are popped: the pool is spread over the heap, the dropped and
    the saved, and what has been dropped was not dearer than what is left. *)
Record popping all (local : accountSet) (items drop save : list Transaction) : Prop := {
  pp_heap : heap price_less items;
  pp_cover h tx : all !! h = Some tx → h = rlpHash_tx tx ∧ (tx ∈ items ∨ tx ∈ drop ∨ tx ∈ save);
  pp_drop tx : tx ∈ drop → all !! rlpHash_tx tx = Some tx ∧ ¬ is_local local tx;
  pp_order d tx : d ∈ drop → tx ∈ items → price_less tx d = false;
  pp_derivable tx : tx ∈ items → derivable local tx
}.
Lemma popping_start all local l : priced_ok all l → (∀ tx, tx ∈ pItems l → derivable local tx) → popping all local (pItems l) [] [].
Proof.
  intros [Hh Ha] Hd. split; [done| |by intros ? Hin; inversion Hin|by intros ?? Hin; inversion Hin|done].
  intros h tx Htx. destruct (Ha h tx Htx). by split; [|left].
Qed.
Lemma popping_cons all local items drop save tx rest : popping all local items drop save → items ≡ₚ tx :: rest → heap price_less rest →
  (∀ x, x ∈ items → price_less x tx = false) →
  (all !! rlpHash_tx tx ≠ Some tx → popping all local rest drop save) ∧
  popping all local rest drop (save ++ [tx]) ∧
  (all !! rlpHash_tx tx = Some tx → ¬ is_local local tx → popping all local rest (drop ++ [tx]) save).
Proof.
  intros [Hh Hc Hd Ho Hder] Hp Hr Hmin.
  assert (∀ x, x ∈ rest → x ∈ items) as Hsub by (intros x Hx; rewrite Hp; by right).
  split_and!.
  - intros Hnot. split; [done| |done|intros d x Hin Hx; by apply Ho, Hsub|intros x Hx; by apply Hder, Hsub].
    intros h x Hx. destruct (Hc h x Hx) as [-> [Hin|?]]; [|by split; [|right]]. split; [done|]. rewrite Hp in Hin.
    apply elem_of_cons in Hin as [->|?]; [by destruct Hnot|by left].
  - split; [done| |done|intros d x Hin Hx; by apply Ho, Hsub|intros x Hx; by apply Hder, Hsub].
    intros h x Hx. destruct (Hc h x Hx) as [-> Hin]. split; [done|]. rewrite Hp, elem_of_cons in Hin. rewrite elem_of_app, list_elem_of_singleton. tauto.
  - intros Hlive Hrem. split; [done| | | |intros x Hx; by apply Hder, Hsub].
    + intros h x Hx. destruct (Hc h x Hx) as [-> Hin]. split; [done|]. rewrite Hp, elem_of_cons in Hin. rewrite elem_of_app, list_elem_of_singleton. tauto.
    + intros x [Hx|Hx]%elem_of_app; [by apply Hd|]. apply list_elem_of_singleton in Hx as ->. done.
    + intros d x [Hx|Hx]%elem_of_app Hin; [by apply Ho, Hsub|]. apply list_elem_of_singleton in Hx as ->. by apply Hmin, Hsub.
Qed.
(** The heap without the dropped transactions still holds the rest. *)
Lemma popping_end all local l drop save : popping all local (pItems l) drop save →
  priced_ok (filter (λ kv, kv.2 ∉ drop) all) (put_back l save).
Proof.
  intros [Hh Hc _ _ _]. destruct (put_back_ok l save Hh) as [Hh' Hp]. split; [done|]. intros h tx [Htx Hn]%map_lookup_filter_Some.
  destruct (Hc h tx Htx) as [-> Hin]. split; [done|]. rewrite Hp, elem_of_app. cbn in Hn. tauto.
Qed.

Lemma popping_live all local items drop save tx : popping all local items drop save →
  live all tx = true ↔ all !! rlpHash_tx tx = Some tx.
Proof. intros Hp. apply live_keyed. intros h x Hx. by apply (pp_cover _ _ _ _ _ Hp). Qed.

Lemma price_cap_loop_ok fuel all threshold local l drop save :
  (length (pItems l) ≤ fuel)%nat → popping all local (pItems l) drop save →
  (∀ tx, tx ∈ drop → Price tx < threshold) → (∀ tx, tx ∈ save → is_local local tx) →
  ∃ l' drop' save', price_cap_loop (E := E) fuel all threshold local l drop save = Ok (l', drop', save') ∧
    popping all local (pItems l') drop' save' ∧ (∀ tx, tx ∈ drop' → Price tx < threshold) ∧
    (∀ tx, tx ∈ save' ∨ tx ∈ pItems l' → is_local local tx ∨ threshold ≤ Price tx).
Proof.
  revert l drop save. induction fuel as [|fuel IH]; intros l drop save Hlen Hpop Hdrop Hsave; cbn [price_cap_loop];
    destruct (pItems l) as [|tx0 items0] eqn:Hitems;
    try (exists l, drop, save; rewrite Hitems; split_and!; [done..|]; intros tx [Htx|Htx]; [left; by apply Hsave|by inversion Htx]);
    [cbn in Hlen; lia|].
  destruct (Pop_entry _ (pp_heap _ _ _ _ _ Hpop) ltac:(done)) as (tx & rest & -> & _ & Hp & Hr & Hmin & Hlen').
  cbn [mbind result_bind].
  destruct (popping_cons _ _ _ _ _ tx rest Hpop Hp Hr Hmin) as (Hstale & Hkeep & Hgone).
  destruct (live all tx) eqn:Hlive; cbn [negb].
  2: { apply IH; [cbn; lia| |done|done]. apply Hstale. intros Hl. apply (popping_live _ _ _ _ _ tx Hpop) in Hl. congruence. }
  apply (popping_live _ _ _ _ _ tx Hpop) in Hlive. destruct (Z.leb_spec threshold (Price tx)) as [Hge|Hlt].
  { exists (mkPriced rest (pStales l)), drop, (save ++ [tx]). split_and!; [done|done|done|]. cbn [pItems]. intros x [Hx|Hx].
    - apply elem_of_app in Hx as [Hx|Hx]; [left; by apply Hsave|]. apply list_elem_of_singleton in Hx as ->. by right.
    - right. etrans; [exact Hge|]. apply price_less_ge, Hmin. rewrite Hp. by right. }
  destruct (containsTx_ok local tx) as (b & -> & Hb); [apply (pp_derivable _ _ _ _ _ Hpop); rewrite Hp; by left|].
  cbn [mbind result_bind]. destruct b.
  - apply IH; [cbn; lia|done|done|]. intros x [Hx|Hx]%elem_of_app; [by apply Hsave|]. apply list_elem_of_singleton in Hx as ->. by apply Hb.
  - assert (¬ is_local local tx) as Hrem by (intros Hl; by apply Hb in Hl).
    apply IH; [cbn; lia|by apply Hgone| |done]. intros x [Hx|Hx]%elem_of_app; [by apply Hdrop|]. by apply list_elem_of_singleton in Hx as ->.
Qed.

Lemma priced_Cap_ok all threshold local l : priced_ok all l → (∀ tx, tx ∈ pItems l → derivable local tx) →
  ∃ drop l', priced_Cap (E := E) all threshold local l = Ok (drop, l') ∧
    (∀ tx, tx ∈ drop ↔ all !! rlpHash_tx tx = Some tx ∧ ¬ is_local local tx ∧ Price tx < threshold) ∧
    priced_ok (filter (λ kv, kv.2 ∉ drop) all) l'.
Proof.
  intros Hok Hd. unfold priced_Cap.
  destruct (price_cap_loop_ok (length (pItems l)) all threshold local l [] []) as (l' & drop & save & -> & Hpop & Hdrop & Hsave);
    [done|by apply popping_start|by intros ? Hin; inversion Hin..|].
  cbn [mbind result_bind]. exists drop, (put_back l' save). split_and!; [done| |by eapply popping_end]. intros tx. split.
  - intros Hin. destruct (pp_drop _ _ _ _ _ Hpop tx Hin). split_and!; [done..|by apply Hdrop].
  - intros (Hall & Hrem & Hlt). destruct (pp_cover _ _ _ _ _ Hpop _ _ Hall) as [_ [Hin|[Hin|Hin]]]; [|done|].
    + destruct (Hsave tx) as [?|?]; [by right|done|lia].
    + destruct (Hsave tx) as [?|?]; [by left|done|lia].
Qed.

Lemma discard_loop_ok fuel all (count : Z) local l drop save :
  (length (pItems l) ≤ fuel)%nat → 0 ≤ count → popping all local (pItems l) drop save → (∀ tx, tx ∈ save → is_local local tx) →
  ∃ l' drop' save', discard_loop (E := E) fuel all count local l drop save = Ok (l', drop', save') ∧
    popping all local (pItems l') drop' save' ∧ (∀ tx, tx ∈ save' → is_local local tx) ∧
    Z.of_nat (length drop') ≤ Z.of_nat (length drop) + count ∧
    (Z.of_nat (length drop') < Z.of_nat (length drop) + count → pItems l' = []).
Proof.
  revert l count drop save. induction fuel as [|fuel IH]; intros l count drop save Hlen Hcount Hpop Hsave; cbn [discard_loop];
    destruct (pItems l) as [|tx0 items0] eqn:Hitems;
    try (exists l, drop, save; rewrite Hitems; split_and!; [done..|lia|done]); [cbn in Hlen; lia|].
  destruct (Z.leb_spec count 0) as [Hle|Hgt]; [exists l, drop, save; rewrite Hitems; split_and!; [done..|lia|lia]|].
  destruct (Pop_entry _ (pp_heap _ _ _ _ _ Hpop) ltac:(done)) as (tx & rest & -> & _ & Hp & Hr & Hmin & Hlen').
  cbn [mbind result_bind].
  destruct (popping_cons _ _ _ _ _ tx rest Hpop Hp Hr Hmin) as (Hstale & Hkeep & Hgone).
  destruct (live all tx) eqn:Hlive; cbn [negb].
  2: { apply IH; [cbn; lia|lia| |done]. apply Hstale. intros Hl. apply (popping_live _ _ _ _ _ tx Hpop) in Hl. congruence. }
  apply (popping_live _ _ _ _ _ tx Hpop) in Hlive.
  destruct (containsTx_ok local tx) as (b & -> & Hb); [apply (pp_derivable _ _ _ _ _ Hpop); rewrite Hp; by left|].
  cbn [mbind result_bind]. destruct b.
  - apply IH; [cbn; lia|lia|done|]. intros x [Hx|Hx]%elem_of_app; [by apply Hsave|]. apply list_elem_of_singleton in Hx as ->. by apply Hb.
  - assert (¬ is_local local tx) as Hrem by (intros Hl; by apply Hb in Hl).
    destruct (IH (mkPriced rest (pStales l)) (count - 1) (drop ++ [tx]) save) as (l' & drop' & save' & Hrun & Hpop' & Hsave' & Hl1 & Hl2);
      [cbn; lia|lia|by apply Hgone|done|].
    rewrite length_app in Hl1, Hl2. cbn in Hl1, Hl2. exists l', drop', save'. split_and!; [done..|lia|]. intros ?. apply Hl2. lia.
Qed.

(** Making room drops the cheapest.  [Discard] terminates without a panic and
    drops at most [count] transactions, all of them in the pool and from remote
    accounts; no transaction it drops is dearer than a remote one it leaves; if
    it drops fewer than [count] no remote transaction is left; and the heap
    holds exactly what it has to for the pool without the dropped ones. *)
Lemma Discard_drops_cheapest all (count : Z) local l :
  priced_ok all l → 0 ≤ count → (∀ tx, tx ∈ pItems l → derivable local tx) →
  ∃ drop l', Discard (E := E) all count local l = Ok (drop, l') ∧
    Z.of_nat (length drop) ≤ count ∧
    (∀ tx, tx ∈ drop → all !! rlpHash_tx tx = Some tx ∧ ¬ is_local local tx) ∧
    (∀ d tx, d ∈ drop → all !! rlpHash_tx tx = Some tx → ¬ is_local local tx → tx ∉ drop → Price d ≤ Price tx) ∧
    (Z.of_nat (length drop) < count → ∀ tx, all !! rlpHash_tx tx = Some tx → ¬ is_local local tx → tx ∈ drop) ∧
    priced_ok (filter (λ kv, kv.2 ∉ drop) all) l'.
Proof.
  intros Hok Hcount Hd. unfold Discard. rewrite (proj2 (Z.ltb_ge count 0)) by done.
  destruct (discard_loop_ok (length (pItems l)) all count local l [] []) as (l' & drop & save & -> & Hpop & Hsave & Hl1 & Hl2);
    [done|done|by apply popping_start|by intros ? Hin; inversion Hin|].
  cbn [mbind result_bind]. cbn in Hl1, Hl2. exists drop, (put_back l' save).
  assert (∀ tx, all !! rlpHash_tx tx = Some tx → ¬ is_local local tx → tx ∉ drop → tx ∈ pItems l') as Hleft.
  { intros tx Hall Hrem Hn. destruct (pp_cover _ _ _ _ _ Hpop _ _ Hall) as [_ [Hin|[Hin|Hin]]]; [done|done|]. by apply Hsave in Hin. }
  split_and!; [done|lia|apply Hpop| | |by eapply popping_end].
  - intros d tx Hin Hall Hrem Hn. apply price_less_ge. by apply (pp_order _ _ _ _ _ Hpop), Hleft.
  - intros Hlt tx Hall Hrem. destruct (decide (tx ∈ drop)) as [|Hn]; [done|]. specialize (Hleft tx Hall Hrem Hn).
    rewrite Hl2 in Hleft by lia. by inversion Hleft.
Qed.

(** * Entries are only lost *)
Lemma Pop_in items tx rest : Pop price_less (E := E) items = Ok (tx, rest) → ∀ x, x ∈ tx :: rest → x ∈ items.
Proof.
  intros Hrun x Hx. destruct items as [|y items]; [by cbn in Hrun|].
  destruct (Pop_perm price_less (E := E) (y :: items) y eq_refl) as (l' & Hpop & Hp). rewrite Hpop in Hrun. injection Hrun as <- <-. by rewrite Hp.
Qed.
Lemma put_back_in l save x : x ∈ pItems (put_back l save) → x ∈ save ∨ x ∈ pItems l.
Proof.
  unfold put_back. revert l. induction save as [|tx save IH]; intros l Hx; [by right|]. cbn [foldl] in Hx. destruct (IH _ Hx) as [?|Hin]; [left; by right|].
  cbn [pItems priced_Put] in Hin. rewrite Push_perm in Hin. apply elem_of_cons in Hin as [->|?]; [left; by left|by right].
Qed.
Lemma discard_stale_in fuel all l l' x : discard_stale (E := E) fuel all l = Ok l' → x ∈ pItems l' → x ∈ pItems l.
Proof.
  revert l. induction fuel as [|fuel IH]; intros l; cbn [discard_stale]; (destruct (pItems l) as [|first items] eqn:Hitems; [intros [= <-]; by rewrite Hitems|]); [done|].
  destruct (live all first); [intros [= <-]; by rewrite Hitems|]. intros Hrun Hx. apply result_bind_ok in Hrun as ([tx rest] & Hpop & Hrun).
  eapply Pop_in; [exact Hpop|]. right. apply (IH _ Hrun Hx).
Qed.
Lemma discard_loop_in fuel all count local l drop save l' drop' save' x :
  discard_loop (E := E) fuel all count local l drop save = Ok (l', drop', save') → x ∈ save' ∨ x ∈ pItems l' → x ∈ save ∨ x ∈ pItems l.
Proof.
  revert count l drop save. induction fuel as [|fuel IH]; intros count l drop save; cbn [discard_loop];
    (destruct (pItems l) as [|first items] eqn:Hitems; [intros [= <- <- <-]; by rewrite Hitems|]).
  { destruct (0 <? count); [done|]. intros [= <- <- <-]. by rewrite Hitems. }
  destruct (count <=? 0); [intros [= <- <- <-]; by rewrite Hitems|]. intros Hrun Hx. apply result_bind_ok in Hrun as ([tx rest] & Hpop & Hrun).
  pose proof (Pop_in _ _ _ Hpop) as Hin. destruct (negb (live all tx)).
  { destruct (IH _ _ _ _ Hrun Hx) as [?|?]; [by left|right; apply Hin; by right]. }
  apply result_bind_ok in Hrun as (b & _ & Hrun). destruct b; destruct (IH _ _ _ _ Hrun Hx) as [Hs|?]; try (right; apply Hin; by right); [|by left].
  apply elem_of_app in Hs as [?|Hs]; [by left|]. apply list_elem_of_singleton in Hs as ->. right. apply Hin. by left.
Qed.
Lemma price_cap_loop_in fuel all threshold local l drop save l' drop' save' x :
  price_cap_loop (E := E) fuel all threshold local l drop save = Ok (l', drop', save') → x ∈ save' ∨ x ∈ pItems l' → x ∈ save ∨ x ∈ pItems l.
Proof.
  revert l drop save. induction fuel as [|fuel IH]; intros l drop save; cbn [price_cap_loop];
    (destruct (pItems l) as [|first items] eqn:Hitems; [intros [= <- <- <-]; by rewrite Hitems|]); [done|].
  intros Hrun Hx. apply result_bind_ok in Hrun as ([tx rest] & Hpop & Hrun). pose proof (Pop_in _ _ _ Hpop) as Hin.
  assert (∀ y, y ∈ save ++ [tx] ∨ y ∈ rest → y ∈ save ∨ y ∈ first :: items) as Hback.
  { intros y [[?|Hs]%elem_of_app|?]; [by left| |right; apply Hin; by right]. apply list_elem_of_singleton in Hs as ->. right. apply Hin. by left. }
  destruct (negb (live all tx)). { destruct (IH _ _ _ Hrun Hx) as [?|?]; [by left|right; apply Hin; by right]. }
  destruct (threshold <=? Price tx). { injection Hrun as <- <- <-. by apply Hback. }
  apply result_bind_ok in Hrun as (b & _ & Hrun). destruct b; destruct (IH _ _ _ Hrun Hx) as [?|?]; auto.
Qed.
Lemma Underpriced_in all tx local l b l' x : Underpriced (E := E) all tx local l = Ok (b, l') → x ∈ pItems l' → x ∈ pItems l.
Proof.
  unfold Underpriced. intros Hrun Hx. apply result_bind_ok in Hrun as (local' & _ & Hrun). destruct local'; [by injection Hrun as <- <-|].
  apply result_bind_ok in Hrun as (l1 & Hstale & Hrun). assert (l' = l1) as -> by (by destruct (pItems l1); injection Hrun as <- <-).
  by eapply discard_stale_in.
Qed.
Lemma Discard_in all count local l drop l' x : Discard (E := E) all count local l = Ok (drop, l') → x ∈ pItems l' → x ∈ pItems l.
Proof.
  unfold Discard. destruct (_ <? _); [done|]. intros Hrun Hx. apply result_bind_ok in Hrun as ([[l1 drop1] save] & Hloop & [= <- <-]).
  apply put_back_in in Hx. destruct (discard_loop_in _ _ _ _ _ _ _ _ _ _ x Hloop Hx) as [Hn|?]; [by inversion Hn|done].
Qed.
Lemma priced_Cap_in all threshold local l drop l' x : priced_Cap (E := E) all threshold local l = Ok (drop, l') → x ∈ pItems l' → x ∈ pItems l.
Proof.
  unfold priced_Cap. intros Hrun Hx. apply result_bind_ok in Hrun as ([[l1 drop1] save] & Hloop & [= <- <-]).
  apply put_back_in in Hx. destruct (price_cap_loop_in _ _ _ _ _ _ _ _ _ _ x Hloop Hx) as [Hn|?]; [by inversion Hn|done].
Qed.
End priced.
