(* ===== verification/Twin.v ===== *)
(** Two executions of a transaction, in states that hold the same accounts and
    have changed the same ones: what they answer and leave is the same,
    whatever the gas pools were.  A block that was assembled transaction by
    transaction, with failed ones reverted in between, is so processed alike
    by a node that only sees the transactions that stayed. *)
From S2P Require Import Prelude Types Sealing Blocks Transition TransitionEffect StateDB StateRevert.
From S2P Require Import StateTransfer TxSigning StateFinalise Processor.

(** * Runs that both succeed *)
Section agree.
Context {S : Type} `{VMState S} (rel : S → S → Prop).
Abbreviation ST := (StateTransition S).
(** The same but for the gas pool. *)
Definition st_twin (st st' : ST) : Prop := st_gas st = st_gas st' ∧ st_initialGas st = st_initialGas st' ∧ rel (st_state st) (st_state st').
Definition agree {A A'} (V : A → A' → Prop) (m : GoM ST core_error A) (m' : GoM ST core_error A') : Prop :=
  ∀ st st' a a' u u', st_twin st st' → m st = (Ok a, u) → m' st' = (Ok a', u') → V a a' ∧ st_twin u u'.
Lemma agree_bind {A A' B B'} (V : A → A' → Prop) (W : B → B' → Prop) m m' f f' :
  agree V m m' → (∀ a a', V a a' → agree W (f a) (f' a')) → agree W (m ≫= f) (m' ≫= f').
Proof.
  intros Hm Hf st st' b b' u u' Hst Hr Hr'. apply gom_bind_ok in Hr as (a & v & Hr & Hk). apply gom_bind_ok in Hr' as (a' & v' & Hr' & Hk').
  destruct (Hm _ _ _ _ _ _ Hst Hr Hr') as [Ha Hv]. by eapply (Hf a a').
Qed.
Lemma agree_ret {A A'} (V : A → A' → Prop) a a' : V a a' → agree V (mret a) (mret a').
Proof. by intros HV st st' ? ? ? ? ? [= <- <-] [= <- <-]. Qed.
Lemma agree_throw {A A'} (V : A → A' → Prop) e e' : agree V (throw e) (throw e').
Proof. by intros st st' ? ? ? ? ? [=]. Qed.
Lemma agree_get : agree st_twin get_state get_state.
Proof. by intros st st' ? ? ? ? ? [= <- <-] [= <- <-]. Qed.
Lemma agree_lift {A} (r : Result core_error A) : agree eq (lift r) (lift r).
Proof. intros st st' a a' u u' Hst. unfold lift. intros [= -> <-] [= -> <-]. done. Qed.
Lemma agree_query {A} (f : S → A * S) : (∀ s s', rel s s' → (f s).1 = (f s').1 ∧ rel (f s).2 (f s').2) → agree eq (query f) (query f).
Proof.
  intros Hf st st' a a' u u' (Hg & Hi & Hr). destruct (Hf _ _ Hr) as [H1 H2]. unfold query. destruct (f (st_state st)), (f (st_state st')). cbn in *. intros [= <- <-] [= <- <-]. done.
Qed.
Lemma agree_update (f : S → S) : (∀ s s', rel s s' → rel (f s) (f s')) → agree eq (update f) (update f).
Proof. intros Hf st st' a a' u u' (Hg & Hi & Hr) [= <- <-] [= <- <-]. split; [done|]. split; [done|]. split; [done|]. by apply Hf. Qed.
Lemma agree_gas x : agree eq (with_gas x) (with_gas x).
Proof. by intros st st' a a' u u' (Hg & Hi & Hr) [= <- <-] [= <- <-]. Qed.
Lemma agree_initialGas x : agree eq (with_initialGas x) (with_initialGas x).
Proof. by intros st st' a a' u u' (Hg & Hi & Hr) [= <- <-] [= <- <-]. Qed.
(** Whatever the gas pool becomes. *)
Lemma agree_gp r r' : agree eq (gp ← lift r; with_gp gp) (gp ← lift r'; with_gp gp).
Proof.
  intros st st' a a' u u' (Hg & Hi & Hr). unfold mbind, gom_bind, lift. destruct r, r'; try done. by intros [= <- <-] [= <- <-].
Qed.
End agree.

(** What the operations of the state do to two related states. *)
Class VMTwin (S : Type) `{VMState S} (rel : S → S → Prop) := {
  tw_GetBalance a s s' : rel s s' → (vm_GetBalance a s).1 = (vm_GetBalance a s').1 ∧ rel (vm_GetBalance a s).2 (vm_GetBalance a s').2;
  tw_SubBalance a x s s' : rel s s' → rel (vm_SubBalance a x s) (vm_SubBalance a x s');
  tw_AddBalance a x s s' : rel s s' → rel (vm_AddBalance a x s) (vm_AddBalance a x s');
  tw_GetNonce a s s' : rel s s' → (vm_GetNonce a s).1 = (vm_GetNonce a s').1 ∧ rel (vm_GetNonce a s).2 (vm_GetNonce a s').2;
  tw_SetNonce a n s s' : rel s s' → rel (vm_SetNonce a n s) (vm_SetNonce a n s');
  tw_Exist a s s' : rel s s' → (vm_Exist a s).1 = (vm_Exist a s').1 ∧ rel (vm_Exist a s).2 (vm_Exist a s').2;
  (** only asked of accounts that do not exist *)
  tw_CreateAccount a s s' : rel s s' → (vm_Exist a s).1 = false → rel (vm_CreateAccount a (vm_Exist a s).2) (vm_CreateAccount a (vm_Exist a s').2);
  tw_GetRefund s s' : rel s s' → vm_GetRefund s = vm_GetRefund s'
}.

Section twin.
Context {S : Type} `{VMTwin S rel} (evm : EVM) (msg : Message).
Abbreviation agrees := (agree rel eq).
Lemma Call_twin input gas : agrees (query (Call evm (msgFrom msg) (to msg) input gas (msgAmount msg))) (query (Call evm (msgFrom msg) (to msg) input gas (msgAmount msg))).
Proof.
  apply agree_query. intros s s' Hr. unfold Call, CanTransfer. destruct (_ <? depth evm); [done|].
  destruct (tw_GetBalance (msgFrom msg) s s' Hr) as [Hb Hr1]. destruct (vm_GetBalance (msgFrom msg) s) as [b s1], (vm_GetBalance (msgFrom msg) s') as [b' s1']. cbn in Hb, Hr1. subst b'.
  destruct (negb _); [done|]. destruct (tw_Exist (to msg) s1 s1' Hr1) as [He Hr2]. pose proof (tw_CreateAccount (to msg) s1 s1' Hr1) as Hc.
  destruct (vm_Exist (to msg) s1) as [e s2], (vm_Exist (to msg) s1') as [e' s2']. cbn in He, Hr2, Hc. subst e'. destruct (_ && _); [done|]. split; [done|]. cbn [fst snd].
  unfold Transfer. apply tw_AddBalance, tw_SubBalance. destruct e; [done|]. by apply Hc.
Qed.
Lemma agrees_get {B} (f f' : StateTransition S → GoM (StateTransition S) core_error B) :
  (∀ st st', st_twin rel st st' → agrees (f st) (f' st')) → agrees (get_state ≫= f) (get_state ≫= f').
Proof. intros Hf. eapply agree_bind; [apply agree_get|]. exact Hf. Qed.
Lemma agrees_bind {A B} (m m' : GoM (StateTransition S) core_error A) (f f' : A → GoM (StateTransition S) core_error B) :
  agrees m m' → (∀ a, agrees (f a) (f' a)) → agrees (m ≫= f) (m' ≫= f').
Proof. intros Hm Hf. eapply agree_bind; [exact Hm|]. by intros a ? <-. Qed.
Lemma useGas_twin amount : agrees (useGas amount) (useGas amount).
Proof. unfold useGas. apply agrees_get. intros st st' (Hg & Hi & Hr). rewrite Hg. destruct (_ <? _); [apply agree_throw|apply agree_gas]. Qed.
(** The last step of [refundGas], and [SubGas] of [buyGas], do not look back. *)
Lemma gp_then {B} (r r' : Result core_error Z) (k k' : GoM (StateTransition S) core_error B) :
  agrees k k' → agrees (gp ← lift r; with_gp gp;; k) (gp ← lift r'; with_gp gp;; k').
Proof.
  intros Hk st st' a a' u u' (Hg & Hi & Hr). unfold mbind, gom_bind, lift. destruct r, r'; try done. apply Hk. done.
Qed.
Lemma buyGas_twin : agrees (buyGas msg) (buyGas msg).
Proof.
  unfold buyGas. apply agrees_bind; [apply agree_query; intros; by apply tw_GetBalance|]. intros balance. destruct (_ <? _); [apply agree_throw|].
  apply agrees_get. intros st st' (Hg & Hi & Hr). rewrite Hg. apply gp_then. apply agrees_bind; [apply agree_gas|]. intros _. apply agrees_bind; [apply agree_initialGas|]. intros _.
  apply agree_update. intros. by apply tw_SubBalance.
Qed.
Lemma preCheck_twin : agrees (preCheck msg) (preCheck msg).
Proof.
  unfold preCheck. destruct (msgCheckNonce msg); [|apply buyGas_twin]. apply agrees_bind; [apply agree_query; intros; by apply tw_GetNonce|]. intros nonce.
  destruct (_ <? _); [apply agree_throw|]. destruct (_ <? _); [apply agree_throw|apply buyGas_twin].
Qed.
Lemma refundGas_twin : agrees (refundGas msg) (refundGas msg).
Proof.
  unfold refundGas. apply agrees_get. intros st st' (Hg & Hi & Hr). unfold gasUsed. rewrite Hg, Hi, (tw_GetRefund _ _ Hr). cbv zeta. apply agrees_bind; [apply agree_gas|]. intros _.
  apply agrees_bind; [apply agree_update; intros; by apply tw_AddBalance|]. intros _. apply agree_gp.
Qed.
Lemma TransitionDb_twin : agrees (TransitionDb evm msg) (TransitionDb evm msg).
Proof.
  unfold TransitionDb. apply agrees_bind; [apply preCheck_twin|]. intros _. apply agrees_bind; [apply agree_lift|]. intros gas. apply agrees_bind; [apply useGas_twin|]. intros _.
  apply agrees_bind; [apply agree_query; intros; by apply tw_GetNonce|]. intros nonce. apply agrees_bind; [apply agree_update; intros; by apply tw_SetNonce|]. intros _.
  apply agrees_get. intros st st' (Hg & Hi & Hr). rewrite Hg. apply agrees_bind; [apply Call_twin|]. intros [[ret left_over] vmerr]. apply agrees_bind; [apply agree_gas|]. intros _.
  destruct (decide _); [apply agree_throw|]. apply agrees_bind; [apply refundGas_twin|]. intros _. apply agrees_get. intros st1 st1' (Hg1 & Hi1 & Hr1). unfold gasUsed. rewrite Hg1, Hi1.
  apply agrees_bind; [apply agree_update; intros; by apply tw_AddBalance|]. intros _. by apply agree_ret.
Qed.
(** Two successful executions of a message, from related states. *)
Lemma ApplyMessage_twin gp gp' s s' a a' p p' t t' : rel s s' → ApplyMessage evm msg gp s = (Ok a, (p, t)) → ApplyMessage evm msg gp' s' = (Ok a', (p', t')) → a = a' ∧ rel t t'.
Proof.
  unfold ApplyMessage. intros Hr. destruct (TransitionDb evm msg (mkST gp 0 0 s)) as [r u] eqn:Hu. destruct (TransitionDb evm msg (mkST gp' 0 0 s')) as [r' u'] eqn:Hu'.
  intros [= -> <- <-] [= -> <- <-]. assert (st_twin rel (mkST gp 0 0 s) (mkST gp' 0 0 s')) as Hst by done.
  destruct (TransitionDb_twin _ _ _ _ _ _ Hst Hu Hu') as (Ha & _ & _ & Hs). done.
Qed.
End twin.

(** * Accounts and what was changed *)
Section accounts.
Context {T : Type} `{StateTrieLaws T} `{StateStoreLaws}.
Implicit Types (s t : StateDB T) (a b : Address) (o : stateObject).

(** An account, and whether the journal has a change of it. *)
Definition view s a : option Account * bool := (oData <$> live a s, bool_decide (is_Some (dirties s !! a))).
(** Storage is never read: no code runs. *)
Definition bare_object o : Prop := oOrigin o = ∅ ∧ oDirty o = ∅.
Record bare s : Prop := {
  ba_objects a o : stateObjects s !! a = Some o → bare_object o;
  ba_present a : is_Some (dirties s !! a) → is_Some (stateObjects s !! a);
  ba_logs h : GetLogs h s = [];
  ba_dirty a : a ∈ stateObjectsDirty s → is_Some (stateObjects s !! a)
}.
(** What an operation on [a] does. *)
Record effect (a : Address) (f : option Account * bool → option Account * bool) s s' : Prop := {
  ef_at : view s' a = f (view s a);
  ef_other b : b ≠ a → view s' b = view s b;
  ef_refund : refund s' = refund s;
  ef_where : (bhash s', txIndex s') = (bhash s, txIndex s);
  ef_bare : bare s → bare s'
}.
Lemma effect_refl a s : effect a id s s.
Proof. by split. Qed.
Lemma effect_trans a f g s s' s'' : effect a f s s' → effect a g s' s'' → effect a (λ x, g (f x)) s s''.
Proof. intros [A1 A2 A3 A4 A5] [B1 B2 B3 B4 B5]. split; [by rewrite B1, A1|intros b Hb; by rewrite B2, A2|congruence..|auto]. Qed.
Lemma effect_ext a f g s s' : effect a f s s' → f (view s a) = g (view s a) → effect a g s s'.
Proof. intros [A1 A2 A3 A4 A5] Hfg. split; try done. congruence. Qed.
Lemma effect_load a s : ∃ s', getStateObject a s = (live a s, s') ∧ effect a id s s'.
Proof.
  destruct (getStateObject_run a s) as (s' & Hrun & Hq & _ & Hd & _ & _ & _ & Hset). exists s'. split; [done|]. pose proof (live_load_same a) as Hl. rewrite ?Hrun in Hl.
  assert (∀ b, live b s' = live b s) as Hlive by (intros b; specialize (Hl b s); by rewrite Hrun in Hl).
  split; [unfold view; by rewrite Hlive, Hd|intros b _; unfold view; by rewrite Hlive, Hd|apply Hq|by pose proof (seq_tx _ _ Hq) as [= _ -> ->]|].
  intros [Bo Bp Bl Bd]. destruct Hset as [->|(o & Ho & ->)]; [by split|]. rewrite live_unfold in Ho. split; cbn.
  - intros b p. rewrite lookup_insert_Some. intros [[<- <-]|[_ Hp]]; [|by eapply Bo]. destruct (stateObjects s !! a) as [q|] eqn:Hq'.
    + destruct (oDeleted q); [done|]. injection Ho as <-. by eapply Bo.
    + destruct (TryGet a (trie s)); [|done]. injection Ho as <-. done.
  - intros b Hb. destruct (decide (a = b)) as [->|Hne]; [by rewrite lookup_insert_eq|rewrite lookup_insert_ne by done; by apply Bp].
  - done.
  - intros b Hb. destruct (decide (a = b)) as [->|Hne]; [by rewrite lookup_insert_eq|rewrite lookup_insert_ne by done; by apply Bd].
Qed.
(** Putting an object in place, with a journal entry for its account. *)
Lemma effect_put a o e s : dirtied e = Some a → oDeleted o = false → bare_object o → effect a (λ _, (Some (oData o), true)) s (setStateObject a o (journal_append e s)).
Proof.
  intros He Hd Hb. split; [..|intros [Bo Bp Bl Bd]]; try done.
  - unfold view. rewrite live_set, decide_True, Hd by done. cbn. rewrite He, lookup_insert_eq. done.
  - intros b Hne. unfold view. rewrite live_set, decide_False, live_journal by done. cbn. by rewrite He, lookup_insert_ne.
  - split; cbn.
    + intros b p. rewrite lookup_insert_Some. intros [[_ <-]|[_ Hp]]; [done|by eapply Bo].
    + intros b. rewrite He. destruct (decide (a = b)) as [->|Hne]; [by rewrite !lookup_insert_eq|rewrite !lookup_insert_ne by done; by apply Bp].
    + done.
    + intros b Hin. destruct (decide (a = b)) as [->|Hne]; [by rewrite lookup_insert_eq|rewrite lookup_insert_ne by done; by apply Bd].
Qed.
Lemma live_bare a s o : bare s → live a s = Some o → bare_object o.
Proof.
  intros Hb. rewrite live_unfold. destruct (stateObjects s !! a) as [q|] eqn:Hq; [destruct (oDeleted q); [done|]; intros [= <-]; by eapply ba_objects|].
  destruct (TryGet a (trie s)); [|done]. by intros [= <-].
Qed.
Definition blank : Account := oData blank_object.
(** The account is there afterwards. *)
Definition got (x : option Account * bool) : option Account * bool := (Some (default blank x.1), x.2 || bool_decide (x.1 = None)).
Lemma effect_getOrNew a s : bare s → ∃ s', GetOrNewStateObject a s = (default blank_object (live a s), s') ∧ effect a got s s' ∧
  is_Some (stateObjects s' !! a) ∧ bare_object (default blank_object (live a s)) ∧ oDeleted (default blank_object (live a s)) = false.
Proof.
  intros Hb. unfold GetOrNewStateObject. destruct (effect_load a s) as (s1 & Hrun & He). rewrite Hrun. destruct (live a s) as [o|] eqn:Hl.
  - exists s1. split; [done|]. split; [eapply effect_ext; [exact He|]; unfold got, view; rewrite Hl; cbn; by rewrite orb_false_r|].
    split; [apply getStateObject_found in Hrun as [? _]; by eexists|]. split; [by eapply live_bare|by eapply live_not_deleted].
  - unfold createObject. destruct (effect_load a s1) as (s2 & Hrun2 & He2). rewrite Hrun2.
    assert (live a s1 = None) as -> by (pose proof (ef_at _ _ _ _ He) as Hv; unfold view in Hv; rewrite Hl in Hv; injection Hv as Hv _; by apply fmap_None in Hv).
    eexists. split; [done|]. split; [|split; [cbn; by rewrite lookup_insert_eq|done]].
    eapply effect_ext; [eapply effect_trans; [exact He|eapply effect_trans; [exact He2|by apply effect_put]]|]. unfold got, view. rewrite Hl. cbn. by rewrite orb_true_r.
Qed.
(** ** The operations of a transaction *)
Definition empty_data (d : Account) : bool := (aNonce d =? 0) && (aBalance d =? 0) && (aCodeHash d =? aCodeHash blank).
Definition plus_balance (x : Z) (d : Account) : Account := mkAccount (aNonce d) (aBalance d + x) (aRoot d) (aCodeHash d).
Definition at_nonce (n : Z) (d : Account) : Account := mkAccount n (aBalance d) (aRoot d) (aCodeHash d).
Lemma empty_object_data o : empty_object o = empty_data (oData o).
Proof. done. Qed.
Lemma bare_setBalance o x : bare_object o → bare_object (setBalance o x).
Proof. done. Qed.
Lemma bare_setNonce o n : bare_object o → bare_object (setNonce o n).
Proof. done. Qed.
Lemma data_of_live a s : oData (default blank_object (live a s)) = default blank (view s a).1.
Proof. unfold view. by destruct (live a s). Qed.
Lemma effect_touch a s : is_Some (stateObjects s !! a) → effect a (λ x, (x.1, true)) s (touch a s).
Proof.
  intros Ha. assert (∀ b, dirties (touch a s) !! b = None ↔ (b ≠ a ∧ dirties s !! b = None)) as Hd.
  { intros b. unfold touch. case_bool_decide; cbn; destruct (decide (a = b)) as [->|Hne]; rewrite ?lookup_insert_eq, ?lookup_insert_ne by done; naive_solver. }
  assert (∀ b, live b (touch a s) = live b s) as Hl by (intros b; unfold touch; case_bool_decide; by rewrite !live_unfold).
  split.
  - unfold view. rewrite Hl. cbn. f_equal. apply bool_decide_true, not_eq_None_Some. intros Hn%Hd. naive_solver.
  - intros b Hb. unfold view. rewrite Hl. f_equal. apply bool_decide_ext. rewrite <- !not_eq_None_Some, Hd. naive_solver.
  - unfold touch. by case_bool_decide.
  - unfold touch. by case_bool_decide.
  - intros [Bo Bp Bl Bd]. assert (stateObjects (touch a s) = stateObjects s ∧ logs (touch a s) = logs s ∧ stateObjectsDirty (touch a s) = stateObjectsDirty s) as (Hos & Hlogs & Hod) by (unfold touch; by case_bool_decide).
    split; rewrite ?Hos, ?Hod; [done| |intros h; unfold GetLogs; rewrite Hlogs; apply Bl|done].
    intros b Hb. destruct (decide (b = a)) as [->|Hne]; [done|]. apply Bp. apply not_eq_None_Some. intros Hn. apply not_eq_None_Some in Hb. apply Hb, Hd. done.
Qed.
Lemma effect_AddBalance a x s : bare s → effect a (λ v, let d := default blank v.1 in
  if x =? 0 then (Some d, (got v).2 || empty_data d) else (Some (plus_balance x d), true)) s (AddBalance a x s).
Proof.
  intros Hb. unfold AddBalance. destruct (effect_getOrNew a s Hb) as (s1 & -> & He & Hp & Hbo & Hd). set (o := default blank_object (live a s)) in *.
  pose proof (data_of_live a s) as Hdata. fold o in Hdata. destruct (x =? 0) eqn:Hx.
  - rewrite empty_object_data, Hdata. destruct (empty_data _) eqn:Hem.
    + eapply effect_ext; [eapply effect_trans; [exact He|by apply effect_touch]|]. cbv zeta beta. rewrite Hem, orb_true_r. done.
    + eapply effect_ext; [exact He|]. cbv zeta beta. rewrite Hem, orb_false_r. done.
  - eapply effect_ext; [eapply effect_trans; [exact He|]|].
    + by apply effect_put with (o := setBalance o (aBalance (oData o) + x)).
    + cbn. unfold plus_balance. by rewrite Hdata.
Qed.
Lemma effect_SubBalance a x s : bare s → effect a (λ v, let d := default blank v.1 in if x =? 0 then got v else (Some (plus_balance (- x) d), true)) s (SubBalance a x s).
Proof.
  intros Hb. unfold SubBalance. destruct (effect_getOrNew a s Hb) as (s1 & -> & He & Hp & Hbo & Hd). set (o := default blank_object (live a s)) in *.
  pose proof (data_of_live a s) as Hdata. fold o in Hdata. destruct (x =? 0) eqn:Hx; [by eapply effect_ext|].
  eapply effect_ext; [eapply effect_trans; [exact He|]|].
  - by apply effect_put with (o := setBalance o (aBalance (oData o) - x)).
  - cbn. unfold plus_balance. by rewrite Hdata.
Qed.
Lemma effect_SetNonce a n s : bare s → effect a (λ v, (Some (at_nonce n (default blank v.1)), true)) s (SetNonce a n s).
Proof.
  intros Hb. unfold SetNonce. destruct (effect_getOrNew a s Hb) as (s1 & -> & He & Hp & Hbo & Hd). set (o := default blank_object (live a s)) in *.
  pose proof (data_of_live a s) as Hdata. fold o in Hdata. eapply effect_ext; [eapply effect_trans; [exact He|]|].
  - by apply effect_put with (o := setNonce o n).
  - cbn. unfold at_nonce. by rewrite Hdata.
Qed.
Lemma effect_CreateAccount a s : bare s → live a s = None → effect a (λ _, (Some blank, true)) s (CreateAccount a s).
Proof.
  intros Hb Hl. unfold CreateAccount, createObject. destruct (effect_load a s) as (s1 & -> & He). rewrite Hl. eapply effect_ext; [eapply effect_trans; [exact He|by apply effect_put]|]. done.
Qed.

(** * Twin states *)
Definition sound s : Prop := tidy s ∧ no_suicide s ∧ bare s.
(** Where the two states are: in which block, at which transaction. *)
Context (at_tx at_tx' : Hash * Z).
Record twins s t : Prop := {
  tn_view a : view s a = view t a;
  tn_refund : refund s = refund t;
  tn_where : (bhash s, txIndex s) = at_tx;
  tn_where' : (bhash t, txIndex t) = at_tx';
  tn_left : sound s;
  tn_right : sound t
}.
Lemma twins_effect a f s t s' t' : twins s t → effect a f s s' → effect a f t t' → tidy s' → tidy t' → no_suicide s' → no_suicide t' → twins s' t'.
Proof.
  intros [Hv Hr Hbs Hbt (Ts & Ns & Bs) (Tt & Nt & Bt)] [A1 A2 A3 A4 A5] [B1 B2 B3 B4 B5] ? ? ? ?. split; [|congruence..|split_and!; auto|split_and!; auto].
  intros b. destruct (decide (b = a)) as [->|Hb]; [by rewrite A1, B1, Hv|by rewrite A2, B2 by done].
Qed.
Lemma twins_load a s t : twins s t → oData <$> live a s = oData <$> live a t ∧ twins (getStateObject a s).2 (getStateObject a t).2.
Proof.
  intros Ht. split; [by pose proof (tn_view _ _ Ht a) as [= Hv _]|]. destruct (effect_load a s) as (s' & Hs & He), (effect_load a t) as (t' & Htt & He').
  destruct Ht as [Hv Hr Hbs Hbt Hss Htts] eqn:Heq. clear Heq. assert (twins s t) as Htw by by split. destruct Hss as (Ts & Ns & Bs), Htts as (Tt & Nt & Bt).
  pose proof (tidy_load a s Ts) as [T1 _]. pose proof (tidy_load a t Tt) as [T2 _]. rewrite Hs, Htt in *. cbn [snd] in *.
  apply (twins_effect a id s t); try done.
  - apply (no_suicide_same s); [|done]. intros b. pose proof (live_load_same a b s) as Hl. by rewrite Hs in Hl.
  - apply (no_suicide_same t); [|done]. intros b. pose proof (live_load_same a b t) as Hl. by rewrite Htt in Hl.
Qed.
Lemma twins_query {A} a (f : option stateObject → A) s t : twins s t → (∀ o p : option stateObject, oData <$> o = oData <$> p → f o = f p) →
  (let '(o, s') := getStateObject a s in (f o, s')).1 = (let '(o, s') := getStateObject a t in (f o, s')).1 ∧
  twins (let '(o, s') := getStateObject a s in (f o, s')).2 (let '(o, s') := getStateObject a t in (f o, s')).2.
Proof.
  intros Ht Hf. destruct (twins_load a s t Ht) as [Hd Htw]. destruct (effect_load a s) as (s' & Hs & _), (effect_load a t) as (t' & Htt & _). rewrite Hs, Htt in *. cbn in *. split; [by apply Hf|done].
Qed.
#[export] Instance statedb_twin : VMTwin (StateDB T) twins.
Proof.
  assert (∀ o p : option stateObject, oData <$> o = oData <$> p → ∀ {A} (none : A) (f : Account → A), match o with None => none | Some o => f (oData o) end = match p with None => none | Some o => f (oData o) end) as Hdata.
  { intros [o|] [p|] Hop A none f; try done. injection Hop as Hop. by rewrite Hop. }
  split.
  - intros a s t Ht. apply twins_query; [done|]. intros o p Hop. by apply (Hdata o p Hop Z 0 aBalance).
  - intros a x s t Ht. pose proof Ht as [_ _ _ _ (Ts & Ns & Bs) (Tt & Nt & Bt)]. eapply twins_effect; [exact Ht|by apply effect_SubBalance|by apply effect_SubBalance|by apply tidy_SubBalance|by apply tidy_SubBalance|by apply no_suicide_SubBalance|by apply no_suicide_SubBalance].
  - intros a x s t Ht. pose proof Ht as [_ _ _ _ (Ts & Ns & Bs) (Tt & Nt & Bt)]. eapply twins_effect; [exact Ht|by apply effect_AddBalance|by apply effect_AddBalance|by apply tidy_AddBalance|by apply tidy_AddBalance|by apply no_suicide_AddBalance|by apply no_suicide_AddBalance].
  - intros a s t Ht. apply twins_query; [done|]. intros o p Hop. by apply (Hdata o p Hop Z 0 aNonce).
  - intros a n s t Ht. pose proof Ht as [_ _ _ _ (Ts & Ns & Bs) (Tt & Nt & Bt)]. eapply twins_effect; [exact Ht|by apply effect_SetNonce|by apply effect_SetNonce|by apply tidy_SetNonce|by apply tidy_SetNonce|by apply no_suicide_SetNonce|by apply no_suicide_SetNonce].
  - intros a s t Ht. apply twins_query; [done|]. intros [o|] [p|] Hop; done.
  - intros a s t Ht Hex. cbn in *. assert (live a s = None) as Hls.
    { unfold Exist in Hex. destruct (load_run a s) as (s1 & Hrun & _). rewrite Hrun in Hex. cbn in Hex. apply bool_decide_eq_false in Hex. by apply eq_None_not_Some. }
    assert (live a t = None) as Hlt by (pose proof (tn_view _ _ Ht a) as [= Hv _]; rewrite Hls in Hv; symmetry in Hv; by apply fmap_None in Hv).
    destruct (twins_query a (λ o : option stateObject, bool_decide (is_Some o)) s t Ht) as [_ Ht']; [intros [o|] [p|] Hop; done|]. fold (Exist a s) (Exist a t) in Ht'.
    assert (live a (Exist a s).2 = None ∧ live a (Exist a t).2 = None) as [Hl1 Hl2].
    { unfold Exist. destruct (load_run a s) as (s1 & -> & Hs1 & _), (load_run a t) as (t1 & -> & Ht1 & _). cbn. by rewrite Hs1, Ht1. }
    pose proof Ht' as [_ _ _ _ (Ts & Ns & Bs) (Tt & Nt & Bt)].
    eapply twins_effect; [exact Ht'|by apply effect_CreateAccount|by apply effect_CreateAccount|by apply tidy_CreateAccount|by apply tidy_CreateAccount|by apply no_suicide_CreateAccount|by apply no_suicide_CreateAccount].
  - intros s t Ht. apply Ht.
Qed.
End accounts.

(** Writing no slot leaves a storage trie as it is. *)
Class StateStoreIdle `{StateStore} := storage_write_empty r : storage_write r ∅ = r.
(** The root depends on the accounts only ([root_hash_of_contents] of
    [TrieRoot.v]). *)
Class StateTrieExt (T : Type) `{StateTrie T} := trie_hash_ext (t t' : T) : (∀ a, TryGet a t = TryGet a t') → trie_hash t = trie_hash t'.

(** * Between transactions *)
Section finalised.
Context {T : Type} `{StateTrieLaws T} `{StateStoreLaws} `{!StateStoreIdle}.
Implicit Types (s t : StateDB T) (a b : Address) (o : stateObject).

Definition finalised_view (v : option Account * bool) : option Account * bool :=
  (if v.2 then d ← v.1; if empty_data d then None else Some d else v.1, false).
Lemma updateRoot_bare o : bare_object o → oData (updateRoot o) = oData o ∧ bare_object (updateRoot o).
Proof.
  intros [Ho Hd]. unfold updateRoot, bare_object. cbn. rewrite Hd, Ho, map_filter_empty, storage_write_empty. split; [by destruct (oData o)|]. split; [by rewrite (left_id_L ∅ (∪))|done].
Qed.
Lemma Finalise_view s a : sound s → view (Finalise true s) a = finalised_view (view s a).
Proof.
  intros (Ht & Hn & Hb). unfold view, finalised_view. cbn [fst snd]. rewrite Finalise_live by done. assert (dirties (Finalise true s) = ∅) as -> by done. rewrite lookup_empty.
  rewrite (bool_decide_false (is_Some None)) by (by intros [? [=]]). f_equal. unfold written. case_bool_decide as Hd; cbn [andb]; [|done].
  rewrite bool_decide_true by by apply (ba_present _ Hb). destruct (live a s) as [o|] eqn:Hl; [|done]. cbn. unfold gone. rewrite (Hn a o Hl). cbn [orb andb]. rewrite empty_object_data.
  destruct (empty_data _); [done|]. cbn. f_equal. apply updateRoot_bare. by eapply live_bare.
Qed.
Lemma finalise_fold_dirty (del : bool) l s : (∀ a, a ∈ stateObjectsDirty s → is_Some (stateObjects s !! a)) →
  ∀ a, a ∈ stateObjectsDirty (foldl (finalise_one del) s l) → is_Some (stateObjects (foldl (finalise_one del) s l) !! a).
Proof.
  revert s. induction l as [|c l IH]; intros s Hs; [done|]. cbn [foldl]. apply IH. intros a. unfold finalise_one. destruct (stateObjects s !! c) as [o|] eqn:Ho; [|apply Hs].
  destruct (_ || _); cbn; rewrite elem_of_union, elem_of_singleton; intros [->|Ha]; rewrite ?lookup_insert_eq; try done;
    (destruct (decide (c = a)) as [->|Hne]; [by rewrite lookup_insert_eq|rewrite lookup_insert_ne by done; by apply Hs]).
Qed.
Lemma finalise_fold_logs (del : bool) l s : logs (foldl (finalise_one del) s l) = logs s ∧ txIndex (foldl (finalise_one del) s l) = txIndex s ∧ bhash (foldl (finalise_one del) s l) = bhash s.
Proof.
  revert s. induction l as [|c l IH]; intros s; [done|]. cbn [foldl]. destruct (IH (finalise_one del s c)) as (-> & -> & ->). unfold finalise_one. destruct (stateObjects s !! c) as [o|]; [|done]. by destruct (_ || _).
Qed.
Lemma Finalise_sound s : sound s → sound (Finalise true s).
Proof.
  intros (Ht & Hn & Hb). split; [by apply Finalise_tidy|]. split; [intros a o; by apply Finalise_accounts|]. split.
  - intros a o Ho. pose proof (Finalise_point true s a) as Hp. unfold point, finalise_point in Hp. rewrite Ho in Hp. cbn [fst] in Hp.
    destruct (dirties s !! a); [|injection Hp as Hp _; by eapply ba_objects]. destruct (stateObjects s !! a) as [p|] eqn:Hsp; [|done]. pose proof (ba_objects _ Hb _ _ Hsp) as Hbp.
    destruct (gone true p); injection Hp as -> _; [done|by apply updateRoot_bare].
  - intros a Ha. cbn in Ha. by rewrite lookup_empty in Ha; destruct Ha.
  - intros h. unfold GetLogs, Finalise. cbn [logs clearJournalAndRefund set_refund set_revisions set_journal].
    change (logs (clearJournalAndRefund ?x)) with (logs x). destruct (finalise_fold_logs true (elements (dom (dirties s))) s) as (Hl & _).
    change (default [] (logs (foldl (finalise_one true) s (elements (dom (dirties s)))) !! h) = []). rewrite Hl. by apply (ba_logs _ Hb).
  - intros a. change (a ∈ stateObjectsDirty (foldl (finalise_one true) s (elements (dom (dirties s)))) → is_Some (stateObjects (foldl (finalise_one true) s (elements (dom (dirties s)))) !! a)).
    apply finalise_fold_dirty. apply Hb.
Qed.
Lemma Finalise_index s : txIndex (Finalise true s) = txIndex s ∧ bhash (Finalise true s) = bhash s.
Proof. by destruct (finalise_fold_logs true (elements (dom (dirties s))) s) as (_ & Hx1 & Hx2). Qed.
Lemma Finalise_twins at_tx at_tx' s t : twins at_tx at_tx' s t → twins at_tx at_tx' (Finalise true s) (Finalise true t).
Proof.
  intros [Hv Hr Hbs Hbt Hs Ht]. destruct (Finalise_index s) as [Hs1 Hs2], (Finalise_index t) as [Ht1 Ht2].
  split; [intros a; by rewrite !Finalise_view, Hv by done|done|congruence|congruence|by apply Finalise_sound|by apply Finalise_sound].
Qed.

(** A state between two transactions. *)
Record clean s : Prop := {
  cl_sound : sound s;
  cl_dirties : dirties s = ∅;
  cl_entries : entries s = [];
  cl_revisions : validRevisions s = [];
  cl_refund : refund s = 0
}.
Lemma Finalise_clean s : sound s → clean (Finalise true s).
Proof. intros Hs. split; try done. by apply Finalise_sound. Qed.
Lemma New_clean (tr : T) : clean (New tr).
Proof.
  split; try done. split; [apply New_tidy|]. split.
  - intros a o. rewrite live_unfold. cbn. rewrite lookup_empty. destruct (TryGet a tr); [|done]. by intros [= <-].
  - split; cbn.
    + by intros a o; rewrite lookup_empty.
    + intros a. rewrite lookup_empty. by intros [].
    + done.
    + intros a Ha. set_solver.
Qed.
Lemma Prepare_clean th bh i s : clean s → clean (Prepare th bh i s).
Proof.
  intros [(Ht & Hn & [Bo Bp Bl Bd]) Hd He Hv Hr]. split; try done. split; [by eapply tidy_frame|]. split; [|by split].
  apply (no_suicide_same s); [|done]. intros b. by rewrite !live_unfold.
Qed.
(** The trie holds what the state holds. *)
Lemma clean_trie s a : clean s → TryGet a (trie s) = oData <$> live a s.
Proof.
  intros [(Ht & Hn & Hb) Hd _ _ _]. rewrite live_unfold. destruct (stateObjects s !! a) as [o|] eqn:Ho; [|by destruct (TryGet a (trie s))].
  destruct (oDeleted o) eqn:Hdel; [by apply (tidy_deleted _ Ht a o)|]. apply (tidy_clean _ Ht a o Ho); [|done]. by rewrite Hd, lookup_empty.
Qed.
Lemma clean_view s a : clean s → view s a = (oData <$> live a s, false).
Proof. intros Hc. unfold view. rewrite (cl_dirties _ Hc), lookup_empty. done. Qed.
Lemma same_root `{!StateTrieExt T} s t : (∀ a, view s a = view t a) → clean s → clean t → trie_hash (trie s) = trie_hash (trie t).
Proof.
  intros Ht Hs Htt. apply trie_hash_ext. intros a. rewrite !clean_trie by done. by specialize (Ht a) as [= Hv _].
Qed.
End finalised.

(** * Transactions that fail

    Until a message fails, only its sender was written. *)
Section failing.
Context {T : Type} `{StateTrieLaws T} `{StateStoreLaws}.
Implicit Types (s t : StateDB T) (a b : Address) (o : stateObject).

Section traces.
Context (evm : EVM) (msg : Message).
Abbreviation from := (msgFrom msg).
Abbreviation ST := (StateTransition (StateDB T)).
Definition sender_op (op : operation) : Prop :=
  match op with OpGetBalance a | OpGetNonce a | OpSubBalance a _ | OpSetNonce a _ => a = from | _ => False end.
Definition by_sender_ops s s' : Prop := ∃ ops, Forall sender_op ops ∧ run_ops ops s = Ok s'.
Lemma run_ops_app ops1 ops2 s : run_ops (ops1 ++ ops2) s = (s1 ← run_ops ops1 s; run_ops ops2 s1).
Proof. revert s. induction ops1 as [|op ops1 IH]; intros s; [done|]. cbn [app run_ops]. destruct (run_op op s); cbn; [apply IH|done..]. Qed.
Lemma by_ops_refl s : by_sender_ops s s.
Proof. by exists []. Qed.
Lemma by_ops_trans s1 s2 s3 : by_sender_ops s1 s2 → by_sender_ops s2 s3 → by_sender_ops s1 s3.
Proof. intros (o1 & F1 & R1) (o2 & F2 & R2). exists (o1 ++ o2). split; [by apply Forall_app|]. by rewrite run_ops_app, R1. Qed.
Lemma by_op op s s' : sender_op op → run_op op s = Ok s' → by_sender_ops s s'.
Proof. intros Hop Hr. exists [op]. split; [by constructor|]. cbn. by rewrite Hr. Qed.

Definition any_by {A} (m : GoM ST core_error A) : Prop := ∀ st r st', m st = (r, st') → by_sender_ops (st_state st) (st_state st').
Definition errs_by {A} (m : GoM ST core_error A) : Prop := ∀ st e st', m st = (Err e, st') → by_sender_ops (st_state st) (st_state st').
Definition no_err {A} (m : GoM ST core_error A) : Prop := ∀ st e st', m st ≠ (Err e, st').
Lemma any_errs {A} (m : GoM ST core_error A) : any_by m → errs_by m.
Proof. intros Hm st e st'. apply Hm. Qed.
Lemma no_errs {A} (m : GoM ST core_error A) : no_err m → errs_by m.
Proof. intros Hm st e st' Hr. by apply Hm in Hr. Qed.
Lemma any_bind {A B} (m : GoM ST core_error A) (f : A → GoM ST core_error B) : any_by m → (∀ x, any_by (f x)) → any_by (m ≫= f).
Proof.
  intros Hm Hf st r st'. unfold mbind, gom_bind. destruct (m st) as [[a|e|p] st1] eqn:Hst; [|intros [= <- <-]; by eapply Hm..].
  intros Hr. eapply by_ops_trans; [by eapply Hm|by eapply Hf].
Qed.
Lemma errs_bind {A B} (m : GoM ST core_error A) (f : A → GoM ST core_error B) : any_by m → (∀ x, errs_by (f x)) → errs_by (m ≫= f).
Proof.
  intros Hm Hf st e st'. unfold mbind, gom_bind. destruct (m st) as [[a|e'|p] st1] eqn:Hst; [|intros [= <- <-]; by eapply Hm|done].
  intros Hr. eapply by_ops_trans; [by eapply Hm|by eapply Hf].
Qed.
Lemma no_err_bind {A B} (m : GoM ST core_error A) (f : A → GoM ST core_error B) : no_err m → (∀ x, no_err (f x)) → no_err (m ≫= f).
Proof. intros Hm Hf st e st'. unfold mbind, gom_bind. destruct (m st) as [[a|e'|p] st1] eqn:Hst; [apply Hf|by apply Hm in Hst|done]. Qed.
Lemma any_same {A} (m : GoM ST core_error A) : (∀ st, st_state (m st).2 = st_state st) → any_by m.
Proof. intros Hm st r st' Hr. specialize (Hm st). rewrite Hr in Hm. cbn in Hm. rewrite Hm. apply by_ops_refl. Qed.
Lemma any_query {A} (f : StateDB T → A * StateDB T) op : sender_op op → (∀ s, run_op op s = Ok (f s).2) → any_by (query f).
Proof. intros Hop Hf st r st'. unfold query. pose proof (Hf (st_state st)) as Hr. destruct (f (st_state st)). intros [= <- <-]. by eapply by_op. Qed.
Lemma any_update (f : StateDB T → StateDB T) op : sender_op op → (∀ s, run_op op s = Ok (f s)) → any_by (update f).
Proof. intros Hop Hf st r st' [= <- <-]. by eapply by_op. Qed.
Lemma buyGas_by : any_by (buyGas msg).
Proof.
  unfold buyGas. apply any_bind; [by apply (any_query _ (OpGetBalance from))|]. intros balance. destruct (_ <? _); [by apply any_same|].
  apply any_bind; [by apply any_same|]. intros st. apply any_bind; [by apply any_same|]. intros gp. repeat (apply any_bind; [by apply any_same|]; intros _).
  by eapply (any_update _ (OpSubBalance from _)).
Qed.
Lemma preCheck_by : any_by (preCheck msg).
Proof.
  unfold preCheck. destruct (msgCheckNonce msg); [|apply buyGas_by]. apply any_bind; [by apply (any_query _ (OpGetNonce from))|]. intros nonce.
  destruct (_ <? _); [by apply any_same|]. destruct (_ <? _); [by apply any_same|apply buyGas_by].
Qed.
Lemma useGas_by amount : any_by (useGas amount).
Proof. unfold useGas. apply any_bind; [by apply any_same|]. intros st. destruct (_ <? _); by apply any_same. Qed.
Lemma settle_no_err (ret : list byte) (vmerr : option vm_error) : no_err (refundGas msg;; st ← get_state; update (vm_AddBalance (Coinbase evm) (gasUsed st * msgGasPrice msg));; mret (ret, gasUsed st, bool_decide (is_Some vmerr)) : GoM ST core_error (list byte * Z * bool)).
Proof.
  apply no_err_bind.
  - unfold refundGas. apply no_err_bind; [by intros ? ? ?|]. intros st. cbv zeta. repeat (apply no_err_bind; [by intros ? ? ?|]; intros ?).
    apply no_err_bind; [|by intros ? ? ? ?]. intros st1 e st1'. unfold lift, AddGas. by destruct (_ <? _).
  - intros _. apply no_err_bind; [by intros ? ? ?|]. intros st. apply no_err_bind; [by intros ? ? ?|]. by intros ? ? ? ?.
Qed.
Lemma TransitionDb_errs : errs_by (TransitionDb evm msg).
Proof.
  unfold TransitionDb. apply errs_bind; [apply preCheck_by|]. intros _. apply errs_bind; [by apply any_same|]. intros gas. apply errs_bind; [apply useGas_by|]. intros _.
  apply errs_bind; [by apply (any_query _ (OpGetNonce from))|]. intros nonce. apply errs_bind; [by apply (any_update _ (OpSetNonce from (nonce + 1)%u64))|]. intros _.
  apply errs_bind; [by apply any_same|]. intros st0 st e st'. unfold mbind at 1, gom_bind at 1, query. cbn [vm_GetBalance statedb_vm].
  destruct (Call evm from (to msg) (msgData msg) (st_gas st0) (msgAmount msg) (st_state st)) as [[[ret left_over] vmerr] s1] eqn:Hcall. cbv beta iota.
  unfold mbind at 1, gom_bind at 1, with_gas, modify. cbv beta iota. destruct (decide _) as [Hv|Hv].
  - intros [= <- <-]. cbn. unfold Call in Hcall. destruct (_ <? depth evm); [injection Hcall as <- <- <- <-; done|]. unfold CanTransfer in Hcall.
    destruct (vm_GetBalance from (st_state st)) as [bal s2] eqn:Hbal. destruct (negb _); [injection Hcall as <- <- <- <-; apply (by_op (OpGetBalance from)); [done|]; cbn in *; by rewrite Hbal|].
    destruct (vm_Exist _ _) as [ex s3]. destruct (_ && _); injection Hcall as <- <- <- <-; done.
  - intros Hr. by apply settle_no_err in Hr.
Qed.
End traces.

Section reverted.
Context (from : Address) (Hripemd : from ≠ ripemd).
Definition entry_of (e : journalEntry) : Prop := match e with createObjectChange a | balanceChange a _ | nonceChange a _ => a = from | _ => False end.
(** What reverting keeps. *)
Record settling s : Prop := {
  sg_objects a o : stateObjects s !! a = Some o → bare_object o;
  sg_dirty a : a ∈ stateObjectsDirty s → is_Some (stateObjects s !! a);
  sg_ripemd : dirties s !! ripemd = None
}.
Lemma settling_load a s : settling s → settling (getStateObject a s).2 ∧ ∀ o, live a s = Some o → bare_object o.
Proof.
  intros [So Sd Sr]. assert (∀ o, live a s = Some o → bare_object o) as Hl.
  { intros o. rewrite live_unfold. destruct (stateObjects s !! a) as [q|] eqn:Hq; [destruct (oDeleted q); [done|]; intros [= <-]; by eapply So|]. destruct (TryGet a (trie s)); [|done]. by intros [= <-]. }
  split; [|done]. destruct (getStateObject_run a s) as (s' & -> & _ & _ & Hd & _ & _ & _ & [->|(o & Ho & ->)]); [done|]. split; cbn.
  - intros b p. rewrite lookup_insert_Some. intros [[<- <-]|[_ Hp]]; [by apply Hl|by eapply So].
  - intros b Hb. destruct (decide (a = b)) as [->|Hne]; [by rewrite lookup_insert_eq|rewrite lookup_insert_ne by done; by apply Sd].
  - done.
Qed.
Lemma settling_set a o s : settling s → bare_object o → settling (setStateObject a o s).
Proof.
  intros [So Sd Sr] Ho. split; cbn; [| |done].
  - intros b p. rewrite lookup_insert_Some. intros [[_ <-]|[_ Hp]]; [done|by eapply So].
  - intros b Hb. destruct (decide (a = b)) as [->|Hne]; [by rewrite lookup_insert_eq|rewrite lookup_insert_ne by done; by apply Sd].
Qed.
Lemma on_object_settling a f s s' : settling s → (∀ o, bare_object o → bare_object (f o)) → on_object a f s = Ok s' → settling s'.
Proof.
  intros Hs Hf. destruct (settling_load a s Hs) as [Hl Ho]. unfold on_object. destruct (load_run a s) as (s1 & Hrun & _). rewrite Hrun in *. cbn [snd] in Hl.
  destruct (live a s) as [o|]; [|done]. intros [= <-]. apply settling_set; [done|]. by apply Hf, Ho.
Qed.
Lemma entry_settling e s s' : entry_of e → settling s → entry_revert e s = Ok s' → settling s'.
Proof.
  intros He Hs. destruct e; try done; cbn [entry_revert].
  - intros [= <-]. destruct Hs as [So Sd Sr]. split; cbn; [|intros b|done].
    + intros b p [_ Hp]%lookup_delete_Some. by eapply So.
    + rewrite elem_of_difference, elem_of_singleton. intros [Hb Hne]. rewrite lookup_delete_ne by done. by apply Sd.
  - by apply on_object_settling.
  - by apply on_object_settling.
Qed.
Lemma undo_settling es s s' : Forall entry_of es → settling s → undo es s = Ok s' → settling s'.
Proof.
  intros Hes. revert s. induction Hes as [|e es He _ IH]; intros s Hs; cbn [undo]; [by intros [= <-]|].
  destruct (entry_revert e s) as [s1|?|?] eqn:Hr; [|done..]. cbn. apply IH. pose proof (entry_settling e s s1 He Hs Hr) as [So Sd Sr]. split; [done|done|]. cbn.
  unfold undirty. destruct e; try done; cbn; cbn in He; subst account; destruct (_ =? 0); by rewrite ?lookup_delete_ne, ?lookup_insert_ne by done.
Qed.

(** What the sender's operations keep. *)
Record noted s : Prop := { nt_bare : bare s; nt_ripemd : dirties s !! ripemd = None; nt_entries : Forall entry_of (entries s) }.
Lemma noted_journal e s : entry_of e → dirties s !! ripemd = None → Forall entry_of (entries s) → dirties (journal_append e s) !! ripemd = None ∧ Forall entry_of (entries (journal_append e s)).
Proof. intros He Hd Hes. split; [|cbn; apply Forall_app; split; [done|by constructor]]. cbn. destruct e; try done; cbn in *; subst account; by rewrite lookup_insert_ne. Qed.
Lemma load_journal a s : entries (getStateObject a s).2 = entries s ∧ dirties (getStateObject a s).2 = dirties s.
Proof. by destruct (getStateObject_run a s) as (s' & -> & _ & He & Hd & _). Qed.
Lemma getOrNew_journal s : dirties s !! ripemd = None → Forall entry_of (entries s) →
  dirties (GetOrNewStateObject from s).2 !! ripemd = None ∧ Forall entry_of (entries (GetOrNewStateObject from s).2).
Proof.
  intros Hd Hes. unfold GetOrNewStateObject. destruct (load_journal from s) as [He1 Hd1]. destruct (load_run from s) as (s1 & Hrun & Hl1 & _). rewrite Hrun in *. cbn [snd] in *.
  destruct (live from s) as [o|] eqn:Hl; [cbn [snd]; by rewrite He1, Hd1|]. unfold createObject. destruct (load_journal from s1) as [He2 Hd2]. destruct (load_run from s1) as (s2 & Hrun2 & _). rewrite Hrun2 in *. cbn [snd] in *.
  rewrite Hl1, Hl. apply (noted_journal (createObjectChange from)); [done|congruence|congruence].
Qed.
Lemma op_noted op s s' : noted s → match op with OpGetBalance a | OpGetNonce a | OpSubBalance a _ | OpSetNonce a _ => a = from | _ => False end → run_op op s = Ok s' → noted s'.
Proof.
  intros [Hb Hd Hes] Hop Hrun. pose proof (getOrNew_journal s Hd Hes) as [Hg1 Hg2].
  destruct op; try done; subst a; cbn [run_op] in Hrun; injection Hrun as <-.
  1,2: unfold GetBalance, GetNonce; destruct (load_journal from s) as [He1 Hd1]; destruct (effect_load from s) as (s1 & Hrun & Heff); rewrite Hrun in *; cbn [snd] in *; (split; [by apply Heff|by rewrite Hd1|by rewrite He1]).
  - split; [by apply (effect_SubBalance from x s Hb)| |]; unfold SubBalance; destruct (GetOrNewStateObject from s) as [o s1]; cbn [snd] in *; destruct (x =? 0); try done; by apply (noted_journal (balanceChange from (aBalance (oData o)))).
  - split; [by apply (effect_SetNonce from n s Hb)| |]; unfold SetNonce; destruct (GetOrNewStateObject from s) as [o s1]; cbn [snd] in *; by apply (noted_journal (nonceChange from (aNonce (oData o)))).
Qed.
Lemma ops_noted ops s s' : noted s → Forall (λ op, match op with OpGetBalance a | OpGetNonce a | OpSubBalance a _ | OpSetNonce a _ => a = from | _ => False end) ops → run_ops ops s = Ok s' → noted s'.
Proof.
  intros Hs Hops. revert s Hs. induction Hops as [|op ops Hop _ IH]; intros s Hs; cbn [run_ops]; [by intros [= <-]|].
  destruct (run_op op s) as [s1|?|?] eqn:Hr; [|done..]. cbn. apply IH. by eapply op_noted.
Qed.
Lemma noted_settling s : noted s → settling s.
Proof. intros [[Bo Bp Bl Bd] Hd _]. by split. Qed.
Lemma RevertToSnapshot_settling id s s' : noted s → RevertToSnapshot id s = Ok s' → settling s'.
Proof.
  intros Hs. unfold RevertToSnapshot. destruct (validRevisions s !! _) as [[i n]|]; [|done]. destruct (negb _); [done|]. unfold journal_revert.
  destruct (undo _ s) as [u|?|?] eqn:Hu; [|done..]. cbn. intros [= <-]. assert (settling u) as [So Sd Sr]; [|by split].
  eapply undo_settling; [|by apply noted_settling|exact Hu]. apply Forall_reverse, Forall_drop, Hs.
Qed.
End reverted.

(** A state that nothing is pending in, after a message that failed and was
    reverted, is as it was. *)
Lemma fail_and_revert evm msg gp s e gp' s' : msgFrom msg ≠ ripemd → clean s →
  ApplyMessage evm msg gp (Snapshot s).2 = (Err e, (gp', s')) →
  ∃ s'', RevertToSnapshot (Snapshot s).1 s' = Ok s'' ∧ clean s'' ∧ (∀ a, view s'' a = view s a) ∧ txIndex s'' = txIndex s.
Proof.
  intros Hrip [(Ht & Hn & Hb) Hd He Hv Hr] Hrun. unfold ApplyMessage in Hrun. destruct (TransitionDb evm msg _) as [r st] eqn:Htr. injection Hrun as -> <- <-.
  pose proof (TransitionDb_errs evm msg _ _ _ Htr) as (ops & Hops & Hrun). cbn [st_state] in Hrun.
  assert (state_inv s) as Hinv.
  { split; [apply Ht|by rewrite He; constructor|]. intros a _. rewrite He, Hd. cbn. by rewrite lookup_empty. }
  assert (revisions_ok s) as Hrev by (split; rewrite Hv; constructor).
  assert (Forall (within (Snapshot s).1) ops) as Hwithin by (eapply Forall_impl; [exact Hops|]; by intros []).
  destruct (revert_restores s (Snapshot s).1 (Snapshot s).2 ops (st_state st) Hinv Hrev ltac:(by destruct (Snapshot s)) Hwithin Hrun) as (s3 & Hrv & Heq & He3 & Hv3 & Hd3 & Hinv3).
  exists s3. split; [done|]. assert (noted (msgFrom msg) (Snapshot s).2) as Hnoted.
  { split; [by destruct Hb; split|cbn; by rewrite Hd, lookup_empty|cbn; rewrite He; constructor]. }
  pose proof (ops_noted _ Hrip _ _ _ Hnoted Hops Hrun) as Hnoted'. pose proof (RevertToSnapshot_settling _ Hrip _ _ _ Hnoted' Hrv) as [So Sd Sr].
  assert (dirties s3 = ∅) as Hd3'.
  { apply map_eq. intros a. rewrite lookup_empty. destruct (decide (a = ripemd)) as [->|Hne]; [done|]. by rewrite Hd3, Hd, lookup_empty by done. }
  assert (∀ a, oData <$> live a s3 = oData <$> live a s) as Hlive by (intros a; destruct (seq_live _ _ Heq a) as [o p [Hop]|]; cbn; congruence).
  assert (clean s) as Hclean by by split.
  split; [split; [split; [|split]|done|congruence|congruence|by rewrite (seq_refund _ _ Heq)]|split].
  - split.
    + intros a o Ho _. destruct (So a o Ho) as [Ho1 Ho2]. split; intros k; rewrite ?Ho1, ?Ho2, lookup_empty; [done|by intros []].
    + apply Hinv3.
    + intros a o Ho _ Hdel. split; [|intros k v; destruct (So a o Ho) as [_ ->]; by rewrite lookup_empty]. rewrite (seq_trie _ _ Heq), (clean_trie s a Hclean), <- Hlive, live_unfold, Ho, Hdel. done.
    + intros a o _. rewrite Hd3', lookup_empty. by intros [].
  - intros a o Ho. pose proof (seq_live _ _ Heq a) as Hsl. rewrite Ho in Hsl. inversion Hsl as [x p Hxp Hx Hp|]; subst. rewrite (oeq_suicided _ _ Hxp). by apply (Hn a).
  - split; [done|intros a; rewrite Hd3', lookup_empty; by intros []|intros h; rewrite (seq_logs _ _ Heq); apply Hb|done].
  - intros a. unfold view. by rewrite Hlive, Hd3', Hd.
  - by pose proof (seq_tx _ _ Heq) as [= _ _ ->].
Qed.
End failing.
