(* ===== verification/Worker.v ===== *)
(** The mining worker ([miner/worker.go], [miner/unconfirmed.go]) and the order
    in which it takes transactions ([TransactionsByPriceAndNonce] of
    [core/types/transaction.go]). *)
From S2P Require Import Prelude Hoare Types Sealing Blocks Heap Transition StateDB StateTransfer TxSigning Processor.

(** [heap.Fix] *)
Definition heap_Fix {A} (less : A → A → bool) (l : list A) (i : nat) : list A :=
  let '(l', moved) := down less l i (length l) in if moved : bool then l' else up less l' i.

(** * Transactions by price and nonce *)
Definition price_less (x y : Transaction) : bool := Price y <? Price x.
Record TransactionsByPriceAndNonce := mkTxSet {
  ts_txs : gmap Address (list Transaction);
  ts_heads : list Transaction;
  ts_signer : Signer
}.
Section txset.
Context `{Crypto} `{TxCrypto} `{MapRange} {E : Type}.

(** [acc, _ := Sender(signer, tx)] *)
Definition sender_or_zero (signer : Signer) (tx : Transaction) : Address :=
  match Signer_Sender signer tx with Ok a => a | _ => zero_address end.
(** The loop over the accounts.  An account that the loop itself adds is not
    ranged over. *)
Fixpoint take_heads (signer : Signer) (accounts : list (Address * list Transaction)) (txs : gmap Address (list Transaction)) (heads : list Transaction) :
    Result E (gmap Address (list Transaction) * list Transaction) :=
  match accounts with
  | [] => Ok (txs, heads)
  | (from, accTxs) :: accounts =>
      match accTxs with
      | [] => Panic IndexOutOfRange
      | tx :: rest =>
          let acc := sender_or_zero signer tx in
          let txs := <[acc := rest]> txs in
          take_heads signer accounts (if from =? acc then txs else delete from txs) (heads ++ [tx])
      end
  end.
Definition NewTransactionsByPriceAndNonce (signer : Signer) (txs : gmap Address (list Transaction)) : Result E TransactionsByPriceAndNonce :=
  '(txs, heads) ← take_heads signer (map_range txs) txs [];
  mret (mkTxSet txs (Init price_less heads) signer).
Definition Peek (t : TransactionsByPriceAndNonce) : option Transaction := head (ts_heads t).
Definition heap_pop (t : TransactionsByPriceAndNonce) : Result E TransactionsByPriceAndNonce :=
  '(_, heads) ← Heap.Pop price_less (ts_heads t);
  mret (mkTxSet (ts_txs t) heads (ts_signer t)).
Definition Shift (t : TransactionsByPriceAndNonce) : Result E TransactionsByPriceAndNonce :=
  match ts_heads t with
  | [] => Panic IndexOutOfRange
  | tx :: heads =>
      let acc := sender_or_zero (ts_signer t) tx in
      match ts_txs t !! acc with
      | Some (next :: rest) => Ok (mkTxSet (<[acc := rest]> (ts_txs t)) (heap_Fix price_less (next :: heads) 0) (ts_signer t))
      | _ => heap_pop t
      end
  end.
Definition txset_Pop (t : TransactionsByPriceAndNonce) : Result E TransactionsByPriceAndNonce := heap_pop t.
End txset.

(** * The environment of a mining cycle *)
Record environment (T : Type) := mkEnv {
  env_state : StateDB T;
  env_ancestors : gset Hash;
  env_family : gset Hash;
  env_uncles : gmap Hash unit;
  env_tcount : Z;
  env_gasPool : option Z;
  env_header : Header;
  env_txs : list Transaction;
  env_receipts : list Receipt
}.
Arguments mkEnv {T} _ _ _ _ _ _ _ _ _.
Arguments env_state {T} _. Arguments env_ancestors {T} _. Arguments env_family {T} _. Arguments env_uncles {T} _. Arguments env_tcount {T} _.
Arguments env_gasPool {T} _. Arguments env_header {T} _. Arguments env_txs {T} _. Arguments env_receipts {T} _.
Definition with_GasUsed (h : Header) (g : Z) : Header :=
  mkHeader (ParentHash h) (UncleHash h) (Types.Coinbase h) (Root h) (TxHash h) (ReceiptHash h) (Bloom h) (Difficulty h) (Number h) (GasLimit h) g (Time h) (Extra h) (MixDigest h) (Nonce h).

Inductive uncle_error := errUncleNotUnique | errUncleSibling | errUncleParentUnknown | errUncleIncluded.
(** What a sealing task carries. *)
Record task (T : Type) := mkTask { task_receipts : list Receipt; task_state : StateDB T; task_block : Block }.
Arguments mkTask {T} _ _ _. Arguments task_receipts {T} _. Arguments task_state {T} _. Arguments task_block {T} _.
Record worker (T : Type) := mkWorker {
  w_coinbase : Address;
  w_extra : list byte;
  w_running : bool;
  w_current : option (environment T);
  w_localUncles : gmap Hash Block;
  w_remoteUncles : gmap Hash Block;
  w_pendingTasks : gmap Hash (task T);
  w_snapshot : option (Block * StateDB T);
  w_prev : Hash;
  w_prevTask : option (task T);
  (** tasks handed to the scheduler *)
  w_posted : list (task T);
  (** blocks mined here: number and hash, oldest first *)
  w_unconfirmed : list (Z * Hash)
}.

Section environment.
Context {T : Type} `{StateTrie T} `{StateStore} `{Crypto} `{TxCrypto} `{BlockDigests} `{BlockEngine} `{MapRange}.
Context (ChainID : option Z).
Implicit Types (env : environment T).

Definition set_run (gp : option Z) (s : StateDB T) (used : Z) env : environment T :=
  mkEnv s (env_ancestors env) (env_family env) (env_uncles env) (env_tcount env) gp (with_GasUsed (env_header env) used) (env_txs env) (env_receipts env).
Definition set_env_state (s : StateDB T) env : environment T := set_run (env_gasPool env) s (GasUsed (env_header env)) env.
Definition add_included (tx : Transaction) (receipt : Receipt) env : environment T :=
  mkEnv (env_state env) (env_ancestors env) (env_family env) (env_uncles env) (env_tcount env) (env_gasPool env) (env_header env) (env_txs env ++ [tx]) (env_receipts env ++ [receipt]).
Definition add_tcount env : environment T :=
  mkEnv (env_state env) (env_ancestors env) (env_family env) (env_uncles env) (env_tcount env + 1) (env_gasPool env) (env_header env) (env_txs env) (env_receipts env).
Definition add_uncle (h : Hash) env : environment T :=
  mkEnv (env_state env) (env_ancestors env) (env_family env) (<[h := tt]> (env_uncles env)) (env_tcount env) (env_gasPool env) (env_header env) (env_txs env) (env_receipts env).
Definition set_env_header (h : Header) env : environment T :=
  mkEnv (env_state env) (env_ancestors env) (env_family env) (env_uncles env) (env_tcount env) (env_gasPool env) h (env_txs env) (env_receipts env).

(** The gas pool is there when transactions are committed. *)
Definition commitTransaction (tx : Transaction) (coinbase : Address) : GoM (environment T) process_error (list Log) := λ env,
  match env_gasPool env with
  | None => (Panic NilDereference, env)
  | Some gp =>
      let '(snap, s) := Snapshot (env_state env) in
      match ApplyTransaction ChainID (Some coinbase) (env_header env) tx (mkRun gp s (GasUsed (env_header env))) with
      | (Err err, r) =>
          let env := set_run (Some (run_gp r)) (run_state r) (run_usedGas r) env in
          match RevertToSnapshot snap (run_state r) with
          | Ok s => (Err err, set_env_state s env)
          | Err _ => (Panic (ExplicitPanic "unreachable"), env)
          | Panic p => (Panic p, env)
          end
      | (Panic p, r) => (Panic p, set_run (Some (run_gp r)) (run_state r) (run_usedGas r) env)
      | (Ok (receipt, _), r) => (Ok (rLogs receipt), add_included tx receipt (set_run (Some (run_gp r)) (run_state r) (run_usedGas r) env))
      end
  end.

(** What becomes of the transaction set after a transaction. *)
Definition next_txs {E} (result : Result process_error (list Log)) (txs : TransactionsByPriceAndNonce) : Result E TransactionsByPriceAndNonce :=
  match result with
  | Err (coreError ErrGasLimitReached) => txset_Pop txs
  | Err (coreError ErrNonceTooHigh) => txset_Pop txs
  | _ => Shift txs
  end.
Definition commitInterruptNone : Z := 0.
Definition commitInterruptNewHead : Z := 1.
Definition commitInterruptResubmit : Z := 2.
(** The loop of [commitTransactions], from its [turn]-th turn; [interrupt] is
    what the turns read there.  Ends with whether the work is discarded. *)
Fixpoint commit_loop (fuel : nat) (turn : nat) (txs : TransactionsByPriceAndNonce) (coinbase : Address) (interrupt : option (nat → Z)) : GoM (environment T) Empty_set bool := λ env,
  match fuel with
  | O => (Ok false, env)
  | S fuel =>
      let signal := match interrupt with Some f => f turn | None => commitInterruptNone end in
      if negb (signal =? commitInterruptNone) then (Ok (signal =? commitInterruptNewHead), env) else
      match env_gasPool env with
      | None => (Panic NilDereference, env)
      | Some gp =>
          if gp <? TxGas then (Ok false, env) else
          match Peek txs with
          | None => (Ok false, env)
          | Some tx =>
              let env := set_env_state (Prepare (rlpHash_tx tx) zero_hash (env_tcount env) (env_state env)) env in
              let '(result, env) := commitTransaction tx coinbase env in
              match result with
              | Panic p => (Panic p, env)
              | _ =>
                  let env := match result with Ok _ => add_tcount env | _ => env end in
                  match next_txs result txs with
                  | Ok txs => commit_loop fuel (S turn) txs coinbase interrupt env
                  | Err e => (Err e, env)
                  | Panic p => (Panic p, env)
                  end
              end
          end
      end
  end.
(** How many transactions a set holds. *)
Definition txset_size (t : TransactionsByPriceAndNonce) : nat := length (ts_heads t) + sum_list_with (λ p, length p.2) (map_to_list (ts_txs t)).
Definition env_commitTransactions (txs : TransactionsByPriceAndNonce) (coinbase : Address) (interrupt : option (nat → Z)) : GoM (environment T) Empty_set bool := λ env,
  match (match env_gasPool env with Some gp => Ok gp | None => AddGas 0 (GasLimit (env_header env)) end) with
  | Ok gp => commit_loop (S (txset_size txs)) 0 txs coinbase interrupt (set_run (Some gp) (env_state env) (GasUsed (env_header env)) env)
  | Err e => (Err e, env)
  | Panic p => (Panic p, env)
  end.

(** [commitUncle] *)
Definition commitUncle (uncle : Header) : GoM (environment T) uncle_error unit :=
  env ← get_state;
  let hash := Header_Hash uncle in
  if bool_decide (is_Some (env_uncles env !! hash)) then throw errUncleNotUnique else
  if ParentHash (env_header env) =? ParentHash uncle then throw errUncleSibling else
  if negb (bool_decide (ParentHash uncle ∈ env_ancestors env)) then throw errUncleParentUnknown else
  if bool_decide (hash ∈ env_family env) then throw errUncleIncluded else
  modify (add_uncle hash).

(** [makeCurrent], once the state of the parent is open; [ancestors] are the
    blocks that [GetBlocksFromHash(parent, 7)] finds. *)
Definition makeCurrent (opened : StateDB T) (ancestors : list Block) (header : Header) : environment T :=
  mkEnv opened
    (list_to_set ((λ b, Header_Hash (block_header b)) <$> ancestors))
    (list_to_set (mjoin ((λ b, (Header_Hash <$> block_uncles b) ++ [Header_Hash (block_header b)]) <$> ancestors)))
    ∅ 0 None header [] [].

(** The uncles of the environment, as the worker knows them. *)
Fixpoint each_uncle (hashes : list Hash) (localUncles remoteUncles : gmap Hash Block) : list Header :=
  match hashes with
  | [] => []
  | hash :: hashes =>
      match localUncles !! hash with
      | Some uncle => block_header uncle :: each_uncle hashes localUncles remoteUncles
      | None => match remoteUncles !! hash with
                | Some uncle => block_header uncle :: each_uncle hashes localUncles remoteUncles
                | None => each_uncle hashes localUncles remoteUncles
                end
      end
  end.
Definition current_uncles env (localUncles remoteUncles : gmap Hash Block) : list Header := each_uncle (fst <$> map_range (env_uncles env)) localUncles remoteUncles.
End environment.

(** * The worker

    What the worker asks of the node: the chain, the engine and the pool. *)
Class WorkerChain (C T : Type) := {
  wc_CurrentBlock : C → Block;
  wc_StateAt : C → Hash → option (StateDB T);
  wc_GetBlocksFromHash : C → Hash → nat → list Block;
  wc_HasBlock : C → Hash → Z → bool;
  wc_Prepare : C → Header → option Header;
  wc_SealHash : Header → Hash;
  wc_Pending : C → gmap Address (list Transaction);
  wc_PendingCount : C → Z;
  wc_Locals : C → list Address
}.
Arguments w_coinbase {T} _. Arguments w_extra {T} _. Arguments w_running {T} _. Arguments w_current {T} _. Arguments w_localUncles {T} _. Arguments w_remoteUncles {T} _.
Arguments w_pendingTasks {T} _. Arguments w_snapshot {T} _. Arguments w_prev {T} _. Arguments w_prevTask {T} _. Arguments w_posted {T} _. Arguments w_unconfirmed {T} _.
Arguments mkWorker {T} _ _ _ _ _ _ _ _ _ _ _ _.
Inductive worker_error := errFinalize | errUncle (e : uncle_error).
Definition staleThreshold : Z := 7.
Definition miningLogAtDepth : Z := 7.

Section worker.
Context {T : Type} `{StateTrie T} `{StateStore} `{Crypto} `{TxCrypto} `{BlockDigests} `{BlockEngine} `{MapRange} {C : Type} `{WorkerChain C T}.
Context (ChainID : option Z) (GasFloor GasCeil : Z).
Implicit Types (w : worker T).
Abbreviation M := (GoM (worker T) worker_error).

Definition set_current (c : option (environment T)) w : worker T :=
  mkWorker (w_coinbase w) (w_extra w) (w_running w) c (w_localUncles w) (w_remoteUncles w) (w_pendingTasks w) (w_snapshot w) (w_prev w) (w_prevTask w) (w_posted w) (w_unconfirmed w).
Definition set_uncles (l r : gmap Hash Block) w : worker T :=
  mkWorker (w_coinbase w) (w_extra w) (w_running w) (w_current w) l r (w_pendingTasks w) (w_snapshot w) (w_prev w) (w_prevTask w) (w_posted w) (w_unconfirmed w).
Definition set_pendingTasks (ts : gmap Hash (task T)) w : worker T :=
  mkWorker (w_coinbase w) (w_extra w) (w_running w) (w_current w) (w_localUncles w) (w_remoteUncles w) ts (w_snapshot w) (w_prev w) (w_prevTask w) (w_posted w) (w_unconfirmed w).
Definition set_snapshot (x : Block * StateDB T) w : worker T :=
  mkWorker (w_coinbase w) (w_extra w) (w_running w) (w_current w) (w_localUncles w) (w_remoteUncles w) (w_pendingTasks w) (Some x) (w_prev w) (w_prevTask w) (w_posted w) (w_unconfirmed w).
Definition set_prev (h : Hash) (t : option (task T)) w : worker T :=
  mkWorker (w_coinbase w) (w_extra w) (w_running w) (w_current w) (w_localUncles w) (w_remoteUncles w) (w_pendingTasks w) (w_snapshot w) h t (w_posted w) (w_unconfirmed w).
Definition set_posted (ts : list (task T)) w : worker T :=
  mkWorker (w_coinbase w) (w_extra w) (w_running w) (w_current w) (w_localUncles w) (w_remoteUncles w) (w_pendingTasks w) (w_snapshot w) (w_prev w) (w_prevTask w) ts (w_unconfirmed w).
Definition set_unconfirmed (l : list (Z * Hash)) w : worker T :=
  mkWorker (w_coinbase w) (w_extra w) (w_running w) (w_current w) (w_localUncles w) (w_remoteUncles w) (w_pendingTasks w) (w_snapshot w) (w_prev w) (w_prevTask w) (w_posted w) l.
Definition set_running (b : bool) w : worker T :=
  mkWorker (w_coinbase w) (w_extra w) b (w_current w) (w_localUncles w) (w_remoteUncles w) (w_pendingTasks w) (w_snapshot w) (w_prev w) (w_prevTask w) (w_posted w) (w_unconfirmed w).
Definition setEtherbase (addr : Address) w : worker T :=
  mkWorker addr (w_extra w) (w_running w) (w_current w) (w_localUncles w) (w_remoteUncles w) (w_pendingTasks w) (w_snapshot w) (w_prev w) (w_prevTask w) (w_posted w) (w_unconfirmed w).
Definition setExtra (extra : list byte) w : worker T :=
  mkWorker (w_coinbase w) extra (w_running w) (w_current w) (w_localUncles w) (w_remoteUncles w) (w_pendingTasks w) (w_snapshot w) (w_prev w) (w_prevTask w) (w_posted w) (w_unconfirmed w).

(** [NumberU64] dereferences the number. *)
Definition NumberU64 {E} (h : Header) : Result E Z := match Number h with Some n => Ok (TxSigning.Uint64 n) | None => Panic NilDereference end.
(** Run an operation on [w.current]; its error is handed on as [f] says. *)
Definition on_current {E A} (f : E → worker_error) (m : GoM (environment T) E A) : M A := λ w,
  match w_current w with
  | None => (Panic NilDereference, w)
  | Some env =>
      match m env with
      | (Ok a, env) => (Ok a, set_current (Some env) w)
      | (Err e, env) => (Err (f e), set_current (Some env) w)
      | (Panic p, env) => (Panic p, set_current (Some env) w)
      end
  end.

(** ** Blocks mined here *)
Fixpoint unconfirmed_Shift (height : Z) (blocks : list (Z * Hash)) : list (Z * Hash) :=
  match blocks with
  | [] => []
  | next :: blocks => if height <? (next.1 + miningLogAtDepth)%u64 then next :: blocks else unconfirmed_Shift height blocks
  end.
Definition unconfirmed_Insert (index : Z) (hash : Hash) (blocks : list (Z * Hash)) : list (Z * Hash) := unconfirmed_Shift index blocks ++ [(index, hash)].

(** ** Assembling *)
Definition clearPending (number : Z) : M unit :=
  w ← get_state;
  numbers ← for_acc (map_range (w_pendingTasks w)) (λ ht tasks,
    n ← lift (NumberU64 (block_header (task_block ht.2)));
    mret (if (n + staleThreshold)%u64 <=? number then delete ht.1 tasks else tasks)) (w_pendingTasks w);
  modify (set_pendingTasks numbers).
Definition state_copy (s : StateDB T) : Result worker_error (StateDB T) :=
  match Copy s with Ok s => Ok s | Err _ => Err errFinalize | Panic p => Panic p end.
Definition updateSnapshot : M unit :=
  w ← get_state;
  match w_current w with
  | None => panic NilDereference
  | Some env =>
      match NewBlock (env_header env) (env_txs env) (current_uncles env (w_localUncles w) (w_remoteUncles w)) (env_receipts env) with
      | Ok block => s ← lift (state_copy (env_state env)); modify (set_snapshot (block, s))
      | Err _ => throw errFinalize
      | Panic p => panic p
      end
  end.
(** The [Finalize] of both engines: the root and the hash of no uncles go to the
    header that the environment keeps. *)
Definition finalized_header (root : Hash) (h : Header) : Header := with_UncleHash (with_Root h root) EmptyUncleHash.
Definition commit (chain : C) (update : bool) : M unit :=
  w ← get_state;
  match w_current w with
  | None => panic NilDereference
  | Some env =>
      s ← lift (state_copy (env_state env));
      let '(root, s) := IntermediateRoot true s in
      let header := finalized_header root (env_header env) in
      modify (set_current (Some (set_env_header header env)));;
      match NewBlock header (env_txs env) [] (env_receipts env) with
      | Err _ => throw errFinalize
      | Panic p => panic p
      | Ok block =>
          (if w_running w && negb ((length (block_transactions block) =? 0)%nat && (0 <? wc_PendingCount chain)) then
             modify (λ w, set_posted (w_posted w ++ [mkTask (env_receipts env) s block]) w);;
             n ← lift (NumberU64 (block_header block));
             modify (λ w, set_unconfirmed (unconfirmed_Shift (n - 1)%u64 (w_unconfirmed w)) w)
           else mret tt);;
          if update then updateSnapshot else mret tt
      end
  end.
Definition commitTransactions (txs : TransactionsByPriceAndNonce) (coinbase : Address) (interrupt : option (nat → Z)) : M bool :=
  w ← get_state;
  match w_current w with
  | None => mret true
  | Some _ => on_current (λ e : Empty_set, match e with end) (env_commitTransactions ChainID txs coinbase interrupt)
  end.

(** The closure [commitUncles]: stale blocks are forgotten, then at most two
    uncles are taken. *)
Definition drop_stale (number : Z) (blocks : gmap Hash Block) : M (gmap Hash Block) :=
  for_acc (map_range blocks) (λ hb kept,
    n ← lift (NumberU64 (block_header hb.2));
    mret (if (n + staleThreshold)%u64 <=? number then delete hb.1 kept else kept)) blocks.
Definition take_uncles (blocks : gmap Hash Block) (uncles : list Header) : M (list Header) :=
  for_acc (map_range blocks) (λ hb uncles,
    if (length uncles =? 2)%nat then mret uncles else
    committed ← attempt (on_current errUncle (commitUncle (block_header hb.2)));
    mret (match committed with inr _ => uncles ++ [block_header hb.2] | inl _ => uncles end)) uncles.

(** The timestamp and the header that [commitNewWork] starts from.  Its wait for a
    timestamp that is ahead of the clock is left out: the chain, the pool and
    the uncles are as they are when it goes on. *)
Definition new_timestamp (parent : Block) (timestamp : Z) : Z :=
  if timestamp <=? Time (block_header parent) then (Time (block_header parent) + 1)%u64 else timestamp.
Definition new_header (parent : Block) (timestamp : Z) w : Result worker_error Header :=
  match Number (block_header parent) with
  | None => Panic NilDereference
  | Some num =>
      Ok (mkHeader (Header_Hash (block_header parent)) 0 (if w_running w then w_coinbase w else zero_address) 0 0 0 0 None (Some (num + 1))
            (CalcGasLimit (block_header parent) GasFloor GasCeil) 0 (new_timestamp parent timestamp) (w_extra w) 0 0)
  end.
Definition split_locals (locals : list Address) (pending : gmap Address (list Transaction)) : gmap Address (list Transaction) * gmap Address (list Transaction) :=
  foldl (λ lr account,
    match lr.2 !! account with
    | Some (tx :: txs) => (<[account := tx :: txs]> lr.1, delete account lr.2)
    | _ => lr
    end) (∅, pending) locals.
Definition commit_pending (txs : gmap Address (list Transaction)) (interrupt : option (nat → Z)) : M bool :=
  w ← get_state;
  if bool_decide (txs = ∅) then mret false else
  match w_current w with
  | None => panic NilDereference
  | Some _ =>
      set ← lift (NewTransactionsByPriceAndNonce (NewEIP155Signer ChainID) txs);
      commitTransactions set (w_coinbase w) interrupt
  end.
(** [commitNewWork], once the environment is made: the uncles, an empty block in
    advance, and the pending transactions, local ones first. *)
Definition fill_new_work (chain : C) (interrupt : option (nat → Z)) (noempty : bool) (header : Header) : M unit :=
  w ← get_state;
  number ← lift (NumberU64 header);
  localUncles ← drop_stale number (w_localUncles w);
  modify (set_uncles localUncles (w_remoteUncles w));;
  uncles ← take_uncles localUncles [];
  remoteUncles ← drop_stale number (w_remoteUncles w);
  modify (set_uncles localUncles remoteUncles);;
  uncles ← take_uncles remoteUncles uncles;
  (if noempty then mret tt else attempt (commit chain false) ≫= λ _ : worker_error + unit, mret tt);;
  let pending := wc_Pending chain in
  if bool_decide (pending = ∅) then updateSnapshot else
  let '(localTxs, remoteTxs) := split_locals (wc_Locals chain) pending in
  discarded ← commit_pending localTxs interrupt;
  if discarded : bool then mret tt else
  discarded ← commit_pending remoteTxs interrupt;
  if discarded : bool then mret tt else
  attempt (commit chain true) ≫= λ _ : worker_error + unit, mret tt.
(** [commitNewWork] *)
Definition commitNewWork (chain : C) (interrupt : option (nat → Z)) (noempty : bool) (timestamp : Z) : M unit :=
  w ← get_state;
  let parent := wc_CurrentBlock chain in
  header ← lift (new_header parent timestamp w);
  if w_running w && (w_coinbase w =? zero_address) then mret tt else
  match wc_Prepare chain header with
  | None => mret tt
  | Some header =>
      match wc_StateAt chain (Root (block_header parent)) with
      | None => mret tt
      | Some opened =>
          modify (set_current (Some (makeCurrent opened (wc_GetBlocksFromHash chain (Header_Hash (block_header parent)) 7) header)));;
          fill_new_work chain interrupt noempty header
      end
  end.

(** ** Events *)
(** [commitWork] interrupts the work under way with [s] and, when running, asks
    for new work; that work is started by the scheduler. *)
Definition commitWork (noempty : bool) (timestamp : Z) : M (option (bool * Z)) :=
  w ← get_state;
  mret (if w_running w then Some (noempty, timestamp) else None).
Definition start (chain : C) (now : Z) : M (option (bool * Z)) :=
  modify (set_running true);;
  n ← lift (NumberU64 (block_header (wc_CurrentBlock chain)));
  clearPending n;;
  commitWork false now.
Definition stop : M unit := modify (set_running false).
Definition handleChainHeadEvent (now : Z) (head : Block) : M (option (bool * Z)) :=
  n ← lift (NumberU64 (block_header head));
  clearPending n;;
  commitWork false now.
Definition handleChainSideEvent (chain : C) (isLocalBlock : Block → bool) (block : Block) : M unit :=
  w ← get_state;
  let hash := Header_Hash (block_header block) in
  if bool_decide (is_Some (w_localUncles w !! hash)) then mret tt else
  if bool_decide (is_Some (w_remoteUncles w !! hash)) then mret tt else
  (if isLocalBlock block then modify (λ w, set_uncles (<[hash := block]> (w_localUncles w)) (w_remoteUncles w) w)
   else modify (λ w, set_uncles (w_localUncles w) (<[hash := block]> (w_remoteUncles w)) w));;
  match w_current w with
  | Some env =>
      if w_running w && (size (env_uncles env) <? 2)%nat then
        committed ← attempt (E' := worker_error) (on_current errUncle (commitUncle (block_header block)));
        match committed with
        | inr _ => attempt (commit chain true) ≫= λ _ : worker_error + unit, mret tt
        | inl _ => mret tt
        end
      else mret tt
  | None => mret tt
  end.
Definition by_sender (signer : Signer) (txs : list Transaction) : gmap Address (list Transaction) :=
  foldl (λ m tx, let acc := sender_or_zero signer tx in <[acc := default [] (m !! acc) ++ [tx]]> m) ∅ txs.
(** [dev]: the period of the engine is zero. *)
Definition handleTxEvent (chain : C) (dev : bool) (now : Z) (txs : list Transaction) : M unit :=
  w ← get_state;
  match w_current w with
  | Some _ =>
      if negb (w_running w) then
        set ← lift (NewTransactionsByPriceAndNonce (NewEIP155Signer ChainID) (by_sender (NewEIP155Signer ChainID) txs));
        commitTransactions set (w_coinbase w) None;;
        updateSnapshot
      else if dev then commitNewWork chain None true now else mret tt
  | None => if dev then commitNewWork chain None true now else mret tt
  end.

(** ** Sealing *)
(** A task that the scheduler runs: the block whose sealing starts. *)
Definition task_Run (t : task T) : M (option Block) :=
  w ← get_state;
  let sealHash := wc_SealHash (block_header (task_block t)) in
  if sealHash =? w_prev w then mret None else
  modify (set_prev sealHash (Some t));;
  modify (λ w, set_pendingTasks (<[sealHash := t]> (w_pendingTasks w)) w);;
  mret (Some (task_block t)).
(** The receipts of a task and their logs, located in the sealed block. *)
Definition locate_log (hash : Hash) (l : Log) : Log :=
  mkLog (lAddress l) (lTopics l) (lData l) (lBlockNumber l) (lTxHash l) (lTxIndex l) hash (lIndex l) (lRemoved l).
Definition locate_receipt (hash : Hash) (number : option Z) (i : Z) (r : Receipt) : Receipt :=
  mkReceipt (rPostState r) (rStatus r) (rCumulativeGasUsed r) (rBloom r) (locate_log hash <$> rLogs r) (rTxHash r) (rContractAddress r) (rGasUsed r) hash number i.
Fixpoint locate (hash : Hash) (number : option Z) (i : Z) (receipts : list Receipt) : list Receipt :=
  match receipts with
  | [] => []
  | r :: receipts => locate_receipt hash number i r :: locate hash number (i + 1) receipts
  end.
(** [handleResult]: what is handed to [WriteBlockWithState], whose success is
    [written].  The receipts of the task are changed in place. *)
Definition handleResult (chain : C) (block : Block) (written : bool) : M (option (Block * list Receipt * StateDB T)) :=
  w ← get_state;
  let hash := Header_Hash (block_header block) in
  number ← lift (NumberU64 (block_header block));
  if wc_HasBlock chain hash number then mret None else
  let sealhash := wc_SealHash (block_header block) in
  match w_pendingTasks w !! sealhash with
  | None => mret None
  | Some t =>
      let receipts := locate hash (Number (block_header block)) 0 (task_receipts t) in
      modify (set_pendingTasks (<[sealhash := mkTask receipts (task_state t) (task_block t)]> (w_pendingTasks w)));;
      (if written then modify (λ w, set_unconfirmed (unconfirmed_Insert number hash (w_unconfirmed w)) w) else mret tt);;
      mret (Some (block, receipts, task_state t))
  end.

(** The pending block and its state. *)
Definition pending w : Result worker_error (option (Block * StateDB T)) :=
  match w_snapshot w with None => Ok None | Some (block, s) => s ← state_copy s; mret (Some (block, s)) end.
Definition pendingBlock w : option Block := fst <$> w_snapshot w.
End worker.

(** * The miner ([miner/miner.go])

    Starting is put off while the node downloads the chain; the first download
    that ends also ends the subscription. *)
Record Miner (T : Type) := mkMiner { mi_worker : worker T; mi_coinbase : Address; mi_canStart : bool; mi_shouldStart : bool; mi_subscribed : bool }.
Arguments mkMiner {T} _ _ _ _ _. Arguments mi_worker {T} _. Arguments mi_coinbase {T} _. Arguments mi_canStart {T} _. Arguments mi_shouldStart {T} _. Arguments mi_subscribed {T} _.
Inductive downloader_event := StartEvent | DoneEvent | FailedEvent.
Inductive miner_error := errExtraTooLong | errWorker (e : worker_error).
Definition MaximumExtraDataSize : Z := 32.

Section miner.
Context {T : Type} `{MapRange} {C : Type} `{WorkerChain C T}.
Implicit Types (m : Miner T).
Abbreviation MM := (GoM (Miner T) miner_error).
Definition on_worker {A} (f : GoM (worker T) worker_error A) : MM A := λ m,
  let '(r, w) := f (mi_worker m) in
  (match r with Ok a => Ok a | Err e => Err (errWorker e) | Panic p => Panic p end, mkMiner w (mi_coinbase m) (mi_canStart m) (mi_shouldStart m) (mi_subscribed m)).
Definition set_flags (can should subscribed : bool) m : Miner T := mkMiner (mi_worker m) (mi_coinbase m) can should subscribed.
Definition NewMiner (w : worker T) : Miner T := mkMiner w zero_address true true true.
Definition Mining m : bool := w_running (mi_worker m).
Definition SetEtherbase (addr : Address) : MM unit :=
  modify (λ m, mkMiner (mi_worker m) addr (mi_canStart m) (mi_shouldStart m) (mi_subscribed m));;
  on_worker (modify (setEtherbase addr)).
Definition Miner_Start (chain : C) (now : Z) (coinbase : Address) : MM (option (bool * Z)) :=
  modify (λ m, set_flags (mi_canStart m) true (mi_subscribed m) m);;
  SetEtherbase coinbase;;
  m ← get_state;
  if negb (mi_canStart m) then mret None else on_worker (start chain now).
Definition Miner_Stop : MM unit :=
  on_worker stop;;
  modify (λ m, set_flags (mi_canStart m) false (mi_subscribed m) m).
Definition SetExtra (extra : list byte) : MM unit :=
  if MaximumExtraDataSize <? Z.of_nat (length extra) then throw errExtraTooLong else on_worker (modify (setExtra extra)).
(** What [update] subscribes to. *)
Definition miner_event (chain : C) (now : Z) (ev : downloader_event) : MM (option (bool * Z)) :=
  m ← get_state;
  if negb (mi_subscribed m) then mret None else
  match ev with
  | StartEvent =>
      modify (λ m, set_flags false (mi_shouldStart m) (mi_subscribed m) m);;
      if Mining m then
        Miner_Stop;;
        modify (λ m, set_flags (mi_canStart m) true (mi_subscribed m) m);;
        mret None
      else mret None
  | _ =>
      let shouldStart := mi_shouldStart m in
      modify (λ m, set_flags true false (mi_subscribed m) m);;
      request ← (if shouldStart then Miner_Start chain now (mi_coinbase m) else mret None);
      modify (λ m, set_flags (mi_canStart m) (mi_shouldStart m) false m);;
      mret request
  end.
End miner.
