(* ===== verification/WorkerSpec.v ===== *)
(** What a mining cycle does to the environment it works in: the transactions it
    keeps, processed in any state with the same accounts, give its receipts, its
    gas and its accounts, whatever was refused and reverted in between; the
    order in which transactions are offered; and the end of the loop. *)
From S2P Require Import Prelude Hoare Types Sealing Blocks Heap Transition TransitionEffect StateDB StateRevert.
From S2P Require Import StateTransfer TxSigning StateFinalise Processor Twin Worker.

Section replay.
Context {T : Type} `{StateTrieLaws T} `{StateStoreLaws} `{!StateStoreIdle} `{Crypto} `{TxCrypto} `{BlockDigests} `{BlockEngine}.
Context (ChainID : option Z).
Implicit Types (s t : StateDB T) (r : BlockRun T) (a : Address).

(** The same accounts, with nothing pending. *)
Definition alike s t : Prop := clean s ∧ clean t ∧ ∀ a, view s a = view t a.
Lemma alike_refl s : clean s → alike s s.
Proof. done. Qed.
Lemma view_Prepare th bh i s a : view (Prepare th bh i s) a = view s a.
Proof. unfold view. by rewrite !live_unfold. Qed.
Lemma account_view_view s a : account_view s a = (λ d, (aNonce d, aBalance d)) <$> (view s a).1.
Proof. unfold account_view, view. by destruct (live a s). Qed.
(** The sender can be recovered, and is not the precompile the journal treats
    apart. *)
Record sent (tx : Transaction) : Prop := {
  se_ok : tx_ok tx;
  se_from : ∃ from, Signer_Sender (MakeSigner ChainID) tx = Ok from ∧ from ≠ ripemd
}.
Lemma transition_check_mono evm msg gp gp' (w w' : World) : (∀ a, w_accounts w a = w_accounts w' a) → gp ≤ gp' → transition_check evm msg gp w = None → transition_check evm msg gp' w' = None.
Proof.
  intros Hw Hgp. unfold transition_check. cbv zeta. assert (w_nonce w' (msgFrom msg) = w_nonce w (msgFrom msg)) as -> by (unfold w_nonce; by rewrite Hw).
  assert (w_balance w' (msgFrom msg) = w_balance w (msgFrom msg)) as -> by (unfold w_balance; by rewrite Hw).
  repeat match goal with |- (if ?b then Some _ else _) = None → (if ?b then Some _ else _) = None => destruct b eqn:?; [done|] end.
  destruct (Z.ltb_spec gp (msgGasLimit msg)); [done|]. rewrite (proj2 (Z.ltb_ge gp' _)) by lia. done.
Qed.
Definition context_of (header : Header) (author : option Address) : option Address :=
  match Number header, Difficulty header with Some _, Some _ => Some (beneficiary header author) | _, _ => None end.
Lemma NewEVMContext_run header author c : context_of header author = Some c → NewEVMContext header author = Ok (mkEVM c 0).
Proof. unfold context_of, NewEVMContext, beneficiary. destruct (Number header), (Difficulty header); try done. by intros [= <-]. Qed.
(** A transaction that is applied is applied alike to another state with the same
    accounts, if its pool holds as much. *)
Lemma ApplyTransaction_twin at_tx at_tx' author author' header header' tx r r' receipt gas r1 c :
  tx_ok tx → twins at_tx at_tx' (run_state r) (run_state r') → refund (run_state r) = 0 → run_usedGas r = run_usedGas r' → run_gp r ≤ run_gp r' → is_u64 (run_gp r) → is_u64 (run_gp r') →
  context_of header author = Some c → context_of header' author' = Some c →
  ApplyTransaction ChainID author header tx r = (Ok (receipt, gas), r1) →
  ∃ r1', ApplyTransaction ChainID author' header' tx r' = (Ok (locate_receipt at_tx'.1 (Number header') at_tx'.2 receipt, gas), r1') ∧
    alike (run_state r1) (run_state r1') ∧ run_usedGas r1 = (run_usedGas r + gas)%u64 ∧ run_usedGas r1' = run_usedGas r1 ∧
    run_gp r1 = run_gp r - gas ∧ run_gp r1' = run_gp r' - gas ∧ 0 ≤ gas ≤ run_gp r.
Proof.
  intros [Hgas Hdata] Htw Hrefund Hused Hgp Hu Hu' Hc Hc' Hrun. unfold ApplyTransaction in *. unfold AsMessage in *.
  destruct (Signer_Sender (MakeSigner ChainID) tx) as [from|?|?] eqn:Hfrom; [|done..]. cbn [mbind result_bind mret result_ret] in *.
  rewrite (NewEVMContext_run _ _ _ Hc) in Hrun. rewrite (NewEVMContext_run _ _ _ Hc'). set (msg := mkMessage _ _ _ _ _ _ _ _) in *. set (evm := mkEVM c 0) in *.
  assert (message_ok msg) as Hmsg by by split. assert (is_u64 (refund (run_state r))) as Hru by (rewrite Hrefund; done).
  assert (is_u64 (refund (run_state r'))) as Hru' by (rewrite <- (tn_refund _ _ _ _ Htw), Hrefund; done).
  pose proof (ApplyMessage_run evm msg (run_gp r) (run_state r) Hu Hmsg Hru) as Hres. pose proof (ApplyMessage_run evm msg (run_gp r') (run_state r') Hu' Hmsg Hru') as Hres'.
  destruct (transition_check evm msg (run_gp r) (world_of (run_state r))) as [e|] eqn:Hcheck.
  { destruct Hres as (g & s1 & Happ & _). rewrite Happ in Hrun. done. }
  rewrite (transition_check_mono evm msg (run_gp r) (run_gp r') (world_of (run_state r)) (world_of (run_state r'))) in Hres'; [|intros a; cbn; by rewrite !account_view_view, (tn_view _ _ _ _ Htw)|done|done].
  destruct Hres as (s1 & w1 & Happ & Hw1 & Href1 & _), Hres' as (s1' & w1' & Happ' & Hw1' & Href1' & _).
  destruct (ApplyMessage_twin (rel := twins at_tx at_tx') evm msg _ _ _ _ _ _ _ _ _ _ Htw Happ Happ') as [Heq Htw1]. injection Heq as Hused'. rewrite Happ in Hrun. rewrite Happ', <- Hused'. rewrite CreateBloom_run in *.
  set (used := gas_charged msg (refund (run_state r))) in *.
  pose proof (gas_charged_bounds msg (refund (run_state r)) ltac:(apply Hru) (cost_of_bound msg)) as Hb. fold used in Hb. destruct (transition_check_funds _ _ _ _ Hcheck) as [Hcost _]. pose proof (transition_check_room _ _ _ _ Hcheck) as Hroom.
  injection Hrun as <- <- <-. pose proof Htw1 as [_ _ _ _ Hs1 Hs1']. pose proof (Finalise_twins _ _ _ _ Htw1) as [Hv _ _ Hat _ _]. rewrite <- Hused. eexists. split; [refine (f_equal2 pair (f_equal Ok (f_equal2 pair _ eq_refl)) eq_refl)|split; [|split_and!; cbn; try done; lia]].
  - pose proof (ba_logs _ (proj2 (proj2 (Finalise_sound _ Hs1)))) as Hl. pose proof (ba_logs _ (proj2 (proj2 (Finalise_sound _ Hs1')))) as Hl'.
    clear Hv. set (f := Finalise true s1) in *. set (f' := Finalise true s1') in *. clearbody f f'. subst at_tx'. unfold locate_receipt. cbn [fst snd rPostState rStatus rCumulativeGasUsed rBloom rLogs rTxHash rContractAddress rGasUsed NewReceipt].
    by rewrite Hl, Hl'.
  - split; [by apply Finalise_clean|]. split; [by apply Finalise_clean|]. done.
Qed.
End replay.

(** * Committing transactions *)
Section committing.
Context {T : Type} `{StateTrieLaws T} `{StateStoreLaws} `{!StateStoreIdle} `{Crypto} `{TxCrypto} `{BlockDigests} `{BlockEngine}.
Context (ChainID : option Z) (coinbase : Address) (h0 : Header) (s0 : StateDB T).
Implicit Types (s t : StateDB T) (env : environment T) (a : Address).

Lemma locate_snoc hash number i receipts receipt : locate hash number i (receipts ++ [receipt]) = locate hash number i receipts ++ [locate_receipt hash number (i + Z.of_nat (length receipts)) receipt].
Proof.
  revert i. induction receipts as [|x l IH]; intros i; cbn [app locate length]; [by rewrite Z.add_0_r|]. rewrite IH. cbn [app]. do 4 f_equal. lia.
Qed.
Lemma process_txs_snoc header bh i txs tx r receipts r1 receipt gas r2 : process_txs ChainID header bh i txs r = (Ok receipts, r1) →
  ApplyTransaction ChainID None header tx (mkRun (run_gp r1) (Prepare (rlpHash_tx tx) bh (i + Z.of_nat (length txs)) (run_state r1)) (run_usedGas r1)) = (Ok (receipt, gas), r2) →
  process_txs ChainID header bh i (txs ++ [tx]) r = (Ok (receipts ++ [receipt]), r2).
Proof.
  revert i r receipts. induction txs as [|tx' txs IH]; intros i r receipts Hp Ha.
  - cbn in Hp. injection Hp as <- <-. cbn [app process_txs]. rewrite Z.add_0_r in Ha. unfold mbind, gom_bind, modify, mret, gom_ret. by rewrite Ha.
  - cbn [app process_txs] in *. unfold mbind, gom_bind, modify, mret, gom_ret in *. cbv beta iota in *. destruct (ApplyTransaction _ None header tx' _) as [[[rc g]|e|p] r'] eqn:Hx; [|done..].
    destruct (process_txs ChainID header bh (i + 1) txs r') as [[rs|e|p] r''] eqn:Hy; [|done..]. injection Hp as <- <-.
    rewrite (IH (i + 1) r' rs Hy); [done|]. rewrite <- Ha. cbn [length]. do 3 f_equal. lia.
Qed.

(** What holds of the environment between two transactions: its transactions,
    processed in any state with the accounts the cycle began with, give its
    receipts, its gas and its accounts. *)
Record mined env : Prop := {
  mi_clean : clean (env_state env);
  mi_tcount : env_tcount env = Z.of_nat (length (env_txs env));
  mi_number : Number (env_header env) = Number h0;
  mi_difficulty : Difficulty (env_header env) = Difficulty h0;
  mi_bloom : Bloom (env_header env) = 0;
  mi_limit : GasLimit (env_header env) = GasLimit h0;
  mi_used : 0 ≤ GasUsed (env_header env);
  mi_first : env_gasPool env = None → GasUsed (env_header env) = 0;
  mi_pool gp : env_gasPool env = Some gp → 0 ≤ gp ∧ gp + GasUsed (env_header env) ≤ GasLimit h0;
  mi_receipts : length (env_receipts env) = length (env_txs env);
  mi_replay header bh t : context_of header None = Some coinbase → alike s0 t →
    ∃ r, process_txs ChainID header bh 0 (env_txs env) (mkRun (GasLimit h0) t 0) = (Ok (locate bh (Number header) 0 (env_receipts env)), r) ∧
      alike (env_state env) (run_state r) ∧
      run_usedGas r = GasUsed (env_header env) ∧ run_gp r + run_usedGas r = GasLimit h0
}.
Lemma purchase_room evm msg gp w e : transition_check evm msg gp w = Some e → after_purchase e = true → msgGasLimit msg ≤ gp.
Proof.
  unfold transition_check. cbv zeta. intros Hc Ha. repeat match type of Hc with (if ?b then _ else _) = _ => destruct b eqn:? end; simplify_eq; try done;
    repeat match goal with Hb : (_ <? _) = false |- _ => apply Z.ltb_ge in Hb end; lia.
Qed.
(** A transaction that is refused. *)
Lemma ApplyTransaction_refused header author tx r from c : is_u64 (run_gp r) → refund (run_state r) = 0 → tx_ok tx → Signer_Sender (MakeSigner ChainID) tx = Ok from → context_of header author = Some c →
  match ApplyTransaction ChainID author header tx r with
  | (Ok _, _) => True
  | (Err e, r1) => ∃ evm msg e' gp' s', msgFrom msg = from ∧ ApplyMessage evm msg (run_gp r) (run_state r) = (Err e', (gp', s')) ∧ r1 = mkRun gp' s' (run_usedGas r) ∧ 0 ≤ gp' ≤ run_gp r
  | (Panic _, _) => False
  end.
Proof.
  intros Hgp Hrf [Hgas Hdata] Hfrom Hc. unfold ApplyTransaction, AsMessage. rewrite Hfrom. cbn [mbind result_bind mret result_ret]. rewrite (NewEVMContext_run _ _ _ Hc). set (msg := mkMessage _ _ _ _ _ _ _ _). set (evm := mkEVM c 0).
  assert (message_ok msg) as Hmsg by by split. assert (is_u64 (refund (run_state r))) as Hru by (rewrite Hrf; done).
  pose proof (ApplyMessage_run evm msg (run_gp r) (run_state r) Hgp Hmsg Hru) as Hres. destruct (transition_check evm msg (run_gp r) (world_of (run_state r))) as [e|] eqn:Hcheck.
  - destruct Hres as (g & s1 & Happ & Hg & _). rewrite Happ. exists evm, msg, e, g, s1. split_and!; try done; u64_unfold; destruct (after_purchase e) eqn:Hap; try lia.
    + pose proof (purchase_room _ _ _ _ _ Hcheck Hap). lia.
    + cbn in Hg. lia.
  - destruct Hres as (s1 & w1 & Happ & _). rewrite Happ, CreateBloom_run. done.
Qed.
Lemma mined_same_env env env' : mined env → clean (env_state env') → (∀ a, view (env_state env') a = view (env_state env) a) → env_tcount env' = env_tcount env → env_txs env' = env_txs env →
  env_receipts env' = env_receipts env → env_header env' = env_header env → is_Some (env_gasPool env') →
  (∀ gp, env_gasPool env' = Some gp → 0 ≤ gp ∧ gp + GasUsed (env_header env) ≤ GasLimit h0) → mined env'.
Proof.
  intros [M1 M2 M3 M4 Mb M5 M6 _ M7 Mr M8] Hc Hv Ht Hx Hr Hh [gp Hsome] Hg. split; rewrite ?Ht, ?Hx, ?Hh, ?Hr; [exact Hc|exact M2|exact M3|exact M4|exact Mb|exact M5|exact M6|by rewrite Hsome|exact Hg|exact Mr|].
  intros header bh t Hcb Ha. destruct (M8 header bh t Hcb Ha) as (r & Hp & (Hal1 & Hal2 & Hal3) & Hu & Hgp).
  exists r. split; [done|]. split; [|done]. split; [done|]. split; [done|]. intros a. by rewrite Hv, Hal3.
Qed.
Lemma commitTransaction_mined env tx gp : is_u64 (GasLimit h0) → context_of h0 (Some coinbase) = Some coinbase → mined env → env_gasPool env = Some gp → sent ChainID tx →
  ∃ result env', commitTransaction ChainID tx coinbase (set_env_state (Prepare (rlpHash_tx tx) zero_hash (env_tcount env) (env_state env)) env) = (result, env') ∧
    match result with
    | Ok _ => mined (add_tcount env') ∧ env_txs env' = env_txs env ++ [tx]
    | Err _ => mined env' ∧ env_txs env' = env_txs env
    | Panic _ => False
    end ∧ is_Some (env_gasPool env').
Proof.
  intros Hlim Hctx Hm Hgp [Hok (from & Hfrom & Hrip)]. pose proof (mi_pool env Hm gp Hgp) as [Hg0 Hgl]. pose proof (mi_used _ Hm) as Hused. assert (is_u64 gp) as Hgu by (u64_unfold; lia).
  pose proof (mi_clean _ Hm) as Hcl. pose proof (Prepare_clean (rlpHash_tx tx) zero_hash (env_tcount env) _ Hcl) as Hclp. set (sp := Prepare _ _ _ _) in *.
  unfold commitTransaction. cbn [set_env_state set_run env_gasPool env_state env_header]. rewrite Hgp. destruct (Snapshot sp) as [snap ss] eqn:Hsnap.
  assert (ss = (Snapshot sp).2) as Hss by by rewrite Hsnap. assert (snap = (Snapshot sp).1) as Hsn by by rewrite Hsnap.
  assert (with_GasUsed (env_header env) (GasUsed (env_header env)) = env_header env) as Hwg by by destruct (env_header env).
  rewrite Hwg. set (r0 := mkRun gp ss (GasUsed (env_header env))).
  assert (∀ t, clean t → (∀ a, view sp a = view t a) → twins (bhash ss, txIndex ss) (bhash t, txIndex t) ss t) as Htwin.
  { intros t Ht Hv. subst ss. split; [intros a; rewrite <- Hv; unfold view; by rewrite !live_unfold|cbn; rewrite (cl_refund _ Ht); apply Hclp|done|done| |apply Ht].
    destruct Hclp as [(Ts & Ns & [Bo Bp Bl Bd]) _ _ _ _]. split; [by eapply tidy_frame|]. split; [|by split]. apply (no_suicide_same sp); [|done]. intros b. by rewrite !live_unfold. }
  assert (refund ss = 0) as Hrf by (subst ss; apply Hclp).
  assert (context_of (env_header env) (Some coinbase) = Some coinbase) as Hctx'.
  { unfold context_of in *. by rewrite (mi_number _ Hm), (mi_difficulty _ Hm). }
  pose proof (NewEVMContext_run _ _ _ Hctx') as Hevm.
  destruct (ApplyTransaction ChainID (Some coinbase) (env_header env) tx r0) as [[[receipt gas]|err|p] r1] eqn:Happ.
  - (* applied *)
    destruct (ApplyTransaction_twin ChainID _ _ (Some coinbase) (Some coinbase) (env_header env) (env_header env) tx r0 (mkRun gp sp (GasUsed (env_header env))) receipt gas r1 coinbase Hok (Htwin sp Hclp (λ a, eq_refl))) as (r1' & _ & (Hc1 & _ & _) & Hu1 & _ & Hg1 & _ & Hgas); try done.
    cbn in Hu1, Hg1, Hgas. do 2 eexists. split; [done|]. split; [|by eexists]. split; [|done].
    assert (run_usedGas r1 = GasUsed (env_header env) + gas) as Hu2 by (rewrite Hu1; apply u64_add_id; u64_unfold; lia).
    destruct Hm as [_ Htc Hn Hd Hb Hl _ _ _ Hlen Hrep]. split; cbn; try done; [rewrite length_app; cbn; lia|lia|intros g [= <-]; lia|rewrite !length_app; cbn; lia|].
    intros header bh t Hcb Ha. destruct (Hrep header bh t Hcb Ha) as (r & Hp & (_ & Hcr & Hvr) & Hur & Hgr).
    set (tp := Prepare (rlpHash_tx tx) bh (0 + Z.of_nat (length (env_txs env))) (run_state r)).
    assert (twins (bhash ss, txIndex ss) (bhash tp, txIndex tp) ss tp) as Htw.
    { apply Htwin; [by apply Prepare_clean|intros a; unfold sp, tp; rewrite !view_Prepare; apply Hvr]. }
    destruct (ApplyTransaction_twin ChainID _ _ (Some coinbase) None (env_header env) header tx r0 (mkRun (run_gp r) tp (run_usedGas r)) receipt gas r1 coinbase Hok Htw)
      as (r2 & Ha2 & Hal2 & _ & Hu2' & _ & Hg2 & _); try done; cbn; [lia|u64_unfold; lia|].
    exists r2. split; [|split; [done|split; [done|cbn in Hg2; lia]]]. rewrite locate_snoc, Hlen. by eapply process_txs_snoc.
  - (* refused and reverted *)
    pose proof (ApplyTransaction_refused (env_header env) (Some coinbase) tx r0 from coinbase Hgu Hrf Hok Hfrom Hctx') as Href. rewrite Happ in Href.
    destruct Href as (evm & msg & e' & gp' & s' & Hmf & Hmsg & -> & Hgp'). cbn [run_gp run_state run_usedGas] in *. subst ss.
    destruct (fail_and_revert evm msg gp sp e' gp' s') as (s3 & Hrev & Hc3 & Hv3 & _); [by rewrite Hmf|done|done|]. rewrite Hsn, Hrev.
    do 2 eexists. split; [done|]. split; [|by eexists]. split; [|done]. cbn [set_env_state set_run env_gasPool]. apply (mined_same_env env); cbn; try done.
    + intros a. rewrite Hv3. unfold sp. by rewrite view_Prepare.
    + intros g [= <-]. change (run_gp r0) with gp in Hgp'. lia.
  - pose proof (ApplyTransaction_refused (env_header env) (Some coinbase) tx r0 from coinbase Hgu Hrf Hok Hfrom Hctx') as Href. by rewrite Happ in Href.
Qed.
End committing.

(** * The order of transactions *)
Section order.
Context `{Crypto} `{TxCrypto} `{MapRange}.
Implicit Types (t : TransactionsByPriceAndNonce) (tx : Transaction) (l : list Transaction).

#[export] Instance price_order : WeakOrder price_less.
Proof. split; unfold price_less; intros; rewrite ?Z.ltb_lt, ?Z.ltb_ge in *; lia. Qed.
Lemma Fix_head_ok {A} (less : A → A → bool) `{WeakOrder A less} (x y : A) (l : list A) : heap less (x :: l) → heap less (heap_Fix less (y :: l) 0) ∧ heap_Fix less (y :: l) 0 ≡ₚ y :: l.
Proof.
  intros Hl. unfold heap_Fix, down. cbn [length].
  destruct (down_loop_ok less (S (S (length l))) (y :: l) 0 (S (length l)) 0 False) as (l' & i' & Hrun & Hp & _ & _ & Hs & Hch & _); [done|lia|lia| |].
  - split; [|lia|done]. intros k Hk _ Hpk Hk0. pose proof (parent_lt k ltac:(lia)). intros a b Ha Hb. destruct k as [|k]; [lia|]. destruct (parent (S k)) as [|p] eqn:Hpar; [lia|].
    apply (Hl (S k)); [cbn; lia|by rewrite Hpar|done].
  - rewrite Hrun. assert (ordered less l' (S (length l))) as Ho.
    { intros k Hk. pose proof (parent_lt k ltac:(lia)). destruct (decide (parent k = i')) as [Hpk|Hpk]; [subst i'; by apply Hch|].
      destruct (decide (k = i')) as [->|Hki]; [|apply (sk_order _ _ _ _ _ _ Hs); [lia..|done|done]].
      apply (sk_moved _ _ _ _ _ _ Hs); [right; lia|lia..]. }
    assert (heap less l') as Hh by (unfold heap; by rewrite (Permutation_length Hp)).
    destruct (bool_decide _); [done|]. unfold up. cbn [up_loop]. done.
Qed.

(** The queues of the accounts, what is left of them. *)
Definition heads_of (q : gmap Address (list Transaction)) : list Transaction := omap (λ al : Address * list Transaction, head al.2) (map_to_list q).
Record stands_for_queues (t : TransactionsByPriceAndNonce) (q : gmap Address (list Transaction)) : Prop := {
  sq_heap : heap price_less (ts_heads t);
  sq_heads : ts_heads t ≡ₚ heads_of q;
  sq_rest a tx l : q !! a = Some (tx :: l) → ts_txs t !! a = Some l;
  sq_sender a l tx : q !! a = Some l → tx ∈ l → sender_or_zero (ts_signer t) tx = a
}.
Lemma heads_of_elem q tx : tx ∈ heads_of q ↔ ∃ a l, q !! a = Some (tx :: l).
Proof.
  unfold heads_of. rewrite list_elem_of_omap. split.
  - intros ([a l] & Hin%elem_of_map_to_list & Hh). destruct l as [|x l]; [done|]. injection Hh as ->. by exists a, l.
  - intros (a & l & Hq). exists (a, tx :: l). split; [by apply elem_of_map_to_list|done].
Qed.
Lemma heads_of_insert q a l : heads_of (<[a := l]> q) ≡ₚ option_list (head l) ++ heads_of (delete a q).
Proof.
  unfold heads_of. rewrite <- insert_delete_eq. rewrite map_to_list_insert by apply lookup_delete_eq. cbn. by destruct (head l).
Qed.
Lemma heads_of_lookup q a l : q !! a = Some l → heads_of q ≡ₚ option_list (head l) ++ heads_of (delete a q).
Proof. intros Hq. rewrite <- (insert_id q a l Hq) at 1. apply heads_of_insert. Qed.
Lemma Peek_queues t q tx : stands_for_queues t q → Peek t = Some tx →
  ∃ l, q !! sender_or_zero (ts_signer t) tx = Some (tx :: l) ∧ ∀ a y l', q !! a = Some (y :: l') → Price y <= Price tx.
Proof.
  intros [Hh Hp Hr Hs] Hpk. unfold Peek in Hpk. assert (tx ∈ heads_of q) as (a & l & Hq)%heads_of_elem.
  { rewrite <- Hp. destruct (ts_heads t); [done|]. injection Hpk as ->. left. }
  exists l. pose proof (Hs a _ tx Hq ltac:(left)) as <-. split; [done|]. intros b y l' Hy. assert (y ∈ ts_heads t) as Hin by (rewrite Hp; apply heads_of_elem; by exists b, l').
  pose proof (heap_head price_less _ _ Hh Hpk y Hin) as Hle. unfold price_less in Hle. apply Z.ltb_ge in Hle. lia.
Qed.
Lemma heap_pop_queues {E} t q tx l : stands_for_queues t q → Peek t = Some tx → q !! sender_or_zero (ts_signer t) tx = Some (tx :: l) →
  ∃ t', heap_pop (E := E) t = Ok t' ∧ stands_for_queues t' (<[sender_or_zero (ts_signer t) tx := []]> q) ∧ ts_signer t' = ts_signer t.
Proof.
  intros [Hh Hp Hr Hs] Hpk Hq. unfold heap_pop. destruct (Pop_ok (E := E) price_less _ _ Hh Hpk) as (heads & -> & Hperm & Hheap). cbn.
  eexists. split; [done|]. split; [|done]. split; cbn; [done| | |].
  - rewrite heads_of_insert. cbn. rewrite Hp, (heads_of_lookup _ _ _ Hq) in Hperm. cbn in Hperm. symmetry. by apply Permutation_cons_inv in Hperm.
  - intros a y l'. destruct (decide (a = sender_or_zero (ts_signer t) tx)) as [->|Hne]; [by rewrite lookup_insert_eq|rewrite lookup_insert_ne by done; apply Hr].
  - intros a l' y. destruct (decide (a = sender_or_zero (ts_signer t) tx)) as [->|Hne]; [rewrite lookup_insert_eq; intros [= <-] ?%not_elem_of_nil; done|rewrite lookup_insert_ne by done; apply Hs].
Qed.
Lemma Shift_queues {E} t q tx l : stands_for_queues t q → Peek t = Some tx → q !! sender_or_zero (ts_signer t) tx = Some (tx :: l) →
  ∃ t', Shift (E := E) t = Ok t' ∧ stands_for_queues t' (<[sender_or_zero (ts_signer t) tx := l]> q) ∧ ts_signer t' = ts_signer t.
Proof.
  intros Hsq Hpk Hq. destruct (heap_pop_queues (E := E) t q tx l Hsq Hpk Hq) as (t' & Hpop & Hsq' & Hsig). destruct Hsq as [Hh Hp Hr Hs].
  unfold Shift, Peek in *. destruct (ts_heads t) as [|x heads] eqn:Hheads; [done|]. injection Hpk as ->. set (acc := sender_or_zero (ts_signer t) tx) in *. rewrite (Hr _ _ _ Hq).
  destruct l as [|next rest]; [by exists t'|]. destruct (Fix_head_ok price_less tx next heads Hh) as [Hheap Hperm]. eexists. split; [done|]. split; [|done]. split; cbn; [done| | |].
  - rewrite Hperm, heads_of_insert. cbn. rewrite (heads_of_lookup _ _ _ Hq) in Hp. cbn in Hp. apply Permutation_cons_inv in Hp. by rewrite Hp.
  - intros a y l'. destruct (decide (a = acc)) as [->|Hne]; [rewrite !lookup_insert_eq; by intros [= -> ->]|rewrite !lookup_insert_ne by done; apply Hr].
  - intros a l' y. destruct (decide (a = acc)) as [->|Hne]; [rewrite lookup_insert_eq; intros [= <-] Hin; apply (Hs acc _ y Hq); by right|rewrite lookup_insert_ne by done; apply Hs].
Qed.

(** What the pool hands over: nobody's list is empty, and everybody's own. *)
Definition by_account (signer : Signer) (q : gmap Address (list Transaction)) : Prop :=
  ∀ a l, q !! a = Some l → l ≠ [] ∧ ∀ tx, tx ∈ l → sender_or_zero signer tx = a.
Lemma take_heads_ok {E} signer accounts txs heads : NoDup (fst <$> accounts) →
  (∀ a l, (a, l) ∈ accounts → l ≠ [] ∧ ∀ tx, tx ∈ l → sender_or_zero signer tx = a) →
  ∃ txs', take_heads (E := E) signer accounts txs heads = Ok (txs', heads ++ omap (λ al : Address * list Transaction, head al.2) accounts) ∧
    ∀ a, txs' !! a = match list_to_map (M := gmap Address (list Transaction)) accounts !! a with Some l => Some (tail l) | None => txs !! a end.
Proof.
  revert txs heads. induction accounts as [|[a l] accounts IH]; intros txs heads Hnd Hok; cbn [take_heads]; [exists txs; by rewrite app_nil_r|].
  rewrite fmap_cons in Hnd. apply NoDup_cons in Hnd as [Ha Hnd]. destruct (Hok a l ltac:(left)) as [Hne Hs]. destruct l as [|tx rest]; [done|]. cbv zeta. rewrite (Hs tx ltac:(left)), Z.eqb_refl.
  destruct (IH (<[a := rest]> txs) (heads ++ [tx]) Hnd) as (txs' & -> & Hlook); [intros b l' Hin; apply Hok; by right|]. exists txs'. split; [by rewrite <- app_assoc|].
  intros b. rewrite Hlook. cbn. destruct (decide (b = a)) as [->|Hba].
  - rewrite (not_elem_of_list_to_map_1 (M := gmap Address) accounts a Ha). by rewrite !lookup_insert_eq.
  - by rewrite !lookup_insert_ne by done.
Qed.
Lemma New_queues {E} signer q : by_account signer q → ∃ t, NewTransactionsByPriceAndNonce (E := E) signer q = Ok t ∧ stands_for_queues t q ∧ ts_signer t = signer.
Proof.
  intros Hq. unfold NewTransactionsByPriceAndNonce. pose proof (map_range_perm q) as Hperm.
  destruct (take_heads_ok (E := E) signer (map_range q) q []) as (txs' & -> & Hlook).
  - rewrite Hperm. apply NoDup_fst_map_to_list.
  - intros a l. rewrite Hperm. intros Hin%elem_of_map_to_list. by apply Hq.
  - assert (list_to_map (M := gmap Address (list Transaction)) (map_range q) = q) as Hmap.
    { rewrite (list_to_map_proper (map_range q) (map_to_list q)); [apply list_to_map_to_list|rewrite Hperm; apply NoDup_fst_map_to_list|done]. }
    rewrite Hmap in Hlook. cbn. eexists. split; [done|]. split; [|done]. destruct (Init_ok price_less (omap (λ al : Address * list Transaction, head al.2) (map_range q))) as [Hheap Hp].
    split; cbn; [done| | |].
    + rewrite Hp. unfold heads_of. by rewrite Hperm.
    + intros a tx l Ha. by rewrite Hlook, Ha.
    + intros a l tx Ha. by apply Hq.
Qed.

(** The set of transactions stands for a queue per account.  It offers a
    transaction that no account's next one outbids; [Shift] takes it off its
    queue and [Pop] empties the queue; when it offers nothing every queue is
    empty. *)
Theorem best_price_first signer q0 t q : by_account signer q0 →
  (∃ t0, NewTransactionsByPriceAndNonce (E := Empty_set) signer q0 = Ok t0 ∧ stands_for_queues t0 q0) ∧
  (stands_for_queues t q →
    (Peek t = None → ∀ a l, q !! a = Some l → l = []) ∧
    ∀ tx, Peek t = Some tx → let from := sender_or_zero (ts_signer t) tx in
      ∃ l, q !! from = Some (tx :: l) ∧ (∀ a y l', q !! a = Some (y :: l') → Price y <= Price tx) ∧
        (∃ t', Shift (E := Empty_set) t = Ok t' ∧ stands_for_queues t' (<[from := l]> q)) ∧
        (∃ t', txset_Pop (E := Empty_set) t = Ok t' ∧ stands_for_queues t' (<[from := []]> q))).
Proof.
  intros Hq0. split; [destruct (New_queues (E := Empty_set) signer q0 Hq0) as (t0 & ? & ? & _); by exists t0|]. intros Hsq. split.
  - intros Hpk a [|x l] Ha; [done|]. assert (x ∈ ts_heads t) as Hin by (rewrite (sq_heads _ _ Hsq); apply heads_of_elem; by exists a, l). unfold Peek in Hpk. destruct (ts_heads t); [by apply not_elem_of_nil in Hin|done].
  - intros tx Hpk. destruct (Peek_queues t q tx Hsq Hpk) as (l & Hl & Hbest). exists l. split; [done|]. split; [done|].
    destruct (Shift_queues (E := Empty_set) t q tx l Hsq Hpk Hl) as (t1 & ? & ? & _), (heap_pop_queues (E := Empty_set) t q tx l Hsq Hpk Hl) as (t2 & ? & ? & _). split; [by exists t1|by exists t2].
Qed.

(** ** Every turn takes a transaction out *)
Definition total_length (m : gmap Address (list Transaction)) : nat := sum_list_with (λ p : Address * list Transaction, length p.2) (map_to_list m).
Lemma sum_list_with_perm {A} (f : A → nat) (l l' : list A) : l ≡ₚ l' → sum_list_with f l = sum_list_with f l'.
Proof. induction 1; cbn; lia. Qed.
Lemma total_length_insert m a l l' : m !! a = Some l → (total_length (<[a := l']> m) + length l = total_length m + length l')%nat.
Proof.
  intros Ha. unfold total_length. rewrite <- (insert_id m a l Ha) at 2. rewrite <- (insert_delete_eq m a l), <- (insert_delete_eq m a l').
  rewrite (sum_list_with_perm _ _ _ (map_to_list_insert (delete a m) a l (lookup_delete_eq m a))), (sum_list_with_perm _ _ _ (map_to_list_insert (delete a m) a l' (lookup_delete_eq m a))). cbn. lia.
Qed.
Lemma heap_pop_size {E} t t' : heap_pop (E := E) t = Ok t' → (txset_size t' < txset_size t)%nat.
Proof.
  unfold heap_pop. destruct (ts_heads t) as [|x l] eqn:Hh; [by cbn|]. destruct (Pop_perm (E := E) price_less (x :: l) x eq_refl) as (l' & -> & Hp). cbn. intros [= <-].
  unfold txset_size. cbn. rewrite Hh. apply Permutation_length in Hp. cbn in *. lia.
Qed.
Lemma Shift_size {E} t t' : Shift (E := E) t = Ok t' → (txset_size t' < txset_size t)%nat.
Proof.
  unfold Shift. destruct (ts_heads t) as [|x l] eqn:Hh; [done|]. destruct (ts_txs t !! _) as [[|next rest]|] eqn:Ha; [apply heap_pop_size| |apply heap_pop_size].
  intros [= <-]. unfold txset_size. cbn. rewrite Hh. fold (total_length (<[sender_or_zero (ts_signer t) x := rest]> (ts_txs t))) (total_length (ts_txs t)).
  pose proof (total_length_insert _ _ _ rest Ha) as Hsum. assert (length (heap_Fix price_less (next :: l) 0) = S (length l)) as ->; [|cbn in *; lia].
  unfold heap_Fix, down. destruct (down_loop_perm price_less (S (length (next :: l))) (next :: l) 0 (length (next :: l))) as [Hp _]; [done|]. destruct (down_loop _ _ _ _ _) as [l1 i]. cbn [fst] in Hp.
  destruct (bool_decide _); [|unfold up; rewrite up_loop_perm]; by rewrite Hp.
Qed.
Lemma next_size {E} result t t' : next_txs (E := E) result t = Ok t' → (txset_size t' < txset_size t)%nat.
Proof. unfold next_txs. destruct result as [|[|[]]|]; first [apply Shift_size|apply heap_pop_size]. Qed.
End order.

(** * The loop ends *)
Section ends.
Context {T : Type} `{StateTrie T} `{StateStore} `{Crypto} `{TxCrypto} `{BlockDigests} `{BlockEngine} `{MapRange}.
Context (ChainID : option Z) (coinbase : Address) (interrupt : option (nat → Z)).
Implicit Types (env : environment T) (t : TransactionsByPriceAndNonce).

Definition signal_at (turn : nat) : Z := match interrupt with Some f => f turn | None => commitInterruptNone end.
(** Why the loop stopped, with [t] left, at its [turn]-th turn. *)
Definition stopped (turn : nat) t env (discard : bool) : Prop :=
  (signal_at turn ≠ commitInterruptNone ∧ discard = (signal_at turn =? commitInterruptNewHead)) ∨
  discard = false ∧ ((∃ gp, env_gasPool env = Some gp ∧ gp < TxGas) ∨ Peek t = None).
Definition moved_on t t' : Prop := ∃ result, next_txs (E := Empty_set) result t = Ok t'.
Lemma commit_loop_more fuel turn t env : (txset_size t < fuel)%nat → commit_loop ChainID (S fuel) turn t coinbase interrupt env = commit_loop ChainID fuel turn t coinbase interrupt env.
Proof.
  revert turn t env. induction fuel as [|fuel IH]; intros turn t env Hf; [lia|]. remember (S fuel) as fuel' eqn:Hfuel. rewrite Hfuel at 2. cbn [commit_loop]. cbv zeta.
  destruct (negb _); [done|]. destruct (env_gasPool env); [|done]. destruct (_ <? _); [done|]. destruct (Peek t); [|done]. destruct (commitTransaction _ _ _ _) as [result env1].
  destruct result as [logs|err|p]; [| |done]; (destruct (next_txs _ t) as [t'| |] eqn:Hn; [|done..]); subst fuel'; apply IH; apply next_size in Hn; lia.
Qed.
Lemma commit_loop_stops fuel turn t env b env' : (txset_size t < fuel)%nat → commit_loop ChainID fuel turn t coinbase interrupt env = (Ok b, env') →
  ∃ n t', nsteps moved_on n t t' ∧ stopped (turn + n) t' env' b.
Proof.
  revert turn t env. induction fuel as [|fuel IH]; intros turn t env Hf; [lia|]. cbn [commit_loop]. cbv zeta. fold (signal_at turn). destruct (negb _) eqn:Hsig.
  { intros [= <- <-]. exists 0%nat, t. split; [constructor|]. left. rewrite Nat.add_0_r. apply negb_true_iff, Z.eqb_neq in Hsig. done. }
  destruct (env_gasPool env) as [gp|] eqn:Hgp; [|done]. destruct (gp <? TxGas) eqn:Hg.
  { intros [= <- <-]. exists 0%nat, t. split; [constructor|]. right. split; [done|]. left. exists gp. split; [done|]. by apply Z.ltb_lt. }
  destruct (Peek t) as [tx|] eqn:Hpk; [|intros [= <- <-]; exists 0%nat, t; split; [constructor|]; right; split; [done|by right]].
  destruct (commitTransaction _ _ _ _) as [result env1].
  destruct result as [logs|err|p]; [| |done]; (destruct (next_txs _ t) as [t'| |] eqn:Hn; [|done..]); intros Hrun; pose proof (next_size _ _ _ Hn) as Hsize;
    (apply IH in Hrun as (n & t2 & Hs & Hst); [|lia]); exists (S n), t2; (split; [econstructor; [by eexists|done]|by rewrite Nat.add_succ_r]).
Qed.
Lemma moved_on_bound n t t' : nsteps moved_on n t t' → (n + txset_size t' ≤ txset_size t)%nat.
Proof. induction 1 as [|n x y z [result Hxy] _ IH]; [lia|]. apply next_size in Hxy. lia. Qed.

(** Committing transactions ends: every turn takes one out of the set, so no
    more turns than it holds are needed, and more fuel changes nothing.  When
    it ends without a panic, either it was interrupted, and the work is to be
    discarded exactly if a new head was the reason, or there is no gas left for
    any transaction, or no transaction. *)
Theorem commitTransactions_ends t env extra :
  commit_loop ChainID (S (txset_size t) + extra) 0 t coinbase interrupt env = commit_loop ChainID (S (txset_size t)) 0 t coinbase interrupt env ∧
  ∀ b env', commit_loop ChainID (S (txset_size t)) 0 t coinbase interrupt env = (Ok b, env') →
    ∃ n t', nsteps moved_on n t t' ∧ (n ≤ txset_size t)%nat ∧ stopped n t' env' b.
Proof.
  split.
  - induction extra as [|extra IH]; [by rewrite Nat.add_0_r|]. rewrite <- IH, Nat.add_succ_r. apply commit_loop_more. lia.
  - intros b env' Hrun. destruct (commit_loop_stops _ _ _ _ _ _ (Nat.lt_succ_diag_r _) Hrun) as (n & t' & Hs & Hst). exists n, t'. split; [done|]. split; [|done]. apply moved_on_bound in Hs. lia.
Qed.
End ends.

(** * A cycle *)
Section cycle.
Context {T : Type} `{StateTrieLaws T} `{StateStoreLaws} `{!StateStoreIdle} `{Crypto} `{TxCrypto} `{BlockDigests} `{BlockEngine} `{MapRange}.
Context (ChainID : option Z) (coinbase : Address) (h0 : Header) (s0 : StateDB T).
Context (Hlimit : is_u64 (GasLimit h0)) (Hcontext : context_of h0 (Some coinbase) = Some coinbase).
Abbreviation mined := (mined ChainID coinbase h0 s0).
Definition all_sent (q : gmap Address (list Transaction)) : Prop := ∀ a l, q !! a = Some l → Forall (sent ChainID) l.
Lemma all_sent_insert q a l : all_sent q → Forall (sent ChainID) l → all_sent (<[a := l]> q).
Proof. intros Hq Hl b l' [[_ <-]|[_ Hb]]%lookup_insert_Some; [done|by eapply Hq]. Qed.
Lemma next_queues t q tx l result : stands_for_queues t q → Peek t = Some tx → q !! sender_or_zero (ts_signer t) tx = Some (tx :: l) → all_sent q →
  ∃ t' q', next_txs (E := Empty_set) result t = Ok t' ∧ stands_for_queues t' q' ∧ all_sent q'.
Proof.
  intros Hsq Hpk Hq Hall. pose proof (Hall _ _ Hq) as Hl. apply Forall_cons in Hl as [_ Hl].
  destruct (Shift_queues (E := Empty_set) t q tx l Hsq Hpk Hq) as (t1 & H1' & Hs1 & _), (heap_pop_queues (E := Empty_set) t q tx l Hsq Hpk Hq) as (t2 & H2' & Hs2 & _).
  assert (∃ t' q', Shift (E := Empty_set) t = Ok t' ∧ stands_for_queues t' q' ∧ all_sent q') by (do 2 eexists; split; [exact H1'|]; split; [exact Hs1|by apply all_sent_insert]).
  assert (∃ t' q', txset_Pop (E := Empty_set) t = Ok t' ∧ stands_for_queues t' q' ∧ all_sent q') by (do 2 eexists; split; [exact H2'|]; split; [exact Hs2|by apply all_sent_insert]).
  unfold next_txs. by destruct result as [|[|[]]|].
Qed.
Lemma commit_loop_mined fuel turn t q interrupt (env : environment T) : stands_for_queues t q → all_sent q → mined env → is_Some (env_gasPool env) → (txset_size t < fuel)%nat →
  ∃ b env', commit_loop ChainID fuel turn t coinbase interrupt env = (Ok b, env') ∧ mined env' ∧ is_Some (env_gasPool env') ∧ (interrupt = None → b = false).
Proof.
  revert turn t q env. induction fuel as [|fuel IH]; intros turn t q env Hsq Hall Hm [gp Hgp] Hfuel; [lia|]. cbn [commit_loop]. cbv zeta.
  assert (∀ b, (interrupt = None → b = false) → ∃ b' env', ((Ok b, env) : Result Empty_set bool * environment T) = (Ok b', env') ∧ mined env' ∧ is_Some (env_gasPool env') ∧ (interrupt = None → b' = false)) as Hstop.
  { intros b Hb. exists b, env. split; [done|]. split; [done|]. split; [by eexists|done]. }
  destruct (negb _) eqn:Hsig; [apply Hstop; intros ->; done|]. rewrite Hgp. destruct (_ <? _); [by apply Hstop|]. destruct (Peek t) as [tx|] eqn:Hpk; [|by apply Hstop].
  destruct (Peek_queues t q tx Hsq Hpk) as (l & Hq & _). pose proof (Hall _ _ Hq) as Hl. apply Forall_cons in Hl as [Hsent _].
  destruct (commitTransaction_mined ChainID coinbase h0 s0 env tx gp Hlimit Hcontext Hm Hgp Hsent) as (result & env1 & -> & Hres & Hgp1).
  destruct (next_queues t q tx l result Hsq Hpk Hq Hall) as (t' & q' & Hnext & Hsq' & Hall'). pose proof (next_size result t t' Hnext) as Hsize.
  destruct result as [logs|err|p]; [| |done]; rewrite Hnext.
  - destruct Hres as [Hm1 _]. apply (IH (S turn) t' q'); [done|done|done|exact Hgp1|lia].
  - destruct Hres as [Hm1 _]. apply (IH (S turn) t' q'); [done|done|done|exact Hgp1|lia].
Qed.
(** A cycle from an environment on: the transactions of some accounts. *)
Lemma commitTransactions_mined t q interrupt (env : environment T) : stands_for_queues t q → all_sent q → mined env →
  ∃ b env', env_commitTransactions ChainID t coinbase interrupt env = (Ok b, env') ∧ mined env' ∧ is_Some (env_gasPool env') ∧ (interrupt = None → b = false).
Proof.
  intros Hsq Hall Hm. unfold env_commitTransactions. assert (with_GasUsed (env_header env) (GasUsed (env_header env)) = env_header env) as Hwg by by destruct (env_header env).
  assert (∃ gp, match env_gasPool env with Some gp => Ok gp | None => AddGas 0 (GasLimit (env_header env)) end = Ok (E := Empty_set) gp ∧ 0 ≤ gp ∧ gp + GasUsed (env_header env) ≤ GasLimit h0) as (gp & -> & Hg0 & Hgl).
  { destruct (env_gasPool env) as [gp|] eqn:Hgp; [exists gp; split; [done|by apply (mi_pool _ _ _ _ _ Hm)]|]. exists (GasLimit h0). rewrite (mi_limit _ _ _ _ _ Hm), (mi_first _ _ _ _ _ Hm Hgp). unfold AddGas.
    rewrite (proj2 (Z.ltb_ge _ 0)) by u64_lia. rewrite u64_add_id by (u64_unfold; lia). split; [f_equal; lia|]. u64_unfold. lia. }
  apply (commit_loop_mined _ _ t q); [done|done| |by eexists|lia]. apply (mined_same_env ChainID coinbase h0 s0 env); try done; [apply (mi_clean _ _ _ _ _ Hm)|intros g [= <-]; lia].
Qed.
Lemma makeCurrent_mined ancestors : clean s0 → GasUsed h0 = 0 → Bloom h0 = 0 → mined (makeCurrent s0 ancestors h0).
Proof.
  intros Hc Hu Hb. split; cbn; try done; [lia|]. intros header bh t Hcb Ha. exists (mkRun (GasLimit h0) t 0). split_and!; [done|done|done|cbn; lia].
Qed.
End cycle.
