(* ===== verification/WorkerBlock.v ===== *)
(** The blocks the worker assembles: a copied state, the block that [commit]
    makes of an environment, the cycle of [commitNewWork], and what
    [handleResult] hands to the chain. *)
From S2P Require Import Prelude Hoare Types Sealing Blocks Heap Transition TransitionEffect StateDB StateRevert.
From S2P Require Import StateTransfer TxSigning StateFinalise Processor Twin Worker WorkerSpec.

(** * The block *)
Section copies.
Context {T : Type} `{StateTrieLaws T} `{StateStoreLaws}.
Implicit Types (s t : StateDB T) (a : Address).
(** A copy of a state between transactions. *)
Lemma Copy_clean s : clean s → ∃ c, Copy s = Ok c ∧ alike s c.
Proof.
  intros Hc. pose proof Hc as [(Ht & Hn & [Bo Bp Bl Bd]) Hd He Hv Hr].
  assert (stateObjectsDirty s ⊆ dom (stateObjects s)) as Hdom by (intros a Ha; apply elem_of_dom; by apply Bd).
  assert (∃ c, Copy s = Ok c) as [c Hcopy] by (unfold Copy; rewrite decide_True by done; by eexists). exists c. split; [done|].
  pose proof (Copy_objects s c) as Hobj. assert (entries c = [] ∧ validRevisions c = [] ∧ refund c = 0 ∧ trie c = trie s ∧ dirties c = ∅ ∧ logs c = logs s ∧ stateObjectsDirty c = stateObjectsDirty s) as (Hce & Hcv & Hcr & Hct & Hcd & Hcl & Hcod).
  { unfold Copy in Hcopy. rewrite decide_True in Hcopy by done. injection Hcopy as <-. split_and!; try done. cbn.
    assert (copy_journaled s = ∅) as ->; [|by rewrite dom_empty_L, (left_id_L ∅ (∪))]. unfold copy_journaled. apply map_empty. intros a. apply map_lookup_filter_None. right. intros o _. cbn. rewrite Hd, lookup_empty. by intros []. }
  assert (∀ a o, stateObjects c !! a = Some o → stateObjects s !! a = Some o) as Hsub by (intros a o; rewrite (Hobj a Hcopy); by case_decide).
  assert (∀ a, oData <$> live a c = oData <$> live a s) as Hlive.
  { intros a. rewrite <- (clean_trie s a Hc). rewrite live_unfold, Hct. destruct (stateObjects c !! a) as [o|] eqn:Ho.
    - rewrite (clean_trie s a Hc), live_unfold, (Hsub a o Ho). by destruct (oDeleted o).
    - by destruct (TryGet a (trie s)). }
  assert (tidy c) as Htc.
  { split.
    - intros a o Ho. by eapply tidy_objects, Hsub.
    - intros a o Ho. rewrite Hct. by eapply (tidy_deleted _ Ht), Hsub.
    - intros a o Ho _. rewrite Hct. apply (tidy_clean _ Ht a o); [by apply Hsub|]. by rewrite Hd.
    - intros a o _. rewrite Hcd, lookup_empty. by intros []. }
  assert (clean c) as Hcc.
  { split; try done. split; [done|]. split.
    - intros a o. rewrite live_unfold. destruct (stateObjects c !! a) as [p|] eqn:Hp.
      + destruct (oDeleted p) eqn:Hdel; [done|]. intros [= <-]. apply (Hn a). by rewrite live_unfold, (Hsub a p Hp), Hdel.
      + destruct (TryGet a (trie c)); [|done]. by intros [= <-].
    - split.
      + intros a o Ho. by eapply Bo, Hsub.
      + intros a. rewrite Hcd, lookup_empty. by intros [].
      + intros h. unfold GetLogs. rewrite Hcl. apply Bl.
      + intros a Ha. rewrite (Hobj a Hcopy), Hcod in *. rewrite decide_True by (by right). by apply Bd. }
  split; [done|]. split; [done|]. intros a. by rewrite !clean_view, Hlive by done.
Qed.
End copies.

(** A digest of receipts depends on their consensus fields only: where they and
    their logs are is not encoded. *)
Class LocatedDigests `{BlockDigests} := located_digest hash number i receipts : DeriveSha_Receipts (locate hash number i receipts) = DeriveSha_Receipts receipts.
(** A task that every node with the same accounts can follow, however its block
    is sealed, as long as the sealer collects its fees: processing the block
    gives the receipts that the miner stores for it, the gas and the root of
    its header, and the accounts of the state that the miner stores. *)
Definition valid_task {T} `{StateTrie T} `{StateStore} `{Crypto} `{TxCrypto} `{BlockDigests} `{BlockEngine} (ChainID : option Z) (coinbase : Address) (s0 : StateDB T) (t : task T) : Prop :=
  ∀ extra node, alike s0 node →
    let sealed := WithSeal (task_block t) (with_Extra (block_header (task_block t)) extra) in
    engine_Author (block_header sealed) = coinbase →
    let receipts := locate (Header_Hash (block_header sealed)) (Number (block_header sealed)) 0 (task_receipts t) in
    let used := GasUsed (block_header sealed) in
    ∃ logs node', Process ChainID sealed node = (Ok (receipts, logs, used), node') ∧
      (ValidateState sealed node' receipts used).1 = Ok tt ∧ ∀ a, view node' a = view (task_state t) a.

Section assembling.
Context {T : Type} `{StateTrieLaws T} `{StateStoreLaws} `{!StateStoreIdle} `{!StateTrieExt T} `{Crypto} `{TxCrypto} `{BlockDigests} `{!LocatedDigests} `{BlockEngine} `{MapRange}.
Context (ChainID : option Z) (coinbase : Address) (h0 : Header) (s0 : StateDB T).
Context (Hlimit : is_u64 (GasLimit h0)) (Hcontext : context_of h0 (Some coinbase) = Some coinbase) (Hdigests : digests_agree).
Abbreviation mined := (mined ChainID coinbase h0 s0).
Implicit Types (env : environment T).

Lemma locate_bloom hash number i receipts : receipts_bloom (locate hash number i receipts) = receipts_bloom receipts.
Proof.
  unfold receipts_bloom. assert (∀ b, foldl (λ bin r, Z.lor bin (LogsBloom (rLogs r))) b (locate hash number i receipts) = foldl (λ bin r, Z.lor bin (LogsBloom (rLogs r))) b receipts) as Hf; [|apply Hf].
  revert i. induction receipts as [|x l IH]; intros i b; [done|]. cbn [locate foldl]. rewrite IH. f_equal. f_equal. cbn. unfold LogsBloom.
  generalize 0. induction (rLogs x) as [|y ys IHy]; intros z; [done|]. cbn. apply IHy.
Qed.
Lemma finalise_alike s t : alike s t → alike (Finalise true s) (Finalise true t).
Proof.
  intros (Hs & Ht & Hv). split; [apply Finalise_clean, Hs|]. split; [apply Finalise_clean, Ht|]. intros a. rewrite !Finalise_view, Hv by (by apply cl_sound). done.
Qed.
Lemma alike_trans s t u : alike s t → alike t u → alike s u.
Proof. intros (Hs & Ht & Hv) (_ & Hu & Hv'). split; [done|]. split; [done|]. intros a. by rewrite Hv. Qed.
Lemma alike_root s t : alike s t → (IntermediateRoot true s).1 = (IntermediateRoot true t).1.
Proof. intros Hst. destruct (finalise_alike s t Hst) as (Hs & Ht & Hv). unfold IntermediateRoot. cbn [fst]. by apply same_root. Qed.
(** A finalised state is not changed by finalising it again, as far as its root
    and its accounts show. *)
Lemma finalise_twice s : clean s → alike s (Finalise true s).
Proof.
  intros Hs. split; [done|]. split; [apply Finalise_clean, Hs|]. intros a. rewrite Finalise_view, clean_view by (done || by apply cl_sound). done.
Qed.
Lemma assembled_valid env c block : mined env → alike (env_state env) c →
  NewBlock (finalized_header (IntermediateRoot true c).1 (env_header env)) (env_txs env) [] (env_receipts env) = Ok block →
  valid_task ChainID coinbase s0 (mkTask (env_receipts env) (IntermediateRoot true c).2 block).
Proof.
  remember (IntermediateRoot true c).1 as root eqn:Hroot. remember (IntermediateRoot true c).2 as s' eqn:Hs'. intros Hm Hc Hnew. rewrite NewBlock_run in Hnew by (done || apply Hm). injection Hnew as <-.
  unfold valid_task. cbn [task_block task_receipts task_state]. intros extra node Hnode. set (sealed := WithSeal _ _). cbv zeta. intros Hauthor. set (hash := Header_Hash (block_header sealed)).
  assert (context_of (CopyHeader (block_header sealed)) None = Some coinbase) as Hctx by (unfold context_of, beneficiary; cbn; f_equal; exact Hauthor).
  destruct (mi_replay _ _ _ _ _ Hm (CopyHeader (block_header sealed)) hash node Hctx Hnode) as (r & Hp & Hal & Hused & Hpool).
  change (Number (CopyHeader (block_header sealed))) with (Number (block_header sealed)) in Hp. set (receipts := locate hash (Number (block_header sealed)) 0 (env_receipts env)) in *.
  assert (GasLimit (block_header sealed) = GasLimit h0) as Hgl by apply (mi_limit _ _ _ _ _ Hm).
  assert (alike s' (engine_Finalize (run_state r))) as Hend by (subst s'; unfold engine_Finalize, IntermediateRoot; cbn [snd]; apply finalise_alike; eapply alike_trans; [|exact Hal]; destruct Hc as (? & ? & ?); by split).
  eexists _, _. split; [|split].
  - unfold Process. rewrite Hgl. unfold AddGas. rewrite (proj2 (Z.ltb_ge _ 0)) by u64_lia. rewrite u64_add_id by (u64_unfold; lia). rewrite Z.add_0_l.
    change (block_transactions sealed) with (env_txs env). fold hash. rewrite Hp, Hused. reflexivity.
  - unfold ValidateState. rewrite Z.eqb_refl, CreateBloom_run. unfold receipts at 1. rewrite locate_bloom. cbn [negb].
    change (Bloom (CopyHeader (block_header sealed))) with (receipts_bloom (env_receipts env)). rewrite Z.eqb_refl. cbn [negb]. unfold receipts. rewrite located_digest.
    change (ReceiptHash (CopyHeader (block_header sealed))) with (DeriveSha_Receipts (env_receipts env)). rewrite Z.eqb_refl. cbn [negb].
    change (Root (CopyHeader (block_header sealed))) with root.
    assert (root = (IntermediateRoot true (engine_Finalize (run_state r))).1) as ->.
    { rewrite <- (alike_root s' (engine_Finalize (run_state r)) Hend), Hroot, Hs'. apply alike_root. apply (finalise_twice c). apply Hc. }
    destruct (IntermediateRoot true (engine_Finalize (run_state r))) as [root' s1']. cbn. by rewrite Z.eqb_refl.
  - intros a. symmetry. apply Hend.
Qed.
End assembling.

(** * The worker *)
Section working.
Context {T : Type} `{StateTrieLaws T} `{StateStoreLaws} `{!StateStoreIdle} `{!StateTrieExt T} `{Crypto} `{TxCrypto} `{BlockDigests} `{!LocatedDigests} `{BlockEngine} `{MapRange}.
Context {C : Type} `{WorkerChain C T} (ChainID : option Z) (coinbase : Address) (h0 : Header) (s0 : StateDB T).
Context (Hlimit : is_u64 (GasLimit h0)) (Hcontext : context_of h0 (Some coinbase) = Some coinbase) (Hdigests : digests_agree).
Abbreviation mined := (mined ChainID coinbase h0 s0).
Abbreviation valid := (valid_task ChainID coinbase s0).
Implicit Types (env : environment T) (w : worker T).

(** During a cycle; [posted] were the tasks before it. *)
Record working (posted : list (task T)) w : Prop := {
  wk_coinbase : w_coinbase w = coinbase;
  wk_current : ∃ env, w_current w = Some env ∧ mined env;
  wk_posted : ∃ tasks, w_posted w = posted ++ tasks ∧ Forall valid tasks
}.
Lemma mined_finalized env root : mined env → mined (set_env_header (finalized_header root (env_header env)) env).
Proof. intros []. by split. Qed.
Lemma mined_uncle env hash : mined env → mined (add_uncle hash env).
Proof. intros []. by split. Qed.
Lemma working_current posted w env : working posted w → mined env → working posted (set_current (Some env) w).
Proof. intros [Hc _ Hp] Hm. split; [done|by exists env|done]. Qed.
Lemma working_same posted w w' : working posted w → w_coinbase w' = w_coinbase w → w_current w' = w_current w → w_posted w' = w_posted w → working posted w'.
Proof. intros [Hc Hcu Hp] E1 E2 E3. split; congruence || (rewrite ?E2, ?E3; done). Qed.
Lemma NewBlock_total header txs uncles receipts : ∃ block, NewBlock header txs uncles receipts = Ok block ∧ is_Some (Number (block_header block)).
Proof.
  unfold NewBlock. destruct receipts as [|r l]; [by eexists; split; [done|]; eexists|]. rewrite CreateBloom_run. cbn. eexists. split; [done|]. by eexists.
Qed.
Lemma updateSnapshot_working posted w : working posted w → returns updateSnapshot (λ _, working posted) w.
Proof.
  intros Hw. unfold updateSnapshot. apply returns_bind, wp_get. destruct (wk_current _ _ Hw) as (env & Hcur & Hm). rewrite Hcur.
  destruct (NewBlock_total (env_header env) (env_txs env) (current_uncles env (w_localUncles w) (w_remoteUncles w)) (env_receipts env)) as (block & -> & _).
  destruct (Copy_clean _ (mi_clean _ _ _ _ _ Hm)) as (c & Hcopy & _). unfold state_copy. rewrite Hcopy. wp_steps. by apply (working_same posted w).
Qed.
Lemma commit_working chain update posted w : working posted w → returns (commit chain update) (λ _, working posted) w.
Proof.
  intros Hw. unfold commit. apply returns_bind, wp_get. destruct (wk_current _ _ Hw) as (env & Hcur & Hm). rewrite Hcur.
  destruct (Copy_clean _ (mi_clean _ _ _ _ _ Hm)) as (c & Hcopy & Hal). unfold state_copy. rewrite Hcopy. wp_step. apply wp_lift with (a := c); [done|].
  destruct (IntermediateRoot true c) as [root s'] eqn:Hroot. wp_steps. set (w1 := set_current _ w).
  assert (working posted w1) as Hw1 by (apply working_current; [done|by apply mined_finalized]).
  destruct (NewBlock_total (finalized_header root (env_header env)) (env_txs env) [] (env_receipts env)) as (block & Hblock & n & Hn). rewrite Hblock.
  apply returns_bind. eapply (returns_mono _ (λ _, working posted)).
  - destruct (_ && _); [|by wp_steps]. wp_steps. apply wp_lift with (a := TxSigning.Uint64 n); [unfold NumberU64; by rewrite Hn|]. wp_steps.
    destruct Hw1 as [Hc1 Hcu1 (tasks & Hp1 & Hv1)]. split; [done|done|]. exists (tasks ++ [mkTask (env_receipts env) s' block]). split; [cbn; cbn in Hp1; by rewrite Hp1, app_assoc|].
    apply Forall_app. split; [done|]. constructor; [|done]. replace s' with (IntermediateRoot true c).2 by by rewrite Hroot.
    apply (assembled_valid ChainID coinbase h0 s0 Hlimit Hdigests env c block Hm Hal). by rewrite Hroot.
  - intros _ w2 Hw2. destruct update; [by apply updateSnapshot_working|by wp_steps].
Qed.
Definition uncle_problem env (uncle : Header) : option uncle_error :=
  if bool_decide (is_Some (env_uncles env !! Header_Hash uncle)) then Some errUncleNotUnique else
  if ParentHash (env_header env) =? ParentHash uncle then Some errUncleSibling else
  if negb (bool_decide (ParentHash uncle ∈ env_ancestors env)) then Some errUncleParentUnknown else
  if bool_decide (Header_Hash uncle ∈ env_family env) then Some errUncleIncluded else None.
Lemma commitUncle_run env uncle : commitUncle uncle env = match uncle_problem env uncle with Some e => (Err e, env) | None => (Ok tt, add_uncle (Header_Hash uncle) env) end.
Proof. unfold commitUncle, uncle_problem, mbind, gom_bind, get_state, modify, throw. cbv zeta beta iota. by repeat case_match. Qed.
Lemma on_current_commitUncle posted uncle w : working posted w → wp (on_current errUncle (commitUncle uncle)) (λ _, working posted) (λ _, working posted) w.
Proof.
  intros Hw. destruct (wk_current _ _ Hw) as (env & Hcur & Hm). unfold wp, on_current. rewrite Hcur, commitUncle_run. destruct (uncle_problem env uncle); apply working_current; try done. by apply mined_uncle.
Qed.
Definition numbered (blocks : gmap Hash Block) : Prop := ∀ hash b, blocks !! hash = Some b → is_Some (Number (block_header b)).
Lemma drop_stale_runs number blocks w : numbered blocks → returns (drop_stale number blocks) (λ _ w', w' = w) w.
Proof.
  intros Hn. unfold drop_stale. apply (returns_mono _ (λ _ w', [] ⊆ map_range blocks ∧ w' = w)); [|by intros ? ? [_ ?]]. apply (returns_for_acc (λ l _ w', l ⊆ map_range blocks ∧ w' = w)); [done|].
  intros [hash b] l kept w' [Hl ->]. assert ((hash, b) ∈ map_range blocks) as Hin by (apply Hl; left). rewrite map_range_perm in Hin. apply elem_of_map_to_list in Hin.
  destruct (Hn hash b Hin) as [n Hb]. wp_steps. apply wp_lift with (a := TxSigning.Uint64 n); [unfold NumberU64; cbn; by rewrite Hb|]. wp_steps. split; [|done]. intros x Hx. apply Hl. by right.
Qed.
Lemma take_uncles_working blocks uncles posted w : working posted w → returns (take_uncles blocks uncles) (λ _, working posted) w.
Proof.
  intros Hw. unfold take_uncles. apply (returns_for_acc (λ _ _, working posted)); [done|]. clear w Hw. intros hb l taken w Hw. destruct (_ =? _)%nat; [by wp_steps|]. apply returns_bind.
  apply returns_attempt. eapply wp_mono; [by apply on_current_commitUncle|..]; intros x w' Hw'; by wp_steps.
Qed.
Lemma split_locals_all (P : Address → list Transaction → Prop) locals pending : (∀ a l, pending !! a = Some l → P a l) →
  (∀ a l, (split_locals locals pending).1 !! a = Some l → P a l) ∧ (∀ a l, (split_locals locals pending).2 !! a = Some l → P a l).
Proof.
  intros HP. unfold split_locals. assert (∀ lr : gmap Address (list Transaction) * gmap Address (list Transaction), (∀ a l, lr.1 !! a = Some l → P a l) → (∀ a l, lr.2 !! a = Some l → P a l) →
    let lr' := foldl (λ lr account, match lr.2 !! account with Some (tx :: txs) => (<[account := tx :: txs]> lr.1, delete account lr.2) | _ => lr end) lr locals in
    (∀ a l, lr'.1 !! a = Some l → P a l) ∧ (∀ a l, lr'.2 !! a = Some l → P a l)) as Hf; [|apply (Hf (∅, pending)); [intros a l; cbn; by rewrite lookup_empty|done]].
  induction locals as [|account locals IH]; intros lr H1' H2'; [done|]. cbn [foldl]. apply IH; destruct (lr.2 !! account) as [[|tx txs]|] eqn:Ha; cbn; try done.
  - intros a l [[<- <-]|[_ Hl]]%lookup_insert_Some; [by apply H2'|by apply H1'].
  - intros a l [_ Hl]%lookup_delete_Some. by apply H2'.
Qed.
(** What is pending: valid transactions, each under its sender. *)
Definition sendable (txs : gmap Address (list Transaction)) : Prop := by_account (NewEIP155Signer ChainID) txs ∧ all_sent ChainID txs.
Lemma split_locals_sendable locals pending : sendable pending → sendable (split_locals locals pending).1 ∧ sendable (split_locals locals pending).2.
Proof.
  intros [Hb Hs]. destruct (split_locals_all _ locals pending Hb) as [B1 B2], (split_locals_all (λ _ l, Forall (sent ChainID) l) locals pending Hs) as [S1 S2]. by split.
Qed.
Lemma commit_pending_working txs interrupt posted w : sendable txs → working posted w → returns (commit_pending ChainID txs interrupt) (λ _, working posted) w.
Proof.
  intros [Hb Hs] Hw. unfold commit_pending. apply returns_bind, wp_get. destruct (bool_decide _); [by wp_steps|]. destruct (wk_current _ _ Hw) as (env & Hcur & Hm). rewrite Hcur.
  destruct (New_queues (E := worker_error) (NewEIP155Signer ChainID) txs Hb) as (t & Hnew & Hsq & _). apply returns_bind. apply wp_lift with (a := t); [done|].
  unfold commitTransactions. apply returns_bind, wp_get. rewrite Hcur, (wk_coinbase _ _ Hw). unfold returns, wp, on_current. rewrite Hcur.
  destruct (commitTransactions_mined ChainID coinbase h0 s0 Hlimit Hcontext t txs interrupt env Hsq Hs Hm) as (b & env' & -> & Hm' & _). by apply working_current.
Qed.
Lemma attempt_commit_working chain update posted w : working posted w → returns (E := worker_error) (attempt (commit chain update) ≫= λ _ : worker_error + unit, mret tt) (λ _, working posted) w.
Proof.
  intros Hw. apply returns_bind, returns_attempt. eapply returns_wp; [by apply commit_working|]. intros [] w' Hw'. by wp_steps.
Qed.
Lemma fill_new_work_working chain interrupt noempty posted w : is_Some (Number h0) → numbered (w_localUncles w) → numbered (w_remoteUncles w) → sendable (wc_Pending chain) → working posted w →
  returns (fill_new_work ChainID chain interrupt noempty h0) (λ _, working posted) w.
Proof.
  intros [n Hn] Hl Hr Hs Hw. unfold fill_new_work. wp_steps. apply wp_lift with (a := TxSigning.Uint64 n); [unfold NumberU64; by rewrite Hn|].
  apply returns_bind. eapply returns_mono; [by apply drop_stale_runs|]. intros localUncles ? ->. wp_steps.
  eapply returns_mono; [apply take_uncles_working, (working_same posted w); done|]. intros uncles w1 Hw1.
  apply returns_bind. eapply returns_mono; [by apply drop_stale_runs|]. intros remoteUncles ? ->. wp_steps.
  eapply returns_mono; [apply take_uncles_working, (working_same posted w1); done|]. intros uncles' w2 Hw2.
  apply returns_bind. apply (returns_mono _ (λ _, working posted)); [destruct noempty; [by wp_steps|by apply attempt_commit_working]|]. intros _ w3 Hw3. cbv zeta.
  destruct (bool_decide _); [by apply updateSnapshot_working|]. destruct (split_locals_sendable (wc_Locals chain) _ Hs) as [Hs1 Hs2]. destruct (split_locals _ _) as [localTxs remoteTxs].
  apply returns_bind. eapply returns_mono; [by apply commit_pending_working|]. intros [] w4 Hw4; [by wp_steps|].
  apply returns_bind. eapply returns_mono; [by apply commit_pending_working|]. intros [] w5 Hw5; [by wp_steps|]. by apply attempt_commit_working.
Qed.
End working.

(** What the worker relies on: the engine prepares a header without touching its
    gas and with a difficulty ([clique_keeps_limits], [aura_keeps_limits]), a state is opened with nothing pending, and the
    pool hands out valid transactions under their senders. *)
Class WorkerChainLaws (C T : Type) `{StateTrie T} `{StateStore} `{Crypto} `{TxCrypto} `{WorkerChain C T} (ChainID : option Z) := {
  wc_Prepare_keeps chain h h' : wc_Prepare chain h = Some h' → keeps_limits h h';
  wc_StateAt_clean chain root s : wc_StateAt chain root = Some s → clean s;
  wc_Pending_sendable chain : sendable ChainID (wc_Pending chain)
}.
Lemma CalcGasLimit_u64 parent gasFloor gasCeil : is_u64 gasFloor → is_u64 gasCeil → is_u64 (CalcGasLimit parent gasFloor gasCeil).
Proof.
  intros Hf Hc. unfold CalcGasLimit. cbv zeta. assert (∀ a b, is_u64 (a + b)%u64) as Hadd by (intros; unfold u64_add, wrap64; by apply Z.mod_pos_bound).
  assert (∀ a b, is_u64 (a - b)%u64) as Hsub by (intros; unfold u64_sub, wrap64; by apply Z.mod_pos_bound). assert (is_u64 MinGasLimit) as Hmin by done.
  by repeat case_match.
Qed.

Section cycle_result.
Context {T : Type} `{StateTrieLaws T} `{StateStoreLaws} `{!StateStoreIdle} `{!StateTrieExt T} `{Crypto} `{TxCrypto} `{BlockDigests} `{!LocatedDigests} `{BlockEngine} `{MapRange}.
Context {C : Type} `{WorkerChain C T} (ChainID : option Z) `{!WorkerChainLaws C T ChainID}.
Implicit Types (w : worker T).

(** Every block that a mining cycle hands to the sealer is one that the
    other nodes accept.  A cycle ends without an error, whatever interrupts it;
    and each task it posts is valid: whatever transactions were refused and
    reverted on the way, any node that holds the accounts of the parent and
    processes the sealed block obtains the receipts that the miner stores, the
    gas used of the header, and a state whose root is the header's. *)
Theorem commitNewWork_posts_valid_blocks GasFloor GasCeil chain interrupt noempty timestamp w :
  digests_agree → is_u64 GasFloor → is_u64 GasCeil → is_Some (Number (block_header (wc_CurrentBlock chain))) →
  numbered (w_localUncles w) → numbered (w_remoteUncles w) →
  ∃ w' tasks, commitNewWork ChainID GasFloor GasCeil chain interrupt noempty timestamp w = (Ok tt, w') ∧ w_posted w' = w_posted w ++ tasks ∧
    ∀ t, t ∈ tasks → ∃ parent_state, wc_StateAt chain (Root (block_header (wc_CurrentBlock chain))) = Some parent_state ∧
      valid_task ChainID (w_coinbase w) parent_state t.
Proof.
  intros Hd Hf Hc [n Hn] Hl Hr. assert (∃ w' tasks, (Ok tt : Result worker_error unit, w) = (Ok tt, w') ∧ w_posted w' = w_posted w ++ tasks ∧
    ∀ t, t ∈ tasks → ∃ parent_state, wc_StateAt chain (Root (block_header (wc_CurrentBlock chain))) = Some parent_state ∧ valid_task ChainID (w_coinbase w) parent_state t) as Hnone.
  { exists w, []. split; [done|]. split; [by rewrite app_nil_r|]. by intros t ?%not_elem_of_nil. }
  unfold commitNewWork, mbind, gom_bind, get_state, lift, modify. cbv beta iota zeta. unfold new_header. rewrite Hn. cbv beta iota. set (h := mkHeader _ _ _ _ _ _ _ _ _ _ _ _ _ _ _).
  destruct (_ && _); [exact Hnone|]. destruct (wc_Prepare chain h) as [h'|] eqn:Hprep; [|exact Hnone]. destruct (wc_Prepare_keeps chain h h' Hprep) as [Kn Kl Ku Kb [d Kd]].
  destruct (wc_StateAt chain _) as [opened|] eqn:Hopen; [|exact Hnone]. pose proof (wc_StateAt_clean chain _ _ Hopen) as Hclean. set (w1 := set_current _ w).
  assert (is_u64 (GasLimit h')) as Hlim by (rewrite Kl; by apply CalcGasLimit_u64).
  assert (context_of h' (Some (w_coinbase w)) = Some (w_coinbase w)) as Hctx by (unfold context_of; by rewrite Kn, Kd).
  assert (working ChainID (w_coinbase w) h' opened (w_posted w) w1) as Hw1.
  { split; [done|eexists; split; [done|by apply makeCurrent_mined; [..|rewrite Ku|rewrite Kb]]|]. exists []. split; [by rewrite app_nil_r|done]. }
  pose proof (fill_new_work_working ChainID (w_coinbase w) h' opened Hlim Hctx Hd chain interrupt noempty (w_posted w) w1) as Hfill.
  apply returns_unit in Hfill as (w2 & Hrun & [_ _ (tasks & Hp & Hv)]); [|rewrite Kn; by eexists|done|done|apply wc_Pending_sendable|exact Hw1].
  exists w2, tasks. split; [done|]. split; [done|]. intros t Ht. exists opened. split; [done|]. by eapply Forall_forall in Hv.
Qed.
End cycle_result.

(** * What is sealed *)
Lemma locate_again hash hash' number number' i i' receipts : locate hash number i (locate hash' number' i' receipts) = locate hash number i receipts.
Proof.
  revert i i'. induction receipts as [|r l IH]; intros i i'; [done|]. cbn [locate]. rewrite IH. f_equal. unfold locate_receipt. cbn. f_equal. rewrite <- list_fmap_compose. by apply list_fmap_ext.
Qed.
Section sealed.
Context {T : Type} `{StateTrie T} `{StateStore} `{Crypto} `{TxCrypto} `{BlockDigests} `{BlockEngine} {C : Type} `{WorkerChain C T} (ChainID : option Z).
Implicit Types (w : worker T) (t : task T).

Lemma valid_task_located coinbase (s0 : StateDB T) t hash number i : valid_task ChainID coinbase s0 t → valid_task ChainID coinbase s0 (mkTask (locate hash number i (task_receipts t)) (task_state t) (task_block t)).
Proof. unfold valid_task. cbn. intros Hv extra node Hnode Ha. rewrite locate_again. by apply Hv. Qed.
(** A sealed block is handed to the chain at most once, and only if it is
    the seal of a pending task.  With it go the state of that task and its
    receipts, located in the block; if the task was valid and the block is its
    sealed form, these are the receipts and the accounts that any other node
    computes from the block.  The task stays as valid as it was. *)
Theorem handleResult_stores_what_nodes_compute (chain : C) block written w n : Number (block_header block) = Some n →
  let hash := Header_Hash (block_header block) in
  let sealhash := wc_SealHash (block_header block) in
  match handleResult chain block written w with
  | (Ok None, w') => w' = w ∧ (wc_HasBlock chain hash (TxSigning.Uint64 n) = true ∨ w_pendingTasks w !! sealhash = None)
  | (Ok (Some (b, receipts, s)), w') => b = block ∧ wc_HasBlock chain hash (TxSigning.Uint64 n) = false ∧
      w_unconfirmed w' = (if written : bool then unconfirmed_Insert (TxSigning.Uint64 n) hash (w_unconfirmed w) else w_unconfirmed w) ∧
      ∃ t t', w_pendingTasks w !! sealhash = Some t ∧ w_pendingTasks w' = <[sealhash := t']> (w_pendingTasks w) ∧
        receipts = locate hash (Some n) 0 (task_receipts t) ∧ s = task_state t ∧
        ∀ coinbase s0 extra, valid_task ChainID coinbase s0 t →
          valid_task ChainID coinbase s0 t' ∧
          (block = WithSeal (task_block t) (with_Extra (block_header (task_block t)) extra) → engine_Author (block_header block) = coinbase →
            ∀ node, alike s0 node → ∃ logs node', Process ChainID block node = (Ok (receipts, logs, GasUsed (block_header block)), node') ∧ ∀ a, view node' a = view s a)
  | _ => False
  end.
Proof.
  intros Hn. cbv zeta. unfold handleResult, mbind, gom_bind, get_state, lift, modify, mret, gom_ret, NumberU64. rewrite Hn. cbv beta iota zeta.
  destruct (wc_HasBlock chain _ _) eqn:Hhas; [split; [done|by left]|]. destruct (w_pendingTasks w !! _) as [t|] eqn:Ht; [|split; [done|by right]].
  assert (∀ coinbase s0 extra, valid_task ChainID coinbase s0 t →
    valid_task ChainID coinbase s0 (mkTask (locate (Header_Hash (block_header block)) (Some n) 0 (task_receipts t)) (task_state t) (task_block t)) ∧
    (block = WithSeal (task_block t) (with_Extra (block_header (task_block t)) extra) → engine_Author (block_header block) = coinbase →
      ∀ node, alike s0 node → ∃ logs node', Process ChainID block node = (Ok (locate (Header_Hash (block_header block)) (Some n) 0 (task_receipts t), logs, GasUsed (block_header block)), node') ∧ ∀ a, view node' a = view (task_state t) a)) as Hvalid.
  { intros coinbase s0 extra Hv. split; [by apply valid_task_located|]. intros Hb Ha node Hnode. rewrite Hb in Ha. destruct (Hv extra node Hnode Ha) as (logs & node' & Hp & _ & Hview).
    rewrite <- Hb, Hn in Hp. by exists logs, node'. }
  destruct written; (split; [done|]; split; [done|]; split; [done|]); by eexists t, _.
Qed.
End sealed.

(** * Mining and synchronisation *)
Section miner.
Context {T : Type} `{MapRange} {C : Type} `{WorkerChain C T}.
Implicit Types (m : Miner T).

Inductive miner_call := CallStart (coinbase : Address) | CallStop | CallEvent (ev : downloader_event) | CallExtra (extra : list byte).
Definition miner_calls (chain : C) (now : Z) (call : miner_call) m : Miner T :=
  match call with
  | CallStart coinbase => (Miner_Start chain now coinbase m).2
  | CallStop => (Miner_Stop m).2
  | CallEvent ev => (miner_event chain now ev m).2
  | CallExtra extra => (SetExtra extra m).2
  end.
Inductive mining_reachable : Miner T → Prop :=
  | mining_new w : w_running w = false → mining_reachable (NewMiner w)
  | mining_step m chain now call : mining_reachable m → mining_reachable (miner_calls chain now call m).
Definition miner_ok m : Prop := (mi_canStart m = false → Mining m = false) ∧ (mi_subscribed m = false → mi_canStart m = true).
Lemma start_flags (chain : C) now m : let m' := (on_worker (start chain now) m).2 in mi_canStart m' = mi_canStart m ∧ mi_shouldStart m' = mi_shouldStart m ∧ mi_subscribed m' = mi_subscribed m.
Proof. cbv zeta. unfold on_worker. by destruct (start chain now _). Qed.
Lemma Start_ok (chain : C) now coinbase m : miner_ok m → miner_ok (Miner_Start chain now coinbase m).2 ∧ mi_canStart (Miner_Start chain now coinbase m).2 = mi_canStart m ∧ mi_subscribed (Miner_Start chain now coinbase m).2 = mi_subscribed m.
Proof.
  intros [Hc Hs]. unfold Miner_Start, SetEtherbase, mbind, gom_bind, modify, get_state. cbn. destruct (mi_canStart m) eqn:Hcan; cbn; [|by split].
  match goal with |- context [on_worker (start chain now) ?x] => pose proof (start_flags chain now x) as (F1 & F2 & F3) end. cbn in F1, F2, F3.
  split; [split; congruence|split; congruence].
Qed.
(** While a download that may suspend mining is under way the worker stands
    still, however often mining is started; and after the first download no
    event of the downloader can stop it. *)
Theorem sync_suspends_mining m : mining_reachable m →
  (mi_canStart m = false → Mining m = false) ∧
  (mi_subscribed m = false → mi_canStart m = true ∧ ∀ (chain : C) now ev, miner_event chain now ev m = (Ok None, m)).
Proof.
  intros Hm. assert (miner_ok m) as [Hc Hs]; [|split; [done|]; intros Hsub; split; [by apply Hs|]; intros chain now ev; unfold miner_event, mbind, gom_bind, get_state; cbn; by rewrite Hsub].
  induction Hm as [w Hw|m chain now call Hm IH]; [by split|]. destruct call; cbn [miner_calls].
  - by apply Start_ok.
  - destruct IH as [Hc Hs]. by split.
  - unfold miner_event, mbind, gom_bind, get_state. cbn. destruct (mi_subscribed m) eqn:Hsub; cbn; [|done]. destruct ev.
    + destruct (Mining m) eqn:Hmin; cbn; (split; [done|]); cbn; by rewrite Hsub.
    + cbn. destruct (mi_shouldStart m); [|by split].
      match goal with |- context [Miner_Start chain now ?cb ?x] => assert (miner_ok x) as Hx by (by split); pose proof (Start_ok chain now cb x Hx) as (Hok & Hcan & _); destruct (Miner_Start chain now cb x) as [[r|e|p] m'] end; try done; split; cbn in *; congruence.
    + cbn. destruct (mi_shouldStart m); [|by split].
      match goal with |- context [Miner_Start chain now ?cb ?x] => assert (miner_ok x) as Hx by (by split); pose proof (Start_ok chain now cb x Hx) as (Hok & Hcan & _); destruct (Miner_Start chain now cb x) as [[r|e|p] m'] end; try done; split; cbn in *; congruence.
  - unfold SetExtra. destruct (_ <? _); [done|]. destruct IH as [Hc Hs]. by split.
Qed.
End miner.
