(* ===== verification/ManagedState.v ===== *)
(** Pending nonces ([core/state/managed_state.go]): a copy of the state with the
    nonces of the pool's accounts on top.  The state is reached through the
    interface [VMState]. *)
From S2P Require Import Prelude Types Transition.

(** [account]; of its state object only the nonce it starts from is read. *)
Record account := mkManaged { nstart : Z; nonces : list bool }.
Record ManagedState (S : Type) := mkManagedState { msDB : S; msAccounts : gmap Address account }.
Arguments mkManagedState {S} _ _.
Arguments msDB {S} _.
Arguments msAccounts {S} _.

Section managed.
Context {S : Type} `{VMState S} {E : Type}.
Implicit Types ms : ManagedState S.

Definition newAccount (nonce : Z) : account := mkManaged nonce [].
(** The copy of the state is made by the caller. *)
Definition ManageState (statedb : S) : ManagedState S := mkManagedState statedb ∅.
Definition SetState (statedb : S) ms : ManagedState S := mkManagedState statedb (msAccounts ms).

Definition hasAccount (addr : Address) ms : bool := bool_decide (is_Some (msAccounts ms !! addr)).
(** [GetOrNewStateObject]: an account that does not exist is created. *)
Definition GetOrNew (addr : Address) (s : S) : S :=
  let '(found, s) := vm_Exist addr s in if found : bool then s else vm_CreateAccount addr s.

Definition getAccount (addr : Address) ms : account * ManagedState S :=
  match msAccounts ms !! addr with
  | None =>
      let '(nonce, s) := vm_GetNonce addr (GetOrNew addr (msDB ms)) in
      (newAccount nonce, mkManagedState s (<[addr := newAccount nonce]> (msAccounts ms)))
  | Some acc =>
      (* the account's own nonce may have overtaken the tracked one *)
      let '(nonce, s) := vm_GetNonce addr (msDB ms) in
      if (Z.of_nat (length (nonces acc)) + nstart acc)%u64 <? nonce
      then (newAccount nonce, mkManagedState s (<[addr := newAccount nonce]> (msAccounts ms)))
      else (acc, mkManagedState s (msAccounts ms))
  end.

Definition RemoveNonce (addr : Address) (n : Z) ms : ManagedState S :=
  if hasAccount addr ms then
    let '(acc, ms) := getAccount addr ms in
    if (n - nstart acc)%u64 <=? Z.of_nat (length (nonces acc)) then
      mkManagedState (msDB ms)
        (<[addr := mkManaged (nstart acc) (take (Z.to_nat (n - nstart acc)%u64) (nonces acc))]> (msAccounts ms))
    else ms
  else ms.

(** The first nonce that was given back, or the next one. *)
Definition NewNonce (addr : Address) ms : Z * ManagedState S :=
  let '(acc, ms) := getAccount addr ms in
  match list_find (λ used, used = false) (nonces acc) with
  | Some (i, _) => ((nstart acc + Z.of_nat i)%u64, ms)
  | None =>
      let acc' := mkManaged (nstart acc) (nonces acc ++ [true]) in
      ((Z.of_nat (length (nonces acc)) + nstart acc)%u64, mkManagedState (msDB ms) (<[addr := acc']> (msAccounts ms)))
  end.

Definition managed_GetNonce (addr : Address) ms : Z * ManagedState S :=
  if hasAccount addr ms then
    let '(acc, ms) := getAccount addr ms in ((Z.of_nat (length (nonces acc)) + nstart acc)%u64, ms)
  else let '(nonce, s) := vm_GetNonce addr (msDB ms) in (nonce, mkManagedState s (msAccounts ms)).

Definition managed_SetNonce (addr : Address) (nonce : Z) ms : ManagedState S :=
  mkManagedState (vm_SetNonce addr nonce (GetOrNew addr (msDB ms))) (<[addr := newAccount nonce]> (msAccounts ms)).
End managed.

(** * The nonce every account is given next *)
Section laws.
Context {S : Type} `{VMStateLaws S}.
Implicit Types ms : ManagedState S.

(** What a managed state answers, as a counter per account: the nonce of the
    world, unless a higher one is tracked. *)
Definition tracked (acc : account) : Z := nstart acc + Z.of_nat (length (nonces acc)).
Definition next_nonce (w : World) ms (addr : Address) : Z :=
  match msAccounts ms !! addr with Some acc => Z.max (tracked acc) (w_nonce w addr) | None => w_nonce w addr end.

(** Tracked nonces are in use and count from a machine integer without
    overflowing. *)
Definition account_ok (acc : account) : Prop :=
  Forall (λ b, b = true) (nonces acc) ∧ 0 ≤ nstart acc ∧ tracked acc < u64_modulus.
Record managed_ok ms (w : World) : Prop := {
  mo_rep : represents (msDB ms) w;
  mo_nonce a : is_u64 (w_nonce w a);
  mo_used a acc : msAccounts ms !! a = Some acc → account_ok acc
}.

(** Two worlds with the same nonces. *)
Definition same_nonces (w w' : World) : Prop := ∀ a, w_nonce w' a = w_nonce w a.

Lemma account_ok_new n : is_u64 n → account_ok (newAccount n).
Proof. unfold is_u64, account_ok, tracked, newAccount. cbn. intros Hn. split_and!; [constructor|lia..]. Qed.
Lemma tracked_wrap acc : account_ok acc → (Z.of_nat (length (nonces acc)) + nstart acc)%u64 = tracked acc.
Proof. intros (_ & H1 & H2). unfold tracked in *. rewrite u64_add_id; [lia|]. unfold is_u64. lia. Qed.

Lemma w_set_nonce a n b w c : w_nonce (w_set a n b w) c = if decide (c = a) then n else w_nonce w c.
Proof. unfold w_nonce, w_set. cbn. by case_decide. Qed.
Lemma vm_CreateAccount_nonce a w c : w_nonce (vm_CreateAccount a w) c = if decide (c = a) then 0 else w_nonce w c.
Proof. apply w_set_nonce. Qed.
Lemma vm_SetNonce_nonce a n w c : w_nonce (vm_SetNonce a n w) c = if decide (c = a) then n else w_nonce w c.
Proof. apply w_set_nonce. Qed.
Lemma GetOrNew_ok addr s w : represents s w → ∃ w', represents (GetOrNew addr s) w' ∧ same_nonces w w'.
Proof.
  intros Hr. unfold GetOrNew. destruct (rep_Exist addr s w Hr) as [He Hr']. destruct (vm_Exist addr s) as [found s']. cbn in He, Hr'. subst found.
  case_bool_decide as Hex; [by exists w|]. eexists. split; [apply rep_CreateAccount; [done|by apply eq_None_not_Some]|].
  intros a. rewrite vm_CreateAccount_nonce. case_decide as Ha; [|done]. subst a. unfold w_nonce.
  apply eq_None_not_Some in Hex. by rewrite Hex.
Qed.

(** Looking an account up brings the tracked nonce up to the state's. *)
Lemma getAccount_ok addr ms w : managed_ok ms w → let '(acc, ms') := getAccount addr ms in
  ∃ w', managed_ok ms' w' ∧ same_nonces w w' ∧ msAccounts ms' !! addr = Some acc ∧ account_ok acc ∧
    tracked acc = next_nonce w ms addr ∧ ∀ a, next_nonce w' ms' a = next_nonce w ms a.
Proof.
  intros [Hr Hn Hu]. unfold getAccount. destruct (msAccounts ms !! addr) as [acc|] eqn:Hacc.
  - destruct (rep_GetNonce addr _ _ Hr) as [Hg Hr']. destruct (vm_GetNonce addr (msDB ms)) as [nonce s']. cbn in Hg, Hr'. subst nonce.
    pose proof (Hu _ _ Hacc) as Hok. rewrite tracked_wrap by done. destruct (Z.ltb_spec (tracked acc) (w_nonce w addr)) as [Hlt|Hge].
    + exists w. pose proof (account_ok_new _ (Hn addr)) as Hnew. split_and!; [|done|by cbn; rewrite lookup_insert_eq|done| |].
      * split; [done..|]. cbn. intros a acc'. destruct (decide (a = addr)) as [->|Ha]; [rewrite lookup_insert_eq; by intros [= <-]|].
        rewrite lookup_insert_ne by done. apply Hu.
      * unfold next_nonce, tracked at 1. rewrite Hacc. cbn. lia.
      * intros a. unfold next_nonce. cbn. destruct (decide (a = addr)) as [->|Ha]; [|by rewrite lookup_insert_ne].
        rewrite lookup_insert_eq, Hacc. unfold tracked at 1. cbn. lia.
    + exists w. split_and!; [|done|done|done| |done]; [by split|]. unfold next_nonce. rewrite Hacc. lia.
  - destruct (GetOrNew_ok addr _ _ Hr) as (w' & Hr' & Hsame). destruct (rep_GetNonce addr _ _ Hr') as [Hg Hr''].
    destruct (vm_GetNonce addr _) as [nonce s']. cbn in Hg, Hr''. rewrite Hsame in Hg. subst nonce. exists w'.
    pose proof (account_ok_new _ (Hn addr)) as Hnew. split_and!; [|done|by cbn; rewrite lookup_insert_eq|done| |].
    + split; [done|intros a; by rewrite Hsame|]. cbn. intros a acc'. destruct (decide (a = addr)) as [->|Ha]; [rewrite lookup_insert_eq; by intros [= <-]|].
      rewrite lookup_insert_ne by done. apply Hu.
    + unfold next_nonce, tracked. rewrite Hacc. cbn. lia.
    + intros a. unfold next_nonce. cbn. destruct (decide (a = addr)) as [->|Ha]; [|by rewrite lookup_insert_ne, Hsame].
      rewrite lookup_insert_eq, Hacc, Hsame. unfold tracked. cbn. lia.
Qed.

Lemma managed_GetNonce_ok addr ms w : managed_ok ms w → let '(n, ms') := managed_GetNonce addr ms in
  n = next_nonce w ms addr ∧ ∃ w', managed_ok ms' w' ∧ ∀ a, next_nonce w' ms' a = next_nonce w ms a.
Proof.
  intros Hok. unfold managed_GetNonce, hasAccount. case_bool_decide as Hhas.
  - pose proof (getAccount_ok addr ms w Hok) as Hget. destruct (getAccount addr ms) as [acc ms'].
    destruct Hget as (w' & Hok' & _ & _ & Ha & Ht & Hnext). rewrite tracked_wrap by done. split; [done|by exists w'].
  - destruct Hok as [Hr Hn Hu]. destruct (rep_GetNonce addr _ _ Hr) as [Hg Hr']. destruct (vm_GetNonce addr (msDB ms)) as [nonce s'].
    cbn in Hg, Hr'. apply eq_None_not_Some in Hhas. split; [unfold next_nonce; by rewrite Hhas|]. exists w. split; [by split|done].
Qed.
Lemma managed_SetNonce_ok addr n ms w : managed_ok ms w → is_u64 n →
  ∃ w', managed_ok (managed_SetNonce addr n ms) w' ∧
    ∀ a, next_nonce w' (managed_SetNonce addr n ms) a = if decide (a = addr) then n else next_nonce w ms a.
Proof.
  intros [Hr Hn Hu] Hn64. destruct (GetOrNew_ok addr _ _ Hr) as (w' & Hr' & Hsame). exists (vm_SetNonce addr n w').
  assert (∀ a, w_nonce (vm_SetNonce addr n w') a = if decide (a = addr) then n else w_nonce w a) as Hw.
  { intros a. rewrite vm_SetNonce_nonce. case_decide; [done|apply Hsame]. }
  split.
  - split; [by apply rep_SetNonce|intros a; rewrite Hw; by case_decide|]. cbn. intros a acc.
    destruct (decide (a = addr)) as [->|Ha]; [rewrite lookup_insert_eq; intros [= <-]; by apply account_ok_new|].
    rewrite lookup_insert_ne by done. apply Hu.
  - intros a. unfold next_nonce. rewrite Hw. cbn. destruct (decide (a = addr)) as [->|Ha]; [|by rewrite lookup_insert_ne].
    rewrite lookup_insert_eq. unfold tracked. cbn. lia.
Qed.
Lemma NewNonce_ok addr ms w : managed_ok ms w → next_nonce w ms addr < MaxUint64 →
  let '(n, ms') := NewNonce addr ms in
  n = next_nonce w ms addr ∧ ∃ w', managed_ok ms' w' ∧
    ∀ a, next_nonce w' ms' a = if decide (a = addr) then n + 1 else next_nonce w ms a.
Proof.
  intros Hok Hmax. unfold NewNonce. pose proof (getAccount_ok addr ms w Hok) as Hget. destruct (getAccount addr ms) as [acc ms'].
  destruct Hget as (w' & [Hr' Hn' Hu'] & Hsame & Hacc & Ha & Ht & Hnext). destruct Ha as (Hused & Hstart & Hsmall).
  assert (list_find (λ used, used = false) (nonces acc) = None) as ->.
  { apply list_find_None. eapply Forall_impl; [exact Hused|]. cbn. by intros ? ->. }
  rewrite tracked_wrap by by split_and!. split; [done|]. exists w'.
  assert (account_ok (mkManaged (nstart acc) (nonces acc ++ [true]))) as Hok'.
  { split_and!; [apply Forall_app; split; [done|by constructor]|done|]. unfold tracked, MaxUint64, u64_modulus in *. cbn. rewrite length_app. cbn. lia. }
  split.
  - split; [done..|]. cbn. intros a acc'. destruct (decide (a = addr)) as [->|Hne]; [rewrite lookup_insert_eq; by intros [= <-]|].
    rewrite lookup_insert_ne by done. apply Hu'.
  - intros a. destruct (decide (a = addr)) as [->|Hne].
    + unfold next_nonce. cbn. rewrite lookup_insert_eq. specialize (Hnext addr). unfold next_nonce at 1 in Hnext. rewrite Hacc in Hnext.
      unfold tracked in *. cbn. rewrite length_app. cbn. lia.
    + rewrite <- Hnext. unfold next_nonce. cbn. by rewrite lookup_insert_ne.
Qed.
Lemma RemoveNonce_ok addr n ms w : managed_ok ms w → is_u64 n → is_Some (msAccounts ms !! addr) →
  ∃ w', managed_ok (RemoveNonce addr n ms) w' ∧ (∀ a, a ≠ addr → next_nonce w' (RemoveNonce addr n ms) a = next_nonce w ms a) ∧
    next_nonce w' (RemoveNonce addr n ms) addr ≤ next_nonce w ms addr ∧
    (next_nonce w' (RemoveNonce addr n ms) addr = next_nonce w ms addr ∨ next_nonce w' (RemoveNonce addr n ms) addr = Z.max n (w_nonce w addr)).
Proof.
  intros Hok Hn64 Hhas. unfold RemoveNonce, hasAccount. rewrite bool_decide_true by done.
  pose proof (getAccount_ok addr ms w Hok) as Hget. destruct (getAccount addr ms) as [acc ms'].
  destruct Hget as (w' & [Hr' Hn' Hu'] & Hsame & Hacc & Ha & Ht & Hnext). exists w'.
  destruct (Z.leb_spec (n - nstart acc)%u64 (Z.of_nat (length (nonces acc)))) as [Hle|Hgt].
  2: { split_and!; [by split|intros; apply Hnext|by rewrite Hnext|by left; rewrite Hnext]. }
  destruct Ha as (Hused & Hstart & Hsmall).
  assert (0 ≤ (n - nstart acc)%u64) as Hpos by (unfold wrap64; apply Z.mod_pos_bound; done).
  set (k := Z.to_nat (n - nstart acc)%u64). assert (k ≤ length (nonces acc))%nat as Hk by (unfold k; lia).
  assert (account_ok (mkManaged (nstart acc) (take k (nonces acc)))) as Hok'.
  { split_and!; [by apply Forall_take|done|]. unfold tracked in *. cbn. rewrite length_take. lia. }
  assert (n < nstart acc → False) as Hnlt.
  { intros Hlt. unfold tracked, is_u64 in *. assert ((n - nstart acc)%u64 = n - nstart acc + u64_modulus) as Heq; [|lia].
    unfold wrap64. symmetry. apply (Z.mod_unique _ _ (-1)); lia. }
  assert (Z.of_nat k = n - nstart acc) as Hkn.
  { unfold k. rewrite Z2Nat.id by done. apply u64_sub_id. unfold is_u64, tracked in *. lia. }
  assert (tracked (mkManaged (nstart acc) (take k (nonces acc))) = n) as Htr.
  { unfold tracked. cbn. rewrite length_take. lia. }
  split_and!.
  - split; [done..|]. cbn. intros a acc'. destruct (decide (a = addr)) as [->|Hne]; [rewrite lookup_insert_eq; by intros [= <-]|].
    rewrite lookup_insert_ne by done. apply Hu'.
  - intros a Hne. rewrite <- Hnext. unfold next_nonce. cbn. by rewrite lookup_insert_ne.
  - rewrite <- Hnext. unfold next_nonce. cbn. rewrite lookup_insert_eq, Htr, Hacc. unfold tracked. lia.
  - right. unfold next_nonce. cbn. by rewrite lookup_insert_eq, Htr, Hsame.
Qed.
End laws.
