(* ===== verification/TxPool.v ===== *)
(** The transaction pool ([core/tx_pool.go]): validation of transactions, the
    queue of every account and its promotion to the pending list, the limits of
    the pool, demotion and the reset to a new head of the chain.

    The signer of the pool never changes, so the sender cached in a transaction
    is the one the signer derives.  A feed is the list of the events given to the
    subscribers.  Times are counted in nanoseconds. *)
From S2P Require Import Prelude Types Sealing Blocks Transition TxSigning Heap TxList TxPriced ManagedState Hoare.

Inductive pool_error :=
  | ErrInvalidSender | ErrNonceTooLow | ErrUnderpriced | ErrReplaceUnderpriced | ErrInsufficientFunds
  | ErrIntrinsicGas | ErrGasLimit | ErrNegativeValue | ErrOversizedData | ErrKnownTransaction
  | poolVmError (e : vm_error).
#[export] Instance pool_error_eq_dec : EqDecision pool_error.
Proof. solve_decision. Defined.

Inductive TxStatus := TxStatusUnknown | TxStatusQueued | TxStatusPending | TxStatusIncluded.
#[export] Instance tx_status_eq_dec : EqDecision TxStatus.
Proof. solve_decision. Defined.

(** * Configuration *)
Record TxPoolConfig := mkPoolConfig {
  Locals : list Address;
  NoLocals : bool;
  Rejournal : Z;
  PriceLimit : Z;
  PriceBump : Z;
  AccountSlots : Z;
  GlobalSlots : Z;
  AccountQueue : Z;
  GlobalQueue : Z;
  Lifetime : Z
}.
Definition Second : Z := 1000000000.
Definition DefaultTxPoolConfig : TxPoolConfig :=
  mkPoolConfig [] false (3600 * Second) 1 10 16 4096 64 1024 (3 * 3600 * Second).
Definition sanitize (c : TxPoolConfig) : TxPoolConfig :=
  let dflt := DefaultTxPoolConfig in
  let at_least (x d : Z) := if x <? 1 then d else x in
  mkPoolConfig (Locals c) (NoLocals c)
    (if Rejournal c <? Second then Second else Rejournal c)
    (at_least (PriceLimit c) (PriceLimit dflt)) (at_least (PriceBump c) (PriceBump dflt))
    (at_least (AccountSlots c) (AccountSlots dflt)) (at_least (GlobalSlots c) (GlobalSlots dflt))
    (at_least (AccountQueue c) (AccountQueue dflt)) (at_least (GlobalQueue c) (GlobalQueue dflt))
    (at_least (Lifetime c) (Lifetime dflt)).

(** * State *)

(** The state is absent until the first reset. *)
Record TxPool (S : Type) := mkTxPool {
  tp_gasPrice : Z;
  tp_txFeed : list (list Transaction);
  tp_currentState : option S;
  tp_pendingState : option (ManagedState S);
  tp_currentMaxGas : Z;
  tp_locals : accountSet;
  tp_pending : gmap Address txList;
  tp_queue : gmap Address txList;
  tp_beats : gmap Address Z;
  tp_all : gmap Hash Transaction;
  tp_priced : txPricedList;
  tp_head : option Block
}.
Arguments mkTxPool {S} _ _ _ _ _ _ _ _ _ _ _ _.
Arguments tp_gasPrice {S} _.
Arguments tp_txFeed {S} _.
Arguments tp_currentState {S} _.
Arguments tp_pendingState {S} _.
Arguments tp_currentMaxGas {S} _.
Arguments tp_locals {S} _.
Arguments tp_pending {S} _.
Arguments tp_queue {S} _.
Arguments tp_beats {S} _.
Arguments tp_all {S} _.
Arguments tp_priced {S} _.
Arguments tp_head {S} _.

Section setters.
Context {S : Type}.
Implicit Types p : TxPool S.
Definition set_gasPrice (x : Z) p : TxPool S :=
  mkTxPool x (tp_txFeed p) (tp_currentState p) (tp_pendingState p) (tp_currentMaxGas p) (tp_locals p)
    (tp_pending p) (tp_queue p) (tp_beats p) (tp_all p) (tp_priced p) (tp_head p).
Definition feed (txs : list Transaction) p : TxPool S :=
  mkTxPool (tp_gasPrice p) (tp_txFeed p ++ [txs]) (tp_currentState p) (tp_pendingState p) (tp_currentMaxGas p) (tp_locals p)
    (tp_pending p) (tp_queue p) (tp_beats p) (tp_all p) (tp_priced p) (tp_head p).
Definition set_states (s : option S) (ms : option (ManagedState S)) (maxGas : Z) p : TxPool S :=
  mkTxPool (tp_gasPrice p) (tp_txFeed p) s ms maxGas (tp_locals p)
    (tp_pending p) (tp_queue p) (tp_beats p) (tp_all p) (tp_priced p) (tp_head p).
Definition set_locals (l : accountSet) p : TxPool S :=
  mkTxPool (tp_gasPrice p) (tp_txFeed p) (tp_currentState p) (tp_pendingState p) (tp_currentMaxGas p) l
    (tp_pending p) (tp_queue p) (tp_beats p) (tp_all p) (tp_priced p) (tp_head p).
Definition set_pending (m : gmap Address txList) p : TxPool S :=
  mkTxPool (tp_gasPrice p) (tp_txFeed p) (tp_currentState p) (tp_pendingState p) (tp_currentMaxGas p) (tp_locals p)
    m (tp_queue p) (tp_beats p) (tp_all p) (tp_priced p) (tp_head p).
Definition set_queue (m : gmap Address txList) p : TxPool S :=
  mkTxPool (tp_gasPrice p) (tp_txFeed p) (tp_currentState p) (tp_pendingState p) (tp_currentMaxGas p) (tp_locals p)
    (tp_pending p) m (tp_beats p) (tp_all p) (tp_priced p) (tp_head p).
Definition set_beats (m : gmap Address Z) p : TxPool S :=
  mkTxPool (tp_gasPrice p) (tp_txFeed p) (tp_currentState p) (tp_pendingState p) (tp_currentMaxGas p) (tp_locals p)
    (tp_pending p) (tp_queue p) m (tp_all p) (tp_priced p) (tp_head p).
Definition set_all (m : gmap Hash Transaction) (l : txPricedList) p : TxPool S :=
  mkTxPool (tp_gasPrice p) (tp_txFeed p) (tp_currentState p) (tp_pendingState p) (tp_currentMaxGas p) (tp_locals p)
    (tp_pending p) (tp_queue p) (tp_beats p) m l (tp_head p).
Definition set_head (b : option Block) p : TxPool S :=
  mkTxPool (tp_gasPrice p) (tp_txFeed p) (tp_currentState p) (tp_pendingState p) (tp_currentMaxGas p) (tp_locals p)
    (tp_pending p) (tp_queue p) (tp_beats p) (tp_all p) (tp_priced p) b.
End setters.

(** ** What the pool asks for

    [Transaction.Size], the length of an encoding; the copy of a state under
    the pending nonces; and the chain, [blockChain] in the source. *)
Class TxSize := tx_Size : Transaction → Z.
Class StateCopy (S : Type) := state_Copy : S → S.
Class PoolChain (C S : Type) := {
  pc_CurrentBlock : C → Block;
  pc_GetBlock : C → Hash → Z → option Block;
  pc_StateAt : C → Hash → option S
}.

(** [Block.Hash], [Block.NumberU64] *)
Definition Block_Hash `{Crypto} (b : Block) : Hash := Header_Hash (block_header b).
Definition NumberU64 {E} (b : Block) : Result E Z := Types.Uint64 (Number (block_header b)).
Definition TxDifference `{TxCrypto} (a b : list Transaction) : list Transaction :=
  let remove : gset Hash := list_to_set (rlpHash_tx <$> b) in
  filter (λ tx, rlpHash_tx tx ∉ remove) a.

Section pool.
Context `{Crypto} `{TxCrypto} `{MapRange} `{TxSize} {S : Type} `{VMState S} `{StateCopy S}.
Variables (config : TxPoolConfig) (signer : Signer) (now : Z).
Implicit Types p : TxPool S.
Abbreviation M := (GoM (TxPool S) pool_error).

(** [types.Sender] where the error is dropped *)
Definition sender_of (tx : Transaction) : M Address :=
  match Signer_Sender signer tx with Ok a => mret a | Err _ => mret 0 | Panic q => panic q end.
Definition current_nonce (addr : Address) : M Z :=
  p ← get_state;
  match tp_currentState p with
  | None => panic NilDereference
  | Some s =>
      let '(n, s) := vm_GetNonce addr s in
      put_state (set_states (Some s) (tp_pendingState p) (tp_currentMaxGas p) p);; mret n
  end.
Definition current_balance (addr : Address) : M Z :=
  p ← get_state;
  match tp_currentState p with
  | None => panic NilDereference
  | Some s =>
      let '(b, s) := vm_GetBalance addr s in
      put_state (set_states (Some s) (tp_pendingState p) (tp_currentMaxGas p) p);; mret b
  end.
Definition pending_nonce (addr : Address) : M Z :=
  p ← get_state;
  match tp_pendingState p with
  | None => panic NilDereference
  | Some ms =>
      let '(n, ms) := managed_GetNonce addr ms in
      put_state (set_states (tp_currentState p) (Some ms) (tp_currentMaxGas p) p);; mret n
  end.
Definition set_pending_nonce (addr : Address) (n : Z) : M unit :=
  p ← get_state;
  match tp_pendingState p with
  | None => panic NilDereference
  | Some ms => put_state (set_states (tp_currentState p) (Some (managed_SetNonce addr n ms)) (tp_currentMaxGas p) p)
  end.
(** [if nonce := tx.Nonce(); pool.pendingState.GetNonce(addr) > nonce] *)
Definition lower_pending_nonce (addr : Address) (nonce : Z) : M unit :=
  n ← pending_nonce addr; if nonce <? n then set_pending_nonce addr nonce else mret tt.

(** [pool.priced.Removed()], after [pool.all.Remove(hash)] in [forget] *)
Definition priced_removed : M unit := modify (λ p, set_all (tp_all p) (Removed (tp_all p) (tp_priced p)) p).
Definition all_remove (hash : Hash) : M unit := modify (λ p, set_all (delete hash (tp_all p)) (tp_priced p) p).
Definition forget (hash : Hash) : M unit := all_remove hash;; priced_removed.
(** [pool.all.Add(tx); pool.priced.Put(tx)] *)
Definition register (tx : Transaction) : M unit :=
  modify (λ p, set_all (lookup_Add (tp_all p) tx) (priced_Put (tp_priced p) tx) p).
(** [pool.priced.Removed] for the transaction that was replaced, if any *)
Definition forget_old (old : option Transaction) : M unit :=
  match old with Some old => forget (rlpHash_tx old) | None => mret tt end.
Definition register_new (hash : Hash) (tx : Transaction) : M unit :=
  p ← get_state; match lookup_Get (tp_all p) hash with None => register tx | Some _ => mret tt end.

(** A method of a list of the pool, through the pointer the map holds. *)
Definition on_pending {A} (addr : Address) (f : txList → Result pool_error (A * txList)) : M A :=
  p ← get_state;
  match tp_pending p !! addr with
  | None => panic NilDereference
  | Some l => '(a, l) ← lift (f l); modify (λ p, set_pending (<[addr := l]> (tp_pending p)) p);; mret a
  end.
Definition on_queue {A} (addr : Address) (f : txList → Result pool_error (A * txList)) : M A :=
  p ← get_state;
  match tp_queue p !! addr with
  | None => panic NilDereference
  | Some l => '(a, l) ← lift (f l); modify (λ p, set_queue (<[addr := l]> (tp_queue p)) p);; mret a
  end.
Definition flatten (l : txList) : Result pool_error (list Transaction * txList) := Ok (list_Flatten l).
Definition filter_list (costLimit gasLimit : Z) (l : txList) : Result pool_error (list Transaction * list Transaction * txList) :=
  Ok (list_Filter l costLimit gasLimit).
(** [if list.Empty() { delete(..., addr) }]; a pending list takes its heartbeat along. *)
Definition drop_empty_pending (addr : Address) : M unit :=
  modify (λ p,
    if bool_decide (list_Empty <$> tp_pending p !! addr = Some true)
    then set_beats (delete addr (tp_beats p)) (set_pending (delete addr (tp_pending p)) p) else p).
Definition drop_empty_queue (addr : Address) : M unit :=
  modify (λ p,
    if bool_decide (list_Empty <$> tp_queue p !! addr = Some true) then set_queue (delete addr (tp_queue p)) p else p).

(** * Validation *)
Definition validateTx (tx : Transaction) (local : bool) : M unit :=
  if 32 * 1024 <? tx_Size tx then throw ErrOversizedData else
  if Amount tx <? 0 then throw ErrNegativeValue else
  p ← get_state;
  if tp_currentMaxGas p <? TxGasLimit tx then throw ErrGasLimit else
  match Signer_Sender signer tx with
  | Panic q => panic q
  | Err _ => throw ErrInvalidSender
  | Ok from =>
      let local := local || contains (tp_locals p) from in
      if negb local && (Price tx <? tp_gasPrice p) then throw ErrUnderpriced else
      nonce ← current_nonce from;
      if AccountNonce tx <? nonce then throw ErrNonceTooLow else
      balance ← current_balance from;
      if balance <? Cost tx then throw ErrInsufficientFunds else
      match IntrinsicGas (Payload tx) (bool_decide (Recipient tx = None)) with
      | Panic q => panic q
      | Err e => throw (poolVmError e)
      | Ok intrGas => if TxGasLimit tx <? intrGas then throw ErrIntrinsicGas else mret tt
      end
  end.

(** * Queueing and promotion *)
Definition enqueueTx (hash : Hash) (tx : Transaction) : M bool :=
  from ← sender_of tx;
  p ← get_state;
  let '(inserted, old, l) := Add (default (newTxList false) (tp_queue p !! from)) tx (PriceBump config) in
  modify (λ p, set_queue (<[from := l]> (tp_queue p)) p);;
  if negb inserted then throw ErrReplaceUnderpriced else
  forget_old old;;
  register_new hash tx;;
  mret (bool_decide (is_Some old)).

Definition promoteTx (addr : Address) (hash : Hash) (tx : Transaction) : M bool :=
  p ← get_state;
  let '(inserted, old, l) := Add (default (newTxList true) (tp_pending p !! addr)) tx (PriceBump config) in
  modify (λ p, set_pending (<[addr := l]> (tp_pending p)) p);;
  if negb inserted then forget hash;; mret false else
  forget_old old;;
  register_new hash tx;;
  modify (λ p, set_beats (<[addr := now]> (tp_beats p)) p);;
  set_pending_nonce addr (AccountNonce tx + 1)%u64;;
  mret true.

Definition removeTx (hash : Hash) (outofbound : bool) : M unit :=
  p ← get_state;
  match lookup_Get (tp_all p) hash with
  | None => mret tt
  | Some tx =>
      addr ← sender_of tx;
      all_remove hash;;
      (if outofbound then priced_removed else mret tt);;
      removed ← match tp_pending p !! addr with
        | None => mret None
        | Some _ =>
            '(removed, invalids) ← on_pending addr (λ l, list_Remove l tx);
            mret (if removed : bool then Some invalids else None)
        end;
      match removed with
      | Some invalids =>
          drop_empty_pending addr;;
          for_each invalids (λ tx, attempt (enqueueTx (rlpHash_tx tx) tx);; mret tt);;
          lower_pending_nonce addr (AccountNonce tx)
      | None =>
          p ← get_state;
          match tp_queue p !! addr with
          | None => mret tt
          | Some _ => on_queue addr (λ l, list_Remove l tx);; drop_empty_queue addr
          end
      end
  end.

(** * Keeping the pool within its limits *)

(** ** Promoting the transactions of an account *)
Definition forget_all (txs : list Transaction) : M unit := for_each txs (λ tx, forget (rlpHash_tx tx)).
(** The transactions a method of a list returns are no longer known. *)
Definition drop_from_queue (addr : Address) (f : txList → Result pool_error (list Transaction * txList)) : M unit :=
  drops ← on_queue addr f; forget_all drops.
Definition promote_account (addr : Address) (promoted : list Transaction) : M (list Transaction) :=
  p ← get_state;
  match tp_queue p !! addr with
  | None => mret promoted
  | Some _ =>
      nonce ← current_nonce addr;
      drop_from_queue addr (λ l, list_Forward l nonce);;
      balance ← current_balance addr;
      drop_from_queue addr (λ l, '(drops, _, l) ← filter_list balance (tp_currentMaxGas p) l; Ok (drops, l));;
      start ← pending_nonce addr;
      ready ← on_queue addr (λ l, list_Ready l start);
      promoted ← for_acc ready (λ tx promoted,
        b ← promoteTx addr (rlpHash_tx tx) tx; mret (if b : bool then promoted ++ [tx] else promoted)) promoted;
      (if contains (tp_locals p) addr then mret tt else
       drop_from_queue addr (λ l, list_Cap l (int64 (AccountQueue config))));;
      drop_empty_queue addr;;
      mret promoted
  end.

(** ** The pending limit *)
Definition total_len (m : gmap Address txList) : Z :=
  foldl (λ n kv, (n + list_Len kv.2)%u64) 0 (map_range m).
Definition pending_len (addr : Address) : M Z :=
  p ← get_state; match tp_pending p !! addr with Some l => mret (list_Len l) | None => panic NilDereference end.
(** The last transaction of an account is dropped. *)
Definition drop_last (addr : Address) : M unit :=
  len ← pending_len addr;
  drops ← on_pending addr (λ l, list_Cap l (len - 1));
  for_each drops (λ tx, forget (rlpHash_tx tx);; lower_pending_nonce addr (AccountNonce tx)).
Definition drop_round (offenders : list Address) (pending : Z) : M Z :=
  for_acc offenders (λ addr pending, drop_last addr;; mret (pending - 1)%u64) pending.
(** Rounds, as long as the pool is above its limit and the account [last] has
    more than [threshold] transactions. *)
Fixpoint drop_rounds (fuel : nat) (offenders : list Address) (last : Address) (threshold pending : Z) : M Z :=
  if negb (GlobalSlots config <? pending) then mret pending else
  len ← pending_len last;
  if negb (threshold <? len) then mret pending else
  match fuel with
  | O => panic OutOfFuel
  | Datatypes.S fuel => pending ← drop_round offenders pending; drop_rounds fuel offenders last threshold pending
  end.

(** The turns are bounded by the transactions of [last]. *)
Definition drop_down_to (offenders : list Address) (last : Address) (threshold pending : Z) : M Z :=
  p ← get_state;
  drop_rounds (default O ((λ l, Z.to_nat (list_Len l)) <$> tp_pending p !! last)) offenders last threshold pending.

(** The priority queue of offenders: [prque], a heap of blocks, behaves as a heap
    on a slice; the difference of priorities is an [int64]. *)
Definition prio_less (a b : Address * Z) : bool := 0 <? int64 (a.2 - b.2).
Fixpoint equalize (fuel : nat) (spammers : list (Address * Z)) (offenders : list Address) (pending : Z) : M (list Address * Z) :=
  if negb (GlobalSlots config <? pending) || bool_decide (spammers = []) then mret (offenders, pending) else
  match fuel with
  | O => panic OutOfFuel
  | Datatypes.S fuel =>
      '((offender, _), spammers) ← lift (Pop prio_less spammers);
      pending ← match last offenders with
        | None => mret pending
        | Some previous =>
            threshold ← pending_len offender;
            drop_down_to offenders previous threshold pending
        end;
      equalize fuel spammers (offenders ++ [offender]) pending
  end.
Definition limit_pending : M unit :=
  p ← get_state;
  let pending := total_len (tp_pending p) in
  if negb (GlobalSlots config <? pending) then mret tt else
  let spammers := foldl (λ spammers kv,
    if negb (contains (tp_locals p) kv.1) && (AccountSlots config <? list_Len kv.2)
    then Push prio_less spammers (kv.1, list_Len kv.2) else spammers) [] (map_range (tp_pending p)) in
  '(offenders, pending) ← equalize (length spammers) spammers [] pending;
  match last offenders with
  | None => mret tt
  | Some previous => drop_down_to offenders previous (AccountSlots config) pending;; mret tt
  end.

(** ** The limit of the queue *)
Definition by_heartbeat (a b : Address * Z) : Prop := a.2 ≤ b.2.
#[export] Instance by_heartbeat_dec a b : Decision (by_heartbeat a b).
Proof. unfold by_heartbeat. apply _. Defined.
Definition addressesByHeartbeat (l : list (Address * Z)) : list (Address * Z) := merge_sort by_heartbeat l.
(** The first transactions of a list, as many as [drop]; what is left to drop. *)
Definition remove_first (txs : list Transaction) (drop : Z) : M Z :=
  for_acc txs (λ tx drop, if 0 <? drop then removeTx (rlpHash_tx tx) true;; mret (drop - 1)%u64 else mret drop) drop.
Fixpoint drop_queued (addresses : list Address) (drop : Z) : M unit :=
  match addresses with
  | [] => mret tt
  | addr :: addresses =>
      if negb (0 <? drop) then mret tt else
      txs ← on_queue addr flatten;
      let size := Z.of_nat (length txs) in
      if size <=? drop then for_each txs (λ tx, removeTx (rlpHash_tx tx) true);; drop_queued addresses (drop - size)%u64
      else drop ← remove_first (reverse txs) drop; drop_queued addresses drop
  end.
Definition limit_queue : M unit :=
  p ← get_state;
  let queued := total_len (tp_queue p) in
  if negb (GlobalQueue config <? queued) then mret tt else
  let addresses := (λ addr, (addr, default 0 (tp_beats p !! addr))) <$>
    filter (λ addr, contains (tp_locals p) addr = false) (fst <$> map_range (tp_queue p)) in
  drop_queued (reverse (fst <$> addressesByHeartbeat addresses)) (queued - GlobalQueue config)%u64.

Definition promoteExecutables (accounts : option (list Address)) : M unit :=
  p ← get_state;
  let accounts := default (fst <$> map_range (tp_queue p)) accounts in
  promoted ← for_acc accounts promote_account [];
  (match promoted with [] => mret tt | _ => modify (feed promoted) end);;
  limit_pending;;
  limit_queue.

(** ** Demotion *)
Definition demote (txs : list Transaction) : M unit :=
  for_each txs (λ tx, attempt (enqueueTx (rlpHash_tx tx) tx);; mret tt).
Definition demote_account (addr : Address) : M unit :=
  nonce ← current_nonce addr;
  old ← on_pending addr (λ l, list_Forward l nonce);
  forget_all old;;
  balance ← current_balance addr;
  p ← get_state;
  '(drops, invalids) ← on_pending addr (filter_list balance (tp_currentMaxGas p));
  forget_all drops;;
  demote invalids;;
  p ← get_state;
  (match tp_pending p !! addr with
   | None => panic NilDereference
   | Some l =>
       if (0 <? list_Len l) && bool_decide (Get (txs l) nonce = None)
       then gap ← on_pending addr (λ l, list_Cap l 0); demote gap else mret tt
   end);;
  drop_empty_pending addr.
Definition demoteUnexecutables : M unit :=
  p ← get_state; for_each (fst <$> map_range (tp_pending p)) demote_account.

(** * Adding transactions *)

(** [uint64(pool.all.Count())], [pool.config.GlobalSlots+pool.config.GlobalQueue] *)
Definition pool_count p : Z := Z.of_nat (size (tp_all p)).
Definition pool_capacity : Z := (GlobalSlots config + GlobalQueue config)%u64.
Definition make_room (tx : Transaction) (local : bool) : M unit :=
  p ← get_state;
  if pool_count p <? pool_capacity then mret tt else
  underpriced ← (if local then mret false else
    '(b, l) ← lift (Underpriced (tp_all p) tx (tp_locals p) (tp_priced p));
    modify (set_all (tp_all p) l);; mret b);
  if underpriced : bool then throw ErrUnderpriced else
  p ← get_state;
  '(drop, l) ← lift (Discard (tp_all p) (pool_count p - int64 (pool_capacity - 1)%u64) (tp_locals p) (tp_priced p));
  modify (set_all (tp_all p) l);;
  for_each drop (λ tx, removeTx (rlpHash_tx tx) false).

(** Not a replacement of a pending transaction: it goes to the queue. *)
Definition enqueue_new (hash : Hash) (tx : Transaction) (local : bool) (from : Address) : M bool :=
  replace ← enqueueTx hash tx;
  (if local then modify (λ p, if contains (tp_locals p) from then p else set_locals (as_add (tp_locals p) from) p) else mret tt);;
  mret replace.
(** Whether a transaction was replaced. *)
Definition add (tx : Transaction) (local : bool) : M bool :=
  let hash := rlpHash_tx tx in
  p ← get_state;
  match lookup_Get (tp_all p) hash with
  | Some _ => throw ErrKnownTransaction
  | None =>
      validateTx tx local;;
      make_room tx local;;
      from ← sender_of tx;
      p ← get_state;
      match tp_pending p !! from with
      | Some l =>
          if Overlaps l tx then
            '(inserted, old) ← on_pending from (λ l, let '(inserted, old, l) := Add l tx (PriceBump config) in Ok ((inserted, old), l));
            if negb inserted then throw ErrReplaceUnderpriced else
            forget_old old;;
            register tx;;
            modify (feed [tx]);;
            mret (bool_decide (is_Some old))
          else enqueue_new hash tx local from
      | None => enqueue_new hash tx local from
      end
  end.

Definition addTx (tx : Transaction) (local : bool) : M unit :=
  replace ← add tx local;
  if replace : bool then mret tt else
  from ← sender_of tx;
  promoteExecutables (Some [from]).
Definition AddLocal (tx : Transaction) : M unit := addTx tx (negb (NoLocals config)).
Definition AddRemote (tx : Transaction) : M unit := addTx tx false.

(** The errors, one per transaction, and the accounts to promote. *)
Definition add_batch (local : bool) (tx : Transaction) (acc : list (option pool_error) * gmap Address ()) :
    M (list (option pool_error) * gmap Address ()) :=
  let '(errs, dirty) := acc in
  r ← attempt (add tx local);
  match r with
  | inl e => mret (errs ++ [Some e], dirty)
  | inr true => mret (errs ++ [None], dirty)
  | inr false => from ← sender_of tx; mret (errs ++ [None], <[from := ()]> dirty)
  end.
Definition addTxsLocked (txs : list Transaction) (local : bool) : M (list (option pool_error)) :=
  '(errs, dirty) ← for_acc txs (add_batch local) ([], ∅);
  (if bool_decide (dirty = ∅) then mret tt else promoteExecutables (Some (fst <$> map_range dirty)));;
  mret errs.
Definition AddLocals (txs : list Transaction) : M (list (option pool_error)) := addTxsLocked txs (negb (NoLocals config)).
Definition AddRemotes (txs : list Transaction) : M (list (option pool_error)) := addTxsLocked txs false.

(** * Queries *)
Definition Status (hashes : list Hash) : M (list TxStatus) :=
  p ← get_state;
  for_acc hashes (λ hash status,
    match lookup_Get (tp_all p) hash with
    | None => mret (status ++ [TxStatusUnknown])
    | Some tx =>
        from ← sender_of tx;
        let pending := match tp_pending p !! from with Some l => Overlaps l tx | None => false end in
        mret (status ++ [if pending then TxStatusPending else TxStatusQueued])
    end) [].
Definition pool_Get p (hash : Hash) : option Transaction := lookup_Get (tp_all p) hash.
Definition stats p : Z * Z := (int64 (total_len (tp_pending p)), int64 (total_len (tp_queue p))).
(** Flattening fills the caches of the lists. *)
Definition Pending : M (gmap Address (list Transaction)) :=
  p ← get_state;
  put_state (set_pending ((λ l, (list_Flatten l).2) <$> tp_pending p) p);;
  mret ((λ l, (list_Flatten l).1) <$> tp_pending p).
Definition Content : M (gmap Address (list Transaction) * gmap Address (list Transaction)) :=
  pending ← Pending;
  p ← get_state;
  put_state (set_queue ((λ l, (list_Flatten l).2) <$> tp_queue p) p);;
  mret (pending, (λ l, (list_Flatten l).1) <$> tp_queue p).

(** * Maintenance *)
Definition SetGasPrice (price : Z) : M unit :=
  modify (set_gasPrice price);;
  p ← get_state;
  '(drop, l) ← lift (priced_Cap (tp_all p) price (tp_locals p) (tp_priced p));
  modify (set_all (tp_all p) l);;
  for_each drop (λ tx, removeTx (rlpHash_tx tx) false).

(** One turn of [Run]: remote accounts without a recent heartbeat lose their
    queue.  An account that is deleted meanwhile is not visited. *)
Definition evict_account (addr : Address) : M unit :=
  p ← get_state;
  match tp_queue p !! addr with
  | None => mret tt
  | Some _ =>
      if contains (tp_locals p) addr then mret tt else
      if Lifetime config <? now - default 0 (tp_beats p !! addr) then
        txs ← on_queue addr flatten; for_each txs (λ tx, removeTx (rlpHash_tx tx) true)
      else mret tt
  end.
Definition evict : M unit :=
  p ← get_state; for_each (fst <$> map_range (tp_queue p)) evict_account.

(** ** Following the chain *)
Section reset.
Context {C : Type} `{PoolChain C S} (chain : C).
Abbreviation R := (Result pool_error).

Definition parent_block (b : Block) : R (option Block) :=
  n ← NumberU64 b; Ok (pc_GetBlock chain (ParentHash (block_header b)) (n - 1)%u64).
(** The transactions of the blocks above a height, and the block reached; [None]
    where the source gives up. *)
Fixpoint descend (fuel : nat) (b : Block) (height : Z) (txs : list Transaction) : R (option (Block * list Transaction)) :=
  n ← NumberU64 b;
  if negb (height <? n) then Ok (Some (b, txs)) else
  match fuel with
  | O => Panic OutOfFuel
  | Datatypes.S fuel =>
      parent ← parent_block b;
      match parent with
      | None => Ok None
      | Some parent => descend fuel parent height (txs ++ block_transactions b)
      end
  end.
(** Both branches down to the block they share. *)
Fixpoint meet (fuel : nat) (rem add : Block) (discarded included : list Transaction) :
    R (option (list Transaction * list Transaction)) :=
  if Block_Hash rem =? Block_Hash add then Ok (Some (discarded, included)) else
  match fuel with
  | O => Panic OutOfFuel
  | Datatypes.S fuel =>
      rem' ← parent_block rem;
      match rem' with
      | None => Ok None
      | Some rem' =>
          add' ← parent_block add;
          match add' with
          | None => Ok None
          | Some add' => meet fuel rem' add' (discarded ++ block_transactions rem) (included ++ block_transactions add)
          end
      end
  end.
(** The transactions to add again; [None] where [reset] returns early. *)
Definition reinjected (oldHead newHead : Header) : R (option (list Transaction)) :=
  if Header_Hash oldHead =? ParentHash newHead then Ok (Some []) else
  oldNum ← Types.Uint64 (Number oldHead);
  newNum ← Types.Uint64 (Number newHead);
  (* the difference of two floats, exact below 2^53 *)
  if 64 <? Z.abs (oldNum - newNum) then Ok (Some []) else
  match pc_GetBlock chain (Header_Hash oldHead) oldNum with
  | None => Ok None
  | Some rem =>
      match pc_GetBlock chain (Header_Hash newHead) newNum with
      | None => Panic NilDereference
      | Some add =>
          addNum ← NumberU64 add;
          r ← descend 64 rem addNum [];
          match r with
          | None => Ok None
          | Some (rem, discarded) =>
              remNum ← NumberU64 rem;
              a ← descend 64 add remNum [];
              match a with
              | None => Ok None
              | Some (add, included) =>
                  m ← meet (Datatypes.S (Z.to_nat remNum)) rem add discarded included;
                  match m with
                  | None => Ok None
                  | Some (discarded, included) => Ok (Some (TxDifference discarded included))
                  end
              end
          end
      end
  end.

Definition update_pending_nonces : M unit :=
  p ← get_state;
  for_each (fst <$> map_range (tp_pending p)) (λ addr,
    txs ← on_pending addr flatten;
    match last txs with
    | None => panic IndexOutOfRange
    | Some tx => set_pending_nonce addr (AccountNonce tx + 1)%u64
    end).
(** The log line at the start dereferences [newHead]. *)
Definition reset (oldHead newHead : option Header) : M unit :=
  match newHead with
  | None => panic NilDereference
  | Some newHead =>
      reinject ← match oldHead with None => mret (Some []) | Some oldHead => lift (reinjected oldHead newHead) end;
      match reinject with
      | None => mret tt
      | Some reinject =>
          match pc_StateAt chain (Root newHead) with
          | None => mret tt
          | Some statedb =>
              modify (set_states (Some statedb) (Some (ManageState (state_Copy statedb))) (GasLimit newHead));;
              addTxsLocked reinject false;;
              demoteUnexecutables;;
              update_pending_nonces;;
              promoteExecutables None;;
              Pending;; mret tt
          end
      end
  end.
Definition handleChainHead (block : option Block) : M unit :=
  match block with
  | None => mret tt
  | Some block =>
      p ← get_state;
      match tp_head p with
      | None => panic NilDereference
      | Some head => reset (Some (block_header head)) (Some (block_header block));; modify (set_head (Some block))
      end
  end.
End reset.
End pool.

Section new_pool.
Context `{Crypto} `{TxCrypto} `{MapRange} `{TxSize} {S : Type} `{VMState S} `{StateCopy S} {C : Type} `{PoolChain C S}.
(** The pool before its first reset. *)
Definition emptyTxPool (config : TxPoolConfig) (chainId : option Z) : TxPool S :=
  let signer := NewEIP155Signer chainId in
  mkTxPool (PriceLimit config) [] None None 0
    (foldl as_add (newAccountSet signer) (Locals config)) ∅ ∅ ∅ ∅ newTxPricedList None.
Definition NewTxPool (config : TxPoolConfig) (chainId : option Z) (chain : C) (now : Z) : Result pool_error unit * TxPool S :=
  let config := sanitize config in
  (reset config (NewEIP155Signer chainId) now chain None (Some (block_header (pc_CurrentBlock chain)));;
   modify (set_head (Some (pc_CurrentBlock chain)))) (emptyTxPool config chainId).
End new_pool.
