(* ===== verification/TxPoolInv.v ===== *)
(** The invariant of the transaction pool: every known transaction is in exactly
    one list, or has just been taken out of one. *)
From S2P Require Import Prelude Types Sealing Blocks Transition TxSigning Heap TxList TxListRuns TxPriced ManagedState Hoare TxPool.

Abbreviation items l := (smItems (txs l)) (only parsing).

(** * The transactions of a map of lists *)
Definition list_txs (l : txList) : list Transaction := sorted_txs (smItems (txs l)).
Definition txs_of (m : gmap Address txList) : list Transaction := concat ((λ kv, list_txs kv.2) <$> map_to_list m).

Lemma txs_of_empty : txs_of ∅ = [].
Proof. unfold txs_of. by rewrite map_to_list_empty. Qed.
Lemma txs_of_insert m a l : m !! a = None → txs_of (<[a := l]> m) ≡ₚ list_txs l ++ txs_of m.
Proof. intros Ha. unfold txs_of. by rewrite map_to_list_insert. Qed.
Lemma txs_of_delete m a l : m !! a = Some l → list_txs l ++ txs_of (delete a m) ≡ₚ txs_of m.
Proof. intros Ha. rewrite <- (insert_delete_id m a l Ha) at 2. symmetry. apply txs_of_insert, lookup_delete_eq. Qed.
(** Replacing the list of an account. *)
Lemma txs_of_update m a l : txs_of (<[a := l]> m) ≡ₚ list_txs l ++ txs_of (delete a m).
Proof. rewrite <- insert_delete_eq. apply txs_of_insert, lookup_delete_eq. Qed.
Lemma elem_of_list_txs l tx : tx ∈ list_txs l ↔ ∃ n, items l !! n = Some tx.
Proof.
  unfold list_txs, sorted_txs. rewrite elem_of_pick. split; [by intros (k & _ & Hk); exists k|].
  intros [k Hk]. exists k. split; [|done]. apply (proj2 (sorted_keys_asc _)). by eexists.
Qed.
Lemma elem_of_txs_of m tx : tx ∈ txs_of m ↔ ∃ a l, m !! a = Some l ∧ tx ∈ list_txs l.
Proof.
  unfold txs_of. rewrite list_elem_of_In, in_concat. setoid_rewrite <- list_elem_of_In. split.
  - intros (? & ([a l] & -> & Hal)%list_elem_of_fmap & Htx). apply elem_of_map_to_list in Hal. by exists a, l.
  - intros (a & l & Hal & Htx). exists (list_txs l). split; [|done]. apply list_elem_of_fmap. exists (a, l).
    split; [done|]. by apply elem_of_map_to_list.
Qed.
Lemma list_txs_length l : Z.of_nat (length (list_txs l)) = list_Len l.
Proof.
  unfold list_txs, sorted_txs, list_Len, Len. rewrite pick_length; [|intros k; apply (proj2 (sorted_keys_asc _))].
  by rewrite (asc_size _ _ (sorted_keys_asc _)).
Qed.

(** * Transactions that leave a list or enter it *)
Record moved (l : txList) (out : list Transaction) (l' : txList) : Prop := {
  mv_ok : list_ok l';
  mv_strict : strict l' = strict l;
  mv_perm : out ++ list_txs l' ≡ₚ list_txs l
}.
Lemma moved_elem l out l' tx : moved l out l' → tx ∈ list_txs l' → tx ∈ list_txs l.
Proof. intros [_ _ Hp] Htx. rewrite <- Hp. apply elem_of_app. by right. Qed.

(** A list whose transactions are all at their nonce. *)
Lemma list_txs_by_key l : list_ok l → list_txs l ≡ₚ (map_to_list (items l)).*2.
Proof. intros _. apply sorted_txs_perm. Qed.
Lemma pick_split (m : gmap Z Transaction) ks gone : (∀ k, k ∈ gone → k ∈ ks) → NoDup gone → NoDup ks →
  pick m gone ++ pick m (filter (λ k, k ∉ gone) ks) ≡ₚ pick m ks.
Proof.
  intros Hsub Hg Hk. rewrite <- pick_app. apply pick_perm. apply NoDup_Permutation; [|done|].
  - apply NoDup_app. split_and!; [done| |by apply NoDup_filter]. intros k Hin. rewrite list_elem_of_filter. tauto.
  - intros k. rewrite elem_of_app, list_elem_of_filter. destruct (decide (k ∈ gone)) as [Hin|Hin]; [|tauto]. split; [|by left]. intros _. auto.
Qed.
(** Taking out the transactions at some nonces. *)
Lemma moved_without l l' gone : list_ok l → list_ok l' → strict l' = strict l → NoDup gone →
  (∀ k, k ∈ gone → is_Some (items l !! k)) → items l' = without gone (items l) → moved l (pick (items l) gone) l'.
Proof.
  intros Hl Hl' Hs Hnd Hgone Hi. split; [done..|]. unfold list_txs, sorted_txs. rewrite Hi.
  set (ks := sorted_keys (items l)). pose proof (sorted_keys_asc (items l)) as Hks. fold ks in Hks.
  assert (asc (without gone (items l)) (filter (λ k, k ∉ gone) ks)) as Hasc.
  { apply (asc_without _ ks); [done|apply sublist_filter|]. intros k Hk. rewrite list_elem_of_filter. tauto. }
  rewrite (asc_sorted_keys _ _ Hasc), pick_without by (intros k [Hk _]%list_elem_of_filter; done).
  apply pick_split; [intros k Hk; by apply Hks, Hgone|done|apply sorted_lt_NoDup, Hks].
Qed.
Lemma keys_NoDup (m : gmap Z Transaction) : NoDup (sorted_keys m).
Proof. apply sorted_lt_NoDup, sorted_keys_asc. Qed.
Lemma keys_in (m : gmap Z Transaction) k : k ∈ sorted_keys m ↔ is_Some (m !! k).
Proof. apply sorted_keys_asc. Qed.

Lemma sorted_txs_insert (m : gmap Z Transaction) n tx : m !! n = None → sorted_txs (<[n := tx]> m) ≡ₚ tx :: sorted_txs m.
Proof. intros Hn. by rewrite !sorted_txs_perm, map_to_list_insert. Qed.
Lemma sorted_txs_delete (m : gmap Z Transaction) n tx : m !! n = Some tx → tx :: sorted_txs (delete n m) ≡ₚ sorted_txs m.
Proof. intros Hn. rewrite <- (insert_delete_id m n tx Hn) at 2. symmetry. apply sorted_txs_insert, lookup_delete_eq. Qed.

(** Iteration visits every entry once. *)
Lemma range_keys_NoDup `{MapRange} {K A} `{Countable K} (m : gmap K A) : NoDup (map_range m).*1.
Proof. rewrite map_range_perm. apply NoDup_fst_map_to_list. Qed.
Lemma elem_of_range `{MapRange} {K A} `{Countable K} (m : gmap K A) k x : (k, x) ∈ map_range m ↔ m !! k = Some x.
Proof. by rewrite map_range_perm, elem_of_map_to_list. Qed.
Lemma elem_of_range_keys `{MapRange} {K A} `{Countable K} (m : gmap K A) k : k ∈ (map_range m).*1 ↔ is_Some (m !! k).
Proof.
  rewrite list_elem_of_fmap. split; [intros ([k' x] & -> & Hin%elem_of_range); by eexists|].
  intros [x Hx]. exists (k, x). split; [done|]. by apply elem_of_range.
Qed.

Section moves.
Context `{MapRange} {E : Type}.

Lemma Forward_moved l t : list_ok l → ∃ out l', list_Forward (E := E) l t = Ok (out, l') ∧ moved l out l' ∧
  items l' = from t (items l).
Proof.
  intros Hl. destruct (list_Forward_ok (E := E) l t Hl) as (l' & -> & Hl' & Hs & Hi). eexists _, l'. split_and!; [done| |done].
  apply moved_without; [done..| | |].
  - apply NoDup_filter, keys_NoDup.
  - intros k [_ Hk]%list_elem_of_filter. by apply keys_in.
  - rewrite Hi. apply map_eq. intros k. rewrite without_lookup. case_decide as Hk.
    + apply list_elem_of_filter in Hk as [Hlt _]. apply map_lookup_filter_None. right. intros tx _. cbn. lia.
    + destruct (items l !! k) as [tx|] eqn:Htx; [|apply map_lookup_filter_None; by left]. apply map_lookup_filter_Some. split; [done|]. cbn.
      destruct (decide (t ≤ k)) as [Hle|Hgt]; [done|]. destruct Hk. apply list_elem_of_filter. split; [lia|]. apply keys_in. by eexists.
Qed.
Lemma Cap_moved l t : list_ok l → 0 ≤ t → ∃ out l', list_Cap (E := E) l t = Ok (out, l') ∧ moved l out l' ∧
  items l' = without (drop (Z.to_nat t) (sorted_keys (items l))) (items l) ∧ list_Len l' = Z.min t (list_Len l).
Proof.
  intros Hl Ht. destruct (list_Cap_ok (E := E) l t Hl Ht) as (l' & -> & Hl' & Hs & Hi). eexists _, l'.
  set (gone := drop (Z.to_nat t) (sorted_keys (items l))) in *.
  assert (NoDup gone) as Hnd.
  { pose proof (keys_NoDup (items l)) as Hn. rewrite <- (take_drop (Z.to_nat t) (sorted_keys _)) in Hn. by apply NoDup_app in Hn as (_ & _ & ?). }
  assert (∀ k, k ∈ gone → is_Some (items l !! k)) as Hg.
  { intros k Hk. apply keys_in. rewrite <- (take_drop (Z.to_nat t) (sorted_keys _)). apply elem_of_app. by right. }
  destruct (moved_without l l' gone Hl Hl' Hs Hnd Hg Hi) as [_ _ Hp]. split_and!; [done| |done|].
  - split; [done..|]. rewrite <- Hp. f_equiv. apply pick_perm. apply reverse_Permutation.
  - apply Permutation_length in Hp. rewrite length_app, pick_length in Hp by done. rewrite <- !list_txs_length.
    assert (length gone = (length (list_txs l) - Z.to_nat t)%nat) as Hg'; [|lia].
    unfold gone, list_txs, sorted_txs. rewrite length_drop, pick_length; [done|]. intros k. apply keys_in.
Qed.
Lemma run_of_sub next ks k : k ∈ run_of next ks → k ∈ ks.
Proof. rewrite <- (run_of_prefix next ks) at 2. rewrite elem_of_app. by left. Qed.
Lemma run_of_NoDup next ks : NoDup ks → NoDup (run_of next ks).
Proof. rewrite <- (run_of_prefix next ks) at 1. by intros (? & _ & _)%NoDup_app. Qed.
Definition ready_keys (l : txList) (start : Z) : list Z :=
  let ks := sorted_keys (items l) in if head ks is Some first then if start <? first then [] else run_of first ks else [].
Lemma Ready_moved l start : list_ok l → ∃ out l', list_Ready (E := E) l start = Ok (out, l') ∧ moved l out l' ∧
  out = pick (items l) (ready_keys l start) ∧ items l' = without (ready_keys l start) (items l).
Proof.
  intros Hl. destruct (list_Ready_ok (E := E) l start Hl) as (l' & -> & Hl' & Hs & Hi). eexists _, l'. split_and!; [done| |done..].
  assert (NoDup (ready_keys l start) ∧ ∀ k, k ∈ ready_keys l start → k ∈ sorted_keys (items l)) as [Hnd Hsub].
  { unfold ready_keys. destruct (head _) as [first|]; [destruct (_ <? _)|]; try (split; [constructor|by inversion 1]).
    split; [apply run_of_NoDup, keys_NoDup|apply run_of_sub]. }
  apply moved_without; [done..| |done]. intros k Hk. by apply keys_in, Hsub.
Qed.
Lemma Filter_moved l costLimit gasLimit removed invalids l' : list_ok l →
  list_Filter l costLimit gasLimit = (removed, invalids, l') → moved l (removed ++ invalids) l'.
Proof.
  intros Hl Hrun. destruct (list_Filter_ok l costLimit gasLimit removed invalids l' Hl Hrun) as (Hl' & Hs & Hp & _).
  split; [done..|]. by rewrite <- app_assoc.
Qed.
Lemma Flatten_moved l : list_ok l → moved l [] (list_Flatten l).2 ∧ (list_Flatten l).1 = list_txs l.
Proof.
  intros Hl. destruct (list_Flatten_ok l Hl) as (Ha & Hl' & Hs & Hi). split; [|done]. split; [done..|]. unfold list_txs. by rewrite Hi.
Qed.
(** Removing a transaction the list holds. *)
Lemma Remove_moved l tx : list_ok l → tx ∈ list_txs l →
  ∃ invalids l', list_Remove (E := E) l tx = Ok (true, invalids, l') ∧ moved l (tx :: invalids) l' ∧
    (strict l = false → invalids = []).
Proof.
  intros Hl [n Hn]%elem_of_list_txs. destruct (so_keyed _ (lo_txs _ Hl) _ _ Hn) as [Hnonce _]. subst n.
  destruct (list_Remove_ok (E := E) l tx Hl) as (invalids & l' & Hrun & Hl' & Hs & _ & Hinv & _).
  rewrite bool_decide_true in Hrun by by eexists. exists invalids, l'. split; [done|]. split.
  2: { intros Hst. destruct invalids as [|x ?]; [done|]. destruct (proj1 (Hinv x)) as [? _]; [by left|congruence]. }
  split; [done..|].
  destruct (sm_Remove_ok (E := E) (txs l) (AccountNonce tx) (lo_txs _ Hl)) as (m1 & Hrun1 & Hm1 & Hi1).
  pose proof (sorted_txs_delete _ _ _ Hn) as Hdel. unfold list_Remove in Hrun. rewrite Hrun1, bool_decide_true in Hrun by by eexists.
  cbn [mbind result_bind negb] in Hrun. destruct (strict l).
  - pose proof (Filter_partition m1 (λ tx', AccountNonce tx <? AccountNonce tx') Hm1) as Hp. destruct (Filter m1 _) as [inv m2].
    injection Hrun as <- <-. unfold list_txs. cbn [txs set_txs app fst snd] in *. by rewrite Hp, Hi1.
  - injection Hrun as <- <-. unfold list_txs. cbn [txs set_txs app]. by rewrite Hi1.
Qed.
Lemma Remove_absent l tx : items l !! AccountNonce tx = None → list_Remove (E := E) l tx = Ok (false, [], l).
Proof. intros Hn. unfold list_Remove, sm_Remove. rewrite Hn. cbn. by destruct l. Qed.
(** A transaction enters, in the place of the one at its nonce. *)
Lemma Add_entered l tx bump old l' : list_ok l → is_u64 (AccountNonce tx) → Add l tx bump = (true, old, l') →
  list_ok l' ∧ strict l' = strict l ∧ old = items l !! AccountNonce tx ∧ items l' = <[AccountNonce tx := tx]> (items l) ∧
  option_list old ++ list_txs l' ≡ₚ tx :: list_txs l.
Proof.
  intros Hl Hu Hadd. destruct (Add_ok l tx bump true old l' Hl Hu Hadd) as (Hl' & Hok & _). destruct (Hok eq_refl) as [Hold Hi].
  split_and!; [done| |done|done|].
  - revert Hadd. unfold Add. cbv zeta. match goal with |- context [if ?b then _ else _] => destruct b end; by intros [= _ <-].
  - unfold list_txs. rewrite Hi. destruct old as [old|]; cbn [option_list app].
    + rewrite <- (sorted_txs_delete _ _ _ (eq_sym Hold)), <- insert_delete_eq, sorted_txs_insert by apply lookup_delete_eq. apply perm_swap.
    + by rewrite sorted_txs_insert.
Qed.
End moves.

(** * The invariant *)
Section invariant.
Context `{Crypto} `{TxCrypto} `{!Inj (=) (=) rlpHash_tx} `{MapRange} {S : Type} `{VMStateLaws S}.
(** The signer of the pool; the world its state shows and its gas limit; what is
    known of the head; transactions the price heap has given up already. *)
Variables (signer : Signer) (w : World) (maxGas : Z) (head_ok : option Block → Prop) (gone : list Transaction).
Implicit Types p : TxPool S.

Definition sent (tx : Transaction) (a : Address) : Prop := Signer_Sender signer tx = Ok a.
(** A sender and a nonce: at most one transaction of the pool is there. *)
Definition slot (tx : Transaction) : Result tx_error Address * Z := (Signer_Sender signer tx, AccountNonce tx).

(** The known transactions, by hash, are those listed. *)
Record content (l : list Transaction) (all : gmap Hash Transaction) : Prop := {
  ct_slots : NoDup (slot <$> l);
  ct_sent tx : tx ∈ l → (∃ a, sent tx a) ∧ is_u64 (AccountNonce tx);
  ct_all h tx : all !! h = Some tx ↔ h = rlpHash_tx tx ∧ tx ∈ l
}.
Record lists_wf (b : bool) (full : Address → Prop) (m : gmap Address txList) : Prop := {
  lw_list a l : m !! a = Some l → list_ok l ∧ strict l = b;
  lw_sent a l tx : m !! a = Some l → tx ∈ list_txs l → sent tx a;
  lw_full a l : m !! a = Some l → full a → list_txs l ≠ []
}.

(** The price heap holds the known transactions that are not [gone]. *)
Definition priced_but (all : gmap Hash Transaction) (l : txPricedList) : Prop := priced_ok (filter (λ kv, kv.2 ∉ gone) all) l.
Lemma priced_but_sub all all' l : priced_but all l → all' ⊆ all → priced_but all' l.
Proof. intros Hok Hsub. eapply priced_ok_sub; [exact Hok|]. by apply map_filter_subseteq_mono. Qed.
Lemma priced_but_Removed all l : (∀ h x, all !! h = Some x → h = rlpHash_tx x) → priced_but all l → priced_but all (Removed all l).
Proof.
  intros Hkeys Hok. unfold Removed. destruct (_ <=? _); [by destruct Hok|].
  destruct (Init_ok price_less (snd <$> map_range all)) as [Hh' Hp]. split; [done|]. cbn. intros h tx [Htx _]%map_lookup_filter_Some.
  rewrite (Hkeys h tx Htx). split; [done|]. rewrite Hp, map_range_perm. apply list_elem_of_fmap. exists (h, tx).
  split; [done|]. by apply elem_of_map_to_list.
Qed.

(** [limbo] has left its lists, and the pending list of the account [open] may be
    empty. *)
Record pool_inv (limbo : list Transaction) (open : option Address) p : Prop := {
  pi_pending : lists_wf true (λ a, open ≠ Some a) (tp_pending p);
  pi_queue : lists_wf false (λ _, False) (tp_queue p);
  pi_content : content (txs_of (tp_pending p) ++ txs_of (tp_queue p) ++ limbo) (tp_all p);
  pi_priced : priced_but (tp_all p) (tp_priced p);
  pi_entries tx : tx ∈ pItems (tp_priced p) → ∃ a, sent tx a;
  pi_signer : asSigner (tp_locals p) = signer;
  pi_state : ∃ s, tp_currentState p = Some s ∧ represents s w;
  pi_pstate : is_Some (tp_pendingState p);
  pi_maxGas : tp_currentMaxGas p = maxGas;
  pi_head : head_ok (tp_head p)
}.

#[export] Instance content_proper : Proper ((≡ₚ) ==> (=) ==> iff) content.
Proof.
  assert (∀ l l' all, l ≡ₚ l' → content l all → content l' all) as Himp.
  { intros l l' all Hp [Hs Hsent Hall]. split; [by rewrite <- Hp|intros tx; rewrite <- Hp; apply Hsent|].
    intros h tx. by rewrite Hall, Hp. }
  intros l l' Hp all ? <-. split; apply Himp; by rewrite Hp.
Qed.
Lemma content_forget tx l all : content (tx :: l) all → content l (delete (rlpHash_tx tx) all).
Proof.
  intros [Hs Hsent Hall]. cbn in Hs. apply NoDup_cons in Hs as [Hnew Hs]. split; [done|intros; apply Hsent; by right|].
  intros h tx'. rewrite lookup_delete_Some, Hall, elem_of_cons. split.
  - intros (Hne & -> & [->|Hin]); [by destruct Hne|done].
  - intros [-> Hin]. split_and!; [|done|by right]. intros Heq%(inj rlpHash_tx). subst tx'. apply Hnew. apply list_elem_of_fmap. by exists tx.
Qed.
Lemma content_register tx a l all : content l all → sent tx a → is_u64 (AccountNonce tx) → slot tx ∉ slot <$> l →
  content (tx :: l) (lookup_Add all tx).
Proof.
  intros [Hs Hsent Hall] Ha Hu Hnew. split; [by apply NoDup_cons| |].
  - intros tx' [->|Hin]%elem_of_cons; [split; [by exists a|done]|by apply Hsent].
  - intros h tx'. unfold lookup_Add. rewrite elem_of_cons. destruct (decide (h = rlpHash_tx tx)) as [->|Hne].
    + rewrite lookup_insert_eq. split; [intros [= <-]; by split; [|left]|]. intros [Heq%(inj rlpHash_tx) _]. by subst.
    + rewrite lookup_insert_ne, Hall by done. split; [by intros [-> ?]; split; [|right]|]. by intros [-> [->|?]].
Qed.
Lemma content_known tx l all : content l all → tx ∈ l → all !! rlpHash_tx tx = Some tx.
Proof. intros Hc Htx. by apply Hc. Qed.
(** Two transactions at one slot are the same. *)
Lemma content_slot l all tx tx' a : content l all → tx ∈ l → tx' ∈ l → sent tx a → sent tx' a → AccountNonce tx = AccountNonce tx' → tx = tx'.
Proof.
  intros [Hs _ _] [i Hi]%list_elem_of_lookup [j Hj]%list_elem_of_lookup Ha Ha' Hn.
  assert (slot tx = slot tx') as Heq by (unfold slot, sent in *; congruence).
  assert (i = j) as ->; [|congruence]. eapply (NoDup_lookup _ i j); [exact Hs|rewrite list_lookup_fmap, Hi; done|].
  by rewrite list_lookup_fmap, Hj, Heq.
Qed.
Lemma content_size l all : content l all → size all = length l.
Proof.
  intros [Hs Hsent Hall]. assert (NoDup l) as Hnd by by apply (NoDup_fmap_1 slot).
  rewrite <- length_map_to_list. rewrite <- (length_fmap snd). apply Permutation_length, NoDup_Permutation; [|done|].
  - apply (NoDup_fmap_1 rlpHash_tx). rewrite <- list_fmap_compose.
    replace (rlpHash_tx ∘ snd <$> map_to_list all) with (map_to_list all).*1; [apply NoDup_fst_map_to_list|].
    apply list_fmap_ext. intros i [h x] Hin%list_elem_of_lookup_2%elem_of_map_to_list. cbn. by apply Hall in Hin as [-> _].
  - intros tx. rewrite list_elem_of_fmap. split.
    + intros ([h x] & -> & Hin%elem_of_map_to_list). by apply Hall in Hin as [_ ?].
    + intros Hin. exists (rlpHash_tx tx, tx). split; [done|]. apply elem_of_map_to_list, Hall. done.
Qed.

(** ** Changes of the state *)
Lemma lists_wf_update b (full full' : Address → Prop) m a l' : lists_wf b full m → list_ok l' → strict l' = b →
  (∀ tx, tx ∈ list_txs l' → sent tx a) → (full' a → list_txs l' ≠ []) → (∀ c, c ≠ a → full' c → full c) →
  lists_wf b full' (<[a := l']> m).
Proof.
  intros [Hl Hs Hf] Hok Hst Hsent Hne Hfull.
  assert (∀ c lc, <[a := l']> m !! c = Some lc → c = a ∧ lc = l' ∨ c ≠ a ∧ m !! c = Some lc) as Hlook.
  { intros c lc. rewrite lookup_insert_Some. naive_solver. }
  split; [intros c lc Hc|intros c lc tx Hc|intros c lc Hc]; destruct (Hlook c lc Hc) as [[-> ->]|[Hca Hm]]; auto.
  - by apply (Hl c).
  - by apply Hs.
  - intros Hfc. by apply (Hf c lc Hm), Hfull.
Qed.
Lemma txs_of_moved m a l out l' : m !! a = Some l → moved l out l' → txs_of m ≡ₚ out ++ txs_of (<[a := l']> m).
Proof. intros Ha [_ _ Hp]. by rewrite txs_of_update, <- (txs_of_delete m a l Ha), <- Hp, app_assoc. Qed.

Lemma inv_take_queue limbo open p a l out l' : pool_inv limbo open p → tp_queue p !! a = Some l → moved l out l' →
  pool_inv (out ++ limbo) open (set_queue (<[a := l']> (tp_queue p)) p).
Proof.
  intros [Hp Hq Hc Hpr He Hsg Hst Hps Hmg Hhd] Ha Hm. split; cbn; try done.
  - apply (lists_wf_update _ (λ _, False)); [done|apply Hm|rewrite (mv_strict _ _ _ Hm); by eapply lw_list| |done|done].
    intros tx Htx. eapply (lw_sent _ _ _ Hq); [done|by eapply moved_elem].
  - revert Hc. apply content_proper; [|done]. f_equiv. rewrite (txs_of_moved _ _ _ _ _ Ha Hm). solve_Permutation.
Qed.
Lemma inv_take_pending limbo open open' p a l out l' : pool_inv limbo open p → tp_pending p !! a = Some l → moved l out l' →
  (open' ≠ Some a → list_txs l' ≠ []) → (∀ c, c ≠ a → open' ≠ Some c → open ≠ Some c) →
  pool_inv (out ++ limbo) open' (set_pending (<[a := l']> (tp_pending p)) p).
Proof.
  intros [Hp Hq Hc Hpr He Hsg Hst Hps Hmg Hhd] Ha Hm Hne Hopen. split; cbn; try done.
  - apply (lists_wf_update _ (λ c, open ≠ Some c)); [done|apply Hm|rewrite (mv_strict _ _ _ Hm); by eapply lw_list| |done|done].
    intros tx Htx. eapply (lw_sent _ _ _ Hp); [done|by eapply moved_elem].
  - revert Hc. apply content_proper; [|done]. rewrite (txs_of_moved _ _ _ _ _ Ha Hm). solve_Permutation.
Qed.
Lemma inv_forget tx limbo open p pl : pool_inv (tx :: limbo) open p → priced_but (delete (rlpHash_tx tx) (tp_all p)) pl →
  (∀ x, x ∈ pItems pl → ∃ a, sent x a) → pool_inv limbo open (set_all (delete (rlpHash_tx tx) (tp_all p)) pl p).
Proof.
  intros [Hp Hq Hc Hpr He Hsg Hst Hps Hmg Hhd] Hpl Hent. split; cbn; try done.
  apply content_forget. revert Hc. apply content_proper; [|done]. solve_Permutation.
Qed.
(** The list a transaction of an account goes to. *)
Lemma lists_wf_default b full m a : lists_wf b full m → list_ok (default (newTxList b) (m !! a)) ∧ strict (default (newTxList b) (m !! a)) = b.
Proof. intros [Hl _ _]. destruct (m !! a) eqn:Ha; cbn; [by eapply Hl|]. split; [apply list_ok_new|done]. Qed.
Lemma elem_of_default b (m : gmap Address txList) a tx : tx ∈ list_txs (default (newTxList b) (m !! a)) → ∃ l, m !! a = Some l ∧ tx ∈ list_txs l.
Proof.
  destruct (m !! a) as [l|]; cbn; [by exists l|]. intros [n Hn]%elem_of_list_txs. cbn in Hn. by rewrite lookup_empty in Hn.
Qed.
Lemma txs_of_default b m a l' out tx : list_txs l' ++ out ≡ₚ tx :: list_txs (default (newTxList b) (m !! a)) →
  out ++ txs_of (<[a := l']> m) ≡ₚ tx :: txs_of m.
Proof.
  intros Hp. rewrite txs_of_update, app_assoc, (Permutation_app_comm out), Hp. destruct (m !! a) as [l|] eqn:Ha; cbn.
  - by rewrite (txs_of_delete m a l Ha).
  - by rewrite delete_id.
Qed.
(** Entering a list: the transaction at the same nonce, if any, leaves it. *)
Lemma lists_wf_put b (full full' : Address → Prop) m a tx bump old l' : lists_wf b full m → sent tx a → is_u64 (AccountNonce tx) →
  Add (default (newTxList b) (m !! a)) tx bump = (true, old, l') → (∀ c, c ≠ a → full' c → full c) →
  lists_wf b full' (<[a := l']> m) ∧ option_list old ++ txs_of (<[a := l']> m) ≡ₚ tx :: txs_of m ∧
  (∀ x, old = Some x → x ∈ txs_of m ∧ sent x a ∧ AccountNonce x = AccountNonce tx) ∧
  (old = None → ∀ x, x ∈ txs_of m → sent x a → AccountNonce x ≠ AccountNonce tx).
Proof.
  intros Hm Ha Hu Hadd Hfull. destruct (lists_wf_default b full m a Hm) as [Hok Hst].
  destruct (Add_entered _ _ _ _ _ Hok Hu Hadd) as (Hok' & Hst' & Hold & Hi & Hp).
  assert (tx ∈ list_txs l') as Htx by (apply elem_of_list_txs; exists (AccountNonce tx); rewrite Hi; apply lookup_insert_eq).
  split_and!.
  - apply (lists_wf_update b full full'); [done|done|congruence| |intros _ Hnil; rewrite Hnil in Htx; by inversion Htx|done].
    intros x Hx. assert (x ∈ tx :: list_txs (default (newTxList b) (m !! a))) as Hin by (rewrite <- Hp; apply elem_of_app; by right).
    apply elem_of_cons in Hin as [->|(l & Hma & Hin)%elem_of_default]; [done|]. by eapply lw_sent.
  - apply (txs_of_default b). by rewrite <- Hp, Permutation_app_comm.
  - intros x ->. symmetry in Hold. destruct (m !! a) as [l|] eqn:Hma; cbn in *; [|by rewrite lookup_empty in Hold].
    assert (x ∈ list_txs l) as Hx by (apply elem_of_list_txs; by eexists).
    split_and!; [apply elem_of_txs_of; by exists a, l|by eapply lw_sent|by apply (so_keyed _ (lo_txs _ Hok))].
  - intros -> x Hx Hxa Hn. apply elem_of_txs_of in Hx as (c & l & Hc & Hx). pose proof (lw_sent _ _ _ Hm c l x Hc Hx) as Hxc.
    assert (c = a) as -> by (unfold sent in *; congruence). rewrite Hc in Hold, Hok. cbn in *.
    apply elem_of_list_txs in Hx as [n Hx]. destruct (so_keyed _ (lo_txs _ Hok) _ _ Hx) as [Heq _]. congruence.
Qed.
Lemma limbo_free tx rest all x a : content (tx :: rest) all → x ∈ rest → sent x a → sent tx a → AccountNonce x ≠ AccountNonce tx.
Proof.
  intros Hc Hx Hxa Ha Hn. assert (x = tx) as -> by (apply (content_slot _ _ x tx a Hc); [by right|by left|done..]).
  pose proof (ct_slots _ _ Hc) as Hs. cbn in Hs. apply NoDup_cons in Hs as [Hs _]. apply Hs. apply list_elem_of_fmap. by exists tx.
Qed.
Lemma inv_put_queue tx limbo open p a bump old l' : pool_inv (tx :: limbo) open p → sent tx a →
  Add (default (newTxList false) (tp_queue p !! a)) tx bump = (true, old, l') →
  old = None ∧ pool_inv limbo open (set_queue (<[a := l']> (tp_queue p)) p).
Proof.
  intros [Hp Hq Hc Hpr He Hsg Hst Hps Hmg Hhd] Ha Hadd.
  assert (content (tx :: txs_of (tp_pending p) ++ txs_of (tp_queue p) ++ limbo) (tp_all p)) as Hc'
    by (revert Hc; apply content_proper; [|done]; solve_Permutation).
  destruct (ct_sent _ _ Hc' tx ltac:(by left)) as [_ Hu].
  destruct (lists_wf_put false (λ _, False) (λ _, False) _ a tx bump old l' Hq Ha Hu Hadd) as (Hq' & Hperm & Hold & _); [done|].
  assert (old = None) as ->.
  { destruct old as [x|]; [|done]. destruct (Hold x eq_refl) as (Hx & Hxa & Hn).
    destruct (limbo_free _ _ _ x a Hc'); [rewrite !elem_of_app; tauto|done..]. }
  split; [done|]. split; cbn; try done. cbn in Hperm. revert Hc'. apply content_proper; [|done]. rewrite Hperm. solve_Permutation.
Qed.
Lemma inv_put_pending tx limbo open p a bump old l' : pool_inv (tx :: limbo) open p → sent tx a →
  Add (default (newTxList true) (tp_pending p !! a)) tx bump = (true, old, l') →
  old = None ∧ pool_inv limbo open (set_pending (<[a := l']> (tp_pending p)) p).
Proof.
  intros [Hp Hq Hc Hpr He Hsg Hst Hps Hmg Hhd] Ha Hadd.
  assert (content (tx :: txs_of (tp_pending p) ++ txs_of (tp_queue p) ++ limbo) (tp_all p)) as Hc'
    by (revert Hc; apply content_proper; [|done]; solve_Permutation).
  destruct (ct_sent _ _ Hc' tx ltac:(by left)) as [_ Hu].
  destruct (lists_wf_put true (λ c, open ≠ Some c) (λ c, open ≠ Some c) _ a tx bump old l' Hp Ha Hu Hadd) as (Hp' & Hperm & Hold & _); [done|].
  assert (old = None) as ->.
  { destruct old as [x|]; [|done]. destruct (Hold x eq_refl) as (Hx & Hxa & Hn).
    destruct (limbo_free _ _ _ x a Hc'); [rewrite !elem_of_app; tauto|done..]. }
  split; [done|]. split; cbn; try done. cbn in Hperm. revert Hc'. apply content_proper; [|done]. by rewrite Hperm.
Qed.
End invariant.
