(* ===== verification/TxPoolOps.v ===== *)
(** The operations of the transaction pool return, and keep its invariant. *)
From S2P Require Import Prelude Types Sealing Blocks Transition TxSigning Heap TxList TxListRuns TxPriced ManagedState Hoare TxPool TxPoolInv.

(** Sizes of the configuration are positive and fit in an [int]. *)
Record config_ok (c : TxPoolConfig) : Prop := {
  co_accountSlots : 1 ≤ AccountSlots c;
  co_globalSlots : 1 ≤ GlobalSlots c;
  co_globalQueue : 1 ≤ GlobalQueue c;
  co_accountQueue : 1 ≤ AccountQueue c < 9223372036854775808;
  co_capacity : GlobalSlots c + GlobalQueue c < 9223372036854775808
}.

Section ops.
Context `{Crypto} `{TxCrypto} `{!Inj (=) (=) rlpHash_tx} `{MapRange} `{TxSize} {S : Type} `{VMStateLaws S} `{StateCopy S}.
Variables (config : TxPoolConfig) (signer : Signer) (now : Z).
Variables (w : World) (maxGas : Z) (head_ok : option Block → Prop) (gone : list Transaction).
Hypothesis Hconfig : config_ok config.
Implicit Types p : TxPool S.
Abbreviation inv := (pool_inv signer w maxGas head_ok gone).
Abbreviation priced_but := (priced_but gone).
Abbreviation sent := (sent signer).

(** The lists, the locals and the price did not change. *)
Record same_lists p p' : Prop := {
  sl_pending : tp_pending p' = tp_pending p;
  sl_queue : tp_queue p' = tp_queue p;
  sl_locals : tp_locals p' = tp_locals p
}.
Lemma same_lists_refl p : same_lists p p.
Proof. done. Qed.
Lemma same_lists_trans p1 p2 p3 : same_lists p1 p2 → same_lists p2 p3 → same_lists p1 p3.
Proof. intros [] []. split; congruence. Qed.

(** Dropping the transactions a list gives up. *)
Record shrinks p p' : Prop := { sh_locals : tp_locals p' = tp_locals p; sh_all : tp_all p' ⊆ tp_all p }.
Lemma shrinks_refl p : shrinks p p.
Proof. by split. Qed.
Lemma shrinks_trans p1 p2 p3 : shrinks p1 p2 → shrinks p2 p3 → shrinks p1 p3.
Proof. intros [] []. split; [congruence|by etrans]. Qed.

(** ** Reading the states *)
Lemma sender_of_ok tx a (Q : Address → TxPool S → Prop) p : sent tx a → Q a p → returns (sender_of signer tx) Q p.
Proof. intros Ha HQ. unfold sender_of. by rewrite Ha. Qed.
Lemma current_nonce_ok limbo open a p : inv limbo open p →
  returns (current_nonce a) (λ n p', n = w_nonce w a ∧ inv limbo open p' ∧ same_lists p p' ∧ tp_all p' = tp_all p) p.
Proof.
  intros [Hp Hq Hc Hpr He Hsg (s & Hs & Hr) Hps Hmg Hhd]. unfold current_nonce. wp_steps. rewrite Hs. destruct (rep_GetNonce a s w Hr) as [Hn Hr'].
  destruct (vm_GetNonce a s) as [n s']. cbn in Hn, Hr'. unfold returns, wp. cbn. split_and!; [done| |done|done]. split; try done. by exists s'.
Qed.
Lemma current_balance_ok limbo open a p : inv limbo open p →
  returns (current_balance a) (λ b p', b = w_balance w a ∧ inv limbo open p' ∧ same_lists p p' ∧ tp_all p' = tp_all p) p.
Proof.
  intros [Hp Hq Hc Hpr He Hsg (s & Hs & Hr) Hps Hmg Hhd]. unfold current_balance. wp_steps. rewrite Hs. destruct (rep_GetBalance a s w Hr) as [Hn Hr'].
  destruct (vm_GetBalance a s) as [b s']. cbn in Hn, Hr'. unfold returns, wp. cbn. split_and!; [done| |done|done]. split; try done. by exists s'.
Qed.
Lemma pending_nonce_ok limbo open a p : inv limbo open p →
  returns (pending_nonce a) (λ _ p', inv limbo open p' ∧ same_lists p p' ∧ tp_all p' = tp_all p) p.
Proof.
  intros [Hp Hq Hc Hpr He Hsg Hst [ms Hms] Hmg Hhd]. unfold pending_nonce. wp_steps. rewrite Hms. destruct (managed_GetNonce a ms) as [n ms'].
  unfold returns, wp. cbn. split_and!; [|done..]. by split.
Qed.
Lemma set_pending_nonce_ok limbo open a n p : inv limbo open p →
  returns (set_pending_nonce a n) (λ _ p', inv limbo open p' ∧ same_lists p p' ∧ tp_all p' = tp_all p) p.
Proof.
  intros [Hp Hq Hc Hpr He Hsg Hst [ms Hms] Hmg Hhd]. unfold set_pending_nonce. wp_steps. rewrite Hms.
  unfold returns, wp. cbn. split_and!; [|done..]. by split.
Qed.
Lemma lower_pending_nonce_ok limbo open a n p : inv limbo open p →
  returns (lower_pending_nonce a n) (λ _ p', inv limbo open p' ∧ same_lists p p' ∧ tp_all p' = tp_all p) p.
Proof.
  intros Hinv. unfold lower_pending_nonce. wp_step. eapply returns_mono; [by apply pending_nonce_ok|]. intros m p' (Hinv' & Hsame & Hall).
  destruct (n <? m); [|by wp_steps]. eapply returns_mono; [by apply set_pending_nonce_ok|]. intros _ p2 (? & Hsame2 & Hall2).
  split_and!; [done|by eapply same_lists_trans|congruence].
Qed.

(** ** The known transactions *)
Definition all_sent (all : gmap Hash Transaction) : Prop := ∀ h x, all !! h = Some x → h = rlpHash_tx x ∧ ∃ a, sent x a.
Lemma inv_all_sent limbo open p : inv limbo open p → all_sent (tp_all p).
Proof.
  intros Hinv h x Hx. pose proof (pi_content _ _ _ _ _ _ _ _ Hinv) as Hc. apply Hc in Hx as [-> Hx]. split; [done|]. by apply (ct_sent _ _ _ Hc).
Qed.
Lemma all_sent_sub all all' : all_sent all → all' ⊆ all → all_sent all'.
Proof. intros Ha Hsub h x Hx. apply Ha. by eapply lookup_weaken. Qed.
Lemma Removed_entries all l x : all_sent all → (∀ x, x ∈ pItems l → ∃ a, sent x a) →
  x ∈ pItems (Removed all l) → ∃ a, sent x a.
Proof.
  intros Ha Hent. unfold Removed. destruct (_ <=? _); [apply Hent|]. cbn. destruct (Init_ok price_less (snd <$> map_range all)) as [_ Hp].
  rewrite Hp, map_range_perm. intros ([h tx] & -> & Hin%elem_of_map_to_list)%list_elem_of_fmap. by apply (Ha h).
Qed.
Lemma Removed_but all l : all_sent all → priced_but all l → priced_but all (Removed all l).
Proof. intros Ha. apply priced_but_Removed. intros h x Hx. by apply Ha. Qed.
Lemma priced_removed_ok limbo open p : inv limbo open p →
  returns priced_removed (λ _ p', inv limbo open p' ∧ same_lists p p' ∧ tp_all p' = tp_all p) p.
Proof.
  intros Hinv. pose proof (inv_all_sent _ _ _ Hinv) as Hs. destruct Hinv as [Hp Hq Hc Hpr He Hsg Hst Hps Hmg Hhd].
  unfold priced_removed. wp_steps. split; [|done]. split; try done.
  - by apply Removed_but.
  - intros x. by apply Removed_entries.
Qed.
Lemma all_remove_ok tx limbo open p : inv (tx :: limbo) open p →
  returns (all_remove (rlpHash_tx tx)) (λ _ p', inv limbo open p' ∧ same_lists p p' ∧ tp_all p' = delete (rlpHash_tx tx) (tp_all p)) p.
Proof.
  intros Hinv. unfold all_remove. wp_steps. split_and!; [|done..]. apply inv_forget; [done| |apply Hinv].
  eapply priced_but_sub; [apply Hinv|apply delete_subseteq].
Qed.
Lemma forget_ok tx limbo open p : inv (tx :: limbo) open p →
  returns (forget (rlpHash_tx tx)) (λ _ p', inv limbo open p' ∧ same_lists p p' ∧ tp_all p' = delete (rlpHash_tx tx) (tp_all p)) p.
Proof.
  intros Hinv. unfold forget. wp_step. eapply returns_mono; [by apply all_remove_ok|]. intros _ p' (Hinv' & Hs & Hall).
  eapply returns_mono; [by apply priced_removed_ok|]. intros _ p2 (? & Hs2 & Hall2).
  split_and!; [done|by eapply same_lists_trans|congruence].
Qed.
Lemma forget_all_ok l limbo open p : inv (l ++ limbo) open p →
  returns (forget_all l) (λ _ p', inv limbo open p' ∧ same_lists p p' ∧ tp_all p' ⊆ tp_all p) p.
Proof.
  intros Hinv. unfold forget_all. eapply returns_mono;
    [apply (returns_for_each (λ l p', inv (l ++ limbo) open p' ∧ same_lists p p' ∧ tp_all p' ⊆ tp_all p))|by intros []]; [done|].
  intros x l' p' (Hinv' & Hs & Hall). eapply returns_mono; [by apply forget_ok|]. intros _ p2 (? & Hs2 & Hall2).
  split_and!; [done|by eapply same_lists_trans|]. rewrite Hall2. etrans; [apply delete_subseteq|done].
Qed.

(** ** Methods of the lists *)
Lemma on_queue_ok {A} (f : txList → Result pool_error (A * txList)) limbo open p a l r out l' :
  inv limbo open p → tp_queue p !! a = Some l → f l = Ok (r, l') → moved l out l' →
  returns (on_queue a f) (λ r' p', r' = r ∧ p' = set_queue (<[a := l']> (tp_queue p)) p ∧ inv (out ++ limbo) open p') p.
Proof.
  intros Hinv Ha Hf Hm. unfold on_queue. wp_steps. rewrite Ha, Hf. wp_steps. split_and!; [done..|]. by eapply inv_take_queue.
Qed.
Lemma on_pending_ok {A} (f : txList → Result pool_error (A * txList)) limbo open open' p a l r out l' :
  inv limbo open p → tp_pending p !! a = Some l → f l = Ok (r, l') → moved l out l' →
  (open' ≠ Some a → list_txs l' ≠ []) → (∀ c, c ≠ a → open' ≠ Some c → open ≠ Some c) →
  returns (on_pending a f) (λ r' p', r' = r ∧ p' = set_pending (<[a := l']> (tp_pending p)) p ∧ inv (out ++ limbo) open' p') p.
Proof.
  intros Hinv Ha Hf Hm Hne Hopen. unfold on_pending. wp_steps. rewrite Ha, Hf. wp_steps. split_and!; [done..|]. by eapply inv_take_pending.
Qed.
Lemma queue_list_ok limbo open p a l : inv limbo open p → tp_queue p !! a = Some l → list_ok l.
Proof. intros Hinv Ha. by apply (lw_list _ _ _ _ (pi_queue _ _ _ _ _ _ _ _ Hinv) a). Qed.
Lemma pending_list_ok limbo open p a l : inv limbo open p → tp_pending p !! a = Some l → list_ok l.
Proof. intros Hinv Ha. by apply (lw_list _ _ _ _ (pi_pending _ _ _ _ _ _ _ _ Hinv) a). Qed.

Lemma list_Empty_txs l : list_Empty l = true ↔ list_txs l = [].
Proof.
  unfold list_Empty. rewrite <- list_txs_length. rewrite Z.eqb_eq. destruct (list_txs l); [done|]. cbn. split; [lia|done].
Qed.
Lemma lists_wf_delete b (full full' : Address → Prop) m a : lists_wf signer b full m → (∀ c, c ≠ a → full' c → full c) →
  lists_wf signer b full' (delete a m).
Proof.
  intros [Hl Hs Hf] Hfull. split.
  - intros c l [Hne Hc]%lookup_delete_Some. by eapply Hl.
  - intros c l tx [Hne Hc]%lookup_delete_Some. by eapply Hs.
  - intros c l [Hne Hc]%lookup_delete_Some Hfc. apply (Hf c l Hc). apply Hfull; [by intros ->|done].
Qed.
Lemma lists_wf_weaken b (full full' : Address → Prop) m : lists_wf signer b full m →
  (∀ c l, m !! c = Some l → full' c → list_txs l ≠ []) → lists_wf signer b full' m.
Proof. intros [Hl Hs Hf] Hne. by split. Qed.
Lemma drop_empty_queue_ok limbo open a p : inv limbo open p →
  returns (drop_empty_queue a) (λ _ p', inv limbo open p' ∧ tp_pending p' = tp_pending p ∧ (∀ c, c ≠ a → tp_queue p' !! c = tp_queue p !! c) ∧
    txs_of (tp_queue p') ≡ₚ txs_of (tp_queue p) ∧ tp_locals p' = tp_locals p ∧ tp_all p' = tp_all p ∧ tp_queue p' ⊆ tp_queue p) p.
Proof.
  intros Hinv. unfold drop_empty_queue. wp_steps. case_bool_decide as He; [|done].
  destruct (tp_queue p !! a) as [l|] eqn:Ha; [|done]. injection He as He%list_Empty_txs.
  assert (txs_of (delete a (tp_queue p)) ≡ₚ txs_of (tp_queue p)) as Hperm by by rewrite <- (txs_of_delete _ _ _ Ha), He.
  split_and!; [|done|intros c Hc; cbn; by rewrite lookup_delete_ne|done..|apply delete_subseteq].
  destruct Hinv as [Hp Hq Hc Hpr Hen Hsg Hst Hps Hmg Hhd]. split; cbn; try done.
  - by apply (lists_wf_delete _ (λ _, False)).
  - revert Hc. apply content_proper; [|done]. by rewrite Hperm.
Qed.
(** The pending list of [a] may have become empty. *)
Lemma drop_empty_pending_ok limbo a p : inv limbo (Some a) p →
  returns (drop_empty_pending a) (λ _ p', inv limbo None p' ∧ tp_queue p' = tp_queue p ∧ (∀ c, c ≠ a → tp_pending p' !! c = tp_pending p !! c) ∧
    txs_of (tp_pending p') ≡ₚ txs_of (tp_pending p) ∧ tp_locals p' = tp_locals p ∧ tp_all p' = tp_all p ∧
    tp_pending p' !! a = (if bool_decide (list_txs <$> tp_pending p !! a = Some []) then None else tp_pending p !! a)) p.
Proof.
  intros Hinv. unfold drop_empty_pending. wp_steps. destruct Hinv as [Hp Hq Hc Hpr Hen Hsg Hst Hps Hmg Hhd].
  destruct (tp_pending p !! a) as [l|] eqn:Ha; cbn.
  2: { rewrite !bool_decide_false by done. split_and!; try done. split; cbn; try done.
       apply (lists_wf_weaken _ _ _ _ Hp). intros c l Hl _. apply (lw_full _ _ _ _ Hp c l Hl). congruence. }
  destruct (decide (list_txs l = [])) as [He|He].
  - assert (list_Empty l = true) as -> by by apply list_Empty_txs. rewrite He, !bool_decide_true by done.
    assert (txs_of (delete a (tp_pending p)) ≡ₚ txs_of (tp_pending p)) as Hperm by by rewrite <- (txs_of_delete _ _ _ Ha), He.
    split_and!; try done; [|intros c Hne; cbn; by rewrite lookup_delete_ne|cbn; by rewrite lookup_delete_eq]. split; cbn; try done.
    + eapply lists_wf_delete; [done|]. cbn. congruence.
    + revert Hc. apply content_proper; [|done]. by rewrite Hperm.
  - rewrite !bool_decide_false; [|intros [= ?]; congruence|intros [= ?%list_Empty_txs]; congruence]. split_and!; try done. split; cbn; try done.
    apply (lists_wf_weaken _ _ _ _ Hp). intros c lc Hl _. destruct (decide (c = a)) as [->|Hne]; [congruence|].
    apply (lw_full _ _ _ _ Hp c lc Hl). congruence.
Qed.

(** ** Moving transactions between the lists *)

(** A transaction in limbo is not in a list, so it always enters. *)
Lemma Add_fresh l tx bump : items l !! AccountNonce tx = None → (Add l tx bump).1 = (true, None).
Proof. intros Hn. unfold Add, Get. by rewrite Hn. Qed.
Lemma limbo_Add b full m tx limbo open p a : inv (tx :: limbo) open p → sent tx a → lists_wf signer b full m →
  (∀ x, x ∈ txs_of m → x ∈ txs_of (tp_pending p) ++ txs_of (tp_queue p) ++ limbo) →
  ∃ l', Add (default (newTxList b) (m !! a)) tx (PriceBump config) = (true, None, l').
Proof.
  intros Hinv Ha Hm Hsub. exists (Add (default (newTxList b) (m !! a)) tx (PriceBump config)).2. apply injective_projections; [|done].
  apply Add_fresh. destruct (items _ !! _) as [x|] eqn:Hx; [exfalso|done].
  assert (content signer (tx :: txs_of (tp_pending p) ++ txs_of (tp_queue p) ++ limbo) (tp_all p)) as Hc.
  { generalize (pi_content _ _ _ _ _ _ _ _ Hinv). apply content_proper; [|done]. solve_Permutation. }
  destruct (lists_wf_default _ _ _ _ a Hm) as [Hok _]. destruct (so_keyed _ (lo_txs _ Hok) _ _ Hx) as [Hn _].
  assert (x ∈ list_txs (default (newTxList b) (m !! a))) as Hin by (apply elem_of_list_txs; by eexists).
  apply elem_of_default in Hin as (l & Hma & Hin).
  apply (limbo_free signer _ _ _ x a Hc); [apply Hsub, elem_of_txs_of; by exists a, l|by apply (lw_sent _ _ _ _ Hm a l)|done|done].
Qed.
Lemma register_new_known tx p : tp_all p !! rlpHash_tx tx = Some tx → returns (register_new (rlpHash_tx tx) tx) (λ _ p', p' = p) p.
Proof. intros Htx. unfold register_new. wp_steps. unfold lookup_Get. rewrite Htx. by wp_steps. Qed.
Lemma limbo_known tx limbo open p : inv (tx :: limbo) open p → tp_all p !! rlpHash_tx tx = Some tx.
Proof. intros Hinv. eapply content_known; [apply Hinv|]. rewrite !elem_of_app, elem_of_cons. tauto. Qed.
Lemma limbo_sent tx limbo open p : inv (tx :: limbo) open p → ∃ a, sent tx a.
Proof. intros Hinv. apply (ct_sent _ _ _ (pi_content _ _ _ _ _ _ _ _ Hinv)). rewrite !elem_of_app, elem_of_cons. tauto. Qed.

Lemma enqueueTx_limbo tx limbo open p a : inv (tx :: limbo) open p → sent tx a →
  returns (enqueueTx config signer (rlpHash_tx tx) tx) (λ b p', b = false ∧ inv limbo open p' ∧ tp_pending p' = tp_pending p ∧
    (∀ c, c ≠ a → tp_queue p' !! c = tp_queue p !! c) ∧ tp_locals p' = tp_locals p ∧ tp_all p' = tp_all p ∧
    txs_of (tp_queue p') ≡ₚ tx :: txs_of (tp_queue p)) p.
Proof.
  intros Hinv Ha. unfold enqueueTx. wp_step. apply (sender_of_ok _ a); [done|]. do 2 wp_step.
  destruct (limbo_Add false (λ _, False) (tp_queue p) tx limbo open p a Hinv Ha) as [l' Hadd]; [apply Hinv|intros x; rewrite !elem_of_app; tauto|].
  rewrite Hadd. destruct (inv_put_queue _ _ _ _ _ _ _ _ _ _ _ _ _ Hinv Ha Hadd) as [_ Hinv']. wp_steps. cbn [negb forget_old]. wp_steps.
  assert (txs_of (<[a := l']> (tp_queue p)) ≡ₚ tx :: txs_of (tp_queue p)) as Hperm.
  { destruct (lists_wf_put signer false (λ _, False) (λ _, False) _ a tx (PriceBump config) None l' (pi_queue _ _ _ _ _ _ _ _ Hinv) Ha) as (_ & Hp & _);
      [|exact Hadd|done|exact Hp].
    apply (ct_sent _ _ _ (pi_content _ _ _ _ _ _ _ _ Hinv)). rewrite !elem_of_app, elem_of_cons. tauto. }
  eapply returns_mono; [apply register_new_known; cbn; by eapply limbo_known|]. intros _ p' ->. wp_steps.
  split_and!; [done|done|done| |done..]. intros c Hc. cbn. by rewrite lookup_insert_ne.
Qed.
Lemma promoteTx_limbo tx limbo open p a : inv (tx :: limbo) open p → sent tx a →
  returns (promoteTx config now a (rlpHash_tx tx) tx) (λ b p', b = true ∧ inv limbo open p' ∧ tp_queue p' = tp_queue p ∧
    (∀ c, c ≠ a → tp_pending p' !! c = tp_pending p !! c) ∧ tp_locals p' = tp_locals p ∧ tp_all p' = tp_all p ∧
    txs_of (tp_pending p') ≡ₚ tx :: txs_of (tp_pending p)) p.
Proof.
  intros Hinv Ha. unfold promoteTx. do 2 wp_step.
  destruct (limbo_Add true (λ c, open ≠ Some c) (tp_pending p) tx limbo open p a Hinv Ha) as [l' Hadd]; [apply Hinv|intros x; rewrite !elem_of_app; tauto|].
  rewrite Hadd. destruct (inv_put_pending _ _ _ _ _ _ _ _ _ _ _ _ _ Hinv Ha Hadd) as [_ Hinv']. wp_steps. cbn [negb forget_old]. wp_steps.
  assert (txs_of (<[a := l']> (tp_pending p)) ≡ₚ tx :: txs_of (tp_pending p)) as Hperm.
  { destruct (lists_wf_put signer true (λ c, open ≠ Some c) (λ c, open ≠ Some c) _ a tx (PriceBump config) None l' (pi_pending _ _ _ _ _ _ _ _ Hinv) Ha) as (_ & Hp & _);
      [|exact Hadd|done|exact Hp].
    apply (ct_sent _ _ _ (pi_content _ _ _ _ _ _ _ _ Hinv)). rewrite !elem_of_app, elem_of_cons. tauto. }
  eapply returns_mono; [apply register_new_known; cbn; by eapply limbo_known|]. intros _ p' ->. wp_steps.
  eapply returns_mono; [apply (set_pending_nonce_ok limbo open)|].
  { destruct Hinv' as [Hp Hq Hc Hpr Hen Hsg Hst Hps Hmg Hhd]. by split. }
  intros _ p2 (Hinv2 & [Hp2 Hq2 Hl2] & Hal2). cbn in *. wp_steps. rewrite Hp2, Hq2, Hl2. split_and!; try done. intros c Hc. by rewrite lookup_insert_ne.
Qed.

(** ** Removing a transaction *)
Lemma demote_ok l limbo open p a : inv (l ++ limbo) open p → (∀ tx, tx ∈ l → sent tx a) →
  returns (demote config signer l) (λ _ p', inv limbo open p' ∧ tp_pending p' = tp_pending p ∧
    (∀ c, c ≠ a → tp_queue p' !! c = tp_queue p !! c) ∧ tp_locals p' = tp_locals p ∧ tp_all p' = tp_all p ∧
    txs_of (tp_queue p') ≡ₚ l ++ txs_of (tp_queue p)) p.
Proof.
  intros Hinv Hsent. unfold demote. eapply returns_mono;
    [apply (returns_for_each (λ l' p', inv (l' ++ limbo) open p' ∧ (∀ tx, tx ∈ l' → sent tx a) ∧ tp_pending p' = tp_pending p ∧
      (∀ c, c ≠ a → tp_queue p' !! c = tp_queue p !! c) ∧ tp_locals p' = tp_locals p ∧ tp_all p' = tp_all p ∧
      l' ++ txs_of (tp_queue p') ≡ₚ l ++ txs_of (tp_queue p)))|]; [by split_and!| |].
  - intros tx l' p' (Hinv' & Hs & Hp & Hq & Hl & Hall & Hperm). wp_step. apply returns_attempt.
    eapply returns_wp; [apply (enqueueTx_limbo tx (l' ++ limbo) open p' a); [done|apply Hs; by left]|].
    intros b p2 (_ & Hinv2 & Hp2 & Hq2 & Hl2 & Hall2 & Hperm2). wp_steps.
    split_and!; [done|intros x Hx; apply Hs; by right|congruence| |congruence..|].
    + intros c Hc. rewrite Hq2 by done. by apply Hq.
    + rewrite <- Hperm, Hperm2. solve_Permutation.
  - intros [] p' (? & _ & ? & ? & ? & ? & ?). by split_and!.
Qed.
(** The transaction is taken from the known ones first. *)
Lemma priced_part_ok (ob : bool) p : all_sent (tp_all p) → priced_but (tp_all p) (tp_priced p) → (∀ x, x ∈ pItems (tp_priced p) → ∃ a, sent x a) →
  returns (E := pool_error) (if ob then priced_removed else mret tt)
    (λ _ p', ∃ pl, p' = set_all (tp_all p) pl p ∧ priced_but (tp_all p) pl ∧ ∀ x, x ∈ pItems pl → ∃ a, sent x a) p.
Proof.
  intros Hs Hok Hent. destruct ob; [unfold priced_removed|]; wp_steps.
  - exists (Removed (tp_all p) (tp_priced p)). split_and!; [done|by apply Removed_but|]. intros x. by apply Removed_entries.
  - exists (tp_priced p). split_and!; [by destruct p|done..].
Qed.
Lemma inv_perm limbo limbo' open p : limbo ≡ₚ limbo' → inv limbo open p → inv limbo' open p.
Proof.
  intros Hperm [Hp Hq Hc Hpr Hen Hsg Hst Hps Hmg Hhd]. split; try done. revert Hc. apply content_proper; [|done]. by rewrite Hperm.
Qed.

(** From the queue of its sender. *)
Lemma remove_queued tx a pl p : inv [] None p → sent tx a → tx ∈ txs_of (tp_queue p) →
  let all' := delete (rlpHash_tx tx) (tp_all p) in
  priced_but all' pl → (∀ x, x ∈ pItems pl → ∃ a, sent x a) →
  ∃ l, tp_queue p !! a = Some l ∧
  returns (on_queue a (λ l, list_Remove l tx);; drop_empty_queue a)
    (λ _ p', inv [] None p' ∧ tp_all p' = all' ∧ tp_locals p' = tp_locals p ∧ (∀ c, c ≠ a → tp_queue p' !! c = tp_queue p !! c) ∧
      tp_pending p' = tp_pending p ∧ tx :: txs_of (tp_queue p') ≡ₚ txs_of (tp_queue p)) (set_all all' pl p).
Proof.
  intros Hinv Ha Htx all' Hpl Hent. apply elem_of_txs_of in Htx as (c & l & Hc & Htx).
  assert (c = a) as ->.
  { pose proof (lw_sent _ _ _ _ (pi_queue _ _ _ _ _ _ _ _ Hinv) c l tx Hc Htx) as Hs. unfold TxPoolInv.sent in *. congruence. }
  exists l. split; [done|]. destruct (lw_list _ _ _ _ (pi_queue _ _ _ _ _ _ _ _ Hinv) a l Hc) as [Hl Hst].
  destruct (Remove_moved (E := pool_error) l tx Hl Htx) as (inv' & l' & Hrun & Hm & Hnil). specialize (Hnil Hst). subst inv'.
  pose proof (txs_of_moved _ _ _ _ _ Hc Hm) as Hperm.
  assert (inv [] None (set_all all' pl (set_queue (<[a := l']> (tp_queue p)) p))) as Hinv'.
  { apply (inv_forget _ _ _ _ _ tx [] None (set_queue (<[a := l']> (tp_queue p)) p)); [|done..].
    eapply inv_perm; [|eapply (inv_take_queue _ _ _ _ _ [] None p); done]. done. }
  wp_step. unfold on_queue. wp_steps. cbn [tp_queue set_all]. rewrite Hc, Hrun. wp_steps.
  eapply returns_mono; [apply (drop_empty_queue_ok [] None a); exact Hinv'|]. intros _ p' (Hi & Hp & Hq & Hpq & Hlo & Hal & _).
  split_and!; [done|done|done| |done|by rewrite Hpq, Hperm]. intros c Hne. rewrite Hq by done. cbn. by rewrite lookup_insert_ne.
Qed.
(** From the pending list of its sender: later ones go back to the queue. *)
Lemma remove_pending tx a l pl p : inv [] None p → sent tx a → tp_pending p !! a = Some l → tx ∈ list_txs l →
  let all' := delete (rlpHash_tx tx) (tp_all p) in
  priced_but all' pl → (∀ x, x ∈ pItems pl → ∃ a, sent x a) →
  ∃ invalids l', list_Remove (E := pool_error) l tx = Ok (true, invalids, l') ∧
  returns (drop_empty_pending a;; demote config signer invalids;; lower_pending_nonce a (AccountNonce tx))
    (λ _ p', inv [] None p' ∧ tp_all p' = all' ∧ tp_locals p' = tp_locals p ∧ (∀ c, c ≠ a → tp_queue p' !! c = tp_queue p !! c) ∧
      tx :: txs_of (tp_pending p') ++ txs_of (tp_queue p') ≡ₚ txs_of (tp_pending p) ++ txs_of (tp_queue p))
    (set_pending (<[a := l']> (tp_pending p)) (set_all all' pl p)).
Proof.
  intros Hinv Ha Hc Htx all' Hpl Hent. pose proof (pending_list_ok _ _ _ _ _ Hinv Hc) as Hl.
  destruct (Remove_moved (E := pool_error) l tx Hl Htx) as (invalids & l' & Hrun & Hm & _). exists invalids, l'. split; [done|].
  pose proof (txs_of_moved _ _ _ _ _ Hc Hm) as Hperm.
  assert (inv (invalids ++ []) (Some a) (set_all all' pl (set_pending (<[a := l']> (tp_pending p)) p))) as Hinv'.
  { apply (inv_forget _ _ _ _ _ tx _ _ (set_pending (<[a := l']> (tp_pending p)) p)); [|done..].
    apply (inv_take_pending _ _ _ _ _ [] None (Some a) p a l (tx :: invalids) l'); [done..|intros c Hne _; done]. }
  assert (∀ x, x ∈ invalids → sent x a) as Hsent.
  { intros x Hx. apply (lw_sent _ _ _ _ (pi_pending _ _ _ _ _ _ _ _ Hinv) a l x Hc). rewrite <- (mv_perm _ _ _ Hm). apply elem_of_app. left. by right. }
  wp_step. eapply returns_mono; [apply (drop_empty_pending_ok (invalids ++ []) a); exact Hinv'|].
  intros _ p1 (Hi1 & Hq1 & _ & Hpq1 & Hlo1 & Hal1 & _). wp_step.
  eapply returns_mono; [apply (demote_ok invalids [] None p1 a); done|]. intros _ p2 (Hi2 & Hp2 & Hq2 & Hlo2 & Hal2 & Hpq2).
  eapply returns_mono; [apply (lower_pending_nonce_ok [] None); done|]. intros _ p3 (Hi3 & [Hp3 Hq3 Hlo3] & Hal3).
  split_and!; [done|by rewrite Hal3, Hal2, Hal1|by rewrite Hlo3, Hlo2, Hlo1| |].
  - intros c Hne. rewrite Hq3, Hq2 by done. by rewrite Hq1.
  - rewrite Hp3, Hp2, Hpq1, Hq3, Hpq2, Hq1, Hperm. cbn. solve_Permutation.
Qed.

Definition removed (tx : Transaction) a p p' : Prop :=
  inv [] None p' ∧ tp_all p' = delete (rlpHash_tx tx) (tp_all p) ∧ tp_locals p' = tp_locals p ∧
  (∀ c, c ≠ a → tp_queue p' !! c = tp_queue p !! c) ∧
  tx :: txs_of (tp_pending p') ++ txs_of (tp_queue p') ≡ₚ txs_of (tp_pending p) ++ txs_of (tp_queue p) ∧
  (tx ∈ txs_of (tp_queue p) → tp_pending p' = tp_pending p ∧ tx :: txs_of (tp_queue p') ≡ₚ txs_of (tp_queue p)).
Lemma in_one_list tx limbo open p : inv limbo open p → tx ∈ txs_of (tp_pending p) → tx ∈ txs_of (tp_queue p) → False.
Proof.
  intros Hinv Hp Hq. pose proof (ct_slots _ _ _ (pi_content _ _ _ _ _ _ _ _ Hinv)) as Hs. rewrite fmap_app in Hs.
  apply NoDup_app in Hs as (_ & Hs & _). apply (Hs (slot signer tx)); [apply list_elem_of_fmap; by exists tx|].
  rewrite fmap_app, elem_of_app. left. apply list_elem_of_fmap. by exists tx.
Qed.
(** A transaction of the queue has its slot to itself. *)
Lemma pending_absent tx a l open p : inv [] open p → tx ∈ txs_of (tp_queue p) → sent tx a → tp_pending p !! a = Some l →
  items l !! AccountNonce tx = None.
Proof.
  intros Hinv Htx Ha Hl. destruct (items l !! AccountNonce tx) as [x|] eqn:Hx; [exfalso|done].
  pose proof (pending_list_ok _ _ _ _ _ Hinv Hl) as Hok. destruct (so_keyed _ (lo_txs _ Hok) _ _ Hx) as [Hn _].
  assert (x ∈ list_txs l) as Hin by (apply elem_of_list_txs; by eexists).
  assert (x ∈ txs_of (tp_pending p)) as Hxp by (apply elem_of_txs_of; by exists a, l).
  assert (x = tx) as ->.
  { apply (content_slot signer _ _ x tx a (pi_content _ _ _ _ _ _ _ _ Hinv)); try done; [rewrite !elem_of_app; tauto..|].
    by apply (lw_sent _ _ _ _ (pi_pending _ _ _ _ _ _ _ _ Hinv) a l). }
  by eapply in_one_list.
Qed.
Lemma removeTx_known tx a ob p : inv [] None p → tp_all p !! rlpHash_tx tx = Some tx → sent tx a →
  returns (removeTx config signer (rlpHash_tx tx) ob) (λ _ p', removed tx a p p') p.
Proof.
  intros Hinv Htx Ha. unfold removeTx. do 2 wp_step. unfold lookup_Get. rewrite Htx. wp_step. apply (sender_of_ok _ a); [done|].
  unfold all_remove. do 3 wp_step. set (all' := delete (rlpHash_tx tx) (tp_all p)).
  assert (priced_but all' (tp_priced p)) as Hpr by (eapply priced_but_sub; [apply Hinv|apply delete_subseteq]).
  assert (all_sent all') as Hsent by (eapply all_sent_sub; [by eapply inv_all_sent|apply delete_subseteq]).
  eapply returns_mono; [apply priced_part_ok; [exact Hsent|exact Hpr|apply Hinv]|]. intros _ p1 (pl & -> & Hpl & Hent). cbn [tp_all set_all] in *.
  change (set_all all' pl (set_all all' (tp_priced p) p)) with (set_all all' pl p).
  assert (tx ∈ txs_of (tp_pending p) ++ txs_of (tp_queue p) ++ []) as Hin by (eapply ct_all; [apply Hinv|exact Htx]).
  rewrite app_nil_r in Hin. apply elem_of_app in Hin as [Hin|Hin].
  - apply elem_of_txs_of in Hin as (c & l & Hc & Hin).
    assert (c = a) as -> by (pose proof (lw_sent _ _ _ _ (pi_pending _ _ _ _ _ _ _ _ Hinv) c l tx Hc Hin); unfold TxPoolInv.sent in *; congruence).
    destruct (remove_pending tx a l pl p Hinv Ha Hc Hin Hpl Hent) as (invalids & l' & Hrun & Hret). rewrite Hc.
    wp_step. apply (returns_mono _ (λ o p', o = Some invalids ∧ p' = set_pending (<[a := l']> (tp_pending p)) (set_all all' pl p))).
    { wp_step. unfold on_pending. wp_steps. cbn [tp_pending set_all]. rewrite Hc, Hrun. by wp_steps. }
    intros o p' [-> ->]. eapply returns_mono; [exact Hret|]. intros _ p' (Hi & Hal & Hlo & Hq & Hperm).
    split_and!; try done. intros Hq'. exfalso. eapply (in_one_list tx); [exact Hinv| |done]. apply elem_of_txs_of. by exists a, l.
  - destruct (remove_queued tx a pl p Hinv Ha Hin Hpl Hent) as (l & Hl & Hret).
    wp_step. apply (returns_mono _ (λ o p', o = None ∧ p' = set_all all' pl p)).
    { destruct (tp_pending p !! a) as [lp|] eqn:Hc; [|by wp_steps]. wp_step. unfold on_pending. wp_steps. cbn [tp_pending set_all].
      rewrite Hc, (Remove_absent lp tx) by by eapply pending_absent. wp_steps. split; [done|]. cbn. rewrite insert_id by done. by destruct p. }
    intros o p' [-> ->]. wp_steps. cbn [tp_queue set_all]. rewrite Hl.
    eapply returns_mono; [exact Hret|]. intros _ p2 (Hi & Hal & Hlo & Hq & Hp & Hperm). split_and!; try done.
    rewrite Hp, <- Hperm. solve_Permutation.
Qed.
End ops.
