(* ===== verification/TxPoolPromote.v ===== *)
(** Promotion and demotion: the transactions of an account that can be executed
    move to its pending list, the ones that no longer can leave it. *)
From S2P Require Import Prelude Types Sealing Blocks Transition TxSigning Heap TxList TxListRuns TxPriced ManagedState Hoare TxPool TxPoolInv TxPoolOps.

Section promote.
Context `{Crypto} `{TxCrypto} `{!Inj (=) (=) rlpHash_tx} `{MapRange} `{TxSize} {S : Type} `{VMStateLaws S} `{StateCopy S}.
Variables (config : TxPoolConfig) (signer : Signer) (now : Z).
Variables (w : World) (maxGas : Z) (head_ok : option Block → Prop) (gone : list Transaction).
Hypothesis Hconfig : config_ok config.
Implicit Types p : TxPool S.
Abbreviation inv := (pool_inv signer w maxGas head_ok gone).
Abbreviation sent := (sent signer).

(** The state at the head lets the account [a] pay for [tx] and its nonce is not
    used up. *)
Definition payable (a : Address) (tx : Transaction) : Prop :=
  w_nonce w a ≤ AccountNonce tx ∧ affordable (w_balance w a) maxGas tx.

Lemma queue_wf limbo open p : inv limbo open p → lists_wf signer false (λ _, False) (tp_queue p).
Proof. apply pi_queue. Qed.
Lemma pending_wf limbo open p : inv limbo open p → lists_wf signer true (λ a, open ≠ Some a) (tp_pending p).
Proof. apply pi_pending. Qed.

(** What [Forward] and [Filter] leave. *)
Lemma from_txs l l' t tx : list_ok l → items l' = from t (items l) → tx ∈ list_txs l' → t ≤ AccountNonce tx ∧ tx ∈ list_txs l.
Proof.
  intros Hok Hi [n Hn]%elem_of_list_txs. rewrite Hi in Hn. apply map_lookup_filter_Some in Hn as [Hn Ht]. cbn in Ht.
  destruct (so_keyed _ (lo_txs _ Hok) _ _ Hn) as [-> _]. split; [done|]. apply elem_of_list_txs. by exists n.
Qed.
Lemma Filter_txs l costLimit gasLimit removed invalids l' tx : list_ok l → list_Filter l costLimit gasLimit = (removed, invalids, l') →
  tx ∈ list_txs l' → affordable costLimit gasLimit tx ∧ tx ∈ list_txs l.
Proof.
  intros Hok Hrun [n Hn]%elem_of_list_txs. destruct (list_Filter_ok _ _ _ _ _ _ Hok Hrun) as (_ & _ & _ & _ & Hlook).
  apply Hlook in Hn as [Hn [Ha _]]. split; [done|]. apply elem_of_list_txs. by exists n.
Qed.
Lemma Filter_lenient l costLimit gasLimit removed invalids l' : strict l = false → list_Filter l costLimit gasLimit = (removed, invalids, l') →
  invalids = [].
Proof. unfold list_Filter. intros ->. destruct (_ && _); [by intros [= <- <- <-]|]. destruct (Filter _ _) as [r m]. by intros [= <- <- <-]. Qed.

(** ** Promoting the run of transactions that is ready *)
Lemma promote_ready_ok ready promoted p a : inv ready None p → (∀ tx, tx ∈ ready → sent tx a) →
  returns (for_acc ready (λ tx promoted, b ← promoteTx config now a (rlpHash_tx tx) tx; mret (if b : bool then promoted ++ [tx] else promoted)) promoted)
    (λ r p', r = promoted ++ ready ∧ inv [] None p' ∧ tp_queue p' = tp_queue p ∧ (∀ c, c ≠ a → tp_pending p' !! c = tp_pending p !! c) ∧
      tp_locals p' = tp_locals p ∧ tp_all p' = tp_all p ∧ txs_of (tp_pending p') ≡ₚ ready ++ txs_of (tp_pending p)) p.
Proof.
  intros Hinv Hsent. eapply returns_mono;
    [apply (returns_for_acc (λ l r p', inv l None p' ∧ (∀ tx, tx ∈ l → sent tx a) ∧ r ++ l = promoted ++ ready ∧ tp_queue p' = tp_queue p ∧
      (∀ c, c ≠ a → tp_pending p' !! c = tp_pending p !! c) ∧ tp_locals p' = tp_locals p ∧ tp_all p' = tp_all p ∧
      l ++ txs_of (tp_pending p') ≡ₚ ready ++ txs_of (tp_pending p)))|]; [by split_and!| |].
  - intros tx l r p' (Hi & Hs & Hr & Hq & Hp & Hlo & Hal & Hperm). wp_step.
    eapply returns_mono; [apply (promoteTx_limbo config signer now w maxGas head_ok gone tx l None p' a); [done|apply Hs; by left]|].
    intros b p2 (-> & Hi2 & Hq2 & Hp2 & Hlo2 & Hal2 & Hperm2). wp_steps.
    split_and!; [done|intros x Hx; apply Hs; by right|by rewrite <- app_assoc|congruence| |congruence..|].
    + intros c Hc. rewrite Hp2 by done. by apply Hp.
    + rewrite <- Hperm, Hperm2. solve_Permutation.
  - intros r p' (? & _ & Hr & ? & ? & ? & ? & ?). rewrite app_nil_r in Hr. by split_and!.
Qed.

(** What promoting the transactions of an account does. *)
Record promoted_account (a : Address) (new : list Transaction) p p' : Prop := {
  pa_inv : inv [] None p';
  pa_shrinks : shrinks p p';
  pa_queue c : c ≠ a → tp_queue p' !! c = tp_queue p !! c;
  pa_pending c : c ≠ a → tp_pending p' !! c = tp_pending p !! c;
  pa_new : txs_of (tp_pending p') ≡ₚ new ++ txs_of (tp_pending p);
  pa_payable tx : tx ∈ new → payable a tx ∧ sent tx a;
  pa_left l tx : tp_queue p' !! a = Some l → tx ∈ list_txs l → payable a tx ∧ tx ∈ txs_of (tp_queue p);
  pa_cap l : tp_queue p' !! a = Some l → contains (tp_locals p) a = false → list_Len l ≤ AccountQueue config
}.
(** Dropping transactions from the queue of [a] does not touch other lists. *)
Record queue_at (a : Address) (l : txList) p p' : Prop := {
  qa_inv : inv [] None p';
  qa_list : tp_queue p' !! a = Some l;
  qa_shrinks : shrinks p p';
  qa_others c : c ≠ a → tp_queue p' !! c = tp_queue p !! c;
  qa_pending : tp_pending p' = tp_pending p
}.
Lemma drop_from_queue_ok f a l out l' p p' : queue_at a l p p' → f l = Ok (out, l') → moved l out l' →
  returns (drop_from_queue a f) (λ _, queue_at a l' p) p'.
Proof.
  intros [Hi Hl [Hlo Hal] Hq Hp] Hf Hm. unfold drop_from_queue. wp_step. eapply returns_mono; [eapply on_queue_ok; [exact Hi|exact Hl|exact Hf|exact Hm]|].
  intros ? p2 (-> & -> & Hi2). eapply returns_mono; [by apply forget_all_ok|]. intros _ p3 (Hi3 & [Hp3 Hq3 Hlo3] & Hal3). cbn in *.
  split; [done|rewrite Hq3; apply lookup_insert_eq|split; [congruence|by etrans]| |congruence].
  intros c Hc. rewrite Hq3, lookup_insert_ne by done. by apply Hq.
Qed.
Lemma queue_at_same a l p p1 p2 : queue_at a l p p1 → inv [] None p2 → same_lists p1 p2 → tp_all p2 = tp_all p1 → queue_at a l p p2.
Proof.
  intros [Hi Hl [Hlo Hal] Hq Hp] Hi2 [Hp2 Hq2 Hlo2] Hal2. split; [done|by rewrite Hq2|split; [congruence|by rewrite Hal2]| |congruence].
  intros c Hc. rewrite Hq2. by apply Hq.
Qed.
Lemma queue_at_ok a l p p' : queue_at a l p p' → list_ok l ∧ strict l = false.
Proof. intros Hq. apply (lw_list _ _ _ _ (pi_queue _ _ _ _ _ _ _ _ (qa_inv _ _ _ _ Hq)) a), Hq. Qed.

Lemma int64_id x : 0 ≤ x < 9223372036854775808 → int64 x = x.
Proof. intros Hx. unfold int64. rewrite Z.mod_small; unfold u64_modulus; lia. Qed.
Lemma promote_cap_ok a l p (local : bool) : queue_at a l p p →
  returns (if local then mret tt else drop_from_queue a (λ l, list_Cap l (int64 (AccountQueue config))))
    (λ _ p', ∃ l', queue_at a l' p p' ∧ (∀ tx, tx ∈ list_txs l' → tx ∈ list_txs l) ∧ (local = false → list_Len l' ≤ AccountQueue config)) p.
Proof.
  intros Hq. destruct Hconfig as [_ _ _ Haq _]. destruct local; [wp_steps; by exists l|]. rewrite int64_id by lia.
  destruct (queue_at_ok _ _ _ _ Hq) as [Hl _]. destruct (Cap_moved (E := pool_error) l (AccountQueue config) Hl ltac:(lia)) as (out & l' & Hrun & Hm & _ & Hlen).
  eapply returns_mono; [by apply (drop_from_queue_ok _ a l out l' p p)|]. intros [] p' Hq'. exists l'. split_and!; [done| |lia].
  intros tx Htx. by eapply moved_elem.
Qed.

Lemma promote_account_ok a promoted p : inv [] None p →
  returns (promote_account config now a promoted)
    (λ r p', ∃ new, r = promoted ++ new ∧ (tp_queue p !! a = None → p' = p) ∧ promoted_account a new p p') p.
Proof.
  intros Hinv. unfold promote_account. do 2 wp_step. destruct (tp_queue p !! a) as [l0|] eqn:Ha.
  2: { wp_steps. exists []. split_and!; [by rewrite app_nil_r|done|].
       split; [done|done|done|done|done|by inversion 1|by intros l tx; rewrite Ha|by intros l; rewrite Ha]. }
  (* old transactions *)
  wp_step. eapply returns_mono; [by apply current_nonce_ok|]. intros n p1 (-> & Hi1 & Hs1 & Hal1).
  assert (queue_at a l0 p p1) as H1' by (apply (queue_at_same a l0 p p); done).
  destruct (queue_at_ok _ _ _ _ H1') as [Hl0 Hst0].
  destruct (Forward_moved (E := pool_error) l0 (w_nonce w a) Hl0) as (out1 & l1 & Hrun1 & Hm1 & Hf1).
  wp_step. eapply returns_mono; [by apply (drop_from_queue_ok _ a l0 out1 l1 p p1)|]. intros [] p2 H2'.
  (* unpayable ones *)
  wp_step. eapply returns_mono; [apply current_balance_ok, H2'|]. intros b p3 (-> & Hi3 & Hs3 & Hal3).
  assert (queue_at a l1 p p3) as H3' by by eapply queue_at_same.
  destruct (queue_at_ok _ _ _ _ H3') as [Hl1 Hst1]. rewrite (pi_maxGas _ _ _ _ _ _ _ _ Hinv).
  destruct (list_Filter l1 (w_balance w a) maxGas) as [[removed invalids] l2] eqn:Hrun2.
  pose proof (Filter_lenient _ _ _ _ _ _ Hst1 Hrun2) as ->. pose proof (Filter_moved _ _ _ _ _ _ Hl1 Hrun2) as Hm2. rewrite app_nil_r in Hm2.
  wp_step. eapply returns_mono; [eapply drop_from_queue_ok; [exact H3'| |exact Hm2]|].
  { unfold filter_list. by rewrite Hrun2. }
  intros [] p4 H4'.
  assert (∀ tx, tx ∈ list_txs l2 → payable a tx ∧ tx ∈ list_txs l0) as Hpay.
  { intros tx Htx. destruct (Filter_txs _ _ _ _ _ _ tx Hl1 Hrun2 Htx) as [? Htx1]. by destruct (from_txs _ _ _ tx Hl0 Hf1 Htx1). }
  (* the ones that are ready *)
  wp_step. eapply returns_mono; [apply pending_nonce_ok, H4'|]. intros start p5 (Hi5 & Hs5 & Hal5).
  assert (queue_at a l2 p p5) as [H51 H52 [H53 H53'] H54 H55] by by eapply queue_at_same.
  destruct (queue_at_ok _ _ _ _ H4') as [Hl2 Hst2].
  destruct (Ready_moved (E := pool_error) l2 start Hl2) as (ready & l3 & Hrun3 & Hm3 & _).
  wp_step. eapply returns_mono; [eapply on_queue_ok; [exact H51|exact H52|exact Hrun3|exact Hm3]|]. intros ? p6 (-> & -> & Hi6).
  assert (∀ tx, tx ∈ ready → tx ∈ list_txs l2) as Hready by (intros tx Htx; rewrite <- (mv_perm _ _ _ Hm3); apply elem_of_app; by left).
  assert (∀ tx, tx ∈ ready → sent tx a) as Hsent by (intros tx Htx%Hready; by apply (lw_sent _ _ _ _ (queue_wf _ _ _ H51) a l2)).
  wp_step. eapply returns_mono; [apply (promote_ready_ok ready promoted _ a)|].
  { eapply inv_perm; [|exact Hi6]. by rewrite app_nil_r. }
  { done. }
  intros r p7 (-> & Hi7 & Hq7 & Hp7 & Hlo7 & Hal7 & Hperm7).
  assert (queue_at a l3 p7 p7) as H7' by (split; [done|rewrite Hq7; apply lookup_insert_eq|done..]).
  destruct (queue_at_ok _ _ _ _ H7') as [Hl3 _].
  (* those over the limit *)
  wp_step. eapply returns_mono; [by apply (promote_cap_ok a l3)|]. intros _ p8 (l4 & [Hi8 Hl8 [Hlo8 Hal8] Hq8 Hp8] & Hsub & Hcap).
  wp_step. eapply returns_mono; [by apply drop_empty_queue_ok|]. intros _ p9 (Hi9 & Hp9 & Hq9 & _ & Hlo9 & Hal9 & Hle).
  cbn in Hq7, Hp7, Hlo7, Hal7, Hperm7. wp_steps. exists ready.
  assert (∀ l, tp_queue p9 !! a = Some l → l = l4) as Hlast by (intros l Hl; apply (lookup_weaken _ _ _ _ Hl) in Hle; congruence).
  split_and!; [done|done|]. split; [done|split; [congruence|by rewrite Hal9, Hal8, Hal7]| | | | | |].
  - intros c Hc. rewrite Hq9, Hq8, Hq7, lookup_insert_ne by done. by apply H54.
  - intros c Hc. rewrite Hp9, Hp8, Hp7 by done. by rewrite H55.
  - by rewrite Hp9, Hp8, Hperm7, H55.
  - intros tx Htx. split; [by apply Hpay, Hready|by apply Hsent].
  - intros l tx ->%Hlast Htx%Hsub. destruct (Hpay tx) as [? Htx0]; [by eapply moved_elem; [exact Hm3|]|]. split; [done|].
    apply elem_of_txs_of. by exists a, l0.
  - intros l ->%Hlast Hc. apply Hcap. congruence.
Qed.

(** ** Promoting several accounts *)
Definition clean (a : Address) p : Prop := ∀ l, tp_queue p !! a = Some l →
  (∀ tx, tx ∈ list_txs l → payable a tx) ∧ (a ∉ asAccounts (tp_locals p) → list_Len l ≤ AccountQueue config).
Record promoted_accounts (accounts : list Address) p p' : Prop := {
  ps_inv : inv [] None p';
  ps_shrinks : shrinks p p';
  ps_pending tx a : tx ∈ txs_of (tp_pending p') → sent tx a → tx ∈ txs_of (tp_pending p) ∨ payable a tx;
  ps_kept tx : tx ∈ txs_of (tp_pending p) → tx ∈ txs_of (tp_pending p');
  ps_queue tx : tx ∈ txs_of (tp_queue p') → tx ∈ txs_of (tp_queue p);
  ps_others c : c ∉ accounts → tp_queue p' !! c = tp_queue p !! c;
  ps_clean a : a ∈ accounts → clean a p'
}.
Lemma promote_accounts_ok accounts p : inv [] None p →
  returns (for_acc accounts (promote_account config now) []) (λ _ p', promoted_accounts accounts p p') p.
Proof.
  intros Hinv. generalize (@nil Transaction) as acc. revert p Hinv. induction accounts as [|a accounts IH]; intros p Hinv acc; cbn [for_acc].
  { wp_steps. split; try done; [by left|by inversion 1]. }
  wp_step. eapply returns_mono; [by apply promote_account_ok|]. intros r p1 (new & -> & _ & [Hi1 Hs1 Hq1 Hp1 Hn1 Hpay1 Hl1 Hcap1]).
  assert (∀ tx, tx ∈ txs_of (tp_queue p1) → tx ∈ txs_of (tp_queue p)) as Hsub.
  { intros tx (c & l & Hc & Htx)%elem_of_txs_of. destruct (decide (c = a)) as [->|Hne]; [by apply (Hl1 l tx)|].
    rewrite Hq1 in Hc by done. apply elem_of_txs_of. by exists c, l. }
  eapply returns_mono; [by apply IH|]. intros r p2 [Hi2 Hs2 Hp2 Hk2 Hq2 Ho2 Hc2]. split; [done|by eapply shrinks_trans| | | | |].
  - intros tx c Htx Hc. destruct (Hp2 tx c Htx Hc) as [Htx1|?]; [|by right]. rewrite Hn1 in Htx1. apply elem_of_app in Htx1 as [Hnew|?]; [right|by left].
    destruct (Hpay1 tx Hnew) as [Hpay Ha]. unfold TxPoolInv.sent in *. congruence.
  - intros tx Htx. apply Hk2. rewrite Hn1. apply elem_of_app. by right.
  - auto.
  - intros c [Hne Hc]%not_elem_of_cons. rewrite Ho2 by done. by apply Hq1.
  - intros c [->|Hc]%elem_of_cons; [|by apply Hc2]. destruct (decide (a ∈ accounts)) as [Ha|Ha]; [by apply Hc2|].
    intros l Hl. rewrite Ho2 in Hl by done. split; [intros tx Htx; by apply (Hl1 l)|]. rewrite (sh_locals _ _ Hs2), (sh_locals _ _ Hs1). intros Hloc.
    apply Hcap1; [done|]. unfold contains. by rewrite bool_decide_eq_false.
Qed.

(** ** Demotion *)
Definition startable (a : Address) p : Prop := ∀ l, tp_pending p !! a = Some l →
  (∀ tx, tx ∈ list_txs l → payable a tx) ∧ is_Some (items l !! w_nonce w a).
Record demoted (a : Address) p p' : Prop := {
  de_inv : inv [] None p';
  de_shrinks : shrinks p p';
  de_others c : c ≠ a → tp_pending p' !! c = tp_pending p !! c;
  de_start : startable a p'
}.
(** While the list of [a] is worked on. *)
Record demoting (a : Address) (limbo : list Transaction) (l : txList) p p' : Prop := {
  dm_inv : inv limbo (Some a) p';
  dm_list : tp_pending p' !! a = Some l;
  dm_shrinks : shrinks p p';
  dm_others c : c ≠ a → tp_pending p' !! c = tp_pending p !! c
}.
Lemma demoting_same a limbo limbo' l p p1 p2 : demoting a limbo l p p1 → inv limbo' (Some a) p2 → tp_pending p2 = tp_pending p1 →
  tp_locals p2 = tp_locals p1 → tp_all p2 ⊆ tp_all p1 → demoting a limbo' l p p2.
Proof.
  intros [Hi Hl [Hlo Hal] Ho] Hi2 Hp2 Hlo2 Hal2. split; [done|congruence|split; [congruence|by etrans]|]. intros c Hc. rewrite Hp2. by apply Ho.
Qed.
Lemma demoting_take {A} (f : txList → Result pool_error (A * txList)) a limbo l r out l' p p1 : demoting a limbo l p p1 →
  f l = Ok (r, l') → moved l out l' → returns (on_pending a f) (λ r' p2, r' = r ∧ demoting a (out ++ limbo) l' p p2) p1.
Proof.
  intros [Hi Hl [Hlo Hal] Ho] Hf Hm. eapply returns_mono; [eapply on_pending_ok with (open' := Some a); [exact Hi|exact Hl|exact Hf|exact Hm|done|done]|].
  intros ? p2 (-> & -> & Hi2). split; [done|]. split; [done|apply lookup_insert_eq|done|]. intros c Hc. cbn. rewrite lookup_insert_ne by done. by apply Ho.
Qed.
Lemma demoting_forget a out limbo l p p1 : demoting a (out ++ limbo) l p p1 →
  returns (forget_all out) (λ _ p2, demoting a limbo l p p2) p1.
Proof.
  intros Hd. eapply returns_mono; [apply forget_all_ok, Hd|]. intros _ p2 (Hi2 & [Hp2 Hq2 Hlo2] & Hal2). by eapply demoting_same.
Qed.
Lemma demoting_demote a out l p p1 : demoting a out l p p1 → (∀ tx, tx ∈ out → sent tx a) →
  returns (demote config signer out) (λ _ p2, demoting a [] l p p2) p1.
Proof.
  intros Hd Hs. eapply returns_mono; [eapply (demote_ok _ _ _ _ _ _ out [] (Some a) p1 a); [|done]|].
  { rewrite app_nil_r. apply Hd. }
  intros _ p2 (Hi2 & Hp2 & _ & Hlo2 & Hal2 & _). eapply demoting_same; [exact Hd|done..|by rewrite Hal2].
Qed.
(** A list that does not start at the nonce of the account is given up. *)
Lemma demote_gap_ok a l n p p1 : demoting a [] l p p1 →
  returns (match tp_pending p1 !! a with
           | None => panic NilDereference
           | Some l => if (0 <? list_Len l) && bool_decide (Get (txs l) n = None)
                       then gap ← on_pending a (λ l, list_Cap l 0); demote config signer gap else mret tt
           end)
    (λ _ p2, ∃ l', demoting a [] l' p p2 ∧ (list_txs l' = [] ∨ l' = l ∧ is_Some (items l !! n))) p1.
Proof.
  intros Hd. rewrite (dm_list _ _ _ _ _ Hd). pose proof (list_txs_length l) as Hlen.
  destruct (list_txs l) as [|tx0 rest] eqn:Htxs.
  { cbn in Hlen. rewrite <- Hlen. wp_steps. exists l. split; [done|by left]. }
  destruct (Z.ltb_spec 0 (list_Len l)) as [_|Hbad]; [|cbn in Hlen; lia]. cbn [andb]. case_bool_decide as Hn.
  2: { wp_steps. exists l. split; [done|right]. split; [done|]. by apply not_eq_None_Some. }
  assert (list_ok l) as Hl by (eapply pending_list_ok; apply Hd).
  destruct (Cap_moved (E := pool_error) l 0 Hl ltac:(lia)) as (out & l' & Hrun & Hm & _ & Hlen').
  wp_step. eapply returns_mono; [by apply (demoting_take _ a [] l out out l' p p1)|]. intros ? p2 [-> Hd2]. rewrite app_nil_r in Hd2.
  eapply returns_mono; [apply (demoting_demote a out l' p p2); [done|]|].
  { intros tx Htx. apply (lw_sent _ _ _ _ (pending_wf _ _ _ (dm_inv _ _ _ _ _ Hd)) a l); [apply Hd|]. rewrite <- (mv_perm _ _ _ Hm).
    apply elem_of_app. by left. }
  intros [] p3 Hd3. exists l'. split; [done|left]. rewrite <- list_txs_length in Hlen'. destruct (list_txs l'); [done|]. cbn in Hlen'. lia.
Qed.
Lemma demote_account_ok a p : inv [] None p → is_Some (tp_pending p !! a) →
  returns (demote_account config signer a) (λ _ p', demoted a p p') p.
Proof.
  intros Hinv [l0 Ha]. unfold demote_account.
  wp_step. eapply returns_mono; [by apply current_nonce_ok|]. intros n p1 (-> & Hi1 & [Hp1 Hq1 Hlo1] & Hal1).
  assert (demoting a [] l0 p p1) as Hd1.
  { split; [|congruence|split; [done|by rewrite Hal1]|intros c _; by rewrite Hp1].
    destruct Hi1 as [Hpw Hq Hc Hpr He Hsg Hst Hps Hmg Hhd]. split; try done. eapply lists_wf_weaken; [exact Hpw|]. intros c l Hl _. by apply (lw_full _ _ _ _ Hpw c l). }
  assert (list_ok l0) as Hl0 by (eapply pending_list_ok; [exact Hinv|exact Ha]).
  (* old transactions *)
  destruct (Forward_moved (E := pool_error) l0 (w_nonce w a) Hl0) as (out1 & l1 & Hrun1 & Hm1 & Hf1).
  wp_step. eapply returns_mono; [by apply (demoting_take _ a [] l0 out1 out1 l1 p p1)|]. intros ? p2 [-> Hd2].
  wp_step. eapply returns_mono; [by apply (demoting_forget a out1 [] l1 p p2)|]. intros [] p3 Hd3.
  (* unpayable ones, and those behind them *)
  wp_step. eapply returns_mono; [apply current_balance_ok, Hd3|]. intros b p4 (-> & Hi4 & [Hp4 Hq4 Hlo4] & Hal4).
  assert (demoting a [] l1 p p4) as Hd4 by (eapply demoting_same; [exact Hd3|done..|by rewrite Hal4]).
  do 2 wp_step. rewrite (pi_maxGas _ _ _ _ _ _ _ _ Hi4). assert (list_ok l1) as Hl1 by (eapply pending_list_ok; apply Hd4).
  destruct (list_Filter l1 (w_balance w a) maxGas) as [[removed invalids] l2] eqn:Hrun2.
  pose proof (Filter_moved _ _ _ _ _ _ Hl1 Hrun2) as Hm2.
  wp_step. eapply returns_mono; [apply (demoting_take _ a [] l1 (removed, invalids) (removed ++ invalids) l2 p p4); [done|unfold filter_list; by rewrite Hrun2|done]|].
  intros ? p5 [-> Hd5]. rewrite app_nil_r in Hd5.
  assert (∀ tx, tx ∈ removed ++ invalids → sent tx a) as Hsent.
  { intros tx Htx. apply (lw_sent _ _ _ _ (pending_wf _ _ _ Hi4) a l1); [apply Hd4|]. rewrite <- (mv_perm _ _ _ Hm2). apply elem_of_app. by left. }
  wp_step. eapply returns_mono; [by apply (demoting_forget a removed invalids l2 p p5)|]. intros [] p6 Hd6.
  wp_step. eapply returns_mono; [apply (demoting_demote a invalids l2 p p6); [done|intros tx Htx; apply Hsent, elem_of_app; by right]|]. intros [] p7 Hd7.
  (* a gap in front *)
  do 2 wp_step. wp_step. eapply returns_mono; [by apply (demote_gap_ok a l2 (w_nonce w a) p p7)|]. intros [] p8 (l3 & [Hi8 Hl8 Hs8 Ho8] & Hor).
  eapply returns_mono; [by apply drop_empty_pending_ok|]. intros _ p9 (Hi9 & Hq9 & Ho9 & _ & Hlo9 & Hal9 & Ha9).
  split; [done|eapply shrinks_trans; [exact Hs8|split; [done|by rewrite Hal9]]|intros c Hc; rewrite Ho9 by done; by apply Ho8|].
  intros l Hl. rewrite Ha9, Hl8 in Hl. cbn in Hl. case_bool_decide as Hnil; [done|]. injection Hl as <-.
  destruct Hor as [Hbad|[-> Hsome]]; [by rewrite Hbad in Hnil|]. split; [|done]. intros tx Htx.
  destruct (Filter_txs _ _ _ _ _ _ tx Hl1 Hrun2 Htx) as [? Htx1]. by destruct (from_txs _ _ _ tx Hl0 Hf1 Htx1).
Qed.
End promote.
