(* ===== verification/TxPoolLimits.v ===== *)
(** The limits of the pool: large accounts give up pending transactions, down to
    the slots every account is guaranteed, and the queue is cut to its size. *)
From S2P Require Import Prelude Types Sealing Blocks Transition TxSigning Heap TxList TxListRuns TxPriced ManagedState Hoare TxPool TxPoolInv TxPoolOps.

Section limits.
Context `{Crypto} `{TxCrypto} `{!Inj (=) (=) rlpHash_tx} `{MapRange} `{TxSize} {S : Type} `{VMStateLaws S} `{StateCopy S}.
Variables (config : TxPoolConfig) (signer : Signer) (now : Z).
Variables (w : World) (maxGas : Z) (head_ok : option Block → Prop) (gone : list Transaction).
Hypothesis Hconfig : config_ok config.
Implicit Types p : TxPool S.
Abbreviation inv := (pool_inv signer w maxGas head_ok gone).
Abbreviation sent := (sent signer).

(** * Pending transactions *)
Definition plen p (a : Address) : Z := default 0 (list_Len <$> tp_pending p !! a).
(** Accounts lost pending transactions, but not all of them. *)
Record trimmed p p' : Prop := {
  tr_inv : inv [] None p';
  tr_shrinks : shrinks p p';
  tr_queue : tp_queue p' = tp_queue p;
  tr_dom a : is_Some (tp_pending p' !! a) ↔ is_Some (tp_pending p !! a);
  tr_sub tx : tx ∈ txs_of (tp_pending p') → tx ∈ txs_of (tp_pending p)
}.
Lemma trimmed_refl p : inv [] None p → trimmed p p.
Proof. by split. Qed.
Lemma trimmed_trans p1 p2 p3 : trimmed p1 p2 → trimmed p2 p3 → trimmed p1 p3.
Proof.
  intros [_ Hs1 Hq1 Hd1 Ht1] [Hi2 Hs2 Hq2 Hd2 Ht2].
  split; [done|by eapply shrinks_trans|congruence|intros a; by rewrite Hd2|intros tx Htx; by apply Ht1, Ht2].
Qed.

(** The transactions of all pending lists. *)
Definition total p : Z := Z.of_nat (length (txs_of (tp_pending p))).
Lemma pending_len_ok a p l : tp_pending p !! a = Some l → returns (pending_len a) (λ n p', n = plen p a ∧ p' = p) p.
Proof. intros Ha. unfold pending_len, plen. wp_steps. rewrite Ha. by wp_steps. Qed.
Lemma plen_pos p a l : inv [] None p → tp_pending p !! a = Some l → 1 ≤ plen p a.
Proof.
  intros Hinv Ha. unfold plen. rewrite Ha. cbn. rewrite <- list_txs_length.
  pose proof (lw_full _ _ _ _ (pi_pending _ _ _ _ _ _ _ _ Hinv) a l Ha ltac:(done)) as Hne. destruct (list_txs l); [done|cbn; lia].
Qed.
Lemma plen_present p a : 1 ≤ plen p a → ∃ l, tp_pending p !! a = Some l ∧ list_Len l = plen p a.
Proof. unfold plen. destruct (tp_pending p !! a) as [l|]; cbn; [|lia]. by exists l. Qed.

Lemma drop_last_ok a p : inv [] None p → 2 ≤ plen p a →
  returns (drop_last a) (λ _ p', trimmed p p' ∧ plen p' a = plen p a - 1 ∧ (∀ c, c ≠ a → tp_pending p' !! c = tp_pending p !! c) ∧
    total p' = total p - 1) p.
Proof.
  intros Hinv Hlen. destruct (plen_present p a ltac:(lia)) as (l & Ha & Hl).
  unfold drop_last. wp_step. eapply returns_mono; [by eapply pending_len_ok|]. intros ? ? [-> ->].
  assert (list_ok l) as Hok by by eapply pending_list_ok.
  destruct (Cap_moved (E := pool_error) l (plen p a - 1) Hok ltac:(lia)) as (out & l' & Hrun & Hm & _ & Hlen').
  assert (list_Len l' = plen p a - 1) as Hl' by lia.
  wp_step. eapply returns_mono; [eapply on_pending_ok with (open' := None); [exact Hinv|exact Ha|exact Hrun|exact Hm| |done]|].
  { intros _ Hnil. rewrite <- list_txs_length, Hnil in Hl'. cbn in Hl'. lia. }
  intros ? p1 (-> & Hp1 & Hi1). subst p1.
  eapply returns_mono; [apply (returns_for_each (λ l p', inv (l ++ []) None p' ∧ same_lists (set_pending (<[a := l']> (tp_pending p)) p) p' ∧ tp_all p' ⊆ tp_all p))|].
  - done.
  - intros tx rest p2 (Hi2 & Hs2 & Hal2). wp_step. eapply returns_mono; [eapply forget_ok; exact Hi2|].
    intros _ p3 (Hi3 & Hs3 & Hal3). eapply returns_mono; [by apply lower_pending_nonce_ok|]. intros _ p4 (Hi4 & Hs4 & Hal4).
    split_and!; [done|by eapply same_lists_trans, same_lists_trans|]. rewrite Hal4, Hal3. etrans; [apply delete_subseteq|done].
  - intros [] p2 (Hi2 & [Hp2 Hq2 Hlo2] & Hal2). cbn in *. split_and!.
    + split; [done|by split|done| |].
      * intros c. rewrite Hp2. destruct (decide (c = a)) as [->|Hne]; [by rewrite lookup_insert_eq, Ha|by rewrite lookup_insert_ne].
      * intros tx. rewrite Hp2, (txs_of_moved _ _ _ _ _ Ha Hm), elem_of_app. by right.
    + unfold plen at 1. rewrite Hp2, lookup_insert_eq. cbn. done.
    + intros c Hc. by rewrite Hp2, lookup_insert_ne.
    + unfold total. rewrite Hp2, (txs_of_moved _ _ _ _ _ Ha Hm), length_app. pose proof (mv_perm _ _ _ Hm) as Hp%Permutation_length.
      rewrite length_app in Hp. pose proof (list_txs_length l). pose proof (list_txs_length l'). lia.
Qed.

(** A round takes one transaction from each of some accounts; the counter stays
    the number of pending transactions. *)
Definition counted p (pending : Z) : Prop := pending = wrap64 (total p).
Lemma counted_pred p p' pending : counted p pending → total p' = total p - 1 → counted p' (pending - 1)%u64.
Proof. unfold counted. intros -> ->. unfold u64_sub, Z.sub. by rewrite wrap64_add_l. Qed.
Lemma drop_round_ok offenders pending p : inv [] None p → counted p pending → NoDup offenders → (∀ a, a ∈ offenders → 2 ≤ plen p a) →
  returns (drop_round offenders pending) (λ pending' p', trimmed p p' ∧ counted p' pending' ∧
    (∀ a, a ∈ offenders → plen p' a = plen p a - 1) ∧ (∀ c, c ∉ offenders → tp_pending p' !! c = tp_pending p !! c)) p.
Proof.
  unfold drop_round. revert pending p. induction offenders as [|a offenders IH]; intros pending p Hinv Hu Hnd Hlen; cbn [for_acc].
  { wp_steps. split_and!; [by apply trimmed_refl|done|by intros a Ha; inversion Ha|done]. }
  apply NoDup_cons in Hnd as [Ha Hnd]. do 2 wp_step.
  eapply returns_mono; [apply drop_last_ok; [done|apply Hlen; by left]|]. intros _ p1 (Ht1 & Hla & Hothers & Htot). wp_steps.
  assert (∀ c, c ≠ a → plen p1 c = plen p c) as Hplen by (intros c Hc; unfold plen; by rewrite Hothers).
  eapply returns_mono; [apply (IH (pending - 1)%u64 p1); [apply Ht1|by eapply counted_pred|done|]|].
  { intros c Hc. rewrite Hplen by (by intros ->). apply Hlen. by right. }
  intros pending' p2 (Ht2 & Hc2 & Hl2 & Ho2). split_and!; [by eapply trimmed_trans|done| |].
  - intros c [->|Hc]%elem_of_cons; [unfold plen at 1; rewrite Ho2 by done; done|]. rewrite Hl2 by done. rewrite Hplen; [done|by intros ->].
  - intros c [Hne Hc]%not_elem_of_cons. rewrite Ho2 by done. by apply Hothers.
Qed.

(** Rounds level accounts of one length down to a threshold. *)
Record levelled (offenders : list Address) (from to : Z) (pending : Z) p p' : Prop := {
  lv_trimmed : trimmed p p';
  lv_counted : counted p' pending;
  lv_level a : a ∈ offenders → plen p' a = to;
  lv_others c : c ∉ offenders → tp_pending p' !! c = tp_pending p !! c
}.
Lemma drop_rounds_ok fuel offenders last threshold pending level p :
  inv [] None p → counted p pending → NoDup offenders → last ∈ offenders → (∀ a, a ∈ offenders → plen p a = level) →
  1 ≤ threshold ≤ level → level - threshold ≤ Z.of_nat fuel →
  returns (drop_rounds config fuel offenders last threshold pending) (λ pending' p', ∃ level',
    levelled offenders level level' pending' p p' ∧ threshold ≤ level' ≤ level ∧ (pending' ≤ GlobalSlots config ∨ level' = threshold)) p.
Proof.
  revert pending level p. induction fuel as [|fuel IH]; intros pending level p Hinv Hcnt Hnd Hlast Hlev Hth Hfuel; cbn [drop_rounds].
  all: destruct (Z.ltb_spec (GlobalSlots config) pending) as [Hbig|Hsmall]; cbn [negb];
    [|wp_steps; exists level; split; [by split; [apply trimmed_refl|..]|lia]].
  all: destruct (plen_present p last) as (l & Hl & _); [rewrite Hlev by done; lia|].
  all: wp_step; eapply returns_mono; [by eapply pending_len_ok|]; intros ? ? [-> ->]; rewrite Hlev by done.
  all: destruct (Z.ltb_spec threshold level) as [Hlt|Hge]; cbn [negb];
    [|wp_steps; exists level; split; [by split; [apply trimmed_refl|..]|lia]].
  { lia. }
  wp_step. eapply returns_mono; [apply drop_round_ok; [done..|]; intros a Ha; rewrite Hlev by done; lia|].
  intros pending1 p1 (Ht1 & Hc1 & Hl1 & Ho1).
  eapply returns_mono; [apply (IH pending1 (level - 1) p1); [apply Ht1|done|done|done| |lia|lia]|].
  { intros a Ha. rewrite Hl1, Hlev by done. done. }
  intros pending2 p2 (level' & [Ht2 Hc2 Hl2 Ho2] & Hb & Hor). exists level'. split; [|lia].
  split; [by eapply trimmed_trans|done|done|]. intros c Hc. rewrite Ho2 by done. by apply Ho1.
Qed.
Lemma drop_down_to_ok offenders last threshold pending level p :
  inv [] None p → counted p pending → NoDup offenders → last ∈ offenders → (∀ a, a ∈ offenders → plen p a = level) → 1 ≤ threshold ≤ level →
  returns (drop_down_to config offenders last threshold pending) (λ pending' p', ∃ level',
    levelled offenders level level' pending' p p' ∧ threshold ≤ level' ≤ level ∧ (pending' ≤ GlobalSlots config ∨ level' = threshold)) p.
Proof.
  intros Hinv Hcnt Hnd Hlast Hlev Hth. unfold drop_down_to. do 2 wp_step. apply drop_rounds_ok; try done.
  destruct (plen_present p last) as (l & Hl & Hlen); [rewrite Hlev by done; lia|]. rewrite Hl. cbn. rewrite Hlen, Hlev by done. lia.
Qed.

(** ** The order of the offenders *)
Definition longer (a b : Address * Z) : bool := b.2 <? a.2.
#[local] Instance longer_order : WeakOrder longer.
Proof.
  split; unfold longer.
  - intros x y. rewrite Z.ltb_lt, Z.ltb_ge. lia.
  - intros x y z. rewrite !Z.ltb_ge. lia.
Qed.
(** Lengths that fit in an [int] are compared without overflow. *)
Definition priorities_fit (l : list (Address * Z)) : Prop := ∀ x, x ∈ l → 0 ≤ x.2 < 9223372036854775808.
Lemma prio_less_fit l : priorities_fit l → agree_on prio_less longer l.
Proof.
  intros Hl x y Hx%Hl Hy%Hl. unfold prio_less, longer, int64. rewrite Z.mod_small by (unfold u64_modulus; lia).
  destruct (Z.ltb_spec y.2 x.2); [apply Z.ltb_lt|apply Z.ltb_ge]; lia.
Qed.
Lemma Pop_spammers {E} l : heap longer l → priorities_fit l → l ≠ [] →
  ∃ x rest, Pop prio_less (E := E) l = Ok (x, rest) ∧ l ≡ₚ x :: rest ∧ heap longer rest ∧ ∀ y, y ∈ l → y.2 ≤ x.2.
Proof.
  intros Hh Hf Hne. destruct l as [|x l']; [done|]. rewrite (Pop_ext prio_less longer) by by apply prio_less_fit.
  destruct (Pop_ok longer (E := E) (x :: l') x Hh eq_refl) as (rest & -> & Hp & Hr). exists x, rest. split_and!; [done..|].
  intros y Hy. pose proof (heap_head longer _ x Hh eq_refl y Hy) as Hless. unfold longer in Hless. by apply Z.ltb_ge in Hless.
Qed.

Record waiting (spammers : list (Address * Z)) (offenders : list Address) p : Prop := {
  wt_heap : heap longer spammers;
  wt_fit : priorities_fit spammers;
  wt_nodup : NoDup (offenders ++ spammers.*1);
  wt_len a n : (a, n) ∈ spammers → plen p a = n ∧ AccountSlots config < n
}.
(** The offenders so far have one length, which no one else waiting exceeds. *)
Record level_ok (spammers : list (Address * Z)) (offenders : list Address) (level : Z) p : Prop := {
  lo_len a : a ∈ offenders → plen p a = level;
  lo_slots : AccountSlots config < level;
  lo_most a n : (a, n) ∈ spammers → n ≤ level
}.
(** The candidates end with more than their slots; either the pool is within its
    limit, or all of them are offenders and have one length. *)
Record equalized (candidates offenders : list Address) (pending : Z) p p' : Prop := {
  eq_trimmed : trimmed p p';
  eq_counted : counted p' pending;
  eq_nodup : NoDup offenders;
  eq_from c : c ∈ offenders → c ∈ candidates;
  eq_others c : c ∉ candidates → tp_pending p' !! c = tp_pending p !! c;
  eq_slots c : c ∈ candidates → AccountSlots config < plen p' c;
  eq_done : pending ≤ GlobalSlots config ∨
    (∀ c, c ∈ candidates → c ∈ offenders) ∧ ∃ level, ∀ c, c ∈ offenders → plen p' c = level
}.
Lemma equalized_stop spammers offenders pending p :
  inv [] None p → counted p pending → waiting spammers offenders p → (∀ c, c ∈ offenders → AccountSlots config < plen p c) →
  pending ≤ GlobalSlots config ∨ (spammers = [] ∧ ∃ level, ∀ c, c ∈ offenders → plen p c = level) →
  equalized (offenders ++ spammers.*1) offenders pending p p.
Proof.
  intros Hinv Hcnt [Hh Hf Hnd Hlen] Hslots Hor. split; [by apply trimmed_refl|done|by apply NoDup_app in Hnd as (? & _)| |done| |].
  - intros c Hc. apply elem_of_app. by left.
  - intros c [Hc|([? n] & -> & Hc)%list_elem_of_fmap]%elem_of_app; [by apply Hslots|]. destruct (Hlen _ _ Hc) as [<- ?]. done.
  - destruct Hor as [?|[-> Hl]]; [by left|]. right. split; [|done]. intros c. by rewrite app_nil_r.
Qed.
(** The offenders so far come down to the length of the next one. *)
Lemma level_previous_ok offenders pending level p a n :
  inv [] None p → counted p pending → NoDup offenders → a ∉ offenders → plen p a = n → AccountSlots config < n →
  (offenders ≠ [] → (∀ c, c ∈ offenders → plen p c = level) ∧ n ≤ level) →
  returns (match last offenders with
           | None => mret pending
           | Some previous => threshold ← pending_len a; drop_down_to config offenders previous threshold pending
           end)
    (λ pending' p', trimmed p p' ∧ counted p' pending' ∧ (∀ c, c ∉ offenders → tp_pending p' !! c = tp_pending p !! c) ∧
      (∀ c, c ∈ offenders → AccountSlots config < plen p' c) ∧ (GlobalSlots config < pending' → ∀ c, c ∈ offenders → plen p' c = n)) p.
Proof.
  intros Hinv Hcnt Hnd Ha Hn Hslots Hlev. pose proof (co_accountSlots _ Hconfig).
  destruct (last offenders) as [previous|] eqn:Hlast.
  2: { apply last_None in Hlast. subst offenders. wp_steps. split_and!; [by apply trimmed_refl|done|done|by inversion 1|by inversion 2]. }
  assert (previous ∈ offenders) as Hin by (apply last_Some_elem_of; done).
  destruct Hlev as [Hlev Hmost]; [intros ->; inversion Hin|]. destruct (plen_present p a ltac:(lia)) as (l & Hl & _).
  wp_step. eapply returns_mono; [by eapply pending_len_ok|]. intros ? ? [-> ->]. rewrite Hn.
  eapply returns_mono; [apply (drop_down_to_ok offenders previous n pending level p); try done; lia|].
  intros pending' p' (level' & [Ht Hc Hl' Ho] & Hb & Hor). split_and!; [done..| |].
  - intros c Hc'. rewrite Hl' by done. lia.
  - intros Hbig c Hc'. rewrite Hl' by done. lia.
Qed.
Lemma equalized_perm candidates candidates' offenders pending p p' : candidates ≡ₚ candidates' →
  equalized candidates offenders pending p p' → equalized candidates' offenders pending p p'.
Proof.
  intros Hp [Ht Hc Hnd Hfrom Hoth Hsl Hdone]. assert (∀ c, c ∈ candidates' ↔ c ∈ candidates) as Hin by (intros c; by rewrite Hp).
  split; [done..| | | |]; setoid_rewrite Hin; done.
Qed.
Lemma equalize_ok fuel spammers offenders pending level p :
  inv [] None p → counted p pending → waiting spammers offenders p → (∀ c, c ∈ offenders → AccountSlots config < plen p c) →
  (GlobalSlots config < pending → offenders ≠ [] → level_ok spammers offenders level p) →
  (length spammers ≤ fuel)%nat →
  returns (equalize config fuel spammers offenders pending) (λ r p', equalized (offenders ++ spammers.*1) r.1 r.2 p p') p.
Proof.
  revert spammers offenders pending level p. induction fuel as [|fuel IH]; intros spammers offenders pending level p Hinv Hcnt Hw Hslots Hlev Hfuel; cbn [equalize].
  all: destruct (Z.ltb_spec (GlobalSlots config) pending) as [Hbig|Hsmall]; cbn [negb orb];
    [|wp_steps; apply equalized_stop; auto].
  all: case_bool_decide as Hnil.
  1,3: wp_steps; apply equalized_stop; [done..|right; split; [done|]]; destruct offenders as [|o ?]; [exists 0; by inversion 1|];
    exists level; apply Hlev; done.
  { by destruct spammers; cbn in Hfuel; [|lia]. }
  destruct Hw as [Hh Hf Hnd Hlen]. destruct (Pop_spammers (E := pool_error) spammers Hh Hf Hnil) as ([a n] & rest & Hpop & Hp & Hhr & Hmost).
  rewrite Hpop. wp_steps. destruct (Hlen a n) as [Ha Hn]; [rewrite Hp; by left|].
  assert ((a ∉ offenders) ∧ NoDup offenders) as [Hao Hnd'].
  { apply NoDup_app in Hnd as (? & Hout & _). split; [|done]. intros Hin. apply (Hout a Hin). apply list_elem_of_fmap. exists (a, n).
    split; [done|]. rewrite Hp. by left. }
  eapply returns_mono; [apply (level_previous_ok offenders pending level p a n); [done..|]|].
  { intros Hne. destruct (Hlev Hbig Hne) as [? _ Hmo]. split; [done|]. apply (Hmo a). rewrite Hp. by left. }
  intros pending1 p1 (Ht1 & Hc1 & Ho1 & Hsl1 & Hl1).
  assert (offenders ++ spammers.*1 ≡ₚ (offenders ++ [a]) ++ rest.*1) as Hcand by by rewrite Hp, <- app_assoc.
  assert (∀ c, c ∉ offenders → plen p1 c = plen p c) as Hsame by (intros c Hc; unfold plen; by rewrite Ho1).
  eapply returns_mono; [apply (IH rest (offenders ++ [a]) pending1 n p1); [apply Ht1|done| | | |rewrite (Permutation_length Hp) in Hfuel; cbn in Hfuel; lia]|].
  - split; [done| | |].
    + intros x Hx. apply Hf. rewrite Hp. by right.
    + by rewrite <- Hcand.
    + intros c m Hc. destruct (Hlen c m) as [Hcm ?]; [rewrite Hp; by right|]. rewrite Hsame; [done|].
      intros Hin. apply NoDup_app in Hnd as (_ & Hout & _). apply (Hout c Hin). apply list_elem_of_fmap. exists (c, m). split; [done|].
      rewrite Hp. by right.
  - intros c [Hc| ->%list_elem_of_singleton]%elem_of_app; [by apply Hsl1|]. rewrite Hsame by done. lia.
  - intros Hbig1 _. split.
    + intros c [Hc| ->%list_elem_of_singleton]%elem_of_app; [by apply Hl1|]. by rewrite Hsame.
    + done.
    + intros c m Hc. apply (Hmost (c, m)). rewrite Hp. by right.
  - intros [offenders' pending'] p' He. apply (equalized_perm _ _ _ _ _ _ (symmetry Hcand)) in He.
    destruct He as [Ht2 Hc2 Hnd2 Hfrom2 Ho2 Hsl2 Hd2]. split; try done; [by eapply trimmed_trans|].
    intros c Hc. rewrite Ho2 by done. apply Ho1. intros Hin. apply Hc, elem_of_app. by left.
Qed.

(** ** The limit *)
Lemma total_len_ok m : total_len m = wrap64 (Z.of_nat (length (txs_of m))).
Proof.
  assert (∀ (l : list (Address * txList)) n, is_u64 n →
    foldl (λ n kv, (n + list_Len kv.2)%u64) n l = wrap64 (n + Z.of_nat (length (concat ((λ kv, list_txs kv.2) <$> l))))) as Hfold.
  { induction l as [|kv l IH]; intros n Hn; cbn; [by rewrite Z.add_0_r, wrap64_id|]. rewrite IH by auto with go. unfold u64_add.
    rewrite wrap64_add_l, length_app, <- (list_txs_length kv.2). f_equal. lia. }
  unfold total_len. rewrite Hfold by done. f_equal. rewrite Z.add_0_l. f_equal. unfold txs_of. apply Permutation_length.
  by rewrite map_range_perm.
Qed.
Definition spam (p : TxPool S) (kv : Address * txList) : bool :=
  negb (contains (tp_locals p) kv.1) && (AccountSlots config <? list_Len kv.2).
Definition spammers_of p (l : list (Address * txList)) (acc : list (Address * Z)) : list (Address * Z) :=
  foldl (λ spammers kv, if spam p kv then Push prio_less spammers (kv.1, list_Len kv.2) else spammers) acc l.
Lemma spammers_of_ok p l acc : heap longer acc → priorities_fit acc → (∀ kv, kv ∈ l → list_Len kv.2 < 9223372036854775808) →
  heap longer (spammers_of p l acc) ∧ priorities_fit (spammers_of p l acc) ∧
  spammers_of p l acc ≡ₚ ((λ kv, (kv.1, list_Len kv.2)) <$> filter (λ kv, spam p kv = true) l) ++ acc.
Proof.
  revert acc. induction l as [|kv l IH]; intros acc Hh Hf Hl; [done|]. cbn [spammers_of foldl]. rewrite filter_cons.
  assert (∀ kv, kv ∈ l → list_Len kv.2 < 9223372036854775808) as Hl' by (intros kv' Hin; apply Hl; by right).
  destruct (spam p kv) eqn:Hs; [rewrite decide_True by done|rewrite decide_False by done; by apply IH].
  assert (priorities_fit ((kv.1, list_Len kv.2) :: acc)) as Hf'.
  { intros x [->|Hx]%elem_of_cons; [|by apply Hf]. cbn. split; [rewrite <- list_txs_length; lia|apply Hl; by left]. }
  rewrite (Push_ext prio_less longer) by by apply prio_less_fit.
  destruct (Push_ok longer acc (kv.1, list_Len kv.2) Hh) as [Hh2 Hp2].
  destruct (IH _ Hh2) as (Hh3 & Hf3 & Hp3); [intros x; rewrite Hp2; apply Hf'|done|]. split_and!; [done..|].
  rewrite Hp3, Hp2. cbn. solve_Permutation.
Qed.

(** Fewer transactions than an [int] can count. *)
Definition small p : Prop := Z.of_nat (size (tp_all p)) < 9223372036854775808.
Lemma inv_counts p : inv [] None p → Z.of_nat (size (tp_all p)) = total p + Z.of_nat (length (txs_of (tp_queue p))).
Proof. intros Hinv. rewrite (content_size _ _ _ (pi_content _ _ _ _ _ _ _ _ Hinv)), !length_app. unfold total. cbn. lia. Qed.
Lemma list_le_total p a l : tp_pending p !! a = Some l → list_Len l ≤ total p.
Proof. intros Ha. unfold total. rewrite <- (txs_of_delete _ _ _ Ha), length_app, <- list_txs_length. lia. Qed.

Lemma small_shrinks p p' : shrinks p p' → small p → small p'.
Proof. intros [_ Hall] Hs. unfold small in *. apply map_subseteq_size in Hall. lia. Qed.
Lemma total_wrap p : inv [] None p → small p → wrap64 (total p) = total p.
Proof. intros Hinv Hs. apply inv_counts in Hinv. unfold small in Hs. apply wrap64_id. unfold is_u64, u64_modulus, total in *. lia. Qed.

Record pending_limited p p' : Prop := {
  pl_trimmed : trimmed p p';
  pl_locals a : a ∈ asAccounts (tp_locals p) → tp_pending p' !! a = tp_pending p !! a;
  pl_slots a : Z.min (plen p a) (AccountSlots config) ≤ plen p' a;
  pl_limit : total p' ≤ GlobalSlots config ∨ ∀ a, a ∉ asAccounts (tp_locals p) → plen p' a ≤ AccountSlots config
}.
Lemma spammers_waiting p : inv [] None p → small p → let spammers := spammers_of p (map_range (tp_pending p)) [] in
  waiting spammers [] p ∧ ∀ a, a ∈ spammers.*1 ↔ (a ∉ asAccounts (tp_locals p)) ∧ AccountSlots config < plen p a.
Proof.
  intros Hinv Hsmall spammers. pose proof (inv_counts p Hinv) as Hcount. unfold small in Hsmall.
  assert (∀ a l, (a, l) ∈ map_range (tp_pending p) ↔ tp_pending p !! a = Some l) as Hrange by (intros a l; apply elem_of_range).
  destruct (spammers_of_ok p (map_range (tp_pending p)) []) as (Hh & Hf & Hp).
  { intros k Hk. cbn in Hk. lia. }
  { by intros x Hx; inversion Hx. }
  { intros [a l] Hal%Hrange. pose proof (list_le_total p a l Hal). cbn. lia. }
  fold spammers in Hh, Hf, Hp. rewrite app_nil_r in Hp.
  assert (∀ a n, (a, n) ∈ spammers ↔ ∃ l, tp_pending p !! a = Some l ∧ n = list_Len l ∧ (a ∉ asAccounts (tp_locals p)) ∧ AccountSlots config < n) as Hin.
  { intros a n. rewrite Hp, list_elem_of_fmap. unfold spam, contains. split.
    - intros ([c l] & [= -> ->] & [Hs Hcl%Hrange]%list_elem_of_filter). cbn in Hs. apply andb_true_iff in Hs as [Hs Hlt].
      apply negb_true_iff, bool_decide_eq_false in Hs. apply Z.ltb_lt in Hlt. by exists l.
    - intros (l & Hl & -> & Hnl & Hlt). exists (a, l). split; [done|]. apply list_elem_of_filter. split; [|by apply Hrange].
      cbn. rewrite bool_decide_false by done. by apply Z.ltb_lt in Hlt as ->. }
  split.
  - split; [done|done| |].
    + cbn. rewrite Hp, <- list_fmap_compose. apply (sublist_NoDup _ ((map_range (tp_pending p)).*1)); [apply range_keys_NoDup|].
      apply (fmap_sublist fst). apply sublist_filter.
    + intros a n (l & Hl & -> & _ & Hlt)%Hin. split; [|done]. unfold plen. by rewrite Hl.
  - intros a. rewrite list_elem_of_fmap. split.
    + intros ([? n] & -> & (l & Hl & -> & Hnl & Hlt)%Hin). cbn. split; [done|]. unfold plen. by rewrite Hl.
    + intros [Hnl Hlt]. destruct (plen_present p a) as (l & Hl & Hlen); [pose proof (co_accountSlots _ Hconfig); lia|].
      exists (a, plen p a). split; [done|]. apply Hin. by exists l.
Qed.
Lemma drop_down_to_small offenders last threshold pending p : pending ≤ GlobalSlots config →
  returns (drop_down_to config offenders last threshold pending) (λ _ p', p' = p) p.
Proof.
  intros Hle. unfold drop_down_to. do 2 wp_step. destruct (default _ _); cbn [drop_rounds]; destruct (Z.ltb_spec (GlobalSlots config) pending); lia || by wp_steps.
Qed.
Lemma limit_pending_ok p : inv [] None p → small p → returns (limit_pending config) (λ _ p', pending_limited p p') p.
Proof.
  intros Hinv Hsmall. pose proof (spammers_waiting p Hinv Hsmall) as [Hw Hin].
  unfold limit_pending. do 2 wp_step. change (foldl _ [] (map_range (tp_pending p))) with (spammers_of p (map_range (tp_pending p)) []).
  rewrite total_len_ok. change (Z.of_nat (length (txs_of (tp_pending p)))) with (total p).
  rewrite total_wrap by done. destruct (Z.ltb_spec (GlobalSlots config) (total p)) as [Hbig|Hle]; cbn [negb].
  2: { wp_steps. split; [by apply trimmed_refl|done|lia|by left]. }
  set (spammers := spammers_of p (map_range (tp_pending p)) []) in *.
  wp_step. eapply returns_mono; [apply (equalize_ok (length spammers) spammers [] (total p) 0 p); [done|by unfold counted; rewrite total_wrap|done|by inversion 1|by intros|done]|].
  intros [offenders pending1] p1 [Ht1 Hc1 Hnd1 Hfrom1 Ho1 Hsl1 Hd1]. cbn [fst snd app] in *.
  assert (∀ a, plen p1 a = plen p a ∨ AccountSlots config < plen p1 a) as Hslots.
  { intros a. destruct (decide (a ∈ spammers.*1)) as [Ha|Ha]; [right; by apply Hsl1|left]. unfold plen. by rewrite Ho1. }
  assert (small p1) as Hsmall1 by (eapply small_shrinks; [apply Ht1|done]).
  unfold counted in Hc1. rewrite total_wrap in Hc1 by (done || apply Ht1). subst pending1.
  destruct (decide (total p1 ≤ GlobalSlots config)) as [Hsm|Hbig1].
  - assert (pending_limited p p1) as Hpl.
    { split; [done| | |by left].
      - intros a Ha. apply Ho1. rewrite Hin. by intros [? _].
      - intros a. destruct (Hslots a); lia. }
    destruct (last offenders); [|by wp_steps]. wp_step. eapply returns_mono; [by apply drop_down_to_small|]. intros ? ? ->. by wp_steps.
  - destruct Hd1 as [?|[Hall [level Hlevel]]]; [lia|].
    destruct (last offenders) as [previous|] eqn:Hlast.
    + assert (previous ∈ offenders) as Hprev by by apply last_Some_elem_of.
      assert (AccountSlots config < level) as Hlv by (rewrite <- (Hlevel previous) by done; by apply Hsl1, Hfrom1).
      pose proof (co_accountSlots _ Hconfig). wp_step.
      eapply returns_mono; [apply (drop_down_to_ok offenders previous (AccountSlots config) (total p1) level p1); try done|].
      { apply Ht1. } { unfold counted. by rewrite total_wrap by (done || apply Ht1). } { lia. }
      intros pending2 p2 (level' & [Ht2 Hc2 Hl2 Ho2] & Hb & Hor). wp_steps.
      unfold counted in Hc2. rewrite total_wrap in Hc2; [|apply Ht2|eapply small_shrinks; [apply Ht2|done]]. subst pending2.
      assert (∀ a, a ∉ spammers.*1 → tp_pending p2 !! a = tp_pending p !! a) as Hkeep.
      { intros a Ha. rewrite Ho2; [by apply Ho1|]. by intros ?%Hfrom1. }
      split; [by eapply trimmed_trans| | |].
      * intros a Ha. apply Hkeep. rewrite Hin. by intros [? _].
      * intros a. destruct (decide (a ∈ spammers.*1)) as [Ha|Ha]; [rewrite Hl2 by (by apply Hall); lia|]. unfold plen. rewrite Hkeep by done. lia.
      * destruct Hor as [?|Hl']; [by left|right]. intros a Ha. destruct (decide (a ∈ spammers.*1)) as [Hs|Hs]; [rewrite Hl2 by (by apply Hall); lia|].
        unfold plen. rewrite Hkeep by done. fold (plen p a). destruct (decide (plen p a ≤ AccountSlots config)) as [|Hgt]; [done|].
        destruct Hs. apply Hin. split; [done|lia].
    + apply last_None in Hlast. subst offenders. wp_steps. split; [done| | |right].
      * intros a Ha. apply Ho1. rewrite Hin. by intros [? _].
      * intros a. destruct (Hslots a); lia.
      * intros a Ha. destruct (decide (a ∈ spammers.*1)) as [Hs|Hs]; [apply Hall in Hs; by inversion Hs|].
        unfold plen. rewrite Ho1 by done. fold (plen p a). destruct (decide (plen p a ≤ AccountSlots config)) as [|Hgt]; [done|].
        destruct Hs. apply Hin. split; [done|lia].
Qed.

(** * The queue *)
Definition qtotal p : Z := Z.of_nat (length (txs_of (tp_queue p))).
(** The accounts [emptied] may have lost queued transactions, the pending ones
    are as they were. *)
Record culled (accounts : list Address) p p' : Prop := {
  cu_inv : inv [] None p';
  cu_shrinks : shrinks p p';
  cu_pending : tp_pending p' = tp_pending p;
  cu_others c : c ∉ accounts → tp_queue p' !! c = tp_queue p !! c;
  cu_sub tx : tx ∈ txs_of (tp_queue p') → tx ∈ txs_of (tp_queue p)
}.
Lemma culled_refl accounts p : inv [] None p → culled accounts p p.
Proof. by split. Qed.
Lemma culled_trans accounts p1 p2 p3 : culled accounts p1 p2 → culled accounts p2 p3 → culled accounts p1 p3.
Proof.
  intros [_ Hs1 Hp1 Ho1 Hq1] [Hi2 Hs2 Hp2 Ho2 Hq2].
  split; [done|by eapply shrinks_trans|congruence|intros c Hc; rewrite Ho2 by done; by apply Ho1|intros tx Htx; by apply Hq1, Hq2].
Qed.
Lemma culled_mono accounts accounts' p p' : (∀ c, c ∈ accounts → c ∈ accounts') → culled accounts p p' → culled accounts' p p'.
Proof. intros Hsub [Hi Hs Hp Ho Hq]. split; try done. intros c Hc. apply Ho. by intros ?%Hsub. Qed.

(** Removing a queued transaction of [a]. *)
Lemma remove_one_ok tx a l p : inv [] None p → sent tx a → txs_of (tp_queue p) ≡ₚ tx :: l →
  returns (removeTx config signer (rlpHash_tx tx) true) (λ _ p', culled [a] p p' ∧ txs_of (tp_queue p') ≡ₚ l) p.
Proof.
  intros Hinv Ha Hq. assert (tx ∈ txs_of (tp_queue p)) as Hin by (rewrite Hq; by left).
  assert (tp_all p !! rlpHash_tx tx = Some tx) as Hknown.
  { eapply content_known; [apply Hinv|]. rewrite !elem_of_app. tauto. }
  eapply returns_mono; [by apply (removeTx_known config signer w maxGas head_ok gone tx a)|].
  intros _ p' (Hi & Hal & Hlo & Ho & _ & Hqueue). destruct (Hqueue Hin) as [Hp Hperm]. split.
  - split; [done|split; [done|rewrite Hal; apply delete_subseteq]|done| |].
    + intros c Hc. apply Ho. intros ->. apply Hc. by left.
    + intros x Hx. rewrite <- Hperm. by right.
  - apply (Permutation_cons_inv (a := tx)). by rewrite Hperm, Hq.
Qed.
Lemma remove_each_ok l rest a p : inv [] None p → (∀ tx, tx ∈ l → sent tx a) → txs_of (tp_queue p) ≡ₚ l ++ rest →
  returns (for_each l (λ tx, removeTx config signer (rlpHash_tx tx) true)) (λ _ p', culled [a] p p' ∧ txs_of (tp_queue p') ≡ₚ rest) p.
Proof.
  intros Hinv Hsent Hq. eapply returns_mono;
    [apply (returns_for_each (λ l p', culled [a] p p' ∧ (∀ tx, tx ∈ l → sent tx a) ∧ txs_of (tp_queue p') ≡ₚ l ++ rest))|].
  - split_and!; [by apply culled_refl|done|done].
  - intros tx l' p' (Hc & Hs & Hq'). eapply returns_mono; [apply (remove_one_ok tx a (l' ++ rest)); [apply Hc|apply Hs; by left|done]|].
    intros _ p2 [Hc2 Hq2]. split_and!; [by eapply culled_trans|intros x Hx; apply Hs; by right|done].
  - by intros [] p' (? & _ & ?).
Qed.
Lemma remove_first_ok l rest drop a p : inv [] None p → (∀ tx, tx ∈ l → sent tx a) → txs_of (tp_queue p) ≡ₚ l ++ rest → 0 ≤ drop < u64_modulus →
  returns (remove_first config signer l drop) (λ drop' p', culled [a] p p' ∧
    drop' = Z.max 0 (drop - Z.of_nat (length l)) ∧ qtotal p - qtotal p' = drop - drop') p.
Proof.
  unfold remove_first. revert rest drop p. induction l as [|tx l IH]; intros rest drop p Hinv Hsent Hq Hdrop; cbn [for_acc].
  { wp_steps. split_and!; [by apply culled_refl|cbn; lia|lia]. }
  wp_step. destruct (Z.ltb_spec 0 drop) as [Hpos|Hzero].
  - wp_step. eapply returns_mono; [apply (remove_one_ok tx a (l ++ rest)); [done|apply Hsent; by left|done]|]. intros _ p1 [Hc1 Hq1]. wp_steps.
    rewrite u64_sub_id by (unfold is_u64; lia).
    eapply returns_mono; [apply (IH rest (drop - 1) p1); [apply Hc1|intros x Hx; apply Hsent; by right|done|lia]|].
    intros drop' p2 (Hc2 & -> & Hd2). split_and!; [by eapply culled_trans|cbn; lia|].
    unfold qtotal in *. rewrite Hq1 in Hd2. rewrite Hq. cbn [app length]. lia.
  - wp_steps. assert (drop = 0) as -> by lia.
    eapply returns_mono; [apply (IH (tx :: rest) 0 p); [done|intros x Hx; apply Hsent; by right|rewrite Hq; solve_Permutation|lia]|].
    intros drop' p2 (Hc2 & -> & Hd2). split_and!; [done|lia|lia].
Qed.

(** Reading the list of an account. *)
Lemma flatten_ok a l p : inv [] None p → tp_queue p !! a = Some l →
  returns (on_queue a flatten) (λ out p', out = list_txs l ∧ culled [a] p p' ∧ tp_queue p' !! a = Some (list_Flatten l).2 ∧
    list_txs (list_Flatten l).2 ≡ₚ list_txs l ∧ txs_of (tp_queue p') ≡ₚ txs_of (tp_queue p)) p.
Proof.
  intros Hinv Ha. assert (list_ok l) as Hl by by eapply queue_list_ok. destruct (Flatten_moved l Hl) as [Hm Hflat].
  eapply returns_mono; [eapply on_queue_ok; [exact Hinv|exact Ha|unfold flatten; by rewrite (surjective_pairing (list_Flatten l))|exact Hm]|].
  intros ? p' (-> & -> & Hi). pose proof (txs_of_moved _ _ _ _ _ Ha Hm) as Hq. cbn in Hq. split_and!; [done| |apply lookup_insert_eq|by rewrite <- (mv_perm _ _ _ Hm)|done].
  split; [done|done|done| |].
  - intros c Hc. cbn. rewrite lookup_insert_ne; [done|]. intros ->. apply Hc. by left.
  - intros tx. cbn. by rewrite Hq.
Qed.
Lemma queue_sent a l p tx : inv [] None p → tp_queue p !! a = Some l → tx ∈ list_txs l → sent tx a.
Proof. intros Hinv. apply (lw_sent _ _ _ _ (pi_queue _ _ _ _ _ _ _ _ Hinv)). Qed.

Lemma drop_queued_zero addresses p : returns (drop_queued config signer addresses 0) (λ _ p', p' = p) p.
Proof. destruct addresses; cbn [drop_queued]; by wp_steps. Qed.
(** Without the transactions of [a] the list of [a] is empty. *)
Lemma emptied a (m : gmap Address txList) p : inv [] None p → txs_of (tp_queue p) ≡ₚ txs_of (delete a m) → lists_wf signer false (λ _, False) m →
  ∀ l, tp_queue p !! a = Some l → list_txs l = [].
Proof.
  intros Hinv Hq Hm l Hl. destruct (list_txs l) as [|tx rest] eqn:Htxs; [done|exfalso].
  assert (tx ∈ list_txs l) as Hin by (rewrite Htxs; by left). pose proof (queue_sent a l p tx Hinv Hl Hin) as Ha.
  assert (tx ∈ txs_of (delete a m)) as (c & lc & [Hne Hc]%lookup_delete_Some & Htx)%elem_of_txs_of
    by (rewrite <- Hq; apply elem_of_txs_of; by exists a, l).
  pose proof (lw_sent _ _ _ _ Hm c lc tx Hc Htx). unfold TxPoolInv.sent in *. congruence.
Qed.
(** Accounts lose their queue, in order, until enough is dropped. *)
Lemma drop_queued_ok addresses drop p : inv [] None p → NoDup addresses → (∀ a, a ∈ addresses → is_Some (tp_queue p !! a)) → is_u64 drop →
  returns (drop_queued config signer addresses drop) (λ _ p', culled addresses p p' ∧
    (qtotal p - qtotal p' = drop ∨ qtotal p - qtotal p' < drop ∧ ∀ a l, a ∈ addresses → tp_queue p' !! a = Some l → list_txs l = [])) p.
Proof.
  revert drop p. induction addresses as [|a addresses IH]; intros drop p Hinv Hnd Hsome Hu; cbn [drop_queued].
  { wp_steps. split; [by apply culled_refl|]. destruct (decide (drop = 0)); [left; lia|right]. split; [unfold is_u64 in Hu; lia|by inversion 1]. }
  destruct (Z.ltb_spec 0 drop) as [Hpos|Hzero]; cbn [negb].
  2: { wp_steps. split; [by apply culled_refl|]. left. unfold is_u64 in Hu. lia. }
  apply NoDup_cons in Hnd as [Ha Hnd]. destruct (Hsome a) as [l Hl]; [by left|].
  wp_step. eapply returns_mono; [by apply flatten_ok|]. intros ? p1 (-> & Hc1 & Hl1 & Hsame & Hq1).
  assert (txs_of (tp_queue p1) ≡ₚ list_txs l ++ txs_of (delete a (tp_queue p1))) as Hsplit by by rewrite <- (txs_of_delete _ _ _ Hl1), Hsame.
  assert (qtotal p1 = qtotal p) as Htot by (unfold qtotal; by rewrite Hq1).
  assert (∀ tx, tx ∈ list_txs l → sent tx a) as Hsent by (intros tx Htx; by eapply queue_sent).
  destruct (Z.leb_spec (Z.of_nat (length (list_txs l))) drop) as [Hle|Hgt].
  - wp_step. eapply returns_mono; [apply (remove_each_ok (list_txs l) (txs_of (delete a (tp_queue p1))) a p1); [apply Hc1|done|done]|].
    intros _ p2 [Hc2 Hq2]. assert (culled [a] p p2) as Hc02 by by eapply culled_trans.
    assert (qtotal p2 = qtotal p - Z.of_nat (length (list_txs l))) as Htot2.
    { rewrite <- Htot. unfold qtotal. rewrite Hsplit, Hq2, length_app. lia. }
    unfold is_u64 in Hu. rewrite u64_sub_id by (unfold is_u64; lia).
    eapply returns_mono; [apply (IH (drop - Z.of_nat (length (list_txs l))) p2); [apply Hc2|done| |unfold is_u64; lia]|].
    { intros b Hb. rewrite (cu_others _ _ _ Hc02); [apply Hsome; by right|]. intros ->%list_elem_of_singleton. done. }
    intros _ p3 [Hc3 Hor]. split; [|destruct Hor as [Heq|[Hlt Hempty]]; [left; lia|right; split; [lia|]]].
    + eapply culled_trans; [eapply culled_mono; [|exact Hc02]|eapply culled_mono; [|exact Hc3]];
        [intros c ->%list_elem_of_singleton; by left|intros c Hc; by right].
    + intros b lb [->|Hb]%elem_of_cons; [|by apply Hempty]. rewrite (cu_others _ _ _ Hc3) by done.
      apply (emptied a (tp_queue p1) p2); [apply Hc2|done|apply Hc1].
  - wp_step. unfold is_u64 in Hu. eapply returns_mono; [apply (remove_first_ok (reverse (list_txs l)) (txs_of (delete a (tp_queue p1))) drop a p1)|].
    { apply Hc1. } { intros tx Htx. apply Hsent. by rewrite elem_of_reverse in Htx. } { by rewrite Hsplit, reverse_Permutation. } { lia. }
    intros drop' p2 (Hc2 & Hd' & Hd). rewrite length_reverse in Hd'. assert (drop' = 0) as -> by lia.
    eapply returns_mono; [apply drop_queued_zero|]. intros _ p3 ->. split; [|left; lia].
    eapply culled_mono; [|by eapply culled_trans]. intros c ->%list_elem_of_singleton. by left.
Qed.

Lemma heartbeat_order_perm (f : Address → Z) ks : reverse (fst <$> addressesByHeartbeat ((λ a, (a, f a)) <$> ks)) ≡ₚ ks.
Proof.
  rewrite reverse_Permutation. unfold addressesByHeartbeat. rewrite merge_sort_Permutation, <- list_fmap_compose.
  by rewrite (list_fmap_ext _ id), list_fmap_id.
Qed.
Record queue_limited p p' : Prop := {
  ql_inv : inv [] None p';
  ql_shrinks : shrinks p p';
  ql_pending : tp_pending p' = tp_pending p;
  ql_locals a : a ∈ asAccounts (tp_locals p) → tp_queue p' !! a = tp_queue p !! a;
  ql_sub tx : tx ∈ txs_of (tp_queue p') → tx ∈ txs_of (tp_queue p);
  ql_limit : qtotal p' ≤ GlobalQueue config ∨ ∀ a l, a ∉ asAccounts (tp_locals p) → tp_queue p' !! a = Some l → list_txs l = []
}.
Lemma qtotal_wrap p : inv [] None p → small p → wrap64 (qtotal p) = qtotal p.
Proof. intros Hinv Hs. apply inv_counts in Hinv. unfold small in Hs. apply wrap64_id. unfold is_u64, u64_modulus, total, qtotal in *. lia. Qed.
Lemma limit_queue_ok p : inv [] None p → small p → returns (limit_queue config signer) (λ _ p', queue_limited p p') p.
Proof.
  intros Hinv Hsmall. unfold limit_queue. do 2 wp_step. rewrite total_len_ok. change (Z.of_nat (length (txs_of (tp_queue p)))) with (qtotal p).
  rewrite qtotal_wrap by done. destruct (Z.ltb_spec (GlobalQueue config) (qtotal p)) as [Hbig|Hle]; cbn [negb].
  2: { wp_steps. split; try done. by left. }
  set (ks := filter (λ a, contains (tp_locals p) a = false) (fst <$> map_range (tp_queue p))).
  pose proof (heartbeat_order_perm (λ a, default 0 (tp_beats p !! a)) ks) as Hperm. cbv zeta. set (addresses := reverse _) in *.
  assert (∀ a, a ∈ addresses ↔ (a ∉ asAccounts (tp_locals p)) ∧ is_Some (tp_queue p !! a)) as Hin.
  { intros a. rewrite Hperm. unfold ks. rewrite list_elem_of_filter, elem_of_range_keys. unfold contains. by rewrite bool_decide_eq_false. }
  assert (0 ≤ qtotal p - GlobalQueue config < u64_modulus) as Hu.
  { pose proof (inv_counts p Hinv). pose proof (co_globalQueue _ Hconfig). unfold small, total, qtotal, u64_modulus in *. lia. }
  rewrite u64_sub_id by done.
  eapply returns_mono; [apply (drop_queued_ok addresses); [done| |by intros a [_ ?]%Hin|done]|].
  { rewrite Hperm. apply NoDup_filter, range_keys_NoDup. }
  intros _ p' [[Hi Hs Hp Ho Hq] Hor]. split; try done.
  - intros a Ha. apply Ho. rewrite Hin. by intros [? _].
  - destruct Hor as [Heq|[_ Hempty]]; [left; lia|right]. intros a l Ha Hl.
    destruct (decide (a ∈ addresses)) as [Hadr|Hadr]; [by eapply Hempty|]. rewrite Ho in Hl by done.
    destruct Hadr. apply Hin. split; [done|by eexists].
Qed.
End limits.
