(* ===== verification/TxPoolAdd.v ===== *)
(** Adding transactions: what is validated, what makes room in a full pool, and
    that a transaction that is accepted is in the pool at its slot. *)
From S2P Require Import Prelude Types Sealing Blocks Transition TxSigning Heap TxList TxListRuns TxPriced ManagedState Hoare TxPool TxPoolInv TxPoolOps TxPoolPromote TxPoolLimits.

Section adding.
Context `{Crypto} `{TxCrypto} `{!Inj (=) (=) rlpHash_tx} `{MapRange} `{TxSize} {S : Type} `{VMStateLaws S} `{StateCopy S}.
Variables (config : TxPoolConfig) (signer : Signer) (now : Z).
Variables (w : World) (maxGas : Z) (head_ok : option Block → Prop).
Hypothesis Hconfig : config_ok config.
Implicit Types p : TxPool S.
Abbreviation inv := (pool_inv signer w maxGas head_ok []).
Abbreviation inv_but gone := (pool_inv signer w maxGas head_ok gone).
Abbreviation sent := (sent signer).
Abbreviation payable := (payable w maxGas).

(** Of a transaction from outside: its nonce is a machine integer, and deriving
    its sender does not panic. *)
Definition tx_ok (tx : Transaction) : Prop := is_u64 (AccountNonce tx) ∧ ∀ q, Signer_Sender signer tx ≠ Panic q.

Lemma gone_nil all l : priced_but [] all l ↔ priced_ok all l.
Proof. unfold priced_but. by rewrite map_filter_id by (intros ? ? _ Hin; inversion Hin). Qed.
Lemma inv_gone gone limbo open p : pool_inv signer w maxGas head_ok gone limbo open p →
  priced_ok (tp_all p) (tp_priced p) → inv limbo open p.
Proof. intros [Hp Hq Hc Hpr He Hsg Hst Hps Hmg Hhd] Hok. split; try done. by apply gone_nil. Qed.

(** ** Validation *)
Lemma IntrinsicGas_total data create q : IntrinsicGas data create ≠ Panic q.
Proof. unfold IntrinsicGas. destruct data; [done|]. destruct (_ <? _); [done|]. by destruct (_ <? _). Qed.

(** What a transaction that passes has shown. *)
Record validated (local : bool) (tx : Transaction) (a : Address) p : Prop := {
  va_sent : sent tx a;
  va_payable : payable a tx;
  va_price : local || contains (tp_locals p) a = true ∨ tp_gasPrice p ≤ Price tx;
  va_size : tx_Size tx ≤ 32 * 1024;
  va_amount : 0 ≤ Amount tx;
  va_intrinsic : ∃ gas, IntrinsicGas (Payload tx) (bool_decide (Recipient tx = None)) = Ok gas ∧ gas ≤ TxGasLimit tx
}.
Record unchanged p p' : Prop := { un_lists : same_lists p p'; un_all : tp_all p' = tp_all p; un_priced : tp_priced p' = tp_priced p; un_price : tp_gasPrice p' = tp_gasPrice p }.
Lemma unchanged_refl p : unchanged p p.
Proof. by split. Qed.
Lemma unchanged_trans p1 p2 p3 : unchanged p1 p2 → unchanged p2 p3 → unchanged p1 p3.
Proof. intros [? ? ? ?] [? ? ? ?]. split; [by eapply same_lists_trans|congruence..]. Qed.
Lemma nonce_unchanged limbo open a p : inv limbo open p →
  returns (current_nonce a) (λ n p', n = w_nonce w a ∧ inv limbo open p' ∧ unchanged p p') p.
Proof.
  intros Hinv. eapply returns_mono; [apply returns_and; [by apply current_nonce_ok|apply (returns_and _ (λ _ p', tp_priced p' = tp_priced p) (λ _ p', tp_gasPrice p' = tp_gasPrice p))]|].
  1,2: unfold current_nonce; wp_steps; destruct (pi_state _ _ _ _ _ _ _ _ Hinv) as (s & -> & _); by destruct (vm_GetNonce a s).
  intros n p' ((-> & Hi & Hs & Ha) & Hpr & Hg). by split_and!.
Qed.
Lemma balance_unchanged limbo open a p : inv limbo open p →
  returns (current_balance a) (λ b p', b = w_balance w a ∧ inv limbo open p' ∧ unchanged p p') p.
Proof.
  intros Hinv. eapply returns_mono; [apply returns_and; [by apply current_balance_ok|apply (returns_and _ (λ _ p', tp_priced p' = tp_priced p) (λ _ p', tp_gasPrice p' = tp_gasPrice p))]|].
  1,2: unfold current_balance; wp_steps; destruct (pi_state _ _ _ _ _ _ _ _ Hinv) as (s & -> & _); by destruct (vm_GetBalance a s).
  intros n p' ((-> & Hi & Hs & Ha) & Hpr & Hg). by split_and!.
Qed.
Definition accepts_valid (local : bool) tx limbo open p (_ : unit) p' : Prop :=
  inv limbo open p' ∧ unchanged p p' ∧ ∃ a, validated local tx a p.
Definition rejects_invalid (local : bool) tx limbo open p (_ : pool_error) p' : Prop :=
  inv limbo open p' ∧ unchanged p p' ∧ ¬ ∃ a, validated local tx a p.
(** A check that fails. *)
Lemma check_fails local tx limbo open p p' e (P : Prop) : inv limbo open p' → unchanged p p' →
  (∀ a, validated local tx a p → P) → ¬ P → wp (throw e) (accepts_valid local tx limbo open p) (rejects_invalid local tx limbo open p) p'.
Proof. intros Hi Hu HP HnP. wp_steps. split_and!; [done..|]. intros [a Ha]. by apply HnP, (HP a). Qed.
Lemma validateTx_ok tx local limbo open p : inv limbo open p → tx_ok tx →
  wp (validateTx signer tx local) (accepts_valid local tx limbo open p) (rejects_invalid local tx limbo open p) p.
Proof.
  intros Hinv [_ Hpanic]. pose proof (unchanged_refl p) as Hu. unfold validateTx.
  destruct (Z.ltb_spec (32 * 1024) (tx_Size tx)) as [|Hsize]; [apply (check_fails _ _ _ _ _ _ _ (tx_Size tx ≤ 32 * 1024)); [done|done|by intros ? []|lia]|].
  destruct (Z.ltb_spec (Amount tx) 0) as [|Hamount]; [apply (check_fails _ _ _ _ _ _ _ (0 ≤ Amount tx)); [done|done|by intros ? []|lia]|].
  do 2 wp_step. rewrite (pi_maxGas _ _ _ _ _ _ _ _ Hinv).
  destruct (Z.ltb_spec maxGas (TxGasLimit tx)) as [|Hgas].
  { apply (check_fails _ _ _ _ _ _ _ (TxGasLimit tx ≤ maxGas)); [done|done|intros a Ha; apply Ha|lia]. }
  destruct (Signer_Sender signer tx) as [a|e|q] eqn:Ha; [| |by destruct (Hpanic q)].
  2: { apply (check_fails _ _ _ _ _ _ _ (∃ a, sent tx a)); [done|done|by intros a [? _ _ _ _ _]; exists a|].
       intros [a Hs]. unfold TxPoolInv.sent in Hs. congruence. }
  assert (∀ a', validated local tx a' p → a' = a) as Huniq by (intros a' [Hs _ _ _ _ _]; unfold TxPoolInv.sent in Hs; congruence).
  cbv zeta. destruct (negb (local || contains (tp_locals p) a) && (Price tx <? tp_gasPrice p)) eqn:Hprice.
  { apply andb_true_iff in Hprice as [Hl%negb_true_iff Hp%Z.ltb_lt].
    apply (check_fails _ _ _ _ _ _ _ (local || contains (tp_locals p) a = true ∨ tp_gasPrice p ≤ Price tx)); [done|done| |rewrite Hl; intros [|]; [done|lia]].
    intros a' Hv. by destruct (Huniq _ Hv), Hv. }
  wp_step. eapply returns_wp; [by apply nonce_unchanged|]. intros n p1 (-> & Hi1 & Hu1).
  destruct (Z.ltb_spec (AccountNonce tx) (w_nonce w a)) as [|Hnonce].
  { apply (check_fails _ _ _ _ _ _ _ (w_nonce w a ≤ AccountNonce tx)); [done|done| |lia]. intros a' Hv. destruct (Huniq _ Hv). apply Hv. }
  wp_step. eapply returns_wp; [by apply balance_unchanged|]. intros b p2 (-> & Hi2 & Hu2).
  assert (unchanged p p2) as Hu02 by by eapply unchanged_trans.
  destruct (Z.ltb_spec (w_balance w a) (Cost tx)) as [|Hcost].
  { apply (check_fails _ _ _ _ _ _ _ (Cost tx ≤ w_balance w a)); [done|done| |lia]. intros a' Hv. destruct (Huniq _ Hv). apply Hv. }
  destruct (IntrinsicGas (Payload tx) (bool_decide (Recipient tx = None))) as [gas|e|q] eqn:Hint; [| |by destruct (IntrinsicGas_total (Payload tx) (bool_decide (Recipient tx = None)) q)].
  2: { eapply (check_fails _ _ _ _ _ _ _ (∃ gas, _ ∧ gas ≤ TxGasLimit tx)); [done|done|intros a' Hv; apply Hv|]. rewrite Hint. by intros (? & ? & _). }
  destruct (Z.ltb_spec (TxGasLimit tx) gas) as [|Hgas'].
  { eapply (check_fails _ _ _ _ _ _ _ (∃ gas, _ ∧ gas ≤ TxGasLimit tx)); [done|done|intros a' Hv; apply Hv|]. rewrite Hint. intros (? & [= <-] & ?). lia. }
  wp_steps. split_and!; [done..|]. exists a. split; [done|done| |lia|lia|by exists gas].
  apply andb_false_iff in Hprice as [Hl%negb_false_iff|Hp%Z.ltb_ge]; [by left|by right].
Qed.
(** ** Making room *)
Definition grows_by tx p p' : Prop := tp_all p' ⊆ lookup_Add (tp_all p) tx.
Lemma entry_derivable limbo open p x : inv limbo open p → x ∈ pItems (tp_priced p) → derivable (tp_locals p) x.
Proof. intros Hinv Hx q. rewrite (pi_signer _ _ _ _ _ _ _ _ Hinv). destruct (pi_entries _ _ _ _ _ _ _ _ Hinv x Hx) as [a Ha]. congruence. Qed.
Lemma inv_priced gone limbo open p pl : inv limbo open p → priced_but gone (tp_all p) pl → (∀ x, x ∈ pItems pl → x ∈ pItems (tp_priced p)) →
  inv_but gone limbo open (set_all (tp_all p) pl p).
Proof. intros [Hp Hq Hc Hpr He Hsg Hst Hps Hmg Hhd] Hok Hin. split; cbn; try done. intros x Hx. by apply He, Hin. Qed.

(** Removing what the price heap has given up; an entry may come twice. *)
Lemma removeTx_unknown h ob p : tp_all p !! h = None → returns (removeTx config signer h ob) (λ _ p', p' = p) p.
Proof. intros Hh. unfold removeTx. do 2 wp_step. unfold lookup_Get. rewrite Hh. by wp_steps. Qed.
Lemma remove_gone_ok drop p : inv_but drop [] None p → (∀ tx, tx ∈ drop → tp_all p !! rlpHash_tx tx = Some tx) →
  returns (for_each drop (λ tx, removeTx config signer (rlpHash_tx tx) false))
    (λ _ p', inv [] None p' ∧ tp_locals p' = tp_locals p ∧ tp_all p' = filter (λ kv, kv.2 ∉ drop) (tp_all p)) p.
Proof.
  intros Hinv Hdrop. pose proof (inv_all_sent _ _ _ _ _ _ _ _ Hinv) as Hsent. eapply returns_mono;
    [apply (returns_for_each (λ l p', inv_but drop [] None p' ∧ tp_locals p' = tp_locals p ∧ (∀ tx, tx ∈ l → tx ∈ drop) ∧ tp_all p' ⊆ tp_all p ∧
      ∀ h x, tp_all p !! h = Some x → (x ∉ drop → tp_all p' !! h = Some x) ∧ (x ∈ drop → tp_all p' !! h = Some x → x ∈ l)))|].
  - by split_and!.
  - intros tx l p1 (Hi & Hlo & Hsub & Hle & Hall).
    pose proof (Hdrop tx (Hsub tx ltac:(by left))) as Hp. destruct (Hsent _ _ Hp) as [_ [a Ha]].
    destruct (tp_all p1 !! rlpHash_tx tx) as [x|] eqn:Hknown.
    + pose proof (lookup_weaken _ _ _ _ Hknown Hle) as Hx. assert (x = tx) as -> by congruence.
      eapply returns_mono; [by apply (removeTx_known config signer w maxGas head_ok drop tx a)|]. intros _ p2 (Hi2 & Hal2 & Hlo2 & _).
      split_and!; [done|congruence|intros x Hx'; apply Hsub; by right|rewrite Hal2; etrans; [apply delete_subseteq|done]|].
      intros h x Hh. destruct (Hsent _ _ Hh) as [-> _]. destruct (Hall _ x Hh) as [Hk Hg]. rewrite Hal2. split.
      * intros Hn. rewrite lookup_delete_ne; [by apply Hk|]. intros Heq%(inj rlpHash_tx). subst x. by apply Hn, Hsub; left.
      * intros Hd [Hne Hh']%lookup_delete_Some. specialize (Hg Hd Hh'). apply elem_of_cons in Hg as [->|?]; [by destruct Hne|done].
    + eapply returns_mono; [by apply removeTx_unknown|]. intros _ p2 ->. split_and!; [done|done|intros x Hx; apply Hsub; by right|done|].
      intros h x Hh. destruct (Hall h x Hh) as [Hk Hg]. split; [done|]. intros Hd Hh'. destruct (Hsent _ _ Hh) as [-> _].
      specialize (Hg Hd Hh'). apply elem_of_cons in Hg as [->|?]; [congruence|done].
  - intros [] p2 (Hi & Hlo & _ & Hle & Hall).
    assert (tp_all p2 = filter (λ kv, kv.2 ∉ drop) (tp_all p)) as Heq.
    { apply map_eq. intros h. apply option_eq. intros x. rewrite map_lookup_filter_Some. cbn. split.
      - intros Hx. pose proof (lookup_weaken _ _ _ _ Hx Hle) as Hx'. split; [done|]. intros Hd. destruct (Hall h x Hx') as [_ Hg]. by specialize (Hg Hd Hx); inversion Hg.
      - intros [Hx Hn]. by apply Hall. }
    split_and!; [|done|done]. apply (inv_gone drop); [done|]. pose proof (pi_priced _ _ _ _ _ _ _ _ Hi) as Hpr. unfold priced_but in Hpr.
    rewrite map_filter_id in Hpr; [done|]. intros h x Hx. cbn. rewrite Heq in Hx. by apply map_lookup_filter_Some in Hx as [_ ?].
Qed.

(** What a full pool does with a transaction from outside: it is refused when it
    offers no more than every transaction, and makes room for one otherwise. *)
Record made_room p p' : Prop := {
  mr_inv : inv [] None p';
  mr_shrinks : shrinks p p';
  mr_dropped x : tp_all p !! rlpHash_tx x = Some x → tp_all p' !! rlpHash_tx x = None →
    ¬ is_local (tp_locals p) x ∧ (∀ y, tp_all p' !! rlpHash_tx y = Some y → is_local (tp_locals p) y ∨ Price x ≤ Price y);
  mr_kept : pool_count p < pool_capacity config → p' = p
}.
Lemma capacity_id : pool_capacity config = GlobalSlots config + GlobalQueue config.
Proof. pose proof (co_globalSlots _ Hconfig). pose proof (co_globalQueue _ Hconfig). pose proof (co_capacity _ Hconfig).
  unfold pool_capacity. apply u64_add_id. unfold is_u64, u64_modulus. lia. Qed.
Lemma discard_count p : pool_capacity config ≤ pool_count p → 
  pool_count p - int64 (pool_capacity config - 1)%u64 = pool_count p - pool_capacity config + 1 ∧ 1 ≤ pool_count p - pool_capacity config + 1.
Proof.
  pose proof (co_globalSlots _ Hconfig). pose proof (co_globalQueue _ Hconfig). pose proof (co_capacity _ Hconfig).
  rewrite capacity_id. intros Hle. rewrite u64_sub_id by (unfold is_u64, u64_modulus; lia).
  rewrite int64_id by lia. lia.
Qed.
Lemma is_local_dec local x : derivable local x → is_local local x ∨ ¬ is_local local x.
Proof. intros Hd. destruct (containsTx_ok (E := pool_error) local x Hd) as ([] & _ & Hb); [left; by apply Hb|right; intros Hl; by apply Hb in Hl]. Qed.
Lemma make_room_ok tx local p : inv [] None p → tx_ok tx →
  wp (make_room config signer tx local) (λ _ p', made_room p p')
    (λ e p', e = ErrUnderpriced ∧ inv [] None p' ∧ same_lists p p' ∧ tp_all p' = tp_all p ∧ local = false ∧ pool_capacity config ≤ pool_count p ∧
      ∀ y, tp_all p !! rlpHash_tx y = Some y → Price tx ≤ Price y) p.
Proof.
  intros Hinv [_ Hpanic]. unfold make_room. do 2 wp_step. destruct (Z.ltb_spec (pool_count p) (pool_capacity config)) as [Hroom|Hfull].
  { wp_steps. split; [done|done| |done]. intros x Hx Hn. congruence. }
  assert (derivable (tp_locals p) tx) as Hd by (intros q; rewrite (pi_signer _ _ _ _ _ _ _ _ Hinv); apply Hpanic).
  wp_step. apply wp_mono with (Q := λ b p', inv [] None p' ∧ same_lists p p' ∧ tp_all p' = tp_all p ∧
      (b = true → local = false ∧ ∀ y, tp_all p !! rlpHash_tx y = Some y → Price tx ≤ Price y)) (R := λ _ _, False); [| |done].
  { destruct local; [by wp_steps|]. wp_step.
    destruct (Underpriced_exact (E := pool_error) (tp_all p) (tp_priced p) tx (tp_locals p)) as (b & pl & Hrun & Hok & Hb); [by apply gone_nil, Hinv|done|].
    rewrite Hrun. wp_steps. split_and!; [|done|done|].
    - apply inv_priced; [done|by apply gone_nil|]. intros x Hx. by eapply Underpriced_in.
    - intros (_ & _ & Hle)%Hb. split; [done|]. intros y Hy. by eapply Hle. }
  intros b p1 (Hi1 & [Hp1 Hq1 Hlo1] & Hal1 & Hb). destruct b.
  { wp_steps. destruct (Hb eq_refl). by split_and!. }
  clear Hb. do 2 wp_step. assert (pool_count p1 = pool_count p) as Hcount by (unfold pool_count; by rewrite Hal1).
  rewrite Hcount. destruct (discard_count p Hfull) as [-> Hpos].
  destruct (Discard_drops_cheapest (E := pool_error) (tp_all p1) (pool_count p - pool_capacity config + 1) (tp_locals p1) (tp_priced p1))
    as (drop & pl & Hrun & Hlen & Hdrop & Hcheap & Hfew & Hok); [by apply gone_nil, Hi1|lia|intros x Hx; by eapply entry_derivable|].
  rewrite Hrun. do 2 wp_step. wp_step.
  eapply returns_wp; [apply (remove_gone_ok drop)|].
  { apply inv_priced; [done|done|]. intros x Hx. by eapply Discard_in. }
  { intros x Hx. by apply Hdrop. }
  intros _ p2 (Hi2 & Hlo2 & Hal2). cbn in Hlo2, Hal2. rewrite Hal1 in *. rewrite Hlo1 in *.
  assert (∀ x, tp_all p2 !! rlpHash_tx x = Some x ↔ tp_all p !! rlpHash_tx x = Some x ∧ x ∉ drop) as Hafter.
  { intros x. rewrite Hal2, map_lookup_filter_Some. done. }
  split; [done|split; [done|rewrite Hal2; apply map_filter_subseteq]| |lia].
  intros x Hx Hn. assert (x ∈ drop) as Hin.
  { destruct (decide (x ∈ drop)) as [|Hn']; [done|]. assert (tp_all p2 !! rlpHash_tx x = Some x) by (by apply Hafter). congruence. }
  split; [by apply Hdrop|]. intros y [Hy Hny]%Hafter.
  destruct (is_local_dec (tp_locals p) y) as [|Hrem]; [|by left|right; by eapply Hcheap].
  intros q. rewrite (pi_signer _ _ _ _ _ _ _ _ Hinv). destruct (inv_all_sent _ _ _ _ _ _ _ _ Hinv _ _ Hy) as [_ [a Ha]]. congruence.
Qed.
(** ** A new transaction in the place of an old one *)
Definition without_old (old : option Transaction) (all : gmap Hash Transaction) : gmap Hash Transaction :=
  match old with Some x => delete (rlpHash_tx x) all | None => all end.
Lemma content_replace tx a old l l' all : content signer l all → sent tx a → is_u64 (AccountNonce tx) →
  (∀ x, old = Some x → x ∈ l ∧ sent x a ∧ AccountNonce x = AccountNonce tx) →
  (old = None → ∀ x, x ∈ l → sent x a → AccountNonce x ≠ AccountNonce tx) →
  option_list old ++ l' ≡ₚ tx :: l → content signer l' (lookup_Add (without_old old all) tx).
Proof.
  intros Hc Ha Hu Hold Hnone Hp.
  assert (∀ x, Signer_Sender signer x = Signer_Sender signer tx → sent x a) as Hsame by (intros x; unfold TxPoolInv.sent in *; congruence).
  destruct old as [x|]; cbn [option_list app without_old] in *.
  - destruct (Hold x eq_refl) as (Hx & Hxa & Hn). apply elem_of_Permutation in Hx as [rest Hrest].
    assert (l' ≡ₚ tx :: rest) as ->.
    { apply (Permutation_cons_inv (a := x)). rewrite Hp, Hrest. apply perm_swap. }
    rewrite Hrest in Hc. eapply content_register; [by apply content_forget|exact Ha|done|].
    assert (slot signer tx = slot signer x) as ->.
    { unfold slot, TxPoolInv.sent in *. congruence. }
    pose proof (ct_slots _ _ _ Hc) as Hs. cbn in Hs. by apply NoDup_cons in Hs as [? _].
  - rewrite Hp. eapply content_register; [done|exact Ha|done|]. intros (x & Heq & Hx)%list_elem_of_fmap.
    unfold slot in Heq. injection Heq as Hs Hn. by apply (Hnone eq_refl x Hx (Hsame x (eq_sym Hs))).
Qed.
(** [pool.all] and the price heap after the old transaction is forgotten. *)
Lemma forget_old_ok old p : all_sent signer (tp_all p) → priced_but [] (tp_all p) (tp_priced p) → (∀ x, x ∈ pItems (tp_priced p) → ∃ a, sent x a) →
  returns (forget_old old) (λ _ p', ∃ pl, p' = set_all (without_old old (tp_all p)) pl p ∧ priced_but [] (without_old old (tp_all p)) pl ∧
    ∀ x, x ∈ pItems pl → ∃ a, sent x a) p.
Proof.
  intros Hs Hok Hent. destruct old as [x|]; cbn [forget_old without_old].
  - unfold forget, all_remove, priced_removed. wp_steps. cbn. eexists. split; [reflexivity|].
    assert (delete (rlpHash_tx x) (tp_all p) ⊆ tp_all p) as Hsub by apply delete_subseteq. split.
    + eapply Removed_but; [by eapply all_sent_sub|by eapply priced_but_sub].
    + intros y. eapply Removed_entries; [by eapply all_sent_sub|done].
  - wp_steps. exists (tp_priced p). split_and!; [by destruct p|done..].
Qed.
Lemma priced_but_Put all pl tx : priced_but [] all pl → priced_but [] (lookup_Add all tx) (priced_Put pl tx).
Proof. rewrite !gone_nil. apply priced_Put_ok. Qed.
Lemma Put_entries pl tx x a : sent tx a → (∀ x, x ∈ pItems pl → ∃ a, sent x a) → x ∈ pItems (priced_Put pl tx) → ∃ a, sent x a.
Proof. intros Ha Hent. cbn [priced_Put pItems]. rewrite Push_perm. intros [->|Hx]%elem_of_cons; [by exists a|by apply Hent]. Qed.

(** The transactions of the lists determine the pool they are known to. *)
Definition listed p : list Transaction := txs_of (tp_pending p) ++ txs_of (tp_queue p).
Record accepted tx p p' : Prop := {
  ac_inv : inv [] None p';
  ac_listed : tx ∈ listed p';
  ac_all : ∃ old, tp_all p' = lookup_Add (without_old old (tp_all p)) tx
}.
Lemma wp_sender_of tx a (Q : Address → TxPool S → Prop) R p : sent tx a → Q a p → wp (sender_of signer tx) Q R p.
Proof. intros Ha HQ. unfold sender_of. by rewrite Ha. Qed.
(** An older transaction at the nonce is better. *)
Lemma Add_refused b (m : gmap Address txList) a tx bump old l' : Add (default (newTxList b) (m !! a)) tx bump = (false, old, l') → <[a := l']> m = m.
Proof.
  intros Hadd. destruct (m !! a) as [l|] eqn:Ha; cbn in Hadd.
  - assert (l' = l) as ->; [|by apply insert_id]. revert Hadd. unfold Add. cbv zeta.
    match goal with |- context [if ?b then _ else _] => destruct b end; by intros [= _ <-].
  - revert Hadd. unfold Add, Get. cbn. by rewrite lookup_empty.
Qed.
(** It was not worse by enough. *)
Definition underpays tx (old : Transaction) : Prop := Price tx ≤ Price old ∨ Price tx < price_threshold old (PriceBump config).
Lemma Add_refuses l tx old l' : Add l tx (PriceBump config) = (false, old, l') → ∃ x, Get (TxList.txs l) (AccountNonce tx) = Some x ∧ underpays tx x.
Proof.
  unfold Add. destruct (Get (TxList.txs l) (AccountNonce tx)) as [x|]; [|done]. unfold underpays. intros Hadd. exists x. split; [done|].
  destruct (Z.leb_spec (Price tx) (Price x)); [by left|]. destruct (Z.ltb_spec (Price tx) (price_threshold x (PriceBump config))); [by right|done].
Qed.
(** The pool knows a transaction of the account at the nonce that it prefers. *)
Definition outbid tx a p : Prop := ∃ old, tp_all p !! rlpHash_tx old = Some old ∧ sent old a ∧ AccountNonce old = AccountNonce tx ∧ underpays tx old.
Lemma outbid_shrinks tx a p0 p : shrinks p0 p → outbid tx a p → outbid tx a p0.
Proof. intros [_ Hsub] (old & Hk & Hold). exists old. split; [by eapply lookup_weaken|done]. Qed.
Lemma outbid_in tx a l x p : inv [] None p → tp_pending p !! a = Some l ∨ tp_queue p !! a = Some l → list_ok l → Get (TxList.txs l) (AccountNonce tx) = Some x → underpays tx x → outbid tx a p.
Proof.
  intros Hinv Hl Hok Hx Hpays. destruct (so_keyed _ (lo_txs _ Hok) _ _ Hx) as [Hn _].
  assert (x ∈ list_txs l) as Hin by (apply elem_of_list_txs; by eexists). exists x. split_and!; [|destruct Hl as [Hl|Hl]; [by apply (lw_sent _ _ _ _ (pending_wf _ _ _ _ _ _ _ _ Hinv) a l)|by apply (lw_sent _ _ _ _ (queue_wf _ _ _ _ _ _ _ _ Hinv) a l)]|done|done].
  apply (content_known _ _ _ _ (pi_content _ _ _ _ _ _ _ _ Hinv)). rewrite !elem_of_app.
  destruct Hl as [Hl|Hl]; [left|right; left]; apply elem_of_txs_of; by exists a, l.
Qed.
(** Entering the queue. *)
Lemma enqueueTx_new tx a p : inv [] None p → tp_all p !! rlpHash_tx tx = None → sent tx a → is_u64 (AccountNonce tx) →
  (∀ x, x ∈ txs_of (tp_pending p) → sent x a → AccountNonce x ≠ AccountNonce tx) →
  wp (enqueueTx config signer (rlpHash_tx tx) tx)
    (λ _ p', accepted tx p p' ∧ tp_locals p' = tp_locals p ∧ tp_pending p' = tp_pending p ∧ tx ∈ txs_of (tp_queue p'))
    (λ e p', e = ErrReplaceUnderpriced ∧ inv [] None p' ∧ tp_locals p' = tp_locals p ∧ tp_all p' = tp_all p ∧ outbid tx a p) p.
Proof.
  intros Hinv Hnew Ha Hu Hfree. pose proof (inv_all_sent _ _ _ _ _ _ _ _ Hinv) as Hsent. unfold enqueueTx.
  wp_step. apply (wp_sender_of tx a); [done|]. do 2 wp_step.
  destruct (Add _ tx (PriceBump config)) as [[inserted old] l'] eqn:Hadd. wp_steps.
  destruct inserted; cbn [negb].
  2: { destruct (Add_refuses _ _ _ _ Hadd) as (x & Hx & Hpays). wp_steps. rewrite (Add_refused _ _ _ _ _ _ _ Hadd). split_and!; [done|by destruct p|done|done|].
    destruct (tp_queue p !! a) as [l|] eqn:Hl; cbn in Hx; [|unfold Get in Hx; cbn in Hx; by rewrite lookup_empty in Hx].
    eapply outbid_in; [exact Hinv|by right|by eapply queue_list_ok|exact Hx|done]. }
  destruct (lists_wf_put signer false (λ _, False) (λ _, False) _ a tx _ _ _ (queue_wf _ _ _ _ _ _ _ _ Hinv) Ha Hu Hadd) as (Hq' & Hperm & Hold & Hnone); [done|].
  wp_step. eapply returns_wp; [apply forget_old_ok; [done|apply Hinv..]|]. cbn [tp_all set_queue]. intros _ p2 (pl & -> & Hpl & Hent).
  wp_step. unfold register_new. wp_steps. unfold lookup_Get. cbn [tp_all set_all].
  assert (without_old old (tp_all p) !! rlpHash_tx tx = None) as ->.
  { destruct old; [|done]. apply lookup_delete_None. by right. }
  unfold register. wp_steps. cbn [app] in Hperm. assert (tx ∈ txs_of (<[a := l']> (tp_queue p))) as Hin.
  { assert (tx ∈ option_list old ++ txs_of (<[a := l']> (tp_queue p))) as Hin by (rewrite Hperm; by left).
    apply elem_of_app in Hin as [Hin|?]; [|done]. destruct old as [x|]; [|by inversion Hin]. apply list_elem_of_singleton in Hin as <-.
    destruct (Hold tx eq_refl) as (Hx & _). pose proof (pi_content _ _ _ _ _ _ _ _ Hinv) as Hc. rewrite (content_known _ _ _ _ Hc) in Hnew; [done|].
    rewrite !elem_of_app. tauto. }
  split_and!; [|done|done|done]. split.
  - destruct Hinv as [Hp Hq Hc Hpr He Hsg Hst Hps Hmg Hhd]. split; cbn; try done.
    + eapply (content_replace tx a old); [exact Hc|done|done| | |].
      * intros x Hx. destruct (Hold x Hx) as (? & ? & ?). split_and!; [|done|done]. rewrite !elem_of_app. tauto.
      * intros Hn x. rewrite !elem_of_app. intros [Hx|[Hx|Hx]] Hxa; [by apply Hfree|by apply Hnone|by inversion Hx].
      * rewrite !app_nil_r. rewrite app_assoc, (Permutation_app_comm (option_list old)), <- app_assoc, Hperm. solve_Permutation.
    + by apply priced_but_Put.
    + intros x. by apply (Put_entries pl tx x a).
  - unfold listed. cbn. apply elem_of_app. by right.
  - by exists old.
Qed.
(** ** Adding *)
Record added local tx p p' : Prop := {
  ad_inv : inv [] None p';
  ad_listed : tx ∈ listed p';
  ad_known : tp_all p' !! rlpHash_tx tx = Some tx;
  ad_grows : grows_by tx p p';
  ad_locals : asAccounts (tp_locals p) ⊆ asAccounts (tp_locals p');
  ad_valid : ∃ a, validated local tx a p
}.
Record refused p p' : Prop := { rf_inv : inv [] None p'; rf_shrinks : shrinks p p' }.
(** Why a transaction is refused. *)
Inductive refusal local tx p : pool_error → Prop :=
  | refuse_known : is_Some (tp_all p !! rlpHash_tx tx) → refusal local tx p ErrKnownTransaction
  | refuse_invalid e : (¬ ∃ a, validated local tx a p) → refusal local tx p e
  | refuse_underpriced : local = false → pool_capacity config ≤ pool_count p → (∀ y, tp_all p !! rlpHash_tx y = Some y → Price tx ≤ Price y) →
      refusal local tx p ErrUnderpriced
  | refuse_replacement a : outbid tx a p → refusal local tx p ErrReplaceUnderpriced.
Lemma accepted_known tx p p' : accepted tx p p' → tp_all p' !! rlpHash_tx tx = Some tx.
Proof. intros [_ _ [old ->]]. unfold lookup_Add. apply lookup_insert_eq. Qed.
Lemma accepted_grows tx p0 p p' : tp_all p ⊆ tp_all p0 → accepted tx p p' → grows_by tx p0 p'.
Proof.
  intros Hsub [_ _ [old Hall]]. unfold grows_by. rewrite Hall. unfold lookup_Add. apply insert_mono. etrans; [|exact Hsub].
  destruct old; [apply delete_subseteq|done].
Qed.
Lemma enqueue_new_ok tx a local p0 p : inv [] None p → shrinks p0 p → tp_all p !! rlpHash_tx tx = None → sent tx a → is_u64 (AccountNonce tx) →
  (∀ x, x ∈ txs_of (tp_pending p) → sent x a → AccountNonce x ≠ AccountNonce tx) → (∃ a, validated local tx a p0) →
  wp (enqueue_new config signer (rlpHash_tx tx) tx local a) (λ _ p', added local tx p0 p') (λ e p', refused p0 p' ∧ refusal local tx p0 e) p.
Proof.
  intros Hinv [Hlo0 Hal0] Hnew Ha Hu Hfree Hvalid. unfold enqueue_new. wp_step. eapply wp_mono; [by apply (enqueueTx_new tx a)| |].
  2: { intros e p1 (-> & Hi1 & Hlo1 & Hal1 & Hout). split; [split; [done|split; [congruence|by rewrite Hal1]]|by eapply refuse_replacement, outbid_shrinks]. }
  intros b p1 (Hacc & Hlo1 & Hp1 & Hin). pose proof Hacc as [Hi1 Hl1 _].
  wp_step. destruct local; wp_steps.
  2: { split; [done|done|by eapply accepted_known|by eapply accepted_grows|by rewrite Hlo1, Hlo0|done]. }
  destruct (contains (tp_locals p1) a) eqn:Hloc.
  { split; [done|done|by eapply accepted_known|by eapply accepted_grows|by rewrite Hlo1, Hlo0|done]. }
  split; [|done|exact (accepted_known tx p p1 Hacc)|exact (accepted_grows tx p0 p p1 Hal0 Hacc)| |done].
  - destruct Hi1 as [Hp Hq Hc Hpr He Hsg Hst Hps Hmg Hhd]. by split.
  - cbn. rewrite Hlo1, Hlo0. set_solver.
Qed.
Lemma replace_pending_ok tx a l local p0 p : inv [] None p → shrinks p0 p → tp_all p !! rlpHash_tx tx = None → sent tx a → is_u64 (AccountNonce tx) →
  tp_pending p !! a = Some l → Overlaps l tx = true → (∃ a, validated local tx a p0) →
  wp ('(inserted, old) ← on_pending a (λ l, let '(inserted, old, l) := Add l tx (PriceBump config) in Ok ((inserted, old), l));
      if negb inserted then throw ErrReplaceUnderpriced else
      forget_old old;; register tx;; modify (feed [tx]);; mret (bool_decide (is_Some old)))
    (λ _ p', added local tx p0 p') (λ e p', refused p0 p' ∧ refusal local tx p0 e) p.
Proof.
  intros Hinv [Hlo0 Hal0] Hnew Ha Hu Hl Hover Hvalid. pose proof (inv_all_sent _ _ _ _ _ _ _ _ Hinv) as Hsent.
  wp_step. unfold on_pending. wp_steps. rewrite Hl. destruct (Add l tx (PriceBump config)) as [[inserted old] l'] eqn:Hadd. wp_steps.
  assert (Add (default (newTxList true) (tp_pending p !! a)) tx (PriceBump config) = (inserted, old, l')) as Hadd' by by rewrite Hl.
  destruct inserted; cbn [negb].
  2: { wp_steps. rewrite (Add_refused _ _ _ _ _ _ _ Hadd'). replace (set_pending (tp_pending p) p) with p by by destruct p. split; [by split|].
    destruct (Add_refuses _ _ _ _ Hadd) as (x & Hx & Hpays). apply (refuse_replacement _ _ _ a). eapply (outbid_shrinks tx a p0 p); [done|].
    eapply outbid_in; [exact Hinv|left; exact Hl|by eapply pending_list_ok|exact Hx|done]. }
  destruct (lists_wf_put signer true (λ c, None ≠ Some c) (λ c, None ≠ Some c) _ a tx _ _ _ (pending_wf _ _ _ _ _ _ _ _ Hinv) Ha Hu Hadd') as (Hp' & Hperm & Hold & Hnone); [done|].
  assert (∃ x, old = Some x) as [x ->].
  { destruct old as [x|]; [by exists x|]. exfalso. unfold Overlaps, Get in Hover. apply bool_decide_eq_true in Hover as [x Hx].
    assert (list_ok l) as Hok by by eapply pending_list_ok. destruct (so_keyed _ (lo_txs _ Hok) _ _ Hx) as [Hn _].
    assert (x ∈ list_txs l) as Hin by (apply elem_of_list_txs; by eexists).
    apply (Hnone eq_refl x); [apply elem_of_txs_of; by exists a, l|by apply (lw_sent _ _ _ _ (pending_wf _ _ _ _ _ _ _ _ Hinv) a l)|done]. }
  destruct (Hold x eq_refl) as (Hx & Hxa & Hxn).
  wp_step. eapply returns_wp; [apply (forget_old_ok (Some x)); [done|apply Hinv..]|]. cbn [tp_all set_pending]. intros _ p2 (pl & -> & Hpl & Hent).
  unfold register. wp_steps.
  assert (tx ∈ txs_of (<[a := l']> (tp_pending p))) as Hin.
  { assert (tx ∈ option_list (Some x) ++ txs_of (<[a := l']> (tp_pending p))) as Hin by (rewrite Hperm; by left).
    cbn in Hin. apply elem_of_cons in Hin as [->|?]; [|done]. rewrite (content_known _ _ _ _ (pi_content _ _ _ _ _ _ _ _ Hinv)) in Hnew; [done|].
    rewrite !elem_of_app. tauto. }
  split; [| |apply lookup_insert_eq| |by rewrite <- Hlo0|done].
  - destruct Hinv as [Hp Hq Hc Hpr He Hsg Hst Hps Hmg Hhd]. split; cbn [tp_pending tp_queue tp_all tp_priced tp_locals tp_currentState tp_pendingState tp_currentMaxGas tp_head set_all set_pending feed]; try done.
    + eapply (content_replace tx a (Some x)); [exact Hc|done|done| |done|].
      * intros y [= <-]. split_and!; [|done|done]. rewrite !elem_of_app. tauto.
      * rewrite !app_nil_r, app_assoc, Hperm. solve_Permutation.
    + by apply priced_but_Put.
    + intros y. by apply (Put_entries pl tx y a).
  - unfold listed. cbn. apply elem_of_app. by left.
  - unfold grows_by. cbn [tp_all set_all feed]. apply insert_mono. etrans; [apply delete_subseteq|done].
Qed.
Lemma add_full tx local p : inv [] None p → tx_ok tx →
  wp (add config signer tx local) (λ _ p', added local tx p p') (λ e p', refused p p' ∧ refusal local tx p e) p.
Proof.
  intros Hinv Htx. unfold add. do 2 wp_step. unfold lookup_Get. destruct (tp_all p !! rlpHash_tx tx) as [known|] eqn:Hknown.
  { wp_steps. split; [by split|]. apply refuse_known. by eexists. }
  wp_step. eapply wp_mono; [by apply validateTx_ok| |].
  2: { intros e p1 (Hi1 & [[_ _ Hlo] Hal _ _] & Hno). split; [split; [done|split; [done|by rewrite Hal]]|by apply refuse_invalid]. }
  intros _ p1 (Hi1 & [[Hp1 Hq1 Hlo1] Hal1 _ _] & a & Hvalid).
  wp_step. eapply wp_mono; [by apply make_room_ok| |].
  2: { intros e p2 (-> & Hi2 & [_ _ Hlo2] & Hal2 & Hloc & Hfull & Hprices). unfold pool_count in Hfull. rewrite Hal1 in Hfull, Hprices.
    split; [split; [done|split; [congruence|by rewrite Hal2, Hal1]]|by apply refuse_underpriced]. }
  intros _ p2 [Hi2 Hs2 _ _]. assert (shrinks p p2) as Hs02 by (eapply shrinks_trans; [|exact Hs2]; split; [done|by rewrite Hal1]).
  assert (tp_all p2 !! rlpHash_tx tx = None) as Hnew2 by (eapply lookup_weaken_None; [exact Hknown|apply Hs02]).
  pose proof (va_sent _ _ _ _ Hvalid) as Ha. destruct Htx as [Hu _].
  wp_step. apply (wp_sender_of tx a); [done|]. do 2 wp_step. destruct (tp_pending p2 !! a) as [l|] eqn:Hl.
  - destruct (Overlaps l tx) eqn:Hover; [by eapply replace_pending_ok; eauto|]. apply enqueue_new_ok; eauto.
    intros x (c & lc & Hc & Hx)%elem_of_txs_of Hxa Hn. pose proof (lw_sent _ _ _ _ (pending_wf _ _ _ _ _ _ _ _ Hi2) c lc x Hc Hx) as Hxc.
    assert (c = a) as -> by (unfold TxPoolInv.sent in *; congruence). assert (lc = l) as -> by congruence.
    assert (list_ok l) as Hok by (eapply pending_list_ok; [exact Hi2|exact Hl]). apply elem_of_list_txs in Hx as [n Hx].
    destruct (so_keyed _ (lo_txs _ Hok) _ _ Hx) as [Hk _]. unfold Overlaps, Get in Hover. apply bool_decide_eq_false in Hover. apply Hover.
    rewrite <- Hn, Hk. by eexists.
  - apply enqueue_new_ok; eauto.
    intros x (c & lc & Hc & Hx)%elem_of_txs_of Hxa Hn. pose proof (lw_sent _ _ _ _ (pending_wf _ _ _ _ _ _ _ _ Hi2) c lc x Hc Hx) as Hxc.
    assert (c = a) as -> by (unfold TxPoolInv.sent in *; congruence). congruence.
Qed.
Lemma add_ok tx local p : inv [] None p → tx_ok tx →
  wp (add config signer tx local) (λ _ p', added local tx p p') (λ _ p', refused p p') p.
Proof. intros Hinv Htx. eapply wp_mono; [by apply add_full|done|by intros e p' []]. Qed.
End adding.
