(* ===== verification/TxPoolRuns.v ===== *)
(** The transaction pool as a whole: the operations other parts of a node call
    keep the invariant and respect the limits; following the chain leaves
    transactions the new state can pay for. *)
From S2P Require Import Prelude Types Sealing Blocks Transition TxSigning Heap TxList TxListRuns TxPriced ManagedState Hoare TxPool TxPoolInv TxPoolOps TxPoolPromote TxPoolLimits TxPoolAdd.

Section pool.
Context `{Crypto} `{TxCrypto} `{!Inj (=) (=) rlpHash_tx} `{MapRange} `{TxSize} {S : Type} `{VMStateLaws S} `{StateCopy S}.
Variables (config : TxPoolConfig) (signer : Signer) (now : Z).
Hypothesis Hconfig : config_ok config.
Implicit Types p : TxPool S.

Section world.
Variables (w : World) (maxGas : Z) (head_ok : option Block → Prop).
Abbreviation inv := (pool_inv signer w maxGas head_ok []).
Abbreviation sent := (sent signer).
Abbreviation payable := (payable w maxGas).

(** ** Promotion and the limits *)
Record within_limits p : Prop := {
  wl_pending : total p ≤ GlobalSlots config ∨ ∀ a, a ∉ asAccounts (tp_locals p) → plen p a ≤ AccountSlots config;
  wl_queue : qtotal p ≤ GlobalQueue config ∨ ∀ a l, a ∉ asAccounts (tp_locals p) → tp_queue p !! a = Some l → list_txs l = []
}.
Record promoted_pool (accounts : list Address) p p' : Prop := {
  pp_inv : inv [] None p';
  pp_shrinks : shrinks p p';
  pp_pending tx a : tx ∈ txs_of (tp_pending p') → sent tx a → tx ∈ txs_of (tp_pending p) ∨ payable a tx;
  pp_queue tx a : tx ∈ txs_of (tp_queue p') → sent tx a → tx ∈ txs_of (tp_queue p) ∧ (a ∈ accounts → payable a tx);
  pp_limits : within_limits p'
}.
Definition promoted_keys p (accounts : option (list Address)) : list Address := default (fst <$> map_range (tp_queue p)) accounts.
Lemma inv_feed promoted limbo open p : inv limbo open p → inv limbo open (feed promoted p).
Proof. intros [Hp Hq Hc Hpr He Hsg Hst Hps Hmg Hhd]. by split. Qed.
Lemma promoteExecutables_ok accounts p : inv [] None p → small p →
  returns (promoteExecutables config signer now accounts) (λ _ p', promoted_pool (promoted_keys p accounts) p p') p.
Proof.
  intros Hinv Hsmall. unfold promoteExecutables. do 2 wp_step. fold (promoted_keys p accounts). cbv zeta.
  wp_step. eapply returns_mono; [by apply promote_accounts_ok|]. intros promoted p1 [Hi1 Hs1 Hp1 Hk1 Hq1 Ho1 Hc1].
  wp_step. apply (returns_mono _ (λ _ p', p' = p1 ∨ p' = feed promoted p1)).
  { destruct promoted; wp_steps; [by left|by right]. }
  intros _ p2 Hp2. assert (inv [] None p2 ∧ shrinks p1 p2 ∧ tp_pending p2 = tp_pending p1 ∧ tp_queue p2 = tp_queue p1) as (Hi2 & Hs2 & Hpe2 & Hqu2).
  { destruct Hp2 as [->| ->]; [done|]. split_and!; [by apply inv_feed|done..]. }
  assert (small p2) as Hsm2 by (eapply small_shrinks; [exact Hs2|]; by eapply small_shrinks).
  wp_step. eapply returns_mono; [by apply limit_pending_ok|]. intros _ p3 [[Hi3 Hs3 Hq3 _ Hsub3] _ _ Hlim3].
  eapply returns_mono; [apply limit_queue_ok; [done|done|by eapply small_shrinks]|]. intros _ p4 [Hi4 Hs4 Hpe4 _ Hsub4 Hlim4].
  assert (shrinks p p4) as Hs by (eapply shrinks_trans; [exact Hs1|eapply shrinks_trans; [exact Hs2|by eapply shrinks_trans]]).
  split; [done|done| | |].
  - intros tx a Htx Ha. rewrite Hpe4 in Htx. apply Hsub3 in Htx. rewrite Hpe2 in Htx. by apply (Hp1 tx a).
  - intros tx a Htx Ha. apply Hsub4 in Htx. rewrite Hq3, Hqu2 in Htx. split; [by apply Hq1|]. intros Hin.
    apply elem_of_txs_of in Htx as (c & l & Hl & Htx). pose proof (queue_sent _ _ _ _ _ c l p1 tx Hi1 Hl Htx) as Hc.
    assert (c = a) as -> by (unfold TxPoolInv.sent in *; congruence). by apply (Hc1 a Hin l).
  - split.
    + rewrite (sh_locals _ _ Hs4), (sh_locals _ _ Hs3). unfold total, plen. rewrite Hpe4. exact Hlim3.
    + rewrite (sh_locals _ _ Hs4). exact Hlim4.
Qed.

(** ** Adding *)
Definition room p (n : nat) : Prop := Z.of_nat (size (tp_all p) + n) < 9223372036854775808.
Lemma room_small p n : room p n → small p.
Proof. unfold room, small. lia. Qed.
Lemma room_shrinks p p' n : shrinks p p' → room p n → room p' n.
Proof. intros [_ Hall] Hr. unfold room in *. apply map_subseteq_size in Hall. lia. Qed.
Lemma room_grows tx p p' n : grows_by tx p p' → room p (Datatypes.S n) → room p' n.
Proof.
  intros Hall Hr. unfold room, grows_by, lookup_Add in *. apply map_subseteq_size in Hall. rewrite map_size_insert in Hall.
  destruct (tp_all p !! rlpHash_tx tx); cbn in Hall; lia.
Qed.
Lemma addTx_ok tx local p : inv [] None p → tx_ok signer tx → room p 1 →
  wp (addTx config signer now tx local) (λ _ p', inv [] None p') (λ _ p', refused signer w maxGas head_ok p p') p.
Proof.
  intros Hinv Htx Hroom. unfold addTx. wp_step. eapply wp_mono; [by apply add_ok| |done].
  intros replace p1 [Hi1 _ _ Hg1 _ [a Hv]]. destruct replace; [by wp_steps|].
  wp_step. apply (wp_sender_of signer tx a); [apply Hv|].
  eapply returns_wp; [apply promoteExecutables_ok; [done|]|by intros _ p2 []].
  by eapply room_small, room_grows.
Qed.
Lemma addTxsLocked_ok l local p : inv [] None p → Forall (tx_ok signer) l → room p (length l) →
  returns (addTxsLocked config signer now l local) (λ errs p', inv [] None p' ∧ length errs = length l ∧ small p') p.
Proof.
  intros Hinv Hl Hroom. unfold addTxsLocked. wp_step. eapply returns_mono;
    [apply (returns_for_acc (λ l' acc p', inv [] None p' ∧ Forall (tx_ok signer) l' ∧ room p' (length l') ∧ (length acc.1 + length l' = length l)%nat))|].
  - by split_and!.
  - intros tx l' [errs dirty] p1 (Hi1 & Hl1 & Hr1 & Hlen). apply Forall_cons in Hl1 as [Htx Hl1]. unfold add_batch. wp_step. apply returns_attempt.
    eapply wp_mono; [by apply add_ok| |].
    + intros b p2 [Hi2 _ _ Hg2 _ [a Hv]]. assert (room p2 (length l')) as Hr2 by by eapply room_grows.
      destruct b; [|wp_step; apply (wp_sender_of signer tx a); [apply Hv|]]; wp_steps; split_and!; try done; cbn in *; rewrite length_app; cbn; lia.
    + intros e p2 [Hi2 Hs2]. wp_steps. split_and!; [done|done| |cbn in *; rewrite length_app; cbn; lia].
      eapply room_shrinks; [exact Hs2|]. unfold room in *. cbn in Hr1. lia.
  - intros [errs dirty] p1 (Hi1 & _ & Hr1 & Hlen). cbn [fst length] in Hlen. rewrite Nat.add_0_r in Hlen. wp_step.
    assert (small p1) as Hsm1 by by eapply room_small.
    apply (returns_mono _ (λ _ p', inv [] None p' ∧ small p')); [|intros _ p2 []; by wp_steps].
    case_bool_decide; [by wp_steps|]. eapply returns_mono; [by apply promoteExecutables_ok|]. intros _ p2 []. split; [done|]. by eapply small_shrinks.
Qed.

(** ** Queries and maintenance *)
Lemma removeTx_ok h ob p : inv [] None p → returns (removeTx config signer h ob) (λ _ p', inv [] None p' ∧ tp_all p' = delete h (tp_all p) ∧
    tp_locals p' = tp_locals p ∧ (∀ tx a, tp_all p !! h = Some tx → sent tx a → ∀ c, c ≠ a → tp_queue p' !! c = tp_queue p !! c)) p.
Proof.
  intros Hinv. destruct (tp_all p !! h) as [tx|] eqn:Hh.
  - destruct (inv_all_sent _ _ _ _ _ _ _ _ Hinv _ _ Hh) as [-> [a Ha]].
    eapply returns_mono; [by apply (removeTx_known config signer w maxGas head_ok [] tx a)|]. intros _ p' (Hi & Hal & Hlo & Ho & _). split_and!; [done..|].
    intros tx' a' [= <-] Ha' c Hc. apply Ho. unfold TxPoolInv.sent in *. congruence.
  - eapply returns_mono; [by apply removeTx_unknown|]. intros _ p' ->. split_and!; [done|by rewrite delete_id|done|done].
Qed.
Lemma SetGasPrice_ok price p : inv [] None p → returns (SetGasPrice config signer price)
  (λ _ p', inv [] None p' ∧ tp_locals p' = tp_locals p ∧
    ∀ x, tp_all p' !! rlpHash_tx x = Some x ↔ tp_all p !! rlpHash_tx x = Some x ∧ (is_local (tp_locals p) x ∨ price ≤ Price x)) p.
Proof.
  intros Hinv. unfold SetGasPrice. do 2 wp_step. assert (inv [] None (set_gasPrice price p)) as Hi1.
  { destruct Hinv as [Hp Hq Hc Hpr He Hsg Hst Hps Hmg Hhd]. by split. }
  do 2 wp_step. cbn [tp_all tp_locals tp_priced set_gasPrice].
  destruct (priced_Cap_ok (E := pool_error) (tp_all p) price (tp_locals p) (tp_priced p)) as (drop & pl & Hrun & Hdrop & Hok).
  { by eapply gone_nil, Hinv. } { intros x Hx. by eapply entry_derivable. }
  wp_step. eapply wp_lift; [exact Hrun|]. wp_steps.
  eapply returns_mono; [eapply (remove_gone_ok config signer w maxGas head_ok drop (set_all (tp_all p) pl (set_gasPrice price p)))|].
  { apply (inv_priced signer w maxGas head_ok drop [] None (set_gasPrice price p) pl); [done|done|]. intros x Hx. cbn. by eapply priced_Cap_in. }
  { intros x Hx. by apply Hdrop. }
  intros _ p2 (Hi2 & Hlo2 & Hal2). split_and!; [done|done|]. intros x. rewrite Hal2, map_lookup_filter_Some, Hdrop. cbn.
  split; [intros [Hx Hn]|intros [Hx Hor]]; (split; [done|]).
  - destruct (is_local_dec (tp_locals p) x) as [|Hrem]; [|by left|].
    { intros q. rewrite (pi_signer _ _ _ _ _ _ _ _ Hinv). destruct (inv_all_sent _ _ _ _ _ _ _ _ Hinv _ _ Hx) as [_ [a Ha]]. congruence. }
    right. destruct (decide (price ≤ Price x)) as [|Hlt]; [done|]. exfalso. apply Hn. split_and!; [done|done|lia].
  - intros (_ & Hrem & Hlt). destruct Hor as [?|?]; [done|lia].
Qed.
(** Removing every transaction of an account's queue, one at a time. *)
Lemma remove_all_ok l p : inv [] None p →
  returns (for_each l (λ tx, removeTx config signer (rlpHash_tx tx) true)) (λ _ p', inv [] None p' ∧ tp_all p' ⊆ tp_all p) p.
Proof.
  intros Hinv. eapply returns_mono; [apply (returns_for_each (λ _ p', inv [] None p' ∧ tp_all p' ⊆ tp_all p))|by intros [] p' ?]; [done|].
  intros tx l' p1 [Hi1 Hs1]. eapply returns_mono; [by apply removeTx_ok|]. intros _ p2 (Hi2 & Hal2 & _). split; [done|].
  rewrite Hal2. etrans; [apply delete_subseteq|done].
Qed.
Lemma evict_ok p : inv [] None p → returns (evict config signer now) (λ _ p', inv [] None p' ∧ tp_all p' ⊆ tp_all p) p.
Proof.
  intros Hinv. unfold evict. do 2 wp_step. eapply returns_mono;
    [apply (returns_for_each (λ _ p', inv [] None p' ∧ tp_all p' ⊆ tp_all p))|by intros [] p' ?]; [done|].
  intros a l p1 [Hi1 Hs1]. unfold evict_account. do 2 wp_step. destruct (tp_queue p1 !! a) as [lq|] eqn:Hl; [|by wp_steps].
  destruct (contains _ _); [by wp_steps|]. destruct (_ <? _); [|by wp_steps].
  wp_step. eapply returns_mono; [by apply flatten_ok|]. intros ? p2 (_ & [Hi2 [_ Hs2] _ _ _] & _).
  eapply returns_mono; [by apply remove_all_ok|]. intros _ p3 [Hi3 Hs3]. split; [done|]. by etrans; [|etrans].
Qed.

(** Flattening changes caches only. *)
Lemma flatten_lists_wf b full m : lists_wf signer b full m → lists_wf signer b full ((λ l, (list_Flatten l).2) <$> m).
Proof.
  intros [Hl Hs Hf]. assert (∀ a l', ((λ l, (list_Flatten l).2) <$> m) !! a = Some l' → ∃ l, m !! a = Some l ∧ list_ok l' ∧ strict l' = b ∧ list_txs l' = list_txs l) as Hlook.
  { intros a l' Ha. apply lookup_fmap_Some in Ha as (l & <- & Ha). destruct (Hl a l Ha) as [Hok Hst].
    destruct (list_Flatten_ok l Hok) as (_ & Hok' & Hst' & Hi). exists l. split_and!; [done|done|congruence|]. unfold list_txs. by rewrite Hi. }
  split.
  - intros a l' (l & _ & ? & ? & _)%Hlook. done.
  - intros a l' tx (l & Ha & _ & _ & Htx)%Hlook. rewrite Htx. by apply Hs.
  - intros a l' (l & Ha & _ & _ & Htx)%Hlook. rewrite Htx. by apply Hf.
Qed.
Lemma flatten_txs m : txs_of ((λ l, (list_Flatten l).2) <$> m) = txs_of m.
Proof. unfold txs_of. by rewrite map_to_list_fmap, <- list_fmap_compose. Qed.
Lemma Pending_ok p : inv [] None p → returns Pending (λ r p', r = list_txs <$> tp_pending p ∧ inv [] None p' ∧ tp_all p' = tp_all p ∧
  tp_queue p' = tp_queue p ∧ tp_pending p' = (λ l, (list_Flatten l).2) <$> tp_pending p ∧ tp_locals p' = tp_locals p) p.
Proof.
  intros Hinv. unfold Pending. do 2 wp_step. unfold returns, wp. cbn. destruct Hinv as [Hp Hq Hc Hpr He Hsg Hst Hps Hmg Hhd]. split_and!; [| |done..].
  - apply map_fmap_ext. intros a l Ha. destruct (lw_list _ _ _ _ Hp a l Ha) as [Hok _]. by destruct (list_Flatten_ok l Hok).
  - split; cbn; try done; [by apply flatten_lists_wf|by rewrite flatten_txs].
Qed.
Lemma Content_ok p : inv [] None p → returns Content (λ r p', r = (list_txs <$> tp_pending p, list_txs <$> tp_queue p) ∧ inv [] None p' ∧ tp_all p' = tp_all p) p.
Proof.
  intros Hinv. unfold Content. wp_step. eapply returns_mono; [by apply Pending_ok|]. intros ? p1 (-> & Hi1 & Hal1 & Hq1 & _ & _). do 2 wp_step.
  unfold returns, wp. cbn. destruct Hi1 as [Hp Hq Hc Hpr He Hsg Hst Hps Hmg Hhd]. split_and!; [|split; cbn; try done|done].
  - f_equal. rewrite <- Hq1. apply map_fmap_ext. intros a l Ha. destruct (lw_list _ _ _ _ Hq a l Ha) as [Hok _]. by destruct (list_Flatten_ok l Hok).
  - by apply flatten_lists_wf.
  - by rewrite flatten_txs.
Qed.
Lemma Overlaps_pending tx a p : inv [] None p → tp_all p !! rlpHash_tx tx = Some tx → sent tx a →
  match tp_pending p !! a with Some l => Overlaps l tx | None => false end = bool_decide (tx ∈ txs_of (tp_pending p)).
Proof.
  intros Hinv Hknown Ha. symmetry. case_bool_decide as Hin.
  - apply elem_of_txs_of in Hin as (c & l & Hc & Hin). pose proof (lw_sent _ _ _ _ (pending_wf _ _ _ _ _ _ _ _ Hinv) c l tx Hc Hin) as Hs.
    assert (c = a) as -> by (unfold TxPoolInv.sent in *; congruence). rewrite Hc. symmetry. apply bool_decide_eq_true.
    assert (list_ok l) as Hok by (eapply pending_list_ok; [exact Hinv|exact Hc]). apply elem_of_list_txs in Hin as [n Hn].
    destruct (so_keyed _ (lo_txs _ Hok) _ _ Hn) as [-> _]. by eexists.
  - destruct (tp_pending p !! a) as [l|] eqn:Hl; [|done]. symmetry. apply bool_decide_eq_false. intros [x Hx]. apply Hin.
    assert (list_ok l) as Hok by (eapply pending_list_ok; [exact Hinv|exact Hl]). destruct (so_keyed _ (lo_txs _ Hok) _ _ Hx) as [Hn _].
    assert (x ∈ list_txs l) as Hxl by (apply elem_of_list_txs; by eexists).
    assert (x ∈ txs_of (tp_pending p)) as Hxp by (apply elem_of_txs_of; by exists a, l).
    pose proof (pi_content _ _ _ _ _ _ _ _ Hinv) as Hc. assert (x = tx) as <-; [|done].
    apply (content_slot signer _ _ x tx a Hc); [rewrite !elem_of_app; tauto|by apply Hc in Hknown as [_ ?]| |done|done].
    by apply (lw_sent _ _ _ _ (pending_wf _ _ _ _ _ _ _ _ Hinv) a l).
Qed.
(** The status of a known transaction says which list holds it. *)
Definition status_of p (h : Hash) : TxStatus :=
  match tp_all p !! h with
  | None => TxStatusUnknown
  | Some tx => if bool_decide (tx ∈ txs_of (tp_pending p)) then TxStatusPending else TxStatusQueued
  end.
Lemma Status_ok hashes p : inv [] None p → returns (Status signer hashes) (λ r p', r = status_of p <$> hashes ∧ p' = p) p.
Proof.
  intros Hinv. unfold Status. do 2 wp_step. eapply returns_mono;
    [apply (returns_for_acc (λ l r p', p' = p ∧ r ++ (status_of p <$> l) = status_of p <$> hashes))|].
  - done.
  - intros h l r p1 [-> Hr]. unfold lookup_Get. cbn [fmap list_fmap] in Hr. unfold status_of at 1 in Hr. destruct (tp_all p !! h) as [tx|] eqn:Hh.
    + destruct (inv_all_sent _ _ _ _ _ _ _ _ Hinv _ _ Hh) as [-> [a Ha]].
      wp_step. apply (wp_sender_of signer tx a); [done|]. cbv zeta. wp_step. split; [done|]. rewrite <- app_assoc, <- Hr.
      by rewrite (Overlaps_pending tx a p).
    + wp_steps. by rewrite <- app_assoc.
  - intros r p1 [-> Hr]. by rewrite app_nil_r in Hr.
Qed.

(** ** Following the chain *)
Lemma demoteUnexecutables_ok p : inv [] None p →
  returns (demoteUnexecutables config signer) (λ _ p', inv [] None p' ∧ shrinks p p' ∧ ∀ a, startable w maxGas a p') p.
Proof.
  intros Hinv. unfold demoteUnexecutables. do 2 wp_step. eapply returns_mono;
    [apply (returns_for_each (λ l p', inv [] None p' ∧ shrinks p p' ∧ NoDup l ∧ (∀ a, a ∈ l → is_Some (tp_pending p' !! a)) ∧
      ∀ a, a ∉ l → startable w maxGas a p'))|].
  - split_and!; [done|done|apply range_keys_NoDup|by intros a ?%elem_of_range_keys|]. intros a Ha l Hl. destruct Ha. apply elem_of_range_keys. by eexists.
  - intros a l p1 (Hi1 & Hs1 & Hnd & Hsome & Hst). apply NoDup_cons in Hnd as [Ha Hnd].
    eapply returns_mono; [apply (demote_account_ok config signer w maxGas head_ok [] a p1 Hi1); apply Hsome; by left|].
    intros _ p2 [Hi2 Hs2 Ho2 Hst2]. split_and!; [done|by eapply shrinks_trans|done| |].
    + intros c Hc. rewrite Ho2 by (by intros ->). apply Hsome. by right.
    + intros c Hc. destruct (decide (c = a)) as [->|Hne]; [done|]. intros lc Hlc. rewrite Ho2 in Hlc by done.
      apply Hst; [|done]. by intros [?|?]%elem_of_cons.
  - intros [] p2 (? & ? & _ & _ & Hst). split_and!; [done..|]. intros a. apply Hst. by inversion 1.
Qed.
Lemma pending_flatten_ok a l p : inv [] None p → tp_pending p !! a = Some l →
  returns (on_pending a flatten) (λ out p', out = list_txs l ∧ inv [] None p' ∧ p' = set_pending (<[a := (list_Flatten l).2]> (tp_pending p)) p) p.
Proof.
  intros Hinv Ha. assert (list_ok l) as Hok by (eapply pending_list_ok; [exact Hinv|exact Ha]). destruct (Flatten_moved l Hok) as [Hm Hflat].
  eapply returns_mono; [eapply on_pending_ok with (open' := None); [exact Hinv|exact Ha|unfold flatten; by rewrite (surjective_pairing (list_Flatten l))|exact Hm| |done]|].
  - intros _ Hnil. pose proof (mv_perm _ _ _ Hm) as Hp. rewrite Hnil in Hp. cbn in Hp. apply Permutation_nil_l in Hp.
    by apply (lw_full _ _ _ _ (pending_wf _ _ _ _ _ _ _ _ Hinv) a l Ha).
  - intros ? p' (-> & -> & Hi). by split_and!.
Qed.
Lemma update_pending_nonces_ok p : inv [] None p → (∀ a, startable w maxGas a p) →
  returns update_pending_nonces (λ _ p', inv [] None p' ∧ tp_all p' = tp_all p ∧ ∀ a, startable w maxGas a p') p.
Proof.
  intros Hinv Hst. unfold update_pending_nonces. do 2 wp_step. eapply returns_mono;
    [apply (returns_for_each (λ l p', inv [] None p' ∧ tp_all p' = tp_all p ∧ (∀ a, startable w maxGas a p') ∧ ∀ a, a ∈ l → is_Some (tp_pending p' !! a)))|by intros [] p' (? & ? & ? & _)].
  - split_and!; [done..|]. by intros a ?%elem_of_range_keys.
  - intros a l p1 (Hi1 & Hal1 & Hst1 & Hsome). destruct (Hsome a) as [la Hla]; [by left|].
    wp_step. eapply returns_mono; [by apply pending_flatten_ok|]. intros ? p2 (-> & Hi2 & ->).
    destruct (last (list_txs la)) as [tx|] eqn:Hlast.
    2: { apply last_None in Hlast. by destruct (lw_full _ _ _ _ (pending_wf _ _ _ _ _ _ _ _ Hi1) a la Hla). }
    eapply returns_mono; [by apply set_pending_nonce_ok|]. intros _ p3 (Hi3 & [Hp3 Hq3 Hlo3] & Hal3). split_and!; [done|by rewrite Hal3| |].
    + intros c lc Hlc. rewrite Hp3 in Hlc. cbn in Hlc. destruct (decide (c = a)) as [->|Hne].
      * rewrite lookup_insert_eq in Hlc. injection Hlc as <-. exact (Hst1 a la Hla).
      * rewrite lookup_insert_ne in Hlc by done. by apply Hst1.
    + intros c Hc. rewrite Hp3. cbn. destruct (decide (c = a)) as [->|Hne]; [by rewrite lookup_insert_eq|]. rewrite lookup_insert_ne by done.
      apply Hsome. by right.
Qed.
End world.
End pool.
