(* ===== verification/TxPoolReach.v ===== *)
(** Following the chain: the walk that finds the transactions a reorganisation
    dropped ends, and the reset to a new head leaves a pool whose transactions
    the new state can pay for.

    The pool under any sequence of the operations a node performs on it, from its
    creation on. *)
From S2P Require Import Prelude Hoare Types Heap Sealing Blocks Transition TxSigning TxList TxListRuns TxPriced ManagedState TxPool TxPoolInv TxPoolOps TxPoolPromote TxPoolLimits TxPoolAdd TxPoolRuns.

(** What the pool relies on of the chain: a block is found under its own number,
    none at the largest one, which is where the parent of the genesis block is
    looked up; the transactions of a block are well-formed; a state that opens
    represents a world. *)
Class PoolChainLaws `{Crypto} `{TxCrypto} (signer : Signer) (C S : Type) `{PoolChain C S} `{VMStateLaws S} := {
  chain_number (c : C) h n b : pc_GetBlock c h n = Some b → Number (block_header b) = Some n ∧ is_u64 n;
  chain_bottom (c : C) h : pc_GetBlock c h MaxUint64 = None;
  chain_txs (c : C) h n b : pc_GetBlock c h n = Some b → Forall (tx_ok signer) (block_transactions b);
  chain_state (c : C) r s : pc_StateAt c r = Some s → ∃ w, represents s w
}.

Section walk.
Context `{Crypto} `{TxCrypto} (signer : Signer) {C S : Type} `{VMStateLaws S} `{!PoolChain C S} `{!PoolChainLaws signer C S}.
Variable (chain : C).
Abbreviation R := (Result pool_error).
Abbreviation txs_ok := (Forall (tx_ok signer)).

(** A block of the chain at height [n]. *)
Definition on_chain (n : Z) (b : Block) : Prop := ∃ h, pc_GetBlock chain h n = Some b.
Lemma on_chain_number n b : on_chain n b → NumberU64 (E := pool_error) b = Ok n ∧ is_u64 n.
Proof.
  intros [h Hb]. destruct (chain_number _ _ _ _ Hb) as [Hn Hr]. unfold NumberU64, Types.Uint64. rewrite Hn. by rewrite wrap64_id.
Qed.
Lemma on_chain_txs n b : on_chain n b → txs_ok (block_transactions b).
Proof. intros [h Hb]. by eapply chain_txs. Qed.
Lemma parent_block_ok n b : on_chain n b → ∃ r, parent_block chain b = Ok r ∧
  ∀ parent, r = Some parent → 0 < n ∧ on_chain (n - 1) parent.
Proof.
  intros Hb. destruct (on_chain_number n b Hb) as [Hn Hr]. unfold parent_block. rewrite Hn. cbn.
  eexists. split; [done|]. intros parent Hp. destruct (decide (n = 0)) as [->|Hne]; [by rewrite chain_bottom in Hp|].
  rewrite u64_sub_id in Hp by (unfold is_u64 in *; lia). split; [unfold is_u64 in *; lia|by eexists].
Qed.

Lemma descend_ok fuel n b height txs : on_chain n b → n - height ≤ Z.of_nat fuel → txs_ok txs →
  ∃ r, descend chain fuel b height txs = Ok r ∧
    ∀ b' txs', r = Some (b', txs') → on_chain (Z.min n height) b' ∧ txs_ok txs'.
Proof.
  revert n b txs. induction fuel as [|fuel IH]; intros n b txs Hb Hfuel Htxs; cbn [descend];
    destruct (on_chain_number n b Hb) as [-> Hn]; cbn [mbind result_bind]; destruct (Z.ltb_spec height n) as [Hlt|Hge]; cbn [negb]; try lia.
  1,3: eexists; split; [done|]; intros b' txs' [= <- <-]; split; [by rewrite Z.min_l by lia|done].
  destruct (parent_block_ok n b Hb) as (r & -> & Hr). cbn [mbind result_bind]. destruct r as [parent|]; [|by eexists].
  destruct (Hr parent) as [Hpos Hparent]; [done|].
  destruct (IH (n - 1) parent (txs ++ block_transactions b)) as (r & Hrun & Hres); [done|lia| |].
  { apply Forall_app. split; [done|by eapply on_chain_txs]. }
  eexists. split; [exact Hrun|]. intros b' txs' Heq. destruct (Hres b' txs' Heq) as [Hb' Ht']. split; [|done].
  by replace (Z.min n height) with (Z.min (n - 1) height) by lia.
Qed.
Lemma meet_ok fuel n rem add discarded included : on_chain n rem → on_chain n add → n < Z.of_nat fuel → txs_ok discarded →
  ∃ r, meet chain fuel rem add discarded included = Ok r ∧ ∀ d i, r = Some (d, i) → txs_ok d.
Proof.
  revert n rem add discarded included. induction fuel as [|fuel IH]; intros n rem add discarded included Hrem Hadd Hfuel Hd.
  { apply on_chain_number in Hrem as [_ Hr]. unfold is_u64 in Hr. lia. }
  cbn [meet]. destruct (_ =? _); [eexists; split; [done|by intros ? ? [= <- <-]]|].
  destruct (parent_block_ok n rem Hrem) as (r & -> & Hr). cbn [mbind result_bind]. destruct r as [rem'|]; [|by eexists].
  destruct (parent_block_ok n add Hadd) as (r & -> & Ha). cbn [mbind result_bind]. destruct r as [add'|]; [|by eexists].
  destruct (Hr rem') as [? ?]; [done|]. destruct (Ha add') as [? ?]; [done|].
  apply (IH (n - 1)); [done..|lia|]. apply Forall_app. split; [done|by eapply on_chain_txs].
Qed.

(** A head of the chain; the heads an event carries are in the chain. *)
Definition known_head (h : Header) : Prop := ∃ n b, Number h = Some n ∧ is_u64 n ∧ pc_GetBlock chain (Header_Hash h) n = Some b.
Lemma TxDifference_sub a b tx : tx ∈ TxDifference a b → tx ∈ a.
Proof. unfold TxDifference. by intros [_ ?]%list_elem_of_filter. Qed.
Lemma reinjected_ok oldHead newHead : is_Some (Number oldHead) → known_head newHead →
  ∃ r, reinjected chain oldHead newHead = Ok r ∧ ∀ txs, r = Some txs → txs_ok txs.
Proof.
  intros [old Hold] (new & add & Hnew & Hnr & Hadd). unfold reinjected. destruct (_ =? _).
  { eexists. split; [done|]. by intros txs [= <-]. }
  rewrite Hold, Hnew. cbn [Types.Uint64 mbind result_bind]. set (oldNum := wrap64 old). rewrite (wrap64_id new) by done.
  destruct (Z.ltb_spec 64 (Z.abs (oldNum - new))) as [?|Hnear]. { eexists. split; [done|]. by intros txs [= <-]. }
  destruct (pc_GetBlock chain (Header_Hash oldHead) oldNum) as [rem|] eqn:Hrem; [|by eexists]. rewrite Hadd.
  assert (on_chain oldNum rem) as Hr by by eexists. assert (on_chain new add) as Ha by by eexists.
  destruct (on_chain_number _ _ Ha) as [-> _]. cbn [mbind result_bind].
  destruct (descend_ok 64 oldNum rem new [] Hr) as (r & -> & Hdown); [cbn; lia|done|]. cbn [mbind result_bind].
  destruct r as [[rem' discarded]|]; [|by eexists]. destruct (Hdown rem' discarded) as [Hr' Hd]; [done|].
  destruct (on_chain_number _ _ Hr') as [-> Hmin]. cbn [mbind result_bind].
  destruct (descend_ok 64 new add (Z.min oldNum new) [] Ha) as (r & -> & Hdown'); [cbn; lia|done|]. cbn [mbind result_bind].
  destruct r as [[add' included]|]; [|by eexists]. destruct (Hdown' add' included) as [Ha' _]; [done|].
  rewrite Z.min_r in Ha' by lia.
  destruct (meet_ok (Datatypes.S (Z.to_nat (Z.min oldNum new))) (Z.min oldNum new) rem' add' discarded included) as (r & -> & Hmeet); [done|done| |done|].
  { unfold is_u64 in Hmin. lia. }
  cbn [mbind result_bind]. destruct r as [[d i]|]; [|by eexists]. eexists. split; [done|]. intros txs [= <-].
  apply Forall_forall. intros tx Htx%TxDifference_sub. pose proof (Hmeet d i eq_refl) as Hok. rewrite Forall_forall in Hok. by apply Hok.
Qed.
(** ** What the walk collects *)

(** The blocks from [b], at height [n], down to [c] and without it. *)
Inductive branch : Z → Block → list Block → Block → Prop :=
  | branch_here n c : on_chain n c → branch n c [] c
  | branch_step n b parent l c : on_chain n b → parent_block chain b = Ok (Some parent) →
      branch (n - 1) parent l c → branch n b (b :: l) c.
Definition txs_of_blocks (l : list Block) : list Transaction := concat (block_transactions <$> l).
Lemma branch_on_chain n b l c : branch n b l c → on_chain n b.
Proof. by destruct 1. Qed.
Lemma branch_height n b l c : branch n b l c → on_chain (n - Z.of_nat (length l)) c.
Proof.
  induction 1 as [n c Hc|n b parent l c Hb Hp Hl IH]; [by rewrite Z.sub_0_r|].
  replace (n - Z.of_nat (length (b :: l))) with (n - 1 - Z.of_nat (length l)) by (cbn; lia). exact IH.
Qed.
Lemma on_chain_fun n n' b : on_chain n b → on_chain n' b → n = n'.
Proof. intros [h Hb] [h' Hb']. apply chain_number in Hb as [Hn _], Hb' as [Hn' _]. congruence. Qed.
Lemma descend_here fuel n b height txs : on_chain n b → n ≤ height → descend chain fuel b height txs = Ok (Some (b, txs)).
Proof.
  intros [Hn _]%on_chain_number Hle. destruct fuel; cbn [descend]; rewrite Hn; cbn [mbind result_bind];
    by rewrite (proj2 (Z.ltb_ge height n)).
Qed.
Lemma descend_branch fuel n b l c k height txs : branch n b l c → on_chain k c → k ≤ height → n - height ≤ Z.of_nat fuel →
  ∃ b' l1 l2, descend chain fuel b height txs = Ok (Some (b', txs ++ txs_of_blocks l1)) ∧ l = l1 ++ l2 ∧ branch (Z.min n height) b' l2 c.
Proof.
  intros Hb Hc Hk Hfuel. revert fuel txs Hfuel. induction Hb as [n c Hb|n b parent l c Hb Hp Hl IH]; intros fuel txs Hfuel;
    destruct (on_chain_number n _ Hb) as [Hn _]; destruct (Z.ltb_spec height n) as [Hlt|Hge].
  - exfalso. pose proof (on_chain_fun _ _ _ Hb Hc). lia.
  - exists c, [], []. rewrite app_nil_r, Z.min_l by lia. split_and!; [|done|by constructor]. by apply descend_here with n.
  - destruct fuel as [|fuel]; [lia|]. cbn [descend]. rewrite Hn. cbn [mbind result_bind]. rewrite (proj2 (Z.ltb_lt height n)) by done. cbn [negb].
    rewrite Hp. cbn [mbind result_bind]. destruct (IH Hc fuel (txs ++ block_transactions b)) as (b' & l1 & l2 & Hrun & -> & Hbr); [lia|].
    exists b', (b :: l1), l2. rewrite Hrun, <- app_assoc. split_and!; [done|done|]. by replace (Z.min n height) with (Z.min (n - 1) height) by lia.
  - exists b, [], (b :: l). rewrite app_nil_r, Z.min_l by lia. split_and!; [|done|by econstructor]. by apply descend_here with n.
Qed.
Lemma meet_branch fuel n b l b' l' c discarded included : branch n b l c → branch n b' l' c → n < Z.of_nat fuel →
  (∀ x y, x ∈ l → y ∈ l' → Block_Hash x ≠ Block_Hash y) →
  meet chain fuel b b' discarded included = Ok (Some (discarded ++ txs_of_blocks l, included ++ txs_of_blocks l')).
Proof.
  intros Hb. revert fuel b' l' discarded included. induction Hb as [n c Hb|n b parent l c Hb Hp Hl IH]; intros fuel b' l' discarded included Hb' Hfuel Hne.
  - assert (l' = []) as ->.
    { pose proof (on_chain_fun _ _ _ Hb (branch_height _ _ _ _ Hb')). destruct l'; [done|cbn in *; lia]. }
    inversion Hb'; subst. rewrite !app_nil_r. destruct fuel; cbn [meet]; by rewrite Z.eqb_refl.
  - inversion Hb' as [? ? Hb2|? ? parent' l'' ? Hb2 Hp' Hl']; subst.
    { exfalso. pose proof (on_chain_fun _ _ _ Hb2 (branch_height _ _ _ _ Hl)). lia. }
    destruct fuel as [|fuel]; [destruct (on_chain_number _ _ Hb) as [_ Hr]; unfold is_u64 in Hr; lia|]. cbn [meet].
    destruct (Z.eqb_spec (Block_Hash b) (Block_Hash b')) as [Heq|_]; [by destruct (Hne b b'); [left|left|]|].
    rewrite Hp. cbn [mbind result_bind]. rewrite Hp'. cbn [mbind result_bind]. rewrite (IH fuel parent' l''); [|done|lia|].
    + unfold txs_of_blocks. cbn. by rewrite <- !app_assoc.
    + intros x y Hx Hy. apply Hne; by right.
Qed.

(** C35: what a reorganisation gives back to the pool.  When the heights of the two
    heads are at most 64 apart these are exactly the transactions of the dropped
    blocks that are in none of the blocks replacing them, in the order of the walk;
    when they are further apart, or the new head only extends the old one, nothing
    is given back. *)
Theorem reorg_reinjects oldHead newHead n n' rem add l l' c :
  Number oldHead = Some n → Number newHead = Some n' →
  pc_GetBlock chain (Header_Hash oldHead) n = Some rem → pc_GetBlock chain (Header_Hash newHead) n' = Some add →
  branch n rem l c → branch n' add l' c → (∀ x y, x ∈ l → y ∈ l' → Block_Hash x ≠ Block_Hash y) →
  reinjected chain oldHead newHead =
    Ok (Some (if decide (Z.abs (n - n') ≤ 64 ∧ Header_Hash oldHead ≠ ParentHash newHead)
              then filter (λ tx, rlpHash_tx tx ∉ rlpHash_tx <$> txs_of_blocks l') (txs_of_blocks l) else [])).
Proof.
  intros Hn Hn' Hrem Hadd Hl Hl' Hne. pose proof (branch_on_chain _ _ _ _ Hl) as Hr. pose proof (branch_on_chain _ _ _ _ Hl') as Ha.
  pose proof (branch_height _ _ _ _ Hl) as Hc. pose proof (branch_height _ _ _ _ Hl') as Hc'. pose proof (on_chain_fun _ _ _ Hc Hc') as Hk.
  destruct (on_chain_number _ _ Hr) as [_ Hnr]. destruct (on_chain_number _ _ Ha) as [Hna Hnr'].
  unfold reinjected. destruct (Z.eqb_spec (Header_Hash oldHead) (ParentHash newHead)) as [Hext|Hnext]; [rewrite decide_False; [done|by intros []]|].
  rewrite Hn, Hn'. cbn [Types.Uint64 mbind result_bind]. rewrite !wrap64_id by done.
  destruct (Z.ltb_spec 64 (Z.abs (n - n'))) as [Hfar|Hnear]; [rewrite decide_False; [done|intros []; lia]|rewrite decide_True by done].
  rewrite Hrem, Hadd, Hna. cbn [mbind result_bind].
  destruct (descend_branch 64 n rem l c _ n' [] Hl Hc) as (b1 & l1 & l2 & -> & -> & Hb1); [lia|cbn; lia|]. cbn [mbind result_bind].
  destruct (on_chain_number _ _ (branch_on_chain _ _ _ _ Hb1)) as [-> Hm]. cbn [mbind result_bind].
  destruct (descend_branch 64 n' add l' c _ (Z.min n n') [] Hl' Hc) as (b2 & l3 & l4 & -> & -> & Hb2); [lia|cbn; lia|]. cbn [mbind result_bind].
  rewrite Z.min_r in Hb2 by lia. rewrite (meet_branch _ (Z.min n n') b1 l2 b2 l4 c); [|done|done|unfold is_u64 in Hm; lia|].
  2: { intros x y Hx Hy. apply Hne; apply elem_of_app; by right. }
  cbn [mbind result_bind]. f_equal. f_equal. unfold TxDifference, txs_of_blocks. cbn [app]. rewrite <- concat_app, <- fmap_app.
  rewrite (fmap_app _ l1), (concat_app (_ <$> l1)). apply list_filter_iff. intros tx. by rewrite elem_of_list_to_set.
Qed.

(** the walk over a reorganisation ends: from heads of the chain, the loops of
    [reset] down both branches stop after at most 64 blocks each and then one
    block per height, whatever the branches hold, and never look below the
    genesis block. *)
Theorem reorg_walk_ends oldHead newHead : is_Some (Number oldHead) → known_head newHead →
  ∃ r, reinjected chain oldHead newHead = Ok r.
Proof. intros Hold Hnew. destruct (reinjected_ok oldHead newHead Hold Hnew) as (r & Hr & _). by exists r. Qed.
End walk.

Section reset.
Context `{Crypto} `{TxCrypto} `{!Inj (=) (=) rlpHash_tx} `{MapRange} `{TxSize} {S : Type} `{VMStateLaws S} `{StateCopy S}.
Variables (config : TxPoolConfig) (signer : Signer) (now : Z).
Hypothesis Hconfig : config_ok config.
Context {C : Type} `{!PoolChain C S} `{!PoolChainLaws signer C S}.
Variable (chain : C).
Implicit Types p : TxPool S.

(** The pool after a reset to a state [w] with gas limit [maxGas]. *)
Record reset_to (w : World) (maxGas : Z) (head_ok : option Block → Prop) p : Prop := {
  rt_inv : pool_inv signer w maxGas head_ok [] [] None p;
  rt_pending tx a : tx ∈ txs_of (tp_pending p) → sent signer tx a → payable w maxGas a tx;
  rt_queue tx a : tx ∈ txs_of (tp_queue p) → sent signer tx a → payable w maxGas a tx;
  rt_limits : within_limits config p
}.

(** ** What every invariant of the pool shares

    A pool before its first reset has no state; the rest of the invariant holds. *)
Record pool_base p : Prop := {
  pb_pending : lists_wf signer true (λ _, True) (tp_pending p);
  pb_queue : lists_wf signer false (λ _, False) (tp_queue p);
  pb_content : content signer (txs_of (tp_pending p) ++ txs_of (tp_queue p)) (tp_all p);
  pb_priced : priced_ok (tp_all p) (tp_priced p);
  pb_entries tx : tx ∈ pItems (tp_priced p) → ∃ a, sent signer tx a;
  pb_signer : asSigner (tp_locals p) = signer
}.
Lemma inv_base w maxGas head_ok p : pool_inv signer w maxGas head_ok [] [] None p → pool_base p.
Proof.
  intros [Hp Hq Hc Hpr He Hsg Hst Hps Hmg Hhd]. split; try done.
  - destruct Hp as [Hl Hs Hf]. split; [done..|]. intros a l Ha _. by apply (Hf a l Ha).
  - by rewrite app_nil_r in Hc.
  - by apply gone_nil.
Qed.
Lemma base_states s ms w maxGas (head_ok : option Block → Prop) p : pool_base p → represents s w → head_ok (tp_head p) →
  pool_inv signer w maxGas head_ok [] [] None (set_states (Some s) (Some ms) maxGas p).
Proof.
  intros [Hp Hq Hc Hpr He Hsg] Hs Hhead. split; cbn; try done.
  - destruct Hp as [Hl Hse Hf]. split; [done..|]. intros a l Ha _. by apply (Hf a l Ha).
  - by rewrite app_nil_r.
  - by apply gone_nil.
  - by eexists.
Qed.

(** ** Resetting *)
Lemma flatten_limits p p' : tp_pending p' = (λ l, (list_Flatten l).2) <$> tp_pending p → tp_queue p' = tp_queue p → tp_locals p' = tp_locals p →
  within_limits config p → within_limits config p'.
Proof.
  intros Hp Hq Hlo [Hl1 Hl2]. assert (∀ a, plen p' a = plen p a) as Hlen.
  { intros a. unfold plen. rewrite Hp, lookup_fmap. by destruct (tp_pending p !! a). }
  split.
  - unfold total. rewrite Hp, flatten_txs, Hlo. destruct Hl1 as [?|Hl1]; [by left|right]. intros a. rewrite Hlen. apply Hl1.
  - unfold qtotal in *. by rewrite Hq, Hlo.
Qed.
(** The steps of [reset] once the state is known. *)
Definition settle (reinject : list Transaction) : GoM (TxPool S) pool_error unit :=
  addTxsLocked config signer now reinject false;; demoteUnexecutables config signer;; update_pending_nonces;;
  promoteExecutables config signer now None;; Pending;; mret tt.
Lemma settle_ok w maxGas head_ok reinject p : pool_inv signer w maxGas head_ok [] [] None p → Forall (tx_ok signer) reinject →
  room p (length reinject) → returns (settle reinject) (λ _, reset_to w maxGas head_ok) p.
Proof.
  intros Hinv Htxs Hroom. unfold settle. wp_step. eapply returns_mono; [by apply addTxsLocked_ok|]. intros _ p1 (Hi1 & _ & Hsm1).
  wp_step. eapply returns_mono; [by apply demoteUnexecutables_ok|]. intros _ p2 (Hi2 & Hs2 & Hst2).
  wp_step. eapply returns_mono; [by apply update_pending_nonces_ok|]. intros _ p3 (Hi3 & Hal3 & Hst3).
  assert (small p3) as Hsm3. { assert (small p2) as Hsm2 by by eapply small_shrinks. unfold small in *. by rewrite Hal3. }
  wp_step. eapply returns_mono; [by apply promoteExecutables_ok|]. intros _ p4 [Hi4 Hs4 Hpe4 Hqu4 Hlim4].
  wp_step. eapply returns_mono; [by eapply Pending_ok|]. intros r p5 (_ & Hi5 & _ & Hq5 & Hp5 & Hlo5). wp_steps.
  assert (∀ tx a, tx ∈ txs_of (tp_pending p3) → sent signer tx a → payable w maxGas a tx) as Hpay3.
  { intros tx a (c & l & Hl & Htx)%elem_of_txs_of Ha. pose proof (lw_sent _ _ _ _ (pending_wf _ _ _ _ _ _ _ _ Hi3) c l tx Hl Htx) as Hc.
    assert (c = a) as -> by (unfold TxPoolInv.sent in *; congruence). by apply (Hst3 a l Hl). }
  split; [done| | |].
  - intros tx a Htx Ha. rewrite Hp5, flatten_txs in Htx. destruct (Hpe4 tx a Htx Ha) as [?|?]; [by apply Hpay3|done].
  - intros tx a Htx Ha. rewrite Hq5 in Htx. destruct (Hqu4 tx a Htx Ha) as [Hin Hpay]. apply Hpay.
    apply elem_of_txs_of in Hin as (c & l & Hl & Hin). pose proof (queue_sent _ _ _ _ _ c l p3 tx Hi3 Hl Hin) as Hc.
    assert (c = a) as -> by (unfold TxPoolInv.sent in *; congruence). apply elem_of_range_keys. by eexists.
  - by eapply (flatten_limits p4).
Qed.

(** The heads of a reset are those of chain events: the new one is in the chain,
    the old one has a number. *)
Definition heads_ok (oldHead : option Header) (newHead : Header) : Prop :=
  known_head chain newHead ∧ ∀ h, oldHead = Some h → is_Some (Number h).
Definition reinject_of (oldHead : option Header) (newHead : Header) : Result pool_error (option (list Transaction)) :=
  match oldHead with None => Ok (Some []) | Some oldHead => reinjected chain oldHead newHead end.
(** There is room for what the reset adds. *)
Definition reset_room (oldHead : option Header) (newHead : Header) p : Prop :=
  ∀ txs, reinject_of oldHead newHead = Ok (Some txs) → room p (length txs).
(** The two ways to leave the pool as it is. *)
Definition given_up (oldHead : option Header) (newHead : Header) : Prop :=
  reinject_of oldHead newHead = Ok None ∨ pc_StateAt chain (Root newHead) = None.
Lemma reset_ok oldHead newHead (head_ok : option Block → Prop) p : pool_base p → head_ok (tp_head p) →
  heads_ok oldHead newHead → reset_room oldHead newHead p →
  returns (reset config signer now chain oldHead (Some newHead)) (λ _ p',
    (p' = p ∧ given_up oldHead newHead) ∨ ∃ s w, pc_StateAt chain (Root newHead) = Some s ∧ represents s w ∧ reset_to w (GasLimit newHead) head_ok p') p.
Proof.
  intros Hbase Hhead [Hnew Hold] Hroom. unfold reset. wp_step.
  assert (∃ r, reinject_of oldHead newHead = Ok r ∧ ∀ txs, r = Some txs → Forall (tx_ok signer) txs) as (r & Hr & Hok).
  { unfold reinject_of. destruct oldHead as [oldHead|]; [by eapply (reinjected_ok signer); [apply Hold|]|]. eexists. split; [done|]. by intros txs [= <-]. }
  assert (returns (match oldHead with None => mret (Some []) | Some oldHead => lift (reinjected chain oldHead newHead) end)
    (λ r' p', r' = r ∧ p' = p) p) as Hrun.
  { unfold reinject_of in Hr. destruct oldHead; [by eapply wp_lift|]. injection Hr as <-. by wp_steps. }
  eapply returns_mono; [exact Hrun|]. intros ? ? [-> ->]. destruct r as [reinject|]; [|wp_steps; left; split; [done|by left]].
  destruct (pc_StateAt chain (Root newHead)) as [s|] eqn:Hs; [|wp_steps; left; split; [done|by right]].
  assert (∃ w, represents s w) as [w Hw] by by eapply (chain_state (signer := signer)). do 2 wp_step.
  eapply returns_mono; [apply (settle_ok w (GasLimit newHead) head_ok)|].
  - by apply base_states.
  - by apply Hok.
  - by apply Hroom.
  - intros [] p' Hp'. right. by exists s, w.
Qed.

(** A pool that runs: some state has been set, and a head. *)
Definition running p : Prop := ∃ w maxGas, pool_inv signer w maxGas is_Some [] [] None p.
Lemma reset_to_running w maxGas p : reset_to w maxGas is_Some p → running p.
Proof. intros [Hinv _ _ _]. by exists w, maxGas. Qed.
Lemma reset_to_head w maxGas head_ok head_ok' b p : head_ok' b → reset_to w maxGas head_ok p → reset_to w maxGas head_ok' (set_head b p).
Proof. intros Hb [[Hp Hq Hc Hpr He Hsg Hst Hps Hmg Hhd] Hpe Hqu [Hl1 Hl2]]. split; [by split|done|done|by split]. Qed.
Lemma running_head b p : running p → running (set_head (Some b) p).
Proof. intros (w & maxGas & [Hp Hq Hc Hpr He Hsg Hst Hps Hmg Hhd]). exists w, maxGas. by split. Qed.
(** The pool after the event of the new head [b]: the transactions fit the state
    of [b], unless the walk or the state failed. *)
Definition follows (b : Block) p p' : Prop :=
  (p' = set_head (Some b) p ∧ given_up (block_header <$> tp_head p) (block_header b)) ∨
  ∃ s w, pc_StateAt chain (Root (block_header b)) = Some s ∧ represents s w ∧ reset_to w (GasLimit (block_header b)) is_Some p'.
Definition event_ok (b : Block) p : Prop := ∀ h, tp_head p = Some h →
  heads_ok (Some (block_header h)) (block_header b) ∧ reset_room (Some (block_header h)) (block_header b) p.
Lemma handleChainHead_ok b p : running p → event_ok b p →
  returns (handleChainHead config signer now chain (Some b)) (λ _ p', running p' ∧ tp_head p' = Some b ∧ follows b p p') p.
Proof.
  intros Hrun Hev. destruct (id Hrun) as (w0 & g0 & Hinv). destruct (pi_head _ _ _ _ _ _ _ _ Hinv) as [h Hh].
  destruct (Hev h Hh) as [Hheads Hroom]. unfold handleChainHead. do 2 wp_step. rewrite Hh. wp_step.
  eapply returns_mono; [by apply (reset_ok _ _ is_Some); [eapply inv_base|rewrite Hh|..]|].
  intros [] p1 Hp1. wp_steps. destruct Hp1 as [[-> Hup]|(s & w & Hs & Hw & Hto)].
  - split_and!; [by apply running_head|done|]. left. by rewrite Hh.
  - assert (reset_to w (GasLimit (block_header b)) is_Some (set_head (Some b) p1)) as Hto' by by eapply reset_to_head.
    split_and!; [by eapply reset_to_running|done|]. right. by exists s, w.
Qed.
End reset.

Section reach.
Context `{Crypto} `{TxCrypto} `{!Inj (=) (=) rlpHash_tx} `{MapRange} `{TxSize} {S : Type} `{VMStateLaws S} `{StateCopy S}.
Variables (conf : TxPoolConfig) (chainId : option Z).
Abbreviation config := (sanitize conf).
Abbreviation signer := (NewEIP155Signer chainId).
Hypothesis Hconfig : config_ok config.
Context {C : Type} `{!PoolChain C S} `{!PoolChainLaws signer C S}.
Implicit Types p : TxPool S.

(** An operation, with the time it happens at; errors go to the caller. *)
Inductive pool_op :=
  | opAddLocal (now : Z) (tx : Transaction)
  | opAddRemote (now : Z) (tx : Transaction)
  | opAddLocals (now : Z) (txs : list Transaction)
  | opAddRemotes (now : Z) (txs : list Transaction)
  | opStatus (hashes : list Hash)
  | opPending
  | opContent
  | opSetGasPrice (price : Z)
  | opEvict (now : Z)
  | opChainHead (now : Z) (chain : C) (block : Block).
Definition run_op (op : pool_op) : GoM (TxPool S) pool_error unit :=
  match op with
  | opAddLocal now tx => attempt (E' := pool_error) (AddLocal config signer now tx);; mret tt
  | opAddRemote now tx => attempt (E' := pool_error) (AddRemote config signer now tx);; mret tt
  | opAddLocals now txs => AddLocals config signer now txs;; mret tt
  | opAddRemotes now txs => AddRemotes config signer now txs;; mret tt
  | opStatus hashes => Status signer hashes;; mret tt
  | opPending => Pending;; mret tt
  | opContent => Content;; mret tt
  | opSetGasPrice price => SetGasPrice config signer price
  | opEvict now => evict config signer now
  | opChainHead now chain block => handleChainHead config signer now chain (Some block)
  end.
(** Transactions come from the network: their nonces are machine integers and
    deriving the sender may fail but not crash; the pool counts in an [int]. *)
Definition op_ok (op : pool_op) p : Prop :=
  match op with
  | opAddLocal _ tx | opAddRemote _ tx => tx_ok signer tx ∧ room p 1
  | opAddLocals _ txs | opAddRemotes _ txs => Forall (tx_ok signer) txs ∧ room p (length txs)
  | opChainHead _ chain block => event_ok chain block p
  | _ => True
  end.
Lemma run_op_ok op p : running signer p → op_ok op p → returns (run_op op) (λ _, running signer) p.
Proof.
  intros (w & g & Hinv) Hop. assert (∀ p', pool_inv signer w g is_Some [] [] None p' → running signer p') as Hrun by (intros p' ?; by exists w, g).
  destruct op; cbn [run_op op_ok] in *.
  1,2: destruct Hop; wp_step; apply returns_attempt; eapply wp_mono; [by eapply addTx_ok| |];
    [intros ? p' ?; wp_steps; by apply Hrun|intros e p' [? ?]; wp_steps; by apply Hrun].
  1,2: destruct Hop; wp_step; eapply returns_mono; [by eapply addTxsLocked_ok|]; intros ? p' [? _]; wp_steps; by apply Hrun.
  - wp_step. eapply returns_mono; [by eapply Status_ok|]. intros ? p' [_ ->]. wp_steps. by apply Hrun.
  - wp_step. eapply returns_mono; [by eapply Pending_ok|]. intros ? p' (_ & ? & _). wp_steps. by apply Hrun.
  - wp_step. eapply returns_mono; [by eapply Content_ok|]. intros ? p' (_ & ? & _). wp_steps. by apply Hrun.
  - eapply returns_mono; [by eapply SetGasPrice_ok|]. intros [] p' [? _]. by apply Hrun.
  - eapply returns_mono; [by eapply evict_ok|]. intros [] p' [? _]. by apply Hrun.
  - eapply returns_mono; [eapply handleChainHead_ok; [exact Hconfig|exact _|by apply Hrun|exact Hop]|]. by intros [] p' [? _].
Qed.

(** A new pool, when the state of the current block opens. *)
Lemma new_base : pool_base signer (emptyTxPool (S := S) config chainId).
Proof.
  unfold emptyTxPool. split; cbn.
  1,2: split; intros *; by rewrite lookup_empty.
  - split; [constructor|by inversion 1|]. intros h tx. rewrite lookup_empty. split; [done|by intros [_ ?%not_elem_of_nil]].
  - apply priced_ok_new.
  - by inversion 1.
  - assert (∀ l s, asSigner (foldl as_add s l) = asSigner s) as Hs by (intros l; induction l as [|a l IH]; intros s; [done|cbn; by rewrite IH]).
    by rewrite Hs.
Qed.
Lemma NewTxPool_ok chain now s : let head := pc_CurrentBlock chain in
  known_head chain (block_header head) → pc_StateAt chain (Root (block_header head)) = Some s →
  ∃ p, NewTxPool conf chainId chain now = (Ok tt, p) ∧ running signer p ∧ tp_head p = Some head.
Proof.
  intros head Hhead Hs. unfold NewTxPool. apply returns_unit. wp_step. eapply returns_mono.
  { apply (reset_ok config signer now Hconfig chain None (block_header head) (λ _, True)); [apply new_base|done| |].
    - by split.
    - intros txs [= <-]. unfold room. cbn. rewrite map_size_empty. lia. }
  intros [] p [[_ [Hup|Hup]]|(s' & w' & _ & _ & Hto)]; [discriminate Hup|by rewrite Hs in Hup|]. wp_steps. split; [|done].
  eapply reset_to_running, (reset_to_head _ _ _ _ (λ _, True)); [by eexists|done].
Qed.

(** The pools a node can have. *)
Inductive pool_reachable : TxPool S → Prop :=
  | reach_new chain now p : let head := pc_CurrentBlock chain in
      known_head chain (block_header head) → is_Some (pc_StateAt chain (Root (block_header head))) →
      NewTxPool conf chainId chain now = (Ok tt, p) → pool_reachable p
  | reach_op op p : pool_reachable p → op_ok op p → pool_reachable (run_op op p).2.

Lemma pool_reachable_running p : pool_reachable p → running signer p.
Proof.
  induction 1 as [chain now p head Hhead [s Hs] Hnew|op p Hp IH Hop].
  - destruct (NewTxPool_ok chain now s Hhead Hs) as (p' & Hnew' & Hrun & _). congruence.
  - apply (run_op_ok op) in IH; [|done]. by apply returns_run in IH as (u & p' & -> & Hrun).
Qed.

(** C14: no sequence of operations crashes the pool.  Every pool a node can reach
    satisfies the invariant — the lists are well-formed and gapless where they
    must be, the hash table holds exactly the listed transactions, the price heap
    covers them, one transaction per sender and nonce — and every operation,
    refused transactions included, returns and leads to such a pool. *)
Theorem pool_never_crashes p : pool_reachable p →
  running signer p ∧ ∀ op, op_ok op p → ∃ p', run_op op p = (Ok tt, p') ∧ running signer p'.
Proof.
  intros Hp%pool_reachable_running. split; [done|]. intros op Hop. apply returns_unit. by apply run_op_ok.
Qed.

(** C34: the event of a new head leaves a pool whose every transaction, pending or
    queued, the new state can pay for, with a nonce it has not used and a gas
    limit the new block allows, within the limits of the pool.  Only a walk cut
    short or a state that does not open leaves the lists as they were; the head
    moves in any case. *)
Theorem new_head_leaves_payable now chain b p : running signer p → event_ok chain b p →
  ∃ p', handleChainHead config signer now chain (Some b) p = (Ok tt, p') ∧ tp_head p' = Some b ∧
    (p' = set_head (Some b) p ∧ given_up chain (block_header <$> tp_head p) (block_header b) ∨
     ∃ s w, pc_StateAt chain (Root (block_header b)) = Some s ∧ represents s w ∧ within_limits config p' ∧
       ∀ tx a, tx ∈ txs_of (tp_pending p') ++ txs_of (tp_queue p') → Signer_Sender signer tx = Ok a →
         w_nonce w a ≤ AccountNonce tx ∧ Cost tx ≤ w_balance w a ∧ TxGasLimit tx ≤ GasLimit (block_header b)).
Proof.
  intros Hrun Hev. apply returns_unit. eapply returns_mono; [by apply (handleChainHead_ok config signer now Hconfig chain)|].
  intros [] p' (_ & Hhead & Hf). split; [done|]. destruct Hf as [?|(s & w & Hs & Hw & [Hinv Hpe Hqu Hlim])]; [by left|right].
  exists s, w. split_and!; [done..|]. intros tx a Htx Ha. apply elem_of_app in Htx.
  assert (payable w (GasLimit (block_header b)) a tx) as [? [? ?]]; [destruct Htx as [Htx|Htx]; [by apply Hpe|by apply Hqu]|done].
Qed.
End reach.

(** * Single operations *)
Section operations.
Context `{Crypto} `{TxCrypto} `{!Inj (=) (=) rlpHash_tx} `{MapRange} `{TxSize} {S : Type} `{VMStateLaws S} `{StateCopy S}.
Variables (config : TxPoolConfig) (signer : Signer) (w : World) (maxGas : Z) (head_ok : option Block → Prop).
Implicit Types p : TxPool S.
Abbreviation inv := (pool_inv signer w maxGas head_ok [] [] None).

(** C36: the limit on pending transactions is enforced without hurting anybody
    below its share: local accounts keep all of theirs, every account keeps what
    it has up to [AccountSlots], nothing is added, and afterwards the total is
    within [GlobalSlots] unless every account that is not local is down to its
    share. *)
Theorem pending_limit_is_fair p : config_ok config → inv p → small p →
  ∃ p', limit_pending config p = (Ok tt, p') ∧ inv p' ∧
    (∀ a, a ∈ asAccounts (tp_locals p) → tp_pending p' !! a = tp_pending p !! a) ∧
    (∀ a, Z.min (plen p a) (AccountSlots config) ≤ plen p' a) ∧
    (∀ tx, tx ∈ txs_of (tp_pending p') → tx ∈ txs_of (tp_pending p)) ∧
    (total p' ≤ GlobalSlots config ∨ ∀ a, a ∉ asAccounts (tp_locals p) → plen p' a ≤ AccountSlots config).
Proof.
  intros Hconfig Hinv Hsmall. apply returns_unit. eapply returns_mono; [by eapply limit_pending_ok|].
  intros [] p' [[Hi Hs Hq Hd Ht] Hlo Hsl Hli]. by split_and!.
Qed.

(** C37: [add] lets in only new transactions that are valid for the pool, and
    refuses one only for a reason: it is known already, it is not valid, the pool
    is full and a transaction from outside offers no more than any in it, or the
    pool prefers the one it knows of the account at the nonce.  One that is let in
    is listed and known, one that is refused leaves no trace but the room made for
    it; nothing else enters. *)
Theorem add_lets_in_valid_only tx local p : config_ok config → inv p → tx_ok signer tx →
  let '(r, p') := add config signer tx local p in
  inv p' ∧
  match r with
  | Ok _ => tx ∈ txs_of (tp_pending p') ++ txs_of (tp_queue p') ∧ tp_all p' !! rlpHash_tx tx = Some tx ∧
      tp_all p' ⊆ <[rlpHash_tx tx := tx]> (tp_all p) ∧ tp_all p !! rlpHash_tx tx = None ∧
      ∃ a, validated signer w maxGas local tx a p
  | Err e => tp_all p' ⊆ tp_all p ∧ asAccounts (tp_locals p') = asAccounts (tp_locals p) ∧ refusal config signer w maxGas local tx p e
  | Panic _ => False
  end.
Proof.
  intros Hconfig Hinv Htx. destruct (tp_all p !! rlpHash_tx tx) as [known|] eqn:Hknown.
  { unfold add, mbind, gom_bind, get_state, lookup_Get. rewrite Hknown. split; [done|]. split; [done|]. split; [done|]. apply refuse_known. by eexists. }
  pose proof (add_full config signer w maxGas head_ok Hconfig tx local p Hinv Htx) as Hadd. unfold wp in Hadd.
  destruct (add config signer tx local p) as [[b|e|q] p']; [|by destruct Hadd as [[? [-> ?]] Hwhy]|done].
  destruct Hadd as [Hi Hl Hk Hg _ Hv]. by split_and!.
Qed.

(** Raising or lowering the price threshold keeps exactly the transactions of
    local accounts and those at or above the threshold. *)
Theorem SetGasPrice_exact price p : inv p →
  ∃ p', SetGasPrice config signer price p = (Ok tt, p') ∧ inv p' ∧
    ∀ tx, tx ∈ txs_of (tp_pending p') ++ txs_of (tp_queue p') ↔
      tx ∈ txs_of (tp_pending p) ++ txs_of (tp_queue p) ∧ (is_local (tp_locals p) tx ∨ price ≤ Price tx).
Proof.
  intros Hinv. apply returns_unit. eapply returns_mono; [by eapply SetGasPrice_ok|]. intros [] p' (Hi & _ & Hall). split; [done|].
  assert (∀ q x, inv q → tp_all q !! rlpHash_tx x = Some x ↔ x ∈ txs_of (tp_pending q) ++ txs_of (tp_queue q)) as Hlisted.
  { intros q x Hq. rewrite (ct_all _ _ _ (pi_content _ _ _ _ _ _ _ _ Hq)), app_nil_r. naive_solver. }
  intros tx. by rewrite <- !Hlisted.
Qed.
End operations.
