(* ===== verification/DiscTable.v ===== *)
(** The discovery table of a node ([table.go] and [db.go] of
    [src/network/discovery]): distances between identities, buckets with their
    replacements, the closest nodes to a target, seeds. *)
From S2P Require Import Prelude Hoare Types.

Definition alpha : Z := 3.
Definition bucketSize : nat := 16.
Definition maxReplacements : nat := 10.
Definition hashBits : Z := 256.
Definition nBuckets : Z := hashBits / 15.
Definition bucketMinDistance : Z := hashBits - nBuckets.
Definition maxFindnodeFailures : Z := 5.
Definition seedCount : nat := 30.
(** Times are in seconds. *)
Definition seedMaxAge : Z := 5 * 24 * 3600.
Definition seedMinTableTime : Z := 5 * 60.

(** * Identities

    An identity is 32 bytes, rendered as the number they spell. *)
Abbreviation ID := Z (only parsing).
Definition id_bytes (id : ID) : list byte := array_bytes 32 id.
Definition is_id (id : ID) : Prop := 0 ≤ id < 256 ^ Z.of_nat 32.

(** [DistCmp], over the bytes *)
Fixpoint dist_cmp (target a b : list byte) : Z :=
  match target, a, b with
  | t :: target, x :: a, y :: b =>
      let da := Z.lxor x t in
      let db := Z.lxor y t in
      if db <? da then 1 else if da <? db then -1 else dist_cmp target a b
  | _, _, _ => 0
  end.
Definition DistCmp (target a b : ID) : Z := dist_cmp (id_bytes target) (id_bytes a) (id_bytes b).
(** [bits.LeadingZeros8] *)
Definition LeadingZeros8 (x : Z) : Z := if x =? 0 then 8 else 7 - Z.log2 x.
Fixpoint leading_zeros (a b : list byte) : Z :=
  match a, b with
  | x :: a, y :: b => let d := Z.lxor x y in if d =? 0 then 8 + leading_zeros a b else LeadingZeros8 d
  | _, _ => 0
  end.
Definition LogDist (a b : ID) : Z := 32 * 8 - leading_zeros (id_bytes a) (id_bytes b).

(** ** What the loops over bytes compute *)
Definition distance (target a : ID) : Z := Z.lxor a target.
Lemma lxor_bytes a b : Z.lxor a b = 256 * Z.lxor (a / 256) (b / 256) + Z.lxor (a mod 256) (b mod 256).
Proof.
  change 256 with (2 ^ 8). rewrite (Z.div_mod (Z.lxor a b) (2 ^ 8)) by done. f_equal.
  - f_equal. rewrite <- !Z.shiftr_div_pow2 by done. apply Z.shiftr_lxor.
  - rewrite <- !Z.land_ones by done. apply Z.bits_inj'. intros i Hi. rewrite Z.land_spec, !Z.lxor_spec, !Z.land_spec. by destruct (Z.testbit a i), (Z.testbit b i), (Z.testbit _ i).
Qed.
Lemma lxor_byte a b : is_byte a → is_byte b → is_byte (Z.lxor a b).
Proof.
  unfold is_byte. intros Ha Hb. assert (0 ≤ Z.lxor a b) as Hn by (apply Z.lxor_nonneg; lia). split; [done|].
  destruct (Z.eq_dec (Z.lxor a b) 0) as [->|]; [lia|]. change 256 with (2 ^ 8). apply Z.log2_lt_pow2; [lia|].
  assert (∀ x, 0 ≤ x < 256 → Z.log2 x < 8) as Hlog.
  { intros x Hx. destruct (Z.eq_dec x 0) as [->|]; [done|]. apply Z.log2_lt_pow2; lia. }
  pose proof (Z.log2_lxor a b ltac:(lia) ltac:(lia)). pose proof (Hlog a Ha). pose proof (Hlog b Hb). lia.
Qed.
Lemma mod_byte x : is_byte (x mod 256).
Proof. unfold is_byte. by apply Z.mod_pos_bound. Qed.
Lemma dist_cmp_snoc t a b t0 a0 b0 : length a = length t → length b = length t →
  dist_cmp (t ++ [t0]) (a ++ [a0]) (b ++ [b0]) = if dist_cmp t a b =? 0 then dist_cmp [t0] [a0] [b0] else dist_cmp t a b.
Proof.
  revert a b. induction t as [|x t IH]; intros [|y a] [|z b] Ha Hb; try done. cbn [app dist_cmp]. cbv zeta.
  destruct (_ <? _); [done|]. destruct (_ <? _); [done|]. injection Ha as Ha. injection Hb as Hb. by rewrite IH.
Qed.
Definition sign_of (c : comparison) : Z := match c with Gt => 1 | Lt => -1 | Eq => 0 end.
Lemma dist_cmp_array n t a b : 0 ≤ t < 256 ^ Z.of_nat n → 0 ≤ a < 256 ^ Z.of_nat n → 0 ≤ b < 256 ^ Z.of_nat n →
  dist_cmp (array_bytes n t) (array_bytes n a) (array_bytes n b) = sign_of (distance t a ?= distance t b).
Proof.
  revert t a b. induction n as [|n IH]; intros t a b Ht Ha Hb.
  { change (256 ^ Z.of_nat 0) with 1 in *. assert (t = 0) as -> by lia. assert (a = 0) as -> by lia. by assert (b = 0) as -> by lia. }
  assert (∀ x, 0 ≤ x < 256 ^ Z.of_nat (S n) → 0 ≤ x / 256 < 256 ^ Z.of_nat n) as Hdiv.
  { intros x Hx. rewrite Nat2Z.inj_succ, Z.pow_succ_r in Hx by lia. split; [apply Z.div_pos; lia|apply Z.div_lt_upper_bound; lia]. }
  cbn [array_bytes]. rewrite dist_cmp_snoc by by rewrite !array_bytes_length. rewrite IH by by apply Hdiv.
  unfold distance. rewrite (lxor_bytes a t), (lxor_bytes b t). cbn [dist_cmp]. cbv zeta.
  pose proof (lxor_byte (a mod 256) (t mod 256) (mod_byte a) (mod_byte t)) as H1. pose proof (lxor_byte (b mod 256) (t mod 256) (mod_byte b) (mod_byte t)) as H2.
  set (x := Z.lxor (a mod 256) _) in *. set (y := Z.lxor (b mod 256) _) in *. set (u := Z.lxor (a / 256) _). set (v := Z.lxor (b / 256) _). unfold is_byte in *. clearbody x y u v.
  destruct (Z.compare_spec u v) as [->|Huv|Huv]; cbn [sign_of].
  - change (0 =? 0) with true. cbn iota. destruct (Z.compare_spec (256 * v + x) (256 * v + y)); cbn [sign_of];
      destruct (Z.ltb_spec y x); try lia; destruct (Z.ltb_spec x y); lia.
  - change (-1 =? 0) with false. cbn iota. destruct (Z.compare_spec (256 * u + x) (256 * v + y)); [lia|done|lia].
  - change (1 =? 0) with false. cbn iota. destruct (Z.compare_spec (256 * u + x) (256 * v + y)); [lia|lia|done].
Qed.
Lemma DistCmp_spec t a b : is_id t → is_id a → is_id b → DistCmp t a b = sign_of (distance t a ?= distance t b).
Proof. apply dist_cmp_array. Qed.
Lemma DistCmp_pos t a b : is_id t → is_id a → is_id b → (0 <? DistCmp t a b) = (distance t b <? distance t a).
Proof. intros Ht Ha Hb. rewrite DistCmp_spec by done. destruct (Z.compare_spec (distance t a) (distance t b)); cbn [sign_of]; [|symmetry; apply Z.ltb_ge; lia|symmetry; by apply Z.ltb_lt]. symmetry. apply Z.ltb_ge. lia. Qed.
Lemma distance_inj t a b : distance t a = distance t b → a = b.
Proof. unfold distance. intros Heq. rewrite <- (Z.lxor_0_r a), <- (Z.lxor_0_r b), <- (Z.lxor_nilpotent t), <- !Z.lxor_assoc. by rewrite Heq. Qed.

Definition log_distance (x : Z) : Z := if x =? 0 then 0 else Z.log2 x + 1.
Lemma leading_zeros_bound a b : Forall is_byte a → Forall is_byte b → length a = length b → 0 ≤ leading_zeros a b ≤ 8 * Z.of_nat (length a).
Proof.
  intros Ha. revert b. induction Ha as [|x a Hx _ IH]; intros [|y b] Hb Hl; try done. apply Forall_cons in Hb as [Hy Hb]. injection Hl as Hl. specialize (IH b Hb Hl).
  cbn [leading_zeros length]. cbv zeta. pose proof (lxor_byte x y Hx Hy) as Hxy. destruct (Z.eqb_spec (Z.lxor x y) 0) as [|Hne]; [lia|].
  unfold LeadingZeros8. rewrite (proj2 (Z.eqb_neq _ _) Hne). unfold is_byte in Hxy. assert (Z.log2 (Z.lxor x y) < 8) by (apply Z.log2_lt_pow2; lia). pose proof (Z.log2_nonneg (Z.lxor x y)). lia.
Qed.
Lemma array_bytes_byte n x : Forall is_byte (array_bytes n x).
Proof. revert x. induction n as [|n IH]; intros x; cbn; [constructor|]. apply Forall_app. split; [done|]. constructor; [apply mod_byte|constructor]. Qed.
Lemma leading_zeros_snoc a b x y : length a = length b → leading_zeros (a ++ [x]) (b ++ [y]) = if decide (a = b) then 8 * Z.of_nat (length a) + (if Z.lxor x y =? 0 then 8 else LeadingZeros8 (Z.lxor x y)) else leading_zeros a b.
Proof.
  revert b. induction a as [|z a IH]; intros [|w b] Hl; try done; cbn [app leading_zeros length]; cbv zeta.
  injection Hl as Hl. rewrite IH by done. destruct (Z.eqb_spec (Z.lxor z w) 0) as [Hz%Z.lxor_eq|Hz].
  - subst w. repeat case_decide; try congruence; lia.
  - rewrite decide_False; [done|]. intros [= -> ->]. by rewrite Z.lxor_nilpotent in Hz.
Qed.
Lemma lxor_zero a b : Z.lxor a b = 0 ↔ a = b.
Proof. split; [apply Z.lxor_eq|intros ->; apply Z.lxor_nilpotent]. Qed.
Lemma log2_byte u x : 0 < u → is_byte x → Z.log2 (256 * u + x) = Z.log2 u + 8.
Proof.
  intros Hu Hx. unfold is_byte in Hx. pose proof (Z.log2_spec u Hu) as [Hl Hh]. pose proof (Z.log2_nonneg u). apply Z.log2_unique; [lia|].
  replace (Z.succ (Z.log2 u + 8)) with (Z.succ (Z.log2 u) + 8) by lia. rewrite !Z.pow_add_r by lia. change (2 ^ 8) with 256. lia.
Qed.
Lemma leading_zeros_array n a b : 0 ≤ a < 256 ^ Z.of_nat n → 0 ≤ b < 256 ^ Z.of_nat n →
  leading_zeros (array_bytes n a) (array_bytes n b) = 8 * Z.of_nat n - log_distance (Z.lxor a b).
Proof.
  revert a b. induction n as [|n IH]; intros a b Ha Hb.
  { change (256 ^ Z.of_nat 0) with 1 in *. assert (a = 0) as -> by lia. by assert (b = 0) as -> by lia. }
  assert (∀ x, 0 ≤ x < 256 ^ Z.of_nat (S n) → 0 ≤ x / 256 < 256 ^ Z.of_nat n) as Hdiv.
  { intros x Hx. rewrite Nat2Z.inj_succ, Z.pow_succ_r in Hx by lia. split; [apply Z.div_pos; lia|apply Z.div_lt_upper_bound; lia]. }
  cbn [array_bytes]. rewrite leading_zeros_snoc, array_bytes_length by by rewrite !array_bytes_length.
  rewrite (lxor_bytes a b). pose proof (lxor_byte _ _ (mod_byte a) (mod_byte b)) as Hx. unfold log_distance. case_decide as Heq.
  - apply array_bytes_inj in Heq; [|by apply Hdiv..]. rewrite Heq, Z.lxor_nilpotent, Z.mul_0_r, Z.add_0_l.
    set (x := Z.lxor _ _) in *. unfold LeadingZeros8. destruct (Z.eqb_spec x 0); lia.
  - rewrite IH by by apply Hdiv. assert (Z.lxor (a / 256) (b / 256) ≠ 0) as Hne by (intros Hz%Z.lxor_eq; apply Heq; by rewrite Hz).
    assert (0 ≤ Z.lxor (a / 256) (b / 256)) as Hnn by (apply Z.lxor_nonneg; pose proof (Hdiv a Ha); pose proof (Hdiv b Hb); lia).
    unfold log_distance. set (u := Z.lxor (a / 256) _) in *. set (x := Z.lxor _ _) in *. rewrite (proj2 (Z.eqb_neq u 0) Hne). unfold is_byte in Hx.
    rewrite (proj2 (Z.eqb_neq (256 * u + x) 0)) by lia. rewrite log2_byte by (done || lia). lia.
Qed.
Lemma LogDist_spec a b : is_id a → is_id b → LogDist a b = log_distance (Z.lxor a b).
Proof. intros Ha Hb. unfold LogDist, id_bytes. rewrite leading_zeros_array by done. lia. Qed.
Lemma LogDist_range a b : 0 ≤ LogDist a b ≤ 256.
Proof.
  unfold LogDist, id_bytes. pose proof (leading_zeros_bound (array_bytes 32 a) (array_bytes 32 b) (array_bytes_byte _ _) (array_bytes_byte _ _)) as Hb.
  rewrite !array_bytes_length in Hb. specialize (Hb eq_refl). lia.
Qed.

(** * Nodes and lists of nodes

    An [INode] is a pointer ([nKey]); maps are keyed by the pointer or by the
    identity. *)
Record INode := mkINode { nKey : Z; nID : ID }.
#[export] Instance INode_eq_dec : EqDecision INode.
Proof. solve_decision. Defined.
#[export] Instance INode_countable : Countable INode.
Proof. by apply (inj_countable' (λ n, (nKey n, nID n)) (λ p, mkINode p.1 p.2)); intros []. Defined.

Definition contains (ns : list INode) (id : ID) : bool := existsb (λ n, nID n =? id) ns.
Definition pushNode {E} (list : list INode) (n : INode) (max : nat) : Result E (List.list INode * option INode) :=
  if (length list <? max)%nat then Ok (n :: list, None)
  else match last list with
       | None => Panic IndexOutOfRange
       | Some removed => Ok (n :: take (pred (length list)) list, Some removed)
       end.
Fixpoint deleteNode (list : list INode) (n : INode) : List.list INode :=
  match list with
  | [] => []
  | x :: list => if nID x =? nID n then list else x :: deleteNode list n
  end.

(** [sort.Search]: the smallest index at which [f] holds, by bisection. *)
Fixpoint search_loop (fuel i j : nat) (f : nat → bool) : nat :=
  match fuel with
  | O => i
  | S fuel => if (i <? j)%nat then
                let h := ((i + j) / 2)%nat in
                if negb (f h) then search_loop fuel (S h) j f else search_loop fuel i h f
              else i
  end.
Definition sort_Search (n : nat) (f : nat → bool) : nat := search_loop (S n) 0 n f.

(** Nodes in the order of their distance to a target. *)
Record nodesByDistance := mkNodesByDistance { nb_entries : list INode; nb_target : ID }.
Definition push (h : nodesByDistance) (n : INode) (maxElems : nat) : nodesByDistance :=
  let ix := sort_Search (length (nb_entries h)) (λ i, match nb_entries h !! i with Some e => 0 <? DistCmp (nb_target h) (nID e) (nID n) | None => false end) in
  let entries := if (length (nb_entries h) <? maxElems)%nat then nb_entries h ++ [n] else nb_entries h in
  if (ix =? length entries)%nat then mkNodesByDistance entries (nb_target h)
  else mkNodesByDistance (take ix entries ++ n :: take (length entries - ix - 1) (drop ix entries)) (nb_target h).

(** * State *)
Record bucket := mkBucket { bk_entries : list INode; bk_replacements : list INode }.
(** [DB]: maps keyed by identity.  No live nodes and nil are not told apart. *)
Record DB := mkDB { db_fails : gmap ID Z; db_lastPingReceived : gmap ID Z; db_lastPongReceived : gmap ID Z; db_lastLiveNodes : list INode }.
Definition newDB : DB := mkDB ∅ ∅ ∅ [].
Record Table := mkTable {
  tb_self : INode;
  tb_buckets : list bucket;
  tb_nursery : list INode;
  tb_db : DB;
  tb_livenessChecks : gmap INode Z;
  tb_addedAt : gmap INode Z
}.
Definition set_buckets (bs : list bucket) (tab : Table) : Table := mkTable (tb_self tab) bs (tb_nursery tab) (tb_db tab) (tb_livenessChecks tab) (tb_addedAt tab).
Definition set_db (f : DB → DB) (tab : Table) : Table := mkTable (tb_self tab) (tb_buckets tab) (tb_nursery tab) (f (tb_db tab)) (tb_livenessChecks tab) (tb_addedAt tab).
Definition set_livenessChecks (f : gmap INode Z → gmap INode Z) (tab : Table) : Table := mkTable (tb_self tab) (tb_buckets tab) (tb_nursery tab) (tb_db tab) (f (tb_livenessChecks tab)) (tb_addedAt tab).
Definition set_addedAt (f : gmap INode Z → gmap INode Z) (tab : Table) : Table := mkTable (tb_self tab) (tb_buckets tab) (tb_nursery tab) (tb_db tab) (tb_livenessChecks tab) (f (tb_addedAt tab)).

Definition FindFails (n : INode) (db : DB) : Z := default 0 (db_fails db !! nID n).
Definition UpdateFindFails (n : INode) (fails : Z) (db : DB) : DB := mkDB (<[nID n := fails]> (db_fails db)) (db_lastPingReceived db) (db_lastPongReceived db) (db_lastLiveNodes db).
Definition LastPingReceived (n : INode) (db : DB) : Z := default 0 (db_lastPingReceived db !! nID n).
Definition UpdateLastPingReceived (n : INode) (time : Z) (db : DB) : DB := mkDB (db_fails db) (<[nID n := time]> (db_lastPingReceived db)) (db_lastPongReceived db) (db_lastLiveNodes db).
Definition LastPongReceived (n : INode) (db : DB) : Z := default 0 (db_lastPongReceived db !! nID n).
Definition UpdateLastPongReceived (n : INode) (time : Z) (db : DB) : DB := mkDB (db_fails db) (db_lastPingReceived db) (<[nID n := time]> (db_lastPongReceived db)) (db_lastLiveNodes db).

(** * Operations *)
Abbreviation M := (GoM Table Empty_set).
(** The bucket of an identity, by its number. *)
Definition bucket_number (self id : ID) : nat :=
  let d := LogDist self id in Z.to_nat (if d <=? bucketMinDistance then 0 else d - bucketMinDistance - 1).
Definition get_bucket (i : nat) : M bucket :=
  tab ← get_state;
  match tb_buckets tab !! i with Some b => mret b | None => panic IndexOutOfRange end.
Definition set_bucket (i : nat) (b : bucket) : M unit := modify (λ tab, set_buckets (<[i := b]> (tb_buckets tab)) tab).

Definition addReplacement (i : nat) (n : INode) : M unit :=
  b ← get_bucket i;
  if contains (bk_replacements b) (nID n) then mret tt else
  '(replacements, _) ← lift (pushNode (bk_replacements b) n maxReplacements);
  set_bucket i (mkBucket (bk_entries b) replacements).
Definition bumpInBucket (i : nat) (n : INode) : M bool :=
  b ← get_bucket i;
  match list_find (λ e, nID e = nID n) (bk_entries b) with
  | None => mret false
  | Some (k, _) => set_bucket i (mkBucket (n :: take k (bk_entries b) ++ drop (S k) (bk_entries b)) (bk_replacements b));; mret true
  end.
Definition deleteInBucket (i : nat) (n : INode) : M unit :=
  b ← get_bucket i;
  set_bucket i (mkBucket (deleteNode (bk_entries b) n) (bk_replacements b)).

Definition addSeenNode (now : Z) (n : INode) : M unit :=
  tab ← get_state;
  if nID n =? nID (tb_self tab) then mret tt else
  let i := bucket_number (nID (tb_self tab)) (nID n) in
  b ← get_bucket i;
  if contains (bk_entries b) (nID n) then mret tt else
  if (bucketSize <=? length (bk_entries b))%nat then addReplacement i n else
  set_bucket i (mkBucket (bk_entries b ++ [n]) (deleteNode (bk_replacements b) n));;
  modify (set_addedAt <[n := now]>).
Definition addVerifiedNode (now : Z) (n : INode) : M unit :=
  tab ← get_state;
  if nID n =? nID (tb_self tab) then mret tt else
  let i := bucket_number (nID (tb_self tab)) (nID n) in
  bumped ← bumpInBucket i n;
  if bumped : bool then mret tt else
  b ← get_bucket i;
  if (bucketSize <=? length (bk_entries b))%nat then addReplacement i n else
  '(entries, _) ← lift (pushNode (bk_entries b) n bucketSize);
  set_bucket i (mkBucket entries (deleteNode (bk_replacements b) n));;
  modify (set_addedAt <[n := now]>).
(** [Table.delete] *)
Definition table_delete (n : INode) : M unit :=
  tab ← get_state;
  deleteInBucket (bucket_number (nID (tb_self tab)) (nID n)) n.
(** [rand.Intn(n)] draws a number below [n]; [draw] is the source. *)
Definition Intn (draw n : nat) : nat := (draw mod n)%nat.
Definition replace (draw i : nat) (last_n : INode) : M (option INode) :=
  b ← get_bucket i;
  match last (bk_entries b) with
  | None => mret None
  | Some e =>
      if negb (nID e =? nID last_n) then mret None else
      if (length (bk_replacements b) =? 0)%nat then deleteInBucket i last_n;; mret None else
      match bk_replacements b !! Intn draw (length (bk_replacements b)) with
      | None => panic IndexOutOfRange
      | Some r =>
          set_bucket i (mkBucket (take (pred (length (bk_entries b))) (bk_entries b) ++ [r]) (deleteNode (bk_replacements b) r));;
          mret (Some r)
      end
  end.

(** ** Revalidation *)
(** The last node of the first bucket that has one, the buckets taken in the
    order [perm] of [rand.Perm]. *)
Definition nodeToRevalidate (perm : list nat) (tab : Table) : option (INode * nat) :=
  head (omap (λ bi, b ← tb_buckets tab !! bi; n ← last (bk_entries b); Some (n, bi)) perm).
(** What [doRevalidate] does when the answer to its ping arrives, or does not. *)
Definition revalidated (draw bi : nat) (last_n : INode) (alive : bool) : M unit :=
  _ ← get_bucket bi;
  if alive then modify (set_livenessChecks (λ c, <[last_n := (default 0 (c !! last_n) + 1)%u64]> c));; bumpInBucket bi last_n;; mret tt
  else replace draw bi last_n;; mret tt.

(** ** Queries *)
Definition all_entries (tab : Table) : list INode := concat (bk_entries <$> tb_buckets tab).
Definition is_live (tab : Table) (n : INode) : bool := 0 <? default 0 (tb_livenessChecks tab !! n).
Definition closest (target : ID) (nresults : nat) (tab : Table) : nodesByDistance :=
  foldl (λ close n, if is_live tab n then push close n nresults else close) (mkNodesByDistance [] target) (all_entries tab).
Definition table_len (tab : Table) : nat := length (all_entries tab).
Definition getLiveNodes (now maxAge : Z) (tab : Table) : list INode :=
  filter (λ n, is_live tab n ∧ seedMinTableTime <= now - default 0 (tb_addedAt tab !! n) ∧ now - LastPongReceived n (tb_db tab) <= maxAge) (all_entries tab).

(** The shuffle of [ReadRandomNodes], and its loop: [i] nodes are read, the next
    one comes from the bucket [j]. *)
Fixpoint shuffle (i : nat) (draws : nat → nat) (buckets : list (list INode)) : list (list INode) :=
  match i with
  | O => buckets
  | S i' =>
      let j := Intn (draws i) (length buckets) in
      let swapped := match buckets !! i, buckets !! j with Some x, Some y => <[j := x]> (<[i := y]> buckets) | _, _ => buckets end in
      shuffle i' draws swapped
  end.
Fixpoint read_loop (more i j : nat) (buckets : list (list INode)) (buf : list INode) : Result Empty_set (list INode * nat) :=
  match more with
  | O => Ok (buf, S i)
  | S more =>
      match buckets !! j with
      | Some (x :: rest) =>
          let buf := buf ++ [x] in
          let buckets := if (length rest =? 0)%nat then delete j buckets else <[j := rest]> buckets in
          if (length buckets =? 0)%nat then Ok (buf, S i) else read_loop more (S i) ((j + 1) mod length buckets)%nat buckets buf
      | _ => Panic IndexOutOfRange
      end
  end.
(** What is written to a buffer of [room] nodes, and the count returned. *)
Definition ReadRandomNodes (draws : nat → nat) (room : nat) (tab : Table) : Result Empty_set (list INode * nat) :=
  let buckets := filter (λ b, b ≠ []) (bk_entries <$> tb_buckets tab) in
  if (length buckets =? 0)%nat then Ok ([], O)
  else read_loop room 0 0 (shuffle (pred (length buckets)) draws buckets) [].

(** ** Seeds *)
(** [findNode] of [db.go]: the first node at or above an identity. *)
Definition db_findNode (nodes : list INode) (id : ID) : option INode := head (filter (λ n, id <= nID n) nodes).
Definition first_byte (id : ID) : byte := id / 256 ^ 31.
Definition set_first_byte (b : byte) (id : ID) : ID := b * 256 ^ 31 + id mod 256 ^ 31.
(** Every turn of the loop reads 32 random bytes. *)
Fixpoint seek_seeds (n : nat) (live : list INode) (rands : list ID) (id : ID) (nodes : list INode) : list INode :=
  match rands with
  | [] => nodes
  | r :: rands =>
      if (n <=? length nodes)%nat then nodes else
      let id := set_first_byte ((first_byte id + first_byte r mod 16) mod 256) r in
      match db_findNode live id with
      | None => seek_seeds n live rands (set_first_byte 0 id) nodes
      | Some x => seek_seeds n live rands id (if contains nodes (nID x) then nodes else nodes ++ [x])
      end
  end.
(** [rands] is what [crand.Read] yields. *)
Definition QuerySeeds (n : nat) (rands : nat → ID) (db : DB) : list INode * DB :=
  match db_lastLiveNodes db with
  | [] => ([], db)
  | live => (seek_seeds n live (rands <$> seq 0 (n * 5)) 0 [], mkDB (db_fails db) (db_lastPingReceived db) (db_lastPongReceived db) [])
  end.
Definition loadSeedNodes (now : Z) (rands : nat → ID) : M unit :=
  tab ← get_state;
  let '(nodes, db) := QuerySeeds seedCount rands (tb_db tab) in
  modify (set_db (λ _, db));;
  for_each (nodes ++ tb_nursery tab) (addSeenNode now).
Definition copyLiveNodes (now : Z) : M unit :=
  modify (λ tab, set_db (λ db, mkDB (db_fails db) (db_lastPingReceived db) (db_lastPongReceived db) (getLiveNodes now seedMaxAge tab)) tab).
(** [goOnline], before its lookups; [newTable] *)
Definition goOnline (now : Z) (rands : nat → ID) : M unit :=
  modify (λ tab, mkTable (tb_self tab) (replicate (Z.to_nat nBuckets) (mkBucket [] [])) (tb_nursery tab) (tb_db tab) ∅ ∅);;
  loadSeedNodes now rands.
Definition newTable (self : INode) (bootstrapNodes : list INode) (db : DB) : Table := mkTable self [] bootstrapNodes db ∅ ∅.

(** ** Answers to findnode, and packets *)
(** What [Table.findnode] does with the answer of [n]: no nodes and possibly a
    timeout, or a list. *)
Definition findnode_answered (now : Z) (n : INode) (timeout : bool) (nodes : option (list INode)) : M unit :=
  tab ← get_state;
  let fails := FindFails n (tb_db tab) in
  (if timeout then
     modify (set_db (UpdateFindFails n (fails + 1)));;
     if maxFindnodeFailures <=? fails + 1 then table_delete n else mret tt
   else if 0 <? fails then modify (set_db (UpdateFindFails n (fails - 1))) else mret tt);;
  match nodes with Some r => for_each r (addSeenNode now) | None => mret tt end.

(** * Packets ([udp.go])

    What a node sends is to the node it heard from.  The target of a findnode
    packet is the hash of the key it carries. *)
Definition bondExpiration : Z := 24 * 3600.
Inductive packet := Ping | Pong | Findnode (target : ID) | Neighbors (entries : list INode).
(** A message: its packet, its sender, when it expires, whether it answers one. *)
Record Message := mkMessage { msg_packet : packet; msg_From : INode; msg_Expiration : Z; msg_responds : bool }.
Definition HasExpired (now : Z) (m : Message) : bool := msg_Expiration m <? now.
Definition isMsgValid (now : Z) (m : Message) : bool := if HasExpired now m then false else true.
Definition preverify (now : Z) (m : Message) (tab : Table) : bool :=
  match msg_packet m with
  | Ping => isMsgValid now m
  | Pong | Neighbors _ => if negb (isMsgValid now m) then false else msg_responds m
  | Findnode _ => if negb (isMsgValid now m) then false else negb (bondExpiration <? now - LastPongReceived (msg_From m) (tb_db tab))
  end.
Definition handle (now : Z) (from : INode) (p : packet) : M (list packet) :=
  match p with
  | Ping =>
      tab ← get_state;
      pinged ← (if bondExpiration <? now - LastPongReceived from (tb_db tab) then mret [Ping] else addVerifiedNode now from;; mret []);
      modify (set_db (UpdateLastPingReceived from now));;
      mret (Pong :: pinged)
  | Pong => modify (set_db (UpdateLastPongReceived from now));; mret []
  | Findnode target => tab ← get_state; mret [Neighbors (nb_entries (closest target bucketSize tab))]
  | Neighbors _ => mret []
  end.
Definition handlePacket (now : Z) (m : Message) : M (list packet) :=
  tab ← get_state;
  if preverify now m tab then handle now (msg_From m) (msg_packet m) else mret [].
(** The callback of the ping that [handle] sends back; its error is not read. *)
Definition ping_answered (now : Z) (from : INode) (timeout : bool) : M unit := addVerifiedNode now from.
(** Whether [UDP.findnode] pings first. *)
Definition pings_first (now : Z) (n : INode) (tab : Table) : bool := bondExpiration <? now - LastPingReceived n (tb_db tab).

(** * A node's table over time

    What can happen to a table, apart from revalidation. *)
Inductive table_op :=
  | OpPacket (now : Z) (m : Message)
  | OpPingAnswered (now : Z) (n : INode) (timeout : bool)
  | OpFindnodeAnswered (now : Z) (n : INode) (timeout : bool) (nodes : option (list INode))
  | OpLoadSeeds (now : Z) (rands : nat → ID)
  | OpGoOffline (now : Z)
  | OpGoOnline (now : Z) (rands : nat → ID).
(** Ends with what is sent. *)
Definition run_op (op : table_op) : M (list packet) :=
  match op with
  | OpPacket now m => handlePacket now m
  | OpPingAnswered now n timeout => ping_answered now n timeout;; mret []
  | OpFindnodeAnswered now n timeout nodes => findnode_answered now n timeout nodes;; mret []
  | OpLoadSeeds now rands => loadSeedNodes now rands;; mret []
  | OpGoOffline now => copyLiveNodes now;; mret []
  | OpGoOnline now rands => goOnline now rands;; mret []
  end.
(** The table, the pings of [doRevalidate] that have no answer yet, the events
    so far. *)
Record node_state := mkNodeState { ns_table : Table; ns_pings : list (INode * nat); ns_trace : list table_op }.
Inductive table_step : node_state → node_state → Prop :=
  | step_op op tab pings trace sent tab' : run_op op tab = (Ok sent, tab') →
      table_step (mkNodeState tab pings trace) (mkNodeState tab' pings (op :: trace))
  | step_doRevalidate perm tab pings trace p : nodeToRevalidate perm tab = Some p →
      table_step (mkNodeState tab pings trace) (mkNodeState tab (p :: pings) trace)
  | step_revalidated draw n bi alive tab pings trace tab' : (n, bi) ∈ pings → revalidated draw bi n alive tab = (Ok tt, tab') →
      table_step (mkNodeState tab pings trace) (mkNodeState tab' pings trace).
(** A node's life begins online ([newTable]). *)
Inductive reachable (self : INode) (bootstrapNodes : list INode) : node_state → Prop :=
  | reachable_new now rands tab : goOnline now rands (newTable self bootstrapNodes newDB) = (Ok tt, tab) → reachable self bootstrapNodes (mkNodeState tab [] [])
  | reachable_step s s' : reachable self bootstrapNodes s → table_step s s' → reachable self bootstrapNodes s'.
