(* ===== verification/DiscSpec.v ===== *)
(** What the discovery table keeps, and what it answers: buckets stay within
    their bounds and hold every node once, in its place; [closest] finds the
    nearest live nodes; [ReadRandomNodes] reads no node twice. *)
From S2P Require Import Prelude Hoare Types DiscTable.

(** * Lists of nodes, by identity *)
Abbreviation ids := (fmap nID).
Lemma contains_elem l id : contains l id = true ↔ id ∈ ids l.
Proof.
  unfold contains. rewrite existsb_exists, list_elem_of_fmap. split; intros (x & Hx & Hy); exists x.
  - apply Z.eqb_eq in Hy. by rewrite list_elem_of_In.
  - subst. rewrite Z.eqb_refl. by rewrite <- list_elem_of_In.
Qed.
Lemma contains_not l id : contains l id = false ↔ id ∉ ids l.
Proof. rewrite <- contains_elem. by destruct (contains l id). Qed.
Lemma deleteNode_absent l n : nID n ∉ ids l → deleteNode l n = l.
Proof.
  induction l as [|x l IH]; [done|]. rewrite fmap_cons, not_elem_of_cons. intros [Hx Hl]. cbn [deleteNode].
  rewrite (proj2 (Z.eqb_neq _ _)) by congruence. by rewrite IH.
Qed.
Lemma deleteNode_present l n : nID n ∈ ids l → ids l ≡ₚ nID n :: ids (deleteNode l n).
Proof.
  induction l as [|x l IH]; [by intros ?%not_elem_of_nil|]. cbn [deleteNode]. destruct (Z.eqb_spec (nID x) (nID n)) as [Hx|Hx]; [by rewrite fmap_cons, Hx|].
  rewrite !fmap_cons, elem_of_cons. intros [?|Hl]; [congruence|]. rewrite (IH Hl). apply Permutation_swap.
Qed.
Lemma deleteNode_sub l n : ids (deleteNode l n) ⊆+ ids l.
Proof.
  destruct (decide (nID n ∈ ids l)) as [Hin|Hin]; [|by rewrite deleteNode_absent]. rewrite (deleteNode_present l n Hin). by apply submseteq_cons.
Qed.
Lemma deleteNode_length l n : (length (deleteNode l n) ≤ length l)%nat.
Proof. induction l as [|x l IH]; cbn; [done|]. destruct (_ =? _); cbn; lia. Qed.
Lemma take_sub {A B} (f : A → B) k l : f <$> take k l ⊆+ f <$> l.
Proof. rewrite <- (take_drop k l) at 2. rewrite fmap_app. by apply submseteq_inserts_r. Qed.
Lemma pushNode_ok {E} l n max : (length l ≤ max)%nat → (0 < max)%nat →
  ∃ k r, pushNode (E := E) l n max = Ok (n :: take k l, r) ∧ (length (n :: take k l) ≤ max)%nat.
Proof.
  intros Hl Hm. unfold pushNode. destruct (Nat.ltb_spec (length l) max) as [Hlt|Hge].
  - exists (length l), None. rewrite firstn_all. split; [done|]. cbn. lia.
  - destruct l as [|x l' _] using rev_ind; [cbn in *; lia|]. rewrite last_snoc. exists (pred (length (l' ++ [x]))), (Some x). split; [done|]. cbn [length]. rewrite length_take. lia.
Qed.

(** * The invariant *)
Definition bucket_ids (b : bucket) : list ID := ids (bk_entries b ++ bk_replacements b).
Record bucket_ok (self : ID) (i : nat) (b : bucket) : Prop := {
  bo_entries : (length (bk_entries b) ≤ bucketSize)%nat;
  bo_replacements : (length (bk_replacements b) ≤ maxReplacements)%nat;
  bo_nodup : NoDup (bucket_ids b);
  bo_place id : id ∈ bucket_ids b → id ≠ self ∧ bucket_number self id = i
}.
Record table_ok (self : INode) (tab : Table) : Prop := {
  to_self : tb_self tab = self;
  to_buckets : length (tb_buckets tab) = Z.to_nat nBuckets;
  to_bucket i b : tb_buckets tab !! i = Some b → bucket_ok (nID self) i b
}.
Lemma bucket_ok_empty self i : bucket_ok self i (mkBucket [] []).
Proof. split; cbn; [lia|lia|constructor|]. by intros id ?%not_elem_of_nil. Qed.
(** A bucket that takes in the identities [new]. *)
Lemma bucket_ok_change self i b b' new : bucket_ok self i b → bucket_ids b' ⊆+ new ++ bucket_ids b → NoDup new →
  (∀ id, id ∈ new → id ∉ bucket_ids b ∧ id ≠ self ∧ bucket_number self id = i) →
  (length (bk_entries b') ≤ bucketSize)%nat → (length (bk_replacements b') ≤ maxReplacements)%nat → bucket_ok self i b'.
Proof.
  intros [Be Br Bn Bp] Hsub Hnd Hnew He Hr. split; [done|done| |].
  - apply submseteq_Permutation in Hsub as [k Hk]. assert (NoDup (new ++ bucket_ids b)) as Hall.
    { apply NoDup_app. split; [done|]. split; [|done]. intros id Hid. by apply Hnew. }
    rewrite Hk in Hall. by apply NoDup_app in Hall as [? _].
  - intros id Hid. apply (elem_of_submseteq _ _ _ Hid) in Hsub as Hid'. clear Hid. rename Hid' into Hid. apply elem_of_app in Hid as [Hid|Hid]; [by apply Hnew|by apply Bp].
Qed.
Lemma bucket_number_range self id : (bucket_number self id < Z.to_nat nBuckets)%nat.
Proof.
  unfold bucket_number. pose proof (LogDist_range self id) as Hr. change bucketMinDistance with 239. change (Z.to_nat nBuckets) with 17%nat. cbv zeta.
  destruct (Z.leb_spec (LogDist self id) 239); lia.
Qed.

Section table.
Context (self : INode).
Abbreviation ok := (table_ok self).
Lemma get_bucket_ok tab i Q : ok tab → (i < Z.to_nat nBuckets)%nat → (∀ b, tb_buckets tab !! i = Some b → bucket_ok (nID self) i b → Q b tab) → returns (get_bucket i) Q tab.
Proof.
  intros Hok Hi HQ. unfold get_bucket. apply returns_bind, wp_get. destruct (tb_buckets tab !! i) as [b|] eqn:Hb.
  - apply wp_ret, HQ; [done|]. by apply (to_bucket _ _ Hok).
  - apply lookup_ge_None in Hb. rewrite (to_buckets _ _ Hok) in Hb. lia.
Qed.
Lemma set_bucket_ok tab i b : ok tab → bucket_ok (nID self) i b → ok (set_buckets (<[i := b]> (tb_buckets tab)) tab).
Proof.
  intros [Ts Tl Tb] Hb. split; [done|cbn; by rewrite length_insert|]. intros j c. cbn. intros [(<- & <- & _)|[_ Hc]]%list_lookup_insert_Some; [done|by apply Tb].
Qed.
Lemma ok_addedAt tab f : ok tab → ok (set_addedAt f tab).
Proof. by intros [? ? ?]. Qed.
Lemma ok_checks tab f : ok tab → ok (set_livenessChecks f tab).
Proof. by intros [? ? ?]. Qed.
Lemma ok_db tab f : ok tab → ok (set_db f tab).
Proof. by intros [? ? ?]. Qed.

Lemma addReplacement_ok tab i n : ok tab → (i < Z.to_nat nBuckets)%nat → nID n ≠ nID self → bucket_number (nID self) (nID n) = i →
  (∀ b, tb_buckets tab !! i = Some b → nID n ∉ ids (bk_entries b)) → returns (addReplacement i n) (λ _, ok) tab.
Proof.
  intros Hok Hi Hs Hn Hni. unfold addReplacement. apply returns_bind, get_bucket_ok; [done|done|]. intros b Hb Hbo. destruct (contains _ _) eqn:Hc; [by apply wp_ret|].
  apply contains_not in Hc. destruct (pushNode_ok (E := Empty_set) (bk_replacements b) n maxReplacements) as (k & r & Hp & Hl); [apply Hbo|unfold maxReplacements; lia|].
  apply returns_bind. eapply wp_lift; [exact Hp|]. apply wp_modify, set_bucket_ok; [done|]. apply (bucket_ok_change _ _ b _ [nID n] Hbo).
  - unfold bucket_ids. cbn [bk_entries bk_replacements]. rewrite !fmap_app, fmap_cons. rewrite Permutation_app_comm. cbn [app]. apply submseteq_skip.
    rewrite Permutation_app_comm. apply submseteq_skips_l, take_sub.
  - apply NoDup_singleton.
  - intros id ->%list_elem_of_singleton. split; [|done]. unfold bucket_ids. rewrite fmap_app, not_elem_of_app. split; [by apply Hni|done].
  - apply Hbo.
  - exact Hl.
Qed.
(** The bucket after a node is added to its entries, at either end. *)
Lemma added_ok i b n entries : bucket_ok (nID self) i b → nID n ≠ nID self → bucket_number (nID self) (nID n) = i → nID n ∉ ids (bk_entries b) →
  ids entries ⊆+ nID n :: ids (bk_entries b) → (length entries ≤ bucketSize)%nat → bucket_ok (nID self) i (mkBucket entries (deleteNode (bk_replacements b) n)).
Proof.
  intros Hbo Hs Hn Hni Hsub Hl. pose proof (deleteNode_length (bk_replacements b) n) as Hdl. pose proof (bo_replacements _ _ _ Hbo) as Hr.
  destruct (decide (nID n ∈ ids (bk_replacements b))) as [Hin|Hin].
  - apply (bucket_ok_change _ _ b _ [] Hbo); [|constructor|by intros id ?%not_elem_of_nil|done|cbn; lia].
    unfold bucket_ids. cbn [app bk_entries bk_replacements]. rewrite !fmap_app. rewrite (deleteNode_present _ _ Hin). etrans; [apply submseteq_skips_r, Hsub|]. cbn [app]. by rewrite Permutation_middle.
  - apply (bucket_ok_change _ _ b _ [nID n] Hbo); [|apply NoDup_singleton| |done|cbn; lia].
    + unfold bucket_ids. cbn [bk_entries bk_replacements]. rewrite !fmap_app, deleteNode_absent by done. by apply (submseteq_skips_r (ids (bk_replacements b)) _ (nID n :: ids (bk_entries b))).
    + intros id ->%list_elem_of_singleton. split; [|done]. unfold bucket_ids. rewrite fmap_app, not_elem_of_app. done.
Qed.
Lemma addSeenNode_ok tab now n : ok tab → returns (addSeenNode now n) (λ _, ok) tab.
Proof.
  intros Hok. unfold addSeenNode. apply returns_bind, wp_get. rewrite (to_self _ _ Hok). destruct (Z.eqb_spec (nID n) (nID self)) as [|Hs]; [by apply wp_ret|]. cbv zeta.
  pose proof (bucket_number_range (nID self) (nID n)) as Hi. apply returns_bind, get_bucket_ok; [done|done|]. intros b Hb Hbo.
  destruct (contains _ _) eqn:Hc; [by apply wp_ret|]. apply contains_not in Hc. destruct (Nat.leb_spec bucketSize (length (bk_entries b))) as [Hf|Hf].
  - apply addReplacement_ok; try done. intros b' Hb'. congruence.
  - apply returns_bind, wp_modify, wp_modify. apply ok_addedAt, set_bucket_ok; [done|]. apply added_ok; try done.
    + rewrite fmap_app. cbn. by rewrite Permutation_app_comm.
    + rewrite length_app. cbn. lia.
Qed.
Lemma list_find_split (l : list INode) n k e : list_find (λ e, nID e = nID n) l = Some (k, e) → nID e = nID n ∧ ids l ≡ₚ nID n :: ids (take k l ++ drop (S k) l) ∧ (length (take k l ++ drop (S k) l) < length l)%nat.
Proof.
  intros (Hk & He & _)%list_find_Some. pose proof (take_drop_middle l k e Hk) as Hl. split; [done|]. split.
  - rewrite <- Hl at 1. rewrite !fmap_app, fmap_cons, He. by rewrite Permutation_middle.
  - rewrite <- Hl at 3. rewrite !length_app. cbn. lia.
Qed.
Lemma bumpInBucket_ok tab i n : ok tab → (i < Z.to_nat nBuckets)%nat →
  returns (bumpInBucket i n) (λ bumped tab', ok tab' ∧ (bumped = false → tab' = tab ∧ ∀ b, tb_buckets tab !! i = Some b → nID n ∉ ids (bk_entries b))) tab.
Proof.
  intros Hok Hi. unfold bumpInBucket. apply returns_bind, get_bucket_ok; [done|done|]. intros b Hb Hbo. destruct (list_find _ _) as [[k e]|] eqn:Hf.
  - apply returns_bind, wp_modify, wp_ret. split; [|done]. apply set_bucket_ok; [done|]. destruct (list_find_split _ _ _ _ Hf) as (He & Hp & Hl).
    pose proof (bo_entries _ _ _ Hbo). pose proof (bo_replacements _ _ _ Hbo).
    apply (bucket_ok_change _ _ b _ [] Hbo); [|constructor|by intros id ?%not_elem_of_nil|cbn [bk_entries length]; lia|done].
    unfold bucket_ids. cbn [bk_entries bk_replacements app]. rewrite fmap_cons, !fmap_app, Hp. cbn [app]. by rewrite fmap_app.
  - apply wp_ret. split; [done|]. intros _. split; [done|]. intros b' Hb'. assert (b' = b) as -> by congruence. intros (e & He & Hin)%list_elem_of_fmap.
    apply list_find_None in Hf. rewrite Forall_forall in Hf. by apply (Hf e Hin).
Qed.
Lemma addVerifiedNode_ok tab now n : ok tab → returns (addVerifiedNode now n) (λ _, ok) tab.
Proof.
  intros Hok. unfold addVerifiedNode. apply returns_bind, wp_get. rewrite (to_self _ _ Hok). destruct (Z.eqb_spec (nID n) (nID self)) as [|Hs]; [by apply wp_ret|]. cbv zeta.
  pose proof (bucket_number_range (nID self) (nID n)) as Hi. apply returns_bind. eapply returns_mono; [by apply bumpInBucket_ok|]. cbn beta.
  intros [] tab' [Hok' Hno]; [by apply wp_ret|]. destruct (Hno eq_refl) as [-> Hni]. apply returns_bind, get_bucket_ok; [done|done|]. intros b Hb Hbo.
  destruct (Nat.leb_spec bucketSize (length (bk_entries b))) as [Hf|Hf]; [by apply addReplacement_ok|].
  destruct (pushNode_ok (E := Empty_set) (bk_entries b) n bucketSize) as (k & r & Hp & Hl); [lia|unfold bucketSize; lia|].
  apply returns_bind. eapply wp_lift; [exact Hp|]. apply returns_bind, wp_modify, wp_modify. apply ok_addedAt, set_bucket_ok; [done|].
  apply added_ok; try done; [by apply Hni|]. rewrite fmap_cons. apply submseteq_skip, take_sub.
Qed.
Lemma deleteInBucket_ok tab i n : ok tab → (i < Z.to_nat nBuckets)%nat → returns (deleteInBucket i n) (λ _, ok) tab.
Proof.
  intros Hok Hi. unfold deleteInBucket. apply returns_bind, get_bucket_ok; [done|done|]. intros b Hb Hbo. apply wp_modify, set_bucket_ok; [done|].
  pose proof (deleteNode_length (bk_entries b) n). pose proof (bo_entries _ _ _ Hbo). apply (bucket_ok_change _ _ b _ [] Hbo); [|constructor|by intros id ?%not_elem_of_nil|cbn; lia|apply Hbo].
  unfold bucket_ids. cbn [bk_entries bk_replacements app]. rewrite !fmap_app. apply submseteq_skips_r, deleteNode_sub.
Qed.
Lemma replace_ok tab draw i n : ok tab → (i < Z.to_nat nBuckets)%nat → returns (replace draw i n) (λ _, ok) tab.
Proof.
  intros Hok Hi. unfold replace. apply returns_bind, get_bucket_ok; [done|done|]. intros b Hb Hbo. destruct (last (bk_entries b)) as [e|] eqn:He; [|by apply wp_ret].
  destruct (negb _); [by apply wp_ret|]. destruct (Nat.eqb_spec (length (bk_replacements b)) 0) as [|Hr].
  { apply returns_bind. eapply returns_mono; [by apply deleteInBucket_ok|]. intros [] ? ?. by apply wp_ret. }
  destruct (_ !! Intn _ _) as [r|] eqn:Hx; [|apply lookup_ge_None in Hx; unfold Intn in Hx; pose proof (Nat.mod_upper_bound draw _ Hr); lia].
  apply returns_bind, wp_modify, wp_ret, set_bucket_ok; [done|]. pose proof (deleteNode_length (bk_replacements b) r). pose proof (bo_entries _ _ _ Hbo) as Hl. pose proof (bo_replacements _ _ _ Hbo).
  assert (nID r ∈ ids (bk_replacements b)) as Hin by (apply list_elem_of_fmap; exists r; split; [done|by apply list_elem_of_lookup_2 in Hx]).
  apply last_Some in He as [l He]. rewrite He in Hl |- *. rewrite length_app in *. cbn [length] in *.
  apply (bucket_ok_change _ _ b _ [] Hbo); [|constructor|by intros id ?%not_elem_of_nil|cbn [bk_entries]; rewrite length_app, length_take, length_app; cbn; lia|cbn; lia].
  unfold bucket_ids. cbn [bk_entries bk_replacements app]. replace (pred (length l + 1)) with (length l) by lia. rewrite take_app_length, He, !fmap_app, (deleteNode_present _ _ Hin), <- !app_assoc.
  apply submseteq_skips_l. cbn. by apply submseteq_cons.
Qed.
Lemma added_each_ok tab now l : ok tab → returns (for_each l (addSeenNode now)) (λ _, ok) tab.
Proof. intros Hok. apply (returns_for_each (λ _, ok)); [done|]. intros x _ s Hs. by apply addSeenNode_ok. Qed.
Lemma loadSeedNodes_ok tab now rands : ok tab → returns (loadSeedNodes now rands) (λ _, ok) tab.
Proof.
  intros Hok. unfold loadSeedNodes. apply returns_bind, wp_get. destruct (QuerySeeds _ _ _) as [nodes db]. apply returns_bind, wp_modify. by apply added_each_ok, ok_db.
Qed.
Lemma revalidated_ok tab draw i n alive : ok tab → (i < Z.to_nat nBuckets)%nat → returns (revalidated draw i n alive) (λ _, ok) tab.
Proof.
  intros Hok Hi. unfold revalidated. apply returns_bind, get_bucket_ok; [done|done|]. intros _ _ _. destruct alive.
  - apply returns_bind, wp_modify, returns_bind. eapply returns_mono; [apply bumpInBucket_ok; [by apply ok_checks|done]|]. intros bumped s' [Hs' _]. by apply wp_ret.
  - apply returns_bind. eapply returns_mono; [by apply replace_ok|]. intros ? ? ?. by apply wp_ret.
Qed.
Lemma findnode_answered_ok tab now n timeout nodes : ok tab → returns (findnode_answered now n timeout nodes) (λ _, ok) tab.
Proof.
  intros Hok. unfold findnode_answered. apply returns_bind, wp_get. cbv zeta. apply returns_bind. apply (returns_mono _ (λ _, ok)).
  - destruct timeout; [|destruct (_ <? _); [by apply wp_modify, ok_db|by apply wp_ret]]. apply returns_bind, wp_modify. destruct (_ <=? _); [|by apply wp_ret, ok_db].
    unfold table_delete. apply returns_bind, wp_get. rewrite (to_self _ _ (ok_db _ _ Hok)). apply deleteInBucket_ok; [by apply ok_db|]. apply bucket_number_range.
  - intros [] s Hs. destruct nodes; [by apply added_each_ok|by apply wp_ret].
Qed.
Lemma handlePacket_ok tab now m : ok tab → returns (handlePacket now m) (λ _, ok) tab.
Proof.
  intros Hok. unfold handlePacket. apply returns_bind, wp_get. destruct (preverify _ _ _); [|by apply wp_ret]. destruct (msg_packet m); cbn [handle].
  - apply returns_bind, wp_get, returns_bind. destruct (_ <? _).
    + apply wp_ret, returns_bind, wp_modify, wp_ret. by apply ok_db.
    + apply returns_bind. eapply returns_mono; [by apply addVerifiedNode_ok|]. intros [] s Hs. apply wp_ret, returns_bind, wp_modify, wp_ret. by apply ok_db.
  - apply returns_bind, wp_modify, wp_ret. by apply ok_db.
  - apply returns_bind, wp_get. by apply wp_ret.
  - by apply wp_ret.
Qed.
Lemma goOnline_ok tab now rands : tb_self tab = self → returns (goOnline now rands) (λ _, ok) tab.
Proof.
  intros Hs. unfold goOnline. apply returns_bind, wp_modify, loadSeedNodes_ok. split; [done|by cbn; rewrite length_replicate|].
  intros i b [-> _]%lookup_replicate_1. apply bucket_ok_empty.
Qed.
End table.

(** * A node's table over time *)
Lemma nodeToRevalidate_bucket perm tab n bi : nodeToRevalidate perm tab = Some (n, bi) → ∃ b, tb_buckets tab !! bi = Some b ∧ last (bk_entries b) = Some n.
Proof.
  unfold nodeToRevalidate. intros Hh. apply head_Some_elem_of in Hh. apply list_elem_of_omap in Hh as (x & _ & Hx).
  destruct (tb_buckets tab !! x) as [b|] eqn:Hb; [|done]. cbn in Hx. destruct (last (bk_entries b)) as [e|] eqn:He; [|done]. cbn in Hx. injection Hx as -> ->. by exists b.
Qed.
Lemma table_op_ok self tab op : table_ok self tab → returns (run_op op) (λ _, table_ok self) tab.
Proof.
  assert (∀ m : M unit, returns m (λ _, table_ok self) tab → returns (m;; mret (@nil packet)) (λ _, table_ok self) tab) as Hthen.
  { intros m Hm. apply returns_bind. eapply returns_mono; [exact Hm|]. intros [] s Hs. by apply wp_ret. }
  intros Hok. destruct op; cbn [run_op].
  - by apply handlePacket_ok.
  - apply Hthen. by apply addVerifiedNode_ok.
  - apply Hthen. by apply findnode_answered_ok.
  - apply Hthen. by apply loadSeedNodes_ok.
  - apply Hthen. unfold copyLiveNodes. by apply wp_modify, ok_db.
  - apply Hthen. apply goOnline_ok. by apply (to_self _ _ Hok).
Qed.
Lemma reachable_ok self boot s : reachable self boot s → table_ok self (ns_table s) ∧ ∀ n bi, (n, bi) ∈ ns_pings s → (bi < Z.to_nat nBuckets)%nat.
Proof.
  induction 1 as [now rands tab Hrun|s s' _ [Hok Hp] Hstep].
  - pose proof (goOnline_ok self (newTable self boot newDB) now rands eq_refl) as Hr. apply returns_run in Hr as (a & tab' & Hr & Hok). rewrite Hrun in Hr. injection Hr as <- <-.
    split; [done|]. by intros n bi ?%not_elem_of_nil.
  - destruct Hstep as [op tab pings trace sent tab' Hrun|perm tab pings trace p Hn|draw n bi alive tab pings trace tab' Hin Hrun]; cbn in *.
    + pose proof (table_op_ok self tab op Hok) as Hr. apply returns_run in Hr as (a & t & Hr & Ht). rewrite Hrun in Hr. injection Hr as <- <-. done.
    + split; [done|]. intros n bi [<-|Hin]%elem_of_cons; [|by eapply Hp]. apply nodeToRevalidate_bucket in Hn as (b & Hb & _). apply lookup_lt_Some in Hb. by rewrite (to_buckets _ _ Hok) in Hb.
    + pose proof (revalidated_ok self tab draw bi n alive Hok (Hp _ _ Hin)) as Hr. apply returns_run in Hr as (a & t & Hr & Ht). rewrite Hrun in Hr. injection Hr as <- <-. done.
Qed.
(** C17: Whatever packets, answers and revalidations a node sees, its table stays
    well formed - at most 16 entries and 10 replacements per bucket, every
    node once in its bucket and in the bucket of its distance, never the node
    itself - and no event makes it panic. *)
Theorem table_stays_well_formed self boot s : reachable self boot s →
  table_ok self (ns_table s) ∧ (∀ op, ∃ sent tab', run_op op (ns_table s) = (Ok sent, tab')) ∧
  (∀ draw n bi alive, (n, bi) ∈ ns_pings s → ∃ tab', revalidated draw bi n alive (ns_table s) = (Ok tt, tab')).
Proof.
  intros Hr. apply reachable_ok in Hr as [Hok Hp]. split; [done|]. split.
  - intros op. pose proof (table_op_ok self _ op Hok) as Ho. apply returns_run in Ho as (sent & tab' & Ho & _). by exists sent, tab'.
  - intros draw n bi alive Hin. pose proof (revalidated_ok self _ draw bi n alive Hok (Hp _ _ Hin)) as Ho. apply returns_run in Ho as ([] & tab' & Ho & _). by exists tab'.
Qed.

(** * Endpoint proofs *)
Section keeps.
Context {X : Type} (f : Table → X).
Definition keeps {A} (m : M A) : Prop := ∀ s r s', m s = (r, s') → f s' = f s.
Lemma fixed_bind {A B} (m : M A) (g : A → M B) : keeps m → (∀ a, keeps (g a)) → keeps (m ≫= g).
Proof.
  intros Hm Hg s r s'. unfold mbind, gom_bind. destruct (m s) as [[a|e|p] s1] eqn:Hs; [|by intros [= <- <-]; eapply Hm..].
  intros Hr. rewrite (Hg _ _ _ _ Hr). by eapply Hm.
Qed.
Lemma fixed_ret {A} (a : A) : keeps (mret a).
Proof. by intros s r s' [= <- <-]. Qed.
Lemma fixed_get : keeps get_state.
Proof. by intros s r s' [= <- <-]. Qed.
Lemma fixed_panic {A} p : keeps (A := A) (panic p).
Proof. by intros s r s' [= <- <-]. Qed.
Lemma fixed_lift {A} (x : Result Empty_set A) : keeps (lift x).
Proof. by intros s r s' [= <- <-]. Qed.
Lemma fixed_modify g : (∀ s, f (g s) = f s) → keeps (modify g).
Proof. by intros Hg s r s' [= <- <-]. Qed.
Lemma fixed_for_each {A} l (body : A → M unit) : (∀ x, keeps (body x)) → keeps (for_each l body).
Proof. intros Hb. induction l as [|x l IH]; cbn [for_each]; [apply fixed_ret|]. by apply fixed_bind. Qed.
End keeps.
Ltac solve_keeps := repeat first [solve [auto with keeps] | apply fixed_bind; intros | apply fixed_ret | apply fixed_get | apply fixed_panic | apply fixed_lift | apply fixed_modify; done | apply fixed_for_each; intros | case_match | progress cbv zeta].
Create HintDb keeps.
Definition pongs (tab : Table) : gmap ID Z := db_lastPongReceived (tb_db tab).
Lemma keeps_get_bucket i : keeps pongs (get_bucket i).
Proof. unfold get_bucket. solve_keeps. Qed.
Lemma keeps_set_bucket i b : keeps pongs (set_bucket i b).
Proof. unfold set_bucket. solve_keeps. Qed.
#[export] Hint Resolve keeps_get_bucket keeps_set_bucket : keeps.
Lemma keeps_addReplacement i n : keeps pongs (addReplacement i n).
Proof. unfold addReplacement. solve_keeps. Qed.
Lemma keeps_bumpInBucket i n : keeps pongs (bumpInBucket i n).
Proof. unfold bumpInBucket. solve_keeps. Qed.
Lemma keeps_deleteInBucket i n : keeps pongs (deleteInBucket i n).
Proof. unfold deleteInBucket. solve_keeps. Qed.
#[export] Hint Resolve keeps_addReplacement keeps_bumpInBucket keeps_deleteInBucket : keeps.
Lemma keeps_addSeenNode now n : keeps pongs (addSeenNode now n).
Proof. unfold addSeenNode. solve_keeps. Qed.
Lemma keeps_addVerifiedNode now n : keeps pongs (addVerifiedNode now n).
Proof. unfold addVerifiedNode. solve_keeps. Qed.
Lemma keeps_table_delete n : keeps pongs (table_delete n).
Proof. unfold table_delete. solve_keeps. Qed.
#[export] Hint Resolve keeps_addSeenNode keeps_addVerifiedNode keeps_table_delete : keeps.
Lemma keeps_replace draw i n : keeps pongs (replace draw i n).
Proof. unfold replace. solve_keeps. Qed.
#[export] Hint Resolve keeps_replace : keeps.
Lemma keeps_revalidated draw bi n alive : keeps pongs (revalidated draw bi n alive).
Proof. unfold revalidated. solve_keeps. Qed.
Lemma keeps_findnode_answered now n timeout nodes : keeps pongs (findnode_answered now n timeout nodes).
Proof. unfold findnode_answered. solve_keeps. Qed.
Lemma QuerySeeds_pongs n rands db : db_lastPongReceived (QuerySeeds n rands db).2 = db_lastPongReceived db.
Proof. unfold QuerySeeds. by destruct (db_lastLiveNodes db). Qed.
Lemma keeps_loadSeedNodes now rands : keeps pongs (loadSeedNodes now rands).
Proof.
  intros s r s'. unfold loadSeedNodes. unfold mbind at 1, gom_bind at 1, get_state. cbv beta iota. pose proof (QuerySeeds_pongs seedCount rands (tb_db s)) as Hq. destruct (QuerySeeds _ _ _) as [nodes db]. cbn [snd] in Hq.
  unfold mbind, gom_bind, modify. cbv beta iota. intros Hr. rewrite (fixed_for_each pongs _ _ (keeps_addSeenNode now) _ _ _ Hr). exact Hq.
Qed.
#[export] Hint Resolve keeps_findnode_answered keeps_loadSeedNodes : keeps.
Lemma keeps_goOnline now rands : keeps pongs (goOnline now rands).
Proof. unfold goOnline. solve_keeps. Qed.
#[export] Hint Resolve keeps_goOnline : keeps.

(** A pong from a node, handled when it came. *)
Definition pong_of (id : ID) (op : table_op) (t : Z) : Prop :=
  ∃ m, op = OpPacket t m ∧ msg_packet m = Pong ∧ msg_responds m = true ∧ nID (msg_From m) = id.
Lemma run_op_pongs op tab sent tab' id t : run_op op tab = (Ok sent, tab') → pongs tab' !! id = Some t → pongs tab !! id = Some t ∨ pong_of id op t.
Proof.
  assert (∀ m : M (list packet), keeps pongs m → m tab = (Ok sent, tab') → pongs tab' !! id = Some t → pongs tab !! id = Some t ∨ pong_of id op t) as Hkeep.
  { intros m Hm Hr. rewrite (Hm _ _ _ Hr). by left. }
  destruct op as [now m| | | | |]; [|apply Hkeep; unfold run_op, ping_answered, copyLiveNodes; solve_keeps..].
  cbn [run_op]. unfold handlePacket. unfold mbind at 1, gom_bind at 1, get_state. cbv beta iota. destruct (preverify now m tab) eqn:Hv; [|by intros [= <- <-] ?; left].
  destruct (msg_packet m) eqn:Hp; cbn [handle]; try (apply Hkeep; solve_keeps; fail).
  intros [= <- <-]. unfold pongs. cbn. intros [[Hid <-]|[_ Ht]]%lookup_insert_Some; [|by left]. right. exists m. unfold preverify in Hv. rewrite Hp in Hv. destruct (negb _) in Hv; done.
Qed.
Lemma reachable_pongs self boot s id t : reachable self boot s → pongs (ns_table s) !! id = Some t → ∃ op, op ∈ ns_trace s ∧ pong_of id op t.
Proof.
  intros Hr. induction Hr as [now rands tab Hrun|s s' _ IH Hstep]; cbn.
  - rewrite (keeps_goOnline _ _ _ _ _ Hrun). done.
  - destruct Hstep as [op tab pings trace sent tab' Hrun|perm tab pings trace p Hn|draw n bi alive tab pings trace tab' Hin Hrun]; cbn in *.
    + intros Ht. destruct (run_op_pongs _ _ _ _ _ _ Hrun Ht) as [Ho|Ho]; [|exists op; split; [left|done]]. destruct (IH Ho) as (op' & ? & ?). exists op'. split; [by right|done].
    + done.
    + rewrite (keeps_revalidated _ _ _ _ _ _ _ Hrun). done.
Qed.
(** A node's neighbours are only sent in answer to a findnode packet that has
    not expired, and they are the nearest live nodes it knows.  The receiver
    answered a ping within [bondExpiration] - or the simulation itself is
    younger than that. *)
Theorem neighbors_need_endpoint_proof self boot s now m sent tab' entries : reachable self boot s →
  handlePacket now m (ns_table s) = (Ok sent, tab') → Neighbors entries ∈ sent →
  (∃ target, msg_packet m = Findnode target ∧ entries = nb_entries (closest target bucketSize (ns_table s))) ∧ now <= msg_Expiration m ∧
  (now <= bondExpiration ∨ ∃ op t, op ∈ ns_trace s ∧ pong_of (nID (msg_From m)) op t ∧ now - t <= bondExpiration).
Proof.
  intros Hr. unfold handlePacket. unfold mbind at 1, gom_bind at 1, get_state at 1. cbv beta iota. destruct (preverify now m (ns_table s)) eqn:Hv; [|by intros [= <- _] ?%not_elem_of_nil].
  unfold preverify, isMsgValid, HasExpired in Hv. destruct (msg_packet m) as [| |target|] eqn:Hp; cbn [handle].
  - clear Hv. intros Hrun Hin. exfalso. revert Hrun. unfold mbind, gom_bind, get_state, modify, mret, gom_ret. cbv beta iota. destruct (_ <? _); cbv beta iota.
    + intros [= <- _]. set_solver.
    + destruct (addVerifiedNode _ _ _) as [[[]|e|p] s1]; intros [= <- _]; set_solver.
  - intros [= <- _] ?%not_elem_of_nil. done.
  - intros [= <- _] Hin%list_elem_of_singleton. injection Hin as ->. split; [by exists target|]. destruct (Z.ltb_spec (msg_Expiration m) now) as [|He]; [done|]. split; [done|]. cbn [negb] in Hv.
    unfold LastPongReceived in Hv. destruct (db_lastPongReceived _ !! _) as [t|] eqn:Ht; cbn [default id from_option] in Hv.
    + right. destruct (reachable_pongs _ _ _ _ _ Hr Ht) as (op & Hop & Hpong). exists op, t. repeat split; [done|done|]. destruct (Z.ltb_spec bondExpiration (now - t)); [done|lia].
    + left. destruct (Z.ltb_spec bondExpiration (now - 0)); [done|lia].
  - intros [= <- _] ?%not_elem_of_nil. done.
Qed.

(** * The closest nodes *)
Lemma search_loop_spec fuel i j n f : (j - i < fuel)%nat → (i ≤ j ≤ n)%nat →
  (∀ a b, (a ≤ b < n)%nat → f a = true → f b = true) → (∀ k, (k < i)%nat → f k = false) → (∀ k, (j ≤ k < n)%nat → f k = true) →
  let r := search_loop fuel i j f in (r ≤ n)%nat ∧ (∀ k, (k < r)%nat → f k = false) ∧ (∀ k, (r ≤ k < n)%nat → f k = true).
Proof.
  revert i j. induction fuel as [|fuel IH]; intros i j Hf Hij Hmono Hlo Hhi; [lia|]. cbn [search_loop].
  destruct (Nat.ltb_spec i j) as [Hlt|Hge]; [|assert (j = i) as -> by lia; cbv zeta; repeat split; [lia|done|done]].
  cbv zeta. pose proof (Nat.div_mod_eq (i + j) 2). pose proof (Nat.mod_upper_bound (i + j) 2 ltac:(lia)). set (h := ((i + j) / 2)%nat) in *.
  destruct (f h) eqn:Hh; cbn [negb]; apply IH; try done; try lia.
  - intros k Hk. apply (Hmono h); [lia|done].
  - intros k Hk. destruct (f k) eqn:Hfk; [|done]. rewrite (Hmono k h) in Hh; [done|lia|done].
Qed.
Lemma sort_Search_spec n f : (∀ a b, (a ≤ b < n)%nat → f a = true → f b = true) →
  (sort_Search n f ≤ n)%nat ∧ (∀ k, (k < sort_Search n f)%nat → f k = false) ∧ (∀ k, (sort_Search n f ≤ k < n)%nat → f k = true).
Proof. intros Hmono. apply search_loop_spec; try done; lia. Qed.

Section closest.
Context (target : ID) (Ht : is_id target).
Abbreviation d := (λ n, distance target (nID n)).
Abbreviation closer := (λ x y, d x < d y).
Abbreviation no_farther := (λ x y, d x <= d y).
Lemma closer_no_farther l : StronglySorted closer l → StronglySorted no_farther l.
Proof. induction 1 as [|x l Hs IH Hx]; constructor; [done|]. eapply Forall_impl; [exact Hx|]. cbn. lia. Qed.
Lemma closer_monotone l n a b : StronglySorted no_farther l → Forall (λ x, is_id (nID x)) l → is_id (nID n) → (a ≤ b < length l)%nat →
  (match l !! a with Some e => 0 <? DistCmp target (nID e) (nID n) | None => false end) = true →
  (match l !! b with Some e => 0 <? DistCmp target (nID e) (nID n) | None => false end) = true.
Proof.
  intros Hs Hids Hn Hab. destruct (lookup_lt_is_Some_2 l a) as [x Hx]; [lia|]. destruct (lookup_lt_is_Some_2 l b) as [y Hy]; [lia|]. rewrite Hx, Hy.
  rewrite Forall_lookup in Hids. rewrite !DistCmp_pos by (eauto || done). rewrite !Z.ltb_lt. intros Hlt. destruct (decide (a = b)) as [->|]; [congruence|].
  pose proof (take_drop (S a) l) as Hsplit. rewrite <- Hsplit in Hs. apply (StronglySorted_app_1_elem_of _ _ _ x y) in Hs; [cbn beta in Hs; lia| |].
  - apply (list_elem_of_lookup_2 _ a). by rewrite lookup_take_lt by lia.
  - apply (list_elem_of_lookup_2 _ (b - S a)). rewrite lookup_drop. by replace (S a + (b - S a))%nat with b by lia.
Qed.
(** Where a node goes: before it, what is no farther; after it, what is farther. *)
Lemma push_split l n max : StronglySorted no_farther l → Forall (λ x, is_id (nID x)) l → is_id (nID n) → (length l ≤ max)%nat → (0 < max)%nat →
  ∃ A B, l = A ++ B ∧ (∀ x, x ∈ A → d x <= d n) ∧ (∀ x, x ∈ B → d n < d x) ∧
    push (mkNodesByDistance l target) n max = mkNodesByDistance (take max (A ++ n :: B)) target.
Proof.
  intros Hs Hids Hn Hl Hm. unfold push. cbn [nb_entries nb_target].
  destruct (sort_Search_spec (length l) (λ i, match l !! i with Some e => 0 <? DistCmp target (nID e) (nID n) | None => false end)) as (Hr & Hlo & Hhi).
  { intros a b Hab. by apply closer_monotone. }
  set (ix := sort_Search _ _) in *. clearbody ix. exists (take ix l), (drop ix l). rewrite Forall_lookup in Hids. split; [by rewrite take_drop|]. split; [|split].
  - intros x Hx. apply list_elem_of_lookup in Hx as [k Hk]. apply lookup_take_Some in Hk as [Hk Hlt]. specialize (Hlo k Hlt). rewrite Hk, DistCmp_pos in Hlo by (eauto || done). apply Z.ltb_ge in Hlo. lia.
  - intros x Hx. apply list_elem_of_lookup in Hx as [k Hk]. rewrite lookup_drop in Hk. pose proof (lookup_lt_Some _ _ _ Hk). specialize (Hhi (ix + k)%nat ltac:(lia)). rewrite Hk, DistCmp_pos in Hhi by (eauto || done). by apply Z.ltb_lt in Hhi.
  - destruct (Nat.ltb_spec (length l) max) as [Hlt|Hge].
    + rewrite length_app. cbn [length]. rewrite (proj2 (Nat.eqb_neq _ _)) by lia. f_equal. rewrite take_app_le, drop_app_le by lia.
      replace (length l + 1 - ix - 1)%nat with (length (drop ix l)) by (rewrite length_drop; lia). rewrite take_app_length.
      rewrite (take_ge (take ix l ++ _)); [done|]. rewrite length_app, length_take. cbn [length]. rewrite length_drop. lia.
    + assert (max = length l) as -> by lia. destruct (Nat.eqb_spec ix (length l)) as [->|Hne].
      * f_equal. rewrite firstn_all, drop_all. by rewrite take_app_length.
      * f_equal. rewrite take_app_ge by (rewrite length_take; lia). rewrite length_take, Nat.min_l by lia. f_equal.
        destruct (length l - ix)%nat as [|m] eqn:Hm'; [lia|]. cbn. by rewrite Nat.sub_0_r.
Qed.
(** What a list of nodes keeps of the nodes that were pushed. *)
Record keeps_closest (max : nat) (pushed l : list INode) : Prop := {
  kc_sorted : StronglySorted closer l;
  kc_length : length l = (max `min` length pushed)%nat;
  kc_sub x : x ∈ l → x ∈ pushed;
  kc_nearest x : x ∈ pushed → x ∉ l → length l = max ∧ ∀ y, y ∈ l → d y < d x
}.
Lemma keeps_closest_push max pushed l n : (0 < max)%nat → keeps_closest max pushed l → Forall (λ x, is_id (nID x)) (n :: pushed) → nID n ∉ ids pushed →
  ∃ l', push (mkNodesByDistance l target) n max = mkNodesByDistance l' target ∧ keeps_closest max (pushed ++ [n]) l'.
Proof.
  intros Hm [Hs Hl Hsub Hfar] Hids Hnew. apply Forall_cons in Hids as [Hn Hids]. rewrite Forall_forall in Hids.
  destruct (push_split l n max (closer_no_farther l Hs)) as (A & B & -> & HA & HB & ->); [rewrite Forall_forall; naive_solver|done|lia|done|].
  assert (∀ x, x ∈ A → d x < d n) as HA'.
  { intros x Hx. pose proof (HA x Hx). destruct (Z.eq_dec (d x) (d n)) as [Heq%distance_inj|]; [|cbn in *; lia]. exfalso. apply Hnew. rewrite <- Heq. apply list_elem_of_fmap_2, Hsub, elem_of_app. by left. }
  assert (StronglySorted closer (A ++ n :: B)) as Hall.
  { apply StronglySorted_app in Hs as (HAB & HsA & HsB). apply StronglySorted_app. split; [|split; [done|]].
    - intros x y Hx [->|Hy]%elem_of_cons; [by apply HA'|by apply HAB].
    - apply StronglySorted_cons. split; [by apply Forall_forall|done]. }
  eexists. split; [done|]. rewrite length_app in Hl. split.
  - rewrite <- (take_drop max (A ++ n :: B)) in Hall. by apply StronglySorted_app_1_l in Hall.
  - rewrite length_take, !length_app. cbn [length]. lia.
  - intros x Hx. apply elem_of_take in Hx as (k & Hx & _). apply list_elem_of_lookup_2 in Hx. apply elem_of_app. set_solver.
  - intros x Hx Hnx. destruct (decide (x ∈ A ++ n :: B)) as [Hxin|Hout].
    + rewrite <- (take_drop max (A ++ n :: B)) in Hall, Hxin. apply elem_of_app in Hxin as [?|Hxd]; [done|]. split.
      * rewrite length_take. apply list_elem_of_lookup in Hxd as [k Hk%lookup_lt_Some]. rewrite length_drop in Hk. lia.
      * intros y Hy. by apply (StronglySorted_app_1_elem_of _ _ _ y x Hall).
    + assert (x ∈ pushed) as Hxp by set_solver. destruct (Hfar x Hxp ltac:(set_solver)) as [Hmax Hlt]. rewrite length_app in Hmax. split.
      * rewrite length_take, length_app. cbn [length]. lia.
      * intros y (k & Hy & Hk)%elem_of_take. destruct B as [|z B].
        { rewrite app_nil_r in Hlt. cbn [length] in Hmax. rewrite lookup_app_l in Hy by lia. by apply Hlt, (list_elem_of_lookup_2 _ k). }
        apply list_elem_of_lookup_2, elem_of_app in Hy. rewrite elem_of_cons in Hy. destruct Hy as [Hy|[->|Hy]]; [apply Hlt; set_solver| |apply Hlt; set_solver].
        pose proof (HB z ltac:(set_solver)). pose proof (Hlt z ltac:(set_solver)). cbn in *. lia.
Qed.
Lemma keeps_closest_foldl max todo pushed l : (0 < max)%nat → keeps_closest max pushed l → Forall (λ x, is_id (nID x)) (pushed ++ todo) → NoDup (ids (pushed ++ todo)) →
  ∃ l', foldl (λ close n, push close n max) (mkNodesByDistance l target) todo = mkNodesByDistance l' target ∧ keeps_closest max (pushed ++ todo) l'.
Proof.
  intros Hm. revert pushed l. induction todo as [|n todo IH]; intros pushed l Hk Hids Hnd; [rewrite app_nil_r; by exists l|]. cbn [foldl].
  replace (pushed ++ n :: todo) with ((pushed ++ [n]) ++ todo) in * by by rewrite <- app_assoc.
  destruct (keeps_closest_push max pushed l n Hm Hk) as (l' & -> & Hk').
  - apply Forall_app in Hids as [Hids _]. by rewrite Permutation_app_comm in Hids.
  - rewrite !fmap_app in Hnd. apply NoDup_app in Hnd as [Hnd _]. apply NoDup_app in Hnd as (_ & Hd & _). intros Hin. apply (Hd _ Hin). set_solver.
  - by apply IH.
Qed.
End closest.

Definition live_nodes (tab : Table) : list INode := filter (λ n, is_live tab n) (all_entries tab).
Lemma closest_foldl target k tab : closest target k tab = foldl (λ close n, push close n k) (mkNodesByDistance [] target) (live_nodes tab).
Proof.
  unfold closest, live_nodes. generalize (mkNodesByDistance [] target). induction (all_entries tab) as [|n l IH]; intros close; [done|]. cbn [foldl]. rewrite IH, filter_cons.
  case_decide as Hd; destruct (is_live tab n); try done; by destruct Hd.
Qed.
(** No identity occurs twice in a well-formed table. *)
Lemma entries_nodup self tab : table_ok self tab → NoDup (ids (all_entries tab)).
Proof.
  intros [_ _ Hb]. unfold all_entries. assert (∀ l k, (∀ i b, l !! i = Some b → bucket_ok (nID self) (k + i) b) → NoDup (ids (concat (bk_entries <$> l)))) as H; [|by apply (H _ 0%nat)].
  clear. intros l. induction l as [|b l IH]; intros k Hl; [constructor|]. rewrite fmap_cons. cbn [concat]. rewrite fmap_app. pose proof (Hl 0%nat b eq_refl) as Hb0.
  apply NoDup_app. split; [|split].
  - pose proof (bo_nodup _ _ _ Hb0) as Hn. unfold bucket_ids in Hn. rewrite fmap_app in Hn. by apply NoDup_app in Hn as [? _].
  - intros id Hid (x & -> & Hx)%list_elem_of_fmap. rewrite list_elem_of_In, in_concat in Hx. destruct Hx as (es & Hes & Hx). rewrite <- !list_elem_of_In in *.
    apply list_elem_of_fmap in Hes as (b' & -> & Hb'). apply list_elem_of_lookup in Hb' as [i Hi]. pose proof (Hl (S i) b' Hi) as Hb1.
    destruct (bo_place _ _ _ Hb0 (nID x)) as [_ H0]; [unfold bucket_ids; rewrite fmap_app; set_solver|].
    destruct (bo_place _ _ _ Hb1 (nID x)) as [_ H1]; [unfold bucket_ids; apply list_elem_of_fmap_2; set_solver|]. lia.
  - apply (IH (S k)). intros i b' Hi. replace (S k + i)%nat with (k + S i)%nat by lia. by apply Hl.
Qed.
Lemma closest_ok self tab target k : table_ok self tab → is_id target → Forall (λ n, is_id (nID n)) (all_entries tab) → (0 < k)%nat →
  let r := nb_entries (closest target k tab) in
  nb_target (closest target k tab) = target ∧
  StronglySorted (λ x y, distance target (nID x) < distance target (nID y)) r ∧
  length r = (k `min` length (live_nodes tab))%nat ∧
  (∀ x, x ∈ r → x ∈ all_entries tab ∧ is_live tab x = true) ∧
  (∀ x y, x ∈ all_entries tab → is_live tab x = true → x ∉ r → y ∈ r → distance target (nID y) < distance target (nID x)).
Proof.
  intros Hok Ht Hids Hk. rewrite closest_foldl. assert (∀ x, x ∈ live_nodes tab ↔ x ∈ all_entries tab ∧ is_live tab x = true) as Hlive.
  { intros x. unfold live_nodes. rewrite list_elem_of_filter. rewrite Is_true_true. tauto. }
  destruct (keeps_closest_foldl target Ht k (live_nodes tab) [] [] Hk) as (l & -> & [Hs Hl Hsub Hfar]).
  - split; [constructor|cbn; lia|done|by intros x ?%not_elem_of_nil].
  - cbn. rewrite Forall_forall in *. intros x Hx. apply Hids. by apply Hlive.
  - cbn. pose proof (entries_nodup _ _ Hok) as Hnd. unfold live_nodes. eapply sublist_NoDup; [exact Hnd|]. apply fmap_sublist, sublist_filter.
  - cbn [app] in *. cbn [nb_entries]. cbv zeta. split; [done|]. split; [done|]. split; [done|]. split; [intros x Hx; by apply Hlive, Hsub|].
    intros x y Hx Hxl Hn Hy. apply Hfar; [by apply Hlive|done|done].
Qed.

(** [closest] answers with the nearest live nodes of the table, in the order
    of their distance, as many as asked for or as there are: whatever live node it
    leaves out is farther than every node it answers with. *)
Theorem closest_is_nearest self tab target k : table_ok self tab → is_id target → Forall (λ n, is_id (nID n)) (all_entries tab) → (0 < k)%nat →
  let r := nb_entries (closest target k tab) in
  StronglySorted (λ x y, distance target (nID x) < distance target (nID y)) r ∧
  length r = (k `min` length (live_nodes tab))%nat ∧
  (∀ x, x ∈ r → x ∈ all_entries tab ∧ is_live tab x = true) ∧
  (∀ x y, x ∈ all_entries tab → is_live tab x = true → x ∉ r → y ∈ r → distance target (nID y) < distance target (nID x)).
Proof. intros Hok Ht Hids Hk. by apply (closest_ok self). Qed.

(** * Reading random nodes *)
Lemma concat_delete {A} (ls : list (list A)) j l : ls !! j = Some l → concat ls ≡ₚ l ++ concat (delete j ls).
Proof.
  revert j. induction ls as [|l' ls IH]; intros [|j] Hj; try done; cbn in *; [by injection Hj as ->|]. rewrite (IH j Hj). by rewrite Permutation_app_swap_app.
Qed.
Lemma concat_insert {A} (ls : list (list A)) j l l' : ls !! j = Some l → concat (<[j := l']> ls) ≡ₚ l' ++ concat (delete j ls).
Proof.
  intros Hj. rewrite (concat_delete (<[j := l']> ls) j l') by (apply list_lookup_insert_eq; by apply lookup_lt_Some in Hj). by rewrite !delete_take_drop, take_insert_ge, drop_insert_lt by lia.
Qed.
Lemma shuffle_permutation i draws ls : shuffle i draws ls ≡ₚ ls.
Proof.
  revert ls. induction i as [|i IH]; intros ls; [done|]. cbn [shuffle]. cbv zeta. rewrite IH. destruct (ls !! S i) as [x|] eqn:Hx; [|done]. destruct (ls !! Intn _ _) as [y|] eqn:Hy; [|done]. by apply Permutation_insert_swap.
Qed.
Lemma read_loop_ok more i j ls buf : Forall (λ l, l ≠ []) ls → (j < length ls)%nat →
  ∃ read, read_loop more i j ls buf = Ok (buf ++ read, (i + (S more `min` length (concat ls)))%nat) ∧ read ⊆+ concat ls ∧ length read = (more `min` length (concat ls))%nat.
Proof.
  revert i j ls buf. induction more as [|more IH]; intros i j ls buf Hne Hj.
  - exists []. cbn [read_loop]. rewrite app_nil_r. destruct (lookup_lt_is_Some_2 ls j Hj) as [l Hl]. pose proof (concat_delete ls j l Hl) as Hp. rewrite Forall_lookup in Hne. specialize (Hne j l Hl).
    apply Permutation_length in Hp. rewrite length_app in Hp. destruct l as [|x l]; [done|]. cbn [length] in Hp. split; [do 2 f_equal; lia|]. split; [apply submseteq_nil_l|done].
  - cbn [read_loop]. destruct (lookup_lt_is_Some_2 ls j Hj) as [l Hl]. rewrite Hl. pose proof Hne as Hne'. rewrite Forall_lookup in Hne'. specialize (Hne' j l Hl). destruct l as [|x rest]; [done|]. cbv zeta.
    set (ls' := if (length rest =? 0)%nat then _ else _). assert (concat ls ≡ₚ x :: concat ls') as Hp.
    { unfold ls'. rewrite (concat_delete ls j _ Hl). destruct rest as [|y rest]; cbn [length Nat.eqb]; [done|]. by rewrite (concat_insert ls j _ _ Hl). }
    assert (Forall (λ l, l ≠ []) ls') as Hn'.
    { unfold ls'. destruct rest as [|y rest]; cbn [length Nat.eqb]; [by apply Forall_delete|by apply Forall_insert]. }
    clearbody ls'. assert (length (concat ls) = S (length (concat ls'))) as Hlen by by rewrite Hp. destruct (Nat.eqb_spec (length ls') 0) as [H0|H0].
    + apply nil_length_inv in H0. subst ls'. exists [x]. cbn in Hlen. rewrite Hlen. split; [do 2 f_equal; lia|]. split; [by rewrite Hp|cbn; lia].
    + destruct (IH (S i) ((j + 1) mod length ls')%nat ls' (buf ++ [x]) Hn') as (read & -> & Hsub & Hr); [by apply Nat.mod_upper_bound|].
      exists (x :: read). rewrite <- app_assoc, Hlen. split; [do 2 f_equal; lia|]. split; [rewrite Hp; by apply submseteq_skip|cbn; lia].
Qed.
Lemma concat_nonempty {A} (ls : list (list A)) : concat (filter (λ l, l ≠ []) ls) = concat ls.
Proof. induction ls as [|l ls IH]; [done|]. rewrite filter_cons. case_decide as Hl; cbn; [by rewrite IH|]. by subst l. Qed.
(** [ReadRandomNodes] neither panics nor reads a node twice: it fills the
    buffer with distinct nodes of the table, as many as there are and fit. The
    count it returns is right when the table fits in the buffer, and one too
    large otherwise. *)
Theorem ReadRandomNodes_reads_distinct_nodes self tab draws room : table_ok self tab →
  ∃ buf, ReadRandomNodes draws room tab = Ok (buf, (S room `min` table_len tab)%nat) ∧
    NoDup (ids buf) ∧ (∀ n, n ∈ buf → n ∈ all_entries tab) ∧ length buf = (room `min` table_len tab)%nat.
Proof.
  intros Hok. unfold ReadRandomNodes, table_len. pose proof (concat_nonempty (bk_entries <$> tb_buckets tab)) as Hc. fold (all_entries tab) in Hc. rewrite <- Hc.
  set (ls := filter _ _) in *. assert (Forall (λ l : list INode, l ≠ []) ls) as Hne by (rewrite Forall_forall; by intros l [? _]%list_elem_of_filter). clearbody ls. cbv zeta. destruct (Nat.eqb_spec (length ls) 0) as [H0|H0].
  { apply nil_length_inv in H0. subst ls. exists []. split; [done|]. split; [constructor|]. split; [by intros n ?%not_elem_of_nil|cbn; lia]. }
  pose proof (shuffle_permutation (pred (length ls)) draws ls) as Hp. set (ls' := shuffle _ _ _) in *. clearbody ls'.
  destruct (read_loop_ok room 0 0 ls' []) as (read & -> & Hsub & Hl); [by rewrite Hp|rewrite Hp; lia|].
  assert (concat ls' ≡ₚ concat ls) as Hpc by by rewrite Hp. rewrite Hpc in Hsub. rewrite (Permutation_length Hpc) in Hl |- *. exists read. split; [done|]. split; [|split; [intros n Hn; by eapply elem_of_submseteq|done]].
  pose proof (entries_nodup _ _ Hok) as Hnd. rewrite <- Hc in Hnd. apply (fmap_submseteq nID) in Hsub. apply submseteq_Permutation in Hsub as [k Hk]. rewrite Hk in Hnd. by apply NoDup_app in Hnd as [? _].
Qed.
