(* ===== verification/DiscLookup.v ===== *)
(** A lookup ([lookup] and [lookupNode] of [src/network/discovery/table.go]) as
    a state machine: the queries that are out, the nodes that were asked, the
    closest nodes heard of.  The node that looks up is online, so a query's
    answer, or its timeout, comes after the call that sent it. *)
From S2P Require Import Prelude Hoare Types DiscTable DiscSpec.

(** * The state machine *)
Record lookup_state := mkLookup {
  lk_result : nodesByDistance;
  lk_asked : gset ID;
  lk_seen : gset ID;
  lk_pendingQueries : Z;
  lk_lookupDone : bool;
  (** the queries that have no answer yet *)
  lk_queries : list INode
}.
(** What [lookupNode] does for a node that was not asked. *)
Definition ask (n : INode) (s : lookup_state) : lookup_state :=
  mkLookup (lk_result s) ({[nID n]} ∪ lk_asked s) (lk_seen s) (lk_pendingQueries s + 1) (lk_lookupDone s) (lk_queries s ++ [n]).
Fixpoint ask_loop (entries : list INode) (s : lookup_state) : lookup_state :=
  match entries with
  | [] => s
  | n :: entries => if lk_pendingQueries s <? alpha then ask_loop entries (if bool_decide (nID n ∈ lk_asked s) then s else ask n s) else s
  end.
Definition lookupNode (s : lookup_state) : lookup_state :=
  let s := ask_loop (nb_entries (lk_result s)) s in
  if lk_pendingQueries s =? 0 then mkLookup (lk_result s) (lk_asked s) (lk_seen s) (lk_pendingQueries s) true (lk_queries s) else s.
(** The start of [lookup]; [refreshed] is the table after a refresh. *)
Definition lookup (target : ID) (refreshIfEmpty : bool) (tab refreshed : Table) : lookup_state :=
  let result := closest target bucketSize tab in
  let result := if (length (nb_entries result) =? 0)%nat && refreshIfEmpty then closest target bucketSize refreshed else result in
  lookupNode (mkLookup result {[nID (tb_self tab)]} ∅ 0 false []).
(** The callback of a query: what is new in the answer is pushed. *)
Definition hear (s : lookup_state) (n : INode) : lookup_state :=
  if bool_decide (nID n ∈ lk_seen s) then s
  else mkLookup (push (lk_result s) n bucketSize) (lk_asked s) ({[nID n]} ∪ lk_seen s) (lk_pendingQueries s) (lk_lookupDone s) (lk_queries s).
Definition answered (k : nat) (nodes : option (list INode)) (s : lookup_state) : lookup_state :=
  let s := match nodes with Some nodes => foldl hear s nodes | None => s end in
  lookupNode (mkLookup (lk_result s) (lk_asked s) (lk_seen s) (lk_pendingQueries s - 1) (lk_lookupDone s) (delete k (lk_queries s))).
(** [Resolve]: a live node of the table, or what a lookup ended with. *)
Definition Resolve (id : ID) (tab : Table) (found : list INode) : option INode :=
  match nb_entries (closest id 1 tab) with
  | n :: _ => if nID n =? id then Some n else head (filter (λ n, nID n = id) found)
  | [] => head (filter (λ n, nID n = id) found)
  end.

(** A lookup after some answers, with the identities it heard of.  Whatever
    identities there are, they are among [universe]. *)
Section runs.
Context (universe : gset ID) (start : lookup_state).
Inductive run : nat → lookup_state → list ID → Prop :=
  | run_start : run 0 start (ids (nb_entries (lk_result start)))
  | run_answer i s heard k q nodes : run i s heard → lk_queries s !! k = Some q →
      (∀ n, n ∈ default [] nodes → is_id (nID n) ∧ nID n ∈ universe) →
      run (S i) (answered k nodes s) (heard ++ ids (default [] nodes)).
End runs.

(** * Queries *)
Record queries_ok (self : ID) (universe : gset ID) (i : nat) (s : lookup_state) : Prop := {
  qo_pending : lk_pendingQueries s = Z.of_nat (length (lk_queries s));
  qo_alpha : lk_pendingQueries s <= alpha;
  qo_nodup : NoDup (ids (lk_queries s));
  qo_asked id : id ∈ ids (lk_queries s) → id ∈ lk_asked s ∧ id ≠ self;
  qo_self : self ∈ lk_asked s;
  qo_count : size (lk_asked s) = (1 + i + length (lk_queries s))%nat;
  qo_universe : lk_asked s ⊆ {[self]} ∪ universe
}.
Lemma ask_ok self universe i n s : queries_ok self universe i s → lk_pendingQueries s < alpha → nID n ∉ lk_asked s → nID n ∈ universe → queries_ok self universe i (ask n s).
Proof.
  intros [Hp Ha Hn Hq Hs Hc Hu] Hlt Hna Hnu. split; cbn [ask lk_pendingQueries lk_queries lk_asked].
  - rewrite length_app. cbn. lia.
  - lia.
  - rewrite fmap_app. apply NoDup_app. split; [done|]. split; [|apply NoDup_singleton]. intros id Hid ->%list_elem_of_singleton. by apply Hna, Hq.
  - intros id. rewrite fmap_app, elem_of_app. intros [Hid|Hid].
    + destruct (Hq id Hid). set_solver.
    + apply list_elem_of_singleton in Hid as ->. split; [set_solver|]. intros Heq. apply Hna. by rewrite Heq.
  - set_solver.
  - rewrite size_union by set_solver. rewrite size_singleton, length_app, Hc. cbn. lia.
  - set_solver.
Qed.
Lemma ask_loop_ok self universe i l s : queries_ok self universe i s → (∀ n, n ∈ l → nID n ∈ universe) →
  let s' := ask_loop l s in queries_ok self universe i s' ∧ lk_result s' = lk_result s ∧ lk_seen s' = lk_seen s ∧ lk_lookupDone s' = lk_lookupDone s ∧ lk_asked s ⊆ lk_asked s' ∧
    (lk_pendingQueries s' < alpha → ∀ n, n ∈ l → nID n ∈ lk_asked s').
Proof.
  revert s. induction l as [|n l IH]; intros s Hok Hl; cbn [ask_loop].
  { cbv zeta. split_and!; try done. by intros _ n ?%not_elem_of_nil. }
  destruct (Z.ltb_spec (lk_pendingQueries s) alpha) as [Hlt|Hge].
  2: { cbv zeta. split_and!; try done. lia. }
  set (s1 := if bool_decide _ then _ else _). assert (queries_ok self universe i s1 ∧ lk_result s1 = lk_result s ∧ lk_seen s1 = lk_seen s ∧ lk_lookupDone s1 = lk_lookupDone s ∧ lk_asked s ⊆ lk_asked s1 ∧ nID n ∈ lk_asked s1) as (H1 & H2 & H3 & H4 & H5 & H6).
  { unfold s1. case_bool_decide as Hin; [done|]. split; [apply ask_ok; [done..|apply Hl; left]|]. cbn. split_and!; set_solver. }
  clearbody s1. destruct (IH s1 H1) as (I1 & I2 & I3 & I4 & I5 & I6); [intros x Hx; apply Hl; by right|]. cbv zeta. split; [done|]. split_and!; try congruence; [set_solver|].
  intros Hp x [->|Hx]%elem_of_cons; [by apply I5|by apply I6].
Qed.
Lemma lookupNode_ok self universe i s : queries_ok self universe i s → (∀ n, n ∈ nb_entries (lk_result s) → nID n ∈ universe) → lk_lookupDone s = false →
  let s' := lookupNode s in queries_ok self universe i s' ∧ lk_result s' = lk_result s ∧ lk_seen s' = lk_seen s ∧ (lk_lookupDone s' = true ↔ lk_queries s' = []) ∧
    (lk_pendingQueries s' < alpha → ∀ n, n ∈ nb_entries (lk_result s') → nID n ∈ lk_asked s').
Proof.
  intros Hok Hl Hd. unfold lookupNode. cbv zeta. destruct (ask_loop_ok self universe i (nb_entries (lk_result s)) s Hok Hl) as (H1 & H2 & H3 & H4 & H5 & H6).
  set (s' := ask_loop _ s) in *. clearbody s'. rewrite Hd in H4. pose proof (qo_pending _ _ _ _ H1) as Hp. destruct (Z.eqb_spec (lk_pendingQueries s') 0) as [H0|H0]; cbn [lk_result lk_seen lk_lookupDone lk_queries lk_pendingQueries lk_asked].
  - split; [by destruct H1; split|]. split; [done|]. split; [done|]. split; [|by rewrite H2]. split; [|done]. intros _. apply nil_length_inv. lia.
  - split; [done|]. split; [done|]. split; [done|]. split; [|by rewrite H2]. rewrite H4. split; [done|]. intros Hq. rewrite Hq in Hp. cbn in Hp. lia.
Qed.

(** * Results *)
Section results.
Context (target : ID) (Ht : is_id target).
Abbreviation d := (λ n, distance target (nID n)).
(** The nearest of the identities heard of; one may occur several times. *)
Record nearest (heard : list ID) (l : list INode) : Prop := {
  ne_sorted : StronglySorted (λ x y, d x <= d y) l;
  ne_length : (length l ≤ bucketSize)%nat;
  ne_heard id : id ∈ ids l → id ∈ heard;
  ne_nearest id : id ∈ heard → id ∉ ids l → ∀ y, y ∈ l → d y <= distance target id
}.
Lemma nearest_push heard l n : nearest heard l → Forall is_id heard → is_id (nID n) → (∀ id, id ∈ heard → id ∉ ids l → length l = bucketSize) →
  let l' := nb_entries (push (mkNodesByDistance l target) n bucketSize) in
  nb_target (push (mkNodesByDistance l target) n bucketSize) = target ∧ nearest (heard ++ [nID n]) l' ∧ (∀ id, id ∈ heard ++ [nID n] → id ∉ ids l' → length l' = bucketSize).
Proof.
  intros [Hs Hl Hh Hn] Hids Hid Hfull. rewrite Forall_forall in Hids.
  destruct (push_split target Ht l n bucketSize Hs) as (A & B & Hsplit & HA & HB & ->); [|done|done|unfold bucketSize; lia|].
  { rewrite Forall_forall. intros x Hx. apply Hids, Hh, list_elem_of_fmap_2, Hx. }
  cbn [nb_entries nb_target]. cbv zeta. split; [done|]. assert (StronglySorted (λ x y, d x <= d y) (A ++ n :: B)) as Hall.
  { rewrite Hsplit in Hs. apply StronglySorted_app in Hs as (HAB & HsA & HsB). apply StronglySorted_app. split; [|split; [done|]].
    - intros x y Hx [->|Hy]%elem_of_cons; [by apply HA|by apply HAB].
    - apply StronglySorted_cons. split; [|done]. apply Forall_forall. intros x Hx. pose proof (HB x Hx). cbn in *. lia. }
  rewrite <- (take_drop bucketSize (A ++ n :: B)) in Hall. assert (∀ id, id ∈ heard ++ [nID n] → id ∈ ids (A ++ n :: B) ∨ id ∈ heard ∧ id ∉ ids l) as Hcases.
  { intros id. rewrite elem_of_app, list_elem_of_singleton, Hsplit, !fmap_app, fmap_cons. intros [Hid'| ->]; [|left; set_solver]. destruct (decide (id ∈ ids A ++ ids B)); set_solver. }
  assert (∀ id, id ∈ heard ++ [nID n] → id ∉ ids (take bucketSize (A ++ n :: B)) → length (take bucketSize (A ++ n :: B)) = bucketSize) as Hfull'.
  { intros id Hid' Hno. rewrite length_take. destruct (Hcases id Hid') as [Hin|[Hin Hout]].
    - rewrite <- (take_drop bucketSize (A ++ n :: B)), fmap_app, elem_of_app in Hin. destruct Hin as [?|(x & _ & Hx)%list_elem_of_fmap]; [done|]. apply list_elem_of_lookup in Hx as [k Hk%lookup_lt_Some]. rewrite length_drop in Hk. lia.
    - pose proof (Hfull id Hin Hout) as Hlen. rewrite Hsplit, length_app in Hlen. rewrite length_app. cbn [length]. lia. }
  split; [split|done].
  - by apply StronglySorted_app_1_l in Hall.
  - rewrite length_take. lia.
  - intros id. rewrite fmap_take. intros Hin. apply elem_of_take in Hin as (k & Hk%list_elem_of_lookup_2 & _). rewrite fmap_app, fmap_cons in Hk. rewrite elem_of_app, list_elem_of_singleton.
    rewrite elem_of_app, elem_of_cons in Hk. destruct Hk as [Hk|[->|Hk]]; [left; apply Hh; rewrite Hsplit, fmap_app; set_solver|by right|left; apply Hh; rewrite Hsplit, fmap_app; set_solver].
  - intros id Hid' Hno y Hy. destruct (Hcases id Hid') as [Hin|[Hin Hout]].
    + rewrite <- (take_drop bucketSize (A ++ n :: B)), fmap_app, elem_of_app in Hin. destruct Hin as [?|(x & -> & Hx)%list_elem_of_fmap]; [done|]. by apply (StronglySorted_app_1_elem_of _ _ _ y x Hall).
    + pose proof (Hfull id Hin Hout) as Hlen. pose proof (Hn id Hin Hout) as Hle. apply elem_of_take in Hy as (k & Hy & Hk). destruct B as [|z B].
      * rewrite Hsplit, app_nil_r in Hlen. rewrite lookup_app_l in Hy by lia. apply Hle. rewrite Hsplit. apply elem_of_app. left. by eapply list_elem_of_lookup_2.
      * apply list_elem_of_lookup_2, elem_of_app in Hy. rewrite elem_of_cons in Hy. rewrite Hsplit in Hle. destruct Hy as [Hy|[->|Hy]]; [apply Hle; set_solver| |apply Hle; set_solver].
        pose proof (HB z ltac:(set_solver)). pose proof (Hle z ltac:(set_solver)). cbn in *. lia.
Qed.
(** A result and the identities it was made of. *)
Record result_ok (universe : gset ID) (heard : list ID) (s : lookup_state) : Prop := {
  ro_target : nb_target (lk_result s) = target;
  ro_nearest : nearest heard (nb_entries (lk_result s));
  ro_full id : id ∈ heard → id ∉ ids (nb_entries (lk_result s)) → length (nb_entries (lk_result s)) = bucketSize;
  ro_seen id : id ∈ lk_seen s → id ∈ heard;
  ro_ids : Forall (λ id, is_id id ∧ id ∈ universe) heard
}.
Lemma result_ok_ext universe heard s s' : result_ok universe heard s → lk_result s' = lk_result s → lk_seen s' = lk_seen s → result_ok universe heard s'.
Proof. intros [] Hr Hs. by split; rewrite ?Hr, ?Hs. Qed.
Lemma hear_ok universe heard s n : result_ok universe heard s → is_id (nID n) → nID n ∈ universe →
  result_ok universe (heard ++ [nID n]) (hear s n) ∧
  lk_asked (hear s n) = lk_asked s ∧ lk_pendingQueries (hear s n) = lk_pendingQueries s ∧ lk_lookupDone (hear s n) = lk_lookupDone s ∧ lk_queries (hear s n) = lk_queries s.
Proof.
  intros [Htg Hn Hf Hs Hids] Hid Hu. unfold hear. assert (Forall (λ id, is_id id ∧ id ∈ universe) (heard ++ [nID n])) as Hids'.
  { apply Forall_app. split; [done|]. by apply Forall_singleton. }
  case_bool_decide as Hseen; (split; [|done]).
  - assert (∀ id, id ∈ heard ++ [nID n] → id ∈ heard) as Hsame by (intros id [?| ->%list_elem_of_singleton]%elem_of_app; [done|by apply Hs]).
    split; [done| |by intros id ?%Hsame; apply Hf|by intros id ?%Hs; apply elem_of_app; left|done].
    destruct Hn as [N1 N2 N3 N4]. split; [done|done|intros id ?%N3; apply elem_of_app; by left|]. intros id ?%Hsame. by apply N4.
  - destruct (lk_result s) as [l t] eqn:Hr. cbn in Htg. subst t. cbn [nb_entries] in *. destruct (nearest_push heard l n Hn) as (P1 & P2 & P3); [|done|done|].
    { eapply Forall_impl; [exact Hids|]. by intros ? []. }
    split; cbn [lk_result lk_seen]; [done|done|done| |done]. intros id. rewrite elem_of_union, elem_of_singleton, elem_of_app, list_elem_of_singleton. intros [?|?]; [by right|left; by apply Hs].
Qed.
Lemma hear_all_ok universe heard s l : result_ok universe heard s → (∀ n, n ∈ l → is_id (nID n) ∧ nID n ∈ universe) →
  let s' := foldl hear s l in result_ok universe (heard ++ ids l) s' ∧
  lk_asked s' = lk_asked s ∧ lk_pendingQueries s' = lk_pendingQueries s ∧ lk_lookupDone s' = lk_lookupDone s ∧ lk_queries s' = lk_queries s.
Proof.
  revert heard s. induction l as [|n l IH]; intros heard s Hs Hl; cbn [foldl]; cbv zeta; [by rewrite app_nil_r|].
  destruct (Hl n ltac:(left)) as [Hid Hu]. destruct (hear_ok universe heard s n Hs Hid Hu) as (H1 & H2 & H3 & H4 & H5).
  destruct (IH _ _ H1) as (I1 & I2 & I3 & I4 & I5); [intros x Hx; apply Hl; by right|]. rewrite fmap_cons. replace (heard ++ nID n :: ids l) with ((heard ++ [nID n]) ++ ids l) by by rewrite <- app_assoc.
  split_and!; [done|congruence..].
Qed.

(** A state between two answers. *)
Record lookup_ok (self : ID) (universe : gset ID) (i : nat) (heard : list ID) (s : lookup_state) : Prop := {
  lo_queries : queries_ok self universe i s;
  lo_result : result_ok universe heard s;
  lo_done : lk_lookupDone s = true ↔ lk_queries s = [];
  lo_asked : lk_pendingQueries s < alpha → ∀ n, n ∈ nb_entries (lk_result s) → nID n ∈ lk_asked s
}.
Lemma result_universe universe heard s n : result_ok universe heard s → n ∈ nb_entries (lk_result s) → nID n ∈ universe.
Proof.
  intros [_ Hn _ _ Hids] Hin. rewrite Forall_forall in Hids. apply (Hids (nID n)). apply (ne_heard _ _ Hn). by apply list_elem_of_fmap_2.
Qed.
Lemma lookupNode_lookup_ok self universe i heard s : queries_ok self universe i s → result_ok universe heard s → lk_lookupDone s = false → lookup_ok self universe i heard (lookupNode s).
Proof.
  intros Hq Hr Hd. destruct (lookupNode_ok self universe i s Hq) as (H1 & H2 & H3 & H4 & H5); [|done|].
  - intros n. by apply result_universe with heard.
  - split; [done|by eapply result_ok_ext|done|done].
Qed.
Lemma delete_nodup {A B} (f : A → B) l k x : l !! k = Some x → NoDup (f <$> l) → NoDup (f <$> delete k l) ∧ (∀ y, y ∈ f <$> delete k l → y ∈ f <$> l) ∧ length l = S (length (delete k l)).
Proof.
  intros Hk Hn. pose proof (delete_Permutation l k x Hk) as Hp. rewrite Hp in Hn. apply NoDup_cons in Hn as [_ Hn]. split; [done|]. split; [|by apply Permutation_length in Hp].
  intros y Hy. rewrite Hp. by right.
Qed.
Lemma answered_ok self universe i heard s k q nodes : lookup_ok self universe i heard s → lk_queries s !! k = Some q →
  (∀ n, n ∈ default [] nodes → is_id (nID n) ∧ nID n ∈ universe) → lookup_ok self universe (S i) (heard ++ ids (default [] nodes)) (answered k nodes s).
Proof.
  intros [Hq Hr Hd _] Hk Hnodes. unfold answered. cbv zeta. set (s1 := match nodes with Some _ => _ | None => _ end).
  assert (result_ok universe (heard ++ ids (default [] nodes)) s1 ∧ lk_asked s1 = lk_asked s ∧ lk_pendingQueries s1 = lk_pendingQueries s ∧ lk_lookupDone s1 = lk_lookupDone s ∧ lk_queries s1 = lk_queries s) as (H1 & H2 & H3 & H4 & H5).
  { unfold s1. destruct nodes as [l|]; [by apply hear_all_ok|]. cbn. by rewrite app_nil_r. }
  clearbody s1. destruct Hq as [Qp Qa Qn Qq Qs Qc Qu]. destruct (delete_nodup nID _ _ _ Hk Qn) as (D1 & D2 & D3). apply lookupNode_lookup_ok.
  - rewrite H5. split; cbn [lk_pendingQueries lk_queries lk_asked]; rewrite ?H2, ?H3; [lia|lia|done|by intros id ?%D2; apply Qq|done|lia|done].
  - by eapply result_ok_ext.
  - cbn [lk_lookupDone]. rewrite H4. apply not_true_is_false. intros Hq%Hd. by rewrite Hq in Hk.
Qed.
End results.

(** * A lookup *)
Section a_lookup.
Context (self : INode) (target : ID) (Ht : is_id target) (universe : gset ID).
(** The result that a lookup starts from. *)
Lemma start_ok result : nb_target result = target → nearest target (ids (nb_entries result)) (nb_entries result) →
  (∀ n, n ∈ nb_entries result → is_id (nID n) ∧ nID n ∈ universe) →
  lookup_ok target (nID self) universe 0 (ids (nb_entries result)) (lookupNode (mkLookup result {[nID self]} ∅ 0 false [])).
Proof.
  intros Htg Hn Hu. apply lookupNode_lookup_ok; [split|split|done]; cbn [lk_result lk_asked lk_seen lk_pendingQueries lk_queries]; try done.
  - constructor.
  - by intros id ?%not_elem_of_nil.
  - set_solver.
  - by rewrite size_singleton.
  - set_solver.
  - rewrite Forall_forall. by intros id (n & -> & Hin)%list_elem_of_fmap; apply Hu.
Qed.
End a_lookup.
Lemma ask_loop_result l s : lk_result (ask_loop l s) = lk_result s.
Proof. revert s. induction l as [|n l IH]; intros s; [done|]. cbn [ask_loop]. destruct (_ <? _); [|done]. rewrite IH. by case_bool_decide. Qed.
Lemma lookupNode_result s : lk_result (lookupNode s) = lk_result s.
Proof. unfold lookupNode. cbv zeta. destruct (_ =? _); cbn [lk_result]; apply ask_loop_result. Qed.

(** Tables of a network whose identities are those of [universe]. *)
Definition known_table (universe : gset ID) (self : INode) (tab : Table) : Prop :=
  table_ok self tab ∧ Forall (λ n, is_id (nID n) ∧ nID n ∈ universe) (all_entries tab).
Lemma closest_start universe self tab target : is_id target → known_table universe self tab →
  let r := closest target bucketSize tab in
  nb_target r = target ∧ nearest target (ids (nb_entries r)) (nb_entries r) ∧ (∀ n, n ∈ nb_entries r → is_id (nID n) ∧ nID n ∈ universe).
Proof.
  intros Ht [Hok Hids]. cbv zeta. destruct (closest_ok self tab target bucketSize) as (Htg & Hs & Hl & Hsub & _); [done|done| |unfold bucketSize; lia|].
  { eapply Forall_impl; [exact Hids|]. by intros n []. }
  rewrite Forall_forall in Hids. split; [done|]. split; [|intros n Hn; by apply Hids, Hsub]. split; [|lia|done|done].
  apply closer_no_farther, Hs.
Qed.
Lemma run_ok universe self tab refreshed target refreshIfEmpty i s heard : is_id target → known_table universe self tab → known_table universe self refreshed →
  run universe (lookup target refreshIfEmpty tab refreshed) i s heard → lookup_ok target (nID self) universe i heard s.
Proof.
  intros Ht Htab Href Hrun. induction Hrun as [|i s heard k q nodes _ IH Hk Hnodes]; [|by eapply answered_ok].
  unfold lookup. cbv zeta. rewrite lookupNode_result. cbn [lk_result]. rewrite (to_self _ _ (proj1 Htab)).
  set (r := if _ && _ then _ else _). assert (nb_target r = target ∧ nearest target (ids (nb_entries r)) (nb_entries r) ∧ (∀ n, n ∈ nb_entries r → is_id (nID n) ∧ nID n ∈ universe)) as (H1 & H2 & H3).
  { unfold r. destruct (_ && _); by apply closest_start with self. }
  by apply start_ok.
Qed.
(** C16: A lookup asks at most [alpha] nodes at a time, never itself, and no node
    twice.  When it is done it has asked every node of its result; the result is
    sorted by distance, and if a node that the lookup heard of is left out, the
    result is full and has no node farther than that one. *)
Theorem lookup_finds_the_nearest universe self tab refreshed target refreshIfEmpty i s heard : is_id target → known_table universe self tab → known_table universe self refreshed →
  run universe (lookup target refreshIfEmpty tab refreshed) i s heard →
  let result := nb_entries (lk_result s) in
  (length (lk_queries s) ≤ 3)%nat ∧ NoDup (ids (lk_queries s)) ∧ nID self ∉ ids (lk_queries s) ∧ size (lk_asked s) = (1 + i + length (lk_queries s))%nat ∧
  (lk_lookupDone s = true →
    (∀ n, n ∈ result → nID n ∈ lk_asked s) ∧ StronglySorted (λ x y, distance target (nID x) <= distance target (nID y)) result ∧ (length result ≤ bucketSize)%nat ∧
    (∀ n, n ∈ result → nID n ∈ heard) ∧ (∀ id, id ∈ heard → id ∉ ids result → length result = bucketSize ∧ ∀ y, y ∈ result → distance target (nID y) <= distance target id)).
Proof.
  intros Ht Htab Href Hrun. destruct (run_ok _ _ _ _ _ _ _ _ _ Ht Htab Href Hrun) as [[Qp Qa Qn Qq Qs Qc Qu] [_ [N1 N2 N3 N4] Hfull _ _] Hd Ha]. cbv zeta. unfold alpha in *.
  split; [lia|]. split; [done|]. split; [by intros [_ ?]%Qq|]. split; [done|]. intros Hdone%Hd. rewrite Hdone in Qp. cbn in Qp. split; [apply Ha; lia|]. split; [done|]. split; [done|].
  split; [intros n Hn; by apply N3, list_elem_of_fmap_2|]. intros id Hin Hout. split; [by apply Hfull with id|by apply N4].
Qed.
(** C40: A lookup that is not done waits for an answer, and it is done after at
    most as many answers as there are nodes. *)
Theorem lookup_ends universe self tab refreshed target refreshIfEmpty i s heard : is_id target → known_table universe self tab → known_table universe self refreshed →
  run universe (lookup target refreshIfEmpty tab refreshed) i s heard →
  (i ≤ size universe)%nat ∧ (lk_lookupDone s = false → ∃ q, lk_queries s !! 0%nat = Some q) ∧ (lk_lookupDone s = true → lk_queries s = []) ∧
  (i = size universe → lk_lookupDone s = true).
Proof.
  intros Ht Htab Href Hrun. destruct (run_ok _ _ _ _ _ _ _ _ _ Ht Htab Href Hrun) as [[Qp Qa Qn Qq Qs Qc Qu] _ Hd _].
  assert (i + length (lk_queries s) ≤ size universe)%nat as Hi.
  { apply subseteq_size in Qu. rewrite Qc in Qu. pose proof (size_union_alt {[nID self]} universe) as Hu. rewrite Hu, size_singleton in Qu. pose proof (subseteq_size (universe ∖ {[nID self]}) universe ltac:(set_solver)). lia. }
  split; [lia|]. split; [|split; [by apply Hd|]].
  - intros Hf. destruct (lk_queries s) as [|q l]; [|by exists q]. by rewrite (proj2 Hd) in Hf.
  - intros ->. apply Hd, nil_length_inv. lia.
Qed.

(** * A small network *)
Module Example.
Definition self : INode := mkINode 0 0.
Definition a : INode := mkINode 1 (2 ^ 255).
Definition b : INode := mkINode 2 (2 ^ 255 + 1).
Definition c : INode := mkINode 3 (2 ^ 255 + 2).
Definition nodes : list INode := [a; b; c].
Definition universe : gset ID := list_to_set (ids nodes).
Definition fresh : Table := (goOnline 10 (λ _, 0) (newTable self [a; b] newDB)).2.
(** [a] and [b] answered the pings of a revalidation. *)
Definition live : Table := (revalidated 0 16 a true (revalidated 0 16 b true fresh).2).2.
Definition pong_a : Message := mkMessage Pong a 100010 true.
Definition bonded : Table := (handlePacket 100000 pong_a live).2.
Definition findnode_from (n : INode) (now : Z) : Message := mkMessage (Findnode (nID c)) n (now + 20) false.

Lemma fresh_reachable : reachable self [a; b] (mkNodeState fresh [] []).
Proof. apply (reachable_new self [a; b] 10 (λ _, 0)). vm_compute. reflexivity. Qed.
(** The last entry of the bucket is pinged; when it answers it moves to the front. *)
Lemma revalidation tab pings trace n : nodeToRevalidate [16%nat] tab = Some (n, 16%nat) → (revalidated 0 16 n true tab).1 = Ok tt →
  reachable self [a; b] (mkNodeState tab pings trace) → reachable self [a; b] (mkNodeState (revalidated 0 16 n true tab).2 ((n, 16%nat) :: pings) trace).
Proof.
  intros Hn Hok Hr. eapply reachable_step; [eapply reachable_step; [exact Hr|eapply step_doRevalidate, Hn]|]. eapply (step_revalidated 0 n 16 true); [left|].
  rewrite <- Hok. by destruct (revalidated 0 16 n true tab).
Qed.
Lemma live_reachable : reachable self [a; b] (mkNodeState live [(a, 16%nat); (b, 16%nat)] []).
Proof.
  apply revalidation; [vm_compute; reflexivity..|]. apply revalidation; [vm_compute; reflexivity..|]. apply fresh_reachable.
Qed.
Lemma bonded_reachable : reachable self [a; b] (mkNodeState bonded [(a, 16%nat); (b, 16%nat)] [OpPacket 100000 pong_a]).
Proof. eapply reachable_step; [exact live_reachable|]. apply (step_op _ _ _ _ []). vm_compute. reflexivity. Qed.
Lemma live_ok : known_table universe self live.
Proof.
  split; [apply (reachable_ok _ _ _ live_reachable)|]. unfold known_table. replace (all_entries live) with [a; b] by (vm_compute; reflexivity).
  repeat constructor; try (vm_compute; done); unfold universe; apply elem_of_list_to_set; set_solver.
Qed.
Lemma ids_ok : Forall (λ n, is_id (nID n)) (all_entries live).
Proof. destruct live_ok as [_ H]. eapply Forall_impl; [exact H|]. by intros n []. Qed.
Lemma c_id : is_id (nID c).
Proof. vm_compute. done. Qed.

Lemma table_stays_well_formed_witness : table_ok self bonded ∧ ∃ tab', revalidated 7 16 a false bonded = (Ok tt, tab').
Proof. destruct (table_stays_well_formed _ _ _ bonded_reachable) as (H & _ & Hr). split; [exact H|]. apply Hr. left. Defined.
Lemma closest_is_nearest_witness : StronglySorted (λ x y, distance (nID c) (nID x) < distance (nID c) (nID y)) [a; b] ∧ nb_entries (closest (nID c) 16 live) = [a; b].
Proof.
  assert (nb_entries (closest (nID c) 16 live) = [a; b]) as Hr by (vm_compute; reflexivity). split; [|exact Hr]. rewrite <- Hr.
  apply (closest_is_nearest self live (nID c) 16); [apply live_ok|exact c_id|exact ids_ok|lia].
Defined.
Lemma ReadRandomNodes_witness : ∃ buf, ReadRandomNodes (λ _, 0%nat) 1 live = Ok (buf, 2%nat) ∧ NoDup (ids buf) ∧ length buf = 1%nat.
Proof.
  destruct (ReadRandomNodes_reads_distinct_nodes self live (λ _, 0%nat) 1 (proj1 live_ok)) as (buf & Hb & Hn & _ & Hl). exists buf.
  assert (table_len live = 2%nat) as Ht by (vm_compute; reflexivity). rewrite Ht in Hb, Hl. split; [exact Hb|]. split; [exact Hn|exact Hl].
Defined.
Lemma neighbors_need_endpoint_proof_witness : ∃ op t, op ∈ [OpPacket 100000 pong_a] ∧ pong_of (nID a) op t ∧ 100010 - t <= bondExpiration.
Proof.
  destruct (neighbors_need_endpoint_proof _ _ _ 100010 (findnode_from a 100010) [Neighbors [a; b]] bonded [a; b] bonded_reachable) as (_ & _ & [H|H]);
    [vm_compute; reflexivity|left|unfold bondExpiration in H; lia|exact H].
Defined.
(** A node that never answered a ping is told the neighbours while the
    simulation is younger than [bondExpiration]. *)
Lemma stranger_is_answered : (handlePacket 10 (findnode_from c 10) live).1 = Ok [Neighbors [a; b]] ∧ pongs live = ∅.
Proof. split; vm_compute; reflexivity. Qed.

(** [a] answers with [b] and [c]; [b] and [c] then answer with nothing new. *)
Definition after_a : lookup_state := answered 0 (Some [b; c]) (lookup (nID c) false live live).
Definition after_b : lookup_state := answered 0 (Some [c]) after_a.
Definition after_c : lookup_state := answered 0 None after_b.
Lemma in_universe n : n ∈ nodes → is_id (nID n) ∧ nID n ∈ universe.
Proof.
  intros Hn. split; [|unfold universe; apply elem_of_list_to_set, list_elem_of_fmap_2, Hn]. revert n Hn. apply Forall_forall. repeat constructor; vm_compute; done.
Qed.
Lemma run_c : ∃ heard, run universe (lookup (nID c) false live live) 3 after_c heard.
Proof.
  eexists. eapply (run_answer _ _ _ _ _ 0 c None); [|vm_compute; reflexivity|by intros n ?%not_elem_of_nil].
  eapply (run_answer _ _ _ _ _ 0 b (Some [c])); [|vm_compute; reflexivity|intros n Hn; apply in_universe; set_solver].
  eapply (run_answer _ _ _ _ _ 0 a (Some [b; c])); [|vm_compute; reflexivity|intros n Hn; apply in_universe; set_solver]. apply run_start.
Qed.
Lemma lookup_finds_the_nearest_witness : size (lk_asked after_c) = 4%nat ∧ ∀ n, n ∈ nb_entries (lk_result after_c) → nID n ∈ lk_asked after_c.
Proof.
  destruct run_c as [heard Hrun].
  destruct (lookup_finds_the_nearest universe self live live (nID c) false 3 after_c heard c_id live_ok live_ok Hrun) as (_ & _ & _ & Hs & Hd).
  split; [rewrite Hs; vm_compute; reflexivity|]. apply Hd. vm_compute. reflexivity.
Defined.
Lemma lookup_ends_witness : lk_queries after_c = [].
Proof.
  destruct run_c as [heard Hrun].
  apply (lookup_ends universe self live live (nID c) false 3 after_c heard c_id live_ok live_ok Hrun). vm_compute. reflexivity.
Defined.
(** The nodes a lookup starts from are not marked seen: [b] is twice in its result. *)
Lemma lookup_repeats_a_node : nKey <$> nb_entries (lk_result after_c) = [3; 1; 2; 2] ∧ ¬ NoDup (ids (nb_entries (lk_result after_c))).
Proof.
  assert (nb_entries (lk_result after_c) = [c; a; b; b]) as -> by (vm_compute; reflexivity). split; [done|]. rewrite !fmap_cons, !NoDup_cons. set_solver.
Qed.
End Example.
