(* ===== verification/RawDB.v ===== *)
(** Reading and writing the chain in the database ([core/rawdb]): headers,
    bodies, receipts, total difficulties, the canonical numbering, the heads and
    the transaction lookups.  Writers list the writes they issue, to the database
    or to a batch.  The formats of receipts of older versions are left out. *)
From S2P Require Import Prelude Types Sealing Blocks TxSigning Memorydb.

(** RLP, by the type that is encoded; a value that cannot be encoded (a negative
    number) ends the process. *)
Class Rlp (A : Type) := {
  rlp_EncodeToBytes : A → option (list byte);
  rlp_DecodeBytes : list byte → option A
}.

(** The transactions and uncles of a block; the stored form of a receipt. *)
Record Body := mkBody { body_Transactions : list Transaction; body_Uncles : list Header }.
Record rlpStorageLog := mkStorageLog { sl_Address : Address; sl_Topics : list Hash; sl_Data : list byte }.
Record storedReceiptRLP := mkStoredReceipt { PostStateOrStatus : list byte; sr_CumulativeGasUsed : Z; sr_Logs : list rlpStorageLog }.

(** [crypto.CreateAddress] *)
Class ContractAddresses := crypto_CreateAddress : Address → Z → Address.

Definition block_Body (b : Block) : Body := mkBody (block_transactions b) (block_uncles b).
Definition WithBody (b : Block) (transactions : list Transaction) (uncles : list Header) : Block :=
  mkBlock (CopyHeader (block_header b)) (CopyHeader <$> uncles) transactions.

Definition crit {E A} : Result E A := Panic (ExplicitPanic "crit").
Definition encoded {E A} `{Rlp A} (x : A) : Result E (list byte) :=
  match rlp_EncodeToBytes x with Some data => Ok data | None => crit end.
(** The data of a key, when there is some. *)
Definition read_rlp {A} `{Rlp A} (db : Database) (key : list byte) : option A :=
  match db_Get db key with None | Some [] => None | Some data => rlp_DecodeBytes data end.
Definition read_hash (db : Database) (key : list byte) : Hash :=
  match db_Get db key with None | Some [] => zero_hash | Some data => BytesToHash data end.

Section accessors.
Context `{Crypto} `{TxCrypto} `{!Rlp Header} `{!Rlp Body} `{!Rlp Z} `{!Rlp (list storedReceiptRLP)} `{ContractAddresses}.
Context {E : Type}.

(** * Canonical hashes and heads *)
Definition ReadCanonicalHash (db : Database) (number : Z) : Hash := read_hash db (headerHashKey number).
Definition WriteCanonicalHash (hash : Hash) (number : Z) : list keyvalue := [PutKey (headerHashKey number) (Hash_Bytes hash)].
Definition DeleteCanonicalHash (number : Z) : list keyvalue := [DeleteKey (headerHashKey number)].
Definition ReadHeaderNumber (db : Database) (hash : Hash) : option Z :=
  match db_Get db (headerNumberKey hash) with
  | Some data => if (length data =? 8)%nat then Some (bytes_array data) else None
  | None => None
  end.
Definition ReadHeadHeaderHash (db : Database) : Hash := read_hash db headHeaderKey.
Definition WriteHeadHeaderHash (hash : Hash) : list keyvalue := [PutKey headHeaderKey (Hash_Bytes hash)].
Definition ReadHeadBlockHash (db : Database) : Hash := read_hash db headBlockKey.
Definition WriteHeadBlockHash (hash : Hash) : list keyvalue := [PutKey headBlockKey (Hash_Bytes hash)].
Definition ReadHeadFastBlockHash (db : Database) : Hash := read_hash db headFastBlockKey.
Definition WriteHeadFastBlockHash (hash : Hash) : list keyvalue := [PutKey headFastBlockKey (Hash_Bytes hash)].

(** * Headers, bodies and difficulties *)
Definition raw_HasHeader (db : Database) (hash : Hash) (number : Z) : bool := Has db (headerKey number hash).
Definition ReadHeader (db : Database) (hash : Hash) (number : Z) : option Header := read_rlp db (headerKey number hash).
Definition WriteHeader (header : Header) : Result E (list keyvalue) :=
  let hash := Header_Hash header in
  number ← Types.Uint64 (Number header);
  data ← encoded header;
  Ok [PutKey (headerNumberKey hash) (encodeBlockNumber number); PutKey (headerKey number hash) data].
Definition deleteHeaderWithoutNumber (hash : Hash) (number : Z) : list keyvalue := [DeleteKey (headerKey number hash)].
Definition DeleteHeader (hash : Hash) (number : Z) : list keyvalue :=
  deleteHeaderWithoutNumber hash number ++ [DeleteKey (headerNumberKey hash)].
Definition HasBody (db : Database) (hash : Hash) (number : Z) : bool := Has db (blockBodyKey number hash).
Definition ReadBody (db : Database) (hash : Hash) (number : Z) : option Body := read_rlp db (blockBodyKey number hash).
Definition WriteBody (hash : Hash) (number : Z) (body : Body) : Result E (list keyvalue) :=
  data ← encoded body; Ok [PutKey (blockBodyKey number hash) data].
Definition DeleteBody (hash : Hash) (number : Z) : list keyvalue := [DeleteKey (blockBodyKey number hash)].
Definition ReadTd (db : Database) (hash : Hash) (number : Z) : option Z := read_rlp db (headerTDKey number hash).
Definition raw_WriteTd (hash : Hash) (number : Z) (td : Z) : Result E (list keyvalue) :=
  data ← encoded td; Ok [PutKey (headerTDKey number hash) data].
Definition DeleteTd (hash : Hash) (number : Z) : list keyvalue := [DeleteKey (headerTDKey number hash)].

(** * Receipts *)
Definition receiptStatusFailedRLP : list byte := [].
Definition receiptStatusSuccessfulRLP : list byte := [1].
Definition statusEncoding (r : Receipt) : list byte :=
  match rPostState r with
  | [] => if rStatus r =? ReceiptStatusFailed then receiptStatusFailedRLP else receiptStatusSuccessfulRLP
  | root => root
  end.
(** On a receipt that is being decoded, whose fields are zero. *)
Definition setStatus (postStateOrStatus : list byte) : option (list byte * Z) :=
  if decide (postStateOrStatus = receiptStatusSuccessfulRLP) then Some ([], ReceiptStatusSuccessful) else
  if decide (postStateOrStatus = receiptStatusFailedRLP) then Some ([], ReceiptStatusFailed) else
  if (length postStateOrStatus =? HashLength)%nat then Some (postStateOrStatus, 0) else None.
Definition store_log (l : Log) : rlpStorageLog := mkStorageLog (lAddress l) (lTopics l) (lData l).
Definition restore_log (l : rlpStorageLog) : Log := mkLog (sl_Address l) (sl_Topics l) (sl_Data l) 0 zero_hash 0 zero_hash 0 false.
Definition store_receipt (r : Receipt) : storedReceiptRLP :=
  mkStoredReceipt (statusEncoding r) (rCumulativeGasUsed r) (store_log <$> rLogs r).
Definition decodeStoredReceiptRLP (s : storedReceiptRLP) : Result E (option Receipt) :=
  match setStatus (PostStateOrStatus s) with
  | None => Ok None
  | Some (root, status) =>
      let r := mkReceipt root status (sr_CumulativeGasUsed s) 0 (restore_log <$> sr_Logs s) zero_hash zero_address 0 zero_hash None 0 in
      match CreateBloom [r] with
      | Ok bloom => Ok (Some (mkReceipt root status (sr_CumulativeGasUsed s) bloom (rLogs r) zero_hash zero_address 0 zero_hash None 0))
      | Err _ => Ok None
      | Panic p => Panic p
      end
  end.
Fixpoint decode_receipts (l : list storedReceiptRLP) : Result E (option (list Receipt)) :=
  match l with
  | [] => Ok (Some [])
  | s :: l =>
      r ← decodeStoredReceiptRLP s;
      match r with
      | None => Ok None
      | Some r => rs ← decode_receipts l; Ok (option_map (cons r) rs)
      end
  end.

Definition derive_log (hash : Hash) (number : Z) (txHash : Hash) (i logIndex : Z) (l : Log) : Log :=
  mkLog (lAddress l) (lTopics l) (lData l) number txHash i hash logIndex (lRemoved l).
Fixpoint derive_logs (hash : Hash) (number : Z) (txHash : Hash) (i logIndex : Z) (logs : list Log) : list Log :=
  match logs with
  | [] => []
  | l :: logs => derive_log hash number txHash i logIndex l :: derive_logs hash number txHash i (logIndex + 1) logs
  end.
(** From the [i]-th receipt on; [used] is the gas the ones before it used. *)
Fixpoint derive_receipts (signer : Signer) (hash : Hash) (number i logIndex used : Z) (rs : list Receipt) (txs : list Transaction) :
    Result E (list Receipt) :=
  match rs, txs with
  | r :: rs, tx :: txs =>
      let txHash := rlpHash_tx tx in
      address ← match Recipient tx with
        | Some _ => Ok (rContractAddress r)
        | None =>
            match Signer_Sender signer tx with
            | Ok from => Ok (crypto_CreateAddress from (AccountNonce tx))
            | Err _ => Ok (crypto_CreateAddress zero_address (AccountNonce tx))
            | Panic p => Panic p
            end
        end;
      let r' := mkReceipt (rPostState r) (rStatus r) (rCumulativeGasUsed r) (rBloom r) (derive_logs hash number txHash i logIndex (rLogs r))
        txHash address (rCumulativeGasUsed r - used)%u64 hash (Some number) i in
      rest ← derive_receipts signer hash number (i + 1) (logIndex + Z.of_nat (length (rLogs r))) (rCumulativeGasUsed r) rs txs;
      Ok (r' :: rest)
  | _, _ => Ok []
  end.
Definition DeriveFields (chainId : option Z) (hash : Hash) (number : Z) (rs : list Receipt) (txs : list Transaction) : Result E (option (list Receipt)) :=
  if negb (length txs =? length rs)%nat then Ok None else
  rs ← derive_receipts (MakeSigner chainId) hash number 0 0 0 rs txs; Ok (Some rs).

Definition HasReceipts (db : Database) (hash : Hash) (number : Z) : bool := Has db (blockReceiptsKey number hash).
Definition ReadRawReceipts (db : Database) (hash : Hash) (number : Z) : Result E (option (list Receipt)) :=
  match read_rlp db (blockReceiptsKey number hash) with
  | None => Ok None
  | Some stored => decode_receipts stored
  end.
Definition ReadReceipts (db : Database) (hash : Hash) (number : Z) (chainId : option Z) : Result E (option (list Receipt)) :=
  receipts ← ReadRawReceipts db hash number;
  match receipts with
  | None => Ok None
  | Some receipts =>
      match ReadBody db hash number with
      | None => Ok None
      | Some body => DeriveFields chainId hash number receipts (body_Transactions body)
      end
  end.
Definition WriteReceipts (hash : Hash) (number : Z) (receipts : list Receipt) : Result E (list keyvalue) :=
  data ← encoded (store_receipt <$> receipts); Ok [PutKey (blockReceiptsKey number hash) data].
Definition DeleteReceipts (hash : Hash) (number : Z) : list keyvalue := [DeleteKey (blockReceiptsKey number hash)].

(** * Blocks *)
Definition ReadBlock (db : Database) (hash : Hash) (number : Z) : option Block :=
  match ReadHeader db hash number with
  | None => None
  | Some header =>
      match ReadBody db hash number with
      | None => None
      | Some body => Some (WithBody (NewBlockWithHeader header) (body_Transactions body) (body_Uncles body))
      end
  end.
Definition WriteBlock (block : Block) : Result E (list keyvalue) :=
  number ← Types.Uint64 (Number (block_header block));
  body ← WriteBody (Header_Hash (block_header block)) number (block_Body block);
  header ← WriteHeader (CopyHeader (block_header block));
  Ok (body ++ header).
Definition DeleteBlock (hash : Hash) (number : Z) : list keyvalue :=
  DeleteReceipts hash number ++ DeleteHeader hash number ++ DeleteBody hash number ++ DeleteTd hash number.
Definition deleteBlockWithoutNumber (hash : Hash) (number : Z) : list keyvalue :=
  DeleteReceipts hash number ++ deleteHeaderWithoutNumber hash number ++ DeleteBody hash number ++ DeleteTd hash number.

(** * Transaction lookups *)
Definition WriteTxLookupEntries (block : Block) : list keyvalue :=
  (λ tx, PutKey (txLookupKey (rlpHash_tx tx)) (Hash_Bytes (Header_Hash (block_header block)))) <$> block_transactions block.
Definition DeleteTxLookupEntry (hash : Hash) : list keyvalue := [DeleteKey (txLookupKey hash)].
(** Entries are the 32 bytes of a hash; the older format is left out. *)
Definition ReadTxLookupEntry (db : Database) (hash : Hash) : Hash :=
  match db_Get db (txLookupKey hash) with
  | Some data => if (length data =? HashLength)%nat then BytesToHash data else zero_hash
  | None => zero_hash
  end.
Definition ReadTransaction (db : Database) (hash : Hash) : option (Transaction * Hash * Z * Z) :=
  let blockHash := ReadTxLookupEntry db hash in
  if blockHash =? zero_hash then None else
  match ReadHeaderNumber db blockHash with
  | None => None
  | Some blockNumber =>
      match ReadBody db blockHash blockNumber with
      | None => None
      | Some body =>
          match list_find (λ tx, rlpHash_tx tx = hash) (body_Transactions body) with
          | Some (i, tx) => Some (tx, blockHash, blockNumber, Z.of_nat i)
          | None => None
          end
      end
  end.
Definition ReadReceipt (db : Database) (hash : Hash) (chainId : option Z) : Result E (option (Receipt * Hash * Z * Z)) :=
  let blockHash := ReadTxLookupEntry db hash in
  if blockHash =? zero_hash then Ok None else
  match ReadHeaderNumber db blockHash with
  | None => Ok None
  | Some blockNumber =>
      receipts ← ReadReceipts db blockHash blockNumber chainId;
      match list_find (λ r, rTxHash r = hash) (default [] receipts) with
      | Some (i, r) => Ok (Some (r, blockHash, blockNumber, Z.of_nat i))
      | None => Ok None
      end
  end.

(** The order of the map does not matter, the keys are distinct. *)
Definition WritePreimages (preimages : gmap Hash (list byte)) : list keyvalue :=
  (λ p, PutKey (preimageKey p.1) p.2) <$> map_to_list preimages.

(** * The last common ancestor of two headers *)
Definition raw_parent (db : Database) (h : Header) : Result E (option Header) :=
  n ← Types.Uint64 (Number h); Ok (ReadHeader db (ParentHash h) (n - 1)%u64).
(** The ancestor of [a] at or below a height. *)
Fixpoint lower (fuel : nat) (db : Database) (a : Header) (height : Z) : Result E (option Header) :=
  n ← Types.Uint64 (Number a);
  if negb (height <? n) then Ok (Some a) else
  match fuel with
  | O => Panic OutOfFuel
  | Datatypes.S fuel =>
      parent ← raw_parent db a;
      match parent with None => Ok None | Some parent => lower fuel db parent height end
  end.
Fixpoint common_of (fuel : nat) (db : Database) (a b : Header) : Result E (option Header) :=
  if Header_Hash a =? Header_Hash b then Ok (Some a) else
  match fuel with
  | O => Panic OutOfFuel
  | Datatypes.S fuel =>
      a' ← raw_parent db a;
      match a' with
      | None => Ok None
      | Some a =>
          b' ← raw_parent db b;
          match b' with None => Ok None | Some b => common_of fuel db a b end
      end
  end.
Definition FindCommonAncestor (db : Database) (a b : Header) : Result E (option Header) :=
  bn ← Types.Uint64 (Number b);
  an ← Types.Uint64 (Number a);
  a ← lower (Z.to_nat an) db a bn;
  match a with
  | None => Ok None
  | Some a =>
      an ← Types.Uint64 (Number a);
      b ← lower (Z.to_nat bn) db b an;
      match b with None => Ok None | Some b => common_of (Datatypes.S (Z.to_nat an)) db a b end
  end.
End accessors.
