(* ===== verification/RawDBSpec.v ===== *)
(** What the database accessors promise: an entry written is read back, every
    other entry stays, blocks and receipts survive their stored form. *)
From S2P Require Import Prelude Types Sealing Blocks TxSigning Memorydb RawDB.

(** * What can be encoded *)
Definition storable_header (h : Header) : Prop :=
  (∃ n, Number h = Some n ∧ 0 ≤ n) ∧ ∃ d, Difficulty h = Some d ∧ 0 ≤ d.
Definition storable_tx (tx : Transaction) : Prop := 0 ≤ Price tx ∧ 0 ≤ Amount tx ∧ 0 ≤ SigV tx ∧ 0 ≤ SigR tx ∧ 0 ≤ SigS tx.
Record storable_body (b : Body) : Prop := {
  sb_txs : Forall storable_tx (body_Transactions b);
  sb_uncles : Forall storable_header (body_Uncles b)
}.
Class RlpLaws (A : Type) `{Rlp A} (storable : A → Prop) :=
  rlp_roundtrip x : storable x → ∃ data, rlp_EncodeToBytes x = Some data ∧ data ≠ [] ∧ rlp_DecodeBytes data = Some x.

Lemma CopyHeader_storable h : storable_header h → CopyHeader h = h.
Proof. intros [(n & Hn & _) (d & Hd & _)]. unfold CopyHeader. rewrite Hn, Hd. destruct h; cbn in *; by subst. Qed.
Lemma CopyHeaders_storable l : Forall storable_header l → CopyHeader <$> l = l.
Proof. induction 1 as [|h l Hh Hl IH]; [done|]. cbn. by rewrite IH, CopyHeader_storable. Qed.

(** * Writes by entry *)
Definition put_entry (p : entry * option (list byte)) : keyvalue :=
  match p.2 with Some v => PutKey (entry_key p.1) v | None => DeleteKey (entry_key p.1) end.
Definition puts (ps : list (entry * option (list byte))) : list keyvalue := put_entry <$> ps.
Definition entry_at (db : Database) (e : entry) : option (list byte) := db_Get db (entry_key e).
(** The value of [e] after the writes. *)
Definition over (ps : list (entry * option (list byte))) (e : entry) (v : option (list byte)) : option (list byte) :=
  foldl (λ v p, if decide (p.1 = e) then p.2 else v) v ps.

Lemma entry_at_puts ps db e : Forall (λ p, entry_ok p.1) ps → entry_ok e →
  entry_at (batch_Write (puts ps) db) e = over ps e (entry_at db e).
Proof.
  intros Hps He. revert db. induction Hps as [|[e' w] ps Hp Hps IH]; intros db; [done|]. cbn [puts fmap list_fmap].
  change (batch_Write (put_entry (e', w) :: (put_entry <$> ps)) db) with (batch_Write (puts ps) (db_write db (put_entry (e', w)))).
  rewrite IH. cbn [over foldl fst snd] in *. unfold over. f_equal. unfold entry_at, put_entry. cbn [fst snd].
  destruct w as [w|]; [by rewrite get_put|by rewrite get_delete].
Qed.
Lemma over_skip ps e v : e ∉ ps.*1 → over ps e v = v.
Proof.
  revert v. induction ps as [|[e' w] ps IH]; intros v Hne; [done|]. cbn in *. apply not_elem_of_cons in Hne as [Hne Hps].
  unfold over in *. cbn. rewrite decide_False by done. by apply IH.
Qed.
Lemma entry_at_other ps db e : Forall (λ p, entry_ok p.1) ps → entry_ok e → e ∉ ps.*1 →
  entry_at (batch_Write (puts ps) db) e = entry_at db e.
Proof. intros Hps He Hne. by rewrite entry_at_puts, over_skip. Qed.

(** ** Reads by entry *)
Definition hash_at (v : option (list byte)) : Hash := match v with None | Some [] => zero_hash | Some data => BytesToHash data end.
Definition rlp_at {A} `{Rlp A} (v : option (list byte)) : option A := match v with None | Some [] => None | Some data => rlp_DecodeBytes data end.
Definition number_at (v : option (list byte)) : option Z :=
  match v with Some data => if (length data =? 8)%nat then Some (bytes_array data) else None | None => None end.
Lemma hash_at_bytes h : is_hash h → hash_at (Some (Hash_Bytes h)) = h.
Proof.
  intros Hh. pose proof (Hash_Bytes_length h) as Hlen. unfold hash_at. destruct (Hash_Bytes h) as [|b l] eqn:Hb; [done|].
  rewrite <- Hb. by apply BytesToHash_Bytes.
Qed.
Lemma number_at_bytes n : is_u64 n → number_at (Some (encodeBlockNumber n)) = Some n.
Proof.
  intros Hn. unfold number_at, encodeBlockNumber. rewrite array_bytes_length. cbn [Nat.eqb]. f_equal.
  by apply bytes_array_of_number.
Qed.
Lemma rlp_at_encoded {A} `{RlpLaws A storable} (x : A) data : storable x → rlp_EncodeToBytes x = Some data → rlp_at (Some data) = Some x.
Proof.
  intros Hx Henc. destruct (rlp_roundtrip x Hx) as (data' & Henc' & Hne & Hdec). assert (data' = data) as -> by congruence.
  unfold rlp_at. by destruct data.
Qed.

Section laws.
Context `{Crypto} `{TxCrypto} `{!Rlp Header} `{!Rlp Body} `{!Rlp Z} `{!Rlp (list storedReceiptRLP)} `{ContractAddresses}.
Context `{!RlpLaws Header storable_header} `{!RlpLaws Body storable_body} `{!RlpLaws Z (λ x, 0 ≤ x)} `{!RlpLaws (list storedReceiptRLP) (λ _, True)}.
Context {E : Type}.

(** A block that can be stored under its hash. *)
Record storable_block (b : Block) (n : Z) : Prop := {
  sk_header : storable_header (block_header b);
  sk_body : storable_body (block_Body b);
  sk_number : Number (block_header b) = Some n;
  sk_range : is_u64 n;
  sk_hash : is_hash (Header_Hash (block_header b))
}.

Lemma encoded_ok {A} `{RlpLaws A storable} (x : A) : storable x → ∃ data, encoded (E := E) x = Ok data ∧ rlp_at (Some data) = Some x ∧ is_Some (Some data).
Proof.
  intros Hx. destruct (rlp_roundtrip x Hx) as (data & Henc & Hne & Hdec). exists data. unfold encoded. rewrite Henc.
  split; [done|]. split; [by eapply rlp_at_encoded|by eexists].
Qed.
Lemma WriteHeader_ok h n : storable_header h → Number h = Some n → is_u64 n →
  ∃ data, WriteHeader (E := E) h = Ok (puts [(NumberEntry (Header_Hash h), Some (encodeBlockNumber n)); (HeaderEntry n (Header_Hash h), Some data)]) ∧
    rlp_at (Some data) = Some h.
Proof.
  intros Hh Hn Hr. destruct (encoded_ok h Hh) as (data & Henc & Hdec & _). exists data. split; [|done].
  unfold WriteHeader. rewrite Hn. cbn [Types.Uint64 mbind result_bind]. rewrite wrap64_id by done. by rewrite Henc.
Qed.
Lemma WriteTd_ok h n td : 0 ≤ td → ∃ data, raw_WriteTd (E := E) h n td = Ok (puts [(TdEntry n h, Some data)]) ∧ rlp_at (Some data) = Some td.
Proof.
  intros Htd. destruct (encoded_ok (storable := λ x, 0 ≤ x) td Htd) as (data & Henc & Hdec & _). exists data. split; [|done].
  unfold raw_WriteTd. by rewrite Henc.
Qed.
Lemma WriteBlock_ok b n : storable_block b n →
  ∃ bd hd, WriteBlock (E := E) b = Ok (puts [(BodyEntry n (Header_Hash (block_header b)), Some bd);
      (NumberEntry (Header_Hash (block_header b)), Some (encodeBlockNumber n)); (HeaderEntry n (Header_Hash (block_header b)), Some hd)]) ∧
    rlp_at (Some bd) = Some (block_Body b) ∧ rlp_at (Some hd) = Some (block_header b).
Proof.
  intros [Hh Hb Hn Hr _]. destruct (encoded_ok (block_Body b) Hb) as (bd & Henc & Hdec & _).
  destruct (WriteHeader_ok _ n Hh Hn Hr) as (hd & Hw & Hhd). exists bd, hd. split; [|done].
  unfold WriteBlock, WriteBody. rewrite Hn. cbn [Types.Uint64 mbind result_bind]. rewrite wrap64_id by done.
  rewrite Henc. cbn [mbind result_bind]. rewrite CopyHeader_storable by done. by rewrite Hw.
Qed.

(** ** Blocks come back *)
Definition block_entries (b : Block) (n : Z) : list entry :=
  let h := Header_Hash (block_header b) in [BodyEntry n h; NumberEntry h; HeaderEntry n h].
Lemma ReadBlock_at db h n : ReadBlock db h n =
  match rlp_at (A := Header) (entry_at db (HeaderEntry n h)), rlp_at (A := Body) (entry_at db (BodyEntry n h)) with
  | Some hd, Some b => Some (WithBody (NewBlockWithHeader hd) (body_Transactions b) (body_Uncles b))
  | _, _ => None
  end.
Proof. unfold ReadBlock, ReadHeader, ReadBody, read_rlp, rlp_at, entry_at, entry_key. by destruct (db_Get _ _) as [[|]|]. Qed.
Lemma WithBody_storable b n : storable_block b n →
  WithBody (NewBlockWithHeader (block_header b)) (body_Transactions (block_Body b)) (body_Uncles (block_Body b)) = b.
Proof.
  intros [Hh [Htx Hu] _ _ _]. unfold WithBody, NewBlockWithHeader. cbn in *.
  rewrite (CopyHeader_storable (block_header b)) by done. rewrite CopyHeader_storable, CopyHeaders_storable by done. by destruct b.
Qed.
Lemma WriteBlock_entries b n ws db : storable_block b n → WriteBlock (E := E) b = Ok ws →
  let db' := batch_Write ws db in let h := Header_Hash (block_header b) in
  rlp_at (entry_at db' (HeaderEntry n h)) = Some (block_header b) ∧ rlp_at (entry_at db' (BodyEntry n h)) = Some (block_Body b) ∧
  number_at (entry_at db' (NumberEntry h)) = Some n ∧ ∀ e, entry_ok e → e ∉ block_entries b n → entry_at db' e = entry_at db e.
Proof.
  intros Hb Hw. destruct (WriteBlock_ok b n Hb) as (bd & hd & Hw' & Hbd & Hhd).
  set (h := Header_Hash (block_header b)). cbv zeta. destruct Hb as [_ _ _ Hn Hh]. fold h in Hh, Hw'.
  set (l := [(BodyEntry n h, Some bd); (NumberEntry h, Some (encodeBlockNumber n)); (HeaderEntry n h, Some hd)]) in Hw'.
  assert (ws = puts l) as -> by congruence.
  assert (Forall (λ p, entry_ok p.1) l) as Hl by (repeat apply Forall_cons_2; cbn; [by split|done|by split|done]).
  assert (∀ e, entry_ok e → entry_at (batch_Write (puts l) db) e = over l e (entry_at db e)) as Hat by (intros e He; by apply entry_at_puts).
  split_and!.
  - rewrite Hat by by split. unfold over, l. cbn. by repeat case_decide.
  - rewrite Hat by by split. unfold over, l. cbn. by repeat case_decide.
  - rewrite Hat by done. unfold over, l. cbn. repeat case_decide; try done. by apply number_at_bytes.
  - intros e He Hne. rewrite Hat by done. by apply over_skip.
Qed.

(** a block written is the block read: under its hash and number the
    database returns the very block, header and body, and the number of the
    hash; no other entry of the chain changes, whatever it is. *)
Theorem block_roundtrip b n db : storable_block b n →
  ∃ ws, WriteBlock (E := E) b = Ok ws ∧
    let db' := batch_Write ws db in let h := Header_Hash (block_header b) in
    ReadBlock db' h n = Some b ∧ ReadHeaderNumber db' h = Some n ∧ HasBody db' h n = true ∧
    ∀ e, entry_ok e → e ∉ block_entries b n → db_Get db' (entry_key e) = db_Get db (entry_key e).
Proof.
  intros Hb. destruct (WriteBlock_ok b n Hb) as (bd & hd & Hw & _). eexists. split; [exact Hw|].
  destruct (WriteBlock_entries b n _ db Hb Hw) as (Hhd & Hbd & Hnum & Hother). split_and!; [| | |done].
  - rewrite ReadBlock_at, Hhd, Hbd. f_equal. by eapply WithBody_storable.
  - exact Hnum.
  - unfold HasBody, Has. apply bool_decide_eq_true. revert Hbd. unfold entry_at, db_Get. cbn [entry_key]. by destruct (_ !! _).
Qed.

(** ** Receipts come back

    The receipts of a processed block carry their position; none creates a
    contract. *)
Fixpoint logs_in_place (hash : Hash) (number : Z) (txHash : Hash) (i logIndex : Z) (logs : list Log) : Prop :=
  match logs with
  | [] => True
  | l :: logs => l = mkLog (lAddress l) (lTopics l) (lData l) number txHash i hash logIndex false ∧ logs_in_place hash number txHash i (logIndex + 1) logs
  end.
Record receipt_in_place (hash : Hash) (number i logIndex used : Z) (r : Receipt) (tx : Transaction) : Prop := {
  ip_call : is_Some (Recipient tx);
  ip_status : rPostState r = [] ∧ (rStatus r = ReceiptStatusFailed ∨ rStatus r = ReceiptStatusSuccessful);
  ip_bloom : CreateBloom [r] = Ok (rBloom r);
  ip_place : rBlockHash r = hash ∧ rBlockNumber r = Some number ∧ rTransactionIndex r = i ∧ rTxHash r = rlpHash_tx tx ∧ rContractAddress r = zero_address;
  ip_gas : rGasUsed r = (rCumulativeGasUsed r - used)%u64;
  ip_logs : logs_in_place hash number (rlpHash_tx tx) i logIndex (rLogs r)
}.
Fixpoint in_place (hash : Hash) (number i logIndex used : Z) (rs : list Receipt) (txs : list Transaction) : Prop :=
  match rs, txs with
  | [], [] => True
  | r :: rs, tx :: txs =>
      receipt_in_place hash number i logIndex used r tx ∧
      in_place hash number (i + 1) (logIndex + Z.of_nat (length (rLogs r))) (rCumulativeGasUsed r) rs txs
  | _, _ => False
  end.

(** A receipt as it comes out of its stored form. *)
Definition bare (r : Receipt) : Receipt :=
  mkReceipt [] (rStatus r) (rCumulativeGasUsed r) (rBloom r) (restore_log <$> (store_log <$> rLogs r)) zero_hash zero_address 0 zero_hash None 0.
Lemma LogsBloom_stored logs : LogsBloom (restore_log <$> (store_log <$> logs)) = LogsBloom logs.
Proof. unfold LogsBloom. generalize 0 as acc. induction logs as [|l logs IH]; intros acc; [done|]. apply IH. Qed.
Lemma decode_bare hash number i k used r tx : receipt_in_place hash number i k used r tx →
  decodeStoredReceiptRLP (E := E) (store_receipt r) = Ok (Some (bare r)).
Proof.
  intros [_ [Hroot Hst] Hbloom _ _ _]. unfold decodeStoredReceiptRLP, store_receipt. cbn [PostStateOrStatus sr_CumulativeGasUsed sr_Logs].
  assert (setStatus (statusEncoding r) = Some ([], rStatus r)) as ->.
  { unfold statusEncoding. rewrite Hroot. by destruct Hst as [-> | ->]. }
  unfold CreateBloom in *. cbn [foldl rLogs] in *. rewrite LogsBloom_stored. by rewrite Hbloom.
Qed.
Lemma decode_in_place hash number i k used rs txs : in_place hash number i k used rs txs →
  decode_receipts (E := E) (store_receipt <$> rs) = Ok (Some (bare <$> rs)).
Proof.
  revert i k used txs. induction rs as [|r rs IH]; intros i k used [|tx txs] Hp; try done. destruct Hp as [Hr Hp].
  cbn [fmap list_fmap decode_receipts]. erewrite decode_bare by exact Hr. cbn [mbind result_bind]. by erewrite IH.
Qed.
Lemma derive_logs_bare hash number txHash i k logs : logs_in_place hash number txHash i k logs →
  derive_logs hash number txHash i k (restore_log <$> (store_log <$> logs)) = logs.
Proof. revert k. induction logs as [|l logs IH]; intros k Hp; [done|]. destruct Hp as [Hl Hp]. cbn. rewrite IH by done. by rewrite Hl at 2. Qed.
Lemma derive_bare signer hash number i k used rs txs : in_place hash number i k used rs txs →
  derive_receipts (E := E) signer hash number i k used (bare <$> rs) txs = Ok rs.
Proof.
  revert i k used txs. induction rs as [|r rs IH]; intros i k used [|tx txs] Hp; try done. destruct Hp as [[[to Hto] [Hroot _] _ (Hh & Hn & Hi & Htx & Hc) Hg Hl] Hp].
  cbn [fmap list_fmap derive_receipts]. rewrite Hto. cbn [mbind result_bind rLogs rCumulativeGasUsed bare].
  rewrite !length_fmap, IH by done. cbn [mbind result_bind]. rewrite derive_logs_bare by done. f_equal. f_equal.
  destruct r. cbn in *. by subst.
Qed.
Lemma in_place_length hash number i k used rs txs : in_place hash number i k used rs txs → length txs = length rs.
Proof. revert i k used txs. induction rs as [|r rs IH]; intros i k used [|tx txs] Hp; try done. destruct Hp as [_ Hp]. cbn. f_equal. by eapply IH. Qed.

(** the receipts of a block survive their stored form.  Storage keeps only
    the status, the cumulative gas and the logs; reading recomputes bloom, gas,
    hashes, positions and log indices from the block, and gets exactly the
    receipts the processing of the block produced. *)
Theorem receipts_roundtrip chainId b n rs db : storable_block b n →
  in_place (Header_Hash (block_header b)) n 0 0 0 rs (block_transactions b) →
  ∃ ws ws', WriteBlock (E := E) b = Ok ws ∧ WriteReceipts (E := E) (Header_Hash (block_header b)) n rs = Ok ws' ∧
    ReadReceipts (E := E) (batch_Write (ws ++ ws') db) (Header_Hash (block_header b)) n chainId = Ok (Some rs).
Proof.
  intros Hb Hp. set (h := Header_Hash (block_header b)) in *. destruct (WriteBlock_ok b n Hb) as (bd & hd & Hw & _). fold h in Hw.
  destruct (encoded_ok (storable := λ _, True) (store_receipt <$> rs) I) as (data & Henc & Hdec & _).
  eexists _, (puts [(ReceiptsEntry n h, Some data)]). split; [exact Hw|]. split; [unfold WriteReceipts; by rewrite Henc|].
  rewrite batch_Write_app. destruct (WriteBlock_entries b n _ db Hb Hw) as (_ & Hbd & _ & _). fold h in Hbd.
  match goal with |- context [batch_Write (puts [(ReceiptsEntry n h, Some data)]) ?d] => set (db1 := d) in * end.
  pose proof (sk_range _ _ Hb) as Hn. pose proof (sk_hash _ _ Hb) as Hh. fold h in Hh.
  assert (entry_ok (ReceiptsEntry n h)) as Hok by by split.
  assert (entry_ok (BodyEntry n h)) as Hok' by by split.
  assert (Forall (λ p, entry_ok p.1) [(ReceiptsEntry n h, Some data)]) as Hps by by apply Forall_singleton.
  assert (entry_at (batch_Write (puts [(ReceiptsEntry n h, Some data)]) db1) (ReceiptsEntry n h) = Some data) as Hr.
  { rewrite entry_at_puts by done. unfold over. cbn. by rewrite decide_True. }
  rewrite <- (entry_at_other [(ReceiptsEntry n h, Some data)] db1) in Hbd; [|done|done|cbn; set_solver].
  unfold ReadReceipts, ReadRawReceipts. change (read_rlp ?d (blockReceiptsKey n h)) with (rlp_at (A := list storedReceiptRLP) (entry_at d (ReceiptsEntry n h))).
  rewrite Hr, Hdec. erewrite decode_in_place by exact Hp. cbn [mbind result_bind].
  change (ReadBody ?d h n) with (rlp_at (A := Body) (entry_at d (BodyEntry n h))). rewrite Hbd. unfold DeriveFields.
  cbn [block_Body body_Transactions]. rewrite length_fmap, (in_place_length _ _ _ _ _ _ _ Hp), Nat.eqb_refl. cbn [negb].
  by erewrite derive_bare by exact Hp.
Qed.
End laws.
