(* ===== verification/HeaderChain.v ===== *)
(** The header chain ([core/headerchain.go]): headers, total difficulties and the
    canonical numbering over the database, with the caches in front of it.
    Random draws are arguments of the operations that make them. *)
From S2P Require Import Prelude Types Sealing Blocks Transition TxSigning Processor Memorydb RawDB Hoare.

(** * Caches by hash

    [lru.Cache] of [github.com/hashicorp/golang-lru]: a lookup changes the order
    of eviction only, adding may evict other entries. *)
Class LRU (C : Type → Type) := {
  lru_New {V} : Z → C V;
  lru_Get {V} : Hash → C V → option V * C V;
  lru_Peek {V} : Hash → C V → option V;
  lru_Contains {V} : Hash → C V → bool;
  lru_Add {V} : Hash → V → C V → C V;
  lru_Remove {V} : Hash → C V → C V;
  lru_Purge {V} : C V → C V;
  lru_Keys {V} : C V → list Hash
}.
Class LRULaws (C : Type → Type) `{LRU C} := {
  lru_New_empty {V} n k : lru_Peek k (lru_New (V := V) n) = None;
  lru_Get_peek {V} k (c : C V) : (lru_Get k c).1 = lru_Peek k c;
  lru_Get_same {V} k k' (c : C V) : lru_Peek k' (lru_Get k c).2 = lru_Peek k' c;
  lru_Contains_peek {V} k (c : C V) : lru_Contains k c = bool_decide (is_Some (lru_Peek k c));
  lru_Add_same {V} k v v' (c : C V) : lru_Peek k (lru_Add k v c) = Some v' → v' = v;
  lru_Add_other {V} k k' v v' (c : C V) : k' ≠ k → lru_Peek k' (lru_Add k v c) = Some v' → lru_Peek k' c = Some v';
  lru_Remove_gone {V} k (c : C V) : lru_Peek k (lru_Remove k c) = None;
  lru_Remove_other {V} k k' (c : C V) : k' ≠ k → lru_Peek k' (lru_Remove k c) = lru_Peek k' c;
  lru_Purge_empty {V} k (c : C V) : lru_Peek k (lru_Purge c) = None;
  lru_Keys_peek {V} k (c : C V) : k ∈ lru_Keys c ↔ is_Some (lru_Peek k c)
}.

Inductive chain_error :=
  | ErrNoGenesis | ErrUnknownAncestor | ErrKnownBlock | ErrPrunedAncestor | ErrFutureBlock
  | errAborted | errNonContiguous | errInvalidOldChain | errInvalidNewChain | errGhostState | errMissingParent
  | errMissingBlock | errHeaderUnknown | errReceiptCount | errFutureTime | errState | errCommit
  | errBody (e : validation_error) | errProcess (e : process_error) | errOther (code : Z).
#[export] Instance tx_error_eq_dec : EqDecision tx_error.
Proof. solve_decision. Defined.
#[export] Instance process_error_eq_dec : EqDecision process_error.
Proof. solve_decision. Defined.
#[export] Instance chain_error_eq_dec : EqDecision chain_error.
Proof. solve_decision. Defined.

Inductive WriteStatus := NonStatTy | CanonStatTy | SideStatTy.
#[export] Instance write_status_eq_dec : EqDecision WriteStatus.
Proof. solve_decision. Defined.

Record HeaderChain (C : Type → Type) := mkHeaderChain {
  hc_chainDb : Database;
  hc_genesisHeader : option Header;
  hc_currentHeader : option Header;
  hc_currentHeaderHash : Hash;
  hc_headerCache : C Header;
  hc_tdCache : C Z;
  hc_numberCache : C Z
}.
Arguments mkHeaderChain {C} _ _ _ _ _ _ _.
Arguments hc_chainDb {C} _.
Arguments hc_genesisHeader {C} _.
Arguments hc_currentHeader {C} _.
Arguments hc_currentHeaderHash {C} _.
Arguments hc_headerCache {C} _.
Arguments hc_tdCache {C} _.
Arguments hc_numberCache {C} _.

Section setters.
Context {C : Type → Type}.
Implicit Types hc : HeaderChain C.
Definition hc_set_db (db : Database) hc : HeaderChain C :=
  mkHeaderChain db (hc_genesisHeader hc) (hc_currentHeader hc) (hc_currentHeaderHash hc) (hc_headerCache hc) (hc_tdCache hc) (hc_numberCache hc).
Definition hc_set_current (h : option Header) hc : HeaderChain C :=
  mkHeaderChain (hc_chainDb hc) (hc_genesisHeader hc) h (hc_currentHeaderHash hc) (hc_headerCache hc) (hc_tdCache hc) (hc_numberCache hc).
Definition hc_set_hash (h : Hash) hc : HeaderChain C :=
  mkHeaderChain (hc_chainDb hc) (hc_genesisHeader hc) (hc_currentHeader hc) h (hc_headerCache hc) (hc_tdCache hc) (hc_numberCache hc).
Definition hc_set_genesis (h : option Header) hc : HeaderChain C :=
  mkHeaderChain (hc_chainDb hc) h (hc_currentHeader hc) (hc_currentHeaderHash hc) (hc_headerCache hc) (hc_tdCache hc) (hc_numberCache hc).
Definition hc_set_caches (headers : C Header) (tds numbers : C Z) hc : HeaderChain C :=
  mkHeaderChain (hc_chainDb hc) (hc_genesisHeader hc) (hc_currentHeader hc) (hc_currentHeaderHash hc) headers tds numbers.
End setters.

Section header_chain.
Context {C : Type → Type} `{LRU C} `{Crypto} `{TxCrypto} `{!Rlp Header} `{!Rlp Z}.
Implicit Types hc : HeaderChain C.
Abbreviation M := (GoM (HeaderChain C) chain_error).

Definition headerCacheLimit : Z := 512.
Definition tdCacheLimit : Z := 1024.
Definition numberCacheLimit : Z := 2048.

(** [x.Number.Uint64()] of a header; a nil header or number dereferences nil. *)
Definition header_number (h : Header) : M Z := lift (Types.Uint64 (Number h)).
Definition deref {A} (x : option A) : M A := match x with Some a => mret a | None => panic NilDereference end.
(** Writes that go to the database at once, or a batch. *)
Definition write_db (ws : list keyvalue) : M unit := modify (λ hc, hc_set_db (batch_Write ws (hc_chainDb hc)) hc).

(** * Lookups *)
Definition GetBlockNumber (hash : Hash) : M (option Z) :=
  hc ← get_state;
  let '(cached, numbers) := lru_Get hash (hc_numberCache hc) in
  put_state (hc_set_caches (hc_headerCache hc) (hc_tdCache hc) numbers hc);;
  match cached with
  | Some number => mret (Some number)
  | None =>
      match ReadHeaderNumber (hc_chainDb hc) hash with
      | None => mret None
      | Some number =>
          modify (λ hc, hc_set_caches (hc_headerCache hc) (hc_tdCache hc) (lru_Add hash number (hc_numberCache hc)) hc);;
          mret (Some number)
      end
  end.
Definition GetHeader (hash : Hash) (number : Z) : M (option Header) :=
  hc ← get_state;
  let '(cached, headers) := lru_Get hash (hc_headerCache hc) in
  put_state (hc_set_caches headers (hc_tdCache hc) (hc_numberCache hc) hc);;
  match cached with
  | Some header => mret (Some header)
  | None =>
      match ReadHeader (hc_chainDb hc) hash number with
      | None => mret None
      | Some header =>
          modify (λ hc, hc_set_caches (lru_Add hash header (hc_headerCache hc)) (hc_tdCache hc) (hc_numberCache hc) hc);;
          mret (Some header)
      end
  end.
Definition GetTd (hash : Hash) (number : Z) : M (option Z) :=
  hc ← get_state;
  let '(cached, tds) := lru_Get hash (hc_tdCache hc) in
  put_state (hc_set_caches (hc_headerCache hc) tds (hc_numberCache hc) hc);;
  match cached with
  | Some td => mret (Some td)
  | None =>
      match ReadTd (hc_chainDb hc) hash number with
      | None => mret None
      | Some td =>
          modify (λ hc, hc_set_caches (hc_headerCache hc) (lru_Add hash td (hc_tdCache hc)) (hc_numberCache hc) hc);;
          mret (Some td)
      end
  end.
Definition GetHeaderByHash (hash : Hash) : M (option Header) :=
  number ← GetBlockNumber hash;
  match number with None => mret None | Some number => GetHeader hash number end.
Definition GetTdByHash (hash : Hash) : M (option Z) :=
  number ← GetBlockNumber hash;
  match number with None => mret None | Some number => GetTd hash number end.
Definition hc_HasHeader (hash : Hash) (number : Z) hc : bool :=
  if lru_Contains hash (hc_numberCache hc) || lru_Contains hash (hc_headerCache hc) then true
  else raw_HasHeader (hc_chainDb hc) hash number.
Definition GetHeaderByNumber (number : Z) : M (option Header) :=
  hc ← get_state;
  let hash := ReadCanonicalHash (hc_chainDb hc) number in
  if hash =? zero_hash then mret None else GetHeader hash number.
Definition hc_CurrentHeader : M (option Header) := hc ← get_state; mret (hc_currentHeader hc).

Fixpoint hashes_from (max : nat) (header : Header) : M (list Hash) :=
  match max with
  | O => mret []
  | Datatypes.S max =>
      let next := ParentHash header in
      number ← header_number header;
      parent ← GetHeader next (number - 1)%u64;
      match parent with
      | None => mret []
      | Some header =>
          match Number header with
          | None => panic NilDereference
          | Some n => if n =? 0 then mret [next] else chain ← hashes_from max header; mret (next :: chain)
          end
      end
  end.
Definition GetBlockHashesFromHash (hash : Hash) (max : Z) : M (list Hash) :=
  header ← GetHeaderByHash hash;
  match header with None => mret [] | Some header => hashes_from (Z.to_nat max) header end.

(** The hash and number found, and what is left of the counter. *)
Fixpoint ancestor_loop (fuel : nat) (hash : Hash) (number ancestor maxNonCanonical : Z) : M (Hash * Z * Z) :=
  if ancestor =? 0 then mret (hash, number, maxNonCanonical) else
  hc ← get_state;
  if ReadCanonicalHash (hc_chainDb hc) number =? hash then
    let number := (number - ancestor)%u64 in mret (ReadCanonicalHash (hc_chainDb hc) number, number, maxNonCanonical)
  else if maxNonCanonical =? 0 then mret (zero_hash, 0, maxNonCanonical) else
  match fuel with
  | O => panic OutOfFuel
  | Datatypes.S fuel =>
      header ← GetHeader hash number;
      match header with
      | None => mret (zero_hash, 0, maxNonCanonical - 1)
      | Some header => ancestor_loop fuel (ParentHash header) (number - 1)%u64 (ancestor - 1)%u64 (maxNonCanonical - 1)
      end
  end.
Definition GetAncestor (hash : Hash) (number ancestor maxNonCanonical : Z) : M (Hash * Z * Z) :=
  if number <? ancestor then mret (zero_hash, 0, maxNonCanonical) else
  if ancestor =? 1 then
    header ← GetHeader hash number;
    match header with
    | Some header => mret (ParentHash header, (number - 1)%u64, maxNonCanonical)
    | None => mret (zero_hash, 0, maxNonCanonical)
    end
  else ancestor_loop (Z.to_nat ancestor) hash number ancestor maxNonCanonical.

(** * Writing headers *)
Definition WriteTd (hash : Hash) (number td : Z) : M unit :=
  ws ← lift (raw_WriteTd hash number td);
  write_db ws;;
  modify (λ hc, hc_set_caches (hc_headerCache hc) (lru_Add hash td (hc_tdCache hc)) (hc_numberCache hc) hc).
(** The canonical numbers from [i] on, up to the first that is missing. *)
Fixpoint stale_numbers (fuel : nat) (db : Database) (i : Z) : Result chain_error (list Z) :=
  if ReadCanonicalHash db i =? zero_hash then Ok [] else
  match fuel with
  | O => Panic OutOfFuel
  | Datatypes.S fuel => l ← stale_numbers fuel db (i + 1)%u64; Ok (i :: l)
  end.
(** The canonical numbers of the ancestors are rewritten until one agrees. *)
Fixpoint overwrite_stale (fuel : nat) (headHash : Hash) (headNumber : Z) (headHeader : option Header) : M unit :=
  hc ← get_state;
  if ReadCanonicalHash (hc_chainDb hc) headNumber =? headHash then mret tt else
  match fuel with
  | O => panic OutOfFuel
  | Datatypes.S fuel =>
      write_db (WriteCanonicalHash headHash headNumber);;
      header ← deref headHeader;
      number ← header_number header;
      let headHash := ParentHash header in
      let headNumber := (number - 1)%u64 in
      headHeader ← GetHeader headHash headNumber;
      overwrite_stale fuel headHash headNumber headHeader
  end.
(** [coin] is [mrand.Float64() < 0.5]. *)
Definition hc_WriteHeader (coin : bool) (header : Header) : M WriteStatus :=
  let hash := Header_Hash header in
  number ← header_number header;
  ptd ← GetTd (ParentHash header) (number - 1)%u64;
  match ptd with
  | None => throw ErrUnknownAncestor
  | Some ptd =>
      hc ← get_state;
      current ← deref (hc_currentHeader hc);
      currentNumber ← header_number current;
      localTd ← GetTd (hc_currentHeaderHash hc) currentNumber;
      difficulty ← deref (Difficulty header);
      let externTd := difficulty + ptd in
      WriteTd hash number externTd;;
      ws ← lift (WriteHeader header);
      write_db ws;;
      localTd ← deref localTd;
      status ← (if (localTd <? externTd) || ((externTd =? localTd) && coin) then
          hc ← get_state;
          stale ← lift (stale_numbers (Datatypes.S (size (hc_chainDb hc))) (hc_chainDb hc) (number + 1)%u64);
          write_db (concat (DeleteCanonicalHash <$> stale));;
          headHeader ← GetHeader (ParentHash header) (number - 1)%u64;
          overwrite_stale (Datatypes.S (Z.to_nat number)) (ParentHash header) (number - 1)%u64 headHeader;;
          write_db (WriteCanonicalHash hash number);;
          write_db (WriteHeadHeaderHash hash);;
          modify (λ hc, hc_set_current (Some (CopyHeader header)) (hc_set_hash hash hc));;
          mret CanonStatTy
        else mret SideStatTy);
      modify (λ hc, hc_set_caches (lru_Add hash header (hc_headerCache hc)) (hc_tdCache hc) (lru_Add hash number (hc_numberCache hc)) hc);;
      mret status
  end.

(** * Moving the head *)
Definition SetCurrentHeader (head : Header) : M unit :=
  write_db (WriteHeadHeaderHash (Header_Hash head));;
  modify (λ hc, hc_set_hash (Header_Hash head) (hc_set_current (Some head) hc)).
Definition SetGenesis (head : option Header) : M unit := modify (hc_set_genesis head).
(** The writes of the batch of [SetHead]; [delFn] lists those of the callback. *)
Fixpoint unwind (fuel : nat) (head : Z) (delFn : Hash → Z → list keyvalue) (batch : list keyvalue) : M (list keyvalue) :=
  hdr ← hc_CurrentHeader;
  match hdr with
  | None => mret batch
  | Some hdr =>
      num ← header_number hdr;
      if negb (head <? num) then mret batch else
      match fuel with
      | O => panic OutOfFuel
      | Datatypes.S fuel =>
          let hash := Header_Hash hdr in
          parent ← GetHeader (ParentHash hdr) (num - 1)%u64;
          modify (hc_set_current parent);;
          unwind fuel head delFn (batch ++ delFn hash num ++ DeleteHeader hash num ++ DeleteTd hash num)
      end
  end.
(** [height], [height - 1], ..., [head + 1] *)
Definition numbers_down (height head : Z) : list Z := (λ k, height - Z.of_nat k) <$> seq 0 (Z.to_nat (height - head)).
Definition hc_SetHead (head : Z) (delFn : Hash → Z → list keyvalue) : M unit :=
  hdr ← hc_CurrentHeader;
  height ← (match hdr with None => mret 0 | Some hdr => header_number hdr end);
  batch ← unwind (Z.to_nat height) head delFn [];
  write_db (batch ++ concat (DeleteCanonicalHash <$> numbers_down height head));;
  modify (λ hc, hc_set_caches (lru_Purge (hc_headerCache hc)) (lru_Purge (hc_tdCache hc)) (lru_Purge (hc_numberCache hc)) hc);;
  modify (λ hc, match hc_currentHeader hc with None => hc_set_current (hc_genesisHeader hc) hc | Some _ => hc end);;
  hc ← get_state;
  current ← deref (hc_currentHeader hc);
  modify (hc_set_hash (Header_Hash current));;
  write_db (WriteHeadHeaderHash (Header_Hash current)).

(** * Batches of headers *)
Definition header_link (prev header : Header) : Result chain_error bool :=
  n ← Types.Uint64 (Number header);
  p ← Types.Uint64 (Number prev);
  Ok ((n =? (p + 1)%u64) && (ParentHash header =? Header_Hash prev)).
Fixpoint headers_linked (prev : Header) (chain : list Header) : Result chain_error bool :=
  match chain with
  | [] => Ok true
  | header :: chain =>
      ok ← header_link prev header;
      if negb ok then Ok false else headers_linked header chain
  end.
(** The positions whose seals are verified; [rand i] is the [i]-th draw below
    [checkFreq]. *)
Definition seals_of (len checkFreq : nat) (rand : nat → nat) : list bool :=
  let picked := (λ i, Nat.min (i * checkFreq + rand i) (len - 1)) <$> seq 0 (len / checkFreq) in
  (λ i, negb (checkFreq =? 0)%nat && (bool_decide (i ∈ picked) || (i =? len - 1)%nat)) <$> seq 0 len.
(** The engine's verdicts, in order; the index of the first failure. *)
Fixpoint first_failure (i : Z) (results : list (option chain_error)) : option (Z * chain_error) :=
  match results with
  | [] => None
  | Some e :: _ => Some (i, e)
  | None :: results => first_failure (i + 1) results
  end.
(** [verify] stands for [engine.VerifyHeaders]. *)
Definition ValidateHeaderChain (verify : list Header → list bool → list (option chain_error)) (interrupted : bool) (rand : nat → nat)
    (chain : list Header) (checkFreq : nat) : Result chain_error (Z * option chain_error) :=
  linked ← (match chain with [] => Ok true | first :: rest => headers_linked first rest end);
  if negb linked then Ok (0, Some errNonContiguous) else
  if negb (checkFreq =? 0)%nat && bool_decide (chain = []) then Panic IndexOutOfRange else
  if interrupted && negb (bool_decide (chain = [])) then Ok (0, Some errAborted) else
  match first_failure 0 (verify chain (seals_of (length chain) checkFreq rand)) with
  | Some (i, e) => Ok (i, Some e)
  | None => Ok (0, None)
  end.
(** The index and the error, if any; [coins] are the draws of the writes. *)
Fixpoint hc_InsertHeaderChain (interrupted : bool) (coins : nat → bool) (i : nat) (chain : list Header) : M (Z * option chain_error) :=
  match chain with
  | [] => mret (0, None)
  | header :: chain =>
      if interrupted then mret (Z.of_nat i, Some errAborted) else
      number ← header_number header;
      hc ← get_state;
      if hc_HasHeader (Header_Hash header) number hc then hc_InsertHeaderChain interrupted coins (Datatypes.S i) chain else
      r ← attempt (hc_WriteHeader (coins i) header);
      match r with
      | inl e => mret (Z.of_nat i, Some e)
      | inr _ => hc_InsertHeaderChain interrupted coins (Datatypes.S i) chain
      end
  end.

(** * Opening *)
(** What [NewHeaderChain] does once the value is made. *)
Definition load_headers : M unit :=
  genesis ← GetHeaderByNumber 0;
  match genesis with
  | None => throw ErrNoGenesis
  | Some genesis =>
      modify (hc_set_genesis (Some genesis));;
      modify (hc_set_current (Some genesis));;
      hc ← get_state;
      let head := ReadHeadBlockHash (hc_chainDb hc) in
      chead ← (if head =? zero_hash then mret None else GetHeaderByHash head);
      modify (λ hc, match chead with None => hc | Some chead => hc_set_current (Some chead) hc end);;
      hc ← get_state;
      current ← deref (hc_currentHeader hc);
      modify (hc_set_hash (Header_Hash current))
  end.
Definition NewHeaderChain (db : Database) : Result chain_error unit * HeaderChain C :=
  load_headers (mkHeaderChain db None None zero_hash (lru_New headerCacheLimit) (lru_New tdCacheLimit) (lru_New numberCacheLimit)).
End header_chain.
