(* ===== verification/BlockChain.v ===== *)
(** The block chain ([core/blockchain.go]): blocks over the header chain, the
    heads, writing blocks with their state, and reorganisations.

    Logs of reorganised blocks are collected by the source for announcements that
    are commented out; they are left out.  The flag that interrupts imports does
    not change while an operation runs. *)
From S2P Require Import Prelude Types Sealing Blocks TxSigning Heap TxList TxPool Memorydb RawDB HeaderChain Hoare.

(** * What the chain asks of states and tries

    [state.New] on the state cache, [StateDB.Commit], [Database.OpenTrie] and the
    calls to the trie database; [None] is an error. *)
Class ChainState (D S : Type) := {
  cs_New : Hash → D → option S;
  cs_Commit : bool → S → D → option Hash * D;
  cs_OpenTrie : Hash → D → bool;
  cs_Preimages : S → gmap Hash (list byte);
  td_Reference : Hash → D → D;
  td_Dereference : Hash → D → D;
  td_Size : D → Z * Z;
  td_Cap : Z → D → D;
  td_Commit : Hash → D → bool * D;
  td_Node : Hash → D → option (list byte)
}.

Record CacheConfig := mkCacheConfig {
  TrieCleanLimit : Z;
  TrieCleanNoPrefetch : bool;
  TrieDirtyLimit : Z;
  TrieDirtyDisabled : bool;
  TrieTimeLimit : Z
}.
Inductive chain_event := ChainEvent (b : Block) (hash : Hash) | ChainSideEvent (b : Block) | ChainHeadEvent (b : Block).

(** The events given to the subscribers so far are kept in order. *)
Record BlockChain (C : Type → Type) (D : Type) := mkBlockChain {
  bc_hc : HeaderChain C;
  bc_genesisBlock : option Block;
  bc_currentBlock : option Block;
  bc_currentFastBlock : option Block;
  bc_stateCache : D;
  bc_triegc : list (Hash * Z);
  bc_gcproc : Z;
  bc_bodyCache : C Body;
  bc_receiptsCache : C (list Receipt);
  bc_blockCache : C Block;
  bc_futureBlocks : C Block;
  bc_badBlocks : C Block;
  bc_posted : list chain_event
}.
Arguments mkBlockChain {C D} _ _ _ _ _ _ _ _ _ _ _ _ _.
Arguments bc_hc {C D} _.
Arguments bc_genesisBlock {C D} _.
Arguments bc_currentBlock {C D} _.
Arguments bc_currentFastBlock {C D} _.
Arguments bc_stateCache {C D} _.
Arguments bc_triegc {C D} _.
Arguments bc_gcproc {C D} _.
Arguments bc_bodyCache {C D} _.
Arguments bc_receiptsCache {C D} _.
Arguments bc_blockCache {C D} _.
Arguments bc_futureBlocks {C D} _.
Arguments bc_badBlocks {C D} _.
Arguments bc_posted {C D} _.

Section setters.
Context {C : Type → Type} {D : Type}.
Implicit Types bc : BlockChain C D.
Definition set_hc (hc : HeaderChain C) bc : BlockChain C D :=
  mkBlockChain hc (bc_genesisBlock bc) (bc_currentBlock bc) (bc_currentFastBlock bc) (bc_stateCache bc) (bc_triegc bc) (bc_gcproc bc)
    (bc_bodyCache bc) (bc_receiptsCache bc) (bc_blockCache bc) (bc_futureBlocks bc) (bc_badBlocks bc) (bc_posted bc).
Definition set_heads (genesis current fast : option Block) bc : BlockChain C D :=
  mkBlockChain (bc_hc bc) genesis current fast (bc_stateCache bc) (bc_triegc bc) (bc_gcproc bc)
    (bc_bodyCache bc) (bc_receiptsCache bc) (bc_blockCache bc) (bc_futureBlocks bc) (bc_badBlocks bc) (bc_posted bc).
Definition set_current (b : option Block) bc : BlockChain C D := set_heads (bc_genesisBlock bc) b (bc_currentFastBlock bc) bc.
Definition set_fast (b : option Block) bc : BlockChain C D := set_heads (bc_genesisBlock bc) (bc_currentBlock bc) b bc.
Definition set_genesis (b : option Block) bc : BlockChain C D := set_heads b (bc_currentBlock bc) (bc_currentFastBlock bc) bc.
Definition set_tries (d : D) (gc : list (Hash * Z)) (proc : Z) bc : BlockChain C D :=
  mkBlockChain (bc_hc bc) (bc_genesisBlock bc) (bc_currentBlock bc) (bc_currentFastBlock bc) d gc proc
    (bc_bodyCache bc) (bc_receiptsCache bc) (bc_blockCache bc) (bc_futureBlocks bc) (bc_badBlocks bc) (bc_posted bc).
Definition set_block_caches (bodies : C Body) (receipts : C (list Receipt)) (blocks : C Block) bc : BlockChain C D :=
  mkBlockChain (bc_hc bc) (bc_genesisBlock bc) (bc_currentBlock bc) (bc_currentFastBlock bc) (bc_stateCache bc) (bc_triegc bc) (bc_gcproc bc)
    bodies receipts blocks (bc_futureBlocks bc) (bc_badBlocks bc) (bc_posted bc).
Definition set_pending_blocks (future bad : C Block) bc : BlockChain C D :=
  mkBlockChain (bc_hc bc) (bc_genesisBlock bc) (bc_currentBlock bc) (bc_currentFastBlock bc) (bc_stateCache bc) (bc_triegc bc) (bc_gcproc bc)
    (bc_bodyCache bc) (bc_receiptsCache bc) (bc_blockCache bc) future bad (bc_posted bc).
Definition post (events : list chain_event) bc : BlockChain C D :=
  mkBlockChain (bc_hc bc) (bc_genesisBlock bc) (bc_currentBlock bc) (bc_currentFastBlock bc) (bc_stateCache bc) (bc_triegc bc) (bc_gcproc bc)
    (bc_bodyCache bc) (bc_receiptsCache bc) (bc_blockCache bc) (bc_futureBlocks bc) (bc_badBlocks bc) (bc_posted bc ++ events).
End setters.

Section block_chain.
Context {C : Type → Type} {D S : Type} `{LRU C} `{ChainState D S} `{Crypto} `{TxCrypto}.
Context `{!Rlp Header} `{!Rlp Body} `{!Rlp Z} `{!Rlp (list storedReceiptRLP)} `{ContractAddresses}.
Implicit Types bc : BlockChain C D.
Abbreviation M := (GoM (BlockChain C D) chain_error).

Definition bodyCacheLimit : Z := 256.
Definition blockCacheLimit : Z := 256.
Definition receiptsCacheLimit : Z := 32.
Definition maxFutureBlocks : Z := 256.
Definition maxTimeFutureBlocks : Z := 30.
Definition badBlockLimit : Z := 10.
Definition triesInMemory : Z := 128.

(** [bc.hc], which shares the database of the chain. *)
Definition on_hc {A} (m : GoM (HeaderChain C) chain_error A) : M A := λ bc,
  let '(r, hc) := m (bc_hc bc) in (r, set_hc hc bc).
Definition bc_db bc : Database := hc_chainDb (bc_hc bc).
Definition bc_write (ws : list keyvalue) : M unit := on_hc (write_db ws).
Definition bc_deref {A} (x : option A) : M A := match x with Some a => mret a | None => panic NilDereference end.
Definition block_hash (b : Block) : Hash := Header_Hash (block_header b).
Definition number_of (b : Block) : M Z := lift (NumberU64 b).

(** * Lookups *)
Definition CurrentBlock : M (option Block) := bc ← get_state; mret (bc_currentBlock bc).
Definition CurrentFastBlock : M (option Block) := bc ← get_state; mret (bc_currentFastBlock bc).
Definition GetBlock (hash : Hash) (number : Z) : M (option Block) :=
  bc ← get_state;
  let '(cached, blocks) := lru_Get hash (bc_blockCache bc) in
  put_state (set_block_caches (bc_bodyCache bc) (bc_receiptsCache bc) blocks bc);;
  match cached with
  | Some block => mret (Some block)
  | None =>
      match ReadBlock (bc_db bc) hash number with
      | None => mret None
      | Some block =>
          modify (λ bc, set_block_caches (bc_bodyCache bc) (bc_receiptsCache bc) (lru_Add (block_hash block) block (bc_blockCache bc)) bc);;
          mret (Some block)
      end
  end.
Definition GetBlockByHash (hash : Hash) : M (option Block) :=
  number ← on_hc (GetBlockNumber hash);
  match number with None => mret None | Some number => GetBlock hash number end.
Definition GetBlockByNumber (number : Z) : M (option Block) :=
  bc ← get_state;
  let hash := ReadCanonicalHash (bc_db bc) number in
  if hash =? zero_hash then mret None else GetBlock hash number.
Definition GetBody (hash : Hash) : M (option Body) :=
  bc ← get_state;
  let '(cached, bodies) := lru_Get hash (bc_bodyCache bc) in
  put_state (set_block_caches bodies (bc_receiptsCache bc) (bc_blockCache bc) bc);;
  match cached with
  | Some body => mret (Some body)
  | None =>
      number ← on_hc (GetBlockNumber hash);
      match number with
      | None => mret None
      | Some number =>
          bc ← get_state;
          match ReadBody (bc_db bc) hash number with
          | None => mret None
          | Some body =>
              modify (λ bc, set_block_caches (lru_Add hash body (bc_bodyCache bc)) (bc_receiptsCache bc) (bc_blockCache bc) bc);;
              mret (Some body)
          end
      end
  end.
Definition bc_HasBlock (hash : Hash) (number : Z) bc : bool :=
  lru_Contains hash (bc_blockCache bc) || HasBody (bc_db bc) hash number.
Definition HasFastBlock (hash : Hash) (number : Z) bc : bool :=
  if negb (bc_HasBlock hash number bc) then false else
  lru_Contains hash (bc_receiptsCache bc) || HasReceipts (bc_db bc) hash number.
Definition HasState (root : Hash) bc : bool := cs_OpenTrie root (bc_stateCache bc).
Definition bc_HasBlockAndState (hash : Hash) (number : Z) : M bool :=
  block ← GetBlock hash number;
  bc ← get_state;
  mret (match block with None => false | Some block => HasState (Root (block_header block)) bc end).
Definition GetReceiptsByHash (chainId : option Z) (hash : Hash) : M (option (list Receipt)) :=
  bc ← get_state;
  let '(cached, receipts) := lru_Get hash (bc_receiptsCache bc) in
  put_state (set_block_caches (bc_bodyCache bc) receipts (bc_blockCache bc) bc);;
  match cached with
  | Some receipts => mret (Some receipts)
  | None =>
      match ReadHeaderNumber (bc_db bc) hash with
      | None => mret None
      | Some number =>
          receipts ← lift (ReadReceipts (bc_db bc) hash number chainId);
          match receipts with
          | None => mret None
          | Some receipts =>
              modify (λ bc, set_block_caches (bc_bodyCache bc) (lru_Add hash receipts (bc_receiptsCache bc)) (bc_blockCache bc) bc);;
              mret (Some receipts)
          end
      end
  end.
Fixpoint blocks_from (n : nat) (hash : Hash) (number : Z) : M (list Block) :=
  match n with
  | O => mret []
  | Datatypes.S n =>
      block ← GetBlock hash number;
      match block with
      | None => mret []
      | Some block => blocks ← blocks_from n (ParentHash (block_header block)) (number - 1)%u64; mret (block :: blocks)
      end
  end.
Definition GetBlocksFromHash (hash : Hash) (n : Z) : M (list Block) :=
  number ← on_hc (GetBlockNumber hash);
  match number with None => mret [] | Some number => blocks_from (Z.to_nat n) hash number end.
Fixpoint GetUnclesInChain (block : option Block) (length : nat) : M (list Header) :=
  match length, block with
  | Datatypes.S length, Some block =>
      number ← number_of block;
      parent ← GetBlock (ParentHash (block_header block)) (number - 1)%u64;
      rest ← GetUnclesInChain parent length;
      mret (block_uncles block ++ rest)
  | _, _ => mret []
  end.
(** [StateAt], [State] *)
Definition StateAt (root : Hash) bc : option S := cs_New root (bc_stateCache bc).
Definition State : M (option S) :=
  bc ← get_state; current ← bc_deref (bc_currentBlock bc); mret (StateAt (Root (block_header current)) bc).
Definition TrieNode (hash : Hash) bc : option (list byte) := td_Node hash (bc_stateCache bc).
Definition current_GasLimit : M Z := bc ← get_state; current ← bc_deref (bc_currentBlock bc); mret (GasLimit (block_header current)).
Definition bc_GetTd (hash : Hash) (number : Z) : M (option Z) := on_hc (GetTd hash number).

(** * Heads *)
Definition insert (block : Block) : M unit :=
  number ← number_of block;
  bc ← get_state;
  let updateHeads := negb (ReadCanonicalHash (bc_db bc) number =? block_hash block) in
  bc_write (WriteCanonicalHash (block_hash block) number);;
  bc_write (WriteHeadBlockHash (block_hash block));;
  modify (set_current (Some block));;
  if updateHeads then
    on_hc (SetCurrentHeader (CopyHeader (block_header block)));;
    bc_write (WriteHeadFastBlockHash (block_hash block));;
    modify (set_fast (Some block))
  else mret tt.
(** Back to a block whose state opens. *)
Fixpoint repair (fuel : nat) (head : Block) : M Block :=
  bc ← get_state;
  match cs_New (Root (block_header head)) (bc_stateCache bc) with
  | Some _ => mret head
  | None =>
      match fuel with
      | O => panic OutOfFuel
      | Datatypes.S fuel =>
          number ← number_of head;
          block ← GetBlock (ParentHash (block_header head)) (number - 1)%u64;
          match block with None => throw errMissingBlock | Some block => repair fuel block end
      end
  end.
Definition FastSyncCommitHead (hash : Hash) : M unit :=
  block ← GetBlockByHash hash;
  match block with
  | None => throw errMissingBlock
  | Some block =>
      bc ← get_state;
      if negb (cs_OpenTrie (Root (block_header block)) (bc_stateCache bc)) then throw errState
      else modify (set_current (Some block))
  end.

(** The last part of loading, once the head block is known. *)
Definition restore_heads (currentBlock : Block) : M unit :=
  modify (set_current (Some currentBlock));;
  bc ← get_state;
  let head := ReadHeadHeaderHash (bc_db bc) in
  header ← (if head =? zero_hash then mret None else on_hc (GetHeaderByHash head));
  on_hc (SetCurrentHeader (default (CopyHeader (block_header currentBlock)) header));;
  modify (set_fast (Some currentBlock));;
  bc ← get_state;
  let head := ReadHeadFastBlockHash (bc_db bc) in
  block ← (if head =? zero_hash then mret None else GetBlockByHash head);
  match block with None => mret tt | Some block => modify (set_fast (Some block)) end.
(** [reset] is [Reset], which loads the state again. *)
Definition load_with (reset : M unit) : M unit :=
  bc ← get_state;
  let head := ReadHeadBlockHash (bc_db bc) in
  if head =? zero_hash then reset else
  currentBlock ← GetBlockByHash head;
  match currentBlock with
  | None => reset
  | Some currentBlock =>
      number ← number_of currentBlock;
      currentBlock ← repair (Datatypes.S (Z.to_nat number)) currentBlock;
      restore_heads currentBlock
  end.
(** Dropping the head when it is above [number]: the block there, if any. *)
Definition rewound (block : option Block) (header : Header) (number : Z) : M (option Block) :=
  match block with
  | None => mret None
  | Some b => n ← number_of b; if number <? n then GetBlock (Header_Hash header) number else mret (Some b)
  end.
Definition SetHead_with (load : M unit) (head : Z) : M unit :=
  on_hc (hc_SetHead head (λ hash num, DeleteBody hash num));;
  currentHeader ← on_hc hc_CurrentHeader;
  currentHeader ← bc_deref currentHeader;
  modify (λ bc, set_block_caches (lru_Purge (bc_bodyCache bc)) (lru_Purge (bc_receiptsCache bc)) (lru_Purge (bc_blockCache bc)) bc);;
  modify (λ bc, set_pending_blocks (lru_Purge (bc_futureBlocks bc)) (bc_badBlocks bc) bc);;
  number ← on_hc (header_number currentHeader);
  bc ← get_state;
  block ← rewound (bc_currentBlock bc) currentHeader number;
  modify (set_current block);;
  modify (λ bc, match block with
    | None => bc
    | Some block => if bool_decide (is_Some (cs_New (Root (block_header block)) (bc_stateCache bc))) then bc else set_current (bc_genesisBlock bc) bc
    end);;
  bc ← get_state;
  fast ← rewound (bc_currentFastBlock bc) currentHeader number;
  modify (set_fast fast);;
  modify (λ bc, set_current (match bc_currentBlock bc with None => bc_genesisBlock bc | b => b end) bc);;
  modify (λ bc, set_fast (match bc_currentFastBlock bc with None => bc_genesisBlock bc | b => b end) bc);;
  bc ← get_state;
  current ← bc_deref (bc_currentBlock bc);
  fast ← bc_deref (bc_currentFastBlock bc);
  bc_write (WriteHeadBlockHash (block_hash current));;
  bc_write (WriteHeadFastBlockHash (block_hash fast));;
  load.
Definition ResetWithGenesis (load : M unit) (genesis : Block) : M unit :=
  SetHead_with load 0;;
  number ← number_of genesis;
  difficulty ← bc_deref (Difficulty (block_header genesis));
  on_hc (WriteTd (block_hash genesis) number difficulty);;
  ws ← lift (WriteBlock genesis);
  bc_write ws;;
  modify (set_genesis (Some genesis));;
  insert genesis;;
  modify (set_current (Some genesis));;
  on_hc (SetGenesis (Some (CopyHeader (block_header genesis))));;
  on_hc (SetCurrentHeader (CopyHeader (block_header genesis)));;
  modify (set_fast (Some genesis)).
Definition Reset_with (load : M unit) : M unit :=
  bc ← get_state; genesis ← bc_deref (bc_genesisBlock bc); ResetWithGenesis load genesis.
(** A reset loads again; the source has no bound on how often. *)
Fixpoint load_fuel (fuel : nat) : M unit :=
  load_with (match fuel with O => panic OutOfFuel | Datatypes.S fuel => Reset_with (load_fuel fuel) end).
Definition loadLastState : M unit := load_fuel 1.
Definition SetHead (head : Z) : M unit := SetHead_with loadLastState head.
Definition ResetWithGenesisBlock (genesis : Block) : M unit := ResetWithGenesis loadLastState genesis.
Definition Reset : M unit := Reset_with loadLastState.

(** One hash of [Rollback], the last of the list first. *)
Definition rollback_one (hash : Hash) : M unit :=
  currentHeader ← on_hc hc_CurrentHeader;
  currentHeader ← bc_deref currentHeader;
  (if Header_Hash currentHeader =? hash then
     number ← on_hc (header_number currentHeader);
     parent ← on_hc (GetHeader (ParentHash currentHeader) (number - 1)%u64);
     parent ← bc_deref parent;
     on_hc (SetCurrentHeader parent)
   else mret tt);;
  bc ← get_state;
  fast ← bc_deref (bc_currentFastBlock bc);
  (if block_hash fast =? hash then
     number ← number_of fast;
     parent ← GetBlock (ParentHash (block_header fast)) (number - 1)%u64;
     parent ← bc_deref parent;
     modify (set_fast (Some parent));;
     bc_write (WriteHeadFastBlockHash (block_hash parent))
   else mret tt);;
  bc ← get_state;
  current ← bc_deref (bc_currentBlock bc);
  if block_hash current =? hash then
    number ← number_of current;
    parent ← GetBlock (ParentHash (block_header current)) (number - 1)%u64;
    parent ← bc_deref parent;
    modify (set_current (Some parent));;
    bc_write (WriteHeadBlockHash (block_hash parent))
  else mret tt.
Definition Rollback (chain : list Hash) : M unit := for_each (reverse chain) rollback_one.
End block_chain.
