(* ===== verification/BlockWrite.v ===== *)
(** Writing blocks to the chain ([core/blockchain.go]): the fork choice, the
    reorganisation of the canonical chain and the collection of old tries.

    The clock and the random draws of an operation are its arguments.  The
    metrics and the logs written to the console are left out.

    Importing blocks ([core/blockchain.go], [core/blockchain_insert.go],
    [core/block_validator.go], [core/state_prefetcher.go]): batches of blocks
    verified, executed on their parents' states and written, side chains whose
    states are gone, blocks from the future, receipts for known headers.

    The verdicts of the engine on the headers of a batch are computed when the
    import starts; the source computes them at the same time as it imports. *)
From S2P Require Import Prelude Hoare Types Heap Sealing Blocks StateDB Transition StateTransfer TxSigning Processor Memorydb TxList TxPool RawDB HeaderChain BlockChain.

(** * The queue of tries to collect ([common/prque]) *)
Definition int64 (x : Z) : Z := (x + 2 ^ 63) mod 2 ^ 64 - 2 ^ 63.
Definition prque_Less {V} (i j : V * Z) : bool := 0 <? int64 (i.2 - j.2).
Definition prque_Push {V} (data : V) (priority : Z) (q : list (V * Z)) : list (V * Z) := Push prque_Less q (data, priority).
Definition prque_Pop {E V} (q : list (V * Z)) : Result E ((V * Z) * list (V * Z)) := Pop prque_Less q.
Definition prque_Empty {V} (q : list (V * Z)) : bool := bool_decide (q = []).

Section block_write.
Context {C : Type → Type} {D S : Type} `{LRU C} `{ChainState D S} `{Crypto} `{TxCrypto}.
Context `{!Rlp Header} `{!Rlp Body} `{!Rlp Z} `{!Rlp (list storedReceiptRLP)} `{ContractAddresses}.
Context (chainId : option Z) (cacheConfig : CacheConfig) (shouldPreserve : option (Block → bool)).
Implicit Types bc : BlockChain C D.
Abbreviation M := (GoM (BlockChain C D) chain_error).

(** * Reorganisation *)

(** The logs of a block; what is gathered of them is announced nowhere. *)
Definition collectLogs (hash : Hash) : M (list Log) :=
  number ← on_hc (GetBlockNumber hash);
  match number with
  | None => mret []
  | Some number =>
      bc ← get_state;
      receipts ← lift (ReadReceipts (bc_db bc) hash number chainId);
      mret (concat (rLogs <$> default [] receipts))
  end.
(** From [block] down to the height [target]: the blocks passed and the block
    there. *)
Fixpoint descend (fuel : nat) (collect : Block → M (list Log)) (block : option Block) (target : Z) : M (option Block * list Block) :=
  match block with
  | None => mret (None, [])
  | Some block =>
      number ← number_of block;
      if number =? target then mret (Some block, []) else
      match fuel with
      | O => panic OutOfFuel
      | Datatypes.S fuel =>
          _ ← collect block;
          parent ← GetBlock (ParentHash (block_header block)) (number - 1)%u64;
          '(stop, passed) ← descend fuel collect parent target;
          mret (stop, block :: passed)
      end
  end.
(** Both sides step back until they meet. *)
Fixpoint to_common (fuel : nat) (oldBlock newBlock : Block) : M (Block * list Block * list Block) :=
  if block_hash oldBlock =? block_hash newBlock then mret (oldBlock, [], []) else
  match fuel with
  | O => panic OutOfFuel
  | Datatypes.S fuel =>
      _ ← collectLogs (block_hash oldBlock);
      number ← number_of oldBlock;
      oldParent ← GetBlock (ParentHash (block_header oldBlock)) (number - 1)%u64;
      match oldParent with
      | None => throw errInvalidOldChain
      | Some oldParent =>
          number ← number_of newBlock;
          newParent ← GetBlock (ParentHash (block_header newBlock)) (number - 1)%u64;
          match newParent with
          | None => throw errInvalidNewChain
          | Some newParent =>
              '(common, oldChain, newChain) ← to_common fuel oldParent newParent;
              mret (common, oldBlock :: oldChain, newBlock :: newChain)
          end
      end
  end.
(** The new blocks become canonical, the oldest first. *)
Fixpoint insert_new (blocks : list Block) : M unit :=
  match blocks with
  | [] => mret tt
  | block :: rest =>
      insert block;;
      _ ← (match rest with [] => mret [] | _ => collectLogs (block_hash block) end);
      bc_write (WriteTxLookupEntries block);;
      insert_new rest
  end.
Definition txs_of (blocks : list Block) : list Transaction := concat (block_transactions <$> blocks).
Definition reorg (oldBlock newBlock : Block) : M unit :=
  oldNumber ← number_of oldBlock;
  newNumber ← number_of newBlock;
  '(oldBlock, newBlock, oldChain, newChain) ←
    (if newNumber <? oldNumber then
       '(stop, passed) ← descend (Z.to_nat oldNumber) (λ b, collectLogs (block_hash b)) (Some oldBlock) newNumber;
       mret (stop, Some newBlock, passed, [])
     else
       '(stop, passed) ← descend (Z.to_nat newNumber) (λ _, mret []) (Some newBlock) oldNumber;
       mret (Some oldBlock, stop, [], passed));
  match oldBlock, newBlock with
  | None, _ => throw errInvalidOldChain
  | _, None => throw errInvalidNewChain
  | Some oldBlock, Some newBlock =>
      number ← number_of oldBlock;
      '(_, oldChain', newChain') ← to_common (Z.to_nat number) oldBlock newBlock;
      let oldChain := oldChain ++ oldChain' in
      let newChain := newChain ++ newChain' in
      insert_new (reverse newChain);;
      bc_write (concat ((λ tx, DeleteTxLookupEntry (rlpHash_tx tx)) <$> TxDifference (txs_of oldChain) (txs_of (reverse newChain))));;
      modify (post (ChainSideEvent <$> oldChain))
  end.

(** * Writing a block *)
Definition WriteBlockWithoutState (block : Block) (td : Z) : M unit :=
  number ← number_of block;
  on_hc (WriteTd (block_hash block) number td);;
  ws ← lift (WriteBlock block);
  bc_write ws.

Definition block_Difficulty (block : Block) : M Z := bc_deref (Difficulty (block_header block)).
Definition on_triedb (f : D → D) : M unit := modify (λ bc, set_tries (f (bc_stateCache bc)) (bc_triegc bc) (bc_gcproc bc) bc).
(** Tries of blocks up to [chosen] are released. *)
Fixpoint release_tries (fuel : nat) (chosen : Z) : M unit :=
  bc ← get_state;
  if prque_Empty (bc_triegc bc) then mret tt else
  match fuel with
  | O => panic OutOfFuel
  | Datatypes.S fuel =>
      '((root, number), gc) ← lift (prque_Pop (bc_triegc bc));
      if chosen <? wrap64 (- number) then
        put_state (set_tries (bc_stateCache bc) (prque_Push root number gc) (bc_gcproc bc) bc)
      else
        put_state (set_tries (td_Dereference root (bc_stateCache bc)) gc (bc_gcproc bc) bc);;
        release_tries fuel chosen
  end.
(** The trie of a full node stays in memory for a number of blocks. *)
Definition keep_trie (root : Hash) (current : Z) : M unit :=
  on_triedb (td_Reference root);;
  modify (λ bc, set_tries (bc_stateCache bc) (prque_Push root (- int64 current) (bc_triegc bc)) (bc_gcproc bc) bc);;
  if negb (triesInMemory <? current) then mret tt else
  bc ← get_state;
  let '(nodes, imgs) := td_Size (bc_stateCache bc) in
  let limit := TrieDirtyLimit cacheConfig * 1024 * 1024 in
  (if (limit <? nodes) || (4 * 1024 * 1024 <? imgs) then on_triedb (td_Cap (limit - IdealBatchSize)) else mret tt);;
  let chosen := (current - triesInMemory)%u64 in
  bc ← get_state;
  (if TrieTimeLimit cacheConfig <? bc_gcproc bc then
     header ← on_hc (GetHeaderByNumber chosen);
     match header with
     | None => mret tt
     | Some header =>
         on_triedb (λ d, (td_Commit (Root header) d).2);;
         modify (λ bc, set_tries (bc_stateCache bc) (bc_triegc bc) 0 bc)
     end
   else mret tt);;
  bc ← get_state;
  release_tries (length (bc_triegc bc)) chosen.

(** Whether the block becomes the head; [coin] is [mrand.Float64() < 0.5]. *)
Definition choose (coin : bool) (externTd localTd : Z) (currentBlock block : Block) : M bool :=
  if localTd <? externTd then mret true else
  if negb (externTd =? localTd) then mret false else
  number ← number_of block;
  current ← number_of currentBlock;
  if number <? current then mret true else
  if negb (number =? current) then mret false else
  let '(currentPreserve, blockPreserve) :=
    match shouldPreserve with Some f => (f currentBlock, f block) | None => (false, false) end in
  mret (negb currentPreserve && (blockPreserve || coin)).

Definition writeBlockWithState (coin : bool) (block : Block) (receipts : list Receipt) (state : S) : M WriteStatus :=
  let hash := block_hash block in
  number ← number_of block;
  ptd ← bc_GetTd (ParentHash (block_header block)) (number - 1)%u64;
  match ptd with
  | None => throw ErrUnknownAncestor
  | Some ptd =>
      bc ← get_state;
      currentBlock ← bc_deref (bc_currentBlock bc);
      currentNumber ← number_of currentBlock;
      localTd ← bc_GetTd (block_hash currentBlock) currentNumber;
      difficulty ← block_Difficulty block;
      let externTd := difficulty + ptd in
      on_hc (WriteTd hash number externTd);;
      ws ← lift (WriteBlock block);
      bc_write ws;;
      bc ← get_state;
      let '(root, d) := cs_Commit true state (bc_stateCache bc) in
      put_state (set_tries d (bc_triegc bc) (bc_gcproc bc) bc);;
      match root with
      | None => throw errCommit
      | Some root =>
          (if TrieDirtyDisabled cacheConfig then
             bc ← get_state;
             let '(ok, d) := td_Commit root (bc_stateCache bc) in
             put_state (set_tries d (bc_triegc bc) (bc_gcproc bc) bc);;
             if ok : bool then mret tt else throw errCommit
           else keep_trie root number);;
          batch ← lift (WriteReceipts hash number receipts);
          localTd ← bc_deref localTd;
          reorganise ← choose coin externTd localTd currentBlock block;
          (if reorganise : bool then
             (if ParentHash (block_header block) =? block_hash currentBlock then mret tt else reorg currentBlock block);;
             bc_write (batch ++ WriteTxLookupEntries block ++ WritePreimages (cs_Preimages (D := D) state));;
             insert block
           else bc_write batch);;
          modify (λ bc, set_pending_blocks (lru_Remove hash (bc_futureBlocks bc)) (bc_badBlocks bc) bc);;
          mret (if (reorganise : bool) then CanonStatTy else SideStatTy)
      end
  end.
Definition WriteBlockWithState (coin : bool) (block : Block) (receipts : list Receipt) (state : S) : M WriteStatus :=
  writeBlockWithState coin block receipts state.
End block_write.

(** The engine, as far as imports call it; the size of a block is that of its
    encoding. *)
Class ChainEngine (C : Type → Type) (D : Type) := {
  eng_VerifyHeaders : BlockChain C D → list Header → list bool → list (option chain_error);
  eng_VerifyUncles : BlockChain C D → Block → option chain_error
}.
Class BlockSize := block_Size : Block → Z.

(** * The iterator over a batch

    Verdicts not received yet are in [it_results]. *)
Record insertIterator := mkIterator {
  it_chain : list Block;
  it_results : list (option chain_error);
  it_errors : list (option chain_error);
  it_index : Z
}.
Definition newInsertIterator (chain : list Block) (results : list (option chain_error)) : insertIterator := mkIterator chain results [] (-1).
Definition it_len (it : insertIterator) : Z := Z.of_nat (length (it_chain it)).
Definition it_at (it : insertIterator) (i : Z) : option Block := if i <? 0 then None else it_chain it !! Z.to_nat i.
Definition set_index (i : Z) (it : insertIterator) : insertIterator := mkIterator (it_chain it) (it_results it) (it_errors it) i.
(** The verdict on block [i], once it is there. *)
Definition receive {E} (i : Z) (it : insertIterator) : Result E (option chain_error * insertIterator) :=
  let it := if Z.of_nat (length (it_errors it)) <=? i then
      match it_results it with
      | [] => it
      | e :: results => mkIterator (it_chain it) results (it_errors it ++ [e]) (it_index it)
      end
    else it in
  match it_errors it !! Z.to_nat i with
  | Some e => Ok (e, it)
  | None => Panic (ExplicitPanic "no verdict will come")
  end.
Definition previous (it : insertIterator) : option Header :=
  if it_index it <? 1 then None else (CopyHeader ∘ block_header) <$> it_at it (it_index it - 1).
Definition first (it : insertIterator) : option Block := it_chain it !! 0%nat.
Definition remaining (it : insertIterator) : Z := it_len it - it_index it.
Definition processed (it : insertIterator) : Z := it_index it + 1.

Section block_insert.
Context {C : Type → Type} {D T : Type} `{LRU C} `{Crypto} `{TxCrypto} `{BlockDigests} `{StateTrie T} `{StateStore} `{BlockEngine}.
Context `{!ChainState D (StateDB T)} `{!ChainEngine C D} `{BlockSize}.
Context `{!Rlp Header} `{!Rlp Body} `{!Rlp Z} `{!Rlp (list storedReceiptRLP)} `{ContractAddresses}.
(** The configuration; whether imports are interrupted; the clock, the time the
    processing of a block takes and the draws. *)
Context (chainId : option Z) (cacheConfig : CacheConfig) (shouldPreserve : option (Block → bool)).
Context (interrupted : bool) (now : Z) (proctime : Block → Z) (coin : Block → bool).
Implicit Types bc : BlockChain C D.
Abbreviation M := (GoM (BlockChain C D) chain_error).
Abbreviation outcome := (Z * list chain_event * list Log * option chain_error)%type.

(** * Validation of a block over the chain *)
Definition ValidateBody (block : Block) : M unit :=
  let header := CopyHeader (block_header block) in
  number ← number_of block;
  known ← bc_HasBlockAndState (S := StateDB T) (block_hash block) number;
  if known : bool then throw ErrKnownBlock else
  bc ← get_state;
  match eng_VerifyUncles bc block with
  | Some e => throw e
  | None =>
      if negb (CalcUncleHash (block_uncles block) =? UncleHash header) then throw (errBody errUncleHash) else
      if negb (DeriveSha_Transactions (block_transactions block) =? TxHash header) then throw (errBody errTxHash) else
      let parent := ParentHash (block_header block) in
      parentKnown ← bc_HasBlockAndState (S := StateDB T) parent (number - 1)%u64;
      if parentKnown : bool then mret tt else
      bc ← get_state;
      if negb (bc_HasBlock parent (number - 1)%u64 bc) then throw ErrUnknownAncestor else throw ErrPrunedAncestor
  end.
Definition it_next (it : insertIterator) : M (option Block * option chain_error * insertIterator) :=
  if it_len it <=? it_index it + 1 then mret (None, None, set_index (it_len it) it) else
  let it := set_index (it_index it + 1) it in
  '(e, it) ← lift (receive (it_index it) it);
  block ← bc_deref (it_at it (it_index it));
  match e with
  | Some e => mret (Some block, Some e, it)
  | None =>
      r ← attempt (ValidateBody block);
      mret (Some block, match r with inl e => Some e | inr _ => None end, it)
  end.
Definition it_peek (it : insertIterator) : M (option Block * option chain_error * insertIterator) :=
  if it_len it <=? it_index it + 1 then mret (None, None, it) else
  '(e, it) ← lift (receive (it_index it + 1) it);
  mret (it_at it (it_index it + 1), e, it).

(** * Warming the caches

    [Prefetch] runs a block on a throw-away state: only a panic is seen. *)
Fixpoint precache (header : Header) (blockHash : Hash) (i : Z) (txs : list Transaction) (gp : Z) (s : StateDB T) : Result chain_error unit :=
  match txs with
  | [] => Ok tt
  | tx :: txs =>
      let s := Prepare (rlpHash_tx tx) blockHash i s in
      match AsMessage (MakeSigner chainId) tx with
      | Err _ => Ok tt
      | Panic p => Panic p
      | Ok msg =>
      match NewEVMContext header None with
      | Err _ => Ok tt
      | Panic p => Panic p
      | Ok evm =>
      match ApplyMessage evm msg gp s with
      | (Err _, _) => Ok tt
      | (Panic p, _) => Panic p
      | (Ok _, (gp, s)) => precache header blockHash (i + 1) txs gp s
      end end end
  end.
Definition Prefetch (block : Block) (s : StateDB T) : Result chain_error unit :=
  match AddGas (E := chain_error) 0 (GasLimit (block_header block)) with
  | Err e => Err e
  | Panic p => Panic p
  | Ok gp => precache (CopyHeader (block_header block)) (block_hash block) 0 (block_transactions block) gp s
  end.

(** * Blocks kept aside *)
Definition addFutureBlock (block : Block) : M unit :=
  if (now + maxTimeFutureBlocks)%u64 <? Time (block_header block) then throw errFutureTime else
  modify (λ bc, set_pending_blocks (lru_Add (block_hash block) block (bc_futureBlocks bc)) (bc_badBlocks bc) bc).
Definition addBadBlock (block : Block) : M unit :=
  modify (λ bc, set_pending_blocks (bc_futureBlocks bc) (lru_Add (block_hash block) block (bc_badBlocks bc)) bc).
(** The report itself goes to the console. *)
Definition reportBlock (block : Block) : M unit := addBadBlock block.
Definition BadBlocks bc : list Block := omap (λ hash, lru_Peek hash (bc_badBlocks bc)) (lru_Keys (bc_badBlocks bc)).

(** * Executing a block on its parent's state *)
Definition of_result {A} (r : Result process_error A) : M A :=
  match r with Ok a => mret a | Err e => throw (errProcess e) | Panic p => panic p end.
Definition of_validation (r : Result validation_error unit) : M unit :=
  match r with Ok a => mret a | Err e => throw (errBody e) | Panic p => panic p end.
(** Whether the block is reported when this step fails. *)
Definition reporting {A} (block : Block) (m : M A) : M A :=
  r ← attempt m;
  match r with inr a => mret a | inl e => reportBlock block;; throw e end.
Definition execute (it : insertIterator) (block : Block) : M (WriteStatus * list Log * insertIterator) :=
  number ← number_of block;
  parent ← (match previous it with Some parent => mret (Some parent) | None => on_hc (GetHeader (ParentHash (block_header block)) (number - 1)%u64) end);
  parent ← bc_deref parent;
  bc ← get_state;
  match cs_New (Root parent) (bc_stateCache bc) with
  | None => throw errState
  | Some statedb =>
      it ← (if TrieCleanNoPrefetch cacheConfig then mret it else
        '(followup, e, it) ← it_peek it;
        match followup, e with
        | Some followup, None => lift (Prefetch followup statedb);; mret it
        | _, _ => mret it
        end);
      let '(run, statedb) := Process chainId block statedb in
      '(receipts, logs, usedGas) ← reporting block (of_result run);
      let '(verdict, statedb) := ValidateState block statedb receipts usedGas in
      reporting block (of_validation verdict);;
      status ← writeBlockWithState chainId cacheConfig shouldPreserve (coin block) block receipts statedb;
      mret (status, logs, it)
  end.

(** What an import has so far: the iterator, its last answer, the events, the
    last block that became the head, the logs. *)
Record import := mkImport {
  im_it : insertIterator;
  im_block : option Block;
  im_err : option chain_error;
  im_events : list chain_event;
  im_lastCanon : option Block;
  im_logs : list Log
}.
Definition im_return (im : import) (e : option chain_error) : outcome := (it_index (im_it im), im_events im, im_logs im, e).
Definition advance (im : import) : M import :=
  '(block, e, it) ← it_next (im_it im);
  mret (mkImport it block e (im_events im) (im_lastCanon im) (im_logs im)).

(** [known] blocks up to the height of the head are passed over. *)
Fixpoint skip_known (fuel : nat) (current : Z) (im : import) : M import :=
  match im_block im with
  | Some block =>
      if negb (bool_decide (im_err im = Some ErrKnownBlock)) then mret im else
      number ← number_of block;
      if negb (number <=? current) then mret im else
      match fuel with
      | O => panic OutOfFuel
      | Datatypes.S fuel => im ← advance im; skip_known fuel current im
      end
  | None => mret im
  end.
(** Blocks put into the queue of future blocks while [cond] holds; [inl] returns. *)
Fixpoint queue_while (fuel : nat) (cond : import → bool) (im : import) : M (outcome + import) :=
  match im_block im with
  | Some block =>
      if negb (cond im) then mret (inr im) else
      match fuel with
      | O => panic OutOfFuel
      | Datatypes.S fuel =>
          r ← attempt (addFutureBlock block);
          match r with
          | inl e => mret (inl (im_return im (Some e)))
          | inr _ => im ← advance im; queue_while fuel cond im
          end
      end
  | None => mret (inr im)
  end.
(** The blocks without verification errors are executed one after the other. *)
Fixpoint import_blocks (fuel : nat) (im : import) : M (outcome + import) :=
  match im_block im, im_err im with
  | Some block, None =>
      if interrupted then mret (inr im) else
      match fuel with
      | O => panic OutOfFuel
      | Datatypes.S fuel =>
          r ← attempt (execute (im_it im) block);
          match r with
          | inl e => mret (inl (im_return im (Some e)))
          | inr (status, logs, it) =>
              (match status with
               | CanonStatTy => modify (λ bc, set_tries (bc_stateCache bc) (bc_triegc bc) (bc_gcproc bc + proctime block) bc)
               | _ => mret tt
               end);;
              im ← advance (match status with
                | CanonStatTy => mkImport it (Some block) None (im_events im ++ [ChainEvent block (block_hash block)]) (Some block) (im_logs im ++ logs)
                | SideStatTy => mkImport it (Some block) None (im_events im ++ [ChainSideEvent block]) (im_lastCanon im) (im_logs im)
                | NonStatTy => mkImport it (Some block) None (im_events im) (im_lastCanon im) (im_logs im)
                end);
              import_blocks fuel im
          end
      end
  | _, _ => mret (inr im)
  end.

(** * Side chains whose states were pruned *)

(** The blocks are stored without their states; the difficulty of the last. *)
Fixpoint store_sidechain (fuel : nat) (current : Block) (externTd : option Z) (im : import) : M ((Z * chain_error) + (option Z * import)) :=
  match im_block im with
  | Some block =>
      if negb (bool_decide (im_err im = Some ErrPrunedAncestor)) then mret (inr (externTd, im)) else
      match fuel with
      | O => panic OutOfFuel
      | Datatypes.S fuel =>
          number ← number_of block;
          currentNumber ← number_of current;
          canonical ← (if number <=? currentNumber then GetBlockByNumber number else mret None);
          if (match canonical with Some c => block_hash c =? block_hash block | None => false end) then
            im ← advance im; store_sidechain fuel current externTd im
          else if (match canonical with Some c => Root (block_header c) =? Root (block_header block) | None => false end) then
            mret (inl (it_index (im_it im), errGhostState))
          else
            td ← (match externTd with None => bc_GetTd (ParentHash (block_header block)) (number - 1)%u64 | Some td => mret (Some td) end);
            td ← bc_deref td;
            difficulty ← block_Difficulty block;
            let td := td + difficulty in
            bc ← get_state;
            r ← (if bc_HasBlock (block_hash block) number bc then mret (inr tt) else attempt (WriteBlockWithoutState block td));
            match r with
            | inl e => mret (inl (it_index (im_it im), e))
            | inr _ => im ← advance im; store_sidechain fuel current (Some td) im
            end
      end
  | None => mret (inr (externTd, im))
  end.
(** Back to a block whose state is there; the blocks passed, the last first. *)
Fixpoint pruned_blocks (fuel : nat) (parent : option Header) : M (option Header * list (Hash * Z)) :=
  match parent with
  | None => mret (None, [])
  | Some parent =>
      bc ← get_state;
      if HasState (S := StateDB T) (Root parent) bc then mret (Some parent, []) else
      match fuel with
      | O => panic OutOfFuel
      | Datatypes.S fuel =>
          number ← on_hc (header_number parent);
          next ← on_hc (GetHeader (ParentHash parent) (number - 1)%u64);
          '(found, passed) ← pruned_blocks fuel next;
          mret (found, (Header_Hash parent, number) :: passed)
      end
  end.
(** The blocks are imported again in segments; [insert] is [insertChain]. *)
Fixpoint reimport (insert : list Block → M outcome) (todo : list (Hash * Z)) (blocks : list Block) (memory : Z) : M outcome :=
  match todo with
  | [] => if bool_decide (blocks = []) then mret (0, [], [], None) else insert blocks
  | (hash, number) :: todo =>
      block ← GetBlock hash number;
      block ← bc_deref block;
      let blocks := blocks ++ [block] in
      let memory := memory + block_Size block in
      if (2048 <=? Z.of_nat (length blocks)) || (64 * 1024 * 1024 <? memory) then
        '(_, _, _, e) ← insert blocks;
        match e with
        | Some e => mret (0, [], [], Some e)
        | None => if interrupted then mret (0, [], [], None) else reimport insert todo [] 0
        end
      else reimport insert todo blocks memory
  end.
Definition insertSidechain (insert : list Block → M outcome) (im : import) : M outcome :=
  bc ← get_state;
  current ← bc_deref (bc_currentBlock bc);
  r ← store_sidechain (length (it_chain (im_it im))) current None (mkImport (im_it im) (im_block im) (Some ErrPrunedAncestor) [] None []);
  match r with
  | inl (i, e) => mret (i, [], [], Some e)
  | inr (externTd, im) =>
      number ← number_of current;
      localTd ← bc_GetTd (block_hash current) number;
      localTd ← bc_deref localTd;
      externTd ← bc_deref externTd;
      if externTd <? localTd then mret (it_index (im_it im), [], [], im_err im) else
      let parent := previous (im_it im) in
      '(found, passed) ← pruned_blocks (Datatypes.S (Z.to_nat (default 0 (parent ≫= Number)))) parent;
      match found with
      | None => mret (it_index (im_it im), [], [], Some errMissingParent)
      | Some _ => reimport insert (reverse passed) [] 0
      end
  end.

(** * Batches of blocks *)
Definition is_future (im : import) : M bool :=
  match im_err im with
  | Some ErrFutureBlock => mret true
  | Some ErrUnknownAncestor =>
      bc ← get_state;
      first ← bc_deref (first (im_it im));
      mret (lru_Contains (ParentHash (block_header first)) (bc_futureBlocks bc))
  | _ => mret false
  end.
(** The part after the first blocks have been looked at. *)
Definition import_rest (im : import) : M outcome :=
  let fuel := Datatypes.S (length (it_chain (im_it im))) in
  r ← import_blocks fuel im;
  match r with
  | inl out => mret out
  | inr im =>
      r ← (match im_block im, im_err im with
        | Some block, Some ErrFutureBlock =>
            r ← attempt (addFutureBlock block);
            match r with
            | inl e => mret (inl (im_return im (Some e)))
            | inr _ => im ← advance im; queue_while fuel (λ im, bool_decide (im_err im = Some ErrUnknownAncestor)) im
            end
        | _, _ => mret (inr im)
        end);
      match r with
      | inl out => mret out
      | inr im =>
          bc ← get_state;
          head ← (match im_lastCanon im with
            | None => mret []
            | Some last =>
                current ← bc_deref (bc_currentBlock bc);
                mret (if block_hash current =? block_hash last then [ChainHeadEvent last] else [])
            end);
          mret (it_index (im_it im), im_events im ++ head, im_logs im, im_err im)
      end
  end.
Definition insertChain_with (rec : list Block → M outcome) (chain : list Block) (verifySeals : bool) : M outcome :=
  if interrupted then mret (0, [], [], None) else
  bc ← get_state;
  let results := eng_VerifyHeaders bc ((CopyHeader ∘ block_header) <$> chain) ((λ _, verifySeals) <$> chain) in
  let fuel := Datatypes.S (length chain) in
  im ← advance (mkImport (newInsertIterator chain results) None None [] None []);
  im ← (if bool_decide (im_err im = Some ErrKnownBlock) then
      bc ← get_state;
      current ← bc_deref (bc_currentBlock bc);
      current ← number_of current;
      skip_known fuel current im
    else mret im);
  if bool_decide (im_err im = Some ErrPrunedAncestor) then insertSidechain rec im else
  future ← is_future im;
  if future : bool then
    r ← queue_while fuel (λ im, (it_index (im_it im) =? 0) || bool_decide (im_err im = Some ErrUnknownAncestor)) im;
    match r with inl out => mret out | inr im => mret (im_return im (im_err im)) end
  else match im_err im with
  | Some e =>
      (match im_block im with Some block => reportBlock block | None => panic NilDereference end);;
      mret (im_return im (Some e))
  | None => import_rest im
  end.
(** Side chains import again; the source has no bound on how often. *)
Fixpoint insertChain (depth : nat) (chain : list Block) (verifySeals : bool) : M outcome :=
  insertChain_with (match depth with O => λ _, panic OutOfFuel | Datatypes.S depth => λ blocks, insertChain depth blocks false end) chain verifySeals.

Definition PostChainEvents (events : list chain_event) : M unit := modify (post events).
Definition block_link (prev block : Block) : Result chain_error bool := header_link (block_header prev) (block_header block).
Fixpoint blocks_linked (prev : Block) (chain : list Block) : Result chain_error bool :=
  match chain with
  | [] => Ok true
  | block :: chain =>
      ok ← block_link prev block;
      if negb ok then Ok false else blocks_linked block chain
  end.
Definition linked_chain (chain : list Block) : Result chain_error bool :=
  match chain with [] => Ok true | block :: chain => blocks_linked block chain end.
Definition InsertChain (depth : nat) (chain : list Block) : M (Z * option chain_error) :=
  if bool_decide (chain = []) then mret (0, None) else
  linked ← lift (linked_chain chain);
  if negb linked then mret (0, Some errNonContiguous) else
  '(n, events, _, e) ← insertChain depth chain true;
  PostChainEvents events;;
  mret (n, e).

(** Every five seconds; the order of blocks of the same height is one that
    [sort.Sort] may choose. *)
Definition number_le (b b' : Block) : Prop := wrap64 (default 0 (Number (block_header b))) ≤ wrap64 (default 0 (Number (block_header b'))).
#[global] Instance number_le_dec : RelDecision number_le := λ b b', Z_le_dec _ _.
Definition procFutureBlocks (depth : nat) : M unit :=
  bc ← get_state;
  let blocks := omap (λ hash, lru_Peek hash (bc_futureBlocks bc)) (lru_Keys (bc_futureBlocks bc)) in
  for_each (merge_sort number_le blocks) (λ block, _ ← InsertChain depth [block]; mret tt).

(** * Headers and receipts *)
Definition index_of {A} (x : option A) : M A := match x with Some a => mret a | None => panic IndexOutOfRange end.
Definition InsertHeaderChain (rand : nat → nat) (coins : nat → bool) (chain : list Header) (checkFreq : nat) : M (Z * option chain_error) :=
  bc ← get_state;
  '(i, e) ← lift (ValidateHeaderChain (eng_VerifyHeaders bc) interrupted rand chain checkFreq);
  match e with
  | Some e => mret (i, Some e)
  | None => on_hc (hc_InsertHeaderChain interrupted coins 0 chain)
  end.
(** Bodies and receipts gathered in a batch, from block [i] on. *)
Fixpoint gather_receipts (i : Z) (blockChain : list Block) (receiptChain : list (list Receipt)) (batch : list keyvalue) :
    M (option (Z * option chain_error) * list keyvalue) :=
  match blockChain with
  | [] => mret (None, batch)
  | block :: blockChain =>
      receipts ← index_of (head receiptChain);
      if interrupted then mret (Some (0, None), batch) else
      number ← number_of block;
      bc ← get_state;
      if negb (hc_HasHeader (block_hash block) number (bc_hc bc)) then mret (Some (i, Some errHeaderUnknown), batch) else
      if bc_HasBlock (block_hash block) number bc then gather_receipts (i + 1) blockChain (tail receiptChain) batch else
      derived ← lift (DeriveFields chainId (block_hash block) number receipts (block_transactions block));
      match derived with
      | None => mret (Some (i, Some errReceiptCount), batch)
      | Some receipts =>
          body ← lift (WriteBody (block_hash block) number (block_Body block));
          stored ← lift (WriteReceipts (block_hash block) number receipts);
          let batch := batch ++ body ++ stored ++ WriteTxLookupEntries block in
          if IdealBatchSize <=? ValueSize batch then
            bc_write batch;; gather_receipts (i + 1) blockChain (tail receiptChain) []
          else gather_receipts (i + 1) blockChain (tail receiptChain) batch
      end
  end.
Definition InsertReceiptChain (blockChain : list Block) (receiptChain : list (list Receipt)) : M (Z * option chain_error) :=
  linked ← lift (linked_chain blockChain);
  if negb linked then mret (0, Some errNonContiguous) else
  '(stop, batch) ← gather_receipts 0 blockChain receiptChain [];
  match stop with
  | Some out => mret out
  | None =>
      bc_write batch;;
      head ← index_of (last blockChain);
      number ← number_of head;
      td ← bc_GetTd (block_hash head) number;
      match td with
      | None => mret (0, None)
      | Some td =>
          bc ← get_state;
          fast ← bc_deref (bc_currentFastBlock bc);
          fastNumber ← number_of fast;
          fastTd ← bc_GetTd (block_hash fast) fastNumber;
          fastTd ← bc_deref fastTd;
          (if fastTd <? td then bc_write (WriteHeadFastBlockHash (block_hash head));; modify (set_fast (Some head)) else mret tt);;
          mret (0, None)
      end
  end.

(** * Opening the chain

    [d] is the state database over [db]. *)
Definition NewBlockChain (db : Database) (d : D) : Result chain_error unit * BlockChain C D :=
  let '(r, hc) := NewHeaderChain db in
  let bc := mkBlockChain hc None None None d [] 0 (lru_New bodyCacheLimit) (lru_New receiptsCacheLimit) (lru_New blockCacheLimit)
    (lru_New maxFutureBlocks) (lru_New badBlockLimit) [] in
  (lift r;;
   genesis ← GetBlockByNumber 0;
   modify (set_genesis genesis);;
   match genesis with
   | None => throw ErrNoGenesis
   | Some _ => loadLastState (S := StateDB T)
   end) bc.
End block_insert.
