(* ===== verification/ChainLookup.v ===== *)
(** The invariant of the chain's database and of the caches in front of it:
    every stored block hangs on its parent down to one genesis block, its total
    difficulty is its parent's and its own, the canonical numbers name stored
    blocks, and the caches hold what the database holds.

    Lookups through the caches give what the database holds, and leave the chain
    as it was, up to the contents of the caches. *)
From S2P Require Import Prelude Hoare Types Sealing Blocks Transition TxSigning Processor Memorydb TxPool RawDB RawDBSpec HeaderChain BlockChain BlockWrite.

(** The signatures that are accepted have numbers below the order of the curve. *)
Class SignatureBounds `{TxCrypto} :=
  signature_bound v r s homestead : crypto_ValidateSignatureValues v r s homestead = true → (0 ≤ r < 2 ^ 256) ∧ (0 ≤ s < 2 ^ 256).

Section database.
Context `{Crypto} `{TxCrypto} `{!Rlp Header} `{!Rlp Body} `{!Rlp Z} `{!Rlp (list storedReceiptRLP)} `{ContractAddresses}.
Context `{!RlpLaws Header storable_header} `{!RlpLaws Body storable_body} `{!RlpLaws Z (λ x, 0 ≤ x)} `{!RlpLaws (list storedReceiptRLP) (λ _, True)}.

(** The entries blocks are made of. *)
Definition block_entry (e : entry) : Prop :=
  match e with NumberEntry _ | HeaderEntry _ _ | TdEntry _ _ | BodyEntry _ _ => True | _ => False end.
Definition same_blocks (db db' : Database) : Prop := ∀ e, block_entry e → entry_ok e → entry_at db' e = entry_at db e.

Record stored_ok (genesis : Hash) (db : Database) (h : Hash) (n : Z) (b : Block) (td : Z) : Prop := {
  so_hash : block_hash b = h;
  so_storable : storable_block b n;
  so_number : ReadHeaderNumber db h = Some n;
  so_td : ReadTd db h n = Some td;
  so_nonneg : 0 ≤ td;
  so_genesis : n = 0 → h = genesis;
  so_parent : 0 < n → is_hash (ParentHash (block_header b)) ∧ ∃ p ptd,
    ReadBlock db (ParentHash (block_header b)) (n - 1) = Some p ∧ ReadTd db (ParentHash (block_header b)) (n - 1) = Some ptd ∧
    Difficulty (block_header b) = Some (td - ptd)
}.
Record db_ok (genesis : Hash) (db : Database) : Prop := {
  db_block h n b : is_hash h → is_u64 n → ReadBlock db h n = Some b → ∃ td, stored_ok genesis db h n b td;
  db_canonical n : is_u64 n → ReadCanonicalHash db n = zero_hash ∨
    ∃ b, ReadBlock db (ReadCanonicalHash db n) n = Some b ∧ is_hash (ReadCanonicalHash db n);
  db_number h n : is_hash h → ReadHeaderNumber db h = Some n → is_u64 n
}.

(** ** Reads are reads of entries *)
Lemma ReadTd_at db h n : ReadTd db h n = rlp_at (entry_at db (TdEntry n h)).
Proof. done. Qed.
Lemma ReadHeader_at db h n : ReadHeader db h n = rlp_at (entry_at db (HeaderEntry n h)).
Proof. done. Qed.
Lemma ReadHeaderNumber_at db h : ReadHeaderNumber db h = number_at (entry_at db (NumberEntry h)).
Proof. done. Qed.
Lemma ReadCanonicalHash_at db n : ReadCanonicalHash db n = hash_at (entry_at db (CanonicalEntry n)).
Proof. done. Qed.
Lemma same_ReadBlock db db' h n : is_u64 n → is_hash h →
  entry_at db' (HeaderEntry n h) = entry_at db (HeaderEntry n h) → entry_at db' (BodyEntry n h) = entry_at db (BodyEntry n h) →
  ReadBlock db' h n = ReadBlock db h n.
Proof. intros Hn Hh Hhd Hbd. by rewrite !ReadBlock_at, Hhd, Hbd. Qed.

Section same.
Context (db db' : Database) (Hsame : same_blocks db db').
Lemma same_block h n : is_u64 n → is_hash h → ReadBlock db' h n = ReadBlock db h n.
Proof. intros Hn Hh. by apply same_ReadBlock; try done; apply Hsame. Qed.
Lemma same_td h n : is_u64 n → is_hash h → ReadTd db' h n = ReadTd db h n.
Proof. intros Hn Hh. rewrite !ReadTd_at. by rewrite Hsame. Qed.
Lemma same_header h n : is_u64 n → is_hash h → ReadHeader db' h n = ReadHeader db h n.
Proof. intros Hn Hh. rewrite !ReadHeader_at. by rewrite Hsame. Qed.
Lemma same_number h : is_hash h → ReadHeaderNumber db' h = ReadHeaderNumber db h.
Proof. intros Hh. rewrite !ReadHeaderNumber_at. by rewrite Hsame. Qed.
End same.
Lemma same_blocks_refl db : same_blocks db db.
Proof. done. Qed.
Lemma same_blocks_trans db db' db'' : same_blocks db db' → same_blocks db' db'' → same_blocks db db''.
Proof. intros Hs Hs' e He Hok. by rewrite Hs', Hs. Qed.

Lemma pred_u64 n : is_u64 n → 0 < n → is_u64 (n - 1).
Proof. unfold is_u64. lia. Qed.
Lemma storable_pos b n : storable_block b n → is_u64 n.
Proof. by intros []. Qed.

Lemma same_db_ok genesis db db' : same_blocks db db' →
  (∀ n, is_u64 n → ReadCanonicalHash db' n = zero_hash ∨ ∃ b, ReadBlock db (ReadCanonicalHash db' n) n = Some b ∧ is_hash (ReadCanonicalHash db' n)) →
  db_ok genesis db → db_ok genesis db'.
Proof.
  intros Hs Hcan [Hb _ Hnb]. split.
  - intros h n b Hh Hn. rewrite (same_block _ _ Hs) by done. intros Hread. destruct (Hb h n b Hh Hn Hread) as [td [Hhash Hst Hnum Htd Hpos Hg Hp]].
    exists td. split; try done.
    + by rewrite (same_number _ _ Hs).
    + by rewrite (same_td _ _ Hs).
    + intros Hpos'. destruct (Hp Hpos') as (Hph & p & ptd & Hrp & Hrt & Hd). split; [done|]. exists p, ptd.
      pose proof (pred_u64 n Hn Hpos'). by rewrite (same_block _ _ Hs), (same_td _ _ Hs).
  - intros n Hn. destruct (Hcan n Hn) as [?|(b & Hrb & Hh)]; [by left|]. right. exists b. split; [|done]. by rewrite (same_block _ _ Hs).
  - intros h n Hh. rewrite (same_number _ _ Hs) by done. by apply Hnb.
Qed.

(** ** A block is stored, under its own hash *)
Definition stored (db : Database) (b : Block) (n : Z) : Prop := is_hash (block_hash b) ∧ is_u64 n ∧ ReadBlock db (block_hash b) n = Some b.
Lemma stored_known genesis db b n : db_ok genesis db → stored db b n → ∃ td, stored_ok genesis db (block_hash b) n b td.
Proof. intros Hdb (Hh & Hn & Hb). by apply (db_block _ _ Hdb). Qed.
Lemma stored_number genesis db b n : db_ok genesis db → stored db b n → Number (block_header b) = Some n.
Proof. intros Hdb Hb. destruct (stored_known _ _ _ _ Hdb Hb) as [td [_ [] _ _ _ _ _]]. done. Qed.
Lemma stored_storable genesis db b n : db_ok genesis db → stored db b n → storable_block b n.
Proof. intros Hdb Hb. by destruct (stored_known _ _ _ _ Hdb Hb) as [td []]. Qed.
Lemma stored_parent genesis db b n : db_ok genesis db → stored db b n → 0 < n →
  ∃ p, ReadBlock db (ParentHash (block_header b)) (n - 1) = Some p ∧ stored db p (n - 1) ∧ block_hash p = ParentHash (block_header b).
Proof.
  intros Hdb Hb Hpos. destruct (stored_known _ _ _ _ Hdb Hb) as [td [_ Hst _ _ _ _ Hp]]. destruct (Hp Hpos) as (Hph & p & ptd & Hrp & _ & _).
  pose proof (pred_u64 n (storable_pos _ _ Hst) Hpos) as Hn. destruct (db_block _ _ Hdb _ _ _ Hph Hn Hrp) as [td' [Hhash _ _ _ _ _ _]].
  exists p. split_and!; [done| |done]. unfold stored. by rewrite Hhash.
Qed.
Lemma stored_same genesis db b b' n n' : db_ok genesis db → stored db b n → stored db b' n' → block_hash b = block_hash b' → b = b' ∧ n = n'.
Proof.
  intros Hdb Hb Hb' Heq. destruct (stored_known _ _ _ _ Hdb Hb) as [td [_ _ Hnum _ _ _ _]].
  destruct (stored_known _ _ _ _ Hdb Hb') as [td' [_ _ Hnum' _ _ _ _]]. rewrite Heq in Hnum. assert (n = n') as -> by congruence.
  destruct Hb as (_ & _ & Hr), Hb' as (_ & _ & Hr'). rewrite Heq in Hr. split; [congruence|done].
Qed.
Lemma same_stored db db' b n : same_blocks db db' → stored db b n → stored db' b n.
Proof. intros Hs (Hh & Hn & Hb). split_and!; [done..|]. by rewrite (same_block _ _ Hs). Qed.

(** ** Writing a block keeps the invariant

    Whatever the database holds under the hash of the block is the block. *)
Record agrees (db : Database) (b : Block) (n : Z) : Prop := {
  ag_number n' : ReadHeaderNumber db (block_hash b) = Some n' → n' = n;
  ag_header hd : ReadHeader db (block_hash b) n = Some hd → hd = block_header b;
  ag_block b' : ReadBlock db (block_hash b) n = Some b' → b' = b
}.
Definition new_entries (b : Block) (n : Z) : list entry := TdEntry n (block_hash b) :: block_entries b n.
Record written (db db' : Database) (b : Block) (n td : Z) : Prop := {
  wr_td : ReadTd db' (block_hash b) n = Some td;
  wr_header : ReadHeader db' (block_hash b) n = Some (block_header b);
  wr_block : ReadBlock db' (block_hash b) n = Some b;
  wr_number : ReadHeaderNumber db' (block_hash b) = Some n;
  wr_other e : entry_ok e → e ∉ new_entries b n → entry_at db' e = entry_at db e
}.

Section writing.
Context (genesis : Hash) (db db' : Database) (b p : Block) (n d ptd : Z).
Context (Hdb : db_ok genesis db) (Hb : storable_block b n) (Hpos : 0 < n) (Hag : agrees db b n).
Context (Hp : stored db p (n - 1)) (Hph : block_hash p = ParentHash (block_header b)) (Hptd : ReadTd db (block_hash p) (n - 1) = Some ptd).
Context (Hd : Difficulty (block_header b) = Some d) (Hw : written db db' b n (d + ptd)).

Lemma written_td_nonneg : 0 ≤ d + ptd.
Proof.
  destruct (stored_known _ _ _ _ Hdb Hp) as [td' [_ _ _ Htd' Hpos' _ _]]. destruct (sk_header _ _ Hb) as [_ (d' & Hd' & Hd0)].
  assert (td' = ptd) as -> by congruence. assert (d' = d) as -> by congruence. lia.
Qed.
(** A block that was there is still there, with its difficulty. *)
Lemma written_block h m b' : is_hash h → is_u64 m → ReadBlock db h m = Some b' → ReadBlock db' h m = Some b'.
Proof.
  intros Hh Hm Hr. destruct (decide (h = block_hash b)) as [->|Hne].
  - destruct (db_block _ _ Hdb _ _ _ Hh Hm Hr) as [td [_ _ Hnum _ _ _ _]]. assert (m = n) as -> by by eapply ag_number.
    assert (b' = b) as -> by by eapply ag_block. by eapply wr_block.
  - rewrite <- Hr. apply same_ReadBlock; [done..| |]; (eapply wr_other; [exact Hw|by split|]); unfold new_entries, block_entries; fold (block_hash b); set_solver.
Qed.
Lemma written_td h m b' td : is_hash h → is_u64 m → ReadBlock db h m = Some b' → ReadTd db h m = Some td → ReadTd db' h m = Some td.
Proof.
  intros Hh Hm Hr Htd. destruct (decide (h = block_hash b)) as [->|Hne].
  - destruct (db_block _ _ Hdb _ _ _ Hh Hm Hr) as [td1 [_ _ Hnum Htd1 _ _ Hpar]]. assert (m = n) as -> by by eapply ag_number.
    assert (b' = b) as -> by by eapply ag_block. assert (td1 = td) as -> by congruence.
    destruct (Hpar Hpos) as (_ & p' & ptd' & _ & Hptd' & Hd'). rewrite <- Hph in Hptd'.
    rewrite (wr_td _ _ _ _ _ Hw). f_equal. assert (ptd' = ptd) as -> by congruence. assert (d = td - ptd) by congruence. lia.
  - rewrite <- Htd. rewrite !ReadTd_at. f_equal. eapply wr_other; [exact Hw|by split|]. unfold new_entries, block_entries; fold (block_hash b). set_solver.
Qed.
Lemma written_old h m b' : is_hash h → is_u64 m → ReadBlock db' h m = Some b' → (h = block_hash b ∧ m = n ∧ b' = b) ∨ ReadBlock db h m = Some b'.
Proof.
  intros Hh Hm Hr. destruct (decide (h = block_hash b ∧ m = n)) as [[-> ->]|Hne].
  - left. split_and!; try done. pose proof (wr_block _ _ _ _ _ Hw). congruence.
  - right. rewrite <- Hr. symmetry. apply same_ReadBlock; [done..| |]; (eapply wr_other; [exact Hw|by split|]);
      unfold new_entries, block_entries; fold (block_hash b); rewrite !elem_of_cons, elem_of_nil; naive_solver.
Qed.
Lemma written_number h m b' : is_hash h → ReadBlock db h m = Some b' → is_u64 m → ReadHeaderNumber db' h = Some m.
Proof.
  intros Hh Hr Hm. destruct (db_block _ _ Hdb _ _ _ Hh Hm Hr) as [td1 [_ _ Hnum _ _ _ _]]. destruct (decide (h = block_hash b)) as [->|Hne].
  - assert (m = n) as -> by by eapply ag_number. by eapply wr_number.
  - rewrite <- Hnum, !ReadHeaderNumber_at. f_equal. eapply wr_other; [exact Hw|done|]. unfold new_entries, block_entries; fold (block_hash b). set_solver.
Qed.
Lemma written_db_ok : db_ok genesis db'.
Proof.
  split.
  - intros h m b' Hh Hm Hr. destruct (written_old _ _ _ Hh Hm Hr) as [(-> & -> & ->)|Hold].
    + exists (d + ptd). split; try done.
      * by eapply wr_number.
      * by eapply wr_td.
      * apply written_td_nonneg.
      * lia.
      * intros _. rewrite <- Hph. destruct Hp as (Hhp & Hnp & Hrp). split; [done|]. exists p, ptd. split_and!.
        -- by eapply written_block.
        -- by eapply written_td.
        -- rewrite Hd. f_equal. lia.
    + destruct (db_block _ _ Hdb _ _ _ Hh Hm Hold) as [td [Hhash Hst Hnum Htd Hnn Hg Hpar]]. exists td. split; try done.
      * by eapply written_number.
      * by eapply written_td.
      * intros Hm0. destruct (Hpar Hm0) as (Hph' & p' & ptd' & Hrp' & Hrt' & Hd'). pose proof (pred_u64 m Hm Hm0).
        split; [done|]. exists p', ptd'. split_and!; [by apply written_block|by eapply written_td|done].
  - intros m Hm. assert (ReadCanonicalHash db' m = ReadCanonicalHash db m) as ->.
    { rewrite !ReadCanonicalHash_at. f_equal. eapply wr_other; [exact Hw|done|]. unfold new_entries, block_entries. set_solver. }
    destruct (db_canonical _ _ Hdb m Hm) as [?|(b' & Hrb & Hh)]; [by left|]. right. exists b'. split; [|done]. by apply written_block.
  - intros h m Hh. destruct (decide (h = block_hash b)) as [->|Hne].
    + rewrite (wr_number _ _ _ _ _ Hw). intros [= <-]. apply (sk_range _ _ Hb).
    + rewrite ReadHeaderNumber_at. rewrite (wr_other _ _ _ _ _ Hw); [by apply (db_number _ _ Hdb)|done|].
      unfold new_entries, block_entries; fold (block_hash b). set_solver.
Qed.
Lemma written_stored b' m : stored db b' m → stored db' b' m.
Proof. intros (Hh & Hm & Hr). split_and!; [done..|]. by apply written_block. Qed.
Lemma written_is_stored : stored db' b n.
Proof. split_and!; [apply (sk_hash _ _ Hb)|apply (sk_range _ _ Hb)|]. by eapply wr_block. Qed.
End writing.
End database.

Section lookups.
Context {C : Type → Type} {D S : Type} `{LRU C} `{!LRULaws C} `{ChainState D S} `{Crypto} `{TxCrypto}.
Context `{!Rlp Header} `{!Rlp Body} `{!Rlp Z} `{!Rlp (list storedReceiptRLP)} `{ContractAddresses}.
Context `{!RlpLaws Header storable_header} `{!RlpLaws Body storable_body} `{!RlpLaws Z (λ x, 0 ≤ x)} `{!RlpLaws (list storedReceiptRLP) (λ _, True)}.
Context (genesis : Hash).
Implicit Types bc : BlockChain C D.

(** * The caches *)

(** The header of the block and the body make the block up again. *)
Definition made_up (b : Block) (body : Body) : Prop :=
  WithBody (NewBlockWithHeader (block_header b)) (body_Transactions body) (body_Uncles body) = b.
Record caches_ok bc : Prop := {
  ca_headers h hd : lru_Peek h (hc_headerCache (bc_hc bc)) = Some hd → is_hash h ∧
    ∃ n, is_u64 n ∧ ReadHeaderNumber (bc_db bc) h = Some n ∧ ReadHeader (bc_db bc) h n = Some hd;
  ca_tds h td : lru_Peek h (hc_tdCache (bc_hc bc)) = Some td → is_hash h ∧
    ∃ n, is_u64 n ∧ ReadHeaderNumber (bc_db bc) h = Some n ∧ ReadTd (bc_db bc) h n = Some td;
  ca_numbers h n : lru_Peek h (hc_numberCache (bc_hc bc)) = Some n → is_hash h ∧ is_u64 n ∧ ReadHeaderNumber (bc_db bc) h = Some n;
  ca_blocks h b : lru_Peek h (bc_blockCache bc) = Some b → is_hash h ∧
    ∃ n, is_u64 n ∧ ReadHeaderNumber (bc_db bc) h = Some n ∧ ReadBlock (bc_db bc) h n = Some b;
  ca_bodies h body : lru_Peek h (bc_bodyCache bc) = Some body → is_hash h ∧
    ∃ n b, is_u64 n ∧ ReadHeaderNumber (bc_db bc) h = Some n ∧ ReadBlock (bc_db bc) h n = Some b ∧ made_up b body
}.
Record chain_inv bc : Prop := { ci_db : db_ok genesis (bc_db bc); ci_caches : caches_ok bc }.

(** What lookups leave alone: everything but the caches of headers, blocks,
    difficulties and numbers. *)
Definition core bc := (bc_db bc, (bc_genesisBlock bc, bc_currentBlock bc, bc_currentFastBlock bc, hc_currentHeader (bc_hc bc), hc_currentHeaderHash (bc_hc bc)),
  (bc_stateCache bc, bc_triegc bc, bc_gcproc bc), (bc_futureBlocks bc, bc_badBlocks bc, bc_posted bc)).
Definition quiet bc bc' : Prop := chain_inv bc' ∧ core bc' = core bc.
Lemma quiet_refl bc : chain_inv bc → quiet bc bc.
Proof. done. Qed.
Lemma quiet_trans bc bc' bc'' : quiet bc bc' → quiet bc' bc'' → quiet bc bc''.
Proof. intros [_ Hc] [Hinv Hc']. split; [done|congruence]. Qed.
Lemma quiet_db bc bc' : quiet bc bc' → bc_db bc' = bc_db bc.
Proof. intros [_ Hc]. by injection Hc. Qed.
Lemma quiet_current bc bc' : quiet bc bc' → bc_currentBlock bc' = bc_currentBlock bc.
Proof. intros [_ Hc]. by injection Hc. Qed.
Lemma quiet_posted bc bc' : quiet bc bc' → bc_posted bc' = bc_posted bc.
Proof. intros [_ Hc]. by injection Hc. Qed.
Lemma quiet_inv bc bc' : quiet bc bc' → chain_inv bc'.
Proof. by intros [Hinv _]. Qed.

(** Caches that hold no more than before, or one more entry that is true. *)
Lemma quiet_caches bc bc' : chain_inv bc → core bc' = core bc → bc_bodyCache bc' = bc_bodyCache bc →
  (∀ h hd, lru_Peek h (hc_headerCache (bc_hc bc')) = Some hd → lru_Peek h (hc_headerCache (bc_hc bc)) = Some hd ∨
     (is_hash h ∧ ∃ n, is_u64 n ∧ ReadHeaderNumber (bc_db bc) h = Some n ∧ ReadHeader (bc_db bc) h n = Some hd)) →
  (∀ h td, lru_Peek h (hc_tdCache (bc_hc bc')) = Some td → lru_Peek h (hc_tdCache (bc_hc bc)) = Some td ∨
     (is_hash h ∧ ∃ n, is_u64 n ∧ ReadHeaderNumber (bc_db bc) h = Some n ∧ ReadTd (bc_db bc) h n = Some td)) →
  (∀ h n, lru_Peek h (hc_numberCache (bc_hc bc')) = Some n → lru_Peek h (hc_numberCache (bc_hc bc)) = Some n ∨
     (is_hash h ∧ is_u64 n ∧ ReadHeaderNumber (bc_db bc) h = Some n)) →
  (∀ h b, lru_Peek h (bc_blockCache bc') = Some b → lru_Peek h (bc_blockCache bc) = Some b ∨
     (is_hash h ∧ ∃ n, is_u64 n ∧ ReadHeaderNumber (bc_db bc) h = Some n ∧ ReadBlock (bc_db bc) h n = Some b)) →
  quiet bc bc'.
Proof.
  intros [Hdb [C1 C2 C3 C4 C5]] Hcore Hbody Hh Ht Hn Hb. assert (bc_db bc' = bc_db bc) as Hd by (by injection Hcore).
  split; [|done]. split; [by rewrite Hd|]. split; rewrite Hd.
  - intros h hd [?|?]%Hh; [by apply C1|done].
  - intros h td [?|?]%Ht; [by apply C2|done].
  - intros h n [?|?]%Hn; [by apply C3|done].
  - intros h b [?|?]%Hb; [by apply C4|done].
  - rewrite Hbody. exact C5.
Qed.
Lemma peek_get {V} h h' (c : C V) r c' v : lru_Get h c = (r, c') → lru_Peek h' c' = Some v → lru_Peek h' c = Some v.
Proof. intros Hg Hp. rewrite <- Hp. pose proof (lru_Get_same h h' c) as Hs. by rewrite Hg in Hs. Qed.
Lemma get_peek {V} h (c : C V) r c' : lru_Get h c = (r, c') → r = lru_Peek h c.
Proof. intros Hg. pose proof (lru_Get_peek h c) as Hs. by rewrite Hg in Hs. Qed.
Lemma peek_add {V} h h' (c : C V) v v' : lru_Peek h' (lru_Add h v c) = Some v' → (h' = h ∧ v' = v) ∨ (h' ≠ h ∧ lru_Peek h' c = Some v').
Proof.
  intros Hp. destruct (decide (h' = h)) as [->|Hne]; [left; split; [done|by eapply lru_Add_same]|right; split; [done|by eapply lru_Add_other]].
Qed.

(** * Lookups *)
Lemma returns_on_hc {A} (m : GoM (HeaderChain C) chain_error A) (Q : A → BlockChain C D → Prop) bc :
  returns m (λ a hc, Q a (set_hc hc bc)) (bc_hc bc) → returns (on_hc m) Q bc.
Proof. rewrite !returns_run. intros (a & hc & Hrun & HQ). exists a, (set_hc hc bc). unfold on_hc. by rewrite Hrun. Qed.
Lemma set_hc_same bc : set_hc (bc_hc bc) bc = bc.
Proof. by destruct bc. Qed.
Lemma on_hc_bind {A B} (m : GoM (HeaderChain C) chain_error A) (f : A → GoM (HeaderChain C) chain_error B) Q bc :
  returns (on_hc (m ≫= f)) Q bc = returns (on_hc m ≫= λ a, on_hc (f a)) Q bc.
Proof. unfold returns, wp, on_hc, mbind, gom_bind. destruct (m (bc_hc bc)) as [[a|e|p] hc]; cbn; [|done..]. by destruct (f a hc), bc. Qed.
Lemma on_hc_ret {A} (a : A) Q bc : returns (on_hc (mret a)) Q bc = returns (E := chain_error) (mret a) Q bc.
Proof. unfold returns, wp, on_hc. cbn. by rewrite set_hc_same. Qed.
Definition fits (db : Database) (h : Hash) (n : Z) : Prop := ∀ n', ReadHeaderNumber db h = Some n' → n' = n.

Lemma GetBlock_ok bc h n : chain_inv bc → is_hash h → is_u64 n → fits (bc_db bc) h n →
  returns (GetBlock h n) (λ r bc', r = ReadBlock (bc_db bc) h n ∧ quiet bc bc') bc.
Proof.
  intros Hinv Hh Hn Hfit. pose proof Hinv as [Hdb Hca]. unfold GetBlock. wp_steps.
  destruct (lru_Get h (bc_blockCache bc)) as [cached blocks] eqn:Hget. pose proof (get_peek _ _ _ _ Hget) as Hpeek.
  assert (∀ bc', bc' = set_block_caches (bc_bodyCache bc) (bc_receiptsCache bc) blocks bc → quiet bc bc') as Hq.
  { intros bc' ->. apply quiet_caches; try done; [by left..|]. intros h' b Hb. left. by eapply peek_get. }
  apply returns_bind. unfold put_state. eapply (returns_run (E := chain_error)). eexists tt, _. split; [reflexivity|].
  destruct cached as [b|].
  - wp_steps. split; [|by apply Hq]. symmetry in Hpeek. destruct (ca_blocks _ Hca _ _ Hpeek) as (_ & n' & _ & Hnum & Hr).
    by rewrite <- (Hfit n' Hnum).
  - cbn. destruct (ReadBlock (bc_db bc) h n) as [b|] eqn:Hr; wp_steps; (split; [done|]); [|by apply Hq].
    destruct (db_block _ _ Hdb _ _ _ Hh Hn Hr) as [td [Hhash _ Hnum _ _ _ _]].
    eapply quiet_trans; [by apply Hq|]. pose proof (Hq _ eq_refl) as [Hinv' _].
    apply quiet_caches; try done; [by left..|]. cbn. intros h' b' [[-> ->]|[_ ?]]%peek_add; [|by left]. right. rewrite Hhash. split; [done|]. by exists n.
Qed.
Lemma returns_put_state {A} (x : BlockChain C D) (k : unit → GoM (BlockChain C D) chain_error A) Q bc : returns (k tt) Q x → returns (put_state x ≫= k) Q bc.
Proof. done. Qed.
Lemma returns_put_hc {A} (x : HeaderChain C) (k : unit → GoM (HeaderChain C) chain_error A) Q hc : returns (k tt) Q x → returns (put_state x ≫= k) Q hc.
Proof. done. Qed.

Lemma GetBlockNumber_ok bc h : chain_inv bc → is_hash h →
  returns (on_hc (GetBlockNumber h)) (λ r bc', r = ReadHeaderNumber (bc_db bc) h ∧ quiet bc bc') bc.
Proof.
  intros Hinv Hh. pose proof Hinv as [Hdb Hca]. apply returns_on_hc. unfold GetBlockNumber. wp_steps.
  destruct (lru_Get h (hc_numberCache (bc_hc bc))) as [cached numbers] eqn:Hget. pose proof (get_peek _ _ _ _ Hget) as Hpeek.
  apply returns_put_hc.
  assert (quiet bc (set_hc (hc_set_caches (hc_headerCache (bc_hc bc)) (hc_tdCache (bc_hc bc)) numbers (bc_hc bc)) bc)) as Hq.
  { apply quiet_caches; try done; [by left..| |by left]. intros h' n' Hn'. left. by eapply peek_get. }
  destruct cached as [n|].
  - wp_steps. split; [|done]. symmetry in Hpeek. by destruct (ca_numbers _ Hca _ _ Hpeek) as (_ & _ & ->).
  - cbn. destruct (ReadHeaderNumber (hc_chainDb (bc_hc bc)) h) as [n|] eqn:Hr; wp_steps; (split; [done|]); [|exact Hq].
    eapply quiet_trans; [exact Hq|]. pose proof (quiet_inv _ _ Hq) as Hinv'.
    apply quiet_caches; try done; [by left..| |by left]. cbn. intros h' n' [[-> ->]|[_ ?]]%peek_add; [|by left]. right.
    split_and!; [done| |done]. by eapply db_number.
Qed.
Lemma GetTd_ok bc h n : chain_inv bc → is_hash h → ReadHeaderNumber (bc_db bc) h = Some n →
  returns (bc_GetTd h n) (λ r bc', r = ReadTd (bc_db bc) h n ∧ quiet bc bc') bc.
Proof.
  intros Hinv Hh Hnum. pose proof Hinv as [Hdb Hca]. pose proof (db_number _ _ Hdb _ _ Hh Hnum) as Hn.
  apply returns_on_hc. unfold GetTd. wp_steps.
  destruct (lru_Get h (hc_tdCache (bc_hc bc))) as [cached tds] eqn:Hget. pose proof (get_peek _ _ _ _ Hget) as Hpeek.
  apply returns_put_hc.
  assert (quiet bc (set_hc (hc_set_caches (hc_headerCache (bc_hc bc)) tds (hc_numberCache (bc_hc bc)) (bc_hc bc)) bc)) as Hq.
  { apply quiet_caches; try done; [by left..| |by left|by left]. intros h' n' Hn'. left. by eapply peek_get. }
  destruct cached as [td|].
  - wp_steps. split; [|done]. symmetry in Hpeek. destruct (ca_tds _ Hca _ _ Hpeek) as (_ & n' & _ & Hnum' & Hr).
    by assert (n' = n) as -> by congruence.
  - cbn. destruct (ReadTd (hc_chainDb (bc_hc bc)) h n) as [td|] eqn:Hr; wp_steps; (split; [done|]); [|exact Hq].
    eapply quiet_trans; [exact Hq|]. pose proof (quiet_inv _ _ Hq) as Hinv'.
    apply quiet_caches; try done; [by left..| |by left|by left]. cbn. intros h' td' [[-> ->]|[_ ?]]%peek_add; [|by left]. right.
    split; [done|]. by exists n.
Qed.
Lemma GetHeader_ok bc h n : chain_inv bc → is_hash h → ReadHeaderNumber (bc_db bc) h = Some n →
  returns (on_hc (GetHeader h n)) (λ r bc', r = ReadHeader (bc_db bc) h n ∧ quiet bc bc') bc.
Proof.
  intros Hinv Hh Hnum. pose proof Hinv as [Hdb Hca]. pose proof (db_number _ _ Hdb _ _ Hh Hnum) as Hn.
  apply returns_on_hc. unfold GetHeader. wp_steps.
  destruct (lru_Get h (hc_headerCache (bc_hc bc))) as [cached headers] eqn:Hget. pose proof (get_peek _ _ _ _ Hget) as Hpeek.
  apply returns_put_hc.
  assert (quiet bc (set_hc (hc_set_caches headers (hc_tdCache (bc_hc bc)) (hc_numberCache (bc_hc bc)) (bc_hc bc)) bc)) as Hq.
  { apply quiet_caches; try done; [|by left..]. intros h' n' Hn'. left. by eapply peek_get. }
  destruct cached as [hd|].
  - wp_steps. split; [|done]. symmetry in Hpeek. destruct (ca_headers _ Hca _ _ Hpeek) as (_ & n' & _ & Hnum' & Hr).
    by assert (n' = n) as -> by congruence.
  - cbn. destruct (ReadHeader (hc_chainDb (bc_hc bc)) h n) as [hd|] eqn:Hr; wp_steps; (split; [done|]); [|exact Hq].
    eapply quiet_trans; [exact Hq|]. pose proof (quiet_inv _ _ Hq) as Hinv'.
    apply quiet_caches; try done; [|by left..]. cbn. intros h' hd' [[-> ->]|[_ ?]]%peek_add; [|by left]. right.
    split; [done|]. by exists n.
Qed.
(** The header at a canonical number, which is that of a stored block. *)
Lemma GetHeaderByNumber_ok bc n : chain_inv bc → is_u64 n →
  returns (on_hc (GetHeaderByNumber n)) (λ r bc', r = (if ReadCanonicalHash (bc_db bc) n =? zero_hash then None else ReadHeader (bc_db bc) (ReadCanonicalHash (bc_db bc) n) n) ∧ quiet bc bc') bc.
Proof.
  intros Hinv Hn. pose proof Hinv as [Hdb Hca]. apply returns_on_hc. unfold GetHeaderByNumber. wp_steps. change (hc_chainDb (bc_hc bc)) with (bc_db bc).
  destruct (_ =? zero_hash) eqn:Hz; [wp_steps; by rewrite set_hc_same|]. apply Z.eqb_neq in Hz.
  destruct (db_canonical _ _ Hdb n Hn) as [?|(b & Hr & Hh)]; [done|].
  destruct (db_block _ _ Hdb _ _ _ Hh Hn Hr) as [td [Hhash _ Hnum _ _ _ _]].
  pose proof (GetHeader_ok bc _ _ Hinv Hh Hnum) as Hok. unfold on_hc, returns, wp in *.
  by destruct (GetHeader _ n _) as [[r|e|p] hc].
Qed.

(** The block at a canonical number. *)
Lemma GetBlockByNumber_ok bc n : chain_inv bc → is_u64 n →
  returns (GetBlockByNumber n) (λ r bc', r = (if ReadCanonicalHash (bc_db bc) n =? zero_hash then None else ReadBlock (bc_db bc) (ReadCanonicalHash (bc_db bc) n) n) ∧ quiet bc bc') bc.
Proof.
  intros Hinv Hn. pose proof Hinv as [Hdb Hca]. unfold GetBlockByNumber. wp_steps.
  destruct (_ =? zero_hash) eqn:Hz; [by wp_steps|]. apply Z.eqb_neq in Hz.
  destruct (db_canonical _ _ Hdb n Hn) as [?|(b & Hr & Hh)]; [done|].
  destruct (db_block _ _ Hdb _ _ _ Hh Hn Hr) as [td [Hhash _ Hnum _ _ _ _]].
  apply GetBlock_ok; try done. intros n' Hn'. congruence.
Qed.
(** A stored block is found, and so is its parent. *)
Lemma GetBlock_stored bc b n : chain_inv bc → stored (bc_db bc) b n →
  returns (GetBlock (block_hash b) n) (λ r bc', r = Some b ∧ quiet bc bc') bc.
Proof.
  intros Hinv Hb. pose proof Hinv as [Hdb _]. pose proof Hb as (Hh & Hn & Hr). destruct (stored_known _ _ _ _ Hdb Hb) as [td [_ _ Hnum _ _ _ _]].
  eapply returns_mono; [apply GetBlock_ok; [done..|]|]; [intros n' ?; congruence|]. cbn. intros r bc' [-> Hq]. by rewrite Hr.
Qed.
Lemma GetBlock_parent bc b n : chain_inv bc → stored (bc_db bc) b n → 0 < n →
  returns (GetBlock (ParentHash (block_header b)) (n - 1)%u64) (λ r bc', ∃ p, r = Some p ∧ stored (bc_db bc) p (n - 1) ∧ block_hash p = ParentHash (block_header b) ∧ quiet bc bc') bc.
Proof.
  intros Hinv Hb Hpos. pose proof Hinv as [Hdb _]. destruct (stored_parent _ _ _ _ Hdb Hb Hpos) as (p & _ & Hp & Hph).
  assert ((n - 1)%u64 = n - 1) as -> by (apply wrap64_id, (proj1 (proj2 Hp))).
  rewrite <- Hph. eapply returns_mono; [by apply GetBlock_stored|]. cbn. intros r bc' [-> Hq]. by exists p.
Qed.
Lemma number_of_stored bc b n : chain_inv bc → stored (bc_db bc) b n → number_of b bc = (Ok n, bc).
Proof.
  intros [Hdb _] Hb. unfold number_of, NumberU64, lift. rewrite (stored_number _ _ _ _ Hdb Hb). cbn. f_equal. f_equal.
  apply wrap64_id, Hb.
Qed.
Lemma returns_number_of {A} bc b n (k : Z → GoM (BlockChain C D) chain_error A) Q : chain_inv bc → stored (bc_db bc) b n →
  returns (k n) Q bc → returns (number_of b ≫= k) Q bc.
Proof. intros Hinv Hb Hk. unfold returns, wp in *. by rewrite (gom_bind_run _ _ _ _ _ (number_of_stored bc b n Hinv Hb)). Qed.

Lemma GetBlockByHash_ok bc h : chain_inv bc → is_hash h →
  returns (GetBlockByHash h) (λ r bc', r = ReadHeaderNumber (bc_db bc) h ≫= ReadBlock (bc_db bc) h ∧ quiet bc bc') bc.
Proof.
  intros Hinv Hh. pose proof (ci_db _ Hinv) as Hdb. unfold GetBlockByHash.
  apply returns_bind. eapply returns_mono; [by apply GetBlockNumber_ok|]. cbn beta. intros r bc1 [-> Hq1].
  destruct (ReadHeaderNumber (bc_db bc) h) as [n|] eqn:Hn; [|by wp_steps]. eapply returns_mono; [apply GetBlock_ok; [by eapply quiet_inv|done| |]|].
  - by eapply db_number.
  - intros n'. rewrite (quiet_db _ _ Hq1). congruence.
  - cbn beta. intros r bc2 [-> Hq2]. rewrite (quiet_db _ _ Hq1). split; [done|]. by eapply quiet_trans.
Qed.

Lemma GetHeaderByHash_ok bc h : chain_inv bc → is_hash h →
  returns (on_hc (GetHeaderByHash h)) (λ r bc', r = ReadHeaderNumber (bc_db bc) h ≫= ReadHeader (bc_db bc) h ∧ quiet bc bc') bc.
Proof.
  intros Hinv Hh. unfold GetHeaderByHash. rewrite on_hc_bind. apply returns_bind. eapply returns_mono; [by apply GetBlockNumber_ok|]. cbn beta. intros r bc1 [-> Hq1].
  destruct (ReadHeaderNumber (bc_db bc) h) as [n|] eqn:Hn; [|rewrite on_hc_ret; by wp_steps]. eapply returns_mono; [apply GetHeader_ok; [by eapply quiet_inv|done|by rewrite (quiet_db _ _ Hq1)]|].
  cbn beta. intros r bc2 [-> Hq2]. rewrite (quiet_db _ _ Hq1). split; [done|]. by eapply quiet_trans.
Qed.

(** C22: the caches are invisible: looking a hash up gives the block, the header
    and the total difficulty the database holds under it, or nothing when it
    holds nothing, whatever the caches hold or have evicted; and lookups change
    nothing but the caches, which stay true. *)
Theorem caches_are_transparent bc h : chain_inv bc → is_hash h →
  let number := ReadHeaderNumber (bc_db bc) h in
  returns (GetBlockByHash h) (λ r bc', r = number ≫= ReadBlock (bc_db bc) h ∧ chain_inv bc' ∧ core bc' = core bc) bc ∧
  returns (on_hc (GetHeaderByHash h)) (λ r bc', r = number ≫= ReadHeader (bc_db bc) h ∧ chain_inv bc' ∧ core bc' = core bc) bc ∧
  returns (on_hc (GetTdByHash h)) (λ r bc', r = number ≫= ReadTd (bc_db bc) h ∧ chain_inv bc' ∧ core bc' = core bc) bc.
Proof.
  intros Hinv Hh number. split_and!; [by apply GetBlockByHash_ok|by apply GetHeaderByHash_ok|unfold GetTdByHash].
  rewrite on_hc_bind. apply returns_bind. eapply returns_mono; [by apply GetBlockNumber_ok|]. cbn beta. intros r bc1 [-> Hq1]. fold number.
  destruct number as [n|] eqn:Hn; [|rewrite on_hc_ret; by wp_steps]. eapply returns_mono; [apply GetTd_ok; [by eapply quiet_inv|done|by rewrite (quiet_db _ _ Hq1)]|].
  cbn beta. intros r bc2 [-> Hq2]. rewrite (quiet_db _ _ Hq1). split; [done|]. by eapply quiet_trans.
Qed.
End lookups.
