(* ===== verification/ChainReorg.v ===== *)
(** Reorganisations: the canonical numbers of the head's ancestors name them,
    before and after the head moves to another branch. *)
From S2P Require Import Prelude Types Sealing Blocks Transition TxSigning Processor.
From S2P Require Import TxPool Memorydb RawDB RawDBSpec HeaderChain Hoare BlockChain BlockWrite ChainLookup.

(** * Receipts can be read *)
#[local] Abbreviation is_Ok r := (∃ a, r = Ok a).
Section receipts.
Context `{Crypto} `{TxCrypto} `{!SignatureBounds} `{!Rlp Header} `{!Rlp Body} `{!Rlp Z} `{!Rlp (list storedReceiptRLP)} `{ContractAddresses}.

Lemma pad_left_ok {E} x : 0 ≤ x < 2 ^ 256 → is_Ok (pad_left (E := E) 32 (big_Bytes x)).
Proof.
  intros Hx. destruct (big_Bytes_length x 32) as [Hlen _]; [by change (256 ^ Z.of_nat 32) with (2 ^ 256)|].
  unfold pad_left. rewrite bool_decide_false by lia. by eexists.
Qed.
Lemma recoverPlain_no_panic h r s v homestead p : recoverPlain h r s v homestead ≠ Panic p.
Proof.
  unfold recoverPlain. destruct (_ <? _); [done|]. destruct (crypto_ValidateSignatureValues _ _ _ _) eqn:Hv; [|done]. cbn [negb].
  destruct (signature_bound _ _ _ _ Hv) as [Hr Hs]. destruct (pad_left_ok (E := tx_error) r Hr) as [rb ->], (pad_left_ok (E := tx_error) s Hs) as [sb ->].
  cbn [mbind result_bind]. by repeat case_match.
Qed.
Lemma Signer_Sender_no_panic signer tx p : Signer_Sender signer tx ≠ Panic p.
Proof. destruct signer; cbn; repeat case_match; try done; apply recoverPlain_no_panic. Qed.

Context {E : Type}.
Lemma derive_receipts_total signer h n i k used rs txs : is_Ok (derive_receipts (E := E) signer h n i k used rs txs).
Proof.
  revert i k used txs. induction rs as [|r rs IH]; intros i k used [|tx txs]; try by eexists. cbn [derive_receipts].
  destruct (IH (i + 1) (k + Z.of_nat (length (rLogs r))) (rCumulativeGasUsed r) txs) as [l Hl].
  destruct (Recipient tx); cbn [mbind result_bind]; [rewrite Hl; by eexists|].
  destruct (Signer_Sender signer tx) as [a|e|p] eqn:Hs; cbn [mbind result_bind]; [rewrite Hl; by eexists..|].
  by apply Signer_Sender_no_panic in Hs.
Qed.
Lemma decode_receipts_total l : is_Ok (decode_receipts (E := E) l).
Proof.
  induction l as [|s l [r IH]]; [by eexists|]. cbn [decode_receipts]. unfold decodeStoredReceiptRLP.
  destruct (setStatus _) as [[root status]|]; [|by eexists]. rewrite CreateBloom_run. cbn [mbind result_bind]. rewrite IH. by eexists.
Qed.
Lemma ReadReceipts_total db h n chainId : is_Ok (ReadReceipts (E := E) db h n chainId).
Proof.
  unfold ReadReceipts, ReadRawReceipts. destruct (read_rlp _ _) as [stored|]; [|by eexists].
  destruct (decode_receipts_total stored) as [rs ->]. cbn [mbind result_bind]. destruct rs as [rs|]; [|by eexists].
  destruct (ReadBody _ _ _) as [body|]; [|by eexists]. unfold DeriveFields. destruct (negb _); [by eexists|].
  destruct (derive_receipts_total (MakeSigner chainId) h n 0 0 0 rs (body_Transactions body)) as [l ->]. by eexists.
Qed.
End receipts.

(** * Branches *)
Section branches.
Context `{Crypto} `{TxCrypto} `{!Rlp Header} `{!Rlp Body} `{!Rlp Z} `{!Rlp (list storedReceiptRLP)} `{ContractAddresses}.
Context `{!RlpLaws Header storable_header} `{!RlpLaws Body storable_body} `{!RlpLaws Z (λ x, 0 ≤ x)} `{!RlpLaws (list storedReceiptRLP) (λ _, True)}.
Implicit Types db : Database.

(** [path db b n l a m]: from [b] at height [n] down the parents to [a] at [m],
    over the blocks [l] without [a]. *)
Inductive path db : Block → Z → list Block → Block → Z → Prop :=
  | path_nil b n : stored db b n → path db b n [] b n
  | path_cons b n p l a m : stored db b n → 0 < n → block_hash p = ParentHash (block_header b) → path db p (n - 1) l a m → path db b n (b :: l) a m.
Definition canonical db (b : Block) (n : Z) : Prop := ∀ l a m, path db b n l a m → ReadCanonicalHash db m = block_hash a.

Lemma path_start db b n l a m : path db b n l a m → stored db b n.
Proof. by destruct 1. Qed.
Lemma path_end db b n l a m : path db b n l a m → stored db a m.
Proof. by induction 1. Qed.
Lemma path_height db b n l a m : path db b n l a m → n = m + Z.of_nat (length l).
Proof. induction 1 as [|b n p l a m _ _ _ _ IH]; cbn [length]; lia. Qed.
Lemma path_same db db' b n l a m : same_blocks db db' → path db b n l a m → path db' b n l a m.
Proof. intros Hs. induction 1; econstructor; try done; by eapply same_stored. Qed.
Lemma path_app db b n l a m l' a' m' : path db b n l a m → path db a m l' a' m' → path db b n (l ++ l') a' m'.
Proof. induction 1 as [|b n p l a m Hb Hpos Hp Hl IH]; [done|]. intros Hl'. cbn. econstructor; eauto. Qed.
(** The last block passed is the child of the end. *)
Lemma path_snoc db b n l x c m : path db b n (l ++ [x]) c m → path db b n l x (m + 1) ∧ block_hash c = ParentHash (block_header x) ∧ stored db c m.
Proof.
  revert b n. induction l as [|y l IH]; intros b n Hp; inversion Hp as [|? ? p ? ? ? Hb Hpos Hph Hl]; subst.
  - inversion Hl; subst. replace (n - 1 + 1) with n by lia. split_and!; [by constructor|done..].
  - destruct (IH _ _ Hl) as (Hl' & Hx & Hc). split_and!; [by econstructor|done..].
Qed.
Lemma path_single db b n p : stored db b n → 0 < n → stored db p (n - 1) → block_hash p = ParentHash (block_header b) → path db b n [b] p (n - 1).
Proof. intros Hb Hpos Hp Hph. econstructor; try done. by constructor. Qed.
Lemma path_blocks db b n l a m : path db b n l a m → Forall (λ x, ∃ k, stored db x k) l.
Proof. induction 1; constructor; eauto. Qed.

Lemma canonical_same db db' b n : same_blocks db db' → (∀ m, is_u64 m → m ≤ n → ReadCanonicalHash db' m = ReadCanonicalHash db m) →
  canonical db b n → canonical db' b n.
Proof.
  intros Hs Hcan Hc l a m Hp. assert (same_blocks db' db) as Hs' by (intros e He Hok; by rewrite Hs).
  pose proof (path_same _ _ _ _ _ _ _ Hs' Hp) as Hp'. pose proof (path_height _ _ _ _ _ _ Hp).
  rewrite Hcan; [by eapply Hc|apply (path_end _ _ _ _ _ _ Hp)|lia].
Qed.
Lemma canonical_child genesis db b c n : db_ok genesis db → canonical db c n → stored db c n → block_hash c = ParentHash (block_header b) →
  ReadCanonicalHash db (n + 1) = block_hash b → canonical db b (n + 1).
Proof.
  intros Hdb Hc Hst Hph Hcan l a m Hp. inversion Hp as [? ? Hb|? ? p ? ? ? Hb Hpos Hpp Hl]; subst; [done|].
  replace (n + 1 - 1) with n in Hl by lia. pose proof (path_start _ _ _ _ _ _ Hl) as Hp'.
  destruct (stored_same _ _ p c _ _ Hdb Hp' Hst) as [-> _]; [congruence|]. by eapply Hc.
Qed.
Lemma canonical_parent db b n p : canonical db b n → stored db b n → 0 < n → block_hash p = ParentHash (block_header b) → canonical db p (n - 1).
Proof. intros Hc Hb Hpos Hph l a m Hp. eapply (Hc (b :: l)). by econstructor. Qed.
Lemma canonical_path db b n l a m : canonical db b n → path db b n l a m → canonical db a m.
Proof. intros Hc Hp l' a' m' Hp'. eapply Hc. by eapply path_app. Qed.
End branches.

(** * One block becomes the head *)
Section inserting.
Context {C : Type → Type} {D S : Type} `{LRU C} `{!LRULaws C} `{ChainState D S} `{Crypto} `{TxCrypto}.
Context `{!Rlp Header} `{!Rlp Body} `{!Rlp Z} `{!Rlp (list storedReceiptRLP)} `{ContractAddresses}.
Context `{!RlpLaws Header storable_header} `{!RlpLaws Body storable_body} `{!RlpLaws Z (λ x, 0 ≤ x)} `{!RlpLaws (list storedReceiptRLP) (λ _, True)}.
Context (genesis : Hash).
Implicit Types bc : BlockChain C D.

(** What moving the head leaves alone. *)
Definition rest bc := (bc_genesisBlock bc, (bc_stateCache bc, bc_triegc bc, bc_gcproc bc), (bc_futureBlocks bc, bc_badBlocks bc, bc_posted bc)).
Lemma quiet_rest bc bc' : quiet genesis bc bc' → rest bc' = rest bc.
Proof. intros [_ Hc]. unfold core in Hc. unfold rest. congruence. Qed.

Record inserted (db db' : Database) (b : Block) (n : Z) : Prop := {
  in_canonical : ReadCanonicalHash db' n = block_hash b;
  in_other e : entry_ok e → e ∉ [CanonicalEntry n; HeadBlock; HeadHeader; HeadFast] → entry_at db' e = entry_at db e
}.
Lemma inserted_blocks db db' b n : inserted db db' b n → same_blocks db db'.
Proof. intros Hi e He Hok. apply (in_other _ _ _ _ Hi); [done|]. destruct e; cbn in He; set_solver. Qed.
Lemma inserted_canonical db db' b n m : inserted db db' b n → is_u64 m → m ≠ n → ReadCanonicalHash db' m = ReadCanonicalHash db m.
Proof. intros Hi Hm Hne. rewrite !ReadCanonicalHash_at. f_equal. apply (in_other _ _ _ _ Hi); [done|]. set_solver. Qed.
Lemma inserted_db_ok db db' b n : db_ok genesis db → stored db b n → inserted db db' b n → db_ok genesis db'.
Proof.
  intros Hdb Hb Hi. eapply same_db_ok; [by eapply inserted_blocks| |done]. intros m Hm. destruct (decide (m = n)) as [->|Hne].
  - right. exists b. rewrite (in_canonical _ _ _ _ Hi). destruct Hb as (? & ? & ?). done.
  - rewrite (inserted_canonical _ _ _ _ _ Hi Hm Hne). by apply (db_canonical _ _ Hdb).
Qed.
Lemma caches_same bc bc' : same_blocks (bc_db bc) (bc_db bc') →
  hc_headerCache (bc_hc bc') = hc_headerCache (bc_hc bc) → hc_tdCache (bc_hc bc') = hc_tdCache (bc_hc bc) →
  hc_numberCache (bc_hc bc') = hc_numberCache (bc_hc bc) → bc_blockCache bc' = bc_blockCache bc → bc_bodyCache bc' = bc_bodyCache bc → caches_ok bc → caches_ok bc'.
Proof.
  intros Hs Hh Ht Hn Hb Hbd [C1 C2 C3 C4 C5]. split; rewrite ?Hh, ?Ht, ?Hn, ?Hb, ?Hbd.
  - intros h hd (Hok & n & Hu & Hnum & Hr)%C1. split; [done|]. exists n. by rewrite (same_number _ _ Hs), (same_header _ _ Hs).
  - intros h td (Hok & n & Hu & Hnum & Hr)%C2. split; [done|]. exists n. by rewrite (same_number _ _ Hs), (same_td _ _ Hs).
  - intros h n (Hok & Hu & Hnum)%C3. by rewrite (same_number _ _ Hs).
  - intros h b (Hok & n & Hu & Hnum & Hr)%C4. split; [done|]. exists n. by rewrite (same_number _ _ Hs), (same_block _ _ Hs).
  - intros h body (Hok & n & b & Hu & Hnum & Hr & Hm)%C5. split; [done|]. exists n, b. by rewrite (same_number _ _ Hs), (same_block _ _ Hs).
Qed.

Lemma head_writes db b n (update : bool) : stored db b n →
  let ws := [(CanonicalEntry n, Some (Hash_Bytes (block_hash b))); (HeadBlock, Some (Hash_Bytes (block_hash b)))] ++
    (if update then [(HeadHeader, Some (Hash_Bytes (Header_Hash (CopyHeader (block_header b))))); (HeadFast, Some (Hash_Bytes (block_hash b)))] else []) in
  inserted db (batch_Write (puts ws) db) b n.
Proof.
  intros (Hh & Hn & _) ws. assert (Forall (λ p, entry_ok p.1) ws) as Hws.
  { unfold ws. destruct update; cbn; by repeat apply Forall_cons_2. }
  split.
  - rewrite ReadCanonicalHash_at, entry_at_puts by done. unfold ws, over. destruct update; cbn; repeat case_decide; try done; by apply hash_at_bytes.
  - intros e He Hne. apply entry_at_other; [done|done|]. unfold ws. destruct update; cbn; set_solver.
Qed.
Lemma insert_head_ok bc b n : chain_inv genesis bc → stored (bc_db bc) b n →
  returns (insert b) (λ _ bc', chain_inv genesis bc' ∧ bc_currentBlock bc' = Some b ∧ inserted (bc_db bc) (bc_db bc') b n ∧ rest bc' = rest bc) bc.
Proof.
  intros Hinv Hb. pose proof Hinv as [Hdb Hca]. unfold insert. eapply returns_number_of; [done|done|].
  apply returns_bind, wp_get. set (update := negb _). pose proof (head_writes (bc_db bc) b n update Hb) as Hw. cbv zeta in Hw.
  set (ws := _ ++ _) in Hw. unfold bc_write, on_hc, write_db, modify, mbind, gom_bind. cbn.
  assert (∀ bc', bc_db bc' = batch_Write (puts ws) (bc_db bc) → hc_headerCache (bc_hc bc') = hc_headerCache (bc_hc bc) → hc_tdCache (bc_hc bc') = hc_tdCache (bc_hc bc) →
    hc_numberCache (bc_hc bc') = hc_numberCache (bc_hc bc) → bc_blockCache bc' = bc_blockCache bc → bc_bodyCache bc' = bc_bodyCache bc → bc_currentBlock bc' = Some b → rest bc' = rest bc →
    chain_inv genesis bc' ∧ bc_currentBlock bc' = Some b ∧ inserted (bc_db bc) (bc_db bc') b n ∧ rest bc' = rest bc) as Hend.
  { intros bc' Hd Hh Ht Hn Hbl Hbd Hcur Hrest. rewrite Hd. split_and!; try done. split; rewrite ?Hd.
    - by eapply inserted_db_ok.
    - apply (caches_same bc); try done. rewrite Hd. by eapply inserted_blocks. }
  destruct update; by apply Hend.
Qed.
End inserting.

(** * Walking both branches *)
Class TxHashRange `{TxCrypto} := tx_hash_range tx : is_hash (rlpHash_tx tx).

Section walking.
Context {C : Type → Type} {D S : Type} `{LRU C} `{!LRULaws C} `{ChainState D S} `{Crypto} `{TxCrypto} `{!SignatureBounds} `{!TxHashRange}.
Context `{!Rlp Header} `{!Rlp Body} `{!Rlp Z} `{!Rlp (list storedReceiptRLP)} `{ContractAddresses}.
Context `{!RlpLaws Header storable_header} `{!RlpLaws Body storable_body} `{!RlpLaws Z (λ x, 0 ≤ x)} `{!RlpLaws (list storedReceiptRLP) (λ _, True)}.
Context (genesis : Hash) (chainId : option Z).
Implicit Types bc : BlockChain C D.

Lemma collectLogs_ok bc h : chain_inv genesis bc → is_hash h → returns (collectLogs chainId h) (λ _ bc', quiet genesis bc bc') bc.
Proof.
  intros Hinv Hh. unfold collectLogs. apply returns_bind. eapply returns_mono; [by apply GetBlockNumber_ok|]. cbn. intros r bc' [_ Hq].
  destruct r as [n|]; [|by wp_steps]. wp_steps. destruct (ReadReceipts_total (E := chain_error) (bc_db bc') h n chainId) as [rs ->]. wp_steps. exact Hq.
Qed.

Lemma descend_stops collect bc b n target fuel :
  (∀ bc b n, chain_inv genesis bc → stored (bc_db bc) b n → returns (collect b) (λ _ bc', quiet genesis bc bc') bc) →
  chain_inv genesis bc → stored (bc_db bc) b n → 0 ≤ target ≤ n → n - target ≤ Z.of_nat fuel →
  returns (descend fuel collect (Some b) target) (λ r bc', quiet genesis bc bc' ∧ ∃ a l, r = (Some a, l) ∧ path (bc_db bc) b n l a target) bc.
Proof.
  intros Hcol. revert bc b n. induction fuel as [|fuel IH]; intros bc b n Hinv Hb Hle Hfuel; cbn [descend];
    (eapply returns_number_of; [done|done|]); destruct (n =? target) eqn:Heq.
  1,3: apply Z.eqb_eq in Heq; subst; wp_steps; split; [done|]; eexists _, _; split; [done|by constructor].
  { apply Z.eqb_neq in Heq. lia. }
  apply Z.eqb_neq in Heq. apply returns_bind. eapply returns_mono; [by eapply Hcol|]. cbn. intros _ bc1 Hq1.
  assert (stored (bc_db bc1) b n) as Hb1 by by rewrite (quiet_db _ _ _ Hq1).
  apply returns_bind. eapply returns_mono; [apply (GetBlock_parent genesis); [by eapply quiet_inv|exact Hb1|lia]|].
  cbn. intros r bc2 (p & -> & Hp & Hph & Hq2). pose proof (quiet_trans _ _ _ _ Hq1 Hq2) as Hq.
  assert (stored (bc_db bc2) p (n - 1)) as Hp2 by by rewrite (quiet_db _ _ _ Hq2).
  apply returns_bind. eapply returns_mono; [apply (IH bc2 p (n - 1)); [by eapply quiet_inv|done|lia|lia]|].
  cbn. intros r bc3 (Hq3 & a & l & -> & Hpath). wp_steps. split; [by eapply quiet_trans|]. exists a, (b :: l). split; [done|].
  rewrite (quiet_db _ _ _ Hq) in Hpath. econstructor; [exact Hb|lia|done|done].
Qed.

(** Branches that meet nowhere above. *)
Definition off_branch (db : Database) (l : list Block) (b : Block) (n : Z) : Prop := ∀ x k l', x ∈ l → ¬ path db b n l' x k.
Lemma off_branch_parents db genesis' o b n l p : db_ok genesis' db → stored db o n → stored db b n → 0 < n → block_hash o ≠ block_hash b →
  stored db p (n - 1) → block_hash p = ParentHash (block_header b) → Forall (λ x, ∃ k, stored db x k ∧ k < n) l →
  off_branch db l p (n - 1) → off_branch db (o :: l) b n.
Proof.
  intros Hdb Ho Hb Hpos Hne Hp Hph Hl Hoff x k l' Hx Hpath. pose proof (path_end _ _ _ _ _ _ Hpath) as Hxk.
  apply elem_of_cons in Hx as [->|Hx].
  - destruct (stored_same _ _ o o _ _ Hdb Ho Hxk eq_refl) as [_ <-]. pose proof (path_height _ _ _ _ _ _ Hpath) as Hlen.
    destruct l' as [|y l']; [|cbn in Hlen; lia]. by inversion Hpath; subst.
  - rewrite Forall_forall in Hl. destruct (Hl x Hx) as (k' & Hxk' & Hlt). destruct (stored_same _ _ x x _ _ Hdb Hxk Hxk' eq_refl) as [_ ->].
    inversion Hpath as [|? ? q ? ? ? _ _ Hq Hpath']; subst; [lia|]. pose proof (path_start _ _ _ _ _ _ Hpath') as Hq'.
    destruct (stored_same _ _ q p _ _ Hdb Hq' Hp) as [-> _]; [congruence|]. by apply (Hoff x k' _ Hx Hpath').
Qed.
Lemma path_heights db b n l a m : path db b n l a m → Forall (λ x, ∃ k, stored db x k ∧ m < k ≤ n) l.
Proof.
  induction 1 as [|b n p l a m Hb Hpos Hph Hp IH]; constructor.
  - exists n. pose proof (path_height _ _ _ _ _ _ Hp). split; [done|lia].
  - eapply Forall_impl; [exact IH|]. cbn. intros x (k & ? & ?). exists k. split; [done|lia].
Qed.
Lemma path_through db b n l a m l' x k : db_ok genesis db → path db b n l a m → path db b n l' x k → k ≤ m → ∃ l'', path db a m l'' x k.
Proof.
  intros Hdb Hp. revert l'. induction Hp as [b n Hb|b n p l a m Hb Hpos Hph Hp IH]; intros l' Hp' Hle; [by eexists|].
  pose proof (path_height _ _ _ _ _ _ Hp) as Hlen. inversion Hp' as [|? ? q ? ? ? _ _ Hqh Hq]; subst; [lia|].
  destruct (stored_same _ _ q p _ _ Hdb (path_start _ _ _ _ _ _ Hq) (path_start _ _ _ _ _ _ Hp)) as [-> _]; [congruence|]. by eapply IH.
Qed.

Lemma to_common_ok bc o b n fuel : chain_inv genesis bc → stored (bc_db bc) o n → stored (bc_db bc) b n → n ≤ Z.of_nat fuel →
  returns (to_common chainId fuel o b) (λ r bc', quiet genesis bc bc' ∧ ∃ c m l l', r = (c, l, l') ∧
    path (bc_db bc) o n l c m ∧ path (bc_db bc) b n l' c m ∧ off_branch (bc_db bc) l b n) bc.
Proof.
  revert bc o b n. induction fuel as [|fuel IH]; intros bc o b n Hinv Ho Hb Hfuel; cbn [to_common];
    (destruct (block_hash o =? block_hash b) eqn:Heq;
     [apply Z.eqb_eq in Heq; destruct (stored_same _ _ o b _ _ (ci_db _ _ Hinv) Ho Hb Heq) as [-> _]; wp_steps; split; [done|];
      eexists b, n, [], []; split_and!; [done|by constructor|by constructor|intros ? ? ? ?%elem_of_nil; done]|]).
  all: apply Z.eqb_neq in Heq; assert (0 < n) as Hpos;
    [destruct (decide (n = 0)) as [->|]; [|pose proof (proj1 (proj2 Ho)) as [? _]; lia];
     destruct (stored_known _ _ _ _ (ci_db _ _ Hinv) Ho) as [? [_ _ _ _ _ Hg _]];
     destruct (stored_known _ _ _ _ (ci_db _ _ Hinv) Hb) as [? [_ _ _ _ _ Hg' _]];
     by rewrite Hg, Hg' in Heq|].
  - lia.
  - apply returns_bind. eapply returns_mono; [apply collectLogs_ok; [done|apply Ho]|]. cbn. intros _ bc1 Hq1. pose proof (quiet_db _ _ _ Hq1) as Hd1.
    pose proof (quiet_inv _ _ _ Hq1) as Hinv1. eapply (returns_number_of genesis); [done|by rewrite Hd1|].
    apply returns_bind. eapply returns_mono; [apply (GetBlock_parent genesis); [done|by rewrite Hd1|done]|].
    cbn. intros r bc2 (p & -> & Hp & Hph & Hq2). pose proof (quiet_db _ _ _ Hq2) as Hd2. pose proof (quiet_inv _ _ _ Hq2) as Hinv2.
    eapply (returns_number_of genesis); [done|by rewrite Hd2, Hd1|].
    apply returns_bind. eapply returns_mono; [apply (GetBlock_parent genesis); [done|by rewrite Hd2, Hd1|done]|].
    cbn. intros r bc3 (p' & -> & Hp' & Hph' & Hq3). pose proof (quiet_db _ _ _ Hq3) as Hd3. pose proof (quiet_inv _ _ _ Hq3) as Hinv3.
    rewrite Hd2, Hd1 in Hp'. rewrite Hd1 in Hp.
    apply returns_bind. eapply returns_mono; [apply (IH bc3 p p' (n - 1)); [done|by rewrite Hd3, Hd2, Hd1|by rewrite Hd3, Hd2, Hd1|lia]|].
    rewrite Hd3, Hd2, Hd1. cbn. intros r bc4 (Hq4 & c & m & l & l' & -> & Hl & Hl' & Hoff). wp_steps.
    split; [eapply quiet_trans; [exact Hq1|eapply quiet_trans; [exact Hq2|by eapply quiet_trans]]|]. exists c, m, (o :: l), (b :: l').
    split_and!; [done|by econstructor|by econstructor|].
    eapply off_branch_parents; try done; [by apply Hinv|]. eapply Forall_impl; [by eapply path_heights|]. cbn. intros x (k & ? & ?). exists k. split; [done|lia].
Qed.

(** ** Lookup entries *)
Definition lookup_at (v : option (list byte)) : Hash :=
  match v with Some data => if (length data =? HashLength)%nat then BytesToHash data else zero_hash | None => zero_hash end.
Lemma ReadTxLookupEntry_at db h : ReadTxLookupEntry db h = lookup_at (entry_at db (LookupEntry h)).
Proof. done. Qed.
Lemma lookup_at_bytes h : is_hash h → lookup_at (Some (Hash_Bytes h)) = h.
Proof. intros Hh. unfold lookup_at. rewrite Hash_Bytes_length. by apply BytesToHash_Bytes. Qed.
Definition hashes_of (b : Block) : list Hash := rlpHash_tx <$> block_transactions b.
Definition lookup_after (b : Block) (h v : Hash) : Hash := if decide (h ∈ hashes_of b) then block_hash b else v.

Lemma lookup_writes b db : is_hash (block_hash b) →
  let db' := batch_Write (WriteTxLookupEntries b) db in
  (∀ e, entry_ok e → (∀ h, e ≠ LookupEntry h) → entry_at db' e = entry_at db e) ∧
  ∀ h, is_hash h → ReadTxLookupEntry db' h = lookup_after b h (ReadTxLookupEntry db h).
Proof.
  intros Hb. set (ws := (λ tx, (LookupEntry (rlpHash_tx tx), Some (Hash_Bytes (block_hash b)))) <$> block_transactions b).
  assert (WriteTxLookupEntries b = puts ws) as -> by (unfold WriteTxLookupEntries, puts, ws; by rewrite <- list_fmap_compose).
  assert (Forall (λ p, entry_ok p.1) ws) as Hws by (apply Forall_fmap, Forall_forall; intros tx _; apply tx_hash_range).
  assert (ws.*1 = LookupEntry <$> hashes_of b) as Hk by (unfold ws, hashes_of; by rewrite <- !list_fmap_compose).
  split.
  - intros e He Hne. apply entry_at_other; [done..|]. rewrite Hk, list_elem_of_fmap. by intros (h & -> & _); apply (Hne h).
  - intros h Hh. rewrite !ReadTxLookupEntry_at, entry_at_puts by done. unfold lookup_after. case_decide as Hin.
    + unfold hashes_of in Hin. unfold ws. clear Hws Hk. generalize (entry_at db (LookupEntry h)) as v.
      induction (block_transactions b) as [|tx txs IH]; intros v; [by apply elem_of_nil in Hin|]. cbn.
      destruct (decide (h ∈ rlpHash_tx <$> txs)) as [Hin'|Hnin]; [by apply IH|].
      apply elem_of_cons in Hin as [->|?]; [|done]. rewrite decide_True by done.
      change (foldl _ ?v ?l) with (over l (LookupEntry (rlpHash_tx tx)) v). rewrite over_skip; [by apply lookup_at_bytes|].
      rewrite <- list_fmap_compose. intros (tx' & Heq & Htx')%list_elem_of_fmap. apply Hnin, list_elem_of_fmap. injection Heq as ->. by eexists.
    + f_equal. apply over_skip. rewrite Hk. intros (h' & [= <-] & Hh')%list_elem_of_fmap. done.
Qed.

(** Writes beside the blocks and the canonical numbers. *)
Definition moves bc bc' : Prop := chain_inv genesis bc' ∧ same_blocks (bc_db bc) (bc_db bc') ∧ rest bc' = rest bc.
Lemma quiet_moves bc bc' : quiet genesis bc bc' → moves bc bc'.
Proof. intros Hq. split_and!; [by eapply quiet_inv|by rewrite (quiet_db _ _ _ Hq)|by eapply quiet_rest]. Qed.
Lemma moves_trans bc bc' bc'' : moves bc bc' → moves bc' bc'' → moves bc bc''.
Proof. intros (_ & Hs & Hr) (Hi & Hs' & Hr'). split_and!; [done|by eapply same_blocks_trans|congruence]. Qed.
Lemma bc_write_ok bc ws : chain_inv genesis bc →
  (∀ e, entry_ok e → block_entry e ∨ (∃ n, e = CanonicalEntry n) → entry_at (batch_Write ws (bc_db bc)) e = entry_at (bc_db bc) e) →
  returns (bc_write ws) (λ _ bc', moves bc bc' ∧ bc_db bc' = batch_Write ws (bc_db bc) ∧ bc_currentBlock bc' = bc_currentBlock bc) bc.
Proof.
  intros [Hdb Hca] Hws. apply returns_run. eexists tt, _. split; [reflexivity|].
  assert (same_blocks (bc_db bc) (batch_Write ws (bc_db bc))) as Hs by (intros e He Hok; apply Hws; [done|by left]).
  split; [|done]. split_and!; [|done|done]. split.
  - eapply same_db_ok; [exact Hs| |done]. cbn. intros n Hn. rewrite (ReadCanonicalHash_at (batch_Write _ _)), Hws; [|done|right; by eexists].
    by apply (db_canonical _ _ Hdb).
  - by apply (caches_same bc).
Qed.

(** The transactions of [l] are looked up in [l]; the other lookups are those of [db]. *)
Record looked_up (db db' : Database) (l : list Block) : Prop := {
  lu_in h : h ∈ l ≫= hashes_of → ∃ b, b ∈ l ∧ h ∈ hashes_of b ∧ ReadTxLookupEntry db' h = block_hash b;
  lu_out h : is_hash h → h ∉ l ≫= hashes_of → ReadTxLookupEntry db' h = ReadTxLookupEntry db h
}.
Lemma looked_up_cons db db1 db' b l : (∀ h, is_hash h → ReadTxLookupEntry db1 h = lookup_after b h (ReadTxLookupEntry db h)) →
  looked_up db1 db' l → looked_up db db' (b :: l).
Proof.
  intros Hb [Hin Hout]. split.
  - intros h Hh. destruct (decide (h ∈ l ≫= hashes_of)) as [Hl|Hl].
    + destruct (Hin h Hl) as (b' & ? & ? & ?). exists b'. split_and!; [by right|done..].
    + cbn in Hh. apply elem_of_app in Hh as [Hh|?]; [|done]. exists b. split_and!; [by left|done|].
      assert (is_hash h) as Hok by (unfold hashes_of in Hh; apply list_elem_of_fmap in Hh as (tx & -> & _); apply tx_hash_range).
      rewrite Hout, Hb by done. unfold lookup_after. by rewrite decide_True.
  - intros h Hok Hh. cbn in Hh. apply not_elem_of_app in Hh as [Hb' Hl]. rewrite Hout, Hb by done. unfold lookup_after. by rewrite decide_False.
Qed.

Lemma insert_new_ok r bc nb nn c m : chain_inv genesis bc → path (bc_db bc) nb nn (reverse r) c m → canonical (bc_db bc) c m →
  returns (insert_new chainId r) (λ _ bc', moves bc bc' ∧ canonical (bc_db bc') nb nn ∧ looked_up (bc_db bc) (bc_db bc') r ∧
    bc_currentBlock bc' = if decide (r = []) then bc_currentBlock bc else Some nb) bc.
Proof.
  revert bc c m. induction r as [|x r IH]; intros bc c m Hinv Hpath Hcan; cbn [insert_new].
  - inversion Hpath; subst. apply wp_ret. split_and!; [by apply quiet_moves|done| |done]. split; [by intros h ?%elem_of_nil|done].
  - rewrite reverse_cons in Hpath. destruct (path_snoc _ _ _ _ _ _ _ Hpath) as (Hpath' & Hph & Hc). pose proof (path_end _ _ _ _ _ _ Hpath') as Hx.
    apply returns_bind. eapply returns_mono; [by apply insert_head_ok|]. intros [] bc1 (Hinv1 & Hcur1 & Hins & Hrest1).
    pose proof (inserted_blocks _ _ _ _ Hins) as Hs1. assert (canonical (bc_db bc1) x (m + 1)) as Hcan1.
    { eapply canonical_child; [apply Hinv1| |by eapply same_stored|done|by apply (in_canonical _ _ _ _ Hins)].
      eapply canonical_same; [exact Hs1| |done]. intros k Hk Hle. apply (inserted_canonical _ _ _ _ _ Hins); [done|lia]. }
    apply returns_bind.
    assert (returns (match r with [] => mret [] | _ => collectLogs chainId (block_hash x) end) (λ _ bc', quiet genesis bc1 bc') bc1) as Hlogs.
    { destruct r; [by wp_steps|]. apply collectLogs_ok; [done|apply Hx]. }
    eapply returns_mono; [exact Hlogs|]. intros logs bc2 Hq2. change (quiet genesis bc1 bc2) in Hq2. pose proof (quiet_db _ _ _ Hq2) as Hd2.
    destruct (lookup_writes x (bc_db bc2) (proj1 Hx)) as [Hother Hlook].
    apply returns_bind. eapply returns_mono; [apply bc_write_ok; [by eapply quiet_inv|]|].
    { intros e He Hkind. apply Hother; [done|]. intros h ->. destruct Hkind as [[]|(n & [=])]. }
    intros [] bc3 (Hm3 & Hd3 & Hcur3). assert (moves bc bc3) as Hm.
    { eapply moves_trans; [|exact Hm3]. split_and!; [by eapply quiet_inv|by rewrite Hd2|rewrite <- Hrest1; by eapply quiet_rest]. }
    rewrite <- Hd3 in Hother, Hlook.
    eapply returns_mono; [apply (IH bc3 x (m + 1)); [apply Hm|eapply path_same; [apply Hm|done]|]|cbn beta].
    { eapply canonical_same; [apply Hm3| |by rewrite Hd2]. intros k Hk _. rewrite !ReadCanonicalHash_at. f_equal. by apply Hother. }
    intros [] bc4 (Hm4 & Hcan4 & Hlu & Hcur4). split_and!; [by eapply moves_trans|done| |].
    + eapply looked_up_cons; [|exact Hlu]. intros h Hh. rewrite Hlook by done. f_equal. rewrite Hd2.
      rewrite !ReadTxLookupEntry_at. f_equal. apply (in_other _ _ _ _ Hins); [done|]. set_solver.
    + rewrite Hcur4. case_decide as Hr; [|done]. rewrite Hr in Hpath'. rewrite Hcur3, (quiet_current _ _ _ Hq2), Hcur1.
      change (reverse []) with (@nil Block) in Hpath'. by inversion Hpath'; subst.
Qed.

Lemma TxDifference_spec a b h : h ∈ rlpHash_tx <$> TxDifference a b ↔ h ∈ rlpHash_tx <$> a ∧ h ∉ rlpHash_tx <$> b.
Proof.
  unfold TxDifference. rewrite !(list_elem_of_fmap rlpHash_tx). setoid_rewrite list_elem_of_filter. setoid_rewrite elem_of_list_to_set. split.
  - intros (tx & -> & Hb & Ha). split; [by eexists|]. by rewrite list_elem_of_fmap in Hb.
  - intros [(tx & -> & Ha) Hb]. exists tx. split_and!; [done| |done]. by rewrite list_elem_of_fmap.
Qed.
Lemma lookup_deletes hs db : Forall is_hash hs →
  let db' := batch_Write (concat (DeleteTxLookupEntry <$> hs)) db in
  (∀ e, entry_ok e → (∀ h, e ≠ LookupEntry h) → entry_at db' e = entry_at db e) ∧
  ∀ h, is_hash h → ReadTxLookupEntry db' h = if decide (h ∈ hs) then zero_hash else ReadTxLookupEntry db h.
Proof.
  intros Hhs. set (ws := (λ h, (LookupEntry h, @None (list byte))) <$> hs).
  assert (concat (DeleteTxLookupEntry <$> hs) = puts ws) as -> by (unfold ws, puts; clear; induction hs as [|h hs IH]; [done|]; cbn; by rewrite IH).
  assert (Forall (λ p, entry_ok p.1) ws) as Hws by by apply Forall_fmap.
  assert (ws.*1 = LookupEntry <$> hs) as Hk by (unfold ws; by rewrite <- list_fmap_compose).
  split.
  - intros e He Hne. apply entry_at_other; [done..|]. rewrite Hk, list_elem_of_fmap. by intros (h & -> & _); apply (Hne h).
  - intros h Hh. rewrite !ReadTxLookupEntry_at, entry_at_puts by done. case_decide as Hin.
    + unfold ws. clear -Hin. generalize (entry_at db (LookupEntry h)) as v.
      induction hs as [|h' hs IH]; intros v; [by apply elem_of_nil in Hin|]. cbn. destruct (decide (h ∈ hs)) as [Hin'|Hnin]; [by apply IH|].
      apply elem_of_cons in Hin as [->|?]; [|done]. rewrite decide_True by done.
      change (foldl _ ?v ?l) with (over l (LookupEntry h') v). rewrite over_skip; [done|].
      rewrite <- list_fmap_compose. intros (h2 & Heq & Hh2)%list_elem_of_fmap. injection Heq as ->. done.
    + f_equal. apply over_skip. rewrite Hk. intros (h' & [= <-] & Hh')%list_elem_of_fmap. done.
Qed.
Lemma hashes_txs_of l : rlpHash_tx <$> txs_of l = l ≫= hashes_of.
Proof. unfold txs_of. induction l as [|b l IH]; [done|]. cbn. by rewrite fmap_app, IH. Qed.
Lemma bind_reverse (l : list Block) h : h ∈ reverse l ≫= hashes_of ↔ h ∈ l ≫= hashes_of.
Proof. rewrite !list_elem_of_bind. by setoid_rewrite elem_of_reverse. Qed.
Lemma bind_hash (l : list Block) h : h ∈ l ≫= hashes_of → is_hash h.
Proof. rewrite list_elem_of_bind. intros (b & Hh & _). unfold hashes_of in Hh. apply list_elem_of_fmap in Hh as (tx & -> & _). apply tx_hash_range. Qed.

(** What a reorganisation from [ob] to [nb] leaves: they part at [c]. *)
Record reorganised bc bc' (ob : Block) (on : Z) (nb : Block) (nn : Z) (oldChain newChain : list Block) (c : Block) (m : Z) : Prop := {
  ro_old : path (bc_db bc) ob on oldChain c m;
  ro_new : path (bc_db bc) nb nn newChain c m;
  ro_apart : off_branch (bc_db bc) oldChain nb nn;
  ro_inv : chain_inv genesis bc';
  ro_blocks : same_blocks (bc_db bc) (bc_db bc');
  ro_canonical : canonical (bc_db bc') nb nn;
  ro_current : bc_currentBlock bc' = if decide (newChain = []) then bc_currentBlock bc else Some nb;
  ro_posted : bc_posted bc' = bc_posted bc ++ (ChainSideEvent <$> oldChain);
  ro_tries : (bc_stateCache bc', bc_triegc bc', bc_gcproc bc') = (bc_stateCache bc, bc_triegc bc, bc_gcproc bc);
  ro_found h : h ∈ newChain ≫= hashes_of → ∃ b, b ∈ newChain ∧ h ∈ hashes_of b ∧ ReadTxLookupEntry (bc_db bc') h = block_hash b;
  ro_dropped h : h ∈ oldChain ≫= hashes_of → h ∉ newChain ≫= hashes_of → ReadTxLookupEntry (bc_db bc') h = zero_hash
}.

Lemma finish_reorg bc ob on nb nn oldChain newChain c m : chain_inv genesis bc → canonical (bc_db bc) ob on →
  path (bc_db bc) ob on oldChain c m → path (bc_db bc) nb nn newChain c m → off_branch (bc_db bc) oldChain nb nn →
  returns (insert_new chainId (reverse newChain);;
    bc_write (concat ((λ tx, DeleteTxLookupEntry (rlpHash_tx tx)) <$> TxDifference (txs_of oldChain) (txs_of (reverse newChain))));;
    modify (post (ChainSideEvent <$> oldChain))) (λ _ bc', reorganised bc bc' ob on nb nn oldChain newChain c m) bc.
Proof.
  intros Hinv Hcan Ho Hn Hoff. apply returns_bind. eapply returns_mono; [apply (insert_new_ok _ bc nb nn c m); [done|by rewrite reverse_involutive|by eapply canonical_path]|].
  cbn beta. intros [] bc1 (Hm1 & Hcan1 & Hlu & Hcur1).
  set (dels := rlpHash_tx <$> TxDifference (txs_of oldChain) (txs_of (reverse newChain))).
  assert (∀ h, h ∈ dels ↔ h ∈ oldChain ≫= hashes_of ∧ h ∉ newChain ≫= hashes_of) as Hdels.
  { intros h. unfold dels. rewrite TxDifference_spec, !hashes_txs_of, bind_reverse. done. }
  assert (((λ tx, DeleteTxLookupEntry (rlpHash_tx tx)) <$> TxDifference (txs_of oldChain) (txs_of (reverse newChain))) = DeleteTxLookupEntry <$> dels) as ->
    by (unfold dels; by rewrite <- list_fmap_compose).
  destruct (lookup_deletes dels (bc_db bc1)) as [Hother Hlook].
  { apply Forall_forall. intros h [Hh _]%Hdels. by eapply bind_hash. }
  apply returns_bind. eapply returns_mono; [apply bc_write_ok; [apply Hm1|]|].
  { intros e He Hkind. apply Hother; [done|]. intros h ->. destruct Hkind as [[]|(k & [=])]. }
  cbn beta. intros [] bc2 (Hm2 & Hd2 & Hcur2). rewrite <- Hd2 in Hother, Hlook. apply wp_modify.
  pose proof (moves_trans _ _ _ Hm1 Hm2) as (Hinv2 & Hs2 & Hrest2). unfold rest in Hrest2. injection Hrest2 as Hg Ht1 Ht2 Ht3 Hf Hb Hp. split; try done.
  - destruct Hinv2 as [Hdb2 Hca2]. split; [exact Hdb2|]. by apply (caches_same bc2).
  - change (canonical (bc_db bc2) nb nn). eapply canonical_same; [apply Hm2| |exact Hcan1]. intros k Hk _. rewrite !ReadCanonicalHash_at. f_equal. apply Hother; [done|by intros h].
  - cbn. rewrite Hcur2, Hcur1. destruct (decide (newChain = [])) as [->|Hne]; [by rewrite decide_True|]. rewrite decide_False; [done|].
    intros Heq%(f_equal reverse). rewrite reverse_involutive in Heq. done.
  - cbn. by rewrite Hp.
  - cbn. congruence.
  - intros h Hh. pose proof (bind_hash _ _ Hh) as Hok. destruct (lu_in _ _ _ Hlu h) as (b & Hb' & Hbh & Hl); [by apply bind_reverse|].
    exists b. split_and!; [by apply elem_of_reverse|done|]. change (bc_db (post _ bc2)) with (bc_db bc2). rewrite Hlook by done.
    rewrite decide_False; [done|]. rewrite Hdels. tauto.
  - intros h Hold Hnew. change (bc_db (post _ bc2)) with (bc_db bc2). rewrite Hlook by by eapply bind_hash. by rewrite decide_True by by apply Hdels.
Qed.

Lemma reorg_ok bc ob on nb nn : chain_inv genesis bc → stored (bc_db bc) ob on → stored (bc_db bc) nb nn → canonical (bc_db bc) ob on →
  returns (reorg chainId ob nb) (λ _ bc', ∃ oldChain newChain c m, reorganised bc bc' ob on nb nn oldChain newChain c m) bc.
Proof.
  intros Hinv Ho Hn Hcan. pose proof (proj1 (proj2 Ho)) as [Hon0 _]. pose proof (proj1 (proj2 Hn)) as [Hnn0 _].
  unfold reorg. eapply (returns_number_of genesis); [done..|]. eapply (returns_number_of genesis); [done..|].
  set (low := Z.min on nn).
  apply returns_bind. eapply returns_mono with (Q := λ r bc', quiet genesis bc bc' ∧ ∃ o b l l', r = (Some o, Some b, l, l') ∧
    path (bc_db bc) ob on l o low ∧ path (bc_db bc) nb nn l' b low ∧ off_branch (bc_db bc) l nb nn).
  { destruct (nn <? on) eqn:Hlt; [apply Z.ltb_lt in Hlt|apply Z.ltb_ge in Hlt]; apply returns_bind.
    - eapply returns_mono; [apply (descend_stops _ bc ob on nn); [|done|done|lia|lia]|].
      { intros bc' b n Hi Hb. apply collectLogs_ok; [done|apply Hb]. }
      intros r bc' (Hq & a & l & -> & Hp). wp_steps. split; [done|]. assert (low = nn) as -> by (unfold low; lia).
      exists a, nb, l, []. split_and!; [done..|by constructor|]. intros x k l' Hx Hpath. pose proof (path_heights _ _ _ _ _ _ Hp) as Hh.
      rewrite Forall_forall in Hh. destruct (Hh x Hx) as (k' & Hk' & Hgt). destruct (stored_same _ _ x x _ _ (ci_db _ _ Hinv) Hk' (path_end _ _ _ _ _ _ Hpath) eq_refl) as [_ ->].
      pose proof (path_height _ _ _ _ _ _ Hpath). lia.
    - eapply returns_mono; [apply (descend_stops _ bc nb nn on); [|done|done|lia|lia]|]; [by intros; wp_steps|].
      intros r bc' (Hq & a & l & -> & Hp). wp_steps. split; [done|]. assert (low = on) as -> by (unfold low; lia).
      exists ob, a, [], l. split_and!; [done|by constructor|done|]. by intros x k l' ?%elem_of_nil. }
  cbn beta. intros r bc1 (Hq1 & o & b & l & l' & -> & Hl & Hl' & Hoff). pose proof (quiet_db _ _ _ Hq1) as Hd1. cbn beta iota.
  pose proof (path_end _ _ _ _ _ _ Hl) as Hos. pose proof (path_end _ _ _ _ _ _ Hl') as Hbs.
  eapply (returns_number_of genesis); [by eapply quiet_inv|by rewrite Hd1|].
  apply returns_bind. eapply returns_mono; [apply (to_common_ok bc1 o b low); [by eapply quiet_inv|by rewrite Hd1|by rewrite Hd1|]|].
  { destruct Hos as (_ & [? _] & _). lia. }
  cbn beta. intros r bc2 (Hq2 & c & m & t & t' & -> & Ht & Ht' & Hofft). cbn beta iota. rewrite Hd1 in Ht, Ht', Hofft.
  pose proof (quiet_trans _ _ _ _ Hq1 Hq2) as Hq. pose proof (quiet_db _ _ _ Hq) as Hd.
  eapply returns_mono; [apply (finish_reorg bc2 ob on nb nn (l ++ t) (l' ++ t') c m); rewrite ?Hd|].
  - by eapply quiet_inv.
  - done.
  - by eapply path_app.
  - by eapply path_app.
  - intros x k lx [Hx|Hx]%elem_of_app Hpath; [by eapply Hoff|]. pose proof (path_heights _ _ _ _ _ _ Ht) as Hh.
    rewrite Forall_forall in Hh. destruct (Hh x Hx) as (k' & Hk' & Hgt). destruct (stored_same _ _ x x _ _ (ci_db _ _ Hinv) Hk' (path_end _ _ _ _ _ _ Hpath) eq_refl) as [_ ->].
    destruct (path_through _ _ _ _ _ _ _ _ _ (ci_db _ _ Hinv) Hl' Hpath) as [lx' Hpath']; [lia|]. by eapply Hofft.
  - intros _ bc3 [R1 R2 R3 R4 R5 R6 R7 R8 R9 R10 R11]. exists (l ++ t), (l' ++ t'), c, m. rewrite Hd in R1, R2, R3, R5.
    split; try done.
    + by rewrite R7, (quiet_current _ _ _ Hq).
    + by rewrite R8, (quiet_posted _ _ _ Hq).
    + rewrite R9. pose proof (quiet_rest _ _ _ Hq) as Hr. unfold rest in Hr. congruence.
Qed.

(** C6: a reorganisation always ends, at the highest block both branches share:
    every block of the old branch above it, and no other, is announced as a side
    block; the canonical numbers then name the ancestors of the new head down to
    the genesis block; every transaction of the new branch is looked up in a
    block of that branch that holds it, and those only the old branch held are
    looked up no more. *)
Theorem reorg_switches_branch bc ob on nb nn : chain_inv genesis bc → stored (bc_db bc) ob on → stored (bc_db bc) nb nn → canonical (bc_db bc) ob on →
  returns (reorg chainId ob nb) (λ _ bc', ∃ oldChain newChain c m,
    path (bc_db bc) ob on oldChain c m ∧ path (bc_db bc) nb nn newChain c m ∧
    (∀ x k l, x ∈ oldChain → ¬ path (bc_db bc) nb nn l x k) ∧
    bc_posted bc' = bc_posted bc ++ (ChainSideEvent <$> oldChain) ∧
    (∀ l a k, path (bc_db bc') nb nn l a k → ReadCanonicalHash (bc_db bc') k = block_hash a) ∧
    (newChain ≠ [] → bc_currentBlock bc' = Some nb) ∧
    (∀ b tx, b ∈ newChain → tx ∈ block_transactions b → ∃ b', b' ∈ newChain ∧ rlpHash_tx tx ∈ rlpHash_tx <$> block_transactions b' ∧
       ReadTxLookupEntry (bc_db bc') (rlpHash_tx tx) = block_hash b') ∧
    (∀ b tx, b ∈ oldChain → tx ∈ block_transactions b → (∀ b', b' ∈ newChain → rlpHash_tx tx ∉ rlpHash_tx <$> block_transactions b') →
       ReadTxLookupEntry (bc_db bc') (rlpHash_tx tx) = zero_hash)) bc.
Proof.
  intros Hinv Ho Hn Hcan. eapply returns_mono; [by apply reorg_ok|]. cbn beta. intros _ bc' (l1 & l2 & c & m & [R1 R2 R3 R4 R5 R6 R7 R8 R9 R10 R11]).
  exists l1, l2, c, m. split_and!; [exact R1|exact R2|intros x k l; apply R3|exact R8|exact R6| | |].
  - intros Hne. by rewrite R7, decide_False.
  - intros b tx Hb Htx. apply R10, list_elem_of_bind. exists b. split; [|done]. unfold hashes_of. by apply list_elem_of_fmap_2.
  - intros b tx Hb Htx Hno. apply R11.
    + apply list_elem_of_bind. exists b. split; [|done]. unfold hashes_of. by apply list_elem_of_fmap_2.
    + rewrite list_elem_of_bind. intros (b' & Hh & Hb'). by apply (Hno b' Hb').
Qed.
End walking.
