(* ===== verification/ChainWrite.v ===== *)
(** Writing a block: the fork choice, and the canonical chain it leaves. *)
From S2P Require Import Prelude Types Sealing Blocks Transition TxSigning Processor.
From S2P Require Import Heap TxPool Memorydb RawDB RawDBSpec HeaderChain Hoare BlockChain BlockWrite ChainLookup ChainReorg.

(** Preimages are kept under hashes. *)
Class ChainStateLaws (D S : Type) `{ChainState D S} :=
  cs_preimage_hash (s : S) h v : cs_Preimages (D := D) s !! h = Some v → is_hash h.

Section writing.
Context {C : Type → Type} {D S : Type} `{LRU C} `{!LRULaws C} `{!ChainState D S} `{!ChainStateLaws D S} `{Crypto} `{TxCrypto} `{!SignatureBounds} `{!TxHashRange}.
Context `{!Rlp Header} `{!Rlp Body} `{!Rlp Z} `{!Rlp (list storedReceiptRLP)} `{ContractAddresses}.
Context `{!RlpLaws Header storable_header} `{!RlpLaws Body storable_body} `{!RlpLaws Z (λ x, 0 ≤ x)} `{!RlpLaws (list storedReceiptRLP) (λ _, True)}.
Context (genesis : Hash) (chainId : option Z) (cacheConfig : CacheConfig) (shouldPreserve : option (Block → bool)).
Implicit Types bc : BlockChain C D.

(** * Around the database: the tries *)
Definition beside bc bc' : Prop :=
  chain_inv genesis bc' ∧ bc_db bc' = bc_db bc ∧ bc_currentBlock bc' = bc_currentBlock bc ∧ bc_posted bc' = bc_posted bc.
Lemma beside_refl bc : chain_inv genesis bc → beside bc bc.
Proof. done. Qed.
Lemma beside_trans bc bc' bc'' : beside bc bc' → beside bc' bc'' → beside bc bc''.
Proof. intros (_ & ? & ? & ?) (? & ? & ? & ?). split_and!; [done|congruence..]. Qed.
Lemma quiet_beside bc bc' : quiet genesis bc bc' → beside bc bc'.
Proof. intros Hq. split_and!; [by eapply quiet_inv|by eapply quiet_db|by eapply quiet_current|by eapply quiet_posted]. Qed.
Lemma set_tries_beside d gc proc bc : chain_inv genesis bc → beside bc (set_tries d gc proc bc).
Proof. intros [Hdb Hca]. split_and!; try done. split; [exact Hdb|]. by apply (caches_same bc). Qed.

Lemma Pop_total {A} (less : A → A → bool) l : l ≠ [] → ∃ x l', Pop (E := chain_error) less l = Ok (x, l') ∧ length l = Datatypes.S (length l').
Proof.
  destruct l as [|x l]; [done|]. intros _. destruct (Pop_perm (E := chain_error) less (x :: l) x eq_refl) as (l' & Hpop & Hp).
  exists x, l'. split; [done|]. apply (Permutation_length Hp).
Qed.
Lemma release_tries_ok bc fuel chosen : chain_inv genesis bc → (length (bc_triegc bc) ≤ fuel)%nat →
  returns (release_tries (S := S) fuel chosen) (λ _ bc', beside bc bc') bc.
Proof.
  revert bc. induction fuel as [|fuel IH]; intros bc Hinv Hlen; cbn [release_tries]; wp_steps; unfold prque_Empty;
    (case_bool_decide as Hgc; [by wp_steps|]).
  { destruct (bc_triegc bc); [done|cbn in Hlen; lia]. }
  destruct (Pop_total prque_Less (bc_triegc bc) Hgc) as ([root number] & gc & Hpop & Hl). unfold prque_Pop. rewrite Hpop. wp_steps.
  destruct (_ <? _).
  - apply returns_run. eexists tt, _. split; [reflexivity|]. by apply set_tries_beside.
  - apply returns_put_state. eapply returns_mono; [apply IH; [by apply set_tries_beside|cbn; lia]|].
    intros [] bc' Hb. eapply beside_trans; [by apply set_tries_beside|exact Hb].
Qed.
Lemma on_triedb_ok bc f : chain_inv genesis bc → returns (on_triedb (C := C) f) (λ _ bc', beside bc bc') bc.
Proof. intros Hinv. apply wp_modify. by apply set_tries_beside. Qed.
Lemma keep_trie_ok bc root n : chain_inv genesis bc → is_u64 n → returns (keep_trie (S := S) cacheConfig root n) (λ _ bc', beside bc bc') bc.
Proof.
  intros Hinv Hn. unfold keep_trie. apply returns_bind. eapply returns_mono; [by apply on_triedb_ok|]. cbn beta. intros _ bc1 Hb1.
  apply returns_bind, wp_modify. pose proof (set_tries_beside (bc_stateCache bc1) (prque_Push root (- int64 n) (bc_triegc bc1)) (bc_gcproc bc1) bc1 (proj1 Hb1)) as Hb2.
  pose proof (beside_trans _ _ _ Hb1 Hb2) as Hb. clear Hb1 Hb2. revert Hb. generalize (set_tries (bc_stateCache bc1) (prque_Push root (- int64 n) (bc_triegc bc1)) (bc_gcproc bc1) bc1) as bc2.
  intros bc2 Hb. destruct (negb _); [by wp_steps|]. wp_steps. destruct (td_Size _) as [nodes imgs].
  apply returns_bind. eapply returns_mono with (Q := λ _ bc', beside bc2 bc').
  { destruct (_ || _); [apply on_triedb_ok|wp_steps; apply beside_refl]; apply Hb. }
  cbn beta. intros _ bc3 Hb3. wp_steps. eapply returns_mono with (Q := λ _ bc', beside bc3 bc').
  { destruct (_ <? _); [|wp_steps; apply beside_refl, Hb3]. apply returns_bind. eapply returns_mono; [apply GetHeaderByNumber_ok; [apply Hb3|apply u64_sub_range]|].
    cbn beta. intros r bc4 [_ Hq4%quiet_beside]. destruct r as [hd|]; [|by wp_steps]. apply returns_bind. eapply returns_mono; [apply on_triedb_ok, Hq4|].
    cbn beta. intros _ bc5 Hb5. apply wp_modify. eapply beside_trans; [exact Hq4|]. eapply beside_trans; [exact Hb5|]. apply set_tries_beside, Hb5. }
  cbn beta. intros _ bc4 Hb4. wp_steps. eapply returns_mono; [apply release_tries_ok; [apply Hb4|done]|].
  cbn beta. intros _ bc5 Hb5. eapply beside_trans; [exact Hb|]. eapply beside_trans; [exact Hb3|]. by eapply beside_trans.
Qed.

(** * The block itself *)
Lemma WriteBlock_written db b n td ws : storable_block b n → 0 ≤ td → WriteBlock (E := chain_error) b = Ok ws →
  ∃ tdw, raw_WriteTd (E := chain_error) (block_hash b) n td = Ok tdw ∧ written db (batch_Write ws (batch_Write tdw db)) b n td.
Proof.
  intros Hb Htd Hws. destruct (WriteTd_ok (E := chain_error) (block_hash b) n td Htd) as (data & Hw & Hdec). eexists. split; [exact Hw|].
  destruct (WriteBlock_entries b n ws (batch_Write (puts [(TdEntry n (block_hash b), Some data)]) db) Hb Hws) as (Hhd & Hbd & Hnum & Hother).
  pose proof (sk_range _ _ Hb) as Hn. pose proof (sk_hash _ _ Hb) as Hh.
  assert (Forall (λ p, entry_ok p.1) [(TdEntry n (block_hash b), Some data)]) as Hps by (apply Forall_singleton; by split).
  split.
  - rewrite ReadTd_at, Hother; [|by split|unfold block_entries; set_solver]. rewrite entry_at_puts by (done || by split).
    unfold over. cbn. by rewrite decide_True.
  - exact Hhd.
  - unfold block_hash in *. rewrite ReadBlock_at, Hhd, Hbd. f_equal. by eapply WithBody_storable.
  - exact Hnum.
  - intros e He Hne. unfold new_entries in Hne. apply not_elem_of_cons in Hne as [Hne1 Hne2]. rewrite Hother by done. apply entry_at_other; [done..|]. cbn. set_solver.
Qed.

(** * The head and its chain *)
Record chain_ok bc (ob : Block) (on : Z) : Prop := {
  co_inv : chain_inv genesis bc;
  co_current : bc_currentBlock bc = Some ob;
  co_stored : stored (bc_db bc) ob on;
  co_canonical : canonical (bc_db bc) ob on
}.
Lemma beside_ok bc bc' ob on : beside bc bc' → chain_ok bc ob on → chain_ok bc' ob on.
Proof. intros (Hinv & Hd & Hc & _) [_ Hcur Hst Hcan]. split; [done|congruence|by rewrite Hd|by rewrite Hd]. Qed.
Lemma inserted_keeps db db' b n : inserted db db' b n → canonical db b n → canonical db' b n.
Proof.
  intros Hi Hc l a m Hp. pose proof (inserted_blocks _ _ _ _ Hi) as Hs. assert (same_blocks db' db) as Hs' by (intros e He Hok; by rewrite Hs).
  destruct (decide (m = n)) as [->|Hne].
  - pose proof (path_height _ _ _ _ _ _ Hp) as Hlen. destruct l as [|x l]; [|cbn in Hlen; lia]. inversion Hp; subst. apply (in_canonical _ _ _ _ Hi).
  - rewrite (inserted_canonical _ _ _ _ _ Hi); [|apply (path_end _ _ _ _ _ _ Hp)|done]. eapply Hc. by eapply path_same.
Qed.

Section one_block.
Context (b p : Block) (n d ptd : Z).
(** A block that may be written on the chain: its parent is there. *)
Record writable bc : Prop := {
  wb_storable : storable_block b n;
  wb_pos : 0 < n;
  wb_agrees : agrees (bc_db bc) b n;
  wb_parent : stored (bc_db bc) p (n - 1);
  wb_hash : block_hash p = ParentHash (block_header b);
  wb_ptd : ReadTd (bc_db bc) (block_hash p) (n - 1) = Some ptd;
  wb_difficulty : Difficulty (block_header b) = Some d
}.
Lemma writable_db bc bc' : bc_db bc' = bc_db bc → writable bc → writable bc'.
Proof. intros Hd [? ? ? ? ? ? ?]. by split; rewrite ?Hd. Qed.
Lemma store_block_ok bc : chain_inv genesis bc → writable bc →
  ∃ bc1 ws bc2, on_hc (WriteTd (block_hash b) n (d + ptd)) bc = (Ok tt, bc1) ∧ WriteBlock (E := chain_error) b = Ok ws ∧ bc_write ws bc1 = (Ok tt, bc2) ∧
    chain_inv genesis bc2 ∧ written (bc_db bc) (bc_db bc2) b n (d + ptd) ∧ rest bc2 = rest bc ∧ bc_currentBlock bc2 = bc_currentBlock bc.
Proof.
  intros Hinv [Hb Hpos Hag Hp Hph Hptd Hd]. pose proof Hinv as [Hdb Hca].
  assert (0 ≤ d + ptd) as Htd by by eapply written_td_nonneg.
  destruct (WriteBlock_ok (E := chain_error) b n Hb) as (bd & hd & Hws & _).
  destruct (WriteBlock_written (bc_db bc) b n (d + ptd) _ Hb Htd Hws) as (tdw & Htdw & Hw).
  set (hc' := hc_set_db (batch_Write tdw (bc_db bc)) (bc_hc bc)).
  exists (set_hc (hc_set_caches (hc_headerCache hc') (lru_Add (block_hash b) (d + ptd) (hc_tdCache hc')) (hc_numberCache hc') hc') bc).
  eexists _, _. split_and!; [|exact Hws|reflexivity| |exact Hw|done|done].
  { unfold on_hc, WriteTd. rewrite (gom_bind_run _ _ _ tdw (bc_hc bc)); [|unfold lift; by rewrite Htdw]. reflexivity. }
  assert (db_ok genesis (batch_Write (puts [(BodyEntry n (Header_Hash (block_header b)), Some bd); (NumberEntry (Header_Hash (block_header b)), Some (encodeBlockNumber n));
     (HeaderEntry n (Header_Hash (block_header b)), Some hd)]) (batch_Write tdw (bc_db bc)))) as Hdb' by by eapply written_db_ok.
  split; [exact Hdb'|]. set (db' := batch_Write _ (batch_Write tdw (bc_db bc))) in *. pose proof (sk_hash _ _ Hb) as Hbh. pose proof (sk_range _ _ Hb) as Hn.
  assert (∀ h k, is_hash h → ReadHeaderNumber (bc_db bc) h = Some k → ReadHeaderNumber db' h = Some k) as Hnum.
  { intros h k Hh Hk. destruct (decide (h = block_hash b)) as [->|Hne].
    - assert (k = n) as -> by by eapply ag_number. by eapply wr_number.
    - rewrite <- Hk, !ReadHeaderNumber_at. f_equal. apply (wr_other _ _ _ _ _ Hw); [done|]. unfold new_entries, block_entries; fold (block_hash b). set_solver. }
  assert (∀ h k hd', is_hash h → is_u64 k → ReadHeader (bc_db bc) h k = Some hd' → ReadHeaderNumber (bc_db bc) h = Some k → ReadHeader db' h k = Some hd') as Hhdr.
  { intros h k hd' Hh Hk Hr Hnk. destruct (decide (h = block_hash b)) as [->|Hne].
    - assert (k = n) as -> by by eapply ag_number. rewrite (ag_header _ _ _ Hag _ Hr). by eapply wr_header.
    - rewrite <- Hr, !ReadHeader_at. f_equal. apply (wr_other _ _ _ _ _ Hw); [by split|]. unfold new_entries, block_entries; fold (block_hash b). set_solver. }
  assert (∀ h k b', is_hash h → is_u64 k → ReadBlock (bc_db bc) h k = Some b' → ReadBlock db' h k = Some b') as Hblk by (intros h k b2 Hh Hk Hr; by eapply (written_block genesis (bc_db bc) db' b p n d ptd)).
  destruct Hca as [C1 C2 C3 C4 C5]. match goal with |- caches_ok ?bc2 => assert (bc_db bc2 = db') as Hd2 by done end.
  split; rewrite Hd2; cbn [bc_hc set_hc hc_set_db hc_set_caches hc_headerCache hc_tdCache hc_numberCache bc_blockCache bc_bodyCache].
  - intros h hd' (Hh & k & Hk & Hnk & Hr)%C1. split; [done|]. exists k. split_and!; [done|by apply Hnum|by apply Hhdr].
  - intros h td [[-> ->]|[Hne (Hh & k & Hk & Hnk & Hr)%C2]]%peek_add.
    + split; [done|]. exists n. split_and!; [done|by eapply wr_number|by eapply wr_td].
    + split; [done|]. exists k. split_and!; [done|by apply Hnum|]. rewrite <- Hr, !ReadTd_at. f_equal.
      apply (wr_other _ _ _ _ _ Hw); [by split|]. unfold new_entries, block_entries; fold (block_hash b). set_solver.
  - intros h k (Hh & Hk & Hnk)%C3. split_and!; [done..|by apply Hnum].
  - intros h b' (Hh & k & Hk & Hnk & Hr)%C4. split; [done|]. exists k. split_and!; [done|by apply Hnum|by apply Hblk].
  - intros h body (Hh & k & b' & Hk & Hnk & Hr & Hm)%C5. split; [done|]. exists k, b'. split_and!; [done|by apply Hnum|by apply Hblk|done].
Qed.
Lemma written_path bc bc2 ob on l a m : chain_inv genesis bc → chain_inv genesis bc2 → writable bc → written (bc_db bc) (bc_db bc2) b n (d + ptd) →
  path (bc_db bc2) ob on l a m → stored (bc_db bc) ob on → path (bc_db bc) ob on l a m.
Proof.
  intros [Hdb _] [Hdb2 _] [Hb Hpos Hag Hp Hph Hptd Hd] Hw. induction 1 as [ob on Ho|ob on q l a m Ho Hpos' Hqh Hq IH]; intros Hold; [by constructor|].
  destruct (stored_parent _ _ _ _ Hdb Hold Hpos') as (q' & _ & Hq' & Hqh'). assert (stored (bc_db bc2) q' (on - 1)) as Hq2 by by eapply (written_stored genesis (bc_db bc) (bc_db bc2) b p n d ptd).
  destruct (stored_same _ _ q q' _ _ Hdb2 (path_start _ _ _ _ _ _ Hq) Hq2) as [-> _]; [congruence|]. econstructor; try done. by apply IH.
Qed.
Lemma written_chain_ok bc bc2 ob on : chain_ok bc ob on → chain_inv genesis bc2 → writable bc → written (bc_db bc) (bc_db bc2) b n (d + ptd) →
  bc_currentBlock bc2 = bc_currentBlock bc → chain_ok bc2 ob on.
Proof.
  intros [Hinv Hcur Hst Hcan] Hinv2 Hwr Hw Hc2. pose proof Hinv as [Hdb _]. split; [done|congruence| |].
  - destruct Hwr. by eapply (written_stored genesis (bc_db bc) (bc_db bc2) b p n d ptd).
  - intros l a m Hp. rewrite ReadCanonicalHash_at, (wr_other _ _ _ _ _ Hw); [|apply (path_end _ _ _ _ _ _ Hp)|unfold new_entries, block_entries; set_solver].
    rewrite <- ReadCanonicalHash_at. eapply Hcan. by eapply written_path.
Qed.
Lemma written_keeps bc bc2 b' k t : chain_inv genesis bc → writable bc → written (bc_db bc) (bc_db bc2) b n (d + ptd) →
  stored (bc_db bc) b' k → ReadTd (bc_db bc) (block_hash b') k = Some t → stored (bc_db bc2) b' k ∧ ReadTd (bc_db bc2) (block_hash b') k = Some t.
Proof.
  intros [Hdb _] [Hb Hpos Hag Hp Hph Hptd Hd] Hw Hb' Ht. split.
  - by eapply (written_stored genesis (bc_db bc) (bc_db bc2) b p n d ptd).
  - destruct Hb' as (Hh & Hk & Hr). by eapply (written_td genesis (bc_db bc) (bc_db bc2) b p n d ptd).
Qed.
End one_block.

(** * The fork choice

    A higher difficulty wins; at the same difficulty the lower block, then a
    block to preserve over one that is not, then the draw. *)
Definition preserved (b : Block) : bool := match shouldPreserve with Some f => f b | None => false end.
Definition prefers (coin : bool) (td ltd : Z) (b ob : Block) (n on : Z) : bool :=
  (ltd <? td) || ((td =? ltd) && ((n <? on) || ((n =? on) && negb (preserved ob) && (preserved b || coin)))).
Lemma choose_ok bc coin td ltd b ob n on : chain_inv genesis bc → stored (bc_db bc) b n → stored (bc_db bc) ob on →
  returns (choose shouldPreserve coin td ltd ob b) (λ r bc', r = prefers coin td ltd b ob n on ∧ bc' = bc) bc.
Proof.
  intros Hinv Hb Ho. unfold choose, prefers, preserved. destruct (ltd <? td); [by wp_steps|]. destruct (td =? ltd); [|by wp_steps]. cbn [negb andb orb].
  eapply (returns_number_of genesis); [done..|]. eapply (returns_number_of genesis); [done..|].
  destruct (n <? on); [by wp_steps|]. destruct (n =? on); [|by wp_steps]. cbn [negb andb orb]. by destruct shouldPreserve; wp_steps.
Qed.

(** Receipts, lookups and preimages lie beside the blocks. *)
Definition beside_entry (e : entry) : Prop := match e with ReceiptsEntry _ _ | LookupEntry _ | PreimageEntry _ => True | _ => False end.
Lemma side_writes ps db : Forall (λ p, entry_ok p.1 ∧ beside_entry p.1) ps →
  ∀ e, entry_ok e → block_entry e ∨ (∃ n, e = CanonicalEntry n) → entry_at (batch_Write (puts ps) db) e = entry_at db e.
Proof.
  intros Hps e He Hkind. apply entry_at_other; [by eapply Forall_impl; [exact Hps|intros ? []]|done|].
  intros (q & -> & Hq)%list_elem_of_fmap. rewrite Forall_forall in Hps. destruct (Hps q Hq) as [_ Hb]. destruct q as [e w]. cbn in *.
  destruct Hkind as [Hk|[k ->]]; [|done]. by destruct e.
Qed.
Lemma side_write_ok bc ws ps ob on : chain_ok bc ob on → ws = puts ps → Forall (λ p, entry_ok p.1 ∧ beside_entry p.1) ps →
  returns (bc_write ws) (λ _ bc', chain_ok bc' ob on ∧ same_blocks (bc_db bc) (bc_db bc') ∧ bc_db bc' = batch_Write ws (bc_db bc)) bc.
Proof.
  intros [Hinv Hcur Hst Hcan] -> Hps. eapply returns_mono; [apply bc_write_ok; [done|by apply side_writes]|].
  cbn beta. intros _ bc' ((Hinv' & Hs & _) & Hd & Hcur').
  assert (∀ b n, canonical (bc_db bc) b n → canonical (bc_db bc') b n) as Hkeep.
  { intros b n. apply canonical_same; [done|]. intros m Hm _. rewrite !ReadCanonicalHash_at, Hd. f_equal. apply side_writes; [done|done|right; by eexists]. }
  split; [|split; [done|exact Hd]]. split; [done|congruence|by eapply same_stored|by apply Hkeep].
Qed.
Definition receipts_writes (b : Block) (n : Z) (data : list byte) : list (entry * option (list byte)) := [(ReceiptsEntry n (block_hash b), Some data)].
Definition lookups_writes (b : Block) : list (entry * option (list byte)) :=
  (λ tx, (LookupEntry (rlpHash_tx tx), Some (Hash_Bytes (block_hash b)))) <$> block_transactions b.
Definition preimages_writes (s : S) : list (entry * option (list byte)) := (λ p, (PreimageEntry p.1, Some p.2)) <$> map_to_list (cs_Preimages (D := D) s).
Lemma batch_writes b n data s : is_hash (block_hash b) → is_u64 n →
  Forall (λ p, entry_ok p.1 ∧ beside_entry p.1) (receipts_writes b n data ++ lookups_writes b ++ preimages_writes s).
Proof.
  intros Hh Hn. apply Forall_app. split; [by apply Forall_singleton|]. apply Forall_app. split; apply Forall_fmap, Forall_forall.
  - intros tx _. split; [apply tx_hash_range|done].
  - intros [h v] Hin. apply elem_of_map_to_list in Hin. split; [|done]. by eapply cs_preimage_hash.
Qed.
(** The receipts are what was written last under their entry. *)
Definition receipts_kept (db : Database) (b : Block) (n : Z) (receipts : list Receipt) : Prop :=
  rlp_at (entry_at db (ReceiptsEntry n (block_hash b))) = Some (store_receipt <$> receipts).
Definition no_receipts (p : entry * option (list byte)) : Prop := ∀ n h, p.1 ≠ ReceiptsEntry n h.
Lemma receipts_written b n data ps db : is_hash (block_hash b) → is_u64 n → Forall (λ p, entry_ok p.1) ps → Forall no_receipts ps →
  entry_at (batch_Write (puts (receipts_writes b n data ++ ps)) db) (ReceiptsEntry n (block_hash b)) = Some data.
Proof.
  intros Hh Hn Hps Hno. rewrite entry_at_puts; [|apply Forall_app; split; [by apply Forall_singleton|done]|done].
  cbn [receipts_writes app over foldl fst snd]. rewrite decide_True by done. apply over_skip.
  intros (p & Hp & Hin)%list_elem_of_fmap. rewrite Forall_forall in Hno. by eapply Hno.
Qed.
Lemma batch_no_receipts b s : Forall no_receipts (lookups_writes b ++ preimages_writes s).
Proof. apply Forall_app. split; apply Forall_fmap, Forall_forall; by intros. Qed.
Lemma puts_app ps qs : puts (ps ++ qs) = puts ps ++ puts qs.
Proof. apply fmap_app. Qed.

(** The head moves to [b], whose parent is stored. *)
Lemma take_head bc ob on b p n ps : chain_ok bc ob on → stored (bc_db bc) b n → 0 < n → stored (bc_db bc) p (n - 1) → block_hash p = ParentHash (block_header b) →
  Forall (λ p, entry_ok p.1 ∧ beside_entry p.1) ps →
  returns ((if ParentHash (block_header b) =? block_hash ob then mret tt else reorg chainId ob b);; bc_write (puts ps);; insert b)
    (λ _ bc', chain_ok bc' b n ∧ same_blocks (bc_db bc) (bc_db bc') ∧
       ∃ db, ∀ e, entry_ok e → e ∉ [CanonicalEntry n; HeadBlock; HeadHeader; HeadFast] → entry_at (bc_db bc') e = entry_at (batch_Write (puts ps) db) e) bc.
Proof.
  intros Hok Hb Hpos Hp Hph Hps. pose proof Hok as [Hinv Hcur Ho Hcan]. apply returns_bind.
  eapply returns_mono with (Q := λ _ bc', chain_inv genesis bc' ∧ same_blocks (bc_db bc) (bc_db bc') ∧ canonical (bc_db bc') p (n - 1)).
  { destruct (_ =? _) eqn:Heq.
    - apply Z.eqb_eq in Heq. destruct (stored_same _ _ p ob _ _ (ci_db _ _ Hinv) Hp Ho) as [-> <-]; [congruence|]. by wp_steps.
    - eapply returns_mono; [by apply reorg_ok|]. cbn beta. intros _ bc1 (l1 & l2 & c & m & Hro). split_and!; [apply Hro|apply Hro|].
      eapply canonical_parent; [apply Hro|eapply same_stored; [apply Hro|exact Hb]|done|done]. }
  cbn beta. intros _ bc1 (Hinv1 & Hs1 & Hcan1). apply returns_bind. eapply returns_mono; [apply bc_write_ok; [done|by apply side_writes]|].
  cbn beta. intros _ bc2 ((Hinv2 & Hs2 & _) & Hd2 & _). assert (canonical (bc_db bc2) p (n - 1)) as Hcan2.
  { eapply canonical_same; [exact Hs2| |exact Hcan1]. intros m Hm _. rewrite !ReadCanonicalHash_at, Hd2. f_equal. apply side_writes; [done|done|right; by eexists]. }
  pose proof (same_blocks_trans _ _ _ Hs1 Hs2) as Hs. assert (stored (bc_db bc2) b n) as Hb2 by by eapply same_stored.
  eapply returns_mono; [by apply insert_head_ok|]. cbn beta. intros _ bc3 (Hinv3 & Hcur3 & Hins & _). pose proof (inserted_blocks _ _ _ _ Hins) as Hs3.
  split; [|split; [by eapply same_blocks_trans|exists (bc_db bc1); intros e He Hne; by rewrite (in_other _ _ _ _ Hins), Hd2]]. split; [done|done|by eapply same_stored|].
  replace n with (n - 1 + 1) by lia. eapply canonical_child; [apply Hinv3| |eapply same_stored, same_stored; [exact Hs3|exact Hs|exact Hp]|done|].
  - eapply canonical_same; [exact Hs3| |exact Hcan2]. intros m Hm Hle. apply (inserted_canonical _ _ _ _ _ Hins); [done|lia].
  - replace (n - 1 + 1) with n by lia. apply (in_canonical _ _ _ _ Hins).
Qed.

(** * Writing a block with its state *)
Lemma returns_number_storable {A} bc b n (k : Z → GoM (BlockChain C D) chain_error A) Q R : storable_block b n → wp (k n) Q R bc → wp (number_of b ≫= k) Q R bc.
Proof.
  intros Hb Hk. unfold wp in *. assert (number_of b bc = (Ok n, bc)) as Hrun; [|by rewrite (gom_bind_run _ _ _ _ _ Hrun)].
  unfold number_of, NumberU64, lift. rewrite (sk_number _ _ Hb). cbn. f_equal. f_equal. apply wrap64_id, (sk_range _ _ Hb).
Qed.
Lemma wp_run {A B} (m : GoM (BlockChain C D) chain_error A) (k : A → GoM (BlockChain C D) chain_error B) Q R bc a bc' :
  m bc = (Ok a, bc') → wp (k a) Q R bc' → wp (m ≫= k) Q R bc.
Proof. intros Hrun Hk. unfold wp in *. by rewrite (gom_bind_run _ _ _ _ _ Hrun). Qed.

(** What is known once the block and its difficulty are in the database. *)
Record block_in bc bc' (ob : Block) (on : Z) (b : Block) (n td : Z) : Prop := {
  bi_chain : chain_ok bc' ob on;
  bi_stored : stored (bc_db bc') b n;
  bi_td : ReadTd (bc_db bc') (block_hash b) n = Some td;
  bi_old b' k t : stored (bc_db bc) b' k → ReadTd (bc_db bc) (block_hash b') k = Some t → stored (bc_db bc') b' k ∧ ReadTd (bc_db bc') (block_hash b') k = Some t
}.
Lemma block_in_same bc bc1 bc2 ob on ob' on' b n td : block_in bc bc1 ob on b n td → chain_ok bc2 ob' on' → same_blocks (bc_db bc1) (bc_db bc2) →
  block_in bc bc2 ob' on' b n td.
Proof.
  intros [_ Hst Htd Hold] Hok Hs. split; [done|by eapply same_stored| |].
  - rewrite (same_td _ _ Hs); [done|apply Hst|apply Hst].
  - intros b' k t Hb Ht. destruct (Hold b' k t Hb Ht) as [Hb1 Ht1]. split; [by eapply same_stored|]. rewrite (same_td _ _ Hs); [done|apply Hb|apply Hb].
Qed.
Definition written_post bc (ob b : Block) (on n td ltd : Z) (coin : bool) (receipts : list Receipt) (status : WriteStatus) bc' : Prop :=
  let take := prefers coin td ltd b ob n on in
  status = (if take then CanonStatTy else SideStatTy) ∧
  block_in bc bc' (if take then b else ob) (if take then n else on) b n td ∧ receipts_kept (bc_db bc') b n receipts.

(** From the commit of the state on. *)
Lemma commit_ok bc bc1 root d' ob on b n td : block_in bc bc1 ob on b n td →
  wp ((if TrieDirtyDisabled cacheConfig then
         bc ← get_state;
         let '(ok, d) := td_Commit (S := S) root (bc_stateCache bc) in
         put_state (set_tries d (bc_triegc bc) (bc_gcproc bc) bc);;
         if ok : bool then mret tt else throw errCommit
       else keep_trie (S := S) cacheConfig root n) : GoM (BlockChain C D) chain_error unit)
    (λ _ bc', block_in bc bc' ob on b n td) (λ e bc', e = errCommit ∧ block_in bc bc' ob on b n td) (set_tries d' (bc_triegc bc1) (bc_gcproc bc1) bc1).
Proof.
  intros Hin. assert (∀ bc', beside bc1 bc' → block_in bc bc' ob on b n td) as Hkeep.
  { intros bc' Hb. eapply block_in_same; [exact Hin|by eapply beside_ok, Hin|]. destruct Hb as (_ & -> & _). done. }
  pose proof (set_tries_beside d' (bc_triegc bc1) (bc_gcproc bc1) bc1 (co_inv _ _ _ (bi_chain _ _ _ _ _ _ _ Hin))) as Hb1.
  destruct (TrieDirtyDisabled cacheConfig).
  - apply wp_bind, wp_get. destruct (td_Commit root _) as [ok d2]. eapply wp_run; [reflexivity|].
    assert (beside bc1 (set_tries d2 (bc_triegc bc1) (bc_gcproc bc1) (set_tries d' (bc_triegc bc1) (bc_gcproc bc1) bc1))) as Hb2.
    { eapply beside_trans; [exact Hb1|]. apply set_tries_beside, Hb1. }
    destruct ok; [apply wp_ret|apply wp_throw; split; [done|]]; by apply Hkeep.
  - eapply returns_wp; [apply keep_trie_ok; [apply Hb1|apply (bi_stored _ _ _ _ _ _ _ Hin)]|]. cbn beta. intros _ bc' Hb2. apply Hkeep. eapply beside_trans; [exact Hb1|exact Hb2].
Qed.
Lemma writeBlockWithState_ok coin bc ob on b p n d ptd ltd receipts (s : S) : chain_ok bc ob on → writable b p n d ptd bc →
  ReadTd (bc_db bc) (block_hash ob) on = Some ltd →
  wp (writeBlockWithState chainId cacheConfig shouldPreserve coin b receipts s)
    (written_post bc ob b on n (d + ptd) ltd coin receipts) (λ e bc', e = errCommit ∧ block_in bc bc' ob on b n (d + ptd)) bc.
Proof.
  intros Hok Hwr Hltd. pose proof Hok as [Hinv Hcur Ho Hcan]. pose proof Hwr as [Hb Hpos Hag Hp Hph Hptd Hd]. pose proof Hinv as [Hdb _].
  assert ((n - 1)%u64 = n - 1) as Hpred by (apply wrap64_id, (proj1 (proj2 Hp))).
  destruct (stored_known _ _ _ _ Hdb Hp) as [ptd' [_ _ Hpnum _ _ _ _]]. destruct (stored_known _ _ _ _ Hdb Ho) as [ltd' [_ _ Honum _ _ _ _]].
  unfold writeBlockWithState. apply (returns_number_storable bc b n); [done|]. rewrite Hpred, <- Hph.
  apply wp_bind. eapply returns_wp; [by apply (GetTd_ok genesis); [|apply Hp|]|]. cbn beta. intros r bc1 [-> Hq1]. rewrite Hptd.
  pose proof (quiet_db _ _ _ Hq1) as Hd1. apply wp_bind, wp_get. rewrite (quiet_current _ _ _ Hq1), Hcur. apply wp_bind, wp_ret.
  eapply wp_run; [eapply (number_of_stored genesis); [by eapply quiet_inv|by rewrite Hd1]|].
  apply wp_bind. eapply returns_wp; [apply (GetTd_ok genesis); [by eapply quiet_inv|apply Ho|by rewrite Hd1]|].
  cbn beta. intros r bc2 [-> Hq2]. rewrite Hd1, Hltd. pose proof (quiet_trans _ _ _ _ Hq1 Hq2) as Hq. pose proof (quiet_db _ _ _ Hq) as Hd2.
  unfold block_Difficulty. rewrite Hd. apply wp_bind, wp_ret.
  pose proof (beside_ok _ _ _ _ (quiet_beside _ _ Hq) Hok) as Hok2. pose proof (writable_db b p n d ptd _ _ Hd2 Hwr) as Hwr2.
  destruct (store_block_ok b p n d ptd bc2 (co_inv _ _ _ Hok2) Hwr2) as (bc3 & ws & bc4 & Hrun1 & Hws & Hrun2 & Hinv4 & Hwritten & Hrest4 & Hcur4).
  eapply wp_run; [exact Hrun1|]. apply wp_bind. eapply wp_lift; [exact Hws|]. eapply wp_run; [exact Hrun2|].
  assert (block_in bc bc4 ob on b n (d + ptd)) as Hin.
  { split; [by eapply written_chain_ok|split_and!; [apply (sk_hash _ _ Hb)|apply (sk_range _ _ Hb)|by eapply wr_block]|by eapply wr_td|].
    intros b' k t Hb' Ht. rewrite <- Hd2 in Hb', Ht. apply (written_keeps b p n d ptd bc2); [apply Hok2|done..]. }
  apply wp_bind, wp_get. destruct (cs_Commit true s (bc_stateCache bc4)) as [root d'].
  assert (chain_ok (set_tries d' (bc_triegc bc4) (bc_gcproc bc4) bc4) ob on) as Hok5 by (eapply beside_ok; [by apply set_tries_beside|apply Hin]).
  eapply wp_run; [reflexivity|]. destruct root as [root|]; [|apply wp_throw; split; [done|by eapply block_in_same]].
  apply wp_bind. eapply wp_mono; [by apply commit_ok| |done].
  cbn beta. intros _ bc6 Hin6. destruct (encoded_ok (E := chain_error) (storable := λ _, True) (store_receipt <$> receipts) I) as (data & Henc & Hdec & _).
  apply wp_bind. eapply (wp_lift _ (puts (receipts_writes b n data))); [unfold WriteReceipts; by rewrite Henc|].
  apply wp_bind, wp_ret. destruct Hin6 as [Hok6 Hb6 Htd6 Hold6] eqn:Hin6'. pose proof Hok6 as [Hinv6 Hcur6 Ho6 Hcan6].
  apply wp_bind. eapply returns_wp; [by apply choose_ok|]. cbn beta. intros take bc7 [Htake ->].
  apply wp_bind. eapply returns_wp with (Q := λ _ bc', block_in bc bc' (if take then b else ob) (if take then n else on) b n (d + ptd) ∧ receipts_kept (bc_db bc') b n receipts).
  - pose proof (batch_writes b n data s (proj1 Hb6) (proj1 (proj2 Hb6))) as Hps. destruct take.
    + assert (puts (receipts_writes b n data) ++ WriteTxLookupEntries b ++ WritePreimages (cs_Preimages (D := D) s) =
        puts (receipts_writes b n data ++ lookups_writes b ++ preimages_writes s)) as ->.
      { rewrite !puts_app. f_equal. unfold lookups_writes, preimages_writes, puts, WriteTxLookupEntries, WritePreimages. by rewrite <- !list_fmap_compose. }
      rewrite Hph. eapply returns_mono; [by eapply (take_head _ ob on b p n); try done; by eapply Hold6|]. cbn beta. intros _ bc8 (Hok8 & Hs8 & db & Hdb8). split; [by eapply block_in_same|].
      unfold receipts_kept. rewrite Hdb8; [|by split; apply Hb6|set_solver]. rewrite receipts_written; [exact Hdec|apply Hb6..| |apply batch_no_receipts].
      apply Forall_app in Hps as [_ Hps]. eapply Forall_impl; [exact Hps|]. by intros ? [].
    + apply Forall_app in Hps as [Hps _]. eapply returns_mono; [by apply (side_write_ok _ _ (receipts_writes b n data))|].
      cbn beta. intros _ bc8 (Hok8 & Hs8 & Hd8). split; [by eapply block_in_same|]. unfold receipts_kept. rewrite Hd8, <- (app_nil_r (receipts_writes b n data)).
      rewrite receipts_written; [exact Hdec|apply Hb6..|done|done].
  - cbn beta. intros _ bc8 [Hin8 Hr8]. apply wp_bind, wp_modify, wp_ret. unfold written_post. rewrite <- Htake. split; [done|]. split; [|exact Hr8].
    eapply block_in_same; [exact Hin8| |done]. destruct (bi_chain _ _ _ _ _ _ _ Hin8) as [[Hdb8 Hca8] Hcur8 Hst8 Hcan8]. split; try done.
    split; [exact Hdb8|]. by apply (caches_same bc8).
Qed.


(** ** Histories of the chain *)
Inductive chain_step bc bc' : Prop :=
  | write_step coin b p n d ptd receipts s status : writable b p n d ptd bc →
      WriteBlockWithState chainId cacheConfig shouldPreserve coin b receipts s bc = (Ok status, bc') → chain_step bc bc'
  | failed_step coin b p n d ptd receipts s e : writable b p n d ptd bc →
      WriteBlockWithState chainId cacheConfig shouldPreserve coin b receipts s bc = (Err e, bc') → chain_step bc bc'
  | side_step b p n d ptd : writable b p n d ptd bc → WriteBlockWithoutState b (d + ptd) bc = (Ok tt, bc') → chain_step bc bc'
  | lookup_step h r : is_hash h → GetBlockByHash h bc = (Ok r, bc') → chain_step bc bc'.

Lemma side_step_ok bc ob on b p n d ptd bc' : chain_ok bc ob on → writable b p n d ptd bc → WriteBlockWithoutState b (d + ptd) bc = (Ok tt, bc') →
  block_in bc bc' ob on b n (d + ptd).
Proof.
  intros Hok Hwr Hrun. pose proof Hwr as [Hb Hpos Hag Hp Hph Hptd Hd].
  destruct (store_block_ok b p n d ptd bc (co_inv _ _ _ Hok) Hwr) as (bc3 & ws & bc4 & Hrun1 & Hws & Hrun2 & Hinv4 & Hw & Hrest4 & Hcur4).
  assert (wp (WriteBlockWithoutState b (d + ptd)) (λ _ bc', bc' = bc4) (λ _ _, False) bc) as Hwp.
  { unfold WriteBlockWithoutState. apply (returns_number_storable bc b n); [done|]. eapply wp_run; [exact Hrun1|].
    apply wp_bind. eapply wp_lift; [exact Hws|]. unfold wp. by rewrite Hrun2. }
  unfold wp in Hwp. rewrite Hrun in Hwp. subst bc'. pose proof Hok as [[Hdb _] _ _ _].
  split; [by eapply written_chain_ok|split_and!; [apply (sk_hash _ _ Hb)|apply (sk_range _ _ Hb)|by eapply wr_block]|by eapply wr_td|].
  intros b' k t Hb' Ht. apply (written_keeps b p n d ptd bc); [apply Hok|done..].
Qed.
Lemma head_td bc ob on : chain_ok bc ob on → ∃ ltd, ReadTd (bc_db bc) (block_hash ob) on = Some ltd.
Proof. intros [[Hdb _] _ Ho _]. destruct (stored_known _ _ _ _ Hdb Ho) as [ltd []]. by exists ltd. Qed.

(** What a history keeps. *)
Definition chain_grew (db : Database) (ltd : Z) bc' : Prop := ∃ ob' on' ltd', chain_ok bc' ob' on' ∧
  ReadTd (bc_db bc') (block_hash ob') on' = Some ltd' ∧ ltd ≤ ltd' ∧ ∀ b n, stored db b n → stored (bc_db bc') b n.
Lemma step_grows bc bc' ob on ltd : chain_ok bc ob on → ReadTd (bc_db bc) (block_hash ob) on = Some ltd → chain_step bc bc' → chain_grew (bc_db bc) ltd bc'.
Proof.
  intros Hok Hltd Hstep. assert (∀ b n td, block_in bc bc' ob on b n td → chain_grew (bc_db bc) ltd bc') as Hsame.
  { intros b n td [Hc _ _ Hold]. exists ob, on, ltd. destruct (Hold ob on ltd (co_stored _ _ _ Hok) Hltd) as [_ Ht]. split_and!; [done..|].
    intros b' k Hb'. destruct (stored_known _ _ _ _ (ci_db _ _ (co_inv _ _ _ Hok)) Hb') as [t []]. by eapply Hold. }
  destruct Hstep as [coin b p n d ptd receipts s status Hwr Hrun|coin b p n d ptd receipts s e Hwr Hrun|b p n d ptd Hwr Hrun|h r Hh Hrun].
  - pose proof (writeBlockWithState_ok coin bc ob on b p n d ptd ltd receipts s Hok Hwr Hltd) as Hwp. unfold WriteBlockWithState in Hrun. unfold wp in Hwp. rewrite Hrun in Hwp.
    destruct Hwp as (_ & Hin & _). unfold prefers in Hin. destruct (ltd <? d + ptd) eqn:Hlt; [apply Z.ltb_lt in Hlt|apply Z.ltb_ge in Hlt]; cbn [orb] in Hin;
      [|destruct (d + ptd =? ltd) eqn:Heq; [apply Z.eqb_eq in Heq|]; cbn [andb] in Hin; [destruct (_ || _) in Hin|]; [|by eapply Hsame..]].
    all: destruct Hin as [Hc _ Ht Hold]; exists b, n, (d + ptd); split_and!; [done|done|lia|].
    all: intros b' k Hb'; destruct (stored_known _ _ _ _ (ci_db _ _ (co_inv _ _ _ Hok)) Hb') as [t []]; by eapply Hold.
  - pose proof (writeBlockWithState_ok coin bc ob on b p n d ptd ltd receipts s Hok Hwr Hltd) as Hwp. unfold WriteBlockWithState in Hrun. unfold wp in Hwp. rewrite Hrun in Hwp.
    destruct Hwp as [_ Hin]. by eapply Hsame.
  - eapply Hsame. by eapply side_step_ok.
  - pose proof (GetBlockByHash_ok genesis bc h (co_inv _ _ _ Hok) Hh) as Hl. unfold returns, wp in Hl. rewrite Hrun in Hl. destruct Hl as (_ & Hq).
    pose proof (quiet_beside _ _ Hq) as Hb. exists ob, on, ltd. split_and!; [by eapply beside_ok| |lia|]; destruct Hb as (_ & -> & _); done.
Qed.

(** C10: over any history of writes, of blocks with and without their states,
    failed ones included, and lookups in between, the database stays well
    formed: every stored block hangs on a stored parent down to the one genesis
    block, its total difficulty is its parent's plus its own, the caches are
    true, the canonical numbers lead from the head to the genesis block, no
    stored block is lost, and the difficulty of the head never decreases. *)
Theorem chain_stays_well_formed bc bc' ob on ltd : chain_ok bc ob on → ReadTd (bc_db bc) (block_hash ob) on = Some ltd → rtc chain_step bc bc' →
  ∃ ob' on' ltd', chain_ok bc' ob' on' ∧ ReadTd (bc_db bc') (block_hash ob') on' = Some ltd' ∧ ltd ≤ ltd' ∧
    ∀ b n, stored (bc_db bc) b n → stored (bc_db bc') b n.
Proof.
  intros Hok Hltd Hsteps. revert ob on ltd Hok Hltd. induction Hsteps as [bc|bc bc1 bc' Hstep Hsteps IH]; intros ob on ltd Hok Hltd.
  - exists ob, on, ltd. split_and!; [done|done|lia|done].
  - destruct (step_grows _ _ _ _ _ Hok Hltd Hstep) as (ob1 & on1 & ltd1 & Hok1 & Hltd1 & Hle & Hold).
    destruct (IH _ _ _ Hok1 Hltd1) as (ob2 & on2 & ltd2 & Hok2 & Hltd2 & Hle2 & Hold2). exists ob2, on2, ltd2. split_and!; [done|done|lia|].
    intros b n Hb. by apply Hold2, Hold.
Qed.
End writing.
