(* ===== verification/Sync.v ===== *)
(** Synchronisation: what a node serves of its chain
    ([getBlockHeaders], [getBlockBodies] of [protocol_manager.go]), the downloader
    ([downloader/downloader.go]) and the fetcher ([fetcher/fetcher.go]).  Requests
    take time: the chain that answers is given for every one of them, so it may
    grow in between, and the peer may close. *)
From S2P Require Import Prelude Types Sealing Blocks TxSigning Worker RawDB.

Definition MaxHeaderFetch : Z := 192.
Definition MaxBlockFetch : Z := 128.
Definition softResponseLimit : Z := 2097152.
Definition estHeaderRlpSize : Z := 500.

Inductive sync_error :=
  | errBusy | errEmptyHeaderSet | errInvalidAncestor | errInvalidChain | errInvalidBody | errEthPeerClosed.
#[export] Instance sync_error_eq_dec : EqDecision sync_error.
Proof. solve_decision. Defined.

(** * Serving

    The chain of the node that answers.  Its caches do not show in the answers
    ([caches_are_transparent] of [ChainLookup.v]).  [GetAncestor] also counts down
    the hashes it may follow. *)
Class ServedChain (C : Type) := {
  sc_GetHeaderByHash : C → Hash → option Header;
  sc_GetHeader : C → Hash → Z → option Header;
  sc_GetHeaderByNumber : C → Z → option Header;
  sc_GetAncestor : C → Hash → Z → Z → Z → Hash * Z * Z;
  sc_GetBody : C → Hash → option Body;
  sc_GetBlockByNumber : C → Z → option Block;
  sc_CurrentBlock : C → option Block
}.
(** A query, whose origin the loop moves along. *)
Record getBlockHeadersData := mkQuery { q_Hash : Hash; q_Number : Z; q_Amount : Z; q_Skip : Z; q_Reverse : bool }.

Section serving.
Context `{Crypto} {C : Type} `{ServedChain C} {E : Type}.
Implicit Types (chain : C) (q : getBlockHeadersData).

Definition set_origin (hash : Hash) (number : Z) q : getBlockHeadersData := mkQuery hash number (q_Amount q) (q_Skip q) (q_Reverse q).
(** The header at the origin, and the query with its number, when the first
    header of a query by hash tells it. *)
Definition query_origin chain (hashMode first : bool) q : Result E (option Header * getBlockHeadersData) :=
  if hashMode then
    if first then
      match sc_GetHeaderByHash chain (q_Hash q) with
      | Some origin => number ← Types.Uint64 (Number origin); Ok (Some origin, set_origin (q_Hash q) number q)
      | None => Ok (None, q)
      end
    else Ok (sc_GetHeader chain (q_Hash q) (q_Number q), q)
  else Ok (sc_GetHeaderByNumber chain (q_Number q), q).
(** The query for the next header, [None] when there is none; and what is left
    of [maxNonCanonical]. *)
Definition next_query chain (hashMode : bool) (origin : Header) (maxNonCanonical : Z) q : Result E (option getBlockHeadersData * Z) :=
  match hashMode, q_Reverse q with
  | true, true =>
      let ancestor := (q_Skip q + 1)%u64 in
      if ancestor =? 0 then Ok (None, maxNonCanonical) else
      let '(hash, number, maxNonCanonical) := sc_GetAncestor chain (q_Hash q) (q_Number q) ancestor maxNonCanonical in
      Ok (if hash =? zero_hash then None else Some (set_origin hash number q), maxNonCanonical)
  | true, false =>
      current ← Types.Uint64 (Number origin);
      let next := ((current + q_Skip q)%u64 + 1)%u64 in
      if next <=? current then Ok (None, maxNonCanonical) else
      match sc_GetHeaderByNumber chain next with
      | None => Ok (None, maxNonCanonical)
      | Some header =>
          let nextHash := Header_Hash header in
          let '(expOldHash, _, maxNonCanonical) := sc_GetAncestor chain nextHash next (q_Skip q + 1)%u64 maxNonCanonical in
          Ok (if expOldHash =? q_Hash q then Some (set_origin nextHash next q) else None, maxNonCanonical)
      end
  | false, true =>
      Ok (if (q_Skip q + 1)%u64 <=? q_Number q then Some (set_origin (q_Hash q) (q_Number q - (q_Skip q + 1)%u64)%u64 q) else None, maxNonCanonical)
  | false, false => Ok (Some (set_origin (q_Hash q) (q_Number q + (q_Skip q + 1)%u64)%u64 q), maxNonCanonical)
  end.
(** The loop: every turn adds a header, so that [MaxHeaderFetch] turns are
    enough. *)
Fixpoint serve (fuel : nat) chain (hashMode first : bool) (maxNonCanonical : Z) q (headers : list Header) : Result E (list Header) :=
  let len := Z.of_nat (length headers) in
  if (len <? wrap_i64 (q_Amount q)) && (estHeaderRlpSize * len <? softResponseLimit) && (len <? MaxHeaderFetch) then
    match fuel with
    | O => Panic OutOfFuel
    | S fuel =>
        '(origin, q) ← query_origin chain hashMode first q;
        match origin with
        | None => Ok headers
        | Some origin =>
            let headers := headers ++ [origin] in
            '(next, maxNonCanonical) ← next_query chain hashMode origin maxNonCanonical q;
            match next with
            | None => Ok headers
            | Some q => serve fuel chain hashMode false maxNonCanonical q headers
            end
        end
    end
  else Ok headers.
Definition getBlockHeaders chain q : Result E (list Header) :=
  serve (Z.to_nat MaxHeaderFetch) chain (negb (q_Hash q =? zero_hash)) true 100 q [].
Fixpoint collect_bodies chain (hashes : list Hash) (bodies : gmap Hash Body) : gmap Hash Body :=
  match hashes with
  | [] => bodies
  | hash :: hashes =>
      if MaxBlockFetch <=? Z.of_nat (size bodies) then bodies else
      collect_bodies chain hashes (match sc_GetBody chain hash with Some body => <[hash := body]> bodies | None => bodies end)
  end.
Definition getBlockBodies chain (hashes : list Hash) : gmap Hash Body := collect_bodies chain hashes ∅.
End serving.

(** * The downloader *)
(** What to ask for, to find the common ancestor.  [int] has 64 bits. *)
Definition calculateRequestSpan (remoteHeight localHeight : Z) : Z * Z * Z * Z :=
  let MaxCount := Z.quot MaxHeaderFetch 16 in
  let requestHead := wrap_i64 (wrap_i64 remoteHeight - 1) in
  let requestHead := if requestHead <? 0 then 0 else requestHead in
  let requestBottom := wrap_i64 (localHeight - 1)%u64 in
  let requestBottom := if requestBottom <? 0 then 0 else requestBottom in
  let totalSpan := requestHead - requestBottom in
  let span := 1 + Z.quot totalSpan MaxCount in
  let span := if span <? 2 then 2 else span in
  let span := if 16 <? span then 16 else span in
  let count := 1 + Z.quot totalSpan span in
  let count := if MaxCount <? count then MaxCount else count in
  let count := if count <? 2 then 2 else count in
  let from := requestHead - (count - 1) * span in
  let from := if from <? 0 then 0 else from in
  let max := from + (count - 1) * span in
  (from, count, span - 1, max).

(** The local chain as the downloader uses it; the result of [InsertHeaderChain]
    is not looked at, [InsertChain] answers whether it failed. *)
Class LocalChain (L : Type) := {
  lc_CurrentBlock : L → Block;
  lc_HasBlock : L → Hash → Z → bool;
  lc_InsertHeaderChain : list Header → L → L;
  lc_InsertChain : list Block → L → bool * L
}.
(** The peer to synchronise with: the head it is known for, and its chain at
    every request, unless it has closed. *)
Record SyncPeer (C : Type) := mkSyncPeer {
  sp_head : Hash;
  at_height : option C;
  at_ancestor : option C;
  at_check : option C;
  at_report : option C;
  at_headers : nat → option C;
  at_bodies : option C
}.
Arguments mkSyncPeer {C} _ _ _ _ _ _ _. Arguments sp_head {C} _. Arguments at_height {C} _. Arguments at_ancestor {C} _. Arguments at_check {C} _. Arguments at_report {C} _.
Arguments at_headers {C} _ _. Arguments at_bodies {C} _.
Definition maxForkAncestry : Z := 90000.

Section downloader.
Context `{Crypto} {C : Type} `{ServedChain C} {L : Type} `{LocalChain L}.
Implicit Types (p : SyncPeer C) (c : option C) (local : L).
Abbreviation M := (GoM L sync_error).

Definition GetHeadersByHash c (origin : Hash) (amount skip : Z) (reverse : bool) : Result sync_error (list Header) :=
  match c with Some chain => getBlockHeaders chain (mkQuery origin 0 amount skip reverse) | None => Err errEthPeerClosed end.
Definition GetHeadersByNumber c (origin amount skip : Z) (reverse : bool) : Result sync_error (list Header) :=
  match c with Some chain => getBlockHeaders chain (mkQuery zero_hash origin amount skip reverse) | None => Err errEthPeerClosed end.
Definition GetBodies c (hashes : list Hash) : Result sync_error (gmap Hash Body) :=
  match c with Some chain => Ok (getBlockBodies chain hashes) | None => Err errEthPeerClosed end.
Definition GetBlock c (number : Z) : option Block := chain ← c; sc_GetBlockByNumber chain number.
Definition fetchHeight p : Result sync_error Header :=
  headers ← GetHeadersByHash (at_height p) (sp_head p) 1 0 false;
  match headers with [] => Panic IndexOutOfRange | header :: _ => Ok header end.

(** [header.Number.Int64()] *)
Definition header_Int64 (h : Header) : Result sync_error Z := match Number h with Some n => Ok (wrap_i64 n) | None => Panic NilDereference end.
(** The reply conforms to the request. *)
Fixpoint conforms (from step i : Z) (headers : list Header) : Result sync_error unit :=
  match headers with
  | [] => Ok tt
  | h :: headers => n ← header_Int64 h; if negb (n =? from + i * step) then Err errInvalidChain else conforms from step (i + 1) headers
  end.
(** The highest header that is known, given the highest first. *)
Fixpoint highest_known local (from max : Z) (headers : list Header) : Result sync_error (option (Z * Hash)) :=
  match headers with
  | [] => Ok None
  | h :: headers =>
      i ← header_Int64 h;
      n ← Types.Uint64 (Number h);
      if (i <? from) || (max <? n) then highest_known local from max headers else
      if lc_HasBlock local (Header_Hash h) n then Ok (Some (n, Header_Hash h)) else highest_known local from max headers
  end.
Definition findAncestor c local (remoteHeaderHeight localHeight : Z) : Result sync_error Z :=
  let '(from, count, skip, max) := calculateRequestSpan remoteHeaderHeight localHeight in
  headers ← GetHeadersByNumber c from count skip false;
  let floor := if maxForkAncestry <=? localHeight then wrap_i64 (localHeight - maxForkAncestry) else -1 in
  match headers with
  | [] => Err errEmptyHeaderSet
  | _ =>
      conforms from (skip + 1) 0 headers;;
      found ← highest_known local from max (reverse headers);
      match found with
      | Some (number, hash) =>
          if hash =? zero_hash then Ok 0 else
          if wrap_i64 number <=? floor then Err errInvalidAncestor else Ok number
      | None => Ok 0
      end
  end.

(** The headers from [i] to [height] in batches: the hashes, the headers by hash. *)
Fixpoint fetch_headers (fuel k : nat) p (i height : Z) (hashes : list Hash) (headerHashes : gmap Hash Header) : M (list Hash * gmap Hash Header) :=
  if i <=? height then
    match fuel with
    | O => panic OutOfFuel
    | S fuel =>
        headers ← lift (GetHeadersByNumber (at_headers p k) i MaxHeaderFetch 0 false);
        modify (lc_InsertHeaderChain headers);;
        let headerHashes := foldl (λ m h, <[Header_Hash h := h]> m) headerHashes headers in
        fetch_headers fuel (S k) p ((i + Z.of_nat (length headers))%u64 + 1)%u64 height (hashes ++ (Header_Hash <$> headers)) headerHashes
    end
  else mret (hashes, headerHashes).
(** The blocks, of which as many are made room for as there are bodies. *)
Fixpoint assemble (results : gmap Hash Body) (headerHashes : gmap Hash Header) (i : nat) (hashes : list Hash) : Result sync_error (list Block) :=
  match hashes with
  | [] => Ok []
  | hash :: hashes =>
      match results !! hash with
      | None => Err errInvalidBody
      | Some result =>
          if (size results <=? i)%nat then Panic IndexOutOfRange else
          match headerHashes !! hash with
          | None => Panic NilDereference
          | Some header =>
              blocks ← assemble results headerHashes (S i) hashes;
              Ok (WithBody (NewBlockWithHeader header) (body_Transactions result) (body_Uncles result) :: blocks)
          end
      end
  end.
(** The report of what is to be synchronised: it reads the block of the peer at
    the local height and searches for the ancestor again, from the height the peer
    really has; only a crash of it shows. *)
Definition GetHeight c : Result sync_error Z :=
  match c with
  | Some chain => match sc_CurrentBlock chain with Some b => Types.Uint64 (Number (block_header b)) | None => Panic NilDereference end
  | None => Ok 0
  end.
Definition report p local (diff localHeight : Z) : Result sync_error unit :=
  if 0 <? diff then
    realHeight ← GetHeight (at_check p);
    match GetBlock (at_check p) localHeight with
    | None => Panic NilDereference
    | Some _ => match findAncestor (at_report p) local realHeight localHeight with Panic q => Panic q | _ => Ok tt end
    end
  else Ok tt.
Definition syncWithPeer p : M unit :=
  latest ← lift (fetchHeight p);
  local ← get_state;
  localHeight ← lift (Types.Uint64 (Number (block_header (lc_CurrentBlock local))));
  height ← lift (Types.Uint64 (Number latest));
  origin ← lift (findAncestor (at_ancestor p) local height localHeight);
  lift (report p local (height - origin)%u64 localHeight);;
  '(hashes, headerHashes) ← fetch_headers (S (Z.to_nat (height - origin))) 0 p (origin + 1)%u64 height [] ∅;
  results ← lift (GetBodies (at_bodies p) hashes);
  blocks ← lift (assemble results headerHashes 0 hashes);
  local ← get_state;
  let '(failed, local) := lc_InsertChain blocks local in
  modify (λ _, local);;
  if failed : bool then throw errInvalidChain else mret tt.
(** The events it posts. *)
Definition sync_events (r : Result sync_error unit) : list downloader_event := [StartEvent; match r with Err _ => FailedEvent | _ => DoneEvent end].
(** [synchronise]: one at a time, with a registered peer.  The peer set returns a
    pointer in an interface, which differs from [nil] even when the pointer is
    [nil]: a peer that is not registered crashes where its head is read. *)
Definition synchronise (synchronising : bool) (peer : option (SyncPeer C)) : M unit :=
  if synchronising then throw errBusy else
  match peer with None => panic NilDereference | Some p => syncWithPeer p end.
(** [Synchronise]: whether the peer is dropped. *)
Definition drops_peer (err : sync_error) : bool :=
  match err with errEmptyHeaderSet | errInvalidAncestor | errInvalidChain => true | _ => false end.
Definition Synchronise (synchronising : bool) (peer : option (SyncPeer C)) : GoM L Empty_set (option sync_error * bool) := λ local,
  match synchronise synchronising peer local with
  | (Ok _, local) => (Ok (None, false), local)
  | (Err err, local) => (Ok (Some err, drops_peer err), local)
  | (Panic p, local) => (Panic p, local)
  end.
End downloader.

(** * The fetcher *)
Inductive fetch_error := errUnknownParent | errVerification | errImport.
(** What it does with a block. *)
Inductive fetch_action := Propagate (b : Block) | Announce (b : Block) | DropPeer | Import (b : Block).
Inductive header_verdict := Verified | FutureBlock | Invalid.
(** [insert], with the answers of the chain: whether the parent is there, the
    verdict on the header, whether the import succeeded. *)
Definition fetcher_insert (parent : option Block) (verdict : header_verdict) (imported : bool) (block : Block) : Result fetch_error unit * list fetch_action :=
  match parent with
  | None => (Err errUnknownParent, [])
  | Some _ =>
      match verdict with
      | Invalid => (Err errVerification, [DropPeer])
      | _ =>
          let propagated := match verdict with Verified => [Propagate block] | _ => [] end in
          if imported then (Ok tt, propagated ++ [Import block; Announce block]) else (Err errImport, propagated ++ [Import block])
      end
  end.
(** [Notify]: the block it goes on with, [None] if there is nothing to do. *)
Definition fetcher_Notify `{Crypto} {C} `{ServedChain C} (known : bool) (c : option C) (hash : Hash) : Result sync_error (option Block) :=
  if known then Ok None else
  match GetHeadersByHash c hash 1 0 false with
  | Panic p => Panic p
  | Err _ | Ok [] => Ok None
  | Ok (header :: _) =>
      match GetBodies c [Header_Hash header] with
      | Ok bodies => match bodies !! Header_Hash header with
                     | Some body => Ok (Some (WithBody (NewBlockWithHeader header) (body_Transactions body) (body_Uncles body)))
                     | None => Panic NilDereference
                     end
      | _ => Ok None
      end
  end.
