(* ===== verification/SyncSpec.v ===== *)
(** What synchronisation fetches: the headers a node serves, the ancestor that is
    found, and the blocks that are handed to the chain; and that the chain of a
    node serves its canonical blocks, through its caches. *)
From S2P Require Import Prelude Hoare Types Sealing Blocks TxSigning Memorydb TxPool RawDB RawDBSpec HeaderChain BlockChain ChainLookup ChainReorg ChainWrite Worker Sync.

(** * The span of the first request *)
Lemma wrap_i64_id x : - 9223372036854775808 ≤ x < 9223372036854775808 → wrap_i64 x = x.
Proof. intros Hx. unfold wrap_i64. rewrite Z.mod_small; [lia|]. unfold u64_modulus. lia. Qed.

Lemma calculateRequestSpan_facts remoteHeight localHeight : 0 ≤ remoteHeight < 2 ^ 62 → 0 ≤ localHeight < 2 ^ 62 →
  let '(from, count, skip, max) := calculateRequestSpan remoteHeight localHeight in
  0 ≤ from ∧ 2 ≤ count ≤ 12 ∧ 1 ≤ skip ≤ 15 ∧ max = from + (count - 1) * (skip + 1) ∧
  (from = 0 ∨ max = remoteHeight - 1) ∧ Z.max 0 (remoteHeight - 1) ≤ max.
Proof.
  change (2 ^ 62) with 4611686018427387904. intros Hr Hl. unfold calculateRequestSpan. change (Z.quot MaxHeaderFetch 16) with 12.
  rewrite (wrap_i64_id remoteHeight) by lia. rewrite (wrap_i64_id (remoteHeight - 1)) by lia.
  assert (wrap_i64 (localHeight - 1)%u64 = localHeight - 1) as ->.
  { unfold wrap_i64, u64_sub, wrap64, u64_modulus. rewrite Zplus_mod_idemp_l, Z.mod_small; lia. }
  set (head := if remoteHeight - 1 <? 0 then 0 else remoteHeight - 1). assert (head = Z.max 0 (remoteHeight - 1)) as Hhead by (unfold head; destruct (Z.ltb_spec (remoteHeight - 1) 0); lia). clearbody head. cbv zeta.
  match goal with |- context [1 + Z.quot ?t 12] => set (total := t) end. clearbody total. set (s1 := 1 + Z.quot total 12). clearbody s1. set (s2 := if s1 <? 2 then 2 else s1). set (span := if 16 <? s2 then 16 else s2).
  assert (2 ≤ span ≤ 16) as Hspan by (unfold span, s2; repeat case_match; rewrite ?Z.ltb_lt, ?Z.ltb_ge in *; lia). clearbody span s2.
  set (c1 := 1 + Z.quot total span). clearbody c1. set (c2 := if 12 <? c1 then 12 else c1). set (count := if c2 <? 2 then 2 else c2).
  assert (2 ≤ count ≤ 12) as Hcount by (unfold count, c2; repeat case_match; rewrite ?Z.ltb_lt, ?Z.ltb_ge in *; lia). clearbody count c2.
  assert (2 ≤ (count - 1) * span) by nia. replace (span - 1 + 1) with span by lia. destruct (Z.ltb_spec (head - (count - 1) * span) 0); split_and!; lia.
Qed.
(** The first request of the search for the ancestor is sane: it asks for 2 to
    12 headers, 2 to 16 apart, from a number on that is not negative; the last
    of them is the highest that is looked at, and it is the one below the
    peer's head unless that is nearer to the genesis block than the span. *)
Theorem calculateRequestSpan_bounds remoteHeight localHeight : 0 ≤ remoteHeight < 2 ^ 62 → 0 ≤ localHeight < 2 ^ 62 →
  let '(from, count, skip, max) := calculateRequestSpan remoteHeight localHeight in
  0 ≤ from ∧ 2 ≤ count ≤ 12 ∧ 1 ≤ skip ≤ 15 ∧ max = from + (count - 1) * (skip + 1) ∧
  (from = 0 ∨ max = remoteHeight - 1) ∧ Z.max 0 (remoteHeight - 1) ≤ max.
Proof. apply calculateRequestSpan_facts. Qed.

(** * Serving *)
Section serving.
Context `{Crypto} {C : Type} `{ServedChain C}.
Abbreviation hash_of b := (Header_Hash (block_header b)).
(** The chain of a node, from the genesis block on, complete with bodies. *)
Record serves (c : C) (blocks : list Block) : Prop := {
  ca_number n b : blocks !! n = Some b → Number (block_header b) = Some (Z.of_nat n);
  ca_header n : is_u64 (Z.of_nat n) → sc_GetHeaderByNumber c (Z.of_nat n) = block_header <$> blocks !! n;
  ca_block n : is_u64 (Z.of_nat n) → sc_GetBlockByNumber c (Z.of_nat n) = blocks !! n;
  ca_hash b : b ∈ blocks → sc_GetHeaderByHash c (hash_of b) = Some (block_header b);
  ca_body b : b ∈ blocks → ∃ body, sc_GetBody c (hash_of b) = Some body ∧ WithBody (NewBlockWithHeader (block_header b)) (body_Transactions body) (body_Uncles body) = b;
  ca_nonzero b : b ∈ blocks → hash_of b ≠ zero_hash;
  ca_distinct : NoDup ((λ b, hash_of b) <$> blocks);
  ca_length : Z.of_nat (length blocks) < 2 ^ 62;
  ca_current : sc_CurrentBlock c = last blocks
}.
Lemma served_short c blocks : serves c blocks → Z.of_nat (length blocks) < 4611686018427387904.
Proof. intros Hc. apply (ca_length _ _ Hc). Qed.
(** The same of a chain that may name blocks above its end. *)
Record serves_chain (c : C) (blocks : list Block) : Prop := {
  sv_number n b : blocks !! n = Some b → Number (block_header b) = Some (Z.of_nat n);
  sv_header n b : blocks !! n = Some b → sc_GetHeaderByNumber c (Z.of_nat n) = Some (block_header b);
  sv_block n b : blocks !! n = Some b → sc_GetBlockByNumber c (Z.of_nat n) = Some b;
  sv_hash b : b ∈ blocks → sc_GetHeaderByHash c (hash_of b) = Some (block_header b);
  sv_body b : b ∈ blocks → ∃ body, sc_GetBody c (hash_of b) = Some body ∧ WithBody (NewBlockWithHeader (block_header b)) (body_Transactions body) (body_Uncles body) = b;
  sv_nonzero b : b ∈ blocks → hash_of b ≠ zero_hash;
  sv_distinct : NoDup ((λ b, hash_of b) <$> blocks);
  sv_length : Z.of_nat (length blocks) < 2 ^ 62;
  sv_current : sc_CurrentBlock c = last blocks
}.
Lemma serves_ended c blocks : serves_chain c blocks →
  (∀ n, is_u64 (Z.of_nat n) → (length blocks ≤ n)%nat → sc_GetHeaderByNumber c (Z.of_nat n) = None ∧ sc_GetBlockByNumber c (Z.of_nat n) = None) → serves c blocks.
Proof.
  intros [S1 S2 S3 S4 S5 S6 S7 S8 S9] Hend. split; try done; intros n Hn; (destruct (blocks !! n) as [b|] eqn:Hb; [cbn; auto|]); apply lookup_ge_None in Hb; by apply Hend.
Qed.
(** The headers from [n] on, [step] apart, [m] of them unless the chain ends. *)
Fixpoint spaced (blocks : list Block) (step n m : nat) : list Header :=
  match m with
  | O => []
  | S m => match blocks !! n with Some b => block_header b :: spaced blocks step (n + step) m | None => [] end
  end.
Lemma spaced_one blocks n m : spaced blocks 1 n m = take m (block_header <$> drop n blocks).
Proof.
  revert n. induction m as [|m IH]; intros n; [done|]. cbn [spaced]. destruct (blocks !! n) as [b|] eqn:Hb.
  - rewrite (drop_S blocks b n Hb), IH, Nat.add_1_r. done.
  - rewrite drop_ge by by apply lookup_ge_None. done.
Qed.
Lemma serve_numbers {E} fuel (c : C) blocks first mx n (skip m : nat) headers : serves c blocks → (m ≤ 192)%nat → Z.of_nat skip < 2 ^ 62 → Z.of_nat n < 2 ^ 63 → (length headers ≤ m)%nat → (m - length headers ≤ fuel)%nat →
  serve (E := E) fuel c false first mx (mkQuery zero_hash (Z.of_nat n) (Z.of_nat m) (Z.of_nat skip) false) headers = Ok (headers ++ spaced blocks (S skip) n (m - length headers)).
Proof.
  intros Hc Hm Hskip. change (2 ^ 62) with 4611686018427387904 in *. change (2 ^ 63) with 9223372036854775808. revert first n headers. induction fuel as [|fuel IH]; intros first n headers Hsmall Hlen Hfuel; cbn [serve q_Amount]; cbv zeta;
    rewrite wrap_i64_id by lia; unfold estHeaderRlpSize, softResponseLimit, MaxHeaderFetch.
  - rewrite (proj2 (Z.ltb_ge _ _)) by lia. cbn [andb]. assert (m - length headers = 0)%nat as -> by lia. by rewrite app_nil_r.
  - destruct (Z.ltb_spec (Z.of_nat (length headers)) (Z.of_nat m)) as [Hlt|Hge]; cbn [andb].
    + rewrite (proj2 (Z.ltb_lt _ 2097152)), (proj2 (Z.ltb_lt _ 192)) by lia. cbn [andb query_origin mbind result_bind q_Number q_Reverse q_Skip].
      rewrite (ca_header _ _ Hc n) by (u64_unfold; lia). assert (m - length headers = S (m - S (length headers)))%nat as -> by lia. cbn [spaced].
      destruct (blocks !! n) as [b|] eqn:Hb; cbn [fmap option_fmap option_map]; [|by rewrite app_nil_r].
      cbn [next_query q_Reverse mbind result_bind]. unfold set_origin. cbn [q_Hash q_Number q_Amount q_Skip q_Reverse].
      pose proof (lookup_lt_Some _ _ _ Hb) as Hn. pose proof (ca_length _ _ Hc) as Hl. change (2 ^ 62) with 4611686018427387904 in Hl.
      rewrite (u64_add_id (Z.of_nat skip)) by (u64_unfold; lia). rewrite u64_add_id by (u64_unfold; lia).
      replace (Z.of_nat n + (Z.of_nat skip + 1)) with (Z.of_nat (n + S skip)) by lia. rewrite IH by (rewrite ?length_app; cbn [length]; lia).
      rewrite length_app. cbn [length]. rewrite <- app_assoc. cbn [app]. by replace (m - (length headers + 1))%nat with (m - S (length headers))%nat by lia.
    + assert (m - length headers = 0)%nat as -> by lia. by rewrite app_nil_r.
Qed.
(** A query by number, towards the leaf. *)
Lemma headers_by_number {E} (c : C) blocks n (skip m : nat) : serves c blocks → (m ≤ 192)%nat → Z.of_nat skip < 2 ^ 62 → Z.of_nat n < 2 ^ 63 →
  getBlockHeaders (E := E) c (mkQuery zero_hash (Z.of_nat n) (Z.of_nat m) (Z.of_nat skip) false) = Ok (spaced blocks (S skip) n m).
Proof.
  intros Hc Hm Hskip Hsmall. unfold getBlockHeaders. cbn [q_Hash]. rewrite Z.eqb_refl. cbn [negb]. rewrite (serve_numbers _ c blocks) by (done || (change (Z.to_nat MaxHeaderFetch) with 192%nat; cbn [length]; lia)). cbn [length app]. by rewrite Nat.sub_0_r.
Qed.
Lemma next_runs {E} (c : C) hashMode origin mx q : is_Some (Number origin) →
  ∃ next mx', next_query (E := E) c hashMode origin mx q = Ok (next, mx') ∧ ∀ q', next = Some q' → q_Amount q' = q_Amount q.
Proof.
  intros [n Hn]. unfold next_query, set_origin. rewrite Hn. cbn [Types.Uint64 mbind result_bind]. destruct hashMode, (q_Reverse q).
  - destruct (_ =? 0); [by do 2 eexists|]. destruct (sc_GetAncestor _ _ _ _ _) as [[hash number] ?]. do 2 eexists. split; [done|]. destruct (_ =? _); [done|]. by intros q' [= <-].
  - destruct (_ <=? _); [by do 2 eexists|]. destruct (sc_GetHeaderByNumber _ _); [|by do 2 eexists]. destruct (sc_GetAncestor _ _ _ _ _) as [[hash number] ?]. do 2 eexists. split; [done|]. destruct (_ =? _); [|done]. by intros q' [= <-].
  - do 2 eexists. split; [done|]. destruct (_ <=? _); [|done]. by intros q' [= <-].
  - do 2 eexists. split; [done|]. by intros q' [= <-].
Qed.
Lemma serve_head {E} fuel (c : C) blocks b skip : serves c blocks → b ∈ blocks → serve (E := E) (S (S fuel)) c true true 100 (mkQuery (hash_of b) 0 1 skip false) [] = Ok [block_header b].
Proof.
  intros Hc Hb. apply list_elem_of_lookup in Hb as Hb'. destruct Hb' as [n Hn].
  cbn [serve]. cbv zeta. change ((Z.of_nat (length []) <? wrap_i64 (q_Amount (mkQuery (hash_of b) 0 1 skip false))) && _ && _) with true.
  cbn [query_origin q_Hash]. rewrite (ca_hash _ _ Hc b Hb). rewrite (ca_number _ _ Hc n b Hn). cbn [Types.Uint64 mbind result_bind app].
  match goal with |- context [next_query c true ?h ?mx ?q] => destruct (next_runs (E := E) c true h mx q) as (next & mx' & -> & Hnext) end; [by rewrite (ca_number _ _ Hc n b Hn)|].
  cbn [mbind result_bind]. destruct next as [q|]; [|done]. cbn [serve]. cbv zeta. rewrite (Hnext q eq_refl). done.
Qed.
Lemma head_by_hash {E} (c : C) blocks b skip : serves c blocks → b ∈ blocks → getBlockHeaders (E := E) c (mkQuery (hash_of b) 0 1 skip false) = Ok [block_header b].
Proof.
  intros Hc Hb. unfold getBlockHeaders. cbn [q_Hash]. rewrite (proj2 (Z.eqb_neq _ _)) by by apply (ca_nonzero _ _ Hc). cbn [negb].
  replace (Z.to_nat MaxHeaderFetch) with (S (S 190)) by done. by apply (serve_head _ c blocks).
Qed.
End serving.

(** * The ancestor *)
Section ancestor.
Context `{Crypto} {C : Type} `{ServedChain C} {L : Type} `{LocalChain L}.
Context (c : C) (blocks : list Block) (Hc : serves c blocks).
Implicit Types (local : L).
Abbreviation hash_of b := (Header_Hash (block_header b)).
(** Headers of the chain, [step] apart from [n] on. *)
Lemma spaced_lookup step n m k h : spaced blocks step n m !! k = Some h → ∃ b, blocks !! (n + k * step)%nat = Some b ∧ h = block_header b.
Proof.
  revert n k. induction m as [|m IH]; intros n k; cbn [spaced]; [done|]. destruct (blocks !! n) as [b|] eqn:Hb; [|done]. destruct k as [|k]; cbn.
  - intros [= <-]. exists b. by rewrite Nat.add_0_r.
  - intros Hk. destruct (IH _ _ Hk) as (b' & Hb' & ->). exists b'. split; [|done]. rewrite <- Hb'. f_equal. lia.
Qed.
Lemma spaced_length step n m : (length (spaced blocks step n m) ≤ m)%nat.
Proof. revert n. induction m as [|m IH]; intros n; cbn [spaced]; [done|]. destruct (blocks !! n); cbn [length]; [|lia]. specialize (IH (n + step)%nat). lia. Qed.
(** The numbers increase. *)
Lemma spaced_increasing step n m before b after x k : spaced blocks step n m = before ++ block_header b :: after → x ∈ before → Number x = Some k → ∃ k', Number (block_header b) = Some k' ∧ k ≤ k'.
Proof.
  intros Hs [j Hj]%list_elem_of_lookup Hk. pose proof (lookup_lt_Some _ _ _ Hj) as Hlt.
  destruct (spaced_lookup step n m j x) as (bj & Hbj & ->); [rewrite Hs, lookup_app_l by done; done|].
  destruct (spaced_lookup step n m (length before) (block_header b)) as (bk & Hbk & Heq); [rewrite Hs; by apply list_lookup_middle|].
  rewrite (ca_number _ _ Hc _ _ Hbj) in Hk. injection Hk as <-. rewrite Heq. eexists. split; [exact (ca_number _ _ Hc _ _ Hbk)|]. nia.
Qed.
Lemma conforms_spaced step n m i from : (0 < step)%nat → Z.of_nat n = from + i * Z.of_nat step → conforms from (Z.of_nat step) i (spaced blocks step n m) = Ok tt.
Proof.
  intros Hstep. revert n i. induction m as [|m IH]; intros n i Hn; [done|]. cbn [spaced]. destruct (blocks !! n) as [b|] eqn:Hb; [|done]. cbn [conforms]. unfold header_Int64. rewrite (ca_number _ _ Hc n b Hb).
  pose proof (lookup_lt_Some _ _ _ Hb). pose proof (served_short c blocks Hc). cbn [mbind result_bind]. rewrite wrap_i64_id by lia. rewrite Hn, Z.eqb_refl. cbn [negb]. apply IH. lia.
Qed.
(** A header of the chain that the local chain has. *)
Definition shared local (n : Z) : Prop := ∃ b, blocks !! Z.to_nat n = Some b ∧ 0 ≤ n ∧ lc_HasBlock local (hash_of b) n = true.
Lemma highest_known_spec local from max (l : list Header) : (∀ h, h ∈ l → ∃ n b, blocks !! n = Some b ∧ h = block_header b ∧ from ≤ Z.of_nat n ≤ max) →
  ∃ found, highest_known local from max l = Ok found ∧
    match found with
    | Some (n, hash) => shared local n ∧ hash ≠ zero_hash ∧ n < 2 ^ 62 ∧ ∃ higher b rest, l = higher ++ block_header b :: rest ∧ blocks !! Z.to_nat n = Some b ∧ ∀ x m, x ∈ higher → Number x = Some m → lc_HasBlock local (Header_Hash x) m = false
    | None => ∀ x m, x ∈ l → Number x = Some m → lc_HasBlock local (Header_Hash x) m = false
    end.
Proof.
  induction l as [|h l IH]; intros Hl; [exists None; split; [done|]; by intros x m ?%not_elem_of_nil|]. destruct (Hl h ltac:(left)) as (n & b & Hb & -> & Hn). cbn [highest_known]. unfold header_Int64. rewrite (ca_number _ _ Hc n b Hb).
  pose proof (lookup_lt_Some _ _ _ Hb). pose proof (served_short c blocks Hc). cbn [Types.Uint64 mbind result_bind]. rewrite wrap_i64_id, wrap64_id by (u64_unfold; lia).
  rewrite (proj2 (Z.ltb_ge _ _)), (proj2 (Z.ltb_ge _ _)) by lia. cbn [orb]. destruct (lc_HasBlock local _ _) eqn:Hhas.
  - eexists. split; [done|]. split; [exists b; rewrite Nat2Z.id; split_and!; [done|lia|done]|]. split; [apply (ca_nonzero _ _ Hc); by eapply list_elem_of_lookup_2|]. split; [change (2 ^ 62) with 4611686018427387904; lia|].
    exists [], b, l. rewrite Nat2Z.id. split; [done|]. split; [done|]. by intros x m ?%not_elem_of_nil.
  - destruct IH as (found & -> & Hfound); [intros x Hx; apply Hl; by right|]. eexists. split; [done|]. destruct found as [[m hash]|].
    + destruct Hfound as (Hs & Hz & Hm & higher & b' & rest & -> & Hb' & Hno). split; [done|]. split; [done|]. split; [done|]. exists (block_header b :: higher), b', rest. split; [done|]. split; [done|].
      intros x k Hx Hk. apply elem_of_cons in Hx as [->|Hx]; [|by eapply Hno]. rewrite (ca_number _ _ Hc n b Hb) in Hk. by injection Hk as <-.
    + intros x k Hx Hk. apply elem_of_cons in Hx as [->|Hx]; [|by eapply Hfound]. rewrite (ca_number _ _ Hc n b Hb) in Hk. by injection Hk as <-.
Qed.

Lemma findAncestor_search local (remoteHeight localHeight : Z) : blocks ≠ [] → 0 ≤ remoteHeight < Z.of_nat (length blocks) → 0 ≤ localHeight < 2 ^ 62 →
  let '(from, count, skip, max) := calculateRequestSpan remoteHeight localHeight in
  let asked := spaced blocks (Z.to_nat (skip + 1)) (Z.to_nat from) (Z.to_nat count) in
  match findAncestor (Some c) local remoteHeight localHeight with
  | Ok a => (a = 0 ∨ shared local a ∧ localHeight - 90000 < a) ∧
      ∀ x m, x ∈ asked → Number x = Some m → a < m → lc_HasBlock local (Header_Hash x) m = false
  | Err e => e = errInvalidAncestor ∧ ∃ a, shared local a ∧ a ≤ localHeight - 90000
  | Panic _ => False
  end.
Proof.
  intros Hne Hr Hl. pose proof (served_short c blocks Hc) as Hshort. pose proof (calculateRequestSpan_facts remoteHeight localHeight) as Hspan. change (2 ^ 62) with 4611686018427387904 in *.
  destruct (calculateRequestSpan remoteHeight localHeight) as [[[from count] skip] max] eqn:Hcalc. destruct Hspan as (Hf & Hcount & Hskip & Hmax & Hcase & Hhead); [lia|lia|]. cbv zeta. set (asked := spaced _ _ _ _).
  unfold findAncestor. rewrite Hcalc. unfold GetHeadersByNumber.
  assert (getBlockHeaders (E := sync_error) c (mkQuery zero_hash from count skip false) = Ok asked) as ->.
  { replace from with (Z.of_nat (Z.to_nat from)) at 1 by lia. replace count with (Z.of_nat (Z.to_nat count)) at 1 by lia. replace skip with (Z.of_nat (Z.to_nat skip)) at 1 by lia.
    rewrite (headers_by_number c blocks) by (done || (change (2 ^ 63) with 9223372036854775808; change (2 ^ 62) with 4611686018427387904; lia)). unfold asked. do 2 f_equal. lia. }
  cbn [mbind result_bind]. assert (asked ≠ []) as Hasked.
  { unfold asked. destruct (Z.to_nat count) eqn:Hcn; [lia|]. cbn [spaced]. destruct (blocks !! Z.to_nat from) eqn:Hb; [done|]. apply lookup_ge_None in Hb. lia. }
  assert (∀ h, h ∈ asked → ∃ n b, blocks !! n = Some b ∧ h = block_header b ∧ from ≤ Z.of_nat n ≤ max) as Hin.
  { intros h [k Hk]%list_elem_of_lookup. pose proof (lookup_lt_Some _ _ _ Hk) as Hlt. unfold asked in Hk. destruct (spaced_lookup _ _ _ _ _ Hk) as (b & Hb & ->). eexists _, b. split; [exact Hb|]. split; [done|].
    assert (length asked ≤ Z.to_nat count)%nat by apply spaced_length. rewrite Nat2Z.inj_add, Nat2Z.inj_mul. nia. }
  destruct (highest_known_spec local from max (reverse asked)) as (found & Hrun & Hfound); [intros h Hh; apply Hin; by rewrite elem_of_reverse in Hh|].
  destruct asked as [|h0 hs] eqn:Hshape; [done|]. rewrite <- Hshape in *.
  assert (conforms from (skip + 1) 0 asked = Ok tt) as ->.
  { unfold asked. replace (skip + 1) with (Z.of_nat (Z.to_nat (skip + 1))) at 1 by lia. apply conforms_spaced; lia. }
  cbn [mbind result_bind]. rewrite Hrun. cbn [mbind result_bind]. destruct found as [[n hash]|].
  - destruct Hfound as (Hs & Hz & Hn & higher & b & rest & Hrev & Hb & Hno). rewrite (proj2 (Z.eqb_neq _ _)) by done.
    assert (0 ≤ n) as Hn0 by (destruct Hs as (? & ? & ? & ?); done). rewrite wrap_i64_id by lia.
    assert (∀ x m, x ∈ asked → Number x = Some m → n < m → lc_HasBlock local (Header_Hash x) m = false) as Habove.
    { intros x m Hx Hm Hlt. assert (asked = reverse rest ++ block_header b :: reverse higher) as Hsplit by (rewrite <- (reverse_involutive asked), Hrev, reverse_app, reverse_cons, <- app_assoc; done).
      pose proof (ca_number _ _ Hc _ _ Hb) as Hnum. rewrite Z2Nat.id in Hnum by done. rewrite Hsplit in Hx. apply elem_of_app in Hx as [Hx|[->|Hx]%elem_of_cons].
      - destruct (spaced_increasing _ _ _ _ _ _ x m Hsplit Hx Hm) as (k' & Hk' & Hle). rewrite Hnum in Hk'. injection Hk' as <-. lia.
      - rewrite Hnum in Hm. injection Hm as <-. lia.
      - apply (Hno x m); [by rewrite elem_of_reverse in Hx|done]. }
    unfold maxForkAncestry. rewrite (wrap_i64_id (localHeight - 90000)) by lia. destruct (Z.leb_spec 90000 localHeight), (Z.leb_spec n (localHeight - 90000)), (Z.leb_spec n (-1)); try lia; (split; [first [right; split; [done|lia]|done]|]); first [done|exists n; split; [done|lia]].
  - split; [by left|]. intros x m Hx Hm _. apply Hfound; [by rewrite elem_of_reverse|done].
Qed.
(** The search for the ancestor does not crash. *)
Lemma findAncestor_no_panic local remoteHeight localHeight q : blocks ≠ [] → 0 ≤ remoteHeight < Z.of_nat (length blocks) → 0 ≤ localHeight < 2 ^ 62 →
  findAncestor (Some c) local remoteHeight localHeight ≠ Panic q.
Proof.
  intros Hne Hr Hl Hrun. pose proof (findAncestor_search local remoteHeight localHeight Hne Hr Hl) as Hs.
  destruct (calculateRequestSpan remoteHeight localHeight) as [[[from count] skip] max]. cbv zeta in Hs. by rewrite Hrun in Hs.
Qed.

(** C27: The ancestor that is found is shared.  With a peer that serves its chain
    the search never crashes; if it ends with a number other than the genesis
    block's, the local chain has the peer's block of this number, none of the
    headers above it that the peer was asked for, and a recent enough one; it
    fails only for an ancestor that is too old. *)
Theorem findAncestor_shared local (remoteHeight localHeight : Z) : blocks ≠ [] → 0 ≤ remoteHeight < Z.of_nat (length blocks) → 0 ≤ localHeight < 2 ^ 62 →
  let '(from, count, skip, max) := calculateRequestSpan remoteHeight localHeight in
  let asked := spaced blocks (Z.to_nat (skip + 1)) (Z.to_nat from) (Z.to_nat count) in
  match findAncestor (Some c) local remoteHeight localHeight with
  | Ok a => (a = 0 ∨ shared local a ∧ localHeight - 90000 < a) ∧
      ∀ x m, x ∈ asked → Number x = Some m → a < m → lc_HasBlock local (Header_Hash x) m = false
  | Err e => e = errInvalidAncestor ∧ ∃ a, shared local a ∧ a ≤ localHeight - 90000
  | Panic _ => False
  end.
Proof. apply findAncestor_search. Qed.
End ancestor.

(** * Fetching *)
Section fetching.
Context `{Crypto} {C : Type} `{ServedChain C} {L : Type} `{LocalChain L}.
Context (c : C) (blocks : list Block) (Hc : serves c blocks).
Implicit Types (local : L) (p : SyncPeer C).
Abbreviation hash_of b := (Header_Hash (block_header b)).
Abbreviation headers := (block_header <$> blocks).

Definition known_headers (m : gmap Hash Header) (hs : list Header) : gmap Hash Header := foldl (λ m h, <[Header_Hash h := h]> m) m hs.
Lemma known_headers_app m hs hs' : known_headers m (hs ++ hs') = known_headers (known_headers m hs) hs'.
Proof. apply foldl_app. Qed.
Lemma known_headers_lookup m hs h : NoDup (Header_Hash <$> hs) → h ∈ hs → known_headers m hs !! Header_Hash h = Some h.
Proof.
  assert (∀ (hs : list Header) m hash, hash ∉ Header_Hash <$> hs → known_headers m hs !! hash = m !! hash) as Hother.
  { clear. induction hs as [|x hs IH]; intros m hash Hn; [done|]. cbn [known_headers foldl]. fold (known_headers (<[Header_Hash x := x]> m) hs). rewrite fmap_cons, not_elem_of_cons in Hn. destruct Hn as [Hne Hn]. rewrite IH by done. by rewrite lookup_insert_ne. }
  revert m. induction hs as [|x hs IH]; intros m Hnd Hin; [by apply not_elem_of_nil in Hin|]. rewrite fmap_cons in Hnd. apply NoDup_cons in Hnd as [Hx Hnd].
  cbn [known_headers foldl]. fold (known_headers (<[Header_Hash x := x]> m) hs). apply elem_of_cons in Hin as [->|Hin]; [|by apply IH]. rewrite Hother by done. by rewrite lookup_insert_eq.
Qed.
(** The next batch. *)
Definition batch (i : nat) : list Header := take 192 (drop i headers).
Lemma batch_served i : Z.of_nat i < 2 ^ 63 → GetHeadersByNumber (Some c) (Z.of_nat i) MaxHeaderFetch 0 false = Ok (batch i).
Proof.
  intros Hi. unfold GetHeadersByNumber. change MaxHeaderFetch with (Z.of_nat 192). change 0 with (Z.of_nat 0) at 1. rewrite (headers_by_number c blocks) by (done || (change (2 ^ 62) with 4611686018427387904; lia)). rewrite spaced_one, fmap_drop. done.
Qed.
Lemma blocks_short : Z.of_nat (length blocks) < 4611686018427387904.
Proof. exact (served_short c blocks Hc). Qed.
Lemma next_index i n : (i + n ≤ length blocks)%nat → ((Z.of_nat i + Z.of_nat n)%u64 + 1)%u64 = Z.of_nat (i + n + 1).
Proof. intros Hi. pose proof blocks_short. rewrite (u64_add_id (Z.of_nat i)) by (u64_unfold; lia). rewrite u64_add_id by (u64_unfold; lia). lia. Qed.
Lemma batch_length i : length (batch i) = (192 `min` (length blocks - i))%nat.
Proof. unfold batch. by rewrite length_take, length_drop, length_fmap. Qed.

Section steady.
Context (p : SyncPeer C) (Hsteady : ∀ k, at_headers p k = Some c).
(** What the loop fetches: the batches, between two of which it leaves one header
    out. *)
Lemma fetch_headers_run fuel k i height hashes m local : (Z.of_nat height < Z.of_nat (length blocks)) → (S height - i ≤ fuel)%nat →
  ∃ hs local', fetch_headers fuel k p (Z.of_nat i) (Z.of_nat height) hashes m local = (Ok (hashes ++ (Header_Hash <$> hs), known_headers m hs), local') ∧
    hs `sublist_of` drop i headers ∧
    if decide (i ≤ height)%nat then ∃ rest, hs = batch i ++ rest ∧ rest `sublist_of` drop (i + 193) headers ∧
      ((length blocks ≤ i + 192)%nat → rest = [] ∧ local' = lc_InsertHeaderChain (batch i) local)
    else hs = [] ∧ local' = local.
Proof.
  intros Hh. revert k i hashes m local. induction fuel as [|fuel IH]; intros k i hashes m local Hfuel; cbn [fetch_headers].
  - rewrite (proj2 (Z.leb_gt _ _)) by lia. exists [], local. split; [by rewrite app_nil_r|]. split; [apply sublist_nil_l|]. by rewrite decide_False by lia.
  - destruct (decide (i ≤ height)%nat) as [Hi|Hi].
    + rewrite (proj2 (Z.leb_le _ _)) by lia. unfold mbind, gom_bind, lift, modify. rewrite Hsteady, batch_served by (pose proof blocks_short; change (2 ^ 63) with 9223372036854775808; lia). cbv beta iota zeta. fold (known_headers m (batch i)).
      pose proof (batch_length i) as Hlen. rewrite next_index by lia.
      destruct (IH (S k) (i + length (batch i) + 1)%nat (hashes ++ (Header_Hash <$> batch i)) (known_headers m (batch i)) (lc_InsertHeaderChain (batch i) local)) as (hs & local' & Hrun & Hsub & Hcase); [lia|].
      exists (batch i ++ hs), local'. split; [rewrite Hrun; by rewrite fmap_app, app_assoc, known_headers_app|].
      assert (hs `sublist_of` drop (i + 193) headers) as Hsub'.
      { destruct (decide (length blocks ≤ i + 192)%nat) as [Hend|Hend]; [|by replace (i + 193)%nat with (i + length (batch i) + 1)%nat by lia].
        rewrite drop_ge in Hsub by (rewrite length_fmap; lia). apply sublist_nil_r in Hsub as ->. apply sublist_nil_l. }
      split; [|exists hs; split; [done|]; split; [done|]; intros Hend; rewrite decide_False in Hcase by lia; done].
      unfold batch. rewrite <- (take_drop 192 (drop i headers)) at 2. apply sublist_app; [done|]. rewrite drop_drop.
      etrans; [exact Hsub'|]. replace (i + 193)%nat with (i + 192 + 1)%nat by lia. rewrite <- drop_drop. apply sublist_drop.
    + rewrite (proj2 (Z.leb_gt _ _)) by lia. exists [], local. split; [by rewrite app_nil_r|]. split; [apply sublist_nil_l|done].
Qed.
End steady.

(** ** Bodies *)
Lemma collect_bodies_ok hashes acc : NoDup hashes → (∀ h, h ∈ hashes → is_Some (sc_GetBody c h) ∧ acc !! h = None) →
  let taken := take (128 - size acc) hashes in
  (∀ h, h ∈ taken → collect_bodies c hashes acc !! h = sc_GetBody c h) ∧ (∀ h, h ∉ taken → collect_bodies c hashes acc !! h = acc !! h) ∧
  size (collect_bodies c hashes acc) = (size acc + length taken)%nat.
Proof.
  revert acc. induction hashes as [|hash hashes IH]; intros acc Hnd Hok; cbn [collect_bodies]; cbv zeta; [rewrite take_nil; split_and!; [by intros h ?%not_elem_of_nil|done|cbn; lia]|].
  apply NoDup_cons in Hnd as [Hh Hnd]. unfold MaxBlockFetch. destruct (Z.leb_spec 128 (Z.of_nat (size acc))) as [Hfull|Hroom].
  - assert (128 - size acc = 0)%nat as -> by lia. split_and!; [by intros h ?%not_elem_of_nil|done|cbn; lia].
  - destruct (Hok hash ltac:(left)) as [[body Hbody] Hacc]. rewrite Hbody. assert (size (<[hash := body]> acc) = S (size acc)) as Hsize by by rewrite map_size_insert_None.
    destruct (IH (<[hash := body]> acc) Hnd) as (H1' & H2' & H3'); [intros h Hin; split; [apply Hok; by right|rewrite lookup_insert_ne by (intros ->; done); apply Hok; by right]|].
    assert (128 - size acc = S (128 - size (<[hash := body]> acc)))%nat as -> by lia. cbn [take length]. split_and!.
    + intros h Hin. destruct (decide (h ∈ take (128 - size (<[hash := body]> acc)) hashes)) as [Ht|Ht]; [by apply H1'|]. apply elem_of_cons in Hin as [->|Hin]; [|done].
      rewrite H2' by done. by rewrite lookup_insert_eq, Hbody.
    + intros h [Hne Hnin]%not_elem_of_cons. rewrite H2' by done. by rewrite lookup_insert_ne.
    + rewrite H3', Hsize. lia.
Qed.
(** The blocks of some headers, when all bodies came. *)
Lemma assemble_all results m i (bs : list Block) : (∀ b, b ∈ bs → b ∈ blocks ∧ results !! hash_of b = sc_GetBody c (hash_of b) ∧ m !! hash_of b = Some (block_header b)) →
  (i + length bs ≤ size results)%nat → assemble results m i ((λ b, hash_of b) <$> bs) = Ok bs.
Proof.
  revert i. induction bs as [|b bs IH]; intros i Hok Hi; [done|]. cbn in Hi. destruct (Hok b ltac:(left)) as (Hb & Hr & Hm). rewrite fmap_cons. cbn [assemble].
  destruct (ca_body _ _ Hc b Hb) as (body & Hbody & Heq). rewrite Hr, Hbody. destruct (Nat.leb_spec (size results) i); [lia|]. rewrite Hm, IH by (lia || (intros x Hx; apply Hok; by right)). cbn [mbind result_bind]. by rewrite Heq.
Qed.
Lemma assemble_misses results m i (bs : list Block) b rest : (∀ b, b ∈ bs → b ∈ blocks ∧ results !! hash_of b = sc_GetBody c (hash_of b) ∧ m !! hash_of b = Some (block_header b)) →
  (i + length bs ≤ size results)%nat → results !! hash_of b = None → assemble results m i (((λ b, hash_of b) <$> bs) ++ hash_of b :: rest) = Err errInvalidBody.
Proof.
  revert i. induction bs as [|x bs IH]; intros i Hok Hi Hnone; [cbn [fmap list_fmap app assemble]; by rewrite Hnone|]. cbn in Hi. destruct (Hok x ltac:(left)) as (Hb & Hr & Hm). rewrite fmap_cons. cbn [app assemble].
  destruct (ca_body _ _ Hc x Hb) as (body & Hbody & _). rewrite Hr, Hbody. destruct (Nat.leb_spec (size results) i); [lia|]. rewrite Hm. rewrite (IH (S i)) by (lia || done || (intros y Hy; apply Hok; by right)). done.
Qed.

(** ** A synchronisation *)
Lemma sublist_fmap_inv {A B} (f : A → B) (l : list B) (k : list A) : l `sublist_of` (f <$> k) → ∃ k', l = f <$> k' ∧ k' `sublist_of` k.
Proof.
  revert l. induction k as [|x k IH]; intros l Hl; [apply sublist_nil_r in Hl as ->; by exists []|]. rewrite fmap_cons in Hl. apply sublist_cons_r in Hl as [Hl|(l' & -> & Hl)].
  - destruct (IH l Hl) as (k' & -> & Hk). exists k'. split; [done|]. by apply sublist_cons.
  - destruct (IH l' Hl) as (k' & -> & Hk). exists (x :: k'). split; [done|]. by apply sublist_skip.
Qed.
Lemma sublist_same_length {A} (l k : list A) : l `sublist_of` k → length k = length l → l = k.
Proof. induction 1 as [|x l k Hl IH|x l k Hl IH]; cbn; intros Hlen; [done|f_equal; apply IH; lia|]. apply sublist_length in Hl. lia. Qed.
(** Every request is answered, from the same chain. *)
Record steady p : Prop := {
  st_height : at_height p = Some c;
  st_ancestor : at_ancestor p = Some c;
  st_check : at_check p = Some c;
  st_report : at_report p = Some c;
  st_headers k : at_headers p k = Some c;
  st_bodies : at_bodies p = Some c;
  st_head top : last blocks = Some top → sp_head p = hash_of top
}.
Context (p : SyncPeer C) (Hp : steady p).
Abbreviation height := (length blocks - 1)%nat.
Lemma fetchHeight_run top : last blocks = Some top → fetchHeight p = Ok (block_header top).
Proof.
  intros Htop. unfold fetchHeight, GetHeadersByHash. rewrite (st_height _ Hp), (st_head _ Hp top Htop), (head_by_hash c blocks); [done|done|]. by apply last_Some_elem_of.
Qed.
Lemma top_number top : last blocks = Some top → Number (block_header top) = Some (Z.of_nat height).
Proof. intros Htop. rewrite last_lookup in Htop. rewrite (ca_number _ _ Hc _ _ Htop). f_equal. lia. Qed.
Lemma report_run top local diff lh : last blocks = Some top → 0 < diff → Z.of_nat lh < 4611686018427387904 →
  report p local diff (Z.of_nat lh) = match blocks !! lh with Some _ => Ok tt | None => Panic NilDereference end.
Proof.
  intros Htop Hdiff Hlh. pose proof blocks_short as Hshort. assert (is_u64 (Z.of_nat height) ∧ is_u64 (Z.of_nat lh)) as [HuH Hul] by (u64_unfold; lia).
  unfold report, GetHeight, GetBlock. rewrite (proj2 (Z.ltb_lt _ _) Hdiff), (st_check _ Hp), (ca_current _ _ Hc), Htop, (top_number top Htop).
  cbn [Types.Uint64 mbind result_bind option_bind]. rewrite wrap64_id by done. rewrite (ca_block _ _ Hc) by done. destruct (blocks !! lh); [|done].
  rewrite (st_report _ Hp). assert (blocks ≠ []) as Hne by by intros ->. assert (0 < length blocks)%nat by (destruct blocks; [done|cbn; lia]).
  destruct (findAncestor (Some c) local (Z.of_nat height) (Z.of_nat lh)) eqn:Hrun; [done..|]. exfalso. revert Hrun.
  apply (findAncestor_no_panic c blocks Hc); [done|lia|change (2 ^ 62) with 4611686018427387904; lia].
Qed.
Lemma sync_up_to_bodies top local lh a : last blocks = Some top → Number (block_header (lc_CurrentBlock local)) = Some (Z.of_nat lh) → (lh ≤ height)%nat →
  findAncestor (Some c) local (Z.of_nat height) (Z.of_nat lh) = Ok (Z.of_nat a) → (a < height)%nat →
  ∃ bs local', syncWithPeer p local = (blocks ← lift (assemble (getBlockBodies c ((λ b, hash_of b) <$> bs)) (known_headers ∅ (block_header <$> bs)) 0 ((λ b, hash_of b) <$> bs));
      local ← get_state; let '(failed, local) := lc_InsertChain blocks local in modify (λ _, local);; if failed : bool then throw errInvalidChain else mret tt) local' ∧
    bs `sublist_of` drop (S a) blocks ∧ ((length blocks - S a ≤ 192)%nat → bs = drop (S a) blocks ∧ local' = lc_InsertHeaderChain (block_header <$> bs) local) ∧
    (192 `min` (length blocks - S a) ≤ length bs)%nat.
Proof.
  intros Htop Hlocal Hlh Ha Hlt. pose proof blocks_short as Hshort. assert (is_u64 (Z.of_nat height) ∧ is_u64 (Z.of_nat lh)) as [HuH Hul] by (u64_unfold; lia).
  unfold syncWithPeer. unfold mbind at 1, gom_bind at 1, lift at 1. rewrite (fetchHeight_run top Htop). cbv beta iota. unfold mbind at 1, gom_bind at 1, get_state at 1. cbv beta iota.
  unfold mbind at 1, gom_bind at 1, lift at 1. rewrite Hlocal. cbn [Types.Uint64]. rewrite wrap64_id by done. unfold mbind at 1, gom_bind at 1, lift at 1. rewrite (top_number top Htop). cbn [Types.Uint64]. rewrite wrap64_id by done.
  unfold mbind at 1, gom_bind at 1, lift at 1. rewrite (st_ancestor _ Hp), Ha. cbv beta iota. unfold mbind at 1, gom_bind at 1, lift at 1.
  rewrite (u64_sub_id (Z.of_nat height)), (report_run top) by (done || (u64_unfold; lia)).
  destruct (blocks !! lh) as [bl|] eqn:Hbl; [|apply lookup_ge_None in Hbl; lia]. cbv beta iota.
  rewrite u64_add_id by (u64_unfold; lia). replace (Z.of_nat a + 1) with (Z.of_nat (S a)) by lia.
  destruct (fetch_headers_run p (st_headers _ Hp) (S (Z.to_nat (Z.of_nat height - Z.of_nat a))) 0 (S a) height [] ∅ local) as (hs & local' & Hrun & Hsub & Hcase); [lia|lia|].
  rewrite (gom_bind_run _ _ _ _ _ Hrun). rewrite decide_True in Hcase by lia. destruct Hcase as (rest & Hhs & _ & Hend). rewrite <- fmap_drop in Hsub.
  destruct (sublist_fmap_inv _ _ _ Hsub) as (bs & -> & Hbs). exists bs, local'. split.
  - unfold mbind at 1, gom_bind at 1, lift at 1. cbv beta iota. rewrite (st_bodies _ Hp). cbn [GetBodies]. cbn [app]. rewrite <- list_fmap_compose. reflexivity.
  - split; [done|]. unfold batch in Hhs. rewrite <- fmap_drop, <- fmap_take in Hhs. split.
    + intros Hle. destruct Hend as [-> Hl]; [lia|]. rewrite app_nil_r in Hhs. rewrite (take_ge (drop (S a) blocks)) in Hhs by (rewrite length_drop; lia).
      assert (bs = drop (S a) blocks) as Hbseq by (apply (sublist_same_length _ _ Hbs); by rewrite <- (length_fmap block_header bs), Hhs, length_fmap). split; [done|].
      rewrite Hl, Hbseq. f_equal. unfold batch. rewrite <- fmap_drop. apply take_ge. rewrite length_fmap, length_drop. lia.
    + apply (f_equal length) in Hhs. rewrite length_app, !length_fmap, length_take, length_drop in Hhs. lia.
Qed.
(** The report reads a block that a shorter chain does not have. *)
Lemma report_panics top local lh a : last blocks = Some top → Number (block_header (lc_CurrentBlock local)) = Some (Z.of_nat lh) → Z.of_nat lh < 2 ^ 62 → (length blocks ≤ lh)%nat →
  findAncestor (Some c) local (Z.of_nat height) (Z.of_nat lh) = Ok (Z.of_nat a) → (a < height)%nat → (syncWithPeer p local).1 = Panic NilDereference.
Proof.
  intros Htop Hlocal Hsmall Hlh Ha Hlt. pose proof blocks_short as Hshort. change (2 ^ 62) with 4611686018427387904 in Hsmall. assert (is_u64 (Z.of_nat height) ∧ is_u64 (Z.of_nat lh)) as [HuH Hul] by (u64_unfold; lia).
  unfold syncWithPeer. unfold mbind at 1, gom_bind at 1, lift at 1. rewrite (fetchHeight_run top Htop). cbv beta iota. unfold mbind at 1, gom_bind at 1, get_state at 1. cbv beta iota.
  unfold mbind at 1, gom_bind at 1, lift at 1. rewrite Hlocal. cbn [Types.Uint64]. rewrite wrap64_id by done. unfold mbind at 1, gom_bind at 1, lift at 1. rewrite (top_number top Htop). cbn [Types.Uint64]. rewrite wrap64_id by done.
  unfold mbind at 1, gom_bind at 1, lift at 1. rewrite (st_ancestor _ Hp), Ha. cbv beta iota. unfold mbind at 1, gom_bind at 1, lift at 1.
  rewrite (u64_sub_id (Z.of_nat height)), (report_run top) by (done || (u64_unfold; lia)).
  by rewrite (proj2 (lookup_ge_None blocks lh)) by lia.
Qed.
Lemma bs_ready bs a : bs `sublist_of` drop a blocks → NoDup ((λ b, hash_of b) <$> bs) ∧ ∀ b, b ∈ bs → b ∈ blocks ∧ known_headers ∅ (block_header <$> bs) !! hash_of b = Some (block_header b).
Proof.
  intros Hbs. assert (NoDup ((λ b, hash_of b) <$> bs)) as Hnd.
  { eapply sublist_NoDup; [exact (ca_distinct _ _ Hc)|]. apply fmap_sublist. etrans; [exact Hbs|apply sublist_drop]. }
  split; [done|]. intros b Hb. split.
  - apply (elem_of_sublist bs); [done|]. etrans; [exact Hbs|apply sublist_drop].
  - apply known_headers_lookup; [by rewrite <- list_fmap_compose|]. by apply list_elem_of_fmap_2.
Qed.
End fetching.

Lemma sync_with_steady `{Crypto} {C : Type} `{ServedChain C} {L : Type} `{LocalChain L} (c : C) blocks (p : SyncPeer C) (local : L) (lh a : nat) :
  serves c blocks → steady c blocks p → blocks ≠ [] →
  Number (block_header (lc_CurrentBlock local)) = Some (Z.of_nat lh) → Z.of_nat lh < 2 ^ 62 →
  findAncestor (Some c) local (Z.of_nat (length blocks - 1)) (Z.of_nat lh) = Ok (Z.of_nat a) →
  let missing := drop (S a) blocks in
  (lh < length blocks → 0 < length missing ≤ 128 → syncWithPeer p local =
    let '(failed, local') := lc_InsertChain missing (lc_InsertHeaderChain (block_header <$> missing) local) in (if failed : bool then Err errInvalidChain else Ok tt, local'))%nat ∧
  (lh < length blocks → 128 < length missing → (syncWithPeer p local).1 = Err errInvalidBody)%nat ∧
  (length blocks ≤ lh → 0 < length missing → (syncWithPeer p local).1 = Panic NilDereference)%nat.
Proof.
  intros Hc Hp Hne Hlocal Hsmall Ha missing. assert (length missing = length blocks - S a)%nat as Hlen by apply length_drop. assert (drop (S a) blocks = missing) as Hdrop by done. clearbody missing. destruct (last blocks) as [top|] eqn:Htop; [|by apply last_None in Htop].
  assert (∀ (Hlh : (lh ≤ length blocks - 1)%nat) (Hlt : (a < length blocks - 1)%nat), _) as Hrun by (intros Hlh Hlt; exact (sync_up_to_bodies c blocks Hc p Hp top local lh a Htop Hlocal Hlh Ha Hlt)).
  split; [|split; [|intros Hlh Hmissing; apply (report_panics c blocks Hc p Hp top local lh a); done || lia]]; intros Hlh Hmissing; (destruct Hrun as (bs & local' & -> & Hbs & Hshort & Hmany); [lia|lia|]); rewrite Hdrop in Hshort; destruct (bs_ready c blocks Hc bs (S a) Hbs) as [Hnd Hready]; set (hashes := (λ b, Header_Hash (block_header b)) <$> bs) in *;
    (destruct (collect_bodies_ok c hashes ∅ Hnd) as (C1 & C2 & C3); [intros h (b & -> & Hb)%list_elem_of_fmap; split; [|apply lookup_empty]; destruct (ca_body _ _ Hc b) as (body & Hbody & _); [by apply Hready|]; rewrite Hbody; by eexists|]);
    fold (getBlockBodies c hashes) in C1, C2, C3; rewrite map_size_empty, Nat.sub_0_r, Nat.add_0_l in *.
  - destruct Hshort as [Hbseq ->]; [lia|]. subst bs. rewrite (take_ge hashes) in C1, C2, C3 by (unfold hashes; rewrite length_fmap; lia).
    unfold mbind at 1, gom_bind at 1, lift at 1. unfold hashes at 2. rewrite (assemble_all c blocks Hc (getBlockBodies c hashes) _ 0 missing).
    + unfold mbind at 1, gom_bind at 1, get_state at 1. cbv beta iota. destruct (lc_InsertChain _ _) as [[|] l]; done.
    + intros b Hb. destruct (Hready b Hb) as [? ?]. split; [done|]. split; [|done]. apply C1. by apply (list_elem_of_fmap_2 (λ b, Header_Hash (block_header b))).
    + rewrite C3. unfold hashes. rewrite length_fmap. lia.
  - assert (128 < length bs)%nat as Hbig by lia. destruct (lookup_lt_is_Some_2 bs 128 Hbig) as [b Hb]. pose proof (take_drop_middle bs 128 b Hb) as Hsplit.
    unfold mbind at 1, gom_bind at 1, lift at 1. unfold hashes at 2. rewrite <- Hsplit at 2. rewrite fmap_app, fmap_cons.
    rewrite (assemble_misses c blocks Hc (getBlockBodies c hashes) _ 0 (take 128 bs) b); [done|..].
    + intros x Hx. destruct (Hready x) as [? ?]; [apply (elem_of_sublist (take 128 bs)); [done|apply sublist_take]|]. split; [done|]. split; [|done]. apply C1. unfold hashes. rewrite <- fmap_take. by apply (list_elem_of_fmap_2 (λ b, Header_Hash (block_header b))).
    + rewrite C3. unfold hashes. rewrite length_take, length_take, length_fmap. lia.
    + rewrite C2, lookup_empty; [done|]. unfold hashes in *. rewrite <- Hsplit in Hnd. rewrite fmap_app, fmap_cons in Hnd. apply NoDup_app in Hnd as (_ & Hnd & _).
      rewrite <- fmap_take. intros Hin. apply (Hnd _ Hin). left.
Qed.

(** C20: Synchronising with a peer whose chain stays as it is.  Of a branch of at
    most 128 blocks, exactly the blocks above the common ancestor are fetched,
    and they are handed to the chain in order.  Of a longer one nothing is ever
    handed to the chain: only 128 bodies are served, so that the
    synchronisation ends with an invalid body, whatever the blocks are.  And a
    peer with a chain that is shorter than the local one, which may well be
    heavier, crashes the synchronisation. *)
Theorem sync_fetches_short_branches `{Crypto} {C : Type} `{ServedChain C} {L : Type} `{LocalChain L} (c : C) blocks (p : SyncPeer C) (local : L) (lh a : nat) :
  serves c blocks → steady c blocks p → blocks ≠ [] →
  Number (block_header (lc_CurrentBlock local)) = Some (Z.of_nat lh) → Z.of_nat lh < 2 ^ 62 →
  findAncestor (Some c) local (Z.of_nat (length blocks - 1)) (Z.of_nat lh) = Ok (Z.of_nat a) →
  let missing := drop (S a) blocks in
  (lh < length blocks → 0 < length missing ≤ 128 → syncWithPeer p local =
    let '(failed, local') := lc_InsertChain missing (lc_InsertHeaderChain (block_header <$> missing) local) in (if failed : bool then Err errInvalidChain else Ok tt, local'))%nat ∧
  (lh < length blocks → 128 < length missing → (syncWithPeer p local).1 = Err errInvalidBody)%nat ∧
  (length blocks ≤ lh → 0 < length missing → (syncWithPeer p local).1 = Panic NilDereference)%nat.
Proof. apply sync_with_steady. Qed.

(** * The chain of a node *)
(** What a lookup finds; what it leaves in the caches does not show. *)
Definition looked_up {S E A} (m : GoM S E A) (default : A) (s : S) : A := match m s with (Ok a, _) => a | _ => default end.
Lemma returns_looked_up {S E A} (m : GoM S E A) default (Q : A → S → Prop) a s : returns m Q s → (∀ a' s', Q a' s' → a' = a) → looked_up m default s = a.
Proof. rewrite returns_run. intros (a' & s' & Hrun & HQ) HP. unfold looked_up. rewrite Hrun. by eapply HP. Qed.

(** A list of what there is for every number. *)
Lemma numbered {A} (P : nat → A → Prop) n : (∀ k, (k < n)%nat → ∃ a, P k a) → ∃ l, length l = n ∧ ∀ k a, l !! k = Some a → P k a.
Proof.
  induction n as [|n IH]; intros Hall; [by exists []|]. destruct IH as (l & Hlen & Hl); [intros k Hk; apply Hall; lia|]. destruct (Hall n) as [a Ha]; [lia|].
  exists (l ++ [a]). split; [rewrite length_app; cbn; lia|]. intros k b Hk. apply lookup_snoc_Some in Hk as [[_ Hk]|[-> <-]]; [by apply Hl|by rewrite Hlen].
Qed.
(** A decoded header has a number and a difficulty. *)
Class RlpFilled `{!Rlp Header} := rlp_filled data (h : Header) : rlp_DecodeBytes data = Some h → is_Some (Number h) ∧ is_Some (Difficulty h).

Section chain_served.
Context {C : Type → Type} {D : Type} `{LRU C} `{!LRULaws C} `{Crypto} `{TxCrypto}.
Context `{!Rlp Header} `{!Rlp Body} `{!Rlp Z} `{!Rlp (list storedReceiptRLP)} `{ContractAddresses} `{!RlpFilled}.
Context `{!RlpLaws Header storable_header} `{!RlpLaws Body storable_body} `{!RlpLaws Z (λ x, 0 ≤ x)} `{!RlpLaws (list storedReceiptRLP) (λ _, True)}.
Implicit Types bc : BlockChain C D.

#[export] Instance chain_served : ServedChain (BlockChain C D) := {
  sc_GetHeaderByHash bc hash := looked_up (on_hc (HeaderChain.GetHeaderByHash hash)) None bc;
  sc_GetHeader bc hash number := looked_up (on_hc (HeaderChain.GetHeader hash number)) None bc;
  sc_GetHeaderByNumber bc number := looked_up (on_hc (HeaderChain.GetHeaderByNumber number)) None bc;
  sc_GetAncestor bc hash number ancestor maxNonCanonical := looked_up (on_hc (GetAncestor hash number ancestor maxNonCanonical)) (zero_hash, 0, 0) bc;
  sc_GetBody bc hash := looked_up (GetBody hash) None bc;
  sc_GetBlockByNumber bc number := looked_up (GetBlockByNumber number) None bc;
  sc_CurrentBlock bc := bc_currentBlock bc
}.
Context (genesis : Hash).
(** A block is stored as its header and a body that gives it back. *)
Lemma stored_parts db b n : stored db b n → ReadHeader db (block_hash b) n = Some (block_header b) ∧
  ∃ body, ReadBody db (block_hash b) n = Some body ∧ WithBody (NewBlockWithHeader (block_header b)) (body_Transactions body) (body_Uncles body) = b.
Proof.
  intros (_ & _ & Hr). unfold ReadBlock in Hr. destruct (ReadHeader db (block_hash b) n) as [hd|] eqn:Hhd; [|done]. destruct (ReadBody db (block_hash b) n) as [body|]; [|done]. injection Hr as Hb.
  assert (CopyHeader hd = hd) as Hcopy.
  { unfold ReadHeader, read_rlp in Hhd. destruct (db_Get db _) as [[|byte data]|]; [done| |done]. destruct (rlp_filled _ _ Hhd) as [[? Hn] [? Hd]]. unfold CopyHeader. rewrite Hn, Hd. destruct hd; cbn in *; by subst. }
  assert (block_header b = hd) as -> by (rewrite <- Hb; cbn; by rewrite !Hcopy). split; [done|]. by exists body.
Qed.
(** The body of a stored block makes the block up again, from the cache or not,
    and looking it up keeps the caches true. *)
Lemma GetBody_ok bc b n : chain_inv genesis bc → stored (bc_db bc) b n →
  returns (GetBody (block_hash b)) (λ r bc', (∃ body, r = Some body ∧ made_up b body) ∧ quiet genesis bc bc') bc.
Proof.
  intros Hinv Hb. destruct (stored_known _ _ _ _ (ci_db _ _ Hinv) Hb) as [td [_ _ Hnum _ _ _ _]]. pose proof Hb as (Hh & Hn & Hr).
  destruct (stored_parts _ _ _ Hb) as (_ & body & Hbody & Hmade).
  assert (∀ bodies bc', bc' = set_block_caches bodies (bc_receiptsCache bc) (bc_blockCache bc) bc →
    (∀ h body', lru_Peek h bodies = Some body' → lru_Peek h (bc_bodyCache bc) = Some body' ∨ h = block_hash b ∧ body' = body) → quiet genesis bc bc') as Hset.
  { intros bodies bc' -> Hin. destruct Hinv as [Hdb [C1 C2 C3 C4 C5]]. split; [|done]. split; [exact Hdb|]. split; try done.
    intros h body' Hp. destruct (Hin h body' Hp) as [Hp'|[-> ->]]; [by apply C5|]. split; [done|]. by exists n, b. }
  unfold GetBody. wp_steps. destruct (lru_Get (block_hash b) (bc_bodyCache bc)) as [cached bodies] eqn:Hget. pose proof (get_peek _ _ _ _ Hget) as Hpeek.
  assert (∀ h body', lru_Peek h bodies = Some body' → lru_Peek h (bc_bodyCache bc) = Some body') as Hgot by (intros; by eapply peek_get).
  pose proof (Hset bodies _ eq_refl ltac:(intros; left; by apply Hgot)) as Hq1. apply returns_put_state.
  destruct cached as [body'|].
  - wp_steps. split; [|exact Hq1]. symmetry in Hpeek. destruct (ca_bodies _ (ci_caches _ _ Hinv) _ _ Hpeek) as (_ & n' & b' & _ & Hn' & Hb' & Hm).
    exists body'. split; [done|]. assert (n' = n) as -> by congruence. assert (b' = b) as -> by congruence. exact Hm.
  - apply returns_bind. eapply returns_mono; [apply (GetBlockNumber_ok genesis); [apply Hq1|done]|]. cbn beta. intros r bc1 [-> Hq2].
    change (ReadHeaderNumber _ _) with (ReadHeaderNumber (bc_db bc) (block_hash b)). rewrite Hnum. wp_steps. pose proof (quiet_trans _ _ _ _ Hq1 Hq2) as Hq.
    rewrite (quiet_db _ _ _ Hq), Hbody. wp_steps. split; [by exists body|]. eapply quiet_trans; [exact Hq|].
    destruct Hq as [[Hdb [C1 C2 C3 C4 C5]] Hcore]. assert (bc_db bc1 = bc_db bc) as Hd by (by injection Hcore). split; [|done]. split; [exact Hdb|]. split; try done.
    cbn. intros h body' [[-> ->]|[_ Hp]]%peek_add; [|by apply C5]. split; [done|]. exists n, b. split_and!; [done| | |done]; [change (ReadHeaderNumber (bc_db bc1) (block_hash b) = Some n)|change (ReadBlock (bc_db bc1) (block_hash b) n = Some b)]; by rewrite Hd.
Qed.
(** Below the head there is a stored block at every number, and it is canonical. *)
Lemma below_head bc ob on j : chain_ok genesis bc ob on → 0 ≤ j ≤ on → ∃ b, stored (bc_db bc) b j ∧ ReadCanonicalHash (bc_db bc) j = block_hash b ∧ (j = on → b = ob).
Proof.
  intros [[Hdb _] _ Hob Hcan] Hj. assert (∀ k : nat, Z.of_nat k ≤ on → ∃ l b, path (bc_db bc) ob on l b (on - Z.of_nat k)) as Hpath.
  { induction k as [|k IH]; intros Hk; [exists [], ob; rewrite Z.sub_0_r; by constructor|]. destruct IH as (l & b & Hp); [lia|]. pose proof (path_end _ _ _ _ _ _ Hp) as Hb.
    destruct (stored_parent _ _ _ _ Hdb Hb) as (p & _ & Hps & Hph); [lia|]. exists (l ++ [b]), p. replace (on - Z.of_nat (S k)) with (on - Z.of_nat k - 1) by lia.
    eapply path_app; [exact Hp|]. apply path_single; [done|lia|done|done]. }
  destruct (Hpath (Z.to_nat (on - j))) as (l & b & Hp); [lia|]. replace (on - Z.of_nat (Z.to_nat (on - j))) with j in Hp by lia.
  exists b. split; [by eapply path_end|]. split; [by eapply Hcan|]. intros ->. pose proof (path_height _ _ _ _ _ _ Hp) as Hl. destruct l; [|cbn in Hl; lia]. by inversion Hp.
Qed.

Lemma number_served bc n : chain_inv genesis bc → is_u64 n → let hash := ReadCanonicalHash (bc_db bc) n in
  sc_GetHeaderByNumber bc n = (if hash =? zero_hash then None else ReadHeader (bc_db bc) hash n) ∧
  sc_GetBlockByNumber bc n = (if hash =? zero_hash then None else ReadBlock (bc_db bc) hash n).
Proof.
  intros Hinv Hn hash. split.
  - apply (returns_looked_up _ _ _ _ _ (GetHeaderByNumber_ok genesis bc _ Hinv Hn)). by intros r bc' [-> _].
  - apply (returns_looked_up _ _ _ _ _ (GetBlockByNumber_ok genesis bc _ Hinv Hn)). by intros r bc' [-> _].
Qed.
Lemma canonical_served bc blocks : chain_inv genesis bc → bc_currentBlock bc = last blocks → (∀ n b, blocks !! n = Some b → block_hash b ≠ zero_hash) → Z.of_nat (length blocks) < 4611686018427387904 →
  (∀ n b, blocks !! n = Some b → stored (bc_db bc) b (Z.of_nat n) ∧ ReadCanonicalHash (bc_db bc) (Z.of_nat n) = block_hash b) → serves_chain bc blocks.
Proof.
  intros Hinv Hcur Hnz Hlen Hat. pose proof (ci_db _ _ Hinv) as Hdb.
  assert (∀ n b, blocks !! n = Some b → sc_GetHeaderByNumber bc (Z.of_nat n) = Some (block_header b) ∧ sc_GetBlockByNumber bc (Z.of_nat n) = Some b) as Hnum.
  { intros n b Hb. destruct (Hat _ _ Hb) as [Hst Hc]. destruct (number_served bc (Z.of_nat n) Hinv) as [-> ->]; [apply Hst|].
    rewrite Hc, (proj2 (Z.eqb_neq _ _)) by by eapply Hnz. split; [by apply stored_parts|apply Hst]. }
  split.
  - intros n b Hb. eapply stored_number; [exact Hdb|]. by apply Hat.
  - intros n b Hb. by apply Hnum.
  - intros n b Hb. by apply Hnum.
  - intros b [n Hn]%list_elem_of_lookup. destruct (Hat _ _ Hn) as (Hb & _). apply (returns_looked_up _ _ _ _ _ (GetHeaderByHash_ok genesis bc (block_hash b) Hinv (proj1 Hb))). intros r bc' [-> _].
    destruct (stored_known _ _ _ _ Hdb Hb) as [td [_ _ Hbn _ _ _ _]]. rewrite Hbn. cbn [mbind option_bind]. by apply stored_parts.
  - intros b [n Hn]%list_elem_of_lookup. destruct (Hat _ _ Hn) as (Hb & _). destruct (proj1 (returns_run _ _ _) (GetBody_ok bc b _ Hinv Hb)) as (r & bc' & Hrun & (body & -> & Hm) & _).
    exists body. split; [|exact Hm]. change (looked_up (GetBody (block_hash b)) None bc = Some body). unfold looked_up. by rewrite Hrun.
  - intros b [n Hn]%list_elem_of_lookup. by eapply Hnz.
  - apply NoDup_alt. intros i j h Hi Hj. apply list_lookup_fmap_Some in Hi as (b & -> & Hb), Hj as (b' & Heq & Hb').
    destruct (Hat _ _ Hb) as (Hs & _), (Hat _ _ Hb') as (Hs' & _). destruct (stored_same _ _ _ _ _ _ Hdb Hs Hs' Heq). lia.
  - exact Hlen.
  - exact Hcur.
Qed.

(** C28: a well-formed chain serves its canonical blocks, through the caches.
    Unless one of them hashes to zero, every number up to the head's gives the
    header and the block of the branch of the head, every hash of one gives its
    header and a body that makes it up again.  Above the head a number gives what
    the canonical entries still name, which is nothing unless the chain was
    reorganised to a shorter branch; then the chain is all that is served. *)
Theorem chain_serves_canonical_blocks bc ob on : chain_ok genesis bc ob on → on < 2 ^ 62 - 1 → (∀ n, 0 ≤ n ≤ on → ReadCanonicalHash (bc_db bc) n ≠ zero_hash) →
  ∃ blocks, serves_chain bc blocks ∧ Z.of_nat (length blocks) = on + 1 ∧ last blocks = Some ob ∧
    (∀ n b, blocks !! n = Some b → stored (bc_db bc) b (Z.of_nat n) ∧ ReadCanonicalHash (bc_db bc) (Z.of_nat n) = block_hash b) ∧
    (∀ n, is_u64 n → on < n → let hash := ReadCanonicalHash (bc_db bc) n in
       sc_GetHeaderByNumber bc n = (if hash =? zero_hash then None else ReadHeader (bc_db bc) hash n) ∧
       sc_GetBlockByNumber bc n = (if hash =? zero_hash then None else ReadBlock (bc_db bc) hash n)) ∧
    ((∀ n, is_u64 n → on < n → ReadCanonicalHash (bc_db bc) n = zero_hash) → serves bc blocks).
Proof.
  intros Hok Hsmall Hnz. pose proof Hok as [Hinv _ Hob _]. pose proof Hinv as [Hdb _]. change (2 ^ 62) with 4611686018427387904 in Hsmall.
  assert (0 ≤ on) as Hon by apply Hob.
  destruct (numbered (λ k b, stored (bc_db bc) b (Z.of_nat k) ∧ ReadCanonicalHash (bc_db bc) (Z.of_nat k) = block_hash b ∧ (Z.of_nat k = on → b = ob)) (S (Z.to_nat on))) as (blocks & Hlen & Hat).
  { intros k Hk. apply below_head; [done|lia]. }
  assert (∀ k b, blocks !! k = Some b → block_hash b ≠ zero_hash) as Hnonzero.
  { intros k b Hb. destruct (Hat _ _ Hb) as (_ & <- & _). apply Hnz. apply lookup_lt_Some in Hb. lia. }
  assert (last blocks = Some ob) as Hlast.
  { rewrite last_lookup, Hlen. cbn [pred]. destruct (blocks !! Z.to_nat on) as [b|] eqn:Hb; [|apply lookup_ge_None in Hb; lia]. f_equal. apply (Hat _ _ Hb). lia. }
  assert (serves_chain bc blocks) as Hserves by (eapply canonical_served; [exact Hinv|rewrite Hlast; apply Hok|exact Hnonzero|lia|intros k b Hb; destruct (Hat _ _ Hb) as (? & ? & _); done]).
  assert (∀ n, is_u64 n → let hash := ReadCanonicalHash (bc_db bc) n in
    sc_GetHeaderByNumber bc n = (if hash =? zero_hash then None else ReadHeader (bc_db bc) hash n) ∧
    sc_GetBlockByNumber bc n = (if hash =? zero_hash then None else ReadBlock (bc_db bc) hash n)) as Hnum by (intros n Hn; by apply number_served).
  exists blocks. split_and!; [exact Hserves|lia|exact Hlast|intros n b Hb; destruct (Hat _ _ Hb) as (? & ? & _); done|intros n Hn _; by apply Hnum|].
  intros Habove. apply serves_ended; [exact Hserves|]. intros n Hn Hge. destruct (Hnum _ Hn) as [-> ->]. by rewrite Habove by (done || lia).
Qed.
End chain_served.
