(* ===== verification/Protocol.v ===== *)
(** The Ethereum protocol between nodes ([peer.go], [protocol_manager.go],
    [eth_protocol.go], [sync.go]): what a node knows of its peers, the messages it
    sends them, and how it reacts to theirs.

    Sending hands a message to the simulation, which delivers it later, and does
    not wait; a node that is offline closes the peer instead.  Between the two
    assignments of [broadcasting] nothing else runs, so that the flag is left
    out.  Which of its queues a peer serves first is up to the runtime. *)
From S2P Require Import Prelude Types Sealing Blocks TxSigning TxPool Worker Sync.

Definition maxKnownTxs : Z := 32768.
Definition maxKnownBlocks : Z := 1024.
Definition maxQueuedTxs : nat := 128.
Definition maxQueuedProps : nat := 4.
Definition maxQueuedAnns : nat := 4.
Definition minBroadcastPeers : nat := 4.
Definition minDesiredPeerCount : Z := 5.
Inductive eth_error := eth_errEthPeerClosed | errAlreadyRegistered | errNotRegistered | ErrNetworkIdMismatch | ErrGenesisBlockMismatch.
Abbreviation ID := Z.

(** [Pop] of the set library takes an element out. *)
Class SetPop := { mapset_Pop : gset Hash → Hash; mapset_Pop_in known : known ≠ ∅ → mapset_Pop known ∈ known }.

Inductive message := TxMsg (txs : list Transaction) | NewBlockMsg (block : Block) (td : Z) | NewBlockHashesMsg (announces : list (Hash * Z)).
(** A peer, with the messages sent to it so far; its total difficulty is [nil]
    before the handshake. *)
Record peer := mkPeer {
  p_head : Hash;
  p_td : option Z;
  p_knownTxs : gset Hash;
  p_knownBlocks : gset Hash;
  p_queuedTxs : list (list Transaction);
  p_queuedProps : list (Block * Z);
  p_queuedAnns : list Block;
  p_quit : bool;
  p_sent : list message
}.
Definition newPeer : peer := mkPeer zero_hash None ∅ ∅ [] [] [] false [].
Definition set_known (txs blocks : gset Hash) p : peer :=
  mkPeer (p_head p) (p_td p) txs blocks (p_queuedTxs p) (p_queuedProps p) (p_queuedAnns p) (p_quit p) (p_sent p).
Definition set_queues (txs : list (list Transaction)) (props : list (Block * Z)) (anns : list Block) p : peer :=
  mkPeer (p_head p) (p_td p) (p_knownTxs p) (p_knownBlocks p) txs props anns (p_quit p) (p_sent p).
Definition set_line (quit : bool) (sent : list message) p : peer :=
  mkPeer (p_head p) (p_td p) (p_knownTxs p) (p_knownBlocks p) (p_queuedTxs p) (p_queuedProps p) (p_queuedAnns p) quit sent.
(** [Head], [SetHead] *)
Definition Head {E} p : Result E (Hash * Z) := match p_td p with Some td => Ok (p_head p, td) | None => Panic NilDereference end.
Definition set_head (hash : Hash) (td : Z) p : peer :=
  mkPeer hash (Some td) (p_knownTxs p) (p_knownBlocks p) (p_queuedTxs p) (p_queuedProps p) (p_queuedAnns p) (p_quit p) (p_sent p).
Definition SetHead {E} (hash : Hash) (td : Z) p : Result E peer :=
  match p_td p with Some _ => Ok (set_head hash td p) | None => Panic NilDereference end.

Section peer.
Context `{Crypto} `{TxCrypto} `{SetPop}.
Implicit Types (p : peer) (known : gset Hash).

(** Room is made in a full set. *)
Fixpoint drop_known (fuel : nat) (limit : Z) known : gset Hash :=
  if limit <=? Z.of_nat (size known) then
    match fuel with O => known | S fuel => drop_known fuel limit (known ∖ {[mapset_Pop known]}) end
  else known.
Definition mark (limit : Z) (hash : Hash) known : gset Hash := {[hash]} ∪ drop_known (size known) limit known.
Definition MarkBlock (hash : Hash) p : peer := set_known (p_knownTxs p) (mark maxKnownBlocks hash (p_knownBlocks p)) p.
Definition MarkTransaction (hash : Hash) p : peer := set_known (mark maxKnownTxs hash (p_knownTxs p)) (p_knownBlocks p) p.
Definition add_block (hash : Hash) p : peer := set_known (p_knownTxs p) ({[hash]} ∪ p_knownBlocks p) p.
Definition add_txs (txs : list Transaction) p : peer := set_known (list_to_set (rlpHash_tx <$> txs) ∪ p_knownTxs p) (p_knownBlocks p) p.

Section sending.
Context {E : Type} (online : bool) (choose : nat → nat).
Definition deliver (m : message) p : peer := if online then set_line (p_quit p) (p_sent p ++ [m]) p else set_line true (p_sent p) p.
(** [SendTransactions], [SendNewBlock], [SendNewBlockHashes], up to the next
    broadcast. *)
Definition put_txs (txs : list Transaction) p : peer := deliver (TxMsg txs) (add_txs txs p).
Definition put_block (block : Block) (td : Z) p : peer := deliver (NewBlockMsg block td) (add_block (Header_Hash (block_header block)) p).
Definition put_hash (block : Block) p : Result E peer :=
  number ← TxPool.NumberU64 block; Ok (deliver (NewBlockHashesMsg [(Header_Hash (block_header block), number)]) (add_block (Header_Hash (block_header block)) p)).
(** What the queues are ready to send. *)
Definition ready p : list (Result E peer) :=
  match p_queuedTxs p with txs :: rest => [Ok (put_txs txs (set_queues rest (p_queuedProps p) (p_queuedAnns p) p))] | [] => [] end ++
  match p_queuedProps p with (block, td) :: rest => [Ok (put_block block td (set_queues (p_queuedTxs p) rest (p_queuedAnns p) p))] | [] => [] end ++
  match p_queuedAnns p with block :: rest => [put_hash block (set_queues (p_queuedTxs p) (p_queuedProps p) rest p)] | [] => [] end.
Definition queued p : nat := length (p_queuedTxs p) + length (p_queuedProps p) + length (p_queuedAnns p).
Fixpoint broadcast (fuel : nat) p : Result E peer :=
  if p_quit p then Ok p else
  match ready p !! (choose fuel mod length (ready p))%nat with
  | None => Ok p
  | Some next => match fuel with O => Panic OutOfFuel | S fuel => p ← next; broadcast fuel p end
  end.
Definition AsyncSendTransactions (txs : list Transaction) p : Result E peer :=
  if (length (p_queuedTxs p) <? maxQueuedTxs)%nat then
    let p := add_txs txs (set_queues (p_queuedTxs p ++ [txs]) (p_queuedProps p) (p_queuedAnns p) p) in broadcast (queued p) p
  else Ok p.
Definition AsyncSendNewBlock (block : Block) (td : Z) p : Result E peer :=
  if (length (p_queuedProps p) <? maxQueuedProps)%nat then
    let p := add_block (Header_Hash (block_header block)) (set_queues (p_queuedTxs p) (p_queuedProps p ++ [(block, td)]) (p_queuedAnns p) p) in broadcast (queued p) p
  else Ok p.
Definition AsyncSendNewBlockHash (block : Block) p : Result E peer :=
  if (length (p_queuedAnns p) <? maxQueuedAnns)%nat then
    let p := add_block (Header_Hash (block_header block)) (set_queues (p_queuedTxs p) (p_queuedProps p) (p_queuedAnns p ++ [block]) p) in broadcast (queued p) p
  else Ok p.
End sending.

(** The status message: the peer is of the same network and has the same genesis
    block; its head and total difficulty are taken over. *)
Record statusData := mkStatus { NetworkId : Z; TD : Z; CurrentBlockHash : Hash; GenesisBlockHash : Hash }.
Definition readStatus (network : Z) (genesis : Hash) (status : statusData) : Result eth_error statusData :=
  if negb (network =? NetworkId status) then Err ErrNetworkIdMismatch else
  if negb (genesis =? GenesisBlockHash status) then Err ErrGenesisBlockMismatch else Ok status.
Definition shake (network : Z) (genesis : Hash) (status : statusData) p : Result eth_error peer :=
  status ← readStatus network genesis status; Ok (set_head (CurrentBlockHash status) (TD status) p).
End peer.

(** * The set of peers *)
Record peerSet := mkPeerSet { ps_peers : gmap ID peer; ps_closed : bool }.
Section peer_set.
Context `{Crypto} `{TxCrypto} `{SetPop} `{MapRange}.
Implicit Types (ps : peerSet) (p : peer).
Definition newPeerSet : peerSet := mkPeerSet ∅ false.
Definition Register (id : ID) p ps : Result eth_error peerSet :=
  if ps_closed ps then Err eth_errEthPeerClosed else
  match ps_peers ps !! id with Some _ => Err errAlreadyRegistered | None => Ok (mkPeerSet (<[id := p]> (ps_peers ps)) (ps_closed ps)) end.
Definition Unregister (id : ID) ps : Result eth_error peerSet :=
  match ps_peers ps !! id with None => Err errNotRegistered | Some _ => Ok (mkPeerSet (delete id (ps_peers ps)) (ps_closed ps)) end.
Definition Len ps : Z := Z.of_nat (size (ps_peers ps)).
Definition PeersWithoutBlock (hash : Hash) ps : list (ID * peer) := filter (λ e, hash ∉ p_knownBlocks e.2) (map_range (ps_peers ps)).
Definition PeersWithoutTx (hash : Hash) ps : list (ID * peer) := filter (λ e, hash ∉ p_knownTxs e.2) (map_range (ps_peers ps)).
Fixpoint best_of {E} (best : option (ID * peer * Z)) (l : list (ID * peer)) : Result E (option (ID * peer)) :=
  match l with
  | [] => Ok (fst <$> best)
  | (id, p) :: l =>
      '(_, td) ← Head p;
      best_of (match best with None => Some (id, p, td) | Some (_, bestTd) => if bestTd <? td then Some (id, p, td) else best end) l
  end.
Definition BestPeer {E} ps : Result E (option (ID * peer)) := best_of None (map_range (ps_peers ps)).
(** Closing the peers takes them out. *)
Definition ps_Close ps : peerSet := mkPeerSet ∅ true.
Definition Open ps : peerSet := mkPeerSet (ps_peers ps) false.
(** A peer that was closed by sending to it is removed. *)
Definition update_peer (id : ID) p ps : peerSet := mkPeerSet (if p_quit p then delete id (ps_peers ps) else <[id := p]> (ps_peers ps)) (ps_closed ps).
Fixpoint send_each {E} (f : ID → peer → Result E peer) (l : list (ID * peer)) ps : Result E peerSet :=
  match l with [] => Ok ps | (id, p) :: l => p ← f id p; send_each f l (update_peer id p ps) end.
End peer_set.

(** * The protocol manager *)
Class NodeChain (L : Type) := {
  nc_CurrentFastBlock : L → Block;
  nc_GetTd : L → Hash → Z → option Z;
  nc_GetTdByHash : L → Hash → option Z
}.
Section manager.
Context `{Crypto} `{TxCrypto} `{SetPop} `{MapRange} {L : Type} `{LocalChain L} `{NodeChain L} {E : Type}.
Context (online : bool) (choose : ID → nat → nat).
Implicit Types (ps : peerSet) (p : peer) (chain : L).

Definition nonnil {A} (x : option A) : Result E A := match x with Some a => Ok a | None => Panic NilDereference end.
Definition transfer_len (peers : nat) : nat :=
  let transferLen := Z.to_nat (Z.sqrt (Z.of_nat peers)) in
  let transferLen := if (transferLen <? minBroadcastPeers)%nat then minBroadcastPeers else transferLen in
  if (peers <? transferLen)%nat then peers else transferLen.
Definition BroadcastBlock chain (block : Block) (propagate : bool) ps : Result E peerSet :=
  let hash := Header_Hash (block_header block) in
  let peers := PeersWithoutBlock hash ps in
  number ← TxPool.NumberU64 block;
  if propagate then
    if lc_HasBlock chain (ParentHash (block_header block)) (number - 1)%u64 then
      d ← nonnil (Difficulty (block_header block));
      parentTd ← nonnil (nc_GetTd chain (ParentHash (block_header block)) (number - 1)%u64);
      send_each (λ id, AsyncSendNewBlock online (choose id) block (d + parentTd)) (take (transfer_len (length peers)) peers) ps
    else Ok ps
  else if lc_HasBlock chain hash number then send_each (λ id, AsyncSendNewBlockHash online (choose id) block) peers ps else Ok ps.
(** What [broadcastMinedBlock] does for the peers. *)
Definition broadcastMinedBlock chain (block : Block) ps : Result E peerSet :=
  ps ← BroadcastBlock chain block true ps; BroadcastBlock chain block false ps.
Definition add_to_txset (tx : Transaction) (peers : list (ID * peer)) (txset : gmap ID (list Transaction)) : gmap ID (list Transaction) :=
  foldl (λ txset e, <[e.1 := default [] (txset !! e.1) ++ [tx]]> txset) txset peers.
Definition BroadcastTxs (txs : list Transaction) ps : Result E peerSet :=
  let txset := foldl (λ txset tx, add_to_txset tx (PeersWithoutTx (rlpHash_tx tx) ps) txset) ∅ txs in
  send_each (λ id p, match txset !! id with Some txs => AsyncSendTransactions online (choose id) txs p | None => Ok p end)
    (filter (λ e, is_Some (txset !! e.1)) (map_range (ps_peers ps))) ps.

(** [HandleTxMsg]: the transactions that go to the pool. *)
Definition HandleTxMsg (txs : list Transaction) p : peer * list Transaction := (foldl (λ p tx, MarkTransaction (rlpHash_tx tx) p) p txs, txs).
(** [HandleNewBlockMsg], after the fetcher had the block; whether to synchronise. *)
Definition HandleNewBlockMsg chain (block : Block) (blockTD : Z) p : Result E (peer * bool) :=
  let p := MarkBlock (Header_Hash (block_header block)) p in
  d ← nonnil (Difficulty (block_header block));
  let trueTD := blockTD - d in
  '(_, td) ← Head p;
  if td <? trueTD then
    p ← SetHead (ParentHash (block_header block)) trueTD p;
    let currentBlock := lc_CurrentBlock chain in
    number ← TxPool.NumberU64 currentBlock;
    currentTd ← nonnil (nc_GetTd chain (Header_Hash (block_header currentBlock)) number);
    Ok (p, currentTd <? trueTD)
  else Ok (p, false).
(** [HandleNewBlockHashesMsg]: the announcements that the fetcher is notified of. *)
Definition HandleNewBlockHashesMsg chain (announces : list (Hash * Z)) p : peer * list (Hash * Z) :=
  (foldl (λ p a, MarkBlock a.1 p) p announces, filter (λ a, lc_HasBlock chain a.1 a.2 = false) announces).
End manager.

(** * Synchronising with a peer

    What a node keeps: its chain, whether fast synchronisation is on, whether
    transactions are accepted; and the block it announces at the end. *)
Record SyncNode (L : Type) := mkSyncNode { sn_chain : L; sn_fastSync : bool; sn_acceptTxs : bool }.
Arguments mkSyncNode {L} _ _ _. Arguments sn_chain {L} _. Arguments sn_fastSync {L} _. Arguments sn_acceptTxs {L} _.
Section synchronise.
Context `{Crypto} {C : Type} `{ServedChain C} {L : Type} `{LocalChain L} `{NodeChain L}.
Implicit Types (node : SyncNode L).
Definition block_number {S E} (b : Block) : GoM S E Z := lift (TxPool.NumberU64 b).
Definition turns_fast node (number : Z) : GoM (SyncNode L) Empty_set bool :=
  if sn_fastSync node then mret true else
  if number =? 0 then fastNumber ← block_number (nc_CurrentFastBlock (sn_chain node)); mret (0 <? fastNumber) else mret false.
Definition peer_ahead node (pTd : Z) : GoM (SyncNode L) Empty_set bool :=
  fastTd ← lift (nonnil (nc_GetTdByHash (sn_chain node) (Header_Hash (block_header (nc_CurrentFastBlock (sn_chain node))))));
  mret (fastTd <? pTd).
(** The downloader, with the answers of the peer and its total difficulty. *)
Definition pm_synchronise (synchronising : bool) (remote : option (SyncPeer C * Z)) : GoM (SyncNode L) Empty_set (option Block) :=
  match remote with
  | None => mret None
  | Some (p, pTd) =>
      node ← get_state;
      let currentBlock := lc_CurrentBlock (sn_chain node) in
      number ← block_number currentBlock;
      td ← lift (nonnil (nc_GetTd (sn_chain node) (Header_Hash (block_header currentBlock)) number));
      if pTd <=? td then mret None else
      fast ← turns_fast node number;
      modify (λ node, mkSyncNode (sn_chain node) fast (sn_acceptTxs node));;
      ahead ← if fast : bool then peer_ahead node pTd else mret true;
      if negb ahead then mret None else
      let '(result, chain) := Synchronise synchronising (Some p) (sn_chain node) in
      modify (λ node, mkSyncNode chain (sn_fastSync node) (sn_acceptTxs node));;
      '(err, _) ← lift result;
      match err with
      | Some _ => mret None
      | None =>
          modify (λ node, mkSyncNode (sn_chain node) false true);;
          number ← block_number (lc_CurrentBlock chain);
          mret (if 0 <? number then Some (lc_CurrentBlock chain) else None)
      end
  end.
End synchronise.
