(* ===== verification/ProtocolSpec.v ===== *)
(** What the protocol promises: a mined block reaches every peer that lacks it,
    each of them once; transactions go to the peers that lack them; the best peer
    is a heaviest one, and only heavier peers are synchronised with. *)
From S2P Require Import Prelude Hoare Types Sealing Blocks TxSigning TxPool Worker Sync SyncSpec Protocol.

(** * Known hashes *)
Section known.
Context `{SetPop}.
Implicit Types known : gset Hash.
Lemma drop_known_bounds fuel limit known : 0 < limit → (size known ≤ fuel)%nat →
  Z.of_nat (size (drop_known fuel limit known)) < limit ∧ drop_known fuel limit known ⊆ known.
Proof.
  intros Hlimit. revert known. induction fuel as [|fuel IH]; intros known Hfuel; cbn [drop_known]; destruct (Z.leb_spec limit (Z.of_nat (size known))) as [Hfull|Hroom]; try (split; [lia|done]).
  assert (known ≠ ∅) as Hne by (intros ->; rewrite size_empty in Hfull; lia). pose proof (mapset_Pop_in known Hne) as Hin.
  assert (size (known ∖ {[mapset_Pop known]}) < size known)%nat as Hless.
  { rewrite size_difference by set_solver. rewrite size_singleton. assert (size known ≠ 0%nat) by (intros Hz; apply size_empty_inv in Hz; set_solver). lia. }
  destruct (IH (known ∖ {[mapset_Pop known]})) as [H1 H2]; [lia|]. split; [done|set_solver].
Qed.
(** Marking keeps the sets of known hashes within their limit: afterwards the
    hash is known, at most [limit] are, and nothing else was added. *)
Theorem mark_bounds limit hash known : 0 < limit →
  hash ∈ mark limit hash known ∧ Z.of_nat (size (mark limit hash known)) ≤ limit ∧ mark limit hash known ⊆ {[hash]} ∪ known.
Proof.
  intros Hlimit. destruct (drop_known_bounds (size known) limit known Hlimit) as [Hsize Hsub]; [done|]. unfold mark. split_and!; [set_solver| |set_solver].
  pose proof (size_union_alt {[hash]} (drop_known (size known) limit known)) as Hu. rewrite Hu, size_singleton.
  assert (size (drop_known (size known) limit known ∖ {[hash]}) ≤ size (drop_known (size known) limit known))%nat by (apply subseteq_size; set_solver). lia.
Qed.
End known.

(** * Sending *)
Section sending.
Context `{Crypto} `{TxCrypto} `{SetPop} `{MapRange} {E : Type}.
Implicit Types (p : peer) (ps : peerSet).
Abbreviation hash_of b := (Header_Hash (block_header b)).
(** Nothing is queued, the line is open. *)
Definition at_rest p : Prop := p_queuedTxs p = [] ∧ p_queuedProps p = [] ∧ p_queuedAnns p = [] ∧ p_quit p = false.
Definition with_sent (m : message) p : peer := set_line (p_quit p) (p_sent p ++ [m]) p.
Lemma set_queues_rest p : at_rest p → set_queues [] [] [] p = p.
Proof. destruct p. unfold at_rest. cbn. by intros (-> & -> & -> & _). Qed.
Lemma one_ready choose p q : p_quit p = false → p_quit q = false → ready (E := E) true p = [Ok q] → ready (E := E) true q = [] → broadcast (E := E) true choose 1 p = Ok q.
Proof. intros Hp Hq Hr Hr'. cbn [broadcast]. rewrite Hp, Hr. cbn [length]. rewrite Nat.mod_1_r. cbn [lookup list_lookup mbind result_bind]. by rewrite Hq, Hr'. Qed.
Ltac one_message := match goal with Hp : at_rest ?p |- _ =>
  destruct p; unfold at_rest in Hp; cbn in Hp; destruct Hp as (-> & -> & -> & ->) end;
  apply one_ready; [reflexivity|reflexivity| |reflexivity]; cbn;
  unfold with_sent, add_block, add_txs, put_block, put_txs, put_hash, deliver, set_known, set_line, set_queues; cbn.
Lemma send_block_rest choose block td p : at_rest p → AsyncSendNewBlock (E := E) true choose block td p = Ok (with_sent (NewBlockMsg block td) (add_block (hash_of block) p)).
Proof. intros Hp. one_message. do 3 f_equal. set_solver. Qed.
Lemma send_hash_rest choose block n p : at_rest p → TxPool.NumberU64 (E := E) block = Ok n →
  AsyncSendNewBlockHash (E := E) true choose block p = Ok (with_sent (NewBlockHashesMsg [(hash_of block, n)]) (add_block (hash_of block) p)).
Proof. intros Hp Hn. one_message. rewrite Hn. cbn. do 3 f_equal. set_solver. Qed.
Lemma send_txs_rest choose txs p : at_rest p → AsyncSendTransactions (E := E) true choose txs p = Ok (with_sent (TxMsg txs) (add_txs txs p)).
Proof. intros Hp. one_message. do 3 f_equal. set_solver. Qed.
Lemma with_sent_rest m p : at_rest p → at_rest (with_sent m p).
Proof. by destruct p. Qed.
Lemma add_block_rest hash p : at_rest p → at_rest (add_block hash p).
Proof. by destruct p. Qed.
Lemma add_txs_rest txs p : at_rest p → at_rest (add_txs txs p).
Proof. by destruct p. Qed.

(** ** To some of the peers *)
Definition all_rest ps : Prop := map_Forall (λ _ p, at_rest p) (ps_peers ps).
Lemma in_range (m : gmap ID peer) id p : (id, p) ∈ map_range m ↔ m !! id = Some p.
Proof. rewrite map_range_perm. apply elem_of_map_to_list. Qed.
Lemma range_keys (m : gmap ID peer) : NoDup (map_range m).*1.
Proof. rewrite map_range_perm. apply NoDup_fst_map_to_list. Qed.
(** Every peer of the list, once, becomes what the function makes of it. *)
Lemma send_each_map f (g : ID → peer → peer) l ps : NoDup l.*1 → (∀ id p, (id, p) ∈ l → ps_peers ps !! id = Some p ∧ f id p = Ok (g id p) ∧ p_quit (g id p) = false) →
  ∃ ps', send_each (E := E) f l ps = Ok ps' ∧ ps_closed ps' = ps_closed ps ∧
    ∀ id, ps_peers ps' !! id = (λ p, if decide (id ∈ l.*1) then g id p else p) <$> ps_peers ps !! id.
Proof.
  revert ps. induction l as [|[id p] l IH]; intros ps Hnd Hl; cbn [send_each].
  - exists ps. split; [done|]. split; [done|]. intros id. destruct (_ !! id); [|done]. cbn. by rewrite decide_False by apply not_elem_of_nil.
  - apply NoDup_cons in Hnd as [Hid Hnd]. destruct (Hl id p ltac:(left)) as (Hp & Hf & Hq). rewrite Hf. cbn [mbind result_bind].
    destruct (IH (update_peer id (g id p) ps) Hnd) as (ps' & -> & Hclosed & Hat).
    { intros id' p' Hin. destruct (Hl id' p' ltac:(by right)) as (Hp' & ? & ?). split; [|done]. unfold update_peer. cbn. rewrite Hq, lookup_insert_ne; [done|]. intros ->. apply Hid. by apply (list_elem_of_fmap_2 fst _ (id', p')). }
    exists ps'. split; [done|]. split; [done|]. intros id'. rewrite Hat. unfold update_peer. cbn [ps_peers]. rewrite Hq. cbn [fmap list_fmap fst].
    destruct (decide (id' = id)) as [->|Hne].
    + rewrite lookup_insert_eq, Hp. cbn. rewrite decide_False by done. by rewrite decide_True by left.
    + rewrite lookup_insert_ne by done. destruct (ps_peers ps !! id') as [p'|]; [|done]. cbn. f_equal. destruct (decide (id' ∈ l.*1)) as [Hin|Hin]; [by rewrite decide_True by by right|].
      rewrite decide_False; [done|]. by intros [->|?]%elem_of_cons.
Qed.
Definition lacking (hash : Hash) ps : list ID := (PeersWithoutBlock hash ps).*1.
Lemma without_block hash ps id p : (id, p) ∈ PeersWithoutBlock hash ps ↔ ps_peers ps !! id = Some p ∧ hash ∉ p_knownBlocks p.
Proof. unfold PeersWithoutBlock. rewrite list_elem_of_filter, in_range. cbn. naive_solver. Qed.
Lemma lacking_keys hash ps : NoDup (lacking hash ps).
Proof. unfold lacking, PeersWithoutBlock. eapply sublist_NoDup; [exact (range_keys (ps_peers ps))|]. apply fmap_sublist, sublist_filter. Qed.
Lemma lacking_spec hash ps id : id ∈ lacking hash ps ↔ ∃ p, ps_peers ps !! id = Some p ∧ hash ∉ p_knownBlocks p.
Proof. unfold lacking. rewrite list_elem_of_fmap. split; [intros ([i p] & -> & Hin%without_block); by exists p|intros (p & Hp); exists (id, p); split; [done|by apply without_block]]. Qed.
End sending.

(** * Blocks *)
Section blocks.
Context `{Crypto} `{TxCrypto} `{SetPop} `{MapRange} {L : Type} `{LocalChain L} `{NodeChain L} {E : Type} (choose : ID → nat → nat).
Implicit Types (p : peer) (ps : peerSet) (chain : L).
Abbreviation hash_of b := (Header_Hash (block_header b)).
Lemma transfer_len_bounds n : (n `min` 4 ≤ transfer_len n ≤ n)%nat.
Proof. unfold transfer_len, minBroadcastPeers. repeat case_match; rewrite ?Nat.ltb_lt, ?Nat.ltb_ge in *; lia. Qed.
(** A block sent to some of the peers that lack it. *)
Lemma send_block_each f (m : message) block l ps : all_rest ps → l `sublist_of` PeersWithoutBlock (hash_of block) ps →
  (∀ id p, at_rest p → f id p = Ok (with_sent m (add_block (hash_of block) p))) →
  ∃ ps', send_each (E := E) f l ps = Ok ps' ∧ all_rest ps' ∧
    ∀ id, ps_peers ps' !! id = (λ p, if decide (id ∈ l.*1) then with_sent m (add_block (hash_of block) p) else p) <$> ps_peers ps !! id.
Proof.
  intros Hrest Hl Hf. destruct (send_each_map f (λ _ p, with_sent m (add_block (hash_of block) p)) l ps) as (ps' & Hrun & _ & Hat).
  - eapply sublist_NoDup; [exact (lacking_keys (hash_of block) ps)|]. by apply fmap_sublist.
  - intros id p Hin. assert ((id, p) ∈ PeersWithoutBlock (hash_of block) ps) as [Hp _]%without_block by by eapply elem_of_sublist. pose proof (Hrest _ _ Hp) as Hr. split_and!; [done|by apply Hf|by apply with_sent_rest, add_block_rest].
  - exists ps'. split; [done|]. split; [|done]. intros id p'. rewrite Hat. destruct (ps_peers ps !! id) as [p|] eqn:Hp; [|done]. cbn. intros [= <-]. pose proof (Hrest _ _ Hp). case_decide; [by apply with_sent_rest, add_block_rest|done].
Qed.

(** C21: A mined block reaches every peer.  When nothing is queued and the node is
    online, the peers that do not have the block get exactly one message each:
    the square root of their number, but no fewer than four of them, get the
    block with its total difficulty, the others its hash; the peers that have it
    get nothing, no peer is dropped, and all have it then. *)
Theorem mined_block_reaches_every_peer chain block n d td ps : all_rest ps → TxPool.NumberU64 (E := E) block = Ok n → Difficulty (block_header block) = Some d →
  lc_HasBlock chain (ParentHash (block_header block)) (n - 1)%u64 = true → nc_GetTd chain (ParentHash (block_header block)) (n - 1)%u64 = Some td →
  lc_HasBlock chain (hash_of block) n = true →
  let lacks := lacking (hash_of block) ps in
  let chosen := take (transfer_len (length lacks)) lacks in
  (length chosen = transfer_len (length lacks) ∧ length lacks `min` 4 ≤ length chosen)%nat ∧
  ∃ ps', broadcastMinedBlock (E := E) true choose chain block ps = Ok ps' ∧ all_rest ps' ∧
    ∀ id, ps_peers ps' !! id = (λ p, if decide (hash_of block ∈ p_knownBlocks p) then p else
      with_sent (if decide (id ∈ chosen) then NewBlockMsg block (d + td) else NewBlockHashesMsg [(hash_of block, n)]) (add_block (hash_of block) p)) <$> ps_peers ps !! id.
Proof.
  intros Hrest Hn Hd Hparent Htd Hblock lacks chosen. pose proof (transfer_len_bounds (length lacks)) as [Hmin Hle].
  assert (length chosen = transfer_len (length lacks)) as Hlen by (unfold chosen; rewrite length_take; lia). split; [lia|].
  destruct (send_block_each (λ id, AsyncSendNewBlock true (choose id) block (d + td)) (NewBlockMsg block (d + td)) block (take (transfer_len (length lacks)) (PeersWithoutBlock (hash_of block) ps)) ps) as (ps1 & Hrun1 & Hrest1 & Hat1);
    [done|apply sublist_take|intros id p Hp; by apply send_block_rest|].
  assert ((take (transfer_len (length lacks)) (PeersWithoutBlock (hash_of block) ps)).*1 = chosen) as Hchosen by by rewrite fmap_take. rewrite Hchosen in Hat1.
  assert (BroadcastBlock (E := E) true choose chain block true ps = Ok ps1) as Hfirst.
  { unfold BroadcastBlock. rewrite Hn. cbn [mbind result_bind]. rewrite Hparent, Hd. cbn [mbind result_bind nonnil]. rewrite Htd. cbn [mbind result_bind nonnil].
    rewrite <- Hrun1. do 2 f_equal. unfold lacks, lacking. by rewrite length_fmap. }
  unfold broadcastMinedBlock. rewrite Hfirst. cbn [mbind result_bind].
  unfold BroadcastBlock. rewrite Hn. cbn [mbind result_bind]. rewrite Hblock.
  destruct (send_block_each (λ id, AsyncSendNewBlockHash true (choose id) block) (NewBlockHashesMsg [(hash_of block, n)]) block (PeersWithoutBlock (hash_of block) ps1) ps1) as (ps2 & Hrun2 & Hrest2 & Hat2);
    [done|done|intros id p Hp; by apply send_hash_rest|].
  exists ps2. split; [done|]. split; [done|]. intros id. rewrite Hat2, Hat1. destruct (ps_peers ps !! id) as [p|] eqn:Hp; [|done]. cbn [fmap option_fmap option_map]. f_equal.
  fold (lacking (hash_of block) ps1). assert (id ∈ chosen → hash_of block ∉ p_knownBlocks p) as Hlacks.
  { intros Hin%elem_of_take. destruct Hin as (i & Hin & _). apply list_elem_of_lookup_2, lacking_spec in Hin as (p' & Hp' & ?). congruence. }
  assert (id ∈ lacking (hash_of block) ps1 ↔ id ∉ chosen ∧ hash_of block ∉ p_knownBlocks p) as Hsecond.
  { rewrite lacking_spec, Hat1, Hp. cbn. split; [intros (p' & [= <-] & Hk); case_decide; [|done]; exfalso; apply Hk; destruct p; set_solver|].
    intros [Hc Hk]. eexists. split; [done|]. by rewrite decide_False. }
  destruct (decide (id ∈ chosen)) as [Hc|Hc], (decide (hash_of block ∈ p_knownBlocks p)) as [Hk|Hk].
  - by destruct (Hlacks Hc).
  - rewrite decide_False; [done|]. by intros [? _]%Hsecond.
  - rewrite decide_False; [done|]. by intros [_ ?]%Hsecond.
  - by rewrite decide_True by by apply Hsecond.
Qed.
End blocks.

(** * Transactions *)
Section transactions.
Context `{Crypto} `{TxCrypto} `{SetPop} `{MapRange} {E : Type} (choose : ID → nat → nat).
Implicit Types (p : peer) (ps : peerSet).
(** The transactions a peer lacks. *)
Definition missing (txs : list Transaction) p : list Transaction := filter (λ tx, rlpHash_tx tx ∉ p_knownTxs p) txs.
Lemma add_to_txset_lookup tx (l : list (ID * peer)) m id : NoDup l.*1 →
  add_to_txset tx l m !! id = if decide (id ∈ l.*1) then Some (default [] (m !! id) ++ [tx]) else m !! id.
Proof.
  unfold add_to_txset. revert m. induction l as [|[i p] l IH]; intros m Hnd; cbn [foldl]; [by rewrite decide_False by apply not_elem_of_nil|]. apply NoDup_cons in Hnd as [Hi Hnd]. rewrite IH by done. cbn [fst fmap list_fmap].
  destruct (decide (id = i)) as [->|Hne].
  - rewrite decide_False by done. rewrite lookup_insert_eq. by rewrite decide_True by left.
  - rewrite lookup_insert_ne by done. destruct (decide (id ∈ l.*1)) as [Hin|Hin]; [by rewrite decide_True by by right|].
    rewrite decide_False; [done|]. by intros [?|?]%elem_of_cons.
Qed.
Lemma without_tx hash ps id : id ∈ (PeersWithoutTx hash ps).*1 ↔ ∃ p, ps_peers ps !! id = Some p ∧ hash ∉ p_knownTxs p.
Proof.
  unfold PeersWithoutTx. rewrite list_elem_of_fmap. split.
  - intros ([i p] & -> & [Hk Hin]%list_elem_of_filter). exists p. by rewrite <- in_range.
  - intros (p & Hp & Hk). exists (id, p). split; [done|]. apply list_elem_of_filter. split; [done|by apply in_range].
Qed.
Lemma without_tx_keys hash ps : NoDup (PeersWithoutTx hash ps).*1.
Proof. unfold PeersWithoutTx. eapply sublist_NoDup; [exact (range_keys (ps_peers ps))|]. apply fmap_sublist, sublist_filter. Qed.
Definition set_of (txs : list Transaction) ps : gmap ID (list Transaction) := foldl (λ txset tx, add_to_txset tx (PeersWithoutTx (rlpHash_tx tx) ps) txset) ∅ txs.
Lemma set_of_lookup txs ps id : set_of txs ps !! id = p ← ps_peers ps !! id; if decide (missing txs p = []) then None else Some (missing txs p).
Proof.
  unfold set_of. induction txs as [|tx txs IH] using rev_ind; [cbn [foldl]; rewrite lookup_empty; by destruct (_ !! id)|].
  rewrite foldl_app. cbn [foldl]. rewrite add_to_txset_lookup by apply without_tx_keys. rewrite IH. destruct (ps_peers ps !! id) as [p|] eqn:Hp; cbn [mbind option_bind].
  - unfold missing. rewrite filter_app. fold (missing txs p). cbn [filter list_filter]. destruct (decide (id ∈ _)) as [Hin|Hin]; rewrite without_tx in Hin.
    + destruct Hin as (p' & Hp' & Hk). assert (p' = p) as -> by congruence. rewrite (decide_True (P := rlpHash_tx tx ∉ p_knownTxs p)) by done. rewrite (decide_False (P := missing txs p ++ [tx] = [])) by by intros [_ ?]%app_eq_nil.
      case_decide as Hm; [by rewrite Hm|done].
    + rewrite (decide_False (P := rlpHash_tx tx ∉ p_knownTxs p)); [by rewrite app_nil_r|]. intros Hk. apply Hin. by exists p.
  - rewrite decide_False; [done|]. intros (p & Hp' & _)%without_tx. congruence.
Qed.

(** Transactions go to the peers that lack them.  When nothing is queued and the
    node is online, every peer gets one message with the transactions it lacks,
    in order, and has them then; a peer that lacks none gets nothing. *)
Theorem BroadcastTxs_sends_missing txs ps : all_rest ps →
  ∃ ps', BroadcastTxs (E := E) true choose txs ps = Ok ps' ∧ all_rest ps' ∧
    ∀ id, ps_peers ps' !! id = (λ p, if decide (missing txs p = []) then p else with_sent (TxMsg (missing txs p)) (add_txs (missing txs p) p)) <$> ps_peers ps !! id.
Proof.
  intros Hrest. unfold BroadcastTxs. fold (set_of txs ps). set (l := filter _ (map_range (ps_peers ps))).
  assert (∀ id p, (id, p) ∈ l ↔ ps_peers ps !! id = Some p ∧ missing txs p ≠ []) as Hl.
  { intros id p. unfold l. rewrite list_elem_of_filter, in_range. cbn [fst]. rewrite set_of_lookup. split.
    - intros [Hs Hp]. split; [done|]. rewrite Hp in Hs. cbn in Hs. case_decide; [by destruct Hs|done].
    - intros [Hp Hm]. split; [|done]. rewrite Hp. cbn. rewrite decide_False by done. by eexists. }
  destruct (send_each_map (E := E) (λ id p, match set_of txs ps !! id with Some txs => AsyncSendTransactions true (choose id) txs p | None => Ok p end)
    (λ _ p, with_sent (TxMsg (missing txs p)) (add_txs (missing txs p) p)) l ps) as (ps' & Hrun & _ & Hat).
  - eapply sublist_NoDup; [exact (range_keys (ps_peers ps))|]. apply fmap_sublist, sublist_filter.
  - intros id p [Hp Hm]%Hl. pose proof (Hrest _ _ Hp) as Hr. split; [done|]. split; [|by apply with_sent_rest, add_txs_rest]. rewrite set_of_lookup, Hp. cbn [mbind option_bind]. rewrite decide_False by done. by apply send_txs_rest.
  - exists ps'. split; [done|]. assert (∀ id, ps_peers ps' !! id = (λ p, if decide (missing txs p = []) then p else with_sent (TxMsg (missing txs p)) (add_txs (missing txs p) p)) <$> ps_peers ps !! id) as Hall.
    { intros id. rewrite Hat. destruct (ps_peers ps !! id) as [p|] eqn:Hp; [|done]. cbn. f_equal. destruct (decide (missing txs p = [])) as [Hm|Hm].
      - rewrite decide_False; [done|]. intros ([i p'] & -> & Hin)%list_elem_of_fmap. apply Hl in Hin as [Hp' Hm']. cbn in Hp. congruence.
      - rewrite decide_True; [done|]. apply (list_elem_of_fmap_2 fst _ (id, p)). by apply Hl. }
    split; [|done]. intros id p'. rewrite Hall. destruct (ps_peers ps !! id) as [p|] eqn:Hp; [|done]. cbn. intros [= <-]. pose proof (Hrest _ _ Hp). case_decide; [done|by apply with_sent_rest, add_txs_rest].
Qed.
End transactions.

(** * The best peer *)
Section best.
Context `{MapRange} {E : Type}.
Implicit Types (p : peer) (ps : peerSet).
Lemma best_of_spec best (l : list (ID * peer)) : (∀ e, e ∈ l → is_Some (p_td e.2)) →
  ∃ r, best_of (E := E) best l = Ok r ∧
    match r with
    | None => best = None ∧ l = []
    | Some e => ∃ td, (best = Some (e, td) ∨ e ∈ l ∧ p_td e.2 = Some td) ∧ (∀ b btd, best = Some (b, btd) → btd ≤ td) ∧ ∀ e' td', e' ∈ l → p_td e'.2 = Some td' → td' ≤ td
    end.
Proof.
  revert best. induction l as [|[id p] l IH]; intros best Hl; cbn [best_of].
  - eexists. split; [done|]. destruct best as [[e td]|]; cbn; [|done]. exists td. split; [by left|]. split; [by intros ? ? [= <- <-]|by intros ? ? ?%not_elem_of_nil].
  - destruct (Hl (id, p) ltac:(left)) as [td Htd]. cbn in Htd. unfold Head at 1. rewrite Htd. cbn [mbind result_bind].
    set (best' := match best with None => _ | Some _ => _ end). destruct (IH best') as (r & -> & Hr); [intros e He; apply Hl; by right|]. exists r. split; [done|].
    destruct r as [e|]; [|destruct Hr as [Hb _]; unfold best' in Hb; destruct best as [[? ?]|]; [by case_match|done]].
    destruct Hr as (m & Hfrom & Hbest & Hrest). exists m.
    assert (td ≤ m ∧ (∀ b btd, best = Some (b, btd) → btd ≤ m)) as [Htdm Hbm].
    { unfold best' in Hbest. destruct best as [[b btd]|]; [|split; [by eapply Hbest|done]]. destruct (Z.ltb_spec btd td) as [Hlt|Hge].
      - specialize (Hbest _ _ eq_refl). split; [done|]. intros ? ? [= <- <-]. lia.
      - specialize (Hbest _ _ eq_refl). split; [lia|]. by intros ? ? [= <- <-]. }
    split; [|split; [done|]].
    + destruct Hfrom as [Hb|[Hin Hm]]; [|right; split; [by right|done]]. unfold best' in Hb. destruct best as [[b btd]|]; [destruct (btd <? td)|]; [injection Hb as <- <-|by left|injection Hb as <- <-]; right; (split; [left|done]).
    + intros e' td' [->|Hin]%elem_of_cons Htd'; [cbn in Htd'; congruence|by eapply Hrest].
Qed.
(** The best peer is one of the peers with the highest total difficulty; there
    is none only if there are no peers. *)
Theorem BestPeer_is_heaviest ps : map_Forall (λ _ p, is_Some (p_td p)) (ps_peers ps) →
  ∃ r, BestPeer (E := E) ps = Ok r ∧
    match r with
    | None => ps_peers ps = ∅
    | Some (id, p) => ps_peers ps !! id = Some p ∧ ∃ td, p_td p = Some td ∧ map_Forall (λ _ p', ∀ td', p_td p' = Some td' → td' ≤ td) (ps_peers ps)
    end.
Proof.
  intros Hps. destruct (best_of_spec None (map_range (ps_peers ps))) as (r & Hrun & Hr); [intros [id p] Hin%in_range; by apply (Hps id)|]. exists r. split; [done|]. destruct r as [[id p]|].
  - destruct Hr as (td & [?|[Hin Htd]] & _ & Hall); [done|]. apply in_range in Hin. split; [done|]. exists td. split; [done|]. intros id' p' Hp' td' Htd'. apply (Hall (id', p')); [by apply in_range|done].
  - destruct Hr as [_ Hnil]. apply map_empty. intros id. destruct (ps_peers ps !! id) as [p|] eqn:Hp; [|done]. apply in_range in Hp. rewrite Hnil in Hp. by apply not_elem_of_nil in Hp.
Qed.
End best.

(** * Synchronising *)
Section synchronising.
Context `{Crypto} {C : Type} `{ServedChain C} {L : Type} `{LocalChain L} `{NodeChain L}.
Implicit Types (node : SyncNode L) (p : SyncPeer C).
Abbreviation current node := (lc_CurrentBlock (sn_chain node)).

Lemma block_number_run b n node : Number (block_header b) = Some n → is_u64 n → block_number (E := Empty_set) b node = (Ok n, node).
Proof. intros Hn Hu. unfold block_number, lift, TxPool.NumberU64. rewrite Hn. cbn. by rewrite wrap64_id. Qed.

(** Fast synchronisation also asks for more than the difficulty of the fast block. *)
Definition goes_ahead node (fast : bool) (pTd : Z) : Prop :=
  fast = true → ∃ fastTd, nc_GetTdByHash (sn_chain node) (Header_Hash (block_header (nc_CurrentFastBlock (sn_chain node)))) = Some fastTd ∧ fastTd < pTd.
Lemma pm_heavier node p pTd td n fast : Number (block_header (current node)) = Some n → is_u64 n → nc_GetTd (sn_chain node) (Header_Hash (block_header (current node))) n = Some td →
  td < pTd → turns_fast node n node = (Ok fast, node) →
  pm_synchronise false (Some (p, pTd)) node =
    (ahead ← if fast then peer_ahead node pTd else mret true;
     if negb ahead then mret None else
     let '(result, chain) := Synchronise false (Some p) (sn_chain node) in
     modify (λ node, mkSyncNode chain (sn_fastSync node) (sn_acceptTxs node));;
     '(err, _) ← lift result;
     match err with
     | Some _ => mret None
     | None =>
         modify (λ node, mkSyncNode (sn_chain node) false true);;
         number ← block_number (lc_CurrentBlock chain);
         mret (if 0 <? number then Some (lc_CurrentBlock chain) else None)
     end) (mkSyncNode (sn_chain node) fast (sn_acceptTxs node)).
Proof.
  intros Hn Hu Htd Hlt Hturn. unfold pm_synchronise. rewrite (gom_bind_run _ _ _ _ _ (eq_refl : get_state node = (Ok node, node))). cbv zeta. rewrite (gom_bind_run _ _ _ _ _ (block_number_run _ _ node Hn Hu)).
  rewrite Htd. cbn [nonnil]. rewrite (gom_bind_run _ _ _ _ _ (eq_refl : lift (Ok td) node = (Ok td, node))). rewrite (proj2 (Z.leb_gt _ _)) by lia.
  rewrite (gom_bind_run _ _ _ _ _ Hturn). by rewrite (gom_bind_run _ _ _ _ _ (eq_refl : modify _ node = (Ok tt, _))).
Qed.
Lemma pm_ahead node node' (pTd : Z) (fast : bool) : goes_ahead node fast pTd → (if fast then peer_ahead node pTd else mret true) node' = (Ok true, node').
Proof.
  intros Hahead. destruct fast; [|done]. destruct (Hahead eq_refl) as (fastTd & Htd & Hlt). unfold peer_ahead. rewrite Htd. cbn.
  unfold mbind, gom_bind, lift, mret, gom_ret. by rewrite (proj2 (Z.ltb_lt _ _) Hlt).
Qed.
Lemma pm_outcome node p pTd td n fast r chain : Number (block_header (current node)) = Some n → is_u64 n → nc_GetTd (sn_chain node) (Header_Hash (block_header (current node))) n = Some td →
  td < pTd → turns_fast node n node = (Ok fast, node) → goes_ahead node fast pTd → syncWithPeer p (sn_chain node) = (r, chain) →
  match r with
  | Ok _ => ∀ m, Number (block_header (lc_CurrentBlock chain)) = Some m → 0 < m < u64_modulus →
      pm_synchronise false (Some (p, pTd)) node = (Ok (Some (lc_CurrentBlock chain)), mkSyncNode chain false true)
  | Err _ => pm_synchronise false (Some (p, pTd)) node = (Ok None, mkSyncNode chain fast (sn_acceptTxs node))
  | Panic q => (pm_synchronise false (Some (p, pTd)) node).1 = Panic q
  end.
Proof.
  intros Hn Hu Htd Hlt Hturn Hahead Hsync. pose proof (pm_heavier node p pTd td n fast Hn Hu Htd Hlt Hturn) as Hrun.
  rewrite (gom_bind_run _ _ _ _ _ (pm_ahead node _ pTd fast Hahead)) in Hrun. cbn [negb] in Hrun. unfold Synchronise, synchronise in Hrun. rewrite Hsync in Hrun.
  destruct r as [[]|e|q]; [|exact Hrun|by rewrite Hrun]. intros m Hm Hpos. rewrite Hrun.
  unfold mbind at 1, gom_bind at 1, modify at 1. cbv beta iota. unfold mbind at 1, gom_bind at 1, lift at 1. cbv beta iota. unfold mbind at 1, gom_bind at 1, modify at 1. cbv beta iota.
  rewrite (gom_bind_run _ _ _ _ _ (block_number_run _ _ (mkSyncNode chain false true) Hm (conj (Z.lt_le_incl _ _ (proj1 Hpos)) (proj2 Hpos)))). by rewrite (proj2 (Z.ltb_lt _ _)) by lia.
Qed.

(** C25: a node catches up with heavier peers that have a longer chain.  A peer
    whose total difficulty is not above the node's own changes nothing, nor does,
    when fast synchronisation is on, one that is not above the fast block.  With a
    heavier one that serves its chain and stays as it is: if the chain is longer
    than the local one and at most 128 of its blocks lie above the common
    ancestor, these go to the chain in one batch, and if the chain takes them,
    transactions are accepted from then on and the new head is announced; if more
    than 128 are missing the synchronisation fails and nothing is announced; and a
    chain that is heavier without being longer crashes it. *)
Theorem pm_synchronise_catches_up node p blocks (c : C) pTd td (lh a : nat) fast :
  Number (block_header (current node)) = Some (Z.of_nat lh) → Z.of_nat lh < 2 ^ 62 → nc_GetTd (sn_chain node) (Header_Hash (block_header (current node))) (Z.of_nat lh) = Some td →
  turns_fast node (Z.of_nat lh) node = (Ok fast, node) →
  (pTd ≤ td → pm_synchronise false (Some (p, pTd)) node = (Ok None, node)) ∧
  (∀ fastTd, td < pTd → fast = true → nc_GetTdByHash (sn_chain node) (Header_Hash (block_header (nc_CurrentFastBlock (sn_chain node)))) = Some fastTd → pTd ≤ fastTd →
   pm_synchronise false (Some (p, pTd)) node = (Ok None, mkSyncNode (sn_chain node) true (sn_acceptTxs node))) ∧
  (td < pTd → goes_ahead node fast pTd → serves c blocks → steady c blocks p → blocks ≠ [] →
   findAncestor (Some c) (sn_chain node) (Z.of_nat (length blocks - 1)) (Z.of_nat lh) = Ok (Z.of_nat a) →
   let missing := drop (S a) blocks in
   (lh < length blocks → 0 < length missing ≤ 128 →
    let '(failed, chain) := lc_InsertChain missing (lc_InsertHeaderChain (block_header <$> missing) (sn_chain node)) in
    ∀ m, Number (block_header (lc_CurrentBlock chain)) = Some m → (0 < m < u64_modulus)%Z →
    pm_synchronise false (Some (p, pTd)) node =
      if failed : bool then (Ok None, mkSyncNode chain fast (sn_acceptTxs node)) else (Ok (Some (lc_CurrentBlock chain)), mkSyncNode chain false true))%nat ∧
   (lh < length blocks → 128 < length missing → ∃ chain, pm_synchronise false (Some (p, pTd)) node = (Ok None, mkSyncNode chain fast (sn_acceptTxs node)))%nat ∧
   (length blocks ≤ lh → 0 < length missing → (pm_synchronise false (Some (p, pTd)) node).1 = Panic NilDereference)%nat).
Proof.
  intros Hn Hsmall Htd Hturn. assert (is_u64 (Z.of_nat lh)) as Hu by (change (2 ^ 62) with 4611686018427387904 in Hsmall; u64_unfold; lia).
  split; [|split].
  - intros Hle. unfold pm_synchronise. rewrite (gom_bind_run _ _ _ _ _ (eq_refl : get_state node = (Ok node, node))). cbv zeta. rewrite (gom_bind_run _ _ _ _ _ (block_number_run _ _ node Hn Hu)).
    rewrite Htd. cbn [nonnil]. rewrite (gom_bind_run _ _ _ _ _ (eq_refl : lift (Ok td) node = (Ok td, node))). by rewrite (proj2 (Z.leb_le _ _)).
  - intros fastTd Hlt -> Hfast Hle. rewrite (pm_heavier node p pTd td _ true) by done. unfold peer_ahead. rewrite Hfast. cbn [nonnil].
    unfold mbind, gom_bind, lift, mret, gom_ret. by rewrite (proj2 (Z.ltb_ge _ _) Hle).
  - intros Hlt Hahead Hs Hp Hne Ha missing. destruct (sync_with_steady c blocks p (sn_chain node) lh a Hs Hp Hne Hn Hsmall Ha) as (Hshort & Hlong & Hcrash). fold missing in Hshort, Hlong, Hcrash.
    pose proof (pm_outcome node p pTd td (Z.of_nat lh) fast) as Hout. destruct (syncWithPeer p (sn_chain node)) as [r chain'] eqn:Hsync. specialize (Hout r chain' Hn Hu Htd Hlt Hturn Hahead eq_refl). cbn [fst] in Hlong, Hcrash.
    split_and!.
    + intros Hlh Hlen. specialize (Hshort Hlh Hlen). destruct (lc_InsertChain missing _) as [failed chain]. injection Hshort as -> ->. intros m Hm Hpos. destruct failed; [exact Hout|by eapply Hout].
    + intros Hlh Hlen. rewrite (Hlong Hlh Hlen) in Hout. by exists chain'.
    + intros Hlh Hlen. by rewrite (Hcrash Hlh Hlen) in Hout.
Qed.
End synchronising.
