(* ===== verification/Genesis.v ===== *)
(** The genesis block ([core/genesis.go]): the state of the allocation, the block
    on it, and its commit as the first canonical head.

    A node's first start: the genesis block committed to an empty database, and
    the chain opened on it. *)
From S2P Require Import Prelude Hoare Types Sealing Blocks StateDB Transition TxSigning Processor Memorydb TxPool RawDB RawDBSpec HeaderChain BlockChain BlockWrite ChainLookup ChainReorg ChainWrite.

Record ChainConfig := mkChainConfig { cc_Clique : option CliqueConfig; cc_Aura : option AuraConfig }.
Record GenesisAccount := mkGenesisAccount { ga_Code : list byte; ga_Storage : gmap Hash Hash; ga_Balance : option Z; ga_Nonce : Z }.
Record Genesis := mkGenesis {
  g_Config : ChainConfig;
  g_Nonce : Z;
  g_Timestamp : Z;
  g_GasLimit : Z;
  g_Difficulty : option Z;
  g_Mixhash : Hash;
  g_Coinbase : Address;
  g_Alloc : gmap Address GenesisAccount
}.
(** [json.Marshal] of the configuration. *)
Class ConfigCodec := { json_MarshalConfig : ChainConfig → option (list byte); json_UnmarshalConfig : list byte → option ChainConfig }.

Section genesis.
Context {T D : Type} `{StateTrie T} `{StateStore} `{!ChainState D (StateDB T)} `{Crypto} `{TxCrypto} `{BlockDigests} `{ConfigCodec}.
Context `{!Rlp Header} `{!Rlp Body} `{!Rlp Z} `{!Rlp (list storedReceiptRLP)} `{ContractAddresses}.
Context {E : Type}.

Definition GenesisGasLimit : Z := 4712388.

(** One account of the allocation; maps are walked in the order of their
    enumeration, which the accounts and slots being distinct makes irrelevant. *)
Definition alloc_account (s : StateDB T) (entry : Address * GenesisAccount) : Result E (StateDB T) :=
  let '(addr, account) := entry in
  match ga_Balance account with
  | None => Panic NilDereference
  | Some balance =>
      let s := SetNonce addr (ga_Nonce account) (SetCode addr (ga_Code account) (AddBalance addr balance s)) in
      Ok (foldl (λ s slot, SetState addr slot.1 slot.2 s) s (map_to_list (ga_Storage account)))
  end.
Fixpoint alloc_accounts (s : StateDB T) (l : list (Address * GenesisAccount)) : Result E (StateDB T) :=
  match l with
  | [] => Ok s
  | entry :: l => s ← alloc_account s entry; alloc_accounts s l
  end.
(** The bytes of the signers between the vanity and the seal. *)
Definition setExtraData (sealers : list Address) : list byte :=
  replicate 32 0 ++ concat (array_bytes AddressLength <$> sealers) ++ replicate 65 0.
(** The configuration gains the sealers as authorities. *)
Definition with_authorities (sealers : list Address) (c : ChainConfig) : ChainConfig :=
  match cc_Aura c with
  | None => c
  | Some a => mkChainConfig (cc_Clique c) (Some (mkAuraConfig (au_Period a) (au_Epoch a) (au_Authorities a ++ sealers) (au_Difficulty a)))
  end.

(** [ToBlock], over the empty state [t] of the state database [d]: the block, the
    configuration, and the database the state is committed to.  Neither commit is
    asked whether it failed. *)
Definition ToBlock (sealers : list Address) (g : Genesis) (t : T) (d : D) : Result E (Block * ChainConfig * D) :=
  s ← alloc_accounts (New t) (map_to_list (g_Alloc g));
  let extra := setExtraData sealers in
  let config := with_authorities sealers (g_Config g) in
  let '(root, s) := IntermediateRoot false s in
  let head := mkHeader zero_hash zero_hash (g_Coinbase g) root zero_hash zero_hash 0 (g_Difficulty g) (Some 0)
    (if g_GasLimit g =? 0 then GenesisGasLimit else g_GasLimit g) 0 (g_Timestamp g) extra (g_Mixhash g) (g_Nonce g) in
  let '(_, d) := cs_Commit false s d in
  let '(_, d) := td_Commit (S := StateDB T) root d in
  match NewBlock head [] [] [] with
  | Ok block => Ok (block, config, d)
  | Err _ => Panic (ExplicitPanic "unreachable")
  | Panic p => Panic p
  end.

Definition ReadChainConfig (db : Database) (hash : Hash) : option ChainConfig :=
  match db_Get db (configKey hash) with None | Some [] => None | Some data => json_UnmarshalConfig data end.
Definition WriteChainConfig (hash : Hash) (c : ChainConfig) : Result E (list keyvalue) :=
  match json_MarshalConfig c with Some data => Ok [PutKey (configKey hash) data] | None => crit end.
(** [Commit]: the writes; the block has number zero, and a
    difficulty that is missing is encoded as zero. *)
Definition Commit (sealers : list Address) (g : Genesis) (t : T) (d : D) : Result E (Block * list keyvalue * D) :=
  '(block, config, d) ← ToBlock sealers g t d;
  let hash := Header_Hash (block_header block) in
  number ← Types.Uint64 (Number (block_header block));
  td ← raw_WriteTd hash number (default 0 (g_Difficulty g));
  ws ← WriteBlock block;
  receipts ← WriteReceipts hash number [];
  config ← WriteChainConfig hash config;
  Ok (block, td ++ ws ++ receipts ++ WriteCanonicalHash hash number ++ WriteHeadBlockHash hash ++ WriteHeadHeaderHash hash ++ config, d).
End genesis.

(** What a new node asks of its state database: one opened anew over the same store
    ([state.NewDatabaseWithCache]) has the states that were committed to it down to
    the store, if the store does not fail. *)
Class StateDisk (T D : Type) `{StateTrie T} `{StateStore} `{!ChainState D (StateDB T)} := {
  sd_reopen : D → D;
  sd_committed s d : let '(root, s') := IntermediateRoot false s in
    is_Some (cs_New (S := StateDB T) root (sd_reopen (td_Commit (S := StateDB T) root (cs_Commit false s' d).2).2))
}.

Section starting.
Context {T D : Type} `{StateTrie T} `{StateStore} `{!ChainState D (StateDB T)} `{!StateDisk T D} `{Crypto} `{TxCrypto} `{BlockDigests} `{ConfigCodec}.
Context `{!Rlp Header} `{!Rlp Body} `{!Rlp Z} `{!Rlp (list storedReceiptRLP)} `{ContractAddresses}.
Context `{!RlpLaws Header storable_header} `{!RlpLaws Body storable_body} `{!RlpLaws Z (λ x, 0 ≤ x)} `{!RlpLaws (list storedReceiptRLP) (λ _, True)}.

(** * The block *)
Lemma alloc_account_ok {E} (s : StateDB T) addr a : is_Some (ga_Balance a) → ∃ s', alloc_account (E := E) s (addr, a) = Ok s'.
Proof. intros [b Hb]. unfold alloc_account. rewrite Hb. by eexists. Qed.
Lemma alloc_accounts_ok {E} l (s : StateDB T) : Forall (λ p, is_Some (ga_Balance p.2)) l → ∃ s', alloc_accounts (E := E) s l = Ok s'.
Proof.
  intros Hl. revert s. induction Hl as [|[addr a] l Ha Hl IH]; intros s; [by eexists|]. cbn [alloc_accounts].
  destruct (alloc_account_ok (E := E) s addr a Ha) as [s' ->]. apply IH.
Qed.
Lemma ToBlock_ok {E} sealers g (t : T) (d : D) : map_Forall (λ _ a, is_Some (ga_Balance a)) (g_Alloc g) →
  ∃ block config d', ToBlock (E := E) sealers g t d = Ok (block, config, d') ∧ Number (block_header block) = Some 0 ∧
    Difficulty (block_header block) = Some (default 0 (g_Difficulty g)) ∧ block_transactions block = [] ∧ block_uncles block = [] ∧
    is_Some (cs_New (S := StateDB T) (Root (block_header block)) (sd_reopen d')).
Proof.
  intros Hg. destruct (alloc_accounts_ok (E := E) (map_to_list (g_Alloc g)) (New t)) as [s Hs].
  { apply Forall_forall. intros [addr a] Hin%elem_of_map_to_list. by eapply Hg. }
  unfold ToBlock. rewrite Hs. cbn [mbind result_bind]. pose proof (sd_committed s d) as Hopen. destruct (IntermediateRoot false s) as [root s'].
  destruct (cs_Commit false s' d) as [r d1]. cbn [snd] in Hopen. destruct (td_Commit root d1) as [ok d2]. cbn. eexists _, _, _. split; [reflexivity|]. by split_and!.
Qed.

(** * What the commit writes *)
Definition genesis_entries (h : Hash) (td bd hd rd cd : list byte) : list (entry * option (list byte)) :=
  [(TdEntry 0 h, Some td); (BodyEntry 0 h, Some bd); (NumberEntry h, Some (encodeBlockNumber 0)); (HeaderEntry 0 h, Some hd);
   (ReceiptsEntry 0 h, Some rd); (CanonicalEntry 0, Some (Hash_Bytes h)); (HeadBlock, Some (Hash_Bytes h)); (HeadHeader, Some (Hash_Bytes h)); (ConfigEntry h, Some cd)].
Lemma over_in ps e v w : over ps e v = Some w → (e, Some w) ∈ ps ∨ v = Some w.
Proof.
  unfold over. revert v. induction ps as [|[e' w'] ps IH]; intros v Hv; [by right|]. cbn in Hv. destruct (IH _ Hv) as [?|Heq]; [left; by right|].
  case_decide as He; [left; subst; by left|by right].
Qed.
Lemma over_nodup ps e v w : NoDup ps.*1 → (e, Some w) ∈ ps → over ps e v = Some w.
Proof.
  unfold over. revert v. induction ps as [|[e' w'] ps IH]; intros v Hnd Hin; [by apply elem_of_nil in Hin|].
  apply NoDup_cons in Hnd as [Hne Hnd]. cbn in *. apply elem_of_cons in Hin as [[= <- <-]|Hin]; [|by apply IH].
  rewrite decide_True by done. change (foldl _ ?v ?l) with (over l e v). by apply over_skip.
Qed.
Lemma entry_at_empty e : entry_at ∅ e = None.
Proof. unfold entry_at, db_Get. by rewrite lookup_empty. Qed.
Lemma zero_u64 : is_u64 0.
Proof. u64_unfold. lia. Qed.

Section genesis_db.
Context (b : Block) (d : Z) (td bd hd rd cd : list byte).
Context (Hb : storable_block b 0) (Hd : 0 ≤ d).
Abbreviation h := (block_hash b).
Abbreviation ps := (genesis_entries h td bd hd rd cd).
Context (Htd : rlp_at (Some td) = Some d) (Hbd : rlp_at (Some bd) = Some (block_Body b)) (Hhd : rlp_at (Some hd) = Some (block_header b)).
Definition genesis_db : Database := batch_Write (puts ps) ∅.

Lemma genesis_entries_ok : Forall (λ p, entry_ok p.1) ps.
Proof. pose proof (sk_hash _ _ Hb) as Hh. pose proof zero_u64. unfold genesis_entries. repeat apply Forall_cons_2; cbn; try done. Qed.
Lemma genesis_at e : entry_ok e → entry_at genesis_db e = over ps e None.
Proof. intros He. unfold genesis_db. rewrite entry_at_puts, entry_at_empty; [done|apply genesis_entries_ok|done]. Qed.
Lemma genesis_in e w : entry_ok e → entry_at genesis_db e = Some w → (e, Some w) ∈ ps.
Proof. intros He. rewrite genesis_at by done. by intros [?|?]%over_in. Qed.
Lemma genesis_reads : ReadTd genesis_db h 0 = Some d ∧ ReadBlock genesis_db h 0 = Some b ∧ ReadHeaderNumber genesis_db h = Some 0 ∧
  ReadCanonicalHash genesis_db 0 = h ∧ ReadHeadBlockHash genesis_db = h ∧ ReadHeader genesis_db h 0 = Some (block_header b) ∧ entry_at genesis_db HeadFast = None.
Proof.
  pose proof (sk_hash _ _ Hb) as Hh. pose proof zero_u64 as H0'. assert (∀ e v, (e, Some v) ∈ ps → over ps e None = Some v) as Hover.
  { intros e v. apply over_nodup. unfold genesis_entries. cbn. repeat (apply NoDup_cons_2; [by rewrite ?not_elem_of_cons; split_and?; try done; apply not_elem_of_nil|]). apply NoDup_nil_2. }
  split_and!.
  - rewrite ReadTd_at, genesis_at by by split. erewrite Hover; [exact Htd|]. unfold genesis_entries. set_solver.
  - rewrite ReadBlock_at, !genesis_at by by split. erewrite !Hover; [rewrite Hbd, Hhd; f_equal; by eapply WithBody_storable|unfold genesis_entries; set_solver..].
  - rewrite ReadHeaderNumber_at, genesis_at by done. erewrite Hover; [by apply number_at_bytes|]. unfold genesis_entries. set_solver.
  - rewrite ReadCanonicalHash_at, genesis_at by done. erewrite Hover; [by apply hash_at_bytes|]. unfold genesis_entries. set_solver.
  - change (ReadHeadBlockHash genesis_db) with (hash_at (entry_at genesis_db HeadBlock)). rewrite genesis_at by done. erewrite Hover; [by apply hash_at_bytes|]. unfold genesis_entries. set_solver.
  - rewrite ReadHeader_at, genesis_at by by split. erewrite Hover; [exact Hhd|]. unfold genesis_entries. set_solver.
  - rewrite genesis_at by done. reflexivity.
Qed.
(** The only block, number and canonical entries are those of the block. *)
Lemma genesis_keys e w : (e, Some w) ∈ ps → match e with
  | HeaderEntry n h' => h' = h ∧ n = 0 | CanonicalEntry n => n = 0 | NumberEntry h' => h' = h | _ => True end.
Proof. unfold genesis_entries. rewrite !elem_of_cons, elem_of_nil. intros Hin. repeat destruct Hin as [[= -> ->]|Hin]; try done. Qed.
Lemma genesis_db_ok : db_ok h genesis_db.
Proof.
  destruct genesis_reads as (Ht & Hblk & Hnum & Hcan & _). split.
  - intros h' n b' Hh' Hn Hr. assert (h' = h ∧ n = 0) as [-> ->].
    { rewrite ReadBlock_at in Hr. destruct (entry_at genesis_db (HeaderEntry n h')) as [w|] eqn:He; [|done]. apply genesis_in in He; [|by split].
      by apply genesis_keys in He. }
    assert (b' = b) as -> by congruence. exists d. split; try done.
  - intros n Hn. destruct (entry_at genesis_db (CanonicalEntry n)) as [w|] eqn:He.
    + assert (n = 0) as ->. { apply genesis_in in He; [|done]. by apply genesis_keys in He. }
      right. exists b. rewrite Hcan. split; [done|apply (sk_hash _ _ Hb)].
    + left. by rewrite ReadCanonicalHash_at, He.
  - intros h' n Hh' Hr. rewrite ReadHeaderNumber_at in Hr. destruct (entry_at genesis_db (NumberEntry h')) as [w|] eqn:He; [|done].
    assert (h' = h) as ->. { apply genesis_in in He; [|done]. by apply genesis_keys in He. }
    assert (n = 0) as -> by (rewrite ReadHeaderNumber_at, He in Hnum; cbn in *; congruence). apply zero_u64.
Qed.
End genesis_db.

Lemma Commit_ok {E} sealers g (t : T) (d : D) : map_Forall (λ _ a, is_Some (ga_Balance a)) (g_Alloc g) → 0 ≤ default 0 (g_Difficulty g) →
  (∀ c, is_Some (json_MarshalConfig c)) → (∀ b, ToBlock (E := E) sealers g t d = Ok b → is_hash (block_hash b.1.1)) →
  ∃ b d' td bd hd rd cd, Commit (E := E) sealers g t d = Ok (b, puts (genesis_entries (block_hash b) td bd hd rd cd), d') ∧ storable_block b 0 ∧
    Difficulty (block_header b) = Some (default 0 (g_Difficulty g)) ∧
    rlp_at (Some td) = Some (default 0 (g_Difficulty g)) ∧ rlp_at (Some bd) = Some (block_Body b) ∧ rlp_at (Some hd) = Some (block_header b) ∧
    is_Some (cs_New (S := StateDB T) (Root (block_header b)) (sd_reopen d')).
Proof.
  intros Hg Hd Hcfg Hhash. destruct (ToBlock_ok (E := E) sealers g t d Hg) as (b & config & d' & Hto & Hn & Hdiff & Htx & Hu & Hst).
  pose proof (Hhash _ Hto) as Hh. cbn in Hh. assert (storable_block b 0) as Hb.
  { split; [|split; unfold block_Body; cbn; [by rewrite Htx|by rewrite Hu]|done|apply zero_u64|done].
    split; [exists 0; split; [done|lia]|by exists (default 0 (g_Difficulty g))]. }
  destruct (WriteTd_ok (E := E) (block_hash b) 0 _ Hd) as (td & Htd & Htd'). destruct (WriteBlock_ok (E := E) b 0 Hb) as (bd & hd & Hw & Hbd & Hhd).
  destruct (encoded_ok (E := E) (storable := λ _, True) (store_receipt <$> []) I) as (rd & Hrd & _). destruct (Hcfg config) as [cd Hcd].
  exists b, d', td, bd, hd, rd, cd. split_and!; try done. unfold Commit. rewrite Hto. cbn [mbind result_bind]. rewrite Hn. cbn [Types.Uint64 mbind result_bind].
  rewrite (wrap64_id 0) by apply zero_u64. fold (block_hash b). rewrite Htd. cbn [mbind result_bind]. rewrite Hw. cbn [mbind result_bind].
  unfold WriteReceipts. rewrite Hrd. cbn [mbind result_bind]. unfold WriteChainConfig. rewrite Hcd. reflexivity.
Qed.

(** * Opening *)
Context {C : Type → Type} `{LRU C} `{!LRULaws C}.
Implicit Types bc : BlockChain C D.

Lemma caches_keep genesis bc bc' : bc_db bc' = bc_db bc →
  hc_headerCache (bc_hc bc') = hc_headerCache (bc_hc bc) → hc_tdCache (bc_hc bc') = hc_tdCache (bc_hc bc) →
  hc_numberCache (bc_hc bc') = hc_numberCache (bc_hc bc) → bc_blockCache bc' = bc_blockCache bc → bc_bodyCache bc' = bc_bodyCache bc → chain_inv genesis bc → chain_inv genesis bc'.
Proof. intros Hd Hh Ht Hn Hb Hbd [Hdb Hca]. split; [by rewrite Hd|]. apply (caches_same bc); try done. by rewrite Hd. Qed.
(** Setting the heads leaves the invariant alone. *)
Lemma returns_on_hc_modify {A} f (k : unit → GoM (HeaderChain C) chain_error A) (Q : A → BlockChain C D → Prop) bc :
  returns (on_hc (k tt)) Q (set_hc (f (bc_hc bc)) bc) → returns (on_hc (modify f ≫= k)) Q bc.
Proof.
  unfold returns, wp, on_hc, modify, mbind, gom_bind. cbn. by destruct (k tt (f (bc_hc bc))) as [[a|e|p] hc'].
Qed.
Lemma returns_on_hc_get {A} (k : HeaderChain C → GoM (HeaderChain C) chain_error A) (Q : A → BlockChain C D → Prop) bc :
  returns (on_hc (k (bc_hc bc))) Q bc → returns (on_hc (get_state ≫= k)) Q bc.
Proof. done. Qed.

Section opening.
Context (b : Block) (db : Database) (d0 : D).
Abbreviation h := (block_hash b).
Context (Hdb : db_ok h db) (Hb : stored db b 0) (Hcan : ReadCanonicalHash db 0 = h) (Hhead : ReadHeadBlockHash db = h) (Hheadh : ReadHeadHeaderHash db = h) (Hne : h ≠ zero_hash).
Context (Hheader : ReadHeader db h 0 = Some (block_header b)) (Hnum : ReadHeaderNumber db h = Some 0) (Hfast : entry_at db HeadFast = None).
Context (Hstate : is_Some (cs_New (S := StateDB T) (Root (block_header b)) d0)).

(** While the chain opens: the database is untouched. *)
Definition opening bc : Prop := chain_inv h bc ∧ bc_db bc = db.
Lemma quiet_opening bc bc' : opening bc → quiet h bc bc' → opening bc'.
Proof. intros [_ Hd] Hq. split; [by eapply quiet_inv|]. by rewrite (quiet_db _ _ _ Hq). Qed.
Definition empty_chain : BlockChain C D :=
  mkBlockChain (mkHeaderChain db None None zero_hash (lru_New headerCacheLimit) (lru_New tdCacheLimit) (lru_New numberCacheLimit))
    None None None d0 [] 0 (lru_New bodyCacheLimit) (lru_New receiptsCacheLimit) (lru_New blockCacheLimit) (lru_New maxFutureBlocks) (lru_New badBlockLimit) [].
Lemma empty_chain_ok : opening empty_chain.
Proof. split; [|done]. split; [done|]. split; cbn; intros k v; by rewrite lru_New_empty. Qed.

Definition at_genesis bc : Prop := opening bc ∧ hc_currentHeader (bc_hc bc) = Some (block_header b).
Lemma quiet_state bc bc' : quiet h bc bc' → bc_stateCache bc' = bc_stateCache bc.
Proof. intros [_ Hc]. unfold core in Hc. congruence. Qed.
Lemma on_hc_if {A} (c : bool) (m m' : GoM (HeaderChain C) chain_error A) : on_hc (D := D) (if c then m else m') = if c then on_hc m else on_hc m'.
Proof. by destruct c. Qed.
Lemma load_headers_ok bc : opening bc → returns (on_hc load_headers) (λ _ bc', at_genesis bc' ∧ bc_stateCache bc' = bc_stateCache bc) bc.
Proof.
  intros Hop. unfold load_headers. rewrite on_hc_bind. apply returns_bind. eapply returns_mono; [apply GetHeaderByNumber_ok; [apply Hop|apply zero_u64]|].
  cbn beta. intros r bc1 [-> Hq1]. destruct Hop as [Hinv Hd] eqn:Hop'. rewrite Hd, Hcan. rewrite (proj2 (Z.eqb_neq _ _) Hne), Hheader.
  pose proof (quiet_opening _ _ Hop Hq1) as [Hinv1 Hd1]. do 2 apply returns_on_hc_modify. apply returns_on_hc_get.
  match goal with |- returns _ _ ?bc => set (bc2 := bc) in * end. assert (opening bc2) as Hop2 by (split; [by apply (caches_keep _ bc1)|done]).
  change (hc_chainDb (bc_hc bc2)) with (bc_db bc2). rewrite (proj2 Hop2), Hhead, (proj2 (Z.eqb_neq _ _) Hne).
  rewrite on_hc_bind. apply returns_bind. unfold GetHeaderByHash. rewrite on_hc_bind. apply returns_bind.
  eapply returns_mono; [apply GetBlockNumber_ok; [apply Hop2|apply Hb]|]. cbn beta. intros r bc3 [-> Hq3]. rewrite (proj2 Hop2), Hnum.
  pose proof (quiet_opening _ _ Hop2 Hq3) as Hop3.
  eapply returns_mono; [apply GetHeader_ok; [apply Hop3|apply Hb|by rewrite (proj2 Hop3)]|]. cbn beta. intros r bc4 [-> Hq4]. rewrite (proj2 Hop3), Hheader.
  pose proof (quiet_opening _ _ Hop3 Hq4) as Hop4. apply returns_on_hc_modify. apply returns_on_hc_get.
  apply returns_run. eexists tt, _. split; [reflexivity|]. split; [split; [|done]|].
  - split; [|apply Hop4]. apply (caches_keep _ bc4); try done. apply Hop4.
  - cbn. by rewrite (quiet_state _ _ Hq4), (quiet_state _ _ Hq3), <- (quiet_state _ _ Hq1).
Qed.

Lemma SetCurrentHeader_ok bc hd : chain_inv h bc → returns (on_hc (SetCurrentHeader hd))
  (λ _ bc', chain_inv h bc' ∧ (∀ e, entry_ok e → e ≠ HeadHeader → entry_at (bc_db bc') e = entry_at (bc_db bc) e) ∧
    bc_currentBlock bc' = bc_currentBlock bc ∧ bc_genesisBlock bc' = bc_genesisBlock bc ∧ hc_currentHeader (bc_hc bc') = Some hd) bc.
Proof.
  intros [Hd Hca]. apply returns_run. eexists tt, _. split; [reflexivity|].
  assert (∀ e, entry_ok e → e ≠ HeadHeader → entry_at (batch_Write (puts [(HeadHeader, Some (Hash_Bytes (Header_Hash hd)))]) (bc_db bc)) e = entry_at (bc_db bc) e) as Hother.
  { intros e He Hne'. apply entry_at_other; [by apply Forall_singleton|done|]. cbn. set_solver. }
  assert (same_blocks (bc_db bc) (batch_Write (puts [(HeadHeader, Some (Hash_Bytes (Header_Hash hd)))]) (bc_db bc))) as Hs.
  { intros e He Hok. apply Hother; [done|]. by destruct e. }
  split_and!; [|exact Hother|done..]. split; [|by apply (caches_same bc)]. eapply same_db_ok; [exact Hs| |exact Hd].
  intros n Hn. rewrite (ReadCanonicalHash_at (bc_db _)). erewrite Hother by done. rewrite <- ReadCanonicalHash_at. by apply (db_canonical _ _ Hd).
Qed.
Lemma restore_heads_ok bc : opening bc → returns (restore_heads b) (λ _ bc', chain_inv h bc' ∧
  (∀ e, entry_ok e → e ≠ HeadHeader → entry_at (bc_db bc') e = entry_at db e) ∧ bc_currentBlock bc' = Some b ∧ bc_genesisBlock bc' = bc_genesisBlock bc ∧
  bc_currentFastBlock bc' = Some b ∧ hc_currentHeader (bc_hc bc') = Some (block_header b)) bc.
Proof.
  intros Hop. unfold restore_heads. apply returns_bind, wp_modify, returns_bind, wp_get.
  match goal with |- returns _ _ ?bc => set (bc1 := bc) in * end. assert (opening bc1) as Hop1 by (split; [by apply (caches_keep _ bc); [..|apply Hop]|apply Hop]).
  rewrite (proj2 Hop1). rewrite Hheadh, (proj2 (Z.eqb_neq _ _) Hne). unfold GetHeaderByHash.
  apply returns_bind. rewrite on_hc_bind. apply returns_bind.
  eapply returns_mono; [apply GetBlockNumber_ok; [apply Hop1|apply Hb]|]. cbn beta. intros r bc3 [-> Hq3]. rewrite (proj2 Hop1), Hnum.
  pose proof (quiet_opening _ _ Hop1 Hq3) as Hop3.
  eapply returns_mono; [apply GetHeader_ok; [apply Hop3|apply Hb|by rewrite (proj2 Hop3)]|]. cbn beta. intros r bc4 [-> Hq4]. rewrite (proj2 Hop3), Hheader.
  pose proof (quiet_opening _ _ Hop3 Hq4) as Hop4. cbn [default].
  apply returns_bind. eapply returns_mono; [apply SetCurrentHeader_ok, Hop4|]. cbn beta. intros [] bc5 (Hinv5 & Hother5 & Hcur5 & Hg5 & Hch5).
  rewrite (proj2 Hop4) in Hother5. apply returns_bind, wp_modify, returns_bind, wp_get.
  assert (ReadHeadFastBlockHash (bc_db bc5) = zero_hash) as Hf.
  { change (ReadHeadFastBlockHash (bc_db bc5)) with (hash_at (entry_at (bc_db bc5) HeadFast)). by rewrite Hother5, Hfast. }
  change (bc_db (set_fast (Some b) bc5)) with (bc_db bc5). rewrite Hf. cbn. apply wp_ret.
  assert (bc_currentBlock bc5 = Some b ∧ bc_genesisBlock bc5 = bc_genesisBlock bc) as [Hcur Hg].
  { destruct Hq3 as [_ Hc3], Hq4 as [_ Hc4]. unfold core in Hc3, Hc4. cbn in Hc3. rewrite Hcur5, Hg5. split; congruence. }
  split_and!; try done. by apply (caches_keep _ bc5).
Qed.
Lemma NewBlockChain_ok : ∃ bc, NewBlockChain (T := T) db d0 = (Ok tt, bc) ∧ chain_ok h bc b 0 ∧ bc_genesisBlock bc = Some b ∧
  bc_currentFastBlock bc = Some b ∧ hc_currentHeader (bc_hc bc) = Some (block_header b) ∧ ∀ e, entry_ok e → e ≠ HeadHeader → entry_at (bc_db bc) e = entry_at db e.
Proof.
  pose proof (load_headers_ok empty_chain empty_chain_ok) as Hload. unfold NewBlockChain, NewHeaderChain. unfold returns, wp, on_hc in Hload.
  change (bc_hc empty_chain) with (mkHeaderChain (C := C) db None None zero_hash (lru_New headerCacheLimit) (lru_New tdCacheLimit) (lru_New numberCacheLimit)) in Hload.
  destruct (load_headers _) as [[[]|e|p] hc]; [|done..]. destruct Hload as [[Hop Hch] Hstc]. cbn beta iota.
  change (mkBlockChain hc _ _ _ _ _ _ _ _ _ _ _ _) with (set_hc hc empty_chain). set (bc0 := set_hc hc empty_chain) in *. cbn in Hstc.
  match goal with |- ∃ bc, ?m bc0 = _ ∧ _ => assert (returns m (λ _ bc, chain_ok h bc b 0 ∧ bc_genesisBlock bc = Some b ∧
    bc_currentFastBlock bc = Some b ∧ hc_currentHeader (bc_hc bc) = Some (block_header b) ∧ ∀ e, entry_ok e → e ≠ HeadHeader → entry_at (bc_db bc) e = entry_at db e) bc0) as Hrun;
    [|apply returns_unit in Hrun; exact Hrun] end.
  apply returns_bind. eapply wp_lift; [reflexivity|]. apply returns_bind. eapply returns_mono; [apply GetBlockByNumber_ok; [apply Hop|apply zero_u64]|].
  cbn beta. intros r bc1 [-> Hq1]. rewrite (proj2 Hop), Hcan, (proj2 (Z.eqb_neq _ _) Hne), (proj2 (proj2 Hb)).
  pose proof (quiet_opening _ _ Hop Hq1) as Hop1. apply returns_bind, wp_modify. match goal with |- returns _ _ ?bc => set (bc2 := bc) in * end.
  assert (opening bc2) as Hop2 by (split; [by apply (caches_keep _ bc1); [..|apply Hop1]|apply Hop1]).
  unfold loadLastState. cbn [load_fuel]. unfold load_with at 1. apply returns_bind, wp_get. rewrite (proj2 Hop2), Hhead, (proj2 (Z.eqb_neq _ _) Hne).
  apply returns_bind. eapply returns_mono; [apply GetBlockByHash_ok; [apply Hop2|apply Hb]|]. cbn beta. intros r bc3 [-> Hq3].
  rewrite (proj2 Hop2), Hnum. cbn [mbind option_bind]. rewrite (proj2 (proj2 Hb)). pose proof (quiet_opening _ _ Hop2 Hq3) as Hop3.
  eapply (returns_number_of h); [apply Hop3|rewrite (proj2 Hop3); exact Hb|].
  assert (bc_stateCache bc3 = d0) as Hst3. { rewrite (quiet_state _ _ Hq3). cbn. by rewrite (quiet_state _ _ Hq1). }
  apply returns_bind. change (Z.to_nat 0) with 0%nat. cbn [repair]. apply returns_bind, wp_get. rewrite Hst3. destruct Hstate as [st ->]. apply wp_ret.
  eapply returns_mono; [by apply restore_heads_ok|]. cbn beta. intros [] bc4 (Hinv4 & Hother & Hcur & Hg & Hf & Hh4).
  assert (bc_genesisBlock bc4 = Some b) as Hg4. { rewrite Hg. destruct Hq3 as [_ Hc3]. unfold core in Hc3. cbn in Hc3. congruence. }
  split_and!; try done. assert (same_blocks db (bc_db bc4)) as Hs by (intros e He Hok; apply Hother; [done|by destruct e]).
  split; [done|done|by eapply same_stored|]. intros l a m Hp. inversion Hp as [? ? Ha|]; subst; [|lia].
  rewrite ReadCanonicalHash_at, Hother, <- ReadCanonicalHash_at by done. exact Hcan.
Qed.
End opening.

(** C15: a node starts well: committing the genesis block to an empty database
    commits the state of the allocation and succeeds, and the chain opened on that
    database, over its state database opened anew, has the genesis block as its
    only head, fast head and header head, with the difficulty of the
    specification, in a well-formed database. *)
Theorem genesis_opens_the_chain sealers g (t : T) b config (d d' : D) : map_Forall (λ _ a, is_Some (ga_Balance a)) (g_Alloc g) →
  0 ≤ default 0 (g_Difficulty g) → (∀ c, is_Some (json_MarshalConfig c)) → ToBlock (E := chain_error) sealers g t d = Ok (b, config, d') →
  is_hash (block_hash b) → block_hash b ≠ zero_hash →
  ∃ ws bc, Commit (E := chain_error) sealers g t d = Ok (b, ws, d') ∧ NewBlockChain (C := C) (T := T) (batch_Write ws ∅) (sd_reopen d') = (Ok tt, bc) ∧
    chain_ok (block_hash b) bc b 0 ∧ bc_genesisBlock bc = Some b ∧ bc_currentFastBlock bc = Some b ∧ hc_currentHeader (bc_hc bc) = Some (block_header b) ∧
    ReadTd (bc_db bc) (block_hash b) 0 = Some (default 0 (g_Difficulty g)).
Proof.
  intros Hg Hd Hcfg Hto Hh Hne. destruct (Commit_ok (E := chain_error) sealers g t d Hg Hd Hcfg) as (b' & d1 & td & bd & hd & rd & cd & Hc & Hb & Hdiff & Htd & Hbd & Hhd & Hst).
  { intros x Hx. rewrite Hto in Hx. by injection Hx as <-. }
  assert (b' = b ∧ d1 = d') as [-> ->]. { unfold Commit in Hc. rewrite Hto in Hc. cbn [mbind result_bind] in Hc. by repeat (apply result_bind_ok in Hc as (? & _ & Hc)); injection Hc as ?? ->. }
  destruct (genesis_reads b (default 0 (g_Difficulty g)) td bd hd rd cd Hb Hd Htd Hbd Hhd) as (Gt & Gb & Gn & Gc & Gh & Ghd & Gf).
  destruct (NewBlockChain_ok b (genesis_db b td bd hd rd cd) (sd_reopen d')) as (bc & Hrun & Hok & Hgen & Hfast & Hhead & Hother); try done.
  - by eapply genesis_db_ok.
  - change (ReadHeadHeaderHash ?db) with (hash_at (entry_at db HeadHeader)). rewrite genesis_at by done. by apply hash_at_bytes.
  - eexists _, bc. split_and!; [exact Hc|exact Hrun|done..|]. rewrite ReadTd_at, Hother; [done|split; [apply zero_u64|done]|done].
Qed.
End starting.
