(* ===== verification/Instances.v ===== *)
(** Concrete instances of the interfaces, on which the development's examples
    evaluate: an injective hash, RLP, signatures that carry the signer's address,
    a chain kept as a list, and a snapshot codec. *)
From S2P Require Import Prelude Types Sealing Blocks StateDB TxSigning Processor VotingSnapshot CliqueEngine Trie TxList.

(** * A self-delimiting code *)
Fixpoint code (p acc : positive) : positive :=
  match p with
  | xH => acc~0
  | xO q => (code q acc)~0~1
  | xI q => (code q acc)~1~1
  end.

Lemma code_inj p q acc acc' : code p acc = code q acc' → p = q ∧ acc = acc'.
Proof.
  revert q. induction p as [p IH|p IH|]; intros [q|q|]; cbn; intros Heq; simplify_eq; [..|done].
  all: by apply IH in Heq as [-> ->].
Qed.

Fixpoint code_list (l : list Z) (acc : positive) : positive :=
  match l with
  | [] => acc~0
  | x :: l' => (code (encode x) (code_list l' acc))~1
  end.

Lemma code_list_inj l l' acc acc' : code_list l acc = code_list l' acc' → l = l' ∧ acc = acc'.
Proof.
  revert l'. induction l as [|x l IH]; intros [|x' l']; cbn; intros Heq; simplify_eq; [done|].
  apply code_inj in Heq as [Hx Hl]. apply (inj encode) in Hx as ->. by apply IH in Hl as [-> ->].
Qed.

Definition header_fields (h : Header) : list Z :=
  [ParentHash h; UncleHash h; Coinbase h; Root h; TxHash h; ReceiptHash h; Bloom h;
   GasLimit h; GasUsed h; Time h; MixDigest h; Nonce h].
Definition header_code (h : Header) : positive :=
  code (encode (Difficulty h)) (code (encode (Number h)) (code_list (Extra h) (code_list (header_fields h) xH))).

Lemma header_code_inj h h' : header_code h = header_code h' → h = h'.
Proof.
  unfold header_code. intros [Hd Heq]%code_inj. apply code_inj in Heq as [Hn Heq].
  apply code_list_inj in Heq as [Hx Heq]. apply code_list_inj in Heq as [Hf _].
  apply (inj encode) in Hd, Hn. destruct h, h'. unfold header_fields in Hf. cbn in *. by simplify_eq.
Qed.

(** * Cryptography *)
#[export] Instance toy_crypto : Crypto := {
  rlpHash h := Z.pos (header_code h);
  crypto_Ecrecover _ sig := Some (4 :: replicate 12 0 ++ sig);
  crypto_Keccak256 b := b
}.
#[export] Instance toy_collision_free : CollisionFree.
Proof. intros h h' [= Heq]. by apply header_code_inj. Qed.

(** The signature of an address is the address, padded to 65 bytes. *)
Definition toy_signature (a : Address) : list byte :=
  array_bytes AddressLength a ++ replicate 45 0.
Definition toy_sign (a : Address) (_ : Header) : option (list byte) := Some (toy_signature a).

#[export] Instance toy_digests : BlockDigests := {
  rlpHash_headers l := Z.of_nat (length l);
  DeriveSha_Transactions l := Z.of_nat (length l);
  DeriveSha_Receipts l := Z.of_nat (length l)
}.

(** * A chain of headers, the genesis block first *)
Definition header_at (chain : list Header) (n : Z) : option Header :=
  if n <? 0 then None else chain !! Z.to_nat n.
#[export] Instance list_chain : ChainReader (list Header) := {
  CurrentHeader chain := last chain;
  GetHeaderByNumber chain n := header_at chain n;
  GetHeaderByHash chain hash := snd <$> list_find (λ h, Header_Hash h = hash) chain;
  GetHeader chain hash n :=
    h ← header_at chain n;
    if decide (Header_Hash h = hash) then Some h else None
}.

(** * Snapshots in the database *)
#[export] Instance vote_countable : Countable Vote.
Proof.
  refine (inj_countable' (λ v, (vSigner v, vBlock v, vAddress v, vAuthorize v))
    (λ '(s, b, a, auth), mkVote s b a auth) _).
  by intros [].
Defined.
#[export] Instance tally_countable : Countable Tally.
Proof.
  refine (inj_countable' (λ t, (tAuthorize t, tVotes t)) (λ '(a, v), mkTally a v) _). by intros [].
Defined.
Definition snapshot_tuple (s : Snapshot) :=
  (sNumber s, sHash s, sSigners s, sRecents s, sVotes s, sTally s).
Definition toy_Unmarshal (b : list byte) : option Snapshot :=
  match b with
  | [Z.pos p] => (λ '(n, h, sg, rc, v, t), mkSnapshot n h sg rc v t) <$> decode p
  | _ => None
  end.
#[export] Program Instance toy_codec : SnapshotCodec := {
  json_Marshal s := Some [Z.pos (encode (snapshot_tuple s))];
  json_Unmarshal := toy_Unmarshal
}.
Next Obligation. by eexists. Qed.
Next Obligation.
  intros s b [= <-]. unfold toy_Unmarshal. rewrite decode_encode. by destruct s.
Qed.

(** * Storage tries and code: a root or a code hash spells the contents *)
Definition contents (r : Hash) : gmap Hash Hash :=
  match r with Z.pos p => default ∅ (decode p) | _ => ∅ end.
#[export] Instance toy_store : StateStore := {
  storage_read r k := default 0 (contents r !! k);
  storage_write r m := Z.pos (encode (m ∪ contents r));
  ContractCode h := match h with Z.pos p => decode p | _ => None end;
  code_hash c := Z.pos (encode c)
}.
#[export] Instance toy_store_laws : StateStoreLaws.
Proof.
  intros r m k. cbn. rewrite decode_encode. cbn. rewrite lookup_union.
  by destruct (m !! k), (contents r !! k).
Qed.

(** * Transaction signatures *)
Definition tx_fields (tx : Transaction) :=
  (AccountNonce tx, Price tx, TxGasLimit tx, Recipient tx, Amount tx, Payload tx, (SigV tx, SigR tx, SigS tx)).
#[export] Instance toy_tx_crypto : TxCrypto := {
  rlpHash_unsigned u := 0;
  rlpHash_tx tx := Z.pos (encode (tx_fields tx));
  crypto_ValidateSignatureValues v r s homestead := true
}.
#[export] Instance toy_tx_hash_inj : Inj (=) (=) rlpHash_tx.
Proof.
  intros tx tx' Heq. cbn in Heq. assert (encode (tx_fields tx) = encode (tx_fields tx')) as Henc by congruence.
  apply (inj encode) in Henc. destruct tx, tx'. unfold tx_fields in Henc. cbn in Henc. by simplify_eq.
Qed.
Definition toy_tx_sign (a : Address) (_ : Hash) : option (list byte) :=
  Some ((array_bytes AddressLength a ++ replicate 44 0) ++ [0]).

(** * A chain that knows a list of blocks with their states *)
#[export] Instance list_blocks : BlockStore (list (Hash * Z)) := {
  HasBlock chain hash n := bool_decide ((hash, n) ∈ chain);
  HasBlockAndState chain hash n := bool_decide ((hash, n) ∈ chain);
  engine_VerifyUncles chain block := bool_decide (block_uncles block = [])
}.

(** * Node encodings and hashes: RLP, and a sum over the bytes *)
Fixpoint big_endian (fuel : nat) (n : Z) : list byte :=
  match fuel with
  | O => []
  | S fuel => if n <=? 0 then [] else big_endian fuel (n / 256) ++ [n mod 256]
  end.
Definition rlp_head (base : Z) (payload : list byte) : list byte :=
  let len := Z.of_nat (length payload) in
  if len <? 56 then [base + len] else let size := big_endian 8 len in base + 55 + Z.of_nat (length size) :: size.
Definition rlp_string (s : list byte) : list byte :=
  match s with
  | [b] => if b <? 128 then [b] else [129; b]
  | _ => rlp_head 128 s ++ s
  end.
Fixpoint rlp_encode (i : rlp_item) : list byte :=
  match i with
  | rStr s => rlp_string s
  | rList items => let payload := concat (map rlp_encode items) in rlp_head 192 payload ++ payload
  end.
#[export] Instance toy_digest : NodeDigest := {
  rlp_Encode := rlp_encode;
  keccak256 := foldl (λ acc b, (acc * 257 + b + 1) mod 256 ^ 32) 7
}.

(** * The order of a map: the one of its enumeration *)
#[export] Instance toy_range : MapRange.
Proof. refine {| map_range K A _ _ m := map_to_list m |}. done. Defined.
