(* ===== verification/CliqueExamples.v ===== *)
(** The Clique theorems at concrete inputs: a chain of three authorities. *)
From S2P Require Import Prelude Types Sealing Blocks VotingSnapshot Clique CliqueVoting CliqueEngine CliqueSnapshots CliqueVerify CliqueMining Instances.

Definition ex_config : CliqueConfig := mkCliqueConfig 15 30000.
Definition ex_authorities : list Address := [1; 2; 3].
Definition ex_genesis : Header :=
  mkHeader 0 0 0 0 0 0 0 (Some 1) (Some 0) 8000000 0 0
    (replicate 32 0 ++ mjoin (array_bytes AddressLength <$> ex_authorities) ++ replicate 65 0) 0 0.

(** A sealed block on top of [parent]. *)
Definition ex_block (parent : Header) (signer coinbase nonce difficulty : Z) : Header :=
  mkHeader (Header_Hash parent) 0 coinbase 0 0 0 0 (Some difficulty)
    (Some (default 0 (Number parent) + 1)) 8000000 0 (Time parent + 15)
    (replicate 32 0 ++ toy_signature signer) 0 nonce.

(** Signers 2 and 3 vote account 7 in, in turn; then signer 1 seals out of turn. *)
Definition ex_b1 : Header := ex_block ex_genesis 2 7 nonceAuthVote 2.
Definition ex_b2 : Header := ex_block ex_b1 3 7 nonceAuthVote 2.
Definition ex_b3 : Header := ex_block ex_b2 1 0 nonceDropVote 1.
Definition ex_snapshot0 : Snapshot := genesis_snapshot ex_genesis ex_authorities.
Definition ex_snapshot1 : Snapshot :=
  mkSnapshot 1 (Header_Hash ex_b1) {[1; 2; 3]} {[1 := 2]} [mkVote 2 1 7 true] {[7 := mkTally true 1]}.
Definition ex_snapshot2 : Snapshot :=
  mkSnapshot 2 (Header_Hash ex_b2) {[1; 2; 3; 7]} {[1 := 2; 2 := 3]} [] ∅.

Example ex_signers : checkpoint_signers ex_genesis = Ok ex_authorities.
Proof. vm_compute. reflexivity. Qed.
Example ex_replay1 : replay ex_config ex_snapshot0 [ex_b1] = Ok ex_snapshot1.
Proof. vm_compute. reflexivity. Qed.
Example ex_replay2 : replay ex_config ex_snapshot0 [ex_b1; ex_b2] = Ok ex_snapshot2.
Proof. vm_compute. reflexivity. Qed.

(** * Voting *)
Lemma apply_preserves_snapshot_ok_witness :
  snapshot_ok ex_snapshot2 ∧ sNumber ex_snapshot2 = sNumber ex_snapshot0 + 2.
Proof.
  apply (apply_preserves_snapshot_ok ex_config ex_snapshot0 [ex_b1; ex_b2] tt ex_snapshot2 tt).
  - apply newSnapshot_ok. by split.
  - reflexivity.
  - vm_compute. reflexivity.
Defined.

Lemma ex_snapshot1_inv : snapshot_inv 1 ex_snapshot1.
Proof.
  assert (snapshot_ok ex_snapshot1 ∧ sNumber ex_snapshot1 = sNumber ex_snapshot0 + 1) as [[_ Hinv] _]; [|done].
  apply (apply_keeps_invariant ex_config ex_snapshot0 [ex_b1] tt ex_snapshot1 tt);
    [apply newSnapshot_ok; by split|reflexivity|vm_compute; reflexivity].
Qed.

Definition ex_step2 : Snapshot := set_Position ex_snapshot2 1 (Header_Hash ex_b1).
Lemma ex_step2_run : apply_header ex_config ex_snapshot1 ex_b2 tt = (Ok ex_step2, tt).
Proof. vm_compute. reflexivity. Qed.

Lemma membership_change_needs_majority_witness :
  7 = Coinbase ex_b2 ∧
  ∃ voters : gset Address,
    voters ⊆ sSigners ex_snapshot1 ∧
    Z.of_nat (size (sSigners ex_snapshot1)) < 2 * Z.of_nat (size voters) ∧
    ∀ g, g ∈ voters →
      (clique_ecrecover ex_b2 tt).1 = Ok g ∨
      ∃ v, v ∈ sVotes ex_snapshot1 ∧ vSigner v = g ∧ vAddress v = 7 ∧
           vAuthorize v = bool_decide (7 ∉ sSigners ex_snapshot1).
Proof.
  apply (membership_change_needs_majority ex_config 1 ex_snapshot1 ex_b2 tt ex_step2 tt 7).
  - exact ex_snapshot1_inv.
  - exact ex_step2_run.
  - intros [_ Hin]. assert (7 ∈ sSigners ex_snapshot1) as Hno; [apply Hin|].
    + apply (bool_decide_unpack _). vm_compute. exact I.
    + revert Hno. apply (bool_decide_unpack (¬ _)). vm_compute. exact I.
Defined.

Lemma consecutive_signers_distinct_witness : [2; 3] !! 1%nat ≠ Some 2.
Proof.
  apply (consecutive_signers_distinct ex_config 3 0 ex_snapshot0 tt [ex_b1; ex_b2] [2; 3] 0 1 2).
  - cbn. split; [by exists 1|]. split; [by exists 2|done].
  - done.
  - reflexivity.
  - done.
  - cbn. exists (set_Position ex_snapshot1 0 (Header_Hash ex_genesis)), tt.
    split; [vm_compute; reflexivity|]. split; [vm_compute; reflexivity|].
    split; [vm_compute; discriminate|]. split; [vm_compute; discriminate|].
    exists (set_Position ex_snapshot2 0 (Header_Hash ex_genesis)), tt.
    split; [vm_compute; reflexivity|]. split; [vm_compute; reflexivity|].
    split; [vm_compute; discriminate|]. by split; [vm_compute; discriminate|].
  - lia.
  - vm_compute. discriminate.
  - reflexivity.
Defined.

Lemma reachable_snapshot_bounds_witness :
  (∀ a t, sTally ex_snapshot1 !! a = Some t → 1 ≤ tVotes t ≤ Z.of_nat (size (sSigners ex_snapshot1))) ∧
  Z.of_nat (size (sRecents ex_snapshot1)) ≤ Z.of_nat (size (sSigners ex_snapshot1)) / 2 + 1.
Proof.
  apply (reachable_snapshot_bounds ex_config 0 (Header_Hash ex_genesis) ex_authorities [ex_b1] tt ex_snapshot1 tt).
  - by split.
  - reflexivity.
  - vm_compute. reflexivity.
Defined.

(** * Retrieval and verification *)
Definition ex_chain : list Header := [ex_genesis; ex_b1; ex_b2].
Definition ex_engine : Engine (gmap Hash Snapshot) (gmap Hash Address) (gmap (string * Hash) (list byte)) :=
  mkEngine {[Header_Hash ex_b1 := ex_snapshot1]} ∅ ∅ {[9 := true]} 1.

Lemma ex_ancestry1 : ancestry ex_genesis (Header_Hash ex_b1) [ex_b1].
Proof. apply (ancestry_snoc _ ex_b1 [] 1); [constructor|done..]. Qed.
Lemma ex_ancestry2 : ancestry ex_genesis (Header_Hash ex_b2) [ex_b1; ex_b2].
Proof. apply (ancestry_snoc _ ex_b2 [ex_b1] 2); [apply ex_ancestry1|done..]. Qed.

Lemma ex_chain_ok : chain_ok ex_chain ex_config ex_genesis ex_authorities.
Proof.
  split; [done|done|apply ex_signers|done|]. intros n Hn. cbn. unfold header_at.
  destruct (n - 1 <? 0) eqn:Hlt; [apply Z.ltb_lt in Hlt; lia|]. intros Hnone.
  rewrite (proj2 (Z.ltb_ge _ _)) by lia. apply lookup_ge_None in Hnone.
  apply lookup_ge_None. lia.
Qed.

Lemma ex_engine_ok : engine_ok ex_config ex_genesis ex_authorities ex_engine.
Proof.
  split.
  - intros h a Hh. done.
  - intros hash s Hs. change (({[Header_Hash ex_b1 := ex_snapshot1]} : gmap Hash Snapshot) !! hash = Some s) in Hs.
    apply lookup_singleton_Some in Hs as [<- <-]. exists [ex_b1]. split; [apply ex_ancestry1|apply ex_replay1].
  - intros hash blob s Hs. done.
Qed.

Lemma ex_in_database : in_database ex_chain [ex_b1; ex_b2].
Proof.
  intros [|[|i]] header Hi; [injection Hi as <-|injection Hi as <-|done]; vm_compute; reflexivity.
Qed.

Lemma snapshot_is_replay_witness :
  ∃ e', snapshot ex_chain ex_config 3 2 (Header_Hash ex_b2) [] ex_engine = (Ok ex_snapshot2, e') ∧
        engine_ok ex_config ex_genesis ex_authorities e'.
Proof.
  rewrite <- ex_replay2.
  apply (snapshot_is_replay ex_chain ex_config ex_genesis ex_authorities 3 [ex_b1; ex_b2] []).
  - exact ex_chain_ok.
  - exact ex_engine_ok.
  - exact ex_ancestry2.
  - exact ex_in_database.
  - cbn. lia.
Defined.

Lemma ex_known : ancestors_known ex_chain ex_config ex_genesis ex_authorities 3 [ex_b1; ex_b2] [] (Header_Hash ex_b2).
Proof.
  split; [exact ex_chain_ok| |vm_compute; reflexivity|exact ex_ancestry2|exact ex_in_database|cbn; lia].
  intros h n p. cbn. unfold header_at. intros Hp. destruct (n <? 0); [done|].
  destruct (ex_chain !! Z.to_nat n) as [h'|] eqn:Hl; [|done]. cbn in Hp. case_decide; [|done].
  injection Hp as <-. assert (Forall (λ x, is_Some (Number x)) ex_chain) as Hall.
  { repeat constructor; by eexists. }
  by apply (Forall_lookup_1 _ _ _ _ Hall Hl).
Qed.

(** Block 3, out of turn because account 7 is now a signer. *)
Lemma ex_b3_accepted :
  verify_spec ex_config ex_genesis ex_authorities false 45 [ex_b1; ex_b2] ex_b3 = Ok tt.
Proof. vm_compute. reflexivity. Qed.

Lemma verifyHeader_refines_spec_witness :
  answers (engine_ok ex_config ex_genesis ex_authorities)
    (verifyHeader ex_chain ex_config 3 false 45 ex_b3 [] : GoM (Engine (gmap Hash Snapshot) (gmap Hash Address)
       (gmap (string * Hash) (list byte))) _ _) (Ok tt).
Proof.
  rewrite <- ex_b3_accepted.
  apply (verifyHeader_refines_spec ex_chain ex_config ex_genesis ex_authorities 3 false 45 [ex_b1; ex_b2] []).
  exact ex_known.
Defined.

Lemma verify_spec_accepts_iff_witness :
  ∃ snap signer, acceptable ex_config ex_genesis ex_authorities false 45 [ex_b1; ex_b2] ex_b3 snap signer 3.
Proof.
  apply (verify_spec_accepts_iff ex_config ex_genesis ex_authorities false 45 [ex_b1; ex_b2] ex_b3 3);
    [discriminate|reflexivity|discriminate|exact ex_b3_accepted].
Defined.

Lemma accepted_block_applies_witness :
  ∃ snap', replay ex_config ex_snapshot0 ([ex_b1; ex_b2] ++ [ex_b3]) = Ok snap' ∧
    sHash snap' = Header_Hash ex_b3 ∧ snapshot_ok snap'.
Proof.
  apply (accepted_block_applies ex_config ex_genesis ex_authorities false 45 [ex_b1; ex_b2] ex_b3 3 ex_snapshot2).
  - discriminate.
  - reflexivity.
  - discriminate.
  - exact ex_ancestry2.
  - exact ex_b3_accepted.
  - exact ex_replay2.
  - vm_compute. discriminate.
Defined.

(** With five authorities the signing limit is 3: at block 2 the signer of
    block 1 may not sign again. *)
Definition ex5_snapshot : Snapshot :=
  mkSnapshot 1 (Header_Hash ex_b1) {[1; 2; 3; 4; 5]} {[1 := 2]} [] ∅.
Definition ex5_block : Header := ex_block ex_b1 2 0 nonceDropVote 1.
Lemma ex5_ok : snapshot_ok ex5_snapshot.
Proof.
  split; [by split|]. split; cbn; [apply voting_ok_reset|]. split.
  - intros b a Hb. apply lookup_singleton_Some in Hb as [<- _]. vm_compute. repeat split; discriminate.
  - intros b b' a Hb Hb'. apply lookup_singleton_Some in Hb as [<- _], Hb' as [<- _]. done.
Qed.

Lemma low_height_divergence_witness :
  seal_spec true ex5_snapshot 2 ex5_block = Ok tt ∧
  replay ex_config ex5_snapshot [ex5_block] = Err errRecentlySigned ∧
  must_wait ex5_snapshot 2 2 = true.
Proof.
  apply (low_height_divergence ex_config ex5_snapshot ex5_block 2 2 false).
  - discriminate.
  - exact ex5_ok.
  - reflexivity.
  - reflexivity.
  - vm_compute. reflexivity.
  - vm_compute. discriminate.
  - vm_compute. reflexivity.
  - apply (bool_decide_unpack _). vm_compute. exact I.
  - reflexivity.
  - vm_compute. reflexivity.
Defined.

(** * Mining block 3 *)
Lemma toy_key : honest_key toy_sign 1.
Proof.
  intros sig. exists (toy_signature 1), 4, (replicate 12 0 ++ toy_signature 1).
  split; [done|]. split; [done|]. split; [done|]. vm_compute. reflexivity.
Qed.

Definition ex_draft : Header := mkHeader (Header_Hash ex_b2) 0 0 0 0 0 0 None (Some 3) 8000000 0 0 [] 0 0.
Definition ex_tx : Transaction := mkTransaction 0 1 21000 (Some 5) 10 [] 0 0 0.

Lemma honest_block_accepted_witness :
  ∃ prepared_header e1 block sealed delay e2,
    Prepare ex_chain ex_config 3 40 0 ex_draft ex_engine = (Ok prepared_header, e1) ∧
    Finalize 99 prepared_header [ex_tx] [] = Ok block ∧
    Seal ex_chain ex_config 3 41 7 toy_sign block e1 = (Ok (Some (sealed, delay)), e2) ∧
    engine_ok ex_config ex_genesis ex_authorities e2 ∧
    block_transactions sealed = [ex_tx] ∧ Root (block_header sealed) = 99 ∧
    author errMissingSignature errCrypto (block_header sealed) = Ok 1 ∧
    ∀ later, Time (block_header sealed) ≤ later →
      verify_spec ex_config ex_genesis ex_authorities false later [ex_b1; ex_b2] (block_header sealed) = Ok tt ∧
      answers (engine_ok ex_config ex_genesis ex_authorities)
        (verifyHeader ex_chain ex_config 3 false later (block_header sealed) [] :
           GoM (Engine (gmap Hash Snapshot) (gmap Hash Address) (gmap (string * Hash) (list byte))) _ _) (Ok tt).
Proof.
  apply (honest_block_accepted ex_chain ex_config ex_genesis ex_authorities 3 40 41 0 7 toy_sign 99 [ex_tx] []
    [ex_b1; ex_b2] ex_draft ex_engine 3 ex_snapshot2).
  - exact ex_known.
  - exact ex_engine_ok.
  - reflexivity.
  - reflexivity.
  - exact ex_replay2.
  - apply (bool_decide_unpack _). vm_compute. exact I.
  - vm_compute. reflexivity.
  - left. discriminate.
  - exact toy_key.
Defined.
