(* ===== verification/AuraExamples.v ===== *)
(** The Aura theorems at concrete inputs: three authorities, period 15. *)
From S2P Require Import Prelude Types Sealing Blocks VotingSnapshot Aura AuraVerify Instances.

Definition ax_config : AuraConfig := mkAuraConfig 15 30000 [1; 2; 3] (Some 1).
Definition ax_genesis : Header :=
  mkHeader 0 0 0 0 0 0 0 (Some 1) (Some 0) 8000000 0 0 (replicate 97 0) 0 0.
Definition ax_chain : list Header := [ax_genesis].
Definition ax_engine : Engine (gmap Hash Snapshot) (gmap Hash Address) := mkEngine ∅ ∅ ∅ 2.
Definition ax_draft : Header := mkHeader (Header_Hash ax_genesis) 0 0 0 0 0 0 None (Some 1) 8000000 0 0 [] 0 0.
(** Block 1, at time 20: the slot of authority 2. *)
Definition ax_b1 : Header :=
  mkHeader (Header_Hash ax_genesis) 0 0 0 0 0 0 (Some 1) (Some 1) 8000000 0 20
    (replicate 32 0 ++ toy_signature 2) 0 0.

Lemma ax_rotation_ok : rotation_ok ax_config.
Proof. by split. Qed.
Lemma ax_signatures_ok : signatures_ok ax_engine.
Proof. intros h a Hh. done. Qed.
Lemma ax_no_snapshots : no_snapshots ax_engine.
Proof. intros h s Hh. done. Qed.
Lemma ax_key : honest_key toy_sign 2.
Proof.
  intros sig. exists (toy_signature 2), 4, (replicate 12 0 ++ toy_signature 2).
  split; [done|]. split; [done|]. split; [done|]. vm_compute. reflexivity.
Qed.

(** The boundary of a slot belongs to the slot before it. *)
Example ax_turns :
  inTurn ax_config 1 <$> [15; 16; 30; 31] = [Ok true; Ok false; Ok false; Ok false] ∧
  inTurn ax_config 2 <$> [15; 16; 30; 31] = [Ok false; Ok true; Ok true; Ok false].
Proof. by vm_compute. Qed.

Lemma inTurn_unique_authority_witness :
  ∃ authority, authority ∈ au_Authorities ax_config ∧
    authority_of_slot ax_config (slot ax_config 20) = Some authority ∧
    ∀ signer, inTurn ax_config signer 20 = Ok (bool_decide (signer = authority)).
Proof. apply (inTurn_unique_authority ax_config 20); [exact ax_rotation_ok|by split]. Defined.

Lemma inTurn_panics_witness : inTurn (mkAuraConfig 0 30000 [1] (Some 1)) 1 20 = Panic DivideByZero.
Proof. apply (inTurn_panics (mkAuraConfig 0 30000 [1] (Some 1)) 1 20). by left. Defined.

Lemma rotation_is_fair_witness :
  ∃ time, 100 < time ≤ 100 + 3 * 15 ∧ inTurn ax_config 3 time = Ok true.
Proof.
  apply (rotation_is_fair ax_config 100 2 3); [exact ax_rotation_ok|reflexivity|lia|vm_compute; reflexivity].
Defined.

Lemma verifyHeader_accepts_iff_witness :
  (verifyHeader ax_chain ax_config ax_config 40 ax_b1 [] ax_engine).1 = Ok tt ∧
  ∃ signer, author errMissingSignature errCrypto ax_b1 = Ok signer ∧
    authority_of_slot ax_config (slot ax_config 20) = Some signer.
Proof.
  split; [vm_compute; reflexivity|].
  apply (verifyHeader_accepts_iff ax_chain ax_config ax_config 40 ax_b1 [] 1 ax_engine).
  - exact ax_signatures_ok.
  - exact ax_rotation_ok.
  - by split.
  - reflexivity.
  - discriminate.
  - vm_compute. reflexivity.
Defined.

Lemma aura_honest_block_accepted_witness :
  ∃ h block,
    Prepare ax_chain ax_config ax_config 20 ax_draft = Ok h ∧ Time h = 20 ∧
    Finalize 99 h [] [] = Ok block ∧
    ∃ sealed delay, Seal ax_config 21 toy_sign block ax_engine = (Ok (sealed, delay), ax_engine) ∧
      0 ≤ delay ∧ block_transactions sealed = [] ∧ Root (block_header sealed) = 99 ∧
      author errMissingSignature errCrypto (block_header sealed) = Ok 2 ∧
      ∀ later (other : Engine (gmap Hash Snapshot) (gmap Hash Address)), 20 ≤ later → signatures_ok other →
        (verifyHeader ax_chain ax_config ax_config later (block_header sealed) [] other).1 = Ok tt.
Proof.
  apply (aura_honest_block_accepted ax_chain ax_config ax_config 20 21 toy_sign 99 [] [] ax_draft ax_genesis 1 0 1
    ax_engine).
  - exact ax_signatures_ok.
  - exact ax_rotation_ok.
  - reflexivity.
  - discriminate.
  - vm_compute. reflexivity.
  - reflexivity.
  - reflexivity.
  - reflexivity.
  - reflexivity.
  - by split.
  - exact ax_key.
Defined.

Definition ax_snapshot : Snapshot := newSnapshot 0 (Header_Hash ax_genesis) [1; 2; 3].
Definition ax_snapshot1 : Snapshot := mkSnapshot 1 (Header_Hash ax_b1) {[1; 2; 3]} {[1 := 2]} [] ∅.
Lemma apply_keeps_signers_witness : quiet ax_snapshot1 ∧ sSigners ax_snapshot1 = sSigners ax_snapshot.
Proof.
  apply (apply_keeps_signers ax_config ax_snapshot [ax_b1] tt ax_snapshot1 tt); [by split|vm_compute; reflexivity].
Defined.

Lemma snapshot_never_available_witness :
  ∃ r e', snapshot ax_chain ax_config 2 0 (Header_Hash ax_genesis) [] ax_engine = (r, e') ∧ no_snapshots e' ∧
    (∀ snap, r ≠ Ok snap) ∧
    ∀ k, [] = @nil Header → leaves_chain ax_chain 0 (Header_Hash ax_genesis) k → (k < 2)%nat →
      r = Err ErrUnknownAncestor.
Proof.
  apply (snapshot_never_available ax_chain ax_config 2 0 (Header_Hash ax_genesis) [] ax_engine).
  exact ax_no_snapshots.
Defined.
