(* ===== verification/StateExamples.v ===== *)
(** The state, transaction and block-processing theorems at concrete inputs:
    two accounts, a transfer signed with the Homestead rules, a block. *)
From S2P Require Import Prelude Types Sealing Blocks Transition TransitionEffect StateDB StateRevert.
From S2P Require Import StateTransfer TxSigning StateFinalise Processor Instances.

Abbreviation Trie := (gmap Address Account).
Definition sx_account (nonce balance : Z) : Account := mkAccount nonce balance zero_hash emptyCodeHash.
Definition sx_trie : Trie := {[ 1 := sx_account 0 1000000; 2 := sx_account 4 0 ]}.
Definition sx_state : StateDB Trie := New sx_trie.

(** A session with reads, writes and a nested snapshot. *)
Definition sx_ops : list operation :=
  [OpAddBalance 2 5; OpSetState 1 7 8; OpSnapshot; OpSetNonce 9 3; OpSuicide 1; OpRevertToSnapshot 1;
   OpGetState 1 7; OpAddLog (mkLog 2 [] [] 0 0 0 0 0 false); OpSubBalance 1 5].
Lemma revert_restores_witness :
  ∃ s2 s3, run_ops sx_ops (Snapshot sx_state).2 = Ok s2 ∧ RevertToSnapshot 0 s2 = Ok s3 ∧ state_equiv s3 sx_state.
Proof.
  destruct (run_ops sx_ops (Snapshot sx_state).2) as [s2| |] eqn:Hrun; [|vm_compute in Hrun; discriminate..].
  destruct (New_inv sx_trie) as [Hi Hr].
  destruct (revert_restores sx_state 0 (Snapshot sx_state).2 sx_ops s2) as (s3 & Hback & Hq & _);
    [exact Hi|exact Hr|reflexivity|repeat constructor|exact Hrun|].
  by exists s2, s3.
Defined.

Lemma IntrinsicGas_exact_witness : IntrinsicGas [0; 7; 0; 255] false = Ok 21144.
Proof. rewrite (IntrinsicGas_exact [0; 7; 0; 255] false); [by vm_compute|vm_compute; discriminate]. Defined.

(** * Messages *)
Definition sx_evm : EVM := mkEVM 9 0.
Definition sx_msg : Message := mkMessage (Some 2) 1 0 500 30000 3 [] true.
Lemma sx_msg_ok : message_ok sx_msg.
Proof. split; [by split|]. cbn. by u64_unfold. Qed.

Lemma ApplyMessage_settles_witness :
  ∃ s', ApplyMessage sx_evm sx_msg 50000 sx_state = (Ok ([], 21000, false), (29000, s')) ∧
    (GetBalance 1 s').1 = 936500 ∧ (GetBalance 2 s').1 = 500 ∧ (GetBalance 9 s').1 = 63000.
Proof.
  destruct (ApplyMessage_settles sx_evm sx_msg 50000 sx_state) as (_ & s' & Happ & Ha);
    [by split|exact sx_msg_ok|by split|vm_compute; reflexivity|].
  exists s'. split; [exact Happ|]. destruct (Ha 1) as [-> _], (Ha 2) as [-> _], (Ha 9) as [-> _].
  vm_compute. by split_and!.
Defined.

Definition sx_poor : Message := mkMessage (Some 2) 1 0 2000000 30000 3 [] true.
Lemma ApplyMessage_refuses_witness :
  ∃ s', ApplyMessage sx_evm sx_poor 50000 sx_state = (Err (vmError ErrInsufficientBalance), (20000, s')).
Proof.
  destruct (ApplyMessage_refuses sx_evm sx_poor 50000 sx_state (vmError ErrInsufficientBalance))
    as (gp' & s' & Happ & -> & _); [by split|split; [by split|cbn; by u64_unfold]|by split|vm_compute; reflexivity|].
  by exists s'.
Defined.

Lemma ApplyMessage_conserves_witness :
  let s' := (ApplyMessage sx_evm sx_msg 50000 sx_state).2.2 in
  total (λ a, (GetBalance a s').1) [1; 2; 9] = total (λ a, (GetBalance a sx_state).1) [1; 2; 9].
Proof.
  apply (ApplyMessage_conserves sx_evm sx_msg 50000 sx_state ([], 21000, false) 29000);
    [by split|exact sx_msg_ok|by split|vm_compute; reflexivity|..].
  - apply (bool_decide_unpack _). by vm_compute.
  - by left.
  - right. by left.
  - right. right. by left.
Defined.

Lemma sx_balances_positive a : 0 ≤ (GetBalance a sx_state).1.
Proof.
  unfold GetBalance. destruct (load_run a sx_state) as (s' & -> & _). cbn. rewrite live_unfold. cbn.
  rewrite lookup_empty. unfold sx_trie. destruct (decide (a = 1)) as [->|H1]; [by vm_compute|].
  destruct (decide (a = 2)) as [->|H2]; [by vm_compute|]. by rewrite lookup_insert_ne, lookup_singleton_ne by done.
Qed.
Lemma ApplyMessage_solvent_witness :
  let s' := (ApplyMessage sx_evm sx_msg 50000 sx_state).2.2 in 0 ≤ (GetBalance 1 s').1.
Proof.
  apply (ApplyMessage_solvent sx_evm sx_msg 50000 sx_state ([], 21000, false) 29000);
    [by split|exact sx_msg_ok|by split|cbn; lia|cbn; lia|exact sx_balances_positive|vm_compute; reflexivity].
Defined.

(** * Signatures *)
Lemma sx_key : honest_tx_key 1 (toy_tx_sign 1).
Proof.
  intros h. exists (array_bytes AddressLength 1 ++ replicate 44 0), 0.
  exists (replicate 12 0 ++ (array_bytes AddressLength 1 ++ replicate 44 0) ++ [0]).
  split; [done|]. split; [done|]. split; [|split; [by left|]].
  - apply Forall_app_2; [vm_compute; repeat constructor; discriminate|by apply Forall_replicate].
  - split; [done|]. split; [done|]. by vm_compute.
Qed.
Definition sx_unsigned (nonce : Z) : Transaction := mkTransaction nonce 3 30000 (Some 2) 500 [] 0 0 0.

Lemma Sender_SignTx_witness :
  ∃ tx', SignTx (sx_unsigned 0) (EIP155Signer 10) (toy_tx_sign 1) = Ok tx' ∧
    (Sender (EIP155Signer 10) tx' None).1 = Ok 1.
Proof.
  destruct (Sender_SignTx 1 (toy_tx_sign 1) (sx_unsigned 0) (EIP155Signer 10)) as (tx' & Hrun & _ & Hs);
    [exact sx_key|right; cbn; lia|].
  exists tx'. split; [exact Hrun|]. by apply Hs.
Defined.
Lemma replay_protection_witness :
  ∃ tx', SignTx (sx_unsigned 0) (EIP155Signer 10) (toy_tx_sign 1) = Ok tx' ∧
    (Sender (EIP155Signer 11) tx' None).1 = Err ErrInvalidChainId.
Proof.
  destruct (replay_protection 1 (toy_tx_sign 1) (sx_unsigned 0) 10 11) as [(tx' & Hrun & Hs) _];
    [exact sx_key|lia|done|].
  exists tx'. split; [exact Hrun|]. by apply Hs.
Defined.

(** * Finalising *)

(** A reversal, a write, a new account, and account 2 created again. *)
Definition sx_history : list operation :=
  [OpSnapshot; OpAddBalance 2 5; OpSetState 1 7 8; OpRevertToSnapshot 0; OpAddBalance 1 5; OpGetState 1 7; OpCreateAccount 5; OpCreateAccount 2].
Lemma Finalise_persists_witness :
  ∃ s, run_ops sx_history sx_state = Ok s ∧
    TryGet 1 (trie (Finalise true s)) = Some (mkAccount 0 1000005 (storage_write zero_hash ∅) emptyCodeHash) ∧
    (∀ a, a ≠ 2 → option_Forall2 same_account (live a (Finalise true s)) (live a (New (trie (Finalise true s))))) ∧
    (** The re-created account: the getters and the trie disagree. *)
    (GetNonce 2 (Finalise true s)).1 = 0 ∧ (GetNonce 2 (New (trie (Finalise true s)))).1 = 4.
Proof.
  destruct (run_ops sx_history sx_state) as [s| |] eqn:Hrun; [|vm_compute in Hrun; discriminate..].
  exists s. split; [done|].
  destruct (Finalise_persists true sx_state s) as (_ & Hopen & Hlost & _); [exact (New_undoable sx_trie)|by eapply run_ops_steps|].
  assert (lost s 2) as Hl by (vm_compute in Hrun; injection Hrun as <-; split; [by vm_compute|eexists; right; right; by left]).
  destruct (Hlost 2 Hl) as [Hlive Htrie]. split; [vm_compute in Hrun; injection Hrun as <-; by vm_compute|]. split.
  - intros a Ha. apply Hopen. intros [_ [p Hp]]. vm_compute in Hrun. injection Hrun as <-. cbn in Hp.
    rewrite !elem_of_cons, elem_of_nil in Hp. naive_solver.
  - unfold GetNonce. destruct (load_run 2 (Finalise true s)) as (s1 & -> & _), (load_run 2 (New (trie (Finalise true s)))) as (s2 & -> & _).
    cbn [fst]. rewrite Hlive, (live_unfold 2 (New _)). cbn [stateObjects New trie]. rewrite lookup_empty, Htrie. clear -Hrun.
    vm_compute in Hrun. injection Hrun as <-. by vm_compute.
Defined.

(** * A block *)
#[local] Instance sx_engine : BlockEngine := λ _, 9.
Definition sx_signed (nonce : Z) : Transaction :=
  match SignTx (sx_unsigned nonce) HomesteadSigner (toy_tx_sign 1) with Ok tx => tx | _ => sx_unsigned nonce end.
Definition sx_header : Header := mkHeader 0 0 0 0 0 0 0 (Some 1) (Some 1) 100000 0 15 [] 0 0.
Definition sx_block : Block := mkBlock sx_header [] [sx_signed 0; sx_signed 1].

Lemma Process_accounts_witness :
  ∃ receipts logs s', Process (Some 10) sx_block sx_state = (Ok (receipts, logs, 42000), s') ∧
    length receipts = 2%nat ∧ balances s' [1; 2; 9] = 1000000 ∧
    ∀ a, option_Forall2 same_account (live a s') (live a (New (trie s'))).
Proof.
  destruct (Process (Some 10) sx_block sx_state) as [[[[receipts logs] used]|e|p] s'] eqn:Hrun;
    [|vm_compute in Hrun; discriminate..].
  destruct (Process_accounts (Some 10) sx_block sx_state receipts logs used s') as (Hlen & _ & _ & Hbal & _ & Hopen).
  - exact (New_tidy sx_trie).
  - intros a o. rewrite live_unfold. cbn. rewrite lookup_empty. destruct (sx_trie !! a); [|done]. by intros [= <-].
  - done.
  - by split.
  - repeat constructor; vm_compute; discriminate.
  - exact Hrun.
  - exists receipts, logs, s'. assert (used = 42000) as -> by (vm_compute in Hrun; by injection Hrun).
    split; [done|]. split; [exact Hlen|]. split; [|exact Hopen]. rewrite Hbal; [by vm_compute|].
    split; [apply (bool_decide_unpack _); by vm_compute|]. split; [right; right; by left|].
    apply Forall_cons_2; [|apply Forall_cons_2; [|apply Forall_nil_2]]; (split; [right; by left|]);
      intros from Hfrom; vm_compute in Hfrom; injection Hfrom as <-; by left.
Defined.

Lemma assembled_block_validates_witness :
  ∃ block, NewBlock (with_Root sx_header (IntermediateRoot true sx_state).1) [] [] [] = Ok block ∧
    (ValidateState (WithSeal block (with_Extra (block_header block) [1])) sx_state [] 0).1 = Ok tt.
Proof.
  destruct (NewBlock (with_Root sx_header (IntermediateRoot true sx_state).1) [] [] []) as [block| |] eqn:Hnew;
    [|vm_compute in Hnew; discriminate..].
  exists block. split; [done|].
  by apply (assembled_block_validates (C := list (Hash * Z)) sx_header [] [] sx_state [1] block).
Defined.

Lemma CalcGasLimit_bounded_witness :
  CalcGasLimit sx_header 8000000 9000000 = 100096 ∧ 100000 < CalcGasLimit sx_header 8000000 9000000.
Proof.
  destruct (CalcGasLimit_bounded sx_header 8000000 9000000) as (_ & _ & _ & Hup & _); [cbn; lia..|].
  split; [by vm_compute|]. apply Hup. cbn. lia.
Defined.

Lemma Copy_same_accounts_witness :
  ∃ s c, s = SubBalance 1 1000000 (SetNonce 1 7 (AddBalance 2 5 sx_state)) ∧ Copy s = Ok c ∧ ∀ a, option_Forall2 same_account (live a s) (live a c).
Proof.
  destruct (Copy_same_accounts (SubBalance 1 1000000 (SetNonce 1 7 (AddBalance 2 5 sx_state)))) as (c & Hc & _ & _ & _ & Hsame).
  - apply tidy_SubBalance, tidy_SetNonce, tidy_AddBalance, New_tidy.
  - apply (bool_decide_unpack _). by vm_compute.
  - by eexists _, c.
Defined.
