(* ===== verification/TxPoolExamples.v ===== *)
(** The transaction-pool theorems at concrete inputs: a pool over the journalled
    state, a chain with a reorganisation, transactions of two accounts. *)
From S2P Require Import Prelude Types Sealing Blocks Transition StateDB StateTransfer TxSigning Heap TxList TxListRuns TxPriced ManagedState Hoare TxPool TxPoolInv TxPoolOps TxPoolPromote TxPoolLimits TxPoolAdd TxPoolRuns TxPoolReach Instances.

Abbreviation Trie := (gmap Address Account).
#[local] Instance px_size : TxSize := λ tx, 110 + Z.of_nat (length (Payload tx)).
#[local] Instance px_copy : StateCopy (StateDB Trie) := λ s, match Copy s with Ok c => c | _ => s end.

(** * A chain of blocks with their states *)
Definition chain_id : option Z := Some 10.
Abbreviation px_signer := (NewEIP155Signer chain_id).
Definition tx_fine (tx : Transaction) : bool :=
  bool_decide (is_u64 (AccountNonce tx)) && match Signer_Sender px_signer tx with Panic _ => false | _ => true end.
Lemma tx_fine_ok tx : tx_fine tx = true → tx_ok px_signer tx.
Proof.
  intros [Hn Hs]%andb_true_iff. apply bool_decide_eq_true in Hn. split; [done|]. intros q Hq. by rewrite Hq in Hs.
Qed.
Definition block_fine (h : Hash) (n : Z) (b : Block) : bool :=
  (Block_Hash b =? h) && bool_decide (Number (block_header b) = Some n) && (0 <=? n) && (n <? MaxUint64) &&
  forallb tx_fine (block_transactions b).
#[local] Instance px_chain : PoolChain (list (Block * Trie)) (StateDB Trie) := {
  pc_CurrentBlock c := default (mkBlock (mkHeader 0 0 0 0 0 0 0 None None 0 0 0 [] 0 0) [] []) (fst <$> last c);
  pc_GetBlock c h n := fst <$> (snd <$> list_find (λ e, block_fine h n e.1 = true) c);
  pc_StateAt c r := New <$> (snd <$> (snd <$> list_find (λ e, Root (block_header e.1) = r) c))
}.
Lemma px_block c h n b : pc_GetBlock c h n = Some b → block_fine h n b = true.
Proof.
  cbn. destruct (list_find _ c) as [[i e]|] eqn:Hf; [|done]. cbn. intros [= <-]. by apply list_find_Some in Hf as (_ & ? & _).
Qed.
#[local] Instance px_chain_laws : PoolChainLaws px_signer (list (Block * Trie)) (StateDB Trie).
Proof.
  split.
  - intros c h n b Hb%px_block. unfold block_fine in Hb. rewrite !andb_true_iff, bool_decide_eq_true in Hb.
    split; [apply Hb|]. u64_unfold. lia.
  - intros c h. destruct (pc_GetBlock c h MaxUint64) as [b|] eqn:Hb; [|done]. apply px_block in Hb. unfold block_fine in Hb.
    rewrite !andb_true_iff in Hb. lia.
  - intros c h n b Hb%px_block. unfold block_fine in Hb. rewrite !andb_true_iff in Hb. destruct Hb as [_ Hb].
    apply Forall_forall. intros tx Htx. apply tx_fine_ok. rewrite forallb_forall in Hb. by apply Hb, list_elem_of_In.
  - intros c r s _. eexists (mkWorld (account_view s) (refund s)). by split.
Qed.

(** Account 1 sent a transaction in block [a1]; the branch [b1], [b2] replaces it. *)
Definition px_account (nonce balance : Z) : Account := mkAccount nonce balance zero_hash emptyCodeHash.
Definition trie_before : Trie := {[ 1 := px_account 0 1000000000; 2 := px_account 4 1000000 ]}.
Definition trie_after : Trie := {[ 1 := px_account 1 999000000; 2 := px_account 4 1000000 ]}.
Definition px_header (parent : Hash) (number root : Z) : Header := mkHeader parent 0 0 root 0 0 0 (Some 1) (Some number) 100000 0 0 [] 0 0.
Definition px_tx (from nonce price : Z) : Transaction :=
  match SignTx (mkTransaction nonce price 30000 (Some 7) 500 [] 0 0 0) px_signer (toy_tx_sign from) with Ok tx => tx | _ => mkTransaction nonce price 0 None 0 [] 0 0 0 end.
Definition genesis : Block := mkBlock (px_header 0 0 100) [] [].
Definition a1 : Block := mkBlock (px_header (Block_Hash genesis) 1 101) [] [px_tx 1 0 3].
Definition b1 : Block := mkBlock (px_header (Block_Hash genesis) 1 102) [] [].
Definition b2 : Block := mkBlock (px_header (Block_Hash b1) 2 103) [] [].
Definition chain_a : list (Block * Trie) := [(genesis, trie_before); (a1, trie_after)].
Definition chain_b : list (Block * Trie) := chain_a ++ [(b1, trie_before); (b2, trie_before)].

Definition px_conf : TxPoolConfig := mkPoolConfig [] false 0 1 10 1 4 2 2 Second.
Definition px_ops : list (pool_op (C := list (Block * Trie))) :=
  [opAddRemotes 1 [px_tx 1 1 3; px_tx 1 2 3; px_tx 1 4 3; px_tx 2 4 5; px_tx 2 5 5]; opAddLocal 2 (px_tx 1 3 3); opStatus []].
Definition run_pool := foldl (λ p op, (run_op px_conf chain_id op p).2).
Definition pool_0 : TxPool (StateDB Trie) := (NewTxPool px_conf chain_id chain_a 0).2.
Definition pool_1 : TxPool (StateDB Trie) := run_pool pool_0 px_ops.
Definition nonces_of (m : gmap Address txList) : list (Address * list Z) := map_to_list ((λ l, AccountNonce <$> list_txs l) <$> m).
Definition pool_2 := (run_op px_conf chain_id (opChainHead 3 chain_b b2) pool_1).2.

(** * Lists *)
Definition list_ops : list sm_op :=
  [OpPut (px_tx 1 7 1); OpPut (px_tx 1 5 1); OpFlatten; OpPut (px_tx 1 6 2); OpReady 4; OpReady 5; OpPut (px_tx 1 9 1);
   OpPut (px_tx 1 8 1); OpCap 1; OpForward 9; OpLen; OpRemove 3; OpFilter (λ tx, Price tx <? 3)].
Lemma sorted_map_refines_witness :
  ∃ l m, sm_run (E := pool_error) newTxSortedMap list_ops = Ok (l, m) ∧ all_agree list_ops l (spec_run ∅ list_ops).1 ∧ smItems m = ∅.
Proof.
  destruct (sorted_map_refines (E := pool_error) list_ops) as (l & m & Hrun & Hl & Hm).
  - repeat (apply Forall_cons_2; [by vm_compute|]). apply Forall_nil_2.
  - exists l, m. split; [exact Hrun|]. split; [exact Hl|]. rewrite Hm. vm_compute. reflexivity.
Defined.

Definition strict_list : txList := foldl (λ l tx, (Add l tx 10).2) (newTxList true) [px_tx 1 5 3; px_tx 1 6 3; px_tx 1 7 9].
Lemma strict_list_ok : list_ok strict_list.
Proof.
  assert (∀ l tx, list_ok l → is_u64 (AccountNonce tx) → list_ok (Add l tx 10).2) as Hadd.
  { intros l tx Hl Hu. destruct (Add l tx 10) as [[ok old] l'] eqn:Hadd. by destruct (Add_ok l tx 10 ok old l' Hl Hu Hadd). }
  unfold strict_list. cbn [foldl]. repeat (apply Hadd; [|vm_compute; split; [discriminate|reflexivity]]). apply list_ok_new.
Qed.
Abbreviation items_of l := (smItems (txs l)).
Lemma strict_list_gapless : gapless (items_of strict_list).
Proof.
  exists 5, 8. intros n. assert (n ∈ dom (items_of strict_list) ↔ n ∈ [5; 6; 7]) as Hn.
  { assert (dom (items_of strict_list) = list_to_set [5; 6; 7]) as ->; [|by rewrite elem_of_list_to_set].
    apply (bool_decide_unpack _). vm_compute. exact I. }
  rewrite <- elem_of_dom, Hn, !elem_of_cons, elem_of_nil. lia.
Qed.
Lemma strict_lists_stay_gapless_witness :
  ∃ found invalids l', list_Remove (E := pool_error) strict_list (px_tx 1 6 3) = Ok (found, invalids, l') ∧
    length invalids = 1%nat ∧ gapless (items_of l') ∧ gapless (items_of (Add strict_list (px_tx 1 8 1) 10).2).
Proof.
  destruct (strict_lists_stay_gapless (E := pool_error) strict_list) as (Hremove & _ & _ & _ & Hadd);
    [exact strict_list_ok|reflexivity|exact strict_list_gapless|].
  destruct (Hremove (px_tx 1 6 3)) as (found & invalids & l' & Hrun & Hg). exists found, invalids, l'.
  split; [exact Hrun|]. split; [vm_compute in Hrun; by injection Hrun as <- <- <-|]. split; [exact Hg|].
  apply Hadd; [vm_compute; split; [discriminate|reflexivity]|]. right. left. vm_compute. by eexists.
Defined.

(** * The pool *)
Lemma px_conf_ok : config_ok (sanitize px_conf).
Proof. by split. Qed.
Lemma head_known (chain : list (Block * Trie)) b n : Number (block_header b) = Some n → bool_decide (is_u64 n) = true →
  pc_GetBlock chain (Header_Hash (block_header b)) n = Some b → known_head chain (block_header b).
Proof. intros Hn Hu%bool_decide_eq_true Hb. by exists n, b. Qed.
Lemma all_fine txs : forallb tx_fine txs = true → Forall (tx_ok px_signer) txs.
Proof. rewrite forallb_forall. intros Hf. apply Forall_forall. intros tx Htx. by apply tx_fine_ok, Hf, list_elem_of_In. Qed.
Lemma pool_0_new : NewTxPool px_conf chain_id chain_a 0 = (Ok tt, pool_0).
Proof. assert ((NewTxPool px_conf chain_id chain_a 0).1 = Ok tt) as <-; [by vm_compute|]. apply surjective_pairing. Qed.
Lemma a1_known : known_head chain_a (block_header a1).
Proof. by apply (head_known chain_a a1 1). Qed.
Lemma b2_known : known_head chain_b (block_header b2).
Proof. by apply (head_known chain_b b2 2). Qed.
Lemma pool_0_reachable : pool_reachable px_conf chain_id pool_0.
Proof.
  apply (reach_new px_conf chain_id chain_a 0); [exact a1_known|vm_compute; by eexists|exact pool_0_new].
Qed.
Lemma pool_1_reachable : pool_reachable px_conf chain_id pool_1.
Proof.
  unfold pool_1, run_pool, px_ops. cbn [foldl].
  apply reach_op; [apply reach_op; [apply reach_op; [exact pool_0_reachable|]|]|].
  - split; [by apply all_fine; vm_compute|by vm_compute].
  - split; [by apply tx_fine_ok; vm_compute|by vm_compute].
  - exact I.
Qed.
Lemma b2_event : event_ok chain_b b2 pool_1.
Proof.
  intros h Hh. assert (tp_head pool_1 = Some a1) as Ha1 by by vm_compute. rewrite Ha1 in Hh. injection Hh as <-.
  split; [split; [exact b2_known|by intros h [= <-]]|]. intros txs Htxs.
  assert (reinject_of chain_b (Some (block_header a1)) (block_header b2) = Ok (Some [px_tx 1 0 3])) as Hr by by vm_compute.
  rewrite Hr in Htxs. injection Htxs as <-. by vm_compute.
Qed.

Lemma pool_never_crashes_witness :
  ∃ p, run_op px_conf chain_id (opChainHead 3 chain_b b2) pool_1 = (Ok tt, p) ∧ running px_signer p ∧ tp_all p !! rlpHash_tx (px_tx 1 0 3) = Some (px_tx 1 0 3).
Proof.
  destruct (pool_never_crashes px_conf chain_id px_conf_ok pool_1 pool_1_reachable) as [_ Hruns].
  destruct (Hruns (opChainHead 3 chain_b b2) b2_event) as (p & Hp & Hrun). exists p. split; [exact Hp|]. split; [exact Hrun|].
  assert (p = (run_op px_conf chain_id (opChainHead 3 chain_b b2) pool_1).2) as -> by by rewrite Hp. by vm_compute.
Defined.

Lemma new_head_leaves_payable_witness :
  ∃ p', handleChainHead (sanitize px_conf) px_signer 3 chain_b (Some b2) pool_1 = (Ok tt, p') ∧ tp_head p' = Some b2 ∧
    nonces_of (tp_pending p') = [(2, [4]); (1, [0; 1; 2; 3; 4])] ∧ within_limits (sanitize px_conf) p'.
Proof.
  destruct (new_head_leaves_payable px_conf chain_id px_conf_ok 3 chain_b b2 pool_1) as (p' & Hp & Hhead & Hf).
  - apply (pool_reachable_running (C := list (Block * Trie)) px_conf chain_id px_conf_ok), pool_1_reachable.
  - exact b2_event.
  - exists p'. split; [exact Hp|]. split; [exact Hhead|].
    assert (p' = (run_op px_conf chain_id (opChainHead 3 chain_b b2) pool_1).2) as Heq by (cbn [run_op]; by rewrite Hp).
    split; [rewrite Heq; by vm_compute|]. destruct Hf as [[_ [Hup|Hup]]|(s & w & _ & _ & Hlim & _)]; [vm_compute in Hup; discriminate Hup..|exact Hlim].
Defined.

(** The first pool under a stricter configuration. *)
Definition px_strict : TxPoolConfig := mkPoolConfig [] false 0 1 10 2 1 2 2 Second.
Definition px_wide : TxPoolConfig := mkPoolConfig [] false 0 1 10 9 9 9 9 Second.
Definition pool_w : TxPool (StateDB Trie) :=
  (run_op px_wide chain_id (opAddRemotes (C := list (Block * Trie)) 1 [px_tx 1 1 3; px_tx 1 2 3; px_tx 1 3 3; px_tx 2 4 5; px_tx 2 6 7]) pool_0).2.
Lemma px_wide_ok : config_ok (sanitize px_wide).
Proof. by split. Qed.
Lemma pool_w_running : running px_signer pool_w.
Proof.
  apply (pool_reachable_running (C := list (Block * Trie)) px_wide chain_id px_wide_ok), reach_op.
  - apply (reach_new px_wide chain_id chain_a 0); [exact a1_known|vm_compute; by eexists|].
    assert ((NewTxPool px_wide chain_id chain_a 0) = (NewTxPool px_conf chain_id chain_a 0)) as -> by by vm_compute. exact pool_0_new.
  - split; [by apply all_fine; vm_compute|by vm_compute].
Qed.
Lemma px_strict_ok : config_ok (sanitize px_strict).
Proof. by split. Qed.
Lemma pool_w_small : small pool_w.
Proof. by vm_compute. Qed.
Lemma pending_limit_is_fair_witness :
  ∃ p', limit_pending (sanitize px_strict) pool_w = (Ok tt, p') ∧ nonces_of (tp_pending pool_w) = [(2, [4]); (1, [1; 2; 3])] ∧
    2 ≤ plen p' 1 ∧ 1 ≤ plen p' 2 ∧ (total p' ≤ 1 ∨ ∀ a, a ∉ asAccounts (tp_locals pool_w) → plen p' a ≤ 2).
Proof.
  destruct pool_w_running as (w & g & Hinv).
  destruct (pending_limit_is_fair (sanitize px_strict) px_signer w g is_Some pool_w px_strict_ok Hinv pool_w_small) as (p' & Hrun & _ & _ & Hslots & _ & Hlim).
  exists p'. split; [exact Hrun|]. split; [by vm_compute|].
  assert (Z.min (plen pool_w 1) 2 = 2) as H1 by (vm_compute; reflexivity).
  assert (Z.min (plen pool_w 2) 2 = 1) as H2 by (vm_compute; reflexivity).
  split; [rewrite <- H1; apply Hslots|]. split; [rewrite <- H2; apply Hslots|exact Hlim].
Defined.

Lemma add_lets_in_valid_only_witness :
  let '(r, p') := add (sanitize px_conf) px_signer (px_tx 2 4 9) false pool_w in
  r = Ok true ∧ tp_all p' !! rlpHash_tx (px_tx 2 4 9) = Some (px_tx 2 4 9) ∧ tp_all p' ⊆ <[rlpHash_tx (px_tx 2 4 9) := px_tx 2 4 9]> (tp_all pool_w).
Proof.
  destruct pool_w_running as (w & g & Hinv).
  pose proof (add_lets_in_valid_only (sanitize px_conf) px_signer w g is_Some (px_tx 2 4 9) false pool_w px_conf_ok Hinv) as Hadd.
  assert ((add (sanitize px_conf) px_signer (px_tx 2 4 9) false pool_w).1 = Ok true) as Hr by by vm_compute.
  destruct (add (sanitize px_conf) px_signer (px_tx 2 4 9) false pool_w) as [r p']. cbn in Hr. subst r.
  destruct Hadd as (_ & _ & Hall & Hsub & _); [by apply tx_fine_ok; vm_compute|]. split_and!; [reflexivity|exact Hall|exact Hsub].
Defined.

Lemma SetGasPrice_exact_witness :
  ∃ p', SetGasPrice (sanitize px_conf) px_signer 5 pool_w = (Ok tt, p') ∧ nonces_of (tp_queue p') = [(2, [6])] ∧
    (px_tx 1 1 3 ∉ txs_of (tp_pending p') ++ txs_of (tp_queue p')).
Proof.
  destruct pool_w_running as (w & g & Hinv).
  destruct (SetGasPrice_exact (sanitize px_conf) px_signer w g is_Some 5 pool_w Hinv) as (p' & Hrun & _ & Hexact).
  exists p'. split; [exact Hrun|]. split.
  - assert (p' = (SetGasPrice (sanitize px_conf) px_signer 5 pool_w).2) as -> by by rewrite Hrun. by vm_compute.
  - rewrite Hexact. intros [_ [Hloc|Hprice]]; [destruct Hloc as (a & _ & Ha); vm_compute in Ha; discriminate Ha|vm_compute in Hprice; by destruct Hprice].
Defined.

(** * The walk over a reorganisation *)
Lemma on_chain_here n b : pc_GetBlock chain_b (Block_Hash b) n = Some b → on_chain chain_b n b.
Proof. by exists (Block_Hash b). Qed.
Lemma genesis_branch : branch chain_b 0 genesis [] genesis.
Proof. apply branch_here, on_chain_here. vm_compute. reflexivity. Qed.
Lemma a1_branch : branch chain_b 1 a1 [a1] genesis.
Proof. apply branch_step with genesis; [apply on_chain_here; vm_compute; reflexivity|vm_compute; reflexivity|exact genesis_branch]. Qed.
Lemma b1_branch : branch chain_b 1 b1 [b1] genesis.
Proof. apply branch_step with genesis; [apply on_chain_here; vm_compute; reflexivity|vm_compute; reflexivity|exact genesis_branch]. Qed.
Lemma b2_branch : branch chain_b 2 b2 [b2; b1] genesis.
Proof. apply branch_step with b1; [apply on_chain_here; vm_compute; reflexivity|vm_compute; reflexivity|exact b1_branch]. Qed.
Lemma reorg_reinjects_witness : reinjected chain_b (block_header a1) (block_header b2) = Ok (Some [px_tx 1 0 3]).
Proof.
  rewrite (reorg_reinjects px_signer chain_b (block_header a1) (block_header b2) 1 2 a1 b2 [a1] [b2; b1] genesis);
    [by vm_compute|done|done|done|done|exact a1_branch|exact b2_branch|].
  intros x y [->|Hx]%elem_of_cons; [|by apply not_elem_of_nil in Hx].
  intros [->|[->|Hy]%elem_of_cons]%elem_of_cons; [by vm_compute..|by apply not_elem_of_nil in Hy].
Defined.
Lemma reorg_walk_ends_witness : ∃ r, reinjected chain_b (block_header genesis) (block_header b2) = Ok r ∧ is_Some r.
Proof.
  destruct (reorg_walk_ends px_signer chain_b (block_header genesis) (block_header b2)) as [r Hr];
    [by eexists|exact b2_known|]. exists r. split; [exact Hr|]. vm_compute in Hr. injection Hr as <-. by eexists.
Defined.
