(* ===== verification/ChainExamples.v ===== *)
(** The chain theorems at concrete inputs: encodings of headers, bodies and
    receipts as lists of numbers, caches that never evict, a chain with two
    branches; and the theorems on synchronisation and the protocol on
    chains kept as lists. *)
From S2P Require Import Prelude Types Sealing Blocks Transition StateDB StateTransfer TxSigning Processor.
From S2P Require Import Heap TxList TxPool Memorydb RawDB RawDBSpec HeaderChain Hoare BlockChain BlockWrite.
From S2P Require Import ChainLookup ChainReorg ChainWrite Sync SyncSpec Protocol ProtocolSpec Genesis Instances.

(** * Encodings *)
Definition header_ints (h : Header) : list Z :=
  [ParentHash h; UncleHash h; Types.Coinbase h; Root h; TxHash h; ReceiptHash h; Bloom h; default 0 (Difficulty h); default 0 (Number h);
   GasLimit h; GasUsed h; Time h; MixDigest h; Nonce h] ++ Extra h.
Definition header_of_ints (l : list Z) : option Header :=
  match l with
  | p :: u :: c :: r :: t :: rc :: b :: d :: n :: gl :: gu :: ti :: m :: no :: extra =>
      Some (mkHeader p u c r t rc b (Some d) (Some n) gl gu ti extra m no)
  | _ => None
  end.
Definition tx_ints (tx : Transaction) : list Z :=
  [AccountNonce tx; Price tx; TxGasLimit tx; (if Recipient tx then 1 else 0); default 0 (Recipient tx); Amount tx; SigV tx; SigR tx; SigS tx] ++ Payload tx.
Definition tx_of_ints (l : list Z) : option Transaction :=
  match l with
  | n :: p :: g :: k :: a :: v :: sv :: r :: s :: payload => Some (mkTransaction n p g (if k =? 1 then Some a else None) v payload sv r s)
  | _ => None
  end.
Lemma header_of_ints_ok h : storable_header h → header_of_ints (header_ints h) = Some h.
Proof. intros [(n & Hn & _) (d & Hd & _)]. destruct h. cbn in *. by subst. Qed.
Lemma tx_of_ints_ok tx : tx_of_ints (tx_ints tx) = Some tx.
Proof. by destruct tx as [? ? ? [a|] ? ? ? ? ?]. Qed.
Lemma mapM_ints {A} (f : A → list Z) (g : list Z → option A) l : Forall (λ x, g (f x) = Some x) l → mapM g (f <$> l) = Some l.
Proof. induction 1 as [|x l Hx Hl IH]; [done|]. cbn. rewrite Hx. cbn. by rewrite IH. Qed.

Definition of_byte {A} `{Countable A} (b : list byte) : option A := match b with [Z.pos p] => decode p | _ => None end.
Lemma of_byte_encode {A} `{Countable A} (x : A) : of_byte [Z.pos (encode x)] = Some x.
Proof. apply decode_encode. Qed.
#[local] Instance cx_rlp_header : Rlp Header := {
  rlp_EncodeToBytes h := Some [Z.pos (encode (header_ints h))];
  rlp_DecodeBytes b := of_byte b ≫= header_of_ints
}.
#[local] Instance cx_rlp_body : Rlp Body := {
  rlp_EncodeToBytes b := Some [Z.pos (encode (tx_ints <$> body_Transactions b, header_ints <$> body_Uncles b))];
  rlp_DecodeBytes b := '(txs, uncles) ← of_byte b; txs ← mapM tx_of_ints txs; uncles ← mapM header_of_ints uncles; Some (mkBody txs uncles)
}.
#[local] Instance cx_rlp_td : Rlp Z := { rlp_EncodeToBytes x := Some [Z.pos (encode x)]; rlp_DecodeBytes := of_byte }.
#[local] Instance cx_log_eq : EqDecision rlpStorageLog.
Proof. solve_decision. Defined.
#[local] Instance cx_receipt_eq : EqDecision storedReceiptRLP.
Proof. solve_decision. Defined.
#[local] Instance cx_log_countable : Countable rlpStorageLog.
Proof. refine (inj_countable' (λ l, (sl_Address l, sl_Topics l, sl_Data l)) (λ '(a, t, d), mkStorageLog a t d) _). by intros []. Defined.
#[local] Instance cx_receipt_countable : Countable storedReceiptRLP.
Proof. refine (inj_countable' (λ r, (PostStateOrStatus r, sr_CumulativeGasUsed r, sr_Logs r)) (λ '(s, g, l), mkStoredReceipt s g l) _). by intros []. Defined.
#[local] Instance cx_rlp_receipts : Rlp (list storedReceiptRLP) := { rlp_EncodeToBytes x := Some [Z.pos (encode x)]; rlp_DecodeBytes := of_byte }.

#[local] Instance cx_header_laws : RlpLaws Header storable_header.
Proof. intros h Hh. eexists. split; [reflexivity|]. split; [done|]. cbn. rewrite decode_encode. by apply header_of_ints_ok. Qed.
#[local] Instance cx_body_laws : RlpLaws Body storable_body.
Proof.
  intros b [_ Hu]. eexists. split; [reflexivity|]. split; [done|]. cbn. rewrite decode_encode. cbn.
  rewrite (mapM_ints tx_ints) by (apply Forall_forall; intros tx _; apply tx_of_ints_ok). cbn.
  rewrite (mapM_ints header_ints) by (eapply Forall_impl; [exact Hu|apply header_of_ints_ok]). by destruct b.
Qed.
#[local] Instance cx_td_laws : RlpLaws Z (λ x, 0 ≤ x).
Proof. intros x _. eexists. split; [reflexivity|]. split; [done|]. apply of_byte_encode. Qed.
#[local] Instance cx_receipts_laws : RlpLaws (list storedReceiptRLP) (λ _, True).
Proof. intros x _. eexists. split; [reflexivity|]. split; [done|]. apply of_byte_encode. Qed.

(** * Hashes of 32 bytes and signatures within bounds *)
#[local] Instance cx_crypto : Crypto := {
  rlpHash h := (1 + 1000 * default 0 (Number h) + Time h) mod 256 ^ 32;
  crypto_Ecrecover _ _ := None;
  crypto_Keccak256 b := b
}.
#[local] Instance cx_tx_crypto : TxCrypto := {
  rlpHash_unsigned _ := 0;
  rlpHash_tx tx := (1 + AccountNonce tx) mod 256 ^ 32;
  crypto_ValidateSignatureValues v r s _ := (0 <=? r) && (r <? 2 ^ 256) && (0 <=? s) && (s <? 2 ^ 256)
}.
#[local] Instance cx_bounds : SignatureBounds.
Proof. intros v r s hs Hv. cbn in Hv. rewrite !andb_true_iff in Hv. lia. Qed.
#[local] Instance cx_tx_range : TxHashRange.
Proof. intros tx. apply Z.mod_pos_bound. lia. Qed.
#[local] Instance cx_addresses : ContractAddresses := λ a n, a + n.

(** * Caches and states *)
Definition cx_cache (V : Type) : Type := gmap Hash V.
#[local] Instance cx_lru : LRU cx_cache := {
  lru_New V _ := (∅ : gmap Hash V);
  lru_Get V h c := ((c : gmap Hash V) !! h, c);
  lru_Peek V h c := (c : gmap Hash V) !! h;
  lru_Contains V h c := bool_decide (is_Some ((c : gmap Hash V) !! h));
  lru_Add V h v c := <[h := v]> (c : gmap Hash V);
  lru_Remove V h c := delete h (c : gmap Hash V);
  lru_Purge V _ := (∅ : gmap Hash V);
  lru_Keys V c := (map_to_list (c : gmap Hash V)).*1
}.
#[local] Instance cx_lru_laws : LRULaws cx_cache.
Proof.
  split; try done.
  - intros V k v v' c. cbn. rewrite lookup_insert_eq. congruence.
  - intros V k k' v v' c Hne. cbn. by rewrite lookup_insert_ne.
  - intros V k c. cbn. apply lookup_delete_eq.
  - intros V k k' c Hne. cbn. by rewrite lookup_delete_ne.
  - intros V k c. cbn. rewrite list_elem_of_fmap. split.
    + intros ([k' v] & -> & Hin%elem_of_map_to_list). by eexists.
    + intros [v Hv]. exists (k, v). split; [done|]. by apply elem_of_map_to_list.
Qed.
(** A database of states is the roots whose states it has. *)
Abbreviation Trie := (gmap Address Account).
Abbreviation cx_state := (StateDB Trie).
#[local] Instance cx_chain_state : ChainState (list Hash) cx_state := {
  cs_New r d := if decide (r ∈ d) then Some (New ∅) else None;
  cs_Commit _ s d := (Some (trie_hash (trie s)), trie_hash (trie s) :: d);
  cs_OpenTrie r d := bool_decide (r ∈ d);
  cs_Preimages _ := ∅;
  td_Reference _ d := d;
  td_Dereference _ d := d;
  td_Size _ := (0, 0);
  td_Cap _ d := d;
  td_Commit _ d := (true, d);
  td_Node _ _ := None
}.
#[local] Instance cx_state_laws : ChainStateLaws (list Hash) cx_state.
Proof. intros s h v Hv. cbn in Hv. by rewrite lookup_empty in Hv. Qed.

(** * A chain with two branches *)
Definition cx_header (parent : Hash) (number time difficulty root : Z) : Header :=
  mkHeader parent (CalcUncleHash []) 0 root (DeriveSha_Transactions []) 0 0 (Some difficulty) (Some number) 100000 0 time [] 0 0.
Definition g0 : Block := mkBlock (cx_header 0 0 0 1 50) [] [].
Definition g_tx : Transaction := mkTransaction 0 1 21000 (Some 3) 5 [] 27 1 1.
Definition a1 : Block := mkBlock (cx_header (block_hash g0) 1 5 2 51) [] [g_tx].
Definition a2 : Block := mkBlock (cx_header (block_hash a1) 2 10 2 52) [] [].
Definition b1 : Block := mkBlock (cx_header (block_hash g0) 1 7 9 53) [] [].
Definition cx_config : CacheConfig := mkCacheConfig 256 false 256 false 300.
Definition enc_bytes {A} `{Rlp A} (x : A) : list byte := default [] (rlp_EncodeToBytes x).
Definition db0 : Database :=
  genesis_db g0 (enc_bytes 1) (enc_bytes (block_Body g0)) (enc_bytes (block_header g0)) (enc_bytes (@nil storedReceiptRLP)) [].
Definition bc0 : BlockChain cx_cache (list Hash) := (NewBlockChain (T := Trie) db0 [50]).2.
Definition cx_write (b : Block) (bc : BlockChain cx_cache (list Hash)) :=
  WriteBlockWithState (S := cx_state) None cx_config None true b [] (New ∅ : cx_state) bc.
Definition bc1 := (cx_write a1 bc0).2.
Definition bc2 := (cx_write a2 bc1).2.
Definition bc3 := (cx_write b1 bc2).2.

Example cx_heads : (block_hash <$> bc_currentBlock bc0, block_hash <$> bc_currentBlock bc1, block_hash <$> bc_currentBlock bc2, block_hash <$> bc_currentBlock bc3)
  = (Some 1, Some 1006, Some 2011, Some 1008).
Proof. vm_compute. reflexivity. Qed.

(** ** The blocks can be stored, and the chain starts well *)
Lemma cx_hash b : is_hash (block_hash b).
Proof. apply Z.mod_pos_bound. lia. Qed.
Lemma cx_storable parent number time difficulty root txs : 0 ≤ number < u64_modulus → 0 ≤ difficulty → Forall storable_tx txs →
  storable_block (mkBlock (cx_header parent number time difficulty root) [] txs) number.
Proof.
  intros Hn Hd Htx. split; [|by split|done|done|apply cx_hash]. split; [exists number; split; [done|lia]|by exists difficulty].
Qed.
Lemma g_tx_storable : storable_tx g_tx.
Proof. repeat split; discriminate. Qed.
Lemma g0_storable : storable_block g0 0.
Proof. apply cx_storable; [u64_unfold; lia|lia|done]. Qed.
Lemma a1_storable : storable_block a1 1.
Proof. apply cx_storable; [u64_unfold; lia|lia|]. by apply Forall_singleton, g_tx_storable. Qed.
Lemma a2_storable : storable_block a2 2.
Proof. apply cx_storable; [u64_unfold; lia|lia|done]. Qed.
Lemma b1_storable : storable_block b1 1.
Proof. apply cx_storable; [u64_unfold; lia|lia|done]. Qed.

Abbreviation cx_ok := (chain_ok (C := cx_cache) (D := list Hash) (block_hash g0)).
Lemma bc0_ok : cx_ok bc0 g0 0.
Proof.
  pose proof g0_storable as Hst. assert (rlp_at (Some (enc_bytes (A := Z) 1)) = Some 1) as Htd by reflexivity.
  assert (rlp_at (Some (enc_bytes (block_Body g0))) = Some (block_Body g0)) as Hbd by reflexivity.
  assert (rlp_at (Some (enc_bytes (block_header g0))) = Some (block_header g0)) as Hhd by reflexivity.
  destruct (genesis_reads g0 1 _ _ _ (enc_bytes (@nil storedReceiptRLP)) [] Hst ltac:(lia) Htd Hbd Hhd) as (Gt & Gb & Gn & Gc & Gh & Ghd & Gf).
  assert (db_ok (block_hash g0) db0) as Hdb by (eapply genesis_db_ok; [exact Hst| |exact Htd|exact Hbd|exact Hhd]; lia).
  assert (stored db0 g0 0) as Hst0 by (split; [apply cx_hash|split; [apply zero_u64|exact Gb]]).
  assert (ReadHeadHeaderHash db0 = block_hash g0) as Ghh by by vm_compute.
  destruct (NewBlockChain_ok (T := Trie) (C := cx_cache) (D := list Hash) g0 db0 [50] Hdb Hst0 Gc Gh Ghh ltac:(discriminate) Ghd Gn Gf ltac:(by eexists)) as (bc & Hrun & Hok & _).
  unfold bc0. by rewrite Hrun.
Qed.

(** A block is writable when nothing is stored under its hash. *)
Lemma cx_writable (b p : Block) (n d ptd : Z) (bc : BlockChain cx_cache (list Hash)) : storable_block b n → 0 < n → ReadHeaderNumber (bc_db bc) (block_hash b) = None →
  ReadHeader (bc_db bc) (block_hash b) n = None → stored (bc_db bc) p (n - 1) → block_hash p = ParentHash (block_header b) →
  ReadTd (bc_db bc) (block_hash p) (n - 1) = Some ptd → Difficulty (block_header b) = Some d → writable (C := cx_cache) (D := list Hash) b p n d ptd bc.
Proof.
  intros Hb Hn Hnum Hhd Hp Hph Hptd Hd. split; try done. split.
  - intros n' Hn'. congruence.
  - intros hd Hr. congruence.
  - intros b' Hr. rewrite ReadBlock_at, <- ReadHeader_at, Hhd in Hr. done.
Qed.
Lemma cx_written (b p : Block) n d ptd bc ob on ltd : cx_ok bc ob on → writable b p n d ptd bc → ReadTd (bc_db bc) (block_hash ob) on = Some ltd →
  ltd < d + ptd → (cx_write b bc).1 = Ok CanonStatTy → block_in (block_hash g0) bc (cx_write b bc).2 b n b n (d + ptd).
Proof.
  intros Hok Hw Hltd Hlt Hrun. pose proof (writeBlockWithState_ok (S := cx_state) (block_hash g0) None cx_config None true bc ob on b p n d ptd ltd [] (New ∅ : cx_state) Hok Hw Hltd) as Hwp.
  unfold wp in Hwp. fold (cx_write b bc) in Hwp. unfold cx_write, WriteBlockWithState in *. destruct (writeBlockWithState _ _ _ _ _ _ _ _) as [[st|e|q] bc']; [|discriminate Hrun..].
  destruct Hwp as (_ & Hin & _). unfold prefers in Hin. by rewrite (proj2 (Z.ltb_lt _ _) Hlt) in Hin.
Qed.
Lemma a1_writable : writable a1 g0 1 2 1 bc0.
Proof. apply cx_writable; [apply a1_storable|lia|by vm_compute..| |done|by vm_compute|done]. apply bc0_ok. Qed.
Lemma bc1_ok : block_in (block_hash g0) bc0 bc1 a1 1 a1 1 3.
Proof. apply (cx_written a1 g0 1 2 1 bc0 g0 0 1); [apply bc0_ok|apply a1_writable|by vm_compute|lia|by vm_compute]. Qed.
Lemma a2_writable : writable a2 a1 2 2 3 bc1.
Proof. apply cx_writable; [apply a2_storable|lia|by vm_compute..| |done|by vm_compute|done]. apply bc1_ok. Qed.
Lemma bc2_ok : block_in (block_hash g0) bc1 bc2 a2 2 a2 2 5.
Proof. apply (cx_written a2 a1 2 2 3 bc1 a1 1 3); [apply bc1_ok|apply a2_writable|by vm_compute|lia|by vm_compute]. Qed.
Lemma g0_in_bc2 : stored (bc_db bc2) g0 0.
Proof. split_and!; [apply cx_hash|apply zero_u64|]. by vm_compute. Qed.
Lemma b1_writable : writable b1 g0 1 9 1 bc2.
Proof. apply cx_writable; [apply b1_storable|lia|by vm_compute..|apply g0_in_bc2|done|by vm_compute|done]. Qed.

(** * The theorems at work *)
Lemma block_roundtrip_witness : ∃ ws, WriteBlock (E := chain_error) a1 = Ok ws ∧
  ReadBlock (batch_Write ws db0) (block_hash a1) 1 = Some a1 ∧ ReadHeaderNumber (batch_Write ws db0) (block_hash a1) = Some 1.
Proof.
  destruct (block_roundtrip (E := chain_error) a1 1 db0 a1_storable) as (ws & Hws & Hb & Hn & _). exists ws. split; [exact Hws|]. split; [exact Hb|exact Hn].
Defined.
Definition a1_receipt : Receipt := mkReceipt [] ReceiptStatusSuccessful 21000 0 [] (rlpHash_tx g_tx) zero_address 21000 (block_hash a1) (Some 1) 0.
Lemma a1_in_place : in_place (block_hash a1) 1 0 0 0 [a1_receipt] (block_transactions a1).
Proof. split; [|done]. split; [by eexists|by split; [|right]|by vm_compute|done|by vm_compute|done]. Qed.
Lemma receipts_roundtrip_witness : ∃ ws ws', WriteBlock (E := chain_error) a1 = Ok ws ∧ WriteReceipts (E := chain_error) (block_hash a1) 1 [a1_receipt] = Ok ws' ∧
  ReadReceipts (E := chain_error) (batch_Write (ws ++ ws') db0) (block_hash a1) 1 None = Ok (Some [a1_receipt]).
Proof. apply (receipts_roundtrip (E := chain_error) None a1 1 [a1_receipt] db0 a1_storable a1_in_place). Defined.

Lemma caches_are_transparent_witness : chain_inv (block_hash g0) bc2 ∧ GetBlockByHash (block_hash a1) bc2 = (Ok (Some a1), (GetBlockByHash (block_hash a1) bc2).2).
Proof.
  pose proof (co_inv _ _ _ _ (bi_chain _ _ _ _ _ _ _ _ bc2_ok)) as Hinv. split; [exact Hinv|].
  destruct (caches_are_transparent (block_hash g0) bc2 (block_hash a1) Hinv (cx_hash a1)) as [Hb _]. unfold returns, wp in Hb.
  destruct (GetBlockByHash (block_hash a1) bc2) as [[r|e|q] bc']; [|destruct Hb..]. destruct Hb as [-> _]. vm_compute. reflexivity.
Defined.

(** The heavier block [b1] is stored beside the chain of [a2]. *)
Definition bc2' := (WriteBlockWithoutState b1 10 bc2).2.
Lemma bc2'_ok : block_in (block_hash g0) bc2 bc2' a2 2 b1 1 10.
Proof.
  apply (side_step_ok (block_hash g0) bc2 a2 2 b1 g0 1 9 1); [apply bc2_ok|apply b1_writable|].
  change (9 + 1) with 10. assert ((WriteBlockWithoutState b1 10 bc2).1 = Ok tt) as Hok by by vm_compute. etransitivity; [apply surjective_pairing|]. by rewrite Hok.
Qed.
Lemma reorg_switches_branch_witness : ∃ bc', reorg None a2 b1 bc2' = (Ok tt, bc') ∧
  bc_posted bc' = bc_posted bc2' ++ [ChainSideEvent a2; ChainSideEvent a1] ∧ ReadTxLookupEntry (bc_db bc') (rlpHash_tx g_tx) = zero_hash.
Proof.
  pose proof bc2'_ok as [[Hinv Hcur Hst Hcan] Hb1 _ _].
  destruct (proj1 (returns_run _ _ _) (reorg_switches_branch (block_hash g0) None bc2' a2 2 b1 1 Hinv Hst Hb1 Hcan)) as ([] & bc' & Hrun & _).
  assert (bc_posted (reorg None a2 b1 bc2').2 = [ChainSideEvent a2; ChainSideEvent a1]) as Hp by by vm_compute.
  assert (bc_posted bc2' = []) as Hp0 by by vm_compute.
  assert (ReadTxLookupEntry (bc_db (reorg None a2 b1 bc2').2) (rlpHash_tx g_tx) = zero_hash) as Hl by by vm_compute.
  rewrite Hrun in Hp, Hl. exists bc'. split; [exact Hrun|]. split; [by rewrite Hp0|exact Hl].
Defined.
Lemma cx_history : rtc (chain_step (S := cx_state) None cx_config None) bc1 bc3.
Proof.
  eapply rtc_l; [|eapply rtc_once].
  - eapply (write_step _ _ _ bc1 bc2 true a2 a1 2 2 3 [] (New ∅ : cx_state) CanonStatTy); [apply a2_writable|]. fold (cx_write a2 bc1).
    assert ((cx_write a2 bc1).1 = Ok CanonStatTy) as Hok by by vm_compute. unfold bc2. by destruct (cx_write a2 bc1); cbn in *; subst.
  - eapply (write_step _ _ _ bc2 bc3 true b1 g0 1 9 1 [] (New ∅ : cx_state) CanonStatTy); [apply b1_writable|]. fold (cx_write b1 bc2).
    assert ((cx_write b1 bc2).1 = Ok CanonStatTy) as Hok by by vm_compute. unfold bc3. by destruct (cx_write b1 bc2); cbn in *; subst.
Qed.
Lemma chain_stays_well_formed_witness : ∃ ob on, cx_ok bc3 ob on ∧ bc_currentBlock bc3 = Some ob ∧ stored (bc_db bc3) a1 1.
Proof.
  destruct (chain_stays_well_formed (S := cx_state) (block_hash g0) None cx_config None bc1 bc3 a1 1 3 (bi_chain _ _ _ _ _ _ _ _ bc1_ok) (bi_td _ _ _ _ _ _ _ _ bc1_ok) cx_history)
    as (ob & on & ltd & Hok & _ & _ & Hold). exists ob, on. split; [exact Hok|]. split; [apply (co_current _ _ _ _ Hok)|]. apply Hold, (bi_stored _ _ _ _ _ _ _ _ bc1_ok).
Defined.

(** ** A genesis block from its specification *)
#[local] Instance cx_config_codec : ConfigCodec := { json_MarshalConfig _ := Some [1]; json_UnmarshalConfig _ := None }.
Definition cx_genesis : Genesis := mkGenesis (mkChainConfig (Some (mkCliqueConfig 5 30000)) None) 0 7 100000 (Some 1) 0 0 {[ 3 := mkGenesisAccount [] ∅ (Some 1000) 0 ]}.
(** What is committed is on disk at once. *)
#[local] Program Instance cx_disk : StateDisk Trie (list Hash) := { sd_reopen d := d }.
Next Obligation. intros s d. cbn. rewrite decide_True by (by left). by eexists. Qed.
Definition cx_first := ToBlock (E := chain_error) [3; 4] cx_genesis (∅ : Trie) ([] : list Hash).
Lemma cx_alloc_ok : map_Forall (λ _ a, is_Some (ga_Balance a)) (g_Alloc cx_genesis).
Proof. apply map_Forall_singleton. by eexists. Qed.
Lemma cx_config_ok c : is_Some (json_MarshalConfig c).
Proof. by eexists. Qed.
Lemma genesis_opens_the_chain_witness : ∃ b config d ws bc, cx_first = Ok (b, config, d) ∧ Commit (E := chain_error) [3; 4] cx_genesis (∅ : Trie) ([] : list Hash) = Ok (b, ws, d) ∧
  NewBlockChain (C := cx_cache) (T := Trie) (batch_Write ws ∅) d = (Ok tt, bc) ∧ bc_currentBlock bc = Some b.
Proof.
  destruct cx_first as [[[b config] d]|e|q] eqn:Hto; [|discriminate Hto..].
  assert (block_hash b ≠ zero_hash) as Hne.
  { assert (match cx_first with Ok (b, _, _) => block_hash b | _ => 0 end = 8) as Heq by by vm_compute. rewrite Hto in Heq. by rewrite Heq. }
  destruct (genesis_opens_the_chain (C := cx_cache) (D := list Hash) [3; 4] cx_genesis (∅ : Trie) b config [] d
    cx_alloc_ok ltac:(by vm_compute) cx_config_ok Hto (cx_hash b) Hne) as (ws & bc & Hc & Hrun & Hok & _).
  exists b, config, d, ws, bc. split; [reflexivity|]. split; [exact Hc|]. split; [exact Hrun|]. apply (co_current _ _ _ _ Hok).
Defined.

(** * What the chain leaves behind

    After the reorganisation from the higher [a2] to the heavier [b1] the number
    above the head still names [a2], and looking the number up gives it. *)
Example stale_number_above_the_head : bc_currentBlock bc3 = Some b1 ∧ ReadCanonicalHash (bc_db bc3) 2 = block_hash a2 ∧ (GetBlockByNumber 2 bc3).1 = Ok (Some a2).
Proof. split; [by vm_compute|]. split; by vm_compute. Qed.

(** Importing a canonical block again whose state was pruned, on a parent whose
    state was pruned too, ends the process: no total difficulty is gathered, and
    the comparison dereferences nil. *)
#[local] Instance cx_engine : ChainEngine cx_cache (list Hash) := {
  eng_VerifyHeaders _ headers _ := (λ _, None) <$> headers;
  eng_VerifyUncles _ _ := None
}.
#[local] Instance cx_author : BlockEngine := λ h, Types.Coinbase h.
#[local] Instance cx_size : BlockSize := λ _, 500.
Definition cx_plain : Block := mkBlock (cx_header (block_hash g0) 1 5 2 51) [] [].
Definition cx_pruned := set_tries [] [] 0 (cx_write cx_plain bc0).2.
Example pruned_canonical_import_panics :
  (InsertChain (T := Trie) None cx_config None false 100 (λ _, 0) (λ _, true) 1 [cx_plain] cx_pruned).1 = Panic NilDereference.
Proof. by vm_compute. Qed.

(** * Synchronisation

    Chains kept as lists; two of them share their first blocks. *)
Definition sx_block (time : Z) (n : nat) : Block := mkBlock (cx_header 0 (Z.of_nat n) time 1 0) [] [].
Definition sx_chain (shared : nat) (n : nat) : list Block := (λ k, sx_block (if (k <? shared)%nat then 0 else 1) k) <$> seq 0 n.
Definition sx_find (c : list Block) (hash : Hash) : option Block :=
  b ← c !! Z.to_nat ((hash - 1) / 1000); if block_hash b =? hash then Some b else None.
#[local] Instance sx_served : ServedChain (list Block) := {
  sc_GetHeaderByHash c hash := block_header <$> sx_find c hash;
  sc_GetHeader c hash _ := block_header <$> sx_find c hash;
  sc_GetHeaderByNumber c n := block_header <$> c !! Z.to_nat n;
  sc_GetAncestor _ _ _ _ _ := (zero_hash, 0, 0);
  sc_GetBody c hash := block_Body <$> sx_find c hash;
  sc_GetBlockByNumber c n := c !! Z.to_nat n;
  sc_CurrentBlock c := last c
}.
Lemma sx_hash time n : 0 ≤ time < 1000 → Z.of_nat n < 2 ^ 60 → block_hash (sx_block time n) = 1 + 1000 * Z.of_nat n + time.
Proof. intros Ht Hn. unfold block_hash, Header_Hash. cbn. change (2 ^ 60) with 1152921504606846976 in Hn. rewrite Z.mod_small; [done|]. lia. Qed.
Lemma sx_at shared n k b : Z.of_nat n < 2 ^ 60 → sx_chain shared n !! k = Some b → (k < n)%nat ∧ ∃ time, 0 ≤ time ≤ 1 ∧ b = sx_block time k ∧ block_hash b = 1 + 1000 * Z.of_nat k + time.
Proof.
  intros Hn Hb. apply list_lookup_fmap_Some in Hb as (j & -> & [-> Hj]%lookup_seq). split; [done|]. cbn [Nat.add]. eexists. split; [|split; [done|apply sx_hash; [|lia]]]; destruct (k <? shared)%nat; lia.
Qed.
Lemma sx_found shared n b : Z.of_nat n < 2 ^ 60 → b ∈ sx_chain shared n → sx_find (sx_chain shared n) (block_hash b) = Some b.
Proof.
  intros Hn [k Hk]%list_elem_of_lookup. destruct (sx_at _ _ _ _ Hn Hk) as (_ & t & Ht & _ & Hh). unfold sx_find. rewrite Hh. replace (1 + 1000 * Z.of_nat k + t - 1) with (t + Z.of_nat k * 1000) by lia.
  rewrite Z.div_add, Z.div_small, Z.add_0_l, Nat2Z.id, Hk by lia. cbn [mbind option_bind]. by rewrite Hh, Z.eqb_refl.
Qed.
Lemma sx_serves shared n : Z.of_nat n < 2 ^ 60 → serves (sx_chain shared n) (sx_chain shared n).
Proof.
  intros Hn. split.
  - intros k b Hb. destruct (sx_at _ _ _ _ Hn Hb) as (_ & t & _ & -> & _). done.
  - intros k _. cbn. by rewrite Nat2Z.id.
  - intros k _. cbn. by rewrite Nat2Z.id.
  - intros b Hb. change (block_header <$> sx_find (sx_chain shared n) (block_hash b) = Some (block_header b)). by rewrite sx_found.
  - intros b Hb. exists (block_Body b). split; [change (block_Body <$> sx_find (sx_chain shared n) (block_hash b) = Some (block_Body b)); by rewrite sx_found|]. apply list_elem_of_lookup in Hb as [k Hk]. destruct (sx_at _ _ _ _ Hn Hk) as (_ & t & _ & -> & _). done.
  - intros b [k Hk]%list_elem_of_lookup. destruct (sx_at _ _ _ _ Hn Hk) as (_ & t & Ht & _ & Hh). change (block_hash b ≠ zero_hash). rewrite Hh. unfold zero_hash. lia.
  - apply NoDup_alt. intros i j h Hi Hj. apply list_lookup_fmap_Some in Hi as (b & -> & Hb), Hj as (b' & Heq & Hb'). change (block_hash b = block_hash b') in Heq.
    destruct (sx_at _ _ _ _ Hn Hb) as (_ & t & Ht & _ & Hh), (sx_at _ _ _ _ Hn Hb') as (_ & t' & Ht' & _ & Hh'). lia.
  - unfold sx_chain. rewrite length_fmap, length_seq. change (2 ^ 62) with 4611686018427387904. change (2 ^ 60) with 1152921504606846976 in Hn. lia.
  - done.
Qed.
#[local] Instance sx_local : LocalChain (list Block) := {
  lc_CurrentBlock l := default g0 (last l);
  lc_HasBlock l hash n := match l !! Z.to_nat n with Some b => block_hash b =? hash | None => false end;
  lc_InsertHeaderChain _ l := l;
  lc_InsertChain blocks l := (false, l ++ blocks)
}.
Definition sx_peer (c : list Block) : SyncPeer (list Block) :=
  mkSyncPeer (default 0 (block_hash <$> last c)) (Some c) (Some c) (Some c) (Some c) (λ _, Some c) (Some c).
Lemma sx_steady shared n : steady (sx_chain shared n) (sx_chain shared n) (sx_peer (sx_chain shared n)).
Proof. split; try done. intros top Htop. unfold sx_peer. cbn [sp_head]. by rewrite Htop. Qed.

(** Five blocks above the common ancestor, a hundred and thirty of them, and a
    chain that is shorter. *)
Lemma sync_fetches_short_branches_witness :
  syncWithPeer (sx_peer (sx_chain 9 14)) (sx_chain 10 10) = (Ok tt, sx_chain 10 10 ++ drop 9 (sx_chain 9 14)) ∧
  (syncWithPeer (sx_peer (sx_chain 9 140)) (sx_chain 10 10)).1 = Err errInvalidBody ∧
  (syncWithPeer (sx_peer (sx_chain 3 5)) (sx_chain 10 10)).1 = Panic NilDereference.
Proof.
  split_and!.
  - destruct (sync_fetches_short_branches (sx_chain 9 14) (sx_chain 9 14) (sx_peer (sx_chain 9 14)) (sx_chain 10 10) 9 8
      (sx_serves 9 14 ltac:(done)) (sx_steady 9 14) ltac:(discriminate) ltac:(vm_compute; reflexivity) ltac:(done) ltac:(vm_compute; reflexivity)) as (Hshort & _ & _).
    rewrite Hshort; [reflexivity|cbn; lia|cbn; lia].
  - apply (sync_fetches_short_branches (sx_chain 9 140) (sx_chain 9 140) (sx_peer (sx_chain 9 140)) (sx_chain 10 10) 9 0
      (sx_serves 9 140 ltac:(done)) (sx_steady 9 140) ltac:(discriminate) ltac:(vm_compute; reflexivity) ltac:(done) ltac:(vm_compute; reflexivity)); vm_compute; lia.
  - apply (sync_fetches_short_branches (sx_chain 3 5) (sx_chain 3 5) (sx_peer (sx_chain 3 5)) (sx_chain 10 10) 9 1
      (sx_serves 3 5 ltac:(done)) (sx_steady 3 5) ltac:(discriminate) ltac:(vm_compute; reflexivity) ltac:(done) ltac:(vm_compute; reflexivity)); vm_compute; lia.
Defined.
Lemma calculateRequestSpan_bounds_witness : 0 ≤ 2 ≤ 3 ∧ calculateRequestSpan 139 9 = (17, 12, 10, 138) ∧
  let '(from, count, skip, max) := calculateRequestSpan 139 9 in
  0 ≤ from ∧ 2 ≤ count ≤ 12 ∧ 1 ≤ skip ≤ 15 ∧ max = from + (count - 1) * (skip + 1) ∧ (from = 0 ∨ max = 139 - 1) ∧ Z.max 0 (139 - 1) ≤ max.
Proof. split; [lia|]. split; [reflexivity|]. apply calculateRequestSpan_bounds; (split; [discriminate|reflexivity]). Defined.
Lemma findAncestor_shared_witness : findAncestor (Some (sx_chain 9 14)) (sx_chain 10 10) 13 9 = Ok 8 ∧ shared (sx_chain 9 14) (sx_chain 10 10) 8.
Proof.
  pose proof (findAncestor_shared (sx_chain 9 14) (sx_chain 9 14) (sx_serves 9 14 ltac:(done)) (sx_chain 10 10) 13 9 ltac:(discriminate)
    ltac:(split; [discriminate|reflexivity]) ltac:(split; [discriminate|reflexivity])) as Ha.
  assert (findAncestor (Some (sx_chain 9 14)) (sx_chain 10 10) 13 9 = Ok 8) as Heq by (vm_compute; reflexivity). split; [exact Heq|].
  destruct (calculateRequestSpan 13 9) as [[[from count] skip] max]. cbv zeta in Ha. rewrite Heq in Ha. destruct Ha as ([H8|[Hs _]] & _); [discriminate H8|exact Hs].
Defined.

(** The chain of [a2] serves its three blocks.  No number above the head has a
    canonical hash: the keys of the database that may give one are looked at. *)
#[local] Instance cx_filled : RlpFilled.
Proof.
  intros data h Hd. cbn in Hd. destruct (of_byte data) as [l|]; [|discriminate Hd]. cbn in Hd. unfold header_of_ints in Hd.
  repeat match goal with H : context [match ?x with [] => _ | _ :: _ => _ end] |- _ => is_var x; destruct x; [discriminate H|] end. injection Hd as <-. split; by eexists.
Qed.
Definition canonical_number (key : list byte) : option Z :=
  if decide (drop 9 key = headerHashSuffix) then Some (bytes_array (take 8 (drop 1 key))) else None.
Lemma canonical_number_key n : is_u64 n → canonical_number (headerHashKey n) = Some n.
Proof.
  intros Hn. unfold headerHashKey. assert (length (encodeBlockNumber n) = 8%nat) as Hlen by apply array_bytes_length. change headerPrefix with [104]. change headerHashSuffix with [110].
  unfold canonical_number. cbn [app drop]. rewrite drop_app_length', drop_0, take_app_length' by done. change headerHashSuffix with [110]. rewrite decide_True by done.
  f_equal. by apply bytes_array_of_number.
Qed.
Definition numbers_upto (n : Z) (db : Database) : bool :=
  forallb (λ p : list byte * list byte, match canonical_number p.1 with Some k => k <=? n | None => true end) (map_to_list db).
Lemma numbers_upto_above n db m : numbers_upto n db = true → is_u64 m → n < m → ReadCanonicalHash db m = zero_hash.
Proof.
  intros Hall Hm Hlt. unfold ReadCanonicalHash, read_hash. unfold db_Get. destruct (db !! headerHashKey m) as [v|] eqn:Hv; [|reflexivity].
  unfold numbers_upto in Hall. rewrite forallb_forall in Hall. assert (In (headerHashKey m, v) (map_to_list db)) as Hin by (apply list_elem_of_In, elem_of_map_to_list, Hv).
  apply Hall in Hin. cbn [fst] in Hin. rewrite canonical_number_key in Hin by done. lia.
Qed.
Lemma bc2_numbers : numbers_upto 2 (bc_db bc2) = true.
Proof. vm_compute. reflexivity. Qed.
Lemma bc3_chain : cx_ok bc3 b1 1.
Proof. eapply bi_chain, (cx_written b1 g0 1 9 1 bc2 a2 2 5); [apply bc2_ok|apply b1_writable|by vm_compute|lia|by vm_compute]. Qed.
(** The chain that ends with [a2], and the one after the reorganisation to [b1],
    which serves the abandoned [a2] above its head. *)
Lemma chain_serves_canonical_blocks_witness : (∃ blocks, serves bc2 blocks ∧ last blocks = Some a2) ∧
  ∃ blocks, serves_chain bc3 blocks ∧ length blocks = 2%nat ∧ last blocks = Some b1 ∧ sc_GetBlockByNumber bc3 2 = Some a2.
Proof.
  split.
  - destruct (chain_serves_canonical_blocks (block_hash g0) bc2 a2 2 (bi_chain _ _ _ _ _ _ _ _ bc2_ok)) as (blocks & _ & _ & Hl & _ & _ & Hend); [reflexivity| |].
    + intros n Hn. assert (n = 0 ∨ n = 1 ∨ n = 2) as [->|[->| ->]] by lia; vm_compute; discriminate.
    + exists blocks. split; [|exact Hl]. apply Hend. intros n Hn Hlt. exact (numbers_upto_above 2 _ n bc2_numbers Hn Hlt).
  - destruct (chain_serves_canonical_blocks (block_hash g0) bc3 b1 1 bc3_chain) as (blocks & Hs & Hlen & Hl & _ & Habove & _); [reflexivity| |].
    + intros n Hn. assert (n = 0 ∨ n = 1) as [->| ->] by lia; vm_compute; discriminate.
    + exists blocks. split; [exact Hs|]. split; [lia|]. split; [exact Hl|]. destruct (Habove 2) as [_ ->]; [by vm_compute|done|by vm_compute].
Defined.

(** * The protocol

    A node with six peers, one of which has the block. *)
#[local] Instance px_pop : SetPop.
Proof.
  refine {| mapset_Pop known := default 0 (head (elements known)) |}. intros known Hne. destruct (elements known) as [|h l] eqn:He; [destruct Hne; by apply leibniz_equiv, elements_empty_inv|].
  cbn. apply elem_of_elements. rewrite He. left.
Defined.
#[local] Instance px_chain : NodeChain (list Block) := {
  nc_CurrentFastBlock l := default g0 (last l);
  nc_GetTd l hash n := if lc_HasBlock l hash n then Some (n + 1) else None;
  nc_GetTdByHash l hash := (λ b, default 0 (Number (block_header b)) + 1) <$> sx_find l hash
}.
Definition px_peer (td : Z) (txs blocks : gset Hash) : peer := set_known txs blocks (set_head 7 td newPeer).
Definition px_set : peerSet := mkPeerSet (list_to_map [(1, px_peer 3 ∅ ∅); (2, px_peer 8 ∅ {[9001]}); (3, px_peer 9 {[1; 2]} ∅); (4, px_peer 4 {[1]} ∅); (5, px_peer 5 ∅ ∅); (6, px_peer 9 ∅ ∅)]) false.
Definition px_block : Block := mkBlock (cx_header (block_hash (sx_block 0 8)) 9 0 1 0) [] [].
Lemma px_rest : all_rest px_set.
Proof. apply map_Forall_to_list. repeat (apply Forall_cons_2; [split_and!; reflexivity|]). apply Forall_nil_2. Qed.
Lemma px_number : TxPool.NumberU64 (E := unit) px_block = Ok 9.
Proof. vm_compute. reflexivity. Qed.
Lemma px_parent : lc_HasBlock (sx_chain 10 10) (ParentHash (block_header px_block)) (9 - 1)%u64 = true.
Proof. vm_compute. reflexivity. Qed.
Lemma px_td : nc_GetTd (sx_chain 10 10) (ParentHash (block_header px_block)) (9 - 1)%u64 = Some 9.
Proof. vm_compute. reflexivity. Qed.
Lemma px_has : lc_HasBlock (sx_chain 10 10) (Header_Hash (block_header px_block)) 9 = true.
Proof. vm_compute. reflexivity. Qed.
Definition px_node : SyncNode (list Block) := mkSyncNode (sx_chain 10 10) false false.
Lemma px_current : Number (block_header (lc_CurrentBlock (sn_chain px_node))) = Some (Z.of_nat 9).
Proof. vm_compute. reflexivity. Qed.
Lemma px_current_td : nc_GetTd (sn_chain px_node) (Header_Hash (block_header (lc_CurrentBlock (sn_chain px_node)))) (Z.of_nat 9) = Some 10.
Proof. vm_compute. reflexivity. Qed.
Lemma mined_block_reaches_every_peer_witness : ∃ ps', broadcastMinedBlock (E := unit) true (λ _ k, k) (sx_chain 10 10) px_block px_set = Ok ps' ∧
  p_sent <$> ps_peers ps' !! 2 = Some [] ∧ ∀ id, id = 1 ∨ id = 3 → ∃ m, p_sent <$> ps_peers ps' !! id = Some [m].
Proof.
  destruct (mined_block_reaches_every_peer (E := unit) (λ _ k, k) (sx_chain 10 10) px_block 9 1 9 px_set px_rest px_number eq_refl px_parent px_td px_has) as (_ & ps' & Hrun & _ & Hat).
  exists ps'. split; [exact Hrun|]. split; [rewrite Hat; vm_compute; reflexivity|]. intros id [->| ->]; rewrite Hat; eexists; vm_compute; reflexivity.
Defined.
Lemma BroadcastTxs_sends_missing_witness : ∃ ps', BroadcastTxs (E := unit) true (λ _ k, k) [g_tx] px_set = Ok ps' ∧
  p_sent <$> ps_peers ps' !! 1 = Some [TxMsg [g_tx]] ∧ p_sent <$> ps_peers ps' !! 4 = Some [].
Proof.
  destruct (BroadcastTxs_sends_missing (E := unit) (λ _ k, k) [g_tx] px_set px_rest) as (ps' & Hrun & _ & Hat). exists ps'. split; [exact Hrun|].
  split; rewrite Hat; vm_compute; reflexivity.
Defined.
Lemma mark_bounds_witness : 0 < 3 ∧ 5 ∈ mark 3 5 {[1; 2; 3; 4]} ∧ Z.of_nat (size (mark 3 5 {[1; 2; 3; 4]})) ≤ 3 ∧ mark 3 5 {[1; 2; 3; 4]} ⊆ {[5]} ∪ {[1; 2; 3; 4]}.
Proof. split; [lia|]. apply (mark_bounds 3 5 {[1; 2; 3; 4]}). lia. Defined.
Lemma BestPeer_is_heaviest_witness : ∃ id p, BestPeer (E := unit) px_set = Ok (Some (id, p)) ∧ p_td p = Some 9.
Proof.
  destruct (BestPeer_is_heaviest (E := unit) px_set) as (r & Hrun & Hr).
  - apply map_Forall_to_list. repeat (apply Forall_cons_2; [by eexists|]). apply Forall_nil_2.
  - assert (match BestPeer (E := unit) px_set with Ok (Some (_, p)) => p_td p | _ => None end = Some 9) as Htd by (vm_compute; reflexivity). rewrite Hrun in Htd.
    destruct r as [[id p]|]; [|discriminate Htd]. exists id, p. split; [exact Hrun|exact Htd].
Defined.
Lemma pm_synchronise_catches_up_witness :
  pm_synchronise false (Some (sx_peer (sx_chain 9 14), 10)) px_node = (Ok None, px_node) ∧
  pm_synchronise false (Some (sx_peer (sx_chain 9 14), 11)) px_node =
    (Ok (Some (sx_block 1 13)), mkSyncNode (sx_chain 10 10 ++ drop 9 (sx_chain 9 14)) false true) ∧
  (∃ chain, pm_synchronise false (Some (sx_peer (sx_chain 9 140), 11)) px_node = (Ok None, mkSyncNode chain false false)) ∧
  (pm_synchronise false (Some (sx_peer (sx_chain 3 5), 11)) px_node).1 = Panic NilDereference.
Proof.
  assert (turns_fast px_node (Z.of_nat 9) px_node = (Ok false, px_node)) as Hslow by reflexivity. assert (∀ td, goes_ahead px_node false td) as Hahead by discriminate. split_and!.
  - destruct (pm_synchronise_catches_up px_node (sx_peer (sx_chain 9 14)) (sx_chain 9 14) (sx_chain 9 14) 10 10 9 8 false px_current ltac:(done) px_current_td Hslow) as [Hidle _]. apply Hidle. lia.
  - destruct (pm_synchronise_catches_up px_node (sx_peer (sx_chain 9 14)) (sx_chain 9 14) (sx_chain 9 14) 11 10 9 8 false px_current ltac:(done) px_current_td Hslow) as (_ & _ & Hrun).
    destruct (Hrun ltac:(lia) (Hahead 11) (sx_serves 9 14 ltac:(done)) (sx_steady 9 14) ltac:(discriminate) ltac:(vm_compute; reflexivity)) as (Hshort & _ & _).
    exact (Hshort ltac:(cbn; lia) ltac:(cbn; lia) 13 ltac:(vm_compute; reflexivity) ltac:(u64_unfold; lia)).
  - destruct (pm_synchronise_catches_up px_node (sx_peer (sx_chain 9 140)) (sx_chain 9 140) (sx_chain 9 140) 11 10 9 0 false px_current ltac:(done) px_current_td Hslow) as (_ & _ & Hrun).
    destruct (Hrun ltac:(lia) (Hahead 11) (sx_serves 9 140 ltac:(done)) (sx_steady 9 140) ltac:(discriminate) ltac:(vm_compute; reflexivity)) as (_ & Hlong & _).
    exact (Hlong ltac:(cbn; lia) ltac:(cbn; lia)).
  - destruct (pm_synchronise_catches_up px_node (sx_peer (sx_chain 3 5)) (sx_chain 3 5) (sx_chain 3 5) 11 10 9 1 false px_current ltac:(done) px_current_td Hslow) as (_ & _ & Hrun).
    destruct (Hrun ltac:(lia) (Hahead 11) (sx_serves 3 5 ltac:(done)) (sx_steady 3 5) ltac:(discriminate) ltac:(vm_compute; reflexivity)) as (_ & _ & Hcrash).
    exact (Hcrash ltac:(cbn; lia) ltac:(cbn; lia)).
Defined.
