(* ===== verification/TrieDBExamples.v ===== *)
(** The theorems on tries at concrete inputs.

    The trie database at concrete inputs: two versions of a state that share
    accounts, the older one released.

    Tries over the trie database at concrete inputs: a trie is committed, opened
    by its root, changed where it is known by hash only, and committed again. *)
From S2P Require Import Prelude Hoare Types TrieEncoding Trie TrieMemory TrieMap TrieRoot Memorydb TrieNode TrieLoad TrieCommit TrieDB TrieDBInv TrieDBGC TrieDBRefs TrieDBFlush TrieDBSpec TrieStore Instances.

Definition no_db (h : Hash) : option node := None.

(** Keys that share nibbles, one of which is a prefix of another. *)
Definition key_do : list byte := [100; 111].
Definition key_dog : list byte := [100; 111; 103].
Definition key_horse : list byte := [104; 111; 114; 115; 101].
Definition value_of (b : byte) : list byte := replicate 40 b.

Definition ops_forth : list trie_op :=
  [OpUpdate key_do (value_of 1); OpGet key_dog; OpUpdate key_dog (value_of 2); OpGet key_do;
   OpUpdate key_horse (value_of 3); OpDelete key_horse; OpGet key_horse; OpGet key_dog].
Definition ops_back : list trie_op := [OpUpdate key_dog (value_of 2); OpUpdate key_do (value_of 4); OpUpdate key_do (value_of 1)].

Definition trie_key_ok (o : trie_op) : bool := forallb (λ b, (0 <=? b) && (b <? 256)) (op_key o).
Lemma trie_keys_ok ops : forallb trie_key_ok ops = true → Forall (λ o, Forall is_byte (op_key o)) ops.
Proof.
  intros H. apply Forall_forall. intros o Ho. apply list_elem_of_In in Ho. rewrite forallb_forall in H.
  specialize (H o Ho). apply Forall_forall. intros b Hb. apply list_elem_of_In in Hb. unfold trie_key_ok in H.
  rewrite forallb_forall in H. specialize (H b Hb). unfold is_byte. lia.
Qed.

Lemma trie_is_a_map_witness :
  (TrieMap.run_ops no_db nilNode ops_forth).1 =
  [Ok None; Ok None; Ok None; Ok (Some (value_of 1)); Ok None; Ok None; Ok None; Ok (Some (value_of 2))].
Proof. apply (trie_is_a_map no_db ops_forth). apply trie_keys_ok. vm_compute. reflexivity. Defined.

Lemma trie_history_independent_witness :
  strip (TrieMap.run_ops no_db nilNode ops_forth).2 = strip (TrieMap.run_ops no_db nilNode ops_back).2 ∧
  strip (TrieMap.run_ops no_db nilNode ops_forth).2 ≠ nilNode.
Proof.
  split; [|vm_compute; discriminate].
  apply trie_history_independent; [apply trie_keys_ok; vm_compute; reflexivity..|]. vm_compute. reflexivity.
Defined.

Definition hash_ops_forth : list hash_op := Edit <$> take 5 ops_forth ++ [OpDelete key_horse].
Definition hash_ops_back : list hash_op :=
  [Edit (OpUpdate key_dog (value_of 2)); AskHash; Edit (OpUpdate key_do (value_of 4)); AskHash; Edit (OpUpdate key_do (value_of 1))].
Lemma hash_ops_ok ops : forallb (λ o, match o with Edit o => trie_key_ok o | AskHash => true end) ops = true → Forall hash_op_ok ops.
Proof.
  intros H. apply Forall_forall. intros o Ho. apply list_elem_of_In in Ho. rewrite forallb_forall in H.
  specialize (H o Ho). destruct o as [o|]; [|done]. cbn in *. assert (Forall (λ o, Forall is_byte (op_key o)) [o]) as Ho'.
  { apply trie_keys_ok. cbn. by rewrite H. }
  by apply Forall_cons in Ho' as [? _].
Qed.

Lemma root_hash_of_contents_witness :
  ∃ h root1 root2 committed,
    Trie_Hash (run_hash_ops no_db nilNode hash_ops_forth) = Ok (h, root1) ∧
    Trie_Hash (run_hash_ops no_db nilNode hash_ops_back) = Ok (h, root2) ∧
    (Trie_Commit true (run_hash_ops no_db nilNode hash_ops_back)).1 = Ok (h, committed) ∧
    represents root1 (final_map ∅ hash_ops_forth) ∧ represents root2 (final_map ∅ hash_ops_forth).
Proof.
  apply root_hash_of_contents; [done|apply hash_ops_ok; vm_compute; reflexivity..|]. vm_compute. reflexivity.
Defined.

(** A cache that keeps everything. *)
#[export] Instance toy_cache : BigCache (gmap (list byte) (list byte)) := {
  bc_New _ := ∅;
  bc_Get key c := c !! key;
  bc_Set key v c := <[key := v]> c
}.
#[export] Instance toy_cache_laws : BigCacheLaws (gmap (list byte) (list byte)).
Proof.
  split; [done|]. intros key key' v w c. cbn. intros [[-> ->]|[_ ?]]%lookup_insert_Some; [by left|by right].
Qed.
Abbreviation ToyDB := (TrieDatabase (gmap (list byte) (list byte))).

(** A code, a storage trie, accounts that refer to both, and two roots. *)
Definition value_40 (b : byte) : list byte := replicate 40 b.
Definition full_of (l : list (nat * Hash)) : node := fullNode (foldr (λ ih cs, <[ih.1 := hashNode ih.2]> cs) empty_children l) newFlag.
Definition tx_nodes : list (Hash * (raw_node + node) * list Hash) :=
  [ (11, inl (rawNode [96; 0; 82]), []); (12, inr (shortNode [32; 7] (valueNode (value_40 1)) newFlag), []);
    (13, inr (shortNode [32; 8] (valueNode (value_40 2)) newFlag), [12; 11]); (14, inr (shortNode [32; 9] (valueNode (value_40 3)) newFlag), [12]);
    (15, inr (full_of [(1%nat, 13); (4%nat, 14)]), []);
    (16, inr (shortNode [32; 9] (valueNode (value_40 4)) newFlag), []); (17, inr (full_of [(1%nat, 13); (4%nat, 16)]), []) ].
Definition tx_content (h : Hash) : option raw_node :=
  '(_, n, _) ← head (filter (λ x, x.1.1 = h) tx_nodes); match cached_form n with Ok r => Some r | _ => None end.
Definition tx_ext (h : Hash) : list Hash := from_option snd [] (head (filter (λ x, x.1.1 = h) tx_nodes)).
(** ** A checker for what a client respects *)
Inductive tx_op := Put (h : Hash) | Do (op : db_op).
#[local] Instance is_hash_dec h : Decision (is_hash h).
Proof. unfold is_hash. apply _. Defined.
#[local] Instance from_option_dec {A} (P : A → Prop) `{∀ x, Decision (P x)} (o : option A) : Decision (from_option P True o).
Proof. destruct o; cbn; apply _. Defined.
Section checker.
Context `{NodeDigest} (content : Hash → option raw_node) (ext : Hash → list Hash) (store : Hash → db_op).
Definition db_op_of (o : tx_op) : db_op := match o with Put h => store h | Do op => op end.
Definition on_diskb (disk : Database) (h : Hash) : bool := bool_decide (is_Some (content h) ∧ is_Some (disk !! Hash_Bytes h)).
Definition knownb (db : ToyDB) (h : Hash) : bool := bool_decide (is_Some (td_dirties db !! h)) || on_diskb (td_diskdb db) h.
Definition links_of (h : Hash) : list Hash := from_option inner [] (content h) ++ ext h.
Definition roomb (db : ToyDB) (more : nat) : bool := bool_decide (map_Forall (λ _ e, cn_parents e + Z.of_nat more < 2 ^ 32) (td_dirties db)).
Definition allowedb (o : tx_op) (db : ToyDB) (hs : Hash → nat) : bool :=
  match o with
  | Put h => match content h with
             | Some r => forallb (λ c, negb (c =? zero_hash) && knownb db c) (links_of h) && bool_decide (Z.of_nat (length (ext h)) < 2 ^ 32) &&
                         roomb db (length (inner r) + length (ext h))
             | None => false
             end
  | Do (OpStore _ _ _ _) => false
  | Do (OpPreimage h p) => bool_decide (is_hash h) && bool_decide (from_option (λ q, q = p) True (preimage_of db h))
  | Do (OpRead h) => bool_decide (is_hash h)
  | Do (OpHold root) => negb (root =? zero_hash) && knownb db root && roomb db 1 && (default 0 (metaroot_children db !! root) + 1 <? 2 ^ 16)
  | Do (OpRelease root) => negb (root =? zero_hash) && bool_decide (0 < hs root)%nat
  | Do (OpCap _) => true
  | Do (OpCommit root) => negb (root =? zero_hash) && knownb db root
  end.
Lemma knownb_known db h : knownb db h = true → known content db h.
Proof. unfold knownb, on_diskb. intros [Hk|Hk]%orb_true_iff; apply bool_decide_eq_true in Hk; [by left|by right]. Qed.
Lemma nonzerob h : negb (h =? zero_hash) = true → h ≠ zero_hash.
Proof. intros Hh%negb_true_iff. by apply Z.eqb_neq. Qed.
Lemma roomb_room db n : roomb db n = true → ∀ h e, td_dirties db !! h = Some e → cn_parents e + Z.of_nat n < 2 ^ 32.
Proof. intros Hr%bool_decide_eq_true. apply Hr. Qed.
Context (store_op : ∀ h r, content h = Some r → ∃ blob n, store h = OpStore h blob n (ext h) ∧ cached_form n = Ok r ∧ blob_fits blob).
Lemma allowed_check o db hs : allowedb o db hs = true → allowed content ext (db_op_of o) db hs.
Proof.
  destruct o as [h|[]]; cbn [allowedb db_op_of]; try done.
  - destruct (content h) as [r|] eqn:Hr; [|done]. intros [[Hl Hf]%andb_true_iff Hroom]%andb_true_iff. destruct (store_op h r Hr) as (blob & n & -> & Hn & Hb).
    split; [done|]. exists r. split_and!; [done|done|done| |by apply bool_decide_eq_true in Hf|by apply roomb_room].
    intros c Hc. rewrite forallb_forall in Hl. specialize (Hl c (proj1 (list_elem_of_In _ _) Hc)). apply andb_true_iff in Hl as [? ?].
    split; [by apply nonzerob|by apply knownb_known].
  - intros [Hh%bool_decide_eq_true Hp%bool_decide_eq_true]%andb_true_iff. split; [done|]. intros q Hq. rewrite Hq in Hp. by symmetry.
  - intros [[[Hz Hk]%andb_true_iff Hr]%andb_true_iff Hc]%andb_true_iff. split_and!; [by apply nonzerob|by apply knownb_known| |by apply Z.ltb_lt].
    intros e He. by apply (roomb_room _ 1 Hr root).
  - intros [Hz Hh]%andb_true_iff. split; [by apply nonzerob|by apply bool_decide_eq_true in Hh].
  - intros [Hz Hk]%andb_true_iff. split; [by apply nonzerob|by apply knownb_known].
  - apply bool_decide_eq_true.
Qed.
Fixpoint check_run (ops : list tx_op) (db : ToyDB) (hs : Hash → nat) : bool :=
  match ops with
  | [] => true
  | o :: ops => allowedb o db hs && match run_op (db_op_of o) db with (Ok tt, db') => check_run ops db' (step_holds (db_op_of o) hs) | _ => true end
  end.
Lemma check_run_ok ops db hs : check_run ops db hs = true → allowed_run content ext (map db_op_of ops) db hs.
Proof.
  revert db hs. induction ops as [|o ops IH]; intros db hs; [done|]. cbn [check_run map allowed_run]. intros [Ha Hr]%andb_true_iff.
  split; [by apply allowed_check|]. intros db' Hrun. rewrite Hrun in Hr. by apply IH.
Qed.
End checker.

Definition tx_store (h : Hash) : db_op := from_option (λ x, OpStore h (value_40 0) x.1.2 x.2) (OpRead h) (head (filter (λ x, x.1.1 = h) tx_nodes)).
Lemma tx_store_op h r : tx_content h = Some r → ∃ blob n, tx_store h = OpStore h blob n (tx_ext h) ∧ cached_form n = Ok r ∧ blob_fits blob.
Proof.
  unfold tx_content, tx_store, tx_ext. destruct (head _) as [[[h' n] e]|]; [|done]. cbn [fst snd mbind option_bind from_option]. intros Hr. exists (value_40 0), n. split; [done|].
  split; [by destruct (cached_form n) eqn:Hf; simplify_eq|by vm_compute].
Qed.
Abbreviation tx_db_op := (db_op_of tx_store).
Definition tx_links : Hash → list Hash := links_of tx_content tx_ext.
Lemma tx_allowed ops db hs : check_run tx_content tx_ext tx_store ops db hs = true → allowed_run tx_content tx_ext (map tx_db_op ops) db hs.
Proof. apply check_run_ok, tx_store_op. Qed.

Lemma tx_hashes h r : tx_content h = Some r → h ∈ tx_nodes.*1.*1.
Proof.
  unfold tx_content. destruct (head _) as [[[h' n] e]|] eqn:Hh; [|done]. intros _. apply head_Some_elem_of in Hh as Hin.
  apply list_elem_of_filter in Hin as [Heq Hin]. cbn in Heq. subst h'. apply list_elem_of_fmap. exists (h, n). split; [done|]. apply list_elem_of_fmap. by exists (h, n, e).
Qed.
Lemma tx_content_ok : content_ok tx_content.
Proof.
  assert (∀ h r, tx_content h = Some r → is_hash h ∧ h ≠ zero_hash ∧ match r with rawNode _ => True | _ => gatherChildren (E := trie_db_error) r = Ok (inner r) end ∧
    Z.of_nat (length (inner r)) < 2 ^ 16) as Hall; [|split; intros h r Hr; by apply Hall in Hr as (? & ? & ? & ?)].
  intros h r Hr. pose proof (tx_hashes h r Hr) as Hin. repeat (apply elem_of_cons in Hin as [->|Hin]; [vm_compute in Hr; injection Hr as <-; by vm_compute|]).
  by apply not_elem_of_nil in Hin.
Qed.
Lemma tx_disk_good : disk_good (K := gmap (list byte) (list byte)) tx_content tx_ext ∅.
Proof.
  assert (∀ h, ¬ on_disk tx_content ∅ h) as Hno by (intros h [_ [? Hh]]; by rewrite lookup_empty in Hh).
  split; [split|exists (λ _, 0%nat)]; try done; try (intros h c Hd; by destruct (Hno h)).
Qed.

Definition tx_ops : list tx_op :=
  map Put [11; 12; 13; 14; 15] ++ [Do (OpPreimage 40 [1; 2; 3]); Do (OpHold 15)] ++ map Put [16; 17] ++
  map Do [OpHold 17; OpRead 13; OpRelease 15; OpRead 14; OpHold 17; OpRelease 17; OpCap 600; OpRead 13].
Definition tx_new : ToyDB := NewDatabaseWithCache ∅ 1.

Lemma trie_database_keeps_what_is_held_witness :
  ∃ db', run_ops (map tx_db_op tx_ops) tx_new = (Ok tt, db') ∧ readable tx_content db' 12 ∧
    bool_decide (is_Some (td_dirties db' !! 14)) = false ∧ bool_decide (is_Some (td_dirties db' !! 12)) = false.
Proof.
  destruct (trie_database_keeps_what_is_held tx_content tx_ext tx_content_ok (∅ : Database) 1 (map tx_db_op tx_ops)) as (db' & Hrun & Hread);
    [exact tx_disk_good|by apply tx_allowed; vm_compute|].
  exists db'. split; [exact Hrun|]. split.
  - apply (Hread 17 12); [done|left; vm_compute; lia|]. apply reach_step with 13; [by apply (bool_decide_unpack (13 ∈ tx_links 17)); vm_compute|].
    apply reach_step with 12; [by apply (bool_decide_unpack (12 ∈ tx_links 13)); vm_compute|]. constructor.
  - assert (db' = (run_ops (map tx_db_op tx_ops) tx_new).2) as -> by exact (eq_sym (f_equal snd Hrun)). split; vm_compute; reflexivity.
Defined.

Lemma committed_tries_survive_restart_witness :
  ∃ db', run_ops (map tx_db_op (take 11 tx_ops) ++ [OpCommit 17]) tx_new = (Ok tt, db') ∧
    let reopened := NewDatabaseWithCache (K := gmap (list byte) (list byte)) (td_diskdb db') 0 in
    readable tx_content reopened 16 ∧ db_preimage 40 reopened = (Ok [1; 2; 3], reopened) ∧
    (Node 14 reopened).1 = Err errNotFound.
Proof.
  assert (map tx_db_op (take 11 tx_ops) ++ [OpCommit 17] = map tx_db_op (take 11 tx_ops ++ [Do (OpCommit 17)])) as Heq by by rewrite map_app.
  destruct (committed_tries_survive_restart tx_content tx_ext tx_content_ok (∅ : Database) 1 0 (map tx_db_op (take 11 tx_ops)) 17) as (db' & Hrun & Hread & Hpre);
    [exact tx_disk_good|rewrite Heq; by apply tx_allowed; vm_compute|].
  exists db'. split; [exact Hrun|]. cbv zeta. split.
  - apply Hread. apply reach_step with 16; [by apply (bool_decide_unpack (16 ∈ tx_links 17)); vm_compute|]. constructor.
  - split; [apply Hpre; apply list_elem_of_fmap; exists (Do (OpPreimage 40 [1; 2; 3])); split; [done|]; apply list_elem_of_In; cbn; tauto|].
    assert (db' = (run_ops (map tx_db_op (take 11 tx_ops) ++ [OpCommit 17]) tx_new).2) as -> by exact (eq_sym (f_equal snd Hrun)). by vm_compute.
Defined.

Lemma cap_meets_its_limit_witness :
  ∃ db db', run_ops (map tx_db_op (take 11 tx_ops)) tx_new = (Ok tt, db) ∧ Cap 500 db = (Ok tt, db') ∧
    memory db = 1374 ∧ memory db' = 336.
Proof.
  destruct (cap_meets_its_limit tx_content tx_ext tx_content_ok (∅ : Database) 1 (map tx_db_op (take 11 tx_ops)) 500) as (db & db' & Hrun & Hcap & _ & _ & _);
    [exact tx_disk_good|by apply tx_allowed; vm_compute|].
  exists db, db'. do 2 (split; [done|]). pose proof (f_equal snd Hrun : _ = db) as Hdb. subst db. pose proof (f_equal snd Hcap : _ = db') as Hdb. subst db'.
  split; vm_compute; reflexivity.
Defined.

(** ** A blob of 65504 bytes is counted as nothing, and taken off as 65536 *)
Lemma large_blob_miscounted :
  let db := (InsertBlob 1 (replicate 65504 0) tx_new).2 in
  memory db = 65632 ∧ (Size db).1 = 96 ∧ (Size (Cap 0 db).2).1 = - 65536 ∧ memory (Cap 0 db).2 = 0.
Proof. vm_compute. done. Qed.

(** * An encoding that spells out lengths *)
Fixpoint put_item (i : rlp_item) : list byte :=
  match i with
  | rStr s => 0 :: Z.of_nat (length s) :: s
  | rList l => 1 :: Z.of_nat (length l) :: concat (map put_item l)
  end.
Fixpoint get_items (get : list byte → option (rlp_item * list byte)) (n : nat) (bs : list byte) : option (list rlp_item * list byte) :=
  match n with
  | O => Some ([], bs)
  | S n => '(i, bs) ← get bs; '(l, bs) ← get_items get n bs; Some (i :: l, bs)
  end.
Fixpoint get_item (fuel : nat) (bs : list byte) : option (rlp_item * list byte) :=
  match fuel, bs with
  | S fuel, tag :: n :: rest =>
      if tag =? 0 then Some (rStr (take (Z.to_nat n) rest), drop (Z.to_nat n) rest)
      else '(l, rest) ← get_items (get_item fuel) (Z.to_nat n) rest; Some (rList l, rest)
  | _, _ => None
  end.
#[local] Instance plain_digest : NodeDigest := {
  rlp_Encode := put_item;
  keccak256 := foldl (λ acc b, (acc * 257 + b + 1) mod 256 ^ 32) 7
}.
#[local] Instance plain_decode : NodeDecode := λ bs, match get_item (S (length bs)) bs with Some (i, []) => Some i | _ => None end.
#[local] Instance plain_range : DigestRange.
Proof.
  intros bs. assert (∀ acc, is_hash acc → is_hash (foldl (λ acc b, (acc * 257 + b + 1) mod 256 ^ 32) acc bs)) as Hall; [|apply Hall; by vm_compute].
  induction bs as [|b bs IH]; intros acc Hacc; [done|]. apply IH. unfold is_hash. apply Z.mod_pos_bound. by vm_compute.
Qed.
Lemma get_put_item fuel i rest : (item_depth i < fuel)%nat → get_item fuel (put_item i ++ rest) = Some (i, rest).
Proof.
  revert i rest. induction fuel as [|fuel IH]; intros i rest Hf; [lia|]. destruct i as [s|l]; cbn [put_item get_item app].
  - change (0 =? 0) with true. cbn iota. rewrite Nat2Z.id, take_app_length, drop_app_length. done.
  - change (1 =? 0) with false. cbn iota. rewrite Nat2Z.id.
    assert (get_items (get_item fuel) (length l) (concat (map put_item l) ++ rest) = Some (l, rest)) as ->; [|done].
    assert (∀ i, i ∈ l → (item_depth i < fuel)%nat) as Hl by (intros i Hi; pose proof (item_depth_child l i Hi); lia). clear Hf.
    induction l as [|i l IHl]; [done|]. cbn [length map concat get_items]. rewrite <- app_assoc, IH by (apply Hl; by left). cbn [mbind option_bind].
    rewrite IHl; [done|]. intros j Hj. apply Hl. by right.
Qed.
Lemma put_depth d : ∀ i, (item_depth i < d)%nat → (item_depth i < length (put_item i))%nat.
Proof.
  induction d as [|d IH]; intros i Hd; [lia|]. destruct i as [s|l]; [cbn; lia|]. cbn [put_item length].
  assert (item_depth (rList l) ≤ S (length (concat (map put_item l))))%nat; [|lia].
  assert (∀ i, i ∈ l → (item_depth i < length (put_item i))%nat) as Hl by (intros i Hi; apply IH; pose proof (item_depth_child l i Hi); lia). clear -Hl.
  cbn [item_depth]. apply le_n_S. induction l as [|i l IHl]; [cbn; lia|]. cbn [foldr map concat]. rewrite length_app.
  pose proof (Hl i ltac:(by left)). specialize (IHl ltac:(intros j Hj; apply Hl; by right)). lia.
Qed.
#[local] Instance plain_laws : NodeCodecLaws.
Proof.
  split; [|by destruct i]. intros i. unfold rlp_Split, plain_decode. change (rlp_Encode i) with (put_item i). rewrite <- (app_nil_r (put_item i)) at 2. rewrite get_put_item; [done|].
  pose proof (put_depth (S (item_depth i)) i ltac:(lia)). lia.
Qed.

(** * The scenario

    Two generations of one trie; the second edits the trie opened by its root. *)
Definition sx_ops : list trie_op := [OpUpdate key_do (value_of 1); OpUpdate key_dog (value_of 2); OpUpdate key_horse (value_of 3); OpUpdate [100; 112] [5]; OpUpdate [101; 1] [6; 6]].
Definition sx_edits : list trie_op := [OpGet key_dog; OpUpdate key_dog (value_of 7); OpDelete [101; 1]].
Definition sx_map : gmap (list byte) (list byte) := (map_ops ∅ sx_ops).2.
Definition sx_new : ToyDB := NewDatabaseWithCache ∅ 1.
Definition sx_trie : node := (TrieMap.run_ops (node_of sx_new) nilNode sx_ops).2.
Definition root_of (x : node) : Hash := match (Trie_Commit false x).1 with Ok (h, _) => h | _ => 0 end.
Definition calls_of (x : node) : list store_call := (Trie_Commit false x).2.
Definition sx_before : list db_op := stores (calls_of sx_trie) ++ [OpHold (root_of sx_trie)].
Definition sx_db : ToyDB := (run_ops sx_before sx_new).2.
Definition opening (r : Result trie_error node) : node := match r with Ok t => t | _ => nilNode end.
Definition sx_loaded : node := opening (trie_New (node_of sx_db) (root_of sx_trie)).
Definition sx_edited : node := (TrieMap.run_ops (node_of sx_db) sx_loaded sx_edits).2.
Definition sx_calls : list store_call := Eval vm_compute in calls_of sx_trie ++ calls_of sx_edited.
Definition sx_pairs : list (Hash * node) := Eval vm_compute in omap (λ call, match call with DbInsert h _ c => Some (h, c) | OnLeaf _ _ => None end) sx_calls.
Definition sx_edited_map : gmap (list byte) (list byte) := (map_ops sx_map sx_edits).2.

(** What every hash is the hash of. *)
Definition sx_content (h : Hash) : option raw_node := raw_of <$> (list_to_map sx_pairs : gmap Hash node) !! h.
Definition sx_ext (h : Hash) : list Hash := [].
Definition sx_store (h : Hash) : db_op := match (list_to_map sx_pairs : gmap Hash node) !! h with Some c => OpStore h (put_item (EncodeRLP c)) (inr c) [] | None => OpRead h end.

(** ** A checker for collapsed nodes *)
Definition nibbleb (b : byte) : bool := (0 <=? b) && (b <? 16).
Definition tkeyb (k : list byte) : bool := bool_decide (last k = Some terminator) && forallb nibbleb (take (pred (length k)) k).
Fixpoint collapsedb (c : node) : bool :=
  let childb (c : node) : bool := match c with
    | hashNode h => bool_decide (0 ≤ h < 256 ^ 32)
    | shortNode _ _ _ | fullNode _ _ => collapsedb c && (length (put_item (EncodeRLP c)) <? 32)%nat
    | _ => false end in
  match c with
  | shortNode key v _ =>
      let k := compactToHex key in bool_decide (compact_key k = key) &&
      match v with valueNode _ => tkeyb k | _ => forallb nibbleb k && childb v end
  | fullNode cs _ =>
      match cs with
      | [c0; c1; c2; c3; c4; c5; c6; c7; c8; c9; c10; c11; c12; c13; c14; c15; v] =>
          forallb (λ c, is_nil c || childb c) [c0; c1; c2; c3; c4; c5; c6; c7; c8; c9; c10; c11; c12; c13; c14; c15] &&
          match v with nilNode => true | valueNode (_ :: _) => true | _ => false end
      | _ => false
      end
  | _ => false
  end.
Definition childb (c : node) : bool := match c with
  | hashNode h => bool_decide (0 ≤ h < 256 ^ 32)
  | shortNode _ _ _ | fullNode _ _ => collapsedb c && (length (put_item (EncodeRLP c)) <? 32)%nat
  | _ => false end.
Lemma nibblesb_ok k : forallb nibbleb k = true → Forall is_nibble k.
Proof. intros Hk. apply Forall_forall. intros b Hb. rewrite forallb_forall in Hk. specialize (Hk b (proj1 (list_elem_of_In _ _) Hb)). unfold nibbleb, is_nibble in *. lia. Qed.
Lemma tkeyb_ok k : tkeyb k = true → tkey k.
Proof.
  intros [Hl%bool_decide_eq_true Hn]%andb_true_iff. apply last_Some in Hl as [l ->]. exists l. split; [|done]. apply nibblesb_ok.
  rewrite length_app in Hn. cbn [length] in Hn. by rewrite Nat.add_1_r, Nat.pred_succ, take_app_length in Hn.
Qed.
Lemma collapsedb_ok c : collapsedb c = true → collapsed_ok c.
Proof.
  assert (∀ c, (collapsedb c = true → collapsed_ok c) → childb c = true → child_collapsed c) as Hchild.
  { intros c0 Hc. destruct c0 as [|h| |k v fl|cs fl]; cbn [childb]; try done; [intros Hh%bool_decide_eq_true; by constructor|..];
      (intros [Hb Hs%Nat.ltb_lt]%andb_true_iff; apply child_small; [by apply Hc|exact Hs]). }
  induction c as [|h|v|k n fl IH|ns fl IH] using node_nested_ind; try done.
  - cbn [collapsedb]. intros [Hk%bool_decide_eq_true Hv]%andb_true_iff. rewrite <- Hk.
    destruct n as [|h|v|k1 v1 fl1|cs1 fl1]; [by rewrite andb_false_r in Hv| |constructor; by apply tkeyb_ok|..];
      apply andb_true_iff in Hv as [Hn Hc]; (constructor; [by apply nibblesb_ok|by apply Hchild]).
  - destruct (decide (length ns = 17%nat)) as [Hlen|Hlen]; [|intros Hc; exfalso; cbn [collapsedb] in Hc; do 17 (destruct ns as [|? ns]; [done|]); by destruct ns].
    do 17 (destruct ns as [|? ns]; [done|]). destruct ns; [|done]. cbn [collapsedb]. intros [Hc Hv]%andb_true_iff.
    change (collapsed_ok (fullNode ([n; n0; n1; n2; n3; n4; n5; n6; n7; n8; n9; n10; n11; n12; n13; n14] ++ [n15]) fl)). constructor; [done| |].
    + apply (Forall_app _ [n; n0; n1; n2; n3; n4; n5; n6; n7; n8; n9; n10; n11; n12; n13; n14] [n15]) in IH as [IH _]. rewrite forallb_forall in Hc.
      apply Forall_forall. intros x Hx. specialize (Hc x (proj1 (list_elem_of_In _ _) Hx)). rewrite Forall_forall in IH. specialize (IH x Hx).
      destruct (is_nil x) eqn:Hnil; [left; by destruct x|right]. by apply Hchild.
    + destruct n15 as [| |[|b w]| |]; try done; [by left|right; by exists (b :: w)].
Qed.

Definition sx_good_call (call : store_call) : bool :=
  match call with
  | DbInsert h blob c => negb (h =? zero_hash) && negb (h =? emptyRoot) && (Z.of_nat (length (node_hashes c)) <? 2 ^ 16) && collapsedb c && bool_decide (0 ≤ h < 256 ^ 32) &&
      bool_decide (blob = put_item (EncodeRLP c)) && forallb (λ x, bool_decide (is_Some (sx_content x))) (node_hashes c) && bool_decide (uint16 (Z.of_nat (length blob)) + 32 < 2 ^ 16)
  | OnLeaf _ _ => true
  end.
Lemma sx_calls_good : forallb sx_good_call sx_calls = true.
Proof. vm_compute. reflexivity. Qed.
Lemma sx_nodup : NoDup sx_pairs.*1.
Proof. apply (bool_decide_unpack (NoDup sx_pairs.*1)). by vm_compute. Qed.
Lemma sx_pair h c : (h, c) ∈ sx_pairs → ∃ blob, DbInsert h blob c ∈ sx_calls.
Proof. change sx_pairs with (omap (λ call, match call with DbInsert h _ c => Some (h, c) | OnLeaf _ _ => None end) sx_calls). intros ([h1 blob c1|] & Hin & [= <- <-])%list_elem_of_omap. by exists blob. Qed.
Lemma sx_insert h blob c : DbInsert h blob c ∈ sx_calls → (list_to_map sx_pairs : gmap Hash node) !! h = Some c.
Proof.
  intros Hin. apply elem_of_list_to_map; [exact sx_nodup|].
  change sx_pairs with (omap (λ call, match call with DbInsert h _ c => Some (h, c) | OnLeaf _ _ => None end) sx_calls). apply list_elem_of_omap. by exists (DbInsert h blob c).
Qed.
Lemma sx_call h blob c : DbInsert h blob c ∈ sx_calls → (h ≠ zero_hash ∧ h ≠ emptyRoot ∧ is_hash h) ∧ Z.of_nat (length (node_hashes c)) < 2 ^ 16 ∧ collapsed_ok c ∧ blob = put_item (EncodeRLP c) ∧
  (∀ x, x ∈ node_hashes c → is_Some (sx_content x)) ∧ blob_fits blob.
Proof.
  intros Hin. pose proof sx_calls_good as Hall. rewrite forallb_forall in Hall. specialize (Hall _ (proj1 (list_elem_of_In _ _) Hin)). unfold sx_good_call in Hall.
  apply andb_true_iff in Hall as [Hall Hfit%bool_decide_eq_true]. apply andb_true_iff in Hall as [Hall Hcl]. apply andb_true_iff in Hall as [Hall Hbl%bool_decide_eq_true].
  apply andb_true_iff in Hall as [Hall Hr%bool_decide_eq_true]. apply andb_true_iff in Hall as [Hall Hco%collapsedb_ok]. apply andb_true_iff in Hall as [Hall Hlen%Z.ltb_lt].
  apply andb_true_iff in Hall as [Hz He%negb_true_iff%Z.eqb_neq]. split; [split_and!; [by apply nonzerob|done|exact Hr]|]. split_and!; [done|done|done| |done].
  intros x Hx. rewrite forallb_forall in Hcl. specialize (Hcl x (proj1 (list_elem_of_In _ _) Hx)). by apply bool_decide_eq_true in Hcl.
Qed.
Lemma sx_named h r : sx_content h = Some r → ∃ blob c, DbInsert h blob c ∈ sx_calls ∧ r = raw_of c ∧ (list_to_map sx_pairs : gmap Hash node) !! h = Some c.
Proof. unfold sx_content. intros (c & Hc & ->)%fmap_Some. pose proof (elem_of_list_to_map_2 _ _ _ Hc) as [blob Hin]%sx_pair. by exists blob, c. Qed.
Lemma sx_content_ok : content_ok sx_content.
Proof.
  split; intros h r (blob & c & Hin & -> & _)%sx_named; apply sx_call in Hin as ((? & ? & ?) & Hlen & Hc & _).
  - done.
  - rewrite gather_hashes, inner_raw_of by (done || by left). by destruct (raw_of c).
  - by rewrite inner_raw_of.
Qed.
Lemma sx_content_nodes : content_nodes sx_content.
Proof.
  split.
  - intros h r (blob & c & Hin & -> & _)%sx_named. apply sx_call in Hin as (_ & _ & Hc & _). left. by exists c.
  - intros h r x (blob & c & Hin & -> & _)%sx_named. apply sx_call in Hin as (_ & _ & Hc & _ & Hall & _). rewrite inner_raw_of by done. apply Hall.
  - destruct (sx_content emptyRoot) as [r|] eqn:Hr; [|done]. apply sx_named in Hr as (blob & c & Hin & _). by apply sx_call in Hin as ((_ & ? & _) & _).
Qed.
Lemma sx_store_op h r : sx_content h = Some r → ∃ blob n, sx_store h = OpStore h blob n (sx_ext h) ∧ cached_form n = Ok r ∧ blob_fits blob.
Proof.
  intros (blob & c & Hin & -> & Hl)%sx_named. apply sx_call in Hin as (_ & _ & Hc & Hb & _ & Hfit). exists (put_item (EncodeRLP c)), (inr c). unfold sx_store. rewrite Hl.
  split_and!; [done| |by rewrite <- Hb]. by destruct (raw_ok (E := trie_db_error) c (or_introl Hc) None) as (? & _).
Qed.
Lemma sx_plain calls : (∀ call, call ∈ calls → call ∈ sx_calls) → plain sx_content sx_ext calls.
Proof.
  intros Hsub h blob c Hin. apply Hsub in Hin. pose proof (sx_insert _ _ _ Hin) as Hl. apply sx_call in Hin as (_ & _ & _ & _ & _ & Hfit).
  unfold sx_content. by rewrite Hl.
Qed.

(** * The first generation *)
Lemma sx_disk_good : disk_good (K := gmap (list byte) (list byte)) sx_content sx_ext ∅.
Proof.
  assert (∀ h, ¬ on_disk sx_content ∅ h) as Hno by (intros h [_ [? Hh]]; by rewrite lookup_empty in Hh).
  split; [split|exists (λ _, 0%nat)]; try done; try (intros h c Hd; by destruct (Hno h)).
Qed.
Abbreviation sx_serves := (serves sx_content sx_ext).
Abbreviation sx_check := (check_run sx_content sx_ext sx_store).
Lemma sx_allowed ops db hs : sx_check ops db hs = true → allowed_run sx_content sx_ext (map (db_op_of sx_store) ops) db hs.
Proof. apply check_run_ok, sx_store_op. Qed.
Lemma sx_room db n : (Z.of_nat n <? 2 ^ 32) && roomb db n = true → room db n.
Proof. intros [Hn Hr]%andb_true_iff. split; [lia|by apply roomb_room]. Qed.
Definition sx_before_ops : list tx_op := map (λ p, Put p.1) (take (length (stores (calls_of sx_trie))) sx_pairs) ++ [Do (OpHold (root_of sx_trie))].
Lemma sx_before_eq : map (db_op_of sx_store) sx_before_ops = sx_before.
Proof. vm_compute. reflexivity. Qed.
Lemma sx_before_allowed : allowed_run sx_content sx_ext sx_before sx_new (λ _, 0%nat).
Proof. rewrite <- sx_before_eq. apply sx_allowed. vm_compute. reflexivity. Qed.
Lemma sx_new_serves : sx_serves sx_new (λ _, 0%nat).
Proof. apply new_serves, sx_disk_good. Qed.
Lemma run_serves (content : Hash → option raw_node) (ext : Hash → list Hash) (Hco : content_ok content) (ops : list db_op) (db : ToyDB) (hs : Hash → nat) : serves content ext db hs → allowed_run content ext ops db hs →
  run_ops ops db = (Ok tt, (run_ops ops db).2) ∧ serves content ext (run_ops ops db).2 (holds_after ops hs).
Proof. intros Hs Ha. pose proof (db_run_ok content ext Hco _ _ _ Hs Ha) as ([] & db' & Hrun & Hs' & _)%returns_run. by rewrite Hrun. Qed.
Lemma reopen_after (content : Hash → option raw_node) (ext : Hash → list Hash) (Hco : content_ok content) (Hno : content_nodes content) (db0 db : ToyDB) (hs0 hs : Hash → nat) x m : serves content ext db0 hs0 → opened db0 x m → plain content ext (calls_of x) →
  room db0 (refs (calls_of x)) → serves content ext db hs → root_of x ≠ zero_hash → known content db (root_of x) → opened db (opening (trie_New (node_of db) (root_of x))) m.
Proof.
  intros Hs0 Hx Hp Hroom Hs Hz Hk. destruct (commit_opened content ext Hco Hno db0 hs0 x m Hs0 Hx Hp Hroom) as (root & x' & db1 & n & Hc & _ & _ & Hs1 & _ & Hr & Hroot & Hst).
  assert (root_of x = root) as Hroot' by (unfold root_of; by rewrite Hc). rewrite Hroot' in *.
  destruct (reopen_stored content ext Hco Hno db1 _ db _ root n m Hs1 Hs Hr (proj2 Hx) Hroot Hst Hz Hk) as (t & Ht & Hopen). by rewrite Ht.
Qed.
Lemma run_opened (db : ToyDB) x m (ops : list trie_op) : opened db x m → Forall (λ o, Forall is_byte (op_key o)) ops → opened db (TrieMap.run_ops (node_of db) x ops).2 (map_ops m ops).2.
Proof. intros Hx Hops. by destruct (run_ops_opened db x m ops Hx Hops) as (x' & -> & Hx'). Qed.
Lemma sx_before_run : run_ops sx_before sx_new = (Ok tt, sx_db) ∧ sx_serves sx_db (holds_after sx_before (λ _, 0%nat)).
Proof. exact (run_serves _ _ sx_content_ok _ _ _ sx_new_serves sx_before_allowed). Qed.
Lemma sx_sub l1 l2 : (∃ k, sx_calls = k ++ l1 ++ l2) → plain sx_content sx_ext l1.
Proof. intros [k Hk]. apply sx_plain. intros call Hc. rewrite Hk. set_solver. Qed.
Lemma sx_trie_opened : opened sx_new sx_trie sx_map.
Proof. apply (run_opened sx_new nilNode ∅ sx_ops (opened_empty _)). apply trie_keys_ok. (vm_compute; reflexivity). Qed.
Lemma sx_loaded_opened : opened sx_db sx_loaded sx_map.
Proof.
  apply (reopen_after _ _ sx_content_ok sx_content_nodes sx_new sx_db (λ _, 0%nat) (holds_after sx_before (λ _, 0%nat)) sx_trie sx_map sx_new_serves sx_trie_opened).
  - apply (sx_sub _ (calls_of sx_edited)). exists []. (vm_compute; reflexivity).
  - apply sx_room. (vm_compute; reflexivity).
  - exact (proj2 sx_before_run).
  - apply nonzerob. (vm_compute; reflexivity).
  - apply knownb_known. (vm_compute; reflexivity).
Qed.

Lemma loaded_trie_is_a_map_witness :
  length (node_hashes sx_loaded) = 1%nat ∧ (TrieMap.run_ops (node_of sx_db) sx_loaded sx_edits).1 = [Ok (Some (value_of 2)); Ok None; Ok None] ∧ opened sx_db sx_edited sx_edited_map.
Proof.
  split; [vm_compute; reflexivity|]. destruct (loaded_trie_is_a_map sx_db sx_loaded sx_map sx_edits) as [Hans Hopen]; [exact sx_loaded_opened|apply trie_keys_ok; (vm_compute; reflexivity)|].
  split; [|exact Hopen]. etrans; [exact Hans|]. (vm_compute; reflexivity).
Defined.

(** * The second *)
Lemma sx_edited_opened : opened sx_db sx_edited sx_edited_map.
Proof. apply (run_opened sx_db sx_loaded sx_map sx_edits sx_loaded_opened). apply trie_keys_ok. (vm_compute; reflexivity). Qed.
Definition sx_rest : list tx_op := map Do [OpHold (root_of sx_edited); OpRelease (root_of sx_trie); OpCap 0; OpCommit (root_of sx_edited)].
Lemma sx_commits : OpCommit (root_of sx_edited) ∈ map (db_op_of sx_store) sx_rest.
Proof. unfold sx_rest. generalize (root_of sx_edited), (root_of sx_trie). intros r r'. cbn. set_solver. Qed.
Lemma committed_trie_reopens_witness : let root := root_of sx_edited in
  ∃ db1 db2 t, run_ops (stores (calls_of sx_edited)) sx_db = (Ok tt, db1) ∧ run_ops (map (db_op_of sx_store) sx_rest) db1 = (Ok tt, db2) ∧
    let again := NewDatabaseWithCache (K := gmap (list byte) (list byte)) (td_diskdb db2) 0 in
    trie_New (node_of again) root = Ok t ∧ opened again t sx_edited_map ∧ (TryGet (node_of again) t key_dog).1 = Ok (Some (value_of 7)).
Proof.
  intros root. destruct (committed_trie_reopens sx_content sx_ext sx_content_ok sx_content_nodes ∅ 1 sx_before sx_db sx_edited sx_edited_map) as (root' & x' & db1 & Hc & _ & Hrun1 & _ & Hrest);
    [exact sx_disk_good|exact sx_before_allowed|apply sx_before_run|exact sx_edited_opened| |apply sx_room; (vm_compute; reflexivity)|].
  { apply (sx_sub _ []). exists (calls_of sx_trie). (vm_compute; reflexivity). }
  assert (root' = root) as -> by (unfold root, root_of; by rewrite Hc). assert (db1 = (run_ops (stores (calls_of sx_edited)) sx_db).2) as Hdb1 by (unfold calls_of; rewrite Hrun1; reflexivity).
  destruct (Hrest (map (db_op_of sx_store) sx_rest)) as (db2 & Hrun2 & _ & Hagain).
  - apply sx_allowed. rewrite Hdb1. (vm_compute; reflexivity).
  - apply nonzerob. (vm_compute; reflexivity).
  - right. exact sx_commits.
  - destruct (Hagain 0 sx_commits) as (t & Ht & Hopen). exists db1, db2, t. split; [exact Hrun1|]. split; [exact Hrun2|]. cbv zeta. split; [exact Ht|]. split; [exact Hopen|].
    assert (db2 = (run_ops (map (db_op_of sx_store) sx_rest) db1).2) as Hdb2 by (rewrite Hrun2; reflexivity).
    assert (t = opening (trie_New (node_of (NewDatabaseWithCache (td_diskdb db2) 0)) root)) as -> by (rewrite Ht; reflexivity). rewrite Hdb2, Hdb1. (vm_compute; reflexivity).
Defined.

Lemma node_codec_roundtrip_witness :
  let c := fullNode (<[2%nat := hashNode 77]> (<[3%nat := shortNode [58] (valueNode [9]) newFlag]> (replicate 17 nilNode))) newFlag in
  mustDecodeNode (E := unit) 5 (put_item (EncodeRLP c)) = Ok (expanded (Some 5) c) ∧
  expanded (Some 5) c = fullNode (<[2%nat := hashNode 77]> (<[3%nat := shortNode [10; 16] (valueNode [9]) (mkFlag None false)]> (replicate 17 nilNode))) (mkFlag (Some 5) false).
Proof. intros c. destruct (node_codec_roundtrip (E := unit) 5 c) as [Hd _]; [apply collapsedb_ok; vm_compute; reflexivity|]. split; [exact Hd|vm_compute; reflexivity]. Defined.
