(* ===== verification/WorkerExamples.v ===== *)
(** The worker at a concrete input: a cycle that keeps two transactions of two
    accounts, refuses one that cannot be paid after charging its gas, and sets
    an account aside whose nonces have a gap; then the sealed block comes back. *)
From S2P Require Import Prelude Hoare Types Sealing Blocks Heap Transition StateDB StateTransfer TxSigning.
From S2P Require Import Processor Twin Worker WorkerSpec WorkerBlock Instances.

Abbreviation Trie := (gmap Address Account).
(** A store that leaves a trie alone when it writes nothing. *)
#[local] Instance mx_store : StateStore := {
  storage_read := storage_read (StateStore := toy_store);
  storage_write r m := if decide (m = ∅) then r else storage_write (StateStore := toy_store) r m;
  ContractCode := ContractCode (StateStore := toy_store);
  code_hash := code_hash (StateStore := toy_store)
}.
#[local] Instance mx_store_laws : StateStoreLaws.
Proof.
  intros r m k. cbn. case_decide as Hm; [subst m; by rewrite lookup_empty|]. apply (toy_store_laws r m k).
Qed.
#[local] Instance mx_store_idle : StateStoreIdle.
Proof. intros r. done. Qed.
#[local] Instance mx_trie_ext : StateTrieExt Trie.
Proof. intros t t' Ht. assert (t = t') as ->; [|done]. apply map_eq. exact Ht. Qed.
#[local] Instance mx_located : LocatedDigests.
Proof.
  intros hash number i receipts. cbn. f_equal. revert i. induction receipts as [|r l IH]; intros i; [done|]. cbn. by rewrite IH.
Qed.
#[local] Instance mx_engine : BlockEngine := λ _, 9.

Definition mx_ChainID : option Z := Some 10.
Definition mx_trie : Trie := {[ 1 := mkAccount 0 1000000 zero_hash emptyCodeHash; 2 := mkAccount 4 100000 zero_hash emptyCodeHash ]}.
Definition mx_tx (from nonce price amount : Z) : Transaction :=
  match SignTx (mkTransaction nonce price 30000 (Some 5) amount [] 0 0 0) HomesteadSigner (toy_tx_sign from) with Ok tx => tx | _ => mkTransaction 0 0 0 None 0 [] 0 0 0 end.
Definition mx_pending : gmap Address (list Transaction) :=
  {[ 1 := [mx_tx 1 0 3 500; mx_tx 1 1 4 2000000; mx_tx 1 3 9 1]; 2 := [mx_tx 2 4 2 7] ]}.
Definition mx_parent : Block := mkBlock (mkHeader 0 0 0 0 0 0 0 (Some 1) (Some 7) 8000000 0 100 [] 0 0) [] [].
#[local] Instance mx_chain : WorkerChain unit Trie := {
  wc_CurrentBlock _ := mx_parent;
  wc_StateAt _ _ := Some (New mx_trie);
  wc_GetBlocksFromHash _ _ _ := [mx_parent];
  wc_HasBlock _ _ _ := false;
  wc_Prepare _ h := Some (with_Extra (with_Difficulty h (Some 2)) (repeat 0 65));
  wc_SealHash h := match SealHash (E := unit) h with Ok hash => hash | _ => 0 end;
  wc_Pending _ := mx_pending;
  wc_PendingCount _ := 4;
  wc_Locals _ := [2]
}.
Definition mx_sent_ok (tx : Transaction) : bool :=
  (0 <=? TxGasLimit tx) && (TxGasLimit tx <? u64_modulus) && (Z.of_nat (length (Payload tx)) <=? MaxUint64) &&
  match Signer_Sender (MakeSigner mx_ChainID) tx with Ok from => negb (from =? ripemd) | _ => false end.
Lemma mx_sent tx : mx_sent_ok tx = true → sent mx_ChainID tx.
Proof.
  unfold mx_sent_ok. rewrite !andb_true_iff. intros [[[H1 H2] H3] H4]. split; [split; [split; lia|lia]|].
  destruct (Signer_Sender _ tx) as [from| |]; [|done..]. exists from. split; [done|]. intros ->. done.
Qed.
#[local] Instance mx_laws : WorkerChainLaws unit Trie mx_ChainID.
Proof.
  split.
  - intros chain h h' [= <-]. by split; [..|eexists].
  - intros chain root s [= <-]. apply New_clean.
  - intros chain. assert (∀ a l, mx_pending !! a = Some l → (a = 1 ∧ l = [mx_tx 1 0 3 500; mx_tx 1 1 4 2000000; mx_tx 1 3 9 1]) ∨ (a = 2 ∧ l = [mx_tx 2 4 2 7])) as Hp.
    { intros a l. unfold mx_pending. intros [[<- <-]|[_ [<- <-]%lookup_singleton_Some]]%lookup_insert_Some; [by left|by right]. }
    split; intros a l Hl; destruct (Hp a l Hl) as [[-> ->]|[-> ->]].
    + split; [done|]. apply Forall_forall. repeat constructor.
    + split; [done|]. apply Forall_forall. repeat constructor.
    + repeat (constructor; [by apply mx_sent; vm_compute|]). done.
    + repeat (constructor; [by apply mx_sent; vm_compute|]). done.
Qed.
Definition mx_worker : worker Trie := mkWorker 9 [] true None ∅ ∅ ∅ None 0 None [] [].
Definition mx_run := commitNewWork mx_ChainID 8000000 9000000 () None true 105 mx_worker.
Example mx_posts : (λ t, (AccountNonce <$> block_transactions (task_block t), GasUsed (block_header (task_block t)))) <$> w_posted mx_run.2 = [([4; 0], 42000)].
Proof. vm_compute. reflexivity. Qed.

(** The state of a node that has the parent. *)
Definition mx_node : StateDB Trie := New mx_trie.
Lemma mx_alike : alike mx_node mx_node.
Proof. apply alike_refl, New_clean. Qed.
Definition mx_sealed (t : task Trie) : Block := WithSeal (task_block t) (with_Extra (block_header (task_block t)) (repeat 7 65)).

Lemma mx_numbered : numbered ∅.
Proof. intros hash b. by rewrite lookup_empty. Qed.
Lemma commitNewWork_posts_valid_blocks_witness :
  ∃ t, w_posted mx_run.2 = [t] ∧ length (block_transactions (task_block t)) = 2%nat ∧
    ∃ receipts logs node', Process mx_ChainID (mx_sealed t) mx_node = (Ok (receipts, logs, 42000), node') ∧
      (ValidateState (mx_sealed t) node' receipts 42000).1 = Ok tt.
Proof.
  destruct (commitNewWork_posts_valid_blocks mx_ChainID 8000000 9000000 () None true 105 mx_worker) as (w' & tasks & Hrun & Hposted & Hvalid);
    [reflexivity|done|done|by eexists|exact mx_numbered|exact mx_numbered|].
  assert (w' = mx_run.2) as -> by exact (eq_sym (f_equal snd Hrun)). change (w_posted mx_worker) with (@nil (task Trie)) in Hposted. cbn [app] in Hposted.
  pose proof mx_posts as Hp. rewrite Hposted in Hp. destruct tasks as [|t [|t' tasks]]; [done| |done]. injection Hp as Htxs Hused. exists t. split; [exact Hposted|].
  split; [by rewrite <- (length_fmap AccountNonce), Htxs|].
  destruct (Hvalid t ltac:(left)) as (parent & [= <-] & Hv). destruct (Hv (repeat 7 65) mx_node mx_alike eq_refl) as (logs & node' & Hproc & Hstate & _).
  change (GasUsed (block_header (WithSeal (task_block t) (with_Extra (block_header (task_block t)) (repeat 7 65))))) with (GasUsed (block_header (task_block t))) in Hproc, Hstate.
  rewrite Hused in Hproc, Hstate. eexists _, logs, node'. split; [exact Hproc|exact Hstate].
Defined.

(** The task is run, and its sealed block comes back. *)
Definition mx_task : task Trie := default (mkTask [] mx_node mx_parent) (head (w_posted mx_run.2)).
Definition mx_sealing : worker Trie := (task_Run (T := Trie) (C := unit) mx_task mx_run.2).2.
Lemma handleResult_stores_what_nodes_compute_witness :
  ∃ receipts s w', handleResult () (mx_sealed mx_task) true mx_sealing = (Ok (Some (mx_sealed mx_task, receipts, s)), w') ∧
    receipts = locate (Header_Hash (block_header (mx_sealed mx_task))) (Some 8) 0 (task_receipts mx_task) ∧
    length (w_unconfirmed w') = 1%nat.
Proof.
  assert (w_pendingTasks mx_sealing !! wc_SealHash (C := unit) (T := Trie) (block_header (mx_sealed mx_task)) = Some mx_task) as Ht' by (vm_compute; reflexivity).
  pose proof (handleResult_stores_what_nodes_compute mx_ChainID () (mx_sealed mx_task) true mx_sealing 8 ltac:(vm_compute; reflexivity)) as Hspec. cbv zeta in Hspec.
  destruct (handleResult () (mx_sealed mx_task) true mx_sealing) as [[[[[b receipts] s]|]|e|p] w'] eqn:Hrun; [|destruct Hspec as [_ [Hhas|Hnone]]; [discriminate Hhas|rewrite Ht' in Hnone; discriminate Hnone]|destruct Hspec|destruct Hspec].
  destruct Hspec as (-> & _ & Hun & t & t' & Ht & _ & -> & _).
  assert (t = mx_task) as -> by (rewrite Ht in Ht'; apply (inj Some); exact Ht'). eexists _, s, w'. split; [reflexivity|]. split; [reflexivity|].
  rewrite Hun. vm_compute. reflexivity.
Defined.

(** The best price first: account 2 pays more than the first transaction of
    account 1. *)
Definition mx_set : TransactionsByPriceAndNonce :=
  match NewTransactionsByPriceAndNonce (E := Empty_set) (NewEIP155Signer mx_ChainID) mx_pending with Ok t => t | _ => mkTxSet ∅ [] HomesteadSigner end.
Lemma mx_by_account : by_account (NewEIP155Signer mx_ChainID) mx_pending.
Proof. exact (proj1 (wc_Pending_sendable (C := unit) (T := Trie) (ChainID := mx_ChainID) ())). Qed.
Lemma best_price_first_witness :
  ∃ t', Peek mx_set = Some (mx_tx 1 0 3 500) ∧ Shift (E := Empty_set) mx_set = Ok t' ∧ Peek t' = Some (mx_tx 1 1 4 2000000) ∧
    stands_for_queues t' (<[1 := [mx_tx 1 1 4 2000000; mx_tx 1 3 9 1]]> mx_pending).
Proof.
  destruct (best_price_first (NewEIP155Signer mx_ChainID) mx_pending mx_set mx_pending mx_by_account) as [(t0 & Hnew & Hsq) Hset].
  assert (t0 = mx_set) as -> by (unfold mx_set; by rewrite Hnew). destruct (Hset Hsq) as [_ Hnext].
  assert (Peek mx_set = Some (mx_tx 1 0 3 500)) as Hpk by (vm_compute; reflexivity).
  destruct (Hnext _ Hpk) as (l & Hl & _ & (t' & Hshift & Hsq') & _).
  assert (sender_or_zero (ts_signer mx_set) (mx_tx 1 0 3 500) = 1) as Hfrom by (vm_compute; reflexivity). rewrite Hfrom in *.
  assert (mx_pending !! 1 = Some [mx_tx 1 0 3 500; mx_tx 1 1 4 2000000; mx_tx 1 3 9 1]) as Hone by (vm_compute; reflexivity). rewrite Hone in Hl. injection Hl as <-.
  exists t'. split; [exact Hpk|]. split; [exact Hshift|]. split; [|exact Hsq'].
  assert (t' = match Shift (E := Empty_set) mx_set with Ok t => t | _ => mx_set end) as -> by (by rewrite Hshift). vm_compute. reflexivity.
Defined.

(** Interrupted by a new head at the second turn. *)
Definition mx_interrupt : option (nat → Z) := Some (λ turn, if (turn <? 1)%nat then 0 else commitInterruptNewHead).
Definition mx_env : environment Trie := makeCurrent mx_node [mx_parent] (mkHeader 0 0 9 0 0 0 0 (Some 2) (Some 8) 8000000 0 105 [] 0 0).
Lemma commitTransactions_ends_witness :
  ∃ env', env_commitTransactions mx_ChainID mx_set 9 mx_interrupt mx_env = (Ok true, env') ∧ length (env_txs env') = 1%nat ∧
    ∃ n t', nsteps moved_on n mx_set t' ∧ stopped mx_interrupt n t' env' true.
Proof.
  set (run := env_commitTransactions mx_ChainID mx_set 9 mx_interrupt mx_env). assert (run.1 = Ok true) as Hok by (vm_compute; reflexivity).
  assert (run = (Ok true, run.2)) as Hrun by (rewrite <- Hok; apply surjective_pairing). exists run.2. split; [exact Hrun|]. split; [vm_compute; reflexivity|].
  destruct (commitTransactions_ends mx_ChainID 9 mx_interrupt mx_set (set_run (Some 8000000) mx_node 0 mx_env) 0) as [_ Hends].
  destruct (Hends true run.2 Hrun) as (n & t' & Hn & _ & Hs). exists n, t'. split; [exact Hn|exact Hs].
Defined.
